(* ===== verification/_CoqProject ===== *)
-Q . S2P
Prelude.v
Text.v
State.v
Model.v
Expr.v
ExprFacts.v
Config.v
Router.v
RouterFacts.v
Queue.v
QueueFacts.v
QueueProps.v
Graph.v
Dag.v
DagFacts.v
DagTermination.v
DagInvariant.v
DagProps.v
Wait.v
Parallel.v
Foreach.v
Worker.v
ApprovalStore.v
ApprovalFacts.v
Approval.v
ApprovalProps.v
Park.v
ParkFacts.v
ParkProps.v
StepGraph.v
Validate.v
Lower.v
GraphRun.v
ValidateFacts.v
ValidateProps.v
LowerFacts.v
LowerProps.v
Resume.v
ResumeFacts.v
ResumeProps.v
Tasks.v
Settle.v
Dispatch.v
DispatchProps.v
DeliveryProps.v
TasksProps.v
AgentMemory.v
AgentMemoryFacts.v
AgentMemoryProps.v
Spawner.v
SpawnerProps.v
MemoryDoc.v
Subworkflow.v
SubworkflowRuns.v
Binder.v
BinderProps.v
Polling.v
PollingProps.v
PrEvents.v
PrEventsProps.v
ManualRun.v
ManualRunProps.v
WorkerRuntime.v
WorkerRuntimeProps.v
Transport.v
TransportProps.v
SubworkflowLoad.v
SubworkflowLoadProps.v
Prompt.v
PromptProps.v
Structured.v
StructuredProps.v
Timing.v
TimingProps.v
Failover.v
FailoverProps.v
RunnerConfig.v
RunnerConfigProps.v
ConfigCheck.v
ConfigCheckProps.v
