(* ===== verification/Prelude.v ===== *)
(** * Apiary: a verified model of its workflow engine

    Apiary watches external trackers, routes their items to workflows and runs
    the steps of those workflows with coding agents. This development models the
    part that decides: what may be dispatched, what a run does next, what is
    stored about it, what an agent is told and may reach, what is made of its
    answer, and what survives a stop or a restart. Talking to trackers, the
    processes of agents, rendering and I/O stay outside.

    ** The program's parts and how they meet

    A poll of src/internal/daemon/dispatcher.go reads the items a source changed
    since its watermark, binds each to a task (src/internal/source/binder.go), asks
    src/internal/router for the workflows that match, lets the pre-dispatch
    guards drop some, counts the others into the task
    (src/internal/db/task_store.go) and hands them to the durable queue
    (src/internal/queue, src/internal/db/queue_store.go) or to goroutines of its
    own. Pull-request events (src/internal/daemon/pr_events.go) and runs that a
    person asks for (src/internal/daemon/manual_run.go) are dispatched beside the
    polls. A worker (src/internal/worker) claims a job, keeps its lease alive and
    delivers it to the engine (src/internal/workflow/engine.go), which creates or
    takes over an instance row (src/internal/db/workflow_store.go) and drives the
    workflow's step graph (src/internal/workflow/dag.go). A step of an agent is run
    by the first runner of the agent's chain that does useful work
    (src/internal/daemon/workflow.go [ExecuteStep]): the runner writes the prompt,
    starts the agent's process in its sandbox, times it and reads its report
    (src/internal/runner/execution). Other steps may call another
    workflow (subworkflow.go), spawn tasks of its own (spawner.go), and remember
    facts (src/internal/memory). The graph was authored in a nested form, joined
    with the files it names, lowered and validated when the configuration was
    loaded (src/internal/config/subworkflow_load.go, lower_v2.go,
    workflow_graph.go). A run ends, or parks at an approval or a wait until the
    dispatcher wakes it, an operator stops it or the daemon restarts; a failed or
    interrupted one may be resumed. When an instance settles it gives its slot
    of the task back, and the last one of a round settles the task.

    ** Files

    Shared:
    - Prelude: errors, strings, lists, sorting and SQL updates, with the scope,
      tactics and hints the other files use; [Sorter] is the interface of
      [sort.Slice] and ORDER BY, so clients hold for every such order.
    - Text: the functions on strings that the text formats need, and what cutting
      and trimming give.
    - State (src/internal/state): the lifecycle vocabulary.
    - Model (src/internal/model): items, tasks, events, JSON values, and
      [GoRuntime], the interface to standard-library algorithms.
    - Config (src/internal/config/workflow.go, config.go): the records and
      accessors of steps, workflows and triggers.
    - Graph: depth-first marking, shared by the scheduler's closures.

    Conditions and routing:
    - Expr, ExprFacts (workflow/expr.go): the lexer, parser and evaluator of
      conditions; an inductive grammar they are proved against.
    - Router, RouterFacts (router/router.go, event.go).

    The queue:
    - Queue (queue/queue.go, db/queue_store.go, db/busy.go): the tables as maps,
      each method one transaction. QueueFacts, QueueProps: the invariant on all
      interleavings, the lifecycle each job refines, leases and limits.
    - WorkerRuntime, WorkerRuntimeProps (worker/worker.go, the queue durations of
      config/config.go and validate.go): the goroutines of a worker process, one
      step per transaction, among all other users of the store.
    - Transport, TransportProps (queuehttp/protocol.go, daemon/queue_server.go): the
      server and the client through which remote workers use the store.

    The scheduler:
    - Dag (workflow/dag.go): [dagRun] and [driveDAG]; an [Event] per pass says
      what the environment does. DagFacts, DagInvariant, DagTermination,
      DagProps: its frames, invariant, termination and outcomes.
    - Parallel (dag_parallel.go), Foreach (foreach.go), Wait (wait_step.go),
      Worker (the goroutine body): what an I/O-bound step can report.
    - ApprovalStore, ApprovalFacts (db/approval_store.go, daemon/approval_http.go):
      the tables of approval requests and responses, one function per statement, and
      the handler that authorizes a response. Approval, ApprovalProps (approval.go,
      dag.go [enterApproval], daemon/workflow.go [checkApprovals]): opening a gate,
      re-checking it and applying an answer.
    - Park, ParkFacts, ParkProps (wait_park.go, engine.go [settle],
      daemon/workflow_ipc.go): parked runs as a step relation with one
      constructor per critical section.

    What steps share, call and start:
    - MemoryDoc (workflow/memory.go, engine.go): the document that tells a prompt
      of the workflow so far, and the comments and hooks of a finished run.
    - AgentMemory, AgentMemoryFacts, AgentMemoryProps (memory/store.go, with the
      memorize requests of engine.go and the retention sweep of dispatcher.go): the
      files as maps of texts, their formats, recall within a budget.
    - Subworkflow, SubworkflowRuns (workflow/subworkflow.go): a
      step that runs another workflow as a child instance.
    - Spawner, SpawnerProps (workflow/spawner.go, engine.go [spawnStep]): child
      tasks, with their statements and critical sections interleaved.

    From configuration to runs:
    - SubworkflowLoad, SubworkflowLoadProps (config/subworkflow_load.go): the files
      that steps name, over a file system that is a parameter.
    - StepGraph (config/workflow_graph.go): validation of the graph. Validate,
      ValidateFacts, ValidateProps (workflow_validate.go, workflow_contract.go):
      the checks of workflows, steps, triggers, contracts and schemas, and what
      they give a run, a gate and an action. Lower, LowerFacts,
      LowerProps (config/lower_v2.go): lowering. GraphRun: what
      validated and lowered graphs give the scheduler.
    - ConfigCheck, ConfigCheckProps (validate.go, source_config_validate.go,
      profile.go, skills, runner.go, api.go, daemon/dispatcher.go [New]): the checks of
      runners, sources, agents and profiles, the registered adapters, and how the
      agents of a configuration start.
    - Resume, ResumeFacts, ResumeProps (workflow/resume.go, [RehydrateApproval],
      [RehydrateWait], daemon/workflow_resume.go).

    Tasks and dispatch:
    - Tasks, TasksProps (db/task_store.go, db/workflow_store.go, engine.go
      [completeTask]): the two tables, one function per statement.
    - Settle: the workflows of a round as concurrent sequences of those
      statements.
    - Dispatch, DispatchProps, DeliveryProps (daemon/dispatcher.go,
      queue_dispatch.go, resume_auto.go, workflow.go, workflow_ipc.go): guards,
      hand-off, reservations, delivery and settlement. [Stores] joins the two
      tables with the queue of Queue.
    - Binder, BinderProps (source/binder.go, db/binding_store.go, client.go): the
      statements of a bind, with those of other binds and deletions in between.
    - Polling, PollingProps (daemon/dispatcher.go): what a poll does with each
      item, the in-flight markers, and the watermark of the polling loop.
    - PrEvents, PrEventsProps (daemon/pr_events.go, db/pr_event_store.go): events
      of pull requests, their claims and budgets.
    - ManualRun, ManualRunProps (daemon/manual_run.go, dispatcher.go
      [ForceRestart]): runs a person asks for, and forced restarts.

    Running an agent:
    - Prompt, PromptProps (runner/execution/cli.go, structured.go, daemon/workflow.go
      [ExecuteStep], engine.go [runStep]): the texts of the prompt of a step, the memory
      document before them, and the block of the item, whose markers its text cannot
      contain.
    - Structured, StructuredProps (structured.go): the sentinel lines and blocks an
      agent reports with.
    - Timing, TimingProps (timing.go, db/timing.go): the tracker of a run's time and
      the sums over a step.
    - Failover, FailoverProps (daemon/workflow.go [ExecuteStep], detector.go, the
      pauses of daemon/dispatcher.go): how a process that ended becomes a result,
      and the walk along the chain of runners.
    - RunnerConfig, RunnerConfigProps (sandbox.go, cli.go [Configure],
      providers.go, improve/run.go, model/mcp.go): the settings of a runner as a map
      of values, as the daemon and the advisor build it; the command, environment
      and container of a run.

    ** What the theorems show

    - Scheduling: every run keeps the invariant that a step runs only when its
      dependencies allow it, ends within a bound computed from the graph and the
      budgets, and its outcome tells the truth about the steps.
    - Suspension: stops, wakes and re-checks may interleave in any way and a slot
      is given back once, a stopped instance stays stopped, and a parked one is
      watched by exactly one checker.
    - Queue: leases are exclusive and fenced, limits hold, jobs only move along
      their lifecycle.
    - Workers: the runs of a worker process hold claims of their own as long as its
      heartbeats are in time; a drained process has nothing left, and its id is given
      no job when the store took its drain or its last heartbeat and nobody announces
      it again. Over HTTP a call on plain ids is the operation it stands for, and a
      request runs what it names, with the token only.
    - Approvals: a request moves along an abstract gate under every race of
      responses, timeouts and reminders, one caller settles it, a response is
      recorded for a seat its actor holds, and what a run is driven with agrees
      with the store.
    - Calls, children and memory: a call gets the inputs and returns the outputs it
      declares and its row ends as it did, nesting is bounded; a child is launched
      once per key; the memory directory is a map of facts and a log of notes.
    - Configuration: loading ends and yields no circular chain of files, validation
      decides well-formedness, the agents of a checked configuration start unless one
      has no runner or its runner refuses its settings, lowering flattens and is
      settled, a checked graph strands steps in one kind of knot only and a lowered
      list of steps strands none, and what a run of an accepted workflow executes is
      well configured, but for one unchecked name; accepted gates can be answered.
    - Conditions and routing: the parser accepts its grammar, evaluation reads
      what it says it reads, fan-out and event gates are exact.
    - Resume: what is carried over, where an instance parks again, and that the
      preview agrees.
    - Dispatch: guards, accounting and reservations are exact, settlement happens
      once, a round settles its task once under every interleaving, the restart
      repair is exact and stable.
    - Polling: an item is bound once whatever the races, its marker is held exactly
      while its fan-out runs, no update is passed over but those of the first poll's
      own duration; an event starts a workflow at most once and none is missed;
      a manual run or restart happens entirely or not at all.
    - Agents: no text of an item closes the block it stands in, what an agent reports
      as told is read back, the chain of runners is walked exactly as far as
      needed, a sandboxed run is a container with the configured network, user and
      image, the work directory and the variables it may have and nothing else, and the
      time of a run is divided without loss.
    - Where the model shows that the code does not do what it means to, a lemma
      near the end of the component's file exhibits it on a concrete state.

    ** Conventions, bounds and fuel

    An error pair is a [result], a missing row an [option]; a statement of the
    store is one function on the tables, and concurrency is a step relation over
    those statements. Clock readings and random identifiers are arguments. Times
    and counters are Z; none of the modelled counters can come near the 64-bit
    bounds the code gives them, and conversions between floats and integers in
    the expression language are written out where the width matters. Recursion
    that is not structural has fuel: the lexer and the parser use the length of
    their input and are proved never to exhaust it, the graph searches use the
    number of nodes and are proved to decide their relations, the loader of files
    one unit per file that decodes, which is proved enough, and [drive] has an
    explicit sufficient bound.

    Code outside the repository is a parameter: [GoRuntime] for regular
    expressions, formatting, JSON and durations, [PayloadCodec] for the JSON of a
    queued job, [FileSystem] for paths and decoding, functions for source adapters,
    the CI and dependency checkers, the runs of agents, the writing of MCP files, the
    decoding of reports and the redaction of tokens; [QueueWire] for the JSON that
    remote workers and the control plane exchange; [Docker] for how the client of
    docker reads its options and sets the variables of a container.
    Log and comment texts are not modelled, except where other code reads them.

    ** Not modelled

    The adapters of trackers (source), plugins, the calls of the HTTP runner, the
    dashboard, the command line, improvement reports, export, transcripts and
    logging are I/O around the modelled decisions. Of the modelled files, the
    following is left out: execution events other than those of the hand-off, usage
    columns and views of the stores, what the hooks of a step or a workflow do to
    trackers, the control of an agent's process, the files of MCP servers, listings
    of approvals, the deletion of tasks and instances, the merging of configuration
    edits, and the checks of plugins and of the settings other than the queue's.
    Store reads and writes are taken to succeed except where an error changes what
    is done next: the guards, the writes of a resume, the re-check of a parked run,
    the hand-off, a bind, a manual run, a sub-workflow call, the end of a worker and
    the queue. Four parts are coarser than the code: a poll works off one item at a
    time while the goroutines it started may end between items only, the rows of the
    runs of a step are those of one chain, without other steps of the cell that run
    beside it, a response is taken up by a run parked at an approval only, and letters
    are lower-cased in ASCII. *)

From stdpp Require Import base gmap strings list sorting pretty.
From Stdlib Require Import ZArith.

(** ** Scope and hint database of the development *)

Declare Scope apiary_scope.
Delimit Scope apiary_scope with apiary.
Create HintDb apiary.

(** ** Results: Go's [(value, error)] pairs *)

(** The error type comes first so that [result E] is a monad. *)
Inductive result (E A : Type) : Type :=
  | Ok (a : A)
  | Err (e : E).
Arguments Ok {E A} a.
Arguments Err {E A} e.

#[global] Instance result_ret {E} : MRet (result E) := fun A a => Ok a.
#[global] Instance result_bind {E} : MBind (result E) := fun A B f m =>
  match m with
  | Ok a => f a
  | Err e => Err e
  end.
#[global] Instance result_fmap {E} : FMap (result E) := fun A B f m =>
  match m with
  | Ok a => Ok (f a)
  | Err e => Err e
  end.
#[global] Instance result_eq_dec {E A} `{EqDecision E, EqDecision A} :
  EqDecision (result E A).
Proof. solve_decision. Defined.

Definition is_ok {E A} (m : result E A) : bool :=
  match m with
  | Ok _ => true
  | Err _ => false
  end.

Lemma bind_Ok {E A B} (f : A -> result E B) (m : result E A) (b : B) :
  (m ≫= f) = Ok b <-> exists a, m = Ok a /\ f a = Ok b.
Proof. destruct m; naive_solver. Qed.

Lemma bind_Err {E A B} (f : A -> result E B) (m : result E A) (e : E) :
  (m ≫= f) = Err e <-> m = Err e \/ exists a, m = Ok a /\ f a = Err e.
Proof. destruct m; naive_solver. Qed.

(** ** Strings: the part of package [strings] the sources use

    A Go string is a byte sequence, here [String.string] over 8-bit [ascii].
    Case mapping and white space are those of the ASCII range: a byte above
    127 is left alone, which is what Go does on ASCII input. *)

Definition ascii_to_lower (c : Ascii.ascii) : Ascii.ascii :=
  let n := Ascii.N_of_ascii c in
  if ((65 <=? n) && (n <=? 90))%N then Ascii.ascii_of_N (n + 32) else c.

Fixpoint to_lower (s : string) : string :=
  match s with
  | EmptyString => EmptyString
  | String c s' => String (ascii_to_lower c) (to_lower s')
  end.

(** [strings.EqualFold]. *)
Definition equal_fold (a b : string) : bool := bool_decide (to_lower a = to_lower b).

(** [strings.HasPrefix s p]. *)
Definition has_prefix (s p : string) : bool := String.prefix p s.

(** [strings.HasSuffix s p]. *)
Definition has_suffix (s p : string) : bool :=
  String.prefix (String.rev p) (String.rev s).

(** [strings.Contains s sub]. *)
Fixpoint str_contains (s sub : string) : bool :=
  String.prefix sub s ||
  match s with
  | EmptyString => false
  | String _ s' => str_contains s' sub
  end.

Fixpoint trim_left (s : string) : string :=
  match s with
  | EmptyString => EmptyString
  | String c s' => if Ascii.is_space c then trim_left s' else s
  end.

(** [strings.TrimSpace]. *)
Definition trim_space (s : string) : string :=
  String.rev (trim_left (String.rev (trim_left s))).

(** [strings.Join]. *)
Fixpoint str_join (sep : string) (l : list string) : string :=
  match l with
  | [] => ""
  | [x] => x
  | x :: l' => x +:+ sep +:+ str_join sep l'
  end.

(** [strings.Split] on a one-byte separator: never empty. *)
Fixpoint split_on (sep : Ascii.ascii) (s : string) : list string :=
  match s with
  | EmptyString => [""]
  | String c s' =>
      if decide (c = sep) then "" :: split_on sep s'
      else match split_on sep s' with
           | [] => [String c ""]
           | w :: ws => String c w :: ws
           end
  end.

(** Longest prefix of bytes satisfying [p], and the rest. *)
Fixpoint str_span (p : Ascii.ascii -> bool) (s : string) : string * string :=
  match s with
  | EmptyString => ("", "")
  | String c s' =>
      if p c then let '(a, b) := str_span p s' in (String c a, b) else ("", s)
  end.

(** Is the value ["" ]? The code writes [s == ""] for an unset field. *)
Definition is_empty (s : string) : bool := bool_decide (s = "").

(** [List.existsb] on membership: [slices.Contains]. *)
Definition str_in (x : string) (l : list string) : bool := bool_decide (x ∈ l).

Lemma str_span_spec p s a b :
  str_span p s = (a, b) ->
  s = a +:+ b /\ (String.length b <= String.length s)%nat.
Proof.
  revert a b; induction s as [|c s IH]; intros a b; simpl.
  { intros [= <- <-]. done. }
  destruct (p c).
  - destruct (str_span p s) as [a' b'] eqn:E. intros [= <- <-].
    destruct (IH _ _ eq_refl) as [-> Hl]. split; [done|lia].
  - intros [= <- <-]. split; [done|simpl; lia].
Qed.

Lemma existsb_elem {A} (p : A -> bool) l : existsb p l = true <-> exists x, x ∈ l /\ p x = true.
Proof. rewrite existsb_exists. by setoid_rewrite list_elem_of_In. Qed.

Lemma elem_filter_bool {A} (p : A -> bool) l x : x ∈ List.filter p l <-> x ∈ l /\ p x = true.
Proof. by rewrite !list_elem_of_In, filter_In. Qed.

Lemma find_None {A} (p : A -> bool) l : List.find p l = None <-> forall x, x ∈ l -> p x = false.
Proof.
  split.
  - intros H x Hx. eapply find_none; [done|]. by apply list_elem_of_In.
  - intros H. destruct (List.find p l) eqn:E; [|done].
    apply List.find_some in E as [Hin Hp]. apply list_elem_of_In in Hin.
    by rewrite (H _ Hin) in Hp.
Qed.

Lemma is_empty_true s : is_empty s = true <-> s = "".
Proof. unfold is_empty. by rewrite bool_decide_eq_true. Qed.

Lemma is_empty_false s : is_empty s = false <-> s <> "".
Proof. unfold is_empty. by rewrite bool_decide_eq_false. Qed.

(** ** Lists *)

Lemma NoDup_bool_filter {A} (p : A -> bool) l : NoDup l -> NoDup (List.filter p l).
Proof.
  induction 1 as [|x l Hx _ IH]; simpl; [constructor|]. destruct (p x); [|done].
  constructor; [|done]. rewrite list_elem_of_In, filter_In, <- list_elem_of_In. tauto.
Qed.

Lemma filter_true {A} (p : A -> bool) l : (forall x, In x l -> p x = true) -> List.filter p l = l.
Proof. induction l as [|x l IH]; intros H; [done|]. simpl. rewrite H by (by left). f_equal. apply IH. intros y Hy. apply H. by right. Qed.

Lemma forallb_false_elem {A} (p : A -> bool) l : forallb p l = false -> exists x, x ∈ l /\ p x = false.
Proof.
  induction l as [|x l IH]; [done|]. simpl. destruct (p x) eqn:E; [|exists x; split; [left|done]].
  intros (y & Hy & Hp)%IH. exists y. split; [by right|done].
Qed.

Lemma none_filter {A} (p : A -> bool) l : forallb (fun x => negb (p x)) l = true <-> length (List.filter p l) = 0.
Proof.
  induction l as [|x l IH]; [done|]. simpl. destruct (p x); simpl; [|done]. split; [done|lia].
Qed.

Lemma filter_snoc {A} (p : A -> bool) l x :
  List.filter p (l ++ [x]) = List.filter p l ++ (if p x then [x] else []).
Proof. rewrite List.filter_app. simpl. by destruct (p x). Qed.

Lemma forallb_same {A} (p q : A -> bool) l : (forall x, p x = q x) -> forallb p l = forallb q l.
Proof. intros H. induction l as [|x l IH]; [done|]. simpl. by rewrite H, IH. Qed.

(** ** Loops *)

(** A preorder every pass of a loop respects relates its ends. *)
Lemma foldl_rel {A B} (R : relation A) `{!Reflexive R, !Transitive R} (f : A -> B -> A) l a :
  (forall a b, b ∈ l -> R a (f a b)) -> R a (foldl f a l).
Proof.
  revert a. induction l as [|b l IH]; intros a H; simpl; [reflexivity|].
  transitivity (f a b); [apply H, list_elem_of_here|]. apply IH.
  intros a' b' Hb. by apply H, list_elem_of_further.
Qed.

(** A loop invariant. *)
Lemma foldl_inv {A B} (P : A -> Prop) (f : A -> B -> A) l a :
  P a -> (forall a b, b ∈ l -> P a -> P (f a b)) -> P (foldl f a l).
Proof.
  revert a. induction l as [|b l IH]; intros a Ha H; simpl; [done|].
  apply IH; [apply H; [apply list_elem_of_here|done]|].
  intros a' b' Hb. by apply H, list_elem_of_further.
Qed.

(** Two loop bodies that agree under an invariant. *)
Lemma foldl_ext_inv {A B} (P : A -> Prop) (f g : A -> B -> A) l a :
  P a -> (forall a b, P a -> f a b = g a b /\ P (g a b)) -> foldl f a l = foldl g a l.
Proof.
  revert a. induction l as [|b l IH]; intros a Ha H; simpl; [done|].
  destruct (H a b Ha) as [-> Hg]. by apply IH.
Qed.

(** ** Ordering: [sort.Slice] and SQL [ORDER BY]

    Neither promises an order between equal keys, so the clients are proved
    against this interface rather than against one sorting algorithm. *)

Class Sorter {A} (R : relation A) := {
  sort_by : list A -> list A;
  sort_by_perm : forall l, sort_by l ≡ₚ l;
  sort_by_sorted : forall l, StronglySorted R (sort_by l);
}.
Arguments sort_by {A} R {_} l.

Section merge_sorter.
Context {A} (R : relation A) `{!Transitive R, !Total R, !RelDecision R}.

(** Merge sort discharges the interface: the witnesses run with it. *)
Definition merge_sorter : Sorter R := {|
  sort_by := merge_sort R;
  sort_by_perm := merge_sort_Permutation R;
  sort_by_sorted := StronglySorted_merge_sort R;
|}.
End merge_sorter.

(** [sort.Strings]. *)
Definition sort_strings (l : list string) : list string := merge_sort String.le l.

Lemma elem_of_sort_by {A} (R : relation A) `{!Sorter R} l x :
  x ∈ sort_by R l <-> x ∈ l.
Proof. by rewrite sort_by_perm. Qed.

Lemma elem_of_sort_strings l x : x ∈ sort_strings l <-> x ∈ l.
Proof. unfold sort_strings. by rewrite merge_sort_Permutation. Qed.

(** Sorting forgets the order of the input. *)
Lemma sort_strings_perm l l' : l ≡ₚ l' -> sort_strings l = sort_strings l'.
Proof.
  intros H. unfold sort_strings. apply (StronglySorted_unique String.le).
  - apply StronglySorted_merge_sort; apply _.
  - apply StronglySorted_merge_sort; apply _.
  - by rewrite !merge_sort_Permutation.
Qed.

(** ** Counting rows *)

(** [SELECT COUNT( * ) FROM m WHERE p]. *)
Definition count_rows {K V} `{Countable K} (p : V -> bool) (m : gmap K V) : nat :=
  length (List.filter (fun kv => p kv.2) (map_to_list m)).

(** ** SQL tables

    A table is a map from its primary key to its rows. An [UPDATE] returns the
    new table and the number of affected rows, as [RowsAffected] does. *)

(** [UPDATE ... WHERE id=k AND p]. *)
Definition update_at {K V} `{Countable K} (k : K) (p : V -> bool) (f : V -> V)
    (m : gmap K V) : gmap K V * nat :=
  match m !! k with
  | Some r => if p r then (<[k := f r]> m, 1) else (m, 0)
  | None => (m, 0)
  end.

(** [UPDATE ... WHERE p]. *)
Definition update_where {K V} `{Countable K} (p : V -> bool) (f : V -> V)
    (m : gmap K V) : gmap K V * nat :=
  ((fun r => if p r then f r else r) <$> m, count_rows p m).

(** The rows of a table, in no particular order. *)
Definition rows {K V} `{Countable K} (m : gmap K V) : list V := (map_to_list m).*2.

Lemma elem_of_rows {K V} `{Countable K} (m : gmap K V) r :
  r ∈ rows m <-> exists k, m !! k = Some r.
Proof.
  unfold rows. rewrite list_elem_of_fmap. split.
  - intros ([k r'] & -> & Hin). exists k. by apply elem_of_map_to_list.
  - intros [k Hk]. exists (k, r). split; [done|]. by apply elem_of_map_to_list.
Qed.

#[global] Instance bool_filter_Proper {A} (p : A -> bool) :
  Proper ((≡ₚ) ==> (≡ₚ)) (List.filter p).
Proof.
  induction 1 as [|x l l' _ IH|x y l|l1 l2 l3 _ IH1 _ IH2]; simpl; [done|..].
  - destruct (p x); [by rewrite IH|done].
  - destruct (p x), (p y); try done. apply Permutation_swap.
  - by rewrite IH1.
Qed.

(** Rows are counted one key at a time. *)
Lemma count_rows_insert_new {K V} `{Countable K} (p : V -> bool) (m : gmap K V) k r :
  m !! k = None -> count_rows p (<[k := r]> m) = (if p r then 1 else 0) + count_rows p m.
Proof.
  intros Hk. unfold count_rows. rewrite map_to_list_insert by done. simpl. by destruct (p r).
Qed.

Lemma count_rows_insert {K V} `{Countable K} (p : V -> bool) (m : gmap K V) k r r' :
  m !! k = Some r ->
  count_rows p (<[k := r']> m) + (if p r then 1 else 0) = count_rows p m + (if p r' then 1 else 0).
Proof.
  intros Hk. rewrite <- (insert_delete_id m k r Hk) at 2. rewrite <- (insert_delete_eq m k r').
  rewrite !count_rows_insert_new by apply lookup_delete_eq. lia.
Qed.

Lemma count_rows_fmap {K V} `{Countable K} (p : V -> bool) (f : V -> V) (m : gmap K V) :
  (forall k r, m !! k = Some r -> p (f r) = p r) -> count_rows p (f <$> m) = count_rows p m.
Proof.
  induction m as [|k r m Hk IH] using map_ind; intros Hf; [done|].
  rewrite fmap_insert, !count_rows_insert_new by (rewrite ?lookup_fmap, ?Hk; done).
  rewrite (Hf k r), IH by (rewrite ?lookup_insert_eq; done || (intros k' r' Hk'; apply (Hf k');
    rewrite lookup_insert_ne; congruence)). done.
Qed.

Lemma count_rows_filter {K V} `{Countable K} (p : V -> bool) (m : gmap K V) :
  count_rows p m = length (List.filter p (rows m)).
Proof.
  unfold count_rows, rows. induction (map_to_list m) as [|[k r] l IH]; simpl; [done|].
  destruct (p r); simpl; auto.
Qed.

Lemma update_at_spec {K V} `{Countable K} (k : K) (p : V -> bool) f (m : gmap K V) :
  (exists r, m !! k = Some r /\ p r = true /\ update_at k p f m = (<[k := f r]> m, 1))
  \/ ((forall r, m !! k = Some r -> p r = false) /\ update_at k p f m = (m, 0)).
Proof.
  unfold update_at. destruct (m !! k) as [r|]; [|right; naive_solver].
  destruct (p r) eqn:E; [left|right]; naive_solver.
Qed.

(** ** Tactics *)

(** Case on the innermost [match]/[if] scrutinee of a hypothesis. *)
Ltac case_in H :=
  match type of H with
  | context [match ?x with _ => _ end] =>
      lazymatch x with
      | context [match _ with _ => _ end] => fail
      | _ => let E := fresh "E" in destruct x eqn:E
      end
  end.

(** Run through a chain of guards, dropping the branches that contradict the
    equation. *)
Ltac guards H := repeat (first [discriminate H | case_in H; try discriminate H]).

(** Compute through [≫=] on results (stdpp keeps [mbind] opaque to [simpl]). *)
Ltac rsimpl := unfold mbind, result_bind, fmap, result_fmap; simpl.
Tactic Notation "rsimpl" "in" hyp(H) :=
  unfold mbind, result_bind, fmap, result_fmap in H; simpl in H.

(** Open a chain of binds that succeeded. *)
Ltac binds :=
  repeat match goal with
  | H : (_ ≫= _) = Ok _ |- _ =>
      let x := fresh "x" in let H1 := fresh "B" in
      apply bind_Ok in H as (x & H1 & H)
  end.
