(* ===== verification/Text.v ===== *)
(** * Texts: the rest of package [strings], and what cutting and trimming give

    Prelude holds the functions every file uses; this file adds the ones that
    the text formats need (memory files, prompts, agent output) with the lemmas
    their round trips rest on. *)

From stdpp Require Import base gmap strings list.
From Stdlib Require Import ZArith Ascii.
From S2P Require Import Prelude.

(** ** Concatenation and length *)

Lemma str_app_cons c s t : String c s +:+ t = String c (s +:+ t).
Proof. done. Qed.

Lemma str_length_app s t : String.length (s +:+ t) = String.length s + String.length t.
Proof. induction s as [|c s IH]; [done|]. simpl. by rewrite IH. Qed.

Lemma append_assoc (x y z : string) : x +:+ (y +:+ z) = (x +:+ y) +:+ z.
Proof. induction x as [|c x IH]; [done|]. rewrite !str_app_cons. by f_equal. Qed.

Lemma append_empty s : s +:+ "" = s.
Proof. induction s as [|c s IH]; [done|]. rewrite str_app_cons. by f_equal. Qed.

Lemma append_nil a b : a +:+ b = "" <-> a = "" /\ b = "".
Proof. destruct a; naive_solver. Qed.

(** ** Reversal *)

Lemma rev_app_spec s t : String.rev_app s t = String.rev s +:+ t.
Proof.
  unfold String.rev. revert t. induction s as [|c s IH]; intros t; [done|]. simpl.
  rewrite (IH (String c t)), (IH (String c "")). by rewrite <- append_assoc.
Qed.

Lemma rev_cons c s : String.rev (String c s) = String.rev s +:+ String c "".
Proof. unfold String.rev at 1. simpl. apply rev_app_spec. Qed.

Lemma rev_app_distr s t : String.rev (s +:+ t) = String.rev t +:+ String.rev s.
Proof.
  induction s as [|c s IH]; [by rewrite append_empty|].
  rewrite str_app_cons, !rev_cons, IH. by rewrite append_assoc.
Qed.

Lemma rev_rev s : String.rev (String.rev s) = s.
Proof. induction s as [|c s IH]; [done|]. by rewrite rev_cons, rev_app_distr, IH. Qed.

Lemma rev_length s : String.length (String.rev s) = String.length s.
Proof.
  induction s as [|c s IH]; [done|]. rewrite rev_cons, str_length_app. simpl. lia.
Qed.

(** ** Trimming *)

Lemma trim_empty : trim_space "" = "".
Proof. done. Qed.

Lemma trim_left_suffix s : exists p, s = p +:+ trim_left s.
Proof.
  induction s as [|c s [p IH]]; [by exists ""|]. simpl. destruct (Ascii.is_space c); [|by exists ""].
  exists (String c p). by rewrite str_app_cons, <- IH.
Qed.

Lemma trim_left_twice s : trim_left (trim_left s) = trim_left s.
Proof. induction s as [|c s IH]; [done|]. simpl. destruct (Ascii.is_space c) eqn:E; [done|]. simpl. by rewrite E. Qed.

(** No white space at either end. *)
Definition tight (s : string) : Prop := trim_left s = s /\ trim_left (String.rev s) = String.rev s.

#[global] Instance tight_dec s : Decision (tight s).
Proof. unfold tight. apply _. Defined.

Lemma trim_tight s : tight s -> trim_space s = s.
Proof. intros [H1 H2]. unfold trim_space. by rewrite H1, H2, rev_rev. Qed.

Lemma tight_trim s : tight (trim_space s).
Proof.
  unfold trim_space. set (t := trim_left s). set (v := trim_left (String.rev t)).
  split; [|rewrite rev_rev; apply trim_left_twice].
  destruct (String.rev v) as [|c u] eqn:E; [done|]. simpl.
  assert (exists rest, t = String c rest) as [rest Ht].
  { destruct (trim_left_suffix (String.rev t)) as [p Hp]. fold v in Hp.
    apply (f_equal String.rev) in Hp. rewrite rev_rev, rev_app_distr, E in Hp. by exists (u +:+ String.rev p). }
  destruct (Ascii.is_space c) eqn:Ec; [|done]. exfalso.
  assert (trim_left t = t) as Htt by apply trim_left_twice. rewrite Ht in Htt. simpl in Htt. rewrite Ec in Htt.
  destruct (trim_left_suffix rest) as [p Hp]. rewrite Htt in Hp. apply (f_equal String.length) in Hp.
  rewrite str_length_app in Hp. simpl in Hp. lia.
Qed.

(** A text of white space only. *)
Fixpoint blank_text (s : string) : bool :=
  match s with
  | EmptyString => true
  | String c s' => Ascii.is_space c && blank_text s'
  end.

Lemma blank_app a b : blank_text (a +:+ b) = blank_text a && blank_text b.
Proof. induction a as [|c a IH]; [done|]. rewrite str_app_cons. simpl. by rewrite IH, andb_assoc. Qed.

Lemma blank_rev s : blank_text (String.rev s) = blank_text s.
Proof.
  induction s as [|c s IH]; [done|]. rewrite rev_cons, blank_app, IH. simpl.
  by rewrite andb_true_r, andb_comm.
Qed.

Lemma trim_left_blank w s : blank_text w = true -> trim_left (w +:+ s) = trim_left s.
Proof.
  induction w as [|c w IH]; [done|]. rewrite str_app_cons. simpl.
  intros [-> Hw]%andb_true_iff. by apply IH.
Qed.

Lemma trim_left_nil s : trim_left s = "" <-> blank_text s = true.
Proof.
  induction s as [|c s IH]; [done|]. simpl. destruct (Ascii.is_space c); simpl; [done|]. naive_solver.
Qed.

Lemma trim_left_app s t : blank_text s = false -> trim_left (s +:+ t) = trim_left s +:+ t.
Proof.
  induction s as [|c s IH]; [done|]. rewrite str_app_cons. simpl.
  destruct (Ascii.is_space c); simpl; [done|]. done.
Qed.

Lemma blank_trim_left s : blank_text (trim_left s) = blank_text s.
Proof. induction s as [|c s IH]; [done|]. simpl. destruct (Ascii.is_space c) eqn:E; [done|]. simpl. by rewrite E. Qed.

(** White space at the ends does not matter. *)
Lemma trim_blank_l w s : blank_text w = true -> trim_space (w +:+ s) = trim_space s.
Proof. intros Hw. unfold trim_space. by rewrite trim_left_blank. Qed.

Lemma trim_blank_r w s : blank_text w = true -> trim_space (s +:+ w) = trim_space s.
Proof.
  intros Hw. unfold trim_space. destruct (blank_text s) eqn:Es.
  - rewrite (proj2 (trim_left_nil (s +:+ w))) by (by rewrite blank_app, Es, Hw).
    by rewrite (proj2 (trim_left_nil s)).
  - rewrite trim_left_app by done. rewrite rev_app_distr, trim_left_blank; [done|]. by rewrite blank_rev.
Qed.

Lemma trim_nil s : trim_space s = "" <-> blank_text s = true.
Proof.
  unfold trim_space. rewrite <- (blank_trim_left s), <- blank_rev, <- trim_left_nil.
  split; [|by intros ->]. intros H. apply (f_equal String.rev) in H. by rewrite rev_rev in H.
Qed.

(** Trimming at the end only. *)
Definition trim_end (s : string) : string := String.rev (trim_left (String.rev s)).

Lemma trim_space_end s : trim_space s = trim_end (trim_left s).
Proof. done. Qed.

Lemma trim_end_app a b : blank_text b = false -> trim_end (a +:+ b) = a +:+ trim_end b.
Proof.
  intros Hb. unfold trim_end. rewrite rev_app_distr, trim_left_app by (by rewrite blank_rev).
  by rewrite rev_app_distr, rev_rev.
Qed.

Lemma trim_end_rest s : exists w, s = trim_end s +:+ w /\ blank_text w = true.
Proof.
  assert (forall t, exists p, t = p +:+ trim_left t /\ blank_text p = true) as H.
  { intros t. induction t as [|c t (p & IH & Hp)]; [by exists ""|]. simpl.
    destruct (Ascii.is_space c) eqn:E; [|by exists ""].
    exists (String c p). split; [by rewrite str_app_cons, <- IH|]. simpl. by rewrite E. }
  destruct (H (String.rev s)) as (p & Hs & Hp). exists (String.rev p). split; [|by rewrite blank_rev].
  unfold trim_end. rewrite <- rev_app_distr, <- Hs. by rewrite rev_rev.
Qed.

Lemma trim_trim_end s : trim_space (trim_end s) = trim_space s.
Proof. destruct (trim_end_rest s) as (w & H & Hw). rewrite H at 2. by rewrite trim_blank_r. Qed.

(** ** Cutting *)

(** [strings.CutPrefix]. *)
Fixpoint strip_prefix (p s : string) : option string :=
  match p, s with
  | EmptyString, _ => Some s
  | String a p', String b s' => if decide (a = b) then strip_prefix p' s' else None
  | String _ _, EmptyString => None
  end.

Lemma strip_prefix_length p s s' :
  strip_prefix p s = Some s' -> String.length s = String.length p + String.length s'.
Proof.
  revert s. induction p as [|a p IH]; intros [|b s]; simpl; intros H; try discriminate;
    try (injection H as <-; done).
  destruct (decide (a = b)); [|discriminate]. by rewrite (IH _ H).
Qed.

Lemma strip_prefix_app p s : strip_prefix p (p +:+ s) = Some s.
Proof. induction p as [|c p IH]; [done|]. rewrite str_app_cons. simpl. by rewrite decide_True. Qed.

Lemma strip_prefix_Some p s s' : strip_prefix p s = Some s' <-> s = p +:+ s'.
Proof.
  split; [|intros ->; apply strip_prefix_app].
  revert s. induction p as [|a p IH]; intros [|b s]; simpl; intros H; try done; try (by injection H as <-).
  destruct (decide (a = b)) as [<-|]; [|done]. by rewrite str_app_cons, <- (IH _ H).
Qed.

(** [strings.TrimPrefix], [strings.CutSuffix] and [strings.TrimSuffix]. *)
Definition trim_prefix (p s : string) : string := default s (strip_prefix p s).

Definition strip_suffix (p s : string) : option string :=
  String.rev <$> strip_prefix (String.rev p) (String.rev s).

Definition trim_suffix (p s : string) : string := default s (strip_suffix p s).

Lemma strip_suffix_Some p s s' : strip_suffix p s = Some s' <-> s = s' +:+ p.
Proof.
  unfold strip_suffix. rewrite fmap_Some. setoid_rewrite strip_prefix_Some. split.
  - intros (t & H & ->). apply (f_equal String.rev) in H. by rewrite rev_app_distr, !rev_rev in H.
  - intros ->. exists (String.rev s'). by rewrite rev_app_distr, rev_rev.
Qed.

(** [strings.Cut]: the text before and after the first occurrence. *)
Fixpoint str_cut (sep s : string) : option (string * string) :=
  match strip_prefix sep s with
  | Some rest => Some ("", rest)
  | None =>
      match s with
      | EmptyString => None
      | String c s' => (fun p => (String c p.1, p.2)) <$> str_cut sep s'
      end
  end.

(** The text before the last occurrence, and the text from it on:
    [strings.LastIndex] with the two slices at the index. *)
Fixpoint last_cut (p s : string) : option (string * string) :=
  match s with
  | EmptyString => if is_empty p then Some ("", "") else None
  | String c s' =>
      match last_cut p s' with
      | Some (a, b) => Some (String c a, b)
      | None => if has_prefix s p then Some ("", s) else None
      end
  end.

Lemma has_prefix_cons c s d p : has_prefix (String c s) (String d p) = bool_decide (c = d) && has_prefix s p.
Proof.
  unfold has_prefix. cbn [String.prefix]. destruct (ascii_dec d c) as [->|]; [by rewrite bool_decide_true|].
  by rewrite bool_decide_false by congruence.
Qed.

Lemma has_prefix_nil s : has_prefix s "" = true.
Proof. by destruct s. Qed.

Lemma has_prefix_app p s : has_prefix (p +:+ s) p = true.
Proof.
  induction p as [|c p IH]; [apply has_prefix_nil|]. rewrite str_app_cons, has_prefix_cons, IH.
  by rewrite bool_decide_true.
Qed.

(** [c] is a byte of [s]. *)
Fixpoint str_has (c : ascii) (s : string) : bool :=
  match s with
  | EmptyString => false
  | String d s' => bool_decide (c = d) || str_has c s'
  end.

Lemma str_has_app c a b : str_has c (a +:+ b) = str_has c a || str_has c b.
Proof. induction a as [|d a IH]; [done|]. rewrite str_app_cons. simpl. by rewrite IH, orb_assoc. Qed.

(** A one-byte separator. *)
Lemma str_cut_byte c a b : str_has c a = false -> str_cut (String c "") (a +:+ String c b) = Some (a, b).
Proof.
  induction a as [|d a IH]; intros H; rewrite ?str_app_cons; simpl.
  - rewrite decide_True by done. done.
  - apply orb_false_iff in H as [Hd%bool_decide_eq_false Ha]. rewrite decide_False by done.
    change ("" +:+ String c b) with (String c b) in IH. by rewrite IH.
Qed.

Lemma str_cut_none c a : str_has c a = false -> str_cut (String c "") a = None.
Proof.
  induction a as [|d a IH]; intros H; simpl; [done|].
  apply orb_false_iff in H as [Hd%bool_decide_eq_false Ha]. rewrite decide_False by done. by rewrite IH.
Qed.

(** A separator cannot start inside a text without its first byte. *)
Lemma str_cut_skip c q a s :
  str_has c a = false -> str_cut (String c q) (a +:+ s) = (fun p => (a +:+ p.1, p.2)) <$> str_cut (String c q) s.
Proof.
  induction a as [|d a IH]; intros H.
  - change ("" +:+ s) with s. by destruct (str_cut _ s) as [[]|].
  - simpl in H. apply orb_false_iff in H as [Hd%bool_decide_eq_false Ha]. rewrite str_app_cons.
    cbn [str_cut strip_prefix]. rewrite decide_False by done. rewrite IH by done.
    by destruct (str_cut _ s) as [[]|].
Qed.

Lemma last_cut_none c q s : str_has c s = false -> last_cut (String c q) s = None.
Proof.
  induction s as [|d s IH]; [done|]. cbn [str_has last_cut]. intros [Hd%bool_decide_eq_false Hs]%orb_false_iff.
  rewrite IH by done. rewrite has_prefix_cons. by rewrite bool_decide_false by congruence.
Qed.

(** The last occurrence of a marker whose first byte is not repeated after it. *)
Lemma last_cut_marker c q a r :
  str_has c (q +:+ r) = false -> last_cut (String c q) (a +:+ String c q +:+ r) = Some (a, String c q +:+ r).
Proof.
  intros H. induction a as [|d a IH].
  - change ("" +:+ String c q +:+ r) with (String c (q +:+ r)). cbn [last_cut].
    rewrite last_cut_none by done.
    change (String c (q +:+ r)) with (String c q +:+ r). by rewrite has_prefix_app.
  - rewrite str_app_cons. cbn [last_cut]. by rewrite IH.
Qed.

(** ** Lines *)

Definition nl : ascii := "010"%char.

Lemma split_on_nonempty sep s : split_on sep s <> [].
Proof. destruct s as [|c s]; [done|]. simpl. case_decide; [done|]. by case_match. Qed.

Lemma split_on_fresh sep s : str_has sep s = false -> split_on sep s = [s].
Proof.
  induction s as [|c s IH]; [done|]. simpl. intros [Hc%bool_decide_eq_false Hs]%orb_false_iff.
  rewrite decide_False by congruence. by rewrite IH.
Qed.

Lemma split_on_cons sep a s :
  str_has sep a = false -> split_on sep (a +:+ String sep s) = a :: split_on sep s.
Proof.
  induction a as [|c a IH]; intros H.
  - change ("" +:+ String sep s) with (String sep s). simpl. by rewrite decide_True.
  - simpl in H. apply orb_false_iff in H as [Hc%bool_decide_eq_false Ha]. rewrite str_app_cons. simpl.
    rewrite decide_False by congruence. by rewrite IH.
Qed.

(** Joining the parts again. *)
Lemma join_split sep s : str_join (String sep "") (split_on sep s) = s.
Proof.
  induction s as [|c s IH]; [done|]. simpl. case_decide as Hc.
  - subst c. destruct (split_on sep s) eqn:E; [by apply split_on_nonempty in E|]. cbn [str_join]. by rewrite <- IH.
  - destruct (split_on sep s) as [|w ws] eqn:E; [by apply split_on_nonempty in E|].
    destruct ws as [|w' ws]; cbn [str_join] in *; rewrite <- IH; done.
Qed.

Lemma split_no_sep sep s w : w ∈ split_on sep s -> str_has sep w = false.
Proof.
  revert w. induction s as [|c s IH]; intros w; simpl; [by intros ->%list_elem_of_singleton|].
  case_decide as Hc; [intros [->|H]%elem_of_cons; [done|by apply IH]|].
  destruct (split_on sep s) as [|x xs] eqn:E; [by apply split_on_nonempty in E|].
  intros [->|H]%elem_of_cons; [|apply IH; by right]. simpl. rewrite (IH x) by left.
  rewrite bool_decide_false by congruence. done.
Qed.

(** [strings.TrimRight(s, p)] for a set of bytes. *)
Fixpoint drop_while (p : ascii -> bool) (s : string) : string :=
  match s with
  | EmptyString => EmptyString
  | String c s' => if p c then drop_while p s' else s
  end.

Definition trim_right (p : ascii -> bool) (s : string) : string :=
  String.rev (drop_while p (String.rev s)).

Definition is_nl (c : ascii) : bool := bool_decide (c = nl).

Lemma drop_while_spec p s : exists w, s = w +:+ drop_while p s /\ (forall c, str_has c w = true -> p c = true).
Proof.
  induction s as [|c s (w & IH & Hw)]; [by exists ""|]. simpl. destruct (p c) eqn:E; [|by exists ""].
  exists (String c w). split; [by rewrite str_app_cons, <- IH|]. intros d. simpl.
  intros [->%bool_decide_eq_true|?]%orb_true_iff; auto.
Qed.

(** Dropping trailing newlines leaves the trimmed text alone. *)
Lemma trim_right_nl s : exists w, s = trim_right is_nl s +:+ w /\ blank_text w = true.
Proof.
  destruct (drop_while_spec is_nl (String.rev s)) as (w & H & Hw). exists (String.rev w). split.
  - apply (f_equal String.rev) in H. by rewrite rev_rev, rev_app_distr in H.
  - rewrite blank_rev. clear H. induction w as [|c w IH]; [done|]. simpl.
    assert (c = nl) as -> by (apply (bool_decide_eq_true (c = nl)), Hw; simpl; by rewrite bool_decide_true).
    apply IH. intros d Hd. apply Hw. simpl. by rewrite Hd, orb_true_r.
Qed.

Lemma trim_trim_right s : trim_space (trim_right is_nl s) = trim_space s.
Proof. destruct (trim_right_nl s) as (w & H & Hw). rewrite H at 2. by rewrite trim_blank_r. Qed.

(** A text ending in another byte keeps its end. *)
Lemma trim_right_keeps p s c : p c = false -> trim_right p (s +:+ String c "") = s +:+ String c "".
Proof.
  intros H. unfold trim_right. rewrite rev_app_distr. change (String.rev (String c "")) with (String c "").
  rewrite str_app_cons. cbn [drop_while]. rewrite H, rev_cons.
  change ("" +:+ String.rev s) with (String.rev s). by rewrite rev_rev.
Qed.

Lemma trim_right_drops p s c : p c = true -> trim_right p (s +:+ String c "") = trim_right p s.
Proof. intros H. unfold trim_right. rewrite rev_app_distr. simpl. by rewrite H. Qed.

(** [strings.Fields]: the words between white space; the pair is the word the
    text starts with and the words after it. *)
Fixpoint fields_go (s : string) : string * list string :=
  match s with
  | EmptyString => ("", [])
  | String c s' =>
      let '(w, ws) := fields_go s' in
      if Ascii.is_space c then ("", if is_empty w then ws else w :: ws) else (String c w, ws)
  end.

Definition str_fields (s : string) : list string :=
  let '(w, ws) := fields_go s in if is_empty w then ws else w :: ws.

(** A word: not empty and without white space. *)
Fixpoint solid (s : string) : bool :=
  match s with
  | EmptyString => true
  | String c s' => negb (Ascii.is_space c) && solid s'
  end.

Definition word (s : string) : Prop := s <> "" /\ solid s = true.

Lemma fields_go_words s : solid (fields_go s).1 = true /\ Forall word (fields_go s).2.
Proof.
  induction s as [|c s [IH1 IH2]]; [by split|]. simpl. destruct (fields_go s) as [w ws]. simpl in *.
  destruct (Ascii.is_space c) eqn:E; simpl; [|by rewrite E].
  split; [done|]. destruct (is_empty w) eqn:Ew; [done|]. apply is_empty_false in Ew. by constructor.
Qed.

Lemma str_fields_words s : Forall word (str_fields s).
Proof.
  unfold str_fields. destruct (fields_go_words s) as [H1 H2]. destruct (fields_go s) as [w ws]. simpl in *.
  destruct (is_empty w) eqn:Ew; [done|]. apply is_empty_false in Ew. by constructor.
Qed.

Lemma solid_no_space c s : solid s = true -> Ascii.is_space c = true -> str_has c s = false.
Proof.
  intros H Hc. induction s as [|d s IH]; [done|]. simpl in *. apply andb_true_iff in H as [Hd Hs].
  rewrite IH by done. rewrite orb_false_r. apply bool_decide_eq_false. intros ->. by rewrite Hc in Hd.
Qed.

Lemma solid_rev s : solid (String.rev s) = solid s.
Proof.
  assert (forall a b, solid (a +:+ b) = solid a && solid b) as Happ.
  { intros a b. induction a as [|c a IH]; [done|]. rewrite str_app_cons. simpl. by rewrite IH, andb_assoc. }
  induction s as [|c s IH]; [done|]. rewrite rev_cons, Happ, IH. simpl. by rewrite andb_true_r, andb_comm.
Qed.

Lemma trim_left_word w s : word w -> trim_left (w +:+ s) = w +:+ s.
Proof.
  intros [Hne Hs]. destruct w as [|c w]; [done|]. rewrite str_app_cons. simpl in *.
  apply andb_true_iff in Hs as [Hc%negb_true_iff _]. by rewrite Hc.
Qed.

(** [strings.Join(strings.Fields(s), " ")] is one line without space around. *)
Definition oneLine (s : string) : string := str_join " " (str_fields s).

Lemma join_words_space c l : Forall word l -> Ascii.is_space c = true -> c <> " "%char ->
  str_has c (str_join " " l) = false.
Proof.
  intros Hl Hc Hn. induction Hl as [|w l [_ Hw] Hl IH]; [done|]. destruct l as [|w' l].
  - by apply solid_no_space.
  - change (str_join " " (w :: w' :: l)) with (w +:+ " " +:+ str_join " " (w' :: l)).
    rewrite str_has_app, solid_no_space by done. rewrite str_app_cons. simpl. rewrite bool_decide_false by done.
    exact IH.
Qed.

Lemma oneLine_has c s : Ascii.is_space c = true -> c <> " "%char -> str_has c (oneLine s) = false.
Proof. intros. apply join_words_space; [apply str_fields_words|done..]. Qed.

Lemma join_words_tight l : Forall word l -> tight (str_join " " l).
Proof.
  intros Hl. split.
  - destruct Hl as [|w l Hw Hl]; [done|]. destruct l as [|w' l].
    + rewrite <- (append_empty (str_join " " [w])). by apply trim_left_word.
    + by apply trim_left_word.
  - induction Hl as [|w l Hw Hl IH]; [done|]. destruct l as [|w' l].
    + simpl. destruct Hw as [Hne Hs]. rewrite <- (append_empty (String.rev w)). apply trim_left_word.
      split; [|by rewrite solid_rev]. intros H. apply (f_equal String.rev) in H. by rewrite rev_rev in H.
    + change (str_join " " (w :: w' :: l)) with (w +:+ " " +:+ str_join " " (w' :: l)).
      rewrite append_assoc, rev_app_distr.
      destruct (String.rev (str_join " " (w' :: l))) as [|c r] eqn:E.
      * apply (f_equal String.rev) in E. rewrite rev_rev in E. inversion Hl as [|? ? [Hne _] _]; subst.
        destruct l; simpl in E; [done|]. by destruct w'.
      * rewrite str_app_cons. simpl in IH |- *. destruct (Ascii.is_space c) eqn:Ec; [|done].
        exfalso. destruct (trim_left_suffix r) as [p Hp]. rewrite IH in Hp. apply (f_equal String.length) in Hp.
        rewrite str_length_app in Hp. simpl in Hp. lia.
Qed.

Lemma oneLine_tight s : tight (oneLine s).
Proof. apply join_words_tight, str_fields_words. Qed.

Lemma oneLine_nil s : oneLine s = "" <-> blank_text s = true.
Proof.
  unfold oneLine, str_fields.
  assert (forall w ws, fields_go s = (w, ws) -> w = "" /\ ws = [] <-> blank_text s = true) as H.
  { induction s as [|c s IH]; intros w ws; [by intros [= <- <-]|]. simpl.
    destruct (fields_go s) as [w' ws']. specialize (IH _ _ eq_refl).
    destruct (Ascii.is_space c); intros [= <- <-]; simpl; [|naive_solver].
    rewrite <- IH. destruct (is_empty w') eqn:E; [apply is_empty_true in E|apply is_empty_false in E]; naive_solver. }
  pose proof (fields_go_words s) as [_ Hws]. destruct (fields_go s) as [w ws]. specialize (H _ _ eq_refl). simpl in Hws.
  rewrite <- H. destruct (is_empty w) eqn:E; [apply is_empty_true in E|apply is_empty_false in E].
  - subst w. destruct Hws as [|v vs [Hv _] _]; [naive_solver|]. split; [|naive_solver].
    destruct vs; simpl; [naive_solver|]. by destruct v.
  - split; [|naive_solver]. destruct ws; simpl; [done|]. by destruct w.
Qed.

Lemma fields_go_word w s : word w -> fields_go (w +:+ s) =
  (w +:+ (fields_go s).1, (fields_go s).2).
Proof.
  intros [_ Hw]. induction w as [|c w IH]; [change ("" +:+ s) with s; by destruct (fields_go s)|].
  rewrite str_app_cons. simpl in *.
  apply andb_true_iff in Hw as [Hc%negb_true_iff Hw]. rewrite IH by done. simpl. by rewrite Hc.
Qed.

Lemma fields_join l : Forall word l -> str_fields (str_join " " l) = l.
Proof.
  unfold str_fields. intros H.
  assert (fields_go (str_join " " l) = (List.hd "" l, List.tl l)) as ->.
  { induction H as [|w l Hw Hl IH]; [done|]. destruct l as [|w' l].
    - change (str_join " " [w]) with w. rewrite <- (append_empty w) at 1. rewrite fields_go_word by done. simpl.
      by rewrite append_empty.
    - change (str_join " " (w :: w' :: l)) with (w +:+ " " +:+ str_join " " (w' :: l)).
      rewrite fields_go_word by done. change (" " +:+ str_join " " (w' :: l)) with (String " " (str_join " " (w' :: l))).
      cbn [fields_go]. rewrite IH. simpl. rewrite append_empty. apply Forall_cons in Hl as [[Hne _] _].
      by rewrite (proj2 (is_empty_false w')). }
  destruct H as [|w l [Hne _] _]; [done|]. simpl. by rewrite (proj2 (is_empty_false w)).
Qed.

Lemma oneLine_twice s : oneLine (oneLine s) = oneLine s.
Proof. unfold oneLine. by rewrite fields_join by apply str_fields_words. Qed.
