(* ===== verification/State.v ===== *)
(** * The canonical lifecycle vocabulary

    Models src/internal/state/state.go (the states, the reasons, the table of
    legacy names, [Normalize], [NormalizeWithReason], [IsTerminal]), the state
    constants and [InterruptedInstance] of src/internal/db/workflow_store.go,
    and the terminal-row migration [migrateStates] of src/internal/db/schema.go.

    A [State] is a Go string type, so it is a [string] here too: an
    unrecognised value is a legitimate input and flows through unchanged. *)

From S2P Require Import Prelude.
From stdpp Require Import base gmap strings list.

Module state.

Definition State := string.
Definition Reason := string.

Definition Queued : State := "queued".
Definition Running : State := "running".
Definition Blocked : State := "blocked".
Definition Done : State := "done".
Definition Failed : State := "failed".
Definition Canceled : State := "canceled".
Definition Skipped : State := "skipped".

Definition ReasonApproval : Reason := "approval".
Definition ReasonCI : Reason := "ci".
Definition ReasonDependency : Reason := "dependency".
Definition ReasonRetryBackoff : Reason := "retry_backoff".
Definition ReasonInterrupted : Reason := "interrupted".
Definition ReasonCached : Reason := "cached".

Definition IsTerminal (s : State) : bool :=
  bool_decide (s ∈ [Done; Failed; Canceled; Skipped]).

(** The literal of the Go map, in source order. *)
Definition legacy_entries : list (string * (State * Reason)) :=
  [ ("queued", (Queued, "")); ("running", (Running, ""));
    ("blocked", (Blocked, "")); ("done", (Done, ""));
    ("failed", (Failed, "")); ("canceled", (Canceled, ""));
    ("skipped", (Skipped, ""));
    ("registered", (Queued, "")); ("pending", (Queued, ""));
    ("leased", (Running, ""));
    ("approval_waiting", (Blocked, ReasonApproval));
    ("waiting", (Blocked, ReasonCI));
    ("interrupted", (Blocked, ReasonInterrupted));
    ("passed", (Done, "")); ("succeeded", (Done, "")); ("success", (Done, ""));
    ("skipped_cached", (Skipped, ReasonCached)) ].

Definition legacy : gmap string (State * Reason) := list_to_map legacy_entries.

Definition Normalize (s : string) : State :=
  match legacy !! s with
  | Some (st, _) => st
  | None => s
  end.

Definition NormalizeWithReason (s : string) : State * Reason :=
  match legacy !! s with
  | Some m => m
  | None => (s, "")
  end.

(** [db.InterruptedInstance]. *)
Definition InterruptedInstance (st reason : string) : bool :=
  bool_decide (st = "interrupted") ||
  (bool_decide (st = Blocked) && bool_decide (reason = ReasonInterrupted)).

(** The columns of a [step_runs] row the migration rewrites. *)
Record StepRow := { row_state : string; row_skipped_reason : string }.

(** The two [UPDATE step_runs] statements of [migrateStates], in order. *)
Definition migrateStepRow (r : StepRow) : StepRow :=
  let r1 := if bool_decide (row_state r = "passed")
            then {| row_state := "done"; row_skipped_reason := row_skipped_reason r |}
            else r in
  if bool_decide (row_state r1 = "skipped_cached")
  then {| row_state := "skipped"; row_skipped_reason := "cached" |}
  else r1.

(** The [UPDATE dispatch_jobs] statement of [migrateStates]. *)
Definition migrateJobState (st : string) : string :=
  if bool_decide (st = "succeeded") then "done" else st.

(** The canonical set. *)
Definition canonical (s : string) : bool :=
  bool_decide (s ∈ [Queued; Running; Blocked; Done; Failed; Canceled; Skipped]).

(** How a reader of a row sees it: the reason encoded in a legacy name wins,
    otherwise the reason column holds it. *)
Definition row_view (r : StepRow) : State * Reason :=
  let '(st, reason) := NormalizeWithReason (row_state r) in
  (st, if is_empty reason then row_skipped_reason r else reason).

(** ** Lemmas *)

Lemma legacy_spec s :
  (exists st rn, legacy !! s = Some (st, rn) /\ (s, (st, rn)) ∈ legacy_entries)
  \/ (legacy !! s = None /\ s ∉ legacy_entries.*1).
Proof.
  destruct (legacy !! s) as [[st rn]|] eqn:E.
  - left. exists st, rn. split; [done|]. by apply elem_of_list_to_map_2.
  - right. split; [done|]. by apply not_elem_of_list_to_map.
Qed.

(** A fact about every entry of the table, by evaluation. *)
Lemma legacy_forall (P : string * (State * Reason) -> Prop)
    {dP : forall e, Decision (P e)} :
  forallb (fun e => bool_decide (P e)) legacy_entries = true ->
  forall e, e ∈ legacy_entries -> P e.
Proof.
  intros H e He. rewrite forallb_forall in H.
  apply list_elem_of_In, H, bool_decide_eq_true in He. exact He.
Qed.

Lemma Normalize_fst s : Normalize s = (NormalizeWithReason s).1.
Proof.
  unfold Normalize, NormalizeWithReason. by destruct (legacy !! s) as [[]|].
Qed.

Lemma legacy_canonical s st rn : legacy !! s = Some (st, rn) -> canonical st = true.
Proof.
  intros H%elem_of_list_to_map_2. revert H.
  by apply (legacy_forall (fun e => canonical e.2.1 = true)).
Qed.

Lemma canonical_fixed s : canonical s = true -> Normalize s = s.
Proof.
  unfold canonical. rewrite bool_decide_eq_true.
  rewrite list_elem_of_In. simpl. intros H.
  repeat destruct H as [<-|H]; [vm_compute; reflexivity..|done].
Qed.

Lemma migrateStepRow_other s reason :
  s <> "passed" -> s <> "skipped_cached" ->
  migrateStepRow {| row_state := s; row_skipped_reason := reason |}
  = {| row_state := s; row_skipped_reason := reason |}.
Proof.
  intros. unfold migrateStepRow; simpl.
  rewrite (bool_decide_eq_false_2 (s = "passed")) by done. simpl.
  by rewrite bool_decide_eq_false_2.
Qed.

(** ** Properties *)

(** [Normalize] is total and lossless on failure. A value it knows becomes
    one of the seven canonical states, a value it does not know comes back
    unchanged, and a second application changes nothing, so a row may be
    normalised on any number of read paths. *)
Theorem Normalize_correct (s : string) :
  (canonical (Normalize s) = true \/ (legacy !! s = None /\ Normalize s = s))
  /\ Normalize (Normalize s) = Normalize s
  /\ (canonical s = true -> Normalize s = s).
Proof.
  split; [|split; [|apply canonical_fixed]].
  - unfold Normalize. destruct (legacy !! s) as [[st rn]|] eqn:E; [left|by right].
    eauto using legacy_canonical.
  - destruct (legacy !! s) as [[st rn]|] eqn:E.
    + apply canonical_fixed. unfold Normalize. rewrite E. eauto using legacy_canonical.
    + assert (Normalize s = s) as -> by (unfold Normalize; by rewrite E).
      unfold Normalize. by rewrite E.
Qed.

(** Migrating a [step_runs] row never changes what a reader sees (state and
    reason), reaches only rows that are already terminal, and is idempotent; the
    [dispatch_jobs] migration keeps the normalised state and is idempotent. *)
Theorem migrateStates_preserves_view (r : StepRow) (st : string) :
  row_view (migrateStepRow r) = row_view r
  /\ (migrateStepRow r = r \/ IsTerminal (Normalize (row_state r)) = true)
  /\ migrateStepRow (migrateStepRow r) = migrateStepRow r
  /\ Normalize (migrateJobState st) = Normalize st
  /\ migrateJobState (migrateJobState st) = migrateJobState st.
Proof.
  destruct r as [s reason]. split_and!.
  1-3: destruct (decide (s = "passed")) as [->|]; [vm_compute; auto|];
    destruct (decide (s = "skipped_cached")) as [->|]; [vm_compute; auto|];
    rewrite ?migrateStepRow_other by done; auto.
  all: destruct (decide (st = "succeeded")) as [->|]; [vm_compute; reflexivity|];
    assert (migrateJobState st = st) as Hst
      by (unfold migrateJobState; by rewrite bool_decide_eq_false_2);
    by rewrite !Hst.
Qed.

End state.
