(* ===== verification/Model.v ===== *)
(** * Domain model and the runtime the program calls

    Models the records of src/internal/model (source items, tasks, bindings,
    pull-request events), decoded JSON ([any] values), IEEE-754 [float64] as the
    expression language and the memory document use it, and the interface to
    those parts of Go's standard library whose algorithms are not worth
    re-deriving here (regular expressions, [%g], [json.Marshal], durations). *)

From S2P Require Import Prelude.
From stdpp Require Import base gmap strings list pretty.
From Stdlib Require Import ZArith SpecFloat Ascii.

(** ** float64 *)

Module float64.
Definition prec : Z := 53.
Definition emax : Z := 1024.

(** [float64(n)] for an integer [n]: round to nearest, ties to even. *)
Definition of_Z (n : Z) : spec_float := binary_normalize prec emax n 0 false.

(** Go's [==] on float64. *)
Definition eqb : spec_float -> spec_float -> bool := SFeqb.

(** The integer part, or [None] for an infinity or a NaN. *)
Definition trunc (f : spec_float) : option Z :=
  match f with
  | S754_zero _ => Some 0%Z
  | S754_finite s m e =>
      let a := if (0 <=? e)%Z then (Zpos m * 2 ^ e)%Z else (Zpos m / 2 ^ (- e))%Z in
      Some (if s then (- a)%Z else a)
  | _ => None
  end.

Definition in_int64 (z : Z) : bool := ((- 2 ^ 63 <=? z) && (z <? 2 ^ 63))%Z.

(** The digits of a decimal numeral as a mantissa and the number of digits
    after the point; [None] for anything else. *)
Fixpoint decimal_go (s : string) (seen_dot : bool) (m : Z) (k : nat) (digits : bool)
    : option (Z * nat) :=
  match s with
  | EmptyString => if digits then Some (m, k) else None
  | String c s' =>
      if decide (c = "."%char)
      then if seen_dot then None else decimal_go s' true m k digits
      else match Ascii.is_nat c with
           | Some d => decimal_go s' seen_dot (10 * m + Z.of_nat d)%Z
                         (if seen_dot then S k else k) true
           | None => None
           end
  end.

(** [strconv.ParseFloat(s, 64)] on the numerals the expression lexer makes (an
    optional sign, digits and points): the correctly rounded quotient of the
    mantissa by the power of ten; an out-of-range magnitude is an error. *)
Definition parse (s : string) : option spec_float :=
  let '(neg, body) := match s with
                      | String "-" s' => (true, s')
                      | _ => (false, s)
                      end in
  match decimal_go body false 0 0 false with
  | None => None
  | Some (Z0, _) => Some (S754_zero neg)
  | Some (Zpos m, k) =>
      match SFdiv prec emax (S754_finite neg m 0)
              (S754_finite false (Z.to_pos (10 ^ Z.of_nat k)) 0) with
      | S754_infinity _ | S754_nan => None
      | f => Some f
      end
  | Some (Zneg _, _) => None
  end.
End float64.

(** ** Decoded JSON: Go's [any] *)

Inductive JValue : Type :=
  | JNull
  | JBool (b : bool)
  | JNum (f : spec_float)
  | JStr (s : string)
  | JArr (l : list JValue)
  | JObj (m : gmap string JValue).

(** ** The standard library as the sources use it *)

Class GoRuntime := {
  (** [regexp.Compile]; the result is [MatchString]. *)
  regexp_compile : string -> option (string -> bool);
  (** [fmt.Sprintf("%g", x)]. *)
  fmt_g : spec_float -> string;
  (** [fmt.Sprintf("%v", x)]. *)
  fmt_v : JValue -> string;
  (** [json.Marshal]. *)
  json_marshal : JValue -> option string;
  (** [json.Unmarshal] of an object into a [map[string]any]. *)
  json_unmarshal_object : string -> option (gmap string JValue);
  (** [json.Valid]. *)
  json_valid : string -> bool;
  (** [int64(x)] when [x] does not fit: the language leaves the value open. *)
  int64_overflow : spec_float -> Z;
  (** [time.ParseDuration], in nanoseconds. *)
  parse_duration : string -> option Z;
}.

(** A concrete runtime, for running the model on examples: patterns are literal
    substrings, durations are a count of seconds, compound values print as
    a fixed text. *)
Definition literal_runtime : GoRuntime := {|
  regexp_compile := fun p => Some (fun s => str_contains s p);
  fmt_g := fun _ => "g";
  fmt_v := fun _ => "v";
  json_marshal := fun _ => Some "json";
  json_unmarshal_object := fun _ => None;
  json_valid := fun s => has_prefix s "{" && has_suffix s "}";
  int64_overflow := fun _ => (- 2 ^ 63)%Z;
  parse_duration := fun s => (fun p => p.1 * 10 ^ 9)%Z <$> float64.decimal_go s false 0 0 false;
|}.

Section render.
Context {RT : GoRuntime}.

Definition int64_of_float (f : spec_float) : Z :=
  match float64.trunc f with
  | Some z => if float64.in_int64 z then z else int64_overflow f
  | None => int64_overflow f
  end.

(** [renderValue] of src/internal/workflow/memory.go. *)
Definition renderValue (v : JValue) : string :=
  match v with
  | JStr x => x
  | JBool x => if x then "true" else "false"
  | JNum x =>
      let i := int64_of_float x in
      if float64.eqb x (float64.of_Z i) then pretty i else fmt_g x
  | JNull => ""
  | _ => match json_marshal v with
         | Some data => data
         | None => fmt_v v
         end
  end.
End render.

(** ** Work items *)

Record Comment := { cm_ID : string; cm_Body : string; cm_CreatedAt : Z }.

(** [model.SourceItem], the fields the modelled code reads. *)
Record SourceItem := {
  si_ID : string;
  si_SourceID : string;
  si_Number : string;
  si_Title : string;
  si_Description : string;
  si_Labels : list string;
  si_Type : string;
  si_Priority : string;
  si_State : string;
  si_URL : string;
  si_Comments : list Comment;
}.

(** [model.TaskMetadata]. *)
Record TaskMetadata := {
  md_Labels : list string;
  md_Priority : string;
  md_Type : string;
  md_Source : string;
  md_State : string;
}.

(** [model.InternalTask], the fields the modelled code reads. *)
Record InternalTask := {
  it_ID : string;
  it_ParentTaskID : string;
  it_Title : string;
  it_Description : string;
  it_Metadata : TaskMetadata;
}.

(** [model.SourceBinding]. *)
Record SourceBinding := {
  sb_ID : string;
  sb_TaskID : string;
  sb_SourceID : string;
  sb_SourceItemID : string;
  sb_SourceItemURL : string;
  sb_SourceItemNumber : string;
}.

(** [model.SourceEvent]. *)
Record SourceEvent := {
  ev_ID : string;
  ev_SourceID : string;
  ev_Kind : string;
  ev_PRNumber : Z;
  ev_PRURL : string;
  ev_PRAuthor : string;
  ev_Author : string;
  ev_AuthorAssociation : string;
  ev_Body : string;
  ev_RelatedItemID : string;
}.

(** [SourceItem.LogLabel]. *)
Definition trim_hash (s : string) : string :=
  match s with
  | String "#" s' => s'
  | _ => s
  end.

Definition LogLabel (s : SourceItem) : string :=
  if is_empty (si_Number s) || bool_decide (trim_hash (si_Number s) = si_ID s)
  then si_ID s
  else si_ID s +:+ " " +:+ si_Number s.

(** [sourceItemView] of src/internal/workflow/engine.go: the execution view of a
    task is its own content with the identity of its primary binding. *)
Definition sourceItemView (task : InternalTask) (bindings : list SourceBinding) : SourceItem :=
  let md := it_Metadata task in
  let view (id src num url : string) := {|
    si_ID := id; si_SourceID := src; si_Number := num;
    si_Title := it_Title task; si_Description := it_Description task;
    si_Labels := md_Labels md; si_Type := md_Type md; si_Priority := md_Priority md;
    si_State := md_State md; si_URL := url; si_Comments := [] |} in
  match bindings with
  | [] => view (it_ID task) (md_Source md) "" ""
  | b :: _ => view (sb_SourceItemID b) (sb_SourceID b) (sb_SourceItemNumber b) (sb_SourceItemURL b)
  end.

(** ** Sanity of the number model *)

Example parse_half : float64.parse "0.5" = Some (S754_finite false 4503599627370496 (-53)).
Proof. vm_compute. reflexivity. Qed.

Example parse_int_exact :
  forallb (fun p => match float64.parse p.1 with
                    | Some f => float64.eqb f (float64.of_Z p.2)
                    | None => false
                    end)
    [("0", 0%Z); ("1", 1%Z); ("-7", (-7)%Z); ("3.0", 3%Z); ("255", 255%Z);
     ("9007199254740993", 9007199254740992%Z); ("12.", 12%Z)] = true.
Proof. vm_compute. reflexivity. Qed.

Example parse_rejects : float64.parse "1.2.3" = None.
Proof. reflexivity. Qed.
