(* ===== verification/Expr.v ===== *)
(** * The condition language (src/internal/workflow/expr.go)

    Lexer, recursive-descent parser, AST, evaluator and [MemoryRefs] of the
    expressions used by [if], [reject_when], split branches and join policies,
    and [stripExprDelimiters] of src/internal/workflow/dag.go.

    The Go parser keeps a token slice and an index; here the parser state is the
    suffix of tokens still to read, whose last token is always [tEOF]. Both
    loops run on fuel; [lex_total] and [parse_total] show that the fuel chosen
    by [lex] and [parse_tokens] is never exhausted. *)

From S2P Require Import Prelude Model.
From stdpp Require Import base gmap strings list.
From Stdlib Require Import ZArith SpecFloat Ascii.

(** ** Tokens and lexer *)

Inductive tokKind := tEOF | tIdent | tString | tNumber | tDot | tLParen | tRParen | tEq | tNeq.

Record token := Tok { kind : tokKind; val : string }.

#[global] Instance tokKind_eq_dec : EqDecision tokKind.
Proof. solve_decision. Defined.
#[global] Instance token_eq_dec : EqDecision token.
Proof. solve_decision. Defined.

Inductive lexError :=
  | LexBareEq (pos : nat)
  | LexBang (pos : nat)
  | LexAmp (pos : nat)
  | LexPipe (pos : nat)
  | LexUnterminated
  | LexMinus (pos : nat)
  | LexChar (c : ascii) (pos : nat)
  | LexFuel.

Definition byte_in (lo hi c : ascii) : bool :=
  ((N_of_ascii lo <=? N_of_ascii c) && (N_of_ascii c <=? N_of_ascii hi))%N.

Definition isDigit (c : ascii) : bool := byte_in "0" "9" c.

Definition isIdentStart (c : ascii) : bool :=
  bool_decide (c = "_"%char) || byte_in "a" "z" c || byte_in "A" "Z" c.

Definition isIdentChar (c : ascii) : bool := isIdentStart c || isDigit c.

Definition isBlank (c : ascii) : bool :=
  bool_decide (c ∈ [" "%char; "009"%char; "010"%char; "013"%char]).

Definition isQuote (c : ascii) : bool := bool_decide (c ∈ ["034"%char; "039"%char]).

(** Is the first byte of [s] a [c]? The code's [i+1 < len(s) && s[i+1] == c]. *)
Definition starts_with (p : ascii -> bool) (s : string) : bool :=
  match s with
  | EmptyString => false
  | String c _ => p c
  end.

Definition str_tl (s : string) : string :=
  match s with
  | EmptyString => EmptyString
  | String _ s' => s'
  end.

Definition cons_tok (t : token) (m : result lexError (list token)) : result lexError (list token) :=
  ts ← m; Ok (t :: ts).

(** One pass of the [for i < len(s)] loop per call; [pos] is Go's [i] and [s] is
    [s[i:]]. *)
Fixpoint lex_go (fuel pos : nat) (s : string) : result lexError (list token) :=
  match s with
  | EmptyString => Ok [Tok tEOF ""]
  | String c s' =>
    match fuel with
    | O => Err LexFuel
    | S fuel =>
      if isBlank c then lex_go fuel (S pos) s'
      else if bool_decide (c = "("%char) then cons_tok (Tok tLParen "(") (lex_go fuel (S pos) s')
      else if bool_decide (c = ")"%char) then cons_tok (Tok tRParen ")") (lex_go fuel (S pos) s')
      else if bool_decide (c = "."%char) then cons_tok (Tok tDot ".") (lex_go fuel (S pos) s')
      else if bool_decide (c = "="%char) then
        if starts_with (fun d => bool_decide (d = "="%char)) s'
        then cons_tok (Tok tEq "==") (lex_go fuel (pos + 2) (str_tl s'))
        else Err (LexBareEq pos)
      else if bool_decide (c = "!"%char) then
        if starts_with (fun d => bool_decide (d = "="%char)) s'
        then cons_tok (Tok tNeq "!=") (lex_go fuel (pos + 2) (str_tl s'))
        else Err (LexBang pos)
      else if bool_decide (c = "&"%char) then Err (LexAmp pos)
      else if bool_decide (c = "|"%char) then Err (LexPipe pos)
      else if isQuote c then
        match str_span (fun d => negb (bool_decide (d = c))) s' with
        | (_, EmptyString) => Err LexUnterminated
        | (body, String _ rest) =>
            cons_tok (Tok tString body) (lex_go fuel (pos + String.length body + 2) rest)
        end
      else if isDigit c || (bool_decide (c = "-"%char) && starts_with isDigit s') then
        match str_span (fun d => isDigit d || bool_decide (d = "."%char)) s' with
        | (body, rest) =>
            cons_tok (Tok tNumber (String c body)) (lex_go fuel (pos + S (String.length body)) rest)
        end
      else if bool_decide (c = "-"%char) then Err (LexMinus pos)
      else if isIdentStart c then
        match str_span isIdentChar s' with
        | (body, rest) =>
            cons_tok (Tok tIdent (String c body)) (lex_go fuel (pos + S (String.length body)) rest)
        end
      else Err (LexChar c pos)
    end
  end.

Definition lex (s : string) : result lexError (list token) := lex_go (String.length s) 0 s.

(** ** Syntax *)

Inductive exprNode :=
  | orNode (l r : exprNode)
  | andNode (l r : exprNode)
  | notNode (x : exprNode)
  | cmpNode (path : list string) (op operand : string) (isNumber : bool).

Inductive parseError :=
  | PLex (e : lexError)
  | PUnexpected (v : string)
  | PExpectRParen
  | PExpectAccessor (v : string)
  | PExpectIdent
  | PExpectOperator (path : list string) (v : string)
  | PExpectOperand (v : string)
  | PFuel.

(** ** Parser *)

Definition peek (ts : list token) : token := default (Tok tEOF "") (head ts).

(** [next] does not move past the last token. *)
Definition next (ts : list token) : list token :=
  match ts with
  | _ :: ((_ :: _) as ts') => ts'
  | _ => ts
  end.

Definition isKeyword (kw : string) (ts : list token) : bool :=
  bool_decide (kind (peek ts) = tIdent) && bool_decide (val (peek ts) = kw).

Definition parsed := result parseError (exprNode * list token).

(** The [for p.peek().kind == tDot] loop of [parseComparison]. *)
Fixpoint parse_path (fuel : nat) (path : list string) (ts : list token)
    : result parseError (list string * list token) :=
  match fuel with
  | O => Err PFuel
  | S fuel =>
      if bool_decide (kind (peek ts) = tDot) then
        let ts1 := next ts in
        if bool_decide (kind (peek ts1) = tIdent)
        then parse_path fuel (path ++ [val (peek ts1)]) (next ts1)
        else Err PExpectIdent
      else Ok (path, ts)
  end.

Definition parse_op (path : list string) (ts : list token) : result parseError (string * list token) :=
  if bool_decide (kind (peek ts) = tEq) then Ok ("==", next ts)
  else if bool_decide (kind (peek ts) = tNeq) then Ok ("!=", next ts)
  else if isKeyword "contains" ts then Ok ("contains", next ts)
  else if isKeyword "matches" ts then Ok ("matches", next ts)
  else Err (PExpectOperator path (val (peek ts))).

Definition parseComparison (ts : list token) : parsed :=
  if negb (bool_decide (kind (peek ts) = tIdent)) then Err (PExpectAccessor (val (peek ts)))
  else
    '(path, ts1) ← parse_path (S (length ts)) [val (peek ts)] (next ts);
    '(op, ts2) ← parse_op path ts1;
    let operandTok := peek ts2 in
    match kind operandTok with
    | tString => Ok (cmpNode path op (val operandTok) false, next ts2)
    | tNumber => Ok (cmpNode path op (val operandTok) true, next ts2)
    | _ => Err (PExpectOperand (val operandTok))
    end.

Fixpoint parseOr (fuel : nat) (ts : list token) : parsed :=
  match fuel with
  | O => Err PFuel
  | S fuel => '(lhs, ts1) ← parseAnd fuel ts; orLoop fuel lhs ts1
  end
with orLoop (fuel : nat) (lhs : exprNode) (ts : list token) : parsed :=
  match fuel with
  | O => Err PFuel
  | S fuel =>
      if isKeyword "or" ts
      then '(rhs, ts1) ← parseAnd fuel (next ts); orLoop fuel (orNode lhs rhs) ts1
      else Ok (lhs, ts)
  end
with parseAnd (fuel : nat) (ts : list token) : parsed :=
  match fuel with
  | O => Err PFuel
  | S fuel => '(lhs, ts1) ← parseNot fuel ts; andLoop fuel lhs ts1
  end
with andLoop (fuel : nat) (lhs : exprNode) (ts : list token) : parsed :=
  match fuel with
  | O => Err PFuel
  | S fuel =>
      if isKeyword "and" ts
      then '(rhs, ts1) ← parseNot fuel (next ts); andLoop fuel (andNode lhs rhs) ts1
      else Ok (lhs, ts)
  end
with parseNot (fuel : nat) (ts : list token) : parsed :=
  match fuel with
  | O => Err PFuel
  | S fuel =>
      if isKeyword "not" ts
      then '(x, ts1) ← parseNot fuel (next ts); Ok (notNode x, ts1)
      else parseAtom fuel ts
  end
with parseAtom (fuel : nat) (ts : list token) : parsed :=
  match fuel with
  | O => Err PFuel
  | S fuel =>
      if bool_decide (kind (peek ts) = tLParen) then
        '(inner, ts1) ← parseOr fuel (next ts);
        if bool_decide (kind (peek ts1) = tRParen) then Ok (inner, next ts1)
        else Err PExpectRParen
      else parseComparison ts
  end.

(** The body of [ParseExpr] after lexing: the whole input must be consumed. *)
Definition parse_tokens (ts : list token) : result parseError exprNode :=
  '(node, ts') ← parseOr (5 * length ts + 4) ts;
  if bool_decide (kind (peek ts') = tEOF) then Ok node else Err (PUnexpected (val (peek ts'))).

Definition ParseExpr (src : string) : result parseError exprNode :=
  match lex src with
  | Err e => Err (PLex e)
  | Ok ts => parse_tokens ts
  end.

(** [stripExprDelimiters]: drop an optional [${{ }}] wrapper. *)
Definition stripExprDelimiters (s : string) : string :=
  let s := trim_space s in
  if has_prefix s "${{" && has_suffix s "}}"
  then trim_space (String.substring 3 (String.length s - 5) s)
  else s.

Definition LintExpr (src : string) : bool := is_ok (ParseExpr (stripExprDelimiters src)).

(** ** Evaluation *)

(** [StepState]: a completed step's outcome, as expressions see it. *)
Record StepState := { ss_State : string; ss_ExitCode : Z; ss_Output : string }.

Record EvalContext := {
  ec_Cell : SourceItem;
  ec_Memory : gmap string string;
  ec_Steps : gmap string StepState;
  (** Go's nil event map reads as the empty one. *)
  ec_Event : gmap string string;
}.

Inductive valueKind := kString | kList | kNumber | kMissing.

Record resolvedValue := {
  rv_kind : valueKind; rv_s : string; rv_list : list string; rv_n : spec_float
}.

Definition rv_str (s : string) : resolvedValue :=
  {| rv_kind := kString; rv_s := s; rv_list := []; rv_n := S754_zero false |}.
Definition rv_strs (l : list string) : resolvedValue :=
  {| rv_kind := kList; rv_s := ""; rv_list := l; rv_n := S754_zero false |}.
Definition rv_num (n : spec_float) : resolvedValue :=
  {| rv_kind := kNumber; rv_s := ""; rv_list := []; rv_n := n |}.
Definition rv_missing : resolvedValue :=
  {| rv_kind := kMissing; rv_s := ""; rv_list := []; rv_n := S754_zero false |}.

Inductive evalError :=
  | EvEmptyAccessor
  | EvInvalidAccessor (path : list string)
  | EvUnknownField (root field : string)
  | EvUnknownRoot (root : string)
  | EvMatchesOnList (path : list string)
  | EvInvalidRegex (re : string)
  | EvContainsUnsupported (path : list string)
  | EvEqOnList (op : string) (path : list string)
  | EvInvalidNumber (operand : string)
  | EvUnknownOperator (op : string).

Definition event_fields : list string :=
  ["kind"; "body"; "author"; "author_association"; "pr_number"; "pr_url"; "pr_author"].

Definition opt_str (o : option string) : resolvedValue := from_option rv_str rv_missing o.

Definition resolve_cell (path : list string) (cell : SourceItem) : result evalError resolvedValue :=
  match path with
  | [_; f] =>
      if bool_decide (f = "labels") then Ok (rv_strs (si_Labels cell))
      else if bool_decide (f = "priority") then Ok (rv_str (si_Priority cell))
      else if bool_decide (f = "type") then Ok (rv_str (si_Type cell))
      else if bool_decide (f = "title") then Ok (rv_str (si_Title cell))
      else if bool_decide (f = "source") then Ok (rv_str (si_SourceID cell))
      else if bool_decide (f = "state") then Ok (rv_str (si_State cell))
      else Err (EvUnknownField "cell" f)
  | _ => Err (EvInvalidAccessor path)
  end.

Definition resolve_event (path : list string) (ev : gmap string string) : result evalError resolvedValue :=
  match path with
  | [_; f] => if str_in f event_fields then Ok (opt_str (ev !! f))
              else Err (EvUnknownField "event" f)
  | _ => Err (EvInvalidAccessor path)
  end.

Definition resolve_memory (path : list string) (mem : gmap string string) : result evalError resolvedValue :=
  match path with
  | [_; f] => Ok (opt_str (mem !! f))
  | _ => Err (EvInvalidAccessor path)
  end.

Definition resolve_steps (path : list string) (steps : gmap string StepState) : result evalError resolvedValue :=
  match path with
  | [_; id; f] =>
      match steps !! id with
      | None => Ok rv_missing
      | Some st =>
          if bool_decide (f = "state") then Ok (rv_str (ss_State st))
          else if bool_decide (f = "output") then Ok (rv_str (ss_Output st))
          else if bool_decide (f = "exit_code") then Ok (rv_num (float64.of_Z (ss_ExitCode st)))
          else Err (EvUnknownField "steps" f)
      end
  | _ => Err (EvInvalidAccessor path)
  end.

Definition resolveAccessor (path : list string) (ctx : EvalContext) : result evalError resolvedValue :=
  match path with
  | [] => Err EvEmptyAccessor
  | root :: _ =>
      if bool_decide (root = "cell") then resolve_cell path (ec_Cell ctx)
      else if bool_decide (root = "event") then resolve_event path (ec_Event ctx)
      else if bool_decide (root = "memory") then resolve_memory path (ec_Memory ctx)
      else if bool_decide (root = "steps") then resolve_steps path (ec_Steps ctx)
      else Err (EvUnknownRoot root)
  end.

(** [equals]: numbers compare as float64 only when both sides are numbers;
    everything else, a missing value included, compares as a string. *)
Definition equals (v : resolvedValue) (path : list string) (op operand : string) (isNumber : bool)
    : result evalError bool :=
  match rv_kind v with
  | kList => Err (EvEqOnList op path)
  | kNumber =>
      if isNumber then
        match float64.parse operand with
        | None => Err (EvInvalidNumber operand)
        | Some want => Ok (float64.eqb (rv_n v) want)
        end
      else Ok (bool_decide (rv_s v = operand))
  | _ => Ok (bool_decide (rv_s v = operand))
  end.

Section eval.
Context {RT : GoRuntime}.

Definition cmp_eval (path : list string) (op operand : string) (isNumber : bool) (v : resolvedValue)
    : result evalError bool :=
  if bool_decide (op = "matches") then
    match rv_kind v with
    | kList => Err (EvMatchesOnList path)
    | _ => match regexp_compile operand with
           | None => Err (EvInvalidRegex operand)
           | Some re => Ok (re (rv_s v))
           end
    end
  else if bool_decide (op = "contains") then
    match rv_kind v with
    | kList => Ok (str_in operand (rv_list v))
    | kString => Ok (str_contains (rv_s v) operand)
    | _ => Err (EvContainsUnsupported path)
    end
  else if bool_decide (op = "==") then equals v path op operand isNumber
  else if bool_decide (op = "!=") then negb <$> equals v path op operand isNumber
  else Err (EvUnknownOperator op).

(** [exprNode.eval]: [or] and [and] evaluate left to right and stop as soon as
    the left operand decides. *)
Fixpoint Eval (n : exprNode) (ctx : EvalContext) : result evalError bool :=
  match n with
  | orNode l r => lv ← Eval l ctx; if (lv : bool) then Ok true else Eval r ctx
  | andNode l r => lv ← Eval l ctx; if (lv : bool) then Eval r ctx else Ok false
  | notNode x => v ← Eval x ctx; Ok (negb (v : bool))
  | cmpNode path op operand isNumber =>
      v ← resolveAccessor path ctx; cmp_eval path op operand isNumber v
  end.

(** [evalExpr] of dag.go: strip the wrapper, parse, evaluate. *)
Definition evalExpr (src : string) (ctx : EvalContext) : result (parseError + evalError) bool :=
  match ParseExpr (stripExprDelimiters src) with
  | Err e => Err (inl e)
  | Ok n => match Eval n ctx with
            | Err e => Err (inr e)
            | Ok b => Ok b
            end
  end.
End eval.

(** ** [MemoryRefs]: the [memory.<key>] keys an expression reads *)

Fixpoint collectMemoryRefs (n : exprNode) (seen : gset string) : gset string :=
  match n with
  | orNode l r => collectMemoryRefs r (collectMemoryRefs l seen)
  | andNode l r => collectMemoryRefs r (collectMemoryRefs l seen)
  | notNode x => collectMemoryRefs x seen
  | cmpNode path _op _operand _isNumber =>
      match path with
      | [root; key] => if bool_decide (root = "memory") then {[key]} ∪ seen else seen
      | _ => seen
      end
  end.

Definition MemoryRefs (n : exprNode) : list string :=
  sort_strings (elements (collectMemoryRefs n ∅)).
