(* ===== verification/ExprFacts.v ===== *)
(** * Facts about the condition language

    The grammar of the expressions as an inductive relation, that the parser of
    [Expr] accepts exactly it and never runs out of fuel, and what evaluation
    depends on. *)

From S2P Require Import Prelude Model Expr.
From stdpp Require Import base gmap strings list.
From Stdlib Require Import ZArith SpecFloat Ascii.

#[local] Arguments next : simpl never.

(** ** The grammar

    [or] binds looser than [and], both associate to the left, and [not] applies
    to the shortest operand after it. A token list derives an AST. *)

Inductive G_path : list token -> list string -> Prop :=
  | gp_one v : G_path [Tok tIdent v] [v]
  | gp_more ts p d v :
      G_path ts p -> G_path (ts ++ [Tok tDot d; Tok tIdent v]) (p ++ [v]).

Inductive G_op : token -> string -> Prop :=
  | go_eq v : G_op (Tok tEq v) "=="
  | go_neq v : G_op (Tok tNeq v) "!="
  | go_contains : G_op (Tok tIdent "contains") "contains"
  | go_matches : G_op (Tok tIdent "matches") "matches".

Inductive G_cmp : list token -> exprNode -> Prop :=
  | gc_string ts p t op v :
      G_path ts p -> G_op t op -> G_cmp (ts ++ [t; Tok tString v]) (cmpNode p op v false)
  | gc_number ts p t op v :
      G_path ts p -> G_op t op -> G_cmp (ts ++ [t; Tok tNumber v]) (cmpNode p op v true).

Inductive G_or : list token -> exprNode -> Prop :=
  | gor_one us e : G_and us e -> G_or us e
  | gor_more us vs l r :
      G_or us l -> G_and vs r -> G_or (us ++ Tok tIdent "or" :: vs) (orNode l r)
with G_and : list token -> exprNode -> Prop :=
  | gand_one us e : G_not us e -> G_and us e
  | gand_more us vs l r :
      G_and us l -> G_not vs r -> G_and (us ++ Tok tIdent "and" :: vs) (andNode l r)
with G_not : list token -> exprNode -> Prop :=
  | gnot_not us e : G_not us e -> G_not (Tok tIdent "not" :: us) (notNode e)
  | gnot_atom us e : isKeyword "not" us = false -> G_atom us e -> G_not us e
with G_atom : list token -> exprNode -> Prop :=
  | gatom_paren l r us e :
      G_or us e -> G_atom (Tok tLParen l :: us ++ [Tok tRParen r]) e
  | gatom_cmp us e : G_cmp us e -> G_atom us e.

Scheme G_or_mut := Induction for G_or Sort Prop
  with G_and_mut := Induction for G_and Sort Prop
  with G_not_mut := Induction for G_not Sort Prop
  with G_atom_mut := Induction for G_atom Sort Prop.
Combined Scheme G_mut from G_or_mut, G_and_mut, G_not_mut, G_atom_mut.

(** ** Token lists ending in [tEOF] *)

Definition wf_toks (ts : list token) : Prop := exists us, ts = us ++ [Tok tEOF ""].

Lemma wf_next t ts : wf_toks (t :: ts) -> kind t <> tEOF -> wf_toks ts /\ next (t :: ts) = ts.
Proof.
  intros [[|u us] E] Hk; simplify_eq/=.
  split; [by eexists|]. by destruct us.
Qed.

Lemma wf_peek ts k : wf_toks ts -> kind (peek ts) = k -> k <> tEOF ->
  exists v ts', ts = Tok k v :: ts' /\ wf_toks ts' /\ next ts = ts'.
Proof.
  intros Hwf Hk Hne. destruct ts as [|[k' v] ts]; [by destruct Hwf as [[]]|].
  simpl in Hk. subst k'. destruct (wf_next _ _ Hwf Hne) as [? Hn].
  exists v, ts. done.
Qed.

Lemma isKeyword_true kw ts : wf_toks ts -> isKeyword kw ts = true ->
  exists ts', ts = Tok tIdent kw :: ts' /\ wf_toks ts' /\ next ts = ts'.
Proof.
  unfold isKeyword. rewrite andb_true_iff, !bool_decide_eq_true. intros Hwf [Hk Hv].
  destruct (wf_peek _ _ Hwf Hk) as (v & ts' & -> & ? & Hn); [done|].
  simpl in Hv. subst v. eauto.
Qed.

Lemma isKeyword_app kw us vs : us <> [] -> isKeyword kw (us ++ vs) = isKeyword kw us.
Proof. by destruct us. Qed.

(** What a parsing function promises: the rest is well formed and the tokens it
    read derive the node. *)
Definition sound {A} (R : list token -> A -> Prop) (ts : list token)
    (m : result parseError (A * list token)) : Prop :=
  match m with
  | Ok (e, ts') => wf_toks ts' /\ exists us, us <> [] /\ ts = us ++ ts' /\ R us e
  | Err _ => True
  end.

Lemma sound_bind {A B} (R : list token -> A -> Prop) (Q : list token -> B -> Prop)
    ts m (f : A * list token -> result parseError (B * list token)) :
  sound R ts m ->
  (forall a ts', wf_toks ts' ->
     (exists us, us <> [] /\ ts = us ++ ts' /\ R us a) -> sound Q ts (f (a, ts'))) ->
  sound Q ts (m ≫= f).
Proof. destruct m as [[a ts']|]; rsimpl; [|done]. intros [] Hf. auto. Qed.

(** Two tokens lists in sequence. *)
Lemma sound_cons {A B} (R : list token -> A -> Prop) (Q : list token -> B -> Prop) t ts m
    (f : A -> B) :
  sound R ts m -> (forall us a, R us a -> Q (t :: us) (f a)) ->
  sound Q (t :: ts) ('(a, ts1) ← m; Ok (f a, ts1)).
Proof.
  intros H Hf. destruct m as [[a ts']|]; rsimpl; [|done].
  destruct H as (? & us & ? & -> & ?). split; [done|]. exists (t :: us). naive_solver.
Qed.

(** ** Soundness of the parser for the grammar *)

Lemma parse_path_sound fuel path us0 ts :
  wf_toks ts -> G_path us0 path ->
  match parse_path fuel path ts with
  | Ok (p, ts') => wf_toks ts' /\ exists us, ts = us ++ ts' /\ G_path (us0 ++ us) p
                   /\ kind (peek ts') <> tDot
  | Err _ => True
  end.
Proof.
  revert path us0 ts. induction fuel as [|fuel IH]; intros path us0 ts Hwf HG; simpl; [done|].
  case_bool_decide as Hd; [|by split; [done|]; exists []; rewrite app_nil_r].
  destruct (wf_peek _ _ Hwf Hd) as (d & ts1 & -> & Hwf1 & ->); [done|].
  case_bool_decide as Hi; [|done].
  destruct (wf_peek _ _ Hwf1 Hi) as (v & ts2 & -> & Hwf2 & ->); [done|]. simpl.
  specialize (IH (path ++ [v]) (us0 ++ [Tok tDot d; Tok tIdent v]) ts2 Hwf2).
  destruct (parse_path fuel (path ++ [v]) ts2) as [[p ts']|]; [|done].
  destruct IH as (? & us & -> & HG' & ?); [by constructor|].
  split; [done|]. exists (Tok tDot d :: Tok tIdent v :: us).
  split; [done|]. split; [|done]. by rewrite <- app_assoc in HG'.
Qed.

Lemma parse_op_sound path ts :
  wf_toks ts ->
  match parse_op path ts with
  | Ok (op, ts') => wf_toks ts' /\ exists t, ts = t :: ts' /\ G_op t op
  | Err _ => True
  end.
Proof.
  intros Hwf. unfold parse_op.
  case_bool_decide as H1.
  { destruct (wf_peek _ _ Hwf H1) as (v & ts' & -> & ? & ->); [done|]. eauto using G_op. }
  case_bool_decide as H2.
  { destruct (wf_peek _ _ Hwf H2) as (v & ts' & -> & ? & ->); [done|]. eauto using G_op. }
  destruct (isKeyword "contains" ts) eqn:H3.
  { destruct (isKeyword_true _ _ Hwf H3) as (ts' & -> & ? & ->). eauto using G_op. }
  destruct (isKeyword "matches" ts) eqn:H4; [|done].
  destruct (isKeyword_true _ _ Hwf H4) as (ts' & -> & ? & ->). eauto using G_op.
Qed.

Lemma parseComparison_sound ts : wf_toks ts -> sound G_cmp ts (parseComparison ts).
Proof.
  intros Hwf. unfold parseComparison.
  case_bool_decide as Hi; cbn [negb]; [|done].
  destruct (wf_peek _ _ Hwf Hi) as (v & ts1 & -> & Hwf1 & ->); [done|].
  change (peek (Tok tIdent v :: ts1)) with (Tok tIdent v). cbn [val].
  generalize (S (length (Tok tIdent v :: ts1))); intros fuel.
  pose proof (parse_path_sound fuel [v] [Tok tIdent v] ts1 Hwf1) as Hp.
  destruct (parse_path fuel [v] ts1) as [[p ts2]|]; rsimpl; [|done].
  destruct Hp as (Hwf2 & us & -> & HG & _); [constructor|].
  pose proof (parse_op_sound p ts2 Hwf2) as Ho.
  destruct (parse_op p ts2) as [[op ts3]|]; rsimpl; [|done].
  destruct Ho as (Hwf3 & t & -> & Hop).
  destruct (kind (peek ts3)) eqn:Hk; try done.
  all: destruct (wf_peek _ _ Hwf3 Hk) as (w & ts4 & -> & Hwf4 & ->); [done|].
  all: split; [done|].
  - exists ((Tok tIdent v :: us) ++ [t; Tok tString w]).
    split; [done|]. split; [by rewrite <- app_assoc|]. by constructor.
  - exists ((Tok tIdent v :: us) ++ [t; Tok tNumber w]).
    split; [done|]. split; [by rewrite <- app_assoc|]. by constructor.
Qed.

(** The statement the induction on fuel carries for the six functions. *)
Definition parser_sound (n : nat) : Prop :=
  (forall ts, wf_toks ts -> sound G_or ts (parseOr n ts))
  /\ (forall ts us0 l, wf_toks ts -> us0 <> [] -> G_or us0 l ->
        sound G_or (us0 ++ ts) (orLoop n l ts))
  /\ (forall ts, wf_toks ts -> sound G_and ts (parseAnd n ts))
  /\ (forall ts us0 l, wf_toks ts -> us0 <> [] -> G_and us0 l ->
        sound G_and (us0 ++ ts) (andLoop n l ts))
  /\ (forall ts, wf_toks ts -> sound G_not ts (parseNot n ts))
  /\ (forall ts, wf_toks ts -> isKeyword "not" ts = false -> sound G_not ts (parseAtom n ts)).

Lemma loop_sound_step kw (G H : list token -> exprNode -> Prop) (c : exprNode -> exprNode -> exprNode)
    ts us0 l (m : list token -> parsed) (k : exprNode -> list token -> parsed) :
  (forall us vs l r, G us l -> H vs r -> G (us ++ Tok tIdent kw :: vs) (c l r)) ->
  wf_toks ts -> us0 <> [] -> G us0 l ->
  (forall ts, wf_toks ts -> sound H ts (m ts)) ->
  (forall ts us0 l, wf_toks ts -> us0 <> [] -> G us0 l -> sound G (us0 ++ ts) (k l ts)) ->
  sound G (us0 ++ ts)
    (if isKeyword kw ts then '(r, ts1) ← m (next ts); k (c l r) ts1 else Ok (l, ts)).
Proof.
  intros Hc Hwf Hne HG Hm Hk. destruct (isKeyword kw ts) eqn:E.
  - destruct (isKeyword_true _ _ Hwf E) as (ts' & -> & Hwf' & ->).
    specialize (Hm ts' Hwf'). destruct (m ts') as [[r ts1]|]; rsimpl; [|done].
    destruct Hm as (Hwf1 & us & Hus & -> & HH). simpl.
    replace (us0 ++ Tok tIdent kw :: us ++ ts1) with ((us0 ++ Tok tIdent kw :: us) ++ ts1)
      by by rewrite <- app_assoc.
    apply Hk; [done| |auto]. by destruct us0.
  - split; [done|]. by exists us0.
Qed.

Lemma parser_sound_all n : parser_sound n.
Proof.
  induction n as [|n (Ho & Hol & Ha & Hal & Hn & Hat)]; [by split_and!|].
  split_and!; simpl.
  - intros ts Hwf. eapply sound_bind; [by apply Ha|]. simpl.
    intros e ts' Hwf' (us & Hus & -> & HG). apply Hol; auto using G_or.
  - intros ts us0 l Hwf Hne HG. eapply loop_sound_step; eauto using G_or.
  - intros ts Hwf. eapply sound_bind; [by apply Hn|]. simpl.
    intros e ts' Hwf' (us & Hus & -> & HG). apply Hal; auto using G_and.
  - intros ts us0 l Hwf Hne HG. eapply loop_sound_step; eauto using G_and.
  - intros ts Hwf. destruct (isKeyword "not" ts) eqn:E; [|by apply Hat].
    destruct (isKeyword_true _ _ Hwf E) as (ts' & -> & Hwf' & ->).
    apply (sound_cons G_not); [auto|]. intros; by constructor.
  - intros ts Hwf Hnot. case_bool_decide as Hk.
    + destruct (wf_peek _ _ Hwf Hk) as (v & ts' & -> & Hwf' & ->); [done|].
      specialize (Ho ts' Hwf'). destruct (parseOr n ts') as [[e ts1]|]; rsimpl; [|done].
      destruct Ho as (Hwf1 & us & Hus & -> & HG).
      case_bool_decide as Hr; [|done].
      destruct (wf_peek _ _ Hwf1 Hr) as (w & ts2 & -> & Hwf2 & ->); [done|].
      split; [done|]. exists (Tok tLParen v :: us ++ [Tok tRParen w]).
      split; [done|]. split; [by rewrite <- app_comm_cons, <- app_assoc|].
      apply gnot_atom; [done|]. by constructor.
    + pose proof (parseComparison_sound ts Hwf) as Hc.
      destruct (parseComparison ts) as [[e ts']|]; [|done].
      destruct Hc as (? & us & Hus & -> & ?). split; [done|]. exists us.
      split_and!; [done..|]. apply gnot_atom; [by rewrite isKeyword_app in Hnot|by constructor].
Qed.

(** ** Termination: the fuel is never exhausted *)

Lemma str_span_length p s a b :
  str_span p s = (a, b) -> (String.length b <= String.length s)%nat.
Proof. intros H. by apply str_span_spec in H as []. Qed.

Lemma cons_tok_fuel t m : cons_tok t m = Err LexFuel -> m = Err LexFuel.
Proof. by destruct m. Qed.

Lemma cons_tok_Ok t m ts : cons_tok t m = Ok ts -> exists ts', m = Ok ts' /\ ts = t :: ts'.
Proof. destruct m; naive_solver. Qed.

Lemma str_tl_length s : (String.length (str_tl s) <= String.length s)%nat.
Proof. destruct s; simpl; lia. Qed.

Lemma lex_go_total fuel pos s :
  (String.length s <= fuel)%nat -> lex_go fuel pos s <> Err LexFuel.
Proof.
  revert pos s. induction fuel as [|fuel IH]; intros pos [|c s] Hl; simpl in *; try done; [lia|].
  pose proof (str_tl_length s).
  repeat case_match; try done; try (intros ?%cons_tok_fuel; revert H0; apply IH; lia).
  all: repeat match goal with
    | E : str_span _ _ = (_, _) |- _ => apply str_span_length in E; simpl in E
    end.
  all: try (intros Hf%cons_tok_fuel; revert Hf); apply IH; lia.
Qed.

Lemma lex_total s : lex s <> Err LexFuel.
Proof. by apply lex_go_total. Qed.

Lemma lex_go_wf fuel pos s ts : lex_go fuel pos s = Ok ts -> wf_toks ts.
Proof.
  revert pos s ts. induction fuel as [|fuel IH]; intros pos [|c s] ts; simpl.
  1,3: intros [= <-]; by exists [].
  { done. }
  intros H. guards H; try (by eapply IH);
    apply cons_tok_Ok in H as (ts' & H%IH & ->);
    destruct H as [us ->]; by eexists (_ :: us).
Qed.

Lemma parse_path_total fuel path ts :
  wf_toks ts -> (length ts < fuel)%nat -> parse_path fuel path ts <> Err PFuel.
Proof.
  revert path ts. induction fuel as [|fuel IH]; intros path ts Hwf Hl; [lia|]. simpl.
  case_bool_decide as Hd; [|done].
  destruct (wf_peek _ _ Hwf Hd) as (d & ts1 & -> & Hwf1 & ->); [done|].
  case_bool_decide as Hi; [|done].
  destruct (wf_peek _ _ Hwf1 Hi) as (v & ts2 & -> & Hwf2 & ->); [done|].
  simpl in *. apply IH; [done|lia].
Qed.

Lemma parseComparison_total ts : wf_toks ts -> parseComparison ts <> Err PFuel.
Proof.
  intros Hwf. unfold parseComparison.
  case_bool_decide as Hi; cbn [negb]; [|done].
  destruct (wf_peek _ _ Hwf Hi) as (v & ts1 & -> & Hwf1 & ->); [done|].
  pose proof (parse_path_total (S (length (Tok tIdent v :: ts1)))
    [val (peek (Tok tIdent v :: ts1))] ts1 Hwf1) as Hp.
  destruct (parse_path _ _ _) as [[p ts2]|e]; rsimpl.
  - unfold parse_op. by repeat case_match; simplify_eq/=.
  - intros [= ->]. apply Hp; [simpl; lia|done].
Qed.

(** Each function needs five units per token, plus its depth in the call chain
    or, and, not, atom. *)
Definition parser_total (n : nat) : Prop :=
  (forall ts, wf_toks ts -> (5 * length ts + 4 <= n)%nat -> parseOr n ts <> Err PFuel)
  /\ (forall l ts, wf_toks ts -> (5 * length ts + 4 <= n)%nat -> orLoop n l ts <> Err PFuel)
  /\ (forall ts, wf_toks ts -> (5 * length ts + 3 <= n)%nat -> parseAnd n ts <> Err PFuel)
  /\ (forall l ts, wf_toks ts -> (5 * length ts + 4 <= n)%nat -> andLoop n l ts <> Err PFuel)
  /\ (forall ts, wf_toks ts -> (5 * length ts + 2 <= n)%nat -> parseNot n ts <> Err PFuel)
  /\ (forall ts, wf_toks ts -> (5 * length ts + 1 <= n)%nat -> parseAtom n ts <> Err PFuel).

(** A bind of a sound parser with a continuation that has enough fuel on every
    strictly shorter rest. *)
Lemma bind_total {A B} (R : list token -> A -> Prop) ts m
    (f : A * list token -> result parseError B) :
  sound R ts m -> m <> Err PFuel ->
  (forall a ts', wf_toks ts' -> (length ts' < length ts)%nat -> f (a, ts') <> Err PFuel) ->
  (m ≫= f) <> Err PFuel.
Proof.
  intros Hs Hm Hf. destruct m as [[a ts']|e]; rsimpl.
  - destruct Hs as (? & us & ? & -> & _). apply Hf; [done|].
    rewrite length_app. destruct us; simpl; [done|lia].
  - by intros [= ->].
Qed.

Lemma parser_total_all n : parser_total n.
Proof.
  induction n as [|n (Ho & Hol & Ha & Hal & Hn & Hat)]; [split_and!; intros; lia|].
  destruct (parser_sound_all n) as (So & _ & Sa & _ & Sn & _).
  split_and!; simpl.
  - intros ts Hwf Hl. eapply bind_total; [by apply Sa|apply Ha; [done|lia]|].
    intros e ts' Hwf' Hlt. apply Hol; [done|lia].
  - intros l ts Hwf Hl. destruct (isKeyword "or" ts) eqn:E; [|done].
    destruct (isKeyword_true _ _ Hwf E) as (ts' & -> & Hwf' & ->). simpl in Hl.
    eapply bind_total; [by apply Sa|apply Ha; [done|lia]|].
    intros e ts1 Hwf1 Hlt. apply Hol; [done|lia].
  - intros ts Hwf Hl. eapply bind_total; [by apply Sn|apply Hn; [done|lia]|].
    intros e ts' Hwf' Hlt. apply Hal; [done|lia].
  - intros l ts Hwf Hl. destruct (isKeyword "and" ts) eqn:E; [|done].
    destruct (isKeyword_true _ _ Hwf E) as (ts' & -> & Hwf' & ->). simpl in Hl.
    eapply bind_total; [by apply Sn|apply Hn; [done|lia]|].
    intros e ts1 Hwf1 Hlt. apply Hal; [done|lia].
  - intros ts Hwf Hl. destruct (isKeyword "not" ts) eqn:E; [|apply Hat; [done|lia]].
    destruct (isKeyword_true _ _ Hwf E) as (ts' & -> & Hwf' & ->). simpl in Hl.
    by eapply bind_total; [by apply Sn|apply Hn; [done|lia]|].
  - intros ts Hwf Hl. case_bool_decide as Hk; [|by apply parseComparison_total].
    destruct (wf_peek _ _ Hwf Hk) as (v & ts' & -> & Hwf' & ->); [done|]. simpl in Hl.
    eapply bind_total; [by apply So|apply Ho; [done|lia]|].
    intros e ts1 _ _. by case_bool_decide.
Qed.

Lemma parse_total ts : wf_toks ts -> parse_tokens ts <> Err PFuel.
Proof.
  intros Hwf. unfold parse_tokens.
  eapply bind_total; [by apply parser_sound_all|by apply parser_total_all|].
  intros e ts' _ _. by case_bool_decide.
Qed.

(** ** Completeness: everything the grammar derives is accepted *)

(** More fuel never changes an answer. *)
Definition stable {A} (m m' : result parseError A) : Prop := m <> Err PFuel -> m' = m.

Lemma stable_bind {A B} (m m' : result parseError A) (f f' : A -> result parseError B) :
  stable m m' -> (forall a, stable (f a) (f' a)) -> stable (m ≫= f) (m' ≫= f').
Proof.
  intros Hm Hf Hne. destruct m as [a|e]; rsimpl in Hne.
  - rewrite (Hm ltac:(done)). rsimpl. by apply Hf.
  - rewrite (Hm ltac:(naive_solver)). done.
Qed.

Lemma stable_refl {A} (m : result parseError A) : stable m m.
Proof. by intros _. Qed.

Definition parser_stable (n : nat) : Prop :=
  (forall ts, stable (parseOr n ts) (parseOr (S n) ts))
  /\ (forall l ts, stable (orLoop n l ts) (orLoop (S n) l ts))
  /\ (forall ts, stable (parseAnd n ts) (parseAnd (S n) ts))
  /\ (forall l ts, stable (andLoop n l ts) (andLoop (S n) l ts))
  /\ (forall ts, stable (parseNot n ts) (parseNot (S n) ts))
  /\ (forall ts, stable (parseAtom n ts) (parseAtom (S n) ts)).

Lemma parser_stable_all n : parser_stable n.
Proof.
  induction n as [|n (Ho & Hol & Ha & Hal & Hn & Hat)]; [split_and!; intros; by intros []|].
  split_and!; intros.
  - apply (stable_bind (parseAnd n ts) (parseAnd (S n) ts)); [apply Ha|]. intros []; apply Hol.
  - change (orLoop (S (S n)) l ts) with (if isKeyword "or" ts
      then '(r, ts1) ← parseAnd (S n) (next ts); orLoop (S n) (orNode l r) ts1 else Ok (l, ts)).
    change (orLoop (S n) l ts) with (if isKeyword "or" ts
      then '(r, ts1) ← parseAnd n (next ts); orLoop n (orNode l r) ts1 else Ok (l, ts)).
    destruct (isKeyword _ _); [|apply stable_refl]. apply stable_bind; [apply Ha|]. intros []; apply Hol.
  - apply (stable_bind (parseNot n ts) (parseNot (S n) ts)); [apply Hn|]. intros []; apply Hal.
  - change (andLoop (S (S n)) l ts) with (if isKeyword "and" ts
      then '(r, ts1) ← parseNot (S n) (next ts); andLoop (S n) (andNode l r) ts1 else Ok (l, ts)).
    change (andLoop (S n) l ts) with (if isKeyword "and" ts
      then '(r, ts1) ← parseNot n (next ts); andLoop n (andNode l r) ts1 else Ok (l, ts)).
    destruct (isKeyword _ _); [|apply stable_refl]. apply stable_bind; [apply Hn|]. intros []; apply Hal.
  - change (parseNot (S (S n)) ts) with (if isKeyword "not" ts
      then '(x, ts1) ← parseNot (S n) (next ts); Ok (notNode x, ts1) else parseAtom (S n) ts).
    change (parseNot (S n) ts) with (if isKeyword "not" ts
      then '(x, ts1) ← parseNot n (next ts); Ok (notNode x, ts1) else parseAtom n ts).
    destruct (isKeyword _ _); [|apply Hat]. apply stable_bind; [apply Hn|]. intros []; apply stable_refl.
  - simpl. case_bool_decide; [|apply stable_refl]. apply stable_bind; [apply Ho|].
    intros []; apply stable_refl.
Qed.

Lemma parseOr_stable n k ts : parseOr n ts <> Err PFuel -> parseOr (k + n) ts = parseOr n ts.
Proof.
  intros H. induction k as [|k IH]; [done|].
  change (S k + n) with (S (k + n)). rewrite <- IH. apply parser_stable_all. by rewrite IH.
Qed.

Definition converges (m : nat -> parsed) (r : exprNode * list token) : Prop :=
  exists N, forall n, (N <= n)%nat -> m n = Ok r.

Lemma converges_const r : converges (fun _ => Ok r) r.
Proof. by exists 0. Qed.

Lemma converges_S m r : converges (fun n => m (S n)) r -> converges m r.
Proof.
  intros [N H]. exists (S N). intros [|n] Hn; [lia|]. apply H. lia.
Qed.

Lemma converges_bind m f e ts r :
  converges m (e, ts) -> converges (fun n => f n e ts) r ->
  converges (fun n => '(a, ts1) ← m n; f n a ts1) r.
Proof.
  intros [N1 H1] [N2 H2]. exists (N1 + N2). intros n Hn.
  rewrite H1 by lia. rsimpl. apply H2. lia.
Qed.

Lemma next_app t us rest : rest <> [] -> next (t :: us ++ rest) = us ++ rest.
Proof. intros. destruct us, rest; done. Qed.

Lemma next_cons t rest : rest <> [] -> next (t :: rest) = rest.
Proof. by destruct rest. Qed.

Lemma parse_path_complete us p :
  G_path us p -> exists v tail, us = Tok tIdent v :: tail /\
    exists k, (k <= length tail)%nat /\ forall fuel rest, rest <> [] ->
      parse_path (k + fuel) [v] (tail ++ rest) = parse_path fuel p rest.
Proof.
  induction 1 as [v|us p d w _ (v & tail & -> & k & Hk & IH)].
  { exists v, []. split; [done|]. by exists 0. }
  exists v, (tail ++ [Tok tDot d; Tok tIdent w]). split; [done|].
  exists (k + 1). split; [rewrite length_app; simpl; lia|].
  intros fuel rest Hr.
  replace (k + 1 + fuel) with (k + S fuel) by lia.
  rewrite <- app_assoc. simpl. rewrite IH by done. by destruct rest.
Qed.

Lemma parseComparison_complete us e rest :
  G_cmp us e -> rest <> [] -> parseComparison (us ++ rest) = Ok (e, rest).
Proof.
  intros HG Hr.
  assert (exists ts p t op o b v, us = ts ++ [t; o] /\ G_path ts p /\ G_op t op /\
    e = cmpNode p op v b /\ o = Tok (if b then tNumber else tString) v)
    as (ts & p & t & op & o & b & v & -> & HP & HO & -> & ->).
  { destruct HG; [exists ts, p, t, op, (Tok tString v), false, v|
                  exists ts, p, t, op, (Tok tNumber v), true, v]; done. }
  destruct (parse_path_complete _ _ HP) as (w & tail & -> & k & Hk & Hpath).
  unfold parseComparison. simpl app. cbn [peek head default from_option id kind val].
  rewrite bool_decide_eq_true_2 by done. cbn [negb].
  rewrite <- app_assoc. rewrite next_app by done.
  destruct (Nat.le_exists_sub k (length (Tok tIdent w :: tail ++ [t; Tok (if b then tNumber else tString) v] ++ rest)))
    as (fuel & Hf & _).
  { simpl. rewrite !length_app. lia. }
  replace (S (length _)) with (k + S fuel) by (rewrite Hf; lia).
  rewrite Hpath by done. simpl.
  rewrite bool_decide_eq_false_2 by (by destruct HO). rsimpl.
  assert (parse_op p (t :: Tok (if b then tNumber else tString) v :: rest)
    = Ok (op, Tok (if b then tNumber else tString) v :: rest)) as ->
    by (by destruct HO).
  by destruct b, rest.
Qed.

(** A token that can follow a complete operand ends the [and] and [or] loops. *)
Definition stops (rest : list token) : Prop :=
  rest <> [] /\ isKeyword "and" rest = false /\ isKeyword "or" rest = false.

Lemma grammar_complete :
  (forall us e, G_or us e -> forall rest out, rest <> [] -> isKeyword "and" rest = false ->
     converges (fun n => orLoop n e rest) out -> converges (fun n => parseOr n (us ++ rest)) out)
  /\ (forall us e, G_and us e -> forall rest out, rest <> [] ->
     converges (fun n => andLoop n e rest) out -> converges (fun n => parseAnd n (us ++ rest)) out)
  /\ (forall us e, G_not us e -> us <> [] /\ forall rest, rest <> [] ->
     converges (fun n => parseNot n (us ++ rest)) (e, rest))
  /\ (forall us e, G_atom us e -> us <> [] /\ forall rest, rest <> [] ->
     converges (fun n => parseAtom n (us ++ rest)) (e, rest)).
Proof.
  apply G_mut.
  - intros us e _ IH rest out Hr Ha Ho. apply converges_S; simpl.
    apply (converges_bind _ orLoop e rest); [|done].
    apply IH; [done|]. apply converges_S; simpl. rewrite Ha. apply converges_const.
  - intros us vs l r _ IHl _ IHr rest out Hr Ha Ho.
    rewrite <- app_assoc. apply IHl; [done..|].
    apply converges_S; simpl. rewrite next_app by done.
    apply (converges_bind _ (fun n r ts1 => orLoop n (orNode l r) ts1) r rest); [|done].
    apply IHr; [done|]. apply converges_S; simpl. rewrite Ha. apply converges_const.
  - intros us e _ [_ IH] rest out Hr Ho. apply converges_S; simpl.
    apply (converges_bind _ andLoop e rest); [by apply IH|done].
  - intros us vs l r _ IHl _ [_ IHr] rest out Hr Ho.
    rewrite <- app_assoc. apply IHl; [done..|].
    apply converges_S; simpl. rewrite next_app by done.
    apply (converges_bind _ (fun n r ts1 => andLoop n (andNode l r) ts1) r rest); [by apply IHr|done].
  - intros us e _ [_ IH]. split; [done|]. intros rest Hr.
    apply converges_S; simpl. rewrite next_app by done.
    apply (converges_bind _ (fun _ x ts1 => Ok (notNode x, ts1)) e rest);
      [by apply IH|apply converges_const].
  - intros us e Hk _ [Hne IH]. split; [done|]. intros rest Hr.
    apply converges_S; simpl. rewrite isKeyword_app, Hk by done. by apply IH.
  - intros l r us e _ IH. split; [done|]. intros rest Hr.
    apply converges_S; simpl. rewrite next_app, <- app_assoc by done. simpl.
    apply (converges_bind _ (fun _ x ts1 => if bool_decide (kind (peek ts1) = tRParen)
      then Ok (x, next ts1) else Err PExpectRParen) e (Tok tRParen r :: rest)).
    + apply IH; [done..|]. apply converges_S; simpl. apply converges_const.
    + simpl. rewrite next_cons by done. apply converges_const.
  - intros us e HG. split.
    { destruct HG as [ts p t op v HP _|ts p t op v HP _]; by destruct HP as [|[]]. }
    intros rest Hr. apply converges_S; simpl.
    assert (kind (peek (us ++ rest)) <> tLParen) as Hnp.
    { destruct HG as [ts p t op v HP _|ts p t op v HP _];
        destruct (parse_path_complete _ _ HP) as (w & tail & -> & _); done. }
    rewrite bool_decide_eq_false_2 by done.
    rewrite (parseComparison_complete us e rest HG Hr). apply converges_const.
Qed.

Lemma parse_tokens_complete us e : G_or us e -> parse_tokens (us ++ [Tok tEOF ""]) = Ok e.
Proof.
  intros HG. set (ts := us ++ [Tok tEOF ""]).
  assert (wf_toks ts) as Hwf by by exists us.
  destruct (proj1 grammar_complete us e HG [Tok tEOF ""] (e, [Tok tEOF ""])) as [N HN];
    [done..| |].
  { apply converges_S; simpl. apply converges_const. }
  unfold parse_tokens.
  assert (parseOr (5 * length ts + 4) ts = Ok (e, [Tok tEOF ""])) as ->; [|done].
  rewrite <- (parseOr_stable _ N) by (by apply parser_total_all).
  apply HN. lia.
Qed.

Lemma parse_tokens_sound ts e : wf_toks ts -> parse_tokens ts = Ok e ->
  exists us vs, ts = us ++ vs /\ vs <> [] /\ kind (peek vs) = tEOF /\ G_or us e.
Proof.
  intros Hwf H. unfold parse_tokens in H.
  pose proof (proj1 (parser_sound_all (5 * length ts + 4)) ts Hwf) as Hs.
  destruct (parseOr _ ts) as [[e' ts']|]; rsimpl in H; [|done].
  destruct Hs as ([ws ->] & us & ? & -> & HG).
  case_bool_decide; simplify_eq. exists us, (ws ++ [Tok tEOF ""]). by destruct ws.
Qed.

(** ** Properties *)

Lemma lex_go_eof fuel pos s ts :
  lex_go fuel pos s = Ok ts ->
  exists us, ts = us ++ [Tok tEOF ""] /\ Forall (fun t => kind t <> tEOF) us.
Proof.
  revert pos s ts. induction fuel as [|fuel IH]; intros pos [|c s] ts; simpl.
  1,3: intros [= <-]; by exists [].
  { done. }
  intros H. guards H; try (by eapply IH);
    apply cons_tok_Ok in H as (ts' & H%IH & ->);
    destruct H as (us & -> & ?); (eexists (_ :: us); split; [done|by constructor]).
Qed.

Lemma eof_split us us' vs :
  us ++ [Tok tEOF ""] = us' ++ vs -> kind (peek vs) = tEOF -> vs <> [] ->
  Forall (fun t => kind t <> tEOF) us -> us' = us.
Proof.
  revert us'. induction us as [|t us IH]; intros [|t' us'] E Hk Hv Hf; simplify_eq/=; try done.
  - by destruct us', vs; simplify_eq/=.
  - inversion Hf; subst. done.
  - inversion Hf; subst. f_equal. by apply IH.
Qed.

(** The parser itself never reports a lexer error. *)
Lemma bind_no_lex {A B} (m : result parseError A) (f : A -> result parseError B) le :
  m <> Err (PLex le) -> (forall a, f a <> Err (PLex le)) -> (m ≫= f) <> Err (PLex le).
Proof. destruct m; rsimpl; naive_solver. Qed.

Lemma parse_path_no_lex n path ts le : parse_path n path ts <> Err (PLex le).
Proof.
  revert path ts. induction n as [|n IH]; intros; simpl; [done|].
  repeat case_bool_decide; naive_solver.
Qed.

Lemma parser_no_lex n le :
  (forall ts, parseOr n ts <> Err (PLex le)) /\ (forall l ts, orLoop n l ts <> Err (PLex le))
  /\ (forall ts, parseAnd n ts <> Err (PLex le)) /\ (forall l ts, andLoop n l ts <> Err (PLex le))
  /\ (forall ts, parseNot n ts <> Err (PLex le)) /\ (forall ts, parseAtom n ts <> Err (PLex le)).
Proof.
  induction n as [|n (Ho & Hol & Ha & Hal & Hn & Hat)]; [by split_and!|].
  split_and!; intros; simpl; try case_match; try done; try apply bind_no_lex; auto.
  1-4: by intros [].
  - by intros [].
  - intros []. by case_match.
  - unfold parseComparison. case_match; [done|].
    apply bind_no_lex; [apply parse_path_no_lex|intros [p ts1]].
    apply bind_no_lex; [unfold parse_op; by repeat case_match|intros [op ts2]].
    by case_match.
Qed.

Lemma parse_no_lex ts le : parse_tokens ts <> Err (PLex le).
Proof.
  apply bind_no_lex; [apply parser_no_lex|]. intros []. by case_match.
Qed.

(** [ParseExpr] answers on every input: neither the lexer loop nor the
    recursive descent can run forever, whatever the source text. *)
Theorem ParseExpr_terminates (src : string) :
  ParseExpr src <> Err PFuel /\ ParseExpr src <> Err (PLex LexFuel).
Proof.
  unfold ParseExpr. destruct (lex src) as [ts|e] eqn:E.
  - split; [by apply parse_total, (lex_go_wf _ _ _ _ E)|].
    apply parse_no_lex.
  - split; [done|]. intros [= ->]. by apply (lex_total src).
Qed.

(** C22: the parser accepts exactly the grammar: [ParseExpr] returns a node if and
    only if the text lexes to tokens that derive it, so precedence, left
    associativity and parentheses are those of [G_or]. *)
Theorem ParseExpr_grammar (src : string) (e : exprNode) :
  ParseExpr src = Ok e <->
  exists us, lex src = Ok (us ++ [Tok tEOF ""]) /\ G_or us e.
Proof.
  unfold ParseExpr. split.
  - destruct (lex src) as [ts|] eqn:E; [|done]. intros H.
    destruct (lex_go_eof _ _ _ _ E) as (us & -> & Hf).
    destruct (parse_tokens_sound _ _ ltac:(by exists us) H) as (us' & vs & Heq & Hv & Hk & HG).
    apply eof_split in Heq; [|done..]. subst us'. by exists us.
  - intros (us & -> & HG). by apply parse_tokens_complete.
Qed.

(** ** Evaluation *)

Fixpoint atoms (n : exprNode) : list exprNode :=
  match n with
  | orNode l r | andNode l r => atoms l ++ atoms r
  | notNode x => atoms x
  | cmpNode _ _ _ _ => [n]
  end.

Definition holds {E} (m : result E bool) : bool :=
  match m with
  | Ok b => b
  | Err _ => false
  end.

(** The two-valued reading of an expression, given the value of each atom. *)
Fixpoint bool_sem (v : exprNode -> bool) (n : exprNode) : bool :=
  match n with
  | orNode l r => bool_sem v l || bool_sem v r
  | andNode l r => bool_sem v l && bool_sem v r
  | notNode x => negb (bool_sem v x)
  | cmpNode _ _ _ _ => v n
  end.

Lemma collectMemoryRefs_spec n seen k :
  k ∈ collectMemoryRefs n seen <-> k ∈ collectMemoryRefs n ∅ \/ k ∈ seen.
Proof.
  revert seen. induction n as [l IHl r IHr|l IHl r IHr|x IH|path op operand b];
    intros seen; simpl.
  1,2: rewrite IHr, IHl, (IHr (collectMemoryRefs l ∅)); tauto.
  - apply IH.
  - destruct path as [|? [|? []]]; try case_bool_decide; set_solver.
Qed.

Lemma elem_of_MemoryRefs n k : k ∈ MemoryRefs n <-> k ∈ collectMemoryRefs n ∅.
Proof. unfold MemoryRefs. by rewrite elem_of_sort_strings, elem_of_elements. Qed.

Section eval_facts.
Context {RT : GoRuntime}.

Definition with_memory (ctx : EvalContext) (mem : gmap string string) : EvalContext :=
  {| ec_Cell := ec_Cell ctx; ec_Memory := mem; ec_Steps := ec_Steps ctx;
     ec_Event := ec_Event ctx |}.

Lemma resolve_frame path op operand b ctx mem :
  (forall k, k ∈ collectMemoryRefs (cmpNode path op operand b) ∅ ->
     mem !! k = ec_Memory ctx !! k) ->
  resolveAccessor path (with_memory ctx mem) = resolveAccessor path ctx.
Proof.
  intros H. unfold resolveAccessor. destruct path as [|root path]; [done|].
  repeat (case_bool_decide; [try done|]); try done.
  subst root. destruct path as [|key [|]]; try done. simpl.
  f_equal. f_equal. apply H. simpl. set_solver.
Qed.

(** [MemoryRefs] names every memory key the expression can read: two
    contexts that differ only in other keys give the same value or the same
    error. This is what makes the "gate is unevaluable" check of a
    [reject_when] meaningful. *)
Theorem Eval_MemoryRefs (n : exprNode) (ctx : EvalContext) (mem : gmap string string) :
  (forall k, k ∈ MemoryRefs n -> mem !! k = ec_Memory ctx !! k) ->
  Eval n (with_memory ctx mem) = Eval n ctx.
Proof.
  induction n as [l IHl r IHr|l IHl r IHr|x IH|path op operand b]; intros H; simpl.
  1,2: rewrite IHl, IHr; [done|..]; intros k Hk; apply H;
    rewrite elem_of_MemoryRefs in Hk |- *; simpl;
    rewrite collectMemoryRefs_spec; tauto.
  - by rewrite IH.
  - rewrite (resolve_frame path op operand b); [done|].
    intros k Hk. apply H. by rewrite elem_of_MemoryRefs.
Qed.

(** Evaluation is the boolean reading of the formula whenever every
    comparison has a value, and an error it reports is the error of one of the
    comparisons; short-circuiting only ever hides errors to the right. *)
Theorem Eval_boolean (n : exprNode) (ctx : EvalContext) :
  ((forall a, a ∈ atoms n -> is_ok (Eval a ctx) = true) ->
     Eval n ctx = Ok (bool_sem (fun a => holds (Eval a ctx)) n))
  /\ (forall e, Eval n ctx = Err e -> exists a, a ∈ atoms n /\ Eval a ctx = Err e).
Proof.
  induction n as [l [IHl1 IHl2] r [IHr1 IHr2]|l [IHl1 IHl2] r [IHr1 IHr2]|x [IH1 IH2]
                 |path op operand b].
  1,2: split; simpl;
    [intros H; rewrite IHl1, IHr1 by (intros; apply H; rewrite elem_of_app; auto); rsimpl;
     by destruct (bool_sem _ l)|];
    intros e; destruct (Eval l ctx) as [[]|] eqn:E; rsimpl; intros He; try done;
    [destruct (IHr2 _ He) as (a & ? & ?)|destruct (IHl2 _ He) as (a & ? & ?)];
    exists a; rewrite elem_of_app; auto.
  - split; simpl; [intros H; by rewrite IH1|].
    intros e. destruct (Eval x ctx) eqn:E; rsimpl; [done|]. intros [= ->]. by apply IH2.
  - split; simpl.
    + intros H. specialize (H _ (list_elem_of_here _ _)). simpl in H.
      destruct (resolveAccessor path ctx ≫= _) as [[]|]; done.
    + intros e He. exists (cmpNode path op operand b). split; [apply list_elem_of_here|done].
Qed.
End eval_facts.

(** ** Running the evaluator *)

Definition example_cell : SourceItem := {|
  si_ID := "42"; si_SourceID := "gh"; si_Number := "#42"; si_Title := "Crash";
  si_Description := ""; si_Labels := ["bug"]; si_Type := "issue"; si_Priority := "high";
  si_State := "open"; si_URL := ""; si_Comments := [] |}.

Definition example_context : EvalContext := {|
  ec_Cell := example_cell;
  ec_Memory := {[ "verdict" := "approved"; "scratch" := "draft" ]};
  ec_Steps := ∅; ec_Event := ∅ |}.

Definition example_gate : exprNode :=
  andNode (cmpNode ["memory"; "verdict"] "==" "approved" false)
          (cmpNode ["cell"; "labels"] "contains" "bug" false).

Example example_gate_parses :
  ParseExpr "memory.verdict == 'approved' and cell.labels contains 'bug'" = Ok example_gate.
Proof. vm_compute. reflexivity. Qed.

Lemma Eval_MemoryRefs_witness :
  @Eval literal_runtime example_gate (with_memory example_context {[ "verdict" := "approved" ]})
    = Ok true.
Proof.
  rewrite (@Eval_MemoryRefs literal_runtime).
  - vm_compute. reflexivity.
  - intros k Hk. vm_compute in Hk.
    apply elem_of_cons in Hk as [->|Hk]; [vm_compute; reflexivity|].
    by apply elem_of_nil in Hk.
Defined.
