(* ===== verification/Config.v ===== *)
(** * Configuration records and their accessors

    Models the part of src/internal/config that the engine and the router
    execute: workflow, trigger, step, route and wait_for records with the methods
    that give their fields a default (src/internal/config/workflow.go,
    src/internal/config/config.go). Field names carry a prefix per record. *)

From S2P Require Import Prelude Model.
From stdpp Require Import base gmap strings list.
From Stdlib Require Import ZArith.

(** ** Step types, join policies and other enumerated strings *)

Definition StepTypeAgent := "agent".
Definition StepTypeSplit := "split".
Definition StepTypeApproval := "approval".
Definition StepTypeForeach := "foreach".
Definition StepTypeWorkflow := "workflow".
Definition StepTypeWaitFor := "wait_for".
Definition StepTypeParallel := "parallel".

Definition JoinAll := "all".
Definition JoinAny := "any".

Definition OnMissingOutputWarn := "warn".
Definition OnMissingOutputFail := "fail".
Definition OnMissingOutputIgnore := "ignore".

Definition TriggerOnItem := "item".
Definition TriggerOnPRComment := "pr_comment".
Definition TriggerOnPRReviewApproved := "pr_review_approved".
Definition TriggerOnPRReviewChangesRequest := "pr_review_changes_requested".
Definition TriggerEventKinds : list string :=
  [TriggerOnPRComment; TriggerOnPRReviewApproved; TriggerOnPRReviewChangesRequest].

Definition validAuthorAssociations : list string :=
  ["OWNER"; "MEMBER"; "COLLABORATOR"; "CONTRIBUTOR"; "FIRST_TIME_CONTRIBUTOR"; "FIRST_TIMER"; "MANNEQUIN"; "NONE"].

Definition ResultCommentOnComplete := "on_complete".
Definition ResultCommentOnFail := "on_fail".
Definition ResultCommentAlways := "always".
Definition ResultCommentOff := "off".
Definition ResultCommentPerStep := "per_step".
Definition SpawnAuto := "auto".
Definition SpawnAwait := "await".
Definition MaterializeOff := "".
Definition MaterializeSubIssue := "sub_issue".
Definition MemorizeAuto := "auto".
Definition MemorizeOff := "off".
Definition MemoryTierTask := "task".
Definition MemoryTierGlobal := "global".

Definition DefaultEventAuthorAssociations : list string := ["OWNER"; "MEMBER"; "COLLABORATOR"].

Definition WaitKindCI := "ci".
Definition WaitKindDependency := "dependency".
Definition OnTimeoutFail := "fail".
Definition OnTimeoutHold := "hold".
Definition BlockerSatisfiedMerged := "merged".
Definition BlockerSatisfiedDone := "done".

(** ** Routes and triggers *)

Record RouteMatch := {
  rm_Source : string;
  rm_Labels : list string;
  rm_Types : list string;
  rm_TitleRegex : string;
  rm_Priority : list string;
  rm_States : list string;
  rm_ExcludeLabels : list string;
  rm_ExcludeLabelPrefix : string;
}.

Definition empty_match : RouteMatch := {|
  rm_Source := ""; rm_Labels := []; rm_Types := []; rm_TitleRegex := "";
  rm_Priority := []; rm_States := []; rm_ExcludeLabels := []; rm_ExcludeLabelPrefix := "" |}.

Record RouteConfig := {
  rt_ID : string;
  rt_Priority : Z;
  rt_Match : RouteMatch;
  rt_Agent : string;
  rt_Worker : string;
  rt_Exclusive : bool;
  rt_Once : bool;
  rt_On : string;
  rt_CommentMatches : string;
  rt_Authors : list string;
  rt_AuthorsAssociation : list string;
  rt_IgnoreAuthors : list string;
  rt_PRAuthors : list string;
  rt_MaxDispatches : Z;
}.

(** [RouteConfig.IsEventRoute]. *)
Definition IsEventRoute (r : RouteConfig) : bool :=
  negb (is_empty (rt_On r)) && negb (bool_decide (rt_On r = TriggerOnItem)).

Record TriggerConfig := {
  tr_Priority : Z;
  tr_Exclusive : bool;
  tr_Once : bool;
  tr_Match : RouteMatch;
  tr_On : string;
  tr_CommentMatches : string;
  tr_Authors : list string;
  tr_AuthorsAssociation : list string;
  tr_IgnoreAuthors : list string;
  tr_PRAuthors : list string;
  tr_MaxDispatches : Z;
}.

(** [TriggerConfig.EventKind]. *)
Definition EventKind (t : TriggerConfig) : string :=
  if is_empty (tr_On t) then TriggerOnItem else tr_On t.

Definition IsEventTrigger (t : TriggerConfig) : bool :=
  negb (bool_decide (EventKind t = TriggerOnItem)).

(** ** Steps *)

Record StepOutcome := { so_Goto : string; so_MaxRetries : Z }.

Record SplitBranch := { br_If : string; br_Else : bool; br_Goto : string }.

(** [SplitBranch.IsFallback]. *)
Definition IsFallback (b : SplitBranch) : bool := br_Else b || is_empty (br_If b).

Record ApprovalTrigger := {
  at_CommentContains : string; at_LabelAdded : string; at_StateChanged : string
}.

(** [ApprovalTrigger.IsEmpty]. *)
Definition ApprovalTrigger_IsEmpty (t : ApprovalTrigger) : bool :=
  is_empty (at_CommentContains t) && is_empty (at_LabelAdded t) && is_empty (at_StateChanged t).

Record WaitForConfig := {
  wf_Kind : string;
  wf_CheckInterval : string;
  wf_MaxDuration : string;
  wf_FailIfNotPassed : option bool;
  wf_CISource : string;
  wf_SatisfiedWhen : list string;
  wf_BlockerLinkType : string;
  wf_OnTimeout : string;
}.

Record MemoryConfig := {
  mc_Read : option bool;
  mc_Write : list string;
  mc_Recall : list string;
  mc_Memorize : string;
}.

(** [SchemaField] and [OutputSchema]: the JSON Schema subset of a step's
    output. *)
Inductive SchemaField : Type := mkField {
  sf_Type : string;
  sf_Enum : list string;
  sf_Items : option SchemaField;
  sf_Properties : gmap string SchemaField;
  sf_Required : list string;
}.

Record OutputSchema := {
  os_Type : string;
  os_Properties : gmap string SchemaField;
  os_Required : list string;
}.

Record ApprovalField := {
  af_Name : string;
  af_Label : string;
  af_Type : string;
  af_Required : bool;
  af_Options : list string;
}.

(** The authored loop-back of a [reject_when] gate. *)
Record OnRejectConfig := { or_RestartFrom : string; or_Max : Z }.

(** [StepConfig]: the fields of a lowered step in the order the engine reads
    them, then the labels and limits it passes on, then the authored fields the
    lowering pass consumes. The per-step environment, model, working directory
    and summary prompt are not modelled. *)
Inductive StepConfig : Type := mkStep {
  st_ID : string;
  st_Type : string;
  st_DependsOn : list string;
  st_SeqDependsOn : list string;
  st_Condition : string;
  st_FailWhen : string;
  st_Agent : string;
  st_Prompt : string;
  st_OutputSchema : option OutputSchema;
  st_OnMissingOutput : string;
  st_Memory : option MemoryConfig;
  st_OnPassNext : string;              (* on_pass.next, "" when absent *)
  st_OnFail : option StepOutcome;
  st_OnConflict : option StepOutcome;
  st_Multi : bool;
  st_Branches : list SplitBranch;
  st_Message : string;
  st_ResumeOn : option ApprovalTrigger;
  st_AbortOn : option ApprovalTrigger;
  st_Timeout : string;
  st_Approvers : list string;
  st_WaitFor : option WaitForConfig;
  st_Items : string;
  st_As : string;
  st_Concurrency : Z;
  st_MaxItems : Z;
  st_FailFast : bool;
  st_Step : option StepConfig;
  st_SubSteps : list StepConfig;
  st_Join : string;
  st_Name : string;
  st_Idempotent : bool;
  st_Publish : string;
  st_Spawn : string;
  st_Materialize : string;
  st_PullRequestFrom : string;
  st_ActionClass : string;
  st_RequiredApprovals : Z;
  st_ApprovalFields : list ApprovalField;
  st_RemindAfter : string;
  st_EscalateAfter : string;
  st_EscalateTo : list string;
  st_Delegates : gmap string (list string);
  st_Workflow : string;
  st_Uses : string;
  st_With : gmap string JValue;
  st_If : string;
  st_RejectWhen : string;
  st_OnReject : option OnRejectConfig;
  st_ParallelSteps : list StepConfig;
  st_ForEachExpr : string;
  st_Max : Z;
  st_Output : option OutputSchema;
}.

(** A step with only the fields the scheduler reads. *)
Definition ir_step (id ty : string) (deps seqDeps : list string) (condition failWhen agent prompt : string)
    (schema : option OutputSchema) (missing : string) (memory : option MemoryConfig) (next : string)
    (onFail onConflict : option StepOutcome) (multi : bool) (branches : list SplitBranch)
    (message : string) (resumeOn abortOn : option ApprovalTrigger) (timeout : string)
    (approvers : list string) (waitFor : option WaitForConfig) (items as_ : string)
    (concurrency maxItems : Z) (failFast : bool) (inner : option StepConfig)
    (subSteps : list StepConfig) (join : string) : StepConfig :=
  mkStep id ty deps seqDeps condition failWhen agent prompt schema missing memory next onFail onConflict
    multi branches message resumeOn abortOn timeout approvers waitFor items as_ concurrency maxItems
    failFast inner subSteps join
    "" false "" "" "" "" "" 0 [] "" "" [] ∅ "" "" ∅ "" "" None [] "" 0 None.

(** A step with nothing but an id: the zero value of the Go struct. *)
Definition zero_step (id : string) : StepConfig :=
  ir_step id "" [] [] "" "" "" "" None "" None "" None None false [] "" None None "" []
          None "" "" 0 0 false None [] "".

(** Functional updates of the fields the lowering pass writes. *)
Definition with_SeqDependsOn (v : list string) (s : StepConfig) : StepConfig :=
  mkStep (st_ID s) (st_Type s) (st_DependsOn s) v (st_Condition s) (st_FailWhen s) (st_Agent s)
    (st_Prompt s) (st_OutputSchema s) (st_OnMissingOutput s) (st_Memory s) (st_OnPassNext s)
    (st_OnFail s) (st_OnConflict s) (st_Multi s) (st_Branches s) (st_Message s) (st_ResumeOn s)
    (st_AbortOn s) (st_Timeout s) (st_Approvers s) (st_WaitFor s) (st_Items s) (st_As s)
    (st_Concurrency s) (st_MaxItems s) (st_FailFast s) (st_Step s) (st_SubSteps s) (st_Join s)
    (st_Name s) (st_Idempotent s) (st_Publish s) (st_Spawn s) (st_Materialize s) (st_PullRequestFrom
    s) (st_ActionClass s) (st_RequiredApprovals s) (st_ApprovalFields s) (st_RemindAfter s)
    (st_EscalateAfter s) (st_EscalateTo s) (st_Delegates s) (st_Workflow s) (st_Uses s) (st_With s)
    (st_If s) (st_RejectWhen s) (st_OnReject s) (st_ParallelSteps s) (st_ForEachExpr s) (st_Max s)
    (st_Output s).
Definition with_Condition (v : string) (s : StepConfig) : StepConfig :=
  mkStep (st_ID s) (st_Type s) (st_DependsOn s) (st_SeqDependsOn s) v (st_FailWhen s) (st_Agent s)
    (st_Prompt s) (st_OutputSchema s) (st_OnMissingOutput s) (st_Memory s) (st_OnPassNext s)
    (st_OnFail s) (st_OnConflict s) (st_Multi s) (st_Branches s) (st_Message s) (st_ResumeOn s)
    (st_AbortOn s) (st_Timeout s) (st_Approvers s) (st_WaitFor s) (st_Items s) (st_As s)
    (st_Concurrency s) (st_MaxItems s) (st_FailFast s) (st_Step s) (st_SubSteps s) (st_Join s)
    (st_Name s) (st_Idempotent s) (st_Publish s) (st_Spawn s) (st_Materialize s) (st_PullRequestFrom
    s) (st_ActionClass s) (st_RequiredApprovals s) (st_ApprovalFields s) (st_RemindAfter s)
    (st_EscalateAfter s) (st_EscalateTo s) (st_Delegates s) (st_Workflow s) (st_Uses s) (st_With s)
    (st_If s) (st_RejectWhen s) (st_OnReject s) (st_ParallelSteps s) (st_ForEachExpr s) (st_Max s)
    (st_Output s).
Definition with_FailWhen (v : string) (s : StepConfig) : StepConfig :=
  mkStep (st_ID s) (st_Type s) (st_DependsOn s) (st_SeqDependsOn s) (st_Condition s) v (st_Agent s)
    (st_Prompt s) (st_OutputSchema s) (st_OnMissingOutput s) (st_Memory s) (st_OnPassNext s)
    (st_OnFail s) (st_OnConflict s) (st_Multi s) (st_Branches s) (st_Message s) (st_ResumeOn s)
    (st_AbortOn s) (st_Timeout s) (st_Approvers s) (st_WaitFor s) (st_Items s) (st_As s)
    (st_Concurrency s) (st_MaxItems s) (st_FailFast s) (st_Step s) (st_SubSteps s) (st_Join s)
    (st_Name s) (st_Idempotent s) (st_Publish s) (st_Spawn s) (st_Materialize s) (st_PullRequestFrom
    s) (st_ActionClass s) (st_RequiredApprovals s) (st_ApprovalFields s) (st_RemindAfter s)
    (st_EscalateAfter s) (st_EscalateTo s) (st_Delegates s) (st_Workflow s) (st_Uses s) (st_With s)
    (st_If s) (st_RejectWhen s) (st_OnReject s) (st_ParallelSteps s) (st_ForEachExpr s) (st_Max s)
    (st_Output s).
Definition with_OutputSchema (v : option OutputSchema) (s : StepConfig) : StepConfig :=
  mkStep (st_ID s) (st_Type s) (st_DependsOn s) (st_SeqDependsOn s) (st_Condition s) (st_FailWhen s)
    (st_Agent s) (st_Prompt s) v (st_OnMissingOutput s) (st_Memory s) (st_OnPassNext s) (st_OnFail
    s) (st_OnConflict s) (st_Multi s) (st_Branches s) (st_Message s) (st_ResumeOn s) (st_AbortOn s)
    (st_Timeout s) (st_Approvers s) (st_WaitFor s) (st_Items s) (st_As s) (st_Concurrency s)
    (st_MaxItems s) (st_FailFast s) (st_Step s) (st_SubSteps s) (st_Join s) (st_Name s)
    (st_Idempotent s) (st_Publish s) (st_Spawn s) (st_Materialize s) (st_PullRequestFrom s)
    (st_ActionClass s) (st_RequiredApprovals s) (st_ApprovalFields s) (st_RemindAfter s)
    (st_EscalateAfter s) (st_EscalateTo s) (st_Delegates s) (st_Workflow s) (st_Uses s) (st_With s)
    (st_If s) (st_RejectWhen s) (st_OnReject s) (st_ParallelSteps s) (st_ForEachExpr s) (st_Max s)
    (st_Output s).
Definition with_Memory (v : option MemoryConfig) (s : StepConfig) : StepConfig :=
  mkStep (st_ID s) (st_Type s) (st_DependsOn s) (st_SeqDependsOn s) (st_Condition s) (st_FailWhen s)
    (st_Agent s) (st_Prompt s) (st_OutputSchema s) (st_OnMissingOutput s) v (st_OnPassNext s)
    (st_OnFail s) (st_OnConflict s) (st_Multi s) (st_Branches s) (st_Message s) (st_ResumeOn s)
    (st_AbortOn s) (st_Timeout s) (st_Approvers s) (st_WaitFor s) (st_Items s) (st_As s)
    (st_Concurrency s) (st_MaxItems s) (st_FailFast s) (st_Step s) (st_SubSteps s) (st_Join s)
    (st_Name s) (st_Idempotent s) (st_Publish s) (st_Spawn s) (st_Materialize s) (st_PullRequestFrom
    s) (st_ActionClass s) (st_RequiredApprovals s) (st_ApprovalFields s) (st_RemindAfter s)
    (st_EscalateAfter s) (st_EscalateTo s) (st_Delegates s) (st_Workflow s) (st_Uses s) (st_With s)
    (st_If s) (st_RejectWhen s) (st_OnReject s) (st_ParallelSteps s) (st_ForEachExpr s) (st_Max s)
    (st_Output s).
Definition with_OnFail (v : option StepOutcome) (s : StepConfig) : StepConfig :=
  mkStep (st_ID s) (st_Type s) (st_DependsOn s) (st_SeqDependsOn s) (st_Condition s) (st_FailWhen s)
    (st_Agent s) (st_Prompt s) (st_OutputSchema s) (st_OnMissingOutput s) (st_Memory s)
    (st_OnPassNext s) v (st_OnConflict s) (st_Multi s) (st_Branches s) (st_Message s) (st_ResumeOn
    s) (st_AbortOn s) (st_Timeout s) (st_Approvers s) (st_WaitFor s) (st_Items s) (st_As s)
    (st_Concurrency s) (st_MaxItems s) (st_FailFast s) (st_Step s) (st_SubSteps s) (st_Join s)
    (st_Name s) (st_Idempotent s) (st_Publish s) (st_Spawn s) (st_Materialize s) (st_PullRequestFrom
    s) (st_ActionClass s) (st_RequiredApprovals s) (st_ApprovalFields s) (st_RemindAfter s)
    (st_EscalateAfter s) (st_EscalateTo s) (st_Delegates s) (st_Workflow s) (st_Uses s) (st_With s)
    (st_If s) (st_RejectWhen s) (st_OnReject s) (st_ParallelSteps s) (st_ForEachExpr s) (st_Max s)
    (st_Output s).
Definition with_MaxItems (v : Z) (s : StepConfig) : StepConfig :=
  mkStep (st_ID s) (st_Type s) (st_DependsOn s) (st_SeqDependsOn s) (st_Condition s) (st_FailWhen s)
    (st_Agent s) (st_Prompt s) (st_OutputSchema s) (st_OnMissingOutput s) (st_Memory s)
    (st_OnPassNext s) (st_OnFail s) (st_OnConflict s) (st_Multi s) (st_Branches s) (st_Message s)
    (st_ResumeOn s) (st_AbortOn s) (st_Timeout s) (st_Approvers s) (st_WaitFor s) (st_Items s)
    (st_As s) (st_Concurrency s) v (st_FailFast s) (st_Step s) (st_SubSteps s) (st_Join s) (st_Name
    s) (st_Idempotent s) (st_Publish s) (st_Spawn s) (st_Materialize s) (st_PullRequestFrom s)
    (st_ActionClass s) (st_RequiredApprovals s) (st_ApprovalFields s) (st_RemindAfter s)
    (st_EscalateAfter s) (st_EscalateTo s) (st_Delegates s) (st_Workflow s) (st_Uses s) (st_With s)
    (st_If s) (st_RejectWhen s) (st_OnReject s) (st_ParallelSteps s) (st_ForEachExpr s) (st_Max s)
    (st_Output s).
Definition with_Items (v : string) (s : StepConfig) : StepConfig :=
  mkStep (st_ID s) (st_Type s) (st_DependsOn s) (st_SeqDependsOn s) (st_Condition s) (st_FailWhen s)
    (st_Agent s) (st_Prompt s) (st_OutputSchema s) (st_OnMissingOutput s) (st_Memory s)
    (st_OnPassNext s) (st_OnFail s) (st_OnConflict s) (st_Multi s) (st_Branches s) (st_Message s)
    (st_ResumeOn s) (st_AbortOn s) (st_Timeout s) (st_Approvers s) (st_WaitFor s) v (st_As s)
    (st_Concurrency s) (st_MaxItems s) (st_FailFast s) (st_Step s) (st_SubSteps s) (st_Join s)
    (st_Name s) (st_Idempotent s) (st_Publish s) (st_Spawn s) (st_Materialize s) (st_PullRequestFrom
    s) (st_ActionClass s) (st_RequiredApprovals s) (st_ApprovalFields s) (st_RemindAfter s)
    (st_EscalateAfter s) (st_EscalateTo s) (st_Delegates s) (st_Workflow s) (st_Uses s) (st_With s)
    (st_If s) (st_RejectWhen s) (st_OnReject s) (st_ParallelSteps s) (st_ForEachExpr s) (st_Max s)
    (st_Output s).
Definition with_As (v : string) (s : StepConfig) : StepConfig :=
  mkStep (st_ID s) (st_Type s) (st_DependsOn s) (st_SeqDependsOn s) (st_Condition s) (st_FailWhen s)
    (st_Agent s) (st_Prompt s) (st_OutputSchema s) (st_OnMissingOutput s) (st_Memory s)
    (st_OnPassNext s) (st_OnFail s) (st_OnConflict s) (st_Multi s) (st_Branches s) (st_Message s)
    (st_ResumeOn s) (st_AbortOn s) (st_Timeout s) (st_Approvers s) (st_WaitFor s) (st_Items s) v
    (st_Concurrency s) (st_MaxItems s) (st_FailFast s) (st_Step s) (st_SubSteps s) (st_Join s)
    (st_Name s) (st_Idempotent s) (st_Publish s) (st_Spawn s) (st_Materialize s) (st_PullRequestFrom
    s) (st_ActionClass s) (st_RequiredApprovals s) (st_ApprovalFields s) (st_RemindAfter s)
    (st_EscalateAfter s) (st_EscalateTo s) (st_Delegates s) (st_Workflow s) (st_Uses s) (st_With s)
    (st_If s) (st_RejectWhen s) (st_OnReject s) (st_ParallelSteps s) (st_ForEachExpr s) (st_Max s)
    (st_Output s).
Definition with_Concurrency (v : Z) (s : StepConfig) : StepConfig :=
  mkStep (st_ID s) (st_Type s) (st_DependsOn s) (st_SeqDependsOn s) (st_Condition s) (st_FailWhen s)
    (st_Agent s) (st_Prompt s) (st_OutputSchema s) (st_OnMissingOutput s) (st_Memory s)
    (st_OnPassNext s) (st_OnFail s) (st_OnConflict s) (st_Multi s) (st_Branches s) (st_Message s)
    (st_ResumeOn s) (st_AbortOn s) (st_Timeout s) (st_Approvers s) (st_WaitFor s) (st_Items s)
    (st_As s) v (st_MaxItems s) (st_FailFast s) (st_Step s) (st_SubSteps s) (st_Join s) (st_Name s)
    (st_Idempotent s) (st_Publish s) (st_Spawn s) (st_Materialize s) (st_PullRequestFrom s)
    (st_ActionClass s) (st_RequiredApprovals s) (st_ApprovalFields s) (st_RemindAfter s)
    (st_EscalateAfter s) (st_EscalateTo s) (st_Delegates s) (st_Workflow s) (st_Uses s) (st_With s)
    (st_If s) (st_RejectWhen s) (st_OnReject s) (st_ParallelSteps s) (st_ForEachExpr s) (st_Max s)
    (st_Output s).
Definition with_FailFast (v : bool) (s : StepConfig) : StepConfig :=
  mkStep (st_ID s) (st_Type s) (st_DependsOn s) (st_SeqDependsOn s) (st_Condition s) (st_FailWhen s)
    (st_Agent s) (st_Prompt s) (st_OutputSchema s) (st_OnMissingOutput s) (st_Memory s)
    (st_OnPassNext s) (st_OnFail s) (st_OnConflict s) (st_Multi s) (st_Branches s) (st_Message s)
    (st_ResumeOn s) (st_AbortOn s) (st_Timeout s) (st_Approvers s) (st_WaitFor s) (st_Items s)
    (st_As s) (st_Concurrency s) (st_MaxItems s) v (st_Step s) (st_SubSteps s) (st_Join s) (st_Name
    s) (st_Idempotent s) (st_Publish s) (st_Spawn s) (st_Materialize s) (st_PullRequestFrom s)
    (st_ActionClass s) (st_RequiredApprovals s) (st_ApprovalFields s) (st_RemindAfter s)
    (st_EscalateAfter s) (st_EscalateTo s) (st_Delegates s) (st_Workflow s) (st_Uses s) (st_With s)
    (st_If s) (st_RejectWhen s) (st_OnReject s) (st_ParallelSteps s) (st_ForEachExpr s) (st_Max s)
    (st_Output s).
Definition with_Step (v : option StepConfig) (s : StepConfig) : StepConfig :=
  mkStep (st_ID s) (st_Type s) (st_DependsOn s) (st_SeqDependsOn s) (st_Condition s) (st_FailWhen s)
    (st_Agent s) (st_Prompt s) (st_OutputSchema s) (st_OnMissingOutput s) (st_Memory s)
    (st_OnPassNext s) (st_OnFail s) (st_OnConflict s) (st_Multi s) (st_Branches s) (st_Message s)
    (st_ResumeOn s) (st_AbortOn s) (st_Timeout s) (st_Approvers s) (st_WaitFor s) (st_Items s)
    (st_As s) (st_Concurrency s) (st_MaxItems s) (st_FailFast s) v (st_SubSteps s) (st_Join s)
    (st_Name s) (st_Idempotent s) (st_Publish s) (st_Spawn s) (st_Materialize s) (st_PullRequestFrom
    s) (st_ActionClass s) (st_RequiredApprovals s) (st_ApprovalFields s) (st_RemindAfter s)
    (st_EscalateAfter s) (st_EscalateTo s) (st_Delegates s) (st_Workflow s) (st_Uses s) (st_With s)
    (st_If s) (st_RejectWhen s) (st_OnReject s) (st_ParallelSteps s) (st_ForEachExpr s) (st_Max s)
    (st_Output s).
Definition with_SubSteps (v : list StepConfig) (s : StepConfig) : StepConfig :=
  mkStep (st_ID s) (st_Type s) (st_DependsOn s) (st_SeqDependsOn s) (st_Condition s) (st_FailWhen s)
    (st_Agent s) (st_Prompt s) (st_OutputSchema s) (st_OnMissingOutput s) (st_Memory s)
    (st_OnPassNext s) (st_OnFail s) (st_OnConflict s) (st_Multi s) (st_Branches s) (st_Message s)
    (st_ResumeOn s) (st_AbortOn s) (st_Timeout s) (st_Approvers s) (st_WaitFor s) (st_Items s)
    (st_As s) (st_Concurrency s) (st_MaxItems s) (st_FailFast s) (st_Step s) v (st_Join s) (st_Name
    s) (st_Idempotent s) (st_Publish s) (st_Spawn s) (st_Materialize s) (st_PullRequestFrom s)
    (st_ActionClass s) (st_RequiredApprovals s) (st_ApprovalFields s) (st_RemindAfter s)
    (st_EscalateAfter s) (st_EscalateTo s) (st_Delegates s) (st_Workflow s) (st_Uses s) (st_With s)
    (st_If s) (st_RejectWhen s) (st_OnReject s) (st_ParallelSteps s) (st_ForEachExpr s) (st_Max s)
    (st_Output s).
Definition with_ParallelSteps (v : list StepConfig) (s : StepConfig) : StepConfig :=
  mkStep (st_ID s) (st_Type s) (st_DependsOn s) (st_SeqDependsOn s) (st_Condition s) (st_FailWhen s)
    (st_Agent s) (st_Prompt s) (st_OutputSchema s) (st_OnMissingOutput s) (st_Memory s)
    (st_OnPassNext s) (st_OnFail s) (st_OnConflict s) (st_Multi s) (st_Branches s) (st_Message s)
    (st_ResumeOn s) (st_AbortOn s) (st_Timeout s) (st_Approvers s) (st_WaitFor s) (st_Items s)
    (st_As s) (st_Concurrency s) (st_MaxItems s) (st_FailFast s) (st_Step s) (st_SubSteps s)
    (st_Join s) (st_Name s) (st_Idempotent s) (st_Publish s) (st_Spawn s) (st_Materialize s)
    (st_PullRequestFrom s) (st_ActionClass s) (st_RequiredApprovals s) (st_ApprovalFields s)
    (st_RemindAfter s) (st_EscalateAfter s) (st_EscalateTo s) (st_Delegates s) (st_Workflow s)
    (st_Uses s) (st_With s) (st_If s) (st_RejectWhen s) (st_OnReject s) v (st_ForEachExpr s) (st_Max
    s) (st_Output s).
Definition with_Join (v : string) (s : StepConfig) : StepConfig :=
  mkStep (st_ID s) (st_Type s) (st_DependsOn s) (st_SeqDependsOn s) (st_Condition s) (st_FailWhen s)
    (st_Agent s) (st_Prompt s) (st_OutputSchema s) (st_OnMissingOutput s) (st_Memory s)
    (st_OnPassNext s) (st_OnFail s) (st_OnConflict s) (st_Multi s) (st_Branches s) (st_Message s)
    (st_ResumeOn s) (st_AbortOn s) (st_Timeout s) (st_Approvers s) (st_WaitFor s) (st_Items s)
    (st_As s) (st_Concurrency s) (st_MaxItems s) (st_FailFast s) (st_Step s) (st_SubSteps s) v
    (st_Name s) (st_Idempotent s) (st_Publish s) (st_Spawn s) (st_Materialize s) (st_PullRequestFrom
    s) (st_ActionClass s) (st_RequiredApprovals s) (st_ApprovalFields s) (st_RemindAfter s)
    (st_EscalateAfter s) (st_EscalateTo s) (st_Delegates s) (st_Workflow s) (st_Uses s) (st_With s)
    (st_If s) (st_RejectWhen s) (st_OnReject s) (st_ParallelSteps s) (st_ForEachExpr s) (st_Max s)
    (st_Output s).
Definition with_Name (v : string) (s : StepConfig) : StepConfig :=
  mkStep (st_ID s) (st_Type s) (st_DependsOn s) (st_SeqDependsOn s) (st_Condition s) (st_FailWhen s)
    (st_Agent s) (st_Prompt s) (st_OutputSchema s) (st_OnMissingOutput s) (st_Memory s)
    (st_OnPassNext s) (st_OnFail s) (st_OnConflict s) (st_Multi s) (st_Branches s) (st_Message s)
    (st_ResumeOn s) (st_AbortOn s) (st_Timeout s) (st_Approvers s) (st_WaitFor s) (st_Items s)
    (st_As s) (st_Concurrency s) (st_MaxItems s) (st_FailFast s) (st_Step s) (st_SubSteps s)
    (st_Join s) v (st_Idempotent s) (st_Publish s) (st_Spawn s) (st_Materialize s)
    (st_PullRequestFrom s) (st_ActionClass s) (st_RequiredApprovals s) (st_ApprovalFields s)
    (st_RemindAfter s) (st_EscalateAfter s) (st_EscalateTo s) (st_Delegates s) (st_Workflow s)
    (st_Uses s) (st_With s) (st_If s) (st_RejectWhen s) (st_OnReject s) (st_ParallelSteps s)
    (st_ForEachExpr s) (st_Max s) (st_Output s).
Definition with_Type (v : string) (s : StepConfig) : StepConfig :=
  mkStep (st_ID s) v (st_DependsOn s) (st_SeqDependsOn s) (st_Condition s) (st_FailWhen s) (st_Agent
    s) (st_Prompt s) (st_OutputSchema s) (st_OnMissingOutput s) (st_Memory s) (st_OnPassNext s)
    (st_OnFail s) (st_OnConflict s) (st_Multi s) (st_Branches s) (st_Message s) (st_ResumeOn s)
    (st_AbortOn s) (st_Timeout s) (st_Approvers s) (st_WaitFor s) (st_Items s) (st_As s)
    (st_Concurrency s) (st_MaxItems s) (st_FailFast s) (st_Step s) (st_SubSteps s) (st_Join s)
    (st_Name s) (st_Idempotent s) (st_Publish s) (st_Spawn s) (st_Materialize s) (st_PullRequestFrom
    s) (st_ActionClass s) (st_RequiredApprovals s) (st_ApprovalFields s) (st_RemindAfter s)
    (st_EscalateAfter s) (st_EscalateTo s) (st_Delegates s) (st_Workflow s) (st_Uses s) (st_With s)
    (st_If s) (st_RejectWhen s) (st_OnReject s) (st_ParallelSteps s) (st_ForEachExpr s) (st_Max s)
    (st_Output s).
Definition with_If (v : string) (s : StepConfig) : StepConfig :=
  mkStep (st_ID s) (st_Type s) (st_DependsOn s) (st_SeqDependsOn s) (st_Condition s) (st_FailWhen s)
    (st_Agent s) (st_Prompt s) (st_OutputSchema s) (st_OnMissingOutput s) (st_Memory s)
    (st_OnPassNext s) (st_OnFail s) (st_OnConflict s) (st_Multi s) (st_Branches s) (st_Message s)
    (st_ResumeOn s) (st_AbortOn s) (st_Timeout s) (st_Approvers s) (st_WaitFor s) (st_Items s)
    (st_As s) (st_Concurrency s) (st_MaxItems s) (st_FailFast s) (st_Step s) (st_SubSteps s)
    (st_Join s) (st_Name s) (st_Idempotent s) (st_Publish s) (st_Spawn s) (st_Materialize s)
    (st_PullRequestFrom s) (st_ActionClass s) (st_RequiredApprovals s) (st_ApprovalFields s)
    (st_RemindAfter s) (st_EscalateAfter s) (st_EscalateTo s) (st_Delegates s) (st_Workflow s)
    (st_Uses s) (st_With s) v (st_RejectWhen s) (st_OnReject s) (st_ParallelSteps s) (st_ForEachExpr
    s) (st_Max s) (st_Output s).
Definition with_RejectWhen (v : string) (s : StepConfig) : StepConfig :=
  mkStep (st_ID s) (st_Type s) (st_DependsOn s) (st_SeqDependsOn s) (st_Condition s) (st_FailWhen s)
    (st_Agent s) (st_Prompt s) (st_OutputSchema s) (st_OnMissingOutput s) (st_Memory s)
    (st_OnPassNext s) (st_OnFail s) (st_OnConflict s) (st_Multi s) (st_Branches s) (st_Message s)
    (st_ResumeOn s) (st_AbortOn s) (st_Timeout s) (st_Approvers s) (st_WaitFor s) (st_Items s)
    (st_As s) (st_Concurrency s) (st_MaxItems s) (st_FailFast s) (st_Step s) (st_SubSteps s)
    (st_Join s) (st_Name s) (st_Idempotent s) (st_Publish s) (st_Spawn s) (st_Materialize s)
    (st_PullRequestFrom s) (st_ActionClass s) (st_RequiredApprovals s) (st_ApprovalFields s)
    (st_RemindAfter s) (st_EscalateAfter s) (st_EscalateTo s) (st_Delegates s) (st_Workflow s)
    (st_Uses s) (st_With s) (st_If s) v (st_OnReject s) (st_ParallelSteps s) (st_ForEachExpr s)
    (st_Max s) (st_Output s).
Definition with_OnReject (v : option OnRejectConfig) (s : StepConfig) : StepConfig :=
  mkStep (st_ID s) (st_Type s) (st_DependsOn s) (st_SeqDependsOn s) (st_Condition s) (st_FailWhen s)
    (st_Agent s) (st_Prompt s) (st_OutputSchema s) (st_OnMissingOutput s) (st_Memory s)
    (st_OnPassNext s) (st_OnFail s) (st_OnConflict s) (st_Multi s) (st_Branches s) (st_Message s)
    (st_ResumeOn s) (st_AbortOn s) (st_Timeout s) (st_Approvers s) (st_WaitFor s) (st_Items s)
    (st_As s) (st_Concurrency s) (st_MaxItems s) (st_FailFast s) (st_Step s) (st_SubSteps s)
    (st_Join s) (st_Name s) (st_Idempotent s) (st_Publish s) (st_Spawn s) (st_Materialize s)
    (st_PullRequestFrom s) (st_ActionClass s) (st_RequiredApprovals s) (st_ApprovalFields s)
    (st_RemindAfter s) (st_EscalateAfter s) (st_EscalateTo s) (st_Delegates s) (st_Workflow s)
    (st_Uses s) (st_With s) (st_If s) (st_RejectWhen s) v (st_ParallelSteps s) (st_ForEachExpr s)
    (st_Max s) (st_Output s).
Definition with_Max (v : Z) (s : StepConfig) : StepConfig :=
  mkStep (st_ID s) (st_Type s) (st_DependsOn s) (st_SeqDependsOn s) (st_Condition s) (st_FailWhen s)
    (st_Agent s) (st_Prompt s) (st_OutputSchema s) (st_OnMissingOutput s) (st_Memory s)
    (st_OnPassNext s) (st_OnFail s) (st_OnConflict s) (st_Multi s) (st_Branches s) (st_Message s)
    (st_ResumeOn s) (st_AbortOn s) (st_Timeout s) (st_Approvers s) (st_WaitFor s) (st_Items s)
    (st_As s) (st_Concurrency s) (st_MaxItems s) (st_FailFast s) (st_Step s) (st_SubSteps s)
    (st_Join s) (st_Name s) (st_Idempotent s) (st_Publish s) (st_Spawn s) (st_Materialize s)
    (st_PullRequestFrom s) (st_ActionClass s) (st_RequiredApprovals s) (st_ApprovalFields s)
    (st_RemindAfter s) (st_EscalateAfter s) (st_EscalateTo s) (st_Delegates s) (st_Workflow s)
    (st_Uses s) (st_With s) (st_If s) (st_RejectWhen s) (st_OnReject s) (st_ParallelSteps s)
    (st_ForEachExpr s) v (st_Output s).
Definition with_Output (v : option OutputSchema) (s : StepConfig) : StepConfig :=
  mkStep (st_ID s) (st_Type s) (st_DependsOn s) (st_SeqDependsOn s) (st_Condition s) (st_FailWhen s)
    (st_Agent s) (st_Prompt s) (st_OutputSchema s) (st_OnMissingOutput s) (st_Memory s)
    (st_OnPassNext s) (st_OnFail s) (st_OnConflict s) (st_Multi s) (st_Branches s) (st_Message s)
    (st_ResumeOn s) (st_AbortOn s) (st_Timeout s) (st_Approvers s) (st_WaitFor s) (st_Items s)
    (st_As s) (st_Concurrency s) (st_MaxItems s) (st_FailFast s) (st_Step s) (st_SubSteps s)
    (st_Join s) (st_Name s) (st_Idempotent s) (st_Publish s) (st_Spawn s) (st_Materialize s)
    (st_PullRequestFrom s) (st_ActionClass s) (st_RequiredApprovals s) (st_ApprovalFields s)
    (st_RemindAfter s) (st_EscalateAfter s) (st_EscalateTo s) (st_Delegates s) (st_Workflow s)
    (st_Uses s) (st_With s) (st_If s) (st_RejectWhen s) (st_OnReject s) (st_ParallelSteps s)
    (st_ForEachExpr s) (st_Max s) v.

(** Induction over a step and the steps nested in it. *)
Lemma step_tree_ind (P : StepConfig -> Prop) :
  (forall s, Forall P (st_SubSteps s) -> Forall P (st_ParallelSteps s) ->
     (forall i, st_Step s = Some i -> P i) -> P s) -> forall s, P s.
Proof.
  intros H. fix IH 1. intros s. apply H.
  - destruct s as [? ? ? ? ? ? ? ? ? ? ? ? ? ? ? ? ? ? ? ? ? ? ? ? ? ? ? ? subs]. simpl.
    induction subs as [|c l IHl]; constructor; [apply IH|apply IHl].
  - destruct s as [? ? ? ? ? ? ? ? ? ? ? ? ? ? ? ? ? ? ? ? ? ? ? ? ? ? ? ? ? ? ? ? ? ? ? ? ? ? ? ? ? ? ? ? ?
                   ? ? ? ? par]. simpl.
    induction par as [|c l IHl]; constructor; [apply IH|apply IHl].
  - destruct s as [? ? ? ? ? ? ? ? ? ? ? ? ? ? ? ? ? ? ? ? ? ? ? ? ? ? ? inner]. simpl.
    destruct inner as [c|]; intros i Hi; [|discriminate Hi]. injection Hi as <-. apply IH.
Qed.

(** [StepConfig.StepType]. *)
Definition StepType (s : StepConfig) : string :=
  if is_empty (st_Type s) then StepTypeAgent else st_Type s.

Definition is_type (ty : string) (s : StepConfig) : bool := bool_decide (StepType s = ty).

(** [StepConfig.IsOperatorGate]. *)
Definition IsOperatorGate (s : StepConfig) : bool :=
  is_type StepTypeApproval s &&
  match st_Approvers s with
  | [] => true
  | _ => false
  end &&
  match st_ResumeOn s with
  | None => true
  | Some t => ApprovalTrigger_IsEmpty t
  end.

(** [StepConfig.MemoryReadEnabled]. *)
Definition MemoryReadEnabled (s : StepConfig) : bool :=
  match st_Memory s with
  | Some m => default true (mc_Read m)
  | None => true
  end.

(** [StepConfig.MemoryWriteFields]. *)
Definition MemoryWriteFields (s : StepConfig) : list string :=
  from_option mc_Write [] (st_Memory s).

Section durations.
Context {RT : GoRuntime}.

(** [StepConfig.ParsedTimeout]: 0 means no timeout. *)
Definition ParsedTimeout (s : StepConfig) : Z :=
  if is_empty (st_Timeout s) then 0 else default 0%Z (parse_duration (st_Timeout s)).

Definition hours (n : Z) : Z := n * 3600 * 1000000000.
Definition minutes (n : Z) : Z := n * 60 * 1000000000.

(** [WaitForConfig.ParsedCheckInterval]. *)
Definition ParsedCheckInterval (p : WaitForConfig) : Z :=
  if is_empty (wf_CheckInterval p) then minutes 1
  else let d := default 0%Z (parse_duration (wf_CheckInterval p)) in
       if (d <=? 0)%Z then minutes 1 else d.

(** [WaitForConfig.ParsedMaxDuration]: two hours for CI, none for a
    dependency. *)
Definition ParsedMaxDuration (p : WaitForConfig) : Z :=
  let fallback := if bool_decide (wf_Kind p = WaitKindDependency) then 0%Z else hours 2 in
  if is_empty (wf_MaxDuration p) then fallback
  else let d := default 0%Z (parse_duration (wf_MaxDuration p)) in
       if (d <=? 0)%Z then fallback else d.
End durations.

(** [WaitForConfig.ShouldFailIfNotPassed]. *)
Definition ShouldFailIfNotPassed (p : WaitForConfig) : bool :=
  default true (wf_FailIfNotPassed p).

(** [WaitForConfig.EffectiveSatisfiedWhen]. *)
Definition EffectiveSatisfiedWhen (p : WaitForConfig) : list string :=
  match wf_SatisfiedWhen p with
  | [] => [BlockerSatisfiedMerged; BlockerSatisfiedDone]
  | l => l
  end.

(** [WaitForConfig.TimeoutAction]. *)
Definition TimeoutAction (p : WaitForConfig) : string :=
  if negb (is_empty (wf_OnTimeout p)) then wf_OnTimeout p
  else if bool_decide (wf_Kind p = WaitKindDependency) then OnTimeoutHold
  else OnTimeoutFail.

(** ** Workflows *)

(** [WorkflowInput] and [WorkflowOutput]: the contract of a reusable workflow. *)
Record WorkflowInput := { win_Type : string; win_Required : bool; win_Default : option JValue }.
Record WorkflowOutput := { wout_Type : string; wout_Value : string }.

Record WorkflowConfig := {
  wc_ID : string;
  wc_Resume : string;
  wc_ResultComment : string;
  wc_Trigger : option TriggerConfig;
  wc_Inputs : gmap string WorkflowInput;
  wc_Outputs : gmap string WorkflowOutput;
  wc_Steps : list StepConfig;
}.

Definition ResumeAllowed := "allowed".
Definition ResumeForbidden := "forbidden".
Definition ResumeAuto := "auto".

(** [WorkflowConfig.ResumePolicy]. *)
Definition ResumePolicy (w : WorkflowConfig) : string :=
  if is_empty (wc_Resume w) then ResumeAllowed else wc_Resume w.

(** [firstAgentStep] of src/internal/router/router.go, and the identical
    [representativeAgent] of src/internal/workflow/wait_park.go. *)
Fixpoint first_agent (steps : list StepConfig) : option string :=
  match steps with
  | [] => None
  | s :: rest =>
      if is_type StepTypeAgent s then
        if is_empty (st_Agent s) then first_agent rest else Some (st_Agent s)
      else if is_type StepTypeForeach s then
        match st_Step s with
        | Some inner => if is_empty (st_Agent inner) then first_agent rest else Some (st_Agent inner)
        | None => first_agent rest
        end
      else first_agent rest
  end.

Definition firstAgentStep (wf : WorkflowConfig) : string :=
  default (wc_ID wf) (first_agent (wc_Steps wf)).
