(* ===== verification/Router.v ===== *)
(** * Routing (src/internal/router/router.go and event.go)

    Priority-ordered trigger evaluation: building the routes from the workflow
    triggers, matching a work item or a task, fan-out with exclusive triggers,
    explanations, and pull-request events with their actor gates.

    A rejection reason is a constructor carrying the data the Go message prints;
    compiled regular expressions are functions from the matched text. *)

From S2P Require Import Prelude Model Config.
From stdpp Require Import base gmap strings list sorting.
From Stdlib Require Import ZArith.

(** A legacy worker definition; the router only looks it up by id. *)
Record WorkerConfig := { wk_ID : string; wk_Model : string }.

(** The fields of [config.Config] the router reads. *)
Record Config := { cfg_Workers : list WorkerConfig; cfg_Workflows : list WorkflowConfig }.

Record Match := { m_Worker : option WorkerConfig; m_Route : RouteConfig; m_InstanceID : string }.

Record Router := {
  routes : list RouteConfig;
  workers : gmap string WorkerConfig;
  regexes : gmap string (string -> bool);
  commentRegexes : gmap string (string -> bool);
}.

Inductive NewError :=
  | ErrBadRegex (route pattern : string)
  | ErrBadCommentRegex (route pattern : string).

(** [sort.Slice] by [Priority]. *)
Definition route_le (a b : RouteConfig) : Prop := (rt_Priority a <= rt_Priority b)%Z.

#[global] Instance route_le_dec : RelDecision route_le.
Proof. intros a b. unfold route_le. apply _. Defined.
#[global] Instance route_le_trans : Transitive route_le.
Proof. intros a b c. unfold route_le. lia. Qed.
#[global] Instance route_le_total : Total route_le.
Proof. intros a b. unfold route_le. lia. Qed.

(** The synthetic route of a workflow trigger. *)
Definition trigger_route (wf : WorkflowConfig) (t : TriggerConfig) : RouteConfig := {|
  rt_ID := wc_ID wf;
  rt_Priority := tr_Priority t;
  rt_Match := tr_Match t;
  rt_Agent := firstAgentStep wf;
  rt_Worker := "";
  rt_Exclusive := tr_Exclusive t;
  rt_Once := tr_Once t;
  rt_On := EventKind t;
  rt_CommentMatches := tr_CommentMatches t;
  rt_Authors := tr_Authors t;
  rt_AuthorsAssociation := tr_AuthorsAssociation t;
  rt_IgnoreAuthors := tr_IgnoreAuthors t;
  rt_PRAuthors := tr_PRAuthors t;
  rt_MaxDispatches := tr_MaxDispatches t |}.

(** Workflows without a trigger are skipped. *)
Definition trigger_routes (wfs : list WorkflowConfig) : list RouteConfig :=
  omap (fun wf => trigger_route wf <$> wc_Trigger wf) wfs.

Section with_runtime.
Context {RT : GoRuntime}.

(** The compilation loop of [New]: title first, then comment, per route. *)
Fixpoint compile_regexes (rs : list RouteConfig) (res cres : gmap string (string -> bool))
    : result NewError (gmap string (string -> bool) * gmap string (string -> bool)) :=
  match rs with
  | [] => Ok (res, cres)
  | r :: rs' =>
      let pat := rm_TitleRegex (rt_Match r) in
      res' ← (if is_empty pat then Ok res
              else match regexp_compile pat with
                   | None => Err (ErrBadRegex (rt_ID r) pat)
                   | Some re => Ok (<[rt_ID r := re]> res)
                   end);
      let cpat := rt_CommentMatches r in
      cres' ← (if is_empty cpat then Ok cres
               else match regexp_compile cpat with
                    | None => Err (ErrBadCommentRegex (rt_ID r) cpat)
                    | Some re => Ok (<[rt_ID r := re]> cres)
                    end);
      compile_regexes rs' res' cres'
  end.

(** [New]: a later worker with the same id replaces an earlier one. *)
Definition New `{!Sorter route_le} (cfg : Config) : result NewError Router :=
  let ws := foldl (fun m w => <[wk_ID w := w]> m) ∅ (cfg_Workers cfg) in
  let rs := sort_by route_le (trigger_routes (cfg_Workflows cfg)) in
  '(res, cres) ← compile_regexes rs ∅ ∅;
  Ok {| routes := rs; workers := ws; regexes := res; commentRegexes := cres |}.

End with_runtime.

(** [ManualMatch]: the match of a manual run, refused only for an empty id. *)
Definition ManualMatch (wf : WorkflowConfig) : option Match :=
  if is_empty (wc_ID wf) then None
  else Some {| m_Worker := None; m_InstanceID := "";
    m_Route := {|
      rt_ID := wc_ID wf;
      rt_Priority := from_option tr_Priority 0%Z (wc_Trigger wf);
      rt_Match := from_option tr_Match empty_match (wc_Trigger wf);
      rt_Agent := firstAgentStep wf;
      rt_Worker := ""; rt_Exclusive := false; rt_Once := false; rt_On := "";
      rt_CommentMatches := ""; rt_Authors := []; rt_AuthorsAssociation := [];
      rt_IgnoreAuthors := []; rt_PRAuthors := []; rt_MaxDispatches := 0 |} |}.

(** ** Matching a target *)

Record target := {
  tg_sourceID : string; tg_state : string; tg_labels : list string;
  tg_typ : string; tg_priority : string; tg_title : string
}.

Definition targetFromItem (cell : SourceItem) : target := {|
  tg_sourceID := si_SourceID cell; tg_state := si_State cell; tg_labels := si_Labels cell;
  tg_typ := si_Type cell; tg_priority := si_Priority cell; tg_title := si_Title cell |}.

Definition targetFromTask (task : InternalTask) : target := {|
  tg_sourceID := md_Source (it_Metadata task); tg_state := md_State (it_Metadata task);
  tg_labels := md_Labels (it_Metadata task); tg_typ := md_Type (it_Metadata task);
  tg_priority := md_Priority (it_Metadata task); tg_title := it_Title task |}.

(** Why a route did not match, or what it matched on. *)
Inductive reason :=
  | RSource (have want : string)
  | RState (have : string) (want : list string)
  | RMissingLabel (required : string) (have : list string)
  | RExcludedLabel (excluded : string)
  | RExcludedPrefix (label prefix : string)
  | RType (have : string) (want : list string)
  | RPriority (have : string) (want : list string)
  | RTitle (title pattern : string)
  | RMatched (criteria : string)
  | RNotReached
  | RWorkerUndefined (worker : string)
  | RUnresolvable
  | RSuppressed (by_route : string)
  | REventKind (have want : string)
  | RComment (pattern : string)
  | RAuthorIgnored (author : string)
  | RAuthorNotListed (author : string)
  | RAssociation (author assoc : string)
  | RPRAuthor (author : string)
  | RNoRelatedItem
  | RMatchedEvent (kind author : string).

Definition toLowerSet (ss : list string) : gset string := list_to_set (to_lower <$> ss).

Definition containsInsensitive (ss : list string) (x : string) : bool :=
  existsb (fun s => bool_decide (to_lower s = to_lower x)) ss.

(** [describeCriteria]. *)
Definition criterion (name : string) (vals : list string) : list string :=
  match vals with
  | [] => []
  | _ => [name +:+ str_join "," vals]
  end.

Definition describeCriteria (m : RouteMatch) : string :=
  let parts :=
    (if is_empty (rm_Source m) then [] else ["source=" +:+ rm_Source m]) ++
    criterion "states=" (rm_States m) ++
    criterion "labels=" (rm_Labels m) ++
    criterion "exclude_labels=" (rm_ExcludeLabels m) ++
    (if is_empty (rm_ExcludeLabelPrefix m) then []
     else ["exclude_label_prefix=" +:+ rm_ExcludeLabelPrefix m]) ++
    criterion "types=" (rm_Types m) ++
    criterion "priority=" (rm_Priority m) ++
    (if is_empty (rm_TitleRegex m) then [] else ["title~/" +:+ rm_TitleRegex m +:+ "/"]) in
  match parts with
  | [] => "matches all cells (no criteria)"
  | _ => "matched on " +:+ str_join " " parts
  end.

Definition nonempty {A} (l : list A) : bool :=
  match l with
  | [] => false
  | _ => true
  end.

(** [evaluateTarget]: the guards in source order, each with its early return. *)
Definition evaluateTarget (r : Router) (route : RouteConfig) (t : target) : bool * reason :=
  let m := rt_Match route in
  let labels := toLowerSet (tg_labels t) in
  if negb (is_empty (rm_Source m)) && negb (bool_decide (tg_sourceID t = rm_Source m)) then
    (false, RSource (tg_sourceID t) (rm_Source m))
  else if nonempty (rm_States m) && negb (containsInsensitive (rm_States m) (tg_state t)) then
    (false, RState (tg_state t) (rm_States m))
  else match List.find (fun req => negb (bool_decide (to_lower req ∈ (labels : gset string)))) (rm_Labels m) with
  | Some req => (false, RMissingLabel req (tg_labels t))
  | None =>
  match List.find (fun exc => bool_decide (to_lower exc ∈ labels)) (rm_ExcludeLabels m) with
  | Some exc => (false, RExcludedLabel exc)
  | None =>
  match (if is_empty (rm_ExcludeLabelPrefix m) then None
         else List.find (fun l => has_prefix (to_lower l) (to_lower (rm_ExcludeLabelPrefix m))) (tg_labels t)) with
  | Some l => (false, RExcludedPrefix l (rm_ExcludeLabelPrefix m))
  | None =>
  if nonempty (rm_Types m) && negb (containsInsensitive (rm_Types m) (tg_typ t)) then
    (false, RType (tg_typ t) (rm_Types m))
  else if nonempty (rm_Priority m) && negb (containsInsensitive (rm_Priority m) (tg_priority t)) then
    (false, RPriority (tg_priority t) (rm_Priority m))
  else match (regexes r !! rt_ID route : option (string -> bool)) with
  | Some re => if re (tg_title t) then (true, RMatched (describeCriteria m))
               else (false, RTitle (tg_title t) (rm_TitleRegex m))
  | None => (true, RMatched (describeCriteria m))
  end end end end.

(** [resolveMatch]: the agent wins, a defined worker is the fallback. *)
Definition resolveMatch (r : Router) (route : RouteConfig) : option Match :=
  if negb (is_empty (rt_Agent route))
  then Some {| m_Worker := None; m_Route := route; m_InstanceID := "" |}
  else match workers r !! rt_Worker route with
       | Some w => Some {| m_Worker := Some w; m_Route := route; m_InstanceID := "" |}
       | None => None
       end.

(** ** Item routing *)

(** The loop of [Route]: first matched and resolvable item route. *)
Fixpoint route_loop (r : Router) (t : target) (rs : list RouteConfig) : option Match :=
  match rs with
  | [] => None
  | route :: rs' =>
      if IsEventRoute route then route_loop r t rs'
      else if (evaluateTarget r route t).1 then
        match resolveMatch r route with
        | Some m => Some m
        | None => route_loop r t rs'
        end
      else route_loop r t rs'
  end.

Definition Route (r : Router) (item : SourceItem) : option Match :=
  route_loop r (targetFromItem item) (routes r).

(** The loop of [RouteAllWithSuppressed], threading its three variables. *)
Fixpoint route_all_loop (r : Router) (t : target) (rs : list RouteConfig)
    (claimed : bool) (matches suppressed : list Match) : list Match * list Match :=
  match rs with
  | [] => (matches, suppressed)
  | route :: rs' =>
      if IsEventRoute route then route_all_loop r t rs' claimed matches suppressed
      else if negb (evaluateTarget r route t).1 then route_all_loop r t rs' claimed matches suppressed
      else match resolveMatch r route with
           | None => route_all_loop r t rs' claimed matches suppressed
           | Some m =>
               if claimed then route_all_loop r t rs' claimed matches (suppressed ++ [m])
               else route_all_loop r t rs' (rt_Exclusive route) (matches ++ [m]) suppressed
           end
  end.

Definition RouteAllWithSuppressed (r : Router) (task : InternalTask) : list Match * list Match :=
  route_all_loop r (targetFromTask task) (routes r) false [] [].

Definition RouteAll (r : Router) (task : InternalTask) : list Match :=
  (RouteAllWithSuppressed r task).1.

(** ** Explanations *)

Record RouteTrace := {
  rt_RouteID : string; rtr_Priority : Z; rtr_Agent : string; rtr_Worker : string;
  rtr_Matched : bool; rtr_Reason : reason; rtr_Selected : bool
}.

Definition trace_of (route : RouteConfig) (matched selected : bool) (why : reason) : RouteTrace := {|
  rt_RouteID := rt_ID route; rtr_Priority := rt_Priority route; rtr_Agent := rt_Agent route;
  rtr_Worker := rt_Worker route; rtr_Matched := matched; rtr_Reason := why; rtr_Selected := selected |}.

(** [ExplainTask]: [claimedBy] is the id of the exclusive winner, [""] if none. *)
Fixpoint explain_task_loop (r : Router) (t : target) (rs : list RouteConfig) (claimedBy : string)
    : list RouteTrace :=
  match rs with
  | [] => []
  | route :: rs' =>
      if IsEventRoute route then explain_task_loop r t rs' claimedBy
      else
        let '(matched, why) := evaluateTarget r route t in
        let resolved := match resolveMatch r route with
                        | Some _ => true
                        | None => false
                        end in
        let selected := matched && resolved in
        let why := if matched && negb resolved then RUnresolvable else why in
        let why' := if negb (is_empty claimedBy) && selected then RSuppressed claimedBy else why in
        let selected' := if negb (is_empty claimedBy) then false else selected in
        trace_of route matched selected' why' ::
        explain_task_loop r t rs' (if selected' && rt_Exclusive route then rt_ID route else claimedBy)
  end.

Definition ExplainTask (r : Router) (task : InternalTask) : list RouteTrace :=
  explain_task_loop r (targetFromTask task) (routes r) "".

(** [Explain]: the winner and the trace of every item route. *)
Fixpoint explain_loop (r : Router) (t : target) (rs : list RouteConfig) (winner : option Match)
    : option Match * list RouteTrace :=
  match rs with
  | [] => (winner, [])
  | route :: rs' =>
      if IsEventRoute route then explain_loop r t rs' winner
      else match winner with
      | Some _ =>
          let '(w, traces) := explain_loop r t rs' winner in
          (w, trace_of route false false RNotReached :: traces)
      | None =>
          let '(ok, why) := evaluateTarget r route t in
          let '(winner', tr) :=
            if ok then
              if negb (is_empty (rt_Agent route)) then
                (Some {| m_Worker := None; m_Route := route; m_InstanceID := "" |},
                 trace_of route true true why)
              else match workers r !! rt_Worker route with
                   | Some w => (Some {| m_Worker := Some w; m_Route := route; m_InstanceID := "" |},
                                trace_of route true true why)
                   | None => (None, trace_of route false false (RWorkerUndefined (rt_Worker route)))
                   end
            else (None, trace_of route false false why) in
          let '(w, traces) := explain_loop r t rs' winner' in
          (w, tr :: traces)
      end
  end.

Definition Explain (r : Router) (cell : SourceItem) : option Match * list RouteTrace :=
  explain_loop r (targetFromItem cell) (routes r) None.

(** ** Pull-request events *)

Definition HasEventRoutes (r : Router) : bool := existsb IsEventRoute (routes r).

(** [hasItemCriteria]. *)
Definition hasItemCriteria (m : RouteMatch) : bool :=
  nonempty (rm_Labels m) || nonempty (rm_ExcludeLabels m) || negb (is_empty (rm_ExcludeLabelPrefix m)) ||
  nonempty (rm_Types m) || nonempty (rm_Priority m) || nonempty (rm_States m) ||
  negb (is_empty (rm_TitleRegex m)).

(** [authorAllowed]: ignore list, then explicit authors, then association. *)
Definition authorAllowed (route : RouteConfig) (event : SourceEvent) : bool * reason :=
  if existsb (fun a => equal_fold a (ev_Author event)) (rt_IgnoreAuthors route) then
    (false, RAuthorIgnored (ev_Author event))
  else if nonempty (rt_Authors route) then
    if existsb (fun a => equal_fold a (ev_Author event)) (rt_Authors route)
    then (true, RMatched "") else (false, RAuthorNotListed (ev_Author event))
  else
    let allowed := match rt_AuthorsAssociation route with
                   | [] => DefaultEventAuthorAssociations
                   | l => l
                   end in
    if existsb (fun a => equal_fold a (ev_AuthorAssociation event)) allowed
    then (true, RMatched "") else (false, RAssociation (ev_Author event) (ev_AuthorAssociation event)).

(** [prAuthorAllowed]: an unknown PR author fails closed. *)
Definition prAuthorAllowed (route : RouteConfig) (event : SourceEvent) : bool * reason :=
  if negb (nonempty (rt_PRAuthors route)) then (true, RMatched "")
  else if negb (is_empty (ev_PRAuthor event)) &&
          existsb (fun a => equal_fold a (ev_PRAuthor event)) (rt_PRAuthors route)
  then (true, RMatched "")
  else (false, RPRAuthor (ev_PRAuthor event)).

(** The scoped copy of the route: the source was already checked on the event. *)
Definition without_source (route : RouteConfig) : RouteConfig :=
  let m := rt_Match route in
  {| rt_ID := rt_ID route; rt_Priority := rt_Priority route;
     rt_Match := {| rm_Source := ""; rm_Labels := rm_Labels m; rm_Types := rm_Types m;
                    rm_TitleRegex := rm_TitleRegex m; rm_Priority := rm_Priority m;
                    rm_States := rm_States m; rm_ExcludeLabels := rm_ExcludeLabels m;
                    rm_ExcludeLabelPrefix := rm_ExcludeLabelPrefix m |};
     rt_Agent := rt_Agent route; rt_Worker := rt_Worker route; rt_Exclusive := rt_Exclusive route;
     rt_Once := rt_Once route; rt_On := rt_On route; rt_CommentMatches := rt_CommentMatches route;
     rt_Authors := rt_Authors route; rt_AuthorsAssociation := rt_AuthorsAssociation route;
     rt_IgnoreAuthors := rt_IgnoreAuthors route; rt_PRAuthors := rt_PRAuthors route;
     rt_MaxDispatches := rt_MaxDispatches route |}.

(** [evaluateEvent]. *)
Definition evaluateEvent (r : Router) (route : RouteConfig) (event : SourceEvent)
    (task : option InternalTask) : bool * reason :=
  if negb (bool_decide (rt_On route = ev_Kind event)) then
    (false, REventKind (ev_Kind event) (rt_On route))
  else if negb (is_empty (rm_Source (rt_Match route)))
          && negb (bool_decide (ev_SourceID event = rm_Source (rt_Match route))) then
    (false, RSource (ev_SourceID event) (rm_Source (rt_Match route)))
  else if match (commentRegexes r !! rt_ID route : option (string -> bool)) with
          | Some re => negb (re (ev_Body event))
          | None => false
          end then (false, RComment (rt_CommentMatches route))
  else if negb (authorAllowed route event).1 then authorAllowed route event
  else if negb (prAuthorAllowed route event).1 then prAuthorAllowed route event
  else if hasItemCriteria (rt_Match route) then
    match task with
    | None => (false, RNoRelatedItem)
    | Some tk =>
        let res := evaluateTarget r (without_source route) (targetFromTask tk) in
        if negb res.1 then res else (true, RMatchedEvent (ev_Kind event) (ev_Author event))
    end
  else (true, RMatchedEvent (ev_Kind event) (ev_Author event)).

(** [RouteEvent]: fan-out over the event axis, stopped by an exclusive match. *)
Fixpoint route_event_loop (r : Router) (event : SourceEvent) (task : option InternalTask)
    (rs : list RouteConfig) : list Match :=
  match rs with
  | [] => []
  | route :: rs' =>
      if negb (IsEventRoute route) then route_event_loop r event task rs'
      else if negb (evaluateEvent r route event task).1 then route_event_loop r event task rs'
      else match resolveMatch r route with
           | None => route_event_loop r event task rs'
           | Some m => m :: (if rt_Exclusive route then [] else route_event_loop r event task rs')
           end
  end.

Definition RouteEvent (r : Router) (event : SourceEvent) (task : option InternalTask) : list Match :=
  route_event_loop r event task (routes r).
