(* ===== verification/RouterFacts.v ===== *)
(** * Facts about routing

    The declarative meaning of a match, the fan-out with exclusive triggers, that
    the explanations tell the truth about the decision, and the actor gate of
    pull-request events. *)

From S2P Require Import Prelude Model Config Router.
From stdpp Require Import base gmap strings list sorting.
From Stdlib Require Import ZArith.

(** ** Matching *)

(** Some member of [ss] equals [x] up to case. *)
Definition mem_fold (x : string) (ss : list string) : Prop :=
  exists s, s ∈ ss /\ to_lower s = to_lower x.

(** What a route requires of a target. *)
Record accepts (r : Router) (route : RouteConfig) (t : target) : Prop := {
  acc_source : rm_Source (rt_Match route) = "" \/ tg_sourceID t = rm_Source (rt_Match route);
  acc_states : rm_States (rt_Match route) = [] \/ mem_fold (tg_state t) (rm_States (rt_Match route));
  acc_labels : forall req, req ∈ rm_Labels (rt_Match route) -> mem_fold req (tg_labels t);
  acc_exclude : forall exc, exc ∈ rm_ExcludeLabels (rt_Match route) -> ~ mem_fold exc (tg_labels t);
  acc_prefix : rm_ExcludeLabelPrefix (rt_Match route) = "" \/
    forall l, l ∈ tg_labels t ->
      has_prefix (to_lower l) (to_lower (rm_ExcludeLabelPrefix (rt_Match route))) = false;
  acc_types : rm_Types (rt_Match route) = [] \/ mem_fold (tg_typ t) (rm_Types (rt_Match route));
  acc_priority : rm_Priority (rt_Match route) = [] \/ mem_fold (tg_priority t) (rm_Priority (rt_Match route));
  acc_title : forall re, regexes r !! rt_ID route = Some re -> re (tg_title t) = true;
}.

Lemma containsInsensitive_spec ss x : containsInsensitive ss x = true <-> mem_fold x ss.
Proof.
  unfold containsInsensitive, mem_fold. rewrite existsb_elem.
  by setoid_rewrite bool_decide_eq_true.
Qed.

Lemma toLowerSet_spec ls x : to_lower x ∈ toLowerSet ls <-> mem_fold x ls.
Proof.
  unfold toLowerSet, mem_fold. rewrite elem_of_list_to_set, list_elem_of_fmap. naive_solver.
Qed.

(** A guard of the shape [len(want) > 0 && !contains(want, have)]. *)
Lemma guard_spec ss x :
  nonempty ss && negb (containsInsensitive ss x) = false <-> ss = [] \/ mem_fold x ss.
Proof.
  rewrite <- containsInsensitive_spec.
  destruct ss, (containsInsensitive _ x); naive_solver.
Qed.

(** A route matches a target exactly when every declared criterion holds,
    each compared without regard to case; an undeclared criterion never
    rejects. *)
Theorem evaluateTarget_spec (r : Router) (route : RouteConfig) (t : target) :
  (evaluateTarget r route t).1 = true <-> accepts r route t.
Proof.
  unfold evaluateTarget.
  destruct (negb (is_empty _) && negb (bool_decide (tg_sourceID t = _))) eqn:E1.
  { split; [done|]. intros [H1 _ _ _ _ _ _ _].
    rewrite andb_true_iff, !negb_true_iff, is_empty_false, bool_decide_eq_false in E1. naive_solver. }
  destruct (nonempty (rm_States _) && _) eqn:E2.
  { split; [done|]. intros [_ H%guard_spec _ _ _ _ _ _]. congruence. }
  destruct (List.find _ (rm_Labels _)) as [req|] eqn:E3.
  { split; [done|]. intros [_ _ H _ _ _ _ _]. apply List.find_some in E3 as [Hin%list_elem_of_In Hp].
    rewrite negb_true_iff, bool_decide_eq_false, toLowerSet_spec in Hp. by apply H in Hin. }
  destruct (List.find _ (rm_ExcludeLabels _)) as [exc|] eqn:E4.
  { split; [done|]. intros [_ _ _ H _ _ _ _]. apply List.find_some in E4 as [Hin%list_elem_of_In Hp].
    rewrite bool_decide_eq_true, toLowerSet_spec in Hp. by apply H in Hin. }
  destruct (if is_empty (rm_ExcludeLabelPrefix _) then _ else _) as [l|] eqn:E5.
  { split; [done|]. intros [_ _ _ _ H _ _ _]. destruct (is_empty (rm_ExcludeLabelPrefix (rt_Match route))) eqn:E; [done|].
    apply is_empty_false in E. apply List.find_some in E5 as [Hin%list_elem_of_In Hp].
    destruct H as [H|H]; [done|]. by rewrite H in Hp. }
  destruct (nonempty (rm_Types _) && _) eqn:E6.
  { split; [done|]. intros [_ _ _ _ _ H%guard_spec _ _]. congruence. }
  destruct (nonempty (rm_Priority _) && _) eqn:E7.
  { split; [done|]. intros [_ _ _ _ _ _ H%guard_spec _]. congruence. }
  assert ((forall re, regexes r !! rt_ID route = Some re -> re (tg_title t) = true) ->
          accepts r route t) as Hacc.
  { split; try by apply guard_spec.
    - rewrite andb_false_iff, !negb_false_iff, is_empty_true, bool_decide_eq_true in E1. naive_solver.
    - intros req Hin. rewrite find_None in E3. specialize (E3 _ Hin).
      by rewrite negb_false_iff, bool_decide_eq_true, toLowerSet_spec in E3.
    - intros exc Hin. rewrite find_None in E4. specialize (E4 _ Hin).
      by rewrite bool_decide_eq_false, toLowerSet_spec in E4.
    - destruct (is_empty (rm_ExcludeLabelPrefix (rt_Match route))) eqn:E; [left; by apply is_empty_true|].
      right. by apply find_None.
    - done. }
  destruct (regexes r !! rt_ID route) as [re|] eqn:E8; simpl.
  - destruct (re (tg_title t)) eqn:E9; simpl.
    + split; [|done]. intros _. apply Hacc. naive_solver.
    + split; [done|]. intros [_ _ _ _ _ _ _ H]. by rewrite (H re) in E9.
  - split; [|done]. intros _. apply Hacc. naive_solver.
Qed.

(** ** Fan-out *)

(** The matches a list of routes yields for a target, ignoring exclusivity. *)
Definition hit (r : Router) (t : target) (route : RouteConfig) : option Match :=
  if IsEventRoute route then None
  else if (evaluateTarget r route t).1 then resolveMatch r route else None.

Definition hits (r : Router) (t : target) (rs : list RouteConfig) : list Match :=
  omap (hit r t) rs.

Definition exclusive (m : Match) : bool := rt_Exclusive (m_Route m).

(** Split after the first exclusive match. *)
Fixpoint cut (l : list Match) : list Match * list Match :=
  match l with
  | [] => ([], [])
  | m :: l' => if exclusive m then ([m], l') else let '(a, b) := cut l' in (m :: a, b)
  end.

Lemma resolveMatch_route r route m : resolveMatch r route = Some m -> m_Route m = route.
Proof. unfold resolveMatch. intros. by repeat case_match; simplify_eq/=. Qed.

Lemma hit_route r t route m : hit r t route = Some m -> m_Route m = route.
Proof. unfold hit. intros. repeat case_match; simplify_eq/=. eauto using resolveMatch_route. Qed.

(** One iteration of an item loop, through [hit]. *)
Lemma hit_cases r t route :
  match hit r t route with
  | Some m => IsEventRoute route = false /\ (evaluateTarget r route t).1 = true
              /\ resolveMatch r route = Some m
  | None => IsEventRoute route = true \/ (evaluateTarget r route t).1 = false
            \/ resolveMatch r route = None
  end.
Proof.
  unfold hit. destruct (IsEventRoute route); [by left|].
  destruct (evaluateTarget r route t).1; [|auto].
  destruct (resolveMatch r route); auto.
Qed.

Lemma hits_cons r t route rs :
  hits r t (route :: rs) =
  match hit r t route with
  | Some m => m :: hits r t rs
  | None => hits r t rs
  end.
Proof. unfold hits; simpl. by destruct (hit r t route). Qed.

Lemma route_all_loop_skip r t route rs c ms sup :
  hit r t route = None ->
  route_all_loop r t (route :: rs) c ms sup = route_all_loop r t rs c ms sup.
Proof.
  intros H. pose proof (hit_cases r t route) as Hc. rewrite H in Hc. simpl.
  destruct (IsEventRoute route); [done|].
  destruct (evaluateTarget r route t).1; [|done].
  destruct (resolveMatch r route); [|done]. naive_solver.
Qed.

Lemma route_all_loop_hit r t route m rs c ms sup :
  hit r t route = Some m ->
  route_all_loop r t (route :: rs) c ms sup =
  if c then route_all_loop r t rs c ms (sup ++ [m])
  else route_all_loop r t rs (exclusive m) (ms ++ [m]) sup.
Proof.
  intros H. pose proof (hit_cases r t route) as Hc. rewrite H in Hc.
  pose proof (hit_route _ _ _ _ H) as Hr. destruct Hc as (H1 & H2 & H3). simpl.
  rewrite H1, H2, H3. simpl. unfold exclusive. by rewrite Hr.
Qed.

Lemma route_all_loop_spec r t rs c ms sup :
  route_all_loop r t rs c ms sup =
  if c then (ms, sup ++ hits r t rs)
  else (ms ++ (cut (hits r t rs)).1, sup ++ (cut (hits r t rs)).2).
Proof.
  revert c ms sup. induction rs as [|route rs IH]; intros c ms sup.
  { simpl. rewrite !app_nil_r. by destruct c. }
  rewrite hits_cons. destruct (hit r t route) as [m|] eqn:E.
  - rewrite (route_all_loop_hit _ _ _ _ _ _ _ _ E). destruct c.
    + by rewrite IH, <- app_assoc.
    + rewrite IH. simpl.
      destruct (exclusive m); simpl; [done|].
      destruct (cut (hits r t rs)); simpl. by rewrite <- app_assoc.
  - rewrite route_all_loop_skip by done. apply IH.
Qed.

Lemma cut_app l : (cut l).1 ++ (cut l).2 = l.
Proof.
  induction l as [|m l IH]; [done|]. simpl. destruct (exclusive m); [done|].
  destruct (cut l); simpl in *. by f_equal.
Qed.

Lemma cut_last l i m :
  (cut l).1 !! i = Some m -> exclusive m = true -> S i = length (cut l).1.
Proof.
  revert i. induction l as [|m' l IH]; intros i; [done|]. simpl.
  destruct (exclusive m') eqn:E.
  - simpl. by destruct i.
  - destruct (cut l) as [a b]; simpl in *. destruct i as [|i]; simpl.
    + intros [= ->]. by rewrite E.
    + intros H1 H2. by rewrite (IH _ H1 H2).
Qed.

Lemma cut_rest l : (cut l).2 <> [] -> exists m, last (cut l).1 = Some m /\ exclusive m = true.
Proof.
  induction l as [|m l IH]; [done|]. simpl. destruct (exclusive m) eqn:E; [by exists m|].
  destruct (cut l) as [a b] eqn:Ec; simpl in *. intros H.
  destruct (IH H) as (m' & Hl & He). exists m'. split; [|done].
  by destruct a.
Qed.

(** The fan-out of a task loses nothing and reorders nothing: the dispatched
    matches followed by the suppressed ones are exactly the matching routes in
    priority order; an exclusive match is always the last one dispatched, and
    something is suppressed only by such a match. *)
Theorem RouteAll_fanout (r : Router) (task : InternalTask) :
  let matches := (RouteAllWithSuppressed r task).1 in
  let suppressed := (RouteAllWithSuppressed r task).2 in
  matches ++ suppressed = hits r (targetFromTask task) (routes r)
  /\ (forall i m, matches !! i = Some m -> exclusive m = true -> S i = length matches)
  /\ (suppressed <> [] -> exists m, last matches = Some m /\ exclusive m = true).
Proof.
  unfold RouteAllWithSuppressed. rewrite route_all_loop_spec. simpl.
  split_and!; [apply cut_app|intros i m; apply cut_last|apply cut_rest].
Qed.

Lemma route_loop_hits r t rs : route_loop r t rs = head (hits r t rs).
Proof.
  induction rs as [|route rs IH]; [done|]. rewrite hits_cons. simpl.
  pose proof (hit_cases r t route) as Hc.
  destruct (hit r t route) as [m|] eqn:E; simpl.
  - destruct Hc as (-> & -> & ->). done.
  - rewrite <- IH. destruct (IsEventRoute route); [done|].
    destruct (evaluateTarget r route t).1; [|done].
    destruct (resolveMatch r route); [naive_solver|done].
Qed.

Lemma cut_head l : head (cut l).1 = head l.
Proof. destruct l as [|m l]; [done|]. simpl. destruct (exclusive m); [done|]. by destruct (cut l). Qed.

(** Routing the source item and routing the task agree: whenever the task
    carries the item's routing attributes, [Route] returns the first match of
    [RouteAll], and nothing exactly when the fan-out is empty. *)
Theorem Route_agrees_with_RouteAll (r : Router) (item : SourceItem) (task : InternalTask) :
  targetFromItem item = targetFromTask task ->
  Route r item = head (RouteAll r task).
Proof.
  intros Ht. unfold Route, RouteAll, RouteAllWithSuppressed.
  rewrite route_all_loop_spec, route_loop_hits, Ht. simpl. by rewrite cut_head.
Qed.

(** ** Explanations *)

Definition selected_ids (l : list RouteTrace) : list string :=
  rt_RouteID <$> List.filter rtr_Selected l.

Lemma selected_ids_cons tr l :
  selected_ids (tr :: l) = (if rtr_Selected tr then [rt_RouteID tr] else []) ++ selected_ids l.
Proof. unfold selected_ids. simpl. by destruct (rtr_Selected tr). Qed.

Definition match_ids (l : list Match) : list string := (fun m => rt_ID (m_Route m)) <$> l.

Lemma explain_task_claimed r t rs c :
  c <> "" -> selected_ids (explain_task_loop r t rs c) = [].
Proof.
  intros Hc. induction rs as [|route rs IH]; [done|]. simpl.
  destruct (IsEventRoute route); [done|].
  destruct (evaluateTarget r route t) as [b why].
  rewrite (proj2 (is_empty_false c) Hc). simpl. apply IH.
Qed.

Lemma explain_task_open r t rs :
  Forall (fun route => rt_ID route <> "") rs ->
  selected_ids (explain_task_loop r t rs "") = match_ids (cut (hits r t rs)).1.
Proof.
  induction 1 as [|route rs Hid Hrs IH]; [done|].
  rewrite hits_cons. simpl.
  pose proof (hit_cases r t route) as Hc.
  destruct (hit r t route) as [m|] eqn:E.
  - pose proof (hit_route _ _ _ _ E) as Hr. destruct Hc as (-> & H2 & ->).
    destruct (evaluateTarget r route t) as [b why]. simpl in H2. subst b. simpl.
    assert (exclusive m = rt_Exclusive route) as Hx by (unfold exclusive; by rewrite Hr).
    rewrite Hx. destruct (rt_Exclusive route).
    + rewrite selected_ids_cons, explain_task_claimed by done. simpl.
      unfold match_ids. simpl. by rewrite Hr.
    + rewrite selected_ids_cons, IH. simpl.
      destruct (cut (hits r t rs)); simpl. unfold match_ids. simpl. by rewrite Hr.
  - destruct (IsEventRoute route); [done|].
    destruct (evaluateTarget r route t) as [b why]. simpl.
    assert (b && match resolveMatch r route with Some _ => true | None => false end = false) as ->.
    { destruct b; simpl in *; [|done]. destruct (resolveMatch r route); naive_solver. }
    rewrite selected_ids_cons. simpl. apply IH.
Qed.

(** The explanation of a task is the decision: the routes it marks selected
    are exactly those [RouteAll] dispatches, in order (route ids are non-empty,
    as configuration validation requires). *)
Theorem ExplainTask_agrees (r : Router) (task : InternalTask) :
  Forall (fun route => rt_ID route <> "") (routes r) ->
  selected_ids (ExplainTask r task) = match_ids (RouteAll r task).
Proof.
  intros H. unfold ExplainTask, RouteAll, RouteAllWithSuppressed.
  rewrite explain_task_open by done. by rewrite route_all_loop_spec.
Qed.

Lemma explain_loop_found r t rs w :
  (explain_loop r t rs (Some w)).1 = Some w /\
  selected_ids (explain_loop r t rs (Some w)).2 = [].
Proof.
  induction rs as [|route rs [IH1 IH2]]; [done|]. simpl.
  destruct (IsEventRoute route); [done|].
  destruct (explain_loop r t rs (Some w)); simpl in *. by subst.
Qed.

Lemma explain_loop_spec r t rs :
  (explain_loop r t rs None).1 = route_loop r t rs /\
  selected_ids (explain_loop r t rs None).2 =
    option_list ((fun m => rt_ID (m_Route m)) <$> route_loop r t rs).
Proof.
  induction rs as [|route rs [IH1 IH2]]; [done|]. simpl.
  destruct (IsEventRoute route); [done|].
  destruct (evaluateTarget r route t) as [b why] eqn:E. simpl.
  unfold resolveMatch.
  destruct b; simpl; [destruct (negb (is_empty (rt_Agent route))); simpl;
    [|destruct (workers r !! rt_Worker route) as [w|]; simpl]|].
  3,4: destruct (explain_loop r t rs None); simpl in *; by subst.
  all: match goal with
    | |- context [explain_loop ?r ?t ?rs (Some ?m)] =>
        pose proof (explain_loop_found r t rs m) as [H1 H2];
        destruct (explain_loop r t rs (Some m)); simpl in *
    end; subst; split; [done|]; by rewrite selected_ids_cons, H2.
Qed.

(** [Explain] reports the very match [Route] returns, and marks at most one
    trace selected, that of the winning route. *)
Theorem Explain_agrees (r : Router) (cell : SourceItem) :
  (Explain r cell).1 = Route r cell /\
  selected_ids (Explain r cell).2 = option_list ((fun m => rt_ID (m_Route m)) <$> Route r cell).
Proof. apply explain_loop_spec. Qed.

(** ** Events *)

Definition allowed_associations (route : RouteConfig) : list string :=
  match rt_AuthorsAssociation route with
  | [] => DefaultEventAuthorAssociations
  | l => l
  end.

(** Who may fire an event trigger. *)
Record actor_gate (r : Router) (ev : SourceEvent) (task : option InternalTask)
    (route : RouteConfig) : Prop := {
  ag_kind : IsEventRoute route = true /\ rt_On route = ev_Kind ev;
  ag_source : rm_Source (rt_Match route) = "" \/ ev_SourceID ev = rm_Source (rt_Match route);
  ag_comment : forall re, commentRegexes r !! rt_ID route = Some re -> re (ev_Body ev) = true;
  ag_ignore : ~ mem_fold (ev_Author ev) (rt_IgnoreAuthors route);
  ag_author : (rt_Authors route <> [] /\ mem_fold (ev_Author ev) (rt_Authors route)) \/
              (rt_Authors route = [] /\
               mem_fold (ev_AuthorAssociation ev) (allowed_associations route));
  ag_pr_author : rt_PRAuthors route = [] \/
    (ev_PRAuthor ev <> "" /\ mem_fold (ev_PRAuthor ev) (rt_PRAuthors route));
  ag_item : hasItemCriteria (rt_Match route) = false \/
    exists tk, task = Some tk /\ accepts r (without_source route) (targetFromTask tk);
}.

Lemma existsb_fold x ss : existsb (fun a => equal_fold a x) ss = true <-> mem_fold x ss.
Proof.
  unfold mem_fold, equal_fold. rewrite existsb_elem. by setoid_rewrite bool_decide_eq_true.
Qed.

Lemma authorAllowed_spec route ev :
  (authorAllowed route ev).1 = true ->
  ~ mem_fold (ev_Author ev) (rt_IgnoreAuthors route) /\
  ((rt_Authors route <> [] /\ mem_fold (ev_Author ev) (rt_Authors route)) \/
   (rt_Authors route = [] /\ mem_fold (ev_AuthorAssociation ev) (allowed_associations route))).
Proof.
  unfold authorAllowed.
  destruct (existsb _ (rt_IgnoreAuthors route)) eqn:E1; [done|].
  assert (~ mem_fold (ev_Author ev) (rt_IgnoreAuthors route)) as Hi
    by (rewrite <- existsb_fold; congruence).
  destruct (rt_Authors route) as [|a as'] eqn:Ea; simpl nonempty; cbv iota.
  - fold (allowed_associations route).
    destruct (existsb _ (allowed_associations route)) eqn:E2; [|done].
    rewrite existsb_fold in E2. auto.
  - destruct (existsb _ (a :: as')) eqn:E2; [|done].
    rewrite existsb_fold in E2. auto.
Qed.

Lemma prAuthorAllowed_spec route ev :
  (prAuthorAllowed route ev).1 = true ->
  rt_PRAuthors route = [] \/ (ev_PRAuthor ev <> "" /\ mem_fold (ev_PRAuthor ev) (rt_PRAuthors route)).
Proof.
  unfold prAuthorAllowed. destruct (rt_PRAuthors route) as [|a l] eqn:E; [by left|].
  simpl negb at 1. cbv iota. destruct (_ && _) eqn:E2; [|done]. intros _. right.
  rewrite andb_true_iff, negb_true_iff, is_empty_false, existsb_fold in E2. done.
Qed.

Lemma evaluateEvent_spec r route ev task :
  IsEventRoute route = true -> (evaluateEvent r route ev task).1 = true ->
  actor_gate r ev task route.
Proof.
  intros Hev. unfold evaluateEvent.
  case_bool_decide as Hk; simpl negb; cbv iota; [|done].
  destruct (negb (is_empty _) && _) eqn:Hs; [done|].
  assert (rm_Source (rt_Match route) = "" \/ ev_SourceID ev = rm_Source (rt_Match route)) as Hs'.
  { rewrite andb_false_iff, !negb_false_iff, is_empty_true, bool_decide_eq_true in Hs. done. }
  destruct (match commentRegexes r !! rt_ID route with Some _ => _ | None => _ end) eqn:Hre; [done|].
  assert (forall re, commentRegexes r !! rt_ID route = Some re -> re (ev_Body ev) = true) as Hre'.
  { intros re Hlk. rewrite Hlk in Hre. by apply negb_false_iff. }
  destruct (authorAllowed route ev).1 eqn:Ha; simpl negb; cbv iota; [|congruence].
  destruct (prAuthorAllowed route ev).1 eqn:Hp; simpl negb; cbv iota; [|congruence].
  apply authorAllowed_spec in Ha as [Hi Ha]. apply prAuthorAllowed_spec in Hp.
  destruct (hasItemCriteria (rt_Match route)) eqn:Hc; [|by split; auto].
  destruct task as [tk|]; [|done].
  destruct (evaluateTarget r (without_source route) (targetFromTask tk)).1 eqn:Ht;
    simpl negb; cbv iota; [|congruence].
  intros _. split; auto. right. exists tk. split; [done|]. by apply evaluateTarget_spec.
Qed.

(** The actor gate is a security boundary: every workflow an event fires
    belongs to a trigger of the event's kind and source whose comment pattern
    matches the body, whose ignore list does not name the
    author, whose author list (or, without one, association list, collaborators
    by default) does, whose PR-author filter is satisfied by a known PR author,
    and whose item criteria hold of the related task. *)
Theorem RouteEvent_gate (r : Router) (ev : SourceEvent) (task : option InternalTask) (m : Match) :
  m ∈ RouteEvent r ev task ->
  m_Route m ∈ routes r /\ actor_gate r ev task (m_Route m).
Proof.
  unfold RouteEvent. induction (routes r) as [|route rs IH]; simpl.
  { by rewrite elem_of_nil. }
  assert (m ∈ route_event_loop r ev task rs ->
          m_Route m ∈ route :: rs /\ actor_gate r ev task (m_Route m)) as IH'.
  { intros [??]%IH. split; [by apply list_elem_of_further|done]. }
  destruct (IsEventRoute route) eqn:Hev; simpl; [|done].
  destruct (evaluateEvent r route ev task).1 eqn:He; simpl; [|done].
  destruct (resolveMatch r route) as [m'|] eqn:Hr; [|done].
  rewrite elem_of_cons. intros [->|Hin].
  - rewrite (resolveMatch_route _ _ _ Hr).
    split; [apply list_elem_of_here|by apply evaluateEvent_spec].
  - destruct (rt_Exclusive route); [by apply elem_of_nil in Hin|auto].
Qed.

(** ** Building the router *)

Section new.
Context {RT : GoRuntime} `{!Sorter route_le}.

Definition compiles (pat : string) : Prop := pat = "" \/ is_Some (regexp_compile pat).

Definition route_compiles (route : RouteConfig) : Prop :=
  compiles (rm_TitleRegex (rt_Match route)) /\ compiles (rt_CommentMatches route).

Lemma compile_regexes_ok rs res cres :
  is_ok (compile_regexes rs res cres) = true <-> Forall route_compiles rs.
Proof.
  revert res cres. induction rs as [|route rs IH]; intros res cres; simpl.
  { by split. }
  rewrite Forall_cons. unfold route_compiles at 1, compiles.
  destruct (is_empty (rm_TitleRegex _)) eqn:E1;
    [apply is_empty_true in E1|apply is_empty_false in E1;
     destruct (regexp_compile (rm_TitleRegex _))]; rsimpl.
  3: by split; [|intros [[[|[]] _] _]].
  all: destruct (is_empty (rt_CommentMatches _)) eqn:E2;
    [apply is_empty_true in E2|apply is_empty_false in E2;
     destruct (regexp_compile (rt_CommentMatches _))]; rsimpl;
    rewrite ?IH; naive_solver.
Qed.

Lemma firstAgentStep_nonempty wf : wc_ID wf <> "" -> firstAgentStep wf <> "".
Proof.
  intros Hid. unfold firstAgentStep.
  destruct (first_agent (wc_Steps wf)) as [a|] eqn:E; [simpl|done].
  revert E. induction (wc_Steps wf) as [|s ss IH]; simpl; [done|].
  intros H. guards H; auto; simplify_eq; by apply is_empty_false.
Qed.

Lemma trigger_route_resolves r route wfs :
  route ∈ trigger_routes wfs -> rt_ID route <> "" -> is_Some (resolveMatch r route).
Proof.
  unfold trigger_routes. rewrite list_elem_of_omap. intros (wf & _ & Hr) Hid.
  destruct (wc_Trigger wf) as [t|]; simplify_eq/=.
  unfold resolveMatch; simpl.
  rewrite (proj2 (is_empty_false _) (firstAgentStep_nonempty wf Hid)). by eexists.
Qed.

(** [New] fails exactly when some trigger's pattern does not compile; the
    router it builds holds one route per trigger, in ascending priority, and
    every route with an id resolves to an agent, so no matched trigger is
    silently dropped. *)
Theorem New_correct (cfg : Config) :
  (is_ok (New cfg) = true <-> Forall route_compiles (trigger_routes (cfg_Workflows cfg)))
  /\ forall r, New cfg = Ok r ->
       StronglySorted route_le (routes r)
       /\ routes r ≡ₚ trigger_routes (cfg_Workflows cfg)
       /\ forall route, route ∈ routes r -> rt_ID route <> "" -> is_Some (resolveMatch r route).
Proof.
  unfold New. split.
  - transitivity (Forall route_compiles (sort_by route_le (trigger_routes (cfg_Workflows cfg)))).
    + rewrite <- (compile_regexes_ok _ ∅ ∅). by destruct (compile_regexes _ _ _) as [[]|].
    + by rewrite sort_by_perm.
  - intros r Hr. destruct (compile_regexes _ _ _) as [[res cres]|]; rsimpl in Hr; [|done].
    simplify_eq/=. split_and!; [apply sort_by_sorted|apply sort_by_perm|].
    intros route. rewrite elem_of_sort_by. apply trigger_route_resolves.
Qed.
End new.

(** ** Running the router *)

Definition example_route (id : string) (labels : list string) (ex : bool) (on : string) : RouteConfig := {|
  rt_ID := id; rt_Priority := 1;
  rt_Match := {| rm_Source := ""; rm_Labels := labels; rm_Types := []; rm_TitleRegex := "";
                 rm_Priority := []; rm_States := []; rm_ExcludeLabels := [];
                 rm_ExcludeLabelPrefix := "" |};
  rt_Agent := "coder"; rt_Worker := ""; rt_Exclusive := ex; rt_Once := false; rt_On := on;
  rt_CommentMatches := ""; rt_Authors := []; rt_AuthorsAssociation := [];
  rt_IgnoreAuthors := ["ci-bot"]; rt_PRAuthors := []; rt_MaxDispatches := 0 |}.

Definition example_router : Router := {|
  routes := [example_route "bugs" ["Bug"] false ""; example_route "all" [] true "item";
             example_route "late" [] false ""; example_route "fix" [] false "pr_comment"];
  workers := ∅; regexes := ∅; commentRegexes := ∅ |}.

Definition example_task : InternalTask := {|
  it_ID := "t1"; it_ParentTaskID := ""; it_Title := "Crash"; it_Description := "";
  it_Metadata := {| md_Labels := ["bug"]; md_Priority := "high"; md_Type := "issue";
                    md_Source := "gh"; md_State := "open" |} |}.

Definition example_item : SourceItem := {|
  si_ID := "42"; si_SourceID := "gh"; si_Number := "#42"; si_Title := "Crash";
  si_Description := ""; si_Labels := ["bug"]; si_Type := "issue"; si_Priority := "high";
  si_State := "open"; si_URL := ""; si_Comments := [] |}.

Definition example_event : SourceEvent := {|
  ev_ID := "e1"; ev_SourceID := "gh"; ev_Kind := "pr_comment"; ev_PRNumber := 7; ev_PRURL := "";
  ev_PRAuthor := "bee"; ev_Author := "ana"; ev_AuthorAssociation := "member"; ev_Body := "/fix";
  ev_RelatedItemID := "" |}.

Lemma Route_agrees_with_RouteAll_witness :
  Route example_router example_item = head (RouteAll example_router example_task)
  /\ match_ids (RouteAll example_router example_task) = ["bugs"; "all"].
Proof.
  split; [|vm_compute; reflexivity].
  apply Route_agrees_with_RouteAll. vm_compute. reflexivity.
Defined.

Lemma ExplainTask_agrees_witness :
  selected_ids (ExplainTask example_router example_task) = ["bugs"; "all"].
Proof.
  rewrite ExplainTask_agrees; [vm_compute; reflexivity|].
  repeat (apply Forall_cons; split; [discriminate|]). apply Forall_nil. exact I.
Defined.

Definition example_match : Match :=
  {| m_Worker := None; m_Route := example_route "fix" [] false "pr_comment"; m_InstanceID := "" |}.

Lemma RouteEvent_gate_witness :
  actor_gate example_router example_event None (example_route "fix" [] false "pr_comment").
Proof.
  apply (RouteEvent_gate example_router example_event None example_match).
  vm_compute. apply list_elem_of_here.
Defined.
