(* ===== verification/Queue.v ===== *)
(** * The durable dispatch queue (src/internal/queue/queue.go and
    src/internal/db/queue_store.go)

    The three tables are maps from primary keys to rows; a nullable column is an
    [option] and a state column keeps the text the code stores. Every operation
    is one transaction: [Err e] is the error the method returns with the
    transaction rolled back, [Ok (a, db')] its result and the committed tables.

    The clock readings and the random identifiers an operation draws are
    arguments, one per call in the source. Times are nanoseconds since Go's zero
    time, so [IsZero] is equality with 0. The JSON list columns hold the lists
    they encode. *)

From S2P Require Import Prelude Model.
From stdpp Require Import base gmap strings list sorting.
From Stdlib Require Import ZArith.

(** ** Data (queue.go) *)

Definition WorkerProtocolVersion : Z := 1.

Definition second : Z := 10 ^ 9.

(** The values of [JobState]; the store writes ['leased'] where [JobLeased]
    reads ["running"]. *)
Definition JobQueued := "queued".
Definition JobLeased := "running".
Definition JobSucceeded := "done".
Definition JobFailed := "failed".
Definition JobCanceled := "canceled".
Definition sql_leased := "leased".

Definition AttemptActive := "active".
Definition AttemptSucceeded := "succeeded".
Definition AttemptFailed := "failed".
Definition AttemptExpired := "expired".
Definition AttemptCanceled := "canceled".

Inductive QueueError :=
  | ErrNoJob
  | ErrStaleClaim
  | ErrWorkerUnknown
  | ErrWorkerDraining
  | ErrWorkerUnhealthy
  | ErrKeyRequired
  | ErrPayloadVersion
  | ErrPayloadInvalid
  | ErrWorkerID
  | ErrProtocol (have : Z)
  | ErrCapacity
  | ErrNotCancelable (job : string)
  | ErrAffinityNotQueued (job : string)
  | ErrNoRows
  | ErrConstraint.

#[global] Instance QueueError_eq_dec : EqDecision QueueError.
Proof. solve_decision. Defined.

Record Job := {
  j_ID : string;
  j_IdempotencyKey : string;
  j_ProjectID : string;
  j_SourceID : string;
  j_TaskID : string;
  j_WorkflowID : string;
  j_AgentID : string;
  j_RunnerID : string;
  j_Pool : string;
  j_RequiredLabels : list string;
  j_RequiredCapabilities : list string;
  j_AffinityKey : string;
  j_AffinityWorkerID : string;
  j_PayloadVersion : Z;
  j_Payload : string;
  j_Priority : Z;
  j_State : string;
  j_AttemptCount : Z;
  j_MaxAttempts : Z;
  j_CancelRequested : bool;
  j_AvailableAt : Z;
  j_LeaseExpiresAt : option Z;
  j_CreatedAt : Z;
  j_UpdatedAt : Z;
}.

Record Attempt := {
  a_ID : string;
  a_JobID : string;
  a_Number : Z;
  a_WorkerID : string;
  a_ClaimToken : string;
  a_State : string;
  a_LeaseExpiresAt : Z;
  a_HeartbeatAt : Z;
  a_StartedAt : Z;
}.

Record Claim := { c_Job : Job; c_Attempt : Attempt }.

Record Worker := {
  w_ID : string;
  w_ProtocolVersion : Z;
  w_Pool : string;
  w_Labels : list string;
  w_Capabilities : list string;
  w_Capacity : Z;
  w_Ready : bool;
  w_Draining : bool;
  w_ActiveJobs : Z;
  w_LastHeartbeat : Z;
  w_RegisteredAt : Z;
}.

Record ConcurrencyPolicy := {
  DefaultProject : Z; Projects : gmap string Z;
  DefaultSource : Z; Sources : gmap string Z;
  DefaultAgent : Z; Agents : gmap string Z;
  DefaultRunner : Z; Runners : gmap string Z;
  DefaultPool : Z; Pools : gmap string Z;
}.

Record ClaimRequest := {
  cr_WorkerID : string;
  cr_LeaseDuration : Z;
  cr_WorkerTimeout : Z;
  cr_Policy : ConcurrencyPolicy;
}.

Record FinishResult := {
  fr_Success : bool;
  fr_Error : string;
  fr_Note : string;
  fr_Retry : bool;
  fr_RetryAt : option Z;
}.

(** ** Tables (schema.go) *)

(** The immutable dispatch snapshot of a [dispatch_jobs] row. *)
Record JobSnapshot := {
  sn_id : string;
  sn_idempotency_key : string;
  sn_project_id : option string;
  sn_source_id : option string;
  sn_task_id : option string;
  sn_workflow_id : option string;
  sn_agent_id : option string;
  sn_runner_id : option string;
  sn_pool : option string;
  sn_required_labels : list string;
  sn_required_capabilities : list string;
  sn_affinity_key : option string;
  sn_payload_version : Z;
  sn_payload : string;
  sn_priority : Z;
  sn_max_attempts : Z;
  sn_created_at : Z;
}.

(** A [dispatch_jobs] row: the snapshot and the scheduling columns. *)
Record JobRow := {
  jr_snap : JobSnapshot;
  jr_affinity_worker_id : option string;
  jr_state : string;
  jr_attempt_count : Z;
  jr_cancel_requested : bool;
  jr_available_at : Z;
  jr_lease_attempt_id : option string;
  jr_lease_token : option string;
  jr_lease_worker_id : option string;
  jr_lease_expires_at : option Z;
  jr_terminal_at : option Z;
  jr_updated_at : Z;
}.

Record AttemptRow := {
  ar_job_id : string;
  ar_attempt_number : Z;
  ar_worker_id : string;
  ar_claim_token : string;
  ar_state : string;
  ar_lease_expires_at : Z;
  ar_heartbeat_at : Z;
  ar_started_at : Z;
  ar_finished_at : option Z;
  ar_error_message : option string;
}.

Record WorkerRow := {
  wr_protocol_version : Z;
  wr_pool : option string;
  wr_labels : list string;
  wr_capabilities : list string;
  wr_capacity : Z;
  wr_ready : bool;
  wr_draining : bool;
  wr_active_jobs : Z;
  wr_last_heartbeat : Z;
  wr_registered_at : Z;
  wr_updated_at : Z;
}.

Record DB := {
  dispatch_jobs : gmap string JobRow;
  dispatch_attempts : gmap string AttemptRow;
  worker_registrations : gmap string WorkerRow;
}.

Definition empty_db : DB :=
  {| dispatch_jobs := ∅; dispatch_attempts := ∅; worker_registrations := ∅ |}.

Definition set_jobs (db : DB) (m : gmap string JobRow) : DB :=
  {| dispatch_jobs := m; dispatch_attempts := dispatch_attempts db;
     worker_registrations := worker_registrations db |}.
Definition set_attempts (db : DB) (m : gmap string AttemptRow) : DB :=
  {| dispatch_jobs := dispatch_jobs db; dispatch_attempts := m;
     worker_registrations := worker_registrations db |}.
Definition set_workers (db : DB) (m : gmap string WorkerRow) : DB :=
  {| dispatch_jobs := dispatch_jobs db; dispatch_attempts := dispatch_attempts db;
     worker_registrations := m |}.

(** [nullStr]: an empty string is stored as NULL; [COALESCE(x,'')] reads it
    back. *)
Definition nullStr (s : string) : option string := if is_empty s then None else Some s.
Definition coalesce (o : option string) : string := default "" o.

(** ** Reading rows *)

Definition scanJob (r : JobRow) : Job :=
  let s := jr_snap r in {|
  j_ID := sn_id s;
  j_IdempotencyKey := sn_idempotency_key s;
  j_ProjectID := coalesce (sn_project_id s);
  j_SourceID := coalesce (sn_source_id s);
  j_TaskID := coalesce (sn_task_id s);
  j_WorkflowID := coalesce (sn_workflow_id s);
  j_AgentID := coalesce (sn_agent_id s);
  j_RunnerID := coalesce (sn_runner_id s);
  j_Pool := coalesce (sn_pool s);
  j_RequiredLabels := sn_required_labels s;
  j_RequiredCapabilities := sn_required_capabilities s;
  j_AffinityKey := coalesce (sn_affinity_key s);
  j_AffinityWorkerID := coalesce (jr_affinity_worker_id r);
  j_PayloadVersion := sn_payload_version s;
  j_Payload := sn_payload s;
  j_Priority := sn_priority s;
  j_State := jr_state r;
  j_AttemptCount := jr_attempt_count r;
  j_MaxAttempts := sn_max_attempts s;
  j_CancelRequested := jr_cancel_requested r;
  j_AvailableAt := jr_available_at r;
  j_LeaseExpiresAt := jr_lease_expires_at r;
  j_CreatedAt := sn_created_at s;
  j_UpdatedAt := jr_updated_at r |}.

Definition scanWorker (id : string) (r : WorkerRow) : Worker := {|
  w_ID := id;
  w_ProtocolVersion := wr_protocol_version r;
  w_Pool := coalesce (wr_pool r);
  w_Labels := wr_labels r;
  w_Capabilities := wr_capabilities r;
  w_Capacity := wr_capacity r;
  w_Ready := wr_ready r;
  w_Draining := wr_draining r;
  w_ActiveJobs := wr_active_jobs r;
  w_LastHeartbeat := wr_last_heartbeat r;
  w_RegisteredAt := wr_registered_at r |}.

(** ** Helpers of queue_store.go *)

(** Trimmed, without blanks and duplicates, sorted. *)
Definition uniqueSorted (values : list string) : list string :=
  let trimmed := List.filter (fun v => negb (is_empty v)) (trim_space <$> values) in
  sort_strings (elements (list_to_set trimmed : gset string)).

Definition containsAll (have need : list string) : bool :=
  let set : gset string := list_to_set have in
  forallb (fun v => bool_decide (v ∈ set)) need.

Definition compatible (worker : Worker) (job : Job) : bool :=
  if negb (is_empty (j_Pool job)) && negb (bool_decide (j_Pool job = w_Pool worker)) then false
  else containsAll (w_Labels worker) (j_RequiredLabels job)
       && containsAll (w_Capabilities worker) (j_RequiredCapabilities job).

Definition scopedLimit (overrides : gmap string Z) (value : string) (fallback : Z) : Z :=
  default fallback (overrides !! value).

Record policyCheck := {
  pc_field : JobSnapshot -> option string; pc_value : string; pc_limit : Z
}.

Definition policyChecks (job : Job) (p : ConcurrencyPolicy) : list policyCheck := [
  {| pc_field := sn_project_id; pc_value := j_ProjectID job;
     pc_limit := scopedLimit (Projects p) (j_ProjectID job) (DefaultProject p) |};
  {| pc_field := sn_source_id; pc_value := j_SourceID job;
     pc_limit := scopedLimit (Sources p) (j_SourceID job) (DefaultSource p) |};
  {| pc_field := sn_agent_id; pc_value := j_AgentID job;
     pc_limit := scopedLimit (Agents p) (j_AgentID job) (DefaultAgent p) |};
  {| pc_field := sn_runner_id; pc_value := j_RunnerID job;
     pc_limit := scopedLimit (Runners p) (j_RunnerID job) (DefaultRunner p) |};
  {| pc_field := sn_pool; pc_value := j_Pool job;
     pc_limit := scopedLimit (Pools p) (j_Pool job) (DefaultPool p) |}].

(** [SELECT COUNT( * ) FROM dispatch_jobs WHERE state='leased' AND field=value]. *)
Definition activeIn (db : DB) (field : JobSnapshot -> option string) (value : string) : Z :=
  Z.of_nat (count_rows (fun r => bool_decide (jr_state r = sql_leased)
                                 && bool_decide (field (jr_snap r) = Some value))
                       (dispatch_jobs db)).

Definition withinPolicy (db : DB) (job : Job) (p : ConcurrencyPolicy) : bool :=
  forallb (fun c =>
    if (pc_limit c <=? 0)%Z || is_empty (pc_value c) then true
    else negb (pc_limit c <=? activeIn db (pc_field c) (pc_value c))%Z)
    (policyChecks job p).

(** ** Producers *)

Definition with_id (job : Job) (id : string) (max avail : Z) : Job := {|
  j_ID := id; j_IdempotencyKey := j_IdempotencyKey job; j_ProjectID := j_ProjectID job;
  j_SourceID := j_SourceID job; j_TaskID := j_TaskID job; j_WorkflowID := j_WorkflowID job;
  j_AgentID := j_AgentID job; j_RunnerID := j_RunnerID job; j_Pool := j_Pool job;
  j_RequiredLabels := j_RequiredLabels job;
  j_RequiredCapabilities := j_RequiredCapabilities job;
  j_AffinityKey := j_AffinityKey job; j_AffinityWorkerID := j_AffinityWorkerID job;
  j_PayloadVersion := j_PayloadVersion job; j_Payload := j_Payload job;
  j_Priority := j_Priority job; j_State := j_State job; j_AttemptCount := j_AttemptCount job;
  j_MaxAttempts := max; j_CancelRequested := j_CancelRequested job; j_AvailableAt := avail;
  j_LeaseExpiresAt := j_LeaseExpiresAt job; j_CreatedAt := j_CreatedAt job;
  j_UpdatedAt := j_UpdatedAt job |}.

(** The row [Enqueue] inserts. *)
Definition newJobRow (job : Job) (now : Z) : JobRow := {|
  jr_snap := {|
    sn_id := j_ID job;
    sn_idempotency_key := j_IdempotencyKey job;
    sn_project_id := nullStr (j_ProjectID job);
    sn_source_id := nullStr (j_SourceID job);
    sn_task_id := nullStr (j_TaskID job);
    sn_workflow_id := nullStr (j_WorkflowID job);
    sn_agent_id := nullStr (j_AgentID job);
    sn_runner_id := nullStr (j_RunnerID job);
    sn_pool := nullStr (j_Pool job);
    sn_required_labels := uniqueSorted (j_RequiredLabels job);
    sn_required_capabilities := uniqueSorted (j_RequiredCapabilities job);
    sn_affinity_key := nullStr (j_AffinityKey job);
    sn_payload_version := j_PayloadVersion job;
    sn_payload := j_Payload job;
    sn_priority := j_Priority job;
    sn_max_attempts := j_MaxAttempts job;
    sn_created_at := now |};
  jr_affinity_worker_id := nullStr (j_AffinityWorkerID job);
  jr_state := JobQueued;
  jr_attempt_count := 0;
  jr_cancel_requested := false;
  jr_available_at := j_AvailableAt job;
  jr_lease_attempt_id := None;
  jr_lease_token := None;
  jr_lease_worker_id := None;
  jr_lease_expires_at := None;
  jr_terminal_at := None;
  jr_updated_at := now |}.

(** The row holding an idempotency key ([UNIQUE]), if any. *)
Definition row_by_key (db : DB) (key : string) : option JobRow :=
  List.find (fun r => bool_decide (sn_idempotency_key (jr_snap r) = key)) (rows (dispatch_jobs db)).

Definition getJobByKey (db : DB) (key : string) : result QueueError Job :=
  match row_by_key db key with
  | Some r => Ok (scanJob r)
  | None => Err ErrNoRows
  end.

Section enqueue.
Context {RT : GoRuntime}.

(** [Enqueue]: the result is [inserted] and the caller's job as the method
    leaves it. [INSERT OR IGNORE] skips the row when its id or its
    idempotency key is taken. [freshID] is [randomQueueID("job")]. *)
Definition Enqueue (freshID : string) (now : Z) (job : Job) (db : DB)
    : result QueueError (bool * Job * DB) :=
  if is_empty (trim_space (j_IdempotencyKey job)) then Err ErrKeyRequired
  else
    let id := if is_empty (j_ID job) then freshID else j_ID job in
    if (j_PayloadVersion job <=? 0)%Z then Err ErrPayloadVersion
    else if negb (json_valid (j_Payload job)) then Err ErrPayloadInvalid
    else
      let max := if (j_MaxAttempts job <=? 0)%Z then 3%Z else j_MaxAttempts job in
      let avail := if (j_AvailableAt job =? 0)%Z then now else j_AvailableAt job in
      let job1 := with_id job id max avail in
      if bool_decide (is_Some (dispatch_jobs db !! id))
         || bool_decide (is_Some (row_by_key db (j_IdempotencyKey job))) then
        existing ← getJobByKey db (j_IdempotencyKey job);
        Ok (false, existing, db)
      else
        let r := newJobRow job1 now in
        Ok (true, {|
          j_ID := id; j_IdempotencyKey := j_IdempotencyKey job; j_ProjectID := j_ProjectID job;
          j_SourceID := j_SourceID job; j_TaskID := j_TaskID job;
          j_WorkflowID := j_WorkflowID job; j_AgentID := j_AgentID job;
          j_RunnerID := j_RunnerID job; j_Pool := j_Pool job;
          j_RequiredLabels := uniqueSorted (j_RequiredLabels job);
          j_RequiredCapabilities := uniqueSorted (j_RequiredCapabilities job);
          j_AffinityKey := j_AffinityKey job; j_AffinityWorkerID := j_AffinityWorkerID job;
          j_PayloadVersion := j_PayloadVersion job; j_Payload := j_Payload job;
          j_Priority := j_Priority job; j_State := JobQueued; j_AttemptCount := 0;
          j_MaxAttempts := max; j_CancelRequested := false; j_AvailableAt := avail;
          j_LeaseExpiresAt := j_LeaseExpiresAt job; j_CreatedAt := now; j_UpdatedAt := now |},
          set_jobs db (<[id := r]> (dispatch_jobs db))).
End enqueue.

(** ** Workers *)

Definition RegisterWorker (now : Z) (worker : Worker) (db : DB) : result QueueError (Worker * DB) :=
  if is_empty (trim_space (w_ID worker)) then Err ErrWorkerID
  else if negb (w_ProtocolVersion worker =? WorkerProtocolVersion)%Z then
    Err (ErrProtocol (w_ProtocolVersion worker))
  else if (w_Capacity worker <=? 0)%Z then Err ErrCapacity
  else
    let registered := match worker_registrations db !! w_ID worker with
                      | Some old => wr_registered_at old
                      | None => now
                      end in
    let row := {|
      wr_protocol_version := w_ProtocolVersion worker;
      wr_pool := nullStr (w_Pool worker);
      wr_labels := uniqueSorted (w_Labels worker);
      wr_capabilities := uniqueSorted (w_Capabilities worker);
      wr_capacity := w_Capacity worker;
      wr_ready := w_Ready worker;
      wr_draining := w_Draining worker;
      wr_active_jobs := 0;
      wr_last_heartbeat := now;
      wr_registered_at := registered;
      wr_updated_at := now |} in
    Ok ({| w_ID := w_ID worker; w_ProtocolVersion := w_ProtocolVersion worker;
           w_Pool := w_Pool worker; w_Labels := w_Labels worker;
           w_Capabilities := w_Capabilities worker; w_Capacity := w_Capacity worker;
           w_Ready := w_Ready worker; w_Draining := w_Draining worker;
           w_ActiveJobs := w_ActiveJobs worker; w_LastHeartbeat := now; w_RegisteredAt := now |},
        set_workers db (<[w_ID worker := row]> (worker_registrations db))).

(** [requireWorkerRow]. *)
Definition requireWorkerRow (db : DB) (res : gmap string WorkerRow * nat) : result QueueError DB :=
  if (res.2 =? 0)%nat then Err ErrWorkerUnknown else Ok (set_workers db res.1).

(** The worker columns an [UPDATE worker_registrations] may set. *)
Definition worker_cols (ready draining : bool) (active heartbeat updated : Z) (r : WorkerRow)
    : WorkerRow := {|
  wr_protocol_version := wr_protocol_version r; wr_pool := wr_pool r; wr_labels := wr_labels r;
  wr_capabilities := wr_capabilities r; wr_capacity := wr_capacity r; wr_ready := ready;
  wr_draining := draining; wr_active_jobs := active; wr_last_heartbeat := heartbeat;
  wr_registered_at := wr_registered_at r; wr_updated_at := updated |}.

Definition HeartbeatWorker (now1 now2 : Z) (workerID : string) (ready : bool) (db : DB)
    : result QueueError DB :=
  requireWorkerRow db
    (update_at workerID (fun _ => true)
       (fun r => worker_cols ready (wr_draining r) (wr_active_jobs r) now1 now2 r)
       (worker_registrations db)).

Definition SetWorkerDrain (now : Z) (workerID : string) (draining : bool) (db : DB)
    : result QueueError DB :=
  requireWorkerRow db
    (update_at workerID (fun _ => true)
       (fun r => worker_cols (negb draining) draining (wr_active_jobs r) (wr_last_heartbeat r) now r)
       (worker_registrations db)).

(** [active_jobs=active_jobs+1]. *)
Definition bump_worker (now : Z) (workerID : string) (db : DB) : DB :=
  set_workers db
    (update_at workerID (fun _ => true)
       (fun r => worker_cols (wr_ready r) (wr_draining r) (wr_active_jobs r + 1)
                   (wr_last_heartbeat r) now r) (worker_registrations db)).1.

(** [active_jobs=CASE WHEN active_jobs>0 THEN active_jobs-1 ELSE 0 END]. *)
Definition release_worker (now : Z) (workerID : string) (db : DB) : DB :=
  set_workers db
    (update_at workerID (fun _ => true)
       (fun r => worker_cols (wr_ready r) (wr_draining r)
                   (if (0 <? wr_active_jobs r)%Z then wr_active_jobs r - 1 else 0)
                   (wr_last_heartbeat r) now r) (worker_registrations db)).1.

(** ** Claiming *)

(** [ORDER BY priority DESC, created_at ASC]. *)
Definition claim_order (a b : JobRow) : Prop :=
  (sn_priority (jr_snap b) < sn_priority (jr_snap a))%Z \/
  (sn_priority (jr_snap a) = sn_priority (jr_snap b) /\
   (sn_created_at (jr_snap a) <= sn_created_at (jr_snap b))%Z).

#[global] Instance claim_order_dec : RelDecision claim_order.
Proof. intros a b. unfold claim_order. apply _. Defined.
#[global] Instance claim_order_trans : Transitive claim_order.
Proof. intros a b c. unfold claim_order. lia. Qed.
#[global] Instance claim_order_total : Total claim_order.
Proof. intros a b. unfold claim_order. lia. Qed.

(** The [WHERE] of the candidate query. *)
Definition claimable (now : Z) (workerID : string) (r : JobRow) : bool :=
  bool_decide (jr_state r = JobQueued)
  && negb (jr_cancel_requested r)
  && (jr_available_at r <=? now)%Z
  && match jr_affinity_worker_id r with
     | None => true
     | Some w => is_empty w || bool_decide (w = workerID)
     end.

(** The [UPDATE dispatch_jobs] of [claim]. *)
Definition lease_row (attemptID token workerID : string) (expires now : Z) (r : JobRow) : JobRow := {|
  jr_snap := jr_snap r;
  jr_affinity_worker_id :=
    if negb (is_empty (coalesce (sn_affinity_key (jr_snap r))))
       && is_empty (coalesce (jr_affinity_worker_id r))
    then Some workerID else jr_affinity_worker_id r;
  jr_state := sql_leased;
  jr_attempt_count := jr_attempt_count r + 1;
  jr_cancel_requested := jr_cancel_requested r;
  jr_available_at := jr_available_at r;
  jr_lease_attempt_id := Some attemptID;
  jr_lease_token := Some token;
  jr_lease_worker_id := Some workerID;
  jr_lease_expires_at := Some expires;
  jr_terminal_at := jr_terminal_at r;
  jr_updated_at := now |}.

(** What a claim draws from its environment, in order: the two [time.Now()]
    readings of the checks, the one that stamps the lease, and the two random
    identifiers. *)
Record ClaimEnv := {
  ce_health : Z; ce_query : Z; ce_now : Z; ce_attemptID : string; ce_claimToken : string
}.

Definition attempt_conflict (db : DB) (id jobID : string) (number : Z) : bool :=
  bool_decide (is_Some (dispatch_attempts db !! id))
  || existsb (fun a => bool_decide (ar_job_id a = jobID) && (ar_attempt_number a =? number)%Z)
       (rows (dispatch_attempts db)).

Section claim.
Context `{!Sorter claim_order}.

(** The first 100 candidates, in dispatch order. *)
Definition candidates (now : Z) (workerID : string) (db : DB) : list JobRow :=
  take 100 (sort_by claim_order (List.filter (claimable now workerID) (rows (dispatch_jobs db)))).

(** The [for rows.Next()] loop: the first compatible job the policy admits. *)
Definition selectJob (db : DB) (worker : Worker) (p : ConcurrencyPolicy) (rs : list JobRow)
    : option Job :=
  List.find (fun job => compatible worker job && withinPolicy db job p) (scanJob <$> rs).

Definition claimedJob (job : Job) (workerID : string) (expires now : Z) : Job := {|
  j_ID := j_ID job; j_IdempotencyKey := j_IdempotencyKey job; j_ProjectID := j_ProjectID job;
  j_SourceID := j_SourceID job; j_TaskID := j_TaskID job; j_WorkflowID := j_WorkflowID job;
  j_AgentID := j_AgentID job; j_RunnerID := j_RunnerID job; j_Pool := j_Pool job;
  j_RequiredLabels := j_RequiredLabels job;
  j_RequiredCapabilities := j_RequiredCapabilities job;
  j_AffinityKey := j_AffinityKey job;
  j_AffinityWorkerID := if negb (is_empty (j_AffinityKey job)) && is_empty (j_AffinityWorkerID job)
                        then workerID else j_AffinityWorkerID job;
  j_PayloadVersion := j_PayloadVersion job; j_Payload := j_Payload job;
  j_Priority := j_Priority job; j_State := JobLeased;
  j_AttemptCount := j_AttemptCount job + 1; j_MaxAttempts := j_MaxAttempts job;
  j_CancelRequested := j_CancelRequested job; j_AvailableAt := j_AvailableAt job;
  j_LeaseExpiresAt := Some expires; j_CreatedAt := j_CreatedAt job; j_UpdatedAt := now |}.

Definition claim (env : ClaimEnv) (request : ClaimRequest) (db : DB)
    : result QueueError (Claim * DB) :=
  let lease := if (cr_LeaseDuration request <=? 0)%Z then (30 * second)%Z
               else cr_LeaseDuration request in
  let timeout := if (cr_WorkerTimeout request <=? 0)%Z then (30 * second)%Z
                 else cr_WorkerTimeout request in
  match worker_registrations db !! cr_WorkerID request with
  | None => Err ErrWorkerUnknown
  | Some wrow =>
    let worker := scanWorker (cr_WorkerID request) wrow in
    if negb (w_Ready worker) || w_Draining worker then Err ErrWorkerDraining
    else if (w_LastHeartbeat worker <? ce_health env - timeout)%Z then Err ErrWorkerUnhealthy
    else if (w_Capacity worker <=? w_ActiveJobs worker)%Z then Err ErrNoJob
    else
      match selectJob db worker (cr_Policy request)
              (candidates (ce_query env) (w_ID worker) db) with
      | None => Err ErrNoJob
      | Some selected =>
        let now := ce_now env in
        let expires := (now + lease)%Z in
        let upd := update_at (j_ID selected)
                     (fun r => bool_decide (jr_state r = JobQueued) && negb (jr_cancel_requested r))
                     (lease_row (ce_attemptID env) (ce_claimToken env) (w_ID worker) expires now)
                     (dispatch_jobs db) in
        if negb (upd.2 =? 1)%nat then Err ErrNoJob
        else
          let number := (j_AttemptCount selected + 1)%Z in
          if attempt_conflict db (ce_attemptID env) (j_ID selected) number then Err ErrConstraint
          else
            let arow := {|
              ar_job_id := j_ID selected; ar_attempt_number := number;
              ar_worker_id := w_ID worker; ar_claim_token := ce_claimToken env;
              ar_state := AttemptActive; ar_lease_expires_at := expires;
              ar_heartbeat_at := now; ar_started_at := now;
              ar_finished_at := None; ar_error_message := None |} in
            let db1 := set_jobs db upd.1 in
            let db2 := set_attempts db1 (<[ce_attemptID env := arow]> (dispatch_attempts db1)) in
            let db3 := bump_worker now (w_ID worker) db2 in
            Ok ({| c_Job := claimedJob selected (w_ID worker) expires now;
                   c_Attempt := {|
                     a_ID := ce_attemptID env; a_JobID := j_ID selected; a_Number := number;
                     a_WorkerID := w_ID worker; a_ClaimToken := ce_claimToken env;
                     a_State := AttemptActive; a_LeaseExpiresAt := expires;
                     a_HeartbeatAt := now; a_StartedAt := now |} |}, db3)
      end
  end.
End claim.

(** ** Leases *)

(** The fence: does the row hold exactly this lease? *)
Definition holds_lease (attemptID token : string) (r : JobRow) : bool :=
  bool_decide (jr_lease_attempt_id r = Some attemptID)
  && bool_decide (jr_lease_token r = Some token).

Definition extend_row (expires now : Z) (r : JobRow) : JobRow := {|
  jr_snap := jr_snap r; jr_affinity_worker_id := jr_affinity_worker_id r;
  jr_state := jr_state r; jr_attempt_count := jr_attempt_count r;
  jr_cancel_requested := jr_cancel_requested r; jr_available_at := jr_available_at r;
  jr_lease_attempt_id := jr_lease_attempt_id r; jr_lease_token := jr_lease_token r;
  jr_lease_worker_id := jr_lease_worker_id r; jr_lease_expires_at := Some expires;
  jr_terminal_at := jr_terminal_at r; jr_updated_at := now |}.

Definition extend_attempt (heartbeat expires : Z) (a : AttemptRow) : AttemptRow := {|
  ar_job_id := ar_job_id a; ar_attempt_number := ar_attempt_number a;
  ar_worker_id := ar_worker_id a; ar_claim_token := ar_claim_token a; ar_state := ar_state a;
  ar_lease_expires_at := expires; ar_heartbeat_at := heartbeat;
  ar_started_at := ar_started_at a; ar_finished_at := ar_finished_at a;
  ar_error_message := ar_error_message a |}.

Record HeartbeatResult := { hr_LeaseExpiresAt : Z; hr_CancelRequested : bool }.

(** [now] and [base] are the two [time.Now()] readings of [heartbeat]. *)
Definition heartbeat (now base : Z) (jobID attemptID token : string) (extension : Z) (db : DB)
    : result QueueError (HeartbeatResult * DB) :=
  let ext := if (extension <=? 0)%Z then (30 * second)%Z else extension in
  let expires := (base + ext)%Z in
  let upd := update_at attemptID
               (fun a => bool_decide (ar_job_id a = jobID)
                         && bool_decide (ar_claim_token a = token)
                         && bool_decide (ar_state a = AttemptActive))
               (extend_attempt now expires) (dispatch_attempts db) in
  if negb (upd.2 =? 1)%nat then Err ErrStaleClaim
  else
    match dispatch_jobs db !! jobID with
    | Some r =>
        if bool_decide (jr_state r = sql_leased) && holds_lease attemptID token r then
          let db1 := set_attempts db upd.1 in
          Ok ({| hr_LeaseExpiresAt := expires; hr_CancelRequested := jr_cancel_requested r |},
              set_jobs db1 (<[jobID := extend_row expires now r]> (dispatch_jobs db1)))
        else Err ErrStaleClaim
    | None => Err ErrStaleClaim
    end.

(** The [UPDATE dispatch_jobs] that gives up a lease. *)
Definition settle_row (state : string) (available : Z) (terminal : option Z) (now : Z) (r : JobRow)
    : JobRow := {|
  jr_snap := jr_snap r; jr_affinity_worker_id := jr_affinity_worker_id r;
  jr_state := state; jr_attempt_count := jr_attempt_count r;
  jr_cancel_requested := jr_cancel_requested r; jr_available_at := available;
  jr_lease_attempt_id := None; jr_lease_token := None; jr_lease_worker_id := None;
  jr_lease_expires_at := None; jr_terminal_at := terminal; jr_updated_at := now |}.

Definition settle_attempt (state : string) (now : Z) (msg : option string) (a : AttemptRow)
    : AttemptRow := {|
  ar_job_id := ar_job_id a; ar_attempt_number := ar_attempt_number a;
  ar_worker_id := ar_worker_id a; ar_claim_token := ar_claim_token a; ar_state := state;
  ar_lease_expires_at := ar_lease_expires_at a; ar_heartbeat_at := ar_heartbeat_at a;
  ar_started_at := ar_started_at a; ar_finished_at := Some now; ar_error_message := msg |}.

(** The outcome of an attempt: attempt state, job state and when the job may run
    again. *)
Definition finish_outcome (now : Z) (canceled : bool) (attempts maxAttempts : Z) (res : FinishResult)
    : string * string * Z :=
  if canceled then (AttemptCanceled, JobCanceled, now)
  else if fr_Success res then (AttemptSucceeded, JobSucceeded, now)
  else if fr_Retry res && (attempts <? maxAttempts)%Z then
    (AttemptFailed, JobQueued, default now (fr_RetryAt res))
  else (AttemptFailed, JobFailed, now).

Definition terminal_state (s : string) : bool :=
  bool_decide (s = JobSucceeded) || bool_decide (s = JobFailed) || bool_decide (s = JobCanceled).

Definition finish (now : Z) (jobID attemptID token : string) (res : FinishResult) (db : DB)
    : result QueueError DB :=
  match dispatch_jobs db !! jobID with
  | Some r =>
      if bool_decide (jr_state r = sql_leased) && holds_lease attemptID token r then
        let workerID := coalesce (jr_lease_worker_id r) in
        let '(attemptState, jobState, available) :=
          finish_outcome now (jr_cancel_requested r) (jr_attempt_count r)
            (sn_max_attempts (jr_snap r)) res in
        let explanation := if is_empty (fr_Error res) then fr_Note res else fr_Error res in
        let db1 := set_attempts db
          (update_at attemptID
             (fun a => bool_decide (ar_claim_token a = token) && bool_decide (ar_state a = AttemptActive))
             (settle_attempt attemptState now (nullStr explanation)) (dispatch_attempts db)).1 in
        let terminal := if terminal_state jobState then Some now else None in
        let db2 := set_jobs db1
          (update_at jobID (holds_lease attemptID token)
             (settle_row jobState available terminal now) (dispatch_jobs db1)).1 in
        Ok (release_worker now workerID db2)
      else Err ErrStaleClaim
  | None => Err ErrStaleClaim
  end.

(** ** Cancellation and affinity *)

Definition cancelable (r : JobRow) : bool :=
  bool_decide (jr_state r = JobQueued) || bool_decide (jr_state r = sql_leased).

Definition cancel_row (now : Z) (r : JobRow) : JobRow :=
  let queued := bool_decide (jr_state r = JobQueued) in {|
  jr_snap := jr_snap r; jr_affinity_worker_id := jr_affinity_worker_id r;
  jr_state := if queued then JobCanceled else jr_state r;
  jr_attempt_count := jr_attempt_count r; jr_cancel_requested := true;
  jr_available_at := jr_available_at r; jr_lease_attempt_id := jr_lease_attempt_id r;
  jr_lease_token := jr_lease_token r; jr_lease_worker_id := jr_lease_worker_id r;
  jr_lease_expires_at := jr_lease_expires_at r;
  jr_terminal_at := if queued then Some now else jr_terminal_at r; jr_updated_at := now |}.

Definition RequestCancel (now : Z) (jobID : string) (db : DB) : result QueueError DB :=
  let upd := update_at jobID cancelable (cancel_row now) (dispatch_jobs db) in
  if (upd.2 =? 0)%nat then Err (ErrNotCancelable jobID) else Ok (set_jobs db upd.1).

Definition RequestCancelFor (now : Z) (taskID workflowID : string) (db : DB) : nat * DB :=
  let upd := update_where
    (fun r => bool_decide (sn_task_id (jr_snap r) = Some taskID)
              && bool_decide (sn_workflow_id (jr_snap r) = Some workflowID) && cancelable r)
    (cancel_row now) (dispatch_jobs db) in
  (upd.2, set_jobs db upd.1).

Definition release_row (now : Z) (r : JobRow) : JobRow := {|
  jr_snap := jr_snap r; jr_affinity_worker_id := None; jr_state := jr_state r;
  jr_attempt_count := jr_attempt_count r; jr_cancel_requested := jr_cancel_requested r;
  jr_available_at := jr_available_at r; jr_lease_attempt_id := jr_lease_attempt_id r;
  jr_lease_token := jr_lease_token r; jr_lease_worker_id := jr_lease_worker_id r;
  jr_lease_expires_at := jr_lease_expires_at r; jr_terminal_at := jr_terminal_at r;
  jr_updated_at := now |}.

Definition ReleaseAffinity (now : Z) (jobID : string) (db : DB) : result QueueError DB :=
  let upd := update_at jobID (fun r => bool_decide (jr_state r = JobQueued)) (release_row now)
               (dispatch_jobs db) in
  if negb (upd.2 =? 1)%nat then Err (ErrAffinityNotQueued jobID) else Ok (set_jobs db upd.1).

(** ** Expired leases *)

Record expired := {
  ex_jobID : string; ex_attemptID : string; ex_workerID : string;
  ex_attempts : Z; ex_max : Z; ex_canceled : bool
}.

Definition expired_of (r : JobRow) : expired := {|
  ex_jobID := sn_id (jr_snap r); ex_attemptID := coalesce (jr_lease_attempt_id r);
  ex_workerID := coalesce (jr_lease_worker_id r); ex_attempts := jr_attempt_count r;
  ex_max := sn_max_attempts (jr_snap r); ex_canceled := jr_cancel_requested r |}.

Definition is_expired (cutoff : Z) (r : JobRow) : bool :=
  bool_decide (jr_state r = sql_leased)
  && match jr_lease_expires_at r with
     | Some e => (e <=? cutoff)%Z
     | None => false
     end.

Definition expired_state (now : Z) (item : expired) : string * option Z :=
  if ex_canceled item then (JobCanceled, Some now)
  else if (ex_max item <=? ex_attempts item)%Z then (JobFailed, Some now)
  else (JobQueued, None).

(** One pass of the loop over the expired leases. *)
Definition reclaim_one (now : Z) (item : expired) (db : DB) : nat * DB :=
  let db1 := set_attempts db
    (update_at (ex_attemptID item) (fun a => bool_decide (ar_state a = AttemptActive))
       (settle_attempt AttemptExpired now (Some "lease expired")) (dispatch_attempts db)).1 in
  let upd := update_at (ex_jobID item)
    (fun r => bool_decide (jr_state r = sql_leased)
              && bool_decide (jr_lease_attempt_id r = Some (ex_attemptID item)))
    (settle_row (expired_state now item).1 now (expired_state now item).2 now) (dispatch_jobs db1) in
  if (upd.2 =? 0)%nat then (0, db1)
  else (1, release_worker now (ex_workerID item) (set_jobs db1 upd.1)).

Definition reclaim_acc (now : Z) (acc : nat * DB) (item : expired) : nat * DB :=
  (acc.1 + (reclaim_one now item acc.2).1, (reclaim_one now item acc.2).2).

Definition reclaim_loop (now : Z) (items : list expired) (db : DB) : nat * DB :=
  foldl (reclaim_acc now) (0, db) items.

Definition reclaimExpired (now cutoff : Z) (db : DB) : nat * DB :=
  reclaim_loop now (expired_of <$> List.filter (is_expired cutoff) (rows (dispatch_jobs db))) db.

(** ** Queries *)

Definition GetJob (id : string) (db : DB) : result QueueError Job :=
  match dispatch_jobs db !! id with
  | Some r => Ok (scanJob r)
  | None => Err ErrNoRows
  end.

(** [ORDER BY created_at DESC]. *)
Definition newest_first (a b : JobRow) : Prop :=
  (sn_created_at (jr_snap b) <= sn_created_at (jr_snap a))%Z.

#[global] Instance newest_first_dec : RelDecision newest_first.
Proof. intros a b. unfold newest_first. apply _. Defined.
#[global] Instance newest_first_trans : Transitive newest_first.
Proof. intros a b c. unfold newest_first. lia. Qed.
#[global] Instance newest_first_total : Total newest_first.
Proof. intros a b. unfold newest_first. lia. Qed.

Definition ListJobs `{!Sorter newest_first} (state : string) (limit : Z) (db : DB) : list Job :=
  let limit := if (limit <=? 0)%Z then 100%Z else limit in
  let limit := if (1000 <? limit)%Z then 1000%Z else limit in
  let selected := List.filter (fun r => is_empty state || bool_decide (jr_state r = state))
                    (rows (dispatch_jobs db)) in
  scanJob <$> take (Z.to_nat limit) (sort_by newest_first selected).

(** [ORDER BY id]; [id] is the primary key, so the order is total. *)
Definition ListWorkers (db : DB) : list Worker :=
  omap (fun id => scanWorker id <$> worker_registrations db !! id)
    (sort_strings (map_to_list (worker_registrations db)).*1).

(** ** Lock contention (src/internal/db/busy.go) *)

Section busy.
Context {S E A : Type} (isBusy : E -> bool) (ctx_err : E) (ctx_done : nat -> bool).
(** One run of the transaction; its index stands for what differs between
    runs (the clock, the random identifiers, the competing writers). *)
Context (op : nat -> S -> result E A * S).

Definition busyRetryDelays : list Z := [5; 20; 80; 200]%Z.

Fixpoint retry_loop (attempt : nat) (delays : list Z) (res : result E A * S) : result E A * S :=
  match delays with
  | [] => res
  | _ :: delays =>
      match res.1 with
      | Err e =>
          if isBusy e then
            if ctx_done attempt then (Err ctx_err, res.2)
            else retry_loop (Datatypes.S attempt) delays (op (Datatypes.S attempt) res.2)
          else res
      | Ok _ => res
      end
  end.

Definition retryOnBusy (s : S) : result E A * S :=
  retry_loop 0 busyRetryDelays (op 0 s).
End busy.
