(* ===== verification/QueueFacts.v ===== *)
(** * The dispatch queue: invariant, fencing, refinement, accounting

    [exec] runs one method of the store as a committed transaction and
    [reachable] closes the empty database under any interleaving of them (the
    transactions are serialised by [_txlock=immediate]). The invariant [Inv] is
    per job, so that an operation on one job leaves the others alone by the
    frame lemma. *)

From S2P Require Import Prelude Model Queue.
From stdpp Require Import base gmap strings list sorting.
From Stdlib Require Import ZArith.

(** ** Operations as transactions *)

Inductive Op :=
  | OEnqueue (freshID : string) (now : Z) (job : Job)
  | ORegisterWorker (now : Z) (worker : Worker)
  | OHeartbeatWorker (now1 now2 : Z) (workerID : string) (ready : bool)
  | OSetWorkerDrain (now : Z) (workerID : string) (draining : bool)
  | OClaim (env : ClaimEnv) (request : ClaimRequest)
  | OHeartbeat (now base : Z) (jobID attemptID token : string) (extension : Z)
  | OFinish (now : Z) (jobID attemptID token : string) (res : FinishResult)
  | ORequestCancel (now : Z) (jobID : string)
  | ORequestCancelFor (now : Z) (taskID workflowID : string)
  | OReleaseAffinity (now : Z) (jobID : string)
  | OReclaimExpired (now cutoff : Z).

(** The database after a transaction: the committed one, or the old one on a
    rollback. *)
Definition commit {A} (db : DB) (res : result QueueError (A * DB)) : DB :=
  match res with
  | Ok (_, db') => db'
  | Err _ => db
  end.

Definition commit_db (db : DB) (res : result QueueError DB) : DB :=
  match res with
  | Ok db' => db'
  | Err _ => db
  end.

Section exec.
Context {RT : GoRuntime} `{!Sorter claim_order}.

Definition exec (op : Op) (db : DB) : DB :=
  match op with
  | OEnqueue id now job => commit db (Enqueue id now job db)
  | ORegisterWorker now w => commit db (RegisterWorker now w db)
  | OHeartbeatWorker n1 n2 id ready => commit_db db (HeartbeatWorker n1 n2 id ready db)
  | OSetWorkerDrain now id d => commit_db db (SetWorkerDrain now id d db)
  | OClaim env req => commit db (claim env req db)
  | OHeartbeat now base j a t ext => commit db (heartbeat now base j a t ext db)
  | OFinish now j a t res => commit_db db (finish now j a t res db)
  | ORequestCancel now j => commit_db db (RequestCancel now j db)
  | ORequestCancelFor now t w => (RequestCancelFor now t w db).2
  | OReleaseAffinity now j => commit_db db (ReleaseAffinity now j db)
  | OReclaimExpired now cutoff => (reclaimExpired now cutoff db).2
  end.

Inductive reachable : DB -> Prop :=
  | reach_empty : reachable empty_db
  | reach_step db op : reachable db -> reachable (exec op db).
End exec.

(** ** The invariant *)

Definition job_states : list string := [JobQueued; sql_leased; JobSucceeded; JobFailed; JobCanceled].
Definition final_attempts : list string :=
  [AttemptSucceeded; AttemptFailed; AttemptExpired; AttemptCanceled].

Definition lease_cols (r : JobRow) :=
  (jr_lease_attempt_id r, jr_lease_token r, jr_lease_worker_id r, jr_lease_expires_at r).

Definition leased_by (a : string) (ar : AttemptRow) (r : JobRow) : Prop :=
  lease_cols r = (Some a, Some (ar_claim_token ar), Some (ar_worker_id ar),
                  Some (ar_lease_expires_at ar)).

(** An attempt is active and unfinished, or settled with an end time. *)
Definition attempt_wf (ar : AttemptRow) : Prop :=
  (ar_state ar = AttemptActive /\ ar_finished_at ar = None) \/
  (ar_state ar ∈ final_attempts /\ is_Some (ar_finished_at ar)).

Record job_inv (att : gmap string AttemptRow) (k : string) (r : JobRow) : Prop := {
  ji_id : sn_id (jr_snap r) = k;
  ji_state : jr_state r ∈ job_states;
  ji_count : (0 <= jr_attempt_count r <= sn_max_attempts (jr_snap r))%Z;
  ji_queued : jr_state r = JobQueued ->
    (jr_attempt_count r < sn_max_attempts (jr_snap r))%Z /\ jr_cancel_requested r = false;
  ji_terminal : terminal_state (jr_state r) = true <-> is_Some (jr_terminal_at r);
  ji_free : jr_state r <> sql_leased -> lease_cols r = (None, None, None, None);
  ji_leased : jr_state r = sql_leased ->
    exists a ar, att !! a = Some ar /\ ar_job_id ar = k /\ ar_state ar = AttemptActive /\
      ar_attempt_number ar = jr_attempt_count r /\ leased_by a ar r;
  ji_attempts : forall a ar, att !! a = Some ar -> ar_job_id ar = k ->
    (1 <= ar_attempt_number ar <= jr_attempt_count r)%Z /\ attempt_wf ar /\
    (ar_state ar = AttemptActive -> jr_state r = sql_leased /\ jr_lease_attempt_id r = Some a);
  ji_numbers : forall a1 a2 ar1 ar2, att !! a1 = Some ar1 -> att !! a2 = Some ar2 ->
    ar_job_id ar1 = k -> ar_job_id ar2 = k -> ar_attempt_number ar1 = ar_attempt_number ar2 ->
    a1 = a2;
}.

Record Inv (db : DB) : Prop := {
  inv_jobs : forall k r, dispatch_jobs db !! k = Some r -> job_inv (dispatch_attempts db) k r;
  inv_fk : forall a ar, dispatch_attempts db !! a = Some ar ->
    is_Some (dispatch_jobs db !! ar_job_id ar);
  inv_keys : forall k1 k2 r1 r2, dispatch_jobs db !! k1 = Some r1 ->
    dispatch_jobs db !! k2 = Some r2 ->
    sn_idempotency_key (jr_snap r1) = sn_idempotency_key (jr_snap r2) -> k1 = k2;
}.

(** ** Frame lemmas *)

(** The two attempt tables agree on every job but [k]. *)
Definition agree_off (k : string) (att att' : gmap string AttemptRow) : Prop :=
  forall a ar, ar_job_id ar <> k -> att !! a = Some ar <-> att' !! a = Some ar.

Lemma agree_off_refl k att : agree_off k att att.
Proof. done. Qed.

Lemma agree_off_insert k att a ar :
  ar_job_id ar = k -> (forall ar0, att !! a = Some ar0 -> ar_job_id ar0 = k) ->
  agree_off k att (<[a := ar]> att).
Proof.
  intros Hk Hold b br Hb. destruct (decide (a = b)) as [<-|Hne].
  - rewrite lookup_insert_eq. split; [intros H%Hold; done|intros [= <-]; done].
  - by rewrite lookup_insert_ne.
Qed.

#[local] Hint Resolve agree_off_refl agree_off_insert : apiary.

Lemma job_inv_frame att att' k k' r :
  agree_off k att att' -> k' <> k -> job_inv att k' r -> job_inv att' k' r.
Proof.
  intros Ha Hk [Hid Hst Hc Hq Ht Hf Hl Hat Hn]. split; try done.
  - intros E. destruct (Hl E) as (a & ar & H1 & H2 & Hrest). exists a, ar.
    split; [by apply Ha; congruence|done].
  - intros a ar H1 H2. apply Hat; [apply Ha; congruence|done].
  - intros a1 a2 ar1 ar2 H1 H2 H3 H4. apply Hn; try done; by apply Ha; congruence.
Qed.

(** One job row changes, with the attempts of that job. *)
Lemma Inv_update db k r r' att' ws :
  Inv db -> dispatch_jobs db !! k = Some r -> jr_snap r' = jr_snap r ->
  agree_off k (dispatch_attempts db) att' -> job_inv att' k r' ->
  Inv {| dispatch_jobs := <[k := r']> (dispatch_jobs db); dispatch_attempts := att';
         worker_registrations := ws |}.
Proof.
  intros [Hj Hfk Hk] Hr Hs Ha Hr'. split; simpl.
  - intros k1 r1. destruct (decide (k = k1)) as [<-|Hne].
    + rewrite lookup_insert_eq. by intros [= <-].
    + rewrite lookup_insert_ne by done. intros H. eapply job_inv_frame; eauto.
  - intros a ar H. destruct (decide (ar_job_id ar = k)) as [->|Hne].
    + rewrite lookup_insert_eq. eauto.
    + rewrite lookup_insert_ne by done. eapply (Hfk a). by apply Ha.
  - assert (forall k1 r1, <[k := r']> (dispatch_jobs db) !! k1 = Some r1 ->
      exists r0, dispatch_jobs db !! k1 = Some r0 /\ jr_snap r0 = jr_snap r1) as Hback.
    { intros k1 r1. destruct (decide (k = k1)) as [<-|Hne].
      - rewrite lookup_insert_eq. intros [= <-]. eauto.
      - rewrite lookup_insert_ne by done. eauto. }
    intros k1 k2 r1 r2 (a1 & H1 & E1)%Hback (a2 & H2 & E2)%Hback.
    rewrite <- E1, <- E2. by apply Hk.
Qed.

(** Only the worker table changes. *)
Lemma Inv_workers db ws : Inv db -> Inv (set_workers db ws).
Proof. intros [H1 H2 H3]. by split. Qed.

Lemma Inv_release db now w : Inv db -> Inv (release_worker now w db).
Proof. apply Inv_workers. Qed.

(** Rewriting every row in place keeps the invariant when each row does. *)
Lemma Inv_rows db (f : JobRow -> JobRow) :
  Inv db -> (forall r, jr_snap (f r) = jr_snap r) ->
  (forall k r, job_inv (dispatch_attempts db) k r -> job_inv (dispatch_attempts db) k (f r)) ->
  Inv (set_jobs db (f <$> dispatch_jobs db)).
Proof.
  intros [Hj Hfk Hk] Hs Hf. split; simpl.
  - intros k r. rewrite lookup_fmap, fmap_Some. intros (r0 & Hr & ->). by apply Hf, Hj.
  - intros a ar Ha. rewrite lookup_fmap, fmap_is_Some. eauto.
  - intros k1 k2 r1 r2. rewrite !lookup_fmap, !fmap_Some. intros (a1 & H1 & ->) (a2 & H2 & ->).
    rewrite !Hs. by apply Hk.
Qed.

(** ** Row transitions *)

Lemma job_inv_cancel att k r now :
  job_inv att k r -> cancelable r = true -> job_inv att k (cancel_row now r).
Proof.
  intros [Hid Hst Hc Hq Ht Hf Hl Hat Hn] Hcan. unfold cancelable in Hcan.
  destruct r as [sn aff st cnt can av la lt lw le ta up]; simpl in *.
  rewrite orb_true_iff, !bool_decide_eq_true in Hcan.
  destruct Hcan as [->| ->].
  - split; simpl; try done.
    + by repeat constructor.
    + by intros _; apply Hf.
    + intros a ar H1 H2. destruct (Hat _ _ H1 H2) as (?&?&H3). split_and!; try lia; try done.
      by intros [? _]%H3.
  - split; simpl; try done. 
Qed.

Lemma job_inv_release att k r now :
  job_inv att k r -> job_inv att k (release_row now r).
Proof. by intros []; split. Qed.

Lemma job_inv_extend att k r a ar expires now hb :
  job_inv att k r -> jr_state r = sql_leased -> jr_lease_attempt_id r = Some a ->
  att !! a = Some ar -> ar_job_id ar = k ->
  job_inv (<[a := extend_attempt hb expires ar]> att) k (extend_row expires now r).
Proof.
  intros [Hid Hst Hc Hq Ht Hf Hl Hat Hn] Hs Ha Har Hk.
  destruct (Hl Hs) as (a0 & ar0 & E1 & E2 & E3 & E4 & E5).
  unfold leased_by, lease_cols in *. simplify_eq/=.
  assert (forall b br, <[a := extend_attempt hb expires ar]> att !! b = Some br ->
    exists br0, att !! b = Some br0 /\ ar_job_id br0 = ar_job_id br /\
      ar_attempt_number br0 = ar_attempt_number br /\ ar_state br0 = ar_state br /\
      ar_finished_at br0 = ar_finished_at br) as Hback.
  { intros b br. destruct (decide (a = b)) as [<-|Hne].
    - rewrite lookup_insert_eq. intros [= <-]. by exists ar.
    - rewrite lookup_insert_ne by done. intros Hb. by exists br. }
  split; simpl; try done.
  - intros _. exists a, (extend_attempt hb expires ar). rewrite lookup_insert_eq.
    split_and!; try done. unfold leased_by, lease_cols; simpl. congruence.
  - intros b br (br0 & F1 & F2 & F3 & F4 & F5)%Hback Hkb. unfold attempt_wf.
    rewrite <- F3, <- F4, <- F5. apply Hat; [done|congruence].
  - intros b1 b2 br1 br2 (c1 & G1 & G2 & G3 & _)%Hback (c2 & F1 & F2 & F3 & _)%Hback.
    rewrite <- G2, <- F2, <- G3, <- F3. by apply Hn.
Qed.

(** Giving up a lease: the active attempt is settled and the job goes to a state
    it may rest in. *)
Lemma job_inv_settle att k r a ar state final av term now msg :
  job_inv att k r -> jr_state r = sql_leased -> jr_lease_attempt_id r = Some a ->
  att !! a = Some ar -> ar_job_id ar = k ->
  state ∈ job_states -> state <> sql_leased -> final ∈ final_attempts ->
  (state = JobQueued -> (jr_attempt_count r < sn_max_attempts (jr_snap r))%Z /\
                        jr_cancel_requested r = false) ->
  (terminal_state state = true <-> is_Some term) ->
  job_inv (<[a := settle_attempt final now msg ar]> att) k (settle_row state av term now r).
Proof.
  intros [Hid Hst Hc Hq Ht Hf Hl Hat Hn] Hs Ha Har Hk H1 H2 H3 H4 H5.
  assert (forall b br, <[a := settle_attempt final now msg ar]> att !! b = Some br ->
    (b = a /\ br = settle_attempt final now msg ar) \/ (b <> a /\ att !! b = Some br)) as Hback.
  { intros b br. destruct (decide (a = b)) as [<-|Hne].
    - rewrite lookup_insert_eq. intros [= <-]. auto.
    - rewrite lookup_insert_ne by done. auto. }
  split; simpl; try done.
  - intros b br [[-> ->]|[Hne Hb]]%Hback Hkb.
    + destruct (Hat _ _ Har Hk) as (? & _). simpl. split; [done|split; [right; simpl; eauto|]].
      intros ->. unfold final_attempts in H3. by rewrite !elem_of_cons, elem_of_nil in H3; naive_solver.
    + destruct (Hat _ _ Hb Hkb) as (? & ? & Hact). split; [done|split; [done|]].
      intros [_ H6]%Hact. congruence.
  - intros b1 b2 br1 br2 [[-> ->]|[Hne1 Hb1]]%Hback [[-> ->]|[Hne2 Hb2]]%Hback; simpl; intros.
    + done.
    + by eapply (Hn _ _ _ _ Har Hb2).
    + by eapply (Hn _ _ _ _ Hb1 Har).
    + by eapply (Hn _ _ _ _ Hb1 Hb2).
Qed.

Lemma job_inv_lease att k r a tok w expires now :
  job_inv att k r -> jr_state r = JobQueued -> att !! a = None ->
  job_inv (<[a := {| ar_job_id := k; ar_attempt_number := jr_attempt_count r + 1;
                     ar_worker_id := w; ar_claim_token := tok; ar_state := AttemptActive;
                     ar_lease_expires_at := expires; ar_heartbeat_at := now;
                     ar_started_at := now; ar_finished_at := None;
                     ar_error_message := None |}]> att)
          k (lease_row a tok w expires now r).
Proof.
  intros [Hid Hst Hc Hq Ht Hf Hl Hat Hn] Hs Ha. destruct (Hq Hs) as [Hlt Hcan].
  set (new := {| ar_job_id := k |}).
  assert (forall b br, <[a := new]> att !! b = Some br ->
    (b = a /\ br = new) \/ (b <> a /\ att !! b = Some br)) as Hback.
  { intros b br. destruct (decide (a = b)) as [<-|Hne].
    - rewrite lookup_insert_eq. intros [= <-]. auto.
    - rewrite lookup_insert_ne by done. auto. }
  rewrite Hs in Ht. split; simpl; try done.
  - unfold job_states. apply list_elem_of_further, list_elem_of_here.
  - lia.
  - intros _. exists a, new. by rewrite lookup_insert_eq.
  - intros b br [[-> ->]|[Hne Hb]]%Hback Hk; simpl.
    + split; [lia|split; [by left|done]].
    + destruct (Hat _ _ Hb Hk) as (? & ? & Hact). split; [lia|split; [done|]].
      intros [H' _]%Hact. by rewrite Hs in H'.
  - intros b1 b2 br1 br2 [[-> ->]|[Hne1 Hb1]]%Hback [[-> ->]|[Hne2 Hb2]]%Hback; simpl; intros K1 K2 K3.
    + done.
    + destruct (Hat _ _ Hb2 K2). lia.
    + destruct (Hat _ _ Hb1 K1). lia.
    + by eapply (Hn _ _ _ _ Hb1 Hb2).
Qed.

Lemma job_inv_new att id job now :
  (forall a ar, att !! a = Some ar -> ar_job_id ar <> id) -> j_ID job = id ->
  (0 < j_MaxAttempts job)%Z -> job_inv att id (newJobRow job now).
Proof.
  intros Hfk Hid Hm. split; simpl; try done.
  - by apply list_elem_of_here.
  - lia.
  - intros a ar H1 H2. by destruct (Hfk _ _ H1).
  - intros a1 a2 ar1 ar2 H1 _ H2. by destruct (Hfk _ _ H1).
Qed.

(** ** What a successful operation did *)

Lemma row_by_key_None db key :
  row_by_key db key = None <->
  forall k r, dispatch_jobs db !! k = Some r -> sn_idempotency_key (jr_snap r) <> key.
Proof.
  unfold row_by_key. rewrite find_None. setoid_rewrite elem_of_rows.
  setoid_rewrite bool_decide_eq_false. naive_solver.
Qed.

Lemma row_by_key_Some db key r :
  row_by_key db key = Some r ->
  (exists k, dispatch_jobs db !! k = Some r) /\ sn_idempotency_key (jr_snap r) = key.
Proof.
  unfold row_by_key. intros [Hin He%bool_decide_eq_true]%List.find_some.
  apply list_elem_of_In, elem_of_rows in Hin. done.
Qed.

(** The attempt behind a lease. *)
Lemma Inv_lease db k r a :
  Inv db -> dispatch_jobs db !! k = Some r -> jr_state r = sql_leased ->
  jr_lease_attempt_id r = Some a ->
  exists ar, dispatch_attempts db !! a = Some ar /\ ar_job_id ar = k /\
    ar_state ar = AttemptActive /\ leased_by a ar r.
Proof.
  intros HI Hr Hs Ha.
  destruct (ji_leased _ _ _ (inv_jobs _ HI _ _ Hr) Hs) as (a0 & ar & H1 & H2 & H3 & _ & H4).
  assert (a0 = a) as -> by (unfold leased_by, lease_cols in H4; congruence). eauto.
Qed.

Lemma holds_lease_spec a t r :
  holds_lease a t r = true <-> jr_lease_attempt_id r = Some a /\ jr_lease_token r = Some t.
Proof. unfold holds_lease. by rewrite andb_true_iff, !bool_decide_eq_true. Qed.

(** [finish] succeeds exactly on the current lease. *)
Lemma finish_inv now j a t res db db' :
  Inv db -> finish now j a t res db = Ok db' ->
  exists r ar aState jState av msg,
    dispatch_jobs db !! j = Some r /\ jr_state r = sql_leased /\
    dispatch_attempts db !! a = Some ar /\ ar_job_id ar = j /\ ar_state ar = AttemptActive /\
    leased_by a ar r /\ ar_claim_token ar = t /\
    finish_outcome now (jr_cancel_requested r) (jr_attempt_count r)
      (sn_max_attempts (jr_snap r)) res = (aState, jState, av) /\
    db' = release_worker now (ar_worker_id ar) {|
      dispatch_jobs := <[j := settle_row jState av (if terminal_state jState then Some now else None)
                                now r]> (dispatch_jobs db);
      dispatch_attempts := <[a := settle_attempt aState now msg ar]> (dispatch_attempts db);
      worker_registrations := worker_registrations db |}.
Proof.
  intros HI. unfold finish. destruct (dispatch_jobs db !! j) as [r|] eqn:Hr; [|done].
  destruct (bool_decide _ && _) eqn:Hb; [|done].
  apply andb_true_iff in Hb as [Hs%bool_decide_eq_true Hh].
  pose proof Hh as [Ha Ht]%holds_lease_spec.
  destruct (Inv_lease _ _ _ _ HI Hr Hs Ha) as (ar & H1 & H2 & H3 & H4).
  assert (ar_claim_token ar = t) as Htok by (unfold leased_by, lease_cols in H4; congruence).
  assert (jr_lease_worker_id r = Some (ar_worker_id ar)) as Hw
    by (unfold leased_by, lease_cols in H4; congruence).
  destruct (finish_outcome _ _ _ _ _) as [[aS jS] av] eqn:Ho. intros [= <-].
  exists r, ar, aS, jS, av, (nullStr (if is_empty (fr_Error res) then fr_Note res else fr_Error res)).
  split_and!; try done.
  unfold update_at. simpl. rewrite H1, Hr, Hh, Htok, H3, Hw.
  rewrite !bool_decide_eq_true_2 by done. done.
Qed.

Lemma finish_outcome_spec now c n m res aS jS av :
  finish_outcome now c n m res = (aS, jS, av) ->
  aS ∈ final_attempts /\ jS ∈ job_states /\ jS <> sql_leased /\
  (jS = JobQueued -> (n < m)%Z /\ c = false).
Proof.
  unfold finish_outcome, final_attempts, job_states. intros H.
  destruct c; [|destruct (fr_Success res); [|destruct (fr_Retry res && (n <? m)%Z) eqn:E]];
    injection H as <- <- <-; (split_and!; [by repeat constructor|by repeat constructor|done|]);
    try done.
  intros _. apply andb_true_iff in E as [_ E%Z.ltb_lt]. done.
Qed.

Lemma term_opt (s : string) (now : Z) :
  terminal_state s = true <-> is_Some (if terminal_state s then Some now else None).
Proof. destruct (terminal_state s); split; [by eexists|done..|]. by intros [? [=]]. Qed.

(** [heartbeat] succeeds exactly on the current lease. *)
Lemma heartbeat_inv now base j a t ext db hr db' :
  heartbeat now base j a t ext db = Ok (hr, db') ->
  exists r ar expires,
    dispatch_jobs db !! j = Some r /\ jr_state r = sql_leased /\
    jr_lease_attempt_id r = Some a /\ jr_lease_token r = Some t /\
    dispatch_attempts db !! a = Some ar /\ ar_job_id ar = j /\ ar_state ar = AttemptActive /\
    expires = (base + if (ext <=? 0)%Z then 30 * second else ext)%Z /\
    hr = {| hr_LeaseExpiresAt := expires; hr_CancelRequested := jr_cancel_requested r |} /\
    db' = {|
      dispatch_jobs := <[j := extend_row expires now r]> (dispatch_jobs db);
      dispatch_attempts := <[a := extend_attempt now expires ar]> (dispatch_attempts db);
      worker_registrations := worker_registrations db |}.
Proof.
  unfold heartbeat. set (expires := (base + _)%Z).
  destruct (update_at_spec a
    (fun x => bool_decide (ar_job_id x = j) && bool_decide (ar_claim_token x = t)
              && bool_decide (ar_state x = AttemptActive))
    (extend_attempt now expires) (dispatch_attempts db)) as [(ar & H1 & H2 & H3)|[_ H3]];
    rewrite H3; simpl; [|done].
  rewrite !andb_true_iff, !bool_decide_eq_true in H2. destruct H2 as [[H2 H4] H5].
  destruct (dispatch_jobs db !! j) as [r|] eqn:Hr; [|done].
  destruct (bool_decide _ && _) eqn:Hb; [|done].
  apply andb_true_iff in Hb as [Hs%bool_decide_eq_true [Ha Ht]%holds_lease_spec].
  intros [= <- <-]. exists r, ar, expires. done.
Qed.

Section claim_facts.
Context `{!Sorter claim_order}.

Lemma selectJob_Some db worker p rs job :
  selectJob db worker p rs = Some job ->
  exists r, r ∈ rs /\ job = scanJob r /\ compatible worker job = true /\
            withinPolicy db job p = true.
Proof.
  unfold selectJob. intros [Hin Hc]%List.find_some.
  apply list_elem_of_In, list_elem_of_fmap in Hin as (r & -> & Hr).
  apply andb_true_iff in Hc as [??]. eauto.
Qed.

Lemma candidates_elem now w db r :
  r ∈ candidates now w db -> r ∈ rows (dispatch_jobs db) /\ claimable now w r = true.
Proof.
  unfold candidates. intros Hin%elem_of_take.
  destruct Hin as (i & Hi & _). apply list_elem_of_lookup_2 in Hi.
  rewrite elem_of_sort_by, list_elem_of_In, filter_In, <- list_elem_of_In in Hi. done.
Qed.

(** The state a successful [claim] found and left. *)
Lemma claim_inv env req db c db' :
  Inv db -> claim env req db = Ok (c, db') ->
  exists wrow r expires,
    worker_registrations db !! cr_WorkerID req = Some wrow /\
    wr_ready wrow = true /\ wr_draining wrow = false /\
    (wr_active_jobs wrow < wr_capacity wrow)%Z /\
    dispatch_jobs db !! j_ID (c_Job c) = Some r /\
    r ∈ candidates (ce_query env) (cr_WorkerID req) db /\
    selectJob db (scanWorker (cr_WorkerID req) wrow) (cr_Policy req)
      (candidates (ce_query env) (cr_WorkerID req) db) = Some (scanJob r) /\
    jr_state r = JobQueued /\ jr_cancel_requested r = false /\
    dispatch_attempts db !! ce_attemptID env = None /\
    c_Job c = claimedJob (scanJob r) (cr_WorkerID req) expires (ce_now env) /\
    db' = bump_worker (ce_now env) (cr_WorkerID req) {|
      dispatch_jobs := <[j_ID (c_Job c) :=
        lease_row (ce_attemptID env) (ce_claimToken env) (cr_WorkerID req) expires (ce_now env) r]>
        (dispatch_jobs db);
      dispatch_attempts := <[ce_attemptID env := {|
        ar_job_id := j_ID (c_Job c); ar_attempt_number := jr_attempt_count r + 1;
        ar_worker_id := cr_WorkerID req; ar_claim_token := ce_claimToken env;
        ar_state := AttemptActive; ar_lease_expires_at := expires;
        ar_heartbeat_at := ce_now env; ar_started_at := ce_now env;
        ar_finished_at := None; ar_error_message := None |}]> (dispatch_attempts db);
      worker_registrations := worker_registrations db |}.
Proof.
  intros HI. unfold claim. set (expires := (ce_now env + _)%Z).
  destruct (worker_registrations db !! cr_WorkerID req) as [wrow|] eqn:Hw; [|done].
  destruct (negb _ || _) eqn:E1; [done|].
  apply orb_false_iff in E1 as [E1%negb_false_iff E2].
  destruct (w_LastHeartbeat _ <? _)%Z; [done|].
  destruct (w_Capacity _ <=? w_ActiveJobs _)%Z eqn:E3; [done|]. apply Z.leb_gt in E3.
  destruct (selectJob _ _ _ _) as [job|] eqn:Hsel; [|done].
  pose proof Hsel as (r & Hcand & -> & Hcomp & Hpol)%selectJob_Some.
  pose proof Hcand as [[k Hk]%elem_of_rows Hcl]%candidates_elem.
  assert (sn_id (jr_snap r) = k) as Hid by apply (ji_id _ _ _ (inv_jobs _ HI _ _ Hk)).
  unfold claimable in Hcl. rewrite !andb_true_iff in Hcl.
  destruct Hcl as [[[Hq%bool_decide_eq_true Hc%negb_true_iff] _] _].
  unfold update_at. simpl j_ID. rewrite Hid, Hk, Hc, (bool_decide_eq_true_2 _ Hq). simpl.
  unfold attempt_conflict. rewrite bool_decide_decide.
  destruct (decide _) as [|Hna]; simpl; [done|].
  destruct (existsb _ _); [done|]. intros [= <- <-]. simpl.
  exists wrow, r, expires. rewrite Hid. split_and!; try done. by apply eq_None_not_Some.
Qed.
End claim_facts.

(** ** Preservation *)

Definition reclaim_row (now : Z) (r : JobRow) : JobRow :=
  settle_row (expired_state now (expired_of r)).1 now (expired_state now (expired_of r)).2 now r.

(** A leased row of the current database is broken by its own item. *)
Lemma reclaim_one_ok now db k r :
  Inv db -> dispatch_jobs db !! k = Some r -> jr_state r = sql_leased ->
  exists a ar,
    dispatch_attempts db !! a = Some ar /\ ar_job_id ar = k /\ ar_state ar = AttemptActive /\
    leased_by a ar r /\
    reclaim_one now (expired_of r) db = (1, release_worker now (ar_worker_id ar) {|
      dispatch_jobs := <[k := reclaim_row now r]> (dispatch_jobs db);
      dispatch_attempts := <[a := settle_attempt AttemptExpired now (Some "lease expired") ar]>
                             (dispatch_attempts db);
      worker_registrations := worker_registrations db |}).
Proof.
  intros HI Hr Hs.
  pose proof (inv_jobs _ HI _ _ Hr) as Hj.
  destruct (ji_leased _ _ _ Hj Hs) as (a & ar & H1 & H2 & H3 & _ & H4).
  exists a, ar. split_and!; try done.
  assert (jr_lease_attempt_id r = Some a /\ jr_lease_worker_id r = Some (ar_worker_id ar)) as [Ha Hw]
    by (unfold leased_by, lease_cols in H4; split; congruence).
  unfold reclaim_one, update_at. simpl.
  rewrite Ha, Hw, (ji_id _ _ _ Hj). simpl.
  rewrite H1, Hr, Hs, Ha, !bool_decide_eq_true_2 by done. done.
Qed.

Lemma expired_state_spec now item :
  (expired_state now item).1 ∈ job_states /\ (expired_state now item).1 <> sql_leased /\
  ((expired_state now item).1 = JobQueued ->
     (ex_attempts item < ex_max item)%Z /\ ex_canceled item = false) /\
  (terminal_state (expired_state now item).1 = true <-> is_Some (expired_state now item).2).
Proof.
  unfold expired_state, job_states.
  destruct (ex_canceled item), (ex_max item <=? ex_attempts item)%Z eqn:E; simpl;
    (split_and!; [by repeat constructor|done|try done|]).
  1-3: split; [by exists now|done].
  - by apply Z.leb_gt in E.
  - split; [done|by intros [? [=]]].
Qed.

Lemma reclaim_one_Inv now db k r :
  Inv db -> dispatch_jobs db !! k = Some r -> jr_state r = sql_leased ->
  Inv (reclaim_one now (expired_of r) db).2.
Proof.
  intros HI Hr Hs. destruct (reclaim_one_ok now _ _ _ HI Hr Hs) as (a & ar & H1 & H2 & H3 & H4 & ->).
  simpl. apply Inv_release. destruct (expired_state_spec now (expired_of r)) as (E1 & E2 & E3 & E4).
  eapply Inv_update; eauto.
  - apply agree_off_insert; [done|]. intros ? Ha. by simplify_eq.
  - eapply job_inv_settle; eauto; [by apply HI|unfold leased_by, lease_cols in H4; congruence|].
    unfold final_attempts. by repeat constructor.
Qed.

Definition row_id (r : JobRow) : string := sn_id (jr_snap r).

(** A property every broken lease keeps. *)
Definition reclaim_stable (now : Z) (P : DB -> Prop) : Prop :=
  forall db k r, Inv db -> P db -> dispatch_jobs db !! k = Some r -> jr_state r = sql_leased ->
    P (reclaim_one now (expired_of r) db).2.

(** The pass breaks every listed lease, once each, and touches no other job. *)
Lemma reclaim_loop_spec now rs db n :
  Inv db -> NoDup (row_id <$> rs) ->
  (forall r, r ∈ rs -> dispatch_jobs db !! row_id r = Some r /\ jr_state r = sql_leased) ->
  (foldl (reclaim_acc now) (n, db) (expired_of <$> rs)).1 = n + length rs /\
  Inv (foldl (reclaim_acc now) (n, db) (expired_of <$> rs)).2 /\
  (forall P : DB -> Prop, P db -> reclaim_stable now P ->
     P (foldl (reclaim_acc now) (n, db) (expired_of <$> rs)).2) /\
  forall k, dispatch_jobs (foldl (reclaim_acc now) (n, db) (expired_of <$> rs)).2 !! k =
    (if bool_decide (k ∈ row_id <$> rs) then reclaim_row now else id) <$> dispatch_jobs db !! k.
Proof.
  revert db n. induction rs as [|r rs IH]; intros db n HI Hnd Hrs.
  { simpl. split_and!; [lia|done|done|]. intros k. by destruct (dispatch_jobs db !! k). }
  rewrite !fmap_cons. rewrite fmap_cons in Hnd.
  assert (foldl (reclaim_acc now) (n, db) (expired_of r :: (expired_of <$> rs)) =
          foldl (reclaim_acc now) (n + (reclaim_one now (expired_of r) db).1,
                                   (reclaim_one now (expired_of r) db).2) (expired_of <$> rs))
    as -> by done.
  destruct (Hrs r) as [Hr Hs]; [apply list_elem_of_here|].
  pose proof (reclaim_one_Inv now _ _ _ HI Hr Hs) as HI'.
  destruct (reclaim_one_ok now _ _ _ HI Hr Hs) as (a & ar & H1 & H2 & H3 & H4 & Heq).
  apply NoDup_cons in Hnd as [Hnin Hnd].
  assert (forall k, dispatch_jobs (reclaim_one now (expired_of r) db).2 !! k =
    (if bool_decide (k = row_id r) then reclaim_row now else id) <$> dispatch_jobs db !! k) as Hone.
  { intros k. rewrite Heq. simpl. case_bool_decide as Hk; subst.
    - by rewrite lookup_insert_eq, Hr.
    - rewrite lookup_insert_ne by done. by destruct (dispatch_jobs db !! k). }
  destruct (IH (reclaim_one now (expired_of r) db).2 (n + (reclaim_one now (expired_of r) db).1))
    as (I1 & I2 & IP & I3); [done..| |].
  { intros r' Hr'. destruct (Hrs r') as [G1 G2]; [by apply list_elem_of_further|].
    split; [|done]. rewrite Hone, G1, bool_decide_eq_false_2; [done|].
    intros E. apply Hnin. rewrite <- E. by apply list_elem_of_fmap_2. }
  split_and!; [|done|intros P HP Hst; apply IP; [by eapply Hst|done]|].
  - rewrite I1, Heq. simpl. lia.
  - intros k. rewrite I3, Hone.
    destruct (decide (k = row_id r)) as [->|Hne].
    + rewrite (bool_decide_eq_false_2 _ Hnin), !bool_decide_eq_true_2;
        [by rewrite Hr|apply list_elem_of_here|done].
    + rewrite (bool_decide_eq_false_2 (k = _)) by done.
      rewrite (bool_decide_ext (k ∈ row_id r :: (row_id <$> rs)) (k ∈ row_id <$> rs))
        by (rewrite elem_of_cons; naive_solver).
      by destruct (dispatch_jobs db !! k).
Qed.

Lemma row_ids db : Inv db -> row_id <$> rows (dispatch_jobs db) = (map_to_list (dispatch_jobs db)).*1.
Proof.
  intros HI. unfold rows. rewrite <- list_fmap_compose. apply list_fmap_ext.
  intros i [k r] Hi%list_elem_of_lookup_2%elem_of_map_to_list. simpl.
  apply (ji_id _ _ _ (inv_jobs _ HI _ _ Hi)).
Qed.

Lemma filter_sublist {A} (p : A -> bool) l : List.filter p l `sublist_of` l.
Proof. induction l as [|x l IH]; simpl; [done|]. destruct (p x); by constructor. Qed.

Lemma reclaimExpired_spec now cutoff db :
  Inv db ->
  (reclaimExpired now cutoff db).1 = count_rows (is_expired cutoff) (dispatch_jobs db) /\
  Inv (reclaimExpired now cutoff db).2 /\
  (forall P : DB -> Prop, P db -> reclaim_stable now P -> P (reclaimExpired now cutoff db).2) /\
  dispatch_jobs (reclaimExpired now cutoff db).2 =
    (fun r => if is_expired cutoff r then reclaim_row now r else r) <$> dispatch_jobs db.
Proof.
  intros HI. unfold reclaimExpired, reclaim_loop.
  set (rs := List.filter (is_expired cutoff) (rows (dispatch_jobs db))).
  assert (forall r, r ∈ rs <-> (exists k, dispatch_jobs db !! k = Some r) /\ is_expired cutoff r = true)
    as Hin.
  { intros r. unfold rs. by rewrite list_elem_of_In, filter_In, <- list_elem_of_In, elem_of_rows. }
  assert (forall k r, dispatch_jobs db !! k = Some r -> row_id r = k) as Hid
    by (intros k r Hk; apply (ji_id _ _ _ (inv_jobs _ HI _ _ Hk))).
  destruct (reclaim_loop_spec now rs db 0) as (I1 & I2 & IP & I3); [done|..].
  - eapply sublist_NoDup; [apply (NoDup_fst_map_to_list (dispatch_jobs db))|].
    rewrite <- row_ids by done. apply fmap_sublist, filter_sublist.
  - intros r [[k Hk] He]%Hin. rewrite (Hid _ _ Hk). split; [done|].
    unfold is_expired in He. by apply andb_true_iff in He as [?%bool_decide_eq_true _].
  - split_and!; [|done..|].
    + by rewrite I1, count_rows_filter.
    + apply map_eq. intros k. rewrite I3, lookup_fmap.
      destruct (dispatch_jobs db !! k) as [r|] eqn:Hk; simpl; [|done]. f_equal.
      destruct (is_expired cutoff r) eqn:He.
      * rewrite bool_decide_eq_true_2; [done|]. rewrite <- (Hid _ _ Hk).
        apply list_elem_of_fmap_2, Hin. eauto.
      * rewrite bool_decide_eq_false_2; [done|].
        intros (r' & Hr' & [[k' Hk'] He']%Hin)%list_elem_of_fmap.
        rewrite (Hid _ _ Hk') in Hr'. subst. congruence.
Qed.
