(* ===== verification/QueueProps.v ===== *)
(** * The dispatch queue: its properties

    The invariant on every interleaving of transactions, the refinement of each
    job to its abstract lifecycle, the lease fence, idempotent production, the
    concurrency policy, capacity accounting, and the retry on lock contention. *)

From S2P Require Import Prelude Model Queue QueueFacts.
From stdpp Require Import base gmap strings list sorting.
From Stdlib Require Import ZArith.

(** ** The abstract lifecycle of a job *)

Inductive phase :=
  | Waiting
  | Running (attempt : string)
  | Finished (outcome : string).

Record JobView := View { v_phase : phase; v_attempts : Z; v_max : Z; v_cancel : bool }.

(** A job waits, runs at most [v_max] times, and finishes once; a cancel request
    ends it where it waits and otherwise at the end of its current run. *)
Inductive lifecycle : JobView -> JobView -> Prop :=
  | lc_claim a n m : (n < m)%Z -> lifecycle (View Waiting n m false) (View (Running a) (n + 1) m false)
  | lc_requeue a n m : (n < m)%Z -> lifecycle (View (Running a) n m false) (View Waiting n m false)
  | lc_succeed a n m : lifecycle (View (Running a) n m false) (View (Finished JobSucceeded) n m false)
  | lc_fail a n m : lifecycle (View (Running a) n m false) (View (Finished JobFailed) n m false)
  | lc_cancel_waiting n m : lifecycle (View Waiting n m false) (View (Finished JobCanceled) n m true)
  | lc_cancel_running a n m c : lifecycle (View (Running a) n m c) (View (Running a) n m true)
  | lc_canceled a n m : lifecycle (View (Running a) n m true) (View (Finished JobCanceled) n m true).

(** What a row says about its job. *)
Definition view (r : JobRow) : JobView :=
  View (if bool_decide (jr_state r = JobQueued) then Waiting
        else if bool_decide (jr_state r = sql_leased) then Running (coalesce (jr_lease_attempt_id r))
        else Finished (jr_state r))
    (jr_attempt_count r) (sn_max_attempts (jr_snap r)) (jr_cancel_requested r).

Definition evolves (r r' : JobRow) : Prop :=
  jr_snap r' = jr_snap r /\ (view r' = view r \/ lifecycle (view r) (view r')).

Lemma evolves_refl r : evolves r r.
Proof. by split; [|left]. Qed.

Lemma evolves_cancel att k r now :
  job_inv att k r -> cancelable r = true -> evolves r (cancel_row now r).
Proof.
  intros Hj Hc. split; [done|right]. unfold view, cancelable in *.
  apply orb_true_iff in Hc as [Hs%bool_decide_eq_true|Hs%bool_decide_eq_true]; simpl; rewrite !Hs; simpl.
  - destruct (ji_queued _ _ _ Hj Hs) as [_ ->]. constructor.
  - constructor.
Qed.

Lemma evolves_settle att k r state av term now :
  job_inv att k r -> jr_state r = sql_leased ->
  (jr_cancel_requested r = true /\ state = JobCanceled) \/
  (jr_cancel_requested r = false /\
   (state = JobSucceeded \/ state = JobFailed \/
    (state = JobQueued /\ (jr_attempt_count r < sn_max_attempts (jr_snap r))%Z))) ->
  evolves r (settle_row state av term now r).
Proof.
  intros Hj Hs H. split; [done|right]. unfold view; simpl. rewrite Hs; simpl.
  destruct H as [[-> ->]|[-> [->|[->|[-> Hn]]]]]; simpl; by constructor.
Qed.

Lemma evolves_reclaim att k r now :
  job_inv att k r -> jr_state r = sql_leased -> evolves r (reclaim_row now r).
Proof.
  intros Hj Hs. eapply evolves_settle; [done..|]. unfold expired_state; simpl.
  destruct (jr_cancel_requested r); [by left|right; split; [done|]].
  destruct (_ <=? _)%Z eqn:E; simpl; [auto|]. apply Z.leb_gt in E. auto.
Qed.

Lemma evolves_finish att k r now res aS jS av term :
  job_inv att k r -> jr_state r = sql_leased ->
  finish_outcome now (jr_cancel_requested r) (jr_attempt_count r) (sn_max_attempts (jr_snap r)) res
    = (aS, jS, av) ->
  evolves r (settle_row jS av term now r).
Proof.
  intros Hj Hs Ho. eapply evolves_settle; [done..|]. unfold finish_outcome in Ho.
  destruct (jr_cancel_requested r); [simplify_eq; by left|right; split; [done|]].
  destruct (fr_Success res); [simplify_eq; auto|].
  destruct (_ && _) eqn:E; simplify_eq; auto.
  apply andb_true_iff in E as [_ E%Z.ltb_lt]. auto.
Qed.

Lemma evolves_lease att k r a t w e now :
  job_inv att k r -> jr_state r = JobQueued -> evolves r (lease_row a t w e now r).
Proof.
  intros Hj Hs. split; [done|right]. unfold view; simpl. rewrite Hs; simpl.
  destruct (ji_queued _ _ _ Hj Hs) as [Hn ->]. by constructor.
Qed.

(** What an operation may do to the two tables. *)
Record sound_step (db db' : DB) : Prop := {
  ss_inv : Inv db';
  ss_jobs : forall k r, dispatch_jobs db !! k = Some r ->
    exists r', dispatch_jobs db' !! k = Some r' /\ evolves r r';
  ss_new : forall k r', dispatch_jobs db' !! k = Some r' -> dispatch_jobs db !! k = None ->
    view r' = View Waiting 0 (sn_max_attempts (jr_snap r')) false;
  ss_settled : forall a ar, dispatch_attempts db !! a = Some ar -> ar_state ar <> AttemptActive ->
    dispatch_attempts db' !! a = Some ar;
}.

Lemma sound_refl db : Inv db -> sound_step db db.
Proof. intros HI. split; [done|eauto using evolves_refl|congruence|done]. Qed.

Lemma sound_workers db ws : Inv db -> sound_step db (set_workers db ws).
Proof. intros HI. split; [by apply Inv_workers|eauto using evolves_refl|simpl; congruence|done]. Qed.

(** One job changes, with at most one of its attempts, an active or a new one. *)
Lemma sound_update db k r r' att' ws :
  Inv db -> dispatch_jobs db !! k = Some r -> evolves r r' ->
  agree_off k (dispatch_attempts db) att' -> job_inv att' k r' ->
  (forall a ar, dispatch_attempts db !! a = Some ar -> ar_state ar <> AttemptActive ->
     att' !! a = Some ar) ->
  sound_step db {| dispatch_jobs := <[k := r']> (dispatch_jobs db); dispatch_attempts := att';
                   worker_registrations := ws |}.
Proof.
  intros HI Hr He Ha Hj Hset. split; simpl; [|..|done].
  - eapply Inv_update; eauto. by destruct He.
  - intros k1 r1 H1. destruct (decide (k = k1)) as [<-|].
    + rewrite lookup_insert_eq. simplify_eq. eauto.
    + rewrite lookup_insert_ne by done. eauto using evolves_refl.
  - intros k1 r1. destruct (decide (k = k1)) as [<-|]; [congruence|].
    rewrite lookup_insert_ne by done. congruence.
Qed.

Lemma settled_insert (att : gmap string AttemptRow) a ar ar' :
  att !! a = Some ar -> ar_state ar = AttemptActive ->
  forall b br, att !! b = Some br -> ar_state br <> AttemptActive -> <[a := ar']> att !! b = Some br.
Proof.
  intros Ha Hs b br Hb Hn. rewrite lookup_insert_ne; [done|]. intros <-. congruence.
Qed.

Lemma reclaim_sound now cutoff db :
  Inv db -> sound_step db (reclaimExpired now cutoff db).2.
Proof.
  intros HI. destruct (reclaimExpired_spec now cutoff db HI) as (_ & HI' & HP & Hj).
  split; [done|..].
  - intros k r Hk. rewrite Hj, lookup_fmap, Hk. simpl. eexists. split; [done|].
    destruct (is_expired cutoff r) eqn:He; [|apply evolves_refl].
    eapply evolves_reclaim; [by apply HI|].
    unfold is_expired in He. by apply andb_true_iff in He as [?%bool_decide_eq_true _].
  - intros k r'. rewrite Hj, lookup_fmap. intros H E. by rewrite E in H.
  - apply (HP (fun db' => forall a ar, dispatch_attempts db !! a = Some ar ->
      ar_state ar <> AttemptActive -> dispatch_attempts db' !! a = Some ar)); [done|].
    intros db1 k r HI1 Hset Hr Hs a ar Ha Hn.
    destruct (reclaim_one_ok now _ _ _ HI1 Hr Hs) as (a1 & ar1 & H1 & H2 & H3 & H4 & ->). simpl.
    eapply settled_insert; eauto.
Qed.

Lemma cancel_for_sound now t w db : Inv db -> sound_step db (RequestCancelFor now t w db).2.
Proof.
  intros HI. unfold RequestCancelFor, update_where; simpl. split; simpl; [|..|done].
  - apply Inv_rows; [done|intros r; by destruct (_ && _)|].
    intros k r Hj. destruct (_ && _) eqn:E; [|done].
    apply job_inv_cancel; [done|]. by apply andb_true_iff in E as [_ ?].
  - intros k r Hk. rewrite lookup_fmap, Hk. simpl. eexists. split; [done|].
    destruct (_ && _) eqn:E; [|apply evolves_refl].
    eapply evolves_cancel; [by apply HI|]. by apply andb_true_iff in E as [_ ?].
  - intros k r'. rewrite lookup_fmap. intros H E. by rewrite E in H.
Qed.

Lemma cancel_sound now j db : Inv db -> sound_step db (commit_db db (RequestCancel now j db)).
Proof.
  intros HI. unfold RequestCancel.
  destruct (update_at_spec j cancelable (cancel_row now) (dispatch_jobs db))
    as [(r & Hr & Hc & ->)|[_ ->]]; simpl; [|by apply sound_refl].
  eapply sound_update; eauto using agree_off_refl.
  - eapply evolves_cancel; [by apply HI|done].
  - apply job_inv_cancel; [by apply HI|done].
Qed.

Lemma release_sound now j db : Inv db -> sound_step db (commit_db db (ReleaseAffinity now j db)).
Proof.
  intros HI. unfold ReleaseAffinity.
  destruct (update_at_spec j (fun r => bool_decide (jr_state r = JobQueued)) (release_row now)
    (dispatch_jobs db)) as [(r & Hr & Hc & ->)|[_ ->]]; simpl; [|by apply sound_refl].
  eapply sound_update; eauto using agree_off_refl.
  - by split; [|left].
  - by apply job_inv_release, HI.
Qed.

Lemma heartbeat_sound now base j a t ext db :
  Inv db -> sound_step db (commit db (heartbeat now base j a t ext db)).
Proof.
  intros HI. destruct (heartbeat now base j a t ext db) as [[hr db']|] eqn:Hh; simpl;
    [|by apply sound_refl].
  apply heartbeat_inv in Hh as (r & ar & e & Hr & Hs & Ha & _ & Har & Hk & Hact & _ & _ & ->).
  eapply sound_update; eauto using settled_insert.
  - by split; [|left].
  - apply agree_off_insert; [done|]. intros ? H. by simplify_eq.
  - apply job_inv_extend; [by apply HI|done..].
Qed.

Lemma finish_sound now j a t res db :
  Inv db -> sound_step db (commit_db db (finish now j a t res db)).
Proof.
  intros HI. destruct (finish now j a t res db) as [db'|] eqn:Hf; simpl; [|by apply sound_refl].
  apply finish_inv in Hf as (r & ar & aS & jS & av & msg & Hr & Hs & Har & Hk & Hact & Hl & _ & Ho & ->);
    [|done].
  destruct (finish_outcome_spec _ _ _ _ _ _ _ _ Ho) as (G1 & G2 & G3 & G4).
  eapply sound_update; eauto using settled_insert.
  - eapply evolves_finish; eauto. by apply HI.
  - apply agree_off_insert; [done|]. intros ? H. by simplify_eq.
  - eapply job_inv_settle; eauto using term_opt; [by apply HI|].
    unfold leased_by, lease_cols in Hl. congruence.
Qed.

Section sound_exec.
Context {RT : GoRuntime} `{!Sorter claim_order}.

Lemma claim_sound env req db : Inv db -> sound_step db (commit db (claim env req db)).
Proof.
  intros HI. destruct (claim env req db) as [[c db']|] eqn:Hc; simpl; [|by apply sound_refl].
  apply claim_inv in Hc as (wrow & r & e & _ & _ & _ & _ & Hr & _ & _ & Hs & _ & Hna & _ & ->);
    [|done].
  eapply sound_update; eauto.
  - eapply evolves_lease; [by apply HI|done].
  - apply agree_off_insert; [done|]. congruence.
  - apply job_inv_lease; [by apply HI|done..].
  - intros b br Hb _. simpl. rewrite lookup_insert_ne; [done|congruence].
Qed.

Lemma enqueue_sound id now job db : Inv db -> sound_step db (commit db (Enqueue id now job db)).
Proof.
  intros HI. unfold Enqueue. destruct (is_empty (trim_space _)); [by apply sound_refl|].
  destruct (_ <=? _)%Z; [by apply sound_refl|]. destruct (negb _); [by apply sound_refl|].
  set (id' := if is_empty (j_ID job) then id else j_ID job). 
  destruct (_ || _) eqn:E; rsimpl.
  { unfold getJobByKey. destruct (row_by_key _ _); by apply sound_refl. }
  apply orb_false_iff in E as [Hid%bool_decide_eq_false Hkey%bool_decide_eq_false].
  rewrite <- eq_None_not_Some in Hid, Hkey. rewrite row_by_key_None in Hkey.
  set (new := newJobRow _ _).
  assert (job_inv (dispatch_attempts db) id' new) as Hnew.
  { apply job_inv_new; [|done|simpl; destruct (j_MaxAttempts job <=? 0)%Z eqn:?; lia].
    intros a ar Ha <-. destruct (inv_fk _ HI _ _ Ha). congruence. }
  split; simpl; [split; simpl|..|done].
  - intros k r. destruct (decide (id' = k)) as [<-|Hne].
    + rewrite lookup_insert_eq. by intros [= <-].
    + rewrite lookup_insert_ne by done. apply HI.
  - intros a ar Ha. destruct (inv_fk _ HI _ _ Ha) as [r Hr].
    rewrite lookup_insert_ne by congruence. eauto.
  - intros k1 k2 r1 r2. destruct (decide (id' = k1)) as [<-|], (decide (id' = k2)) as [<-|];
      rewrite ?lookup_insert_eq, ?lookup_insert_ne by done; [done|..|apply HI].
    + intros [= <-] H2 Heq. by destruct (Hkey _ _ H2).
    + intros H1 [= <-] Heq. by destruct (Hkey _ _ H1).
  - intros k r Hk. rewrite lookup_insert_ne by congruence. eauto using evolves_refl.
  - intros k r'. destruct (decide (id' = k)) as [<-|].
    + rewrite lookup_insert_eq. by intros [= <-].
    + rewrite lookup_insert_ne by done. congruence.
Qed.

Lemma exec_sound op db : Inv db -> sound_step db (exec op db).
Proof.
  intros HI. destruct op; simpl.
  - by apply enqueue_sound.
  - unfold RegisterWorker. repeat case_match; simpl; by apply sound_refl || by apply sound_workers.
  - unfold HeartbeatWorker, requireWorkerRow.
    case_match; simpl; by apply sound_refl || by apply sound_workers.
  - unfold SetWorkerDrain, requireWorkerRow.
    case_match; simpl; by apply sound_refl || by apply sound_workers.
  - by apply claim_sound.
  - by apply heartbeat_sound.
  - by apply finish_sound.
  - by apply cancel_sound.
  - by apply cancel_for_sound.
  - by apply release_sound.
  - by apply reclaim_sound.
Qed.

Lemma Inv_empty : Inv empty_db.
Proof. by split; simpl; intros *; rewrite lookup_empty. Qed.

Lemma reachable_Inv db : reachable db -> Inv db.
Proof. induction 1 as [|db op _ IH]; [apply Inv_empty|]. by apply exec_sound. Qed.
End sound_exec.

(** ** Theorems on every run *)

Section runs.
Context {RT : GoRuntime} `{!Sorter claim_order}.

Definition run (ops : list Op) (db : DB) : DB := foldl (fun db op => exec op db) db ops.

Lemma run_ind (P : DB -> Prop) ops db :
  Inv db -> P db -> (forall db op, Inv db -> P db -> P (exec op db)) ->
  Inv (run ops db) /\ P (run ops db).
Proof.
  revert db. induction ops as [|op ops IH]; intros db HI HP Hs; simpl; [done|].
  apply IH; [apply exec_sound; done|by apply Hs|done].
Qed.

(** C3: on every interleaving of transactions a leased job holds exactly one
    live lease, backed by the one active attempt of that job, with the same
    token, worker and expiry; a job that is not leased holds none and has no
    active attempt; attempt numbers are distinct and within the budget;
    terminal rows are stamped; idempotency keys are unique. *)
Theorem queue_invariant (db : DB) :
  reachable db ->
  Inv db /\
  (forall a1 a2 ar1 ar2, dispatch_attempts db !! a1 = Some ar1 -> dispatch_attempts db !! a2 = Some ar2 ->
     ar_state ar1 = AttemptActive -> ar_state ar2 = AttemptActive ->
     ar_job_id ar1 = ar_job_id ar2 -> a1 = a2).
Proof.
  intros HI%reachable_Inv. split; [done|]. intros a1 a2 ar1 ar2 H1 H2 S1 S2 Hj.
  destruct (inv_fk _ HI _ _ H1) as [r Hr]. pose proof (inv_jobs _ HI _ _ Hr) as Hi.
  destruct (ji_attempts _ _ _ Hi a1 ar1 H1) as (_ & _ & A1); [done|].
  destruct (ji_attempts _ _ _ Hi a2 ar2 H2) as (_ & _ & A2); [done|].
  destruct (A1 S1), (A2 S2). congruence.
Qed.

(** C4: refinement: whatever an operation does to the tables, every job it
    finds keeps its snapshot and takes at most one step of the abstract
    lifecycle, and every job it creates starts at the beginning of it. *)
Theorem queue_refines_lifecycle (op : Op) (db : DB) :
  reachable db ->
  (forall k r, dispatch_jobs db !! k = Some r ->
     exists r', dispatch_jobs (exec op db) !! k = Some r' /\ jr_snap r' = jr_snap r /\
                (view r' = view r \/ lifecycle (view r) (view r')))
  /\ (forall k r', dispatch_jobs (exec op db) !! k = Some r' -> dispatch_jobs db !! k = None ->
        view r' = View Waiting 0 (sn_max_attempts (jr_snap r')) false).
Proof.
  intros HI%reachable_Inv. destruct (exec_sound op db HI) as [_ Hj Hn _]. split; [|done].
  intros k r Hr. destruct (Hj k r Hr) as (r' & ? & ? & ?). eauto.
Qed.

(** A job that can no longer run. *)
Definition ended (v : JobView) : Prop :=
  match v_phase v with Finished _ => True | _ => False end.

Lemma evolves_ended r r' : evolves r r' -> ended (view r) -> view r' = view r.
Proof. intros [_ [->|Hl]] He; [done|]. by destruct Hl. Qed.

(** A finished job is finished for good, and a job asked to cancel is never
    claimed again, whatever operations follow. *)
Theorem queue_terminal_and_cancel (ops : list Op) (db : DB) (k : string) (r : JobRow) :
  reachable db -> dispatch_jobs db !! k = Some r ->
  exists r', dispatch_jobs (run ops db) !! k = Some r' /\ jr_snap r' = jr_snap r /\
    (terminal_state (jr_state r) = true -> view r' = view r) /\
    (jr_cancel_requested r = true ->
       jr_cancel_requested r' = true /\ jr_attempt_count r' = jr_attempt_count r) /\
    (jr_attempt_count r <= jr_attempt_count r' <= sn_max_attempts (jr_snap r))%Z.
Proof.
  intros HI%reachable_Inv Hr.
  destruct (run_ind (fun db' => exists r', dispatch_jobs db' !! k = Some r' /\
    jr_snap r' = jr_snap r /\ (ended (view r) -> view r' = view r) /\
    (v_cancel (view r) = true -> v_cancel (view r') = true /\ v_attempts (view r') = v_attempts (view r)) /\
    (v_attempts (view r) <= v_attempts (view r'))%Z) ops db) as [HI' (r' & H1 & H2 & H3 & H4 & H5)].
  - done.
  - exists r. by split_and!.
  - intros db1 op HI1 (r1 & H1 & H2 & H3 & H4 & H5).
    destruct (ss_jobs _ _ (exec_sound op db1 HI1) _ _ H1) as (r2 & G1 & Hev).
    exists r2. pose proof Hev as [G2 G3]. split_and!; [done|congruence|..].
    + intros He. rewrite (evolves_ended r1 r2 Hev); [by apply H3|]. by rewrite H3.
    + intros Hc. destruct (H4 Hc) as [C1 C2]. destruct G3 as [->|Hl]; [done|].
      revert C1 C2. by destruct Hl.
    + destruct G3 as [->|Hl]; [done|]. etransitivity; [exact H5|].
      destruct Hl; simpl; lia.
  - exists r'. pose proof (ji_count _ _ _ (inv_jobs _ HI' _ _ H1)) as Hc. rewrite H2 in Hc.
    split; [done|split; [done|split; [|split; [done|simpl in H5; lia]]]].
    intros Ht. apply H3. unfold ended, view, terminal_state in *. simpl.
    destruct (bool_decide (jr_state r = JobQueued)) eqn:E1.
    { apply bool_decide_eq_true in E1. by rewrite E1 in Ht. }
    destruct (bool_decide (jr_state r = sql_leased)) eqn:E2; [|done].
    apply bool_decide_eq_true in E2. by rewrite E2 in Ht.
Qed.

(** The lease fence: once an attempt is settled (finished, expired or
    canceled) its row never changes again and its claim is stale for ever: no
    later heartbeat or finish presenting it succeeds, with any token, on any
    job. *)
Theorem stale_claim_fenced (db : DB) (a : string) (ar : AttemptRow) (ops : list Op) :
  reachable db -> dispatch_attempts db !! a = Some ar -> ar_state ar <> AttemptActive ->
  dispatch_attempts (run ops db) !! a = Some ar /\
  (forall now base j t ext, heartbeat now base j a t ext (run ops db) = Err ErrStaleClaim) /\
  (forall now j t res, finish now j a t res (run ops db) = Err ErrStaleClaim).
Proof.
  intros HI%reachable_Inv Ha Hs.
  destruct (run_ind (fun db' => dispatch_attempts db' !! a = Some ar) ops db) as [HI' Ha'];
    [done..| |].
  { intros db1 op HI1 H1. by apply (ss_settled _ _ (exec_sound op db1 HI1)). }
  split_and!; [done|..].
  - intros now base j t ext. unfold heartbeat, update_at. rewrite Ha'.
    by rewrite (bool_decide_eq_false_2 _ Hs), !andb_false_r.
  - intros now j t res. unfold finish. destruct (dispatch_jobs (run ops db) !! j) as [r|] eqn:Hr; [|done].
    destruct (_ && _) eqn:E; [|done].
    apply andb_true_iff in E as [Hl%bool_decide_eq_true [Hat _]%holds_lease_spec].
    destruct (Inv_lease _ _ _ _ HI' Hr Hl Hat) as (ar' & ? & ? & ? & _). congruence.
Qed.

Lemma key_stays ops db k r :
  Inv db -> dispatch_jobs db !! k = Some r ->
  Inv (run ops db) /\ exists r', dispatch_jobs (run ops db) !! k = Some r' /\ jr_snap r' = jr_snap r.
Proof.
  intros HI Hr.
  apply (run_ind (fun db' => exists r', dispatch_jobs db' !! k = Some r' /\ jr_snap r' = jr_snap r));
    [done|eauto|].
  intros db1 op HI1 (r1 & H1 & H2).
  destruct (ss_jobs _ _ (exec_sound op db1 HI1) _ _ H1) as (r2 & G1 & G2 & _).
  exists r2. split; [done|congruence].
Qed.

Definition acceptable (job : Job) : Prop :=
  trim_space (j_IdempotencyKey job) <> "" /\ (0 < j_PayloadVersion job)%Z /\
  json_valid (j_Payload job) = true.

Lemma Enqueue_acceptable id now job db :
  acceptable job ->
  Enqueue id now job db =
  (let id' := if is_empty (j_ID job) then id else j_ID job in
   if bool_decide (is_Some (dispatch_jobs db !! id'))
      || bool_decide (is_Some (row_by_key db (j_IdempotencyKey job)))
   then existing ← getJobByKey db (j_IdempotencyKey job); Ok (false, existing, db)
   else Enqueue id now job db).
Proof.
  intros (H1 & H2 & H3). unfold Enqueue.
  rewrite (proj2 (is_empty_false _) H1), H3. rewrite (proj2 (Z.leb_gt _ _) H2). simpl.
  by destruct (_ || _).
Qed.

(** Production is idempotent: once a job is inserted, every later request
    with its idempotency key, after any operations whatever and however it
    differs otherwise, is accepted without inserting anything and returns that
    same job with its original payload. *)
Theorem enqueue_idempotent (db : DB) id now job job1 db1 (ops : list Op) id2 now2 job2 :
  reachable db -> Enqueue id now job db = Ok (true, job1, db1) ->
  acceptable job2 -> j_IdempotencyKey job2 = j_IdempotencyKey job ->
  exists existing,
    Enqueue id2 now2 job2 (run ops db1) = Ok (false, existing, run ops db1) /\
    j_ID existing = j_ID job1 /\ j_Payload existing = j_Payload job1 /\
    j_IdempotencyKey existing = j_IdempotencyKey job.
Proof.
  intros HR Hok Hacc Hkey. pose proof (reachable_Inv _ HR) as HI.
  assert (Inv db1) as HI1.
  { pose proof (ss_inv _ _ (enqueue_sound id now job db HI)) as H. by rewrite Hok in H. }
  assert (exists r, dispatch_jobs db1 !! j_ID job1 = Some r /\
    sn_idempotency_key (jr_snap r) = j_IdempotencyKey job /\ sn_id (jr_snap r) = j_ID job1 /\
    sn_payload (jr_snap r) = j_Payload job1) as (r & Hr & K1 & K2 & K3).
  { revert Hok. unfold Enqueue, getJobByKey. repeat case_match; rsimpl; try done;
      intros [= <- <-]; simpl; rewrite lookup_insert_eq; eauto. }
  destruct (key_stays ops db1 _ r HI1 Hr) as [HI2 (r' & Hr' & Hs)].
  destruct (row_by_key (run ops db1) (j_IdempotencyKey job)) as [r2|] eqn:Hrow.
  - pose proof Hrow as [[k2 Hk2] Hk]%row_by_key_Some.
    assert (k2 = j_ID job1) as -> by (eapply (inv_keys _ HI2); eauto; congruence).
    assert (r2 = r') as -> by congruence.
    exists (scanJob r'). rewrite Enqueue_acceptable by done. rewrite Hkey. cbv zeta.
    rewrite (bool_decide_eq_true_2 (is_Some (row_by_key _ (j_IdempotencyKey job)))), orb_true_r
      by (rewrite Hrow; eauto).
    unfold getJobByKey. rewrite Hrow. rsimpl. split_and!; congruence.
  - rewrite row_by_key_None in Hrow. destruct (Hrow _ _ Hr'). congruence.
Qed.

(** ** Claiming *)

(** May this worker run this row now, under this policy? *)
Definition runnable (env : ClaimEnv) (req : ClaimRequest) (wrow : WorkerRow) (db : DB) (r : JobRow)
    : Prop :=
  claimable (ce_query env) (cr_WorkerID req) r = true /\
  compatible (scanWorker (cr_WorkerID req) wrow) (scanJob r) = true /\
  withinPolicy db (scanJob r) (cr_Policy req) = true.

Lemma find_first {A} (p : A -> bool) R l x :
  StronglySorted R l -> List.find p l = Some x ->
  forall y, y ∈ l -> p y = true -> y = x \/ R x y.
Proof.
  induction 1 as [|z l Hs IH Hf]; simpl; [done|]. intros Hfind y Hy Hp.
  apply elem_of_cons in Hy as [->|Hy].
  - rewrite Hp in Hfind. simplify_eq. auto.
  - destruct (p z); [simplify_eq|by apply IH]. right. rewrite Forall_forall in Hf. by apply Hf.
Qed.

Lemma find_fmap {A B} (f : A -> B) (p : B -> bool) l y :
  List.find p (f <$> l) = Some y -> exists x, List.find (fun x => p (f x)) l = Some x /\ y = f x.
Proof.
  induction l as [|x l IH]; simpl; [done|]. destruct (p (f x)); [|done]. intros [= <-]. eauto.
Qed.

Lemma StronglySorted_take {A} (R : relation A) n l : StronglySorted R l -> StronglySorted R (take n l).
Proof.
  intros Hs. revert n. induction Hs as [|x l Hs IH Hf]; intros [|n]; simpl; try constructor; [done|].
  by apply Forall_take.
Qed.

(** A successful claim went to a ready, non-draining worker with a free
    slot, for a job that was queued, due, not canceled, not bound to another
    worker, compatible and admitted by the policy; and among the candidate
    window no such job has a higher priority, or the same priority and an
    earlier creation time. *)
Theorem claim_selects (env : ClaimEnv) (req : ClaimRequest) (db : DB) (c : Claim) (db' : DB) :
  reachable db -> claim env req db = Ok (c, db') ->
  exists wrow r,
    worker_registrations db !! cr_WorkerID req = Some wrow /\
    wr_ready wrow = true /\ wr_draining wrow = false /\
    (wr_active_jobs wrow < wr_capacity wrow)%Z /\
    dispatch_jobs db !! j_ID (c_Job c) = Some r /\ runnable env req wrow db r /\
    forall r2, r2 ∈ candidates (ce_query env) (cr_WorkerID req) db ->
      runnable env req wrow db r2 -> r2 = r \/ claim_order r r2.
Proof.
  intros HI%reachable_Inv Hc.
  apply claim_inv in Hc as (wrow & r & e & Hw & H1 & H2 & H3 & Hr & Hcand & Hsel & _); [|done].
  exists wrow, r. pose proof Hsel as (r0 & _ & _ & Hcomp & Hpol)%selectJob_Some.
  pose proof Hcand as [_ Hcl]%candidates_elem. split_and!; try done.
  intros r2 Hin (_ & C2 & P2). unfold selectJob in Hsel.
  apply find_fmap in Hsel as (r1 & Hfind & Heq).
  assert (r1 = r) as ->.
  { pose proof Hfind as [Hin1 _]%List.find_some. apply list_elem_of_In, candidates_elem in Hin1 as [[k1 Hk1]%elem_of_rows _].
    pose proof (ji_id _ _ _ (inv_jobs _ HI _ _ Hk1)) as I1.
    pose proof (ji_id _ _ _ (inv_jobs _ HI _ _ Hr)) as I2.
    assert (sn_id (jr_snap r) = sn_id (jr_snap r1)) as E by (by apply (f_equal j_ID) in Heq).
    congruence. }
  eapply find_first; [|exact Hfind|done|cbv beta; by rewrite C2, P2].
  apply StronglySorted_take, sort_by_sorted.
Qed.

Lemma attempt_number_fresh db k r :
  Inv db -> dispatch_jobs db !! k = Some r ->
  existsb (fun a => bool_decide (ar_job_id a = k) && (ar_attempt_number a =? jr_attempt_count r + 1)%Z)
    (rows (dispatch_attempts db)) = false.
Proof.
  intros HI Hr. apply not_true_iff_false. rewrite existsb_elem.
  intros (ar & [a Ha]%elem_of_rows & [Hk%bool_decide_eq_true Hn%Z.eqb_eq]%andb_true_iff).
  destruct (ji_attempts _ _ _ (inv_jobs _ HI _ _ Hr) _ _ Ha Hk). lia.
Qed.

(** Progress: a ready and healthy worker with a free slot gets a job
    whenever some job is runnable for it and the candidates fit the window of
    100; in particular the attempt's uniqueness constraint never refuses the
    claim. *)
Theorem claim_progress (env : ClaimEnv) (req : ClaimRequest) (db : DB) (wrow : WorkerRow) k r :
  reachable db ->
  worker_registrations db !! cr_WorkerID req = Some wrow ->
  wr_ready wrow = true -> wr_draining wrow = false ->
  (ce_health env - (if cr_WorkerTimeout req <=? 0 then 30 * second else cr_WorkerTimeout req)
     <= wr_last_heartbeat wrow)%Z ->
  (wr_active_jobs wrow < wr_capacity wrow)%Z ->
  dispatch_attempts db !! ce_attemptID env = None ->
  count_rows (claimable (ce_query env) (cr_WorkerID req)) (dispatch_jobs db) <= 100 ->
  dispatch_jobs db !! k = Some r -> runnable env req wrow db r ->
  exists c db', claim env req db = Ok (c, db').
Proof.
  intros HI%reachable_Inv Hw Hrd Hdr Hhb Hcap Hna Hlim Hr (Hcl & Hcomp & Hpol).
  unfold claim. rewrite Hw. simpl. rewrite Hrd, Hdr. simpl.
  rewrite (proj2 (Z.ltb_ge _ _) Hhb), (proj2 (Z.leb_gt _ _) Hcap).
  destruct (selectJob _ _ _ _) as [job|] eqn:Hsel.
  - apply selectJob_Some in Hsel as (r1 & Hin & -> & _).
    apply candidates_elem in Hin as [[k1 Hk1]%elem_of_rows Hcl1].
    pose proof (ji_id _ _ _ (inv_jobs _ HI _ _ Hk1)) as Hid.
    unfold claimable in Hcl1. rewrite !andb_true_iff in Hcl1. destruct Hcl1 as [[[Hq Hc] _] _].
    unfold update_at. simpl j_ID. rewrite Hid, Hk1, Hq, Hc. simpl.
    unfold attempt_conflict. rewrite attempt_number_fresh by done.
    rewrite bool_decide_eq_false_2; [simpl; eauto|]. by apply eq_None_not_Some.
  - unfold selectJob in Hsel. rewrite find_None in Hsel.
    assert (scanJob r ∈ scanJob <$> candidates (ce_query env) (cr_WorkerID req) db) as Hin.
    { apply list_elem_of_fmap_2. unfold candidates. rewrite take_ge.
      - rewrite elem_of_sort_by, list_elem_of_In, filter_In, <- list_elem_of_In, elem_of_rows. eauto.
      - by rewrite sort_by_perm, <- count_rows_filter. }
    apply Hsel in Hin. by rewrite Hcomp, Hpol in Hin.
Qed.

Lemma activeIn_claim db k r r' att ws field v :
  dispatch_jobs db !! k = Some r -> jr_state r = JobQueued -> jr_state r' = sql_leased ->
  jr_snap r' = jr_snap r ->
  activeIn {| dispatch_jobs := <[k := r']> (dispatch_jobs db); dispatch_attempts := att;
              worker_registrations := ws |} field v
  = (activeIn db field v + (if bool_decide (field (jr_snap r) = Some v) then 1 else 0))%Z.
Proof.
  intros Hk Hs Hs' Hsn. unfold activeIn; simpl.
  pose proof (count_rows_insert (fun r => bool_decide (jr_state r = sql_leased)
    && bool_decide (field (jr_snap r) = Some v)) _ k r r' Hk) as Hc. simpl in Hc.
  rewrite Hs, Hs', Hsn in Hc. simpl in Hc.
  destruct (bool_decide (field (jr_snap r) = Some v)); lia.
Qed.

(** C15: the concurrency policy holds after every claim: in each scope of the
    claimed job (project, source, agent, runner, pool) that has a positive
    limit, the number of leased jobs does not exceed it. *)
Theorem claim_respects_policy (env : ClaimEnv) (req : ClaimRequest) (db : DB) (c : Claim) (db' : DB)
    (chk : policyCheck) :
  reachable db -> claim env req db = Ok (c, db') ->
  chk ∈ policyChecks (c_Job c) (cr_Policy req) ->
  (0 < pc_limit chk)%Z -> pc_value chk <> "" ->
  (activeIn db' (pc_field chk) (pc_value chk) <= pc_limit chk)%Z.
Proof.
  intros HI%reachable_Inv Hc Hin Hlim Hv.
  apply claim_inv in Hc as (wrow & r & e & Hw & H1 & H2 & H3 & Hr & Hcand & Hsel & Hq & _ & _ & Hjob & ->);
    [|done].
  assert (policyChecks (c_Job c) (cr_Policy req) = policyChecks (scanJob r) (cr_Policy req)) as Hpc
    by (by rewrite Hjob).
  rewrite Hpc in Hin.
  apply selectJob_Some in Hsel as (r0 & _ & _ & _ & Hpol).
  unfold withinPolicy in Hpol. rewrite forallb_forall in Hpol.
  specialize (Hpol chk (proj1 (list_elem_of_In _ _) Hin)).
  rewrite (proj2 (Z.leb_gt _ _) Hlim), (proj2 (is_empty_false _) Hv) in Hpol. simpl in Hpol.
  apply negb_true_iff, Z.leb_gt in Hpol.
  change (activeIn (bump_worker _ _ ?d)) with (activeIn d).
  erewrite activeIn_claim by done.
  destruct (bool_decide _); lia.
Qed.
End runs.

(** ** Capacity accounting *)

Definition held (w : string) (r : JobRow) : bool :=
  bool_decide (jr_state r = sql_leased) && bool_decide (jr_lease_worker_id r = Some w).

(** The leases a worker holds. *)
Definition leases (db : DB) (w : string) : Z := Z.of_nat (count_rows (held w) (dispatch_jobs db)).

Definition held_z (w : string) (r : JobRow) : Z := if held w r then 1%Z else 0%Z.

Lemma leases_update db k r r' att ws w :
  dispatch_jobs db !! k = Some r ->
  leases {| dispatch_jobs := <[k := r']> (dispatch_jobs db); dispatch_attempts := att;
            worker_registrations := ws |} w
  = (leases db w - held_z w r + held_z w r')%Z.
Proof.
  intros Hk. unfold leases, held_z; simpl.
  pose proof (count_rows_insert (held w) _ k r r' Hk). destruct (held w r), (held w r'); lia.
Qed.

(** The counter of every registered worker is the number of its leases, within
    its capacity. *)
Definition accounted (db : DB) : Prop :=
  forall w wr, worker_registrations db !! w = Some wr ->
    wr_active_jobs wr = leases db w /\ (leases db w <= wr_capacity wr)%Z.

Lemma update_all_lookup {V} (w w' : string) (f : V -> V) (m : gmap string V) :
  (update_at w (fun _ => true) f m).1 !! w' = (if bool_decide (w' = w) then f else id) <$> m !! w'.
Proof.
  unfold update_at. case_bool_decide as Hw; subst.
  - destruct (m !! w) eqn:E; simpl; [by rewrite lookup_insert_eq|done].
  - destruct (m !! w) eqn:E; simpl; rewrite ?lookup_insert_ne by done; by destruct (m !! w').
Qed.

Lemma held_z_leased w' w r :
  jr_state r = sql_leased -> jr_lease_worker_id r = Some w ->
  held_z w' r = if bool_decide (w' = w) then 1%Z else 0%Z.
Proof.
  intros Hs Hw. unfold held_z, held. rewrite Hs, Hw. simpl.
  by rewrite (bool_decide_ext (Some w = Some w') (w' = w)) by naive_solver.
Qed.

Lemma leases_held db k r w :
  dispatch_jobs db !! k = Some r -> jr_state r = sql_leased -> jr_lease_worker_id r = Some w ->
  (0 < leases db w)%Z.
Proof.
  intros Hk Hs Hw.
  pose proof (leases_update db k r (settle_row "" 0 None 0 r) ∅ ∅ w Hk) as Hu.
  rewrite (held_z_leased w w r Hs Hw), bool_decide_eq_true_2 in Hu by done.
  unfold held_z, held in Hu. simpl in Hu. unfold leases in *. lia.
Qed.

(** Settling a lease of [w] and releasing a slot of [w] go together. *)
Lemma accounted_settle db k r r' att w now :
  accounted db -> dispatch_jobs db !! k = Some r -> jr_state r = sql_leased ->
  jr_lease_worker_id r = Some w -> jr_state r' <> sql_leased ->
  accounted (release_worker now w {| dispatch_jobs := <[k := r']> (dispatch_jobs db);
    dispatch_attempts := att; worker_registrations := worker_registrations db |}).
Proof.
  intros Hac Hk Hs Hw Hs' w' wr. unfold release_worker. simpl. rewrite update_all_lookup.
  intros (wr0 & Hwr & ->)%fmap_Some. destruct (Hac _ _ Hwr) as [A1 A2].
  change (leases (set_workers ?d _)) with (leases d).
  rewrite (leases_update _ _ _ _ _ _ _ Hk).
  assert (held_z w' r' = 0%Z) as -> by (unfold held_z, held; by rewrite bool_decide_eq_false_2).
  assert (0 <= leases db w')%Z by (unfold leases; lia).
  rewrite (held_z_leased w' w r Hs Hw). case_bool_decide as Hc; simplify_eq/=; [|unfold id; lia].
  rewrite A1. pose proof (leases_held db k r w Hk Hs Hw) as Hpos.
  rewrite (proj2 (Z.ltb_lt _ _) Hpos). lia.
Qed.

Lemma accounted_frame db jobs att :
  accounted db -> (forall w, leases (set_jobs db jobs) w = leases db w) ->
  accounted {| dispatch_jobs := jobs; dispatch_attempts := att;
               worker_registrations := worker_registrations db |}.
Proof.
  intros Hac Hl w wr Hw. specialize (Hac w wr Hw). rewrite <- Hl in Hac. exact Hac.
Qed.

Lemma accounted_keep db k r r' att :
  accounted db -> dispatch_jobs db !! k = Some r -> (forall w, held w r' = held w r) ->
  accounted {| dispatch_jobs := <[k := r']> (dispatch_jobs db); dispatch_attempts := att;
               worker_registrations := worker_registrations db |}.
Proof.
  intros Hac Hk Hh. apply accounted_frame; [done|]. intros w. unfold set_jobs.
  rewrite (leases_update _ _ _ _ _ _ _ Hk). unfold held_z. rewrite Hh. lia.
Qed.

Lemma held_cancel now w r : cancelable r = true -> held w (cancel_row now r) = held w r.
Proof.
  unfold held, cancelable. simpl. case_bool_decide as E; [|done]. intros _. by rewrite E.
Qed.

Lemma accounted_worker db w f :
  accounted db -> (forall r, wr_active_jobs (f r) = wr_active_jobs r /\ wr_capacity (f r) = wr_capacity r) ->
  accounted (set_workers db (update_at w (fun _ => true) f (worker_registrations db)).1).
Proof.
  intros Hac Hf w' wr. simpl. rewrite update_all_lookup. intros (wr0 & Hwr & ->)%fmap_Some.
  change (leases (set_workers ?d _)) with (leases d).
  destruct (Hac _ _ Hwr). case_bool_decide; [|done]. by destruct (Hf wr0) as [-> ->].
Qed.

Lemma requireWorkerRow_accounted db w f :
  accounted db -> (forall r, wr_active_jobs (f r) = wr_active_jobs r /\ wr_capacity (f r) = wr_capacity r) ->
  accounted (commit_db db (requireWorkerRow db
    (update_at w (fun _ => true) f (worker_registrations db)))).
Proof.
  intros Hac Hf. unfold requireWorkerRow. case_match; simpl; [done|]. by apply accounted_worker.
Qed.

Section capacity.
Context {RT : GoRuntime} `{!Sorter claim_order}.

(** Workers register while they hold no lease, as the comment on
    [RegisterWorker] assumes. *)
Definition clean (op : Op) (db : DB) : Prop :=
  match op with
  | ORegisterWorker _ w => leases db (w_ID w) = 0%Z
  | _ => True
  end.

Inductive reachable_clean : DB -> Prop :=
  | clean_empty : reachable_clean empty_db
  | clean_step db op : reachable_clean db -> clean op db -> reachable_clean (exec op db).

Lemma claim_accounted env req db :
  Inv db -> accounted db -> accounted (commit db (claim env req db)).
Proof.
  intros HI Hac. destruct (claim env req db) as [[c db']|] eqn:Hc; simpl; [|done].
  apply claim_inv in Hc as (wrow & r & e & Hw & _ & _ & Hlt & Hr & _ & _ & Hs & _ & _ & _ & ->); [|done].
  intros w' wr. unfold bump_worker. simpl. rewrite update_all_lookup.
  intros (wr0 & Hwr & ->)%fmap_Some. destruct (Hac _ _ Hwr) as [A1 A2].
  change (leases (set_workers ?d _)) with (leases d).
  rewrite (leases_update _ _ _ _ _ _ _ Hr).
  assert (held_z w' r = 0%Z) as -> by (unfold held_z, held; by rewrite Hs).
  rewrite (held_z_leased w' (cr_WorkerID req)) by done.
  case_bool_decide; simplify_eq/=; unfold id; lia.
Qed.

Lemma finish_accounted now j a t res db :
  Inv db -> accounted db -> accounted (commit_db db (finish now j a t res db)).
Proof.
  intros HI Hac. destruct (finish now j a t res db) as [db'|] eqn:Hf; simpl; [|done].
  apply finish_inv in Hf as (r & ar & aS & jS & av & msg & Hr & Hs & Har & Hk & Hact & Hl & _ & Ho & ->);
    [|done].
  destruct (finish_outcome_spec _ _ _ _ _ _ _ _ Ho) as (_ & _ & G3 & _).
  eapply accounted_settle; eauto. unfold leased_by, lease_cols in Hl. congruence.
Qed.

Lemma reclaim_accounted now cutoff db :
  Inv db -> accounted db -> accounted (reclaimExpired now cutoff db).2.
Proof.
  intros HI Hac. destruct (reclaimExpired_spec now cutoff db HI) as (_ & _ & HP & _).
  apply HP; [done|]. intros db1 k r HI1 Hac1 Hr Hs.
  destruct (reclaim_one_ok now _ _ _ HI1 Hr Hs) as (a & ar & _ & _ & _ & Hl & ->). simpl.
  eapply accounted_settle; eauto.
  - unfold leased_by, lease_cols in Hl. congruence.
  - simpl. apply (expired_state_spec now (expired_of r)).
Qed.

Lemma enqueue_accounted id now job db :
  accounted db -> accounted (commit db (Enqueue id now job db)).
Proof.
  intros Hac. unfold Enqueue. destruct (is_empty (trim_space _)); [done|].
  destruct (_ <=? _)%Z; [done|]. destruct (negb _); [done|].
  destruct (_ || _) eqn:E; rsimpl; [unfold getJobByKey; by destruct (row_by_key _ _)|].
  apply orb_false_iff in E as [E%bool_decide_eq_false _].
  apply accounted_frame; [done|]. intros w. unfold leases; simpl.
  rewrite count_rows_insert_new; [done|]. by apply eq_None_not_Some.
Qed.

Lemma exec_accounted op db : Inv db -> accounted db -> clean op db -> accounted (exec op db).
Proof.
  intros HI Hac Hcl. destruct op; simpl.
  - by apply enqueue_accounted.
  - unfold RegisterWorker. destruct (is_empty _); [done|]. destruct (negb _); [done|].
    destruct (w_Capacity worker <=? 0)%Z eqn:Hc; [done|]. simpl. intros w wr. simpl.
    change (leases (set_workers ?d _)) with (leases d).
    destruct (decide (w = w_ID worker)) as [->|Hne].
    + rewrite lookup_insert_eq. intros [= <-]. simpl in *. rewrite Hcl. split; [done|]. lia.
    + rewrite lookup_insert_ne by done. apply Hac.
  - by apply requireWorkerRow_accounted.
  - by apply requireWorkerRow_accounted.
  - by apply claim_accounted.
  - destruct (heartbeat _ _ _ _ _ _ _) as [[hr db']|] eqn:Hh; simpl; [|done].
    apply heartbeat_inv in Hh as (r & ar & e & Hr & Hs & _ & _ & _ & _ & _ & _ & _ & ->).
    by eapply accounted_keep.
  - by apply finish_accounted.
  - unfold RequestCancel.
    destruct (update_at_spec jobID cancelable (cancel_row now) (dispatch_jobs db))
      as [(r & Hr & Hc & ->)|[_ ->]]; simpl; [|done].
    eapply accounted_keep; eauto using held_cancel.
  - unfold RequestCancelFor, update_where; simpl. apply accounted_frame; [done|].
    intros w. unfold leases; simpl. f_equal. apply count_rows_fmap. intros k r _.
    destruct (_ && _) eqn:E; [|done]. apply andb_true_iff in E as [_ E]. by apply held_cancel.
  - unfold ReleaseAffinity.
    destruct (update_at_spec jobID (fun r => bool_decide (jr_state r = JobQueued)) (release_row now)
      (dispatch_jobs db)) as [(r & Hr & Hc & ->)|[_ ->]]; simpl; [|done].
    by eapply accounted_keep.
  - by apply reclaim_accounted.
Qed.

(** When workers register without holding leases, the counter
    [active_jobs] of a worker is at all times the number of leases it holds,
    and that never exceeds its capacity: the clamp at zero in the decrements
    is never what keeps the counter right. *)
Theorem capacity_respected (db : DB) (w : string) (wr : WorkerRow) :
  reachable_clean db -> worker_registrations db !! w = Some wr ->
  wr_active_jobs wr = leases db w /\ (leases db w <= wr_capacity wr)%Z.
Proof.
  intros Hr. enough (Inv db /\ accounted db) as [_ Hac] by apply Hac.
  induction Hr as [|db op Hr [HI Hac] Hcl].
  - split; [apply Inv_empty|]. intros w' wr' H. simpl in H. by rewrite lookup_empty in H.
  - split; [by apply exec_sound|by apply exec_accounted].
Qed.
End capacity.

(** ** Lock contention *)

Section busy_facts.
Context {S E A : Type} (isBusy : E -> bool) (ctx_err : E) (ctx_done : nat -> bool).
Context (op : nat -> S -> result E A * S).

(** A transaction that meets a locked database commits nothing. *)
Hypothesis busy_rolls_back : forall i s e, (op i s).1 = Err e -> isBusy e = true -> (op i s).2 = s.

Definition busy_result (r : result E A) : bool :=
  match r with Err e => isBusy e | Ok _ => false end.

Lemma retry_loop_spec delays attempt s :
  exists i, attempt <= i <= attempt + length delays /\
    (forall j, attempt <= j < i -> busy_result (op j s).1 = true) /\
    (retry_loop isBusy ctx_err ctx_done op attempt delays (op attempt s) = op i s /\
       (i < attempt + length delays -> busy_result (op i s).1 = false)
     \/ retry_loop isBusy ctx_err ctx_done op attempt delays (op attempt s) = (Err ctx_err, s) /\
        ctx_done i = true).
Proof.
  revert attempt. induction delays as [|d ds IH]; intros n; simpl.
  { exists n. split; [lia|]. split; [lia|]. left. split; [done|lia]. }
  destruct (op n s).1 as [v|e] eqn:E1.
  { exists n. split; [lia|split; [lia|left]]. split; [done|]. by rewrite E1. }
  destruct (isBusy e) eqn:E2.
  - rewrite (busy_rolls_back _ _ _ E1 E2). destruct (ctx_done n) eqn:Ed.
    + exists n. split; [lia|split; [lia|right; done]].
    + destruct (IH (Datatypes.S n)) as (i & Hi & Hb & Hr). exists i. split; [lia|]. split.
      * intros j Hj. destruct (decide (j = n)) as [->|]; [by rewrite E1|apply Hb; lia].
      * destruct Hr as [[-> Hd]|Hr]; [left; split; [done|]|by right]. intros; apply Hd; lia.
  - exists n. split; [lia|split; [lia|left]]. split; [done|]. by rewrite E1.
Qed.
End busy_facts.

(** [retryOnBusy] runs the transaction at most five times, each time on the
    unchanged database, and its effect is that of exactly one run: the first one
    that does not meet a locked database (or the last one allowed); only a
    canceled context ends it otherwise, with nothing committed. *)
Theorem retryOnBusy_once {S E A : Type} (isBusy : E -> bool) (ctx_err : E) (ctx_done : nat -> bool)
    (op : nat -> S -> result E A * S) (s : S) :
  (forall i s e, (op i s).1 = Err e -> isBusy e = true -> (op i s).2 = s) ->
  exists i, i <= 4 /\ (forall j, j < i -> busy_result isBusy (op j s).1 = true) /\
    ((retryOnBusy isBusy ctx_err ctx_done op s = op i s /\
      (i < 4 -> busy_result isBusy (op i s).1 = false))
     \/ (retryOnBusy isBusy ctx_err ctx_done op s = (Err ctx_err, s) /\ ctx_done i = true)).
Proof.
  intros H. destruct (retry_loop_spec isBusy ctx_err ctx_done op H busyRetryDelays 0 s)
    as (i & Hi & Hb & Hr). exists i. simpl in Hi. split; [lia|]. split; [intros; apply Hb; lia|].
  exact Hr.
Qed.

(** ** Running the queue *)

#[local] Instance example_sorter : Sorter claim_order := merge_sorter claim_order.
#[local] Instance example_runtime : GoRuntime := literal_runtime.

Definition example_job (id key : string) : Job := {|
  j_ID := id; j_IdempotencyKey := key; j_ProjectID := "p"; j_SourceID := "gh"; j_TaskID := "t";
  j_WorkflowID := "wf"; j_AgentID := "coder"; j_RunnerID := ""; j_Pool := "";
  j_RequiredLabels := []; j_RequiredCapabilities := ["git"]; j_AffinityKey := "";
  j_AffinityWorkerID := ""; j_PayloadVersion := 1; j_Payload := "{}"; j_Priority := 0;
  j_State := ""; j_AttemptCount := 0; j_MaxAttempts := 0; j_CancelRequested := false;
  j_AvailableAt := 0; j_LeaseExpiresAt := None; j_CreatedAt := 0; j_UpdatedAt := 0 |}.

Definition example_worker : Worker := {|
  w_ID := "w"; w_ProtocolVersion := 1; w_Pool := ""; w_Labels := []; w_Capabilities := ["git"];
  w_Capacity := 1; w_Ready := true; w_Draining := false; w_ActiveJobs := 0;
  w_LastHeartbeat := 0; w_RegisteredAt := 0 |}.

Definition example_policy : ConcurrencyPolicy := {|
  DefaultProject := 2; Projects := ∅; DefaultSource := 0; Sources := ∅; DefaultAgent := 0;
  Agents := {[ "coder" := 2%Z ]}; DefaultRunner := 0; Runners := ∅; DefaultPool := 0; Pools := ∅ |}.

Definition example_request : ClaimRequest := {|
  cr_WorkerID := "w"; cr_LeaseDuration := 0; cr_WorkerTimeout := 0; cr_Policy := example_policy |}.

Definition sec (n : Z) : Z := (n * second)%Z.

Definition claim_at (t : Z) (a tok : string) : Op :=
  OClaim {| ce_health := sec t; ce_query := sec t; ce_now := sec t;
            ce_attemptID := a; ce_claimToken := tok |} example_request.

Definition setup_trace : list Op :=
  [ORegisterWorker (sec 1) example_worker;
   OEnqueue "x" (sec 2) (example_job "j1" "k1"); OEnqueue "x" (sec 3) (example_job "j2" "k2")].

Definition setup_db : DB := run setup_trace empty_db.
Definition claimed_db : DB := run [claim_at 10 "a1" "t1"] setup_db.

Lemma run_reachable ops db : reachable db -> reachable (run ops db).
Proof.
  revert db. induction ops as [|op ops IH]; intros db Hr; simpl; [done|]. by apply IH, reach_step.
Qed.

Lemma setup_reachable : reachable setup_db.
Proof. apply run_reachable, reach_empty. Qed.

Lemma claimed_reachable : reachable claimed_db.
Proof. apply run_reachable, setup_reachable. Qed.

(** Registering again resets [active_jobs] while an old lease is still
    open. When that lease later expires, its reclaim takes the slot of the lease
    the new process holds, and a worker of capacity 1 holds two live leases. *)
Theorem reregistration_exceeds_capacity :
  let db := run [claim_at 10 "a1" "t1"; ORegisterWorker (sec 20) example_worker;
                 claim_at 21 "a2" "t2"; OReclaimExpired (sec 45) (sec 45);
                 claim_at 46 "a3" "t3"] setup_db in
  (exists wr, worker_registrations db !! "w" = Some wr /\
     wr_capacity wr = 1%Z /\ wr_active_jobs wr = 1%Z) /\
  leases db "w" = 2%Z /\
  (exists r1 r2, dispatch_jobs db !! "j1" = Some r1 /\ dispatch_jobs db !! "j2" = Some r2 /\
     jr_lease_attempt_id r1 = Some "a3" /\ jr_lease_attempt_id r2 = Some "a2" /\
     jr_lease_expires_at r1 = Some (sec 76) /\ jr_lease_expires_at r2 = Some (sec 51)).
Proof.
  vm_compute. split; [eexists; split; [reflexivity|split; reflexivity]|].
  split; [reflexivity|]. eexists _, _. repeat split.
Qed.

(** The store writes the state ['leased'], which is no [JobState]: the job a
    claim returns says [JobLeased] ("running"), the same job read back says
    "leased", and listing by [JobLeased] finds no leased job. *)
Theorem leased_is_not_JobLeased (env : ClaimEnv) (req : ClaimRequest) (db : DB) (c : Claim) (db' : DB)
    `{!Sorter newest_first} :
  reachable db -> claim env req db = Ok (c, db') ->
  j_State (c_Job c) = JobLeased /\
  (exists job, GetJob (j_ID (c_Job c)) db' = Ok job /\ j_State job = "leased") /\
  (forall limit, ListJobs JobLeased limit db' = []).
Proof.
  intros HR%reachable_Inv Hc. pose proof (claim_sound env req db HR) as Hs. rewrite Hc in Hs. simpl in Hs.
  apply claim_inv in Hc as (wrow & r & e & _ & _ & _ & _ & Hr & _ & _ & _ & _ & _ & Hj & Hdb); [|done].
  split_and!.
  - by rewrite Hj.
  - unfold GetJob. rewrite Hdb. simpl. rewrite lookup_insert_eq. by eexists.
  - intros limit. unfold ListJobs.
    assert (List.filter (fun r => is_empty JobLeased || bool_decide (jr_state r = JobLeased))
              (rows (dispatch_jobs db')) = []) as Hf.
    { apply elem_of_nil_inv. intros x Hx.
      rewrite list_elem_of_In, filter_In, <- list_elem_of_In, elem_of_rows in Hx.
      destruct Hx as [[k Hk] Hx]. simpl in Hx. apply bool_decide_eq_true in Hx.
      pose proof (ji_state _ _ _ (inv_jobs _ (ss_inv _ _ Hs) _ _ Hk)) as Hst.
      unfold job_states in Hst. rewrite Hx, !elem_of_cons, elem_of_nil in Hst. naive_solver. }
    rewrite Hf. replace (sort_by newest_first []) with (@nil JobRow); [by rewrite take_nil|].
    symmetry. apply Permutation_nil_r. by rewrite sort_by_perm.
Qed.

(** ** Witnesses *)

Definition row_at (k : string) (db : DB) : JobRow :=
  default (newJobRow (example_job "" "") 0) (dispatch_jobs db !! k).

Lemma queue_invariant_witness : Inv claimed_db.
Proof. apply queue_invariant. exact claimed_reachable. Defined.

Lemma queue_refines_lifecycle_witness :
  exists r', dispatch_jobs claimed_db !! "j1" = Some r' /\ jr_snap r' = jr_snap (row_at "j1" setup_db) /\
             (view r' = view (row_at "j1" setup_db) \/ lifecycle (view (row_at "j1" setup_db)) (view r')).
Proof.
  apply (queue_refines_lifecycle (claim_at 10 "a1" "t1") setup_db setup_reachable).
  vm_compute. reflexivity.
Defined.

Definition canceled_db : DB := run [ORequestCancel (sec 5) "j2"] setup_db.

Lemma queue_terminal_and_cancel_witness :
  exists r', dispatch_jobs (run [claim_at 10 "a1" "t1"; claim_at 11 "a2" "t2"] canceled_db) !! "j2"
             = Some r' /\ view r' = View (Finished "canceled") 0 3 true.
Proof.
  destruct (queue_terminal_and_cancel [claim_at 10 "a1" "t1"; claim_at 11 "a2" "t2"] canceled_db "j2"
              (row_at "j2" canceled_db)) as (r' & H1 & _ & H3 & _).
  - apply run_reachable, setup_reachable.
  - vm_compute. reflexivity.
  - exists r'. split; [exact H1|]. rewrite H3; vm_compute; reflexivity.
Defined.

Definition expired_db : DB := run [OReclaimExpired (sec 41) (sec 41)] claimed_db.

Definition attempt_at (a : string) (db : DB) : AttemptRow :=
  default {| ar_job_id := ""; ar_attempt_number := 0; ar_worker_id := ""; ar_claim_token := "";
             ar_state := ""; ar_lease_expires_at := 0; ar_heartbeat_at := 0; ar_started_at := 0;
             ar_finished_at := None; ar_error_message := None |} (dispatch_attempts db !! a).

(** The worker whose lease expired cannot finish the job another worker took. *)
Lemma stale_claim_fenced_witness :
  finish (sec 50) "j1" "a1" "t1"
    {| fr_Success := true; fr_Error := ""; fr_Note := ""; fr_Retry := false; fr_RetryAt := None |}
    (run [OHeartbeatWorker (sec 42) (sec 42) "w" true; claim_at 43 "a2" "t2"] expired_db)
  = Err ErrStaleClaim.
Proof.
  apply (stale_claim_fenced expired_db "a1" (attempt_at "a1" expired_db)).
  - apply run_reachable, claimed_reachable.
  - vm_compute. reflexivity.
  - vm_compute. discriminate.
Defined.

Definition enqueued : result QueueError (bool * Job * DB) :=
  Enqueue "x" (sec 2) (example_job "j1" "k1") empty_db.

Lemma enqueue_idempotent_witness :
  match enqueued with
  | Ok (_, job1, db1) => exists existing,
      Enqueue "y" (sec 9) (example_job "j9" "k1") (run [claim_at 3 "a" "t"] db1)
      = Ok (false, existing, run [claim_at 3 "a" "t"] db1) /\ j_ID existing = "j1"
  | Err _ => False
  end.
Proof.
  destruct enqueued as [[[b job1] db1]|e] eqn:E; [|vm_compute in E; discriminate].
  assert (b = true) as -> by (vm_compute in E; congruence).
  destruct (enqueue_idempotent empty_db "x" (sec 2) (example_job "j1" "k1") job1 db1
              [claim_at 3 "a" "t"] "y" (sec 9) (example_job "j9" "k1")) as (ex & H1 & H2 & _).
  - apply reach_empty.
  - exact E.
  - split; [vm_compute; discriminate|split; [reflexivity|vm_compute; reflexivity]].
  - reflexivity.
  - exists ex. split; [exact H1|]. rewrite H2. vm_compute in E. injection E as <- _. reflexivity.
Defined.

Definition claim_result : result QueueError (Claim * DB) :=
  claim {| ce_health := sec 10; ce_query := sec 10; ce_now := sec 10;
           ce_attemptID := "a1"; ce_claimToken := "t1" |} example_request setup_db.

Lemma claim_selects_witness :
  match claim_result with
  | Ok (c, _) => j_ID (c_Job c) = "j1" /\
      exists r, dispatch_jobs setup_db !! "j1" = Some r /\
        forall r2, r2 ∈ candidates (sec 10) "w" setup_db ->
          runnable {| ce_health := sec 10; ce_query := sec 10; ce_now := sec 10;
                      ce_attemptID := "a1"; ce_claimToken := "t1" |} example_request
            (default (worker_cols true false 0 0 0
               {| wr_protocol_version := 0; wr_pool := None; wr_labels := []; wr_capabilities := [];
                  wr_capacity := 0; wr_ready := true; wr_draining := false; wr_active_jobs := 0;
                  wr_last_heartbeat := 0; wr_registered_at := 0; wr_updated_at := 0 |})
               (worker_registrations setup_db !! "w")) setup_db r2 ->
          r2 = r \/ claim_order r r2
  | Err _ => False
  end.
Proof.
  destruct claim_result as [[c db']|e] eqn:E; [|vm_compute in E; discriminate].
  assert (j_ID (c_Job c) = "j1") as Hid by (vm_compute in E; injection E as <- _; reflexivity).
  split; [exact Hid|].
  destruct (claim_selects _ _ _ _ _ setup_reachable E) as (wrow & r & Hw & _ & _ & _ & Hr & _ & H).
  rewrite Hid in Hr. exists r. split; [exact Hr|].
  change (cr_WorkerID example_request) with "w" in Hw. rewrite Hw. exact H.
Defined.

Lemma claim_progress_witness :
  exists c db', claim {| ce_health := sec 10; ce_query := sec 10; ce_now := sec 10;
    ce_attemptID := "a1"; ce_claimToken := "t1" |} example_request setup_db = Ok (c, db').
Proof.
  destruct (worker_registrations setup_db !! "w") as [wrow|] eqn:Hw; [|vm_compute in Hw; discriminate].
  assert (Hw' := Hw). vm_compute in Hw'. injection Hw' as Hwr.
  apply (claim_progress _ example_request setup_db wrow "j1" (row_at "j1" setup_db) setup_reachable Hw).
  - subst wrow. reflexivity.
  - subst wrow. reflexivity.
  - subst wrow. vm_compute. discriminate.
  - subst wrow. reflexivity.
  - vm_compute. reflexivity.
  - replace (count_rows _ _) with 2 by (vm_compute; reflexivity). lia.
  - vm_compute. reflexivity.
  - subst wrow. split; [vm_compute; reflexivity|split; vm_compute; reflexivity].
Defined.

Lemma claim_respects_policy_witness :
  match claim_result with
  | Ok (c, db') => (activeIn db' sn_agent_id "coder" <= 2)%Z
  | Err _ => False
  end.
Proof.
  destruct claim_result as [[c db']|e] eqn:E; [|vm_compute in E; discriminate].
  apply (claim_respects_policy _ _ _ _ _
    {| pc_field := sn_agent_id; pc_value := "coder"; pc_limit := 2 |} setup_reachable E);
    [|reflexivity|discriminate].
  vm_compute in E. injection E as <- _.
  apply list_elem_of_further, list_elem_of_further, list_elem_of_here.
Defined.

Lemma claimed_clean : reachable_clean claimed_db.
Proof.
  unfold claimed_db, setup_db, setup_trace, run. cbn [foldl].
  repeat (apply clean_step; [|exact I || (vm_compute; reflexivity)]). apply clean_empty.
Qed.

Lemma capacity_respected_witness : leases claimed_db "w" = 1%Z /\ (leases claimed_db "w" <= 1)%Z.
Proof.
  destruct (worker_registrations claimed_db !! "w") as [wr|] eqn:Hw; [|vm_compute in Hw; discriminate].
  destruct (capacity_respected claimed_db "w" wr claimed_clean Hw) as [_ H].
  assert (wr_capacity wr = 1%Z) as Hc by (vm_compute in Hw; injection Hw as <-; reflexivity).
  rewrite Hc in H. split; [vm_compute; reflexivity|exact H].
Defined.

(** A transaction that finds the database locked twice and then commits. *)
Definition busy_op (i : nat) (s : nat) : result bool nat * nat :=
  if (i <? 2)%nat then (Err true, s) else (Ok s, Datatypes.S s).

Lemma retryOnBusy_once_witness :
  exists i, i <= 4 /\ retryOnBusy (fun b => b) false (fun _ => false) busy_op 7 = busy_op i 7.
Proof.
  destruct (retryOnBusy_once (fun b : bool => b) false (fun _ => false) busy_op 7)
    as (i & Hi & _ & [[H _]|[_ H]]).
  - intros i s e. unfold busy_op. destruct (i <? 2)%nat; [reflexivity|discriminate].
  - exists i. split; [exact Hi|exact H].
  - discriminate H.
Defined.

#[local] Instance example_newest : Sorter newest_first := merge_sorter newest_first.

Lemma leased_is_not_JobLeased_witness :
  match claim_result with
  | Ok (_, db') => ListJobs JobLeased 0 db' = [] /\ length (ListJobs "leased" 0 db') = 1
  | Err _ => False
  end.
Proof.
  destruct claim_result as [[c db']|e] eqn:E; [|vm_compute in E; discriminate].
  destruct (leased_is_not_JobLeased _ _ _ _ _ setup_reachable E) as (_ & _ & H).
  split; [apply H|]. vm_compute in E. injection E as _ <-. vm_compute. reflexivity.
Defined.
