(* ===== verification/Graph.v ===== *)
(** * Depth-first marking

    The scheduler marks step graphs by recursive closures over shared state
    ([markSkipped], the [mark] of [resetLoop]). Both are instances of one
    marking: close a node, then recurse into every open node an edge leads to.
    The fuel is the number of open nodes, and the result is exactly the set of
    nodes reachable through open ones. *)

From S2P Require Import Prelude.
From stdpp Require Import base gmap strings list.

Section dfs.
Context {S : Type} (open : S -> string -> bool) (close : string -> S -> S).
Context (edge : string -> string -> bool) (order : list string).
Hypothesis open_close : forall x s y,
  open (close x s) y = open s y && negb (bool_decide (y = x)).

Fixpoint dfs (fuel : nat) (x : string) (s : S) : S :=
  match fuel with
  | O => close x s
  | Datatypes.S f =>
      foldl (fun s o => if open s o && edge x o then dfs f o s else s) (close x s) order
  end.

(** Reachable from [x] through nodes that are open in [s]. *)
Inductive reach (s : S) (x : string) : string -> Prop :=
  | reach_refl : reach s x x
  | reach_edge y z : reach s x y -> z ∈ order -> edge y z = true -> open s z = true -> reach s x z.

Definition cnt (s : S) : nat := length (List.filter (open s) order).

Lemma open_closes s l y : open (foldr close s l) y = open s y && negb (bool_decide (y ∈ l)).
Proof using open_close.
  clear edge order. induction l as [|x l IH]; cbn [foldr].
  - rewrite bool_decide_eq_false_2 by apply not_elem_of_nil. by rewrite andb_true_r.
  - rewrite open_close, IH, <- andb_assoc. f_equal.
    rewrite <- negb_orb. f_equal. rewrite <- bool_decide_or.
    apply bool_decide_ext. rewrite elem_of_cons. tauto.
Qed.

Lemma filter_le (p q : string -> bool) l :
  (forall x, p x = true -> q x = true) -> length (List.filter p l) <= length (List.filter q l).
Proof.
  intros H. induction l as [|x l IH]; simpl; [lia|].
  destruct (p x) eqn:E; [rewrite (H _ E); simpl; lia|destruct (q x); simpl; lia].
Qed.

Lemma filter_lt (p q : string -> bool) l x :
  (forall y, p y = true -> q y = true) -> x ∈ l -> q x = true -> p x = false ->
  length (List.filter p l) < length (List.filter q l).
Proof.
  intros H Hx Hq Hp. induction l as [|y l IH]; [by apply elem_of_nil in Hx|].
  pose proof (filter_le p q l H). simpl. apply elem_of_cons in Hx as [<-|Hx].
  - rewrite Hp, Hq. simpl. lia.
  - specialize (IH Hx). destruct (p y) eqn:E; [rewrite (H _ E); simpl; lia|destruct (q y); simpl; lia].
Qed.

Lemma cnt_closes s l : cnt (foldr close s l) <= cnt s.
Proof. apply filter_le. intros x. rewrite open_closes. by intros [? _]%andb_true_iff. Qed.

Lemma cnt_close s o : o ∈ order -> open s o = true -> cnt (close o s) < cnt s.
Proof.
  intros Ho Hop. apply (filter_lt _ _ _ o); [|done..|].
  - intros y. rewrite open_close. by intros [? _]%andb_true_iff.
  - rewrite open_close, bool_decide_eq_true_2 by done. by rewrite andb_false_r.
Qed.

Lemma reach_mono s s' x y :
  (forall z, open s' z = true -> open s z = true) -> reach s' x y -> reach s x y.
Proof. intros H. induction 1; [constructor|]. eapply reach_edge; eauto. Qed.

Lemma reach_trans s x y z : reach s x y -> reach s y z -> reach s x z.
Proof. intros H. induction 1; [done|]. eapply reach_edge; eauto. Qed.

(** The marking only closes nodes, whatever the fuel, and always its root. *)
Lemma dfs_shrinks fuel x s y : open (dfs fuel x s) y = true -> open (close x s) y = true.
Proof.
  revert x s. induction fuel as [|f IH]; intros x s; simpl; [done|].
  generalize (close x s). induction order as [|o os IHo]; intros s0; simpl; [done|].
  intros H%IHo. destruct (_ && _); [|done]. apply IH in H. rewrite open_close in H.
  by apply andb_true_iff in H as [? _].
Qed.

Lemma dfs_root fuel x s : open (dfs fuel x s) x = false.
Proof.
  destruct (open (dfs fuel x s) x) eqn:E; [|done]. apply dfs_shrinks in E.
  rewrite open_close, bool_decide_eq_true_2, andb_false_r in E by done. done.
Qed.

(** What the marking of [x] closed: [x] and the open nodes reachable from it,
    and then nothing open is one edge away. *)
Definition marks (s : S) (x : string) (s' : S) (l : list string) : Prop :=
  s' = foldr close (close x s) l /\
  (forall y, y ∈ l -> y ∈ order /\ open (close x s) y = true /\ reach s x y) /\
  (forall y o, y = x \/ y ∈ l -> o ∈ order -> edge y o = true -> open s' o = false).

(** The loop over the nodes, given that the recursive calls mark correctly. *)
Section loop.
Context (f : nat) (x : string) (s : S).
Hypothesis IH : forall o s1, cnt (close o s1) <= f -> exists l, marks s1 o (dfs f o s1) l.
Let s0 := close x s.
Hypothesis enough : cnt s0 <= Datatypes.S f.

Definition loop_ok (l : list string) : Prop :=
  (forall y, y ∈ l -> y ∈ order /\ open s0 y = true /\ reach s x y) /\
  (forall y o, y ∈ l -> o ∈ order -> edge y o = true -> open (foldr close s0 l) o = false).

Lemma closed_more l l' o :
  (forall z, z ∈ l -> z ∈ l') -> open (foldr close s0 l) o = false ->
  open (foldr close s0 l') o = false.
Proof.
  intros Hsub. rewrite !open_closes, !andb_false_iff, !negb_false_iff, !bool_decide_eq_true.
  naive_solver.
Qed.

Lemma loop_call l o :
  loop_ok l -> o ∈ order -> open (foldr close s0 l) o = true -> edge x o = true ->
  exists l2, dfs f o (foldr close s0 l) = foldr close s0 (l2 ++ o :: l) /\ loop_ok (l2 ++ o :: l).
Proof.
  intros [Hl Hcl] Ho Eo Ee.
  destruct (IH o (foldr close s0 l)) as (l2 & -> & Hl2 & Hcl2).
  { pose proof (cnt_close _ _ Ho Eo). pose proof (cnt_closes s0 l). lia. }
  assert (foldr close (close o (foldr close s0 l)) l2 = foldr close s0 (l2 ++ o :: l)) as Happ
    by (by rewrite foldr_app).
  rewrite Happ in *. exists l2. split; [done|].
  assert (forall z, open (foldr close s0 l) z = true -> open s0 z = true) as Hmono
    by (intros z; rewrite open_closes; by intros [? _]%andb_true_iff).
  assert (forall z, open s0 z = true -> open s z = true) as Hmono0
    by (intros z; unfold s0; rewrite open_close; by intros [? _]%andb_true_iff).
  assert (reach s x o) as Hro by (eapply reach_edge; eauto; constructor).
  split.
  - intros y [Hy|[->|Hy]%elem_of_cons]%elem_of_app; [|by split_and!; auto|by apply Hl].
    destruct (Hl2 _ Hy) as (Y1 & Y2 & Y3). rewrite open_close in Y2.
    apply andb_true_iff in Y2 as [Y2 _]. split_and!; auto.
    eapply reach_trans; [exact Hro|]. eapply reach_mono; [|exact Y3]. auto.
  - intros y o' [Hy|[->|Hy]%elem_of_cons]%elem_of_app Ho' He'; [by eapply Hcl2; eauto..|].
    apply (closed_more l); [|by apply (Hcl y)]. intros z Hz. rewrite elem_of_app, elem_of_cons. auto.
Qed.

Lemma loop_marks os l :
  os ⊆ order -> loop_ok l ->
  exists l', (forall z, z ∈ l -> z ∈ l') /\
    foldl (fun s o => if open s o && edge x o then dfs f o s else s) (foldr close s0 l) os
      = foldr close s0 l' /\ loop_ok l' /\
    (forall o, o ∈ os -> edge x o = true -> open (foldr close s0 l') o = false).
Proof.
  revert l. induction os as [|o os IHos]; intros l Hos Hl; simpl.
  { exists l. split_and!; try done. intros o Ho. by apply elem_of_nil in Ho. }
  assert (o ∈ order) as Ho by (apply Hos, list_elem_of_here).
  assert (os ⊆ order) as Hos' by (intros z Hz; by apply Hos, list_elem_of_further).
  destruct (open (foldr close s0 l) o && edge x o) eqn:E.
  - apply andb_true_iff in E as [Eo Ee].
    destruct (loop_call l o Hl Ho Eo Ee) as (l2 & -> & Hok).
    destruct (IHos _ Hos' Hok) as (l' & Hsub & H1 & H2 & H3). exists l'.
    assert (forall z, z ∈ l -> z ∈ l') as Hsub'
      by (intros z Hz; apply Hsub; rewrite elem_of_app, elem_of_cons; auto).
    split_and!; try done. intros z [->|Hz]%elem_of_cons He'; [|by apply H3].
    rewrite open_closes, (bool_decide_eq_true_2 (o ∈ l')), andb_false_r; [done|].
    apply Hsub. rewrite elem_of_app, elem_of_cons. auto.
  - destruct (IHos l Hos' Hl) as (l' & Hsub & H1 & H2 & H3). exists l'. split_and!; try done.
    intros z [->|Hz]%elem_of_cons He'; [|by apply H3].
    rewrite He', andb_true_r in E. by eapply closed_more.
Qed.
End loop.

Lemma dfs_marks fuel x s : cnt (close x s) <= fuel -> exists l, marks s x (dfs fuel x s) l.
Proof.
  revert x s. induction fuel as [|f IH]; intros x s Hf.
  - exists []. split; [done|split; [intros y Hy; by apply elem_of_nil in Hy|]].
    intros y o _ Ho _. simpl. destruct (open (close x s) o) eqn:E; [|done].
    assert (o ∈ List.filter (open (close x s)) order) as Hin
      by (by rewrite list_elem_of_In, filter_In, <- list_elem_of_In).
    unfold cnt in Hf. destruct (List.filter _ _); [by apply elem_of_nil in Hin|simpl in Hf; lia].
  - destruct (loop_marks f x s IH Hf order []) as (l & _ & H1 & [H2 H3] & H4); [done| |].
    { split; intros y; [intros Hy|intros o Hy]; by apply elem_of_nil in Hy. }
    exists l. simpl in *. rewrite H1. split_and!; [done|done|].
    intros y o [->|Hy] Ho He; [by apply H4|by eapply H3].
Qed.
End dfs.
