(* ===== verification/Dag.v ===== *)
(** * The workflow scheduler (src/internal/workflow/dag.go)

    [dagRun] is the mutable state of one instance's step graph; [driveDAG] is the
    scheduler loop. The engine runs I/O-bound steps on goroutines that report on
    a channel, so the model keeps the dispatched steps in a list and an
    environment ([Event], one per pass of the loop) chooses which one reports
    next, with what result, and whether the instance was stopped or its context
    canceled meanwhile. Everything the scheduler goroutine does itself is
    computed: conditions, splits, gates, retries, skips and parks.

    Text that only reaches logs and messages is rendered by the [Diagnostics]
    interface. The durable side effects of a pass (comments, execution events,
    step-run rows, approval requests) are not part of [dagRun]. *)

From S2P Require Import Prelude Model Expr Config Graph.
From stdpp Require Import base gmap strings list.
From Stdlib Require Import ZArith.

(** ** Data *)

Definition stPending := "pending".
Definition stRunning := "running".
Definition stPassed := "passed".
Definition stFailed := "failed".
Definition stSkipped := "skipped".
Definition stCondSkipped := "cond_skipped".
Definition stWaiting := "waiting".

Inductive dagOutcome := outcomeDone | outcomeFailed | outcomeWaiting | outcomeStopped.

(** [MemoryStep] of memory.go. *)
Record MemoryStep := {
  ms_StepID : string;
  ms_WriteFields : list string;
  ms_Structured : gmap string JValue;
  ms_Summary : string;
}.

(** [StepResult] of engine.go, the fields the scheduler reads. *)
Record StepResult := {
  sr_Success : bool;
  sr_Output : string;
  sr_Structured : gmap string JValue;
  sr_Summary : string;
  sr_Pending : bool;
  sr_Conflict : bool;
}.

Definition failed_result (res : StepResult) (out : string) : StepResult := {|
  sr_Success := false; sr_Output := out; sr_Structured := sr_Structured res;
  sr_Summary := sr_Summary res; sr_Pending := sr_Pending res; sr_Conflict := sr_Conflict res |}.

(** A fresh [StepResult{Success: ok, Output: out}]. *)
Definition new_result (ok : bool) (out : string) : StepResult := {|
  sr_Success := ok; sr_Output := out; sr_Structured := ∅; sr_Summary := "";
  sr_Pending := false; sr_Conflict := false |}.

(** The messages the scheduler composes with [fmt.Sprintf]. *)
Inductive diagnostic :=
  | DCondition (src : string) (e : parseError + evalError)
  | DSplit (src : string) (e : parseError + evalError)
  | DFailWhen (src : string) (e : parseError + evalError)
  | DGateUnevaluable (src : string) (unset : list string)
  | DMissingOutput (step : string)
  | DCanceled
  | DJoin (src : string) (e : parseError + evalError)
  | DChildType (ty : string)
  | DWaitConfig (step : string)
  | DWaitKind (step kind : string)
  | DNotConfigured (kind : string)
  | DWaitTimeout (kind : string) (limit : Z)
  | DWaitHold (kind : string) (limit : Z)
  | DNoPullRequest
  | DItemsPath (path : string)
  | DItemsSource (step : string)
  | DItemsObject (path field : string)
  | DItemsField (path field : string)
  | DItemsArray (path : string).

Class Diagnostics := { sprintf : diagnostic -> string }.

(** The state of a run. [byID], [order], [splitTarget], [childByID] are functions
    of the workflow; [stopped] belongs to the loop below. Times are nanoseconds,
    0 the zero time. *)
Record dagRun := {
  r_wf : WorkflowConfig;
  r_cell : SourceItem;
  r_seed : list MemoryStep;
  r_event : gmap string string;
  r_state : gmap string string;
  r_activated : gset string;
  r_retries : gmap string Z;
  r_conflictRetries : gmap string Z;
  r_stepStates : gmap string StepState;
  r_contrib : gmap string MemoryStep;
  r_feedback : gmap string (list MemoryStep);
  r_passedOrder : list string;
  r_waitingStep : string;
  r_parkedAt : Z;
  r_waitingChild : string;
  r_parallelDone : gmap string (gmap string StepResult);
  r_waitDeadline : Z;
}.

Definition set_state (v : gmap string string) (r : dagRun) : dagRun :=
  {| r_wf := r_wf r; r_cell := r_cell r; r_seed := r_seed r; r_event := r_event r; r_state
     := v; r_activated := r_activated r; r_retries := r_retries r; r_conflictRetries :=
     r_conflictRetries r; r_stepStates := r_stepStates r; r_contrib := r_contrib r;
     r_feedback := r_feedback r; r_passedOrder := r_passedOrder r; r_waitingStep :=
     r_waitingStep r; r_parkedAt := r_parkedAt r; r_waitingChild := r_waitingChild r;
     r_parallelDone := r_parallelDone r; r_waitDeadline := r_waitDeadline r |}.
Definition set_activated (v : gset string) (r : dagRun) : dagRun :=
  {| r_wf := r_wf r; r_cell := r_cell r; r_seed := r_seed r; r_event := r_event r; r_state
     := r_state r; r_activated := v; r_retries := r_retries r; r_conflictRetries :=
     r_conflictRetries r; r_stepStates := r_stepStates r; r_contrib := r_contrib r;
     r_feedback := r_feedback r; r_passedOrder := r_passedOrder r; r_waitingStep :=
     r_waitingStep r; r_parkedAt := r_parkedAt r; r_waitingChild := r_waitingChild r;
     r_parallelDone := r_parallelDone r; r_waitDeadline := r_waitDeadline r |}.
Definition set_retries (v : gmap string Z) (r : dagRun) : dagRun :=
  {| r_wf := r_wf r; r_cell := r_cell r; r_seed := r_seed r; r_event := r_event r; r_state
     := r_state r; r_activated := r_activated r; r_retries := v; r_conflictRetries :=
     r_conflictRetries r; r_stepStates := r_stepStates r; r_contrib := r_contrib r;
     r_feedback := r_feedback r; r_passedOrder := r_passedOrder r; r_waitingStep :=
     r_waitingStep r; r_parkedAt := r_parkedAt r; r_waitingChild := r_waitingChild r;
     r_parallelDone := r_parallelDone r; r_waitDeadline := r_waitDeadline r |}.
Definition set_conflictRetries (v : gmap string Z) (r : dagRun) : dagRun :=
  {| r_wf := r_wf r; r_cell := r_cell r; r_seed := r_seed r; r_event := r_event r; r_state
     := r_state r; r_activated := r_activated r; r_retries := r_retries r; r_conflictRetries
     := v; r_stepStates := r_stepStates r; r_contrib := r_contrib r; r_feedback :=
     r_feedback r; r_passedOrder := r_passedOrder r; r_waitingStep := r_waitingStep r;
     r_parkedAt := r_parkedAt r; r_waitingChild := r_waitingChild r; r_parallelDone :=
     r_parallelDone r; r_waitDeadline := r_waitDeadline r |}.
Definition set_stepStates (v : gmap string StepState) (r : dagRun) : dagRun :=
  {| r_wf := r_wf r; r_cell := r_cell r; r_seed := r_seed r; r_event := r_event r; r_state
     := r_state r; r_activated := r_activated r; r_retries := r_retries r; r_conflictRetries
     := r_conflictRetries r; r_stepStates := v; r_contrib := r_contrib r; r_feedback :=
     r_feedback r; r_passedOrder := r_passedOrder r; r_waitingStep := r_waitingStep r;
     r_parkedAt := r_parkedAt r; r_waitingChild := r_waitingChild r; r_parallelDone :=
     r_parallelDone r; r_waitDeadline := r_waitDeadline r |}.
Definition set_contrib (v : gmap string MemoryStep) (r : dagRun) : dagRun :=
  {| r_wf := r_wf r; r_cell := r_cell r; r_seed := r_seed r; r_event := r_event r; r_state
     := r_state r; r_activated := r_activated r; r_retries := r_retries r; r_conflictRetries
     := r_conflictRetries r; r_stepStates := r_stepStates r; r_contrib := v; r_feedback :=
     r_feedback r; r_passedOrder := r_passedOrder r; r_waitingStep := r_waitingStep r;
     r_parkedAt := r_parkedAt r; r_waitingChild := r_waitingChild r; r_parallelDone :=
     r_parallelDone r; r_waitDeadline := r_waitDeadline r |}.
Definition set_feedback (v : gmap string (list MemoryStep)) (r : dagRun) : dagRun :=
  {| r_wf := r_wf r; r_cell := r_cell r; r_seed := r_seed r; r_event := r_event r; r_state
     := r_state r; r_activated := r_activated r; r_retries := r_retries r; r_conflictRetries
     := r_conflictRetries r; r_stepStates := r_stepStates r; r_contrib := r_contrib r;
     r_feedback := v; r_passedOrder := r_passedOrder r; r_waitingStep := r_waitingStep r;
     r_parkedAt := r_parkedAt r; r_waitingChild := r_waitingChild r; r_parallelDone :=
     r_parallelDone r; r_waitDeadline := r_waitDeadline r |}.
Definition set_passedOrder (v : list string) (r : dagRun) : dagRun :=
  {| r_wf := r_wf r; r_cell := r_cell r; r_seed := r_seed r; r_event := r_event r; r_state
     := r_state r; r_activated := r_activated r; r_retries := r_retries r; r_conflictRetries
     := r_conflictRetries r; r_stepStates := r_stepStates r; r_contrib := r_contrib r;
     r_feedback := r_feedback r; r_passedOrder := v; r_waitingStep := r_waitingStep r;
     r_parkedAt := r_parkedAt r; r_waitingChild := r_waitingChild r; r_parallelDone :=
     r_parallelDone r; r_waitDeadline := r_waitDeadline r |}.
Definition set_waitingStep (v : string) (r : dagRun) : dagRun :=
  {| r_wf := r_wf r; r_cell := r_cell r; r_seed := r_seed r; r_event := r_event r; r_state
     := r_state r; r_activated := r_activated r; r_retries := r_retries r; r_conflictRetries
     := r_conflictRetries r; r_stepStates := r_stepStates r; r_contrib := r_contrib r;
     r_feedback := r_feedback r; r_passedOrder := r_passedOrder r; r_waitingStep := v;
     r_parkedAt := r_parkedAt r; r_waitingChild := r_waitingChild r; r_parallelDone :=
     r_parallelDone r; r_waitDeadline := r_waitDeadline r |}.
Definition set_parkedAt (v : Z) (r : dagRun) : dagRun :=
  {| r_wf := r_wf r; r_cell := r_cell r; r_seed := r_seed r; r_event := r_event r; r_state
     := r_state r; r_activated := r_activated r; r_retries := r_retries r; r_conflictRetries
     := r_conflictRetries r; r_stepStates := r_stepStates r; r_contrib := r_contrib r;
     r_feedback := r_feedback r; r_passedOrder := r_passedOrder r; r_waitingStep :=
     r_waitingStep r; r_parkedAt := v; r_waitingChild := r_waitingChild r; r_parallelDone :=
     r_parallelDone r; r_waitDeadline := r_waitDeadline r |}.
Definition set_waitingChild (v : string) (r : dagRun) : dagRun :=
  {| r_wf := r_wf r; r_cell := r_cell r; r_seed := r_seed r; r_event := r_event r; r_state
     := r_state r; r_activated := r_activated r; r_retries := r_retries r; r_conflictRetries
     := r_conflictRetries r; r_stepStates := r_stepStates r; r_contrib := r_contrib r;
     r_feedback := r_feedback r; r_passedOrder := r_passedOrder r; r_waitingStep :=
     r_waitingStep r; r_parkedAt := r_parkedAt r; r_waitingChild := v; r_parallelDone :=
     r_parallelDone r; r_waitDeadline := r_waitDeadline r |}.
Definition set_parallelDone (v : gmap string (gmap string StepResult)) (r : dagRun) : dagRun :=
  {| r_wf := r_wf r; r_cell := r_cell r; r_seed := r_seed r; r_event := r_event r; r_state
     := r_state r; r_activated := r_activated r; r_retries := r_retries r; r_conflictRetries
     := r_conflictRetries r; r_stepStates := r_stepStates r; r_contrib := r_contrib r;
     r_feedback := r_feedback r; r_passedOrder := r_passedOrder r; r_waitingStep :=
     r_waitingStep r; r_parkedAt := r_parkedAt r; r_waitingChild := r_waitingChild r;
     r_parallelDone := v; r_waitDeadline := r_waitDeadline r |}.
Definition set_waitDeadline (v : Z) (r : dagRun) : dagRun :=
  {| r_wf := r_wf r; r_cell := r_cell r; r_seed := r_seed r; r_event := r_event r; r_state
     := r_state r; r_activated := r_activated r; r_retries := r_retries r; r_conflictRetries
     := r_conflictRetries r; r_stepStates := r_stepStates r; r_contrib := r_contrib r;
     r_feedback := r_feedback r; r_passedOrder := r_passedOrder r; r_waitingStep :=
     r_waitingStep r; r_parkedAt := r_parkedAt r; r_waitingChild := r_waitingChild r;
     r_parallelDone := r_parallelDone r; r_waitDeadline := v |}.
(** ** Derived views of the run *)

(** [r.byID]: a map, so a missing id reads as the zero step. *)
Definition byID_map (wf : WorkflowConfig) : gmap string StepConfig :=
  foldl (fun m s => <[st_ID s := s]> m) ∅ (wc_Steps wf).

Definition byID (r : dagRun) (id : string) : StepConfig :=
  default (zero_step "") (byID_map (r_wf r) !! id).

(** [r.order]. *)
Definition order (r : dagRun) : list string := st_ID <$> wc_Steps (r_wf r).

(** [r.state[id]]: "" when the id is unknown. *)
Definition state_of (r : dagRun) (id : string) : string := default "" (r_state r !! id).

Definition in_state (r : dagRun) (st id : string) : bool := bool_decide (state_of r id = st).

Definition is_activated (r : dagRun) (id : string) : bool := bool_decide (id ∈ r_activated r).

(** [r.splitTarget]: goto targets of the split branches. *)
Definition split_targets (wf : WorkflowConfig) : gset string :=
  list_to_set (List.filter (fun g => negb (is_empty g))
    (br_Goto <$> concat (st_Branches <$> List.filter (is_type StepTypeSplit) (wc_Steps wf)))).

Definition splitTarget (r : dagRun) (id : string) : bool := bool_decide (id ∈ split_targets (r_wf r)).

(** [r.childByID]: the children of parallel nodes. *)
Definition childByID (r : dagRun) : gmap string StepConfig :=
  foldl (fun m s => <[st_ID s := s]> m) ∅
    (concat (st_SubSteps <$> List.filter (is_type StepTypeParallel) (wc_Steps (r_wf r)))).

Definition put_state (id st : string) (r : dagRun) : dagRun := set_state (<[id := st]> (r_state r)) r.

Definition activate (id : string) (r : dagRun) : dagRun :=
  set_activated ({[id]} ∪ r_activated r) r.

(** [initDAG]. *)
Definition initDAG (wf : WorkflowConfig) (cell : SourceItem) (seed : list MemoryStep)
    (event : gmap string string) : dagRun := {|
  r_wf := wf; r_cell := cell; r_seed := seed; r_event := event;
  r_state := foldl (fun m s => <[st_ID s := stPending]> m) ∅ (wc_Steps wf);
  r_activated := list_to_set (List.filter (fun id => negb (bool_decide (id ∈ split_targets wf)))
                                (st_ID <$> wc_Steps wf));
  r_retries := ∅; r_conflictRetries := ∅; r_stepStates := ∅; r_contrib := ∅; r_feedback := ∅;
  r_passedOrder := []; r_waitingStep := ""; r_parkedAt := 0; r_waitingChild := "";
  r_parallelDone := ∅; r_waitDeadline := 0 |}.

(** ** Runnable and unreachable steps *)

Definition depsPassed (r : dagRun) (id : string) : bool :=
  forallb (in_state r stPassed) (st_DependsOn (byID r id))
  && forallb (fun dep => in_state r stPassed dep || in_state r stCondSkipped dep)
       (st_SeqDependsOn (byID r id)).

Definition pickAllRunnable (r : dagRun) : list string :=
  List.filter (fun id => in_state r stPending id && is_activated r id && depsPassed r id) (order r).

(** [feedingSplitsDone]. *)
Definition feedingSplitsDone (r : dagRun) (id : string) : bool :=
  forallb (fun s =>
    negb (is_type StepTypeSplit s)
    || forallb (fun b => negb (bool_decide (br_Goto b = id)) || negb (in_state r stPending (st_ID s)))
         (st_Branches s)) (wc_Steps (r_wf r)).

(** [markSkipped]: the recursive calls share the state map. The fuel is the
    number of steps, each call taking one out of the pending ones. *)
Fixpoint mark_skipped_go (fuel : nat) (id : string) (r : dagRun) : dagRun :=
  if in_state r stSkipped id || in_state r stCondSkipped id then r
  else
    let r := put_state id stSkipped r in
    match fuel with
    | O => r
    | S fuel =>
        foldl (fun r other =>
          if negb (in_state r stPending other) then r
          else
            let r := if str_in id (st_DependsOn (byID r other)) then mark_skipped_go fuel other r else r in
            if negb (in_state r stPending other) then r
            else if str_in id (st_SeqDependsOn (byID r other)) then mark_skipped_go fuel other r else r)
          r (order r)
    end.

Definition markSkipped (id : string) (r : dagRun) : dagRun :=
  mark_skipped_go (length (order r)) id r.

(** [markCondSkipped]: no cascade. *)
Definition markCondSkipped (id : string) (r : dagRun) : dagRun :=
  let r := put_state id stCondSkipped r in
  set_stepStates (<[id := {| ss_State := stCondSkipped; ss_ExitCode := 0; ss_Output := "" |}]>
                    (r_stepStates r)) r.

(** One pass of [skipUnreachable]'s loop: the new run, and whether it made
    progress. *)
Definition skip_one (acc : dagRun * bool) (id : string) : dagRun * bool :=
  let '(r, progress) := acc in
  if negb (in_state r stPending id) then (r, progress)
  else if existsb (fun dep => in_state r stSkipped dep || in_state r stFailed dep
                              || in_state r stCondSkipped dep) (st_DependsOn (byID r id))
  then (markSkipped id r, true)
  else if existsb (fun dep => in_state r stSkipped dep || in_state r stFailed dep)
            (st_SeqDependsOn (byID r id))
  then (markSkipped id r, true)
  else if splitTarget r id && negb (is_activated r id) && feedingSplitsDone r id
  then (markSkipped id r, true)
  else (r, progress).

Definition skipUnreachable (r : dagRun) : dagRun * bool := foldl skip_one (r, false) (order r).

(** [strandedSteps]. *)
Definition strandedSteps (r : dagRun) : list string := List.filter (in_state r stPending) (order r).

(** ** Memory *)

(** [memSteps]: the inherited seed, then per step in declaration order its own
    contribution, those of its children, and the feedback of a failed attempt. *)
Definition step_contribs (r : dagRun) (id : string) : list MemoryStep :=
  option_list (r_contrib r !! id)
  ++ omap (fun child => r_contrib r !! st_ID child) (st_SubSteps (byID r id))
  ++ default [] (r_feedback r !! id).

Definition memSteps (r : dagRun) : list MemoryStep :=
  r_seed r ++ concat (step_contribs r <$> order r).

Section memory.
Context {RT : GoRuntime}.

Definition write_field (ms : MemoryStep) (vals : gmap string string) (field : string)
    : gmap string string :=
  match ms_Structured ms !! field with
  | Some v => <[field := renderValue v]> vals
  | None => vals
  end.

(** [memoryValuesFrom]: last write wins. *)
Definition memoryValuesFrom (steps : list MemoryStep) : gmap string string :=
  foldl (fun vals ms => foldl (write_field ms) vals (ms_WriteFields ms)) ∅ steps.

Definition memoryValues (r : dagRun) : gmap string string := memoryValuesFrom (memSteps r).

Definition evalCtx (r : dagRun) : EvalContext := {|
  ec_Cell := r_cell r; ec_Memory := memoryValues r; ec_Steps := r_stepStates r;
  ec_Event := r_event r |}.
End memory.

(** [failedContribs]. *)
Definition failedContribs (step : StepConfig) (res : StepResult) (parallelContribs : list MemoryStep)
    : list MemoryStep :=
  if is_type StepTypeParallel step then parallelContribs
  else if bool_decide (sr_Structured res = ∅) then []
  else [{| ms_StepID := st_ID step; ms_WriteFields := MemoryWriteFields step;
           ms_Structured := sr_Structured res; ms_Summary := sr_Summary res |}].

(** ** Loops *)

(** The [mark] closure of [resetLoop]: the target and its transitive
    dependents. *)
Fixpoint reset_mark (fuel : nat) (r : dagRun) (id : string) (reset : gset string) : gset string :=
  if bool_decide (id ∈ reset) then reset
  else
    let reset := {[id]} ∪ reset in
    match fuel with
    | O => reset
    | S fuel =>
        foldl (fun reset other =>
          let visit reset deps :=
            foldl (fun reset dep => if bool_decide (dep = id) then reset_mark fuel r other reset else reset)
              reset deps in
          visit (visit reset (st_DependsOn (byID r other))) (st_SeqDependsOn (byID r other)))
          reset (order r)
    end.

Definition resetSet (r : dagRun) (target : string) : gset string :=
  reset_mark (length (order r)) r target ∅.

(** One element of the loop over [reset]. *)
Definition reset_one (r : dagRun) (id : string) : dagRun :=
  let contrib := foldl (fun m child => delete (st_ID child) m) (delete id (r_contrib r))
                   (st_SubSteps (byID r id)) in
  set_contrib contrib (set_stepStates (delete id (r_stepStates r)) (put_state id stPending r)).

Definition resetLoop (target : string) (r : dagRun) : dagRun :=
  let r := foldl reset_one r (elements (resetSet r target)) in
  set_passedOrder (List.filter (fun id => bool_decide (is_Some (r_contrib r !! id))) (order r)) r.

(** ** Gates *)

(** [applyMissingOutput]. *)
Definition applyMissingOutput `{Diagnostics} (step : StepConfig) (res : StepResult) : StepResult :=
  if negb (sr_Success res) || bool_decide (st_OutputSchema step = None)
     || negb (bool_decide (sr_Structured res = ∅))
     || bool_decide (st_OnMissingOutput step = OnMissingOutputIgnore) then res
  else if bool_decide (st_OnMissingOutput step = OnMissingOutputFail)
  then failed_result res (sprintf (DMissingOutput (st_ID step)))
  else res.

(** [unevaluableGateKeys]: memory keys the gate reads, the step declares and did
    not emit. *)
Definition gate_declared (step : StepConfig) (parallelContribs : list MemoryStep) : gset string :=
  if is_type StepTypeParallel step then list_to_set (concat (ms_WriteFields <$> parallelContribs))
  else list_to_set (MemoryWriteFields step).

Definition gate_produced (step : StepConfig) (res : StepResult) (parallelContribs : list MemoryStep)
    : gset string :=
  if is_type StepTypeParallel step
  then ⋃ ((fun c => dom (ms_Structured c)) <$> parallelContribs)
  else dom (sr_Structured res).

Definition unevaluableGateKeys (gate : exprNode) (step : StepConfig) (res : StepResult)
    (parallelContribs : list MemoryStep) : list string :=
  List.filter (fun key => bool_decide (key ∈ gate_declared step parallelContribs)
                          && negb (bool_decide (key ∈ gate_produced step res parallelContribs)))
    (MemoryRefs gate).

Section gates.
Context {RT : GoRuntime} {DG : Diagnostics}.

Definition overlay (vals : gmap string string) (structured : gmap string JValue)
    : gmap string string :=
  (renderValue <$> structured) ∪ vals.

(** The memory the gate of a step that just finished reads. *)
Definition transientMem (r : dagRun) (step : StepConfig) (res : StepResult)
    (parallelContribs : list MemoryStep) : gmap string string :=
  let mem := overlay (memoryValues r) (sr_Structured res) in
  if is_type StepTypeParallel step
  then foldl (fun m c => overlay m (ms_Structured c)) mem parallelContribs
  else mem.

(** [applyFailWhen]. *)
Definition applyFailWhen (r : dagRun) (step : StepConfig) (res : StepResult)
    (parallelContribs : list MemoryStep) : StepResult :=
  let ctx := {| ec_Cell := r_cell r; ec_Memory := transientMem r step res parallelContribs;
                ec_Steps := r_stepStates r; ec_Event := r_event r |} in
  match ParseExpr (stripExprDelimiters (st_FailWhen step)) with
  | Err e => failed_result res (sprintf (DFailWhen (st_FailWhen step) (inl e)))
  | Ok gate =>
      let unset := unevaluableGateKeys gate step res parallelContribs in
      if negb (bool_decide (st_OnMissingOutput step = OnMissingOutputIgnore))
         && match unset with [] => false | _ => true end
      then failed_result res (sprintf (DGateUnevaluable (st_FailWhen step) unset))
      else
        match Eval gate ctx with
        | Err e => failed_result res (sprintf (DFailWhen (st_FailWhen step) (inr e)))
        | Ok true => failed_result res (sr_Output res)
        | Ok false => res
        end
  end.

(** ** Splits *)

Definition branchMatches (b : SplitBranch) (ctx : EvalContext)
    : result (string * (parseError + evalError)) bool :=
  if IsFallback b then Ok true
  else match ParseExpr (br_If b) with
       | Err e => Err (br_If b, inl e)
       | Ok n => match Eval n ctx with
                 | Err e => Err (br_If b, inr e)
                 | Ok ok => Ok ok
                 end
       end.

(** The branch loop of [runSplitStep]: the chosen goto targets. *)
Fixpoint chooseBranches (multi : bool) (ctx : EvalContext) (bs : list SplitBranch)
    : result (string * (parseError + evalError)) (gset string) :=
  match bs with
  | [] => Ok ∅
  | b :: bs =>
      m ← branchMatches b ctx;
      if (m : bool) then
        if multi then rest ← chooseBranches multi ctx bs; Ok ({[br_Goto b]} ∪ rest)
        else Ok {[br_Goto b]}
      else chooseBranches multi ctx bs
  end.

Definition skip_unchosen (chosen : gset string) (r : dagRun) (b : SplitBranch) : dagRun :=
  if negb (is_empty (br_Goto b)) && negb (bool_decide (br_Goto b ∈ chosen))
     && negb (is_activated r (br_Goto b)) && feedingSplitsDone r (br_Goto b)
  then markSkipped (br_Goto b) r else r.

Definition runSplitStep (r : dagRun) (step : StepConfig)
    : result (string * (parseError + evalError)) dagRun :=
  chosen ← chooseBranches (st_Multi step) (evalCtx r) (st_Branches step);
  let r := put_state (st_ID step) stPassed r in
  let r := set_stepStates (<[st_ID step := {| ss_State := stPassed; ss_ExitCode := 0;
                                              ss_Output := "" |}]> (r_stepStates r)) r in
  let r := foldl (fun r b => if negb (is_empty (br_Goto b)) && bool_decide (br_Goto b ∈ chosen)
                             then activate (br_Goto b) r else r) r (st_Branches step) in
  Ok (foldl (skip_unchosen chosen) r (st_Branches step)).
End gates.

(** ** Dispatch *)

(** A dispatched step: its result is already in the channel (a condition or a
    split that failed, an approval), or a worker holds the snapshots it was
    launched with. *)
Inductive flight :=
  | FReady (step : StepConfig) (res : StepResult)
  | FWorker (step : StepConfig) (memSnap : list MemoryStep) (contribSnap : gmap string MemoryStep)
            (waitDeadline : Z) (parallelCache : gmap string StepResult).

Definition flight_step (f : flight) : StepConfig :=
  match f with
  | FReady s _ => s
  | FWorker s _ _ _ _ => s
  end.

Definition parallelSnapshot (r : dagRun) (id : string) : gmap string StepResult :=
  default ∅ (r_parallelDone r !! id).

Section dispatch.
Context {RT : GoRuntime} {DG : Diagnostics} (limit : nat).

Definition ready (id : string) (step : StepConfig) (res : StepResult) (acc : dagRun * list flight)
    : dagRun * list flight :=
  (put_state id stRunning acc.1, acc.2 ++ [FReady step res]).

(** What the body of the [dispatch] loop does with one runnable id; [None] is
    the [break] on the concurrency limit. *)
Definition launch (id : string) (step : StepConfig) (acc : dagRun * list flight)
    : option (dagRun * list flight) :=
  let '(r, fl) := acc in
  if is_type StepTypeSplit step then
    match runSplitStep r step with
    | Err (src, e) => Some (ready id step (new_result false (sprintf (DSplit src e))) acc)
    | Ok r' => Some (r', fl)
    end
  else if is_type StepTypeApproval step then Some (ready id step (new_result true "") acc)
  else if limit <=? length fl then None
  else Some (put_state id stRunning r,
             fl ++ [FWorker step (memSteps (put_state id stRunning r)) (r_contrib r)
                      (r_waitDeadline r) (parallelSnapshot r id)]).

Definition dispatch_one (id : string) (acc : dagRun * list flight) : option (dagRun * list flight) :=
  let step := byID acc.1 id in
  if is_empty (st_Condition step) then launch id step acc
  else match evalExpr (st_Condition step) (evalCtx acc.1) with
       | Err e => Some (ready id step (new_result false (sprintf (DCondition (st_Condition step) e))) acc)
       | Ok false => Some (markCondSkipped id acc.1, acc.2)
       | Ok true => launch id step acc
       end.

Fixpoint dispatch_loop (ids : list string) (acc : dagRun * list flight) : dagRun * list flight :=
  match ids with
  | [] => acc
  | id :: ids => match dispatch_one id acc with
                 | None => acc
                 | Some acc => dispatch_loop ids acc
                 end
  end.

Definition dispatch (r : dagRun) (fl : list flight) : dagRun * list flight :=
  dispatch_loop (pickAllRunnable r) (r, fl).
End dispatch.

(** ** Parking *)

(** [waitStepConfig]: the step whose wait_for config governs the park. *)
Definition waitStepConfig (r : dagRun) : StepConfig * bool :=
  if is_empty (r_waitingStep r) then (zero_step "", false)
  else if negb (is_empty (r_waitingChild r)) then
    match childByID r !! r_waitingChild r with
    | Some child => (child, true)
    | None => (zero_step "", false)
    end
  else let step := byID r (r_waitingStep r) in (step, is_type StepTypeWaitFor step).

(** [enterApproval], the part that changes the run. *)
Definition enterApproval (now : Z) (step : StepConfig) (r : dagRun) : dagRun :=
  set_parkedAt now (set_waitingStep (st_ID step) (put_state (st_ID step) stWaiting r)).

(** [enterWait]: the deadline is set by the first park only. *)
Definition enterWait {RT : GoRuntime} (now : Z) (step : StepConfig) (r : dagRun) : dagRun :=
  let r := set_waitingStep (st_ID step) (put_state (st_ID step) stWaiting r) in
  match st_WaitFor (waitStepConfig r).1 with
  | Some w =>
      if (r_waitDeadline r =? 0)%Z && (0 <? ParsedMaxDuration w)%Z
      then set_waitDeadline (now + ParsedMaxDuration w) r else r
  | None => r
  end.

(** [ApprovalDecision] of approval.go. *)
Inductive ApprovalDecision := ApprovalWait | ApprovalResume | ApprovalAbort.

(** [resolveApproval]. *)
Definition resolveApproval (decision : ApprovalDecision) (r : dagRun) : dagRun :=
  let step := r_waitingStep r in
  let r := set_waitingStep "" r in
  match decision with
  | ApprovalResume =>
      set_stepStates (<[step := {| ss_State := stPassed; ss_ExitCode := 0; ss_Output := "" |}]>
                        (r_stepStates r)) (put_state step stPassed r)
  | _ => put_state step stFailed r
  end.

(** [firstRunnableApproval] and [firstRunnableWait]: where a rehydrated instance
    is parked. *)
Definition firstRunnableApproval (r : dagRun) : option string :=
  List.find (fun id => is_type StepTypeApproval (byID r id)) (pickAllRunnable r).

Definition waitAt (r : dagRun) (id : string) : option (string * string) :=
  let step := byID r id in
  if is_type StepTypeWaitFor step then Some (id, "")
  else if is_type StepTypeParallel step then
    (fun child => (id, st_ID child)) <$> List.find (is_type StepTypeWaitFor) (st_SubSteps step)
  else None.

Definition firstRunnableWait (r : dagRun) : option (string * string) :=
  head (omap (waitAt r) (pickAllRunnable r)).

(** ** One worker result *)

(** What a worker reports. *)
Record payload := {
  pl_res : StepResult;
  pl_contribs : list MemoryStep;
  pl_waitingChild : string;
  pl_done : gmap string StepResult;
  pl_exit : Z;
}.

Definition ready_payload (res : StepResult) : payload := {|
  pl_res := res; pl_contribs := []; pl_waitingChild := ""; pl_done := ∅; pl_exit := 0 |}.

Definition passFail (success : bool) : string := if success then stPassed else stFailed.

(** The loop's own control variables. *)
Record control := { c_termFail : bool; c_loopTarget : string }.

Section process.
Context {RT : GoRuntime} {DG : Diagnostics}.

(** A step that passed: its contributions join the memory and [on_pass.next] is
    activated. *)
Definition passStep (step : StepConfig) (res : StepResult) (p : payload) (r : dagRun) : dagRun :=
  let r := put_state (st_ID step) stPassed r in
  let r := set_feedback (delete (st_ID step) (r_feedback r)) r in
  let r :=
    if is_type StepTypeParallel step
    then set_contrib (foldl (fun m c => <[ms_StepID c := c]> m) (r_contrib r) (pl_contribs p)) r
    else set_contrib (<[st_ID step := {| ms_StepID := st_ID step;
                                         ms_WriteFields := MemoryWriteFields step;
                                         ms_Structured := sr_Structured res;
                                         ms_Summary := sr_Summary res |}]> (r_contrib r)) r in
  let r := set_passedOrder (r_passedOrder r ++ [st_ID step]) r in
  if is_empty (st_OnPassNext step) then r else activate (st_OnPassNext step) r.

Definition bump (id : string) (m : gmap string Z) : gmap string Z := <[id := (default 0 (m !! id) + 1)%Z]> m.

(** Does this outcome declare a loop with budget left? *)
Definition canLoop (o : option StepOutcome) (used : Z) : bool :=
  match o with
  | Some o => negb (is_empty (so_Goto o)) && (used <? so_MaxRetries o)%Z
  | None => false
  end.

Definition goto (o : option StepOutcome) : string := from_option so_Goto "" o.

(** A step that failed: loop back through [on_conflict] or [on_fail] while
    their budgets last, fail the instance otherwise. *)
Definition failStep (step : StepConfig) (res : StepResult) (p : payload) (c : control) (r : dagRun)
    : dagRun * control :=
  let id := st_ID step in
  let conflictGoverned := sr_Conflict res && negb (is_empty (goto (st_OnConflict step))) in
  let free := negb (c_termFail c) && is_empty (c_loopTarget c) in
  if free && conflictGoverned
     && canLoop (st_OnConflict step) (default 0%Z (r_conflictRetries r !! id)) then
    (put_state id stPending (set_conflictRetries (bump id (r_conflictRetries r)) r),
     {| c_termFail := c_termFail c; c_loopTarget := goto (st_OnConflict step) |})
  else if free && negb conflictGoverned
          && canLoop (st_OnFail step) (default 0%Z (r_retries r !! id)) then
    let r := put_state id stPending (set_retries (bump id (r_retries r)) r) in
    (set_feedback (<[id := failedContribs step res (pl_contribs p)]> (r_feedback r)) r,
     {| c_termFail := c_termFail c; c_loopTarget := goto (st_OnFail step) |})
  else (put_state id stFailed r, {| c_termFail := true; c_loopTarget := "" |}).

(** The result as the scheduler judges it: the missing-output policy, then the
    step's own gate. *)
Definition judge (step : StepConfig) (p : payload) (res : StepResult) (r : dagRun) : StepResult :=
  let res := applyMissingOutput step res in
  if sr_Success res && negb (is_empty (st_FailWhen step))
  then applyFailWhen r step res (pl_contribs p) else res.

Definition recordState (step : StepConfig) (p : payload) (res : StepResult) (r : dagRun) : dagRun :=
  let ss := {| ss_State := passFail (sr_Success res);
               ss_ExitCode := if is_type StepTypeForeach step then pl_exit p else 0%Z;
               ss_Output := sr_Output res |} in
  set_stepStates (<[st_ID step := ss]> (r_stepStates r)) r.

(** The bookkeeping of a parallel group or a wait that reached a terminal
    result. *)
Definition clearParallel (step : StepConfig) (r : dagRun) : dagRun :=
  if is_type StepTypeParallel step then
    let r := if bool_decide (is_Some (r_parallelDone r !! st_ID step))
             then set_parallelDone (delete (st_ID step) (r_parallelDone r)) (set_waitDeadline 0 r)
             else r in
    set_waitingChild "" r
  else r.

Definition clearWait (step : StepConfig) (r : dagRun) : dagRun :=
  if is_type StepTypeWaitFor step then set_waitDeadline 0 r else r.

(** The body of the loop after a receive: the run is parked ([inl]), or goes on
    with new control variables. *)
Definition processResult (now : Z) (ctxErr : bool) (step : StepConfig) (p : payload) (c : control)
    (r : dagRun) : dagRun + dagRun * control :=
  if is_type StepTypeApproval step then inl (enterApproval now step r)
  else
    let res := if ctxErr then failed_result (pl_res p) (sprintf DCanceled) else pl_res p in
    if is_type StepTypeParallel step && sr_Pending res then
      inl (enterWait now step (set_waitingChild (pl_waitingChild p)
             (set_parallelDone (<[st_ID step := pl_done p]> (r_parallelDone r)) r)))
    else
      let r := clearParallel step r in
      if is_type StepTypeWaitFor step && sr_Pending res then inl (enterWait now step r)
      else
        let r := clearWait step r in
        let res := judge step p res r in
        let r := recordState step p res r in
        inr (if sr_Success res then (passStep step res p r, c) else failStep step res p c r).
End process.

(** ** The scheduler loop *)

(** What the environment contributes to one pass: whether [StopParked] set
    [stopped] before each of its three reads, which dispatched step reports, what
    it reports, whether the context was canceled by then, and the clock. *)
Record Event := {
  pe_stop1 : bool; pe_stop2 : bool; pe_stop3 : bool;
  pe_pick : nat; pe_payload : payload; pe_ctxErr : bool; pe_now : Z
}.

Record config := {
  k_run : dagRun; k_inFlight : list flight; k_control : control; k_stopped : bool
}.

(** [e.concurrencyLimit()]. *)
Definition concurrencyLimit (settings : Z) : nat := if (0 <? settings)%Z then Z.to_nat settings else 1.

(** The checks after the loop. *)
Definition finalOutcome (r : dagRun) : dagOutcome :=
  if existsb (in_state r stFailed) (order r) then outcomeFailed
  else match strandedSteps r with
       | [] => outcomeDone
       | _ => outcomeFailed
       end.

(** Take the reporting step out of the flight list. *)
Definition receive (pick : nat) (f : flight) (fl : list flight) : flight * list flight :=
  let i := pick mod length (f :: fl) in
  (default f ((f :: fl) !! i), delete i (f :: fl)).

Definition flight_payload (f : flight) (p : payload) : payload :=
  match f with
  | FReady _ res => ready_payload res
  | FWorker _ _ _ _ _ => p
  end.

Section drive.
Context {RT : GoRuntime} {DG : Diagnostics} (concurrency : Z).

Definition quiescent (c : control) (r : dagRun) : (dagRun * control) + (dagOutcome * dagRun) :=
  if c_termFail c then inr (outcomeFailed, r)
  else if negb (is_empty (c_loopTarget c)) then
    inl (resetLoop (c_loopTarget c) r, {| c_termFail := c_termFail c; c_loopTarget := "" |})
  else
    let '(r', progress) := skipUnreachable r in
    if (progress : bool) then inl (r', c)
    else match pickAllRunnable r' with
         | [] => inr (finalOutcome r', r')
         | _ => inl (r', c)
         end.

(** One pass of the [for] loop. *)
Definition drive_pass (e : Event) (k : config) : config + (dagOutcome * dagRun) :=
  let c := k_control k in
  let stop1 := k_stopped k || pe_stop1 e in
  let '(r, fl) :=
    if negb (c_termFail c) && is_empty (c_loopTarget c) && negb stop1
    then dispatch (concurrencyLimit concurrency) (k_run k) (k_inFlight k)
    else (k_run k, k_inFlight k) in
  match fl with
  | [] =>
      let stop2 := stop1 || pe_stop2 e in
      if stop2 then inr (outcomeStopped, r)
      else match quiescent c r with
           | inl (r', c') => inl {| k_run := r'; k_inFlight := []; k_control := c'; k_stopped := stop2 |}
           | inr res => inr res
           end
  | f :: fl' =>
      let '(g, rest) := receive (pe_pick e) f fl' in
      let stop3 := stop1 || pe_stop3 e in
      if stop3 then inl {| k_run := r; k_inFlight := rest; k_control := c; k_stopped := true |}
      else match processResult (pe_now e) (pe_ctxErr e) (flight_step g)
                   (flight_payload g (pe_payload e)) c r with
           | inl parked => inr (outcomeWaiting, parked)
           | inr (r', c') =>
               inl {| k_run := r'; k_inFlight := rest; k_control := c'; k_stopped := false |}
           end
  end.

Fixpoint drive (fuel : nat) (events : nat -> Event) (k : config) : option (dagOutcome * dagRun) :=
  match fuel with
  | O => None
  | S fuel =>
      match drive_pass (events 0) k with
      | inr res => Some res
      | inl k' => drive fuel (fun i => events (S i)) k'
      end
  end.

Definition start (r : dagRun) : config := {|
  k_run := r; k_inFlight := []; k_control := {| c_termFail := false; c_loopTarget := "" |};
  k_stopped := false |}.

(** [driveDAG], entered with the run [r]. *)
Definition driveDAG (fuel : nat) (events : nat -> Event) (r : dagRun) : option (dagOutcome * dagRun) :=
  drive fuel events (start r).
End drive.
