(* ===== verification/DagFacts.v ===== *)
(** * The scheduler: lemmas on its operations

    Frames (which fields an operation may change), the exact effect of the
    recursive markings, and what [dispatch] does to the pending steps. *)

From stdpp Require Import base gmap strings list.
From Stdlib Require Import ZArith.
From S2P Require Import Prelude Model Expr Config Graph Dag.

(** ** States *)

Lemma state_of_put r x st y :
  state_of (put_state x st r) y = if decide (y = x) then st else state_of r y.
Proof.
  unfold state_of, put_state; simpl. destruct (decide (y = x)) as [->|].
  - by rewrite lookup_insert_eq.
  - by rewrite lookup_insert_ne.
Qed.

Lemma in_state_spec r st y : in_state r st y = true <-> state_of r y = st.
Proof. unfold in_state. by rewrite bool_decide_eq_true. Qed.

Lemma in_state_false r st y : in_state r st y = false <-> state_of r y <> st.
Proof. unfold in_state. by rewrite bool_decide_eq_false. Qed.

Lemma is_activated_spec r y : is_activated r y = true <-> y ∈ r_activated r.
Proof. unfold is_activated. by rewrite bool_decide_eq_true. Qed.

(** Everything but the step states is the same. *)
Record same_but_state (r r' : dagRun) : Prop := {
  sbs_wf : r_wf r' = r_wf r;
  sbs_activated : r_activated r' = r_activated r;
  sbs_retries : r_retries r' = r_retries r;
  sbs_conflict : r_conflictRetries r' = r_conflictRetries r;
  sbs_stepStates : r_stepStates r' = r_stepStates r;
  sbs_contrib : r_contrib r' = r_contrib r;
}.

#[global] Instance same_but_state_refl : Reflexive same_but_state.
Proof. by intros r. Qed.
#[global] Instance same_but_state_trans : Transitive same_but_state.
Proof. intros r1 r2 r3 [] []. split; congruence. Qed.

Lemma same_put r x st : same_but_state r (put_state x st r).
Proof. by split. Qed.

#[export] Hint Resolve same_put : apiary.

(** ** The steps of a workflow *)

Lemma byID_map_lookup steps (m : gmap string StepConfig) id s :
  foldl (fun m s => <[st_ID s := s]> m) m steps !! id = Some s ->
  (st_ID s = id /\ s ∈ steps) \/ m !! id = Some s.
Proof.
  revert m. induction steps as [|t steps IH]; intros m; simpl; [by right|].
  intros [[H1 H2]|H]%IH; [left; split; [done|by apply list_elem_of_further]|].
  destruct (decide (st_ID t = id)) as [<-|Hne].
  - rewrite lookup_insert_eq in H. simplify_eq. left. split; [done|apply list_elem_of_here].
  - rewrite lookup_insert_ne in H by done. by right.
Qed.

Lemma byID_map_total steps (m : gmap string StepConfig) id :
  (id ∈ st_ID <$> steps) \/ is_Some (m !! id) ->
  is_Some (foldl (fun m s => <[st_ID s := s]> m) m steps !! id).
Proof.
  revert m. induction steps as [|t steps IH]; intros m; simpl.
  - intros [H|H]; [by apply elem_of_nil in H|done].
  - intros H. apply IH. destruct (decide (st_ID t = id)) as [<-|Hne].
    + right. rewrite lookup_insert_eq. eauto.
    + rewrite lookup_insert_ne by done. destruct H as [H|H]; [left|by right].
      apply elem_of_cons in H as [->|H]; done.
Qed.

Lemma byID_in r id : id ∈ order r -> st_ID (byID r id) = id /\ byID r id ∈ wc_Steps (r_wf r).
Proof.
  intros H. unfold byID, byID_map.
  destruct (byID_map_total (wc_Steps (r_wf r)) ∅ id) as [s Hs]; [by left|].
  rewrite Hs. simpl. apply byID_map_lookup in Hs as [Hs|Hs]; [done|]. by rewrite lookup_empty in Hs.
Qed.

Lemma byID_out r id : id ∉ order r -> byID r id = zero_step "".
Proof.
  intros H. unfold byID, byID_map. destruct (foldl _ _ _ !! id) as [s|] eqn:E; [|done].
  apply byID_map_lookup in E as [[H1 H2]|E]; [|by rewrite lookup_empty in E].
  destruct H. unfold order. rewrite <- H1. by apply list_elem_of_fmap_2.
Qed.

(** An explicit or sequential dependency of [other] on [id]. *)
Definition dep_edge (wf : WorkflowConfig) (id other : string) : bool :=
  let s := default (zero_step "") (byID_map wf !! other) in
  str_in id (st_DependsOn s) || str_in id (st_SeqDependsOn s).

Definition order_of (wf : WorkflowConfig) : list string := st_ID <$> wc_Steps wf.

(** ** [markSkipped] is the marking of the pending dependents *)

Definition skip_close (x : string) (r : dagRun) : dagRun := put_state x stSkipped r.
Definition skip_open (r : dagRun) (x : string) : bool := in_state r stPending x.

Lemma skip_open_close x r y :
  skip_open (skip_close x r) y = skip_open r y && negb (bool_decide (y = x)).
Proof.
  unfold skip_open, skip_close, in_state. rewrite state_of_put.
  destruct (decide (y = x)) as [->|Hne].
  - rewrite (bool_decide_eq_true_2 (x = x)) by done. by rewrite andb_false_r.
  - rewrite (bool_decide_eq_false_2 (y = x)) by done. by rewrite andb_true_r.
Qed.

Lemma closes_same l r : same_but_state r (foldr skip_close r l).
Proof. induction l as [|x l IH]; [done|]. simpl. etransitivity; [exact IH|apply same_put]. Qed.

Lemma skip_dfs_same wf f x r : same_but_state r (dfs skip_open skip_close (dep_edge wf) (order_of wf) f x r).
Proof.
  revert x r. induction f as [|f IH]; intros x r; simpl; [apply same_put|].
  transitivity (skip_close x r); [apply same_put|].
  apply (foldl_rel same_but_state). intros r' o _. destruct (_ && _); [apply IH|done].
Qed.

Lemma mark_skipped_dfs wf f id r :
  r_wf r = wf -> in_state r stSkipped id = false -> in_state r stCondSkipped id = false ->
  mark_skipped_go f id r = dfs skip_open skip_close (dep_edge wf) (order_of wf) f id r.
Proof.
  revert id r. induction f as [|f IH]; intros id r Hwf H1 H2; simpl; rewrite H1, H2; simpl; [done|].
  assert (order (put_state id stSkipped r) = order_of wf) as -> by (unfold order; simpl; by rewrite Hwf).
  apply (foldl_ext_inv (fun r => r_wf r = wf)); [done|]. clear r Hwf H1 H2. intros r o Hw.
  set (rec := dfs skip_open skip_close (dep_edge wf) (order_of wf) f o r).
  assert (r_wf rec = wf) as Hw' by (unfold rec; rewrite (sbs_wf _ _ (skip_dfs_same wf f o r)); done).
  unfold skip_open at 2. unfold skip_open at 1. split; [|by destruct (_ && _)].
  destruct (in_state r stPending o) eqn:E; simpl; [|done].
  assert (in_state r stSkipped o = false /\ in_state r stCondSkipped o = false) as [P1 P2]
    by (rewrite !in_state_false; rewrite in_state_spec in E; by rewrite E).
  unfold dep_edge at 1. unfold byID. rewrite Hw.
  set (s := default (zero_step "") (byID_map wf !! o)).
  rewrite (IH o r Hw P1 P2). fold rec.
  destruct (str_in id (st_DependsOn s)); simpl.
  - assert (in_state rec stPending o = false) as ->; [|done].
    apply (dfs_root skip_open skip_close). intros; apply skip_open_close.
  - rewrite E, Hw. fold s. simpl. by rewrite (IH o r Hw P1 P2).
Qed.

(** The exact effect of [markSkipped] on the states. *)
Definition skip_reach (r : dagRun) (id : string) : string -> Prop :=
  reach skip_open (dep_edge (r_wf r)) (order r) r id.

Lemma markSkipped_already id r :
  state_of r id = stSkipped \/ state_of r id = stCondSkipped -> markSkipped id r = r.
Proof.
  intros H. unfold markSkipped.
  assert (in_state r stSkipped id || in_state r stCondSkipped id = true) as E
    by (rewrite orb_true_iff, !in_state_spec; done).
  by destruct (length (order r)); simpl; rewrite E.
Qed.

Lemma state_of_closes l r y :
  state_of (foldr skip_close r l) y = if decide (y ∈ l) then stSkipped else state_of r y.
Proof.
  induction l as [|x l IH]; simpl.
  { destruct (decide (y ∈ [])) as [H|]; [by apply elem_of_nil in H|done]. }
  unfold skip_close at 1. rewrite state_of_put, IH.
  destruct (decide (y = x)) as [->|Hne].
  - destruct (decide (x ∈ x :: l)) as [|Hn]; [done|]. destruct Hn. apply list_elem_of_here.
  - destruct (decide (y ∈ l)) as [Hl|Hl], (decide (y ∈ x :: l)) as [Hc|Hc]; try done.
    + destruct Hc. by apply list_elem_of_further.
    + apply elem_of_cons in Hc as [?|?]; done.
Qed.

Lemma cnt_order r wf : cnt skip_open (order_of wf) r <= length (order_of wf).
Proof. unfold cnt. apply List.filter_length_le. Qed.

Lemma markSkipped_marks id r :
  state_of r id <> stSkipped -> state_of r id <> stCondSkipped ->
  exists l, marks skip_open skip_close (dep_edge (r_wf r)) (order r) r id (markSkipped id r) l.
Proof.
  intros H1 H2. unfold markSkipped.
  rewrite (mark_skipped_dfs (r_wf r)); [|done|by apply in_state_false..].
  apply dfs_marks; [intros; apply skip_open_close|]. apply (cnt_order _ (r_wf r)).
Qed.

Lemma markSkipped_same id r : same_but_state r (markSkipped id r).
Proof.
  destruct (decide (state_of r id = stSkipped \/ state_of r id = stCondSkipped)) as [H|H].
  - by rewrite markSkipped_already.
  - destruct (markSkipped_marks id r) as (l & -> & _); [tauto..|].
    etransitivity; [|apply closes_same]. apply same_put.
Qed.

(** [markSkipped] skips the step and exactly the pending steps reachable from it
    through pending steps along dependency edges; every other state stays. *)
Lemma markSkipped_states id r y :
  state_of r id <> stSkipped -> state_of r id <> stCondSkipped ->
  (state_of (markSkipped id r) y = stSkipped /\
     (y = id \/ (state_of r y = stPending /\ y ∈ order r /\ skip_reach r id y)))
  \/ (state_of (markSkipped id r) y = state_of r y /\ y <> id /\
      (state_of r y = stPending -> ~ skip_reach r id y)).
Proof.
  intros H1 H2. destruct (markSkipped_marks id r H1 H2) as (l & Heq & Hl & Hcl).
  rewrite Heq, state_of_closes. destruct (decide (y ∈ l)) as [Hy|Hy].
  - left. split; [done|]. destruct (Hl y Hy) as (Ho & Hop & Hr).
    rewrite skip_open_close in Hop. apply andb_true_iff in Hop as [Hop%in_state_spec _]. auto.
  - unfold skip_close. rewrite state_of_put. destruct (decide (y = id)) as [->|Hne]; [by left; auto|].
    right. split_and!; [done..|]. intros Hp Hr.
    assert (forall z, skip_reach r id z -> z = id \/ z ∈ l) as Hin; [|by destruct (Hin y Hr)].
    clear y Hy Hne Hp Hr. intros z Hz. induction Hz as [|a b Ha IH Hb He Hop]; [by left|].
    pose proof (Hcl a b IH Hb He) as Hc. rewrite Heq in Hc.
    rewrite open_closes in Hc by exact skip_open_close.
    rewrite skip_open_close, Hop in Hc. simpl in Hc.
    rewrite andb_false_iff, !negb_false_iff, !bool_decide_eq_true in Hc. tauto.
Qed.

(** ** [resetLoop] resets the target and its transitive dependents *)

Definition reset_open (s : gset string) (x : string) : bool := negb (bool_decide (x ∈ s)).
Definition reset_close (x : string) (s : gset string) : gset string := {[x]} ∪ s.

Lemma reset_open_close x s y :
  reset_open (reset_close x s) y = reset_open s y && negb (bool_decide (y = x)).
Proof.
  unfold reset_open, reset_close. rewrite <- negb_orb, <- bool_decide_or. f_equal.
  apply bool_decide_ext. set_solver.
Qed.

Lemma reset_open_false s x : reset_open s x = false <-> x ∈ s.
Proof. unfold reset_open. by rewrite negb_false_iff, bool_decide_eq_true. Qed.

Lemma reset_mark_in f r id reset : id ∈ reset -> reset_mark f r id reset = reset.
Proof. intros H. by destruct f; simpl; rewrite (bool_decide_eq_true_2 _ H). Qed.

(** The two inner loops of [mark] visit a dependent once. *)
Lemma visit_once f r id other reset deps :
  (forall s, other ∈ reset_mark f r other s) ->
  foldl (fun reset dep => if bool_decide (dep = id) then reset_mark f r other reset else reset) reset deps
  = if str_in id deps then reset_mark f r other reset else reset.
Proof.
  intros Hroot. revert reset. induction deps as [|d deps IH]; intros reset; [done|].
  cbn [foldl]. rewrite IH. unfold str_in. destruct (decide (d = id)) as [->|Hd].
  - rewrite (bool_decide_eq_true_2 (id = id)) by done.
    rewrite (bool_decide_eq_true_2 (id ∈ id :: deps)) by apply list_elem_of_here.
    destruct (bool_decide _); [|done]. by rewrite reset_mark_in.
  - rewrite (bool_decide_eq_false_2 (d = id)) by done.
    rewrite (bool_decide_ext (id ∈ d :: deps) (id ∈ deps)); [done|]. rewrite elem_of_cons. naive_solver.
Qed.

Lemma reset_mark_dfs f r id reset :
  id ∉ reset ->
  reset_mark f r id reset = dfs reset_open reset_close (dep_edge (r_wf r)) (order r) f id reset.
Proof.
  revert id reset. induction f as [|f IH]; intros id reset Hid; simpl;
    rewrite (bool_decide_eq_false_2 _ Hid); [done|].
  apply (foldl_ext_inv (fun _ => True)); [done|]. intros s o _. split; [|done].
  assert (forall s, o ∈ reset_mark f r o s) as Hroot.
  { intros s'. destruct (decide (o ∈ s')) as [Hin|Hin]; [by rewrite reset_mark_in|].
    rewrite (IH o s' Hin), <- reset_open_false. apply dfs_root. exact reset_open_close. }
  rewrite !visit_once by done.
  assert (dep_edge (r_wf r) id o =
          str_in id (st_DependsOn (byID r o)) || str_in id (st_SeqDependsOn (byID r o))) as -> by done.
  destruct (decide (o ∈ s)) as [Hin|Hin].
  - rewrite (proj2 (reset_open_false s o) Hin). rewrite !(reset_mark_in f r o s Hin).
    destruct (str_in _ _), (str_in _ _); try done; by rewrite reset_mark_in.
  - assert (reset_open s o = true) as -> by (apply not_false_iff_true; by rewrite reset_open_false).
    rewrite <- (IH o s Hin). simpl.
    destruct (str_in _ _), (str_in _ _); try done. by rewrite reset_mark_in.
Qed.

Lemma elem_of_closes l s y : y ∈ foldr reset_close s l <-> y ∈ s \/ y ∈ l.
Proof.
  induction l as [|x l IH]; simpl.
  - rewrite elem_of_nil. tauto.
  - unfold reset_close at 1. rewrite elem_of_union, elem_of_singleton, IH, elem_of_cons. tauto.
Qed.

(** Dependents, direct or not. *)
Inductive dependent (r : dagRun) (target : string) : string -> Prop :=
  | dep_self : dependent r target target
  | dep_next y z : dependent r target y -> z ∈ order r -> dep_edge (r_wf r) y z = true ->
                   dependent r target z.

Lemma elem_of_resetSet r target y : y ∈ resetSet r target <-> dependent r target y.
Proof.
  unfold resetSet. rewrite reset_mark_dfs by set_solver.
  destruct (dfs_marks reset_open reset_close (dep_edge (r_wf r)) (order r) reset_open_close
    (length (order r)) target ∅) as (l & Heq & Hl & Hcl).
  { unfold cnt. apply List.filter_length_le. }
  rewrite Heq. rewrite elem_of_closes. unfold reset_close. rewrite elem_of_union, elem_of_singleton.
  split.
  - intros [[->|H]|Hy]; [constructor|set_solver|]. destruct (Hl y Hy) as (_ & _ & Hr).
    clear Hy. induction Hr as [|a b Ha IH Hb He Hop]; [constructor|]. by eapply dep_next.
  - induction 1 as [|a b Ha IH Hb He]; [auto|].
    assert (a = target \/ a ∈ l) as Hal by (destruct IH as [[?|?]|?]; [auto|set_solver|auto]).
    specialize (Hcl a b Hal Hb He). rewrite reset_open_false, Heq, elem_of_closes in Hcl.
    unfold reset_close in Hcl. rewrite elem_of_union, elem_of_singleton in Hcl. tauto.
Qed.

Lemma reset_one_frame r id :
  r_wf (reset_one r id) = r_wf r /\ r_activated (reset_one r id) = r_activated r /\
  r_retries (reset_one r id) = r_retries r /\ r_conflictRetries (reset_one r id) = r_conflictRetries r.
Proof. done. Qed.

Lemma resets_states l r y :
  state_of (foldl reset_one r l) y = if decide (y ∈ l) then stPending else state_of r y.
Proof.
  revert r. induction l as [|x l IH]; intros r; simpl.
  { destruct (decide (y ∈ [])) as [H|]; [by apply elem_of_nil in H|done]. }
  rewrite IH. change (state_of (reset_one r x) y) with (state_of (put_state x stPending r) y).
  rewrite state_of_put. destruct (decide (y ∈ l)), (decide (y = x)), (decide (y ∈ x :: l)) as [Hc|Hc];
    try done; rewrite elem_of_cons in Hc; naive_solver.
Qed.

Record same_control (r r' : dagRun) : Prop := {
  sc_wf : r_wf r' = r_wf r;
  sc_activated : r_activated r' = r_activated r;
  sc_retries : r_retries r' = r_retries r;
  sc_conflict : r_conflictRetries r' = r_conflictRetries r;
}.

#[global] Instance same_control_refl : Reflexive same_control.
Proof. by intros r. Qed.
#[global] Instance same_control_trans : Transitive same_control.
Proof. intros r1 r2 r3 [] []. split; congruence. Qed.

Lemma resetLoop_control t r : same_control r (resetLoop t r).
Proof.
  unfold resetLoop. transitivity (foldl reset_one r (elements (resetSet r t))); [|done].
  apply (foldl_rel same_control). intros r' id _. done.
Qed.

(** The states after [resetLoop]. *)
Lemma resetLoop_states t r y :
  state_of (resetLoop t r) y = if decide (y ∈ resetSet r t) then stPending else state_of r y.
Proof.
  unfold resetLoop. change (state_of (set_passedOrder _ ?r') y) with (state_of r' y).
  rewrite resets_states. destruct (decide (y ∈ elements _)) as [H|H], (decide (y ∈ _)) as [H'|H'];
    try done; rewrite elem_of_elements in H; done.
Qed.

(** ** Operations that make no step pending *)

Record shrinks (r r' : dagRun) : Prop := {
  sh_wf : r_wf r' = r_wf r;
  sh_retries : r_retries r' = r_retries r;
  sh_conflict : r_conflictRetries r' = r_conflictRetries r;
  sh_pending : forall y, state_of r' y = stPending -> state_of r y = stPending;
}.

#[global] Instance shrinks_refl : Reflexive shrinks.
Proof. by intros r. Qed.
#[global] Instance shrinks_trans : Transitive shrinks.
Proof. intros r1 r2 r3 [] []. split; try congruence. auto. Qed.

Lemma shrinks_put r y st : st <> stPending -> shrinks r (put_state y st r).
Proof.
  intros Hst. split; try done. intros z. rewrite state_of_put. by destruct (decide (z = y)).
Qed.

Lemma shrinks_markSkipped id r : shrinks r (markSkipped id r) /\
  (state_of r id = stPending -> state_of (markSkipped id r) id <> stPending).
Proof.
  destruct (decide (state_of r id = stSkipped \/ state_of r id = stCondSkipped)) as [H|H].
  { rewrite markSkipped_already by done. split; [done|]. intros E. by rewrite E in H; destruct H. }
  destruct (markSkipped_same id r) as []. split.
  - split; try done. intros y Hy.
    destruct (markSkipped_states id r y) as [[E _]|[E _]]; [tauto..|by rewrite E in Hy|congruence].
  - intros _. destruct (markSkipped_states id r id) as [[E _]|[_ [? _]]]; [tauto..|by rewrite E|done].
Qed.

Lemma shrinks_markCond id r :
  shrinks r (markCondSkipped id r) /\ state_of (markCondSkipped id r) id <> stPending.
Proof.
  split; [transitivity (put_state id stCondSkipped r); [by apply shrinks_put|done]|].
  change (state_of (put_state id stCondSkipped r) id <> stPending). rewrite state_of_put.
  by destruct (decide (id = id)).
Qed.

Section shrink.
Context {RT : GoRuntime} {DG : Diagnostics} (limit : nat).

Lemma shrinks_not_pending r r' y : shrinks r r' -> state_of r y <> stPending -> state_of r' y <> stPending.
Proof. intros [] H E. apply H. auto. Qed.

Lemma runSplitStep_shrinks r step r' :
  runSplitStep r step = Ok r' -> shrinks r r' /\ state_of r' (st_ID step) <> stPending.
Proof.
  unfold runSplitStep. destruct (chooseBranches _ _ _) as [chosen|]; rsimpl; [|done]. intros [= <-].
  set (r1 := set_stepStates _ _).
  assert (shrinks r r1) as H1
    by (transitivity (put_state (st_ID step) stPassed r); [by apply shrinks_put|done]).
  assert (state_of r1 (st_ID step) <> stPending) as H2.
  { change (state_of (put_state (st_ID step) stPassed r) (st_ID step) <> stPending).
    rewrite state_of_put. by destruct (decide _). }
  set (r2 := foldl _ r1 _).
  assert (shrinks r1 r2) as H3
    by (apply (foldl_rel shrinks); intros r0 b _; by destruct (_ && _)).
  assert (shrinks r2 (foldl (skip_unchosen chosen) r2 (st_Branches step))) as H4.
  { apply (foldl_rel shrinks). intros r0 b _. unfold skip_unchosen.
    destruct (_ && _); [apply shrinks_markSkipped|done]. }
  split; [by do 2 (etransitivity; [eassumption|])|]. by do 2 (eapply shrinks_not_pending; [eassumption|]).
Qed.

(** What dispatching one id does. *)
Lemma dispatch_one_shrinks id r fl r' fl' :
  id ∈ order r -> dispatch_one limit id (r, fl) = Some (r', fl') ->
  shrinks r r' /\ state_of r' id <> stPending /\
  (fl' = fl \/ exists f, fl' = fl ++ [f] /\ flight_step f = byID r id).
Proof.
  intros Hid. destruct (byID_in r id Hid) as [Hsid _].
  assert (forall x, x = put_state id stRunning r -> shrinks r x /\ state_of x id <> stPending) as Hrun.
  { intros x ->. split; [by apply shrinks_put|]. rewrite state_of_put. by destruct (decide _). }
  assert (forall res acc, ready id (byID r id) res (r, fl) = acc ->
    shrinks r acc.1 /\ state_of acc.1 id <> stPending /\
    (acc.2 = fl \/ exists f, acc.2 = fl ++ [f] /\ flight_step f = byID r id)) as Hready.
  { intros res acc <-. destruct (Hrun _ eq_refl). split_and!; [done..|right]. by eexists. }
  assert (forall acc, launch limit id (byID r id) (r, fl) = Some acc ->
    shrinks r acc.1 /\ state_of acc.1 id <> stPending /\
    (acc.2 = fl \/ exists f, acc.2 = fl ++ [f] /\ flight_step f = byID r id)) as Hlaunch.
  { intros acc. unfold launch. destruct (is_type StepTypeSplit _).
    - destruct (runSplitStep r (byID r id)) as [r1|[src e]] eqn:Hs.
      + intros [= <-]. apply runSplitStep_shrinks in Hs as [H1 H2]. rewrite Hsid in H2. simpl. auto.
      + intros H. injection H as H. by eapply Hready.
    - destruct (is_type StepTypeApproval _); [intros H; injection H as H; by eapply Hready|].
      destruct (_ <=? _); [done|]. intros [= <-]. simpl. destruct (Hrun _ eq_refl).
      split_and!; [done..|right]. by eexists. }
  unfold dispatch_one. cbn [fst snd]. destruct (is_empty _); [by intros H%Hlaunch|].
  destruct (evalExpr _ _) as [[]|e].
  - by intros H%Hlaunch.
  - intros [= <- <-]. destruct (shrinks_markCond id r). auto.
  - intros [= <- <-]. apply (Hready _ _ eq_refl).
Qed.
End shrink.
