(* ===== verification/DagTermination.v ===== *)
(** * The scheduler terminates

    Every pass of [driveDAG]'s loop decreases a measure made of the retry budget
    left, the pending steps and the steps in flight, whatever the workers report
    and in whatever order; so the loop ends, with an explicit bound on the number
    of passes. *)

From stdpp Require Import base gmap strings list.
From Stdlib Require Import ZArith.
From S2P Require Import Prelude Model Expr Config Graph Dag DagFacts.

(** ** The measure *)

Definition pend (r : dagRun) : nat := length (List.filter (in_state r stPending) (order r)).

Definition left_of (o : option StepOutcome) (used : Z) : nat :=
  match o with
  | Some o => Z.to_nat (so_MaxRetries o - used)
  | None => 0
  end.

Definition used (m : gmap string Z) (id : string) : Z := default 0%Z (m !! id).

Definition step_budget (r : dagRun) (s : StepConfig) : nat :=
  left_of (st_OnFail s) (used (r_retries r) (st_ID s))
  + left_of (st_OnConflict s) (used (r_conflictRetries r) (st_ID s)).

(** The loop-backs the run may still take. *)
Definition budget (r : dagRun) : nat := sum_list_with (step_budget r) (wc_Steps (r_wf r)).

Definition measure (k : config) : nat :=
  let n := length (order (k_run k)) in
  budget (k_run k) * (3 * n + 6)
  + (if is_empty (c_loopTarget (k_control k)) then 0 else 3 * n + 2)
  + 3 * pend (k_run k) + length (k_inFlight k).

(** ** Counting pending steps *)

Lemma order_wf r r' : r_wf r' = r_wf r -> order r' = order r.
Proof. unfold order. by intros ->. Qed.

Lemma pend_le_order r : pend r <= length (order r).
Proof. apply List.filter_length_le. Qed.

Lemma elem_of_pending r y :
  y ∈ List.filter (in_state r stPending) (order r) <-> y ∈ order r /\ state_of r y = stPending.
Proof. by rewrite list_elem_of_In, filter_In, <- list_elem_of_In, in_state_spec. Qed.

Lemma pend_shrinks r r' dn :
  NoDup (order r) -> shrinks r r' -> NoDup dn ->
  (forall y, y ∈ dn -> y ∈ order r /\ state_of r y = stPending /\ state_of r' y <> stPending) ->
  pend r' + length dn <= pend r.
Proof.
  intros Hnd Hsh Hd Hdone. unfold pend. rewrite (order_wf r r' (sh_wf _ _ Hsh)).
  rewrite <- length_app. apply submseteq_length, NoDup_submseteq.
  - apply NoDup_app. split_and!; [apply NoDup_bool_filter; exact Hnd| |done].
    intros y Hy Hyd. destruct (Hdone y Hyd) as (_ & _ & Hn).
    rewrite list_elem_of_In, filter_In, in_state_spec in Hy. tauto.
  - intros y [Hy|Hy]%elem_of_app; apply elem_of_pending.
    + rewrite list_elem_of_In, filter_In, in_state_spec, <- list_elem_of_In in Hy.
      destruct Hy as [Hy Hp]. split; [done|]. by apply (sh_pending _ _ Hsh).
    + destruct (Hdone y Hy) as (? & ? & _). done.
Qed.

Lemma pend_put r y : NoDup (order r) -> pend (put_state y stPending r) <= S (pend r).
Proof.
  intros Hnd. unfold pend. change (order (put_state y stPending r)) with (order r).
  change (S (length (List.filter (in_state r stPending) (order r))))
    with (length (y :: List.filter (in_state r stPending) (order r))).
  apply submseteq_length, NoDup_submseteq; [apply NoDup_bool_filter; exact Hnd|].
  intros z. rewrite list_elem_of_In, filter_In, in_state_spec, <- list_elem_of_In.
  rewrite state_of_put, elem_of_cons, elem_of_pending. destruct (decide (z = y)); tauto.
Qed.

Lemma budget_shrinks r r' : shrinks r r' -> budget r' = budget r.
Proof. intros [Hw H1 H2 _]. unfold budget, step_budget. by rewrite Hw, H1, H2. Qed.

(** ** Dispatch *)

Section dispatch_measure.
Context {RT : GoRuntime} {DG : Diagnostics} (limit : nat).

Lemma dispatch_loop_spec ids r fl r' fl' :
  ids ⊆ order r -> dispatch_loop limit ids (r, fl) = (r', fl') ->
  exists dn rest new, ids = dn ++ rest /\ fl' = fl ++ new /\ length new <= length dn /\
    shrinks r r' /\ (forall y, y ∈ dn -> state_of r' y <> stPending) /\
    (forall f, f ∈ new -> flight_step f ∈ wc_Steps (r_wf r)) /\
    (rest <> [] -> limit <= length fl').
Proof.
  revert r fl. induction ids as [|id ids IH]; intros r fl Hids; simpl.
  { intros [= <- <-]. exists [], [], []. split_and!; try done;
      try (intros y Hy; by apply elem_of_nil in Hy). by rewrite app_nil_r. }
  assert (id ∈ order r) as Hid by (apply Hids, list_elem_of_here).
  destruct (dispatch_one limit id (r, fl)) as [[r1 fl1]|] eqn:E.
  - destruct (dispatch_one_shrinks limit _ _ _ _ _ Hid E) as (S1 & N1 & F1). intros Hl.
    assert (order r1 = order r) as Ho1 by apply order_wf, S1.
    destruct (IH r1 fl1) as (dn & rest & new & -> & -> & L & S2 & N2 & F2 & R2);
      [|done|].
    { intros y Hy. rewrite Ho1. by apply Hids, list_elem_of_further. }
    assert (forall y, y ∈ id :: dn -> state_of r' y <> stPending) as Hnp.
    { intros y [->|Hy]%elem_of_cons; [by eapply shrinks_not_pending|by apply N2]. }
    destruct F1 as [->|(f & -> & Hf)].
    + exists (id :: dn), rest, new. split_and!; try done; [simpl; lia|by etransitivity|].
      by rewrite <- (sh_wf _ _ S1).
    + exists (id :: dn), rest, (f :: new). rewrite <- app_assoc in *. simpl.
      split_and!; try done; [lia|by etransitivity|].
      intros g [->|Hg]%elem_of_cons; [rewrite Hf; by apply byID_in|].
      rewrite <- (sh_wf _ _ S1). by apply F2.
  - intros [= <- <-]. exists [], (id :: ids), []. split_and!; try done;
      try (intros y Hy; by apply elem_of_nil in Hy); [by rewrite app_nil_r|].
    intros _. unfold dispatch_one, launch in E. simpl in E.
    repeat case_match; simplify_eq; by apply Nat.leb_le.
Qed.

Lemma dispatch_spec r fl r' fl' :
  NoDup (order r) -> dispatch limit r fl = (r', fl') ->
  shrinks r r' /\ 3 * pend r' + length fl' <= 3 * pend r + length fl /\
  (exists new, fl' = fl ++ new /\ forall f, f ∈ new -> flight_step f ∈ wc_Steps (r_wf r)) /\
  (length fl < limit -> pickAllRunnable r <> [] ->
     3 * pend r' + length fl' < 3 * pend r + length fl).
Proof.
  intros Hnd Hd. unfold dispatch in Hd.
  assert (NoDup (pickAllRunnable r)) as Hndr by (by apply NoDup_bool_filter).
  assert (forall y, y ∈ pickAllRunnable r -> y ∈ order r /\ state_of r y = stPending) as Hrun.
  { intros y. unfold pickAllRunnable.
    rewrite list_elem_of_In, filter_In, !andb_true_iff, in_state_spec, <- list_elem_of_In. tauto. }
  destruct (dispatch_loop_spec _ _ _ _ _ (fun y Hy => proj1 (Hrun y Hy)) Hd)
    as (dn & rest & new & Hids & -> & L & Sh & N & F & R).
  assert (pend r' + length dn <= pend r) as Hp.
  { apply pend_shrinks; [done..| |].
    - rewrite Hids in Hndr. by apply NoDup_app in Hndr as [? _].
    - intros y Hy. destruct (Hrun y) as [H1 H2]; [rewrite Hids, elem_of_app; by left|].
      split_and!; [done..|by apply N]. }
  rewrite length_app. split_and!; [done|lia|eauto|].
  intros Hlim Hne. destruct dn as [|d dn]; [|simpl in *; lia].
  simpl in Hids. rewrite Hids in Hne. specialize (R Hne). simpl in L.
  rewrite length_app in R. lia.
Qed.
End dispatch_measure.

(** ** The other moves *)

Lemma skip_one_spec r progress id :
  (exists r', skip_one (r, progress) id = (r', true) /\ shrinks r r' /\
     state_of r id = stPending /\ state_of r' id <> stPending)
  \/ skip_one (r, progress) id = (r, progress).
Proof.
  unfold skip_one. destruct (in_state r stPending id) eqn:E; simpl; [|by right].
  apply in_state_spec in E. destruct (shrinks_markSkipped id r) as [H1 H2].
  assert (exists r', (markSkipped id r, true) = (r', true) /\ shrinks r r' /\
    state_of r id = stPending /\ state_of r' id <> stPending) as H by eauto 6.
  destruct (existsb _ _); [by left|]. destruct (existsb _ _); [by left|].
  destruct (_ && _); [by left|by right].
Qed.

Lemma skip_loop_spec ids r b r' b' :
  foldl skip_one (r, b) ids = (r', b') ->
  shrinks r r' /\
  ((b' = b /\ r' = r) \/
   (b' = true /\ exists y, y ∈ ids /\ state_of r y = stPending /\ state_of r' y <> stPending)).
Proof.
  revert r b. induction ids as [|id ids IH]; intros r b; cbn [foldl].
  { intros [= <- <-]. split; [done|by left]. }
  destruct (skip_one_spec r b id) as [(r1 & -> & S1 & P1 & P2)| ->]; intros H%IH;
    destruct H as [S2 H].
  - split; [by etransitivity|]. right. split; [destruct H as [[-> _]|[-> _]]; done|].
    exists id. split; [apply list_elem_of_here|]. split; [done|]. by eapply shrinks_not_pending.
  - split; [done|]. destruct H as [H|(-> & y & Hy & H)]; [by left|right].
    split; [done|]. exists y. split; [by apply list_elem_of_further|done].
Qed.

Lemma skipUnreachable_spec r r' b :
  NoDup (order r) -> skipUnreachable r = (r', b) ->
  shrinks r r' /\ (b = false -> r' = r) /\ (b = true -> pend r' < pend r).
Proof.
  intros Hnd H. apply skip_loop_spec in H as [Sh H]. split; [done|].
  destruct H as [[-> ->]|(-> & y & Hy & P1 & P2)]; [done|]. split; [done|]. intros _.
  pose proof (pend_shrinks r r' [y] Hnd Sh). simpl in *.
  enough (pend r' + 1 <= pend r) by lia. apply H; [apply NoDup_singleton|].
  intros z Hz. apply elem_of_cons in Hz as [->|Hz]; [done|by apply elem_of_nil in Hz].
Qed.

Section moves.
Context {RT : GoRuntime} {DG : Diagnostics}.

Lemma clearParallel_shrinks step r : shrinks r (clearParallel step r).
Proof. unfold clearParallel. destruct (is_type _ _); [|done]. by destruct (bool_decide _). Qed.

Lemma clearWait_shrinks step r : shrinks r (clearWait step r).
Proof. unfold clearWait. by destruct (is_type _ _). Qed.

Lemma passStep_shrinks step res p r : shrinks r (passStep step res p r).
Proof.
  unfold passStep. transitivity (put_state (st_ID step) stPassed r); [by apply shrinks_put|].
  by destruct (is_type _ _), (is_empty _).
Qed.

Lemma used_bump m id id' : used (bump id m) id' = (used m id' + if bool_decide (id' = id) then 1 else 0)%Z.
Proof.
  unfold used, bump. case_bool_decide as H; subst.
  - by rewrite lookup_insert_eq.
  - rewrite lookup_insert_ne by done. simpl. lia.
Qed.

Lemma left_of_mono o u u' : (u <= u')%Z -> left_of o u' <= left_of o u.
Proof. destruct o; simpl; lia. Qed.

Lemma canLoop_left o u : canLoop o u = true -> left_of o (u + 1) < left_of o u /\ goto o <> "".
Proof.
  destruct o as [o|]; simpl; [|done]. rewrite andb_true_iff, negb_true_iff, is_empty_false, Z.ltb_lt.
  intros [H1 H2]. split; [lia|done].
Qed.

Lemma sum_lt (f g : StepConfig -> nat) l s :
  (forall x, f x <= g x) -> s ∈ l -> f s < g s -> sum_list_with f l < sum_list_with g l.
Proof.
  intros H Hs Hlt. induction l as [|x l IH]; [by apply elem_of_nil in Hs|]. simpl.
  assert (sum_list_with f l <= sum_list_with g l) as Hle
    by (clear -H; induction l as [|y l IH]; simpl; [lia|specialize (H y); lia]).
  apply elem_of_cons in Hs as [->|Hs]; [lia|]. specialize (IH Hs). specialize (H x). lia.
Qed.

(** A failed step takes one unit of a budget and asks for a loop, or ends the
    run. *)
Lemma failStep_spec step res p c r r' c' :
  step ∈ wc_Steps (r_wf r) -> NoDup (order r) -> failStep step res p c r = (r', c') ->
  r_wf r' = r_wf r /\
  ((c_loopTarget c = "" /\ c_termFail c = false /\ c_loopTarget c' <> "" /\
    budget r' < budget r /\ pend r' <= S (pend r))
   \/ (c' = {| c_termFail := true; c_loopTarget := "" |} /\ shrinks r r')).
Proof.
  intros Hin Hnd. unfold failStep.
  destruct (negb (c_termFail c) && is_empty (c_loopTarget c)) eqn:Hfree; simpl.
  2: { intros [= <- <-]. split; [done|right]. split; [done|by apply shrinks_put]. }
  apply andb_true_iff in Hfree as [Hf1%negb_true_iff Hf2%bool_decide_eq_true].
  destruct (sr_Conflict res && negb (is_empty (goto (st_OnConflict step)))) eqn:Hc; simpl.
  - destruct (canLoop _ _) eqn:Hl; intros [= <- <-]; (split; [done|]).
    + apply canLoop_left in Hl as [Hl Hg]. left. split_and!; try done; [|exact (pend_put r (st_ID step) Hnd)].
      apply (sum_lt _ _ _ step); [|done|].
      * intros s. unfold step_budget; simpl. rewrite used_bump.
        pose proof (left_of_mono (st_OnConflict s) (used (r_conflictRetries r) (st_ID s))
          (used (r_conflictRetries r) (st_ID s) + if bool_decide (st_ID s = st_ID step) then 1 else 0)%Z).
        destruct (bool_decide _); lia.
      * unfold step_budget; simpl. rewrite used_bump, bool_decide_eq_true_2 by done.
        unfold used in *. lia.
    + right. split; [done|by apply shrinks_put].
  - destruct (canLoop _ _) eqn:Hl; intros [= <- <-]; (split; [done|]).
    + apply canLoop_left in Hl as [Hl Hg]. left. split_and!; try done; [|exact (pend_put r (st_ID step) Hnd)].
      apply (sum_lt _ _ _ step); [|done|].
      * intros s. unfold step_budget; simpl. rewrite used_bump.
        pose proof (left_of_mono (st_OnFail s) (used (r_retries r) (st_ID s))
          (used (r_retries r) (st_ID s) + if bool_decide (st_ID s = st_ID step) then 1 else 0)%Z).
        destruct (bool_decide _); lia.
      * unfold step_budget; simpl. rewrite used_bump, bool_decide_eq_true_2 by done.
        unfold used in *. lia.
    + right. split; [done|by apply shrinks_put].
Qed.

(** What a receive does to the measure. *)
Lemma processResult_spec now ctxErr step p c r r' c' :
  step ∈ wc_Steps (r_wf r) -> NoDup (order r) ->
  processResult now ctxErr step p c r = inr (r', c') ->
  r_wf r' = r_wf r /\
  ((c_loopTarget c = "" /\ c_termFail c = false /\ c_loopTarget c' <> "" /\
    budget r' < budget r /\ pend r' <= S (pend r))
   \/ (c_loopTarget c' = c_loopTarget c \/ c_loopTarget c' = "") /\ shrinks r r').
Proof.
  intros Hin Hnd. unfold processResult. destruct (is_type StepTypeApproval _); [done|].
  destruct (is_type StepTypeParallel step && _); [done|].
  destruct (is_type StepTypeWaitFor step && _); [done|].
  set (r1 := clearWait step (clearParallel step r)). set (res := judge _ _ _ _).
  assert (shrinks r (recordState step p res r1)) as Sh.
  { transitivity r1; [|done]. etransitivity; [apply clearParallel_shrinks|apply clearWait_shrinks]. }
  destruct (sr_Success res); [intros [= <- <-]|intros [= H]].
  - split; [by rewrite (sh_wf _ _ (passStep_shrinks _ _ _ _)), (sh_wf _ _ Sh)|].
    right. split; [by left|]. etransitivity; [exact Sh|apply passStep_shrinks].
  - apply failStep_spec in H as [Hw H]; [|by rewrite (sh_wf _ _ Sh)|by rewrite (order_wf _ _ (sh_wf _ _ Sh))].
    split; [by rewrite Hw, (sh_wf _ _ Sh)|]. destruct H as [(H1 & H2 & H3 & H4 & H5)|[-> H]].
    + left. rewrite (budget_shrinks _ _ Sh) in H4. split_and!; try done. etransitivity; [exact H5|].
      pose proof (pend_shrinks _ _ [] Hnd Sh). simpl in *.
      enough (pend (recordState step p res r1) + 0 <= pend r) by lia.
      apply H; [constructor|]. intros y Hy. by apply elem_of_nil in Hy.
    + right. split; [by right|]. by etransitivity.
Qed.
End moves.

(** ** Termination *)

Definition flights_ok (k : config) : Prop :=
  forall f, f ∈ k_inFlight k -> flight_step f ∈ wc_Steps (r_wf (k_run k)).

Lemma receive_spec i f fl g rest :
  receive i f fl = (g, rest) -> g ∈ f :: fl /\ rest ⊆ f :: fl /\ S (length rest) = length (f :: fl).
Proof.
  unfold receive. cbv zeta. remember (f :: fl) as l eqn:Hl. intros [= <- <-].
  assert (i mod length l < length l) as Hlt by (apply Nat.mod_upper_bound; by subst l).
  destruct (lookup_lt_is_Some_2 l _ Hlt) as [g Hg]. rewrite Hg. simpl. split_and!.
  - by eapply list_elem_of_lookup_2.
  - apply sublist_subseteq, sublist_delete.
  - rewrite length_delete by done. lia.
Qed.

Lemma pend_mono r r' : NoDup (order r) -> shrinks r r' -> pend r' <= pend r.
Proof.
  intros Hnd Sh. pose proof (pend_shrinks r r' [] Hnd Sh (NoDup_nil_2)) as H. simpl in H.
  enough (pend r' + 0 <= pend r) by lia. apply H. intros y Hy. by apply elem_of_nil in Hy.
Qed.

Section termination.
Context {RT : GoRuntime} {DG : Diagnostics} (concurrency : Z).

(** The dispatch at the head of a pass. *)
Definition dispatched (stop1 : bool) (k : config) : dagRun * list flight :=
  if negb (c_termFail (k_control k)) && is_empty (c_loopTarget (k_control k)) && negb stop1
  then dispatch (concurrencyLimit concurrency) (k_run k) (k_inFlight k)
  else (k_run k, k_inFlight k).

Lemma dispatched_spec stop1 k r fl :
  NoDup (order (k_run k)) -> flights_ok k -> dispatched stop1 k = (r, fl) ->
  shrinks (k_run k) r /\
  3 * pend r + length fl <= 3 * pend (k_run k) + length (k_inFlight k) /\
  (forall f, f ∈ fl -> flight_step f ∈ wc_Steps (r_wf (k_run k))) /\
  (fl = [] -> stop1 = false -> c_termFail (k_control k) = false ->
     c_loopTarget (k_control k) = "" -> pickAllRunnable r <> [] ->
     3 * pend r < 3 * pend (k_run k) + length (k_inFlight k)).
Proof.
  intros Hnd Hf. unfold dispatched.
  destruct (negb _ && _ && _) eqn:E.
  - intros Hd. destruct (dispatch_spec _ _ _ _ _ Hnd Hd) as (Sh & Hm & (new & -> & Hnew) & Hlt).
    split_and!; [done|done| |].
    + intros f [?|?]%elem_of_app; [by apply Hf|by apply Hnew].
    + intros [E1 ->]%app_nil _ _ _ Hne. rewrite E1 in *. simpl in *.
      destruct (pickAllRunnable (k_run k)) as [|y ys] eqn:Ep.
      * unfold dispatch in Hd. rewrite Ep in Hd. injection Hd as <-. done.
      * enough (3 * pend r + 0 < 3 * pend (k_run k) + 0) by lia. apply Hlt; [|done].
        unfold concurrencyLimit. destruct (0 <? concurrency)%Z eqn:Ec; lia.
  - intros [= <- <-]. split_and!; [done|lia|done|]. intros _ -> H2 H3.
    rewrite H2, H3 in E. done.
Qed.

Lemma quiescent_spec c r r' c' :
  NoDup (order r) -> quiescent c r = inl (r', c') ->
  r_wf r' = r_wf r /\ c_loopTarget c' = "" /\
  ((c_loopTarget c <> "" /\ budget r' = budget r)
   \/ (c_loopTarget c = "" /\ c_termFail c = false /\ budget r' = budget r /\ pend r' < pend r)
   \/ (c_loopTarget c = "" /\ c_termFail c = false /\ r' = r /\ pickAllRunnable r <> [])).
Proof.
  intros Hnd. unfold quiescent. destruct (c_termFail c) eqn:Et; [done|].
  destruct (is_empty (c_loopTarget c)) eqn:El; simpl.
  - apply is_empty_true in El. destruct (skipUnreachable r) as [r1 b] eqn:Hs.
    destruct (skipUnreachable_spec _ _ _ Hnd Hs) as (Sh & H1 & H2).
    destruct b.
    + intros [= <- <-]. split_and!; [apply Sh|done|].
      right; left. split_and!; [done|done|by apply budget_shrinks|auto].
    + rewrite (H1 eq_refl). destruct (pickAllRunnable r) eqn:Ep; [done|]. intros [= <- <-].
      split_and!; try done. right; right. done.
  - apply is_empty_false in El. intros [= <- <-].
    destruct (resetLoop_control (c_loopTarget c) r) as [Hw Ha Hr Hc].
    split_and!; [done|done|]. left. split; [done|]. unfold budget, step_budget.
    by rewrite Hw, Hr, Hc.
Qed.

(** Every pass that does not end the run decreases the measure. *)
Lemma drive_pass_measure e k k' :
  NoDup (order (k_run k)) -> flights_ok k -> drive_pass concurrency e k = inl k' ->
  measure k' < measure k /\ flights_ok k' /\ r_wf (k_run k') = r_wf (k_run k).
Proof.
  intros Hnd Hf. unfold drive_pass. fold (dispatched (k_stopped k || pe_stop1 e) k).
  destruct (dispatched _ k) as [r fl] eqn:Hd.
  destruct (dispatched_spec _ _ _ _ Hnd Hf Hd) as (Sh & Hm & Hfl & Hlt).
  assert (order r = order (k_run k)) as Ho by apply order_wf, Sh.
  assert (NoDup (order r)) as Hnd' by (by rewrite Ho).
  pose proof (budget_shrinks _ _ Sh) as Hb.
  destruct fl as [|f fl].
  - destruct ((k_stopped k || pe_stop1 e) || pe_stop2 e) eqn:Hst; [done|].
    apply orb_false_iff in Hst as [Hst _].
    destruct (quiescent (k_control k) r) as [[r' c']|] eqn:Hq; [|done]. intros [= <-].
    destruct (quiescent_spec _ _ _ _ Hnd' Hq) as (Hw & Hl & Hcase).
    assert (order r' = order r) as Ho' by by apply order_wf.
    split_and!; [|by intros g Hg; apply elem_of_nil in Hg|simpl; by rewrite Hw, (sh_wf _ _ Sh)].
    unfold measure; simpl. rewrite Ho', Ho, Hl. simpl. pose proof (pend_le_order r') as Hpo.
    rewrite Ho', Ho in Hpo.
    destruct Hcase as [(H1 & H2)|[(H1 & H2 & H3 & H4)|(H1 & H2 & -> & H3)]].
    + rewrite H2, Hb. apply is_empty_false in H1. rewrite H1. lia.
    + rewrite H3, Hb, H1. simpl in *. lia.
    + rewrite Hb, H1. specialize (Hlt eq_refl Hst H2 H1 H3). simpl. lia.
  - destruct (receive (pe_pick e) f fl) as [g rest] eqn:Hr.
    destruct (receive_spec _ _ _ _ _ Hr) as (Hg & Hrest & Hlen).
    assert (flight_step g ∈ wc_Steps (r_wf r)) as Hgs by (rewrite (sh_wf _ _ Sh); by apply Hfl).
    destruct (_ || pe_stop3 e).
    + intros [= <-]. split_and!; [|intros x Hx; simpl; rewrite (sh_wf _ _ Sh); by apply Hfl, Hrest|apply Sh].
      unfold measure; simpl. rewrite Ho, Hb. lia.
    + destruct (processResult _ _ _ _ _ _) as [|[r' c']] eqn:Hp; [done|]. intros [= <-].
      destruct (processResult_spec _ _ _ _ _ _ _ _ Hgs Hnd' Hp) as (Hw & Hcase).
      assert (order r' = order r) as Ho' by by apply order_wf.
      split_and!; [|intros x Hx; simpl; rewrite Hw, (sh_wf _ _ Sh); by apply Hfl, Hrest
                   |simpl; by rewrite Hw, (sh_wf _ _ Sh)].
      unfold measure; simpl k_run; simpl k_control; simpl k_inFlight. rewrite Ho', Ho.
      destruct Hcase as [(H1 & H2 & H3 & H4 & H5)|[Hl Sh']].
      * apply is_empty_false in H3. rewrite H1, H3. rewrite Hb in H4. change (is_empty "") with true.
        cbv iota. nia.
      * rewrite (budget_shrinks _ _ Sh'), Hb. pose proof (pend_mono _ _ Hnd' Sh').
        destruct Hl as [->| ->]; [|change (is_empty "") with true; cbv iota];
          destruct (is_empty _); lia.
Qed.

(** C2: the scheduler always ends: from any state of a workflow with distinct
    step ids, whatever the workers report, in whatever order they finish, and
    however the environment interferes, [driveDAG] returns an outcome within
    the stated number of passes. *)
Theorem driveDAG_terminates (events : nat -> Event) (r : dagRun) (fuel : nat) :
  NoDup (order r) ->
  budget r * (3 * length (order r) + 6) + 3 * length (order r) < fuel ->
  is_Some (driveDAG concurrency fuel events r).
Proof.
  intros Hnd Hfuel. unfold driveDAG.
  assert (measure (start r) < fuel) as Hm.
  { unfold measure; simpl. pose proof (pend_le_order r). lia. }
  assert (flights_ok (start r)) as Hf by (intros f H; by apply elem_of_nil in H).
  assert (NoDup (order (k_run (start r)))) as Hnd' by done.
  clear Hfuel Hnd. revert events Hm Hf Hnd'. generalize (start r). clear r.
  induction fuel as [|fuel IH]; intros k events Hm Hf Hnd; [lia|]. simpl.
  destruct (drive_pass _ _ _) as [k'|] eqn:Hp; [|by eexists].
  destruct (drive_pass_measure _ _ _ Hnd Hf Hp) as (Hlt & Hf' & Hw).
  apply IH; [lia|done|]. by rewrite (order_wf _ _ Hw).
Qed.
End termination.
