(* ===== verification/DagInvariant.v ===== *)
(** * The scheduler's invariant

    A step runs or has passed only with every explicit dependency passed and
    every sequential one passed or condition-skipped; what runs is exactly what
    is in flight, once. The invariant holds of a fresh run and every pass keeps
    it. *)

From stdpp Require Import base gmap strings list.
From Stdlib Require Import ZArith.
From S2P Require Import Prelude Model Expr Config Graph Dag DagFacts DagTermination.

Definition known_states : list string :=
  [stPending; stRunning; stPassed; stFailed; stSkipped; stCondSkipped; stWaiting].

(** The step was started. *)
Definition started (st : string) : Prop := st = stRunning \/ st = stPassed \/ st = stWaiting.

Record consistent (r : dagRun) : Prop := {
  cs_started : forall y, started (state_of r y) -> y ∈ r_activated r /\ depsPassed r y = true;
  cs_ended : forall y, state_of r y = stCondSkipped \/ state_of r y = stFailed -> y ∈ r_activated r;
  cs_known : forall y, y ∈ order r -> state_of r y ∈ known_states;
  cs_open : forall y, y ∈ order r -> splitTarget r y = false -> y ∈ r_activated r;
}.

(** What runs is what is in flight. *)
Record flying (r : dagRun) (fl : list flight) : Prop := {
  fly_distinct : NoDup ((fun f => st_ID (flight_step f)) <$> fl);
  fly_running : forall f, f ∈ fl ->
    state_of r (st_ID (flight_step f)) = stRunning /\ flight_step f ∈ wc_Steps (r_wf r) /\
    byID r (st_ID (flight_step f)) = flight_step f;
  fly_only : forall y, state_of r y = stRunning ->
    y ∈ (fun f => st_ID (flight_step f)) <$> fl;
  fly_parked : forall y, state_of r y <> stWaiting;
}.

(** ** Dependencies stay satisfied *)

(** No satisfied dependency is lost. *)
Record keeps (r r' : dagRun) : Prop := {
  kp_wf : r_wf r' = r_wf r;
  kp_passed : forall y, state_of r y = stPassed -> state_of r' y = stPassed;
  kp_cond : forall y, state_of r y = stCondSkipped -> state_of r' y = stCondSkipped;
  kp_activated : r_activated r ⊆ r_activated r';
}.

#[global] Instance keeps_refl : Reflexive keeps.
Proof. by intros r. Qed.
#[global] Instance keeps_trans : Transitive keeps.
Proof.
  intros r1 r2 r3 [] []. split; [congruence|auto|auto|]. by etransitivity.
Qed.

Lemma depsPassed_spec r y :
  depsPassed r y = true <->
  (forall d, d ∈ st_DependsOn (byID r y) -> state_of r d = stPassed) /\
  (forall d, d ∈ st_SeqDependsOn (byID r y) -> state_of r d = stPassed \/ state_of r d = stCondSkipped).
Proof.
  unfold depsPassed. rewrite andb_true_iff, !forallb_forall.
  setoid_rewrite orb_true_iff. setoid_rewrite in_state_spec. setoid_rewrite list_elem_of_In. done.
Qed.

Lemma depsPassed_keeps r r' y : keeps r r' -> depsPassed r y = true -> depsPassed r' y = true.
Proof.
  intros [Hw Hp Hc _]. rewrite !depsPassed_spec. unfold byID. rewrite Hw. intros [H1 H2]. split.
  - intros d Hd. auto.
  - intros d Hd. destruct (H2 d Hd); auto.
Qed.

(** Changing the state of one step, without losing a satisfied dependency. *)
Lemma keeps_put r y st :
  state_of r y <> stPassed -> state_of r y <> stCondSkipped -> keeps r (put_state y st r).
Proof.
  intros H1 H2. split; try done; intros z Hz; rewrite state_of_put;
    by destruct (decide (z = y)) as [->|].
Qed.

Lemma consistent_put r y st :
  consistent r -> state_of r y <> stPassed -> state_of r y <> stCondSkipped ->
  st ∈ known_states ->
  (started st -> y ∈ r_activated r /\ depsPassed r y = true) ->
  (st = stCondSkipped \/ st = stFailed -> y ∈ r_activated r) ->
  consistent (put_state y st r).
Proof.
  intros [Hs He Hk Ho] H1 H2 H3 H4 H5. pose proof (keeps_put r y st H1 H2) as Hkp. split; [..|exact Ho].
  - intros z. rewrite state_of_put. destruct (decide (z = y)) as [->|].
    + intros Hst. destruct (H4 Hst). split; [done|by eapply depsPassed_keeps].
    + intros Hst. destruct (Hs z Hst). split; [done|by eapply depsPassed_keeps].
  - intros z. rewrite state_of_put. destruct (decide (z = y)) as [->|]; [apply H5|apply He].
  - intros z Hz. rewrite state_of_put. destruct (decide (z = y)) as [->|]; [done|by apply Hk].
Qed.

(** Runs with the same states, workflow and at least the same activations. *)
Lemma consistent_ext r r' :
  consistent r -> r_wf r' = r_wf r -> r_state r' = r_state r -> r_activated r ⊆ r_activated r' ->
  consistent r' /\ keeps r r'.
Proof.
  intros [Hs He Hk Ho] Hw Hst Ha.
  assert (forall y, state_of r' y = state_of r y) as Hso by (intros y; unfold state_of; by rewrite Hst).
  assert (keeps r r') as Hkp by (split; [done|intros y; by rewrite Hso..|done]).
  split; [|done]. split.
  - intros y. rewrite Hso. intros Hy. destruct (Hs y Hy). split; [by apply Ha|by eapply depsPassed_keeps].
  - intros y. rewrite Hso. intros Hy. by apply Ha, He.
  - intros y. rewrite Hso. unfold order. rewrite Hw. apply Hk.
  - intros y. unfold order, splitTarget. rewrite Hw. intros H1 H2. by apply Ha, Ho.
Qed.

(** A step that may be skipped by a cascade: it neither ran nor was satisfied. *)
Definition skippable (r : dagRun) (y : string) : Prop := ~ started (state_of r y) /\
  state_of r y <> stCondSkipped /\ state_of r y <> stFailed.

Lemma skippable_pending r y : state_of r y = stPending -> skippable r y.
Proof. unfold skippable, started. intros ->. by intuition discriminate. Qed.

(** An inactive step of a consistent run was never started. *)
Lemma inactive_skippable r y : consistent r -> y ∉ r_activated r -> skippable r y.
Proof.
  intros [Hs He _ _] Hn. split_and!.
  - intros Hst. by destruct (Hs y Hst).
  - intros Hst. by apply Hn, He; left.
  - intros Hst. by apply Hn, He; right.
Qed.

(** [markSkipped] on such a step moves only steps that never ran. *)
Lemma markSkipped_only r id y :
  skippable r id -> state_of (markSkipped id r) y = state_of r y \/
    (state_of (markSkipped id r) y = stSkipped /\ skippable r y).
Proof.
  intros Hid. destruct (decide (state_of r id = stSkipped)) as [E|E].
  { left. by rewrite markSkipped_already by auto. }
  destruct (markSkipped_states id r y E) as [[H1 H2]|[H1 _]]; [by apply Hid| |by left].
  right. split; [done|]. destruct H2 as [->|(Hp & _)]; [done|by apply skippable_pending].
Qed.

Lemma skips_consistent r r' :
  consistent r -> same_but_state r r' ->
  (forall y, state_of r' y = state_of r y \/ (state_of r' y = stSkipped /\ skippable r y)) ->
  consistent r' /\ keeps r r'.
Proof.
  intros Hc [Hw Ha _ _ _ _] H.
  assert (keeps r r') as Hkp.
  { split; [done| | |by rewrite Ha]; intros y Hy; destruct (H y) as [->|[_ [H1 [H2 _]]]]; try done.
    destruct H1. unfold started. auto. }
  split; [|done]. destruct Hc as [Hs He Hk Ho]. split.
  - intros y. rewrite Ha. destruct (H y) as [->|[-> _]].
    + intros Hy. destruct (Hs y Hy). split; [done|by eapply depsPassed_keeps].
    + unfold started. intros [|[|]]; discriminate.
  - intros y. rewrite Ha. destruct (H y) as [->|[-> _]]; [apply He|]. intros [|]; discriminate.
  - intros y. unfold order. rewrite Hw. intros Hy. destruct (H y) as [->|[-> _]]; [by apply Hk|].
    unfold known_states. rewrite !elem_of_cons. tauto.
  - intros y. unfold order, splitTarget. rewrite Hw, Ha. apply Ho.
Qed.

Lemma markSkipped_consistent r id :
  consistent r -> skippable r id -> consistent (markSkipped id r) /\ keeps r (markSkipped id r).
Proof.
  intros Hc Hid. apply skips_consistent; [done|apply markSkipped_same|].
  intros y. by apply markSkipped_only.
Qed.

(** The steps in flight are untouched by a cascade. *)
Lemma markSkipped_flying r id fl :
  skippable r id -> flying r fl -> flying (markSkipped id r) fl.
Proof.
  intros Hid [H1 H2 H3 H4]. split; [done| | |].
  - intros f Hf. destruct (H2 f Hf) as (A1 & A2 & A3).
    unfold byID. rewrite (sbs_wf _ _ (markSkipped_same id r)). split_and!; [|done..].
    destruct (markSkipped_only r id (st_ID (flight_step f)) Hid) as [->|[_ [Hn _]]]; [done|].
    destruct Hn. by left.
  - intros y. destruct (markSkipped_only r id y Hid) as [->|[-> _]]; [apply H3|discriminate].
  - intros y. destruct (markSkipped_only r id y Hid) as [->|[-> _]]; [apply H4|discriminate].
Qed.

Lemma flying_ext r r' fl :
  flying r fl -> r_wf r' = r_wf r -> r_state r' = r_state r -> flying r' fl.
Proof.
  intros [H1 H2 H3 H4] Hw Hst.
  assert (forall y, state_of r' y = state_of r y) as Hso by (intros y; unfold state_of; by rewrite Hst).
  split; [done|intros f Hf; unfold byID; rewrite Hso, Hw; by apply H2|intros y; rewrite Hso; apply H3|
    intros y; rewrite Hso; apply H4].
Qed.

(** Changing the state of a step that is not in flight. *)
Lemma flying_put r fl y st :
  flying r fl -> state_of r y <> stRunning -> st <> stRunning -> st <> stWaiting ->
  flying (put_state y st r) fl.
Proof.
  intros [H1 H2 H3 H4] Hy Hs Hw. split; [done| | |].
  - intros f Hf. destruct (H2 f Hf) as (A1 & A2 & A3). rewrite state_of_put.
    split_and!; [|done..]. destruct (decide _) as [E|]; [|done]. by rewrite E in A1.
  - intros z. rewrite state_of_put. destruct (decide (z = y)); [done|apply H3].
  - intros z. rewrite state_of_put. destruct (decide (z = y)); [done|apply H4].
Qed.

(** Launching a step. *)
Lemma flying_launch r fl f y :
  flying r fl -> y ∈ order r -> byID r y = flight_step f -> state_of r y <> stRunning ->
  flying (put_state y stRunning r) (fl ++ [f]).
Proof.
  intros [H1 H2 H3 H4] Hy Hf Hs. destruct (byID_in r y Hy) as [Hid Hin]. rewrite Hf in Hid, Hin.
  assert (y ∉ (fun f => st_ID (flight_step f)) <$> fl) as Hny.
  { intros (g & -> & Hg)%list_elem_of_fmap. by destruct (H2 g Hg). }
  split.
  - rewrite fmap_app. apply NoDup_app. split_and!; [done| |apply NoDup_singleton].
    intros z Hz Hz'. apply elem_of_cons in Hz' as [->|Hz']; [|by apply elem_of_nil in Hz'].
    by rewrite Hid in Hz.
  - intros g Hg. rewrite state_of_put. apply elem_of_app in Hg as [Hg|Hg].
    + destruct (H2 g Hg) as (A1 & A2 & A3). split_and!; [|done..]. by destruct (decide _).
    + apply elem_of_cons in Hg as [->|Hg]; [|by apply elem_of_nil in Hg].
      rewrite Hid. split_and!; [by destruct (decide _)|done|done].
  - intros z. rewrite state_of_put, fmap_app, elem_of_app. destruct (decide (z = y)) as [->|].
    + intros _. right. rewrite <- Hid. apply list_elem_of_here.
    + intros Hz. left. by apply H3.
  - intros z. rewrite state_of_put. destruct (decide (z = y)); [done|apply H4].
Qed.

(** ** Dispatch *)

Record runnable (r : dagRun) (y : string) : Prop := {
  rn_order : y ∈ order r;
  rn_pending : state_of r y = stPending;
  rn_activated : y ∈ r_activated r;
  rn_deps : depsPassed r y = true;
}.

Lemma elem_of_pickAllRunnable r y : y ∈ pickAllRunnable r <-> runnable r y.
Proof.
  unfold pickAllRunnable. rewrite list_elem_of_In, filter_In, !andb_true_iff, <- list_elem_of_In,
    in_state_spec, is_activated_spec. split; [by intros (? & [] & ?)|by intros []].
Qed.

(** A cascade from a step that was never satisfied does not reach a runnable
    step. *)
Lemma runnable_not_reached r id x :
  skippable r id -> runnable r x -> x <> id -> ~ skip_reach r id x.
Proof.
  intros (Hs & Hc & _) [_ _ _ Hd] Hne Hr. apply depsPassed_spec in Hd as [D1 D2].
  inversion Hr as [|a b Ha Hb He Hop]; subst; [done|].
  assert (state_of r a <> stPassed /\ state_of r a <> stCondSkipped) as [N1 N2].
  { inversion Ha as [|a' b' _ _ _ Hop']; subst.
    - split; [|done]. intros E. apply Hs. unfold started. auto.
    - apply in_state_spec in Hop'. by rewrite Hop'. }
  unfold dep_edge in He. fold (byID r x) in He.
  apply orb_true_iff in He as [He|He]; unfold str_in in He; apply bool_decide_eq_true in He.
  - by apply N1, D1.
  - destruct (D2 _ He); done.
Qed.

Record loop_inv (X : list string) (fl : list flight) (r : dagRun) : Prop := {
  li_consistent : consistent r;
  li_flying : flying r fl;
  li_runnable : forall x, x ∈ X -> runnable r x;
}.

Lemma runnable_ext r r' x :
  runnable r x -> r_wf r' = r_wf r -> state_of r' x = stPending -> keeps r r' -> runnable r' x.
Proof.
  intros [H1 H2 H3 H4] Hw Hp Hk. split; [unfold order; by rewrite Hw|done|by apply Hk|].
  by eapply depsPassed_keeps.
Qed.

Lemma loop_inv_ext X fl r r' :
  loop_inv X fl r -> r_wf r' = r_wf r -> r_state r' = r_state r -> r_activated r ⊆ r_activated r' ->
  loop_inv X fl r'.
Proof.
  intros [Hc Hf Hr] Hw Hst Ha. destruct (consistent_ext r r' Hc Hw Hst Ha) as [Hc' Hk].
  split; [done|by eapply flying_ext|]. intros x Hx. eapply runnable_ext; eauto.
  unfold state_of. rewrite Hst. by apply Hr.
Qed.

Lemma loop_inv_skip X fl r id :
  loop_inv X fl r -> id ∉ r_activated r -> loop_inv X fl (markSkipped id r).
Proof.
  intros [Hc Hf Hr] Hid. pose proof (inactive_skippable r id Hc Hid) as Hs.
  destruct (markSkipped_consistent r id Hc Hs) as [Hc' Hk].
  split; [done|by apply markSkipped_flying|]. intros x Hx. destruct (Hr x Hx) as [R1 R2 R3 R4].
  eapply runnable_ext; [by apply Hr|apply (markSkipped_same id r)| |done].
  destruct (decide (state_of r id = stSkipped)) as [E|E]; [by rewrite markSkipped_already by auto|].
  destruct (markSkipped_states id r x E) as [[_ H]|[-> _]]; [by apply Hs| |done].
  destruct H as [->|(_ & _ & Hre)]; [done|].
  by destruct (runnable_not_reached r id x Hs (Hr x Hx) ltac:(by intros ->)).
Qed.

(** One step leaves the runnable ones. *)
Lemma loop_inv_put X fl fl' r id st :
  loop_inv X fl r -> id ∉ X -> runnable r id -> flying (put_state id st r) fl' ->
  st ∈ known_states -> loop_inv X fl' (put_state id st r).
Proof.
  intros [Hc Hf Hr] Hid [R1 R2 R3 R4] Hf' Hst.
  assert (state_of r id <> stPassed /\ state_of r id <> stCondSkipped) as [N1 N2] by (by rewrite R2).
  split; [by apply consistent_put|done|]. intros x Hx.
  eapply runnable_ext; [by apply Hr|done| |by apply keeps_put].
  rewrite state_of_put. destruct (decide (x = id)) as [->|]; [done|by apply Hr].
Qed.

Section dispatch_inv.
Context {RT : GoRuntime} {DG : Diagnostics} (limit : nat).

Lemma runSplitStep_inv X fl r id r' :
  loop_inv X fl r -> id ∉ X -> runnable r id -> runSplitStep r (byID r id) = Ok r' ->
  loop_inv X fl r'.
Proof.
  intros Hl Hid Hrun. unfold runSplitStep.
  destruct (byID_in r id (rn_order _ _ Hrun)) as [Hsid _]. rewrite Hsid.
  destruct (chooseBranches _ _ _) as [chosen|]; rsimpl; [|done]. intros [= <-].
  apply foldl_inv.
  - apply foldl_inv.
    + apply (loop_inv_ext X fl (put_state id stPassed r)); [|done..]. apply (loop_inv_put X fl); try done.
      * apply flying_put; [apply Hl|by rewrite (rn_pending _ _ Hrun)|done..].
      * unfold known_states. rewrite !elem_of_cons. tauto.
    + intros r0 b _ H0. destruct (_ && _); [|done]. eapply loop_inv_ext; [done..|simpl; set_solver].
  - intros r0 b _ H0. unfold skip_unchosen.
    destruct (is_activated r0 (br_Goto b)) eqn:E; [by rewrite !andb_false_r|].
    destruct (_ && _); [|done]. apply loop_inv_skip; [done|].
    intros Ha. apply is_activated_spec in Ha. congruence.
Qed.

Lemma dispatch_one_inv X id r fl r' fl' :
  loop_inv X fl r -> id ∉ X -> runnable r id ->
  dispatch_one limit id (r, fl) = Some (r', fl') -> loop_inv X fl' r'.
Proof.
  intros Hl Hid Hrun.
  assert (forall f, flight_step f = byID r id ->
    loop_inv X (fl ++ [f]) (put_state id stRunning r)) as Hlaunch.
  { intros f Hf. apply (loop_inv_put X fl); try done.
    - apply flying_launch; [apply Hl|apply Hrun|done|by rewrite (rn_pending _ _ Hrun)].
    - unfold known_states. rewrite !elem_of_cons. tauto. }
  assert (forall acc, launch limit id (byID r id) (r, fl) = Some acc -> loop_inv X acc.2 acc.1) as Hla.
  { intros acc. unfold launch. destruct (is_type StepTypeSplit _).
    - destruct (runSplitStep r (byID r id)) as [r1|[src e]] eqn:Hs; intros [= <-]; simpl.
      + by eapply runSplitStep_inv.
      + by apply Hlaunch.
    - destruct (is_type StepTypeApproval _); [intros [= <-]; by apply Hlaunch|].
      destruct (_ <=? _); [done|]. intros [= <-]. by apply Hlaunch. }
  unfold dispatch_one. cbn [fst snd]. destruct (is_empty _); [by intros H%Hla|].
  destruct (evalExpr _ _) as [[]|e].
  - by intros H%Hla.
  - intros [= <- <-]. eapply (loop_inv_ext X fl (put_state id stCondSkipped r)); try done.
    apply (loop_inv_put X fl); try done.
    + apply flying_put; [apply Hl|by rewrite (rn_pending _ _ Hrun)|done..].
    + unfold known_states. rewrite !elem_of_cons. tauto.
  - intros [= <- <-]. by apply Hlaunch.
Qed.

Lemma dispatch_loop_inv ids r fl :
  NoDup ids -> loop_inv ids fl r ->
  loop_inv [] (dispatch_loop limit ids (r, fl)).2 (dispatch_loop limit ids (r, fl)).1.
Proof.
  intros Hnd. revert r fl. induction Hnd as [|id ids Hid Hnd IH]; intros r fl Hl; simpl; [done|].
  assert (loop_inv ids fl r) as Hl'.
  { split; [apply Hl..|]. intros x Hx. by apply Hl, list_elem_of_further. }
  destruct (dispatch_one limit id (r, fl)) as [[r1 fl1]|] eqn:E.
  - apply IH. eapply dispatch_one_inv; eauto. by apply Hl, list_elem_of_here.
  - simpl. split; [apply Hl..|]. intros x Hx. by apply elem_of_nil in Hx.
Qed.

Lemma dispatch_inv r fl r' fl' :
  NoDup (order r) -> consistent r -> flying r fl -> dispatch limit r fl = (r', fl') ->
  consistent r' /\ flying r' fl'.
Proof.
  intros Hnd Hc Hf. unfold dispatch. intros Hd.
  assert (NoDup (pickAllRunnable r)) as Hn by (by apply NoDup_bool_filter).
  pose proof (dispatch_loop_inv _ r fl Hn) as H. rewrite Hd in H.
  destruct H as [H1 H2 _]; [|done]. split; [done..|]. intros x. by rewrite elem_of_pickAllRunnable.
Qed.
End dispatch_inv.

(** ** The other moves *)

Lemma skip_one_inv acc id :
  consistent acc.1 -> flying acc.1 [] ->
  consistent (skip_one acc id).1 /\ flying (skip_one acc id).1 [].
Proof.
  destruct acc as [r b]. cbn [fst]. intros Hc Hf. unfold skip_one.
  destruct (in_state r stPending id) eqn:E; cbn [negb]; [|done]. apply in_state_spec in E.
  assert (consistent (markSkipped id r) /\ flying (markSkipped id r) []) as H.
  { split; [apply markSkipped_consistent|apply markSkipped_flying]; eauto using skippable_pending. }
  by repeat case_match.
Qed.

Lemma skipUnreachable_inv r :
  consistent r -> flying r [] ->
  consistent (skipUnreachable r).1 /\ flying (skipUnreachable r).1 [].
Proof.
  intros Hc Hf. unfold skipUnreachable.
  apply (foldl_inv (fun acc => consistent acc.1 /\ flying acc.1 [])); [done|].
  intros acc id _ [? ?]. by apply skip_one_inv.
Qed.

(** With nothing in flight, resetting a closed set of dependents strands no
    started step. *)
Lemma resetLoop_inv r t :
  consistent r -> flying r [] -> consistent (resetLoop t r) /\ flying (resetLoop t r) [].
Proof.
  intros [Hs He Hk Hop] Hf. destruct (resetLoop_control t r) as [Hw Ha _ _].
  assert (forall y d, d ∈ st_DependsOn (byID r y) \/ d ∈ st_SeqDependsOn (byID r y) ->
    y ∉ resetSet r t -> d ∉ resetSet r t) as Hcl.
  { intros y d Hd Hy Hdr. apply Hy, elem_of_resetSet.
    destruct (decide (y ∈ order r)) as [Ho|Ho].
    - eapply dep_next; [by apply elem_of_resetSet|done|]. unfold dep_edge, str_in. fold (byID r y).
      rewrite orb_true_iff, !bool_decide_eq_true. done.
    - rewrite (byID_out r y Ho) in Hd. simpl in Hd. rewrite !elem_of_nil in Hd. tauto. }
  split; [split|split].
  - intros y. rewrite resetLoop_states, Ha. destruct (decide (y ∈ resetSet r t)) as [|Hy].
    + unfold started. intros [|[|]]; discriminate.
    + intros Hst. destruct (Hs y Hst) as [H1 H2]. split; [done|].
      rewrite depsPassed_spec in H2 |- *. unfold byID. rewrite Hw. fold (byID r y).
      destruct H2 as [D1 D2]. split; intros d Hd; rewrite resetLoop_states;
        destruct (decide (d ∈ resetSet r t)) as [Hdr|]; auto;
        by destruct (Hcl y d ltac:(auto) Hy Hdr).
  - intros y. rewrite resetLoop_states, Ha. destruct (decide _); [|apply He]. intros [|]; discriminate.
  - intros y. unfold order. rewrite Hw, resetLoop_states. intros Hy. destruct (decide _); [|by apply Hk].
    apply list_elem_of_here.
  - intros y. unfold order, splitTarget. rewrite Hw, Ha. apply Hop.
  - constructor.
  - intros f H. by apply elem_of_nil in H.
  - intros y. rewrite resetLoop_states. destruct (decide _); [discriminate|]. apply Hf.
  - intros y. rewrite resetLoop_states. destruct (decide _); [discriminate|]. apply Hf.
Qed.

Lemma receive_perm i f fl g rest : receive i f fl = (g, rest) -> f :: fl ≡ₚ g :: rest.
Proof.
  unfold receive. cbv zeta. remember (f :: fl) as l eqn:Hl. intros [= <- <-].
  assert (i mod length l < length l) as Hlt by (apply Nat.mod_upper_bound; by subst l).
  destruct (lookup_lt_is_Some_2 l _ Hlt) as [g Hg]. rewrite Hg. simpl. by apply delete_Permutation.
Qed.

Lemma flying_perm r fl fl' : fl ≡ₚ fl' -> flying r fl -> flying r fl'.
Proof.
  intros Hp [H1 H2 H3 H4]. split; [by rewrite <- Hp| | |done].
  - intros f Hf. apply H2. by rewrite Hp.
  - intros y Hy. rewrite <- Hp. by apply H3.
Qed.

(** The reporting step leaves the flight list with a state of its own. *)
Lemma flying_land r g rest st :
  flying r (g :: rest) -> st <> stRunning -> st <> stWaiting ->
  flying (put_state (st_ID (flight_step g)) st r) rest.
Proof.
  intros [H1 H2 H3 H4] Hs Hw. rewrite fmap_cons in H1. apply NoDup_cons in H1 as [Hn H1].
  split; [done| | |].
  - intros f Hf. destruct (H2 f) as (A1 & A2 & A3); [by apply list_elem_of_further|].
    rewrite state_of_put. split_and!; [|done..]. destruct (decide _) as [E|]; [|done].
    destruct Hn. rewrite <- E. by apply (list_elem_of_fmap_2 (fun f => st_ID (flight_step f))).
  - intros y. rewrite state_of_put. destruct (decide _) as [|Hne]; [done|].
    intros Hy. specialize (H3 y Hy). rewrite fmap_cons in H3. by apply elem_of_cons in H3 as [?|?].
  - intros y. rewrite state_of_put. destruct (decide _); [done|apply H4].
Qed.

Lemma consistent_land r g rest st :
  consistent r -> flying r (g :: rest) -> st ∈ known_states ->
  consistent (put_state (st_ID (flight_step g)) st r).
Proof.
  intros Hc [_ H2 _ _] Hst. destruct (H2 g) as (A1 & A2 & A3); [apply list_elem_of_here|].
  destruct (cs_started _ Hc (st_ID (flight_step g))) as [B1 B2]; [unfold started; auto|].
  apply consistent_put; try done; by rewrite A1.
Qed.

(** ** Retry budgets *)

Definition max_retries (o : option StepOutcome) : Z := from_option so_MaxRetries 0%Z o.

Definition within_budget (r : dagRun) : Prop :=
  forall s, s ∈ wc_Steps (r_wf r) ->
    (default 0 (r_retries r !! st_ID s) <= Z.max 0 (max_retries (st_OnFail s)))%Z /\
    (default 0 (r_conflictRetries r !! st_ID s) <= Z.max 0 (max_retries (st_OnConflict s)))%Z.

Lemma steps_by_id wf s s' :
  NoDup (st_ID <$> wc_Steps wf) -> s ∈ wc_Steps wf -> s' ∈ wc_Steps wf -> st_ID s = st_ID s' -> s = s'.
Proof.
  intros Hnd (i & Hi)%list_elem_of_lookup_1 (j & Hj)%list_elem_of_lookup_1 He.
  assert (i = j) as ->; [|congruence].
  eapply NoDup_lookup; [exact Hnd|..]; rewrite list_lookup_fmap; [by rewrite Hi|by rewrite Hj, He].
Qed.

Lemma within_budget_same r r' :
  within_budget r -> r_wf r' = r_wf r -> r_retries r' = r_retries r ->
  r_conflictRetries r' = r_conflictRetries r -> within_budget r'.
Proof. intros H Hw H1 H2 s. rewrite Hw, H1, H2. apply H. Qed.

Lemma canLoop_max o u : canLoop o u = true -> (u + 1 <= max_retries o)%Z.
Proof.
  destruct o as [o|]; simpl; [|done]. rewrite andb_true_iff, Z.ltb_lt. intros [_ H]. lia.
Qed.

(** ** The invariant of the loop *)

Record dag_inv (k : config) : Prop := {
  di_distinct : NoDup (order (k_run k));
  di_consistent : consistent (k_run k);
  di_flying : k_stopped k = false -> flying (k_run k) (k_inFlight k);
  di_budget : within_budget (k_run k);
  di_failed : c_termFail (k_control k) = true ->
    exists y, y ∈ order (k_run k) /\ state_of (k_run k) y = stFailed;
}.

Lemma land_inv r r' g rest st :
  consistent r -> flying r (g :: rest) -> st ∈ known_states -> st <> stRunning -> st <> stWaiting ->
  r_wf r' = r_wf r -> r_state r' = <[st_ID (flight_step g) := st]> (r_state r) ->
  r_activated r ⊆ r_activated r' -> consistent r' /\ flying r' rest.
Proof.
  intros Hc Hf Hst N1 N2 Hw Hs Ha.
  pose proof (consistent_land r g rest st Hc Hf Hst) as Hc'.
  pose proof (flying_land r g rest st Hf N1 N2) as Hf'.
  split; [by apply (consistent_ext _ r' Hc' Hw Hs Ha)|by eapply flying_ext].
Qed.

Section process_inv.
Context {RT : GoRuntime} {DG : Diagnostics}.

Lemma clear_same step r :
  r_wf (clearWait step (clearParallel step r)) = r_wf r /\
  r_state (clearWait step (clearParallel step r)) = r_state r /\
  r_activated (clearWait step (clearParallel step r)) = r_activated r /\
  r_retries (clearWait step (clearParallel step r)) = r_retries r /\
  r_conflictRetries (clearWait step (clearParallel step r)) = r_conflictRetries r.
Proof. unfold clearWait, clearParallel. by repeat case_match. Qed.

Lemma passStep_fields step res p r :
  r_wf (passStep step res p r) = r_wf r /\
  r_state (passStep step res p r) = <[st_ID step := stPassed]> (r_state r) /\
  r_activated r ⊆ r_activated (passStep step res p r) /\
  r_retries (passStep step res p r) = r_retries r /\
  r_conflictRetries (passStep step res p r) = r_conflictRetries r.
Proof.
  unfold passStep. destruct (is_type _ _), (is_empty _); simpl; split_and!; try done; set_solver.
Qed.

(** The branches of [failStep]. *)
Lemma failStep_fields step res p c r r' c' :
  failStep step res p c r = (r', c') ->
  r_wf r' = r_wf r /\ r_activated r' = r_activated r /\
  ((r_state r' = <[st_ID step := stPending]> (r_state r) /\
      c_termFail c = false /\ c_termFail c' = false /\
      (r_retries r' = r_retries r /\ r_conflictRetries r' = bump (st_ID step) (r_conflictRetries r) /\
         (default 0 (r_conflictRetries r !! st_ID step) + 1 <= max_retries (st_OnConflict step))%Z
       \/ r_conflictRetries r' = r_conflictRetries r /\ r_retries r' = bump (st_ID step) (r_retries r) /\
         (default 0 (r_retries r !! st_ID step) + 1 <= max_retries (st_OnFail step))%Z))
   \/ (r_state r' = <[st_ID step := stFailed]> (r_state r) /\
       c' = {| c_termFail := true; c_loopTarget := "" |} /\
       r_retries r' = r_retries r /\ r_conflictRetries r' = r_conflictRetries r)).
Proof.
  unfold failStep. destruct (c_termFail c) eqn:Et; simpl.
  { intros [= <- <-]. split_and!; [done..|]. right. done. }
  destruct (is_empty (c_loopTarget c)); simpl.
  2: { intros [= <- <-]. split_and!; [done..|]. right. done. }
  destruct (sr_Conflict res && _); simpl.
  - destruct (canLoop _ _) eqn:Hl; intros [= <- <-]; (split_and!; [done..|]); [left|right; done].
    split_and!; try done. left. split_and!; try done. by apply canLoop_max.
  - destruct (canLoop _ _) eqn:Hl; intros [= <- <-]; (split_and!; [done..|]); [left|right; done].
    split_and!; try done. right. split_and!; try done. by apply canLoop_max.
Qed.

Lemma bump_budget r r' step :
  NoDup (order r) -> step ∈ wc_Steps (r_wf r) -> within_budget r -> r_wf r' = r_wf r ->
  (r_retries r' = r_retries r /\ r_conflictRetries r' = bump (st_ID step) (r_conflictRetries r) /\
     (default 0 (r_conflictRetries r !! st_ID step) + 1 <= max_retries (st_OnConflict step))%Z
   \/ r_conflictRetries r' = r_conflictRetries r /\ r_retries r' = bump (st_ID step) (r_retries r) /\
     (default 0 (r_retries r !! st_ID step) + 1 <= max_retries (st_OnFail step))%Z) ->
  within_budget r'.
Proof.
  intros Hnd Hin Hb Hw H s. rewrite Hw. intros Hs. destruct (Hb s Hs) as [B1 B2].
  unfold bump in H. destruct (decide (st_ID s = st_ID step)) as [He|He].
  - assert (s = step) as -> by (by eapply steps_by_id).
    destruct H as [(-> & -> & H)|(-> & -> & H)]; rewrite lookup_insert_eq; simpl; lia.
  - destruct H as [(-> & -> & _)|(-> & -> & _)]; rewrite lookup_insert_ne by done; done.
Qed.

Lemma processResult_inv now ctxErr g rest p c r r' c' :
  NoDup (order r) -> consistent r -> flying r (g :: rest) -> within_budget r ->
  (c_termFail c = true -> exists y, y ∈ order r /\ state_of r y = stFailed) ->
  processResult now ctxErr (flight_step g) p c r = inr (r', c') ->
  consistent r' /\ flying r' rest /\ within_budget r' /\ r_wf r' = r_wf r /\
  (c_termFail c' = true -> exists y, y ∈ order r' /\ state_of r' y = stFailed).
Proof.
  intros Hnd Hc Hf Hb Ht. set (step := flight_step g). unfold processResult.
  destruct (is_type StepTypeApproval _); [done|].
  destruct (is_type StepTypeParallel step && _); [done|].
  destruct (is_type StepTypeWaitFor step && _); [done|].
  destruct (clear_same step r) as (W1 & S1 & A1 & R1 & C1).
  set (r1 := clearWait _ _) in *. set (res := judge _ _ _ _).
  set (r2 := recordState step p res r1).
  assert (step ∈ wc_Steps (r_wf r) /\ state_of r (st_ID step) = stRunning) as [Hin Hrun].
  { destruct (fly_running _ _ Hf g) as (? & ? & _); [apply list_elem_of_here|done]. }
  assert (forall r', r_wf r' = r_wf r -> (exists st, r_state r' = <[st_ID step := st]> (r_state r)) ->
    forall y, y ∈ order r -> state_of r y = stFailed -> y ∈ order r' /\ state_of r' y = stFailed) as Hkeep.
  { intros r0 Hw [st Hst] y Hy Hfy. split; [unfold order; by rewrite Hw|].
    unfold state_of. rewrite Hst, lookup_insert_ne; [done|]. intros <-. by rewrite Hrun in Hfy. }
  destruct (sr_Success res); [intros [= <- <-]|intros [= Hfs]].
  - destruct (passStep_fields step res p r2) as (W2 & S2 & A2 & R2 & C2).
    assert (r_wf (passStep step res p r2) = r_wf r) as Hw by (by rewrite W2).
    destruct (land_inv r (passStep step res p r2) g rest stPassed) as [H1 H2]; try done.
    { unfold known_states. rewrite !elem_of_cons. tauto. }
    { by rewrite S2; simpl; rewrite S1. }
    { etransitivity; [|exact A2]. simpl. by rewrite A1. }
    split_and!; try done.
    + apply (within_budget_same r); [done|done|by rewrite R2|by rewrite C2].
    + intros H. destruct (Ht H) as (y & Hy & Hfy). exists y. apply Hkeep; try done.
      exists stPassed. rewrite S2. simpl. by rewrite S1.
  - apply failStep_fields in Hfs as (W2 & A2 & Hcase). simpl in W2, A2.
    assert (r_wf r' = r_wf r) as Hw by (by rewrite W2).
    assert (r_activated r ⊆ r_activated r') as Ha by (rewrite A2, A1; done).
    destruct Hcase as [(S2 & T1 & T2 & Hbud)|(S2 & -> & R2 & C2)].
    + simpl in S2, Hbud. rewrite S1 in S2. rewrite R1, C1 in Hbud.
      destruct (land_inv r r' g rest stPending) as [H1 H2]; try done; [apply list_elem_of_here|].
      split_and!; try done; [by eapply bump_budget|]. by rewrite T2.
    + simpl in S2, R2, C2. rewrite S1 in S2.
      destruct (land_inv r r' g rest stFailed) as [H1 H2]; try done.
      { unfold known_states. rewrite !elem_of_cons. tauto. }
      split_and!; try done.
      * apply (within_budget_same r); [done|done|by rewrite R2|by rewrite C2].
      * intros _. exists (st_ID step). unfold order, state_of. rewrite Hw, S2, lookup_insert_eq.
        split; [by apply list_elem_of_fmap_2|done].
Qed.
End process_inv.

(** ** One pass *)

Section pass_inv.
Context {RT : GoRuntime} {DG : Diagnostics} (concurrency : Z).

Lemma dispatched_inv stop1 k r fl :
  dag_inv k -> (stop1 = false -> k_stopped k = false) ->
  dispatched concurrency stop1 k = (r, fl) ->
  dag_inv {| k_run := r; k_inFlight := fl; k_control := k_control k; k_stopped := stop1 |}.
Proof.
  intros [Hnd Hc Hf Hb Ht] Hst. unfold dispatched. destruct (negb _ && _ && _) eqn:E.
  - rewrite !andb_true_iff, !negb_true_iff in E. destruct E as [[E1 E2] E3].
    intros Hd. destruct (dispatch_inv _ _ _ _ _ Hnd Hc (Hf (Hst E3)) Hd) as [Hc' Hf'].
    destruct (dispatch_spec _ _ _ _ _ Hnd Hd) as (Sh & _).
    split; simpl; try done.
    + unfold order. by rewrite (sh_wf _ _ Sh).
    + apply (within_budget_same (k_run k)); [done|apply Sh..].
    + by rewrite E1.
  - intros [= <- <-]. split; simpl; auto.
Qed.

Lemma quiescent_inv k r c r' c' :
  dag_inv {| k_run := r; k_inFlight := []; k_control := c; k_stopped := false |} ->
  quiescent c r = inl (r', c') ->
  dag_inv {| k_run := r'; k_inFlight := []; k_control := c'; k_stopped := k |}.
Proof.
  intros [Hnd Hc Hf Hb Ht]. simpl in *. specialize (Hf eq_refl). unfold quiescent.
  destruct (c_termFail c) eqn:Et; [done|]. destruct (is_empty (c_loopTarget c)); simpl.
  - destruct (skipUnreachable r) as [r1 b] eqn:Hs.
    destruct (skipUnreachable_inv r Hc Hf) as [Hc1 Hf1]. rewrite Hs in *. simpl in *.
    destruct (skipUnreachable_spec _ _ _ Hnd Hs) as [Sh _].
    assert (dag_inv {| k_run := r1; k_inFlight := []; k_control := c; k_stopped := k |}) as Hi.
    { split; simpl; try done; [unfold order; by rewrite (sh_wf _ _ Sh)| |by rewrite Et].
      apply (within_budget_same r); [done|apply Sh..]. }
    destruct b; [by intros [= <- <-]|]. destruct (pickAllRunnable r1); [done|]. by intros [= <- <-].
  - intros [= <- <-]. destruct (resetLoop_inv r (c_loopTarget c) Hc Hf) as [Hc1 Hf1].
    destruct (resetLoop_control (c_loopTarget c) r) as [Hw Ha Hr Hcf].
    split; simpl; try done; [unfold order; by rewrite Hw|by apply (within_budget_same r)].
Qed.

Lemma drive_pass_inv e k k' : dag_inv k -> drive_pass concurrency e k = inl k' -> dag_inv k'.
Proof.
  intros Hk. unfold drive_pass. fold (dispatched concurrency (k_stopped k || pe_stop1 e) k).
  destruct (dispatched _ _ k) as [r fl] eqn:Hd.
  apply dispatched_inv in Hd; [|done|by intros [? _]%orb_false_iff].
  destruct (k_stopped k || pe_stop1 e) eqn:E1.
  { pose proof Hd as [Hnd Hc _ Hb Ht]. destruct fl as [|f fl]; cbn [orb]; [done|].
    destruct (receive (pe_pick e) f fl) as [g rest]. intros [= <-]. by split. }
  destruct fl as [|f fl]; cbn [orb].
  - destruct (pe_stop2 e); [done|]. destruct (quiescent _ _) as [[r' c']|] eqn:Hq; [|done].
    intros [= <-]. by eapply quiescent_inv.
  - destruct (receive (pe_pick e) f fl) as [g rest] eqn:Hr. destruct Hd as [Hnd Hc Hf Hb Ht].
    simpl in Hnd, Hc, Hf, Hb, Ht.
    pose proof (flying_perm _ _ _ (receive_perm _ _ _ _ _ Hr) (Hf eq_refl)) as Hf'.
    destruct (pe_stop3 e); [intros [= <-]; by split|].
    destruct (processResult _ _ _ _ _ _) as [|[r' c']] eqn:Hp; [done|]. intros [= <-].
    destruct (processResult_inv _ _ _ _ _ _ _ _ _ Hnd Hc Hf' Hb Ht Hp) as (P1 & P2 & P3 & P4 & P5).
    split; simpl; try done. unfold order. by rewrite P4.
Qed.

(** How a run that satisfies the invariant can end. *)
Lemma drive_pass_end e k o r' :
  dag_inv k -> drive_pass concurrency e k = inr (o, r') ->
  match o with
  | outcomeDone => consistent r' /\ flying r' [] /\
      (forall y, y ∈ order r' -> state_of r' y <> stPending /\ state_of r' y <> stFailed)
  | outcomeFailed => exists y, y ∈ order r' /\ (state_of r' y = stFailed \/ state_of r' y = stPending)
  | outcomeWaiting => state_of r' (r_waitingStep r') = stWaiting /\ r_waitingStep r' ∈ order r'
  | outcomeStopped => True
  end.
Proof.
  intros Hk. unfold drive_pass. fold (dispatched concurrency (k_stopped k || pe_stop1 e) k).
  destruct (dispatched _ _ k) as [r fl] eqn:Hd.
  apply dispatched_inv in Hd; [|done|by intros [? _]%orb_false_iff].
  destruct (k_stopped k || pe_stop1 e) eqn:E1.
  { destruct fl as [|f fl]; cbn [orb]; [by intros [= <- <-]|]. by destruct (receive (pe_pick e) f fl). }
  pose proof Hd as [Hnd Hc Hf Hb Ht]. simpl in Hnd, Hc, Hf, Hb, Ht. specialize (Hf eq_refl).
  destruct fl as [|f fl]; cbn [orb].
  - destruct (pe_stop2 e); [by intros [= <- <-]|]. unfold quiescent.
    destruct (c_termFail (k_control k)) eqn:Et.
    { intros [= <- <-]. destruct (Ht eq_refl) as (y & ? & ?). eauto. }
    destruct (is_empty _); simpl; [|done].
    destruct (skipUnreachable r) as [r1 b] eqn:Hs.
    destruct (skipUnreachable_inv r Hc Hf) as [Hc1 Hf1]. rewrite Hs in *. simpl in *.
    destruct b; [done|]. destruct (pickAllRunnable r1); [|done]. intros [= <- <-].
    unfold finalOutcome. destruct (existsb _ _) eqn:Ex.
    + apply existsb_elem in Ex as (y & Hy & Hfy%in_state_spec). eauto.
    + destruct (strandedSteps r1) as [|y ys] eqn:Est.
      * split_and!; [done|done|]. intros y Hy. split.
        -- intros Hp. assert (y ∈ strandedSteps r1) as H by (by apply elem_of_pending).
           rewrite Est in H. by apply elem_of_nil in H.
        -- intros Hfy. apply not_true_iff_false in Ex. apply Ex, existsb_elem.
           exists y. split; [done|]. by apply in_state_spec.
      * exists y. assert (y ∈ strandedSteps r1) as H by (rewrite Est; apply list_elem_of_here).
        apply elem_of_pending in H as [? ?]. auto.
  - destruct (receive (pe_pick e) f fl) as [g rest] eqn:Hr.
    pose proof (flying_perm _ _ _ (receive_perm _ _ _ _ _ Hr) Hf) as Hf'.
    destruct (pe_stop3 e); [done|].
    destruct (processResult _ _ _ _ _ _) as [rp|[? ?]] eqn:Hp; [|done]. intros [= <- <-].
    destruct (fly_running _ _ Hf' g) as (_ & Hin & _); [apply list_elem_of_here|].
    assert (st_ID (flight_step g) ∈ order r) as Ho by (by apply list_elem_of_fmap_2).
    assert (forall now r0, order r0 = order r -> 
      state_of (enterWait now (flight_step g) r0) (r_waitingStep (enterWait now (flight_step g) r0)) = stWaiting
      /\ r_waitingStep (enterWait now (flight_step g) r0) ∈ order (enterWait now (flight_step g) r0)) as Hw.
    { intros now r0 Ho0. unfold enterWait. repeat case_match; simpl;
        (split; [change (state_of (put_state (st_ID (flight_step g)) stWaiting r0) (st_ID (flight_step g)) = stWaiting);
          rewrite state_of_put; by destruct (decide _)|change (st_ID (flight_step g) ∈ order r0); by rewrite Ho0]). }
    unfold processResult in Hp. destruct (is_type StepTypeApproval _).
    { injection Hp as <-. simpl. split; [|done].
      change (state_of (put_state (st_ID (flight_step g)) stWaiting r) (st_ID (flight_step g)) = stWaiting).
      rewrite state_of_put. by destruct (decide _). }
    destruct (is_type StepTypeParallel _ && _); [injection Hp as <-; by apply Hw|].
    destruct (is_type StepTypeWaitFor _ && _); [|done]. injection Hp as <-. apply Hw.
    apply order_wf, (sh_wf _ _ (clearParallel_shrinks _ _)).
Qed.

Lemma drive_end fuel events k o r' :
  dag_inv k -> drive concurrency fuel events k = Some (o, r') ->
  exists e k1, dag_inv k1 /\ drive_pass concurrency e k1 = inr (o, r').
Proof.
  revert events k. induction fuel as [|fuel IH]; intros events k Hk; simpl; [done|].
  destruct (drive_pass _ _ k) as [k'|[o1 r1]] eqn:Hp.
  - apply IH. by eapply drive_pass_inv.
  - intros [= <- <-]. eauto.
Qed.
End pass_inv.

(** ** Fresh runs *)

Lemma init_state_of wf cell seed ev y :
  state_of (initDAG wf cell seed ev) y = if decide (y ∈ st_ID <$> wc_Steps wf) then stPending else "".
Proof.
  unfold state_of; simpl. 
  assert (forall steps (m : gmap string string), foldl (fun m s => <[st_ID s := stPending]> m) m steps !! y =
    if decide (y ∈ st_ID <$> steps) then Some stPending else m !! y) as H.
  { induction steps as [|s steps IH]; intros m; [done|]. cbn [foldl]. rewrite IH, fmap_cons.
    destruct (decide (y ∈ st_ID <$> steps)) as [H1|H1], (decide (y ∈ st_ID s :: _)) as [H2|H2]; try done.
    - destruct H2. by apply list_elem_of_further.
    - apply elem_of_cons in H2 as [->|?]; [by rewrite lookup_insert_eq|done].
    - rewrite lookup_insert_ne; [done|]. intros <-. destruct H2. apply list_elem_of_here. }
  rewrite H. destruct (decide _); [done|]. by rewrite lookup_empty.
Qed.

Lemma init_inv wf cell seed ev :
  NoDup (st_ID <$> wc_Steps wf) -> dag_inv (start (initDAG wf cell seed ev)).
Proof.
  intros Hnd. assert (forall y, state_of (initDAG wf cell seed ev) y = stPending \/
    (state_of (initDAG wf cell seed ev) y = "" /\ y ∉ st_ID <$> wc_Steps wf)) as Hst.
  { intros y. rewrite init_state_of. destruct (decide _); auto. }
  split; simpl; [done| | | |done].
  - split.
    + intros y Hy. unfold started in Hy. destruct (Hst y) as [E|[E _]]; rewrite E in Hy; naive_solver.
    + intros y Hy. destruct (Hst y) as [E|[E _]]; rewrite E in Hy; naive_solver.
    + intros y Hy. destruct (Hst y) as [->|[_ []]]; [apply list_elem_of_here|done].
    + intros y Hy Hsp. unfold splitTarget in Hsp. simpl in *. rewrite elem_of_list_to_set, list_elem_of_In.
      apply filter_In. rewrite <- list_elem_of_In. split; [done|]. by rewrite Hsp.
  - intros _. split; [constructor|by intros f H%elem_of_nil| |];
      intros y; destruct (Hst y) as [->|[-> _]]; discriminate.
  - intros s _. simpl. rewrite !lookup_empty. simpl. lia.
Qed.
