(* ===== verification/DagProps.v ===== *)
(** * The scheduler: its properties

    What holds on every run, what an outcome means, the failure routes, the
    gates, the memory a step reads, and the loop reset. *)

From stdpp Require Import base gmap strings list.
From Stdlib Require Import ZArith.
From S2P Require Import Prelude Model Expr Config Graph Dag DagFacts DagTermination DagInvariant.

(** ** Every run *)

Section runs.
Context {RT : GoRuntime} {DG : Diagnostics} (concurrency : Z).

(** The configurations the loop goes through. *)
Inductive passes (k : config) : config -> Prop :=
  | passes_refl : passes k k
  | passes_step e k1 k2 : passes k k1 -> drive_pass concurrency e k1 = inl k2 -> passes k k2.

(** C1: at every point of a fresh run, whatever the workers report and in
    whatever order: a step that runs or has passed had its control flow
    activated, all its explicit dependencies have passed and its sequential
    ones passed or were condition-skipped; the steps marked running are
    exactly those in flight, each once, never more than the result channel
    holds; and no step has used more retries than its two budgets allow. *)
Theorem scheduler_invariant wf cell seed ev (k : config) :
  NoDup (st_ID <$> wc_Steps wf) -> passes (start (initDAG wf cell seed ev)) k ->
  (forall y, state_of (k_run k) y = stRunning \/ state_of (k_run k) y = stPassed ->
     y ∈ r_activated (k_run k) /\
     (forall d, d ∈ st_DependsOn (byID (k_run k) y) -> state_of (k_run k) d = stPassed) /\
     (forall d, d ∈ st_SeqDependsOn (byID (k_run k) y) ->
        state_of (k_run k) d = stPassed \/ state_of (k_run k) d = stCondSkipped))
  /\ (k_stopped k = false ->
      (forall y, state_of (k_run k) y = stRunning <->
                 y ∈ (fun f => st_ID (flight_step f)) <$> k_inFlight k)
      /\ NoDup ((fun f => st_ID (flight_step f)) <$> k_inFlight k)
      /\ length (k_inFlight k) <= length (order (k_run k)))
  /\ within_budget (k_run k).
Proof.
  intros Hnd Hp. assert (dag_inv k) as [Hd Hc Hf Hb Ht].
  { induction Hp as [|e k1 k2 _ IH Hp]; [by apply init_inv|by eapply drive_pass_inv]. }
  split_and!; [| |done].
  - intros y Hy. destruct (cs_started _ Hc y) as [H1 H2]; [unfold started; tauto|].
    apply depsPassed_spec in H2 as [H2 H3]. done.
  - intros Hs. destruct (Hf Hs) as [F1 F2 F3 F4]. split_and!; [|done|].
    + intros y. split; [apply F3|]. intros (f & -> & Hin)%list_elem_of_fmap. by apply F2.
    + rewrite <- (length_fmap (fun f => st_ID (flight_step f))).
      apply submseteq_length, NoDup_submseteq; [done|].
      intros y (f & -> & Hin)%list_elem_of_fmap. destruct (F2 f Hin) as (_ & Hst & _).
      by apply (list_elem_of_fmap_2 st_ID).
Qed.

(** C14: what an outcome of a fresh run means: done leaves every declared step
    passed, skipped or condition-skipped, with the dependencies of every
    passed step satisfied; failed leaves a declared step that failed or never
    ran; waiting leaves the recorded step parked. *)
Theorem outcome_sound wf cell seed ev fuel events o r' :
  NoDup (st_ID <$> wc_Steps wf) ->
  driveDAG concurrency fuel events (initDAG wf cell seed ev) = Some (o, r') ->
  match o with
  | outcomeDone => forall y, y ∈ order r' ->
      (state_of r' y = stPassed /\ depsPassed r' y = true)
      \/ state_of r' y = stSkipped \/ state_of r' y = stCondSkipped
  | outcomeFailed => exists y, y ∈ order r' /\ (state_of r' y = stFailed \/ state_of r' y = stPending)
  | outcomeWaiting => state_of r' (r_waitingStep r') = stWaiting /\ r_waitingStep r' ∈ order r'
  | outcomeStopped => True
  end.
Proof.
  intros Hnd Hd. apply drive_end in Hd as (e & k1 & Hk1 & Hp); [|by apply init_inv].
  apply drive_pass_end in Hp; [|done]. destruct o; try done.
  destruct Hp as (Hc & Hf & Hy). intros y Ho. destruct (Hy y Ho) as [N1 N2].
  pose proof (cs_known _ Hc y Ho) as Hk. unfold known_states in Hk.
  rewrite !elem_of_cons, elem_of_nil in Hk.
  destruct Hk as [|[Hr|[Hpa|[|[|[|[Hw|[]]]]]]]]; try tauto.
  - apply (fly_only _ _ Hf) in Hr. by apply elem_of_nil in Hr.
  - left. split; [done|]. apply (cs_started _ Hc). unfold started. auto.
  - by destruct (fly_parked _ _ Hf y).
Qed.
End runs.

(** ** Failure routes *)

(** Where a failed step goes: a merge conflict on a step that declares an
    [on_conflict] target is governed by that edge alone, any other failure by
    [on_fail]; the governing edge loops back to its target while its own budget
    lasts, taking one unit of it and none of the other; otherwise the failure is
    terminal. While the run drains, every failure is terminal and cancels a
    pending loop. *)
Theorem failStep_routes (step : StepConfig) (res : StepResult) (p : payload) (c : control) (r : dagRun) :
  let id := st_ID step in
  let governed := sr_Conflict res && negb (is_empty (goto (st_OnConflict step))) in
  let edge := if governed then st_OnConflict step else st_OnFail step in
  let used := default 0%Z ((if governed then r_conflictRetries r else r_retries r) !! id) in
  let '(r', c') := failStep step res p c r in
  if negb (c_termFail c) && is_empty (c_loopTarget c)
     && negb (is_empty (goto edge)) && (used <? max_retries edge)%Z
  then c' = {| c_termFail := false; c_loopTarget := goto edge |}
       /\ state_of r' id = stPending
       /\ r_conflictRetries r' = (if governed then <[id := (used + 1)%Z]> (r_conflictRetries r)
                                  else r_conflictRetries r)
       /\ r_retries r' = (if governed then r_retries r else <[id := (used + 1)%Z]> (r_retries r))
  else c' = {| c_termFail := true; c_loopTarget := "" |}
       /\ state_of r' id = stFailed
       /\ r_retries r' = r_retries r /\ r_conflictRetries r' = r_conflictRetries r.
Proof.
  intros id governed edge used. unfold failStep. fold id. fold governed.
  assert (forall st r0, r_state r0 = <[id := st]> (r_state r) -> state_of r0 id = st) as Hput.
  { intros st r0 Hs. unfold state_of. by rewrite Hs, lookup_insert_eq. }
  destruct c as [tf lt]. simpl c_termFail. simpl c_loopTarget.
  destruct tf; simpl; [by split_and!; try apply Hput|].
  destruct (is_empty lt); simpl; [|by split_and!; try apply Hput].
  assert (canLoop edge used = negb (is_empty (goto edge)) && (used <? max_retries edge)%Z) as Hcl.
  { unfold canLoop, goto, max_retries. destruct edge; [done|]. by rewrite andb_false_l. }
  subst edge used. destruct governed; simpl; rewrite Hcl; destruct (_ && _); simpl;
    by split_and!; try apply Hput.
Qed.

(** ** Gates *)

Section gates.
Context {RT : GoRuntime} {DG : Diagnostics}.

Lemma unevaluableGateKeys_nil gate step res pc :
  unevaluableGateKeys gate step res pc = [] <->
  forall k, k ∈ MemoryRefs gate -> k ∈ gate_declared step pc -> k ∈ gate_produced step res pc.
Proof.
  unfold unevaluableGateKeys. set (f := fun key => _). split.
  - intros He k Hk Hd. destruct (decide (k ∈ gate_produced step res pc)) as [|Hp]; [done|].
    assert (k ∈ List.filter f (MemoryRefs gate)) as Hin; [|rewrite He in Hin; by apply elem_of_nil in Hin].
    rewrite list_elem_of_In, filter_In, <- list_elem_of_In. split; [done|].
    apply andb_true_iff. by rewrite negb_true_iff, bool_decide_eq_true, bool_decide_eq_false.
  - intros H. apply elem_of_nil_inv. intros k.
    rewrite list_elem_of_In, filter_In, <- list_elem_of_In. intros [Hk Hf].
    apply andb_true_iff in Hf.
    rewrite negb_true_iff, bool_decide_eq_true, bool_decide_eq_false in Hf.
    destruct Hf as [Hd Hp]. destruct Hp. by apply H.
Qed.

(** The guard of the fail-closed check. *)
Lemma gate_guard gate step res pc :
  negb (bool_decide (st_OnMissingOutput step = OnMissingOutputIgnore))
    && match unevaluableGateKeys gate step res pc with [] => false | _ => true end = false <->
  (st_OnMissingOutput step <> OnMissingOutputIgnore ->
   forall k, k ∈ MemoryRefs gate -> k ∈ gate_declared step pc -> k ∈ gate_produced step res pc).
Proof.
  rewrite <- unevaluableGateKeys_nil, andb_false_iff, negb_false_iff, bool_decide_eq_true.
  destruct (unevaluableGateKeys _ _ _ _); [naive_solver|].
  destruct (decide (st_OnMissingOutput step = OnMissingOutputIgnore)); naive_solver.
Qed.

(** Gates fail closed: a step passes its [fail_when] gate exactly when it
    had succeeded, the gate parses and evaluates to false, and (unless the step
    opted out) every memory key the gate reads and the step declares to write
    was produced. *)
Theorem gate_fails_closed (r : dagRun) (step : StepConfig) (res : StepResult) (pc : list MemoryStep) :
  sr_Success (applyFailWhen r step res pc) = true <->
  sr_Success res = true /\
  exists gate, ParseExpr (stripExprDelimiters (st_FailWhen step)) = Ok gate /\
    Eval gate {| ec_Cell := r_cell r; ec_Memory := transientMem r step res pc;
                 ec_Steps := r_stepStates r; ec_Event := r_event r |} = Ok false /\
    (st_OnMissingOutput step <> OnMissingOutputIgnore ->
     forall k, k ∈ MemoryRefs gate -> k ∈ gate_declared step pc -> k ∈ gate_produced step res pc).
Proof.
  unfold applyFailWhen. destruct (ParseExpr _) as [gate|e]; [|naive_solver].
  pose proof (gate_guard gate step res pc) as Hgate.
  destruct (_ && _) eqn:Eg.
  { split; [done|]. intros (_ & g & [= <-] & _ & H). apply Hgate in H. congruence. }
  destruct (Eval gate _) as [[]|e] eqn:Ee; simpl; split; try done.
  - intros (_ & g & [= <-] & H & _). congruence.
  - intros Hs. split; [done|]. exists gate. split_and!; [done..|]. by apply Hgate.
  - by intros [? _].
  - intros (_ & g & [= <-] & H & _). congruence.
Qed.
End gates.

(** ** Cascades and loops *)

(** The recursive skip is exactly reachability: a step ends up skipped by it
    when it is the root or a pending step reachable from the root through pending
    steps along dependency edges, and no other state changes; in particular the
    recursion always runs to the end. *)
Theorem markSkipped_reachability (id : string) (r : dagRun) (y : string) :
  state_of r id <> stSkipped -> state_of r id <> stCondSkipped ->
  (y = id \/ (state_of r y = stPending /\ skip_reach r id y) ->
     state_of (markSkipped id r) y = stSkipped) /\
  (~ (y = id \/ (state_of r y = stPending /\ skip_reach r id y)) ->
     state_of (markSkipped id r) y = state_of r y).
Proof.
  intros H1 H2. destruct (markSkipped_states id r y H1 H2) as [[H3 H4]|(H3 & H4 & H5)].
  - split; [done|]. intros Hn. destruct Hn. destruct H4 as [->|(? & _ & ?)]; auto.
  - split; [|done]. intros [->|[Hp Hr]]; [done|]. by destruct (H5 Hp).
Qed.

(** Does resetting [id] drop the contribution [k]? *)
Definition covers (r : dagRun) (k id : string) : bool :=
  bool_decide (k = id \/ k ∈ st_ID <$> st_SubSteps (byID r id)).

Lemma delete_children (k : string) cs (m : gmap string MemoryStep) :
  foldl (fun m child => delete (st_ID child) m) m cs !! k =
  if bool_decide (k ∈ st_ID <$> cs) then None else m !! k.
Proof.
  revert m. induction cs as [|c cs IH]; intros m; [done|]. cbn [foldl]. rewrite IH, fmap_cons.
  destruct (decide (k = st_ID c)) as [->|Hne].
  - rewrite (bool_decide_eq_true_2 (st_ID c ∈ st_ID c :: (st_ID <$> cs))) by apply list_elem_of_here.
    rewrite lookup_delete_eq. by destruct (bool_decide _).
  - rewrite lookup_delete_ne by done.
    by rewrite (bool_decide_ext (k ∈ st_ID c :: (st_ID <$> cs)) (k ∈ st_ID <$> cs)) by (rewrite elem_of_cons; naive_solver).
Qed.

Lemma reset_contrib l r k :
  r_contrib (foldl reset_one r l) !! k = if existsb (covers r k) l then None else r_contrib r !! k.
Proof.
  revert r. induction l as [|id l IH]; intros r; [done|]. cbn [foldl existsb]. rewrite IH.
  change (covers (reset_one r id)) with (covers r). change (r_contrib (reset_one r id)) with
    (foldl (fun m child => delete (st_ID child) m) (delete id (r_contrib r)) (st_SubSteps (byID r id))).
  rewrite delete_children. unfold covers at 2.
  destruct (decide (k = id)) as [->|Hne].
  - rewrite (bool_decide_eq_true_2 (id = id \/ id ∈ st_ID <$> st_SubSteps (byID r id))) by auto.
    rewrite lookup_delete_eq. simpl.
    destruct (existsb _ _); [by rewrite ?orb_true_r|]. by destruct (bool_decide (_ ∈ _)).
  - rewrite lookup_delete_ne by done.
    rewrite (bool_decide_ext (k = id \/ k ∈ st_ID <$> st_SubSteps (byID r id))
               (k ∈ st_ID <$> st_SubSteps (byID r id))) by naive_solver.
    destruct (existsb _ _); [by rewrite ?orb_true_r|]. by destruct (bool_decide (_ ∈ _)).
Qed.

(** A loop-back resets exactly the goto target and its transitive
    dependents: they become pending and lose their contributions and those of
    their children; every other step keeps its state and its contribution, and
    no retry counter changes. *)
Theorem resetLoop_exact (target : string) (r : dagRun) :
  (forall y, dependent r target y -> state_of (resetLoop target r) y = stPending) /\
  (forall y, ~ dependent r target y -> state_of (resetLoop target r) y = state_of r y) /\
  (forall y k, dependent r target y -> k = y \/ k ∈ st_ID <$> st_SubSteps (byID r y) ->
     r_contrib (resetLoop target r) !! k = None) /\
  (forall k, (forall y, dependent r target y -> k <> y /\ k ∉ st_ID <$> st_SubSteps (byID r y)) ->
     r_contrib (resetLoop target r) !! k = r_contrib r !! k) /\
  r_retries (resetLoop target r) = r_retries r /\
  r_conflictRetries (resetLoop target r) = r_conflictRetries r.
Proof.
  destruct (resetLoop_control target r) as [_ _ Hr Hc].
  assert (forall k, r_contrib (resetLoop target r) !! k =
    r_contrib (foldl reset_one r (elements (resetSet r target))) !! k) as Hk by done.
  split_and!; try done; intros.
  - rewrite resetLoop_states. by rewrite decide_True by (by apply elem_of_resetSet).
  - rewrite resetLoop_states. by rewrite decide_False by (by rewrite elem_of_resetSet).
  - rewrite Hk, reset_contrib. replace (existsb _ _) with true; [done|]. symmetry. apply existsb_elem.
    exists y. split; [by apply elem_of_elements, elem_of_resetSet|]. by apply bool_decide_eq_true.
  - rewrite Hk, reset_contrib. replace (existsb _ _) with false; [done|]. symmetry.
    apply not_true_iff_false. rewrite existsb_elem. intros (id & Hid & Hor%bool_decide_eq_true).
    apply elem_of_elements, elem_of_resetSet, H in Hid as [? ?]. tauto.
Qed.

(** ** Memory *)

Section memory.
Context {RT : GoRuntime}.

(** The values a list of contributions writes under a key, in order. *)
Definition writes (k : string) (steps : list MemoryStep) : list JValue :=
  omap (fun ms => if str_in k (ms_WriteFields ms) then ms_Structured ms !! k else None) steps.

Lemma write_fields_lookup ms fields vals k :
  foldl (write_field ms) vals fields !! k =
  match (if str_in k fields then ms_Structured ms !! k else None) with
  | Some v => Some (renderValue v)
  | None => vals !! k
  end.
Proof.
  revert vals. induction fields as [|f fs IH]; intros vals; [done|]. cbn [foldl]. rewrite IH.
  unfold write_field at 1. unfold str_in. destruct (decide (f = k)) as [->|Hne].
  - rewrite (bool_decide_eq_true_2 (k ∈ k :: fs)) by apply list_elem_of_here.
    destruct (ms_Structured ms !! k) as [v|] eqn:E; [rewrite lookup_insert_eq|]; by destruct (bool_decide _).
  - rewrite (bool_decide_ext (k ∈ f :: fs) (k ∈ fs)) by (rewrite elem_of_cons; naive_solver).
    destruct (ms_Structured ms !! f); [rewrite lookup_insert_ne by done|]; done.
Qed.

(** A condition reads, under [memory.<key>], the last value contributed
    under that key, by a step that declares it in its write fields and emitted
    it, in the order seed, then declaration order; a key nobody wrote is
    unset. *)
Theorem memory_last_write_wins (r : dagRun) (k : string) :
  memoryValues r !! k = renderValue <$> last (writes k (memSteps r)).
Proof.
  unfold memoryValues, memoryValuesFrom.
  assert (forall steps vals, foldl (fun vals ms => foldl (write_field ms) vals (ms_WriteFields ms)) vals steps !! k
    = match last (writes k steps) with Some v => Some (renderValue v) | None => vals !! k end) as H.
  { induction steps as [|ms steps IH] using rev_ind; intros vals; [done|].
    rewrite foldl_app. cbn [foldl]. rewrite write_fields_lookup, IH.
    unfold writes. rewrite omap_app. cbn [omap list_omap].
    destruct (if str_in k _ then _ else _) as [v|]; [by rewrite last_snoc|by rewrite app_nil_r]. }
  rewrite H. rewrite lookup_empty. by destruct (last _).
Qed.
End memory.

(** ** Two defects *)

(** An [if:] of a split branch wrapped in the expression delimiters is
    accepted by the linter, which strips them, and fails at run time, where
    [runSplitStep] parses the raw text. *)
Theorem wrapped_split_branch_fails `{GoRuntime} (r : dagRun) (step : StepConfig) (b : SplitBranch)
    (bs : list SplitBranch) :
  st_Branches step = b :: bs -> br_If b = "${{ cell.type == 'bug' }}" -> br_Else b = false ->
  LintExpr (br_If b) = true /\ exists e, runSplitStep r step = Err (br_If b, inl e).
Proof.
  intros Hb Hi He. rewrite Hi. split; [vm_compute; reflexivity|].
  unfold runSplitStep. rewrite Hb. simpl chooseBranches. unfold branchMatches, IsFallback.
  rewrite He, Hi.
  change (is_empty "${{ cell.type == 'bug' }}") with false. cbn [orb].
  destruct (ParseExpr "${{ cell.type == 'bug' }}") as [n|e] eqn:E; [vm_compute in E; discriminate|].
  rsimpl. eauto.
Qed.

Definition example_cell : SourceItem := {|
  si_ID := "42"; si_SourceID := "gh"; si_Number := "#42"; si_Title := "Crash";
  si_Description := ""; si_Labels := ["bug"]; si_Type := "issue"; si_Priority := "high";
  si_State := "open"; si_URL := ""; si_Comments := [] |}.

Definition example_diagnostics : Diagnostics := {| sprintf := fun _ => "diagnostic" |}.

Definition step_of (id ty : string) (deps : list string) : StepConfig :=
  ir_step id ty deps [] "" "" "coder" "" None "" None "" None None false [] "" None None "" []
         None "" "" 0 0 false None [] "".

(** A deployment that nothing waits for, beside an approval gate. *)
Definition gate_workflow : WorkflowConfig := {|
  wc_ID := "wf"; wc_Resume := ""; wc_ResultComment := ""; wc_Trigger := None;
  wc_Inputs := ∅; wc_Outputs := ∅; wc_Steps := [step_of "deploy" "agent" []; step_of "gate" "approval" []] |}.

Definition event_at (pick : nat) (p : payload) : Event := {|
  pe_stop1 := false; pe_stop2 := false; pe_stop3 := false; pe_pick := pick; pe_payload := p;
  pe_ctxErr := false; pe_now := 1 |}.

(** The drain at an approval discards the results of the steps still in
    flight. Here the deployment is running when the gate parks; whatever it then
    reports (its failure included) is lost, it stays marked running, and once
    the gate is approved the instance finishes as done. *)
Theorem approval_drain_loses_results (p : payload) :
  match @driveDAG literal_runtime example_diagnostics 2 9 (fun _ => event_at 1 p)
          (initDAG gate_workflow example_cell [] ∅) with
  | Some (outcomeWaiting, r1) =>
      match @driveDAG literal_runtime example_diagnostics 2 9 (fun _ => event_at 0 p)
              (resolveApproval ApprovalResume r1) with
      | Some (outcomeDone, r2) => state_of r2 "gate" = stPassed /\ state_of r2 "deploy" = stRunning
      | _ => False
      end
  | _ => False
  end.
Proof. vm_compute. split; reflexivity. Qed.

(** ** Witnesses *)

Definition pipeline : WorkflowConfig := {|
  wc_ID := "wf"; wc_Resume := ""; wc_ResultComment := ""; wc_Trigger := None;
  wc_Inputs := ∅; wc_Outputs := ∅; wc_Steps := [
    step_of "build" "agent" [];
    ir_step "test" "agent" ["build"] [] "" "memory.verdict == 'rejected'" "qa" "" None "" 
      (Some {| mc_Read := None; mc_Write := ["verdict"]; mc_Recall := []; mc_Memorize := "" |}) "" 
      (Some {| so_Goto := "build"; so_MaxRetries := 1 |}) None false [] "" None None "" []
      None "" "" 0 0 false None [] "";
    step_of "ship" "agent" ["test"]] |}.

(** Every step succeeds; the first test run rejects the build. *)
Definition verdict (s : string) : payload := {|
  pl_res := {| sr_Success := true; sr_Output := "ok"; sr_Structured := {[ "verdict" := JStr s ]};
               sr_Summary := ""; sr_Pending := false; sr_Conflict := false |};
  pl_contribs := []; pl_waitingChild := ""; pl_done := ∅; pl_exit := 0 |}.

Definition pipeline_events (i : nat) : Event :=
  event_at 0 (verdict (if (i <=? 2)%nat then "rejected" else "approved")).

Definition pipeline_run : option (dagOutcome * dagRun) :=
  @driveDAG literal_runtime example_diagnostics 1 40 pipeline_events (initDAG pipeline example_cell [] ∅).

Example pipeline_loops_once :
  match pipeline_run with
  | Some (o, r) => o = outcomeDone /\ r_retries r !! "test" = Some 1%Z /\ state_of r "ship" = stPassed
  | None => False
  end.
Proof. vm_compute. repeat split. Qed.

Lemma pipeline_distinct : NoDup (st_ID <$> wc_Steps pipeline).
Proof. apply (bool_decide_unpack _). vm_compute. exact I. Qed.

Lemma driveDAG_terminates_witness : is_Some pipeline_run.
Proof.
  apply (@driveDAG_terminates literal_runtime example_diagnostics).
  - exact pipeline_distinct.
  - replace (budget _) with 1 by (vm_compute; reflexivity).
    replace (length _) with 3 by (vm_compute; reflexivity). lia.
Defined.

(** The outcome and the last step, without the rest of the run. *)
Definition pipeline_summary : option (dagOutcome * string * list string) :=
  (fun '(o, r) => (o, state_of r "ship", order r)) <$> pipeline_run.

Lemma pipeline_summary_eq :
  pipeline_summary = Some (outcomeDone, stPassed, ["build"; "test"; "ship"]).
Proof. vm_compute. reflexivity. Qed.

Lemma outcome_sound_witness :
  match pipeline_run with
  | Some (outcomeDone, r) => state_of r "ship" = stPassed /\ depsPassed r "ship" = true
  | _ => False
  end.
Proof.
  pose proof pipeline_summary_eq as Hs. unfold pipeline_summary in Hs.
  destruct pipeline_run as [[o r]|] eqn:E; [|discriminate]. injection Hs as -> Hst Ho.
  unfold pipeline_run in E.
  pose proof (@outcome_sound literal_runtime example_diagnostics 1 pipeline example_cell [] ∅ 40
                pipeline_events outcomeDone r pipeline_distinct E "ship") as H. cbv beta in H.
  rewrite Ho in H. destruct H as [Hp|[Hp|Hp]].
  - apply list_elem_of_further, list_elem_of_further, list_elem_of_here.
  - exact Hp.
  - rewrite Hst in Hp. discriminate.
  - rewrite Hst in Hp. discriminate.
Defined.

Definition first_pass : config :=
  match @drive_pass literal_runtime example_diagnostics 1 (pipeline_events 0)
          (start (initDAG pipeline example_cell [] ∅)) with
  | inl k => k
  | inr _ => start (initDAG pipeline example_cell [] ∅)
  end.

Lemma scheduler_invariant_witness :
  state_of (k_run first_pass) "build" = stPassed /\ within_budget (k_run first_pass).
Proof.
  split; [vm_compute; reflexivity|].
  apply (@scheduler_invariant literal_runtime example_diagnostics 1 pipeline example_cell [] ∅ first_pass
           pipeline_distinct).
  eapply passes_step; [apply passes_refl|]. unfold first_pass.
  instantiate (1 := pipeline_events 0). vm_compute. reflexivity.
Defined.

Lemma markSkipped_reachability_witness :
  state_of (markSkipped "test" (initDAG pipeline example_cell [] ∅)) "ship" = stSkipped.
Proof.
  apply (markSkipped_reachability "test" (initDAG pipeline example_cell [] ∅) "ship").
  - vm_compute. discriminate.
  - vm_compute. discriminate.
  - right. split; [vm_compute; reflexivity|].
    eapply reach_edge; [apply reach_refl|vm_compute|vm_compute; reflexivity|vm_compute; reflexivity].
    apply list_elem_of_further, list_elem_of_further, list_elem_of_here.
Defined.

Lemma wrapped_split_branch_fails_witness :
  exists e, @runSplitStep literal_runtime (initDAG pipeline example_cell [] ∅)
    (ir_step "route" "split" [] [] "" "" "" "" None "" None "" None None false
       [{| br_If := "${{ cell.type == 'bug' }}"; br_Else := false; br_Goto := "build" |}]
       "" None None "" [] None "" "" 0 0 false None [] "")
    = Err ("${{ cell.type == 'bug' }}", inl e).
Proof.
  apply (@wrapped_split_branch_fails literal_runtime (initDAG pipeline example_cell [] ∅) _
    {| br_If := "${{ cell.type == 'bug' }}"; br_Else := false; br_Goto := "build" |} []); reflexivity.
Defined.
