(* ===== verification/Wait.v ===== *)
(** * wait_for steps (src/internal/workflow/wait_step.go)

    [RunWaitStep] performs one check of an external system, CI or the upstream
    blockers of a task, and answers with a terminal result or with a pending
    one. The two checkers are functions the daemon installs on the engine, here
    fields of [Engine]; every check leaves at most one row in the poll history,
    returned beside the result. *)

From stdpp Require Import base gmap strings list.
From Stdlib Require Import ZArith.
From S2P Require Import Prelude Model Expr Config Dag.

(** ** What the checkers answer *)

(** One element of [CIStatus.Checks]. *)
Record CICheck := { ck_Name : string; ck_Status : string }.

(** [source.CIStatus]. *)
Record CIStatus := { ci_Status : string; ci_URL : string; ci_Checks : list CICheck }.

(** [source.BlockerRef], the fields the check reads. *)
Record BlockerRef := { bl_Number : string; bl_State : string; bl_Merged : bool }.

(** An error, as [errors.Is] classifies it, with its text. *)
Inductive checkError :=
  | ErrPRNotLinked (msg : string)
  | ErrUnsupported (msg : string)
  | ErrTransient (msg : string).

Definition error_text (e : checkError) : string :=
  match e with
  | ErrPRNotLinked m | ErrUnsupported m | ErrTransient m => m
  end.

Record WaitTarget := { wt_TaskID : string; wt_SourceID : string; wt_SourceItemID : string }.

Record CIStatusRequest := {
  rq_TaskID : string; rq_SourceID : string; rq_SourceItemID : string; rq_CISourceID : string }.

(** [db.CIPollCheck]: a row of the poll history. *)
Record CIPollCheck := { pc_StepID : string; pc_Status : string; pc_URL : string; pc_Detail : string }.

(** The engine's checkers (nil when the daemon wired none) and its clock. *)
Record Engine := {
  en_ciChecker : option (CIStatusRequest -> result checkError CIStatus);
  en_depChecker : option (string -> string -> string -> result checkError (list BlockerRef));
  en_now : Z;
}.

(** ** Renderings *)

(** [normalizeCIStatus]. *)
Definition normalizeCIStatus (s : string) : string :=
  if str_in s ["passed"; "failed"; "pending"; "conflict"] then s else "unknown".

(** [checksToMap]: the last check of a name wins. *)
Definition checksToMap (checks : list CICheck) : gmap string JValue :=
  foldl (fun m c => <[ck_Name c := JStr (ck_Status c)]> m) ∅ checks.

Definition blockersToMap (blockers : list BlockerRef) : gmap string JValue :=
  foldl (fun m b => <[bl_Number b := JStr (if bl_Merged b then "merged" else bl_State b)]> m) ∅ blockers.

Section encode.
Context {RT : GoRuntime}.

Definition encode_map {A} (l : list A) (m : gmap string JValue) : string :=
  match l with
  | [] => ""
  | _ => default "" (json_marshal (JObj m))
  end.

Definition encodeChecks (checks : list CICheck) : string := encode_map checks (checksToMap checks).
Definition encodeBlockers (bs : list BlockerRef) : string := encode_map bs (blockersToMap bs).
End encode.

(** [blockerSatisfied]. *)
Definition blockerSatisfied (b : BlockerRef) (conditions : list string) : bool :=
  existsb (fun cond =>
    (bool_decide (cond = BlockerSatisfiedMerged) && bl_Merged b)
    || (bool_decide (cond = BlockerSatisfiedDone) && bool_decide (bl_State b = "done"))) conditions.

(** ** The checks *)

Definition structured (fields : list (string * JValue)) : gmap string JValue := list_to_map fields.

Definition pendingResult : StepResult := {|
  sr_Success := false; sr_Output := ""; sr_Structured := ∅; sr_Summary := "";
  sr_Pending := true; sr_Conflict := false |}.

Definition terminalResult (ok conflict : bool) (fields : list (string * JValue)) : StepResult := {|
  sr_Success := ok; sr_Output := ""; sr_Structured := structured fields; sr_Summary := "";
  sr_Pending := false; sr_Conflict := conflict |}.

(** What a check hands back: its result and the row it recorded. *)
Definition checked : Type := StepResult * CIPollCheck.

Section wait.
Context {RT : GoRuntime} {DG : Diagnostics} (e : Engine).

Definition poll_row (step : StepConfig) (status url detail : string) : CIPollCheck := {|
  pc_StepID := st_ID step; pc_Status := status; pc_URL := url; pc_Detail := detail |}.

(** [unsupportedWait]. *)
Definition unsupportedWait (step : StepConfig) (cause : string) : checked :=
  (terminalResult false false [("ci_status", JStr "unsupported"); ("reason", JStr cause)],
   poll_row step "unsupported" "" cause).

(** [!deadline.IsZero() && e.now().After(deadline)]. *)
Definition pastDeadline (deadline : Z) : bool :=
  (negb (deadline =? 0) && (deadline <? en_now e))%Z.

(** [checkCIWaitStep]. *)
Definition checkCIWaitStep (step : StepConfig) (cfg : WaitForConfig) (target : WaitTarget)
    (deadline : Z) : checked :=
  match en_ciChecker e with
  | None => unsupportedWait step (sprintf (DNotConfigured "ci"))
  | Some ciChecker =>
      if pastDeadline deadline then
        if bool_decide (TimeoutAction cfg = OnTimeoutHold)
        then (pendingResult, poll_row step "timeout" "" (sprintf (DWaitHold "ci" (ParsedMaxDuration cfg))))
        else let why := sprintf (DWaitTimeout "ci" (ParsedMaxDuration cfg)) in
             (terminalResult false false [("ci_status", JStr "timeout"); ("reason", JStr why)],
              poll_row step "timeout" "" why)
      else
        match ciChecker {| rq_TaskID := wt_TaskID target; rq_SourceID := wt_SourceID target;
                           rq_SourceItemID := wt_SourceItemID target;
                           rq_CISourceID := wf_CISource cfg |} with
        | Err (ErrPRNotLinked _) => (pendingResult, poll_row step "pending" "" (sprintf DNoPullRequest))
        | Err (ErrUnsupported m) => unsupportedWait step m
        | Err (ErrTransient m) => (pendingResult, poll_row step "error" "" m)
        | Ok status =>
            let url := JStr (ci_URL status) in
            let st := ci_Status status in
            let row := poll_row step (normalizeCIStatus st) (ci_URL status) (encodeChecks (ci_Checks status)) in
            let res :=
              if bool_decide (st = "passed")
              then terminalResult true false [("ci_status", JStr "passed"); ("url", url)]
              else if bool_decide (st = "failed")
              then terminalResult (negb (ShouldFailIfNotPassed cfg)) false
                     [("ci_status", JStr "failed"); ("url", url);
                      ("checks", JObj (checksToMap (ci_Checks status)))]
              else if bool_decide (st = "conflict")
              then terminalResult false true [("ci_status", JStr "conflict"); ("url", url)]
              else pendingResult in
            (res, row)
        end
  end.

(** [checkDependencyWaitStep]. *)
Definition checkDependencyWaitStep (step : StepConfig) (cfg : WaitForConfig) (target : WaitTarget)
    (deadline : Z) : checked :=
  match en_depChecker e with
  | None => unsupportedWait step (sprintf (DNotConfigured "dependency"))
  | Some depChecker =>
      if pastDeadline deadline then
        if bool_decide (TimeoutAction cfg = OnTimeoutFail)
        then let why := sprintf (DWaitTimeout "dependency" (ParsedMaxDuration cfg)) in
             (terminalResult false false [("dependency_status", JStr "timeout"); ("reason", JStr why)],
              poll_row step "timeout" "" why)
        else (pendingResult,
              poll_row step "timeout" "" (sprintf (DWaitHold "dependency" (ParsedMaxDuration cfg))))
      else
        match depChecker (wt_SourceID target) (wt_SourceItemID target) (wf_BlockerLinkType cfg) with
        | Err (ErrUnsupported m) => unsupportedWait step m
        | Err err => (pendingResult, poll_row step "error" "" (error_text err))
        | Ok blockers =>
            let conditions := EffectiveSatisfiedWhen cfg in
            match List.filter (fun b => negb (blockerSatisfied b conditions)) blockers with
            | [] => (terminalResult true false [("dependency_status", JStr "satisfied");
                                                ("blockers", JObj (blockersToMap blockers))],
                     poll_row step "passed" "" (encodeBlockers blockers))
            | unsatisfied => (pendingResult, poll_row step "pending" "" (encodeBlockers unsatisfied))
            end
        end
  end.

(** [RunWaitStep]. *)
Definition RunWaitStep (step : StepConfig) (target : WaitTarget) (deadline : Z)
    : result string checked :=
  match st_WaitFor step with
  | None => Err (sprintf (DWaitConfig (st_ID step)))
  | Some cfg =>
      if is_empty (wf_Kind cfg) || bool_decide (wf_Kind cfg = WaitKindCI)
      then Ok (checkCIWaitStep step cfg target deadline)
      else if bool_decide (wf_Kind cfg = WaitKindDependency)
      then Ok (checkDependencyWaitStep step cfg target deadline)
      else Err (sprintf (DWaitKind (st_ID step) (wf_Kind cfg)))
  end.

(** The [StepResult] the Go function returns beside its error: the zero value
    when there is one. *)
Definition waitResult (r : result string checked) : StepResult :=
  match r with
  | Ok (res, _) => res
  | Err _ => new_result false ""
  end.
End wait.

(** ** What a check means *)

Section verdicts.
Context {RT : GoRuntime} {DG : Diagnostics}.

(** The CI status the check acts on: there is a checker, the deadline has not
    passed, the checker answered. *)
Definition ci_answer (e : Engine) (cfg : WaitForConfig) (target : WaitTarget) (deadline : Z)
    : option CIStatus :=
  match en_ciChecker e with
  | Some ask =>
      if pastDeadline e deadline then None
      else match ask {| rq_TaskID := wt_TaskID target; rq_SourceID := wt_SourceID target;
                        rq_SourceItemID := wt_SourceItemID target;
                        rq_CISourceID := wf_CISource cfg |} with
           | Ok s => Some s
           | Err _ => None
           end
  | None => None
  end.

(** The same for the blockers. *)
Definition dep_answer (e : Engine) (cfg : WaitForConfig) (target : WaitTarget) (deadline : Z)
    : option (list BlockerRef) :=
  match en_depChecker e with
  | Some ask =>
      if pastDeadline e deadline then None
      else match ask (wt_SourceID target) (wt_SourceItemID target) (wf_BlockerLinkType cfg) with
           | Ok l => Some l
           | Err _ => None
           end
  | None => None
  end.

(** A blocker holds the task no longer. *)
Definition released_by (conditions : list string) (b : BlockerRef) : Prop :=
  (BlockerSatisfiedMerged ∈ conditions /\ bl_Merged b = true)
  \/ (BlockerSatisfiedDone ∈ conditions /\ bl_State b = "done").

Lemma blockerSatisfied_spec b conditions :
  blockerSatisfied b conditions = true <-> released_by conditions b.
Proof.
  unfold blockerSatisfied, released_by. rewrite existsb_elem.
  setoid_rewrite orb_true_iff. setoid_rewrite andb_true_iff.
  setoid_rewrite bool_decide_eq_true. naive_solver.
Qed.

Lemma all_released bs conditions :
  List.filter (fun b => negb (blockerSatisfied b conditions)) bs = []
  <-> forall b, b ∈ bs -> released_by conditions b.
Proof.
  setoid_rewrite <- blockerSatisfied_spec. induction bs as [|b bs IH]; simpl.
  { split; [|done]. intros _ b Hb. by apply elem_of_nil in Hb. }
  destruct (blockerSatisfied b conditions) eqn:E; simpl.
  - rewrite IH. split; intros H c Hc; [apply elem_of_cons in Hc as [->|]; auto|].
    apply H. by apply list_elem_of_further.
  - split; [done|]. intros H. rewrite (H b) in E by apply list_elem_of_here. done.
Qed.

Lemma ParsedMaxDuration_pos cfg :
  wf_Kind cfg <> WaitKindDependency -> (0 < ParsedMaxDuration cfg)%Z.
Proof.
  intros Hk. unfold ParsedMaxDuration. rewrite bool_decide_eq_false_2 by done. unfold hours.
  destruct (is_empty _); [lia|]. destruct (_ <=? 0)%Z eqn:E; [lia|]. apply Z.leb_gt in E. lia.
Qed.
End verdicts.

(** A CI wait passes exactly when the checker answered in time with
    "passed", or with "failed" under [fail_if_not_passed: false]; it reports a
    conflict exactly when the answer is "conflict"; a pending result never counts
    as a success or a conflict, and is given only for want of a conclusive
    answer. *)
Theorem ci_wait_verdict `{GoRuntime} `{Diagnostics} (e : Engine) (step : StepConfig)
    (cfg : WaitForConfig) (target : WaitTarget) (deadline : Z) :
  let res := (checkCIWaitStep e step cfg target deadline).1 in
  let answered st := exists s, ci_answer e cfg target deadline = Some s /\ ci_Status s = st in
  (sr_Success res = true <->
     answered "passed" \/ (answered "failed" /\ ShouldFailIfNotPassed cfg = false))
  /\ (sr_Conflict res = true <-> answered "conflict")
  /\ (sr_Pending res = true ->
        sr_Success res = false /\ sr_Conflict res = false /\ en_ciChecker e <> None
        /\ ~ answered "passed" /\ ~ answered "failed" /\ ~ answered "conflict").
Proof.
  unfold checkCIWaitStep, ci_answer. cbv zeta.
  destruct (en_ciChecker e) as [ask|]; [|simpl; naive_solver].
  destruct (pastDeadline e deadline).
  { destruct (bool_decide _); simpl; naive_solver. }
  destruct (ask _) as [s|[]]; [|simpl; naive_solver..]. simpl.
  repeat case_bool_decide; simpl; rewrite ?negb_true_iff; naive_solver congruence.
Qed.

(** A dependency wait passes exactly when the blockers were listed in time and
    every one of them is merged or done, as [satisfied_when] admits; it never
    reports a conflict, and past its deadline it fails only under
    [on_timeout: fail]. *)
Theorem dependency_wait_verdict `{GoRuntime} `{Diagnostics} (e : Engine) (step : StepConfig)
    (cfg : WaitForConfig) (target : WaitTarget) (deadline : Z) :
  let res := (checkDependencyWaitStep e step cfg target deadline).1 in
  (sr_Success res = true <->
     exists bs, dep_answer e cfg target deadline = Some bs
                /\ forall b, b ∈ bs -> released_by (EffectiveSatisfiedWhen cfg) b)
  /\ (sr_Pending res = true ->
        sr_Success res = false /\
        (forall bs, dep_answer e cfg target deadline = Some bs ->
           exists b, b ∈ bs /\ ~ released_by (EffectiveSatisfiedWhen cfg) b))
  /\ sr_Conflict res = false
  /\ (pastDeadline e deadline = true -> en_depChecker e <> None ->
        sr_Pending res = negb (bool_decide (TimeoutAction cfg = OnTimeoutFail))).
Proof.
  unfold checkDependencyWaitStep, dep_answer. cbv zeta.
  destruct (en_depChecker e) as [ask|]; [|simpl; naive_solver].
  destruct (pastDeadline e deadline).
  { destruct (bool_decide _); simpl; naive_solver. }
  destruct (ask _ _ _) as [bs|[]]; [|simpl; naive_solver..].
  destruct (List.filter _ bs) as [|b l] eqn:E; simpl.
  - split_and!; try naive_solver. split; [|done]. intros _. exists bs. split; [done|].
    by apply all_released.
  - assert (b ∈ List.filter (fun b => negb (blockerSatisfied b (EffectiveSatisfiedWhen cfg))) bs)
      as Hb by (rewrite E; apply list_elem_of_here).
    rewrite list_elem_of_In, filter_In, <- list_elem_of_In, negb_true_iff in Hb.
    destruct Hb as [Hb Hs].
    assert (~ released_by (EffectiveSatisfiedWhen cfg) b) as Hn
      by (rewrite <- blockerSatisfied_spec; congruence).
    split_and!; try done; naive_solver.
Qed.

(** ** The waiting window *)

Section window.
Context {RT : GoRuntime} {DG : Diagnostics}.

(** A park governed by [cfg]. *)
Lemma enterWait_deadline now step r cfg :
  st_WaitFor (waitStepConfig (set_waitingStep (st_ID step) (put_state (st_ID step) stWaiting r))).1
    = Some cfg ->
  r_waitDeadline (enterWait now step r)
  = (if (r_waitDeadline r =? 0) && (0 <? ParsedMaxDuration cfg)
     then now + ParsedMaxDuration cfg else r_waitDeadline r)%Z.
Proof.
  intros H. unfold enterWait. rewrite H. simpl. by destruct (_ && _).
Qed.

Lemma own_config step r cfg :
  st_ID step <> "" -> r_waitingChild r = "" -> byID r (st_ID step) = step ->
  st_WaitFor step = Some cfg ->
  st_WaitFor (waitStepConfig (set_waitingStep (st_ID step) (put_state (st_ID step) stWaiting r))).1
    = Some cfg.
Proof.
  intros Hid Hc Hby Hw. unfold waitStepConfig. simpl. rewrite Hc.
  rewrite (proj2 (is_empty_false _)) by done. simpl.
  change (byID (set_waitingStep _ _) _) with (byID r (st_ID step)). by rewrite Hby, Hw.
Qed.

Lemma enterWait_frame now step r :
  r_waitingChild (enterWait now step r) = r_waitingChild r
  /\ r_wf (enterWait now step r) = r_wf r.
Proof. unfold enterWait. destruct (st_WaitFor _); [destruct (_ && _)|]; done. Qed.

Lemma RunWaitStep_kind e step target deadline cfg :
  st_WaitFor step = Some cfg -> wf_Kind cfg ∈ [""; WaitKindCI; WaitKindDependency] ->
  waitResult (RunWaitStep e step target deadline)
  = (if bool_decide (wf_Kind cfg = WaitKindDependency)
     then checkDependencyWaitStep e step cfg target deadline
     else checkCIWaitStep e step cfg target deadline).1.
Proof.
  unfold RunWaitStep. intros ->. rewrite !elem_of_cons, elem_of_nil.
  intros [->|[->|[->|[]]]]; simpl; by destruct (_ : checked).
Qed.

(** Past the deadline the checker is not asked. *)
Lemma late_result e step target deadline cfg :
  st_WaitFor step = Some cfg -> wf_Kind cfg ∈ [""; WaitKindCI; WaitKindDependency] ->
  TimeoutAction cfg ∈ [OnTimeoutFail; OnTimeoutHold] -> pastDeadline e deadline = true ->
  let res := waitResult (RunWaitStep e step target deadline) in
  sr_Success res = false
  /\ (TimeoutAction cfg = OnTimeoutFail -> sr_Pending res = false).
Proof.
  intros Hc Hk Ha Hp. cbv zeta. erewrite RunWaitStep_kind by done.
  unfold checkDependencyWaitStep, checkCIWaitStep. rewrite Hp.
  rewrite !elem_of_cons, elem_of_nil in Ha.
  destruct (bool_decide _), (en_depChecker e), (en_ciChecker e); try done;
    destruct Ha as [->|[->|[]]]; simpl; by split.
Qed.
End window.

(** A wait is bounded by one window. The deadline is set by the first park and
    kept by every later one, and the first check after it is terminal and failed
    unless the step asks to hold; a kind other than "dependency" always has a
    window. *)
Theorem wait_is_bounded `{GoRuntime} `{Diagnostics} (e : Engine) (r : dagRun) (step : StepConfig)
    (cfg : WaitForConfig) (target : WaitTarget) (t0 t1 : Z)
    (Hid : st_ID step <> "") (Hstep : byID r (st_ID step) = step) (Hcfg : st_WaitFor step = Some cfg)
    (Hkind : wf_Kind cfg ∈ [""; WaitKindCI; WaitKindDependency])
    (Hact : TimeoutAction cfg ∈ [OnTimeoutFail; OnTimeoutHold])
    (Hfirst : r_waitDeadline r = 0%Z) (Hchild : r_waitingChild r = "")
    (Hmax : wf_Kind cfg <> WaitKindDependency \/ (0 < ParsedMaxDuration cfg)%Z) (Ht : (0 <= t0)%Z) :
  let deadline := (t0 + ParsedMaxDuration cfg)%Z in
  let first := enterWait t0 step r in
  r_waitDeadline first = deadline
  /\ r_waitDeadline (enterWait t1 step first) = deadline
  /\ ((deadline < en_now e)%Z ->
      let res := waitResult (RunWaitStep e step target deadline) in
      sr_Success res = false /\ (TimeoutAction cfg = OnTimeoutFail -> sr_Pending res = false)).
Proof.
  cbv zeta.
  assert (0 < ParsedMaxDuration cfg)%Z as Hpos by (destruct Hmax; auto using ParsedMaxDuration_pos).
  destruct (enterWait_frame t0 step r) as [Hfc Hfw].
  assert (r_waitDeadline (enterWait t0 step r) = (t0 + ParsedMaxDuration cfg)%Z) as H1.
  { rewrite (enterWait_deadline _ _ _ cfg) by by apply own_config.
    rewrite Hfirst. destruct (0 <? _)%Z eqn:E; [done|]. apply Z.ltb_ge in E. lia. }
  split_and!; [done| |].
  - rewrite (enterWait_deadline _ _ _ cfg).
    + rewrite H1. destruct (_ =? 0)%Z eqn:E; [|done]. apply Z.eqb_eq in E. lia.
    + apply own_config; [done|by rewrite Hfc| |done]. unfold byID. by rewrite Hfw.
  - intros Hlate. apply (late_result e step target _ cfg); try done.
    unfold pastDeadline. apply andb_true_iff. rewrite negb_true_iff, Z.eqb_neq, Z.ltb_lt. lia.
Qed.

(** ** Witness: a CI wait with the default window *)

Definition plain_diagnostics : Diagnostics := {| sprintf := fun _ => "diagnostic" |}.

Definition ci_config : WaitForConfig := {|
  wf_Kind := "ci"; wf_CheckInterval := ""; wf_MaxDuration := ""; wf_FailIfNotPassed := None;
  wf_CISource := ""; wf_SatisfiedWhen := []; wf_BlockerLinkType := ""; wf_OnTimeout := "" |}.

Definition ci_step : StepConfig :=
  ir_step "ci" StepTypeWaitFor [] [] "" "" "" "" None "" None "" None None false [] "" None None "" []
         (Some ci_config) "" "" 0 0 false None [] "".

Definition ci_workflow : WorkflowConfig := {|
  wc_ID := "wf"; wc_Resume := ""; wc_ResultComment := ""; wc_Trigger := None; wc_Inputs := ∅; wc_Outputs := ∅; wc_Steps := [ci_step] |}.

Definition ci_item : SourceItem := {|
  si_ID := "1"; si_SourceID := "gh"; si_Number := ""; si_Title := ""; si_Description := "";
  si_Labels := []; si_Type := ""; si_Priority := ""; si_State := ""; si_URL := "";
  si_Comments := [] |}.

Definition ci_target : WaitTarget := {| wt_TaskID := "t"; wt_SourceID := "gh"; wt_SourceItemID := "1" |}.

Definition ci_engine : Engine := {|
  en_ciChecker := Some (fun _ => Ok {| ci_Status := "pending"; ci_URL := ""; ci_Checks := [] |});
  en_depChecker := None; en_now := (3 * 3600 * 10 ^ 9)%Z |}.

Lemma wait_is_bounded_witness :
  sr_Pending (waitResult (@RunWaitStep literal_runtime plain_diagnostics ci_engine ci_step ci_target
                            (hours 2))) = false.
Proof.
  refine (proj2 (proj2 (proj2 (@wait_is_bounded literal_runtime plain_diagnostics ci_engine
    (initDAG ci_workflow ci_item [] ∅) ci_step ci_config ci_target 0 5 _ _ _ _ _ _ _ _ _)) _) _);
    first [discriminate | vm_compute; reflexivity | lia | idtac].
  - apply list_elem_of_further, list_elem_of_here.
  - apply list_elem_of_here.
  - left. discriminate.
Defined.
