(* ===== verification/Parallel.v ===== *)
(** * Parallel groups (src/internal/workflow/dag_parallel.go)

    The children of a group run concurrently and are collected by declaration
    index, so the group is a function of what each pending child returns. A
    wait_for child may leave the group pending: the results of the finished
    children are then handed to the scheduler and replayed by the next pass. *)

From stdpp Require Import base gmap strings list.
From Stdlib Require Import ZArith.
From S2P Require Import Prelude Model Expr Config Dag Wait.

(** [parallelChildResult]; [idx] is the position in the list. *)
Record parallelChildResult := { cr_step : StepConfig; cr_res : StepResult }.

(** [parallelState]. *)
Record parallelState := { ps_waitingChild : string; ps_done : gmap string StepResult }.

(** ** Join policies *)

(** [joinDecided]: the outcome, when the finished children settle it. *)
Definition joinDecided (join : string) (results : list parallelChildResult) : option bool :=
  if bool_decide (join = JoinAny)
  then if existsb (fun cr => sr_Success (cr_res cr)) results then Some true else None
  else if is_empty join || bool_decide (join = JoinAll)
  then if existsb (fun cr => negb (sr_Pending (cr_res cr)) && negb (sr_Success (cr_res cr))) results
       then Some false else None
  else None.

(** [allChildrenPassed]. *)
Definition allChildrenPassed (results : list parallelChildResult) : bool :=
  forallb (fun cr => sr_Success (cr_res cr)) results.

(** The [steps] scope of a join expression. *)
Definition child_states (results : list parallelChildResult) : gmap string StepState :=
  foldl (fun m cr => <[st_ID (cr_step cr) :=
                         {| ss_State := passFail (sr_Success (cr_res cr)); ss_ExitCode := 0;
                            ss_Output := sr_Output (cr_res cr) |}]> m) ∅ results.

(** [parallelState] as one pass collects it. *)
Definition collect_state (results : list parallelChildResult) : parallelState :=
  foldl (fun s cr =>
    if sr_Pending (cr_res cr)
    then {| ps_waitingChild := st_ID (cr_step cr); ps_done := ps_done s |}
    else {| ps_waitingChild := ps_waitingChild s;
            ps_done := <[st_ID (cr_step cr) := cr_res cr]> (ps_done s) |})
    {| ps_waitingChild := ""; ps_done := ∅ |} results.

(** The memory the passed children contribute, in declaration order. *)
Definition child_contribs (results : list parallelChildResult) : list MemoryStep :=
  (fun cr => {| ms_StepID := st_ID (cr_step cr); ms_WriteFields := MemoryWriteFields (cr_step cr);
                ms_Structured := sr_Structured (cr_res cr); ms_Summary := sr_Summary (cr_res cr) |})
  <$> List.filter (fun cr => sr_Success (cr_res cr)) results.

Section parallel.
Context {RT : GoRuntime} {DG : Diagnostics}.

(** [applyJoinPolicy]. *)
Definition applyJoinPolicy (join : string) (results : list parallelChildResult) (cell : SourceItem)
    (memSnap : list MemoryStep) : result (parseError + evalError) bool :=
  if bool_decide (join = JoinAny) then Ok (existsb (fun cr => sr_Success (cr_res cr)) results)
  else if is_empty join || bool_decide (join = JoinAll) then Ok (allChildrenPassed results)
  else match ParseExpr (stripExprDelimiters join) with
       | Err e => Err (inl e)
       | Ok expr =>
           match Eval expr {| ec_Cell := cell; ec_Memory := memoryValuesFrom memSnap;
                              ec_Steps := child_states results; ec_Event := ∅ |} with
           | Err e => Err (inr e)
           | Ok b => Ok b
           end
       end.

(** ** Children *)

Section children.
(** What an agent step returns ([Engine.runStep]), per child. *)
Context (e : Engine) (runStep : nat -> StepConfig -> StepResult).

(** [runParallelChild]. *)
Definition runParallelChild (i : nat) (child : StepConfig) (target : WaitTarget) (waitDeadline : Z)
    : StepResult :=
  if is_type StepTypeAgent child then runStep i child
  else if is_type StepTypeWaitFor child then
    match RunWaitStep e child target waitDeadline with
    | Ok (res, _) => res
    | Err err => new_result false err
    end
  else new_result false (sprintf (DChildType (StepType child))).

(** The slot of one child: replayed from the cache, or run. *)
Definition child_result (target : WaitTarget) (waitDeadline : Z) (cached : gmap string StepResult)
    (i : nat) (child : StepConfig) : parallelChildResult := {|
  cr_step := child;
  cr_res := match cached !! st_ID child with
            | Some res => res
            | None => applyMissingOutput child (runParallelChild i child target waitDeadline)
            end |}.

(** [runParallelStep]. *)
Definition runParallelStep (step : StepConfig) (cell : SourceItem) (target : WaitTarget)
    (memSnap : list MemoryStep) (cached : gmap string StepResult) (waitDeadline : Z)
    : StepResult * list MemoryStep * parallelState :=
  match st_SubSteps step with
  | [] => ({| sr_Success := true; sr_Output := ""; sr_Structured := ∅;
              sr_Summary := "parallel: no children"; sr_Pending := false; sr_Conflict := false |},
           [], {| ps_waitingChild := ""; ps_done := ∅ |})
  | children =>
      let results := imap (child_result target waitDeadline cached) children in
      let state := collect_state results in
      let undecided := match joinDecided (st_Join step) results with
                       | Some _ => false
                       | None => true
                       end in
      if negb (is_empty (ps_waitingChild state)) && undecided then (pendingResult, [], state)
      else match applyJoinPolicy (st_Join step) results cell memSnap with
           | Err err => (new_result false (sprintf (DJoin (st_Join step) err)), [], state)
           | Ok true => ({| sr_Success := true; sr_Output := ""; sr_Structured := ∅;
                            sr_Summary := "parallel: joined"; sr_Pending := false;
                            sr_Conflict := false |}, child_contribs results, state)
           | Ok false => (new_result false "", [], state)
           end
  end.
End children.
End parallel.

(** ** What a pass collects *)

Lemma collect_state_app rs cr :
  collect_state (rs ++ [cr]) =
    let s := collect_state rs in
    if sr_Pending (cr_res cr)
    then {| ps_waitingChild := st_ID (cr_step cr); ps_done := ps_done s |}
    else {| ps_waitingChild := ps_waitingChild s;
            ps_done := <[st_ID (cr_step cr) := cr_res cr]> (ps_done s) |}.
Proof. unfold collect_state. by rewrite foldl_app. Qed.

Lemma collect_waiting rs :
  ps_waitingChild (collect_state rs) <> "" ->
  exists cr, cr ∈ rs /\ sr_Pending (cr_res cr) = true
             /\ st_ID (cr_step cr) = ps_waitingChild (collect_state rs).
Proof.
  induction rs as [|cr rs IH] using rev_ind; [done|]. rewrite collect_state_app. cbv zeta.
  destruct (sr_Pending (cr_res cr)) eqn:E; simpl; intros Hw.
  - exists cr. rewrite elem_of_app, list_elem_of_singleton. auto.
  - destruct (IH Hw) as (cr' & Hin & H). exists cr'. rewrite elem_of_app. auto.
Qed.

Lemma collect_done rs id res :
  NoDup ((fun cr => st_ID (cr_step cr)) <$> rs) ->
  ps_done (collect_state rs) !! id = Some res <->
  exists cr, cr ∈ rs /\ st_ID (cr_step cr) = id /\ cr_res cr = res /\ sr_Pending res = false.
Proof.
  induction rs as [|cr rs IH] using rev_ind; intros Hnd.
  { split; [done|]. intros (cr & Hin & _). by apply elem_of_nil in Hin. }
  rewrite fmap_app in Hnd. apply NoDup_app in Hnd as (Hnd & Hdis & _).
  specialize (IH Hnd). setoid_rewrite elem_of_app. setoid_rewrite list_elem_of_singleton.
  rewrite collect_state_app. cbv zeta. destruct (sr_Pending (cr_res cr)) eqn:E; simpl.
  - rewrite IH. split; [intros (c & Hc & H); exists c; auto|].
    intros (c & [Hc| ->] & Hid & Hres & Hp); [exists c; auto|]. by rewrite <- Hres, E in Hp.
  - destruct (decide (st_ID (cr_step cr) = id)) as [<-|Hne].
    + rewrite lookup_insert_eq. split; [intros [= <-]; exists cr; auto|].
      intros (cr' & [Hin| ->] & Hid & Hres & _); [|by rewrite Hres].
      exfalso. apply (Hdis (st_ID (cr_step cr))); [|by apply list_elem_of_here].
      rewrite <- Hid. by apply (list_elem_of_fmap_2 (fun cr => st_ID (cr_step cr))).
    + rewrite lookup_insert_ne by done. rewrite IH. split; [intros (c & Hc & H); exists c; auto|].
      intros (c & [Hc| ->] & H); [exists c; auto|]. by destruct H.
Qed.

Lemma collect_done_terminal rs id res :
  ps_done (collect_state rs) !! id = Some res -> sr_Pending res = false.
Proof.
  induction rs as [|cr rs IH] using rev_ind; [done|]. rewrite collect_state_app. cbv zeta.
  destruct (sr_Pending (cr_res cr)) eqn:E; simpl; [done|].
  destruct (decide (st_ID (cr_step cr) = id)) as [<-|Hne].
  - rewrite lookup_insert_eq. by intros [= <-].
  - by rewrite lookup_insert_ne.
Qed.

Lemma applyMissingOutput_pending {DG : Diagnostics} step res :
  sr_Pending (applyMissingOutput step res) = sr_Pending res.
Proof. unfold applyMissingOutput. repeat case_match; done. Qed.

(** ** The join *)

(** [rs'] is a possible end of the group [rs] left pending. *)
Definition completion (rs rs' : list parallelChildResult) : Prop :=
  Forall2 (fun a b => cr_step b = cr_step a /\ sr_Pending (cr_res b) = false /\
                      (sr_Pending (cr_res a) = false -> b = a)) rs rs'.

Definition complete_with (ok : bool) (rs : list parallelChildResult) : list parallelChildResult :=
  (fun cr => if sr_Pending (cr_res cr)
             then {| cr_step := cr_step cr; cr_res := new_result ok "" |} else cr) <$> rs.

Lemma complete_with_completion ok rs : completion rs (complete_with ok rs).
Proof.
  apply Forall2_fmap_r, Forall_Forall2_diag, Forall_true. intros cr.
  unfold compose. destruct (sr_Pending (cr_res cr)) eqn:E; by split_and!.
Qed.

Lemma completion_keeps rs rs' cr :
  completion rs rs' -> cr ∈ rs -> sr_Pending (cr_res cr) = false -> cr ∈ rs'.
Proof.
  intros HF Hin Hp. apply list_elem_of_lookup_1 in Hin as [i Hi].
  destruct (Forall2_lookup_l _ _ _ _ _ HF Hi) as (b & Hb & _ & _ & Heq).
  rewrite (Heq Hp) in Hb. by eapply list_elem_of_lookup_2.
Qed.

Section join.
Context {RT : GoRuntime} {DG : Diagnostics}.

Lemma decided_any rs :
  joinDecided JoinAny rs = (if existsb (fun cr => sr_Success (cr_res cr)) rs then Some true else None).
Proof. done. Qed.

Lemma decided_all join rs :
  join = "" \/ join = JoinAll ->
  joinDecided join rs =
    (if existsb (fun cr => negb (sr_Pending (cr_res cr)) && negb (sr_Success (cr_res cr))) rs
     then Some false else None)
  /\ forall cell mem, applyJoinPolicy join rs cell mem = Ok (allChildrenPassed rs).
Proof. by intros [-> | ->]. Qed.

Lemma decided_expr join rs :
  join <> JoinAny -> join <> "" -> join <> JoinAll -> joinDecided join rs = None.
Proof.
  intros H1 H2 H3. unfold joinDecided.
  rewrite (bool_decide_eq_false_2 (join = JoinAny)), (bool_decide_eq_false_2 (join = JoinAll)) by done.
  by rewrite (proj2 (is_empty_false _)).
Qed.

Lemma join_cases (join : string) :
  join = JoinAny \/ (join = "" \/ join = JoinAll)
  \/ (join <> JoinAny /\ join <> "" /\ join <> JoinAll).
Proof.
  destruct (decide (join = JoinAny)), (decide (join = "")), (decide (join = JoinAll)); tauto.
Qed.

(** A settled join: the pending children cannot change it. *)
Lemma joinDecided_sound join rs rs' v cell mem :
  (forall cr, cr ∈ rs -> sr_Pending (cr_res cr) = true -> sr_Success (cr_res cr) = false) ->
  joinDecided join rs = Some v -> completion rs rs' -> applyJoinPolicy join rs' cell mem = Ok v.
Proof.
  intros Hpend Hd HF. destruct (join_cases join) as [->|[Hall|(H1 & H2 & H3)]].
  - rewrite decided_any in Hd. destruct (existsb _ rs) eqn:E; [|done]. injection Hd as <-.
    change (Ok (existsb (fun cr => sr_Success (cr_res cr)) rs') = @Ok (parseError + evalError) _ true).
    f_equal. apply existsb_elem in E as (cr & Hin & Hs). apply existsb_elem. exists cr.
    split; [|done]. eapply completion_keeps; [done..|].
    destruct (sr_Pending (cr_res cr)) eqn:Ep; [|done]. by rewrite Hpend in Hs.
  - destruct (decided_all join rs Hall) as [Hd' _].
    destruct (decided_all join rs' Hall) as [_ Ha]. rewrite Hd' in Hd. rewrite Ha.
    destruct (existsb _ rs) eqn:E; [|done]. injection Hd as <-. f_equal.
    apply existsb_elem in E as (cr & Hin & Hs). apply andb_true_iff in Hs as [Hp Hs].
    rewrite negb_true_iff in Hp, Hs. unfold allChildrenPassed.
    destruct (forallb _ rs') eqn:Ef; [|done]. rewrite forallb_forall in Ef.
    rewrite (Ef cr) in Hs; [done|]. apply list_elem_of_In. by eapply completion_keeps.
  - by rewrite decided_expr in Hd.
Qed.

(** An open one: both outcomes are still possible. *)
Lemma joinDecided_complete join rs v cell mem :
  (exists cr, cr ∈ rs /\ sr_Pending (cr_res cr) = true) ->
  join ∈ [JoinAny; JoinAll; ""] -> joinDecided join rs = None ->
  applyJoinPolicy join (complete_with v rs) cell mem = Ok v.
Proof.
  intros (cr & Hin & Hp) Hj Hd. destruct (join_cases join) as [->|[Hall|(H1 & H2 & H3)]].
  - rewrite decided_any in Hd. destruct (existsb _ rs) eqn:E; [done|].
    change (Ok (existsb (fun cr => sr_Success (cr_res cr)) (complete_with v rs))
            = @Ok (parseError + evalError) _ v). f_equal.
    apply eq_bool_prop_intro. split; intros Hv.
    + apply Is_true_true, existsb_elem in Hv as (c & Hc & Hs).
      apply list_elem_of_fmap in Hc as (c0 & -> & Hc0).
      destruct (sr_Pending (cr_res c0)); [exact (Is_true_true_2 _ Hs)|]. exfalso.
      apply not_true_iff_false in E. apply E, existsb_elem. by exists c0.
    + apply Is_true_true, existsb_elem.
      exists {| cr_step := cr_step cr; cr_res := new_result v "" |}. split.
      * apply list_elem_of_fmap. exists cr. by rewrite Hp.
      * by apply Is_true_true.
  - destruct (decided_all join rs Hall) as [Hd' _].
    destruct (decided_all join (complete_with v rs) Hall) as [_ ->]. rewrite Hd' in Hd. f_equal.
    destruct (existsb _ rs) eqn:E; [done|]. unfold allChildrenPassed.
    apply eq_bool_prop_intro. rewrite !Is_true_true, forallb_forall.
    setoid_rewrite <- list_elem_of_In. split.
    + intros Hv. specialize (Hv {| cr_step := cr_step cr; cr_res := new_result v "" |}). apply Hv.
      apply list_elem_of_fmap. exists cr. by rewrite Hp.
    + intros -> c Hc. apply list_elem_of_fmap in Hc as (c0 & -> & Hc0).
      destruct (sr_Pending (cr_res c0)) eqn:Ep; [done|].
      destruct (sr_Success (cr_res c0)) eqn:Es; [done|]. exfalso.
      apply not_true_iff_false in E. apply E, existsb_elem. exists c0. by rewrite Ep, Es.
  - rewrite !elem_of_cons, elem_of_nil in Hj. naive_solver.
Qed.
End join.

(** ** Parking and resuming a group *)

(** The slots of a group parked after [first], when the pending children answer
    as in [second]. *)
Definition merge_slot (first second : parallelChildResult) : parallelChildResult :=
  if sr_Pending (cr_res first) then second else first.

Section resume.
Context {RT : GoRuntime} {DG : Diagnostics}.

Definition slots (e : Engine) (runStep : nat -> StepConfig -> StepResult) (step : StepConfig)
    (target : WaitTarget) (deadline : Z) (cached : gmap string StepResult)
    : list parallelChildResult :=
  imap (child_result e runStep target deadline cached) (st_SubSteps step).

Lemma slots_lookup e runStep step target deadline cached i :
  slots e runStep step target deadline cached !! i
  = child_result e runStep target deadline cached i <$> st_SubSteps step !! i.
Proof. apply list_lookup_imap. Qed.

Lemma slots_ids e runStep step target deadline cached :
  (fun cr => st_ID (cr_step cr)) <$> slots e runStep step target deadline cached
  = st_ID <$> st_SubSteps step.
Proof.
  apply list_eq. intros i. rewrite !list_lookup_fmap, slots_lookup.
  by destruct (st_SubSteps step !! i).
Qed.

(** What [runParallelStep] is, in terms of its slots. *)
Definition conclude (step : StepConfig) (cell : SourceItem) (memSnap : list MemoryStep)
    (rs : list parallelChildResult) : StepResult * list MemoryStep * parallelState :=
  let state := collect_state rs in
  if negb (is_empty (ps_waitingChild state))
     && (match joinDecided (st_Join step) rs with Some _ => false | None => true end)
  then (pendingResult, [], state)
  else match applyJoinPolicy (st_Join step) rs cell memSnap with
       | Err err => (new_result false (sprintf (DJoin (st_Join step) err)), [], state)
       | Ok true => ({| sr_Success := true; sr_Output := ""; sr_Structured := ∅;
                        sr_Summary := "parallel: joined"; sr_Pending := false;
                        sr_Conflict := false |}, child_contribs rs, state)
       | Ok false => (new_result false "", [], state)
       end.

Lemma runParallelStep_slots e runStep step cell target mem cached deadline :
  st_SubSteps step <> [] ->
  runParallelStep e runStep step cell target mem cached deadline
  = conclude step cell mem (slots e runStep step target deadline cached).
Proof. unfold runParallelStep, slots. by destruct (st_SubSteps step). Qed.

Lemma conclude_state step cell mem rs : (conclude step cell mem rs).2 = collect_state rs.
Proof. unfold conclude. repeat case_match; done. Qed.

(** Only an undecided group with a pending child parks. *)
Lemma conclude_pending step cell mem rs :
  sr_Pending (conclude step cell mem rs).1.1 = true ->
  ps_waitingChild (collect_state rs) <> "" /\ joinDecided (st_Join step) rs = None.
Proof.
  unfold conclude. cbv zeta. destruct (negb _ && _) eqn:E.
  - intros _. apply andb_true_iff in E as [Hw Hd]. rewrite negb_true_iff, is_empty_false in Hw.
    by destruct (joinDecided _ _).
  - by destruct (applyJoinPolicy _ _ _ _) as [[]|].
Qed.

(** The second pass replays every finished slot. *)
Lemma resumed_slots e1 run1 e2 run2 step target d1 d2 cached :
  NoDup (st_ID <$> st_SubSteps step) ->
  let first := slots e1 run1 step target d1 cached in
  slots e2 run2 step target d2 (ps_done (collect_state first))
  = zip_with merge_slot first (slots e2 run2 step target d2 ∅).
Proof.
  intros Hnd. cbv zeta. set (first := slots e1 run1 step target d1 cached).
  assert (NoDup ((fun cr => st_ID (cr_step cr)) <$> first)) as Hnd'
    by (unfold first; by rewrite slots_ids).
  apply list_eq. intros i. rewrite lookup_zip_with, !slots_lookup. unfold first at 2.
  rewrite slots_lookup. destruct (st_SubSteps step !! i) as [c|] eqn:Hi; [|done]. simpl.
  f_equal. set (s1 := child_result e1 run1 target d1 cached i c).
  assert (s1 ∈ first) as Hs1.
  { apply list_elem_of_lookup_2 with i. unfold first. by rewrite slots_lookup, Hi. }
  unfold merge_slot. destruct (sr_Pending (cr_res s1)) eqn:Ep; unfold child_result at 1.
  - assert (ps_done (collect_state first) !! st_ID c = None) as ->; [|done].
    apply eq_None_not_Some. intros [res Hres]. apply collect_done in Hres as (s & Hin & Hid & Hr & Hp); [|done].
    assert (s = s1) as ->; [|congruence].
    apply list_elem_of_lookup_1 in Hin as [j Hj]. assert (j = i) as ->.
    { eapply (NoDup_lookup _ _ _ (st_ID c) Hnd'); rewrite list_lookup_fmap.
      - rewrite Hj. simpl. by rewrite Hid.
      - unfold first. rewrite slots_lookup, Hi. done. }
    unfold first in Hj. rewrite slots_lookup, Hi in Hj. by injection Hj.
  - assert (ps_done (collect_state first) !! st_ID c = Some (cr_res s1)) as ->; [|unfold s1 at 1; reflexivity].
    apply collect_done; [done|]. by exists s1.
Qed.
End resume.

Section resume_facts.
Context {RT : GoRuntime} {DG : Diagnostics}.

Lemma parked_nonempty e runStep step cell target mem cached deadline :
  sr_Pending (runParallelStep e runStep step cell target mem cached deadline).1.1 = true ->
  st_SubSteps step <> [].
Proof. intros H Hnil. unfold runParallelStep in H. by rewrite Hnil in H. Qed.

(** A cached child is not executed, whatever its executor would do. *)
Lemma slots_cached e run run' step target deadline cached :
  (forall i c, st_SubSteps step !! i = Some c -> is_type StepTypeAgent c = true ->
     cached !! st_ID c = None -> run i c = run' i c) ->
  slots e run step target deadline cached = slots e run' step target deadline cached.
Proof.
  intros H. apply list_eq. intros i. rewrite !slots_lookup.
  destruct (st_SubSteps step !! i) as [c|] eqn:Hi; [|done]. simpl. f_equal.
  unfold child_result. f_equal. destruct (cached !! st_ID c) eqn:Hc; [done|].
  unfold runParallelChild. destruct (is_type StepTypeAgent c) eqn:Ea; [|done]. by rewrite (H i c).
Qed.

(** Finished results stay finished through any number of passes. *)
Lemma done_grows e run step target deadline (rs : list parallelChildResult) :
  NoDup (st_ID <$> st_SubSteps step) ->
  (fun cr => st_ID (cr_step cr)) <$> rs = st_ID <$> st_SubSteps step ->
  ps_done (collect_state rs)
  ⊆ ps_done (collect_state (slots e run step target deadline (ps_done (collect_state rs)))).
Proof.
  intros Hnd Hids. apply map_subseteq_spec. intros id res Hres.
  pose proof Hres as Hd. apply collect_done in Hres as (cr & Hin & Hid & Hr & Hp);
    [|by rewrite Hids].
  apply collect_done; [by rewrite slots_ids|].
  apply list_elem_of_lookup_1 in Hin as [i Hi].
  assert (exists c, st_SubSteps step !! i = Some c /\ st_ID c = id) as (c & Hc & Hcid).
  { assert ((st_ID <$> st_SubSteps step) !! i = Some id) as Hl
      by (rewrite <- Hids, list_lookup_fmap, Hi; simpl; by rewrite Hid).
    rewrite list_lookup_fmap in Hl. destruct (st_SubSteps step !! i) as [c|]; [|done].
    injection Hl as <-. eauto. }
  exists (child_result e run target deadline (ps_done (collect_state rs)) i c).
  unfold child_result. simpl. rewrite Hcid, Hd. split_and!; [|done..].
  apply list_elem_of_lookup_2 with i. rewrite slots_lookup, Hc. simpl. unfold child_result.
  by rewrite Hcid, Hd.
Qed.

(** The child a parked group waits for is one of its wait_for children. *)
Lemma waiting_child_waits e runStep step cell target mem cached deadline :
  (forall i c, sr_Pending (runStep i c) = false) ->
  (forall id res, cached !! id = Some res -> sr_Pending res = false) ->
  let '(res, _, st) := runParallelStep e runStep step cell target mem cached deadline in
  sr_Pending res = true ->
  exists c, c ∈ st_SubSteps step /\ st_ID c = ps_waitingChild st /\ st_ID c <> ""
            /\ is_type StepTypeWaitFor c = true.
Proof.
  intros Hrun Hcache. pose proof (parked_nonempty e runStep step cell target mem cached deadline) as Hne.
  destruct (runParallelStep e runStep step cell target mem cached deadline) as [[res cs] st] eqn:E.
  intros Hp. specialize (Hne Hp). rewrite runParallelStep_slots in E by done.
  set (rs := slots e runStep step target deadline cached) in E.
  assert (st = collect_state rs) as -> by (by rewrite <- (conclude_state step cell mem), E).
  destruct (conclude_pending step cell mem rs) as [Hw _]; [by rewrite E|].
  pose proof Hw as Hw'. apply collect_waiting in Hw' as (cr & Hin & Hpc & Hid).
  apply list_elem_of_lookup_1 in Hin as [i Hi]. unfold rs in Hi. rewrite slots_lookup in Hi.
  destruct (st_SubSteps step !! i) as [c|] eqn:Hc; [|done]. injection Hi as <-.
  exists c. split; [by eapply list_elem_of_lookup_2|]. simpl in Hid. rewrite Hid. split_and!; [done..|].
  simpl in Hpc. destruct (cached !! st_ID c) as [res'|] eqn:Ec.
  { by rewrite (Hcache _ _ Ec) in Hpc. }
  rewrite applyMissingOutput_pending in Hpc. unfold runParallelChild in Hpc.
  destruct (is_type StepTypeAgent c); [by rewrite Hrun in Hpc|].
  by destruct (is_type StepTypeWaitFor c).
Qed.
End resume_facts.

(** ** Properties *)

(** [joinDecided] is exact. Once it decides, the join of every way the pending
    children can still end is the decided outcome, so a parked wait cannot be
    cut short wrongly; while an [all] or [any] join with a pending child is
    undecided, both outcomes can still happen; an expression is never decided
    early. *)
Theorem joinDecided_exact `{GoRuntime} (join : string) (rs : list parallelChildResult)
    (cell : SourceItem) (mem : list MemoryStep) :
  (forall cr, cr ∈ rs -> sr_Pending (cr_res cr) = true -> sr_Success (cr_res cr) = false) ->
  (forall v, joinDecided join rs = Some v ->
     forall rs', completion rs rs' -> applyJoinPolicy join rs' cell mem = Ok v)
  /\ (joinDecided join rs = None -> join ∈ [JoinAny; JoinAll; ""] ->
      (exists cr, cr ∈ rs /\ sr_Pending (cr_res cr) = true) ->
      forall v, exists rs', completion rs rs' /\ applyJoinPolicy join rs' cell mem = Ok v)
  /\ (join ∉ [JoinAny; JoinAll; ""] -> joinDecided join rs = None).
Proof.
  intros Hp. split_and!.
  - intros v Hd rs' HF. by eapply joinDecided_sound.
  - intros Hd Hj Hex v. exists (complete_with v rs).
    split; [apply complete_with_completion|by apply joinDecided_complete].
  - rewrite !not_elem_of_cons. intros (H1 & H2 & H3 & _). by apply decided_expr.
Qed.

(** A group parked on a wait_for child is resumed, not restarted. The next pass
    is the join over the finished children's first results and the pending
    ones' new answers; no finished child is executed again, whatever its
    executor would return; and no finished result is lost for the passes after
    it. *)
Theorem parallel_resume `{GoRuntime} `{Diagnostics} (e1 e2 : Engine)
    (run1 run2 : nat -> StepConfig -> StepResult) (step : StepConfig) (cell : SourceItem)
    (target : WaitTarget) (mem1 mem2 : list MemoryStep) (cached : gmap string StepResult) (d1 d2 : Z)
    (out : StepResult) (contribs : list MemoryStep) (parked : parallelState)
    (Hids : NoDup (st_ID <$> st_SubSteps step))
    (Hfirst : runParallelStep e1 run1 step cell target mem1 cached d1 = (out, contribs, parked))
    (Hparked : sr_Pending out = true) :
  let second run := runParallelStep e2 run step cell target mem2 (ps_done parked) d2 in
  second run2 = conclude step cell mem2
                  (zip_with merge_slot (slots e1 run1 step target d1 cached)
                                       (slots e2 run2 step target d2 ∅))
  /\ (forall run, (forall i c, st_SubSteps step !! i = Some c -> is_type StepTypeAgent c = true ->
                     ps_done parked !! st_ID c = None -> run2 i c = run i c) -> second run = second run2)
  /\ ps_done parked ⊆ ps_done (second run2).2.
Proof.
  cbv zeta. assert (st_SubSteps step <> []) as Hne.
  { eapply parked_nonempty. by rewrite Hfirst. }
  rewrite runParallelStep_slots in Hfirst by done.
  assert (parked = collect_state (slots e1 run1 step target d1 cached)) as ->
    by (by rewrite <- (conclude_state step cell mem1), Hfirst).
  split_and!.
  - rewrite runParallelStep_slots by done. by rewrite resumed_slots.
  - intros run Hrun. rewrite !runParallelStep_slots by done. by rewrite (slots_cached _ run2 run).
  - rewrite runParallelStep_slots, conclude_state by done.
    apply done_grows; [done|by rewrite slots_ids].
Qed.

(** ** Witnesses *)

Definition review_step : StepConfig := zero_step "review".

Definition gate_group : StepConfig :=
  ir_step "gate" StepTypeParallel [] [] "" "" "" "" None "" None "" None None false [] "" None None "" []
         None "" "" 0 0 false None [review_step; ci_step] JoinAll.

Definition review_passes (i : nat) (c : StepConfig) : StepResult := new_result true "approved".

Lemma gate_group_ids : NoDup (st_ID <$> st_SubSteps gate_group).
Proof. apply (bool_decide_eq_true_1 _). vm_compute. reflexivity. Qed.

Lemma joinDecided_exact_witness :
  joinDecided JoinAny [{| cr_step := review_step; cr_res := new_result true "" |};
                       {| cr_step := ci_step; cr_res := pendingResult |}] = Some true
  /\ applyJoinPolicy (RT := literal_runtime) JoinAny
       (complete_with false [{| cr_step := review_step; cr_res := new_result true "" |};
                             {| cr_step := ci_step; cr_res := pendingResult |}]) ci_item [] = Ok true.
Proof.
  split; [reflexivity|].
  apply (proj1 (@joinDecided_exact literal_runtime JoinAny
    [{| cr_step := review_step; cr_res := new_result true "" |};
     {| cr_step := ci_step; cr_res := pendingResult |}] ci_item []
    ltac:(intros cr Hin Hp; rewrite !elem_of_cons, elem_of_nil in Hin;
          destruct Hin as [->|[->|[]]]; [discriminate|reflexivity])) true eq_refl).
  apply complete_with_completion.
Defined.

(** The review passed while CI was pending; on the next pass an executor that
    would fail is not asked again. *)
Lemma parallel_resume_witness :
  let first := @runParallelStep literal_runtime plain_diagnostics ci_engine review_passes gate_group
                 ci_item ci_target [] ∅ 0 in
  sr_Pending first.1.1 = true
  /\ @runParallelStep literal_runtime plain_diagnostics ci_engine (fun _ _ => new_result false "")
       gate_group ci_item ci_target [] (ps_done first.2) 0
     = @runParallelStep literal_runtime plain_diagnostics ci_engine review_passes gate_group
         ci_item ci_target [] (ps_done first.2) 0.
Proof.
  cbv zeta. assert (sr_Pending (@runParallelStep literal_runtime plain_diagnostics ci_engine review_passes
    gate_group ci_item ci_target [] ∅ 0).1.1 = true) as Hp by (vm_compute; reflexivity).
  assert (ps_done (@runParallelStep literal_runtime plain_diagnostics ci_engine review_passes
    gate_group ci_item ci_target [] ∅ 0).2 !! "review" <> None) as Hd
    by (intros Hd; vm_compute in Hd; discriminate Hd).
  split; [exact Hp|].
  destruct (@runParallelStep literal_runtime plain_diagnostics ci_engine review_passes
    gate_group ci_item ci_target [] ∅ 0) as [[out cs] st] eqn:E.
  apply (proj1 (proj2 (@parallel_resume literal_runtime plain_diagnostics ci_engine ci_engine
    review_passes review_passes gate_group ci_item ci_target [] [] ∅ 0 0 out cs st
    gate_group_ids E Hp))).
  intros i c Hc Ha Hn. destruct i as [|[|i]]; [|injection Hc as <-; discriminate Ha|discriminate Hc].
  injection Hc as <-. destruct (Hd Hn).
Defined.

(** ** A defect: the gates of a child *)

(** A reviewer that rejects every item of [ci_item]'s id. *)
Definition strict_review : StepConfig :=
  ir_step "review" "" [] [] "" "cell.id == '1'" "reviewer" "" None "" None "" None None false [] ""
         None None "" [] None "" "" 0 0 false None [] "".

Definition strict_group : StepConfig :=
  ir_step "gate" StepTypeParallel [] [] "" "" "" "" None "" None "" None None false [] "" None None "" []
         None "" "" 0 0 false None [strict_review] JoinAll.

(** The [fail_when] gate of a parallel child is accepted by the linter and
    never evaluated: the step that the scheduler fails when it stands alone
    passes as the only child of an [all] group. *)
Theorem parallel_child_gate_ignored `{GoRuntime} `{Diagnostics} (e : Engine) (target : WaitTarget)
    (deadline : Z) :
  let res := new_result true "done" in
  LintExpr (st_FailWhen strict_review) = true
  /\ sr_Success (judge strict_review (ready_payload res) res (initDAG ci_workflow ci_item [] ∅)) = false
  /\ sr_Success (runParallelStep e (fun _ _ => res) strict_group ci_item target [] ∅ deadline).1.1 = true.
Proof. cbv zeta. split_and!; [vm_compute; reflexivity..]. Qed.
