(* ===== verification/Foreach.v ===== *)
(** * foreach steps (src/internal/workflow/foreach.go)

    A foreach step runs its inner step once per element of an array found in a
    prior step's output: in order, or concurrently under a cap. The sequential
    form is a function; the concurrent one, whose goroutines share the counters
    and the [stopped] flag, is a step relation. *)

From stdpp Require Import base gmap strings list pretty.
From Stdlib Require Import ZArith Ascii.
From S2P Require Import Prelude Text Model Expr Config Dag.

Definition defaultForeachMaxItems : Z := 50.

(** [foreachResult]. *)
Record foreachResult := { fe_passed : nat; fe_failed : nat }.

(** ** Item templates *)

(** The classes [\w] and [\s] of the regular expression. *)
Definition word_char (c : ascii) : bool :=
  let n := N_of_ascii c in
  (((48 <=? n) && (n <=? 57)) || ((65 <=? n) && (n <=? 90)) || ((97 <=? n) && (n <=? 122)) || (n =? 95))%N.
Definition blank (c : ascii) : bool :=
  let n := N_of_ascii c in
  ((n =? 9) || (n =? 10) || (n =? 12) || (n =? 13) || (n =? 32))%N.

(** One match of [itemTemplateRe] at the head of the text: the variable, the
    field ("" when absent) and the rest. The character classes of consecutive
    pieces are disjoint, so the greedy match is the only one. *)
Definition match_item (s : string) : option (string * string * string) :=
  s ← strip_prefix "{{" s;
  let '(_, s) := str_span blank s in
  let '(name, s) := str_span word_char s in
  if is_empty name then None
  else
    let '(field, s) :=
      match s with
      | String "." s' =>
          let '(f, rest) := str_span word_char s' in if is_empty f then ("", s) else (f, rest)
      | _ => ("", s)
      end in
    let '(_, s) := str_span blank s in
    s ← strip_prefix "}}" s;
    Some (name, field, s).

Section render.
Context {RT : GoRuntime}.

(** The replacement of one match. *)
Definition render_match (as_ : string) (item : JValue) (text name field : string) : string :=
  if negb (bool_decide (name = as_)) then text
  else if is_empty field then renderValue item
  else match item with
       | JObj obj => from_option renderValue "" (obj !! field)
       | _ => ""
       end.

(** [ReplaceAllStringFunc]: matches are taken left to right and the replacement
    is not scanned again. The fuel is the length of the text. *)
Fixpoint render_go (fuel : nat) (as_ : string) (item : JValue) (s : string) : string :=
  match fuel, s with
  | O, _ | _, EmptyString => s
  | S fuel, String c s' =>
      match match_item s with
      | Some (name, field, rest) =>
          let text := String.substring 0 (String.length s - String.length rest) s in
          render_match as_ item text name field +:+ render_go fuel as_ item rest
      | None => String c (render_go fuel as_ item s')
      end
  end.

(** [renderItemTemplate]. *)
Definition renderItemTemplate (tmpl as_ : string) (item : JValue) : string :=
  if is_empty tmpl then "" else render_go (String.length tmpl) as_ item tmpl.
End render.

Lemma match_item_shorter s name field rest :
  match_item s = Some (name, field, rest) -> String.length rest < String.length s.
Proof.
  unfold match_item. intros H. apply bind_Some in H as (s1 & H1 & H).
  apply strip_prefix_length in H1. simpl in H1.
  destruct (str_span blank s1) as [b1 s2] eqn:E1. apply str_span_spec in E1 as [_ E1].
  destruct (str_span word_char s2) as [n1 s3] eqn:E2. apply str_span_spec in E2 as [_ E2].
  destruct (is_empty n1); [discriminate|].
  assert (exists f s4, String.length s4 <= String.length s3 /\
    (let '(_, s) := str_span blank s4 in s ← strip_prefix "}}" s; Some (n1, f, s))
      = Some (name, field, rest)) as (f & s4 & H4 & H').
  { destruct s3 as [|c s3']; [by exists "", ""|].
    destruct (decide (c = "."%char)) as [->|Hc].
    - destruct (str_span word_char s3') as [f r] eqn:E3. apply str_span_spec in E3 as [_ E3].
      destruct (is_empty f); [exists "", (String "." s3')|exists f, r];
        (split; [|exact H]); simpl; lia.
    - exists "", (String c s3'). split; [done|]. rewrite <- H.
      destruct c as [[] [] [] [] [] [] [] []]; done. }
  destruct (str_span blank s4) as [b2 s5] eqn:E4. apply str_span_spec in E4 as [_ E4].
  apply bind_Some in H' as (s6 & H6 & [= _ _ <-]). apply strip_prefix_length in H6. simpl in H6. lia.
Qed.

Lemma render_go_fuel {RT : GoRuntime} as_ item s f1 f2 :
  String.length s <= f1 -> String.length s <= f2 -> render_go f1 as_ item s = render_go f2 as_ item s.
Proof.
  revert f2 s. induction f1 as [|f1 IH]; intros [|f2] [|c s] H1 H2; simpl in *; try done; try lia.
  destruct (match_item (String c s)) as [[[name field] rest]|] eqn:E.
  - apply match_item_shorter in E. simpl in E. f_equal. apply IH; lia.
  - f_equal. apply IH; lia.
Qed.

(** ** Items *)

Section items.
Context {DG : Diagnostics}.

(** The walk over the field path. *)
Fixpoint walk (path : string) (fields : list string) (cur : JValue) : result string JValue :=
  match fields with
  | [] => Ok cur
  | f :: fields =>
      match cur with
      | JObj obj => match obj !! f with
                    | Some v => walk path fields v
                    | None => Err (sprintf (DItemsField path f))
                    end
      | _ => Err (sprintf (DItemsObject path f))
      end
  end.

(** [resolveItemsFromContrib]. A nil structured output and an empty one are not
    told apart: reading a field of either is an error. *)
Definition resolveItemsFromContrib (path : string) (contribSnap : gmap string MemoryStep)
    : result string (list JValue) :=
  match split_on "." path with
  | root :: id :: out :: f :: fields =>
      if negb (bool_decide (root = "steps")) || negb (bool_decide (out = "output"))
      then Err (sprintf (DItemsPath path))
      else match contribSnap !! id with
           | None => Err (sprintf (DItemsSource id))
           | Some contrib =>
               if bool_decide (ms_Structured contrib = ∅) then Err (sprintf (DItemsSource id))
               else cur ← walk path (f :: fields) (JObj (ms_Structured contrib));
                    match cur with
                    | JArr arr => Ok arr
                    | _ => Err (sprintf (DItemsArray path))
                    end
           end
  | _ => Err (sprintf (DItemsPath path))
  end.
End items.

(** ** Running the items *)

(** [foreachStepResult]. *)
Definition foreachStepResult (stepID : string) (fr : foreachResult) : StepResult * foreachResult :=
  let allOK := bool_decide (fe_failed fr = 0) in
  ({| sr_Success := allOK;
      sr_Output := "foreach: " +:+ pretty (fe_passed fr) +:+ " passed, " +:+ pretty (fe_failed fr)
                   +:+ " failed";
      sr_Structured := ∅;
      sr_Summary := if allOK then stepID +:+ ": processed " +:+ pretty (fe_passed fr) +:+ " item(s)" else "";
      sr_Pending := false; sr_Conflict := false |}, fr).

Definition count (ok : bool) (fr : foreachResult) : foreachResult :=
  if ok then {| fe_passed := S (fe_passed fr); fe_failed := fe_failed fr |}
  else {| fe_passed := fe_passed fr; fe_failed := S (fe_failed fr) |}.

Section run.
Context {RT : GoRuntime} {DG : Diagnostics}.
(** [Engine.runStep] on the step of one item. *)
Context (runStep : StepConfig -> StepResult).

(** The inner step of the [i]-th item. *)
Definition item_step (step inner : StepConfig) (as_ : string) (i : nat) (item : JValue) : StepConfig :=
  mkStep (st_ID step +:+ "[" +:+ pretty i +:+ "]") StepTypeAgent [] (st_SeqDependsOn inner)
    (st_Condition inner) (st_FailWhen inner) (st_Agent inner)
    (renderItemTemplate (st_Prompt inner) as_ item) (st_OutputSchema inner)
    (st_OnMissingOutput inner) (st_Memory inner) (st_OnPassNext inner) (st_OnFail inner)
    (st_OnConflict inner) (st_Multi inner) (st_Branches inner) (st_Message inner)
    (st_ResumeOn inner) (st_AbortOn inner) (st_Timeout inner) (st_Approvers inner)
    (st_WaitFor inner) (st_Items inner) (st_As inner) (st_Concurrency inner) (st_MaxItems inner)
    (st_FailFast inner) (st_Step inner) (st_SubSteps inner) (st_Join inner) (st_Name inner)
    (st_Idempotent inner) (st_Publish inner) (st_Spawn inner) (st_Materialize inner)
    (st_PullRequestFrom inner) (st_ActionClass inner) (st_RequiredApprovals inner)
    (st_ApprovalFields inner) (st_RemindAfter inner) (st_EscalateAfter inner) (st_EscalateTo inner)
    (st_Delegates inner) (st_Workflow inner) (st_Uses inner) (st_With inner) (st_If inner)
    (st_RejectWhen inner) (st_OnReject inner) (st_ParallelSteps inner) (st_ForEachExpr inner)
    (st_Max inner) (st_Output inner).

(** Does the item pass? *)
Definition item_ok (step inner : StepConfig) (as_ : string) (i : nat) (item : JValue) : bool :=
  let sub := item_step step inner as_ i item in
  sr_Success (applyMissingOutput sub (runStep sub)).

(** [executeForeachSequential]: the loop from item [i]. *)
Fixpoint sequential (ok : nat -> JValue -> bool) (failFast : bool) (i : nat) (items : list JValue)
    (fr : foreachResult) : foreachResult :=
  match items with
  | [] => fr
  | item :: items =>
      let b := ok i item in
      let fr := count b fr in
      if negb b && failFast then fr else sequential ok failFast (S i) items fr
  end.

Definition executeForeachSequential (step inner : StepConfig) (items : list JValue) (as_ : string)
    : StepResult * foreachResult :=
  foreachStepResult (st_ID step)
    (sequential (item_ok step inner as_) (st_FailFast step) 0 items {| fe_passed := 0; fe_failed := 0 |}).

(** What [executeForeachStep] decides before it runs an item: its items and the
    name they are bound to, or the failed result. *)
Definition foreach_plan (step : StepConfig) (contribSnap : gmap string MemoryStep)
    : result StepResult (StepConfig * list JValue * string) :=
  match resolveItemsFromContrib (st_Items step) contribSnap with
  | Err err => Err (new_result false err)
  | Ok items =>
      let maxItems := if (st_MaxItems step =? 0)%Z then defaultForeachMaxItems else st_MaxItems step in
      if (maxItems <? Z.of_nat (length items))%Z then
        Err (new_result false ("foreach: " +:+ pretty (length items) +:+ " items exceeds max_items "
                               +:+ pretty maxItems))
      else match st_Step step with
           | None => Err (new_result false "foreach: missing inner step")
           | Some inner => Ok (inner, items, if is_empty (st_As step) then "item" else st_As step)
           end
  end.

(** [executeForeachStep] without a semaphore. *)
Definition executeForeachStep (step : StepConfig) (contribSnap : gmap string MemoryStep)
    : StepResult * foreachResult :=
  match foreach_plan step contribSnap with
  | Err res => (res, {| fe_passed := 0; fe_failed := 0 |})
  | Ok (inner, items, as_) => executeForeachSequential step inner items as_
  end.
End run.

(** ** The concurrent form *)

(** The shared variables of [executeForeachConcurrent]: the next item, the items
    whose goroutine runs, the counters, [stopped], and whether the loop has
    been left. *)
Record foreachState := {
  fs_next : nat; fs_active : list nat; fs_fr : foreachResult; fs_stopped : bool; fs_left : bool }.

Definition foreach_start : foreachState := {|
  fs_next := 0; fs_active := []; fs_fr := {| fe_passed := 0; fe_failed := 0 |};
  fs_stopped := false; fs_left := false |}.

Section concurrent.
Context (ok : nat -> bool) (n : nat) (failFast : bool) (cap : nat).

(** One atomic action. [conc_launch]: the loop body takes an inner slot, sees
    [stopped] unset and starts a goroutine. [conc_leave]: the loop ends, or
    breaks on [stopped]. [conc_finish]: a goroutine updates the counters under
    the mutex and gives its slot back. *)
Inductive conc_step : foreachState -> foreachState -> Prop :=
  | conc_launch s :
      fs_left s = false -> fs_next s < n -> length (fs_active s) < cap ->
      failFast && fs_stopped s = false ->
      conc_step s {| fs_next := S (fs_next s); fs_active := fs_active s ++ [fs_next s];
                     fs_fr := fs_fr s; fs_stopped := fs_stopped s; fs_left := false |}
  | conc_leave s :
      fs_left s = false -> fs_next s = n \/ failFast && fs_stopped s = true ->
      conc_step s {| fs_next := fs_next s; fs_active := fs_active s; fs_fr := fs_fr s;
                     fs_stopped := fs_stopped s; fs_left := true |}
  | conc_finish s j i :
      fs_active s !! j = Some i ->
      conc_step s {| fs_next := fs_next s; fs_active := delete j (fs_active s);
                     fs_fr := count (ok i) (fs_fr s);
                     fs_stopped := fs_stopped s || (negb (ok i) && failFast);
                     fs_left := fs_left s |}.

(** [wg.Wait()] has returned. *)
Definition conc_done (s : foreachState) : Prop := fs_left s = true /\ fs_active s = [].

(** What holds of the shared variables at any time: the items taken are the
    finished ones, counted, and the active ones. *)
Record conc_inv (s : foreachState) : Prop := {
  ci_next : fs_next s <= n;
  ci_cap : length (fs_active s) <= cap;
  ci_fin : exists fin, fin ++ fs_active s ≡ₚ seq 0 (fs_next s)
    /\ fe_passed (fs_fr s) = length (List.filter ok fin)
    /\ fe_failed (fs_fr s) = length (List.filter (fun i => negb (ok i)) fin);
  ci_stopped : fs_stopped s = true -> failFast = true /\ 0 < fe_failed (fs_fr s);
  ci_left : fs_left s = true -> fs_next s = n \/ failFast && fs_stopped s = true;
}.

(** Left to do. *)
Definition conc_measure (s : foreachState) : nat :=
  2 * (n - fs_next s) + length (fs_active s) + (if fs_left s then 0 else 1).

Lemma conc_inv_start : conc_inv foreach_start.
Proof. split; simpl; [lia..| |done|done]. exists []. by split_and!. Qed.

Lemma count_failed b fr : fe_failed fr <= fe_failed (count b fr).
Proof. destruct b; simpl; lia. Qed.

Lemma conc_inv_step s s' : conc_step s s' -> conc_inv s -> conc_inv s'.
Proof.
  intros Hs [Hn Hc (fin & Hp & Hok & Hko) Hst Hl]. destruct Hs as [s Hleft Hlt Hcap Hff|s Hleft Hend|s j i Hj].
  - split; simpl; [lia| |exists fin; split_and!; [|done..]|done|done].
    + rewrite length_app. simpl. lia.
    + rewrite app_assoc, Hp. by rewrite <- (seq_S (fs_next s) 0 : _ = seq 0 _ ++ [fs_next s]).
  - split; simpl; [done..|by exists fin|done|done].
  - assert (i :: delete j (fs_active s) ≡ₚ fs_active s) as Hperm by (symmetry; by apply delete_Permutation).
    split; simpl; [done| |exists (fin ++ [i])| |].
    + apply lookup_lt_Some in Hj as Hlt. rewrite length_delete by done. lia.
    + rewrite <- app_assoc. simpl. rewrite Hperm. split; [done|].
      rewrite !List.filter_app, !length_app. simpl.
      destruct (ok i); simpl; lia.
    + intros [H|H]%orb_true_iff; [destruct (Hst H); split; [done|]|].
      * eapply Nat.lt_le_trans; [done|apply count_failed].
      * apply andb_true_iff in H as [Ho ->]. split; [done|]. destruct (ok i); [done|]. simpl. lia.
    + intros H. destruct (Hl H) as [|Hs]; [by left|right].
      apply andb_true_iff in Hs as [-> ->]. done.
Qed.

Lemma conc_inv_reachable s : rtc conc_step foreach_start s -> conc_inv s.
Proof.
  intros H. revert s H. apply (rtc_ind_r (R := conc_step) conc_inv foreach_start); [apply conc_inv_start|].
  intros x y _ Hxy Hx. by eapply conc_inv_step.
Qed.

Lemma conc_step_measure s s' : conc_step s s' -> conc_measure s' < conc_measure s.
Proof.
  unfold conc_measure. intros [t Hleft Hlt Hcap _|t Hleft _|t j i Hj]; simpl.
  - rewrite Hleft, length_app. simpl. lia.
  - rewrite Hleft. lia.
  - apply lookup_lt_Some in Hj as Hlt. rewrite length_delete by done. lia.
Qed.

(** A loop with a slot to give is never stuck. *)
Lemma conc_progress s : 0 < cap -> conc_inv s -> ~ conc_done s -> exists s', conc_step s s'.
Proof.
  intros Hcap [Hn _ _ _ _] Hd. destruct (fs_active s) as [|i l] eqn:Ea.
  - destruct (fs_left s) eqn:El; [by destruct Hd|].
    destruct (failFast && fs_stopped s) eqn:Es; [eexists; by apply conc_leave; auto|].
    destruct (decide (fs_next s = n)); [eexists; by apply conc_leave; auto|].
    eexists. apply conc_launch; [done|lia|rewrite Ea; simpl; lia|done].
  - eexists. apply (conc_finish s 0 i). by rewrite Ea.
Qed.
End concurrent.

(** ** Properties *)

Lemma filter_partition {A} (p : A -> bool) l :
  length (List.filter p l) + length (List.filter (fun x => negb (p x)) l) = length l.
Proof. induction l as [|x l IH]; simpl; [done|]. destruct (p x); simpl; lia. Qed.

Section sequential_facts.
Context (ok : nat -> JValue -> bool) (failFast : bool).

(** Nothing failed exactly when every item passes. *)
Lemma sequential_failed items i fr :
  fe_failed (sequential ok failFast i items fr) = 0 <->
  fe_failed fr = 0 /\ forall j item, items !! j = Some item -> ok (i + j) item = true.
Proof.
  revert i fr. induction items as [|item items IH]; intros i fr; simpl.
  { split; [|tauto]. intros H. split; [done|]. intros j it Hj. by rewrite lookup_nil in Hj. }
  destruct (ok i item) eqn:E; simpl.
  - rewrite IH. simpl. split; intros [H1 H2]; (split; [done|]).
    + intros [|j] it Hj; [injection Hj as <-; by rewrite Nat.add_0_r|].
      rewrite Nat.add_succ_r. by apply H2.
    + intros j it Hj. specialize (H2 (S j) it Hj). by rewrite Nat.add_succ_r in H2.
  - assert (~ forall j it, (item :: items) !! j = Some it -> ok (i + j) it = true) as Hno.
    { intros H. specialize (H 0 item eq_refl). rewrite Nat.add_0_r in H. congruence. }
    destruct failFast; simpl; [split; [lia|tauto]|]. rewrite IH. simpl. split; [lia|tauto].
Qed.

(** Without [fail_fast] every item is counted. *)
Lemma sequential_total items i fr :
  failFast = false ->
  fe_passed (sequential ok failFast i items fr) + fe_failed (sequential ok failFast i items fr)
  = fe_passed fr + fe_failed fr + length items.
Proof.
  intros ->. revert i fr. induction items as [|item items IH]; intros i fr; simpl; [lia|].
  rewrite andb_false_r, IH. destruct (ok i item); simpl; lia.
Qed.
End sequential_facts.

(** The verdict of item [i], as the goroutines see it. *)
Definition nth_ok (ok : nat -> JValue -> bool) (items : list JValue) (i : nat) : bool :=
  from_option (ok i) true (items !! i).

(** The concurrent foreach is safe and agrees with the sequential one. At any
    moment at most [concurrency] items run; the loop and its goroutines cannot
    deadlock and every schedule ends; and whatever the schedule, the step
    succeeds exactly when the sequential form does, that is when every item
    passes; without [fail_fast] every item has been run and counted. *)
Theorem foreach_concurrent_agrees (stepID : string) (ok : nat -> JValue -> bool) (items : list JValue)
    (failFast : bool) (cap : nat) (Hcap : 0 < cap) :
  let step := conc_step (nth_ok ok items) (length items) failFast cap in
  let outcome fr := sr_Success (foreachStepResult stepID fr).1 in
  well_founded (flip step)
  /\ forall s, rtc step foreach_start s ->
       length (fs_active s) <= cap
       /\ (~ conc_done s -> exists s', step s s')
       /\ (conc_done s ->
            outcome (fs_fr s)
              = outcome (sequential ok failFast 0 items {| fe_passed := 0; fe_failed := 0 |})
            /\ (outcome (fs_fr s) = true <-> forall i item, items !! i = Some item -> ok i item = true)
            /\ (failFast = false -> fe_passed (fs_fr s) + fe_failed (fs_fr s) = length items)).
Proof.
  cbv zeta. split.
  { apply (wf_projected lt (conc_measure (length items))); [|apply lt_wf].
    intros x y H. by eapply conc_step_measure. }
  intros s Hr. pose proof (conc_inv_reachable _ _ _ _ _ Hr) as Hinv.
  split; [apply Hinv|]. split; [by apply conc_progress|]. intros [Hleft Hact].
  destruct Hinv as [Hn _ (fin & Hp & Hok & Hko) Hst Hl]. rewrite Hact, app_nil_r in Hp.
  assert (fe_failed (fs_fr s) = 0 <-> forall i item, items !! i = Some item -> ok i item = true) as Hall.
  { rewrite Hko. split.
    - intros H0 i item Hi. assert (fs_next s = length items) as Hend.
      { destruct (Hl Hleft) as [|Hs]; [done|]. apply andb_true_iff in Hs as [_ Hs].
        destruct (Hst Hs). lia. }
      assert (i ∈ fin) as Hin.
      { rewrite Hp, elem_of_seq. apply lookup_lt_Some in Hi. lia. }
      destruct (ok i item) eqn:E; [done|]. apply length_zero_iff_nil in H0.
      assert (i ∈ List.filter (fun i => negb (nth_ok ok items i)) fin) as Hf.
      { rewrite list_elem_of_In, filter_In, <- list_elem_of_In. split; [done|].
        unfold nth_ok. rewrite Hi. simpl. by rewrite E. }
      rewrite H0 in Hf. by apply elem_of_nil in Hf.
    - intros H. apply length_zero_iff_nil. destruct (List.filter (fun i => negb (nth_ok ok items i)) fin) as [|i l] eqn:E; [done|].
      assert (i ∈ List.filter (fun i => negb (nth_ok ok items i)) fin) as Hf
        by (rewrite E; apply list_elem_of_here).
      rewrite list_elem_of_In, filter_In in Hf. destruct Hf as [_ Hf]. unfold nth_ok in Hf.
      destruct (items !! i) eqn:Hi; [|done]. simpl in Hf. by rewrite (H _ _ Hi) in Hf. }
  assert (forall fr, sr_Success (foreachStepResult stepID fr).1 = true <-> fe_failed fr = 0) as Hout
    by (intros fr; apply bool_decide_eq_true).
  split_and!.
  - apply eq_bool_prop_intro. rewrite !Is_true_true, !Hout, Hall, sequential_failed. simpl. naive_solver.
  - by rewrite Hout.
  - intros Hff. rewrite Hok, Hko. assert (fs_next s = length items) as Hend.
    { destruct (Hl Hleft) as [|Hs]; [done|]. by rewrite Hff in Hs. }
    rewrite filter_partition, Hp, length_seq. done.
Qed.

(** The failing second item of two, run one at a time: every step of the
    interleaving spelled out. *)
Definition foreach_failed_run : foreachState :=
  {| fs_next := 2; fs_active := []; fs_fr := {| fe_passed := 1; fe_failed := 1 |};
     fs_stopped := true; fs_left := true |}.

Lemma foreach_failed_run_reachable :
  rtc (conc_step (nth_ok (fun i _ => i =? 0) [JNull; JNull]) 2 true 1) foreach_start foreach_failed_run.
Proof.
  eapply rtc_l; [apply conc_launch; simpl; auto; lia|simpl].
  eapply rtc_l; [apply (conc_finish _ _ _ _ _ 0 0); reflexivity|simpl].
  eapply rtc_l; [apply conc_launch; simpl; auto; lia|simpl].
  eapply rtc_l; [apply (conc_finish _ _ _ _ _ 0 1); reflexivity|simpl].
  eapply rtc_l; [apply conc_leave; simpl; auto|simpl]. apply rtc_refl.
Qed.

Lemma foreach_concurrent_agrees_witness :
  conc_done foreach_failed_run
  /\ sr_Success (foreachStepResult "f" (fs_fr foreach_failed_run)).1
     = sr_Success (foreachStepResult "f" (sequential (fun i _ => i =? 0) true 0 [JNull; JNull]
                                            {| fe_passed := 0; fe_failed := 0 |})).1.
Proof.
  split; [by split|].
  apply (proj1 (proj2 (proj2 (proj2 (foreach_concurrent_agrees "f" (fun i _ => i =? 0) [JNull; JNull]
    true 1 (le_n 1)) foreach_failed_run foreach_failed_run_reachable)) (conj eq_refl eq_refl))).
Defined.
