(* ===== verification/Worker.v ===== *)
(** * What a worker goroutine runs (the dispatch of src/internal/workflow/dag.go)

    The body of the goroutine [driveDAG] launches for an I/O-bound step, by step
    type, and what its result can be. Agent steps ([Engine.runStep]) and
    sub-workflows ([Subworkflow]) are functions of the environment. *)

From stdpp Require Import base gmap strings list.
From Stdlib Require Import ZArith.
From S2P Require Import Prelude Model Expr Config Graph Dag DagFacts DagTermination DagInvariant.
From S2P Require Import Wait Parallel Foreach.

(** The environment of a worker: the executors, and the interleaving that a
    concurrent foreach takes. *)
Record Workers := {
  wk_engine : Engine;
  wk_runStep : nat -> StepConfig -> StepResult;
  wk_subWorkflow : StepConfig -> list MemoryStep -> gmap string MemoryStep -> StepResult;
  wk_concurrent : StepConfig -> StepConfig -> list JValue -> string -> foreachResult;
  wk_target : WaitTarget;
}.

Section worker.
Context {RT : GoRuntime} {DG : Diagnostics} (w : Workers).

(** [executeForeachStep], with and without the semaphore. *)
Definition foreach_worker (step : StepConfig) (contribSnap : gmap string MemoryStep)
    : StepResult * foreachResult :=
  if (1 <? st_Concurrency step)%Z then
    match foreach_plan step contribSnap with
    | Err res => (res, {| fe_passed := 0; fe_failed := 0 |})
    | Ok (inner, items, as_) => foreachStepResult (st_ID step) (wk_concurrent w step inner items as_)
    end
  else executeForeachStep (wk_runStep w 0) step contribSnap.

(** The [switch step.StepType()] of the goroutine. *)
Definition worker (cell : SourceItem) (step : StepConfig) (memSnap : list MemoryStep)
    (contribSnap : gmap string MemoryStep) (waitDeadline : Z) (cache : gmap string StepResult)
    : payload :=
  if is_type StepTypeParallel step then
    let '(res, contribs, st) :=
      runParallelStep (wk_engine w) (wk_runStep w) step cell (wk_target w) memSnap cache waitDeadline in
    {| pl_res := res; pl_contribs := contribs; pl_waitingChild := ps_waitingChild st;
       pl_done := ps_done st; pl_exit := 0 |}
  else if is_type StepTypeForeach step then
    let '(res, fr) := foreach_worker step contribSnap in
    {| pl_res := res; pl_contribs := []; pl_waitingChild := ""; pl_done := ∅;
       pl_exit := Z.of_nat (fe_failed fr) |}
  else if is_type StepTypeWorkflow step then ready_payload (wk_subWorkflow w step memSnap contribSnap)
  else if is_type StepTypeWaitFor step then
    ready_payload (waitResult (RunWaitStep (wk_engine w) step (wk_target w) waitDeadline))
  else ready_payload (wk_runStep w 0 step).

Definition run_flight (cell : SourceItem) (f : flight) : payload :=
  match f with
  | FReady _ res => ready_payload res
  | FWorker step mem contrib deadline cache => worker cell step mem contrib deadline cache
  end.
End worker.

(** The executors the engine calls: [runStep] and a sub-workflow build their
    results without [Pending] or [Conflict]. *)
Record executors_ok (w : Workers) : Prop := {
  xo_step : forall i c, sr_Pending (wk_runStep w i c) = false /\ sr_Conflict (wk_runStep w i c) = false;
  xo_sub : forall s mem contribs, sr_Pending (wk_subWorkflow w s mem contribs) = false
    /\ sr_Conflict (wk_subWorkflow w s mem contribs) = false;
}.

(** A result the scheduler may park on: it names a wait_for child when it comes
    from a group. *)
Definition parkable (step : StepConfig) (p : payload) : Prop :=
  sr_Pending (pl_res p) = true ->
  is_type StepTypeWaitFor step = true
  \/ (is_type StepTypeParallel step = true /\
      exists c, c ∈ st_SubSteps step /\ st_ID c = pl_waitingChild p /\ st_ID c <> ""
                /\ is_type StepTypeWaitFor c = true).

Section worker_facts.
Context {RT : GoRuntime} {DG : Diagnostics} (w : Workers).

Lemma foreach_flags step contribSnap :
  sr_Pending (foreach_worker w step contribSnap).1 = false /\
  sr_Conflict (foreach_worker w step contribSnap).1 = false.
Proof.
  assert (forall res, foreach_plan step contribSnap = Err res -> sr_Pending res = false /\ sr_Conflict res = false)
    as Hplan.
  { unfold foreach_plan. intros res H. by repeat case_match; simplify_eq. }
  unfold foreach_worker, executeForeachStep.
  destruct (1 <? _)%Z; destruct (foreach_plan step contribSnap) as [[[inner items] as_]|res] eqn:E;
    simpl; try done; by apply Hplan.
Qed.

Lemma conclude_conflict step cell mem rs : sr_Conflict (conclude step cell mem rs).1.1 = false.
Proof. unfold conclude. by repeat case_match. Qed.
End worker_facts.

(** A worker's result can suspend the instance only through a wait_for step, or
    through a parallel group that names a wait_for child of its own; and only a
    wait_for step that is itself a node of the graph can report a conflict, so a
    conflict never reaches the [on_conflict] edge from inside a group. *)
Theorem worker_results `{GoRuntime} `{Diagnostics} (w : Workers) (cell : SourceItem) (step : StepConfig)
    (mem : list MemoryStep) (contribs : gmap string MemoryStep) (deadline : Z)
    (cache : gmap string StepResult)
    (Hexec : executors_ok w)
    (Hcache : forall id res, cache !! id = Some res -> sr_Pending res = false) :
  let p := worker w cell step mem contribs deadline cache in
  parkable step p
  /\ (sr_Conflict (pl_res p) = true -> is_type StepTypeWaitFor step = true)
  /\ (forall id res, pl_done p !! id = Some res -> sr_Pending res = false).
Proof.
  destruct Hexec as [Hs Hw]. cbv zeta. unfold worker, parkable.
  destruct (is_type StepTypeParallel step) eqn:Ep.
  - pose proof (waiting_child_waits (wk_engine w) (wk_runStep w) step cell (wk_target w) mem cache deadline
                  (fun i c => proj1 (Hs i c)) Hcache) as Hwait.
    assert (sr_Conflict (runParallelStep (wk_engine w) (wk_runStep w) step cell (wk_target w) mem cache
              deadline).1.1 = false /\
            forall id res, ps_done (runParallelStep (wk_engine w) (wk_runStep w) step cell (wk_target w)
              mem cache deadline).2 !! id = Some res -> sr_Pending res = false) as [Hc Hd].
    { destruct (decide (st_SubSteps step = [])) as [Hnil|Hne].
      - unfold runParallelStep. by rewrite Hnil.
      - rewrite runParallelStep_slots by done. split; [apply conclude_conflict|].
        rewrite conclude_state. apply collect_done_terminal. }
    destruct (runParallelStep _ _ _ _ _ _ _ _) as [[res cs] st]. simpl in *.
    split_and!; [intros Hp; right; auto|by rewrite Hc|done].
  - destruct (is_type StepTypeForeach step) eqn:Ef.
    { destruct (foreach_flags w step contribs) as [H1 H2].
      destruct (foreach_worker w step contribs) as [res fr]. simpl in *.
      split_and!; [congruence..|done]. }
    destruct (is_type StepTypeWorkflow step).
    { destruct (Hw step mem contribs) as [H1 H2]. simpl. split_and!; [congruence..|done]. }
    destruct (is_type StepTypeWaitFor step); simpl; [split_and!; [auto|auto|done]|].
    destruct (Hs 0 step) as [H1 H2]. split_and!; [congruence..|done].
Qed.

(** ** Witness: the group of Parallel.v under a worker *)

Definition gate_workers : Workers := {|
  wk_engine := ci_engine; wk_runStep := review_passes; wk_subWorkflow := fun _ _ _ => new_result true "";
  wk_concurrent := fun _ _ _ _ => {| fe_passed := 0; fe_failed := 0 |}; wk_target := ci_target |}.

Lemma worker_results_witness :
  let p := @worker literal_runtime plain_diagnostics gate_workers ci_item gate_group [] ∅ 0 ∅ in
  sr_Pending (pl_res p) = true /\ parkable gate_group p.
Proof.
  cbv zeta. split; [vm_compute; reflexivity|].
  apply (@worker_results literal_runtime plain_diagnostics gate_workers ci_item gate_group [] ∅ 0 ∅);
    [split; intros; by split|intros id res Hl; by rewrite lookup_empty in Hl].
Defined.
