(* ===== verification/ApprovalStore.v ===== *)
(** * Approval requests and responses (src/internal/db/approval_store.go, the
      HTTP handler of src/internal/daemon/approval_http.go)

    The two tables behind an approval gate and every statement on them, one
    function per transaction (a write transaction of the store takes the lock
    when it begins, src/internal/db/client.go), with the UNIQUE constraints of
    src/internal/db/schema.go as checks; then the guards and the answer of the
    HTTP handler that records a response. The columns that hold JSON are the
    values they encode. *)

From stdpp Require Import base gmap strings list pretty.
From Stdlib Require Import ZArith.
From S2P Require Import Prelude Model Config.

Definition ApprovalPending := "pending".
Definition ApprovalEscalated := "escalated".
Definition ApprovalApproved := "approved".
Definition ApprovalRejected := "rejected".
Definition ApprovalTimedOut := "timed_out".

(** [ApprovalRequest]: the columns of [approval_requests]. *)
Record ApprovalRequest := {
  aq_ID : string;
  aq_WorkflowInstanceID : string;
  aq_TaskID : string;
  aq_WorkflowID : string;
  aq_StepID : string;
  aq_Message : string;
  aq_Approvers : list string;
  aq_Delegates : gmap string (list string);
  aq_RequiredApprovals : Z;
  aq_Fields : list ApprovalField;
  aq_Status : string;
  aq_Values : gmap string JValue;
  aq_Feedback : string;
  aq_RespondedBy : string;
  aq_ResponseChannel : string;
  aq_IdempotencyKey : string;        (* "" is NULL *)
  aq_Attempt : Z;
  aq_CreatedAt : Z;                  (* 0 is the zero time *)
  aq_ExpiresAt : option Z;
  aq_RemindedAt : option Z;
  aq_EscalatedAt : option Z;
  aq_RespondedAt : option Z;
}.

(** [ApprovalResponse]: what a channel submits. *)
Record ApprovalResponse := {
  ar_Decision : string;
  ar_Actor : string;
  ar_Approver : string;
  ar_Channel : string;
  ar_IdempotencyKey : string;
  ar_Feedback : string;
  ar_Values : gmap string JValue;
}.

(** A row of [approval_responses]. *)
Record ResponseRow := {
  rs_request : string;
  rs_decision : string;
  rs_actor : string;
  rs_approver : string;
  rs_channel : string;
  rs_key : string;
  rs_feedback : string;
  rs_values : gmap string JValue;
}.

(** The two tables, in rowid order: rows are only ever appended. *)
Record ApprovalTables := {
  approval_requests : list ApprovalRequest;
  approval_responses : list ResponseRow;
}.

Definition no_approvals : ApprovalTables := {| approval_requests := []; approval_responses := [] |}.

(** [status IN ('pending', 'escalated')]. *)
Definition is_open (r : ApprovalRequest) : bool :=
  bool_decide (aq_Status r = ApprovalPending) || bool_decide (aq_Status r = ApprovalEscalated).

(** ** Creating a request *)

(** [workflow_instance_id=? AND step_id=?]. *)
Definition of_step (inst step : string) (r : ApprovalRequest) : bool :=
  bool_decide (aq_WorkflowInstanceID r = inst) && bool_decide (aq_StepID r = step).

(** [ORDER BY attempt DESC LIMIT 1]. *)
Fixpoint latest_attempt (l : list ApprovalRequest) : option ApprovalRequest :=
  match l with
  | [] => None
  | r :: l =>
      match latest_attempt l with
      | Some r' => if (aq_Attempt r <? aq_Attempt r')%Z then Some r' else Some r
      | None => Some r
      end
  end.

(** [COALESCE(MAX(attempt), 0) + 1]. *)
Definition next_attempt (inst step : string) (db : ApprovalTables) : Z :=
  match latest_attempt (List.filter (of_step inst step) (approval_requests db)) with
  | Some r => aq_Attempt r + 1
  | None => 1
  end%Z.

(** The defaults [CreateApprovalRequest] fills in. *)
Definition request_defaults (now : Z) (r : ApprovalRequest) : ApprovalRequest := {|
  aq_ID := aq_ID r; aq_WorkflowInstanceID := aq_WorkflowInstanceID r; aq_TaskID := aq_TaskID r;
  aq_WorkflowID := aq_WorkflowID r; aq_StepID := aq_StepID r; aq_Message := aq_Message r;
  aq_Approvers := aq_Approvers r; aq_Delegates := aq_Delegates r;
  aq_RequiredApprovals := if (aq_RequiredApprovals r <=? 0)%Z then 1 else aq_RequiredApprovals r;
  aq_Fields := aq_Fields r;
  aq_Status := if is_empty (aq_Status r) then ApprovalPending else aq_Status r;
  aq_Values := aq_Values r; aq_Feedback := aq_Feedback r; aq_RespondedBy := aq_RespondedBy r;
  aq_ResponseChannel := aq_ResponseChannel r; aq_IdempotencyKey := aq_IdempotencyKey r;
  aq_Attempt := aq_Attempt r;
  aq_CreatedAt := if (aq_CreatedAt r =? 0)%Z then now else aq_CreatedAt r;
  aq_ExpiresAt := aq_ExpiresAt r; aq_RemindedAt := aq_RemindedAt r;
  aq_EscalatedAt := aq_EscalatedAt r; aq_RespondedAt := aq_RespondedAt r |}.

(** The lap of the request and the id that goes with it. *)
Definition number_attempt (db : ApprovalTables) (r : ApprovalRequest) : ApprovalRequest :=
  let attempt := if (aq_Attempt r <=? 0)%Z
                 then next_attempt (aq_WorkflowInstanceID r) (aq_StepID r) db else aq_Attempt r in {|
  aq_ID := if (1 <? attempt)%Z then aq_ID r +:+ "@" +:+ pretty attempt else aq_ID r;
  aq_WorkflowInstanceID := aq_WorkflowInstanceID r; aq_TaskID := aq_TaskID r;
  aq_WorkflowID := aq_WorkflowID r; aq_StepID := aq_StepID r; aq_Message := aq_Message r;
  aq_Approvers := aq_Approvers r; aq_Delegates := aq_Delegates r;
  aq_RequiredApprovals := aq_RequiredApprovals r; aq_Fields := aq_Fields r; aq_Status := aq_Status r;
  aq_Values := aq_Values r; aq_Feedback := aq_Feedback r; aq_RespondedBy := aq_RespondedBy r;
  aq_ResponseChannel := aq_ResponseChannel r; aq_IdempotencyKey := aq_IdempotencyKey r;
  aq_Attempt := attempt; aq_CreatedAt := aq_CreatedAt r; aq_ExpiresAt := aq_ExpiresAt r;
  aq_RemindedAt := aq_RemindedAt r; aq_EscalatedAt := aq_EscalatedAt r; aq_RespondedAt := aq_RespondedAt r |}.

(** The row the INSERT makes of it: the other columns keep their defaults. *)
Definition inserted_row (r : ApprovalRequest) : ApprovalRequest := {|
  aq_ID := aq_ID r; aq_WorkflowInstanceID := aq_WorkflowInstanceID r; aq_TaskID := aq_TaskID r;
  aq_WorkflowID := aq_WorkflowID r; aq_StepID := aq_StepID r; aq_Message := aq_Message r;
  aq_Approvers := aq_Approvers r; aq_Delegates := aq_Delegates r;
  aq_RequiredApprovals := aq_RequiredApprovals r; aq_Fields := aq_Fields r; aq_Status := aq_Status r;
  aq_Values := ∅; aq_Feedback := ""; aq_RespondedBy := ""; aq_ResponseChannel := ""; aq_IdempotencyKey := "";
  aq_Attempt := aq_Attempt r; aq_CreatedAt := aq_CreatedAt r; aq_ExpiresAt := aq_ExpiresAt r;
  aq_RemindedAt := None; aq_EscalatedAt := None; aq_RespondedAt := None |}.

(** The INSERT: a row of the same lap makes it do nothing, a row of the same id
    is an error. *)
Definition insert_request (r : ApprovalRequest) (db : ApprovalTables) : option ApprovalTables :=
  if existsb (fun o => of_step (aq_WorkflowInstanceID r) (aq_StepID r) o && (aq_Attempt o =? aq_Attempt r)%Z)
       (approval_requests db) then Some db
  else if str_in (aq_ID r) (aq_ID <$> approval_requests db) then None
  else Some {| approval_requests := approval_requests db ++ [inserted_row r];
               approval_responses := approval_responses db |}.

(** [CreateApprovalRequest]: the request as the caller has it afterwards, the
    tables, and the error. *)
Definition CreateApprovalRequest (now : Z) (r : ApprovalRequest) (db : ApprovalTables)
    : ApprovalRequest * ApprovalTables * option string :=
  if is_empty (aq_ID r) || is_empty (aq_WorkflowInstanceID r) || is_empty (aq_StepID r)
  then (r, db, Some "approval id, instance, and step are required")
  else
    let r := request_defaults now r in
    match latest_attempt (List.filter is_open
            (List.filter (of_step (aq_WorkflowInstanceID r) (aq_StepID r)) (approval_requests db))) with
    | Some o => (o, db, None)
    | None =>
        let r := number_attempt db r in
        match insert_request r db with
        | Some db => (r, db, None)
        | None => (r, db, Some "UNIQUE constraint failed: approval_requests.id")
        end
    end.

(** ** Reading *)

Definition has_id (id : string) (r : ApprovalRequest) : bool := bool_decide (aq_ID r = id).

(** [GetApprovalRequest]. *)
Definition GetApprovalRequest (id : string) (db : ApprovalTables) : option ApprovalRequest :=
  List.find (has_id id) (approval_requests db).

(** [ORDER BY created_at DESC, rowid DESC LIMIT 1]. *)
Fixpoint newest (l : list ApprovalRequest) : option ApprovalRequest :=
  match l with
  | [] => None
  | r :: l =>
      match newest l with
      | Some r' => if (aq_CreatedAt r <=? aq_CreatedAt r')%Z then Some r' else Some r
      | None => Some r
      end
  end.

(** [GetApprovalByInstance]. *)
Definition GetApprovalByInstance (inst : string) (db : ApprovalTables) : option ApprovalRequest :=
  newest (List.filter (fun r => bool_decide (aq_WorkflowInstanceID r = inst)) (approval_requests db)).

(** [CountPendingApprovals]. *)
Definition CountPendingApprovals (db : ApprovalTables) : nat :=
  length (List.filter is_open (approval_requests db)).

(** [request_id=? AND decision=?]. *)
Definition answers (id decision : string) (s : ResponseRow) : bool :=
  bool_decide (rs_request s = id) && bool_decide (rs_decision s = decision).

(** [CountApprovals]. *)
Definition CountApprovals (id : string) (db : ApprovalTables) : nat :=
  length (List.filter (answers id ApprovalApproved) (approval_responses db)).

(** ** Changing a row *)

(** [UPDATE approval_requests SET f WHERE id=? AND p]: the tables and whether a
    row was affected. *)
Definition update_request (id : string) (p : ApprovalRequest -> bool) (f : ApprovalRequest -> ApprovalRequest)
    (db : ApprovalTables) : ApprovalTables * bool :=
  ({| approval_requests := map (fun r => if has_id id r && p r then f r else r) (approval_requests db);
      approval_responses := approval_responses db |},
   existsb (fun r => has_id id r && p r) (approval_requests db)).

(** The columns a settling UPDATE sets. *)
Definition settle_request (status : string) (values : gmap string JValue) (feedback by_ channel key : string)
    (now : Z) (r : ApprovalRequest) : ApprovalRequest := {|
  aq_ID := aq_ID r; aq_WorkflowInstanceID := aq_WorkflowInstanceID r; aq_TaskID := aq_TaskID r;
  aq_WorkflowID := aq_WorkflowID r; aq_StepID := aq_StepID r; aq_Message := aq_Message r;
  aq_Approvers := aq_Approvers r; aq_Delegates := aq_Delegates r;
  aq_RequiredApprovals := aq_RequiredApprovals r; aq_Fields := aq_Fields r;
  aq_Status := status; aq_Values := values; aq_Feedback := feedback; aq_RespondedBy := by_;
  aq_ResponseChannel := channel; aq_IdempotencyKey := key;
  aq_Attempt := aq_Attempt r; aq_CreatedAt := aq_CreatedAt r; aq_ExpiresAt := aq_ExpiresAt r;
  aq_RemindedAt := aq_RemindedAt r; aq_EscalatedAt := aq_EscalatedAt r; aq_RespondedAt := Some now |}.

(** The columns the other UPDATEs set. *)
Definition mark_row (status : string) (reminded escalated : option Z) (r : ApprovalRequest) : ApprovalRequest := {|
  aq_ID := aq_ID r; aq_WorkflowInstanceID := aq_WorkflowInstanceID r; aq_TaskID := aq_TaskID r;
  aq_WorkflowID := aq_WorkflowID r; aq_StepID := aq_StepID r; aq_Message := aq_Message r;
  aq_Approvers := aq_Approvers r; aq_Delegates := aq_Delegates r;
  aq_RequiredApprovals := aq_RequiredApprovals r; aq_Fields := aq_Fields r;
  aq_Status := status; aq_Values := aq_Values r; aq_Feedback := aq_Feedback r;
  aq_RespondedBy := aq_RespondedBy r; aq_ResponseChannel := aq_ResponseChannel r;
  aq_IdempotencyKey := aq_IdempotencyKey r;
  aq_Attempt := aq_Attempt r; aq_CreatedAt := aq_CreatedAt r; aq_ExpiresAt := aq_ExpiresAt r;
  aq_RemindedAt := reminded; aq_EscalatedAt := escalated; aq_RespondedAt := aq_RespondedAt r |}.

(** [updateApprovalStatus]. *)
Definition updateApprovalStatus (now : Z) (id status : string) (from : list string) (db : ApprovalTables)
    : ApprovalTables * bool :=
  update_request id (fun r => str_in (aq_Status r) from)
    (fun r => settle_request status (aq_Values r) (aq_Feedback r) (aq_RespondedBy r) (aq_ResponseChannel r)
                (aq_IdempotencyKey r) now r) db.

(** [MarkApprovalTimedOut]. *)
Definition MarkApprovalTimedOut (now : Z) (id : string) (db : ApprovalTables) : ApprovalTables * bool :=
  updateApprovalStatus now id ApprovalTimedOut [ApprovalPending; ApprovalEscalated] db.

(** [MarkApprovalReminded]. *)
Definition MarkApprovalReminded (now : Z) (id : string) (db : ApprovalTables) : ApprovalTables * bool :=
  update_request id (fun r => is_open r && bool_decide (aq_RemindedAt r = None))
    (fun r => mark_row (aq_Status r) (Some now) (aq_EscalatedAt r) r) db.

(** [EscalateApproval]. *)
Definition EscalateApproval (now : Z) (id : string) (db : ApprovalTables) : ApprovalTables * bool :=
  update_request id (fun r => bool_decide (aq_Status r = ApprovalPending))
    (fun r => mark_row ApprovalEscalated (aq_RemindedAt r) (Some now) r) db.

(** ** Recording a response *)

Definition is_reject (decision : string) : bool :=
  equal_fold decision "reject" || equal_fold decision "rejected".

(** The status a response asks for. *)
Definition response_status (a : ApprovalResponse) : string :=
  if is_reject (ar_Decision a) then ApprovalRejected else ApprovalApproved.

(** The seat a response takes. *)
Definition response_approver (a : ApprovalResponse) : string :=
  if is_empty (ar_Approver a) then ar_Actor a else ar_Approver a.

Definition response_row (id : string) (a : ApprovalResponse) : ResponseRow := {|
  rs_request := id; rs_decision := response_status a; rs_actor := ar_Actor a;
  rs_approver := response_approver a; rs_channel := ar_Channel a; rs_key := ar_IdempotencyKey a;
  rs_feedback := ar_Feedback a; rs_values := ar_Values a |}.

(** The two UNIQUE constraints of [approval_responses]. *)
Definition response_conflict (s : ResponseRow) (db : ApprovalTables) : bool :=
  existsb (fun o => bool_decide (rs_key o = rs_key s)
                    || bool_decide (rs_request o = rs_request s) && bool_decide (rs_approver o = rs_approver s))
    (approval_responses db).

(** [INSERT ... ON CONFLICT DO NOTHING]. *)
Definition insert_response (s : ResponseRow) (db : ApprovalTables) : ApprovalTables :=
  {| approval_requests := approval_requests db; approval_responses := approval_responses db ++ [s] |}.

(** The UNIQUE key of [approval_requests] that the settling UPDATE could
    violate. *)
Definition request_key_taken (id key : string) (db : ApprovalTables) : bool :=
  existsb (fun o => negb (has_id id o) && bool_decide (aq_IdempotencyKey o = key)) (approval_requests db).

(** [ResolveApprovalRequest]: the tables it leaves, with the request as it reads
    it back and whether this call settled it. *)
Definition ResolveApprovalRequest (now : Z) (id : string) (a : ApprovalResponse) (db : ApprovalTables)
    : result string (option ApprovalRequest * bool) * ApprovalTables :=
  if is_empty (ar_IdempotencyKey a) then (Err "idempotency key is required", db)
  else match GetApprovalRequest id db with
  | None => (Err "sql: no rows in result set", db)
  | Some current =>
      if negb (is_open current) then (Ok (GetApprovalRequest id db, false), db)
      else
        let s := response_row id a in
        if response_conflict s db then (Ok (GetApprovalRequest id db, false), db)
        else
          let db' := insert_response s db in
          let resolved := bool_decide (response_status a = ApprovalRejected)
                          || (aq_RequiredApprovals current <=? Z.of_nat (CountApprovals id db'))%Z in
          if resolved then
            if request_key_taken id (ar_IdempotencyKey a) db' && existsb (fun r => has_id id r && is_open r) (approval_requests db')
            then (Err "UNIQUE constraint failed: approval_requests.idempotency_key", db)
            else
              let db' := (update_request id is_open
                (settle_request (response_status a) (ar_Values a) (ar_Feedback a) (ar_Actor a) (ar_Channel a)
                   (ar_IdempotencyKey a) now) db').1 in
              (Ok (GetApprovalRequest id db', true), db')
          else (Ok (GetApprovalRequest id db', false), db')
  end.

(** ** The HTTP handler *)

(** The seat of a delegate. Go ranges over the map in an order of its own, here
    [delegates], and the last match stays. *)
Definition delegate_principal (delegates : list (string * list string)) (a : ApprovalResponse) : string :=
  foldl (fun principal '(approver, ds) =>
    if existsb (fun d => equal_fold d (ar_Actor a)
                         && (is_empty (ar_Approver a) || equal_fold (ar_Approver a) approver)) ds
    then approver else principal) "" delegates.

(** The first listed approver the actor is, else a principal it stands for. *)
Definition principal_of (approvers : list string) (delegates : list (string * list string))
    (a : ApprovalResponse) : string :=
  match List.find (fun p => equal_fold p (ar_Actor a)) approvers with
  | Some p => if is_empty p then delegate_principal delegates a else p
  | None => delegate_principal delegates a
  end.

(** The type check of a submitted value; the messages here and below are
    without the quotes of their arguments. *)
Definition check_typed (f : ApprovalField) (v : JValue) : option string :=
  if bool_decide (af_Type f = "boolean") then
    match v with JBool _ => None | _ => Some ("field " +:+ af_Name f +:+ " must be boolean") end
  else if bool_decide (af_Type f = "number") then
    match v with JNum _ => None | _ => Some ("field " +:+ af_Name f +:+ " must be number") end
  else if bool_decide (af_Type f = "choice") then
    match v with
    | JStr s => if str_in s (af_Options f) then None
                else Some ("field " +:+ af_Name f +:+ " is not an allowed choice")
    | _ => Some ("field " +:+ af_Name f +:+ " is not an allowed choice")
    end
  else None.

(** A form field and the value it got. *)
Definition check_field (rejecting : bool) (values : gmap string JValue) (f : ApprovalField) : option string :=
  let value := values !! af_Name f in
  let blank := match value with None | Some JNull | Some (JStr "") => true | _ => false end in
  if af_Required f && negb rejecting && blank then Some ("field " +:+ af_Name f +:+ " is required")
  else match value with None => None | Some v => check_typed f v end.

Fixpoint check_fields (rejecting : bool) (values : gmap string JValue) (fs : list ApprovalField) : option string :=
  match fs with
  | [] => None
  | f :: fs =>
      match check_field rejecting values f with
      | Some e => Some e
      | None => check_fields rejecting values fs
      end
  end.

Definition with_approver (p : string) (a : ApprovalResponse) : ApprovalResponse := {|
  ar_Decision := ar_Decision a; ar_Actor := ar_Actor a; ar_Approver := p; ar_Channel := ar_Channel a;
  ar_IdempotencyKey := ar_IdempotencyKey a; ar_Feedback := ar_Feedback a; ar_Values := ar_Values a |}.

(** [validateApprovalResponse]: the response with its seat, or the complaint. *)
Definition validateApprovalResponse (delegates : list (string * list string)) (r : ApprovalRequest)
    (a : ApprovalResponse) : result string ApprovalResponse :=
  let decision := to_lower (ar_Decision a) in
  if negb (str_in decision ["approve"; "approved"; "reject"; "rejected"])
  then Err "decision must be approve or reject"
  else if is_empty (ar_Actor a) then Err "actor is required"
  else
    let rejecting := str_in decision ["reject"; "rejected"] in
    let finish a := match check_fields rejecting (ar_Values a) (aq_Fields r) with
                    | Some e => Err e
                    | None => Ok a
                    end in
    match aq_Approvers r with
    | [] => finish a
    | _ :: _ =>
        let principal := principal_of (aq_Approvers r) delegates a in
        if is_empty principal then Err ("actor " +:+ ar_Actor a +:+ " is not an authorized approver")
        else finish (with_approver principal a)
    end.

(** Where a response comes in: [None] for /respond, and for /webhook whether the
    signature of the body is valid. *)
Definition response_channel (webhook : option bool) (a : ApprovalResponse) : string :=
  match webhook with
  | Some _ => "webhook"
  | None => if bool_decide (ar_Channel a = "cli") then "cli" else "dashboard"
  end.

(** The response with the channel and the key the handler gives it. *)
Definition received (webhook : option bool) (headerKey : string) (a : ApprovalResponse) : ApprovalResponse := {|
  ar_Decision := ar_Decision a; ar_Actor := ar_Actor a; ar_Approver := ar_Approver a;
  ar_Channel := response_channel webhook a;
  ar_IdempotencyKey := if is_empty (ar_IdempotencyKey a) then headerKey else ar_IdempotencyKey a;
  ar_Feedback := ar_Feedback a; ar_Values := ar_Values a |}.

(** What the handler answers: the status code, and the instance and response it
    advances with when this response settled the gate. *)
Record HandlerReply := {
  hr_code : Z;
  hr_advance : option (string * ApprovalResponse);
}.

Definition refuse_reply (code : Z) : HandlerReply := {| hr_code := code; hr_advance := None |}.

(** [handleApprovalResponse] on a well-formed body: it reads the request at
    [db0] and records the response in a later transaction, at [db]. *)
Definition handleApprovalResponse (now : Z) (delegates : list (string * list string)) (webhook : option bool)
    (headerKey id : string) (a : ApprovalResponse) (db0 db : ApprovalTables) : HandlerReply * ApprovalTables :=
  if bool_decide (webhook = Some false) then (refuse_reply 401, db)
  else
    let a := received webhook headerKey a in
    match GetApprovalRequest id db0 with
    | None => (refuse_reply 404, db)
    | Some request =>
        if negb (is_open request) then (refuse_reply 409, db)
        else match validateApprovalResponse delegates request a with
        | Err _ => (refuse_reply 400, db)
        | Ok a =>
            match ResolveApprovalRequest now (aq_ID request) a db with
            | (Err _, db) => (refuse_reply 500, db)
            | (Ok (_, won), db) =>
                ({| hr_code := if won then 202 else 200;
                    hr_advance := if won then Some (aq_WorkflowInstanceID request, a) else None |}, db)
            end
        end
    end.
