(* ===== verification/ApprovalFacts.v ===== *)
(** * Approval gates: invariant, refinement and progress

    The statements of ApprovalStore as a step relation on the two tables, the
    invariant of every reachable pair of tables, and the abstract gate each
    request implements: a set of voters that closes once. *)

From stdpp Require Import base gmap strings list.
From Stdlib Require Import ZArith.
From S2P Require Import Prelude Model Config ApprovalStore.

(** ** The store as a step relation *)

Inductive approval_op :=
  | OCreate (now : Z) (r : ApprovalRequest)
  | OResolve (now : Z) (id : string) (a : ApprovalResponse)
  | OTimeout (now : Z) (id : string)
  | ORemind (now : Z) (id : string)
  | OEscalate (now : Z) (id : string).

(** The tables afterwards, and whether the caller is told it won. *)
Definition run_op (o : approval_op) (db : ApprovalTables) : ApprovalTables * bool :=
  match o with
  | OCreate now r => let '(_, db', _) := CreateApprovalRequest now r db in (db', false)
  | OResolve now id a =>
      match ResolveApprovalRequest now id a db with
      | (Ok (_, won), db') => (db', won)
      | (Err _, db') => (db', false)
      end
  | OTimeout now id => MarkApprovalTimedOut now id db
  | ORemind now id => MarkApprovalReminded now id db
  | OEscalate now id => EscalateApproval now id db
  end.

(** Requests are created by the engine alone, which leaves the status and the
    lap to the store. *)
Definition admissible (o : approval_op) : Prop :=
  match o with
  | OCreate _ r => aq_Status r = "" /\ (aq_Attempt r <= 0)%Z
  | _ => True
  end.

(** A history: the operations with what they answered. *)
Inductive history : ApprovalTables -> list (approval_op * bool) -> Prop :=
  | HEmpty : history no_approvals []
  | HStep db h o : history db h -> admissible o ->
      history (run_op o db).1 (h ++ [(o, (run_op o db).2)]).

(** ** What the rows of a request say *)

Definition tally (id decision : string) (db : ApprovalTables) : nat :=
  length (List.filter (answers id decision) (approval_responses db)).

Definition lap (r : ApprovalRequest) : string * string * Z :=
  (aq_WorkflowInstanceID r, aq_StepID r, aq_Attempt r).
Definition seat (s : ResponseRow) : string * string := (rs_request s, rs_approver s).

(** The status of a request is what its responses add up to. *)
Definition verdict_ok (db : ApprovalTables) (r : ApprovalRequest) : Prop :=
  let yes := Z.of_nat (tally (aq_ID r) ApprovalApproved db) in
  let no := tally (aq_ID r) ApprovalRejected db in
  (is_open r = true /\ no = 0 /\ (yes < aq_RequiredApprovals r)%Z)
  \/ (aq_Status r = ApprovalApproved /\ no = 0 /\ yes = aq_RequiredApprovals r)
  \/ (aq_Status r = ApprovalRejected /\ no = 1 /\ (yes < aq_RequiredApprovals r)%Z)
  \/ (aq_Status r = ApprovalTimedOut /\ no = 0 /\ (yes < aq_RequiredApprovals r)%Z).

(** The laps of a step are numbered without gaps and only the last is open. *)
Record requests_ok (l : list ApprovalRequest) : Prop := {
  ok_ids : NoDup (aq_ID <$> l);
  ok_laps : NoDup (lap <$> l);
  ok_latest : forall r r', r ∈ l -> r' ∈ l ->
    is_open r = true -> (lap r').1 = (lap r).1 -> (aq_Attempt r' <= aq_Attempt r)%Z;
  ok_attempt : forall r k, r ∈ l -> (1 <= k < aq_Attempt r)%Z ->
    exists r', r' ∈ l /\ lap r' = ((lap r).1, k);
}.

Record approvals_ok (db : ApprovalTables) : Prop := {
  ok_requests : requests_ok (approval_requests db);
  ok_keys : NoDup (rs_key <$> approval_responses db);
  ok_seats : NoDup (seat <$> approval_responses db);
  ok_decision : forall s, s ∈ approval_responses db ->
    rs_key s <> "" /\ (rs_decision s = ApprovalApproved \/ rs_decision s = ApprovalRejected)
    /\ exists r, r ∈ approval_requests db /\ aq_ID r = rs_request s;
  ok_rows : forall r, r ∈ approval_requests db ->
    (1 <= aq_RequiredApprovals r)%Z /\ (1 <= aq_Attempt r)%Z /\ verdict_ok db r
    /\ (aq_IdempotencyKey r <> "" -> exists s, s ∈ approval_responses db
          /\ rs_request s = aq_ID r /\ rs_key s = aq_IdempotencyKey r);
}.

(** ** Reading *)

Lemma find_id id (l : list ApprovalRequest) r :
  NoDup (aq_ID <$> l) -> List.find (has_id id) l = Some r <-> r ∈ l /\ aq_ID r = id.
Proof.
  unfold has_id. intros Hnd. split.
  - intros [Hin Hid]%List.find_some. apply list_elem_of_In in Hin.
    by apply bool_decide_eq_true in Hid.
  - intros [Hin Hid]. induction l as [|x l IH]; [by apply elem_of_nil in Hin|].
    simpl in *. apply NoDup_cons in Hnd as [Hx Hnd]. case_bool_decide as Hc.
    + apply elem_of_cons in Hin as [->|Hin]; [done|]. exfalso. apply Hx.
      rewrite Hc, <- Hid. by apply list_elem_of_fmap_2.
    + apply elem_of_cons in Hin as [->|Hin]; [congruence|]. auto.
Qed.

Lemma GetApprovalRequest_Some id db r :
  NoDup (aq_ID <$> approval_requests db) ->
  GetApprovalRequest id db = Some r <-> r ∈ approval_requests db /\ aq_ID r = id.
Proof. apply find_id. Qed.

Lemma same_row db r r' :
  NoDup (aq_ID <$> approval_requests db) -> r ∈ approval_requests db -> r' ∈ approval_requests db ->
  aq_ID r = aq_ID r' -> r = r'.
Proof.
  intros Hnd Hr Hr' Hid. apply (find_id (aq_ID r) _ r) in Hnd as E0. apply (find_id (aq_ID r) _ r') in Hnd as E1.
  destruct E0 as [_ E0], E1 as [_ E1]. rewrite E0 in E1 by done. specialize (E1 (conj Hr' (eq_sym Hid))).
  congruence.
Qed.

Lemma GetApprovalRequest_None id db :
  GetApprovalRequest id db = None <-> forall r, r ∈ approval_requests db -> aq_ID r <> id.
Proof.
  unfold GetApprovalRequest, has_id. rewrite find_None.
  by setoid_rewrite bool_decide_eq_false.
Qed.

Lemma latest_attempt_None l : latest_attempt l = None <-> l = [].
Proof. destruct l as [|r l]; [done|]. simpl. split; [|done]. repeat case_match; done. Qed.

Lemma latest_attempt_Some l r :
  latest_attempt l = Some r -> r ∈ l /\ forall r', r' ∈ l -> (aq_Attempt r' <= aq_Attempt r)%Z.
Proof.
  revert r. induction l as [|x l IH]; intros r; simpl; [done|].
  destruct (latest_attempt l) as [y|] eqn:E.
  - destruct (IH y eq_refl) as [Hy Hm]. case_match; intros [= <-].
    + split; [by right|]. intros r' [->|Hr]%elem_of_cons; [lia|auto].
    + split; [by left|]. intros r' [->|Hr]%elem_of_cons; [lia|]. specialize (Hm _ Hr). lia.
  - intros [= <-]. apply latest_attempt_None in E as ->. split; [by left|].
    intros r' Hr%list_elem_of_singleton. subst. lia.
Qed.

Lemma of_step_true inst step r :
  of_step inst step r = true <-> (lap r).1 = (inst, step).
Proof. unfold of_step, lap. rewrite andb_true_iff, !bool_decide_eq_true. naive_solver. Qed.

(** ** Updates of one row *)

Lemma update_request_column {B} (g : ApprovalRequest -> B) id p f db :
  (forall r, g (f r) = g r) ->
  g <$> approval_requests (update_request id p f db).1 = g <$> approval_requests db.
Proof.
  intros Hg. simpl. induction (approval_requests db) as [|r l IH]; [done|].
  simpl. f_equal; [|exact IH]. by destruct (has_id id r && p r); rewrite ?Hg.
Qed.

Lemma elem_update_request id p f db r :
  r ∈ approval_requests (update_request id p f db).1 <->
  exists r0, r0 ∈ approval_requests db /\ r = (if has_id id r0 && p r0 then f r0 else r0).
Proof.
  simpl. rewrite list_elem_of_In, in_map_iff. setoid_rewrite <- list_elem_of_In. naive_solver.
Qed.

Lemma update_request_hit id p f db :
  (update_request id p f db).2 = true <->
  exists r, r ∈ approval_requests db /\ aq_ID r = id /\ p r = true.
Proof.
  simpl. rewrite existsb_elem. unfold has_id.
  by setoid_rewrite andb_true_iff; setoid_rewrite bool_decide_eq_true.
Qed.

(** An update that leaves the columns of the invariant alone. *)
Lemma update_request_mem id p f db r r' :
  NoDup (aq_ID <$> approval_requests db) -> (forall r, aq_ID (f r) = aq_ID r) ->
  r ∈ approval_requests db -> r' ∈ approval_requests (update_request id p f db).1 -> aq_ID r' = aq_ID r ->
  r' = (if has_id id r && p r then f r else r).
Proof.
  intros Hnd Hf Hr (r0 & Hr0 & ->)%elem_update_request Hid.
  assert (aq_ID r0 = aq_ID r) as H0 by (rewrite <- Hid; destruct (has_id id r0 && p r0); by rewrite ?Hf).
  by rewrite (same_row db r0 r).
Qed.

(** ** The outcomes of a response *)

Lemma tally_insert id d s db :
  tally id d (insert_response s db) = tally id d db + (if answers id d s then 1 else 0).
Proof.
  unfold tally, insert_response. simpl. rewrite filter_snoc, length_app. by destruct (answers id d s).
Qed.

(** The row a settling response writes. *)
Definition settled_by (now : Z) (a : ApprovalResponse) (r : ApprovalRequest) : ApprovalRequest :=
  settle_request (response_status a) (ar_Values a) (ar_Feedback a) (ar_Actor a) (ar_Channel a)
    (ar_IdempotencyKey a) now r.

(** A response is refused, recorded, or recorded and settling. *)
Inductive response_outcome (now : Z) (id : string) (a : ApprovalResponse) (db : ApprovalTables) :
    ApprovalTables * bool -> Prop :=
  | RRefused : (forall r, r ∈ approval_requests db -> aq_ID r = id -> is_open r = true ->
        ar_IdempotencyKey a <> "" -> response_conflict (response_row id a) db = true
          \/ request_key_taken id (ar_IdempotencyKey a) db = true) ->
      response_outcome now id a db (db, false)
  | RRecorded r : r ∈ approval_requests db -> aq_ID r = id -> is_open r = true ->
      response_conflict (response_row id a) db = false -> ar_IdempotencyKey a <> "" ->
      response_status a = ApprovalApproved ->
      (Z.of_nat (tally id ApprovalApproved db) + 1 < aq_RequiredApprovals r)%Z ->
      response_outcome now id a db (insert_response (response_row id a) db, false)
  | RSettled r : r ∈ approval_requests db -> aq_ID r = id -> is_open r = true ->
      response_conflict (response_row id a) db = false -> ar_IdempotencyKey a <> "" ->
      (response_status a = ApprovalApproved ->
       aq_RequiredApprovals r <= Z.of_nat (tally id ApprovalApproved db) + 1)%Z ->
      response_outcome now id a db
        ((update_request id is_open (settled_by now a) (insert_response (response_row id a) db)).1, true).

Lemma response_status_cases a :
  response_status a = ApprovalApproved \/ response_status a = ApprovalRejected.
Proof. unfold response_status. case_match; auto. Qed.

Lemma answers_own id a d :
  answers id d (response_row id a) = bool_decide (response_status a = d).
Proof. unfold answers. simpl. by rewrite bool_decide_true. Qed.

Lemma resolve_outcome now id a db :
  NoDup (aq_ID <$> approval_requests db) ->
  response_outcome now id a db (run_op (OResolve now id a) db).
Proof.
  intros Hnd. simpl. unfold ResolveApprovalRequest.
  destruct (is_empty (ar_IdempotencyKey a)) eqn:Ek.
  { constructor. intros r _ _ _ Hk. by apply is_empty_true in Ek. }
  apply is_empty_false in Ek. destruct (GetApprovalRequest id db) as [r|] eqn:Eg.
  2: { constructor. intros r Hr Hid. by destruct (proj1 (GetApprovalRequest_None id db) Eg r Hr). }
  apply GetApprovalRequest_Some in Eg as [Hr Hid]; [|done].
  assert (forall r', r' ∈ approval_requests db -> aq_ID r' = id -> r' = r) as Hsame
    by (intros r' Hr' Hid'; apply (same_row db); congruence || done).
  destruct (is_open r) eqn:Eo; simpl; [|constructor; intros r' Hr' Hid' Ho; rewrite (Hsame r' Hr' Hid') in Ho; congruence].
  destruct (response_conflict (response_row id a) db) eqn:Ec; [constructor; by left|].
  assert (CountApprovals id (insert_response (response_row id a) db)
    = tally id ApprovalApproved db + (if bool_decide (response_status a = ApprovalApproved) then 1 else 0)) as ->.
  { rewrite <- answers_own with (id := id), <- tally_insert. done. }
  case_bool_decide as Hrej; simpl.
  { destruct (request_key_taken _ _ _ && _) eqn:Et; [apply andb_true_iff in Et as [Et _]; constructor; by right|].
    apply (RSettled _ _ _ _ r); try done. by rewrite Hrej. }
  assert (response_status a = ApprovalApproved) as Happ by (destruct (response_status_cases a); done).
  rewrite bool_decide_true by done. destruct (_ <=? _)%Z eqn:El.
  - apply Z.leb_le in El.
    destruct (request_key_taken _ _ _ && _) eqn:Et; [apply andb_true_iff in Et as [Et _]; constructor; by right|].
    apply (RSettled _ _ _ _ r); try done. lia.
  - apply Z.leb_gt in El. apply (RRecorded _ _ _ _ r); try done. lia.
Qed.

(** ** The invariant *)

Lemma requests_ok_update id p f db :
  requests_ok (approval_requests db) ->
  (forall r, aq_ID (f r) = aq_ID r) -> (forall r, lap (f r) = lap r) ->
  (forall r, p r = true -> is_open (f r) = true -> is_open r = true) ->
  requests_ok (approval_requests (update_request id p f db).1).
Proof.
  intros [Hids Hlaps Hlat Hatt] Hid Hlap Hopen.
  assert (forall r, lap (if has_id id r && p r then f r else r) = lap r) as Hl
    by (intros r; destruct (has_id id r && p r); by rewrite ?Hlap).
  assert (forall r, is_open (if has_id id r && p r then f r else r) = true -> is_open r = true) as Ho.
  { intros r. destruct (has_id id r && p r) eqn:E; [|done]. apply andb_true_iff in E as [_ E]. auto. }
  assert (forall r, aq_Attempt r = (lap r).2) as Ha by done.
  split.
  - by rewrite update_request_column.
  - by rewrite update_request_column.
  - intros r r' (r0 & Hr0 & ->)%elem_update_request (r1 & Hr1 & ->)%elem_update_request Hop.
    rewrite !Ha, !Hl. intros Heq. rewrite <- !Ha. eauto.
  - intros r k (r0 & Hr0 & ->)%elem_update_request. rewrite Ha, Hl. intros Hk.
    destruct (Hatt r0 k Hr0 Hk) as (r' & Hr' & Hl').
    exists (if has_id id r' && p r' then f r' else r'). rewrite !Hl. split; [|done].
    apply elem_update_request. by exists r'.
Qed.

(** The answers to a request that [s] is not about are those of before. *)
Lemma tally_other id d s db :
  rs_request s <> id -> tally id d (insert_response s db) = tally id d db.
Proof.
  intros H. rewrite tally_insert. unfold answers. rewrite bool_decide_false by done. simpl. lia.
Qed.

Lemma no_conflict s db :
  response_conflict s db = false <->
  (rs_key s ∉ (rs_key <$> approval_responses db)) /\ (seat s ∉ (seat <$> approval_responses db)).
Proof.
  unfold response_conflict. rewrite <- not_true_iff_false, existsb_elem.
  setoid_rewrite orb_true_iff. setoid_rewrite andb_true_iff. setoid_rewrite bool_decide_eq_true.
  rewrite !list_elem_of_fmap. unfold seat. split.
  - intros H. split; intros (x & Hx & Hin); apply H; exists x; split; [done|left; done|done|].
    injection Hx as -> ->. by right.
  - intros [Hk Hs] (x & Hin & [Hx|[Hr Ha]]); [apply Hk|apply Hs]; exists x; split; congruence.
Qed.

Lemma NoDup_snoc {A} (l : list A) x : NoDup l -> x ∉ l -> NoDup (l ++ [x]).
Proof.
  intros Hl Hx. apply NoDup_app. split_and!; [done| |apply NoDup_singleton].
  by intros y Hy ->%list_elem_of_singleton.
Qed.

(** An answer to an open request, and what becomes of that request. *)
Lemma approvals_ok_answer id a p f db r :
  approvals_ok db -> r ∈ approval_requests db -> aq_ID r = id -> is_open r = true ->
  response_conflict (response_row id a) db = false -> ar_IdempotencyKey a <> "" ->
  (forall r, aq_ID (f r) = aq_ID r) -> (forall r, lap (f r) = lap r) ->
  (forall r, p r = true -> is_open (f r) = true -> is_open r = true) ->
  let db' := (update_request id p f (insert_response (response_row id a) db)).1 in
  let r' := if p r then f r else r in
  aq_RequiredApprovals r' = aq_RequiredApprovals r -> verdict_ok db' r' ->
  (aq_IdempotencyKey r' = aq_IdempotencyKey r \/ aq_IdempotencyKey r' = ar_IdempotencyKey a) ->
  approvals_ok db'.
Proof.
  intros [Hreq Hkeys Hseats Hdec Hrows] Hr Hid Hopen Hc Hkey Hfid Hflap Hfopen db' r' Hneed Hv Hk'.
  apply no_conflict in Hc as [Hck Hcs]. split.
  - by apply (requests_ok_update id p f (insert_response (response_row id a) db)).
  - simpl. rewrite fmap_app. by apply NoDup_snoc.
  - simpl. rewrite fmap_app. by apply NoDup_snoc.
  - intros s [Hs| ->%list_elem_of_singleton]%elem_of_app.
    + destruct (Hdec s Hs) as (? & ? & r0 & Hr0 & Hrid). split_and!; [done|done|].
      exists (if has_id id r0 && p r0 then f r0 else r0). split; [apply elem_update_request; by exists r0|].
      by destruct (has_id id r0 && p r0); rewrite ?Hfid.
    + split_and!; [done|by apply response_status_cases|].
      exists (if has_id id r && p r then f r else r). split; [apply elem_update_request; by exists r|].
      by destruct (has_id id r && p r); rewrite ?Hfid.
  - intros x Hx. apply elem_update_request in Hx as (r0 & Hr0 & ->). simpl in Hr0.
    destruct (Hrows r0 Hr0) as (Hn & Ha & Hv0 & Hk0).
    assert (forall k, (k <> "" -> exists s, s ∈ approval_responses db /\ rs_request s = aq_ID r0 /\ rs_key s = k)
      -> k <> "" -> exists s, s ∈ approval_responses db' /\ rs_request s = aq_ID r0 /\ rs_key s = k) as Hup.
    { intros k Hs Hne. destruct (Hs Hne) as (s & Hin & ?). exists s. split; [|done].
      apply elem_of_app. by left. }
    destruct (decide (aq_ID r0 = id)) as [Heq|Hne].
    + assert (r0 = r) as -> by (apply (same_row db); [apply Hreq|done|done|congruence]).
      unfold has_id. rewrite bool_decide_true by done. fold r'. simpl.
      change (if p r then f r else r) with r'.
      assert (aq_ID r' = aq_ID r /\ lap r' = lap r) as [Hri Hrl]
        by (unfold r'; destruct (p r); rewrite ?Hfid, ?Hflap; done).
      split_and!; [by rewrite Hneed| |done|].
      * by injection Hrl as _ _ ->.
      * rewrite Hri. destruct Hk' as [->| ->]; [by apply Hup|]. intros _.
        exists (response_row id a). split_and!; [apply elem_of_app; right; apply list_elem_of_here|done|done].
    + unfold has_id. rewrite bool_decide_false by done. simpl. split_and!; [done|done| |by apply Hup].
      assert (forall d, tally (aq_ID r0) d db' = tally (aq_ID r0) d db) as Ht
        by (intros d; apply (tally_other _ _ (response_row id a)); simpl; congruence).
      unfold verdict_ok in *. by rewrite !Ht.
Qed.

Lemma open_verdict db r :
  verdict_ok db r -> is_open r = true ->
  tally (aq_ID r) ApprovalRejected db = 0
  /\ (Z.of_nat (tally (aq_ID r) ApprovalApproved db) < aq_RequiredApprovals r)%Z.
Proof.
  unfold verdict_ok, is_open.
  intros [(_ & ? & ?)|[(-> & _)|[(-> & _)|(-> & _)]]]; [done|by intros..].
Qed.

(** What a response adds to the tallies of its request. *)
Lemma tally_own id a d db :
  tally id d (insert_response (response_row id a) db)
  = tally id d db + (if bool_decide (response_status a = d) then 1 else 0).
Proof. by rewrite tally_insert, answers_own. Qed.

Lemma update_request_none id f db : (update_request id (fun _ => false) f db).1 = db.
Proof.
  destruct db as [l s]. unfold update_request. simpl. f_equal.
  induction l as [|r l IH]; [done|]. simpl. by rewrite andb_false_r, IH.
Qed.

Lemma resolve_ok now id a db db' won :
  approvals_ok db -> response_outcome now id a db (db', won) -> approvals_ok db'.
Proof.
  intros Hok Hout. inversion Hout as [|r Hr Hid Ho Hc Hk Hs Ht|r Hr Hid Ho Hc Hk Ht]; subst; [done|..];
    destruct (ok_rows _ Hok r Hr) as (Hn & Ha & Hv & Hkey);
    destruct (open_verdict _ _ Hv Ho) as [Hno Hyes].
  - rewrite <- (update_request_none (aq_ID r) id (insert_response _ db)).
    apply (approvals_ok_answer _ _ _ _ _ r); try done; [|by left].
    rewrite update_request_none. left. rewrite !tally_own, Hs.
    split_and!; [done|simpl; lia|simpl; lia].
  - apply (approvals_ok_answer _ _ _ _ _ r); try done.
    + by rewrite Ho.
    + rewrite Ho. unfold verdict_ok. simpl.
      change (tally ?i ?d {| approval_requests := _; approval_responses := _ |})
        with (tally i d (insert_response (response_row i a) db)).
      rewrite !tally_own. destruct (response_status_cases a) as [E|E]; rewrite E in *; simpl; right.
      * left. specialize (Ht eq_refl). split_and!; [done|lia|lia].
      * right. left. split_and!; [done|lia|lia].
    + rewrite Ho. by right.
Qed.

(** A response is refused for a conflict only: the UNIQUE key of the requests is
    never in its way. *)
Lemma request_key_free id a db :
  approvals_ok db -> ar_IdempotencyKey a <> "" -> response_conflict (response_row id a) db = false ->
  request_key_taken id (ar_IdempotencyKey a) db = false.
Proof.
  intros Hok Hk [Hc _]%no_conflict. apply not_true_iff_false. unfold request_key_taken.
  rewrite existsb_elem. intros (r & Hr & [_ He]%andb_true_iff). apply bool_decide_eq_true in He.
  destruct (ok_rows _ Hok r Hr) as (_ & _ & _ & Hrow). rewrite He in Hrow.
  destruct (Hrow Hk) as (s & Hs & _ & Hsk). apply Hc, list_elem_of_fmap. by exists s.
Qed.

(** The updates that record no response. *)
Lemma mark_ok id p f db :
  approvals_ok db -> (forall r, aq_ID (f r) = aq_ID r) -> (forall r, lap (f r) = lap r) ->
  (forall r, aq_RequiredApprovals (f r) = aq_RequiredApprovals r) ->
  (forall r, aq_IdempotencyKey (f r) = aq_IdempotencyKey r) ->
  (forall r, p r = true -> is_open r = true /\ (is_open (f r) = true \/ aq_Status (f r) = ApprovalTimedOut)) ->
  approvals_ok (update_request id p f db).1.
Proof.
  intros [Hreq Hkeys Hseats Hdec Hrows] Hid Hlap Hneed Hkey Hp. split; [|done|done|..].
  - apply requests_ok_update; [done|done|done|]. intros r Hpr _. by destruct (Hp r Hpr).
  - intros s Hs. destruct (Hdec s Hs) as (? & ? & r & Hr & Hrid). split_and!; [done|done|].
    exists (if has_id id r && p r then f r else r). split; [apply elem_update_request; by exists r|].
    by destruct (has_id id r && p r); rewrite ?Hid.
  - intros x (r & Hr & ->)%elem_update_request. destruct (Hrows r Hr) as (Hn & Ha & Hv & Hk).
    destruct (has_id id r && p r) eqn:E; [|by split_and!].
    apply andb_true_iff in E as [_ E]. destruct (Hp r E) as [Ho Hf].
    destruct (open_verdict _ _ Hv Ho) as [Hno Hyes].
    rewrite Hneed, Hkey, Hid. assert (aq_Attempt (f r) = aq_Attempt r) as -> by (by injection (Hlap r)).
    split_and!; [done|done| |done]. unfold verdict_ok. rewrite Hid, Hneed.
    destruct Hf as [Hf|Hf]; [by left|]. by do 3 right.
Qed.

Lemma status_in_open r : str_in (aq_Status r) [ApprovalPending; ApprovalEscalated] = is_open r.
Proof.
  apply eq_true_iff_eq. unfold str_in, is_open.
  rewrite orb_true_iff, !bool_decide_eq_true, !elem_of_cons, elem_of_nil. tauto.
Qed.

Lemma timeout_ok now id db : approvals_ok db -> approvals_ok (MarkApprovalTimedOut now id db).1.
Proof.
  intros Hok. apply mark_ok; try done. intros r Hr. rewrite status_in_open in Hr. split; [done|by right].
Qed.

Lemma remind_ok now id db : approvals_ok db -> approvals_ok (MarkApprovalReminded now id db).1.
Proof. intros Hok. apply mark_ok; try done. intros r [Hr _]%andb_true_iff. split; [done|by left]. Qed.

Lemma escalate_ok now id db : approvals_ok db -> approvals_ok (EscalateApproval now id db).1.
Proof.
  intros Hok. apply mark_ok; try done. intros r Hr. unfold is_open. rewrite Hr. split; [done|by left].
Qed.

(** ** Creation *)

Lemma next_attempt_spec inst step db :
  requests_ok (approval_requests db) ->
  (forall r, r ∈ approval_requests db -> (1 <= aq_Attempt r)%Z) ->
  let n := next_attempt inst step db in
  (1 <= n)%Z
  /\ (forall r, r ∈ approval_requests db -> (lap r).1 = (inst, step) -> (aq_Attempt r < n)%Z)
  /\ (forall k, (1 <= k < n)%Z -> exists r, r ∈ approval_requests db /\ lap r = (inst, step, k)).
Proof.
  intros Hok Hpos. unfold next_attempt. cbv zeta.
  destruct (latest_attempt (List.filter (of_step inst step) (approval_requests db))) as [r|] eqn:E.
  - apply latest_attempt_Some in E as [[Hr Hs]%elem_filter_bool Hm]. apply of_step_true in Hs.
    pose proof (Hpos r Hr). split_and!; [lia|..].
    + intros r' Hr' Hs'. specialize (Hm r'). rewrite elem_filter_bool, of_step_true in Hm.
      specialize (Hm (conj Hr' Hs')). lia.
    + intros k Hk. destruct (decide (k = aq_Attempt r)) as [->|Hne].
      * exists r. split; [done|]. by rewrite <- Hs.
      * destruct (ok_attempt _ Hok r k Hr) as (r' & Hr' & Hl); [lia|]. exists r'. by rewrite <- Hs.
  - apply latest_attempt_None in E. split_and!; [lia| |lia]. intros r Hr Hs%of_step_true.
    assert (r ∈ List.filter (of_step inst step) (approval_requests db)) as Hin by (by apply elem_filter_bool).
    rewrite E in Hin. by apply elem_of_nil in Hin.
Qed.

Lemma tally_absent id d db :
  approvals_ok db -> (forall r, r ∈ approval_requests db -> aq_ID r <> id) -> tally id d db = 0.
Proof.
  intros Hok Hid. unfold tally. apply none_filter, forallb_forall. intros s Hs%list_elem_of_In.
  destruct (ok_decision _ Hok s Hs) as (_ & _ & r & Hr & Hrid).
  unfold answers. rewrite bool_decide_false; [done|]. rewrite <- Hrid. by apply Hid.
Qed.

Definition append_request (r : ApprovalRequest) (db : ApprovalTables) : ApprovalTables :=
  {| approval_requests := approval_requests db ++ [r]; approval_responses := approval_responses db |}.

(** A row the store may open: the next lap of a step with no open one, its id
    unused. *)
Record opens (r : ApprovalRequest) (db : ApprovalTables) : Prop := {
  op_status : aq_Status r = ApprovalPending;
  op_need : (1 <= aq_RequiredApprovals r)%Z;
  op_key : aq_IdempotencyKey r = "";
  op_lap : aq_Attempt r = next_attempt (aq_WorkflowInstanceID r) (aq_StepID r) db;
  op_id : forall o, o ∈ approval_requests db -> aq_ID o <> aq_ID r;
  op_closed : forall o, o ∈ approval_requests db -> (lap o).1 = (lap r).1 -> is_open o = false;
}.

Lemma create_outcome now r db :
  admissible (OCreate now r) ->
  (run_op (OCreate now r) db = (db, false))
  \/ exists r', opens r' db /\ run_op (OCreate now r) db = (append_request r' db, false).
Proof.
  intros [Hs Ha]. simpl. unfold CreateApprovalRequest.
  destruct (_ || _); [by left|]. cbn [aq_WorkflowInstanceID aq_StepID request_defaults].
  destruct (latest_attempt _) as [o|] eqn:El; [by left|]. apply latest_attempt_None in El.
  unfold insert_request. destruct (existsb _ _); [by left|].
  destruct (str_in _ _) eqn:Ei; [by left|]. right. eexists. split; [|done].
  split; cbn [aq_Status aq_RequiredApprovals aq_IdempotencyKey aq_Attempt aq_WorkflowInstanceID aq_StepID
              inserted_row number_attempt request_defaults]; try done.
  - by rewrite Hs.
  - destruct (_ <=? 0)%Z eqn:E; [done|]. apply Z.leb_gt in E. lia.
  - by rewrite (proj2 (Z.leb_le _ _) Ha).
  - intros o Ho. unfold str_in in Ei. apply bool_decide_eq_false in Ei. intros Hid. apply Ei.
    apply list_elem_of_fmap. by exists o.
  - intros o Ho Hl. apply not_true_iff_false. intros Hop.
    assert (o ∈ List.filter is_open (List.filter (of_step (aq_WorkflowInstanceID r) (aq_StepID r))
              (approval_requests db))) as Hin by (rewrite !elem_filter_bool, of_step_true; done).
    rewrite El in Hin. by apply elem_of_nil in Hin.
Qed.

Lemma opens_ok r db : approvals_ok db -> opens r db -> approvals_ok (append_request r db).
Proof.
  intros Hok [Hst Hneed Hkey Hlap Hid Hcl].
  destruct (next_attempt_spec (aq_WorkflowInstanceID r) (aq_StepID r) db) as (Hpos & Hlt & Hgap).
  { apply Hok. }
  { intros o Ho. by destruct (ok_rows _ Hok o Ho) as (_ & ? & _). }
  rewrite <- Hlap in *. destruct Hok as [[Hids Hlaps Hlat Hatt] Hkeys Hseats Hdec Hrows].
  assert (approvals_ok db) as Hok by done.
  split; [split|done|done|..]; simpl.
  - rewrite fmap_app. apply NoDup_snoc; [done|]. intros (o & Ho & Hin)%list_elem_of_fmap. by apply (Hid o).
  - rewrite fmap_app. apply NoDup_snoc; [done|]. intros (o & Ho & Hin)%list_elem_of_fmap.
    injection Ho as Hi Hs Hk. specialize (Hlt o Hin). unfold lap in Hlt. simpl in Hlt.
    rewrite Hi, Hs, Hk in Hlt. specialize (Hlt eq_refl). lia.
  - intros x y [Hx| ->%list_elem_of_singleton]%elem_of_app [Hy| ->%list_elem_of_singleton]%elem_of_app Hop Hl;
      [by eauto| |by apply Z.lt_le_incl, Hlt|done].
    rewrite (Hcl x) in Hop by done. done.
  - intros x k [Hx| ->%list_elem_of_singleton]%elem_of_app Hk.
    + destruct (Hatt x k Hx Hk) as (y & Hy & ?). exists y. split; [apply elem_of_app; by left|done].
    + destruct (Hgap k Hk) as (y & Hy & ?). exists y. split; [apply elem_of_app; by left|done].
  - intros s Hs. destruct (Hdec s Hs) as (? & ? & o & Ho & ?). split_and!; [done|done|].
    exists o. split; [apply elem_of_app; by left|done].
  - intros x [Hx| ->%list_elem_of_singleton]%elem_of_app; [by apply Hrows|].
    split_and!; [done|lia| |by rewrite Hkey]. left.
    assert (forall d, tally (aq_ID r) d (append_request r db) = 0) as Ht.
    { intros d. change (tally (aq_ID r) d db = 0). by apply tally_absent. }
    rewrite !Ht. split_and!; [|done|lia]. unfold is_open. by rewrite Hst.
Qed.

(** Every reachable pair of tables satisfies the invariant. *)
Lemma no_approvals_ok : approvals_ok no_approvals.
Proof. split; [split|..]; simpl; first [apply NoDup_nil_2|set_solver]. Qed.

Lemma step_ok o db : admissible o -> approvals_ok db -> approvals_ok (run_op o db).1.
Proof.
  intros Ha Hok. destruct o as [now r|now id a|now id|now id|now id].
  - destruct (create_outcome now r db Ha) as [->|(r' & Hop & ->)]; [done|by apply opens_ok].
  - pose proof (resolve_outcome now id a db (ok_ids _ (ok_requests _ Hok))) as Ho.
    destruct (run_op (OResolve now id a) db) as [db' won]. exact (resolve_ok now id a db db' won Hok Ho).
  - by apply timeout_ok.
  - by apply remind_ok.
  - by apply escalate_ok.
Qed.

Lemma history_ok db h : history db h -> approvals_ok db.
Proof. induction 1; [apply no_approvals_ok|by apply step_ok]. Qed.
