(* ===== verification/Approval.v ===== *)
(** * Approval steps (src/internal/workflow/approval.go)

    The decision an approval step takes on a live item, the re-check the
    dispatcher runs every cycle, and the effect of a response on a parked run.
    Then the engine opening a gate, with the request rows, reminders and escalations. *)

From stdpp Require Import base gmap strings list.
From Stdlib Require Import ZArith.
From S2P Require Import Prelude Model Expr Config Dag ApprovalStore.

(** ** Triggers *)

(** [commentContains]. *)
Definition commentContains (cell : SourceItem) (sub : string) : bool :=
  existsb (fun c => str_contains (to_lower (cm_Body c)) (to_lower sub)) (si_Comments cell).

(** [labelPresent]. *)
Definition labelPresent (cell : SourceItem) (label : string) : bool :=
  existsb (fun l => equal_fold l label) (si_Labels cell).

(** [matchApprovalTrigger]: any populated field. *)
Definition matchApprovalTrigger (t : ApprovalTrigger) (cell : SourceItem) : bool :=
  if negb (is_empty (at_CommentContains t)) && commentContains cell (at_CommentContains t) then true
  else if negb (is_empty (at_LabelAdded t)) && labelPresent cell (at_LabelAdded t) then true
  else if negb (is_empty (at_StateChanged t)) && equal_fold (si_State cell) (at_StateChanged t) then true
  else false.

Definition trigger_matches (t : option ApprovalTrigger) (cell : SourceItem) : bool :=
  match t with
  | Some t => matchApprovalTrigger t cell
  | None => false
  end.

(** [EvaluateApproval]. *)
Definition EvaluateApproval (step : StepConfig) (cell : SourceItem) : ApprovalDecision :=
  match st_Approvers step with
  | _ :: _ => ApprovalWait
  | [] =>
      if trigger_matches (st_ResumeOn step) cell then ApprovalResume
      else if trigger_matches (st_AbortOn step) cell then ApprovalAbort
      else ApprovalWait
  end.

(** ** The re-check *)

(** The loop over the bindings: a poll error skips the binding, the first
    decision wins. *)
Fixpoint first_decision (step : StepConfig) (poll : string -> string -> option SourceItem)
    (bindings : list SourceBinding) : ApprovalDecision :=
  match bindings with
  | [] => ApprovalWait
  | b :: bindings =>
      match poll (sb_SourceID b) (sb_SourceItemID b) with
      | None => first_decision step poll bindings
      | Some item =>
          match EvaluateApproval step item with
          | ApprovalWait => first_decision step poll bindings
          | d => d
          end
      end
  end.

Section recheck.
Context {RT : GoRuntime}.

(** [to > 0 && e.now().Sub(parkedAt) >= to]. *)
Definition timedOut (step : StepConfig) (parkedAt now : Z) : bool :=
  ((0 <? ParsedTimeout step) && (ParsedTimeout step <=? now - parkedAt))%Z.

(** [RecheckApproval] on a run that is still parked. *)
Definition recheckApproval (r : dagRun) (bindings : list SourceBinding) (now : Z)
    (poll : string -> string -> option SourceItem) : ApprovalDecision :=
  let step := byID r (r_waitingStep r) in
  if negb (is_type StepTypeApproval step) then ApprovalWait
  else if timedOut step (r_parkedAt r) now then ApprovalAbort
  else first_decision step poll bindings.
End recheck.

(** ** Responses *)

Definition response_decision (a : ApprovalResponse) : ApprovalDecision :=
  if is_reject (ar_Decision a) then ApprovalAbort else ApprovalResume.

(** What [ResolveApprovalResponse] does to the claimed run before it drives it:
    the response joins the memory, a submitted value overriding the field of
    the same name, and the step passes or fails. The order in which Go ranges
    over the values is that of [map_to_list] here. *)
Definition applyResponse (a : ApprovalResponse) (r : dagRun) : dagRun :=
  let name := match response_decision a with
              | ApprovalAbort => "abort"
              | _ => "resume"
              end in
  let ms := {| ms_StepID := r_waitingStep r;
               ms_WriteFields := ["approval_decision"; "approval_feedback"] ++ (map_to_list (ar_Values a)).*1;
               ms_Structured := ar_Values a ∪ <["approval_decision" := JStr name]>
                                  {["approval_feedback" := JStr (ar_Feedback a)]};
               ms_Summary := ar_Feedback a |} in
  resolveApproval (response_decision a) (set_contrib (<[r_waitingStep r := ms]> (r_contrib r)) r).

(** ** Properties *)

(** What a trigger means. *)
Definition triggered (t : ApprovalTrigger) (cell : SourceItem) : Prop :=
  (at_CommentContains t <> "" /\ exists c, c ∈ si_Comments cell /\
     str_contains (to_lower (cm_Body c)) (to_lower (at_CommentContains t)) = true)
  \/ (at_LabelAdded t <> "" /\ exists l, l ∈ si_Labels cell /\ to_lower l = to_lower (at_LabelAdded t))
  \/ (at_StateChanged t <> "" /\ to_lower (si_State cell) = to_lower (at_StateChanged t)).

Lemma matchApprovalTrigger_spec t cell : matchApprovalTrigger t cell = true <-> triggered t cell.
Proof.
  assert (matchApprovalTrigger t cell =
    (negb (is_empty (at_CommentContains t)) && commentContains cell (at_CommentContains t))
    || (negb (is_empty (at_LabelAdded t)) && labelPresent cell (at_LabelAdded t))
    || (negb (is_empty (at_StateChanged t)) && equal_fold (si_State cell) (at_StateChanged t))) as ->
    by (unfold matchApprovalTrigger; repeat case_match; done).
  unfold triggered, commentContains, labelPresent, equal_fold.
  rewrite !orb_true_iff, !andb_true_iff, !negb_true_iff, !is_empty_false, !existsb_elem.
  setoid_rewrite bool_decide_eq_true. tauto.
Qed.

Definition triggers (t : option ApprovalTrigger) (cell : SourceItem) : Prop :=
  exists t', t = Some t' /\ triggered t' cell.

Lemma trigger_matches_spec t cell : trigger_matches t cell = true <-> triggers t cell.
Proof.
  unfold triggers. destruct t as [t|]; simpl; [|naive_solver].
  rewrite matchApprovalTrigger_spec. naive_solver.
Qed.

Lemma EvaluateApproval_decision step cell :
  match EvaluateApproval step cell with
  | ApprovalResume => st_Approvers step = [] /\ triggers (st_ResumeOn step) cell
  | ApprovalAbort => st_Approvers step = [] /\ ~ triggers (st_ResumeOn step) cell
                     /\ triggers (st_AbortOn step) cell
  | ApprovalWait => st_Approvers step <> []
                    \/ (~ triggers (st_ResumeOn step) cell /\ ~ triggers (st_AbortOn step) cell)
  end.
Proof.
  pose proof (trigger_matches_spec (st_ResumeOn step) cell) as Hr.
  pose proof (trigger_matches_spec (st_AbortOn step) cell) as Ha.
  unfold EvaluateApproval. destruct (st_Approvers step) as [|a l]; [|by left].
  destruct (trigger_matches (st_ResumeOn step) cell); [naive_solver|].
  destruct (trigger_matches (st_AbortOn step) cell); naive_solver.
Qed.

Lemma empty_trigger t cell : ApprovalTrigger_IsEmpty t = true -> ~ triggered t cell.
Proof.
  unfold ApprovalTrigger_IsEmpty, triggered. rewrite !andb_true_iff, !is_empty_true. naive_solver.
Qed.

(** [d] is what polling [b] says. *)
Definition says (step : StepConfig) (poll : string -> string -> option SourceItem) (b : SourceBinding)
    (d : ApprovalDecision) : Prop :=
  exists item, poll (sb_SourceID b) (sb_SourceItemID b) = Some item /\ EvaluateApproval step item = d.

(** The first binding that decides. *)
Lemma first_decision_spec step poll bindings d :
  d <> ApprovalWait ->
  first_decision step poll bindings = d <->
  exists before b after, bindings = before ++ b :: after /\ says step poll b d
    /\ forall b' d', b' ∈ before -> says step poll b' d' -> d' = ApprovalWait.
Proof.
  intros Hd. induction bindings as [|b bs IH]; simpl.
  { split; [congruence|]. by intros ([] & ? & ? & ? & _). }
  assert ((forall d', says step poll b d' -> d' = ApprovalWait) ->
    (exists before c after, bs = before ++ c :: after /\ says step poll c d
       /\ forall b' d', b' ∈ before -> says step poll b' d' -> d' = ApprovalWait)
    <-> exists before c after, b :: bs = before ++ c :: after /\ says step poll c d
       /\ forall b' d', b' ∈ before -> says step poll b' d' -> d' = ApprovalWait) as Hskip.
  { intros Hb. split.
    - intros (before & c & after & -> & Hc & Hbef). exists (b :: before), c, after.
      split_and!; [done|done|]. intros b' d' [->|Hin]%elem_of_cons; eauto.
    - intros ([|b0 before] & c & after & [= -> Heq] & Hc & Hbef).
      + by apply Hb in Hc.
      + exists before, c, after. split_and!; [done|done|]. intros b' d' Hin.
        apply Hbef. by apply list_elem_of_further. }
  destruct (poll (sb_SourceID b) (sb_SourceItemID b)) as [item|] eqn:Ep.
  2: { rewrite IH. apply Hskip. intros d' (item & Hi & _). congruence. }
  destruct (EvaluateApproval step item) eqn:Ee.
  1: { rewrite IH. apply Hskip. intros d' (item' & Hi & <-). congruence. }
  all: split.
  1,3: intros <-; exists [], b, bs; split_and!; [done|by exists item|by intros ? ? H%elem_of_nil].
  all: intros ([|b0 before] & c & after & [= -> Heq] & Hc & Hbef);
    [destruct Hc as (item' & Hi & <-); congruence|];
    exfalso; assert (says step poll b0 (EvaluateApproval step item)) as Hs by (by exists item);
    apply Hbef in Hs; [congruence|apply list_elem_of_here].
Qed.

(** An approval resumes only on its [resume_on] and aborts only on its
    [abort_on] when [resume_on] does not match, fields alternatives of each
    other and compared without case; a step with named approvers is never
    decided by the source; and a re-check decides for the source exactly when
    the timeout has not struck and some binding, the ones before it silent,
    decides. *)
Theorem approval_decision_sound `{GoRuntime} (r : dagRun) (bindings : list SourceBinding) (now : Z)
    (poll : string -> string -> option SourceItem) :
  let step := byID r (r_waitingStep r) in
  (forall cell,
     (EvaluateApproval step cell = ApprovalResume <->
        st_Approvers step = [] /\ triggers (st_ResumeOn step) cell)
     /\ (EvaluateApproval step cell = ApprovalAbort <->
        st_Approvers step = [] /\ ~ triggers (st_ResumeOn step) cell /\ triggers (st_AbortOn step) cell))
  /\ (is_type StepTypeApproval step = true -> timedOut step (r_parkedAt r) now = false ->
      forall d, d <> ApprovalWait -> recheckApproval r bindings now poll = d <->
        exists before b after, bindings = before ++ b :: after /\ says step poll b d
          /\ forall b' d', b' ∈ before -> says step poll b' d' -> d' = ApprovalWait)
  /\ (is_type StepTypeApproval step = true -> timedOut step (r_parkedAt r) now = true ->
        recheckApproval r bindings now poll = ApprovalAbort).
Proof.
  cbv zeta. split_and!.
  - intros cell. pose proof (EvaluateApproval_decision (byID r (r_waitingStep r)) cell) as Hd.
    destruct (EvaluateApproval _ _); naive_solver.
  - intros Ht Hto d Hd. unfold recheckApproval. rewrite Ht, Hto. by apply first_decision_spec.
  - intros Ht Hto. unfold recheckApproval. by rewrite Ht, Hto.
Qed.

(** A gate only an operator can answer is never resumed by a source item. It can
    still be aborted by one: [IsOperatorGate] does not look at [abort_on], so
    [EvaluateApproval] does not return [ApprovalWait] for such a step for
    ever. *)
Theorem operator_gate_decision (step : StepConfig) (cell : SourceItem) :
  IsOperatorGate step = true ->
  EvaluateApproval step cell <> ApprovalResume
  /\ (EvaluateApproval step cell = ApprovalAbort <-> triggers (st_AbortOn step) cell).
Proof.
  unfold IsOperatorGate. rewrite !andb_true_iff. intros [[_ Ha] Hr].
  assert (st_Approvers step = []) as Ha' by (by destruct (st_Approvers step)).
  assert (~ triggers (st_ResumeOn step) cell) as Hn.
  { intros (t & Ht & Hm). rewrite Ht in Hr. by eapply empty_trigger. }
  pose proof (EvaluateApproval_decision step cell) as Hd.
  destruct (EvaluateApproval step cell); naive_solver.
Qed.

(** ** Witness *)

Definition operator_gate : StepConfig :=
  ir_step "gate" StepTypeApproval [] [] "" "" "" "" None "" None "" None None false [] "" None
         (Some {| at_CommentContains := ""; at_LabelAdded := "rejected"; at_StateChanged := "" |}) "" []
         None "" "" 0 0 false None [] "".

Definition rejected_item : SourceItem := {|
  si_ID := "1"; si_SourceID := "gh"; si_Number := ""; si_Title := ""; si_Description := "";
  si_Labels := ["Rejected"]; si_Type := ""; si_Priority := ""; si_State := ""; si_URL := "";
  si_Comments := [] |}.

Lemma operator_gate_decision_witness :
  IsOperatorGate operator_gate = true /\ EvaluateApproval operator_gate rejected_item = ApprovalAbort.
Proof.
  split; [vm_compute; reflexivity|].
  apply (proj2 (operator_gate_decision operator_gate rejected_item eq_refl)).
  eexists. split; [reflexivity|]. right. left. split; [discriminate|].
  exists "Rejected". split; [apply list_elem_of_here|reflexivity].
Defined.

(** ** Approval gates as the engine and the dispatcher drive them
      (src/internal/workflow/approval.go and dag.go, src/internal/daemon/workflow.go)

    What the approval code of the engine reads and writes in the tables of
    ApprovalStore: the request of a park, reminders, escalations and timeouts of
    a re-check, the response of a source trigger, and what the dispatcher does
    with a parked instance in a cycle. The run itself is the subject of Approval
    and Park. *)

Section engine.
Context {RT : GoRuntime}.

(** The request [enterApproval] builds for instance [inst] of task [task]. *)
Definition approval_request (inst task wf : string) (now : Z) (step : StepConfig) : ApprovalRequest := {|
  aq_ID := inst +:+ ":" +:+ st_ID step; aq_WorkflowInstanceID := inst; aq_TaskID := task;
  aq_WorkflowID := wf; aq_StepID := st_ID step; aq_Message := st_Message step;
  aq_Approvers := st_Approvers step; aq_Delegates := st_Delegates step;
  aq_RequiredApprovals := st_RequiredApprovals step; aq_Fields := st_ApprovalFields step; aq_Status := "";
  aq_Values := ∅; aq_Feedback := ""; aq_RespondedBy := ""; aq_ResponseChannel := ""; aq_IdempotencyKey := "";
  aq_Attempt := 0; aq_CreatedAt := now;
  aq_ExpiresAt := if (0 <? ParsedTimeout step)%Z then Some (now + ParsedTimeout step)%Z else None;
  aq_RemindedAt := None; aq_EscalatedAt := None; aq_RespondedAt := None |}.

(** [enterApproval] on the tables, the clock of the store at [storeNow]: the
    request the providers are told about. *)
Definition open_gate (inst task wf : string) (now storeNow : Z) (step : StepConfig) (db : ApprovalTables)
    : ApprovalRequest * ApprovalTables :=
  (CreateApprovalRequest storeNow (approval_request inst task wf now step) db).1.

(** ** The re-check *)

(** [raw] is a duration and has passed since the park. *)
Definition elapsed (raw : string) (parkedAt now : Z) : bool :=
  negb (is_empty raw) && match parse_duration raw with
                         | Some after => (after <=? now - parkedAt)%Z
                         | None => false
                         end.

(** A conditional UPDATE of the newest request of the instance. *)
Definition mark_newest (op : string -> ApprovalTables -> ApprovalTables * bool) (inst : string)
    (db : ApprovalTables) : ApprovalTables :=
  match GetApprovalByInstance inst db with
  | Some req => (op (aq_ID req) db).1
  | None => db
  end.

(** [RecheckApproval] on an instance that is still parked: the decision and the
    tables. *)
Definition RecheckApproval (inst : string) (r : dagRun) (bindings : list SourceBinding) (now : Z)
    (poll : string -> string -> option SourceItem) (db : ApprovalTables) : ApprovalDecision * ApprovalTables :=
  let step := byID r (r_waitingStep r) in
  if negb (is_type StepTypeApproval step) then (ApprovalWait, db)
  else
    let db := if elapsed (st_RemindAfter step) (r_parkedAt r) now
              then mark_newest (MarkApprovalReminded now) inst db else db in
    let db := if elapsed (st_EscalateAfter step) (r_parkedAt r) now
              then mark_newest (EscalateApproval now) inst db else db in
    if timedOut step (r_parkedAt r) now
    then (ApprovalAbort, mark_newest (MarkApprovalTimedOut now) inst db)
    else (first_decision step poll bindings, db).

(** ** Resolving from the source *)

(** The response a source trigger stands for. *)
Definition source_response (inst : string) (d : ApprovalDecision) : ApprovalResponse :=
  let name := match d with ApprovalAbort => "reject" | _ => "approve" end in {|
  ar_Decision := name; ar_Actor := "source-trigger"; ar_Approver := ""; ar_Channel := "source";
  ar_IdempotencyKey := "source:" +:+ inst +:+ ":" +:+ name; ar_Feedback := ""; ar_Values := ∅ |}.

(** A response with what a settled request says. *)
Definition stored_response (req : ApprovalRequest) (a : ApprovalResponse) : ApprovalResponse := {|
  ar_Decision := if bool_decide (aq_Status req = ApprovalApproved) then "approve" else "reject";
  ar_Actor := aq_RespondedBy req; ar_Approver := ar_Approver a; ar_Channel := aq_ResponseChannel req;
  ar_IdempotencyKey := ar_IdempotencyKey a; ar_Feedback := aq_Feedback req; ar_Values := aq_Values req |}.

(** [ResolveApproval] up to the call of [ResolveApprovalResponse]: the response
    that call gets, or [None] when the gate is still open and nothing is driven. *)
Definition ResolveApproval (now : Z) (inst : string) (d : ApprovalDecision) (db : ApprovalTables)
    : result string (option ApprovalResponse) * ApprovalTables :=
  let response := source_response inst d in
  match GetApprovalByInstance inst db with
  | None => (Ok (Some response), db)
  | Some req =>
      match ResolveApprovalRequest now (aq_ID req) response db with
      | (Err e, db) => (Err e, db)
      | (Ok (Some stored, false), db) =>
          (Ok (if is_open stored then None else Some (stored_response stored response)), db)
      | (Ok _, db) => (Ok (Some response), db)
      end
  end.

(** ** The dispatcher's cycle *)

(** The response the dispatcher rebuilds from an answered request. *)
Definition answered_response (req : ApprovalRequest) : ApprovalResponse := {|
  ar_Decision := aq_Status req; ar_Actor := aq_RespondedBy req; ar_Approver := "";
  ar_Channel := aq_ResponseChannel req; ar_IdempotencyKey := aq_IdempotencyKey req;
  ar_Feedback := aq_Feedback req; ar_Values := aq_Values req |}.

(** The goroutine of [checkApprovals] for one parked instance: what it hands to
    [ResolveApprovalResponse], if anything. [now] is the clock of the re-check,
    [later] that of the advance, for which the instance may have queued. *)
Definition checkApproval (inst : string) (r : dagRun) (bindings : list SourceBinding) (now later : Z)
    (poll : string -> string -> option SourceItem) (db : ApprovalTables)
    : result string (option ApprovalResponse) * ApprovalTables :=
  let answered := match GetApprovalByInstance inst db with
                  | Some req => if bool_decide (aq_Status req = ApprovalApproved)
                                   || bool_decide (aq_Status req = ApprovalRejected) then Some req else None
                  | None => None
                  end in
  match answered with
  | Some req => (Ok (Some (answered_response req)), db)
  | None =>
      match RecheckApproval inst r bindings now poll db with
      | (ApprovalWait, db) => (Ok None, db)
      | (d, db) => ResolveApproval later inst d db
      end
  end.
End engine.
