(* ===== verification/ApprovalProps.v ===== *)
(** * Approval gates: what they promise

    The abstract gate every request implements, the answers a caller gets, who
    may answer, and that a gate can always be answered; then the gates of the
    engine. Witnesses and the runs behind the findings close the file. *)

From stdpp Require Import base gmap strings list.
From Stdlib Require Import ZArith.
From S2P Require Import Prelude Model Expr Config Dag ApprovalStore ApprovalFacts Approval.

(** ** The abstract gate *)

(** A gate collects votes until it closes. *)
Inductive Gate :=
  | GOpen (need : Z) (voters : gset string)
  | GClosed (verdict : string).

Inductive gate_step : Gate -> Gate -> Prop :=
  | GVote need V a : a ∉ V -> (Z.of_nat (size V) + 1 < need)%Z ->
      gate_step (GOpen need V) (GOpen need ({[a]} ∪ V))
  | GPass need V a : a ∉ V -> (Z.of_nat (size V) + 1 = need)%Z ->
      gate_step (GOpen need V) (GClosed ApprovalApproved)
  | GReject need V a : a ∉ V -> gate_step (GOpen need V) (GClosed ApprovalRejected)
  | GTimeout need V : gate_step (GOpen need V) (GClosed ApprovalTimedOut).

(** Who has answered a request. *)
Definition voters (id : string) (db : ApprovalTables) : gset string :=
  list_to_set (rs_approver <$> List.filter (fun s => bool_decide (rs_request s = id)) (approval_responses db)).

(** The gate a row implements. *)
Definition gate_of (db : ApprovalTables) (r : ApprovalRequest) : Gate :=
  if is_open r then GOpen (aq_RequiredApprovals r) (voters (aq_ID r) db) else GClosed (aq_Status r).

(** The operation can close the gate of [id]. *)
Definition can_close (id : string) (o : approval_op) : bool :=
  match o with
  | OResolve _ i _ | OTimeout _ i => bool_decide (i = id)
  | _ => false
  end.

(** ** Voters are approvals *)

Lemma voters_insert id s db :
  voters id (insert_response s db) =
  (if bool_decide (rs_request s = id) then {[rs_approver s]} else ∅) ∪ voters id db.
Proof.
  unfold voters. simpl. rewrite filter_snoc, fmap_app, list_to_set_app_L.
  destruct (bool_decide (rs_request s = id)); simpl; set_solver.
Qed.

Lemma elem_of_voters id db x : x ∈ voters id db <-> (id, x) ∈ (seat <$> approval_responses db).
Proof.
  unfold voters, seat. rewrite elem_of_list_to_set, !list_elem_of_fmap.
  setoid_rewrite elem_filter_bool. setoid_rewrite bool_decide_eq_true. naive_solver.
Qed.

Lemma seats_approvers id l :
  NoDup (seat <$> l) -> NoDup (rs_approver <$> List.filter (fun s => bool_decide (rs_request s = id)) l).
Proof.
  induction l as [|s l IH]; [intros _; constructor|]. rewrite fmap_cons, NoDup_cons. intros [Hs Hl].
  cbn [List.filter]. case_bool_decide as Hid; [|by apply IH]. rewrite fmap_cons. apply NoDup_cons.
  split; [|by apply IH]. intros (s' & Ha & [Hin Hid']%elem_filter_bool)%list_elem_of_fmap.
  apply bool_decide_eq_true in Hid'. apply Hs, list_elem_of_fmap. exists s'. split; [|done].
  unfold seat. congruence.
Qed.

Lemma size_voters id db :
  approvals_ok db -> tally id ApprovalRejected db = 0 ->
  size (voters id db) = tally id ApprovalApproved db.
Proof.
  intros Hok Hno. unfold voters. rewrite size_list_to_set, length_fmap by apply seats_approvers, Hok.
  unfold tally in *. f_equal. pose proof (ok_decision _ Hok) as Hdec.
  induction (approval_responses db) as [|s l IH]; [done|].
  assert (forall s', s' ∈ l -> s' ∈ s :: l) as Hin by (intros s' Hs'; by right).
  destruct (Hdec s (list_elem_of_here _ _)) as (_ & Hd & _). revert Hno. cbn [List.filter].
  destruct (answers id ApprovalRejected s) eqn:Er; [done|]. intros Hno. rewrite IH by auto.
  assert (answers id ApprovalApproved s = bool_decide (rs_request s = id)) as ->; [|done].
  unfold answers in *. case_bool_decide; [|done]. by destruct Hd as [Hd|Hd]; rewrite Hd in *.
Qed.

(** ** Steps of the store are steps of the gates *)

(** What an operation does to the gate of a row it does not touch, or marks. *)
Lemma gate_of_mark id p f db r :
  (forall r, aq_ID (f r) = aq_ID r) -> (forall r, aq_RequiredApprovals (f r) = aq_RequiredApprovals r) ->
  (forall r, p r = true -> is_open r = true /\ is_open (f r) = true) ->
  gate_of (update_request id p f db).1 (if has_id id r && p r then f r else r) = gate_of db r.
Proof.
  intros Hid Hn Hp. unfold gate_of. change (voters ?i (update_request id p f db).1) with (voters i db).
  destruct (has_id id r && p r) eqn:E; [|done]. apply andb_true_iff in E as [_ E].
  destruct (Hp r E) as [-> ->]. by rewrite Hid, Hn.
Qed.

Lemma pending_is_open r : aq_Status r = ApprovalPending -> is_open r = true.
Proof. unfold is_open. by intros ->. Qed.

(** The row of a request after an operation. *)
Definition row_after (o : approval_op) (db : ApprovalTables) (r r' : ApprovalRequest) : Prop :=
  r' ∈ approval_requests (run_op o db).1 /\ aq_ID r' = aq_ID r.

(** What the store promises about one row: it stays or takes a step of its
    gate, its gate closes exactly when the caller is told so, and a closed row
    is never written again. *)
Definition row_step (o : approval_op) (db : ApprovalTables) (r r' : ApprovalRequest) : Prop :=
  row_after o db r r'
  /\ (gate_of (run_op o db).1 r' = gate_of db r \/ gate_step (gate_of db r) (gate_of (run_op o db).1 r'))
  /\ ((run_op o db).2 = true /\ can_close (aq_ID r) o = true <-> is_open r = true /\ is_open r' = false)
  /\ (is_open r = false -> r' = r).

(** An operation that leaves the row and its voters alone. *)
Lemma row_step_same o db r :
  r ∈ approval_requests (run_op o db).1 -> voters (aq_ID r) (run_op o db).1 = voters (aq_ID r) db ->
  (run_op o db).2 = false \/ can_close (aq_ID r) o = false -> row_step o db r r.
Proof.
  intros Hr Hv Hw. split; [by split|]. unfold gate_of. rewrite Hv. split; [by left|]. split; [|done].
  split; [|naive_solver congruence]. intros [H1 H2]. destruct Hw; congruence.
Qed.

Lemma mark_row_step o id p f db r :
  (run_op o db).1 = (update_request id p f db).1 -> (forall i, can_close i o = false) ->
  (forall r, aq_ID (f r) = aq_ID r) -> (forall r, aq_RequiredApprovals (f r) = aq_RequiredApprovals r) ->
  (forall r, p r = true -> is_open r = true /\ is_open (f r) = true) ->
  r ∈ approval_requests db -> row_step o db r (if has_id id r && p r then f r else r).
Proof.
  intros Ho Hc Hid Hn Hp Hr. split; [|split; [|split]].
  - unfold row_after. rewrite Ho. split; [apply elem_update_request; by exists r|].
    by destruct (has_id id r && p r); rewrite ?Hid.
  - left. rewrite Ho. by apply gate_of_mark.
  - rewrite Hc. split; [by intros [_ H]|]. intros [H1 H2]. destruct (has_id id r && p r) eqn:E; [|congruence].
    apply andb_true_iff in E as [_ E]. destruct (Hp r E). congruence.
  - intros H. destruct (has_id id r && p r) eqn:E; [|done]. apply andb_true_iff in E as [_ E].
    destruct (Hp r E). congruence.
Qed.

(** An operation that closes the gate of [id] if it is open. *)
Lemma close_row_step o id f db db0 r :
  NoDup (aq_ID <$> approval_requests db) -> approval_requests db0 = approval_requests db ->
  (run_op o db).1 = (update_request id is_open f db0).1 ->
  ((run_op o db).2 = true <-> exists r, r ∈ approval_requests db /\ aq_ID r = id /\ is_open r = true) ->
  (forall i, can_close i o = bool_decide (id = i)) ->
  (forall r, aq_ID (f r) = aq_ID r) -> (forall r, is_open (f r) = false) ->
  (forall i, i <> id -> voters i db0 = voters i db) ->
  (r ∈ approval_requests db -> aq_ID r = id -> is_open r = true ->
     gate_step (gate_of db r) (GClosed (aq_Status (f r)))) ->
  r ∈ approval_requests db -> row_step o db r (if has_id id r && is_open r then f r else r).
Proof.
  intros Hnd H0 Ho Hw Hc Hid Hcl Hv Hg Hr. unfold row_step, row_after, gate_of. rewrite Ho, Hw, Hc.
  change (voters ?i (update_request id is_open f db0).1) with (voters i db0).
  assert (has_id id r = bool_decide (id = aq_ID r)) as Hi by (unfold has_id; by apply bool_decide_ext).
  split_and!.
  - apply elem_update_request. exists r. by rewrite H0.
  - by destruct (has_id id r && is_open r); rewrite ?Hid.
  - rewrite Hi. case_bool_decide as Heq; simpl; [|rewrite Hv by done; by left].
    destruct (is_open r) eqn:Eo; [|by rewrite Eo; left]. rewrite Hcl. right.
    specialize (Hg Hr (eq_sym Heq) eq_refl). unfold gate_of in Hg. by rewrite Eo in Hg.
  - rewrite Hi, bool_decide_eq_true. split.
    + intros [(r0 & Hr0 & Hid0 & Hop) Hid1]. assert (r0 = r) as -> by (apply (same_row db); congruence || done).
      rewrite bool_decide_true, Hop by done. simpl. by rewrite Hcl.
    + intros [Hop Hcl']. case_bool_decide as Heq; simpl in Hcl'; [|congruence].
      split; [by exists r|done].
  - intros ->. by rewrite andb_false_r.
Qed.

Definition timed_out_by (now : Z) (r : ApprovalRequest) : ApprovalRequest :=
  settle_request ApprovalTimedOut (aq_Values r) (aq_Feedback r) (aq_RespondedBy r) (aq_ResponseChannel r)
    (aq_IdempotencyKey r) now r.

Lemma timeout_row_step now id db r :
  NoDup (aq_ID <$> approval_requests db) -> r ∈ approval_requests db ->
  exists r', row_step (OTimeout now id) db r r'.
Proof.
  intros Hnd Hr. exists (if has_id id r && is_open r then timed_out_by now r else r).
  apply (close_row_step _ id _ db db); try done.
  - simpl. unfold MarkApprovalTimedOut, updateApprovalStatus, update_request. simpl. f_equal.
    apply map_ext. intros x. by rewrite status_in_open.
  - unfold run_op, MarkApprovalTimedOut, updateApprovalStatus. rewrite update_request_hit.
    by setoid_rewrite status_in_open.
  - intros _ _ Hop. unfold gate_of. rewrite Hop. constructor.
Qed.

(** A response without conflict is a vote that is not in yet. *)
Lemma new_voter id a db r :
  approvals_ok db -> r ∈ approval_requests db -> aq_ID r = id -> is_open r = true ->
  response_conflict (response_row id a) db = false ->
  (response_approver a ∉ voters id db) /\ size (voters id db) = tally id ApprovalApproved db
  /\ (Z.of_nat (tally id ApprovalApproved db) < aq_RequiredApprovals r)%Z.
Proof.
  intros Hok Hr Hid Ho [_ Hc]%no_conflict. subst id. destruct (ok_rows _ Hok r Hr) as (_ & _ & Hv & _).
  destruct (open_verdict _ _ Hv Ho) as [Hno Hyes]. split_and!; [|by apply size_voters|done].
  by rewrite elem_of_voters.
Qed.

Lemma resolve_row_step now id a db r :
  approvals_ok db -> r ∈ approval_requests db -> exists r', row_step (OResolve now id a) db r r'.
Proof.
  intros Hok Hr. pose proof (ok_ids _ (ok_requests _ Hok)) as Hnd.
  pose proof (resolve_outcome now id a db Hnd) as Hout.
  remember (run_op (OResolve now id a) db) as res eqn:Heq.
  destruct Hout as [|r0 Hr0 Hid Ho Hc Hk Hs Ht|r0 Hr0 Hid Ho Hc Hk Ht].
  - exists r. apply row_step_same; rewrite <- Heq; try done. by left.
  - destruct (new_voter id a db r0) as (Hnew & Hsz & _); try done.
    exists r. unfold row_step, row_after, gate_of. rewrite <- Heq. cbn [fst snd]. split_and!; try done.
    + destruct (is_open r) eqn:Eo; [|by left]. rewrite voters_insert. cbn [response_row rs_request rs_approver].
      case_bool_decide as Hi; [right|left; by rewrite union_empty_l_L]. rewrite <- Hi in *.
      constructor; [done|]. assert (r = r0) as ->; [|lia].
      apply (same_row db); congruence || done.
    + split; [by intros [? _]|]. intros [? ?]. congruence.
  - exists (if has_id id r && is_open r then settled_by now a r else r).
    apply (close_row_step _ id _ db (insert_response (response_row id a) db)); try done.
    + by rewrite <- Heq.
    + rewrite <- Heq. split; [|done]. intros _. by exists r0.
    + intros x. unfold is_open. simpl. by destruct (response_status_cases a) as [->| ->].
    + intros i Hi. rewrite voters_insert. cbn. rewrite bool_decide_false by congruence. by rewrite union_empty_l_L.
    + intros _ Hir Hor. assert (r = r0) as -> by (apply (same_row db); congruence || done).
      destruct (new_voter id a db r0) as (Hnew & Hsz & Hlt); try done.
      unfold gate_of. rewrite Hor. simpl. rewrite Hid. destruct (response_status_cases a) as [E|E]; rewrite E.
      * apply (GPass _ _ (response_approver a)); [done|]. specialize (Ht E). lia.
      * by apply (GReject _ _ (response_approver a)).
Qed.

Lemma created_row_step now r0 db r :
  admissible (OCreate now r0) -> r ∈ approval_requests db -> exists r', row_step (OCreate now r0) db r r'.
Proof.
  intros Ha Hr. exists r. destruct (create_outcome now r0 db Ha) as [Heq|(r' & _ & Heq)];
    apply row_step_same; rewrite Heq; try done; try by left. apply elem_of_app. by left.
Qed.

Lemma every_row_step o db r :
  approvals_ok db -> admissible o -> r ∈ approval_requests db -> exists r', row_step o db r r'.
Proof.
  intros Hok Ha Hr. destruct o as [now r0|now id a|now id|now id|now id].
  - by apply created_row_step.
  - by apply resolve_row_step.
  - apply timeout_row_step; [apply Hok|done].
  - eexists. eapply (mark_row_step _ id _ (fun r => mark_row (aq_Status r) (Some now) (aq_EscalatedAt r) r));
      try done. by intros x [? _]%andb_true_iff.
  - eexists. eapply (mark_row_step _ id _ (fun r => mark_row ApprovalEscalated (aq_RemindedAt r) (Some now) r));
      try done. intros x Hx%bool_decide_eq_true. split; [by apply pending_is_open|done].
Qed.

(** Requests appear open, with no vote. *)
Lemma new_row_gate o db r' :
  approvals_ok db -> admissible o -> r' ∈ approval_requests (run_op o db).1 ->
  (forall r, r ∈ approval_requests db -> aq_ID r <> aq_ID r') ->
  (1 <= aq_RequiredApprovals r')%Z /\ gate_of (run_op o db).1 r' = GOpen (aq_RequiredApprovals r') ∅.
Proof.
  intros Hok Ha Hr' Hnew. destruct o as [now r0|now id a|now id|now id|now id].
  - destruct (create_outcome now r0 db Ha) as [Heq|(x & Hop & Heq)]; rewrite Heq in *; simpl in Hr'.
    { by destruct (Hnew r' Hr'). }
    apply elem_of_app in Hr' as [Hr'|Hr'%list_elem_of_singleton]; [by destruct (Hnew r' Hr')|]. subst x.
    split; [by apply Hop|]. unfold gate_of, is_open. rewrite (op_status _ _ Hop). simpl. f_equal.
    apply set_eq. intros y. rewrite elem_of_voters. split; [|by intros ?%elem_of_empty].
    intros (s & Hs & Hin)%list_elem_of_fmap. destruct (ok_decision _ Hok s Hin) as (_ & _ & r & Hr & Hid).
    injection Hs as Hs _. destruct (Hnew r Hr). congruence.
  - pose proof (resolve_outcome now id a db (ok_ids _ (ok_requests _ Hok))) as Hout.
    destruct Hout as [|r0 ? ? ? ? ? ? ?|r0 ? ? ? ? ? ?]; [by destruct (Hnew r' Hr')..|].
    apply elem_update_request in Hr' as (r & Hr & ->). destruct (Hnew r Hr).
    by destruct (has_id id r && is_open r).
  - apply elem_update_request in Hr' as (r & Hr & ->). destruct (Hnew r Hr). by case_match.
  - apply elem_update_request in Hr' as (r & Hr & ->). destruct (Hnew r Hr). by case_match.
  - apply elem_update_request in Hr' as (r & Hr & ->). destruct (Hnew r Hr). by case_match.
Qed.

(** C8: the store refines the abstract gate under every interleaving of
    creations, responses, timeouts, reminders and escalations. An operation
    leaves each request's gate alone or moves it one step: a vote of someone who
    has not voted, the vote that reaches the required number, a rejection or a
    timeout. The gate closes exactly when the caller is told that it settled the
    request, a closed row is never written again, and a request that appears is
    an open gate nobody has voted at. *)
Theorem approval_refines_gate (db : ApprovalTables) (h : list (approval_op * bool)) (o : approval_op) :
  history db h -> admissible o ->
  (forall r, r ∈ approval_requests db -> exists r',
     r' ∈ approval_requests (run_op o db).1 /\ aq_ID r' = aq_ID r
     /\ (gate_of (run_op o db).1 r' = gate_of db r \/ gate_step (gate_of db r) (gate_of (run_op o db).1 r'))
     /\ ((run_op o db).2 = true /\ can_close (aq_ID r) o = true <-> is_open r = true /\ is_open r' = false)
     /\ (is_open r = false -> r' = r))
  /\ (forall r', r' ∈ approval_requests (run_op o db).1 ->
        (forall r, r ∈ approval_requests db -> aq_ID r <> aq_ID r') ->
        (1 <= aq_RequiredApprovals r')%Z /\ gate_of (run_op o db).1 r' = GOpen (aq_RequiredApprovals r') ∅).
Proof.
  intros Hok%history_ok Ha. split.
  - intros r Hr. destruct (every_row_step o db r Hok Ha Hr) as (r' & [] & ?). exists r'. tauto.
  - intros r' Hr' Hnew. by apply new_row_gate.
Qed.

(** ** Exactly one winner *)

(** How often a caller was told that it settled [id]. *)
Definition wins (id : string) (h : list (approval_op * bool)) : nat :=
  length (List.filter (fun ob => can_close id ob.1 && ob.2) h).

Lemma can_close_won id o db :
  NoDup (aq_ID <$> approval_requests db) -> can_close id o = true -> (run_op o db).2 = true ->
  exists r, r ∈ approval_requests db /\ aq_ID r = id.
Proof.
  intros Hnd Hc Hw. destruct o as [now r0|now i a|now i|now i|now i]; simpl in Hc; try done;
    apply bool_decide_eq_true in Hc; subst i.
  - pose proof (resolve_outcome now id a db Hnd) as Hout. destruct Hout; [done..|]. by exists r.
  - unfold run_op, MarkApprovalTimedOut, updateApprovalStatus in Hw. apply update_request_hit in Hw as (r & ? & ? & _).
    by exists r.
Qed.

(** C9: whatever responses and timeouts race on a request, and however often
    each is repeated, exactly one of them is told that it settled the request
    once it is settled, and none before. *)
Theorem approval_settled_once (db : ApprovalTables) (h : list (approval_op * bool)) (id : string) :
  history db h ->
  wins id h = match GetApprovalRequest id db with
              | Some r => if is_open r then 0 else 1
              | None => 0
              end.
Proof.
  induction 1 as [|db h o Hh IH Ha]; [done|].
  pose proof (history_ok _ _ Hh) as Hok. pose proof (step_ok o db Ha Hok) as Hok'.
  pose proof (ok_ids _ (ok_requests _ Hok)) as Hnd. pose proof (ok_ids _ (ok_requests _ Hok')) as Hnd'.
  unfold wins. rewrite filter_snoc, length_app. fold (wins id h). rewrite IH. cbn [fst snd].
  destruct (GetApprovalRequest id db) as [r|] eqn:E.
  - apply GetApprovalRequest_Some in E as [Hr Hid]; [|done]. subst id.
    destruct (every_row_step o db r Hok Ha Hr) as (r' & [Hr' Hid'] & _ & Hiff & Hcl).
    rewrite (proj2 (GetApprovalRequest_Some (aq_ID r) _ r' Hnd')) by done.
    assert (can_close (aq_ID r) o && (run_op o db).2 = is_open r && negb (is_open r')) as ->.
    { apply eq_true_iff_eq. rewrite !andb_true_iff, negb_true_iff. tauto. }
    destruct (is_open r) eqn:Eo; [by destruct (is_open r')|]. rewrite (Hcl eq_refl), Eo. done.
  - assert (can_close id o && (run_op o db).2 = false) as ->.
    { apply not_true_iff_false. intros [Hc Hw]%andb_true_iff.
      destruct (can_close_won id o db Hnd Hc Hw) as (r & Hr & Hid).
      by apply (proj1 (GetApprovalRequest_None id db) E r). }
    destruct (GetApprovalRequest id (run_op o db).1) as [r'|] eqn:E'; [|done].
    apply GetApprovalRequest_Some in E' as [Hr' Hid']; [|done].
    destruct (new_row_gate o db r' Hok Ha Hr') as [_ Hg].
    { rewrite Hid'. by apply GetApprovalRequest_None. }
    unfold gate_of in Hg. by destruct (is_open r').
Qed.

(** ** Who may answer *)

(** [actor] holds the seat [p] of the request, itself or as a delegate. *)
Definition holds_seat (r : ApprovalRequest) (actor p : string) : Prop :=
  (p ∈ aq_Approvers r /\ to_lower p = to_lower actor)
  \/ (exists ds d, aq_Delegates r !! p = Some ds /\ d ∈ ds /\ to_lower d = to_lower actor).

Lemma delegate_principal_spec (delegates : list (string * list string)) a p :
  delegate_principal delegates a = p -> p <> "" ->
  exists ds d, (p, ds) ∈ delegates /\ d ∈ ds /\ to_lower d = to_lower (ar_Actor a).
Proof.
  unfold delegate_principal. revert p. induction delegates as [|[q ds] l IH] using rev_ind; intros p.
  { intros <- H. done. }
  rewrite foldl_app. simpl. destruct (existsb _ ds) eqn:E.
  - intros <- _. apply existsb_elem in E as (d & Hd & [He _]%andb_true_iff).
    unfold equal_fold in He. apply bool_decide_eq_true in He. exists ds, d. split_and!; [|done|done].
    apply elem_of_app. right. apply list_elem_of_here.
  - intros Hp Hne. destruct (IH p Hp Hne) as (ds' & d & Hin & ?). exists ds', d.
    split; [|done]. apply elem_of_app. by left.
Qed.

Lemma principal_holds_seat delegates r a p :
  delegates ≡ₚ map_to_list (aq_Delegates r) ->
  principal_of (aq_Approvers r) delegates a = p -> p <> "" -> holds_seat r (ar_Actor a) p.
Proof.
  intros Hd. assert (forall p, delegate_principal delegates a = p -> p <> "" -> holds_seat r (ar_Actor a) p) as Hdel.
  { intros q Hq Hne. destruct (delegate_principal_spec _ _ _ Hq Hne) as (ds & d & Hin & ? & ?).
    rewrite Hd in Hin. apply elem_of_map_to_list in Hin. right. by exists ds, d. }
  unfold principal_of. destruct (List.find _ (aq_Approvers r)) as [q|] eqn:E; [|by apply Hdel].
  case_match; [by apply Hdel|]. intros <- Hne. left. apply List.find_some in E as [Hin He].
  split; [by apply list_elem_of_In|]. unfold equal_fold in He. by apply bool_decide_eq_true in He.
Qed.

(** The form of a request: its required fields are filled in unless the answer
    is a rejection, and what is given has the declared type. *)
Definition form_ok (r : ApprovalRequest) (rejecting : bool) (values : gmap string JValue) : Prop :=
  forall f, f ∈ aq_Fields r -> check_field rejecting values f = None.

Lemma check_fields_None rejecting values fs :
  check_fields rejecting values fs = None <-> forall f, f ∈ fs -> check_field rejecting values f = None.
Proof.
  induction fs as [|f fs IH]; simpl; [split; [by intros _ f ?%elem_of_nil|done]|].
  setoid_rewrite elem_of_cons. destruct (check_field rejecting values f) eqn:E; naive_solver.
Qed.

Lemma validate_spec delegates r a a' :
  delegates ≡ₚ map_to_list (aq_Delegates r) ->
  validateApprovalResponse delegates r a = Ok a' ->
  ar_Actor a' = ar_Actor a /\ ar_Decision a' = ar_Decision a /\ ar_Values a' = ar_Values a /\ ar_Actor a <> ""
  /\ ar_Channel a' = ar_Channel a
  /\ (aq_Approvers r <> [] -> ar_Approver a' <> "" /\ holds_seat r (ar_Actor a) (ar_Approver a'))
  /\ form_ok r (str_in (to_lower (ar_Decision a)) ["reject"; "rejected"]) (ar_Values a).
Proof.
  intros Hd. unfold validateApprovalResponse. destruct (negb _); [done|].
  destruct (is_empty (ar_Actor a)) eqn:Ea; [done|]. apply is_empty_false in Ea.
  destruct (aq_Approvers r) as [|p0 l] eqn:Ep.
  { destruct (check_fields _ _ _) eqn:Ec; [done|]. intros [= <-]. rewrite check_fields_None in Ec. by split_and!. }
  rewrite <- Ep. destruct (is_empty (principal_of _ _ _)) eqn:Epr; [done|]. apply is_empty_false in Epr.
  simpl. destruct (check_fields _ _ _) eqn:Ec; [done|]. intros [= <-]. rewrite check_fields_None in Ec. simpl.
  split_and!; try done. intros _. split; [done|]. by eapply principal_holds_seat.
Qed.

(** C19: the handler records a response only when it comes from /respond or with
    a valid signature, the request was open when it was read, the actor holds
    the seat it answers for, as a listed approver or as a delegate of one, and
    the form is filled in; it then records exactly one response, for that seat.
    Otherwise it leaves the tables alone. *)
Theorem handler_records_authorized (now : Z) (delegates : list (string * list string)) (webhook : option bool)
    (headerKey id : string) (a : ApprovalResponse) (db0 db : ApprovalTables) (h : list (approval_op * bool)) r :
  history db h -> GetApprovalRequest id db0 = Some r -> delegates ≡ₚ map_to_list (aq_Delegates r) ->
  let db' := (handleApprovalResponse now delegates webhook headerKey id a db0 db).2 in
  db' = db
  \/ (webhook <> Some false /\ is_open r = true
      /\ exists s, approval_responses db' = approval_responses db ++ [s]
         /\ rs_request s = id /\ rs_actor s = ar_Actor a /\ rs_actor s <> ""
         /\ rs_channel s = response_channel webhook a
         /\ (aq_Approvers r <> [] -> holds_seat r (rs_actor s) (rs_approver s))
         /\ form_ok r (str_in (to_lower (ar_Decision a)) ["reject"; "rejected"]) (ar_Values a)).
Proof.
  intros Hok%history_ok Hg Hd. cbv zeta. unfold handleApprovalResponse. rewrite Hg.
  case_bool_decide; [by left|]. destruct (is_open r) eqn:Eo; simpl negb; cbn match; [|by left].
  destruct (validateApprovalResponse delegates r (received webhook headerKey a)) as [a'|] eqn:Ev; [|by left].
  apply validate_spec in Ev as (Hact & Hdec & Hval & Hne & Hch & Hseat & Hform); [|done].
  assert (aq_ID r = id) as Hid by (unfold GetApprovalRequest in Hg; apply List.find_some in Hg as [_ Hg];
    unfold has_id in Hg; by apply bool_decide_eq_true in Hg).
  replace (match ResolveApprovalRequest now (aq_ID r) a' db with _ => _ end).2
    with (run_op (OResolve now (aq_ID r) a') db).1
    by (simpl; by destruct (ResolveApprovalRequest now (aq_ID r) a' db) as [[[? []]|?] ?]).
  set (s := response_row (aq_ID r) a').
  assert (rs_request s = id /\ rs_actor s = ar_Actor a /\ rs_actor s <> ""
      /\ rs_channel s = response_channel webhook a
      /\ (aq_Approvers r <> [] -> holds_seat r (rs_actor s) (rs_approver s))) as Hrec.
  { simpl. rewrite Hact, Hch. split_and!; try done.
    intros Hap. destruct (Hseat Hap) as [Hnz Hs']. unfold response_approver.
    by rewrite (proj2 (is_empty_false _) Hnz). }
  destruct (resolve_outcome now (aq_ID r) a' db (ok_ids _ (ok_requests _ Hok))); [by left|right..].
  all: split; [done|]; split; [done|]; exists s; split; [done|]; repeat (split; [apply Hrec|]); exact Hform.
Qed.

(** ** A gate can always be answered *)

(** [p] approves for itself. *)
Definition approve_as (key : string -> string) (values : gmap string JValue) (p : string) : ApprovalResponse := {|
  ar_Decision := "approve"; ar_Actor := p; ar_Approver := ""; ar_Channel := "cli"; ar_IdempotencyKey := key p;
  ar_Feedback := ""; ar_Values := values |}.

(** The approvers answer in turn. *)
Definition all_approve (now : Z) (delegates : list (string * list string)) (key : string -> string)
    (values : gmap string JValue) (id : string) (ps : list string) (db : ApprovalTables) : ApprovalTables :=
  foldl (fun db p => (handleApprovalResponse now delegates None "" id (approve_as key values p) db db).2) db ps.

Lemma principal_self ps delegates key values p :
  NoDup (to_lower <$> ps) -> p ∈ ps -> p <> "" ->
  principal_of ps delegates (approve_as key values p) = p.
Proof.
  intros Hnd Hp Hne. unfold principal_of.
  assert (List.find (fun q => equal_fold q (ar_Actor (approve_as key values p))) ps = Some p) as ->
    by (clear Hne; simpl; unfold equal_fold; induction ps as [|q ps IH]; [by apply elem_of_nil in Hp|];
        apply NoDup_cons in Hnd as [Hq Hnd]; simpl; case_bool_decide as He;
        [apply elem_of_cons in Hp as [->|Hp]; [done|]; exfalso; apply Hq; rewrite He;
           by apply list_elem_of_fmap_2
        |apply elem_of_cons in Hp as [->|Hp]; [done|by apply IH]]).
  by rewrite (proj2 (is_empty_false p) Hne).
Qed.

Section answering.
Context (now : Z) (delegates : list (string * list string)) (key : string -> string)
  (values : gmap string JValue) (r : ApprovalRequest).
Hypothesis Hfold : NoDup (to_lower <$> aq_Approvers r).
Hypothesis Hnonempty : "" ∉ aq_Approvers r.
Hypothesis Hform : form_ok r false values.
Hypothesis Hkey : forall p q, key p = key q -> p = q.
Hypothesis Hkey0 : forall p, key p <> "".

(** The request is approved, or still open with the votes of [done] in. *)
Definition answered (seen : list string) (db : ApprovalTables) : Prop :=
  approvals_ok db
  /\ ((exists r', r' ∈ approval_requests db /\ aq_ID r' = aq_ID r /\ aq_Status r' = ApprovalApproved)
      \/ (r ∈ approval_requests db /\ is_open r = true /\ (forall p, p ∈ seen -> p ∈ voters (aq_ID r) db)
          /\ forall p, key p ∈ (rs_key <$> approval_responses db) -> p ∈ seen)).

Lemma answered_vote seen p db :
  p ∈ aq_Approvers r -> answered seen db ->
  answered (seen ++ [p])
    (handleApprovalResponse now delegates None "" (aq_ID r) (approve_as key values p) db db).2.
Proof.
  intros Hp [Hok Hdb]. pose proof (ok_ids _ (ok_requests _ Hok)) as Hnd. unfold handleApprovalResponse.
  rewrite bool_decide_false by done. destruct Hdb as [(r' & Hr' & Hid & Hst)|(Hr & Ho & Hseen & Hkeys)].
  { rewrite (proj2 (GetApprovalRequest_Some _ db r' Hnd)) by done.
    assert (is_open r' = false) as -> by (unfold is_open; by rewrite Hst).
    split; [done|]. left. by exists r'. }
  rewrite (proj2 (GetApprovalRequest_Some _ db r Hnd)) by done. rewrite Ho. cbn [negb].
  assert (p <> "") as Hne by (intros ->; done).
  assert (received None "" (approve_as key values p) = approve_as key values p) as ->.
  { unfold received. simpl. by destruct (is_empty (key p)) eqn:E; [apply is_empty_true in E; destruct (Hkey0 p)|]. }
  assert (validateApprovalResponse delegates r (approve_as key values p)
          = Ok (with_approver p (approve_as key values p))) as ->.
  { unfold validateApprovalResponse. cbn [ar_Decision ar_Actor ar_Values approve_as with_approver].
    change (to_lower "approve") with "approve". change (str_in "approve" ["reject"; "rejected"]) with false.
    rewrite (proj2 (is_empty_false p) Hne). cbn [negb str_in].
    destruct (aq_Approvers r) as [|q l] eqn:E; [by apply elem_of_nil in Hp|]. rewrite <- E in *.
    rewrite principal_self by done. rewrite (proj2 (is_empty_false p) Hne).
    by rewrite (proj2 (check_fields_None false values (aq_Fields r)) Hform). }
  set (a := with_approver p (approve_as key values p)).
  replace (match ResolveApprovalRequest now (aq_ID r) a db with _ => _ end).2
    with (run_op (OResolve now (aq_ID r) a) db).1
    by (simpl; by destruct (ResolveApprovalRequest now (aq_ID r) a db) as [[[? []]|?] ?]).
  assert (response_approver a = p) as Ha
    by (unfold response_approver, a; simpl; by rewrite (proj2 (is_empty_false p) Hne)).
  assert (forall p', p' ∈ seen ++ [p] -> p' ∈ seen \/ p' = p) as Hsplit
    by (intros p' [?|?%list_elem_of_singleton]%elem_of_app; auto).
  split; [by apply step_ok|].
  destruct (resolve_outcome now (aq_ID r) a db Hnd) as [Hrf|r0 Hr0 Hid0 _ _ _ _ _|r0 Hr0 Hid0 _ _ _ _]; cbn [fst].
  - right. split_and!; [done|done| |intros q Hq; apply elem_of_app; left; auto].
    intros q [Hq| ->]%Hsplit; [auto|]. destruct (response_conflict (response_row (aq_ID r) a) db) eqn:Ec.
    + destruct (decide (key p ∈ (rs_key <$> approval_responses db))) as [Hin|Hin]; [auto|].
      apply elem_of_voters. destruct (decide ((aq_ID r, p) ∈ (seat <$> approval_responses db))) as [|Hs]; [done|].
      exfalso. apply not_false_iff_true in Ec. apply Ec, no_conflict. unfold seat. simpl. by rewrite Ha.
    + destruct (Hrf r Hr eq_refl Ho (Hkey0 p)) as [?|Ht]; [congruence|].
      by rewrite (request_key_free _ a db Hok (Hkey0 p) Ec) in Ht.
  - right. split_and!; [done|done|..].
    + intros q Hq. rewrite voters_insert. cbn [response_row rs_request rs_approver].
      rewrite bool_decide_true, Ha by done. apply Hsplit in Hq as [Hq| ->]; set_solver.
    + intros q. simpl. rewrite fmap_app, !elem_of_app. simpl. rewrite list_elem_of_singleton.
      intros [Hq|Hq]; [auto|]. right. apply list_elem_of_singleton, Hkey. done.
  - left. exists (settled_by now a r). split_and!; [|done|done].
    apply elem_update_request. exists r. split; [done|]. unfold has_id. by rewrite bool_decide_true, Ho.
Qed.
End answering.

(** A request whose approvers are distinct up to case and number at least
    the required approvals can always be answered: when each of them approves
    through the handler, in any state the store can be in and whoever has
    answered before, the request ends approved. *)
Theorem gate_can_be_answered (now : Z) (delegates : list (string * list string)) (key : string -> string)
    (values : gmap string JValue) (db : ApprovalTables) (h : list (approval_op * bool)) (r : ApprovalRequest) :
  history db h -> r ∈ approval_requests db -> is_open r = true ->
  NoDup (to_lower <$> aq_Approvers r) -> "" ∉ aq_Approvers r ->
  (aq_RequiredApprovals r <= Z.of_nat (length (aq_Approvers r)))%Z -> form_ok r false values ->
  (forall p q, key p = key q -> p = q) -> (forall p, key p <> "") ->
  (forall p, key p ∉ (rs_key <$> approval_responses db)) ->
  exists r', GetApprovalRequest (aq_ID r) (all_approve now delegates key values (aq_ID r) (aq_Approvers r) db) = Some r'
    /\ aq_Status r' = ApprovalApproved.
Proof.
  intros Hok%history_ok Hr Ho Hfold Hne Hreq Hform Hkey Hkey0 Hfresh.
  assert (forall ps seen db, (forall p, p ∈ ps -> p ∈ aq_Approvers r) -> answered key r seen db ->
    answered key r (seen ++ ps) (all_approve now delegates key values (aq_ID r) ps db)) as Hall.
  { induction ps as [|p ps IH]; intros seen db' Hps Hans; simpl; [by rewrite app_nil_r|].
    rewrite cons_middle, app_assoc. apply IH; [intros q Hq; apply Hps; by right|].
    apply answered_vote; try done. apply Hps. by left. }
  destruct (Hall (aq_Approvers r) [] db) as [Hok' [(r' & Hr' & Hid & Hst)|(Hr' & _ & Hseen & _)]]; [done|..].
  - split; [done|]. right. split_and!; [done|done|by intros ? ?%elem_of_nil|]. intros p Hp. by destruct (Hfresh p).
  - exists r'. split; [|done]. apply GetApprovalRequest_Some; [apply Hok'|done].
  - exfalso. set (db' := all_approve _ _ _ _ _ _ _) in *.
    destruct (ok_rows _ Hok' r Hr') as (_ & _ & Hv & _). destruct (open_verdict _ _ Hv Ho) as [Hno Hyes].
    rewrite <- size_voters in Hyes by done.
    assert (NoDup (aq_Approvers r)) as Hnd by (by apply NoDup_fmap_1 in Hfold).
    assert (length (aq_Approvers r) <= size (voters (aq_ID r) db')); [|lia].
    rewrite <- (size_list_to_set (C := gset string) _ Hnd). apply subseteq_size. intros p. set_solver.
Qed.

(** ** The engine's side *)

Lemma newest_map f l :
  (forall r, aq_CreatedAt (f r) = aq_CreatedAt r) -> newest (map f l) = f <$> newest l.
Proof.
  intros Hf. induction l as [|r l IH]; [done|]. simpl. rewrite IH. destruct (newest l) as [x|]; [|done]. simpl.
  rewrite !Hf. by destruct (_ <=? _)%Z.
Qed.

Lemma filter_map_same {A} (p : A -> bool) (f : A -> A) l :
  (forall x, p (f x) = p x) -> List.filter p (map f l) = map f (List.filter p l).
Proof. intros Hf. induction l as [|x l IH]; [done|]. simpl. rewrite Hf, IH. by destruct (p x). Qed.

(** The newest request of an instance stays the newest through an update. *)
Lemma newest_update inst id p f db :
  (forall r, aq_CreatedAt (f r) = aq_CreatedAt r) ->
  (forall r, aq_WorkflowInstanceID (f r) = aq_WorkflowInstanceID r) ->
  GetApprovalByInstance inst (update_request id p f db).1
  = (fun r => if has_id id r && p r then f r else r) <$> GetApprovalByInstance inst db.
Proof.
  intros Hc Hi. unfold GetApprovalByInstance. simpl. rewrite filter_map_same, newest_map; [done|..].
  - intros r. by destruct (has_id id r && p r).
  - intros r. by destruct (has_id id r && p r); rewrite ?Hi.
Qed.

Lemma newest_elem l r : newest l = Some r -> r ∈ l.
Proof.
  revert r. induction l as [|x l IH]; intros r; simpl; [done|]. destruct (newest l) as [y|].
  - case_match; intros [= <-]; [right; by apply IH|by left].
  - intros [= <-]. by left.
Qed.

Lemma GetApprovalByInstance_elem inst db r :
  GetApprovalByInstance inst db = Some r -> r ∈ approval_requests db.
Proof. intros [Hr _]%newest_elem%elem_filter_bool. done. Qed.

(** The response [a] says what the newest request of the instance says. *)
Definition agrees (inst : string) (a : ApprovalResponse) (db : ApprovalTables) : Prop :=
  forall req, GetApprovalByInstance inst db = Some req ->
    is_open req = false
    /\ (response_decision a = ApprovalResume <-> aq_Status req = ApprovalApproved).

Lemma resolve_reads now id a db o won db' :
  ResolveApprovalRequest now id a db = (Ok (o, won), db') -> o = GetApprovalRequest id db'.
Proof.
  unfold ResolveApprovalRequest. intros H. guards H; by injection H as <- _ <-.
Qed.

Lemma decision_of_status a :
  response_decision a = ApprovalResume <-> response_status a = ApprovalApproved.
Proof. unfold response_decision, response_status. by destruct (is_reject (ar_Decision a)). Qed.

Lemma stored_decision req a :
  response_decision (stored_response req a) = ApprovalResume <-> aq_Status req = ApprovalApproved.
Proof. unfold response_decision, stored_response. simpl. by case_bool_decide. Qed.

Lemma resolve_agrees now inst d db a db' :
  approvals_ok db -> ResolveApproval now inst d db = (Ok (Some a), db') -> agrees inst a db'.
Proof.
  intros Hok. unfold ResolveApproval. destruct (GetApprovalByInstance inst db) as [req|] eqn:Eg.
  2: { intros [= <- <-] req Hreq. congruence. }
  pose proof (GetApprovalByInstance_elem _ _ _ Eg) as Hin. pose proof (ok_ids _ (ok_requests _ Hok)) as Hnd.
  pose proof (resolve_outcome now (aq_ID req) (source_response inst d) db Hnd) as Hout. unfold run_op in Hout.
  destruct (ResolveApprovalRequest now (aq_ID req) (source_response inst d) db) as [[[o won]|e] db1] eqn:Er; [|done].
  apply resolve_reads in Er as Ho. inversion Hout as [|r0 Hr0 Hid Hop|r0 Hr0 Hid Hop]; subst.
  - rewrite (proj2 (GetApprovalRequest_Some _ db1 req Hnd)) by done.
    destruct (is_open req) eqn:Eo; [done|]. intros [= <- <-] req' Hreq'. rewrite Eg in Hreq'.
    injection Hreq' as <-. split; [done|]. apply stored_decision.
  - rewrite (proj2 (GetApprovalRequest_Some _ (insert_response _ db) req Hnd)) by done.
    rewrite (same_row db req r0) by done. by rewrite Hop.
  - assert (req = r0) as <- by (by apply (same_row db)). set (a0 := source_response inst d) in *.
    pose proof (newest_update inst (aq_ID req) is_open (settled_by now a0)
      (insert_response (response_row (aq_ID req) a0) db) ltac:(done) ltac:(done)) as Hn.
    change (GetApprovalByInstance inst (insert_response _ db)) with (GetApprovalByInstance inst db) in Hn.
    rewrite Eg in Hn. cbn [fmap option_fmap option_map] in Hn. unfold has_id in Hn.
    rewrite bool_decide_true, Hop in Hn by done. cbn [andb] in Hn.
    intros Heq. assert (a = a0) as -> by (by destruct (GetApprovalRequest _ _) in Heq; injection Heq as <- _).
    assert (db' = (update_request (aq_ID req) is_open (settled_by now a0)
      (insert_response (response_row (aq_ID req) a0) db)).1) as ->
      by (by destruct (GetApprovalRequest _ _) in Heq; injection Heq as <-).
    intros req' Hreq'. rewrite Hn in Hreq'. injection Hreq' as <-. rewrite decision_of_status.
    split; [|done]. unfold is_open. simpl. by destruct (response_status_cases a0) as [->| ->].
Qed.

Lemma mark_newest_ok op inst db :
  (forall id db, approvals_ok db -> approvals_ok (op id db).1) -> approvals_ok db ->
  approvals_ok (mark_newest op inst db).
Proof. intros Hop Hok. unfold mark_newest. destruct (GetApprovalByInstance inst db); auto. Qed.

Lemma RecheckApproval_ok `{GoRuntime} inst r bindings now poll db :
  approvals_ok db -> approvals_ok (RecheckApproval inst r bindings now poll db).2.
Proof.
  intros Hok. unfold RecheckApproval. destruct (negb _); [done|].
  assert (forall c op db, (forall id db, approvals_ok db -> approvals_ok (op id db).1) -> approvals_ok db ->
    approvals_ok (if (c : bool) then mark_newest op inst db else db)) as Hif
    by (intros [] ? ? ? ?; [by apply mark_newest_ok|done]).
  assert (forall id db, approvals_ok db -> approvals_ok (MarkApprovalReminded now id db).1) as H1
    by (intros; by apply remind_ok).
  assert (forall id db, approvals_ok db -> approvals_ok (EscalateApproval now id db).1) as H2
    by (intros; by apply escalate_ok).
  assert (forall id db, approvals_ok db -> approvals_ok (MarkApprovalTimedOut now id db).1) as H3
    by (intros; by apply timeout_ok).
  pose proof (Hif (elapsed (st_EscalateAfter (byID r (r_waitingStep r))) (r_parkedAt r) now) _ _ H2
    (Hif (elapsed (st_RemindAfter (byID r (r_waitingStep r))) (r_parkedAt r) now) _ _ H1 Hok)) as H4.
  destruct (timedOut _ _ _); [|exact H4]. by apply mark_newest_ok.
Qed.

(** What the dispatcher drives a parked instance with agrees with the store:
    when a cycle hands a response to the engine, by an answer it finds, by a
    timeout or by a source trigger, the newest request of the instance is then
    settled, and the response resumes the run exactly when that request is
    approved. The re-check decides as if there were no tables. *)
Theorem driven_agrees_with_store `{GoRuntime} (inst : string) (r : dagRun) (bindings : list SourceBinding)
    (now later : Z) (poll : string -> string -> option SourceItem) (db db' : ApprovalTables)
    (h : list (approval_op * bool)) (a : ApprovalResponse) :
  history db h ->
  (RecheckApproval inst r bindings now poll db).1 = recheckApproval r bindings now poll
  /\ (checkApproval inst r bindings now later poll db = (Ok (Some a), db') ->
      forall req, GetApprovalByInstance inst db' = Some req ->
        is_open req = false /\ (response_decision a = ApprovalResume <-> aq_Status req = ApprovalApproved)).
Proof.
  intros Hok%history_ok. split.
  { unfold RecheckApproval, recheckApproval. destruct (negb _); [done|]. by destruct (timedOut _ _ _). }
  intros Hc. change (agrees inst a db'). revert Hc. unfold checkApproval.
  assert (forall res, res = RecheckApproval inst r bindings now poll db ->
    (match res with (ApprovalWait, db) => (Ok None, db) | (d, db) => ResolveApproval later inst d db end)
      = (Ok (Some a), db') -> agrees inst a db') as Hre.
  { intros [d db1] Heq. assert (approvals_ok db1) as Hok1
      by (change db1 with (d, db1).2; rewrite Heq; by apply RecheckApproval_ok).
    destruct d; [by intros [=]|..]; by apply resolve_agrees. }
  destruct (GetApprovalByInstance inst db) as [req|] eqn:Eg; [|by apply Hre].
  destruct (bool_decide _ || bool_decide _) eqn:Es; [|by apply Hre].
  intros [= <- <-] req' Hreq'. rewrite Eg in Hreq'. injection Hreq' as <-.
  unfold response_decision, answered_response, is_open. simpl.
  apply orb_true_iff in Es as [Es|Es]; apply bool_decide_eq_true in Es; by rewrite Es.
Qed.

(** ** Findings *)

(** The key of a source trigger's response names the instance and the decision,
    not the request. Once one lap of a gate was resumed from the source, no later
    gate of the instance can be: the response conflicts with the recorded one,
    and the instance stays parked while the source keeps saying "resume". *)
Theorem source_resume_once `{GoRuntime} (now : Z) (inst : string) (d : ApprovalDecision)
    (db : ApprovalTables) (h : list (approval_op * bool)) (req : ApprovalRequest) (s : ResponseRow) :
  history db h -> GetApprovalByInstance inst db = Some req -> is_open req = true ->
  s ∈ approval_responses db -> rs_key s = ar_IdempotencyKey (source_response inst d) ->
  ResolveApproval now inst d db = (Ok None, db).
Proof.
  intros Hok%history_ok Hg Ho Hs Hk. unfold ResolveApproval. rewrite Hg. unfold ResolveApprovalRequest.
  rewrite (proj2 (GetApprovalRequest_Some (aq_ID req) db req (ok_ids _ (ok_requests _ Hok))))
    by (split; [by eapply GetApprovalByInstance_elem|done]).
  replace (is_empty (ar_IdempotencyKey (source_response inst d))) with false by done.
  rewrite Ho. cbn [negb].
  assert (response_conflict (response_row (aq_ID req) (source_response inst d)) db = true) as ->.
  { apply existsb_elem. exists s. split; [done|]. simpl. rewrite Hk. by rewrite bool_decide_true. }
  by rewrite Ho.
Qed.

(** A run of operations from the empty tables. *)
Fixpoint run_ops (db : ApprovalTables) (h : list (approval_op * bool)) (os : list approval_op)
    : ApprovalTables * list (approval_op * bool) :=
  match os with
  | [] => (db, h)
  | o :: os => run_ops (run_op o db).1 (h ++ [(o, (run_op o db).2)]) os
  end.

Lemma run_ops_history db h os :
  history db h -> Forall admissible os -> history (run_ops db h os).1 (run_ops db h os).2.
Proof.
  intros Hh Ha. revert db h Hh. induction Ha as [|o os Ho _ IH]; intros db h Hh; [done|].
  simpl. apply IH. by constructor.
Qed.

Definition no_runtime : GoRuntime := literal_runtime.

(** An approval step, with its approvers and the number it requires. *)
Definition gate_step_config (id : string) (approvers : list string) (n : Z) : StepConfig :=
  mkStep id StepTypeApproval [] [] "" "" "" "" None "" None "" None None false [] "ship?" None None "" approvers
    None "" "" 0 0 false None [] "" "" false "" "" "" "" "" n [] "" "" [] ∅ "" "" ∅ "" "" None [] "" 0 None.

Definition gate_request (id : string) (approvers : list string) (n created : Z) : ApprovalRequest :=
  @approval_request no_runtime "i" "t" "w" created (gate_step_config id approvers n).

(** The gate "review" is resumed from the source, the run loops back and parks
    at it again: the source cannot resume the second lap. *)
Definition two_laps : list approval_op :=
  [OCreate 0 (gate_request "review" [] 0 1);
   OResolve 2 "i:review" (source_response "i" ApprovalResume);
   OCreate 0 (gate_request "review" [] 0 3)].

Lemma source_resume_once_witness :
  @ResolveApproval 4 "i" ApprovalResume (run_ops no_approvals [] two_laps).1
  = (Ok None, (run_ops no_approvals [] two_laps).1).
Proof.
  eapply (@source_resume_once literal_runtime 4 "i" ApprovalResume _ (run_ops no_approvals [] two_laps).2).
  - apply run_ops_history; [constructor|]. repeat constructor; done.
  - vm_compute. reflexivity.
  - vm_compute. reflexivity.
  - vm_compute. apply list_elem_of_here.
  - vm_compute. reflexivity.
Defined.

(** [GetApprovalByInstance] ignores the step. When the request of a gate cannot
    be created, the newest request is that of the gate before, and its answer is
    applied: here lap 2 of "review" wants the id that the step "review@2" took,
    and the dispatcher passes the gate with the approval of "review@2", although
    nobody has seen it. *)
Definition taken_id : list approval_op :=
  [OCreate 0 (gate_request "review" ["ann"] 1 1);
   OResolve 2 "i:review" (approve_as (fun p => "k1") ∅ "ann");
   OCreate 0 (gate_request "review@2" ["ann"] 1 3);
   OResolve 4 "i:review@2" (approve_as (fun p => "k2") ∅ "ann")].

Lemma unopened_gate_passes :
  let db := (run_ops no_approvals [] taken_id).1 in
  let '(_, db', e) := CreateApprovalRequest 0 (gate_request "review" ["ann"] 1 5) db in
  e = Some "UNIQUE constraint failed: approval_requests.id" /\ db' = db
  /\ forall r bindings poll, exists a,
       @checkApproval literal_runtime "i" r bindings 6 6 poll db' = (Ok (Some a), db')
       /\ response_decision a = ApprovalResume.
Proof.
  vm_compute. split_and!; [reflexivity|reflexivity|]. intros r bindings poll. eexists. split; reflexivity.
Qed.

(** ** Witnesses *)

(** Two approvers of three are required; the first approves, the second
    rejects after an escalation, and a late timeout loses. *)
Definition quorum_ops : list approval_op :=
  [OCreate 0 (gate_request "ship" ["ann"; "bob"; "cy"] 2 1);
   OResolve 2 "i:ship" (approve_as (fun p => p) ∅ "ann");
   OResolve 3 "i:ship" (approve_as (fun p => p +:+ "2") ∅ "ann");
   OEscalate 4 "i:ship"].

Lemma quorum_history :
  history (run_ops no_approvals [] quorum_ops).1 (run_ops no_approvals [] quorum_ops).2.
Proof. apply run_ops_history; [constructor|]. repeat constructor; done. Defined.

Lemma approval_refines_gate_witness :
  let db := (run_ops no_approvals [] quorum_ops).1 in
  let o := OResolve 5 "i:ship" (approve_as (fun p => p) ∅ "bob") in
  exists r r', r ∈ approval_requests db /\ gate_of db r = GOpen 2 {["ann"]}
    /\ gate_of (run_op o db).1 r' = GClosed ApprovalApproved
    /\ gate_step (gate_of db r) (gate_of (run_op o db).1 r').
Proof.
  cbv zeta. set (o := OResolve 5 "i:ship" (approve_as (fun p => p) ∅ "bob")).
  destruct (approval_refines_gate _ _ o quorum_history I) as [Hr _].
  edestruct Hr as (r' & Hin & Hid & Hg & Hwin & _); [vm_compute; apply list_elem_of_here|].
  eexists _, r'. split; [vm_compute; apply list_elem_of_here|]. split; [vm_compute; reflexivity|].
  assert (r' = r') as _ by done. vm_compute in Hin. apply list_elem_of_singleton in Hin as ->.
  split; [vm_compute; reflexivity|]. destruct Hg as [Hg|Hg]; [vm_compute in Hg; discriminate Hg|exact Hg].
Defined.

Lemma approval_settled_once_witness :
  wins "i:ship" (run_ops no_approvals [] quorum_ops).2 = 0.
Proof. rewrite (approval_settled_once _ _ "i:ship" quorum_history). vm_compute. reflexivity. Defined.

Definition ship_row : ApprovalRequest :=
  List.hd (gate_request "" [] 0 0) (approval_requests (run_ops no_approvals [] quorum_ops).1).

Lemma handler_records_authorized_witness :
  let db := (run_ops no_approvals [] quorum_ops).1 in
  let db' := (handleApprovalResponse 5 [] None "" "i:ship" (approve_as (fun p => p) ∅ "BOB") db db).2 in
  exists s, approval_responses db' = approval_responses db ++ [s] /\ rs_actor s = "BOB" /\ rs_approver s = "bob".
Proof.
  cbv zeta.
  destruct (handler_records_authorized 5 [] None "" "i:ship" (approve_as (fun p => p) ∅ "BOB")
    (run_ops no_approvals [] quorum_ops).1 _ _ ship_row quorum_history eq_refl)
    as [H|(_ & _ & s & Hs & _ & Hact & _)]; [reflexivity|vm_compute in H; discriminate H|].
  exists s. split; [exact Hs|]. split; [exact Hact|]. vm_compute in Hs. injection Hs as <-. reflexivity.
Defined.

Lemma gate_can_be_answered_witness :
  exists r', GetApprovalRequest "i:ship"
      (all_approve 9 [] (fun p => "k:" +:+ p) ∅ "i:ship" ["ann"; "bob"; "cy"]
         (run_ops no_approvals [] quorum_ops).1) = Some r'
    /\ aq_Status r' = ApprovalApproved.
Proof.
  apply (gate_can_be_answered 9 [] (fun p => "k:" +:+ p) ∅ _ _ ship_row quorum_history).
  - vm_compute. apply list_elem_of_here.
  - reflexivity.
  - apply (bool_decide_unpack _). vm_compute. exact I.
  - apply (bool_decide_unpack _). vm_compute. exact I.
  - vm_compute. discriminate.
  - intros f Hf. vm_compute in Hf. by apply elem_of_nil in Hf.
  - intros p q H. vm_compute in H. injection H as H. exact H.
  - done.
  - intros p. vm_compute. intros H%list_elem_of_singleton. discriminate H.
Defined.

(** A run parked at a gate of its only step. *)
Definition parked_run (s : StepConfig) (at_ : Z) : dagRun := {|
  r_wf := {| wc_ID := "w"; wc_Resume := ""; wc_ResultComment := ""; wc_Trigger := None; wc_Inputs := ∅; wc_Outputs := ∅; wc_Steps := [s] |};
  r_cell := rejected_item; r_seed := []; r_event := ∅; r_state := ∅; r_activated := ∅; r_retries := ∅;
  r_conflictRetries := ∅; r_stepStates := ∅; r_contrib := ∅; r_feedback := ∅; r_passedOrder := [];
  r_waitingStep := st_ID s; r_parkedAt := at_; r_waitingChild := ""; r_parallelDone := ∅; r_waitDeadline := 0 |}.

Definition tracker_binding : SourceBinding := {|
  sb_ID := "b"; sb_TaskID := "t"; sb_SourceID := "gh"; sb_SourceItemID := "1"; sb_SourceItemURL := "";
  sb_SourceItemNumber := "" |}.

Definition operator_ops : list approval_op := [OCreate 0 (gate_request "gate" [] 0 1)].

Lemma operator_history :
  history (run_ops no_approvals [] operator_ops).1 (run_ops no_approvals [] operator_ops).2.
Proof. apply run_ops_history; [constructor|]. repeat constructor; done. Defined.

(** The source rejects the gate of an operator. *)
Lemma driven_agrees_with_store_witness :
  let db := (run_ops no_approvals [] operator_ops).1 in
  exists a db', @checkApproval literal_runtime "i" (parked_run operator_gate 1) [tracker_binding] 5 6
      (fun _ _ => Some rejected_item) db = (Ok (Some a), db')
    /\ response_decision a = ApprovalAbort
    /\ exists req, GetApprovalByInstance "i" db' = Some req /\ is_open req = false.
Proof.
  cbv zeta. eexists _, _. split; [vm_compute; reflexivity|]. split; [reflexivity|].
  eexists. split; [vm_compute; reflexivity|].
  eapply (proj2 (@driven_agrees_with_store literal_runtime "i" (parked_run operator_gate 1) [tracker_binding]
    5 6 (fun _ _ => Some rejected_item) _ _ (run_ops no_approvals [] operator_ops).2 _ operator_history)).
  - vm_compute. reflexivity.
  - vm_compute. reflexivity.
Defined.
