(* ===== verification/Park.v ===== *)
(** * Parked instances: stop, wake and settle
      (src/internal/workflow/wait_park.go, approval.go, engine.go and
      src/internal/daemon/workflow_ipc.go)

    The engine keeps the suspended runs in [parked] and those whose wake is under
    way in [resuming]; both are read and written under one mutex, while the
    persisted rows and the task's outstanding counter are also written outside
    it, by goroutines that drive an instance and by an operator's stop. A
    [World] is that shared state with the goroutines; [pstep] has one
    constructor per critical section or unprotected write, so every
    interleaving of them is a path. A write to the store is taken to succeed
    (the code ignores its error); a read may fail. *)

From stdpp Require Import base gmap strings list.
From Stdlib Require Import ZArith.
From S2P Require Import Prelude State Model Expr Config Graph Dag DagFacts DagTermination DagInvariant.
From S2P Require Import Worker Approval.

#[global] Instance dagOutcome_eq_dec : EqDecision dagOutcome.
Proof. solve_decision. Defined.

(** ** The suspended run *)

(** [waitStepConfig] resolves: the filter of [ParkedWaits]. *)
Definition isWaitPark (r : dagRun) : bool := (waitStepConfig r).2.

(** The filter of [ParkedApprovals]. *)
Definition isApprovalPark (r : dagRun) : bool := is_type StepTypeApproval (byID r (r_waitingStep r)).

(** The reason [settle] persists with a parked run. *)
Definition waitReason (r : dagRun) : state.Reason :=
  if isWaitPark r then state.ReasonCI else state.ReasonApproval.

(** [WakeWait] re-arms the step it was parked on. *)
Definition rearm (r : dagRun) : dagRun :=
  put_state (r_waitingStep r) stPending (set_waitingChild "" (set_waitingStep "" r)).

(** ** The shared state *)

(** The [state] and [blocked_reason] columns of a [workflow_instances] row. *)
Record Row := { row_st : string; row_reason : string }.

Definition row_running : Row := {| row_st := state.Running; row_reason := "" |}.
Definition row_blocked (reason : state.Reason) : Row := {| row_st := state.Blocked; row_reason := reason |}.
Definition row_interrupted : Row := row_blocked state.ReasonInterrupted.

(** What a goroutine still has to do. *)
Inductive Thread :=
  | TDrive (id : string) (r : dagRun)          (* in driveDAG *)
  | TPersist (id : string) (failed : bool)     (* settle, past the critical section *)
  | TComplete (id : string)                    (* completeTask *)
  | TStopRelease (id : string)                 (* StopParked, past the critical section *)
  | TStopPersist (id : string).                (* StopInstance, after StopParked *)

Definition thread_id (t : Thread) : string :=
  match t with
  | TDrive id _ | TPersist id _ | TComplete id | TStopRelease id | TStopPersist id => id
  end.

Record World := {
  w_parked : gmap string dagRun;       (* e.parked *)
  w_resuming : gset string;            (* the keys of e.resuming *)
  w_stopped : gset string;             (* the runs whose [stopped] flag is set *)
  w_rows : gmap string Row;            (* workflow_instances *)
  w_threads : list Thread;
  w_released : list string;            (* the instances [DecrementOutstanding] was called for *)
}.

(** [stillParkedLocked] on a row that was read. *)
Definition liveRow (row : Row) : bool :=
  let '(st, reason) := state.NormalizeWithReason (row_st row) in
  let reason := if is_empty reason then row_reason row else reason in
  bool_decide (st = state.Blocked) && negb (bool_decide (reason = state.ReasonInterrupted)).

Inductive parkCheck := CheckLive | CheckUnreadable | CheckDead.

(** The outcomes [stillParkedLocked] can have: the read may fail; without a row
    the run stays parked. *)
Definition stillParked (w : World) (id : string) (readable : bool) : parkCheck :=
  if negb readable then CheckUnreadable
  else match w_rows w !! id with
       | None => CheckLive
       | Some row => if liveRow row then CheckLive else CheckDead
       end.

Definition add_thread (t : Thread) (w : World) : World := {|
  w_parked := w_parked w; w_resuming := w_resuming w; w_stopped := w_stopped w; w_rows := w_rows w;
  w_threads := w_threads w ++ [t]; w_released := w_released w |}.

(** Goroutine [i] moves on ([None]: it returns). *)
Definition step_thread (i : nat) (t : option Thread) (w : World) : World := {|
  w_parked := w_parked w; w_resuming := w_resuming w; w_stopped := w_stopped w; w_rows := w_rows w;
  w_threads := from_option (fun t => <[i := t]> (w_threads w)) (delete i (w_threads w)) t;
  w_released := w_released w |}.

Definition put_row (id : string) (row : Row) (w : World) : World := {|
  w_parked := w_parked w; w_resuming := w_resuming w; w_stopped := w_stopped w;
  w_rows := <[id := row]> (w_rows w); w_threads := w_threads w; w_released := w_released w |}.

Definition release (id : string) (w : World) : World := {|
  w_parked := w_parked w; w_resuming := w_resuming w; w_stopped := w_stopped w; w_rows := w_rows w;
  w_threads := w_threads w; w_released := w_released w ++ [id] |}.

Definition park (id : string) (r : dagRun) (w : World) : World := {|
  w_parked := <[id := r]> (w_parked w); w_resuming := w_resuming w; w_stopped := w_stopped w;
  w_rows := w_rows w; w_threads := w_threads w; w_released := w_released w |}.

Definition unpark (id : string) (w : World) : World := {|
  w_parked := delete id (w_parked w); w_resuming := w_resuming w; w_stopped := w_stopped w;
  w_rows := w_rows w; w_threads := w_threads w; w_released := w_released w |}.

Definition set_resuming (s : gset string) (w : World) : World := {|
  w_parked := w_parked w; w_resuming := s; w_stopped := w_stopped w;
  w_rows := w_rows w; w_threads := w_threads w; w_released := w_released w |}.

Definition flag_stopped (id : string) (w : World) : World := {|
  w_parked := w_parked w; w_resuming := w_resuming w; w_stopped := {[id]} ∪ w_stopped w;
  w_rows := w_rows w; w_threads := w_threads w; w_released := w_released w |}.

(** ** The critical sections *)

(** [settle], its part under the mutex, on the run [r] that drove to [o]. *)
Definition settleLocked (i : nat) (id : string) (o : dagOutcome) (r : dagRun) (w : World) : World :=
  if decide (id ∈ w_stopped w) then step_thread i None w
  else match o with
       | outcomeWaiting =>
           set_resuming (w_resuming w ∖ {[id]})
             (park id r (put_row id (row_blocked (waitReason r)) (step_thread i None w)))
       | _ =>
           set_resuming (w_resuming w ∖ {[id]})
             (unpark id (step_thread i (Some (TPersist id (bool_decide (o = outcomeFailed)))) w))
       end.

(** The row [settle] writes after the mutex. *)
Definition finalRow (failed : bool) : Row :=
  {| row_st := if failed then state.Failed else state.Done; row_reason := "" |}.

(** [stillParkedLocked] drops a run whose row says it is over. *)
Definition dropParked (id : string) (w : World) : World := release id (unpark id w).

(** [claimParked], when the run is still parked, and the wake that follows with
    the run [r] it will drive. *)
Definition claimParked (id : string) (r : dagRun) (w : World) : World :=
  add_thread (TDrive id r)
    (put_row id row_running (set_resuming ({[id]} ∪ w_resuming w) (unpark id w))).

(** [StopParked], its part under the mutex: the world and whether the engine held
    the run. *)
Definition stopLocked (id : string) (w : World) : World * bool :=
  match w_parked w !! id with
  | Some _ => (unpark id w, true)
  | None =>
      if decide (id ∈ w_resuming w)
      then (set_resuming (w_resuming w ∖ {[id]}) (flag_stopped id w), true)
      else (w, false)
  end.

(** ** Steps *)

Definition quiet (w : World) (events : nat -> Event) (id : string) : Prop :=
  id ∉ w_stopped w ->
  forall n, pe_stop1 (events n) = false /\ pe_stop2 (events n) = false /\ pe_stop3 (events n) = false.

Section steps.
Context {RT : GoRuntime} {DG : Diagnostics} (concurrency : Z).

(** Every payload is one the worker of the reporting step can return. *)
Definition event_fits (e : Event) (k : config) : Prop :=
  forall r f fl g rest,
    (if negb (c_termFail (k_control k)) && is_empty (c_loopTarget (k_control k))
        && negb (k_stopped k || pe_stop1 e)
     then dispatch (concurrencyLimit concurrency) (k_run k) (k_inFlight k)
     else (k_run k, k_inFlight k)) = (r, f :: fl) ->
    receive (pe_pick e) f fl = (g, rest) ->
    parkable (flight_step g) (flight_payload g (pe_payload e)).

Fixpoint events_fit (fuel : nat) (events : nat -> Event) (k : config) : Prop :=
  match fuel with
  | O => True
  | S fuel => event_fits (events 0) k /\
              match drive_pass concurrency (events 0) k with
              | inl k' => events_fit fuel (fun i => events (S i)) k'
              | inr _ => True
              end
  end.

(** How a goroutine's drive of [r] can end: [driveDAG] on payloads the workers
    can return. The flag it polls is read while the world moves on, so the
    stops it sees are constrained only in that there is none while the flag
    is unset at its end. *)
Definition drives (w : World) (id : string) (r : dagRun) (o : dagOutcome) (r' : dagRun) : Prop :=
  exists fuel events, driveDAG concurrency fuel events r = Some (o, r')
    /\ events_fit fuel events (start r) /\ quiet w events id.

Inductive pstep : World -> World -> Prop :=
  (* runCreatedInstance *)
  | p_start w id wf cell ev :
      w_rows w !! id = None -> "" ∉ st_ID <$> wc_Steps wf ->
      pstep w (add_thread (TDrive id (initDAG wf cell [] ev)) (put_row id row_running w))
  (* driveDAG, then settle *)
  | p_settle w i id r o r' :
      w_threads w !! i = Some (TDrive id r) -> drives w id r o r' ->
      pstep w (settleLocked i id o r' w)
  | p_persist w i id failed :
      w_threads w !! i = Some (TPersist id failed) ->
      pstep w (put_row id (finalRow failed) (step_thread i (Some (TComplete id)) w))
  | p_complete w i id :
      w_threads w !! i = Some (TComplete id) ->
      pstep w (release id (step_thread i None w))
  (* stillParkedLocked, called by a re-check or by a claim *)
  | p_drop w id r :
      w_parked w !! id = Some r -> stillParked w id true = CheckDead ->
      pstep w (dropParked id w)
  (* WakeWait *)
  | p_wake w id r :
      w_parked w !! id = Some r -> stillParked w id true = CheckLive ->
      pstep w (claimParked id (rearm r) w)
  (* ResolveApprovalResponse; approval requests exist only for approval parks *)
  | p_respond w id r a :
      w_parked w !! id = Some r -> stillParked w id true = CheckLive -> isApprovalPark r = true ->
      pstep w (claimParked id (applyResponse a r) w)
  (* StopInstance *)
  | p_stop w id row :
      w_rows w !! id = Some row ->
      pstep w (add_thread (if (stopLocked id w).2 then TStopRelease id else TStopPersist id)
                 (stopLocked id w).1)
  | p_stop_release w i id :
      w_threads w !! i = Some (TStopRelease id) ->
      pstep w (release id (step_thread i (Some (TStopPersist id)) w))
  | p_stop_persist w i id :
      w_threads w !! i = Some (TStopPersist id) ->
      pstep w (put_row id row_interrupted (step_thread i None w)).

Definition initial_world : World := {|
  w_parked := ∅; w_resuming := ∅; w_stopped := ∅; w_rows := ∅; w_threads := []; w_released := [] |}.

Definition world_reachable (w : World) : Prop := rtc pstep initial_world w.
End steps.
