(* ===== verification/ParkFacts.v ===== *)
(** * What the scheduler does to a run it parks

    Frame lemmas over the scheduler's operations: the workflow is kept, the
    waiting child stays unset until the pass that parks the run. *)

From stdpp Require Import base gmap strings list.
From Stdlib Require Import ZArith.
From S2P Require Import Prelude State Model Expr Config Graph Dag DagFacts DagTermination DagInvariant.
From S2P Require Import Worker Approval Park.

(** Same workflow, and no waiting child appears. *)
Record calm (r r' : dagRun) : Prop := {
  cm_wf : r_wf r' = r_wf r;
  cm_child : r_waitingChild r = "" -> r_waitingChild r' = "";
}.

#[global] Instance calm_refl : Reflexive calm.
Proof. by intros r. Qed.
#[global] Instance calm_trans : Transitive calm.
Proof. intros r1 r2 r3 [] []. split; [congruence|auto]. Qed.

Lemma calm_put id st r : calm r (put_state id st r).
Proof. done. Qed.
Lemma calm_activate id r : calm r (activate id r).
Proof. done. Qed.
#[export] Hint Resolve calm_put calm_activate : apiary.

Lemma calm_mark_skipped fuel id r : calm r (mark_skipped_go fuel id r).
Proof.
  revert id r. induction fuel as [|fuel IH]; intros id r; simpl; destruct (_ || _); try done.
  etransitivity; [apply calm_put|]. apply (foldl_rel calm). intros r0 other _. cbv zeta.
  destruct (negb _); [done|].
  set (r1 := if str_in id _ then _ else _).
  assert (calm r0 r1) as H1 by (unfold r1; destruct (str_in _ _); [apply IH|done]).
  clearbody r1. destruct (negb _); [exact H1|]. destruct (str_in _ _); [|exact H1].
  etransitivity; [exact H1|apply IH].
Qed.

Lemma calm_markSkipped id r : calm r (markSkipped id r).
Proof. apply calm_mark_skipped. Qed.

Lemma calm_skip_one acc id : calm acc.1 (skip_one acc id).1.
Proof. destruct acc as [r p]. unfold skip_one. repeat case_match; done || apply calm_markSkipped. Qed.

Lemma calm_skipUnreachable r : calm r (skipUnreachable r).1.
Proof.
  unfold skipUnreachable. apply (foldl_inv (fun acc => calm r acc.1)); [done|].
  intros acc id _ H. etransitivity; [done|apply calm_skip_one].
Qed.

Lemma calm_resetLoop t r : calm r (resetLoop t r).
Proof.
  unfold resetLoop. transitivity (foldl reset_one r (elements (resetSet r t))); [|done].
  by apply (foldl_rel calm).
Qed.

Lemma calm_clear step r : calm r (clearWait step (clearParallel step r)).
Proof. unfold clearWait, clearParallel. by repeat case_match. Qed.

Section calm_ops.
Context {RT : GoRuntime} {DG : Diagnostics}.

Lemma calm_runSplitStep r step r' : runSplitStep r step = Ok r' -> calm r r'.
Proof.
  unfold runSplitStep. destruct (chooseBranches _ _ _) as [chosen|]; rsimpl; [|done]. intros [= <-].
  set (r1 := set_stepStates _ _). set (r2 := foldl _ r1 _).
  assert (calm r1 r2) as H2 by (apply (foldl_rel calm); intros r0 b _; by destruct (_ && _)).
  assert (calm r r1) as H1 by done. transitivity r2; [by transitivity r1|]. apply (foldl_rel calm). intros r0 b _.
  unfold skip_unchosen. destruct (_ && _); [apply calm_markSkipped|done].
Qed.

Lemma calm_dispatch_one limit id r fl r' fl' :
  dispatch_one limit id (r, fl) = Some (r', fl') -> calm r r'.
Proof.
  assert (forall acc, launch limit id (byID r id) (r, fl) = Some acc -> calm r acc.1) as Hl.
  { intros acc. unfold launch. destruct (is_type StepTypeSplit _).
    - destruct (runSplitStep r (byID r id)) as [r1|[src e]] eqn:Hs; intros [= <-];
        [by eapply calm_runSplitStep|done].
    - destruct (is_type StepTypeApproval _); [by intros [= <-]|].
      destruct (_ <=? _); [done|]. by intros [= <-]. }
  unfold dispatch_one. cbn [fst snd]. destruct (is_empty _); [by intros H%Hl|].
  destruct (evalExpr _ _) as [[]|e]; [by intros H%Hl|by intros [= <- <-]..].
Qed.

Lemma calm_passStep step res p r : calm r (passStep step res p r).
Proof. unfold passStep. by repeat case_match. Qed.

Lemma calm_failStep step res p c r : calm r (failStep step res p c r).1.
Proof. unfold failStep. by repeat case_match. Qed.
End calm_ops.

(** ** The flights of a run *)

(** What flies is the step its id names. *)
Definition tracked (r : dagRun) (fl : list flight) : Prop :=
  forall f, f ∈ fl -> byID r (st_ID (flight_step f)) = flight_step f
                      /\ st_ID (flight_step f) ∈ order r.

Lemma byID_wf r r' id : r_wf r' = r_wf r -> byID r' id = byID r id.
Proof. unfold byID. by intros ->. Qed.

Lemma tracked_calm r r' fl : calm r r' -> tracked r fl -> tracked r' fl.
Proof.
  intros [Hw _] Ht f Hf. destruct (Ht f Hf) as [H1 H2].
  rewrite (byID_wf r r') by done. unfold order in *. by rewrite Hw.
Qed.

Lemma tracked_launch r fl f id :
  id ∈ order r -> flight_step f = byID r id -> tracked r fl -> tracked r (fl ++ [f]).
Proof.
  intros Hid Hf Ht g [Hg|Hg]%elem_of_app; [by apply Ht|].
  apply list_elem_of_singleton in Hg as ->. destruct (byID_in r id Hid) as [H1 _].
  by rewrite Hf, H1.
Qed.

(** What holds between passes. *)
Record park_inv (wf : WorkflowConfig) (k : config) : Prop := {
  pi_wf : r_wf (k_run k) = wf;
  pi_child : r_waitingChild (k_run k) = "";
  pi_tracked : tracked (k_run k) (k_inFlight k);
}.

(** Exactly one of the two checkers sees the run. *)
Definition watched (r : dagRun) : Prop :=
  isApprovalPark r = negb (isWaitPark r) /\ (isApprovalPark r = true -> r_waitingChild r = "").

Section park_pass.
Context {RT : GoRuntime} {DG : Diagnostics} (concurrency : Z).

Lemma dispatch_loop_calm limit ids r fl :
  (forall id, id ∈ ids -> id ∈ order r) -> tracked r fl ->
  calm r (dispatch_loop limit ids (r, fl)).1
  /\ tracked (dispatch_loop limit ids (r, fl)).1 (dispatch_loop limit ids (r, fl)).2.
Proof.
  revert r fl. induction ids as [|id ids IH]; intros r fl Hids Ht; [done|]. cbn [dispatch_loop].
  destruct (dispatch_one limit id (r, fl)) as [[r1 fl1]|] eqn:E; [|done].
  assert (id ∈ order r) as Hid by (apply Hids, list_elem_of_here).
  pose proof (calm_dispatch_one _ _ _ _ _ _ E) as Hc.
  apply dispatch_one_shrinks in E as (_ & _ & Hfl); [|done].
  destruct (IH r1 fl1) as [H1 H2].
  - intros y Hy. destruct Hc as [Hw _]. unfold order in *. rewrite Hw. apply Hids.
    by apply list_elem_of_further.
  - apply (tracked_calm r); [done|]. destruct Hfl as [->|(f & -> & Hf)]; [done|].
    by apply tracked_launch with id.
  - split; [by transitivity r1|done].
Qed.

Lemma dispatched_park wf stop1 k r fl :
  park_inv wf k -> dispatched concurrency stop1 k = (r, fl) ->
  r_wf r = wf /\ r_waitingChild r = "" /\ tracked r fl.
Proof.
  intros [Hw Hc Ht]. unfold dispatched. destruct (negb _ && _ && _).
  - unfold dispatch. intros E.
    destruct (dispatch_loop_calm (concurrencyLimit concurrency) (pickAllRunnable (k_run k))
                (k_run k) (k_inFlight k)) as [[H1 H2] H3]; [|done|].
    + intros id Hid. by apply elem_of_pickAllRunnable, rn_order in Hid.
    + rewrite E in *. simpl in *. split_and!; [congruence|auto|done].
  - intros [= <- <-]. done.
Qed.

(** Parking at a step of its own, or at the wait_for child of a group. *)
Lemma enterApproval_watched now r f :
  byID r (st_ID (flight_step f)) = flight_step f -> r_waitingChild r = "" ->
  st_ID (flight_step f) <> "" -> is_type StepTypeApproval (flight_step f) = true ->
  watched (enterApproval now (flight_step f) r).
Proof.
  intros Hb Hc Hid Ht. split; [|done]. unfold isApprovalPark, isWaitPark, waitStepConfig. simpl.
  rewrite Hc, (proj2 (is_empty_false _)) by done. simpl.
  rewrite !(byID_wf r) by done. rewrite Hb, Ht. symmetry. apply negb_true_iff.
  unfold is_type in *. apply bool_decide_eq_true in Ht. by rewrite Ht.
Qed.

Lemma enterWait_fields now step r :
  r_wf (enterWait now step r) = r_wf r /\ r_waitingStep (enterWait now step r) = st_ID step
  /\ r_waitingChild (enterWait now step r) = r_waitingChild r.
Proof. unfold enterWait. by repeat case_match. Qed.

Lemma childByID_spec r step c :
  step ∈ wc_Steps (r_wf r) -> is_type StepTypeParallel step = true -> c ∈ st_SubSteps step ->
  is_Some (childByID r !! st_ID c).
Proof.
  intros Hs Hp Hc. unfold childByID. apply byID_map_total. left. apply list_elem_of_fmap_2.
  apply list_elem_of_In, in_concat. exists (st_SubSteps step).
  split; [|by apply list_elem_of_In]. apply (in_map st_SubSteps), filter_In.
  by rewrite <- list_elem_of_In.
Qed.

Lemma enterWait_own_watched now r step :
  byID r (st_ID step) = step -> r_waitingChild r = "" -> st_ID step <> "" ->
  is_type StepTypeWaitFor step = true -> watched (enterWait now step r).
Proof.
  intros Hb Hc Hid Ht. destruct (enterWait_fields now step r) as (H1 & H2 & H3).
  split; [|by rewrite H3]. unfold isApprovalPark, isWaitPark, waitStepConfig. rewrite H2, H3, Hc.
  rewrite (proj2 (is_empty_false _)) by done. simpl. rewrite !(byID_wf r) by done. rewrite Hb, Ht.
  unfold is_type in *. apply bool_decide_eq_true in Ht. by rewrite Ht.
Qed.

Lemma enterWait_group_watched now r step c :
  byID r (st_ID step) = step -> step ∈ wc_Steps (r_wf r) -> st_ID step <> "" ->
  is_type StepTypeParallel step = true -> c ∈ st_SubSteps step -> st_ID c <> "" ->
  r_waitingChild r = st_ID c -> watched (enterWait now step r).
Proof.
  intros Hb Hin Hid Ht Hc Hcid Hw. destruct (enterWait_fields now step r) as (H1 & H2 & H3).
  assert (isApprovalPark (enterWait now step r) = false) as Ha.
  { unfold isApprovalPark. rewrite H2, (byID_wf r), Hb by done. unfold is_type in *.
    apply bool_decide_eq_true in Ht. by rewrite Ht. }
  unfold watched. rewrite Ha. split; [|done]. unfold isWaitPark, waitStepConfig. rewrite H2, H3, Hw.
  rewrite !(proj2 (is_empty_false _)) by done. simpl.
  destruct (childByID_spec r step c) as [ch Hch]; [done..|].
  unfold childByID in *. by rewrite H1, Hch.
Qed.

(** The pass that parks parks a watched run; any other keeps the invariant. *)
Lemma pass_park wf e k :
  "" ∉ st_ID <$> wc_Steps wf -> park_inv wf k -> event_fits concurrency e k ->
  match drive_pass concurrency e k with
  | inl k' => park_inv wf k'
  | inr (o, r') => o = outcomeWaiting -> watched r' /\ r_wf r' = wf
  end.
Proof.
  intros Hne Hk Hfit. unfold drive_pass, event_fits in *.
  fold (dispatched concurrency (k_stopped k || pe_stop1 e) k) in *.
  destruct (dispatched _ _ k) as [r fl] eqn:Hd.
  destruct (dispatched_park wf _ _ _ _ Hk Hd) as (Hw & Hc & Ht).
  destruct fl as [|f fl].
  - destruct (_ || pe_stop2 e); [done|]. unfold quiescent.
    destruct (c_termFail _); [done|]. destruct (negb _).
    { destruct (calm_resetLoop (c_loopTarget (k_control k)) r) as [H1 H2].
      split; cbn [k_run k_inFlight]; [by rewrite H1|by apply H2|by intros ? ?%elem_of_nil]. }
    pose proof (calm_skipUnreachable r) as [H1 H2]. destruct (skipUnreachable r) as [r1 b]. simpl in *.
    destruct b; [split; cbn [k_run k_inFlight]; [by rewrite H1|by apply H2|by intros ? ?%elem_of_nil]|].
    destruct (pickAllRunnable r1).
    + unfold finalOutcome. by repeat case_match.
    + split; cbn [k_run k_inFlight]; [by rewrite H1|by apply H2|by intros ? ?%elem_of_nil].
  - destruct (receive (pe_pick e) f fl) as [g rest] eqn:Hr.
    specialize (Hfit _ _ _ _ _ eq_refl Hr).
    apply receive_spec in Hr as (Hg & Hsub & _).
    assert (tracked r rest) as Htr by (intros x Hx; apply Ht; by apply Hsub).
    destruct (Ht g Hg) as [Hb Ho].
    assert (st_ID (flight_step g) <> "") as Hid.
    { intros E. apply Hne. rewrite <- E, <- Hw. done. }
    assert (flight_step g ∈ wc_Steps (r_wf r)) as Hin.
    { rewrite <- Hb. by apply byID_in. }
    destruct (_ || pe_stop3 e); [by split|].
    unfold processResult.
    destruct (is_type StepTypeApproval _) eqn:Ea.
    { intros _. split; [by apply enterApproval_watched|done]. }
    set (p := flight_payload g (pe_payload e)) in *. cbv zeta.
    set (res := if pe_ctxErr e then _ else _).
    assert (sr_Pending res = sr_Pending (pl_res p)) as Hres by (unfold res; by destruct (pe_ctxErr e)).
    rewrite Hres. unfold parkable in Hfit.
    destruct (sr_Pending (pl_res p)) eqn:Ep; rewrite ?andb_true_r, ?andb_false_r.
    + destruct (is_type StepTypeParallel _) eqn:Epar.
      { intros _. destruct Hfit as [Hf|(_ & c & Hc1 & Hc2 & Hc3 & _)]; [done| |].
        - unfold is_type in *. apply bool_decide_eq_true in Epar. by rewrite Epar in Hf.
        - split; [|by rewrite (proj1 (enterWait_fields _ _ _))].
          by apply enterWait_group_watched with c. }
      destruct Hfit as [Hf|(Hf & _)]; [done| |done]. rewrite Hf. intros _.
      destruct (calm_clear (flight_step g) r) as [H1 H2].
      unfold clearWait, clearParallel in *. rewrite Epar in *.
      split; [|by rewrite (proj1 (enterWait_fields _ _ _))].
      by apply enterWait_own_watched.
    + destruct (calm_clear (flight_step g) r) as [H1 H2].
      set (r1 := clearWait _ _) in *. set (r2 := recordState _ _ _ _).
      assert (calm r r2) as Hr2 by (by split).
      assert (forall r3 c3, calm r2 r3 ->
        park_inv wf {| k_run := r3; k_inFlight := rest; k_control := c3; k_stopped := false |}) as Hgo.
      { intros r3 c3 H3. assert (calm r r3) as Hcalm by (by transitivity r2).
        pose proof Hcalm as [W C]. split; cbn [k_run k_inFlight]; [by rewrite W|by apply C|].
        by apply (tracked_calm r). }
      destruct (sr_Success _); [apply Hgo, calm_passStep|].
      destruct (failStep _ _ _ _ _) as [r3 c3] eqn:Ef. apply Hgo.
      rewrite <- (f_equal fst Ef : _ = r3). apply calm_failStep.
Qed.

(** A drive that suspends hands over a watched run; only a flagged run is
    abandoned. *)
Lemma drive_park wf fuel events k o r' :
  "" ∉ st_ID <$> wc_Steps wf -> park_inv wf k -> events_fit concurrency fuel events k ->
  drive concurrency fuel events k = Some (o, r') -> o = outcomeWaiting -> watched r' /\ r_wf r' = wf.
Proof.
  intros Hne. revert events k. induction fuel as [|fuel IH]; intros events k Hk Hfit; simpl; [done|].
  destruct Hfit as [Hf Hrest]. pose proof (pass_park wf _ _ Hne Hk Hf) as Hp.
  destruct (drive_pass concurrency (events 0) k) as [k'|[o1 r1]]; [by apply IH|].
  intros [= <- <-]. exact Hp.
Qed.

Lemma drive_stopped fuel events k o r' :
  k_stopped k = false ->
  (forall n, pe_stop1 (events n) = false /\ pe_stop2 (events n) = false /\ pe_stop3 (events n) = false) ->
  drive concurrency fuel events k = Some (o, r') -> o <> outcomeStopped.
Proof.
  revert events k. induction fuel as [|fuel IH]; intros events k Hk Hq; simpl; [done|].
  destruct (drive_pass concurrency (events 0) k) as [k'|[o1 r1]] eqn:E.
  - apply IH; [|intros n; apply Hq]. destruct (Hq 0) as (H1 & H2 & H3).
    unfold drive_pass in E. rewrite Hk, H1, H2, H3 in E. simpl in E.
    repeat (case_match; simplify_eq; simpl in *); done.
  - intros [= <- <-]. destruct (Hq 0) as (H1 & H2 & H3).
    unfold drive_pass in E. rewrite Hk, H1, H2, H3 in E. simpl in E. unfold quiescent, finalOutcome in E.
    repeat (case_match; simplify_eq; simpl in *); done.
Qed.
End park_pass.
