(* ===== verification/ParkProps.v ===== *)
(** * Parked instances: properties

    The slot an instance holds in its task's outstanding count is tracked as a
    token: it sits in the parked set, in the goroutine that drives or settles
    the instance, in the stop that took it over, or it has been given back. *)

From stdpp Require Import base gmap strings list.
From Stdlib Require Import ZArith.
From S2P Require Import Prelude State Model Expr Config Graph Dag DagFacts DagTermination DagInvariant.
From S2P Require Import Wait Parallel Worker Approval Park ParkFacts.

(** ** Counting *)

Definition one_if (P : Prop) `{Decision P} : nat := if decide P then 1 else 0.

Lemma sum_insert {A} (f : A -> nat) l i x y :
  l !! i = Some x -> f x + sum_list_with f (<[i := y]> l) = f y + sum_list_with f l.
Proof.
  revert i. induction l as [|z l IH]; intros [|i] H; simpl in *; try discriminate.
  - injection H as ->. lia.
  - specialize (IH _ H). lia.
Qed.

Lemma sum_delete {A} (f : A -> nat) l i x :
  l !! i = Some x -> f x + sum_list_with f (delete i l) = sum_list_with f l.
Proof.
  revert i. induction l as [|z l IH]; intros [|i] H; simpl in *; try discriminate.
  - injection H as ->. lia.
  - specialize (IH _ H). change (delete (S i) (z :: l)) with (z :: delete i l). simpl. lia.
Qed.

Lemma sum_snoc {A} (f : A -> nat) l x : sum_list_with f (l ++ [x]) = sum_list_with f l + f x.
Proof. rewrite sum_list_with_app. simpl. lia. Qed.

Lemma sum_at {A} (f : A -> nat) l i x : l !! i = Some x -> f x <= sum_list_with f l.
Proof. intros H. rewrite <- (sum_delete f l i x H). lia. Qed.

Lemma sum_zero {A} (f : A -> nat) l : (forall x, x ∈ l -> f x = 0) -> sum_list_with f l = 0.
Proof.
  induction l as [|z l IH]; simpl; intros H; [done|].
  rewrite (H z) by apply list_elem_of_here. apply IH. intros x Hx. by apply H, list_elem_of_further.
Qed.

Lemma sum_two {A} (f : A -> nat) l i j x y :
  l !! i = Some x -> l !! j = Some y -> i <> j -> f x + f y <= sum_list_with f l.
Proof.
  revert i j. induction l as [|z l IH]; intros [|i] [|j] Hi Hj Hne; simpl in *; try discriminate; try lia.
  - injection Hi as ->. pose proof (sum_at f l j y Hj). lia.
  - injection Hj as ->. pose proof (sum_at f l i x Hi). lia.
  - assert (i <> j) by lia. pose proof (IH i j Hi Hj H). lia.
Qed.

(** A member of a goroutine list after one of its steps was there before, or is
    the goroutine that moved. *)
Lemma elem_step_thread i t w u :
  u ∈ w_threads (step_thread i t w) -> u ∈ w_threads w \/ t = Some u.
Proof.
  unfold step_thread. simpl. destruct t as [t|]; simpl; intros H.
  - apply list_elem_of_lookup_1 in H as [j Hj]. destruct (decide (j = i)) as [->|Hne].
    + apply list_lookup_insert_Some in Hj as [(_ & -> & _)|[? _]]; [by right|done].
    + rewrite list_lookup_insert_ne in Hj by done. left. by eapply list_elem_of_lookup_2.
  - left. eapply sublist_subseteq; [apply sublist_delete|done].
Qed.

(** Every other goroutine stays. *)
Lemma mem_step_thread i t w t0 u :
  w_threads w !! i = Some t0 -> u ∈ w_threads w -> u <> t0 -> u ∈ w_threads (step_thread i t w).
Proof.
  intros Hi Hu Hne. unfold step_thread. simpl. apply list_elem_of_lookup_1 in Hu as [j Hj].
  assert (j <> i) as Hji by congruence. destruct t as [t|]; simpl.
  - apply list_elem_of_lookup_2 with j. by rewrite list_lookup_insert_ne.
  - assert (u ∈ t0 :: delete i (w_threads w)) as H.
    { rewrite <- (delete_Permutation _ _ _ Hi). by eapply list_elem_of_lookup_2. }
    apply elem_of_cons in H as [->|]; done.
Qed.

(** ** Tokens *)

Definition thread_token (stopped : gset string) (id : string) (t : Thread) : nat :=
  match t with
  | TDrive i _ => one_if (i = id /\ id ∉ stopped)
  | TPersist i _ | TComplete i | TStopRelease i => one_if (i = id)
  | TStopPersist _ => 0
  end.

Definition drive_token (id : string) (t : Thread) : nat :=
  match t with
  | TDrive i _ => one_if (i = id)
  | _ => 0
  end.

Definition parked_token (w : World) (id : string) : nat := one_if (is_Some (w_parked w !! id)).

(** How many times the slot was given back. *)
Definition releases (w : World) (id : string) : nat :=
  sum_list_with (fun x => one_if (x = id)) (w_released w).

Definition tokens (w : World) (id : string) : nat :=
  parked_token w id + sum_list_with (thread_token (w_stopped w) id) (w_threads w) + releases w id.

(** The parked run and the goroutines driving it. *)
Definition drivers (w : World) (id : string) : nat :=
  parked_token w id + sum_list_with (drive_token id) (w_threads w).

Definition nonempty_ids (r : dagRun) : Prop := "" ∉ st_ID <$> wc_Steps (r_wf r).

Record world_inv (w : World) : Prop := {
  wi_tokens : forall id, tokens w id = one_if (is_Some (w_rows w !! id));
  wi_drivers : forall id, drivers w id <= 1;
  wi_unseen : forall t, t ∈ w_threads w -> is_Some (w_rows w !! thread_id t);
  wi_resuming : forall id, id ∈ w_resuming w ->
    (id ∉ w_stopped w) /\ (exists r, TDrive id r ∈ w_threads w);
  wi_flagged : forall id, id ∈ w_stopped w -> w_parked w !! id = None /\ is_Some (w_rows w !! id);
  wi_parked : forall id r, w_parked w !! id = Some r ->
    watched r /\ nonempty_ids r /\
    (w_rows w !! id = Some (row_blocked (waitReason r)) \/ w_rows w !! id = Some row_interrupted);
  wi_drive : forall id r, TDrive id r ∈ w_threads w -> r_waitingChild r = "" /\ nonempty_ids r;
}.

Ltac tok :=
  unfold one_if in *; simpl in *;
  repeat match goal with
  | |- context [decide ?P] => destruct (decide P)
  | H : context [decide ?P] |- _ => destruct (decide P)
  end; try lia; try naive_solver.

(** ** What each update does to the tokens *)

Section updates.
Context (w : World) (id : string).

Lemma tokens_add t : tokens (add_thread t w) id = tokens w id + thread_token (w_stopped w) id t.
Proof. unfold tokens, add_thread. simpl. rewrite sum_snoc. unfold parked_token, releases. simpl. lia. Qed.

Lemma drivers_add t : drivers (add_thread t w) id = drivers w id + drive_token id t.
Proof. unfold drivers, add_thread. simpl. rewrite sum_snoc. unfold parked_token. simpl. lia. Qed.

Lemma tokens_step i t t0 :
  w_threads w !! i = Some t0 ->
  tokens (step_thread i t w) id + thread_token (w_stopped w) id t0
  = tokens w id + from_option (thread_token (w_stopped w) id) 0 t.
Proof.
  intros Hi. unfold tokens, step_thread, parked_token, releases. destruct t as [t|]; simpl.
  - pose proof (sum_insert (thread_token (w_stopped w) id) _ _ _ t Hi). lia.
  - pose proof (sum_delete (thread_token (w_stopped w) id) _ _ _ Hi). lia.
Qed.

Lemma drivers_step i t t0 :
  w_threads w !! i = Some t0 ->
  drivers (step_thread i t w) id + drive_token id t0 = drivers w id + from_option (drive_token id) 0 t.
Proof.
  intros Hi. unfold drivers, step_thread, parked_token. destruct t as [t|]; simpl.
  - pose proof (sum_insert (drive_token id) _ _ _ t Hi). lia.
  - pose proof (sum_delete (drive_token id) _ _ _ Hi). lia.
Qed.

Lemma tokens_release j : tokens (release j w) id = tokens w id + one_if (j = id).
Proof. unfold tokens, release, releases, parked_token. simpl. rewrite sum_snoc. lia. Qed.

Lemma parked_token_park j r :
  parked_token (park j r w) id = if decide (j = id) then 1 else parked_token w id.
Proof.
  unfold parked_token, park, one_if. simpl. destruct (decide (j = id)) as [->|].
  - rewrite lookup_insert_eq. by rewrite decide_True by eauto.
  - by rewrite lookup_insert_ne.
Qed.

Lemma parked_token_unpark j :
  parked_token (unpark j w) id = if decide (j = id) then 0 else parked_token w id.
Proof.
  unfold parked_token, unpark, one_if. simpl. destruct (decide (j = id)) as [->|].
  - rewrite lookup_delete_eq. by rewrite decide_False by (by intros [? ?]).
  - by rewrite lookup_delete_ne.
Qed.

Lemma tokens_park j r :
  tokens (park j r w) id + parked_token w id = tokens w id + parked_token (park j r w) id.
Proof. unfold tokens, releases. simpl. lia. Qed.

Lemma tokens_unpark j :
  tokens (unpark j w) id + parked_token w id = tokens w id + parked_token (unpark j w) id.
Proof. unfold tokens, releases. simpl. lia. Qed.

Lemma drivers_park j r :
  drivers (park j r w) id + parked_token w id = drivers w id + parked_token (park j r w) id.
Proof. unfold drivers. simpl. lia. Qed.

Lemma drivers_unpark j :
  drivers (unpark j w) id + parked_token w id = drivers w id + parked_token (unpark j w) id.
Proof. unfold drivers. simpl. lia. Qed.

(** Flagging a run takes the token of its drive away. *)
Lemma tokens_flag j :
  j ∉ w_stopped w ->
  tokens (flag_stopped j w) id
  + (if decide (j = id) then sum_list_with (drive_token id) (w_threads w) else 0) = tokens w id.
Proof.
  intros Hj. unfold tokens, releases, parked_token. simpl.
  enough (sum_list_with (thread_token ({[j]} ∪ w_stopped w) id) (w_threads w)
          + (if decide (j = id) then sum_list_with (drive_token id) (w_threads w) else 0)
          = sum_list_with (thread_token (w_stopped w) id) (w_threads w)) by lia.
  induction (w_threads w) as [|t l IH]; simpl; [by destruct (decide _)|].
  enough (thread_token ({[j]} ∪ w_stopped w) id t + (if decide (j = id) then drive_token id t else 0)
          = thread_token (w_stopped w) id t) by (destruct (decide (j = id)); lia).
  destruct t as [i r|i b|i|i|i]; simpl; unfold one_if; destruct (decide (j = id)) as [->|]; try lia.
  - destruct (decide (i = id)), (decide (i = id /\ _)), (decide (i = id /\ _)); set_solver.
  - destruct (decide (i = id /\ _)), (decide (i = id /\ _)); set_solver.
Qed.

Lemma parked_le_tokens : parked_token w id <= tokens w id.
Proof. unfold tokens. lia. Qed.

Lemma parked_Some r : w_parked w !! id = Some r -> parked_token w id = 1.
Proof. intros H. unfold parked_token, one_if. rewrite H. by rewrite decide_True by eauto. Qed.

Lemma parked_None : w_parked w !! id = None <-> parked_token w id = 0.
Proof.
  unfold parked_token, one_if. destruct (w_parked w !! id).
  - by rewrite decide_True by eauto.
  - by rewrite decide_False by (by intros [? ?]).
Qed.
End updates.

(** ** Every step keeps the invariant *)

Section inv_facts.
Context (w : World) (Hw : world_inv w).

Lemma token_le id t : t ∈ w_threads w -> thread_token (w_stopped w) id t <= 1.
Proof. intros _. destruct t; simpl; unfold one_if; repeat case_decide; lia. Qed.

Lemma tokens_le id : tokens w id <= 1.
Proof. rewrite (wi_tokens _ Hw). unfold one_if. case_decide; lia. Qed.

(** A goroutine that holds the slot is its only holder. *)
Lemma holder_alone i t :
  w_threads w !! i = Some t -> thread_token (w_stopped w) (thread_id t) t = 1 ->
  w_parked w !! thread_id t = None /\ releases w (thread_id t) = 0
  /\ is_Some (w_rows w !! thread_id t).
Proof.
  intros Hi Ht. pose proof (tokens_le (thread_id t)) as Hle. unfold tokens in Hle.
  pose proof (sum_at (thread_token (w_stopped w) (thread_id t)) _ _ _ Hi).
  rewrite parked_None. split_and!; [lia..|]. apply (wi_unseen _ Hw). by eapply list_elem_of_lookup_2.
Qed.

(** So is the parked set. *)
Lemma parked_alone id r :
  w_parked w !! id = Some r ->
  sum_list_with (thread_token (w_stopped w) id) (w_threads w) = 0 /\ releases w id = 0
  /\ sum_list_with (drive_token id) (w_threads w) = 0 /\ is_Some (w_rows w !! id).
Proof.
  intros Hp. pose proof (parked_Some w id r Hp) as H1. pose proof (tokens_le id) as H2.
  pose proof (wi_drivers _ Hw id) as H3. unfold tokens, drivers in *. split_and!; [lia..|].
  destruct (wi_parked _ Hw _ _ Hp) as (_ & _ & [->| ->]); eauto.
Qed.

Lemma parked_no_thread id r t :
  w_parked w !! id = Some r -> t ∈ w_threads w -> thread_id t = id -> t = TStopPersist id.
Proof.
  intros Hp Hin <-. destruct (parked_alone _ _ Hp) as (H1 & _ & H3 & _).
  apply list_elem_of_lookup_1 in Hin as [i Hi].
  pose proof (sum_at (thread_token (w_stopped w) (thread_id t)) _ _ _ Hi) as H4.
  pose proof (sum_at (drive_token (thread_id t)) _ _ _ Hi) as H5.
  destruct t; simpl in *; unfold one_if in *; rewrite ?decide_True in H4 by done;
    rewrite ?decide_True in H5 by done; done || lia.
Qed.
End inv_facts.

Lemma drive_le stopped id l :
  id ∉ stopped -> sum_list_with (drive_token id) l <= sum_list_with (thread_token stopped id) l.
Proof.
  intros Hs. induction l as [|t l IH]; simpl; [lia|].
  enough (drive_token id t <= thread_token stopped id t) by lia.
  destruct t; simpl; unfold one_if; repeat case_decide; lia || naive_solver.
Qed.

Lemma row_token (m : gmap string Row) id row j :
  one_if (is_Some (<[id := row]> m !! j)) = if decide (id = j) then 1 else one_if (is_Some (m !! j)).
Proof.
  unfold one_if. destruct (decide (id = j)) as [->|Hne].
  - rewrite lookup_insert_eq. by rewrite decide_True by eauto.
  - by rewrite lookup_insert_ne.
Qed.

Lemma row_kept (m : gmap string Row) id row j : is_Some (m !! j) -> is_Some (<[id := row]> m !! j).
Proof. intros H. destruct (decide (id = j)) as [->|]; [rewrite lookup_insert_eq; eauto|by rewrite lookup_insert_ne]. Qed.

Lemma one_some {A} (m : gmap string A) j : is_Some (m !! j) -> one_if (is_Some (m !! j)) = 1.
Proof. intros H. unfold one_if. by rewrite decide_True. Qed.

(** A new goroutine that holds no slot, or one of an instance never seen. *)
Lemma start_inv w id wf cell ev :
  world_inv w -> w_rows w !! id = None -> "" ∉ st_ID <$> wc_Steps wf ->
  world_inv (add_thread (TDrive id (initDAG wf cell [] ev)) (put_row id row_running w)).
Proof.
  intros Hw Hrow Hne. pose proof (wi_tokens _ Hw id) as Ht. rewrite Hrow in Ht.
  assert (id ∉ w_stopped w) as Hs.
  { intros Hs. apply (wi_flagged _ Hw) in Hs as [_ [? ?]]. congruence. }
  assert (tokens w id = 0) as Ht0 by (rewrite Ht; unfold one_if; by rewrite decide_False by (by intros [? ?])).
  assert (drivers w id = 0) as Hd0.
  { pose proof (drive_le _ _ (w_threads w) Hs). unfold drivers, tokens in *. lia. }
  split.
  - intros j. rewrite tokens_add. change (tokens (put_row id row_running w) j) with (tokens w j).
    simpl. rewrite row_token. destruct (decide (id = j)) as [->|Hj].
    + rewrite Ht0. unfold one_if. by rewrite decide_True.
    + rewrite (wi_tokens _ Hw). unfold one_if at 2. rewrite decide_False by naive_solver. lia.
  - intros j. rewrite drivers_add. change (drivers (put_row id row_running w) j) with (drivers w j).
    simpl. unfold one_if. destruct (decide (id = j)) as [->|Hj]; [lia|]. pose proof (wi_drivers _ Hw j). lia.
  - intros t [Hin|Hin]%elem_of_app.
    + apply row_kept. by apply (wi_unseen _ Hw).
    + apply list_elem_of_singleton in Hin as ->. simpl. rewrite lookup_insert_eq. eauto.
  - intros j Hj. destruct (wi_resuming _ Hw j Hj) as [H1 [r H2]]. split; [done|]. exists r.
    apply elem_of_app. by left.
  - intros j Hj. destruct (wi_flagged _ Hw j Hj). split; [done|]. by apply row_kept.
  - intros j r Hj. destruct (wi_parked _ Hw j r Hj) as (H1 & H2 & H3). split_and!; [done..|].
    simpl. assert (id <> j) by (intros ->; destruct H3 as [H3|H3]; simpl in *; congruence).
    by rewrite lookup_insert_ne.
  - intros j r [Hin|Hin]%elem_of_app; [by eapply (wi_drive _ Hw)|].
    apply list_elem_of_singleton in Hin. injection Hin as -> ->. split; done.
Qed.

(** A goroutine moves on, with the rows and the releases it leaves. *)
Definition moved (i : nat) (t : option Thread) (rows : gmap string Row) (released : list string)
    (w : World) : World := {|
  w_parked := w_parked w; w_resuming := w_resuming w; w_stopped := w_stopped w; w_rows := rows;
  w_threads := w_threads (step_thread i t w); w_released := released |}.

(** It touches at most the row of its own instance and keeps every slot. *)
Lemma move_inv w i t t0 rows released :
  world_inv w -> w_threads w !! i = Some t0 ->
  (forall j, thread_token (w_stopped w) j t0 + releases w j
             = from_option (thread_token (w_stopped w) j) 0 t
               + sum_list_with (fun x => one_if (x = j)) released) ->
  (forall u, t = Some u -> thread_id u = thread_id t0 /\ drive_token (thread_id t0) u = 0) ->
  drive_token (thread_id t0) t0 = 0 ->
  rows = w_rows w \/ (exists row, rows = <[thread_id t0 := row]> (w_rows w)
                       /\ (w_parked w !! thread_id t0 = None \/ row = row_interrupted)) ->
  world_inv (moved i t rows released w).
Proof.
  intros Hw Hi Htok Hu Ht0 Hrows.
  assert (is_Some (w_rows w !! thread_id t0)) as Hsome
    by (apply (wi_unseen _ Hw); by eapply list_elem_of_lookup_2).
  assert (forall j, is_Some (w_rows w !! j) <-> is_Some (rows !! j)) as Hdom.
  { intros j. destruct Hrows as [->|(row & -> & _)]; [done|]. split; [apply row_kept|].
    destruct (decide (thread_id t0 = j)) as [<-|Hj]; [done|by rewrite lookup_insert_ne]. }
  assert (forall u, u ∈ w_threads (step_thread i t w) -> u ∈ w_threads w \/ t = Some u) as Hin
    by (intros u; apply elem_step_thread).
  assert (forall u id r, u = TDrive id r -> drive_token (thread_id t0) u = 0 ->
            thread_id u = thread_id t0 -> False) as Hnd.
  { intros u id r -> H1 H2. simpl in *. subst id. unfold one_if in H1. by rewrite decide_True in H1. }
  split.
  - intros j. pose proof (tokens_step w j i t t0 Hi) as Hst. pose proof (wi_tokens _ Hw j) as Hwt.
    specialize (Htok j). unfold tokens, parked_token, releases in *. simpl in *.
    replace (one_if (is_Some (rows !! j))) with (one_if (is_Some (w_rows w !! j))); [lia|].
    unfold one_if. destruct (decide _), (decide _); naive_solver.
  - intros j. pose proof (drivers_step w j i t t0 Hi) as Hst. pose proof (wi_drivers _ Hw j) as Hd.
    assert (from_option (drive_token j) 0 t = 0) as E.
    { destruct t as [u|]; [|done]. destruct (Hu u eq_refl) as [E1 E2]. destruct u; try done.
      destruct (Hnd _ _ _ eq_refl E2 E1). }
    unfold drivers, parked_token in *. simpl in *. lia.
  - intros u [Hu'|Hu']%Hin; apply Hdom; [by apply (wi_unseen _ Hw)|].
    destruct (Hu u Hu') as [-> _]. done.
  - intros j Hj. destruct (wi_resuming _ Hw j Hj) as [H1 [r H2]].
    split; [done|]. exists r. eapply mem_step_thread; [done..|]. intros E. symmetry in E.
    by destruct (Hnd _ _ _ E Ht0).
  - intros j Hj. destruct (wi_flagged _ Hw j Hj). split; [done|by apply Hdom].
  - intros j r Hj. simpl in Hj. destruct (wi_parked _ Hw j r Hj) as (H1 & H2 & H3).
    split_and!; [done..|]. simpl. destruct Hrows as [->|(row & -> & Hrow)]; [done|].
    destruct (decide (thread_id t0 = j)) as [<-|Hne]; [|by rewrite lookup_insert_ne].
    rewrite lookup_insert_eq. destruct Hrow as [H| ->]; [rewrite H in Hj; discriminate|by right].
  - intros j r [Hd|Hd]%Hin; [by eapply (wi_drive _ Hw)|].
    destruct (Hu _ Hd) as [E1 E2]. destruct (Hnd _ _ _ eq_refl E2 E1).
Qed.

Lemma releases_snoc (l : list string) (id j : string) :
  sum_list_with (fun x => one_if (x = j)) (l ++ [id])
  = sum_list_with (fun x => one_if (x = j)) l + one_if (id = j).
Proof. apply (sum_snoc (fun x => one_if (x = j))). Qed.

Lemma persist_inv w i id failed :
  world_inv w -> w_threads w !! i = Some (TPersist id failed) ->
  world_inv (put_row id (finalRow failed) (step_thread i (Some (TComplete id)) w)).
Proof.
  intros Hw Hi. destruct (holder_alone w Hw i _ Hi) as (Hp & _ & _).
  { simpl. unfold one_if. by rewrite decide_True. }
  apply (move_inv w i (Some (TComplete id)) (TPersist id failed) (<[id := finalRow failed]> (w_rows w))
           (w_released w)); try done.
  - by intros u [= <-].
  - right. eauto.
Qed.

Lemma complete_inv w i id :
  world_inv w -> w_threads w !! i = Some (TComplete id) -> world_inv (release id (step_thread i None w)).
Proof.
  intros Hw Hi. apply (move_inv w i None (TComplete id) (w_rows w) (w_released w ++ [id])); try done.
  - intros j. rewrite releases_snoc. simpl. unfold releases. lia.
  - by left.
Qed.

Lemma stop_release_inv w i id :
  world_inv w -> w_threads w !! i = Some (TStopRelease id) ->
  world_inv (release id (step_thread i (Some (TStopPersist id)) w)).
Proof.
  intros Hw Hi.
  apply (move_inv w i (Some (TStopPersist id)) (TStopRelease id) (w_rows w) (w_released w ++ [id])); try done.
  - intros j. rewrite releases_snoc. simpl. unfold releases. lia.
  - by intros u [= <-].
  - by left.
Qed.

Lemma stop_persist_inv w i id :
  world_inv w -> w_threads w !! i = Some (TStopPersist id) ->
  world_inv (put_row id row_interrupted (step_thread i None w)).
Proof.
  intros Hw Hi. apply (move_inv w i None (TStopPersist id) (<[id := row_interrupted]> (w_rows w))
    (w_released w)); try done.
  right. eauto.
Qed.

(** Dropping a parked run whose row is dead. *)
Lemma drop_inv w id r :
  world_inv w -> w_parked w !! id = Some r -> world_inv (dropParked id w).
Proof.
  intros Hw Hp. split.
  - intros j. transitivity (tokens w j); [|exact (wi_tokens _ Hw j)].
    unfold dropParked. rewrite tokens_release. pose proof (tokens_unpark w j id) as H.
    rewrite parked_token_unpark in H. unfold one_if. destruct (decide (id = j)) as [->|]; [|lia].
    rewrite (parked_Some _ _ _ Hp) in H. lia.
  - intros j. unfold dropParked. change (drivers (release id (unpark id w)) j) with (drivers (unpark id w) j).
    pose proof (drivers_unpark w j id) as H. rewrite parked_token_unpark in H.
    pose proof (wi_drivers _ Hw j). destruct (decide (id = j)); lia.
  - apply (wi_unseen _ Hw).
  - apply (wi_resuming _ Hw).
  - intros j Hj. destruct (wi_flagged _ Hw j Hj) as [H1 H2]. split; [|done]. simpl.
    apply lookup_delete_None. by right.
  - intros j r' Hj. simpl in Hj. apply lookup_delete_Some in Hj as [_ Hj]. by eapply (wi_parked _ Hw).
  - apply (wi_drive _ Hw).
Qed.

(** A wake or a response claims a parked run. *)
Lemma claimed_inv w id r r' :
  world_inv w -> w_parked w !! id = Some r -> r_waitingChild r' = "" -> nonempty_ids r' ->
  world_inv (claimParked id r' w).
Proof.
  intros Hw Hp Hc Hn. destruct (parked_alone w Hw id r Hp) as (Ht & Hr & Hd & Hrow).
  assert (id ∉ w_stopped w) as Hs by (intros Hs; apply (wi_flagged _ Hw) in Hs as [? _]; congruence).
  split.
  - intros j. unfold claimParked. rewrite tokens_add.
    change (tokens (put_row id row_running (set_resuming ({[id]} ∪ w_resuming w) (unpark id w))) j)
      with (tokens (unpark id w) j). simpl. rewrite row_token.
    pose proof (tokens_unpark w j id) as H. rewrite parked_token_unpark in H.
    pose proof (wi_tokens _ Hw j) as Hj. unfold one_if at 1.
    destruct (decide (id = j)) as [->|Hne].
    + rewrite (parked_Some _ _ _ Hp) in H. rewrite decide_True by done. rewrite Hj, one_some in H by done. lia.
    + rewrite decide_False by naive_solver. lia.
  - intros j. unfold claimParked. rewrite drivers_add.
    change (drivers (put_row id row_running (set_resuming ({[id]} ∪ w_resuming w) (unpark id w))) j)
      with (drivers (unpark id w) j). simpl.
    pose proof (drivers_unpark w j id) as H. rewrite parked_token_unpark in H.
    pose proof (wi_drivers _ Hw j) as Hj. unfold one_if. destruct (decide (id = j)) as [->|Hne]; [|lia].
    rewrite (parked_Some _ _ _ Hp) in H. lia.
  - intros t [Hin|Hin]%elem_of_app; simpl; [apply row_kept; by apply (wi_unseen _ Hw)|].
    apply list_elem_of_singleton in Hin as ->. simpl. rewrite lookup_insert_eq. eauto.
  - intros j Hj. simpl in Hj. apply elem_of_union in Hj as [Hj|Hj].
    + apply elem_of_singleton in Hj as ->. split; [done|]. exists r'. apply elem_of_app. right.
      apply list_elem_of_here.
    + destruct (wi_resuming _ Hw j Hj) as [H1 [r0 H2]]. split; [done|]. exists r0. apply elem_of_app. by left.
  - intros j Hj. destruct (wi_flagged _ Hw j Hj) as [H1 H2]. split; [|by apply row_kept]. simpl.
    apply lookup_delete_None. by right.
  - intros j r0 Hj. simpl in *. apply lookup_delete_Some in Hj as [Hne Hj].
    destruct (wi_parked _ Hw j r0 Hj) as (H1 & H2 & H3). rewrite lookup_insert_ne by done. done.
  - intros j r0 [Hin|Hin]%elem_of_app; [by eapply (wi_drive _ Hw)|].
    apply list_elem_of_singleton in Hin. injection Hin as -> ->. done.
Qed.

(** Adding a goroutine of a known instance that drives nothing. *)
Lemma add_unseen w t :
  world_inv w -> is_Some (w_rows w !! thread_id t) ->
  forall u, u ∈ w_threads (add_thread t w) -> is_Some (w_rows w !! thread_id u).
Proof.
  intros Hw Ht u [Hu|Hu]%elem_of_app; [by apply (wi_unseen _ Hw)|].
  by apply list_elem_of_singleton in Hu as ->.
Qed.

Lemma stop_inv w id :
  world_inv w -> is_Some (w_rows w !! id) ->
  world_inv (add_thread (if (stopLocked id w).2 then TStopRelease id else TStopPersist id)
               (stopLocked id w).1).
Proof.
  intros Hw Hrow. unfold stopLocked. destruct (w_parked w !! id) as [r|] eqn:Hp.
  - simpl. split.
    + intros j. rewrite tokens_add. simpl. pose proof (tokens_unpark w j id) as H.
      rewrite parked_token_unpark in H. pose proof (wi_tokens _ Hw j) as Hj. unfold one_if at 1.
      destruct (decide (id = j)) as [->|]; [|lia]. rewrite (parked_Some _ _ _ Hp) in H. lia.
    + intros j. rewrite drivers_add. simpl. pose proof (drivers_unpark w j id) as H.
      rewrite parked_token_unpark in H. pose proof (wi_drivers _ Hw j). destruct (decide (id = j)); lia.
    + by apply (add_unseen w).
    + intros j Hj. destruct (wi_resuming _ Hw j Hj) as [H1 [r0 H2]]. split; [done|]. exists r0.
      apply elem_of_app. by left.
    + intros j Hj. destruct (wi_flagged _ Hw j Hj) as [H1 H2]. split; [|done]. simpl.
      apply lookup_delete_None. by right.
    + intros j r0 Hj. simpl in *. apply lookup_delete_Some in Hj as [_ Hj]. by apply (wi_parked _ Hw).
    + intros j r0 [Hin|Hin]%elem_of_app; [by eapply (wi_drive _ Hw)|].
      apply list_elem_of_singleton in Hin. discriminate.
  - destruct (decide (id ∈ w_resuming w)) as [Hres|Hres]; simpl.
    + destruct (wi_resuming _ Hw id Hres) as [Hns [r0 Hin0]]. split.
      * intros j. rewrite tokens_add. simpl.
        change (tokens (set_resuming (w_resuming w ∖ {[id]}) (flag_stopped id w)) j)
          with (tokens (flag_stopped id w) j).
        pose proof (tokens_flag w j id Hns) as H. pose proof (wi_tokens _ Hw j) as Hj.
        unfold one_if at 1. destruct (decide (id = j)) as [<-|]; [|lia].
        assert (sum_list_with (drive_token id) (w_threads w) = 1) as Hd; [|lia].
        pose proof (wi_drivers _ Hw id) as Hle. unfold drivers in Hle.
        apply list_elem_of_lookup_1 in Hin0 as [i Hi].
        pose proof (sum_at (drive_token id) _ _ _ Hi) as Hat. simpl in Hat. unfold one_if at 1 in Hat.
        rewrite decide_True in Hat by done. lia.
      * intros j. rewrite drivers_add. pose proof (wi_drivers _ Hw j). unfold drivers, parked_token in *.
        simpl. lia.
      * by apply (add_unseen w).
      * intros j Hj. simpl in Hj. apply elem_of_difference in Hj as [Hj Hne].
        destruct (wi_resuming _ Hw j Hj) as [H1 [r1 H2]]. split; [simpl; set_solver|]. exists r1.
        apply elem_of_app. by left.
      * intros j Hj. simpl in Hj. apply elem_of_union in Hj as [Hj|Hj]; [|by apply (wi_flagged _ Hw)].
        apply elem_of_singleton in Hj as ->. done.
      * apply (wi_parked _ Hw).
      * intros j r1 [Hin|Hin]%elem_of_app; [by eapply (wi_drive _ Hw)|].
        apply list_elem_of_singleton in Hin. discriminate.
    + split; [| |by apply (add_unseen w)| | | |].
      * intros j. rewrite tokens_add. simpl. rewrite Nat.add_0_r. apply (wi_tokens _ Hw).
      * intros j. rewrite drivers_add. simpl. rewrite Nat.add_0_r. apply (wi_drivers _ Hw).
      * intros j Hj. destruct (wi_resuming _ Hw j Hj) as [H1 [r1 H2]]. split; [done|]. exists r1.
        apply elem_of_app. by left.
      * apply (wi_flagged _ Hw).
      * apply (wi_parked _ Hw).
      * intros j r1 [Hin|Hin]%elem_of_app; [by eapply (wi_drive _ Hw)|].
        apply list_elem_of_singleton in Hin. discriminate.
Qed.

(** The goroutine of a stopped run just returns. *)
Lemma settle_stopped_inv w i id r :
  world_inv w -> w_threads w !! i = Some (TDrive id r) -> id ∈ w_stopped w ->
  world_inv (step_thread i None w).
Proof.
  intros Hw Hi Hs. assert (forall u, u ∈ w_threads (step_thread i None w) -> u ∈ w_threads w) as Hin.
  { intros u Hu. by apply elem_step_thread in Hu as [|]. }
  split.
  - intros j. pose proof (tokens_step w j i None _ Hi) as H. simpl in H.
    transitivity (tokens w j); [|exact (wi_tokens _ Hw j)]. unfold one_if in H.
    rewrite decide_False in H by naive_solver. lia.
  - intros j. pose proof (drivers_step w j i None _ Hi) as H. pose proof (wi_drivers _ Hw j). simpl in H. lia.
  - intros u Hu. by apply (wi_unseen _ Hw), Hin.
  - intros j Hj. destruct (wi_resuming _ Hw j Hj) as [H1 [r1 H2]]. split; [done|]. exists r1.
    eapply mem_step_thread; [done..|]. intros [= -> _]. done.
  - apply (wi_flagged _ Hw).
  - apply (wi_parked _ Hw).
  - intros j r1 Hj. by eapply (wi_drive _ Hw), Hin.
Qed.

(** A suspended run is parked. *)
Lemma settle_wait_inv w i id r r' :
  world_inv w -> w_threads w !! i = Some (TDrive id r) -> id ∉ w_stopped w ->
  watched r' -> nonempty_ids r' ->
  world_inv (set_resuming (w_resuming w ∖ {[id]})
    (park id r' (put_row id (row_blocked (waitReason r')) (step_thread i None w)))).
Proof.
  intros Hw Hi Hs Hwa Hn. destruct (holder_alone w Hw i _ Hi) as (Hp & Hr & Hrow).
  { simpl. unfold one_if. by rewrite decide_True. }
  simpl in Hp, Hr, Hrow.
  assert (forall u, u ∈ w_threads (step_thread i None w) -> u ∈ w_threads w) as Hin.
  { intros u Hu. by apply elem_step_thread in Hu as [|]. }
  apply (proj1 (parked_None _ _)) in Hp as Hp0.
  split.
  - intros j. pose proof (tokens_step w j i None _ Hi) as H. simpl in H.
    change (tokens (park id r' (step_thread i None w)) j
            = one_if (is_Some (<[id := row_blocked (waitReason r')]> (w_rows w) !! j))).
    rewrite row_token. pose proof (tokens_park (step_thread i None w) j id r') as Hk.
    rewrite parked_token_park in Hk. pose proof (wi_tokens _ Hw j) as Hj.
    change (parked_token (step_thread i None w) j) with (parked_token w j) in Hk.
    unfold one_if in H. destruct (decide (id = j)) as [<-|].
    + rewrite decide_True in H by done. rewrite one_some in Hj by done. lia.
    + rewrite decide_False in H by naive_solver. lia.
  - intros j. pose proof (drivers_step w j i None _ Hi) as H. simpl in H.
    change (drivers (park id r' (step_thread i None w)) j <= 1).
    pose proof (drivers_park (step_thread i None w) j id r') as Hk.
    rewrite parked_token_park in Hk. pose proof (wi_drivers _ Hw j) as Hj.
    change (parked_token (step_thread i None w) j) with (parked_token w j) in Hk.
    unfold one_if in H. destruct (decide (id = j)) as [<-|]; lia.
  - intros u Hu. apply row_kept. by apply (wi_unseen _ Hw), Hin.
  - intros j Hj. simpl in Hj. apply elem_of_difference in Hj as [Hj Hne].
    destruct (wi_resuming _ Hw j Hj) as [H1 [r1 H2]]. split; [done|]. exists r1.
    eapply mem_step_thread; [done..|]. intros [= -> _]. set_solver.
  - intros j Hj. destruct (wi_flagged _ Hw j Hj) as [H1 H2]. split; [|by apply row_kept]. simpl.
    rewrite lookup_insert_ne by (intros ->; done). done.
  - intros j r1 Hj. simpl in *. destruct (decide (id = j)) as [<-|Hne].
    + rewrite lookup_insert_eq in Hj. injection Hj as <-. rewrite lookup_insert_eq. auto.
    + rewrite lookup_insert_ne in Hj by done. destruct (wi_parked _ Hw j r1 Hj) as (H1 & H2 & H3).
      by rewrite lookup_insert_ne.
  - intros j r1 Hj. by eapply (wi_drive _ Hw), Hin.
Qed.

(** A finished run goes on to persist its outcome. *)
Lemma settle_end_inv w i id r failed :
  world_inv w -> w_threads w !! i = Some (TDrive id r) -> id ∉ w_stopped w ->
  world_inv (set_resuming (w_resuming w ∖ {[id]}) (unpark id (step_thread i (Some (TPersist id failed)) w))).
Proof.
  intros Hw Hi Hs. destruct (holder_alone w Hw i _ Hi) as (Hp & Hr & Hrow).
  { simpl. unfold one_if. by rewrite decide_True. }
  simpl in Hp, Hr, Hrow.
  assert (unpark id (step_thread i (Some (TPersist id failed)) w) = step_thread i (Some (TPersist id failed)) w)
    as Eu by (unfold unpark, step_thread; simpl; by rewrite delete_id).
  rewrite Eu. split.
  - intros j. pose proof (tokens_step w j i (Some (TPersist id failed)) _ Hi) as H. simpl in H.
    change (tokens (step_thread i (Some (TPersist id failed)) w) j = one_if (is_Some (w_rows w !! j))).
    rewrite <- (wi_tokens _ Hw j). unfold one_if in H. destruct (decide (id = j)) as [<-|].
    + rewrite decide_True in H by done. lia.
    + rewrite decide_False in H by naive_solver. lia.
  - intros j. pose proof (drivers_step w j i (Some (TPersist id failed)) _ Hi) as H. simpl in H.
    pose proof (wi_drivers _ Hw j). change (drivers (step_thread i (Some (TPersist id failed)) w) j <= 1). lia.
  - intros u Hu. apply elem_step_thread in Hu as [Hu|[= <-]]; [by apply (wi_unseen _ Hw)|done].
  - intros j Hj. simpl in Hj. apply elem_of_difference in Hj as [Hj Hne].
    destruct (wi_resuming _ Hw j Hj) as [H1 [r1 H2]]. split; [done|]. exists r1.
    eapply mem_step_thread; [done..|]. intros [= -> _]. set_solver.
  - apply (wi_flagged _ Hw).
  - apply (wi_parked _ Hw).
  - intros j r1 Hj. apply elem_step_thread in Hj as [Hj|[=]]. by eapply (wi_drive _ Hw).
Qed.

Section world.
Context {RT : GoRuntime} {DG : Diagnostics} (concurrency : Z).

Lemma drives_spec w id r o r' :
  world_inv w -> TDrive id r ∈ w_threads w -> drives concurrency w id r o r' ->
  (o = outcomeWaiting -> watched r' /\ nonempty_ids r')
  /\ (id ∉ w_stopped w -> o <> outcomeStopped).
Proof.
  intros Hw Hin (fuel & events & Hd & Hfit & Hq). destruct (wi_drive _ Hw _ _ Hin) as [Hc Hn]. split.
  - intros Ho. destruct (drive_park concurrency (r_wf r) fuel events (start r) o r') as [H1 H2];
      [done| |done..|].
    + split; [done|done|]. intros f Hf. by apply elem_of_nil in Hf.
    + split; [done|]. unfold nonempty_ids. by rewrite H2.
  - intros Hs. eapply drive_stopped; [|by apply Hq|exact Hd]. done.
Qed.

Lemma pstep_inv w w' : pstep concurrency w w' -> world_inv w -> world_inv w'.
Proof.
  intros Hs Hw. destruct Hs as [w id wf cell ev Hr Hne|w i id r o r' Hi Hd|w i id failed Hi|w i id Hi
    |w id r Hp _|w id r Hp _|w id r a Hp _ Ha|w id row Hr|w i id Hi|w i id Hi].
  - by apply start_inv.
  - destruct (drives_spec w id r o r' Hw) as [H1 H2]; [by eapply list_elem_of_lookup_2|done|].
    unfold settleLocked. destruct (decide (id ∈ w_stopped w)); [by eapply settle_stopped_inv|].
    destruct o; [by eapply settle_end_inv..| |by eapply settle_end_inv].
    destruct (H1 eq_refl). by eapply settle_wait_inv.
  - by apply persist_inv.
  - by apply complete_inv.
  - by eapply drop_inv.
  - destruct (wi_parked _ Hw _ _ Hp) as (_ & Hn & _). by eapply claimed_inv.
  - destruct (wi_parked _ Hw _ _ Hp) as ([_ Hc] & Hn & _). eapply claimed_inv; [done..| |].
    + unfold applyResponse, resolveApproval. destruct (response_decision a); simpl; by apply Hc.
    + unfold applyResponse, resolveApproval. by destruct (response_decision a).
  - apply stop_inv; eauto.
  - by apply stop_release_inv.
  - by apply stop_persist_inv.
Qed.

Lemma reachable_inv w : world_reachable concurrency w -> world_inv w.
Proof.
  intros H. revert w H. apply (rtc_ind_r (R := pstep concurrency) world_inv initial_world).
  - split; simpl; try done; try (intros; set_solver); intros; by rewrite lookup_empty in *.
  - intros x y _ Hxy Hx. by eapply pstep_inv.
Qed.

(** ** A stopped instance stays stopped *)

(** The engine has let the instance go: no one may advance or settle it. *)
Definition let_go (w : World) (id : string) : Prop :=
  w_parked w !! id = None /\ (id ∉ w_resuming w) /\ is_Some (w_rows w !! id)
  /\ (forall t, t ∈ w_threads w -> thread_id t = id -> thread_token (w_stopped w) id t = 1 -> t = TStopRelease id).

(** A stop of it has still to persist. *)
Definition stop_pending (w : World) (id : string) : Prop :=
  TStopRelease id ∈ w_threads w \/ TStopPersist id ∈ w_threads w.

Definition stopped_out (w : World) (id : string) : Prop :=
  let_go w id /\ (stop_pending w id \/ w_rows w !! id = Some row_interrupted).

End world.

Lemma token_flag S S' id t :
  (id ∈ S' <-> id ∈ S) -> thread_token S' id t = thread_token S id t.
Proof.
  intros H. destruct t as [i r|i b|i|i|i]; simpl; try done. unfold one_if.
  destruct (decide (i = id /\ id ∉ S')), (decide (i = id /\ id ∉ S)); naive_solver.
Qed.

(** What a step must leave alone for [let_go] to last. *)
Lemma let_go_frame w w' id :
  let_go w id -> w_parked w' !! id = None -> w_resuming w' ⊆ w_resuming w ∪ (w_resuming w' ∖ {[id]}) ->
  (is_Some (w_rows w !! id) -> is_Some (w_rows w' !! id)) -> (id ∈ w_stopped w' <-> id ∈ w_stopped w) ->
  (forall t, t ∈ w_threads w' -> thread_id t = id ->
     t ∈ w_threads w \/ t = TStopRelease id \/ t = TStopPersist id) ->
  let_go w' id.
Proof.
  intros (H1 & H2 & H3 & H4) Hp Hr Hrow Hs Ht. split_and!; [done|set_solver|auto|].
  intros t Hin Hid Htok. rewrite (token_flag (w_stopped w)) in Htok by done.
  destruct (Ht t Hin Hid) as [Ht'|[->| ->]]; [auto|done|done].
Qed.

(** The goroutine that moves is not one that holds a live slot of [id]. *)
Lemma let_go_other w id i t :
  let_go w id -> w_threads w !! i = Some t -> thread_token (w_stopped w) (thread_id t) t = 1 ->
  t <> TStopRelease (thread_id t) -> thread_id t <> id.
Proof.
  intros (_ & _ & _ & H) Hi Htok Hne <-. apply Hne, H; [by eapply list_elem_of_lookup_2|done..].
Qed.

Lemma stop_pending_mono w w' id :
  (forall t, t = TStopRelease id \/ t = TStopPersist id -> t ∈ w_threads w -> t ∈ w_threads w') ->
  stop_pending w id -> stop_pending w' id.
Proof. intros H [Hp|Hp]; [left|right]; apply H; auto. Qed.

Lemma token_self S t : (forall id, t <> TStopPersist id) -> (forall id r, t = TDrive id r -> id ∉ S) ->
  thread_token S (thread_id t) t = 1.
Proof.
  intros H1 H2. destruct t as [i r|i b|i|i|i]; simpl; unfold one_if; rewrite ?decide_True; try done.
  - split; [done|]. by eapply H2.
  - by destruct (H1 i).
Qed.

(** What the operations do to a run that has been let go: nothing. *)
Lemma settle_stopped_out w i id0 r o r' id :
  stopped_out w id -> w_threads w !! i = Some (TDrive id0 r) -> stopped_out (settleLocked i id0 o r' w) id.
Proof.
  intros [Hl Hp] Hi. unfold settleLocked.
  assert (forall t u, (forall x, t = Some x -> thread_id x = id0 /\ thread_id x <> id) ->
    u ∈ w_threads (step_thread i t w) -> thread_id u = id ->
    u ∈ w_threads w \/ u = TStopRelease id \/ u = TStopPersist id) as Hold.
  { intros t u Ht [Hu| ->]%elem_step_thread Hid; [by left|]. destruct (Ht u eq_refl). done. }
  assert (forall t, stop_pending w id -> stop_pending (step_thread i t w) id) as Hmono.
  { intros t. apply stop_pending_mono. intros u Hu Hin. eapply mem_step_thread; [done..|].
    by destruct Hu as [->| ->]. }
  destruct (decide (id0 ∈ w_stopped w)) as [Hs|Hs].
  { split; [|by destruct Hp; [left; apply Hmono|right]].
    apply (let_go_frame w); try done; [apply Hl|set_solver|]. intros t. by apply Hold. }
  assert (id0 <> id) as Hne.
  { apply (let_go_other w id i (TDrive id0 r)); try done. apply token_self; [done|]. by intros ? ? [= <- _]. }
  assert (forall x, x = outcomeWaiting \/ x <> outcomeWaiting) as Hcase by (intros []; auto).
  destruct (Hcase o) as [->|Ho].
  - split.
    + apply (let_go_frame w); try done; simpl.
      * rewrite lookup_insert_ne by done. apply Hl.
      * set_solver.
      * intros Hrow. by apply row_kept.
      * intros t. by apply (Hold None).
    + simpl. rewrite lookup_insert_ne by done. destruct Hp as [Hp|Hp]; [left; by apply (Hmono None)|by right].
  - assert (stopped_out (set_resuming (w_resuming w ∖ {[id0]})
      (unpark id0 (step_thread i (Some (TPersist id0 (bool_decide (o = outcomeFailed)))) w))) id) as H;
      [|by destruct o].
    split.
    + apply (let_go_frame w); try done; simpl.
      * apply lookup_delete_None. right. apply Hl.
      * set_solver.
      * intros t. apply (Hold (Some _)). by intros x [= <-].
    + destruct Hp as [Hp|Hp]; [left; by apply (Hmono (Some _))|by right].
Qed.

(** A goroutine past its critical section. *)
Lemma moved_stopped_out w i t t0 rows released id :
  stopped_out w id -> w_threads w !! i = Some t0 ->
  (forall r, t0 <> TDrive id r) ->
  (forall u, t = Some u -> thread_id u = thread_id t0 /\ (thread_id u = id -> u = TStopPersist id)) ->
  (thread_id t0 = id -> rows !! id = Some row_interrupted \/ (t = Some (TStopPersist id) /\ rows = w_rows w)) ->
  (thread_id t0 <> id -> rows !! id = w_rows w !! id) ->
  stopped_out (moved i t rows released w) id.
Proof.
  intros [Hl Hp] Hi Hnd Ht Hsame Hdiff. assert (forall u, u ∈ w_threads (step_thread i t w) ->
    thread_id u = id -> u ∈ w_threads w \/ u = TStopRelease id \/ u = TStopPersist id) as Hold.
  { intros u [Hu| ->]%elem_step_thread Hid; [by left|]. destruct (Ht u eq_refl) as [_ H]. auto. }
  split.
  - apply (let_go_frame w); try done; [apply Hl|set_solver|]. simpl. intros Hrow.
    destruct (decide (thread_id t0 = id)) as [E|E]; [|by rewrite Hdiff].
    destruct (Hsame E) as [->|[_ ->]]; [eauto|done].
  - simpl. destruct (decide (thread_id t0 = id)) as [E|E].
    + destruct (Hsame E) as [H|[-> _]]; [by right|left]. right. unfold moved. simpl.
      apply list_elem_of_lookup_2 with i. apply list_lookup_insert_eq. by eapply lookup_lt_Some.
    + destruct Hp as [Hp|Hp]; [left|right; by rewrite Hdiff].
      revert Hp. apply stop_pending_mono. intros u Hu Hin.
      apply (mem_step_thread i t w t0 u); [done..|]. intros ->. destruct Hu as [->| ->]; done.
Qed.

(** A goroutine that starts driving another instance. *)
Lemma add_stopped_out w t id :
  stopped_out w id -> thread_id t <> id \/ t = TStopPersist id -> stopped_out (add_thread t w) id.
Proof.
  intros [Hl Hp] Ht. split.
  - apply (let_go_frame w); try done; [apply Hl|set_solver|]. simpl.
    intros u [Hu|Hu]%elem_of_app Hid; [by left|]. apply list_elem_of_singleton in Hu as ->. naive_solver.
  - destruct Hp as [Hp|Hp]; [left|by right]. revert Hp. apply stop_pending_mono.
    intros u _ Hu. simpl. apply elem_of_app. by left.
Qed.

Lemma put_stopped_out w id0 row id : stopped_out w id -> id0 <> id -> stopped_out (put_row id0 row w) id.
Proof.
  intros [Hl Hp] Hne. split.
  - apply (let_go_frame w); try done; [apply Hl|set_solver| |auto]. apply row_kept.
  - simpl. by rewrite lookup_insert_ne.
Qed.

Lemma claimed_stopped_out w id0 r id :
  stopped_out w id -> id0 <> id -> stopped_out (claimParked id0 r w) id.
Proof.
  intros Hout Hne. apply add_stopped_out; [|by left]. apply put_stopped_out; [|done].
  destruct Hout as [Hl Hp]. split; [|done].
  apply (let_go_frame w); try done; simpl; [|set_solver|auto].
  apply lookup_delete_None. right. apply Hl.
Qed.

Lemma stop_stopped_out w id0 id :
  stopped_out w id ->
  stopped_out (add_thread (if (stopLocked id0 w).2 then TStopRelease id0 else TStopPersist id0)
                 (stopLocked id0 w).1) id.
Proof.
  intros Hout. pose proof Hout as [(L1 & L2 & L3 & L4) Hp].
  unfold stopLocked. destruct (w_parked w !! id0) as [r|] eqn:Hpk.
  - assert (id0 <> id) by congruence. apply add_stopped_out; [|by left]. split; [|done].
    apply (let_go_frame w); try done; simpl; [|set_solver|auto].
    apply lookup_delete_None. by right.
  - destruct (decide (id0 ∈ w_resuming w)) as [Hr|Hr]; simpl.
    + assert (id0 <> id) by congruence. apply add_stopped_out; [|by left]. split; [|done].
      apply (let_go_frame w); try done; simpl; [set_solver..|auto].
    + apply add_stopped_out; [done|]. simpl. destruct (decide (id0 = id)) as [->|]; auto.
Qed.

Lemma pstep_stopped_out concurrency {RT : GoRuntime} {DG : Diagnostics} w w' id :
  pstep concurrency w w' -> stopped_out w id -> stopped_out w' id.
Proof.
  intros Hs Hout. pose proof Hout as [Hl Hp]. pose proof Hl as (L1 & L2 & L3 & L4).
  destruct Hs as [w id0 wf cell ev Hr Hne|w i id0 r o r' Hi Hd|w i id0 failed Hi|w i id0 Hi
    |w id0 r Hpk _|w id0 r Hpk _|w id0 r a Hpk _ _|w id0 row Hr|w i id0 Hi|w i id0 Hi].
  - assert (id0 <> id) by (intros ->; destruct L3; congruence). 
    apply add_stopped_out; [by apply put_stopped_out|by left].
  - by eapply settle_stopped_out.
  - assert (id0 <> id).
    { apply (let_go_other w id i (TPersist id0 failed)); try done. by apply token_self. }
    apply (moved_stopped_out w i (Some (TComplete id0)) (TPersist id0 failed)); try done.
    + by intros u [= <-].
    + intros _. by rewrite lookup_insert_ne.
  - assert (id0 <> id).
    { apply (let_go_other w id i (TComplete id0)); try done. by apply token_self. }
    by apply (moved_stopped_out w i None (TComplete id0) (w_rows w) (w_released w ++ [id0])).
  - assert (id0 <> id) by congruence. split; [|done]. apply (let_go_frame w); try done; [|set_solver|auto].
    simpl. apply lookup_delete_None. by right.
  - assert (id0 <> id) by congruence. by apply claimed_stopped_out.
  - assert (id0 <> id) by congruence. by apply claimed_stopped_out.
  - by apply stop_stopped_out.
  - apply (moved_stopped_out w i (Some (TStopPersist id0)) (TStopRelease id0) (w_rows w)
      (w_released w ++ [id0])); try done.
    + intros u [= <-]. split; [done|]. by intros <-.
    + intros Hid. simpl in Hid. subst id0. right. auto.
  - apply (moved_stopped_out w i None (TStopPersist id0) (<[id0 := row_interrupted]> (w_rows w))
      (w_released w)); try done.
    + intros Hid. simpl in Hid. subst id0. left. by rewrite lookup_insert_eq.
    + intros Hid. simpl in Hid. by rewrite lookup_insert_ne.
Qed.

(** While a run is being driven no other goroutine holds its slot. *)
Lemma sole_holder w id i r t :
  world_inv w -> id ∉ w_stopped w -> w_threads w !! i = Some (TDrive id r) -> t ∈ w_threads w ->
  thread_token (w_stopped w) id t = 1 -> t = TDrive id r.
Proof.
  intros Hw Hs Hi Hin Htok. apply list_elem_of_lookup_1 in Hin as [j Hj].
  destruct (decide (i = j)) as [->|Hne]; [congruence|]. exfalso.
  pose proof (tokens_le w Hw id) as Hle. unfold tokens in Hle.
  pose proof (sum_two (thread_token (w_stopped w) id) _ _ _ _ _ Hi Hj Hne) as H2.
  assert (thread_token (w_stopped w) id (TDrive id r) = 1) as H1
    by (apply (token_self _ (TDrive id r)); [done|]; by intros ? ? [= <- _]).
  lia.
Qed.

(** When the engine holds the instance, a stop lets it go. *)
Lemma stopLocked_held w id :
  world_inv w -> (stopLocked id w).2 = true ->
  is_Some (w_rows w !! id) /\ stopped_out (add_thread (TStopRelease id) (stopLocked id w).1) id.
Proof.
  intros Hw. unfold stopLocked, stopped_out. destruct (w_parked w !! id) as [r|] eqn:Hp.
  - intros _. destruct (parked_alone w Hw id r Hp) as (Ht & _ & Hd & Hrow). split; [done|]. split.
    + split_and!; simpl.
      * by rewrite lookup_delete_eq.
      * intros Hr. destruct (wi_resuming _ Hw id Hr) as [_ [r0 Hin]].
        by pose proof (parked_no_thread w Hw id r _ Hp Hin eq_refl).
      * done.
      * intros t [Hin|Hin]%elem_of_app Hid Htok; [|by apply list_elem_of_singleton in Hin as ->].
        by rewrite (parked_no_thread w Hw id r t Hp Hin Hid) in Htok.
    + left. left. simpl. apply elem_of_app. right. apply list_elem_of_here.
  - destruct (decide (id ∈ w_resuming w)) as [Hr|]; [|done]. intros _.
    destruct (wi_resuming _ Hw id Hr) as [Hns [r0 Hin0]].
    apply list_elem_of_lookup_1 in Hin0 as [i Hi].
    destruct (holder_alone w Hw i _ Hi) as (_ & _ & Hrow).
    { apply token_self; [done|]. by intros ? ? [= <- _]. }
    simpl in Hrow. split; [done|]. split.
    + split_and!; simpl; [done|set_solver|done|].
      intros t [Hin|Hin]%elem_of_app Hid Htok; [|by apply list_elem_of_singleton in Hin as ->].
      destruct t as [j r1|j b|j|j|j] eqn:Et; simpl in Hid; subst j; [|exfalso..|done|done].
      * simpl in Htok. unfold one_if in Htok. rewrite decide_False in Htok by set_solver. done.
      * by pose proof (sole_holder w id i r0 _ Hw Hns Hi Hin Htok).
      * by pose proof (sole_holder w id i r0 _ Hw Hns Hi Hin Htok).
    + left. left. simpl. apply elem_of_app. right. apply list_elem_of_here.
Qed.

(** ** Properties *)

Section park_props.
Context {RT : GoRuntime} {DG : Diagnostics} (concurrency : Z).

(** Nothing holds the instance any more. *)
Definition idle (w : World) (id : string) : Prop :=
  w_parked w !! id = None /\ forall t, t ∈ w_threads w -> thread_id t <> id.

(** C13: whatever the interleaving of drives, wakes, responses, re-checks and stops,
    an instance gives its slot in the task's outstanding count back at most
    once, and exactly once by the time nothing in the engine holds it any more;
    and at no time do two goroutines drive the same run, nor one drive a run
    that is still parked. *)
Theorem slot_released_once (w : World) (id : string) :
  world_reachable concurrency w ->
  releases w id <= 1
  /\ (is_Some (w_rows w !! id) -> idle w id -> releases w id = 1)
  /\ drivers w id <= 1.
Proof.
  intros H%reachable_inv. pose proof (wi_tokens _ H id) as Ht. split_and!.
  - pose proof (tokens_le w H id). unfold tokens in *. lia.
  - intros Hrow [Hp Hth]. rewrite one_some in Ht by done. apply parked_None in Hp.
    unfold tokens in Ht. rewrite Hp in Ht.
    assert (sum_list_with (thread_token (w_stopped w) id) (w_threads w) = 0) as Hz; [|lia].
    apply sum_zero. intros t Hin. specialize (Hth t Hin).
    destruct t; simpl in *; unfold one_if; rewrite ?decide_False; naive_solver.
  - apply (wi_drivers _ H).
Qed.

(** C5: a stop is final. When [StopParked] finds the instance held, then whatever
    happens next it is neither parked nor resuming again, every goroutine still
    driving it is flagged, its slot is given back exactly once, and once the
    stop's own goroutine has finished the persisted row says interrupted and
    nothing overwrites it. *)
Theorem stop_is_final (w w' : World) (id : string) :
  world_reachable concurrency w -> (stopLocked id w).2 = true ->
  rtc (pstep concurrency) (add_thread (TStopRelease id) (stopLocked id w).1) w' ->
  w_parked w' !! id = None /\ (id ∉ w_resuming w')
  /\ (forall r, TDrive id r ∈ w_threads w' -> id ∈ w_stopped w')
  /\ (~ stop_pending w' id -> w_rows w' !! id = Some row_interrupted)
  /\ (~ (TStopRelease id ∈ w_threads w') -> releases w' id = 1).
Proof.
  intros Hr Hheld Hsteps. pose proof (reachable_inv _ _ Hr) as Hw.
  destruct (stopLocked_held w id Hw Hheld) as [Hrow Hout].
  assert (world_inv w' /\ stopped_out w' id) as [Hw' [Hl Hp]].
  { assert (world_inv (add_thread (TStopRelease id) (stopLocked id w).1)) as Hw1.
    { pose proof (stop_inv w id Hw Hrow) as H. by rewrite Hheld in H. }
    revert w' Hsteps. apply (rtc_ind_r (R := pstep concurrency)
      (fun w' => world_inv w' /\ stopped_out w' id)); [done|].
    intros x y _ Hxy [Hx1 Hx2]. split; [by eapply pstep_inv|by eapply pstep_stopped_out]. }
  pose proof Hl as (L1 & L2 & L3 & L4). split_and!; [done|done| | |].
  - intros r Hin. destruct (decide (id ∈ w_stopped w')) as [|Hn]; [done|].
    specialize (L4 _ Hin eq_refl). simpl in L4. unfold one_if in L4. rewrite decide_True in L4 by done.
    by specialize (L4 eq_refl).
  - intros Hn. by destruct Hp.
  - intros Hn. pose proof (wi_tokens _ Hw' id) as Ht. rewrite one_some in Ht by done.
    apply parked_None in L1. unfold tokens in Ht. rewrite L1 in Ht.
    assert (sum_list_with (thread_token (w_stopped w') id) (w_threads w') = 0) as Hz; [|lia].
    apply sum_zero. intros t Hin.
    pose proof (token_le w' id t Hin). destruct (decide (thread_token (w_stopped w') id t = 1)) as [E|E]; [|lia].
    exfalso. apply Hn. assert (thread_id t = id) as Hid.
    { destruct t; simpl in E; unfold one_if in E; repeat case_decide; naive_solver. }
    by rewrite <- (L4 t Hin Hid E).
Qed.

(** No suspended instance is forgotten or double-checked. Every parked run is
    reported by exactly one of [ParkedWaits] and [ParkedApprovals], and its
    persisted reason is the one that checker rehydrates after a restart, unless
    a stop has already marked the row interrupted. *)
Theorem parked_instance_watched (w : World) (id : string) (r : dagRun) :
  world_reachable concurrency w -> w_parked w !! id = Some r ->
  (isWaitPark r = true /\ isApprovalPark r = false \/ isWaitPark r = false /\ isApprovalPark r = true)
  /\ (w_rows w !! id = Some row_interrupted
      \/ w_rows w !! id = Some (row_blocked (if isWaitPark r then state.ReasonCI else state.ReasonApproval))).
Proof.
  intros H%reachable_inv Hp. destruct (wi_parked _ H _ _ Hp) as ([Hw _] & _ & Hrow). split.
  - destruct (isWaitPark r), (isApprovalPark r); auto; discriminate.
  - unfold waitReason in Hrow. tauto.
Qed.
End park_props.

(** ** Witnesses: one instance waiting for CI *)

Definition ci_event : Event := {|
  pe_stop1 := false; pe_stop2 := false; pe_stop3 := false; pe_pick := 0;
  pe_payload := ready_payload pendingResult; pe_ctxErr := false; pe_now := 0 |}.

Definition ci_run : dagRun := initDAG ci_workflow ci_item [] ∅.

Definition ci_drive : option (dagOutcome * dagRun) :=
  @driveDAG literal_runtime plain_diagnostics 1 1 (fun _ => ci_event) ci_run.

(** The run as the first check leaves it. *)
Definition ci_parked : dagRun := default ci_run (snd <$> ci_drive).

Lemma ci_drive_waits : ci_drive = Some (outcomeWaiting, ci_parked).
Proof.
  assert (fst <$> ci_drive = Some outcomeWaiting) as H by (vm_compute; reflexivity).
  unfold ci_parked. destruct ci_drive as [[o r]|]; [|discriminate]. by injection H as ->.
Qed.

Lemma ci_fits : @events_fit literal_runtime plain_diagnostics 1 1 (fun _ => ci_event) (start ci_run).
Proof.
  split; [|by destruct (drive_pass _ _ _)]. intros r f fl g rest Hd Hr.
  assert (park_inv ci_workflow (start ci_run)) as Hinv
    by (split; [done|done|by intros ? ?%elem_of_nil]).
  destruct (@dispatched_park literal_runtime plain_diagnostics 1 ci_workflow false (start ci_run) r (f :: fl)
    Hinv Hd) as (Hw & _ & Ht).
  apply receive_spec in Hr as (Hg & _ & _). destruct (Ht g Hg) as [Hb Ho].
  apply byID_in in Ho as [_ Ho]. rewrite Hb, Hw in Ho.
  apply list_elem_of_singleton in Ho. intros _. left. by rewrite Ho.
Qed.

Lemma ci_drives w : @drives literal_runtime plain_diagnostics 1 w "i" ci_run outcomeWaiting ci_parked.
Proof. exists 1, (fun _ => ci_event). split_and!; [apply ci_drive_waits|apply ci_fits|by intros]. Qed.

Definition started_world : World := add_thread (TDrive "i" ci_run) (put_row "i" row_running initial_world).
Definition parked_world : World := settleLocked 0 "i" outcomeWaiting ci_parked started_world.

Lemma started_reachable : @world_reachable literal_runtime plain_diagnostics 1 started_world.
Proof.
  apply rtc_once, p_start; [done|]. intros H. change ("" ∈ ["ci"]) in H.
  apply list_elem_of_singleton in H. discriminate.
Qed.

Lemma parked_reachable : @world_reachable literal_runtime plain_diagnostics 1 parked_world.
Proof.
  eapply rtc_r; [apply started_reachable|]. apply (p_settle _ _ 0 "i" ci_run); [done|apply ci_drives].
Qed.

Lemma slot_released_once_witness : releases parked_world "i" <= 1 /\ drivers parked_world "i" <= 1.
Proof.
  pose proof (@slot_released_once literal_runtime plain_diagnostics 1 parked_world "i" parked_reachable)
    as (H1 & _ & H3). exact (conj H1 H3).
Defined.

Lemma parked_lookup : w_parked parked_world !! "i" = Some ci_parked.
Proof. unfold parked_world, settleLocked. rewrite decide_False by set_solver. apply lookup_insert_eq. Qed.

Lemma stop_is_final_witness :
  (stopLocked "i" parked_world).2 = true
  /\ w_parked (add_thread (TStopRelease "i") (stopLocked "i" parked_world).1) !! "i" = None.
Proof.
  assert ((stopLocked "i" parked_world).2 = true) as Hs by (unfold stopLocked; by rewrite parked_lookup).
  split; [exact Hs|].
  apply (proj1 (@stop_is_final literal_runtime plain_diagnostics 1 parked_world _ "i" parked_reachable Hs
                  (rtc_refl _ _))).
Defined.

Lemma parked_instance_watched_witness :
  isWaitPark ci_parked = true /\ isApprovalPark ci_parked = false
  \/ isWaitPark ci_parked = false /\ isApprovalPark ci_parked = true.
Proof.
  apply (proj1 (@parked_instance_watched literal_runtime plain_diagnostics 1 parked_world "i" ci_parked
                  parked_reachable parked_lookup)).
Defined.

(** ** A defect: the stop of a run on its first drive *)

(** A stop that reaches a run on its first drive, which the engine does not
    hold yet, can be lost: the stop completes, its row says interrupted, then
    the run parks, overwrites the row and is woken. The re-read of the row by
    [stillParkedLocked], meant for exactly this run, sees the overwritten
    row. *)
Theorem fresh_run_stop_lost :
  exists w1 w2,
    @world_reachable literal_runtime plain_diagnostics 1 w1
    /\ ~ stop_pending w1 "i" /\ w_rows w1 !! "i" = Some row_interrupted
    /\ rtc (@pstep literal_runtime plain_diagnostics 1) w1 w2
    /\ w_rows w2 !! "i" = Some row_running /\ TDrive "i" (rearm ci_parked) ∈ w_threads w2.
Proof.
  set (w0 := add_thread (TStopPersist "i") started_world).
  set (w1 := put_row "i" row_interrupted (step_thread 1 None w0)).
  set (w3 := settleLocked 0 "i" outcomeWaiting ci_parked w1).
  exists w1, (claimParked "i" (rearm ci_parked) w3).
  assert (w3 = set_resuming (w_resuming w1 ∖ {["i"]}) (park "i" ci_parked
            (put_row "i" (row_blocked (waitReason ci_parked)) (step_thread 0 None w1)))) as E3
    by (unfold w3, settleLocked; by rewrite decide_False by set_solver).
  assert (waitReason ci_parked = state.ReasonCI) as Hre by (vm_compute; reflexivity).
  split_and!.
  - eapply rtc_r; [eapply rtc_r; [apply started_reachable|]|].
    + apply (p_stop _ started_world "i" row_running). reflexivity.
    + apply (p_stop_persist _ w0 1 "i"). reflexivity.
  - intros [H|H]; apply list_elem_of_singleton in H; discriminate.
  - simpl. apply lookup_insert_eq.
  - eapply rtc_l; [apply (p_settle _ w1 0 "i" ci_run); [reflexivity|apply ci_drives]|]. fold w3.
    apply rtc_once, (p_wake _ w3 "i" ci_parked); rewrite E3.
    + apply lookup_insert_eq.
    + unfold stillParked. simpl. rewrite lookup_insert_eq, Hre. reflexivity.
  - simpl. apply lookup_insert_eq.
  - rewrite E3. simpl. apply list_elem_of_here.
Qed.
