(* ===== verification/StepGraph.v ===== *)
(** * The dependency graph of a workflow (src/internal/config/workflow_graph.go)

    [validateStepGraph] builds the forward and backward adjacency maps, looks for
    a cycle by a white/gray/black depth-first search and checks that every
    loop-back targets an ancestor. The searches run on fuel; the theorems show
    that the fuel given is enough: both searches decide their relation. *)

From stdpp Require Import base gmap strings list relations.
From Stdlib Require Import ZArith.
From S2P Require Import Prelude Model Config Graph Dag.

(** ** Adjacency maps *)

(** [m[k] = append(m[k], v)]. *)
Definition push (k v : string) (m : gmap string (list string)) : gmap string (list string) :=
  <[k := default [] (m !! k) ++ [v]]> m.

Definition adjacent (m : gmap string (list string)) (x : string) : list string := default [] (m !! x).

(** ** [findCycle] *)

Inductive Color := white | gray | black.

#[global] Instance Color_eq_dec : EqDecision Color.
Proof. solve_decision. Defined.

Definition color_of (color : gmap string Color) (x : string) : Color := default white (color !! x).

(** The loop of [visit] over the successors. *)
Fixpoint visit_all (visit : string -> gmap string Color -> string * gmap string Color)
    (nexts : list string) (color : gmap string Color) : string * gmap string Color :=
  match nexts with
  | [] => ("", color)
  | next :: rest =>
      match color_of color next with
      | gray => (next, color)
      | white =>
          let '(c, color') := visit next color in
          if is_empty c then visit_all visit rest color' else (c, color')
      | black => visit_all visit rest color
      end
  end.

Fixpoint visit (fuel : nat) (adj : gmap string (list string)) (node : string) (color : gmap string Color)
    : string * gmap string Color :=
  let color := <[node := gray]> color in
  match fuel with
  | O => ("", color)
  | S fuel =>
      let '(c, color') := visit_all (visit fuel adj) (adjacent adj node) color in
      if is_empty c then ("", <[node := black]> color') else (c, color')
  end.

(** The loop over the steps. *)
Fixpoint find_from (fuel : nat) (adj : gmap string (list string)) (ids : list string)
    (color : gmap string Color) : string :=
  match ids with
  | [] => ""
  | id :: rest =>
      match color_of color id with
      | white =>
          let '(c, color') := visit fuel adj id color in
          if is_empty c then find_from fuel adj rest color' else c
      | _ => find_from fuel adj rest color
      end
  end.

Definition findCycle (wf : WorkflowConfig) (adj : gmap string (list string)) : string :=
  let ids := st_ID <$> wc_Steps wf in
  find_from (length ids) adj ids (foldl (fun m id => <[id := white]> m) ∅ ids).

(** ** [isAncestor] *)

Fixpoint ancestor_loop (fuel : nat) (candidate : string) (deps : gmap string (list string))
    (visited : gset string) (queue : list string) : bool :=
  match fuel with
  | O => false
  | S fuel =>
      match queue with
      | [] => false
      | cur :: queue =>
          if bool_decide (cur = candidate) then true
          else if bool_decide (cur ∈ visited) then ancestor_loop fuel candidate deps visited queue
          else ancestor_loop fuel candidate deps ({[cur]} ∪ visited) (queue ++ adjacent deps cur)
      end
  end.

(** Every dependency list enters the queue at most once. *)
Definition ancestor_fuel (deps : gmap string (list string)) (queue : list string) : nat :=
  S (length queue + sum_list_with (fun p => length p.2) (map_to_list deps)).

Definition isAncestor (node candidate : string) (deps : gmap string (list string)) : bool :=
  ancestor_loop (ancestor_fuel deps (adjacent deps node)) candidate deps ∅ (adjacent deps node).

(** ** [validateStepGraph] *)

Inductive GraphError :=
  | UnknownDep (step dep : string)
  | SelfDep (step : string)
  | DependencyCycle (step : string)
  | OnFailNotAncestor (step target : string)
  | OnConflictNotAncestor (step target : string).

Record graph := {
  g_errs : list GraphError;
  g_adj : gmap string (list string);
  g_deps : gmap string (list string);
}.

(** The dependencies the scheduler honours, explicit and sequential. *)
Definition all_deps (s : StepConfig) : list string := st_DependsOn s ++ st_SeqDependsOn s.

Definition add_edge (stepIDs : gset string) (id : string) (g : graph) (d : string) : graph :=
  if negb (bool_decide (d ∈ stepIDs))
  then {| g_errs := g_errs g ++ [UnknownDep id d]; g_adj := g_adj g; g_deps := g_deps g |}
  else if bool_decide (d = id)
  then {| g_errs := g_errs g ++ [SelfDep id]; g_adj := g_adj g; g_deps := g_deps g |}
  else {| g_errs := g_errs g; g_adj := push d id (g_adj g); g_deps := push id d (g_deps g) |}.

Definition build_graph (wf : WorkflowConfig) (stepIDs : gset string) : graph :=
  foldl (fun g s => foldl (add_edge stepIDs (st_ID s)) g (all_deps s))
    {| g_errs := []; g_adj := ∅; g_deps := ∅ |} (wc_Steps wf).

(** [seqOrder]: a missing id reads 0. *)
Definition seqOrder (wf : WorkflowConfig) : gmap string nat :=
  foldl (fun m '(i, s) => <[st_ID s := i]> m) ∅ (imap pair (wc_Steps wf)).

Definition targetsAncestor (wf : WorkflowConfig) (deps : gmap string (list string))
    (stepID target : string) : bool :=
  if bool_decide (deps = ∅)
  then (default 0 (seqOrder wf !! target) <? default 0 (seqOrder wf !! stepID))%nat
  else isAncestor stepID target deps.

(** The condition both loop-back checks share. *)
Definition bad_goto (wf : WorkflowConfig) (stepIDs : gset string) (deps : gmap string (list string))
    (s : StepConfig) (o : option StepOutcome) : bool :=
  negb (is_empty (goto o)) && bool_decide (goto o ∈ stepIDs)
  && negb (targetsAncestor wf deps (st_ID s) (goto o)).

Definition goto_errors (wf : WorkflowConfig) (stepIDs : gset string) (deps : gmap string (list string))
    (s : StepConfig) : list GraphError :=
  (if bad_goto wf stepIDs deps s (st_OnFail s) then [OnFailNotAncestor (st_ID s) (goto (st_OnFail s))] else [])
  ++ (if bad_goto wf stepIDs deps s (st_OnConflict s)
      then [OnConflictNotAncestor (st_ID s) (goto (st_OnConflict s))] else []).

Definition validateStepGraph (wf : WorkflowConfig) (stepIDs : gset string) : list GraphError :=
  let g := build_graph wf stepIDs in
  let cyc := findCycle wf (g_adj g) in
  g_errs g
  ++ (if is_empty cyc then [] else [DependencyCycle cyc])
  ++ concat (goto_errors wf stepIDs (g_deps g) <$> wc_Steps wf).

(** ** The searches decide their relations *)

Definition edge_of (m : gmap string (list string)) (x y : string) : Prop := y ∈ adjacent m x.

Lemma color_of_insert color x c y :
  color_of (<[x := c]> color) y = if decide (y = x) then c else color_of color y.
Proof.
  unfold color_of. destruct (decide (y = x)) as [->|Hne]; [by rewrite lookup_insert_eq|].
  by rewrite lookup_insert_ne by congruence.
Qed.

Section cycle.
Context (adj : gmap string (list string)) (ids : list string).
Context (known : forall x y, edge_of adj x y -> y ∈ ids).
Context (named : forall x y, edge_of adj x y -> x <> "").

Definition is_white (color : gmap string Color) (x : string) : bool := bool_decide (color_of color x = white).
Definition whites (color : gmap string Color) : nat := length (List.filter (is_white color) ids).

(** The finished nodes are closed under edges and on no cycle. *)
Record finished (color : gmap string Color) : Prop := {
  fin_closed : forall b n, color_of color b = black -> edge_of adj b n -> color_of color n = black;
  fin_acyclic : forall b, color_of color b = black -> ~ tc (edge_of adj) b b;
}.

(** A search turns white nodes black and leaves the gray ones. *)
Record advances (color color' : gmap string Color) : Prop := {
  adv_fin : finished color';
  adv_gray : forall x, color_of color' x = gray <-> color_of color x = gray;
  adv_black : forall x, color_of color x = black -> color_of color' x = black;
}.

Lemma adv_refl color : finished color -> advances color color.
Proof. by split. Qed.

Lemma adv_trans c1 c2 c3 : advances c1 c2 -> advances c2 c3 -> advances c1 c3.
Proof. intros [] []. split; [done|intros; etrans; eauto|auto]. Qed.

Lemma adv_whites c1 c2 : advances c1 c2 -> whites c2 <= whites c1.
Proof.
  intros [_ Hg Hb]. apply filter_le. intros x. unfold is_white. rewrite !bool_decide_eq_true.
  intros Hw. destruct (color_of c1 x) eqn:E; [done|apply Hg in E; congruence|apply Hb in E; congruence].
Qed.

Lemma whites_gray color x : x ∈ ids -> color_of color x = white -> whites (<[x := gray]> color) < whites color.
Proof.
  intros Hin Hw. apply (filter_lt _ _ _ x); [|done| |]; unfold is_white.
  - intros y. rewrite !bool_decide_eq_true, color_of_insert. by destruct (decide _).
  - by rewrite bool_decide_eq_true.
  - rewrite bool_decide_eq_false, color_of_insert. by rewrite decide_True.
Qed.

Definition reports (c : string) : Prop := tc (edge_of adj) c c.

(** The loop, given that the recursive calls are right. *)
Lemma visit_all_spec f (visit : string -> gmap string Color -> string * gmap string Color) node nexts color :
  (forall x color, x ∈ ids -> color_of color x = white -> whites color <= f -> finished color ->
     (forall g, color_of color g = gray -> tc (edge_of adj) g x) ->
     let '(c, color') := visit x color in
     if is_empty c then advances color color' /\ color_of color' x = black else reports c) ->
  (forall n, n ∈ nexts -> edge_of adj node n) ->
  whites color <= f -> finished color -> color_of color node = gray ->
  (forall g, color_of color g = gray -> g = node \/ tc (edge_of adj) g node) ->
  let '(c, color') := visit_all visit nexts color in
  if is_empty c then advances color color' /\ (forall n, n ∈ nexts -> color_of color' n = black)
  else reports c.
Proof.
  intros Hv. revert color. induction nexts as [|n rest IH]; intros color Hn Hf Hfin Hg Hpath; simpl.
  { split; [by apply adv_refl|]. intros n Hx. by apply elem_of_nil in Hx. }
  assert (edge_of adj node n) as He by (apply Hn, list_elem_of_here).
  assert (forall m, m ∈ rest -> edge_of adj node m) as Hr by (intros m Hm; by apply Hn, list_elem_of_further).
  destruct (color_of color n) eqn:Ec.
  - assert (forall g, color_of color g = gray -> tc (edge_of adj) g n) as Hpn.
    { intros g Hgr. destruct (Hpath g Hgr) as [->|Ht]; [by apply tc_once|by eapply tc_r]. }
    specialize (Hv n color (known _ _ He) Ec Hf Hfin Hpn). destruct (visit n color) as [c color'].
    destruct (is_empty c) eqn:Ee; [|by rewrite Ee]. destruct Hv as [Ha Hb].
    pose proof (adv_whites _ _ Ha). destruct (Ha) as [Hfin' Hg' Hb'].
    specialize (IH color' Hr). destruct (visit_all visit rest color') as [c2 color2].
    ospecialize* IH; [lia|done|by apply Hg'|intros g Hgr; by apply Hpath, Hg'|].
    destruct (is_empty c2); [|done]. destruct IH as [Ha2 Hall]. split; [by eapply adv_trans|].
    intros m [->|Hm]%elem_of_cons; [by apply Ha2|by apply Hall].
  - assert (reports n) as Hrep.
    { destruct (Hpath n Ec) as [->|Ht]; [by apply tc_once|by eapply tc_r]. }
    destruct (is_empty n) eqn:En; [|done]. apply is_empty_true in En. subst n.
    exfalso. inversion Hrep as [? ? H|? ? ? H]; by apply (named _ _ H).
  - specialize (IH color Hr Hf Hfin Hg Hpath). destruct (visit_all visit rest color) as [c2 color2].
    destruct (is_empty c2); [|done]. destruct IH as [Ha Hall]. split; [done|].
    intros m [->|Hm]%elem_of_cons; [by apply Ha|by apply Hall].
Qed.

(** Blackening a node whose successors are all black. *)
Lemma finished_black color node :
  finished color -> color_of color node = gray ->
  (forall n, edge_of adj node n -> color_of color n = black) ->
  finished (<[node := black]> color).
Proof.
  intros [Hcl Hac] Hg Hn.
  assert (forall b x, tc (edge_of adj) b x -> color_of color b = black -> color_of color x = black) as Hstay.
  { induction 1; eauto. }
  split.
  - intros b n. rewrite !color_of_insert. intros Hb He. destruct (decide (n = node)); [done|].
    destruct (decide (b = node)) as [->|]; [by apply Hn|by eapply Hcl].
  - intros b. rewrite color_of_insert. destruct (decide (b = node)) as [->|]; [|by apply Hac].
    intros _ Ht. assert (color_of color node = black); [|congruence].
    inversion Ht as [? ? H|? ? ? H1 H2]; subst; [by apply Hn|]. eapply Hstay; [exact H2|by apply Hn].
Qed.

Lemma visit_spec fuel node color :
  node ∈ ids -> color_of color node = white -> whites color <= fuel -> finished color ->
  (forall g, color_of color g = gray -> tc (edge_of adj) g node) ->
  let '(c, color') := visit fuel adj node color in
  if is_empty c then advances color color' /\ color_of color' node = black else reports c.
Proof.
  revert node color. induction fuel as [|f IH]; intros node color Hin Hw Hf Hfin Hpath.
  { pose proof (whites_gray color node Hin Hw). lia. }
  cbn [visit]. pose proof (whites_gray color node Hin Hw) as Hlt.
  assert (forall x, color_of (<[node := gray]> color) x = gray -> x = node \/ color_of color x = gray) as Hgr.
  { intros x. rewrite color_of_insert. destruct (decide _); auto. }
  assert (forall x c, c <> gray -> color_of (<[node := gray]> color) x = c -> color_of color x = c) as Hbw.
  { intros x c Hc. rewrite color_of_insert. destruct (decide _); congruence. }
  assert (finished (<[node := gray]> color)) as Hfin'.
  { destruct Hfin as [Hcl Hac]. split.
    - intros b n Hb%Hbw He; [|done]. rewrite color_of_insert. pose proof (Hcl _ _ Hb He).
      destruct (decide (n = node)); congruence.
    - intros b Hb%Hbw; [by apply Hac|done]. }
  pose proof (visit_all_spec f (visit f adj) node (adjacent adj node) (<[node := gray]> color) IH) as H.
  ospecialize* H; [done|lia|done|by rewrite color_of_insert, decide_True| |].
  { intros g [->|Hg]%Hgr; [by left|right; by apply Hpath]. }
  destruct (visit_all _ _ _) as [c color']. destruct (is_empty c) eqn:Ee; [|by rewrite Ee].
  simpl. destruct H as [[Hf' Hg' Hb'] Hall].
  assert (color_of color' node = gray) as Hng by (apply Hg'; by rewrite color_of_insert, decide_True).
  split; [|by rewrite color_of_insert, decide_True]. split.
  - by apply finished_black.
  - intros x. rewrite color_of_insert. destruct (decide (x = node)) as [->|Hne]; [by rewrite Hw|].
    rewrite Hg', color_of_insert. by rewrite decide_False.
  - intros x Hx. rewrite color_of_insert. destruct (decide (x = node)); [done|].
    apply Hb'. rewrite color_of_insert. by rewrite decide_False.
Qed.

Lemma find_from_spec fuel l color :
  (forall x, x ∈ l -> x ∈ ids) -> whites color <= fuel -> finished color ->
  (forall x, color_of color x <> gray) ->
  (forall x, x ∈ ids -> x ∈ l \/ color_of color x = black) ->
  let c := find_from fuel adj l color in
  if is_empty c then forall x, ~ tc (edge_of adj) x x else reports c.
Proof.
  revert color. induction l as [|n l IH]; intros color Hl Hf Hfin Hg Hall; simpl.
  - intros x Hx. assert (exists y, edge_of adj y x) as [y Hy].
    { clear -Hx. induction Hx; eauto. }
    destruct (Hall x (known _ _ Hy)) as [H|Hb]; [by apply elem_of_nil in H|].
    by apply (fin_acyclic _ Hfin x).
  - assert (forall x, x ∈ l -> x ∈ ids) as Hl' by (intros x Hx; by apply Hl, list_elem_of_further).
    destruct (color_of color n) eqn:En; [|by destruct (Hg n)|].
    + pose proof (visit_spec fuel n color) as Hv.
      ospecialize* Hv; [by apply Hl, list_elem_of_here|done..|intros g Hgr; by destruct (Hg g)|].
      destruct (visit fuel adj n color) as [c color']. destruct (is_empty c) eqn:Ee; [|by rewrite Ee].
      destruct Hv as [Ha Hb]. pose proof (adv_whites _ _ Ha). destruct Ha as [Hf' Hg' Hb'].
      apply IH; [done|lia|done| |].
      * intros x Hx%Hg'. by apply (Hg x).
      * intros x Hx. destruct (Hall x Hx) as [[->|?]%elem_of_cons|?]; auto.
    + apply IH; try done. intros x Hx. destruct (Hall x Hx) as [[->|?]%elem_of_cons|?]; auto.
Qed.
End cycle.

Section ancestor.
Context (deps : gmap string (list string)) (candidate : string).

(** What the unvisited nodes may still add to the queue. *)
Definition weight_of (visited : gset string) (l : list (string * list string)) : nat :=
  sum_list_with (fun '(k, ds) => if decide (k ∈ visited) then 0 else length ds) l.

Lemma weight_mono visited x l : weight_of ({[x]} ∪ visited) l <= weight_of visited l.
Proof.
  unfold weight_of. induction l as [|[k ds] l IH]; simpl; [done|].
  repeat destruct (decide _); try lia; set_solver.
Qed.

Lemma weight_visit visited x l :
  x ∉ visited -> forall ds, (x, ds) ∈ l -> weight_of ({[x]} ∪ visited) l + length ds <= weight_of visited l.
Proof.
  intros Hx ds Hin. induction l as [|[k ks] l IH]; [by apply elem_of_nil in Hin|].
  pose proof (weight_mono visited x l) as Hm. unfold weight_of in *. simpl.
  apply elem_of_cons in Hin as [[= <- <-]|Hin].
  - rewrite decide_True by set_solver. rewrite decide_False by done. lia.
  - specialize (IH Hin). repeat destruct (decide _); try lia; set_solver.
Qed.

Lemma weight_adjacent visited x :
  x ∉ visited ->
  length (adjacent deps x) + weight_of ({[x]} ∪ visited) (map_to_list deps) <= weight_of visited (map_to_list deps).
Proof.
  intros Hx. unfold adjacent. destruct (deps !! x) as [ds|] eqn:E; simpl.
  - apply elem_of_map_to_list in E. pose proof (weight_visit visited x (map_to_list deps) Hx ds E). lia.
  - apply weight_mono.
Qed.

Lemma visited_leaves (visited : gset string) (queue : list string) x :
  (forall v, v ∈ visited -> v <> candidate /\ forall y, edge_of deps v y -> y ∈ visited \/ y ∈ queue) ->
  x ∈ visited -> rtc (edge_of deps) x candidate -> exists q, q ∈ queue /\ rtc (edge_of deps) q candidate.
Proof.
  intros Hv Hx Hr. induction Hr as [|x y z Hxy Hr IH].
  - by destruct (Hv _ Hx).
  - destruct (Hv _ Hx) as [_ He]. destruct (He _ Hxy); eauto.
Qed.

Lemma ancestor_loop_spec fuel visited queue :
  length queue + weight_of visited (map_to_list deps) < fuel ->
  (forall v, v ∈ visited -> v <> candidate /\ forall y, edge_of deps v y -> y ∈ visited \/ y ∈ queue) ->
  ancestor_loop fuel candidate deps visited queue = true <->
  exists q, q ∈ queue /\ rtc (edge_of deps) q candidate.
Proof.
  revert visited queue. induction fuel as [|fuel IH]; intros visited queue Hf Hv; [lia|].
  cbn [ancestor_loop]. destruct queue as [|cur queue].
  { split; [done|]. intros (q & Hq & _). by apply elem_of_nil in Hq. }
  simpl in Hf. destruct (bool_decide_reflect (cur = candidate)) as [->|Hc].
  { split; [|done]. intros _. exists candidate. split; [apply list_elem_of_here|done]. }
  destruct (bool_decide_reflect (cur ∈ visited)) as [Hin|Hin].
  - assert (forall v, v ∈ visited -> v <> candidate /\
      forall y, edge_of deps v y -> y ∈ visited \/ y ∈ queue) as Hv'.
    { intros v Hvv. destruct (Hv v Hvv) as [Hne He]. split; [done|]. intros y Hy.
      destruct (He y Hy) as [?|[->|?]%elem_of_cons]; auto. }
    rewrite IH by (done || lia). split.
    + intros (q & Hq & Hr). exists q. split; [by apply list_elem_of_further|done].
    + intros (q & [->|Hq]%elem_of_cons & Hr); [by eapply visited_leaves|eauto].
  - pose proof (weight_adjacent visited cur Hin). rewrite IH.
    + split.
      * intros (q & [Hq|Hq]%elem_of_app & Hr).
        -- exists q. split; [by apply list_elem_of_further|done].
        -- exists cur. split; [apply list_elem_of_here|by eapply rtc_l].
      * intros (q & [->|Hq]%elem_of_cons & Hr).
        -- inversion Hr as [|? y ? Hy Hr']; [done|]. exists y. rewrite elem_of_app. auto.
        -- exists q. rewrite elem_of_app. auto.
    + rewrite length_app. lia.
    + intros v Hvv. destruct (decide (v = cur)) as [->|Hne].
      * split; [done|]. intros y Hy. rewrite elem_of_app. auto.
      * assert (v ∈ visited) as Hvv' by set_solver. destruct (Hv v Hvv') as [? He]. split; [done|].
        intros y Hy. rewrite elem_of_union, elem_of_app.
        destruct (He y Hy) as [?|[->|?]%elem_of_cons]; [auto| |auto]. left. left. by apply elem_of_singleton.
Qed.

(** [isAncestor] is the transitive closure. *)
Lemma isAncestor_tc node : isAncestor node candidate deps = true <-> tc (edge_of deps) node candidate.
Proof.
  unfold isAncestor. rewrite ancestor_loop_spec.
  - split.
    + intros (q & Hq & Hr). inversion Hr; subst; [by apply tc_once|]. eapply tc_rtc_r; [by apply tc_once|done].
    + intros Ht. inversion Ht as [? ? H|? y ? H1 H2]; subst; [by exists candidate|].
      exists y. split; [done|by apply tc_rtc].
  - unfold ancestor_fuel. assert (forall l : list (string * list string),
      weight_of ∅ l <= sum_list_with (fun p => length p.2) l) as Hw.
    { unfold weight_of. induction l as [|[k ds] l IH]; simpl; [done|]. destruct (decide _); lia. }
    specialize (Hw (map_to_list deps)). lia.
  - intros v Hv. by apply not_elem_of_empty in Hv.
Qed.
End ancestor.

(** ** What the maps hold *)

Lemma edge_of_push k v m x y : edge_of (push k v m) x y <-> edge_of m x y \/ (x = k /\ y = v).
Proof.
  unfold edge_of, adjacent, push. destruct (decide (x = k)) as [->|Hne].
  - rewrite lookup_insert_eq. simpl. rewrite elem_of_app, list_elem_of_singleton. naive_solver.
  - rewrite lookup_insert_ne by done. naive_solver.
Qed.

Section build.
Context (stepIDs : gset string).

Definition accepted (id d : string) : Prop := d ∈ stepIDs /\ d <> id.

Definition add_pair (g : graph) (p : string * string) : graph := add_edge stepIDs p.1 g p.2.

Lemma add_edge_cases id g d :
  (accepted id d /\ add_edge stepIDs id g d
     = {| g_errs := g_errs g; g_adj := push d id (g_adj g); g_deps := push id d (g_deps g) |})
  \/ (~ accepted id d /\ exists e, add_edge stepIDs id g d
     = {| g_errs := g_errs g ++ [e]; g_adj := g_adj g; g_deps := g_deps g |}).
Proof.
  unfold add_edge, accepted. destruct (bool_decide_reflect (d ∈ stepIDs)); simpl; [|right; split; [tauto|eauto]].
  destruct (bool_decide_reflect (d = id)); [right; split; [tauto|eauto]|by left].
Qed.

Lemma build_pairs l g :
  let g' := foldl add_pair g l in
  (g_errs g' = [] <-> g_errs g = [] /\ forall id d, (id, d) ∈ l -> accepted id d)
  /\ (forall x y, edge_of (g_adj g') x y <-> edge_of (g_adj g) x y \/ ((y, x) ∈ l /\ accepted y x))
  /\ (forall x y, edge_of (g_deps g') x y <-> edge_of (g_deps g) x y \/ ((x, y) ∈ l /\ accepted x y))
  /\ (g_deps g' = ∅ <-> g_deps g = ∅ /\ forall id d, (id, d) ∈ l -> ~ accepted id d).
Proof.
  revert g. induction l as [|[id d] l IH]; intros g; cbn [foldl].
  { split_and!; intros; rewrite ?elem_of_nil; try naive_solver;
      (split; [intros H; split; [done|intros ? ? Hn; by apply elem_of_nil in Hn]|tauto]). }
  destruct (IH (add_pair g (id, d))) as (H1 & H2 & H3 & H4). cbv zeta. rewrite H1, H4.
  setoid_rewrite H2. setoid_rewrite H3. setoid_rewrite elem_of_cons.
  unfold add_pair. simpl. destruct (add_edge_cases id g d) as [[Ha ->]|[Ha [e ->]]]; simpl.
  - setoid_rewrite edge_of_push. split_and!; [naive_solver..|].
    split; [intros [H _]|naive_solver]. exfalso. unfold push in H. by apply insert_non_empty in H.
  - split_and!.
    + split; [intros [H _]; by apply app_eq_nil in H as [_ [=]]|naive_solver].
    + naive_solver.
    + naive_solver.
    + naive_solver.
Qed.
End build.

(** The edges the steps declare: [d] is a dependency of step [id]. *)
Definition depends (wf : WorkflowConfig) (id d : string) : Prop :=
  exists s, s ∈ wc_Steps wf /\ st_ID s = id /\ d ∈ all_deps s.

Definition dep_pairs (wf : WorkflowConfig) : list (string * string) :=
  concat ((fun s => (fun d => (st_ID s, d)) <$> all_deps s) <$> wc_Steps wf).

Lemma elem_of_dep_pairs wf id d : (id, d) ∈ dep_pairs wf <-> depends wf id d.
Proof.
  unfold dep_pairs, depends. rewrite list_elem_of_In, in_concat. split.
  - intros (l & Hl & Hin). rewrite <- list_elem_of_In in Hl. rewrite <- list_elem_of_In in Hin.
    apply list_elem_of_fmap in Hl as (s & -> & Hs). apply list_elem_of_fmap in Hin as (d' & [= -> ->] & Hd). eauto.
  - intros (s & Hs & <- & Hd). eexists. rewrite <- !list_elem_of_In. split; [by apply list_elem_of_fmap_2|].
    by apply list_elem_of_fmap_2.
Qed.

Lemma build_graph_pairs wf stepIDs :
  build_graph wf stepIDs
  = foldl (add_pair stepIDs) {| g_errs := []; g_adj := ∅; g_deps := ∅ |} (dep_pairs wf).
Proof.
  unfold build_graph, dep_pairs. generalize {| g_errs := []; g_adj := ∅; g_deps := ∅ |}.
  induction (wc_Steps wf) as [|s steps IH]; intros g; [done|]. cbn [foldl]. rewrite IH.
  rewrite fmap_cons. cbn [concat]. rewrite foldl_app. f_equal.
  generalize (all_deps s). intros l. revert g. induction l as [|d l IHl]; intros g; [done|]. apply IHl.
Qed.

Lemma edge_of_empty x y : ~ edge_of ∅ x y.
Proof. unfold edge_of, adjacent. rewrite lookup_empty. apply not_elem_of_nil. Qed.

Lemma build_graph_spec wf stepIDs :
  let g := build_graph wf stepIDs in
  (g_errs g = [] <-> forall id d, depends wf id d -> accepted stepIDs id d)
  /\ (forall x y, edge_of (g_adj g) x y <-> depends wf y x /\ accepted stepIDs y x)
  /\ (forall x y, edge_of (g_deps g) x y <-> depends wf x y /\ accepted stepIDs x y)
  /\ (g_deps g = ∅ <-> forall id d, depends wf id d -> ~ accepted stepIDs id d).
Proof.
  cbv zeta. rewrite build_graph_pairs.
  destruct (build_pairs stepIDs (dep_pairs wf) {| g_errs := []; g_adj := ∅; g_deps := ∅ |}) as (H1 & H2 & H3 & H4).
  rewrite H1, H4. setoid_rewrite H2. setoid_rewrite H3. setoid_rewrite elem_of_dep_pairs. simpl.
  pose proof edge_of_empty. split_and!; naive_solver.
Qed.

Lemma findCycle_spec wf adj :
  (forall x y, edge_of adj x y -> y ∈ st_ID <$> wc_Steps wf) -> (forall x y, edge_of adj x y -> x <> "") ->
  let c := findCycle wf adj in
  if is_empty c then forall x, ~ tc (edge_of adj) x x else tc (edge_of adj) c c.
Proof.
  intros Hk Hn. unfold findCycle. set (ids := st_ID <$> wc_Steps wf).
  set (color := foldl _ _ _).
  assert (forall x, color_of color x = white) as Hw.
  { subst color. generalize (∅ : gmap string Color), (fun x => eq_refl : color_of ∅ x = white).
    induction ids as [|id l IH]; intros m Hm x; [apply Hm|]. cbn [foldl]. apply IH.
    intros y. rewrite color_of_insert. by destruct (decide _). }
  apply (find_from_spec adj ids); try done.
  - apply List.filter_length_le.
  - split; intros b; rewrite ?Hw; done.
  - intros x. by rewrite Hw.
  - by left.
Qed.

(** ** What validation accepts *)

(** [t] precedes step [id]: by a chain of dependencies, or by position in a
    workflow that declares none. *)
Definition precedes (wf : WorkflowConfig) (t id : string) : Prop :=
  tc (depends wf) id t
  \/ (forall a b, ~ depends wf a b) /\ default 0 (seqOrder wf !! t) < default 0 (seqOrder wf !! id).

Lemma tc_map (R S : string -> string -> Prop) x y :
  (forall a b, R a b -> S b a) -> tc R x y -> tc S y x.
Proof. intros H. induction 1; [by apply tc_once, H|]. eapply tc_r; eauto. Qed.

Lemma tc_sub (R S : string -> string -> Prop) x y : (forall a b, R a b -> S a b) -> tc R x y -> tc S x y.
Proof. intros H. induction 1; [by apply tc_once, H|]. eapply tc_l; eauto. Qed.

Lemma targetsAncestor_spec wf stepIDs id t :
  (forall a b, depends wf a b -> accepted stepIDs a b) ->
  targetsAncestor wf (g_deps (build_graph wf stepIDs)) id t = true <-> precedes wf t id.
Proof.
  intros Hall. destruct (build_graph_spec wf stepIDs) as (_ & _ & Hdeps & Hempty).
  assert (g_deps (build_graph wf stepIDs) = ∅ <-> forall a b, ~ depends wf a b) as He.
  { rewrite Hempty. split; intros H a b Hd; [by apply (H a b Hd), Hall|by destruct (H a b)]. }
  unfold targetsAncestor, precedes. case_bool_decide as E.
  - rewrite Nat.ltb_lt. pose proof (proj1 He E) as Hno. split; [by right|]. intros [Ht|[_ ?]]; [|done].
    exfalso. inversion Ht; by eapply Hno.
  - rewrite isAncestor_tc. split.
    + intros Ht. left. eapply tc_sub; [|exact Ht]. by intros a b [? _]%Hdeps.
    + intros [Ht|[Hn _]]; [|by destruct (E (proj2 He Hn))]. eapply tc_sub; [|exact Ht].
      intros a b Hd. apply Hdeps. auto.
Qed.

Lemma goto_errors_nil wf stepIDs deps s :
  goto_errors wf stepIDs deps s = [] <->
  forall o, o = st_OnFail s \/ o = st_OnConflict s -> goto o <> "" -> goto o ∈ stepIDs ->
    targetsAncestor wf deps (st_ID s) (goto o) = true.
Proof.
  unfold goto_errors.
  assert (forall o, bad_goto wf stepIDs deps s o = false <-> (goto o <> "" -> goto o ∈ stepIDs ->
    targetsAncestor wf deps (st_ID s) (goto o) = true)) as Hb.
  { intros o. unfold bad_goto. rewrite !andb_false_iff, !negb_false_iff, is_empty_true, bool_decide_eq_false.
    destruct (targetsAncestor _ _ _ _), (decide (goto o = "")), (decide (goto o ∈ stepIDs)); intuition congruence. }
  split.
  - intros [H1 H2]%app_eq_nil o Ho. apply Hb. destruct Ho as [->| ->].
    + by destruct (bad_goto wf stepIDs deps s (st_OnFail s)).
    + by destruct (bad_goto wf stepIDs deps s (st_OnConflict s)).
  - intros H. by rewrite (proj2 (Hb (st_OnFail s))), (proj2 (Hb (st_OnConflict s))) by auto.
Qed.

Lemma concat_nil {A B} (f : A -> list B) l : concat (f <$> l) = [] <-> forall x, x ∈ l -> f x = [].
Proof.
  induction l as [|x l IH]; [split; [intros _ y Hy; by apply elem_of_nil in Hy|done]|].
  rewrite fmap_cons. cbn [concat]. split.
  - intros [H1 H2]%app_eq_nil y [->|Hy]%elem_of_cons; [done|by apply IH].
  - intros H. rewrite H by apply list_elem_of_here. apply IH. intros y Hy. by apply H, list_elem_of_further.
Qed.

(** What [validateStepGraph] accepts: every dependency names another declared
    step, no chain of dependencies is circular, and every declared loop-back
    targets a step that precedes the one that loops. *)
Record graph_ok (wf : WorkflowConfig) (stepIDs : gset string) : Prop := {
  go_known : forall id d, depends wf id d -> d ∈ stepIDs /\ d <> id;
  go_acyclic : forall x, ~ tc (depends wf) x x;
  go_back : forall s o, s ∈ wc_Steps wf -> o = st_OnFail s \/ o = st_OnConflict s ->
    goto o <> "" -> goto o ∈ stepIDs -> precedes wf (goto o) (st_ID s);
}.

Lemma findCycle_empty wf stepIDs :
  "" ∉ stepIDs -> let adj := g_adj (build_graph wf stepIDs) in
  findCycle wf adj = "" <-> forall x, ~ tc (edge_of adj) x x.
Proof.
  intros Hnamed adj. destruct (build_graph_spec wf stepIDs) as (_ & Hadj & _ & _).
  pose proof (findCycle_spec wf adj) as Hcyc.
  ospecialize* Hcyc; [intros x y [(s & Hs & <- & _) _]%Hadj; by apply list_elem_of_fmap_2
                     |by intros x y [_ [? _]]%Hadj ->|].
  cbv zeta in Hcyc. destruct (is_empty (findCycle wf adj)) eqn:E.
  - apply is_empty_true in E. done.
  - apply is_empty_false in E. split; [done|]. intros H. by destruct (H _ Hcyc).
Qed.

(** What acceptance gives the clients. *)
Lemma validateStepGraph_wf wf stepIDs :
  validateStepGraph wf stepIDs = [] -> "" ∉ stepIDs -> graph_ok wf stepIDs.
Proof.
  intros Hv Hnamed. destruct (build_graph_spec wf stepIDs) as (Herrs & Hadj & _ & _).
  unfold validateStepGraph in Hv. set (g := build_graph wf stepIDs) in *.
  apply app_eq_nil in Hv as [H1 [H2 H3]%app_eq_nil]. pose proof (proj1 Herrs H1) as Hacc. split.
  - done.
  - intros x Ht. assert (findCycle wf (g_adj g) = "") as Hc.
    { destruct (is_empty _) eqn:E in H2; [by apply is_empty_true in E|done]. }
    apply (proj1 (findCycle_empty wf stepIDs Hnamed) Hc x). eapply tc_map; [|exact Ht].
    intros a b Hd. apply Hadj. auto.
  - intros s o Hs Ho Hne Hin. apply (targetsAncestor_spec wf stepIDs); [done|].
    pose proof (proj1 (concat_nil _ _) H3 s Hs) as H4. by apply (goto_errors_nil wf stepIDs (g_deps g) s).
Qed.

(** C18: validation of a step graph reports nothing exactly when the graph is
    well formed: its dependencies name other declared steps, no chain of them is
    circular, and its loop-backs target ancestors. The depth-first search for
    cycles and the breadth-first search for ancestors thus decide their
    relations. *)
Theorem validateStepGraph_exact (wf : WorkflowConfig) (stepIDs : gset string) (Hnamed : "" ∉ stepIDs) :
  validateStepGraph wf stepIDs = [] <-> graph_ok wf stepIDs.
Proof.
  split; [intros; by apply validateStepGraph_wf|]. intros [H1 H2 H3].
  destruct (build_graph_spec wf stepIDs) as (Herrs & Hadj & _ & _).
  unfold validateStepGraph. set (g := build_graph wf stepIDs) in *. rewrite (proj2 Herrs H1).
  assert (findCycle wf (g_adj g) = "") as ->.
  { apply findCycle_empty; [done|]. intros x Hx. apply (H2 x). eapply tc_map; [|exact Hx].
    by intros a b [? _]%Hadj. }
  simpl. apply concat_nil. intros s Hs. apply goto_errors_nil. intros o Ho Hne Hin.
  apply (targetsAncestor_spec wf stepIDs); [done|]. by eapply H3.
Qed.

(** A chain of three steps whose last loops back to the first. *)
Definition chained (id : string) (deps : list string) (back : string) : StepConfig :=
  ir_step id "agent" deps [] "" "" "" "" None "" None ""
    (if is_empty back then None else Some {| so_Goto := back; so_MaxRetries := 1 |}) None false [] "" None None "" []
    None "" "" 0 0 false None [] "".

Definition chain_workflow : WorkflowConfig := {|
  wc_ID := "chain"; wc_Resume := ""; wc_ResultComment := ""; wc_Trigger := None;
  wc_Inputs := ∅; wc_Outputs := ∅; wc_Steps := [chained "a" [] ""; chained "b" ["a"] ""; chained "c" ["b"] "a"] |}.

(** The chain passes; with [a] looping forward to [c] it is rejected. *)
Example chain_checks :
  validateStepGraph chain_workflow {["a"; "b"; "c"]} = []
  /\ validateStepGraph {| wc_ID := "chain"; wc_Resume := ""; wc_ResultComment := ""; wc_Trigger := None;
       wc_Inputs := ∅; wc_Outputs := ∅; wc_Steps := [chained "a" [] "c"; chained "b" ["a"] ""; chained "c" ["b"] "a"] |} {["a"; "b"; "c"]} <> [].
Proof. split; [vm_compute; reflexivity|]. vm_compute. discriminate. Qed.

Lemma validateStepGraph_exact_witness :
  graph_ok chain_workflow {["a"; "b"; "c"]}.
Proof.
  apply (validateStepGraph_exact chain_workflow {["a"; "b"; "c"]}).
  - apply (bool_decide_unpack _). vm_compute. exact I.
  - vm_compute. reflexivity.
Defined.
