(* ===== verification/Validate.v ===== *)
(** * Validation of workflows (src/internal/config/workflow_validate.go and
      workflow_contract.go, foreach items in workflow_graph.go)

    [validateWorkflows] and the checks it calls on lowered workflows. An error is
    the context it is reported in and the format of its message, without the
    arguments; errors are accumulated as in the source, and what Go collects by
    ranging over a map comes in the order of [map_to_list]. The capabilities of
    the sources and the expression parser are hooks, as in the source, where the
    command line installs them; a hook that is not installed skips its check. *)

From stdpp Require Import base gmap strings list pretty.
From Stdlib Require Import ZArith SpecFloat Ascii.
From S2P Require Import Prelude Model Expr Config StepGraph.

Inductive ConfigError :=
  | CE (ctx format : string)
  | CGraph (ctx : string) (e : GraphError).

(** [if c { errs = append(errs, ...) }]. *)
Definition complain (c : bool) (ctx format : string) : list ConfigError :=
  if c then [CE ctx format] else [].

(** [SourceCaps]. *)
Record SourceCaps := {
  sc_SetState : bool; sc_AddLabels : bool; sc_RemoveLabels : bool; sc_Approvals : bool; sc_CIWait : bool;
  sc_PRCIWait : bool; sc_SubIssues : bool; sc_Resolvable : bool }.

(** The hooks of src/internal/config/validate.go; [hk_LintExpr] reports whether
    the expression parses. *)
Class Hooks := {
  hk_LintExpr : option (string -> bool);
  hk_SourceSupportsDependencyWait : option (string -> bool);
  hk_SourceSupportsPREvents : option (string -> bool);
  hk_SourceCapabilities : option (string -> SourceCaps);
}.

(** The part of [Config] the workflow checks read. *)
Record ConfigFile := {
  cf_Workflows : list WorkflowConfig;
  cf_Agents : list string;                  (* ids *)
  cf_Sources : list (string * string);      (* id and type *)
  cf_RequireFor : list string;              (* settings.approvals.require_for *)
}.

(** [agentIDSet] and [sourceIDSet]. *)
Definition agentIDSet (c : ConfigFile) : gset string := list_to_set (cf_Agents c).
Definition sourceIDSet (c : ConfigFile) : gset string := list_to_set (cf_Sources c).*1.

(** ** Values and references of workflow contracts *)

(** [isWorkflowExpression] on a string. *)
Definition is_wrapped (s : string) : bool :=
  let s := trim_space s in has_prefix s "${{" && has_suffix s "}}".

Definition isWorkflowExpression (v : JValue) : bool :=
  match v with JStr s => is_wrapped s | _ => false end.

(** [x == float64(int64(x))]. *)
Definition is_integral `{GoRuntime} (f : spec_float) : bool :=
  float64.eqb f (float64.of_Z (int64_of_float f)).

(** [WorkflowValueMatchesType]. *)
Definition WorkflowValueMatchesType `{GoRuntime} (v : JValue) (typ : string) : bool :=
  match v with
  | JStr _ => bool_decide (typ = "string")
  | JNum f => bool_decide (typ = "number") || bool_decide (typ = "integer") && is_integral f
  | JBool _ => bool_decide (typ = "boolean")
  | JArr _ => bool_decide (typ = "array")
  | JObj _ => bool_decide (typ = "object")
  | JNull => false
  end.

(** [strings.TrimSuffix] and [strings.TrimPrefix] of the two delimiters. *)
Definition drop_wrapper (s : string) : string :=
  String.substring 3 (String.length s - 3 - 2) s.

(** [workflowStepOutputRef]. *)
Definition workflowStepOutputRef (value : string) : option (string * string) :=
  if is_wrapped value then
    match split_on "." (trim_space (drop_wrapper (trim_space value))) with
    | [a; b; c] => if bool_decide (a = "steps") && negb (is_empty b) && negb (is_empty c) then Some (b, c) else None
    | _ => None
    end
  else None.

(** [supportedSchemaTypes]. *)
Definition supportedSchemaTypes : list string := ["object"; "string"; "number"; "integer"; "boolean"; "array"].

(** [stepByID]: the last step of an id. *)
Definition step_by_id (wf : WorkflowConfig) (id : string) : option StepConfig :=
  List.find (fun s => bool_decide (st_ID s = id)) (rev (wc_Steps wf)).

Section contract.
Context {RT : GoRuntime}.

Definition validate_input (ctx : string) (ni : string * WorkflowInput) : list ConfigError :=
  let '(name, input) := ni in
  let ictx := ctx +:+ ": input " +:+ name in
  complain (is_empty name) ctx "input name must not be empty"
  ++ if negb (str_in (win_Type input) supportedSchemaTypes) then [CE ictx "unsupported type %q"]
     else match win_Default input with
          | Some d => complain (negb (WorkflowValueMatchesType d (win_Type input))) ictx
                        "default value does not match type %q"
          | None => []
          end.

(** The declared type of an output field of a step. *)
Definition output_field_type (s : StepConfig) (field : string) : option string :=
  match (match st_OutputSchema s with Some o => Some o | None => st_Output s end) with
  | None => None
  | Some sch => match os_Properties sch !! field with
                | Some f => if is_empty (sf_Type f) then None else Some (sf_Type f)
                | None => None
                end
  end.

Definition validate_output (ctx : string) (wf : WorkflowConfig) (no : string * WorkflowOutput) : list ConfigError :=
  let '(name, output) := no in
  let octx := ctx +:+ ": output " +:+ name in
  complain (is_empty name) ctx "output name must not be empty"
  ++ complain (negb (str_in (wout_Type output) supportedSchemaTypes)) octx "unsupported type %q"
  ++ match workflowStepOutputRef (wout_Value output) with
     | None => [CE octx "value must reference ${{ steps.<step>.<field> }}"]
     | Some (stepID, field) =>
         match step_by_id wf stepID with
         | None => [CE octx "value references unknown step %q"]
         | Some step =>
             if bool_decide (field = "output")
             then complain (negb (bool_decide (wout_Type output = "string"))) octx "raw step output must have type string"
             else match output_field_type step field with
                  | None => [CE octx "step %q does not declare output field %q"]
                  | Some t => complain (negb (is_empty (wout_Type output)) && negb (bool_decide (t = wout_Type output)))
                                octx "type %q does not match step %q field %q type %q"
                  end
         end
     end.

(** [validateWorkflowContract]. *)
Definition validateWorkflowContract (ctx : string) (wf : WorkflowConfig) : list ConfigError :=
  concat (validate_input ctx <$> map_to_list (wc_Inputs wf))
  ++ concat (validate_output ctx wf <$> map_to_list (wc_Outputs wf)).
End contract.

(** ** Output schemas *)

(** [validateSchemaField]. *)
Fixpoint validateSchemaField (fctx : string) (f : SchemaField) {struct f} : list ConfigError :=
  if negb (str_in (sf_Type f) supportedSchemaTypes) then [CE fctx "unsupported type %q"]
  else
    complain (negb (bool_decide (sf_Enum f = [])) && negb (bool_decide (sf_Type f = "string"))) fctx
      "enum is only supported on string fields"
    ++ (if bool_decide (sf_Type f = "array")
        then match sf_Items f with
             | None => [CE fctx "array field requires items"]
             | Some i => validateSchemaField (fctx +:+ ".items") i
             end
        else [])
    ++ (if bool_decide (sf_Type f = "object")
        then map_fold (fun name sub acc => validateSchemaField (fctx +:+ "." +:+ name) sub ++ acc) [] (sf_Properties f)
        else []).

(** [validateOutputSchema]. *)
Definition validateOutputSchema (sctx : string) (sch : OutputSchema) : list ConfigError :=
  complain (negb (bool_decide (os_Type sch = "object"))) sctx "output_schema type must be 'object', got %q"
  ++ concat ((fun '(name, f) => validateSchemaField (sctx +:+ ": output_schema." +:+ name) f) <$> map_to_list (os_Properties sch))
  ++ concat ((fun req => complain (bool_decide (os_Properties sch !! req = None)) sctx
                "output_schema required field %q not present in properties") <$> os_Required sch).

(** ** Per-type checks *)

(** [o.Goto != ""] of an optional outcome, and its checks. *)
Definition check_goto (sctx unknown retries : string) (stepIDs : gset string) (o : option StepOutcome) : list ConfigError :=
  match o with
  | Some o =>
      if is_empty (so_Goto o) then []
      else complain (negb (bool_decide (so_Goto o ∈ stepIDs))) sctx unknown
           ++ complain (so_MaxRetries o <? 1)%Z sctx retries
  | None => []
  end.

Definition check_memory (sctx : string) (s : StepConfig) : list ConfigError :=
  match st_Memory s with
  | Some m =>
      complain (negb (str_in (mc_Memorize m) [""; MemorizeAuto; MemorizeOff])) sctx "invalid memory.memorize %q (want auto|off)"
      ++ concat ((fun tier => complain (negb (str_in tier [MemoryTierTask; MemoryTierGlobal])) sctx
                    "invalid memory.recall tier %q (want task|global)") <$> mc_Recall m)
  | None => []
  end.

Definition check_memory_write (sctx : string) (s : StepConfig) : list ConfigError :=
  match MemoryWriteFields s with
  | [] => []
  | w => match st_OutputSchema s with
         | None => [CE sctx "memory.write requires output_schema"]
         | Some o => concat ((fun field => complain (bool_decide (os_Properties o !! field = None)) sctx
                                "memory.write field %q not present in output_schema properties") <$> w)
         end
  end.

(** [validateAgentStep]. *)
Definition validateAgentStep (sctx : string) (s : StepConfig) (agentIDs stepIDs : gset string) : list ConfigError :=
  (if is_empty (st_Agent s) then [CE sctx "agent step requires an agent field"]
   else complain (negb (bool_decide (st_Agent s ∈ agentIDs))) sctx "agent %q not defined")
  ++ match st_OutputSchema s with Some o => validateOutputSchema sctx o | None => [] end
  ++ complain (negb (str_in (st_OnMissingOutput s) [""; OnMissingOutputWarn; OnMissingOutputFail; OnMissingOutputIgnore]))
       sctx "invalid on_missing_output %q (want warn|fail|ignore)"
  ++ match st_OutputSchema s with
     | Some o => complain (negb (is_empty (st_PullRequestFrom s)) && bool_decide (os_Properties o !! st_PullRequestFrom s = None))
                   sctx "pull_request_from references %q, which the step's output schema does not declare"
     | None => []
     end
  ++ complain (negb (str_in (st_Spawn s) [""; SpawnAuto; SpawnAwait])) sctx "invalid spawn %q (want auto|await)"
  ++ complain (negb (str_in (st_Materialize s) [MaterializeOff; MaterializeSubIssue])) sctx "invalid materialize %q (want sub_issue)"
  ++ complain (bool_decide (st_Materialize s = MaterializeSubIssue) && bool_decide (st_Spawn s = SpawnAwait)) sctx
       "materialize: sub_issue is incompatible with spawn: await"
  ++ check_memory sctx s
  ++ check_memory_write sctx s
  ++ complain (negb (is_empty (st_OnPassNext s)) && negb (bool_decide (st_OnPassNext s ∈ stepIDs))) sctx
       "on_pass.next references unknown step %q"
  ++ check_goto sctx "on_fail.goto references unknown step %q" "on_fail.max_retries must be >= 1 when goto is set"
       stepIDs (st_OnFail s).

(** [lintStepExprs]. *)
Definition lint (lintExpr : string -> bool) (sctx format expr : string) : list ConfigError :=
  complain (negb (is_empty expr) && negb (lintExpr expr)) sctx format.

Fixpoint lint_step (lintExpr : string -> bool) (sctx : string) (s : StepConfig) {struct s} : list ConfigError :=
  lint lintExpr sctx "condition (if:) %q: %w" (st_Condition s)
  ++ lint lintExpr sctx "fail_when (reject_when:) %q: %w" (st_FailWhen s)
  ++ concat ((fun b => lint lintExpr sctx "branches[%d] if %q: %w" (br_If b)) <$> st_Branches s)
  ++ match st_Step s with Some inner => lint_step lintExpr (sctx +:+ " (inner step)") inner | None => [] end.

Definition lintStepExprs `{Hooks} (sctx : string) (s : StepConfig) : list ConfigError :=
  match hk_LintExpr with
  | Some f => lint_step f sctx s
  | None => []
  end.

(** [validateSplitStep]. *)
Definition validateSplitStep (sctx : string) (s : StepConfig) (stepIDs : gset string) : list ConfigError :=
  complain (negb (is_empty (st_Agent s))) sctx "split step must not have an agent field"
  ++ match st_Branches s with
     | [] => [CE sctx "split step requires at least one branch"]
     | bs =>
         concat ((fun b => if is_empty (br_Goto b) then [CE sctx "branches[%d]: goto is required"]
                           else complain (negb (bool_decide (br_Goto b ∈ stepIDs))) sctx
                                  "branches[%d]: goto references unknown step %q") <$> bs)
         ++ complain (negb (st_Multi s) && negb (bool_decide (length (List.filter IsFallback bs) = 1))) sctx
              "split with multi: false requires exactly one else/fallback branch (found %d)"
     end.

Section durations.
Context {RT : GoRuntime}.

(** [raw != "" && (err != nil || d <= 0)]. *)
Definition bad_positive (raw : string) : bool :=
  negb (is_empty raw) && match parse_duration raw with Some d => (d <=? 0)%Z | None => true end.

(** [raw != "" && err != nil]. *)
Definition bad_duration (raw : string) : bool :=
  negb (is_empty raw) && bool_decide (parse_duration raw = None).

(** The loop over the delegates of one owner; [owners] is [delegateOwner]. *)
Definition check_delegate (sctx approver : string) (acc : list ConfigError * gmap string string) (d : string)
    : list ConfigError * gmap string string :=
  let '(errs, owners) := acc in
  (errs ++ match owners !! d with
           | Some owner => complain (negb (bool_decide (owner = approver))) sctx "delegate %q is assigned to multiple approvers"
           | None => []
           end,
   <[d := approver]> owners).

Definition check_owner (sctx : string) (approvers : list string)
    (acc : list ConfigError * gmap string string) (od : string * list string) : list ConfigError * gmap string string :=
  let '(approver, delegates) := od in
  let errs := acc.1
    ++ complain (negb (str_in approver approvers)) sctx "delegate owner %q is not an approver"
    ++ complain (bool_decide (delegates = [])) sctx "delegate owner %q has no delegates" in
  foldl (check_delegate sctx approver) (errs, acc.2) delegates.

(** The loop over the form fields; [seen] is the names so far. *)
Definition check_form_field (sctx : string) (acc : list ConfigError * gset string) (f : ApprovalField)
    : list ConfigError * gset string :=
  let '(errs, seen) := acc in
  if is_empty (af_Name f) then (errs ++ [CE sctx "approval field name is required"], seen)
  else (errs ++ complain (bool_decide (af_Name f ∈ seen)) sctx "duplicate approval field %q"
             ++ complain (negb (str_in (af_Type f) [""; "string"; "text"; "boolean"; "number"; "choice"])) sctx
                  "approval field %q has invalid type %q"
             ++ complain (bool_decide (af_Type f = "choice") && bool_decide (af_Options f = [])) sctx
                  "choice field %q requires options",
        {[af_Name f]} ∪ seen).

(** [validateApprovalStep]. *)
Definition validateApprovalStep (sctx : string) (s : StepConfig) : list ConfigError :=
  complain (negb (is_empty (st_Agent s))) sctx "approval step must not have an agent field"
  ++ complain (is_empty (st_Message s)) sctx "approval step requires a message"
  ++ complain (bad_positive (st_RemindAfter s)) sctx "invalid %s %q"
  ++ complain (bad_positive (st_EscalateAfter s)) sctx "invalid %s %q"
  ++ complain ((st_RequiredApprovals s <? 0)
               || (0 <? st_RequiredApprovals s) && (Z.of_nat (length (st_Approvers s)) <? st_RequiredApprovals s))%Z sctx
       "required_approvals cannot exceed the number of approvers"
  ++ (foldl (check_owner sctx (st_Approvers s)) ([], ∅) (map_to_list (st_Delegates s))).1
  ++ (foldl (check_form_field sctx) ([], ∅) (st_ApprovalFields s)).1
  ++ complain (bad_duration (st_Timeout s)) sctx "invalid timeout %q: %v".

(** [validateWaitForStep]. *)
Definition check_wait_kind `{Hooks} (c : ConfigFile) (sctx : string) (cfg : WaitForConfig) : list ConfigError :=
  if str_in (wf_Kind cfg) [""; WaitKindCI] then []
  else if bool_decide (wf_Kind cfg = WaitKindDependency) then
    match hk_SourceSupportsDependencyWait with
    | Some supports => complain (negb (bool_decide (cf_Sources c = [])) && negb (existsb (fun src => supports src.2) (cf_Sources c)))
                         sctx "wait_for kind dependency requires a source whose adapter can list a task's blockers"
    | None => []
    end
  else [CE sctx "wait_for step kind %q not supported (valid: ci, dependency)"].

Definition source_type (c : ConfigFile) (id : string) : string :=
  match List.find (fun src => bool_decide (src.1 = id)) (cf_Sources c) with
  | Some src => src.2
  | None => ""
  end.

Definition check_ci_source `{Hooks} (c : ConfigFile) (sctx : string) (cfg : WaitForConfig) : list ConfigError :=
  if is_empty (wf_CISource cfg) then []
  else if negb (is_empty (wf_Kind cfg)) && negb (bool_decide (wf_Kind cfg = WaitKindCI))
  then [CE sctx "wait_for ci_source is only valid with kind ci"]
  else match cf_Sources c with
       | [] => []
       | _ =>
           let t := source_type c (wf_CISource cfg) in
           if is_empty t then [CE sctx "wait_for ci_source %q is not a configured source"]
           else match hk_SourceCapabilities with
                | Some caps => complain (negb (sc_PRCIWait (caps t))) sctx
                                 "wait_for ci_source %q (type %q) cannot poll CI for a pull request"
                | None => []
                end
       end.

Definition validateWaitForStep `{Hooks} (c : ConfigFile) (sctx : string) (s : StepConfig) : list ConfigError :=
  complain (negb (is_empty (st_Agent s))) sctx "wait_for step must not have an agent field"
  ++ match st_WaitFor s with
     | None => [CE sctx "wait_for step requires a wait_for config block"]
     | Some cfg =>
         check_wait_kind c sctx cfg
         ++ check_ci_source c sctx cfg
         ++ (if bool_decide (wf_Kind cfg = WaitKindDependency) then []
             else complain (negb (bool_decide (wf_SatisfiedWhen cfg = []))) sctx "wait_for satisfied_when is only valid with kind dependency"
                  ++ complain (negb (is_empty (wf_BlockerLinkType cfg))) sctx "wait_for blocker_link_type is only valid with kind dependency")
         ++ concat ((fun cond => complain (negb (str_in cond [BlockerSatisfiedMerged; BlockerSatisfiedDone])) sctx
                       "wait_for satisfied_when value %q not supported (valid: merged, done)") <$> wf_SatisfiedWhen cfg)
         ++ complain (negb (str_in (wf_OnTimeout cfg) [""; OnTimeoutHold; OnTimeoutFail])) sctx
              "invalid wait_for on_timeout %q (valid: hold, fail)"
         ++ complain (bad_duration (wf_CheckInterval cfg)) sctx "invalid wait_for check_interval %q: %v"
         ++ complain (bad_duration (wf_MaxDuration cfg)) sctx "invalid wait_for max_duration %q: %v"
     end.
End durations.

(** ** Foreach and sub-workflow steps *)

(** The walk of [foreachItemsResolveToArray] down a field path. *)
Fixpoint resolves_to_array (props : gmap string SchemaField) (path : list string) : bool :=
  match path with
  | [] => false
  | p :: path =>
      match props !! p with
      | None => false
      | Some f =>
          match path with
          | [] => bool_decide (sf_Type f = "array")
          | _ => bool_decide (sf_Type f = "object") && resolves_to_array (sf_Properties f) path
          end
      end
  end.

(** [foreachItemsResolveToArray]. *)
Definition foreachItemsResolveToArray (items : string) (wf : WorkflowConfig) : bool :=
  match split_on "." items with
  | a :: stepID :: b :: f :: path =>
      bool_decide (a = "steps") && bool_decide (b = "output")
      && match List.find (fun s => bool_decide (st_ID s = stepID)) (wc_Steps wf) with
         | Some s => match st_OutputSchema s with
                     | Some sch => resolves_to_array (os_Properties sch) (f :: path)
                     | None => false
                     end
         | None => false
         end
  | _ => false
  end.

(** [n != 0 && (n < 1 || n > top)]. *)
Definition out_of_range (n top : Z) : bool := (negb (n =? 0) && ((n <? 1) || (top <? n)))%Z.

(** [validateForeachStep]. *)
Definition validateForeachStep (sctx : string) (s : StepConfig) (wf : WorkflowConfig) (agentIDs : gset string)
    : list ConfigError :=
  (if is_empty (st_Items s) then [CE sctx "foreach step requires items"]
   else complain (negb (foreachItemsResolveToArray (st_Items s) wf)) sctx
          "foreach items %q does not resolve to an array field in a prior step's output_schema")
  ++ complain (out_of_range (st_Concurrency s) 16) sctx "foreach concurrency must be between 1 and 16"
  ++ complain (out_of_range (st_MaxItems s) 200) sctx "foreach max_items must be between 1 and 200"
  ++ match st_Step s with
     | None => [CE sctx "foreach step requires an inner step"]
     | Some inner =>
         complain (negb (str_in (st_Type inner) [""; StepTypeAgent])) sctx "foreach inner step must be type agent, got %q"
         ++ (if is_empty (st_Agent inner) then [CE sctx "foreach inner step requires an agent field"]
             else complain (negb (bool_decide (st_Agent inner ∈ agentIDs))) sctx "foreach inner step agent %q not defined")
         ++ match st_OutputSchema inner with
            | Some o => validateOutputSchema (sctx +:+ " (inner step)") o
            | None => []
            end
     end.

(** [wfByID]: the last workflow of an id. *)
Definition wf_by_id (c : ConfigFile) (id : string) : option WorkflowConfig :=
  if is_empty id then None else List.find (fun w => bool_decide (wc_ID w = id)) (rev (cf_Workflows c)).

Section workflow_step.
Context {RT : GoRuntime}.

(** [validateWorkflowStep]. *)
Definition validateWorkflowStep (c : ConfigFile) (sctx : string) (s : StepConfig) (parent : WorkflowConfig)
    : list ConfigError :=
  complain (negb (is_empty (st_Agent s))) sctx "workflow step must not have an agent field"
  ++ (if negb (is_empty (st_Uses s)) && is_empty (st_Workflow s)
      then [CE sctx "local uses reference %q was not resolved; load the config with config.Load"]
      else if is_empty (st_Workflow s) then [CE sctx "workflow step requires a workflow reference"]
      else if bool_decide (st_Workflow s = wc_ID parent) then [CE sctx "workflow step cannot reference its own workflow"]
      else match wf_by_id c (st_Workflow s) with
           | None => [CE sctx "workflow %q not defined"]
           | Some child =>
               complain (bad_duration (st_Timeout s)) sctx "invalid timeout %q: %v"
               ++ concat ((fun '(name, value) =>
                    match wc_Inputs child !! name with
                    | None => [CE sctx "with.%s is not declared by workflow %q"]
                    | Some input => complain (negb (isWorkflowExpression value) && negb (WorkflowValueMatchesType value (win_Type input)))
                                      sctx "with.%s does not match input type %q"
                    end) <$> map_to_list (st_With s))
               ++ concat ((fun '(name, input) =>
                    complain (win_Required input && bool_decide (win_Default input = None) && bool_decide (st_With s !! name = None))
                      sctx "required input %q for workflow %q is missing") <$> map_to_list (wc_Inputs child))
           end).
End workflow_step.

(** ** Steps *)

(** [validateParallelChildKind]. *)
Definition validateParallelChildKind (sctx : string) (child : StepConfig) : list ConfigError :=
  let cctx := sctx +:+ ": child " +:+ st_ID child in
  complain (negb (str_in (StepType child) [StepTypeAgent; StepTypeWaitFor])) cctx
    "a parallel group cannot contain a %s step (only agent and wait_for children are supported)"
  ++ if negb (bool_decide (st_ParallelSteps child = [])) then [CE cctx "nested parallel: groups are not supported"]
     else if negb (is_empty (st_ForEachExpr child)) then [CE cctx "for_each: is not supported inside a parallel group"]
     else complain (negb (bool_decide (st_SubSteps child = [])) && is_empty (st_Type child)) cctx
            "nested steps: groups are not supported inside a parallel group".

(** The id checks of a list of steps: the errors and the ids. *)
Definition check_id (required duplicate ctx : string) (acc : list ConfigError * gset string) (s : StepConfig)
    : list ConfigError * gset string :=
  let '(errs, seen) := acc in
  if is_empty (st_ID s) then (errs ++ [CE ctx required], seen)
  else (errs ++ complain (bool_decide (st_ID s ∈ seen)) ctx duplicate, {[st_ID s]} ∪ seen).

Definition check_ids (required duplicate ctx : string) (l : list StepConfig) : list ConfigError * gset string :=
  foldl (check_id required duplicate ctx) ([], ∅) l.

(** The join of a group: [all], [any] or a wrapped expression. *)
Definition check_join `{Hooks} (sctx join : string) : list ConfigError :=
  if str_in join [""; JoinAll; JoinAny] then []
  else if negb (is_wrapped join) then [CE sctx "invalid join %q (want all, any, or a ${{ expr }} expression)"]
  else match hk_LintExpr with
       | Some f => complain (negb (f (trim_space join))) sctx "join %q: %w"
       | None => []
       end.

Section step.
Context {RT : GoRuntime} {HK : Hooks} (c : ConfigFile) (wf : WorkflowConfig) (agentIDs : gset string).

(** [validateParallelStep], given the check of a child. *)
Definition validateParallelStep (validate : string -> gset string -> StepConfig -> list ConfigError)
    (sctx : string) (s : StepConfig) : list ConfigError :=
  complain (negb (is_empty (st_Agent s))) sctx "parallel step must not have an agent field"
  ++ complain (bool_decide (st_SubSteps s = [])) sctx "parallel step requires at least one child step"
  ++ check_join sctx (st_Join s)
  ++ let '(errs, childIDs) := check_ids "children[%d]: id is required" "duplicate child step id %q" sctx (st_SubSteps s) in
     errs ++ concat ((fun child => validateParallelChildKind sctx child ++ validate sctx childIDs child) <$> st_SubSteps s).

(** The switch of [validateStep] over the type of a step. *)
Definition validate_by_type (parallel : list ConfigError) (sctx : string) (stepIDs : gset string) (s : StepConfig)
    : list ConfigError :=
  let ty := StepType s in
  if bool_decide (ty = StepTypeAgent) then validateAgentStep sctx s agentIDs stepIDs
  else if bool_decide (ty = StepTypeSplit) then validateSplitStep sctx s stepIDs
  else if bool_decide (ty = StepTypeApproval) then validateApprovalStep sctx s
  else if bool_decide (ty = StepTypeForeach) then validateForeachStep sctx s wf agentIDs
  else if bool_decide (ty = StepTypeWorkflow) then validateWorkflowStep c sctx s wf
  else if bool_decide (ty = StepTypeWaitFor) then validateWaitForStep c sctx s
  else if bool_decide (ty = StepTypeParallel) then parallel
  else [CE sctx "unknown step type %q"].

(** Its checks that do not depend on the type. *)
Definition validate_any_type (sctx : string) (stepIDs : gset string) (s : StepConfig) : list ConfigError :=
  lintStepExprs sctx s
  ++ complain (negb (is_empty (st_PullRequestFrom s)) && negb (is_type StepTypeAgent s)) sctx
       "pull_request_from is only valid on an agent step"
  ++ match st_OnConflict s with
     | Some o => complain (negb (is_empty (so_Goto o)) && negb (is_type StepTypeWaitFor s)) sctx
                   "on_conflict is only valid on a wait_for step"
     | None => []
     end
  ++ check_goto sctx "on_conflict.goto references unknown step %q" "on_conflict.max_retries must be >= 1 when goto is set"
       stepIDs (st_OnConflict s).

(** [validateStep], which [validateParallelStep] calls for the children. They are
    one level of a finite tree, so its depth is enough fuel; running out is
    reported, see [validateStep_fuel]. *)
Fixpoint validateStep (fuel : nat) (ctx : string) (stepIDs : gset string) (s : StepConfig) : list ConfigError :=
  let sctx := ctx +:+ ": step " +:+ st_ID s in
  validate_by_type
    (validateParallelStep (match fuel with
                           | O => fun sctx _ _ => [CE sctx "out of fuel"]
                           | S fuel => validateStep fuel
                           end) sctx s) sctx stepIDs s
  ++ validate_any_type sctx stepIDs s.
End step.

(** The depth of the children of a step. *)
Fixpoint step_depth (s : StepConfig) : nat :=
  S (foldr (fun x acc => Nat.max (step_depth x) acc) 0 (st_SubSteps s)).

(** ** Workflows *)

(** [guarded]: the step before, or one it depends on, is an approval with
    approvers. *)
Definition named_gate (s : StepConfig) : bool :=
  is_type StepTypeApproval s && negb (bool_decide (st_Approvers s = [])).

Definition guarded (wf : WorkflowConfig) (i : nat) (s : StepConfig) : bool :=
  match i with
  | O => false
  | S j => match wc_Steps wf !! j with Some p => named_gate p | None => false end
  end
  || existsb (fun dep => existsb (fun cand => bool_decide (st_ID cand = dep) && named_gate cand) (wc_Steps wf))
       (all_deps s).

(** The action classes of a workflow. *)
Definition check_action (c : ConfigFile) (ctx : string) (wf : WorkflowConfig) (i : nat) (s : StepConfig) : list ConfigError :=
  if is_empty (st_ActionClass s) then []
  else complain (negb (str_in (st_ActionClass s) ["push"; "deploy"; "destructive"; "external_publication"])) ctx
         "step %q has invalid action_class %q"
       ++ complain (str_in (st_ActionClass s) (cf_RequireFor c) && negb (guarded wf i s)) ctx
            "step %q action_class %q requires a preceding approval step".

(** [strings.ToUpper] on ASCII. *)
Definition ascii_to_upper (ch : ascii) : ascii :=
  let n := N_of_ascii ch in
  if ((97 <=? n) && (n <=? 122))%N then ascii_of_N (n - 32) else ch.

Fixpoint to_upper (s : string) : string :=
  match s with
  | EmptyString => EmptyString
  | String ch s => String (ascii_to_upper ch) (to_upper s)
  end.

(** [validateTriggerEvents]. *)
Definition check_event_source `{Hooks} (c : ConfigFile) (ctx : string) (t : TriggerConfig) : list ConfigError :=
  match hk_SourceSupportsPREvents with
  | Some supports =>
      let pinned := rm_Source (tr_Match t) in
      complain (negb (bool_decide (cf_Sources c = []))
                && negb (existsb (fun src => (is_empty pinned || bool_decide (src.1 = pinned)) && supports src.2) (cf_Sources c)))
        ctx "trigger on: %s requires a source whose adapter can poll PR events, but %s"
  | None => []
  end.

Definition validateTriggerEvents `{GoRuntime, Hooks} (c : ConfigFile) (ctx : string) (t : TriggerConfig) : list ConfigError :=
  if negb (bool_decide (EventKind t = TriggerOnItem) || str_in (EventKind t) TriggerEventKinds)
  then [CE ctx "trigger on %q not supported (valid: item, %s)"]
  else if negb (IsEventTrigger t) then
    complain (negb (is_empty (tr_CommentMatches t))) ctx "trigger comment_matches requires on: %s"
    ++ complain (negb (bool_decide (tr_Authors t = [])) || negb (bool_decide (tr_AuthorsAssociation t = []))) ctx
         "trigger authors/authors_association are only valid on an event trigger (on: %s)"
    ++ complain (negb (bool_decide (tr_IgnoreAuthors t = []))) ctx "trigger ignore_authors is only valid on an event trigger (on: %s)"
    ++ complain (negb (bool_decide (tr_PRAuthors t = []))) ctx "trigger pr_authors is only valid on an event trigger (on: %s)"
    ++ complain (negb (tr_MaxDispatches t =? 0)%Z) ctx "trigger max_dispatches is only valid on an event trigger"
  else
    complain (negb (is_empty (tr_CommentMatches t)) && negb (bool_decide (EventKind t = TriggerOnPRComment))) ctx
      "trigger comment_matches is only valid with on: %s"
    ++ complain (negb (is_empty (tr_CommentMatches t)) && match regexp_compile (tr_CommentMatches t) with None => true | _ => false end)
         ctx "trigger comment_matches %q: invalid regexp: %w"
    ++ complain (tr_MaxDispatches t <? 0)%Z ctx "trigger max_dispatches must be >= 0"
    ++ complain (tr_Once t) ctx "trigger once is not valid on an event trigger (each event dispatches exactly once already)"
    ++ concat ((fun a => complain (negb (str_in (to_upper a) validAuthorAssociations)) ctx
                  "trigger authors_association value %q not supported (e.g. OWNER, MEMBER, COLLABORATOR)") <$> tr_AuthorsAssociation t)
    ++ check_event_source c ctx t.

Section workflow.
Context {RT : GoRuntime} {HK : Hooks} (c : ConfigFile).

(** [validateWorkflow]. *)
Definition validateWorkflow (idx : nat) (wf : WorkflowConfig) : list ConfigError :=
  let ctx := "workflows[" +:+ pretty idx +:+ "] " +:+ wc_ID wf in
  validateWorkflowContract ctx wf
  ++ complain (negb (str_in (wc_Resume wf) [""; ResumeAllowed; ResumeForbidden; ResumeAuto])) ctx
       "invalid resume %q (want allowed|forbidden|auto)"
  ++ complain (negb (str_in (wc_ResultComment wf) [""; ResultCommentOnComplete; ResultCommentPerStep; ResultCommentOff;
                                                   ResultCommentOnFail; ResultCommentAlways])) ctx
       "invalid result_comment %q (want on_complete|per_step|off|on_fail|always)"
  ++ match wc_Trigger wf with
     | Some t =>
         complain (negb (is_empty (rm_Source (tr_Match t))) && negb (bool_decide (rm_Source (tr_Match t) ∈ sourceIDSet c))) ctx
           "trigger source %q not defined"
         ++ validateTriggerEvents c ctx t
     | None => []
     end
  ++ match wc_Steps wf with
     | [] => [CE ctx "at least one step is required"]
     | steps =>
         let '(errs, stepIDs) := check_ids "steps[%d]: id is required" "duplicate step id %q" ctx steps in
         errs
         ++ concat ((fun s => validateStep c wf (agentIDSet c) (step_depth s) ctx stepIDs s) <$> steps)
         ++ concat (imap (check_action c ctx wf) steps)
         ++ (CGraph ctx <$> validateStepGraph wf stepIDs)
         ++ (if bool_decide (wc_Resume wf = ResumeAuto)
             then concat ((fun s => complain (is_type StepTypeAgent s && negb (st_Idempotent s)) ctx
                             "resume: auto requires all steps idempotent, but step %q is not") <$> steps)
             else [])
     end.

(** The ids of the workflows. *)
Definition check_workflow_ids : list ConfigError :=
  (foldl (fun '(errs, seen) wf =>
     if is_empty (wc_ID wf) then (errs ++ [CE "workflows" "workflows[%d]: id is required"], seen)
     else (errs ++ complain (bool_decide (wc_ID wf ∈ seen)) "workflows" "workflows[%d]: duplicate id %q",
           ({[wc_ID wf]} : gset string) ∪ seen)) ([], ∅) (cf_Workflows c)).1.
End workflow.

(** ** References between workflows *)

(** The sub-workflows a workflow calls, in order. *)
Definition workflow_refs (c : ConfigFile) (id : string) : list string :=
  match wf_by_id c id with
  | Some wf => List.filter (fun w => bool_decide (is_Some (wf_by_id c w)))
                 (st_Workflow <$> List.filter (is_type StepTypeWorkflow) (wc_Steps wf))
  | None => []
  end.

(** [visit]: the workflows at which a cycle was closed, and the states. *)
Fixpoint ref_visit (fuel : nat) (refs : string -> list string) (acc : list string * gmap string Color) (id : string)
    : list string * gmap string Color :=
  match color_of acc.2 id with
  | black => acc
  | gray => (acc.1 ++ [id], acc.2)
  | white =>
      let acc := (acc.1, <[id := gray]> acc.2) in
      match fuel with
      | O => acc
      | S fuel => let acc := foldl (ref_visit fuel refs) acc (refs id) in (acc.1, <[id := black]> acc.2)
      end
  end.

(** The ids of the workflows, sorted. *)
Definition workflow_ids (c : ConfigFile) : list string :=
  sort_strings (elements (list_to_set (List.filter (fun id => negb (is_empty id)) (wc_ID <$> cf_Workflows c)) : gset string)).

(** [validateWorkflowReferenceCycles]; as many levels as workflows are enough,
    see [reference_cycles_exact]. *)
Definition validateWorkflowReferenceCycles (c : ConfigFile) : list ConfigError :=
  (fun _ => CE "workflows" "cyclic subworkflow reference: %s") <$>
    (foldl (ref_visit (length (workflow_ids c)) (workflow_refs c)) ([], ∅) (workflow_ids c)).1.

(** [validateWorkflows]. *)
Definition validateWorkflows `{GoRuntime, Hooks} (c : ConfigFile) : list ConfigError :=
  match cf_Workflows c with
  | [] => []
  | wfs => check_workflow_ids c
           ++ concat (imap (validateWorkflow c) wfs)
           ++ validateWorkflowReferenceCycles c
  end.
