(* ===== verification/Lower.v ===== *)
(** * Lowering authored workflows (src/internal/config/lower_v2.go)

    The authored form nests groups, gates and loops; the lowering pass flattens
    it into the steps the scheduler runs: groups dissolve into their children
    under a conjunction of guards, [parallel:] and [for_each:] become nodes with
    embedded children, declaration order becomes [SeqDependsOn] edges, and step
    outputs named in expressions become workflow memory that the naming step
    must write. The pass threads the staged writes ([pendingWrites]) through
    the whole tree, so every operation takes and returns them. *)

From stdpp Require Import base gmap strings list.
From Stdlib Require Import ZArith Ascii.
From S2P Require Import Prelude Model Expr Config StepGraph.

(** ** Authored steps *)

(** [StepConfig.IsV2Step]. *)
Definition IsV2Step (s : StepConfig) : bool :=
  negb (bool_decide (st_Type s = StepTypeParallel))
  && (negb (is_empty (st_If s)) || negb (is_empty (st_RejectWhen s))
      || negb (bool_decide (st_OnReject s = None))
      || negb (bool_decide (st_SubSteps s = [])) || negb (bool_decide (st_ParallelSteps s = []))
      || negb (is_empty (st_ForEachExpr s)) || negb (bool_decide (st_Output s = None))).

(** [anyV2Steps]. *)
Fixpoint anyV2Step (s : StepConfig) : bool :=
  IsV2Step s || existsb anyV2Step (st_SubSteps s) || existsb anyV2Step (st_ParallelSteps s).

Definition anyV2Steps (steps : list StepConfig) : bool := existsb anyV2Step steps.

(** [buildStepIndex]: the last declaration of an id wins. *)
Fixpoint index_step (m : gmap string StepConfig) (s : StepConfig) : gmap string StepConfig :=
  let m := if is_empty (st_ID s) then m else <[st_ID s := s]> m in
  let m := foldl index_step m (st_SubSteps s) in
  foldl index_step m (st_ParallelSteps s).

Definition buildStepIndex (steps : list StepConfig) : gmap string StepConfig := foldl index_step ∅ steps.

(** ** [sequenceSteps] *)

(** The branch loop of one split at position [i]. *)
Definition split_branch (index : gmap string nat) (i : nat) (split : string) (m : gmap string string)
    (b : SplitBranch) : gmap string string :=
  if bool_decide (m !! br_Goto b = None) && negb (is_empty (br_Goto b))
     && (i <? default 0 (index !! br_Goto b))%nat
  then <[br_Goto b := split]> m else m.

Definition split_step (index : gmap string nat) (m : gmap string string) (p : nat * StepConfig)
    : gmap string string :=
  if is_type StepTypeSplit p.2 then foldl (split_branch index p.1 (st_ID p.2)) m (st_Branches p.2) else m.

(** [splitFor]: the first split that names a later step. *)
Definition splitFor (steps : list StepConfig) : gmap string string :=
  let index := foldl (fun m '(i, s) => <[st_ID s := i]> m) ∅ (imap pair steps) in
  foldl (split_step index) ∅ (imap pair steps).

Definition sequence_step (splits : gmap string string) (prevID : string) (s : StepConfig) : StepConfig :=
  match st_DependsOn s, st_SeqDependsOn s with
  | [], [] =>
      match splits !! st_ID s with
      | Some split => with_SeqDependsOn [split] s
      | None => if is_empty prevID then s else with_SeqDependsOn [prevID] s
      end
  | _, _ => s
  end.

Fixpoint sequence_from (splits : gmap string string) (prevID : string) (steps : list StepConfig)
    : list StepConfig :=
  match steps with
  | [] => []
  | s :: rest =>
      sequence_step splits prevID s
      :: sequence_from splits (if is_empty (st_ID s) then prevID else st_ID s) rest
  end.

Definition sequenceSteps (steps : list StepConfig) : list StepConfig :=
  sequence_from (splitFor steps) "" steps.

(** ** Expressions *)

(** [lowerExpr]. *)
Definition lowerExpr (expr : string) : string :=
  let s := trim_space expr in
  if has_prefix s "${{" && has_suffix s "}}"
  then trim_space (String.substring 3 (String.length s - 5) s) else s.

(** [composeCond]. *)
Definition composeCond (a b : string) : string :=
  let a := trim_space a in
  let b := trim_space b in
  if is_empty a && is_empty b then ""
  else if is_empty a then b
  else if is_empty b then a
  else "(" +:+ a +:+ ") and (" +:+ b +:+ ")".

(** [isIdentRune], on bytes: no rune outside ASCII qualifies. *)
Definition isIdentRune (c : ascii) : bool :=
  bool_decide (c = "_"%char) || byte_in "a" "z" c || byte_in "A" "Z" c || byte_in "0" "9" c
  || bool_decide (c = "-"%char).

(** [pendingWrites]. *)
Definition Writes : Type := gmap string (list string).

Section lowering.
Context (stepByID : gmap string StepConfig).

(** [ensureMemoryWrite]. *)
Definition ensureMemoryWrite (stepID field : string) (w : Writes) : Writes :=
  if bool_decide (stepByID !! stepID = None) then w
  else if bool_decide (field ∈ default [] (w !! stepID)) then w
  else push stepID field w.

(** An identifier followed by a dot and another one. *)
Definition dotted (s : string) : string * option (string * string) * string :=
  let '(word1, rest) := str_span isIdentRune s in
  match rest with
  | String "."%char rest' =>
      match str_span isIdentRune rest' with
      | (EmptyString, _) => (word1, None, rest)
      | (word2, rest2) => (word1, Some (word2, rest2), rest)
      end
  | _ => (word1, None, rest)
  end.

(** The loop of [rewriteStepRefs]: every iteration consumes at least a byte, so
    the length of the source is fuel enough. *)
Fixpoint rewrite_go (fuel : nat) (src : string) (w : Writes) : string * Writes :=
  match fuel, src with
  | O, _ | _, EmptyString => ("", w)
  | S fuel, String c rest =>
      if isIdentRune c then
        match dotted src with
        | (word1, Some (word2, rest2), after) =>
            if bool_decide (is_Some (stepByID !! word1)) then
              let '(out, w) := rewrite_go fuel rest2 (ensureMemoryWrite word1 word2 w) in
              ("memory." +:+ word2 +:+ out, w)
            else let '(out, w) := rewrite_go fuel after w in (word1 +:+ out, w)
        | (word1, None, after) => let '(out, w) := rewrite_go fuel after w in (word1 +:+ out, w)
        end
      else let '(out, w) := rewrite_go fuel rest w in (String c out, w)
  end.

Definition rewriteStepRefs (src : string) (w : Writes) : string * Writes :=
  rewrite_go (String.length src) src w.

(** [rewriteExpr]. *)
Definition rewriteExpr (expr : string) (w : Writes) : string * Writes := rewriteStepRefs (lowerExpr expr) w.

(** The schema [ensureMemoryWriteForExpr] consults. *)
Definition declared_schema (s : StepConfig) : option OutputSchema :=
  match st_OutputSchema s with
  | Some o => Some o
  | None => st_Output s
  end.

Definition declares_field (field : string) (s : StepConfig) : bool :=
  match declared_schema s with
  | Some o => bool_decide (is_Some (os_Properties o !! field))
  | None => false
  end.

(** The loop over the index, which runs in no fixed order. *)
Definition write_declared (field : string) (w : Writes) : Writes :=
  foldl (fun w '(stepID, s) => if declares_field field s then ensureMemoryWrite stepID field w else w)
    w (map_to_list stepByID).

(** [ensureMemoryWriteForExpr]. *)
Fixpoint write_expr_go (fuel : nat) (src : string) (w : Writes) : Writes :=
  match fuel, src with
  | O, _ | _, EmptyString => w
  | S fuel, String c rest =>
      if isIdentRune c then
        match dotted src with
        | (word1, Some (word2, _), after) =>
            write_expr_go fuel after
              (if bool_decide (word1 = "memory") then write_declared word2 w else w)
        | (_, None, after) => write_expr_go fuel after w
        end
      else write_expr_go fuel rest w
  end.

Definition ensureMemoryWriteForExpr (expr : string) (w : Writes) : Writes :=
  write_expr_go (String.length expr) expr w.

(** [autoWireMemory]. *)
Definition autoWireMemory (s : StepConfig) (w : Writes) : Writes :=
  foldl (fun w expr => if is_empty expr then w else ensureMemoryWriteForExpr expr w)
    w [st_Condition s; st_FailWhen s].

(** [strings.SplitN(s, ".", n)] for [n > 0]. *)
Fixpoint split_dots (n : nat) (s : string) : list string :=
  match n with
  | O => []
  | S n' =>
      match n', str_span (fun c => negb (bool_decide (c = "."%char))) s with
      | S _, (word, String _ rest) => word :: split_dots n' rest
      | _, _ => [s]
      end
  end.

(** [parseForEachExpr]: the items path, and the step and field it names. *)
Definition parseForEachExpr (expr : string) : string * string * string :=
  let s := lowerExpr expr in
  let full := match split_dots 4 s with
    | ["steps"; step; out; field] =>
        if bool_decide (out = "output") || bool_decide (out = "outputs")
        then ("steps." +:+ step +:+ ".output." +:+ field, step, field) else (s, "", "")
    | _ => (s, "", "")
    end in
  match split_dots 2 s with
  | [a; b] =>
      if negb (has_prefix s "steps.") && negb (has_prefix s "memory.")
      then ("steps." +:+ a +:+ ".output." +:+ b, a, b) else full
  | _ => full
  end.

(** ** Steps *)

Inductive LowerError := ParallelMissingID | ForEachMissingID.

Definition seq_after (prevID : string) (s : StepConfig) : StepConfig :=
  if is_empty prevID then s else with_SeqDependsOn [prevID] s.

(** [reject_when] and [on_reject] of [s], written to [out]. *)
Definition lower_gate (s out : StepConfig) (w : Writes) : StepConfig * Writes :=
  let '(out, w) :=
    if is_empty (st_RejectWhen s) then (out, w)
    else let '(e, w) := rewriteExpr (st_RejectWhen s) w in (with_FailWhen e out, w) in
  (match st_OnReject s with
   | Some o => with_OnFail (Some {| so_Goto := or_RestartFrom o; so_MaxRetries := or_Max o |}) out
   | None => out
   end, w).

(** [lowerLeafStep]. *)
Definition lowerLeafStep (s : StepConfig) (prevID inherited : string) (w : Writes) : StepConfig * Writes :=
  let out := match st_DependsOn s with
             | [] => seq_after prevID s
             | _ => s
             end in
  let out := match st_OutputSchema out with
             | None => with_OutputSchema (st_Output out) out
             | Some _ => out
             end in
  let out := with_Output None out in
  let '(own, w) := rewriteExpr (st_If s) w in
  let out := with_If "" (with_Condition (composeCond inherited own) out) in
  let '(out, w) := lower_gate s out w in
  let out := with_OnReject None (with_RejectWhen "" out) in
  let w := autoWireMemory out w in
  let out := if (0 <? st_Max out)%Z && (st_MaxItems out =? 0)%Z then with_MaxItems (st_Max out) out else out in
  (with_Max 0 out, w).

(** A loop over leaves without sequencing. *)
Fixpoint lower_leaves (steps : list StepConfig) (w : Writes) : list StepConfig * Writes :=
  match steps with
  | [] => ([], w)
  | s :: rest =>
      let '(flat, w) := lowerLeafStep s "" "" w in
      let '(out, w) := lower_leaves rest w in
      (flat :: out, w)
  end.

(** The node [parallel:] and [for_each:] share: guard and gate of [s] on the
    fresh step [out]. *)
Definition lower_node (s out : StepConfig) (prevID inherited : string) (w : Writes) : StepConfig * Writes :=
  let out := seq_after prevID out in
  let '(own, w) := rewriteExpr (st_If s) w in
  let out := with_Condition (composeCond inherited own) out in
  let out := with_OnFail (st_OnFail s) (with_FailWhen (st_FailWhen s) out) in
  let '(out, w) := lower_gate s out w in
  (out, autoWireMemory out w).

(** [lowerParallelStep]. *)
Definition lowerParallelStep (s : StepConfig) (prevID inherited : string) (w : Writes)
    : result LowerError (StepConfig * Writes) :=
  if is_empty (st_ID s) then Err ParallelMissingID
  else
    let out := with_Join (st_Join s) (with_Type StepTypeParallel (with_Name (st_Name s) (zero_step (st_ID s)))) in
    let '(out, w) := lower_node s out prevID inherited w in
    let '(children, w) := lower_leaves (st_ParallelSteps s) w in
    Ok (with_SubSteps children out, w).

(** The two bodies of [lowerForeachStep]: [many] lowers a body of several
    steps. *)
Definition lowerForeachStep (many : list StepConfig -> Writes -> result LowerError (list StepConfig * Writes))
    (s : StepConfig) (prevID inherited : string) (w : Writes) : result LowerError (StepConfig * Writes) :=
  if is_empty (st_ID s) then Err ForEachMissingID
  else
    let out := with_FailFast (st_FailFast s) (with_Concurrency (st_Concurrency s) (with_As (st_As s)
                 (with_Type StepTypeForeach (with_Name (st_Name s) (zero_step (st_ID s)))))) in
    let '(out, w) := lower_node s out prevID inherited w in
    let out := with_MaxItems (if (0 <? st_Max s)%Z then st_Max s else st_MaxItems s) out in
    let '(items, stepID, field) := parseForEachExpr (st_ForEachExpr s) in
    let out := with_Items items out in
    let w := if negb (is_empty stepID) && negb (is_empty field) then ensureMemoryWrite stepID field w else w in
    match st_SubSteps s with
    | [] => Ok (out, w)
    | [body] =>
        let '(inner, w) := lowerLeafStep body "" "" w in
        Ok (with_Step (Some inner) out, w)
    | body =>
        '(inner, w) ← many body w;
        Ok (with_Step (Some (with_SubSteps inner (with_Type StepTypeWorkflow (zero_step (st_ID s +:+ "-body"))))) out, w)
    end.

(** The loop of [lowerSteps] over a list, given the lowering of one step. *)
Section steps.
Context (lower_step : StepConfig -> string -> string -> Writes -> result LowerError (list StepConfig * Writes)).

(** [prevID] after a step: the id of the last flat step emitted, if any. *)
Definition last_id (prevID : string) (out : list StepConfig) : string := from_option st_ID prevID (last out).

Fixpoint lower_list (steps : list StepConfig) (prevID inherited : string) (w : Writes)
    : result LowerError (list StepConfig * Writes) :=
  match steps with
  | [] => Ok ([], w)
  | s :: rest =>
      '(flat, w) ← lower_step s prevID inherited w;
      '(out, w) ← lower_list rest (last_id prevID flat) inherited w;
      Ok (flat ++ out, w)
  end.
End steps.

(** One iteration of [lowerSteps]. *)
Fixpoint lower_step (s : StepConfig) (prevID inherited : string) (w : Writes)
    : result LowerError (list StepConfig * Writes) :=
  if negb (is_empty (st_ForEachExpr s)) then
    '(flat, w) ← lowerForeachStep (fun body w => lower_list lower_step body "" "" w) s prevID inherited w;
    Ok ([flat], w)
  else if bool_decide (st_Type s = StepTypeParallel) || bool_decide (st_Type s = StepTypeForeach) then
    Ok ([match st_DependsOn s, st_SeqDependsOn s with
         | [], [] => seq_after prevID s
         | _, _ => s
         end], w)
  else
    match st_ParallelSteps s, st_SubSteps s with
    | _ :: _, _ => '(flat, w) ← lowerParallelStep s prevID inherited w; Ok ([flat], w)
    | [], (_ :: _) as children =>
        let '(own, w) := rewriteExpr (st_If s) w in
        lower_list lower_step children prevID (composeCond inherited own) w
    | [], [] => let '(flat, w) := lowerLeafStep s prevID inherited w in Ok ([flat], w)
    end.

Definition lowerSteps (steps : list StepConfig) (prevID inherited : string) (w : Writes)
    : result LowerError (list StepConfig * Writes) := lower_list lower_step steps prevID inherited w.
End lowering.

(** ** Staged writes *)

(** [memoryWrites] decides whether a field is appended. *)
Definition add_write (l : list string) (f : string) : list string :=
  if bool_decide (f ∈ l) then l else l ++ [f].

Definition empty_memory : MemoryConfig := {| mc_Read := None; mc_Write := []; mc_Recall := []; mc_Memorize := "" |}.

Definition wire_memory (fields : list string) (m : option MemoryConfig) : option MemoryConfig :=
  match fields with
  | [] => m
  | _ =>
      let m := default empty_memory m in
      Some {| mc_Read := mc_Read m; mc_Write := foldl add_write (mc_Write m) fields;
              mc_Recall := mc_Recall m; mc_Memorize := mc_Memorize m |}
  end.

(** [applyPendingWritesToStep]. *)
Fixpoint applyPendingWritesToStep (w : Writes) (s : StepConfig) : StepConfig :=
  let s1 := with_Memory (wire_memory (default [] (w !! st_ID s)) (st_Memory s)) s in
  let s2 := with_SubSteps (map (applyPendingWritesToStep w) (st_SubSteps s)) s1 in
  let s3 := with_ParallelSteps (map (applyPendingWritesToStep w) (st_ParallelSteps s)) s2 in
  with_Step (option_map (applyPendingWritesToStep w) (st_Step s)) s3.

Definition applyPendingWrites (w : Writes) (steps : list StepConfig) : list StepConfig :=
  map (applyPendingWritesToStep w) steps.

(** ** Workflows *)

Definition with_Steps (steps : list StepConfig) (wf : WorkflowConfig) : WorkflowConfig := {|
  wc_ID := wc_ID wf; wc_Resume := wc_Resume wf; wc_ResultComment := wc_ResultComment wf;
  wc_Trigger := wc_Trigger wf;
  wc_Inputs := wc_Inputs wf; wc_Outputs := wc_Outputs wf; wc_Steps := steps |}.

(** [LowerV2Workflow]. *)
Definition LowerV2Workflow (wf : WorkflowConfig) : result LowerError WorkflowConfig :=
  if negb (anyV2Steps (wc_Steps wf)) then Ok (with_Steps (sequenceSteps (wc_Steps wf)) wf)
  else
    '(lowered, w) ← lowerSteps (buildStepIndex (wc_Steps wf)) (wc_Steps wf) "" "" ∅;
    Ok (with_Steps (applyPendingWrites w lowered) wf).

(** [LowerV2WorkflowInConfig] on the workflows of a configuration: the first
    error leaves the remaining ones unlowered. *)
Fixpoint LowerV2WorkflowInConfig (wfs : list WorkflowConfig) : list WorkflowConfig * option LowerError :=
  match wfs with
  | [] => ([], None)
  | wf :: rest =>
      match LowerV2Workflow wf with
      | Ok wf' => let '(rest', e) := LowerV2WorkflowInConfig rest in (wf' :: rest', e)
      | Err e => (wf :: rest, Some e)
      end
  end.
