(* ===== verification/GraphRun.v ===== *)
(** * Well-formed step graphs on the scheduler

    What the checks of src/internal/config/workflow_graph.go and the sequencing
    of src/internal/config/lower_v2.go give the scheduler of
    src/internal/workflow/dag.go: a graph without circular waiting never
    strands a step, and a loop-back re-runs the step that declared it. *)

From stdpp Require Import base gmap strings list relations.
From Stdlib Require Import ZArith.
From S2P Require Import Prelude Model Expr Config Graph Dag DagFacts DagTermination DagInvariant DagProps.
From S2P Require Import StepGraph Lower.

(** The ids [validateWorkflow] indexes. *)
Definition step_ids (wf : WorkflowConfig) : gset string :=
  list_to_set (List.filter (fun id => negb (is_empty id)) (st_ID <$> wc_Steps wf)).

Lemma elem_of_step_ids wf id : id ∈ step_ids wf <-> id ∈ st_ID <$> wc_Steps wf /\ id <> "".
Proof.
  unfold step_ids. rewrite elem_of_list_to_set, list_elem_of_In, filter_In, <- list_elem_of_In.
  by rewrite negb_true_iff, is_empty_false.
Qed.

(** ** What a step waits for *)

(** [y] waits for [d]: a dependency, or a split that may activate it. *)
Definition waits_for (wf : WorkflowConfig) (y d : string) : Prop :=
  depends wf y d
  \/ exists s b, s ∈ wc_Steps wf /\ is_type StepTypeSplit s = true /\ b ∈ st_Branches s
                 /\ br_Goto b = y /\ y ∈ st_ID <$> wc_Steps wf /\ d = st_ID s.

(** Every dependency is declared and no step waits for itself, directly or
    through others. *)
Record flow_ok (wf : WorkflowConfig) : Prop := {
  fo_known : forall id d, depends wf id d -> d ∈ st_ID <$> wc_Steps wf;
  fo_acyclic : forall x, ~ tc (waits_for wf) x x;
}.

Lemma depends_byID r y d :
  y ∈ order r -> d ∈ all_deps (byID r y) -> depends (r_wf r) y d.
Proof.
  intros Hy Hd. destruct (byID_in r y Hy) as [H1 H2]. exists (byID r y). done.
Qed.

(** ** Quiescence *)

(** A run where nothing can be skipped and nothing can run. *)
Record idle (r : dagRun) : Prop := {
  id_consistent : consistent r;
  id_flying : flying r [];
  id_skip : forall y, y ∈ order r -> state_of r y = stPending ->
    existsb (fun dep => in_state r stSkipped dep || in_state r stFailed dep
                        || in_state r stCondSkipped dep) (st_DependsOn (byID r y)) = false
    /\ existsb (fun dep => in_state r stSkipped dep || in_state r stFailed dep)
         (st_SeqDependsOn (byID r y)) = false
    /\ splitTarget r y && negb (is_activated r y) && feedingSplitsDone r y = false;
  id_run : pickAllRunnable r = [];
}.

Lemma skip_one_flag acc id : acc.2 = true -> (skip_one acc id).2 = true.
Proof. destruct acc as [r b]. simpl. intros ->. unfold skip_one. by repeat case_match. Qed.

Lemma skip_flag l acc : acc.2 = true -> (foldl skip_one acc l).2 = true.
Proof. revert acc. induction l as [|id l IH]; intros acc H; [done|]. by apply IH, skip_one_flag. Qed.

(** Without progress every pass over a step left the run alone. *)
Lemma skip_loop_idle l r r' :
  foldl skip_one (r, false) l = (r', false) ->
  r' = r /\ forall y, y ∈ l -> skip_one (r, false) y = (r, false).
Proof.
  induction l as [|id l IH]; cbn [foldl]; [intros [= <-]; split; [done|intros y Hy; by apply elem_of_nil in Hy]|].
  destruct (skip_one (r, false) id) as [r1 b] eqn:E. intros H.
  assert (b = false) as ->.
  { destruct b; [|done]. pose proof (skip_flag l (r1, true) eq_refl) as Hf. by rewrite H in Hf. }
  assert (r1 = r) as ->.
  { unfold skip_one in E. repeat (case_match; simplify_eq); done. }
  apply IH in H as [-> Hall]. split; [done|]. intros y [->|Hy]%elem_of_cons; auto.
Qed.

Lemma skip_one_idle r y :
  state_of r y = stPending -> skip_one (r, false) y = (r, false) ->
  existsb (fun dep => in_state r stSkipped dep || in_state r stFailed dep
                      || in_state r stCondSkipped dep) (st_DependsOn (byID r y)) = false
  /\ existsb (fun dep => in_state r stSkipped dep || in_state r stFailed dep)
       (st_SeqDependsOn (byID r y)) = false
  /\ splitTarget r y && negb (is_activated r y) && feedingSplitsDone r y = false.
Proof.
  intros Hp. unfold skip_one. assert (in_state r stPending y = true) as -> by (by apply in_state_spec).
  simpl. repeat (case_match; simplify_eq); done.
Qed.

Section idle_end.
Context {RT : GoRuntime} {DG : Diagnostics} (concurrency : Z).

(** A failed outcome has a failed step, or the run went idle. *)
Lemma failed_or_idle e k r' :
  dag_inv k -> drive_pass concurrency e k = inr (outcomeFailed, r') ->
  (exists y, y ∈ order r' /\ state_of r' y = stFailed) \/ idle r'.
Proof.
  intros Hk. unfold drive_pass. fold (dispatched concurrency (k_stopped k || pe_stop1 e) k).
  destruct (dispatched _ _ k) as [r fl] eqn:Hd.
  apply dispatched_inv in Hd; [|done|by intros [? _]%orb_false_iff].
  destruct fl as [|f fl].
  2:{ destruct (receive (pe_pick e) f fl) as [g rest]. destruct (_ || pe_stop3 e); [done|].
      by destruct (processResult _ _ _ _ _ _) as [rp|[? ?]]. }
  destruct (k_stopped k || pe_stop1 e) eqn:E1; [done|]. cbn [orb].
  destruct Hd as [Hnd Hc Hf Hb Ht]. simpl in *. specialize (Hf eq_refl).
  destruct (pe_stop2 e); [done|]. unfold quiescent.
  destruct (c_termFail (k_control k)) eqn:Et.
  { intros [= <-]. left. destruct (Ht eq_refl) as (y & ? & ?). eauto. }
  destruct (negb _); [done|].
  destruct (skipUnreachable r) as [r1 b] eqn:Hs. destruct b; [done|].
  apply skip_loop_idle in Hs as [-> Hall]. destruct (pickAllRunnable r) eqn:Hr; [|done].
  intros [= Ho <-]. right. split; [done|done| |done].
  intros y Hy Hp. apply skip_one_idle; auto.
Qed.
End idle_end.

(** The steps a step waits for, as a list. *)
Definition waited_for (r : dagRun) (y : string) : list string :=
  all_deps (byID r y)
  ++ (st_ID <$> List.filter (fun s => is_type StepTypeSplit s && existsb (fun b => bool_decide (br_Goto b = y)) (st_Branches s))
                  (wc_Steps (r_wf r))).

Lemma waited_waits r y d : y ∈ order r -> d ∈ waited_for r y -> waits_for (r_wf r) y d.
Proof.
  intros Hy [Hd|(s & -> & Hs)%list_elem_of_fmap]%elem_of_app; [left; by apply depends_byID|].
  apply elem_filter_bool in Hs as [Hs [Hty (b & Hb & Hg%bool_decide_eq_true)%existsb_elem]%andb_true_iff]. right. by exists s, b.
Qed.

(** In an idle run a step that is pending waits for one that is. *)
Lemma idle_waits r y :
  (forall id d, depends (r_wf r) id d -> d ∈ st_ID <$> wc_Steps (r_wf r)) -> idle r -> y ∈ order r -> state_of r y = stPending ->
  exists d, waits_for (r_wf r) y d /\ d ∈ order r /\ state_of r d = stPending.
Proof.
  intros Hknown [Hc Hf Hskip Hrun] Hy Hp.
  destruct (decide (Exists (fun d => state_of r d = stPending) (waited_for r y))) as [Hex|Hno].
  { apply Exists_exists in Hex as (d & Hd & Hpd). pose proof (waited_waits r y d Hy Hd) as Hw. exists d. split_and!; [done| |done].
    destruct Hw as [Hw|(s & b & Hs & _ & _ & _ & _ & ->)]; [by eapply Hknown|by apply list_elem_of_fmap_2]. }
  exfalso. rewrite Exists_exists in Hno.
  destruct (Hskip y Hy Hp) as (S1 & S2 & S3). rewrite <- not_true_iff_false, existsb_elem in S1, S2.
  assert (forall d, d ∈ all_deps (byID r y) ->
    state_of r d ∈ [stPassed; stFailed; stSkipped; stCondSkipped]) as Hst.
  { intros d Hin. assert (state_of r d <> stPending) as Hd.
    { intros Hd. apply Hno. exists d. split; [|done]. apply elem_of_app. by left. }
    pose proof (cs_known _ Hc d (Hknown _ _ (depends_byID r y d Hy Hin))) as Hk.
    unfold known_states in Hk. rewrite !elem_of_cons, elem_of_nil in *.
    destruct Hk as [|[Hr|[|[|[|[|[Hw'|[]]]]]]]]; try tauto.
    - apply (fly_only _ _ Hf) in Hr. by apply elem_of_nil in Hr.
    - by destruct (fly_parked _ _ Hf d). }
  assert (depsPassed r y = true) as Hdp.
  { apply depsPassed_spec. split; intros d Hin.
    - assert (d ∈ all_deps (byID r y)) as Hin' by (unfold all_deps; rewrite elem_of_app; auto).
      specialize (Hst d Hin'). rewrite !elem_of_cons, elem_of_nil in Hst.
      destruct Hst as [|Hst]; [done|]. exfalso. apply S1. exists d. split; [done|].
      rewrite !orb_true_iff, !in_state_spec. tauto.
    - assert (d ∈ all_deps (byID r y)) as Hin' by (unfold all_deps; rewrite elem_of_app; auto).
      specialize (Hst d Hin'). rewrite !elem_of_cons, elem_of_nil in Hst.
      destruct Hst as [|[Hst|[Hst|[Hst|[]]]]]; [by left| | |by right]; exfalso; apply S2; exists d;
        (split; [done|]); rewrite orb_true_iff, !in_state_spec; tauto. }
  destruct (is_activated r y) eqn:Ea.
  { assert (y ∈ pickAllRunnable r) as Hpick.
    { apply elem_of_pickAllRunnable. apply is_activated_spec in Ea. by split. }
    rewrite Hrun in Hpick. by apply elem_of_nil in Hpick. }
  destruct (splitTarget r y) eqn:Et.
  - simpl in S3. rewrite <- not_true_iff_false in S3. apply S3.
    unfold feedingSplitsDone. apply forallb_forall. intros s Hs. apply list_elem_of_In in Hs.
    destruct (is_type StepTypeSplit s) eqn:Ety; [simpl|done]. apply forallb_forall. intros b Hb.
    apply list_elem_of_In in Hb. case_bool_decide as Hg; [|done]. simpl. apply negb_true_iff.
    destruct (in_state r stPending (st_ID s)) eqn:Ei; [|done]. apply in_state_spec in Ei. exfalso. apply Hno.
    exists (st_ID s). split; [|done]. apply elem_of_app. right. apply list_elem_of_fmap_2, elem_filter_bool.
    split; [done|]. rewrite Ety. apply existsb_elem. exists b. split; [done|]. by apply bool_decide_eq_true.
  - apply (cs_open _ Hc) in Et; [|done]. apply is_activated_spec in Et. congruence.
Qed.

(** Among finitely many steps that each wait for one of them, some wait in a
    circle. *)
Lemma total_cycle (R : string -> string -> Prop) (P : list string) x0 :
  x0 ∈ P -> (forall x, x ∈ P -> exists y, y ∈ P /\ R x y) -> exists z, z ∈ P /\ tc R z z.
Proof.
  intros H0 Hnext.
  assert (forall n, (exists z, z ∈ P /\ tc R z z)
    \/ exists x l, length l = n /\ NoDup (x :: l) /\ x ∈ P /\ forall z, z ∈ l -> z ∈ P /\ tc R z x) as Hgrow.
  { induction n as [|n [Hc|(x & l & Hl & Hnd & Hx & Hall)]]; [right|by left|].
    { exists x0, []. split_and!; [done|apply NoDup_singleton|done|]. by intros z ?%elem_of_nil. }
    destruct (Hnext x Hx) as (y & Hy & Hxy). destruct (decide (y = x)) as [->|Hne]; [left; exists x; auto using tc_once|].
    destruct (decide (y ∈ l)) as [Hin|Hnin].
    { left. exists y. split; [done|]. eapply tc_r; [by apply Hall|done]. }
    right. exists y, (x :: l). split_and!; [simpl; lia| |done|].
    - apply NoDup_cons. split; [by rewrite not_elem_of_cons|done].
    - intros z [->|Hz]%elem_of_cons; [split; [done|by apply tc_once]|]. destruct (Hall z Hz). split; [done|]. by eapply tc_r. }
  destruct (Hgrow (length P)) as [|(x & l & Hl & Hnd & Hx & Hall)]; [done|]. exfalso.
  assert (length (x :: l) <= length P) as Hle; [|simpl in Hle; lia].
  apply submseteq_length, NoDup_submseteq; [done|]. intros z [->|Hz]%elem_of_cons; [done|by apply Hall].
Qed.

(** A split and one of its targets, neither of which ran: the split waits, directly or
    through others that did not run, for its target. *)
Definition split_knot (r : dagRun) : Prop :=
  exists s b, s ∈ wc_Steps (r_wf r) /\ is_type StepTypeSplit s = true /\ b ∈ st_Branches s
    /\ br_Goto b ∈ order r /\ state_of r (st_ID s) = stPending /\ state_of r (br_Goto b) = stPending
    /\ rtc (waits_for (r_wf r)) (st_ID s) (br_Goto b).

(** A run that is idle over a graph whose dependencies are known and acyclic has no
    pending step, or it is such a knot that keeps it. *)
Lemma idle_settled r :
  (forall id d, depends (r_wf r) id d -> d ∈ st_ID <$> wc_Steps (r_wf r)) -> (forall x, ~ tc (depends (r_wf r)) x x) ->
  idle r -> (exists y, y ∈ order r /\ state_of r y = stPending) -> split_knot r.
Proof.
  intros Hknown Hac Hidle (y0 & Hy0 & Hp0).
  set (P := List.filter (fun y => bool_decide (state_of r y = stPending)) (order r)).
  assert (forall y, y ∈ P <-> y ∈ order r /\ state_of r y = stPending) as HP
    by (intros y; unfold P; by rewrite elem_filter_bool, bool_decide_eq_true).
  set (R y d := waits_for (r_wf r) y d /\ y ∈ P /\ d ∈ P).
  destruct (total_cycle R P y0) as (z & Hz & Hcyc).
  { by apply HP. }
  { intros y Hy. destruct (proj1 (HP y) Hy) as [Hyo Hyp]. destruct (idle_waits r y Hknown Hidle Hyo Hyp) as (d & Hw & Hd).
    exists d. rewrite <- HP in Hd. done. }
  assert (forall a b, tc R a b -> tc (depends (r_wf r)) a b
    \/ exists s br, s ∈ wc_Steps (r_wf r) /\ is_type StepTypeSplit s = true /\ br ∈ st_Branches s
         /\ br_Goto br ∈ P /\ st_ID s ∈ P /\ rtc R a (br_Goto br) /\ rtc R (st_ID s) b) as Hsplit.
  { induction 1 as [a b (Hw & Ha & Hb)|a b d (Hw & Ha & Hb) Hbd IH].
    - destruct Hw as [Hw|(s & br & Hs & Hty & Hbr & <- & _ & ->)]; [left; by apply tc_once|]. right. by exists s, br.
    - destruct Hw as [Hw|(s & br & Hs & Hty & Hbr & <- & _ & ->)].
      + destruct IH as [IH|(s & br & Hs & Hty & Hbr & H1 & H2 & H3 & H4)]; [left; by eapply tc_l|].
        right. exists s, br. split_and!; try done. eapply rtc_l; [|done]. split; [by left|done].
      + right. exists s, br. split_and!; try done. by apply tc_rtc. }
  destruct (Hsplit z z Hcyc) as [Ht|(s & br & Hs & Hty & Hbr & H1 & H2 & H3 & H4)]; [by destruct (Hac z)|].
  apply HP in H1 as [H1o H1p], H2 as [_ H2p]. exists s, br. split_and!; try done.
  assert (rtc R (st_ID s) (br_Goto br)) as Hr by (by etrans). revert Hr. apply rtc_subrel. by intros a b (? & _).
Qed.

(** ** Runs of a well-formed flow *)

Section runs.
Context {RT : GoRuntime} {DG : Diagnostics} (concurrency : Z).

(** The pass a drive ends with. *)
Lemma drive_last fuel events k o r' :
  dag_inv k -> flights_ok k -> drive concurrency fuel events k = Some (o, r') ->
  exists e k1, dag_inv k1 /\ flights_ok k1 /\ r_wf (k_run k1) = r_wf (k_run k)
               /\ drive_pass concurrency e k1 = inr (o, r').
Proof.
  revert events k. induction fuel as [|fuel IH]; intros events k Hk Hf; simpl; [done|].
  destruct (drive_pass concurrency (events 0) k) as [k'|[o1 r1]] eqn:Hp.
  - intros Hd. assert (dag_inv k') as Hk' by (by eapply drive_pass_inv).
    destruct (drive_pass_measure concurrency _ _ _ (di_distinct _ Hk) Hf Hp) as (_ & Hf' & Hw).
    destruct (IH _ _ Hk' Hf' Hd) as (e & k1 & H1 & H2 & H3 & H4). exists e, k1. by rewrite H3, Hw.
  - intros [= <- <-]. by exists (events 0), k.
Qed.

(** A quiescent end leaves the workflow alone. *)
Lemma failed_wf e k r' :
  dag_inv k -> flights_ok k -> drive_pass concurrency e k = inr (outcomeFailed, r') ->
  r_wf r' = r_wf (k_run k).
Proof.
  intros Hk Hfl. unfold drive_pass. fold (dispatched concurrency (k_stopped k || pe_stop1 e) k).
  destruct (dispatched _ _ k) as [r fl] eqn:Hd.
  destruct (dispatched_spec _ _ _ _ _ (di_distinct _ Hk) Hfl Hd) as (Sh & _ & _ & _).
  destruct fl as [|f fl].
  2:{ destruct (receive (pe_pick e) f fl) as [g rest]. destruct (_ || pe_stop3 e); [done|].
      by destruct (processResult _ _ _ _ _ _) as [rp|[? ?]]. }
  destruct (_ || pe_stop2 e); [done|]. unfold quiescent.
  destruct (c_termFail (k_control k)); [intros [= <-]; apply Sh|].
  destruct (negb _); [done|]. destruct (skipUnreachable r) as [r1 b] eqn:Hs. destruct b; [done|].
  apply skip_loop_idle in Hs as [-> _]. destruct (pickAllRunnable r); [|done].
  intros [= _ <-]. apply Sh.
Qed.

(** How a run over known and acyclic dependencies ends. *)
Lemma run_settles (wf : WorkflowConfig) cell seed ev fuel events o r' :
  NoDup (st_ID <$> wc_Steps wf) -> (forall id d, depends wf id d -> d ∈ st_ID <$> wc_Steps wf) ->
  (forall x, ~ tc (depends wf) x x) ->
  driveDAG concurrency fuel events (initDAG wf cell seed ev) = Some (o, r') ->
  (o = outcomeFailed -> r_wf r' = wf /\ ((exists y, y ∈ order r' /\ state_of r' y = stFailed) \/ split_knot r'))
  /\ (o = outcomeDone -> forall y, y ∈ order r' -> state_of r' y ∈ [stPassed; stSkipped; stCondSkipped]).
Proof.
  intros Hnd Hk Hac Hd.
  apply drive_last in Hd as (e & k1 & Hk1 & Hf1 & Hw & Hp); [|by apply init_inv|by intros f H%elem_of_nil].
  split; intros ->.
  - pose proof (failed_wf _ _ _ Hk1 Hf1 Hp) as Hw'. assert (r_wf r' = wf) as Hwf by (by rewrite Hw', Hw). split; [done|].
    destruct (failed_or_idle _ _ _ _ Hk1 Hp) as [H|Hi]; [by left|].
    apply drive_pass_end in Hp as (y & Hy & [Hst|Hst]); [left; by exists y| |done].
    right. apply idle_settled; rewrite ?Hwf; [done..|by exists y].
  - apply drive_pass_end in Hp as (Hc & Hf & Hy); [|done]. intros y Ho. destruct (Hy y Ho).
    pose proof (cs_known _ Hc y Ho) as Hks. unfold known_states in Hks.
    rewrite !elem_of_cons, elem_of_nil in *.
    destruct Hks as [|[Hr|[|[|[|[|[Hww|[]]]]]]]]; try tauto.
    + apply (fly_only _ _ Hf) in Hr. by apply elem_of_nil in Hr.
    + by destruct (fly_parked _ _ Hf y).
Qed.

(** How a run over a well-formed flow ends. *)
Lemma flow_runs_settle (wf : WorkflowConfig) cell seed ev fuel events o r' :
  NoDup (st_ID <$> wc_Steps wf) -> flow_ok wf ->
  driveDAG concurrency fuel events (initDAG wf cell seed ev) = Some (o, r') ->
  match o with
  | outcomeFailed => exists y, y ∈ order r' /\ state_of r' y = stFailed
  | outcomeDone => forall y, y ∈ order r' -> state_of r' y ∈ [stPassed; stSkipped; stCondSkipped]
  | _ => True
  end.
Proof.
  intros Hnd [Hk Hac] Hd. apply run_settles in Hd as [H1 H2]; [|done|done|].
  - destruct o; auto. destruct (H1 eq_refl) as [Hwf [H|(s & b & Hs & Hty & Hb & Hg & _ & _ & Hr)]]; [done|].
    destruct (Hac (br_Goto b)). rewrite Hwf in *. eapply tc_rtc_r; [|exact Hr]. apply tc_once. right. exists s, b.
    split_and!; try done. unfold order in Hg. by rewrite Hwf in Hg.
  - intros x Hx. apply (Hac x). eapply tc_sub; [|exact Hx]. by left.
Qed.

(** C17: a workflow with distinct step ids that passes the graph checks strands its
    steps in one way only. A run of it ends done only when every step passed or was
    skipped, and failed only when some step failed, or when a split and one of its
    targets were both left pending and the split waits for that target: the checks
    follow dependencies and loop-backs, not the choice of a split. *)
Theorem validated_never_strands (wf : WorkflowConfig) cell seed ev fuel events o r'
    (Hnd : NoDup (st_ID <$> wc_Steps wf)) (Hv : validateStepGraph wf (step_ids wf) = [])
    (Hd : driveDAG concurrency fuel events (initDAG wf cell seed ev) = Some (o, r')) :
  match o with
  | outcomeFailed => (exists y, y ∈ order r' /\ state_of r' y = stFailed) \/ split_knot r'
  | outcomeDone => forall y, y ∈ order r' -> state_of r' y ∈ [stPassed; stSkipped; stCondSkipped]
  | _ => True
  end.
Proof.
  apply validateStepGraph_wf in Hv as [Hk Hac _]; [|by intros [_ ?]%elem_of_step_ids].
  apply run_settles in Hd as [H1 H2]; [|done| |done].
  { destruct o; auto. by destruct (H1 eq_refl). }
  intros id d Hdep. destruct (Hk id d Hdep) as [Hin _]. by apply elem_of_step_ids in Hin as [? _].
Qed.

(** A split whose targets depend on it is in no such knot. *)
Lemma followed_splits_no_knot r :
  (forall x, ~ tc (depends (r_wf r)) x x) ->
  (forall s b, s ∈ wc_Steps (r_wf r) -> is_type StepTypeSplit s = true -> b ∈ st_Branches s ->
     br_Goto b ∈ order r -> tc (depends (r_wf r)) (br_Goto b) (st_ID s)) -> ~ split_knot r.
Proof.
  intros Hac Hsplit (s & b & Hs & Hty & Hb & Hg & _ & _ & Hr). apply (Hac (br_Goto b)).
  assert (forall y d, rtc (waits_for (r_wf r)) y d -> rtc (depends (r_wf r)) y d) as Hsub.
  { induction 1 as [y|y z d [Hdep|(s' & b' & Hs' & Hty' & Hb' & <- & Hin & ->)] _ IH]; [done|by eapply rtc_l|].
    etrans; [|exact IH]. by apply tc_rtc, Hsplit. }
  eapply tc_rtc_r; [by apply (Hsplit s b)|by apply Hsub].
Qed.
End runs.

(** ** Loop-backs over a validated graph *)

Lemma dependent_tc wf r t y :
  r_wf r = wf -> NoDup (st_ID <$> wc_Steps wf) -> tc (depends wf) y t -> dependent r t y.
Proof.
  intros Hw Hnd Ht.
  assert (forall a b, depends wf a b -> a ∈ order r /\ dep_edge (r_wf r) b a = true) as Hedge.
  { intros a b (s & Hs & <- & Hb). unfold order. rewrite Hw. split; [by apply list_elem_of_fmap_2|].
    assert (byID r (st_ID s) = s) as Hb'.
    { destruct (byID_in r (st_ID s)) as [H1 H2]; [unfold order; rewrite Hw; by apply list_elem_of_fmap_2|].
      rewrite Hw in H2. by apply (steps_by_id wf). }
    unfold dep_edge. unfold byID in Hb'. rewrite Hw in Hb'. rewrite Hb'.
    unfold str_in. rewrite orb_true_iff, !bool_decide_eq_true. by apply elem_of_app. }
  induction Ht as [a b Hab|a b c Hab Hbc IH].
  - destruct (Hedge _ _ Hab). eapply dep_next; [constructor|done..].
  - destruct (Hedge _ _ Hab). by eapply dep_next.
Qed.

(** Over a validated graph that declares dependencies, a step that loops back
    depends on the step it loops to, and the reset makes it run again with
    everything between: the target and every step that depends on it are pending
    again and what they contributed to the memory is gone. *)
Theorem validated_loop_reruns (wf : WorkflowConfig) (s : StepConfig) res p c r r' c'
    (Hnd : NoDup (st_ID <$> wc_Steps wf)) (Hv : validateStepGraph wf (step_ids wf) = [])
    (Hdeps : exists a b, depends wf a b) (Hr : r_wf r = wf) (Hs : s ∈ wc_Steps wf)
    (Hc : c_loopTarget c = "") (Hf : failStep s res p c r = (r', c'))
    (Ht : c_loopTarget c' ∈ step_ids wf) :
  let t := c_loopTarget c' in
  tc (depends wf) (st_ID s) t
  /\ forall y, y = t \/ tc (depends wf) y t ->
       state_of (resetLoop t r') y = stPending /\ r_contrib (resetLoop t r') !! y = None.
Proof.
  intros t. assert ("" ∉ step_ids wf) as Hne by (by intros [_ ?]%elem_of_step_ids).
  apply validateStepGraph_wf in Hv as [_ _ Hback]; [|done].
  assert (r_wf r' = wf) as Hw by (rewrite <- Hr; by apply (failStep_fields _ _ _ _ _ _ _ Hf)).
  split.
  - assert (exists o, (o = st_OnFail s \/ o = st_OnConflict s) /\ goto o = t) as (o & Ho & Hg).
    { subst t. unfold failStep in Hf. destruct (_ && canLoop (st_OnConflict s) _); [injection Hf as _ <-; eauto|].
      destruct (_ && canLoop (st_OnFail s) _); injection Hf as _ <-; [eauto|].
      simpl in Ht. done. }
    assert (goto o <> "") as Hgne by (rewrite Hg; intros E; unfold t in E; by rewrite E in Ht).
    rewrite <- Hg. destruct (Hback s o Hs Ho Hgne) as [Htc|[Hno _]]; [by rewrite Hg|done|].
    destruct Hdeps as (a & b & Hab). by destruct (Hno a b).
  - intros y Hy. assert (dependent r' t y) as Hdep.
    { destruct Hy as [->|Hy]; [constructor|by eapply dependent_tc]. }
    apply elem_of_resetSet in Hdep. split.
    + rewrite resetLoop_states. by rewrite decide_True.
    + change (r_contrib (resetLoop t r') !! y)
        with (r_contrib (foldl reset_one r' (elements (resetSet r' t))) !! y).
      rewrite reset_contrib. replace (existsb _ _) with true; [done|]. symmetry. apply existsb_elem.
      exists y. split; [by apply elem_of_elements|]. apply bool_decide_eq_true. by left.
Qed.

(** ** Witnesses *)

Definition split_of (id : string) (branches : list SplitBranch) : StepConfig :=
  ir_step id StepTypeSplit [] [] "" "" "" "" None "" None "" None None false branches "" None None "" []
          None "" "" 0 0 false None [] "".

Definition triage_branches (bug other : string) : list SplitBranch :=
  [{| br_If := "cell.type == 'bug'"; br_Else := false; br_Goto := bug |};
   {| br_If := ""; br_Else := true; br_Goto := other |}].

Definition workflow_of (steps : list StepConfig) : WorkflowConfig := {|
  wc_ID := "wf"; wc_Resume := ""; wc_ResultComment := ""; wc_Trigger := None; wc_Inputs := ∅; wc_Outputs := ∅; wc_Steps := steps |}.

(** A split whose targets depend on it. *)
Definition routed_workflow : WorkflowConfig := workflow_of
  [split_of "route" (triage_branches "fix" "docs"); step_of "fix" "agent" ["route"];
   step_of "docs" "agent" ["route"]].

Definition routed_run : option (dagOutcome * dagRun) :=
  @driveDAG literal_runtime example_diagnostics 1 40 pipeline_events (initDAG routed_workflow example_cell [] ∅).

Lemma routed_summary :
  (fun '(o, r) => (o, order r)) <$> routed_run = Some (outcomeDone, ["route"; "fix"; "docs"]).
Proof. vm_compute. reflexivity. Qed.

Lemma routed_distinct : NoDup (st_ID <$> wc_Steps routed_workflow).
Proof. apply (bool_decide_unpack _). vm_compute. exact I. Qed.

Lemma validated_never_strands_witness :
  validateStepGraph routed_workflow (step_ids routed_workflow) = []
  /\ match routed_run with
     | Some (outcomeDone, r) => state_of r "docs" ∈ [stPassed; stSkipped; stCondSkipped]
     | _ => False
     end.
Proof.
  assert (validateStepGraph routed_workflow (step_ids routed_workflow) = []) as Hv by (vm_compute; reflexivity).
  split; [exact Hv|].
  pose proof routed_summary as Hs. destruct routed_run as [[o r]|] eqn:E; [|discriminate].
  injection Hs as -> Ho. unfold routed_run in E.
  apply (@validated_never_strands literal_runtime example_diagnostics 1 routed_workflow example_cell [] ∅ 40
           pipeline_events outcomeDone r routed_distinct Hv).
  - exact E.
  - rewrite Ho. apply list_elem_of_further, list_elem_of_further, list_elem_of_here.
Defined.

(** The test step of [pipeline] rejecting the build. *)
Definition rejecting_step : StepConfig := byID (initDAG pipeline example_cell [] ∅) "test".

Definition rejected_run : dagRun * control :=
  failStep rejecting_step (new_result false "no") (verdict "rejected")
    {| c_termFail := false; c_loopTarget := "" |} (initDAG pipeline example_cell [] ∅).

Lemma test_after_build : depends pipeline "test" "build".
Proof.
  exists rejecting_step. split; [vm_compute; apply list_elem_of_further, list_elem_of_here|].
  split; [reflexivity|apply list_elem_of_here].
Qed.

Lemma validated_loop_reruns_witness :
  c_loopTarget rejected_run.2 = "build" /\ state_of (resetLoop "build" rejected_run.1) "ship" = stPending
  /\ state_of (resetLoop "build" rejected_run.1) "build" = stPending.
Proof.
  assert (c_loopTarget rejected_run.2 = "build") as Ht by (vm_compute; reflexivity).
  split; [exact Ht|]. rewrite <- Ht.
  destruct (validated_loop_reruns pipeline rejecting_step (new_result false "no") (verdict "rejected")
    {| c_termFail := false; c_loopTarget := "" |} (initDAG pipeline example_cell [] ∅)
    rejected_run.1 rejected_run.2 pipeline_distinct) as [_ Hy].
  - vm_compute. reflexivity.
  - exact (ex_intro _ _ (ex_intro _ _ test_after_build)).
  - reflexivity.
  - vm_compute. apply list_elem_of_further, list_elem_of_here.
  - reflexivity.
  - apply surjective_pairing.
  - rewrite Ht. apply (bool_decide_unpack _). vm_compute. exact I.
  - split; apply Hy; [right|by left]. rewrite Ht. eapply tc_l; [|apply tc_once, test_after_build].
    exists (step_of "ship" "agent" ["test"]). split; [|split; [reflexivity|apply list_elem_of_here]].
    simpl. rewrite !elem_of_cons. tauto.
Defined.
