(* ===== verification/ValidateFacts.v ===== *)
(** * What validated workflows guarantee at run time

    Soundness of the checks of Validate: the ids and the graph of an accepted
    workflow, the errors its run cannot meet, the forms its gates may have; and
    the exactness of the search for circular sub-workflow references. *)

From stdpp Require Import base gmap strings list relations pretty sorting.
From Stdlib Require Import ZArith.
From S2P Require Import Prelude Model Expr Config Dag Wait Parallel StepGraph GraphRun.
From S2P Require Import Validate ApprovalStore ApprovalFacts Approval.

(** ** Empty error lists *)

Lemma complain_nil b ctx f : complain b ctx f = [] <-> b = false.
Proof. by destruct b. Qed.

(** Open the hypothesis that a list of checks reports nothing. *)
Ltac clean H :=
  lazymatch type of H with
  | _ ++ _ = [] =>
      let H1 := fresh H in let H2 := fresh H in
      apply app_eq_nil in H as [H1 H2]; clean H1; clean H2
  | complain _ _ _ = [] => apply complain_nil in H
  | concat (_ <$> _) = [] => rewrite concat_nil in H
  | _ => idtac
  end.

Lemma check_ids_spec required duplicate ctx l :
  (check_ids required duplicate ctx l).1 = [] ->
  NoDup (st_ID <$> l) /\ (forall s, s ∈ l -> st_ID s <> "")
  /\ (check_ids required duplicate ctx l).2 = list_to_set (st_ID <$> l).
Proof.
  unfold check_ids. induction l as [|s l IH] using rev_ind; [intros _; split_and!; [constructor|by intros s ?%elem_of_nil|done]|].
  rewrite foldl_app, fmap_app. cbn [foldl fmap list_fmap].
  destruct (foldl _ _ l) as [errs seen]. unfold check_id. destruct (is_empty (st_ID s)) eqn:E; cbn [fst snd].
  { by intros [_ ?]%app_eq_nil. }
  intros [-> Hd]%app_eq_nil. apply complain_nil, bool_decide_eq_false in Hd. apply is_empty_false in E.
  destruct (IH eq_refl) as (Hnd & Hne & Hseen). cbn [snd] in Hseen. subst seen.
  rewrite elem_of_list_to_set in Hd. split_and!.
  - apply NoDup_app. split_and!; [done| |apply NoDup_singleton]. by intros x Hx ->%list_elem_of_singleton.
  - intros x [Hx| ->%list_elem_of_singleton]%elem_of_app; auto.
  - rewrite list_to_set_app_L. simpl. set_solver.
Qed.

(** The ids of a list with none empty are the ids the graph code uses. *)
Lemma ids_are_step_ids wf :
  (forall s, s ∈ wc_Steps wf -> st_ID s <> "") -> list_to_set (st_ID <$> wc_Steps wf) = step_ids wf.
Proof.
  intros Hne. apply set_eq. intros x. rewrite elem_of_list_to_set, elem_of_step_ids. split; [|by intros [? _]].
  intros Hx. split; [done|]. apply list_elem_of_fmap in Hx as (s & -> & Hs). by apply Hne.
Qed.

Section sound.
Context {RT : GoRuntime} {DG : Diagnostics} {HK : Hooks} (c : ConfigFile).

(** ** Accepted workflows *)

(** The parts of an accepted workflow. *)
Record accepted_workflow (idx : nat) (wf : WorkflowConfig) (ctx : string) : Prop := {
  aw_steps : wc_Steps wf <> [];
  aw_nodup : NoDup (st_ID <$> wc_Steps wf);
  aw_named : forall s, s ∈ wc_Steps wf -> st_ID s <> "";
  aw_each : forall s, s ∈ wc_Steps wf ->
    validateStep c wf (agentIDSet c) (step_depth s) ctx (step_ids wf) s = [];
  aw_action : forall i s, wc_Steps wf !! i = Some s -> check_action c ctx wf i s = [];
  aw_graph : validateStepGraph wf (step_ids wf) = [];
  aw_auto : wc_Resume wf = ResumeAuto ->
    forall s, s ∈ wc_Steps wf -> is_type StepTypeAgent s = true -> st_Idempotent s = true;
}.

Lemma concat_imap_nil {A B} (f : nat -> A -> list B) (l : list A) :
  concat (imap f l) = [] <-> forall i x, l !! i = Some x -> f i x = [].
Proof.
  revert f. induction l as [|x l IH]; intros f; [done|]. rewrite imap_cons. cbn [concat]. split.
  - intros [H1 H2]%app_eq_nil [|i] y Hy; [by injection Hy as <-|]. by apply (proj1 (IH _) H2 i).
  - intros H. rewrite (H 0 x) by done. apply IH. intros i y Hy. by apply (H (S i)).
Qed.

Lemma validateWorkflow_accepts idx wf :
  validateWorkflow c idx wf = [] ->
  accepted_workflow idx wf ("workflows[" +:+ pretty idx +:+ "] " +:+ wc_ID wf).
Proof.
  unfold validateWorkflow. cbv zeta. set (ctx := "workflows[" +:+ _). intros H. clean H.
  destruct (wc_Steps wf) as [|s0 l0] eqn:El; [done|]. rewrite <- El in *.
  destruct (check_ids _ _ ctx (wc_Steps wf)) as [errs ids] eqn:Ei.
  match goal with H : errs ++ _ = [] |- _ => rename H into Hs end. clean Hs.
  match goal with H : errs = [] |- _ => subst errs end.
  pose proof (check_ids_spec "steps[%d]: id is required" "duplicate step id %q" ctx (wc_Steps wf)) as Hids.
  rewrite Ei in Hids. destruct (Hids eq_refl) as (Hnd & Hne & Hids'). cbn [snd] in Hids'.
  rewrite ids_are_step_ids in Hids' by done. subst ids. split; try done.
  - by rewrite El.
  - match goal with H : concat (imap _ _) = [] |- _ => by rewrite concat_imap_nil in H end.
  - match goal with H : CGraph ctx <$> _ = [] |- _ => by apply fmap_nil_inv in H end.
  - intros Hr s Hin Hty. match goal with H : (if _ then _ else _) = [] |- _ => rename H into Ha end.
    rewrite bool_decide_true, concat_nil in Ha by done. specialize (Ha s Hin). apply complain_nil in Ha.
    rewrite Hty in Ha. by apply negb_false_iff in Ha.
Qed.
(** ** Accepted steps *)

(** An expression that may be absent parses. *)
Definition parses (expr : string) : Prop :=
  expr <> "" -> exists e, ParseExpr (stripExprDelimiters expr) = Ok e.

Lemma lint_parses sctx f expr : lint LintExpr sctx f expr = [] -> parses expr.
Proof.
  unfold lint, parses. intros H Hne. apply complain_nil in H. rewrite (proj2 (is_empty_false expr) Hne) in H.
  simpl in H. apply negb_false_iff in H. unfold LintExpr in H.
  destruct (ParseExpr (stripExprDelimiters expr)) as [e|]; [by exists e|done].
Qed.

(** What acceptance says of the loop-back of a step. *)
Lemma check_goto_nil sctx u m ids o :
  check_goto sctx u m ids o = [] <-> (goto o <> "" -> goto o ∈ ids /\ exists x, o = Some x /\ (1 <= so_MaxRetries x)%Z).
Proof.
  unfold check_goto, goto. destruct o as [o|]; [|done]. simpl. destruct (is_empty (so_Goto o)) eqn:E.
  { apply is_empty_true in E. split; [|done]. intros _ H. by destruct H. }
  apply is_empty_false in E. split.
  - intros [H1 H2]%app_eq_nil _. rewrite complain_nil in H1, H2.
    apply negb_false_iff, bool_decide_eq_true in H1. apply Z.ltb_ge in H2. split; [done|]. by exists o.
  - intros H. destruct (H E) as [Hin (x & [= <-] & Hx)]. rewrite bool_decide_true by done.
    by rewrite (proj2 (Z.ltb_ge _ _) Hx).
Qed.

Record clean_step (ids : gset string) (s : StepConfig) : Prop := {
  cs_condition : parses (st_Condition s);
  cs_fail_when : parses (st_FailWhen s);
  cs_conflict : goto (st_OnConflict s) <> "" ->
    is_type StepTypeWaitFor s = true /\ goto (st_OnConflict s) ∈ ids
    /\ exists o, st_OnConflict s = Some o /\ (1 <= so_MaxRetries o)%Z;
  cs_agent : is_type StepTypeAgent s = true -> st_Agent s ∈ cf_Agents c
    /\ (goto (st_OnFail s) <> "" -> goto (st_OnFail s) ∈ ids
          /\ exists o, st_OnFail s = Some o /\ (1 <= so_MaxRetries o)%Z)
    /\ (st_OnPassNext s <> "" -> st_OnPassNext s ∈ ids);
  cs_split : is_type StepTypeSplit s = true ->
    (forall b, b ∈ st_Branches s -> br_Goto b ∈ ids)
    /\ (st_Multi s = false -> forall ctx, chooseBranches false ctx (st_Branches s) <> Ok ∅);
  cs_wait : is_type StepTypeWaitFor s = true ->
    forall e target deadline, exists r, RunWaitStep e s target deadline = Ok r;
  cs_foreach : is_type StepTypeForeach s = true ->
    (0 <= st_Concurrency s <= 16)%Z /\ (0 <= st_MaxItems s <= 200)%Z
    /\ exists inner, st_Step s = Some inner /\ is_type StepTypeAgent inner = true
         /\ st_Agent inner ∈ cf_Agents c /\ parses (st_Condition inner) /\ parses (st_FailWhen inner);
  cs_known : str_in (StepType s) [StepTypeAgent; StepTypeSplit; StepTypeApproval; StepTypeForeach;
                                  StepTypeWorkflow; StepTypeWaitFor; StepTypeParallel] = true;
}.

Lemma agentIDSet_in a : a ∈ agentIDSet c <-> a ∈ cf_Agents c.
Proof. unfold agentIDSet. by rewrite elem_of_list_to_set. Qed.

(** A single-match split with a fallback always takes a branch. *)
Lemma fallback_chosen ctx bs b :
  b ∈ bs -> IsFallback b = true -> chooseBranches false ctx bs <> Ok ∅.
Proof.
  intros Hb Hf. induction bs as [|x bs IH]; [by apply elem_of_nil in Hb|]. cbn [chooseBranches]. intros H.
  apply bind_Ok in H as ([] & Hm & H).
  - assert ({[br_Goto x]} = (∅ : gset string)) as He by congruence. set_solver.
  - apply elem_of_cons in Hb as [->|Hb]; [|by apply IH]. unfold branchMatches in Hm. by rewrite Hf in Hm.
Qed.

Lemma out_of_range_false n top : (0 <= top)%Z -> out_of_range n top = false -> (0 <= n <= top)%Z.
Proof.
  unfold out_of_range. intros Ht. destruct (n =? 0)%Z eqn:E; [apply Z.eqb_eq in E; lia|].
  simpl. intros [H1 H2]%orb_false_iff. apply Z.ltb_ge in H1, H2. lia.
Qed.

Lemma split_clean sctx ids s :
  validateSplitStep sctx s ids = [] ->
  (forall b, b ∈ st_Branches s -> br_Goto b ∈ ids)
  /\ (st_Multi s = false -> forall ctx, chooseBranches false ctx (st_Branches s) <> Ok ∅).
Proof.
  unfold validateSplitStep. intros H. clean H. destruct (st_Branches s) as [|b0 l] eqn:Eb; [done|].
  rewrite <- Eb in *. clean H1. split.
  - intros b Hb. specialize (H2 b Hb). destruct (is_empty (br_Goto b)); [done|]. apply complain_nil in H2.
    by apply negb_false_iff, bool_decide_eq_true in H2.
  - intros Hm ctx. rewrite Hm in H3. simpl in H3. apply negb_false_iff, bool_decide_eq_true in H3.
    destruct (List.filter IsFallback (st_Branches s)) as [|b bs] eqn:Ef; [done|].
    assert (b ∈ List.filter IsFallback (st_Branches s)) as Hb by (rewrite Ef; by left).
    apply elem_filter_bool in Hb as [Hb Hf]. by eapply fallback_chosen.
Qed.

Lemma wait_clean sctx s :
  validateWaitForStep c sctx s = [] -> forall e target deadline, exists r, RunWaitStep e s target deadline = Ok r.
Proof.
  unfold validateWaitForStep, RunWaitStep. intros H e target deadline. clean H.
  destruct (st_WaitFor s) as [cfg|]; [|done]. clean H1.
  destruct (is_empty (wf_Kind cfg) || bool_decide (wf_Kind cfg = WaitKindCI)) eqn:Ek; [eauto|].
  unfold check_wait_kind in *. apply orb_false_iff in Ek as [E1 E2].
  apply is_empty_false in E1. apply bool_decide_eq_false in E2.
  assert (str_in (wf_Kind cfg) [""; WaitKindCI] = false) as Hn.
  { unfold str_in. apply bool_decide_eq_false. rewrite !elem_of_cons, elem_of_nil. tauto. }
  rewrite Hn in *. destruct (bool_decide (wf_Kind cfg = WaitKindDependency)); [eauto|done].
Qed.

Lemma agent_clean sctx ids s :
  validateAgentStep sctx s (agentIDSet c) ids = [] ->
  st_Agent s ∈ cf_Agents c
  /\ (goto (st_OnFail s) <> "" -> goto (st_OnFail s) ∈ ids
        /\ exists o, st_OnFail s = Some o /\ (1 <= so_MaxRetries o)%Z)
  /\ (st_OnPassNext s <> "" -> st_OnPassNext s ∈ ids).
Proof.
  unfold validateAgentStep. intros H. repeat (apply app_eq_nil in H as [? H]). split_and!.
  - match goal with H : (if is_empty (st_Agent s) then _ else _) = [] |- _ => rename H into Ha end.
    destruct (is_empty (st_Agent s)); [done|]. apply complain_nil, negb_false_iff, bool_decide_eq_true in Ha.
    by apply agentIDSet_in.
  - exact (proj1 (check_goto_nil _ _ _ _ _) H).
  - intros Hne. match goal with H : complain (negb (is_empty (st_OnPassNext s)) && _) _ _ = [] |- _ =>
      apply complain_nil in H; rewrite (proj2 (is_empty_false _) Hne) in H;
      by apply negb_false_iff, bool_decide_eq_true in H end.
Qed.

Lemma lint_step_eq f sctx s :
  lint_step f sctx s =
  lint f sctx "condition (if:) %q: %w" (st_Condition s)
  ++ lint f sctx "fail_when (reject_when:) %q: %w" (st_FailWhen s)
  ++ concat ((fun b => lint f sctx "branches[%d] if %q: %w" (br_If b)) <$> st_Branches s)
  ++ match st_Step s with Some inner => lint_step f (sctx +:+ " (inner step)") inner | None => [] end.
Proof. by destruct s. Qed.

Lemma lint_step_parses sctx s :
  lint_step LintExpr sctx s = [] ->
  parses (st_Condition s) /\ parses (st_FailWhen s)
  /\ forall inner, st_Step s = Some inner -> parses (st_Condition inner) /\ parses (st_FailWhen inner).
Proof.
  intros H. rewrite lint_step_eq in H. clean H.
  split; [by eapply lint_parses|]. split; [by eapply lint_parses|]. intros inner Hi. rewrite Hi in *.
  match goal with H : lint_step _ _ inner = [] |- _ => rewrite lint_step_eq in H; clean H end.
  split; by eapply lint_parses.
Qed.

Lemma foreach_clean sctx s wf :
  validateForeachStep sctx s wf (agentIDSet c) = [] ->
  (0 <= st_Concurrency s <= 16)%Z /\ (0 <= st_MaxItems s <= 200)%Z
  /\ exists inner, st_Step s = Some inner /\ is_type StepTypeAgent inner = true /\ st_Agent inner ∈ cf_Agents c.
Proof.
  unfold validateForeachStep. intros H. clean H.
  split; [by apply out_of_range_false|]. split; [by apply out_of_range_false|].
  destruct (st_Step s) as [inner|]; [|done]. exists inner. split; [done|].
  match goal with H : _ ++ _ = [] |- _ => rename H into Hi end. clean Hi. split.
  - apply negb_false_iff in Hi0. unfold str_in in Hi0. apply bool_decide_eq_true in Hi0.
    rewrite !elem_of_cons, elem_of_nil in Hi0. unfold is_type, StepType. apply bool_decide_eq_true.
    destruct (is_empty (st_Type inner)) eqn:E; [done|]. apply is_empty_false in E. tauto.
  - destruct (is_empty (st_Agent inner)); [done|]. apply complain_nil, negb_false_iff, bool_decide_eq_true in Hi2.
    by apply agentIDSet_in.
Qed.
Lemma any_type_clean sctx ids s :
  hk_LintExpr = Some LintExpr -> validate_any_type sctx ids s = [] ->
  (parses (st_Condition s) /\ parses (st_FailWhen s)
   /\ forall inner, st_Step s = Some inner -> parses (st_Condition inner) /\ parses (st_FailWhen inner))
  /\ (goto (st_OnConflict s) <> "" -> is_type StepTypeWaitFor s = true /\ goto (st_OnConflict s) ∈ ids
      /\ exists o, st_OnConflict s = Some o /\ (1 <= so_MaxRetries o)%Z).
Proof.
  unfold validate_any_type, lintStepExprs. intros -> H. clean H. split; [by eapply lint_step_parses|].
  intros Hne. match goal with H : check_goto _ _ _ _ _ = [] |- _ => rename H into Hg end.
  split; [|exact (proj1 (check_goto_nil _ _ _ _ _) Hg Hne)]. unfold goto in Hne.
  destruct (st_OnConflict s) as [o|]; [|done]. simpl in Hne.
  match goal with H : complain (negb (is_empty (so_Goto o)) && _) _ _ = [] |- _ => apply complain_nil in H;
    rewrite (proj2 (is_empty_false _) Hne) in H; by apply negb_false_iff in H end.
Qed.

Lemma by_type wf p sctx ids s ty :
  is_type ty s = true ->
  validate_by_type c wf (agentIDSet c) p sctx ids s =
  (if bool_decide (ty = StepTypeAgent) then validateAgentStep sctx s (agentIDSet c) ids
   else if bool_decide (ty = StepTypeSplit) then validateSplitStep sctx s ids
   else if bool_decide (ty = StepTypeApproval) then validateApprovalStep sctx s
   else if bool_decide (ty = StepTypeForeach) then validateForeachStep sctx s wf (agentIDSet c)
   else if bool_decide (ty = StepTypeWorkflow) then validateWorkflowStep c sctx s wf
   else if bool_decide (ty = StepTypeWaitFor) then validateWaitForStep c sctx s
   else if bool_decide (ty = StepTypeParallel) then p
   else [CE sctx "unknown step type %q"]).
Proof. unfold is_type. intros H%bool_decide_eq_true. unfold validate_by_type. by rewrite H. Qed.

Lemma by_type_clean wf p sctx ids s :
  validate_by_type c wf (agentIDSet c) p sctx ids s = [] ->
  (is_type StepTypeAgent s = true -> validateAgentStep sctx s (agentIDSet c) ids = [])
  /\ (is_type StepTypeSplit s = true -> validateSplitStep sctx s ids = [])
  /\ (is_type StepTypeApproval s = true -> validateApprovalStep sctx s = [])
  /\ (is_type StepTypeForeach s = true -> validateForeachStep sctx s wf (agentIDSet c) = [])
  /\ (is_type StepTypeWaitFor s = true -> validateWaitForStep c sctx s = [])
  /\ (is_type StepTypeParallel s = true -> p = [])
  /\ str_in (StepType s) [StepTypeAgent; StepTypeSplit; StepTypeApproval; StepTypeForeach;
                          StepTypeWorkflow; StepTypeWaitFor; StepTypeParallel] = true.
Proof.
  intros H. split_and!; try (intros Hty; by rewrite (by_type wf p sctx ids s _ Hty) in H).
  unfold validate_by_type in H. unfold str_in. apply bool_decide_eq_true.
  rewrite !elem_of_cons, elem_of_nil. repeat (case_bool_decide; [tauto|]). done.
Qed.

(** What the checks of one step give. *)
Lemma validateStep_clean wf fuel ctx ids s :
  hk_LintExpr = Some LintExpr -> validateStep c wf (agentIDSet c) fuel ctx ids s = [] -> clean_step ids s.
Proof.
  intros Hlint H. assert (exists p sctx, validate_by_type c wf (agentIDSet c) p sctx ids s = []
    /\ validate_any_type sctx ids s = []) as (p & sctx & Hty & Hany)
    by (destruct fuel; apply app_eq_nil in H as [? ?]; eauto).
  apply any_type_clean in Hany as [(Hc & Hf & Hi) Hconf]; [|done].
  apply by_type_clean in Hty as (Hag & Hsp & _ & Hfe & Hwa & _ & Hk). split; try done.
  - intros Hty. exact (agent_clean _ _ _ (Hag Hty)).
  - intros Hty. exact (split_clean _ _ _ (Hsp Hty)).
  - intros Hty. exact (wait_clean _ _ (Hwa Hty)).
  - intros Hty. apply foreach_clean in Hfe as (? & ? & inner & Hin & ? & ?); [|done].
    split; [done|]. split; [done|]. exists inner. by destruct (Hi inner Hin).
Qed.

Lemma join_clean sctx join :
  hk_LintExpr = Some LintExpr -> check_join sctx join = [] ->
  str_in join [""; JoinAll; JoinAny] = true \/ parses (trim_space join).
Proof.
  unfold check_join. intros ->. destruct (str_in join _); [by left|]. destruct (negb (is_wrapped join)); [done|].
  intros H%complain_nil%negb_false_iff. right. intros _. unfold LintExpr in H.
  destruct (ParseExpr _) as [e|]; [by exists e|done].
Qed.

Lemma parallel_clean validate sctx s :
  hk_LintExpr = Some LintExpr -> validateParallelStep validate sctx s = [] ->
  st_SubSteps s <> [] /\ NoDup (st_ID <$> st_SubSteps s)
  /\ (forall ch, ch ∈ st_SubSteps s ->
        (is_type StepTypeAgent ch = true \/ is_type StepTypeWaitFor ch = true)
        /\ validate sctx (list_to_set (st_ID <$> st_SubSteps s)) ch = [])
  /\ (str_in (st_Join s) [""; JoinAll; JoinAny] = true \/ parses (trim_space (st_Join s))).
Proof.
  intros Hlint H. unfold validateParallelStep in H.
  apply app_eq_nil in H as [_ H]. apply app_eq_nil in H as [Hne H]. apply app_eq_nil in H as [Hj H].
  apply complain_nil, bool_decide_eq_false in Hne.
  pose proof (check_ids_spec "children[%d]: id is required" "duplicate child step id %q" sctx (st_SubSteps s)) as Hids.
  destruct (check_ids _ _ sctx (st_SubSteps s)) as [errs childIDs]. apply app_eq_nil in H as [-> H].
  destruct (Hids eq_refl) as (Hnd & _ & Hset). cbn [snd] in Hset. subst childIDs. rewrite concat_nil in H.
  split_and!; [done|done| |by eapply join_clean]. intros ch Hch.
  destruct (app_eq_nil _ _ (H ch Hch)) as [Hk Hv]. split; [|done].
  unfold validateParallelChildKind in Hk. apply app_eq_nil in Hk as [Hk _].
  apply complain_nil, negb_false_iff in Hk. unfold str_in in Hk. apply bool_decide_eq_true in Hk.
  rewrite !elem_of_cons, elem_of_nil in Hk. unfold is_type. rewrite !bool_decide_eq_true. tauto.
Qed.

(** The children of an accepted parallel group. *)
Lemma validateStep_children wf fuel ctx ids s :
  hk_LintExpr = Some LintExpr -> validateStep c wf (agentIDSet c) fuel ctx ids s = [] ->
  is_type StepTypeParallel s = true ->
  st_SubSteps s <> [] /\ NoDup (st_ID <$> st_SubSteps s)
  /\ (forall ch, ch ∈ st_SubSteps s ->
        (is_type StepTypeAgent ch = true \/ is_type StepTypeWaitFor ch = true)
        /\ clean_step (list_to_set (st_ID <$> st_SubSteps s)) ch)
  /\ (str_in (st_Join s) [""; JoinAll; JoinAny] = true \/ parses (trim_space (st_Join s))).
Proof.
  intros Hlint H Hty. destruct fuel as [|fuel]; apply app_eq_nil in H as [H _];
    apply by_type_clean in H as (_ & _ & _ & _ & _ & H & _); specialize (H Hty);
    apply parallel_clean in H as (Hne & Hnd & Hch & Hj); try done.
  - destruct (st_SubSteps s) as [|ch l]; [done|]. by destruct (Hch ch (list_elem_of_here _ _)).
  - split_and!; [done|done| |done]. intros ch Hin. destruct (Hch ch Hin) as [? Hv].
    split; [done|]. by eapply validateStep_clean.
Qed.
Lemma step_depth_eq s : step_depth s = S (foldr (fun x acc => Nat.max (step_depth x) acc) 0 (st_SubSteps s)).
Proof. by destruct s. Qed.

Lemma child_depth s ch : ch ∈ st_SubSteps s -> step_depth ch < step_depth s.
Proof.
  rewrite (step_depth_eq s). induction (st_SubSteps s) as [|x l IH]; [by intros ?%elem_of_nil|].
  intros [->|H]%elem_of_cons; cbn [foldr]; [lia|]. specialize (IH H). lia.
Qed.

Lemma concat_ext {A B} (f g : A -> list B) l : (forall x, x ∈ l -> f x = g x) -> concat (f <$> l) = concat (g <$> l).
Proof.
  induction l as [|x l IH]; intros H; [done|]. rewrite !fmap_cons. cbn [concat].
  rewrite H by (by left). f_equal. apply IH. intros y Hy. apply H. by right.
Qed.

(** The depth of a step is fuel enough for its check: more changes nothing. *)
Lemma validateStep_fuel wf agents n m ctx ids s :
  step_depth s <= n -> step_depth s <= m ->
  validateStep c wf agents n ctx ids s = validateStep c wf agents m ctx ids s.
Proof.
  revert m ctx ids s. induction n as [|n IH]; intros m ctx ids s Hn Hm; [rewrite step_depth_eq in Hn; lia|].
  destruct m as [|m]; [rewrite step_depth_eq in Hm; lia|]. cbn [validateStep]. f_equal.
  assert (forall sctx, validateParallelStep (validateStep c wf agents n) sctx s
    = validateParallelStep (validateStep c wf agents m) sctx s) as Hp; [|by rewrite Hp].
  intros sctx. unfold validateParallelStep. do 3 f_equal.
  destruct (check_ids _ _ _ _) as [errs childIDs]. f_equal. apply concat_ext. intros ch Hch. f_equal.
  pose proof (child_depth s ch Hch). apply IH; lia.
Qed.

Lemma validateWorkflows_each wf :
  validateWorkflows c = [] -> wf ∈ cf_Workflows c -> exists idx, validateWorkflow c idx wf = [].
Proof.
  unfold validateWorkflows. intros H Hwf. destruct (cf_Workflows c) as [|w l] eqn:E; [by apply elem_of_nil in Hwf|].
  apply app_eq_nil in H as [_ [H _]%app_eq_nil]. rewrite concat_imap_nil in H.
  apply list_elem_of_lookup_1 in Hwf as [i Hi]. exists i. by apply H.
Qed.

(** Where a step of a workflow with a well-formed graph goes back to. *)
Lemma loop_target_precedes wf s res p k r r' k' :
  graph_ok wf (step_ids wf) -> clean_step (step_ids wf) s -> s ∈ wc_Steps wf ->
  c_loopTarget k = "" -> failStep s res p k r = (r', k') -> c_loopTarget k' <> "" ->
  (c_loopTarget k' ∈ step_ids wf /\ precedes wf (c_loopTarget k') (st_ID s))
  \/ ((c_loopTarget k' ∉ step_ids wf) /\ is_type StepTypeAgent s = false /\ c_loopTarget k' = goto (st_OnFail s)).
Proof.
  intros [_ _ Hback] Hs Hin Hk Hf Hne.
  assert (exists o, (o = st_OnConflict s \/ o = st_OnFail s) /\ c_loopTarget k' = goto o) as (o & Ho & E).
  { unfold failStep in Hf. destruct (_ && canLoop (st_OnConflict s) _); [injection Hf as _ <-; eauto|].
    destruct (_ && canLoop (st_OnFail s) _); [injection Hf as _ <-; eauto|]. by injection Hf as _ <-. }
  destruct (decide (c_loopTarget k' ∈ step_ids wf)) as [Hid|Hid].
  - left. split; [done|]. rewrite E in *. apply (Hback s o); [done|tauto|done|done].
  - right. rewrite E in *. destruct Ho as [->| ->].
    + destruct (cs_conflict _ _ Hs Hne) as (_ & ? & _). done.
    + split_and!; [done| |done]. apply not_true_iff_false. intros Ha. destruct (cs_agent _ _ Hs Ha) as (_ & Hg & _).
      by destruct (Hg Hne).
Qed.

(** C21: what validation accepts runs without configuration errors. The steps of
    an accepted workflow have distinct names and a well-formed graph. Each of them,
    and each child of a parallel group within its group, has a known type and
    conditions that parse; a wait_for step knows what to wait for; a foreach step has
    an agent body and bounded concurrency; a child of a group is an agent or a wait;
    a single-match split always takes a branch to a declared step. The loop-back of
    an agent step, and that of a wait on a conflict, name a declared step and have at
    least one retry. Whatever kind of step fails, the run goes back to a declared
    step that comes before it, except that the name in [on_fail] of a step that is
    not an agent step is not checked, and may be no step's. *)
Theorem validated_runs_clean (wf : WorkflowConfig) :
  hk_LintExpr = Some LintExpr -> validateWorkflows c = [] -> wf ∈ cf_Workflows c ->
  NoDup (st_ID <$> wc_Steps wf) /\ graph_ok wf (step_ids wf)
  /\ (forall s, s ∈ wc_Steps wf -> clean_step (step_ids wf) s)
  /\ (forall s, s ∈ wc_Steps wf -> is_type StepTypeParallel s = true ->
        (forall ch, ch ∈ st_SubSteps s -> clean_step (list_to_set (st_ID <$> st_SubSteps s)) ch)
        /\ (forall i ch e runStep target deadline, ch ∈ st_SubSteps s ->
           runParallelChild e runStep i ch target deadline =
             if is_type StepTypeAgent ch then runStep i ch
             else waitResult (RunWaitStep e ch target deadline))
        /\ (str_in (st_Join s) [""; JoinAll; JoinAny] = true \/ parses (trim_space (st_Join s))))
  /\ (forall s res p k r r' k', s ∈ wc_Steps wf -> c_loopTarget k = "" -> failStep s res p k r = (r', k') ->
        c_loopTarget k' <> "" ->
        (c_loopTarget k' ∈ step_ids wf /\ precedes wf (c_loopTarget k') (st_ID s))
        \/ ((c_loopTarget k' ∉ step_ids wf) /\ is_type StepTypeAgent s = false /\ c_loopTarget k' = goto (st_OnFail s))).
Proof.
  intros Hlint Hv Hwf. destruct (validateWorkflows_each wf Hv Hwf) as [idx H].
  apply validateWorkflow_accepts in H as [_ Hnd Hne Heach _ Hg _].
  assert (graph_ok wf (step_ids wf)) as Hgraph by (apply validateStepGraph_exact; [by intros [_ ?]%elem_of_step_ids|done]).
  assert (forall s, s ∈ wc_Steps wf -> clean_step (step_ids wf) s) as Hclean
    by (intros s Hs; eapply validateStep_clean; [done|by apply Heach]).
  split_and!; [done|done|done| |intros; by eapply loop_target_precedes; eauto].
  intros s Hs Hty. eapply validateStep_children in Hty as (_ & _ & Hch & Hj); [|done|by apply Heach].
  split_and!; [intros ch Hin; by apply Hch| |done]. intros i ch e runStep target deadline Hin. destruct (Hch ch Hin) as [Hk Hc].
  unfold runParallelChild. destruct (is_type StepTypeAgent ch); [done|]. destruct Hk as [|Hw]; [done|].
  rewrite Hw. destruct (cs_wait _ _ Hc Hw e target deadline) as [r Hr]. rewrite Hr. by destruct r.
Qed.
End sound.

(** ** Circular sub-workflow references *)

Section references.
Context (c : ConfigFile).

(** [a] calls [b]. *)
Definition calls (a b : string) : Prop := b ∈ workflow_refs c a.

(** The same references as an adjacency map. *)
Definition ref_adj : gmap string (list string) :=
  list_to_map ((fun id => (id, workflow_refs c id)) <$> workflow_ids c).

Lemma wf_by_id_in id w : wf_by_id c id = Some w -> id <> "" /\ w ∈ cf_Workflows c /\ wc_ID w = id.
Proof.
  unfold wf_by_id. destruct (is_empty id) eqn:E; [done|]. intros [Hin Hid]%List.find_some.
  apply bool_decide_eq_true in Hid. apply is_empty_false in E. split_and!; [done| |done].
  apply list_elem_of_In. by rewrite in_rev.
Qed.

Lemma elem_of_workflow_ids id : id ∈ workflow_ids c <-> is_Some (wf_by_id c id).
Proof.
  unfold workflow_ids. rewrite elem_of_sort_strings, elem_of_elements, elem_of_list_to_set, elem_filter_bool.
  rewrite negb_true_iff, is_empty_false, list_elem_of_fmap. split.
  - intros [(w & -> & Hw) Hne]. unfold wf_by_id. rewrite (proj2 (is_empty_false _) Hne).
    destruct (List.find _ _) eqn:E; [by eexists|]. apply find_None with (x := w) in E;
      [|apply list_elem_of_In; rewrite <- in_rev; by apply list_elem_of_In].
    apply bool_decide_eq_false in E. done.
  - intros [w Hw]. apply wf_by_id_in in Hw as (? & ? & <-). split; [by exists w|done].
Qed.

Lemma calls_known a b : calls a b -> a ∈ workflow_ids c /\ b ∈ workflow_ids c.
Proof.
  unfold calls, workflow_refs. rewrite !elem_of_workflow_ids. destruct (wf_by_id c a) as [w|]; [|by intros ?%elem_of_nil].
  intros [_ H]%elem_filter_bool. apply bool_decide_eq_true in H. by split.
Qed.

Lemma named_ids id : id ∈ workflow_ids c -> id <> "".
Proof. intros [w H]%elem_of_workflow_ids. by destruct (wf_by_id_in _ _ H). Qed.

Lemma ref_adj_spec id : id ∈ workflow_ids c -> adjacent ref_adj id = workflow_refs c id.
Proof.
  intros Hid. unfold adjacent, ref_adj.
  rewrite (elem_of_list_to_map_1 _ id (workflow_refs c id)); [done| |].
  - rewrite <- list_fmap_compose. cbn. rewrite list_fmap_id. unfold workflow_ids, sort_strings.
    rewrite merge_sort_Permutation. apply NoDup_elements.
  - apply list_elem_of_fmap. by exists id.
Qed.

Lemma edge_calls a b : edge_of ref_adj a b <-> calls a b.
Proof.
  unfold edge_of. destruct (decide (a ∈ workflow_ids c)) as [Ha|Ha]; [by rewrite ref_adj_spec|].
  split; [|by intros [? _]%calls_known]. unfold adjacent, ref_adj.
  rewrite not_elem_of_list_to_map_1; [by intros ?%elem_of_nil|].
  rewrite <- list_fmap_compose. cbn. by rewrite list_fmap_id.
Qed.

(** A search that reports nothing is the search of StepGraph, and one that
    reports something extends its reports. *)
Definition mirrors (out : string * gmap string Color) (acc acc' : list string * gmap string Color) : Prop :=
  exists more, acc'.1 = acc.1 ++ more /\ (more = [] <-> out.1 = "") /\ (more = [] -> acc'.2 = out.2).

Lemma ref_visit_grows fuel acc id : exists more, (ref_visit fuel (workflow_refs c) acc id).1 = acc.1 ++ more.
Proof.
  revert acc id. induction fuel as [|fuel IH]; intros acc id; cbn [ref_visit];
    (destruct (color_of acc.2 id); [|by exists [id]|exists []; by rewrite app_nil_r]).
  - exists []. by rewrite app_nil_r.
  - simpl. set (a0 := (acc.1, <[id:=gray]> acc.2)). change acc.1 with a0.1. generalize a0.
    induction (workflow_refs c id) as [|x l IHl]; intros a; simpl; [exists []; by rewrite app_nil_r|].
    destruct (IH a x) as [m1 H1]. destruct (IHl (ref_visit fuel (workflow_refs c) a x)) as [m2 H2].
    exists (m1 ++ m2). by rewrite H2, H1, app_assoc.
Qed.

Lemma foldl_ref_grows fuel l acc : exists more, (foldl (ref_visit fuel (workflow_refs c)) acc l).1 = acc.1 ++ more.
Proof.
  revert acc. induction l as [|x l IHl]; intros a; simpl; [exists []; by rewrite app_nil_r|].
  destruct (ref_visit_grows fuel a x) as [m1 H1]. destruct (IHl (ref_visit fuel (workflow_refs c) a x)) as [m2 H2].
  exists (m1 ++ m2). by rewrite H2, H1, app_assoc.
Qed.

(** One more visit and then the rest of the loop. *)
Lemma mirrors_step out1 out2 acc acc1 acc2 :
  mirrors out1 acc acc1 -> (out1.1 = "" -> mirrors out2 acc1 acc2) -> (exists more, acc2.1 = acc1.1 ++ more) ->
  mirrors (if is_empty out1.1 then out2 else out1) acc acc2.
Proof.
  intros (m1 & H1 & Hiff & Hc) H2 [m Hm]. destruct (is_empty out1.1) eqn:E.
  - apply is_empty_true in E. destruct (H2 E) as (m2 & H3 & Hiff2 & Hc2). exists m2.
    rewrite H3, H1, (proj2 Hiff E). by rewrite app_nil_r.
  - apply is_empty_false in E. exists (m1 ++ m). rewrite Hm, H1, app_assoc. split; [done|].
    assert (m1 ++ m <> []) as Hne by (intros [? _]%app_eq_nil; tauto). tauto.
Qed.

Lemma visit_all_mirrors fuel nexts acc :
  (forall n, n ∈ nexts -> n ∈ workflow_ids c) ->
  (forall n acc, n ∈ workflow_ids c -> color_of acc.2 n = white ->
     mirrors (visit fuel ref_adj n acc.2) acc (ref_visit fuel (workflow_refs c) acc n)) ->
  mirrors (visit_all (visit fuel ref_adj) nexts acc.2) acc (foldl (ref_visit fuel (workflow_refs c)) acc nexts).
Proof.
  intros Hn Hv. revert acc. induction nexts as [|n rest IH]; intros acc.
  { exists []. by rewrite app_nil_r. }
  assert (n ∈ workflow_ids c) as Hin by (apply Hn; by left).
  assert (forall m, m ∈ rest -> m ∈ workflow_ids c) as Hr by (intros m Hm; apply Hn; by right).
  pose proof (named_ids n Hin) as Hne. cbn [visit_all foldl].
  destruct (color_of acc.2 n) eqn:Ec.
  - pose proof (Hv n acc Hin Ec) as Hm. destruct (visit fuel ref_adj n acc.2) as [cy col] eqn:Ev.
    pose proof (mirrors_step (cy, col) (visit_all (visit fuel ref_adj) rest col) acc _
      (foldl (ref_visit fuel (workflow_refs c)) (ref_visit fuel (workflow_refs c) acc n) rest) Hm) as Hs.
    apply Hs; [|apply foldl_ref_grows]. intros Hcy. destruct Hm as (m & _ & Hiff & Hcol).
    simpl in Hcy. simpl in Hcol. rewrite <- Hcol by (by apply Hiff). by apply IH.
  - assert (ref_visit fuel (workflow_refs c) acc n = (acc.1 ++ [n], acc.2)) as ->
      by (destruct fuel; simpl; by rewrite Ec).
    destruct (foldl_ref_grows fuel rest (acc.1 ++ [n], acc.2)) as [more Hm]. exists ([n] ++ more).
    rewrite Hm. cbn [fst]. rewrite <- app_assoc. simpl. split_and!; [done| |done]. split; [done|]. by intros ->.
  - assert (ref_visit fuel (workflow_refs c) acc n = acc) as -> by (destruct fuel; simpl; by rewrite Ec).
    by apply IH.
Qed.

Lemma visit_mirrors fuel n acc :
  n ∈ workflow_ids c -> color_of acc.2 n = white ->
  mirrors (visit fuel ref_adj n acc.2) acc (ref_visit fuel (workflow_refs c) acc n).
Proof.
  revert n acc. induction fuel as [|fuel IH]; intros n acc Hn Hw; cbn [visit ref_visit]; rewrite Hw.
  { exists []. by rewrite app_nil_r. }
  rewrite ref_adj_spec by done.
  pose proof (visit_all_mirrors fuel (workflow_refs c n) (acc.1, <[n:=gray]> acc.2)) as Hm.
  ospecialize* Hm; [by intros m [_ ?]%calls_known|done|].
  destruct Hm as (more & H1 & Hiff & Hc). cbn [snd] in *.
  destruct (visit_all _ _ _) as [cy col]. simpl in *. exists more. simpl. split; [done|].
  destruct (is_empty cy) eqn:E.
  - apply is_empty_true in E. split; [by rewrite Hiff|]. intros Hnil. by rewrite Hc.
  - apply is_empty_false in E. simpl. split; [done|]. tauto.
Qed.

(** The loop over the workflows. *)
Lemma loop_mirrors fuel l acc :
  (forall x, x ∈ l -> x ∈ workflow_ids c) -> whites (workflow_ids c) acc.2 <= fuel -> finished ref_adj acc.2 ->
  (forall x, color_of acc.2 x <> gray) ->
  exists more, (foldl (ref_visit fuel (workflow_refs c)) acc l).1 = acc.1 ++ more
    /\ (more = [] <-> find_from fuel ref_adj l acc.2 = "").
Proof.
  assert (forall x y, edge_of ref_adj x y -> y ∈ workflow_ids c) as Hknown by (intros x y [_ ?]%edge_calls%calls_known; done).
  assert (forall x y, edge_of ref_adj x y -> x <> "") as Hnamed
    by (intros x y [? _]%edge_calls%calls_known; by apply named_ids).
  revert acc. induction l as [|n l IH]; intros acc Hl Hf Hfin Hg; [exists []; by rewrite app_nil_r|].
  assert (n ∈ workflow_ids c) as Hn by (apply Hl; by left).
  assert (forall x, x ∈ l -> x ∈ workflow_ids c) as Hl' by (intros x Hx; apply Hl; by right).
  cbn [foldl find_from]. destruct (color_of acc.2 n) eqn:Ec; [|by destruct (Hg n)|].
  - pose proof (visit_mirrors fuel n acc Hn Ec) as (m & H1 & Hiff & Hcol).
    pose proof (visit_spec ref_adj (workflow_ids c) Hknown Hnamed fuel n acc.2 Hn Ec Hf Hfin) as Hv.
    ospecialize* Hv; [intros g Hgr; by destruct (Hg g)|].
    destruct (visit fuel ref_adj n acc.2) as [cy col]. cbn [fst snd] in *. destruct (is_empty cy) eqn:E.
    + apply is_empty_true in E. pose proof (proj2 Hiff E) as ->. rewrite app_nil_r in H1.
      destruct Hv as [Ha _]. pose proof (adv_whites _ (workflow_ids c) _ _ Ha). destruct Ha as [Hf' Hg' _].
      rewrite <- (Hcol eq_refl) in *. rewrite <- H1. apply IH; [done|lia|done|]. intros x Hx%Hg'. by destruct (Hg x).
    + apply is_empty_false in E. destruct (foldl_ref_grows fuel l (ref_visit fuel (workflow_refs c) acc n)) as [m2 H2].
      exists (m ++ m2). rewrite H2, H1, app_assoc. split; [done|].
      split; [intros [? _]%app_eq_nil; tauto|done].
  - assert (ref_visit fuel (workflow_refs c) acc n = acc) as -> by (destruct fuel; simpl; by rewrite Ec). by apply IH.
Qed.

(** A configuration passes the check of its sub-workflow references exactly
    when no workflow reaches itself by calling sub-workflows: as many levels of
    search as there are workflows are enough. *)
Theorem reference_cycles_exact :
  validateWorkflowReferenceCycles c = [] <-> forall id, ~ tc calls id id.
Proof.
  assert (forall x, color_of ∅ x = white) as Hw by done.
  assert (finished ref_adj ∅) as Hfin by (by split).
  destruct (loop_mirrors (length (workflow_ids c)) (workflow_ids c) ([], ∅)) as (more & H1 & Hiff); try done.
  { apply List.filter_length_le. }
  assert (forall x y, edge_of ref_adj x y -> y ∈ workflow_ids c) as Hknown by (intros x y [_ ?]%edge_calls%calls_known; done).
  assert (forall x y, edge_of ref_adj x y -> x <> "") as Hnamed
    by (intros x y [? _]%edge_calls%calls_known; by apply named_ids).
  pose proof (find_from_spec ref_adj (workflow_ids c) Hknown Hnamed (length (workflow_ids c)) (workflow_ids c) ∅) as Hspec.
  ospecialize* Hspec; [done|apply List.filter_length_le|exact Hfin|done|by left|].
  unfold validateWorkflowReferenceCycles. simpl in H1. rewrite H1.
  assert ((fun _ : string => CE "workflows" "cyclic subworkflow reference: %s") <$> more = [] <-> more = []) as ->
    by (by destruct more). rewrite Hiff. cbn [snd] in *.
  assert (forall a, tc (edge_of ref_adj) a a <-> tc calls a a) as Htc
    by (intros a; split; apply tc_sub; intros x y; by rewrite edge_calls).
  setoid_rewrite <- Htc. cbv zeta in Hspec. destruct (is_empty _) eqn:E in Hspec.
  - apply is_empty_true in E. by rewrite E.
  - apply is_empty_false in E. split; [done|]. intros H. by destruct (H _ Hspec).
Qed.
End references.
