(* ===== verification/ValidateProps.v ===== *)
(** * Validated gates and actions

    Which approval steps of an accepted workflow can be answered, and what the
    guard of action classes does and does not ensure; with the configurations
    behind the findings. *)

From stdpp Require Import base gmap strings list relations pretty.
From Stdlib Require Import ZArith.
From S2P Require Import Prelude Model Expr Config Dag DagProps Foreach StepGraph GraphRun Validate.
From S2P Require Import ValidateFacts ApprovalStore ApprovalFacts Approval.
From S2P Require Import ApprovalProps Wait.

(** ** Gates *)

(** [r] was created for step [s]. *)
Definition gate_for (s : StepConfig) (r : ApprovalRequest) : Prop :=
  aq_Approvers r = st_Approvers s /\ aq_Delegates r = st_Delegates s /\ aq_Fields r = st_ApprovalFields s
  /\ aq_RequiredApprovals r = (if st_RequiredApprovals s <=? 0 then 1 else st_RequiredApprovals s)%Z.

(** The engine creates such requests. *)
Lemma open_gate_for {RT : GoRuntime} inst task wf now storeNow s db req db' :
  open_gate inst task wf now storeNow s db = (req, db') ->
  forall r, r ∈ approval_requests db' -> r ∈ approval_requests db \/ gate_for s r.
Proof.
  unfold open_gate, CreateApprovalRequest. destruct (_ || _); [intros [= <- <-]; by left|].
  destruct (latest_attempt _); [intros [= <- <-]; by left|].
  destruct (insert_request _ db) as [db1|] eqn:Ei; intros [= <- <-] r Hr; [|by left].
  unfold insert_request in Ei. destruct (existsb _ _); [injection Ei as <-; by left|].
  destruct (str_in _ _); [done|]. injection Ei as <-. simpl in Hr.
  apply elem_of_app in Hr as [Hr|Hr%list_elem_of_singleton]; [by left|]. right. by rewrite Hr.
Qed.

Lemma approval_required {RT : GoRuntime} sctx s :
  validateApprovalStep sctx s = [] -> st_Approvers s <> [] ->
  ((if st_RequiredApprovals s <=? 0 then 1 else st_RequiredApprovals s) <= Z.of_nat (length (st_Approvers s)))%Z.
Proof.
  unfold validateApprovalStep. intros H Hne. clean H.
  match goal with E : (_ || _) = false |- _ => apply orb_false_iff in E as [Hlo Hhi] end.
  assert (1 <= length (st_Approvers s)) by (destruct (st_Approvers s); [done|simpl; lia]).
  apply Z.ltb_ge in Hlo. destruct (Z.leb_spec (st_RequiredApprovals s) 0); [lia|].
  rewrite (proj2 (Z.ltb_lt _ _)) in Hhi by lia. simpl in Hhi. apply Z.ltb_ge in Hhi. lia.
Qed.

(** C20: a gate of an accepted approval step whose approvers are named and
    distinct up to case can always be answered: whatever the store has recorded so
    far, when each approver approves through the handler, its open request ends
    approved. *)
Theorem validated_gate_answerable {RT : GoRuntime} (sctx : string) (s : StepConfig) (now : Z)
    (delegates : list (string * list string)) (key : string -> string) (values : gmap string JValue)
    (db : ApprovalTables) (h : list (approval_op * bool)) (r : ApprovalRequest) :
  validateApprovalStep sctx s = [] -> st_Approvers s <> [] ->
  NoDup (to_lower <$> st_Approvers s) -> "" ∉ st_Approvers s ->
  history db h -> r ∈ approval_requests db -> is_open r = true -> gate_for s r ->
  (forall f, f ∈ st_ApprovalFields s -> check_field false values f = None) ->
  (forall p q, key p = key q -> p = q) -> (forall p, key p <> "") ->
  (forall p, key p ∉ (rs_key <$> approval_responses db)) ->
  exists r', GetApprovalRequest (aq_ID r) (all_approve now delegates key values (aq_ID r) (st_Approvers s) db) = Some r'
    /\ aq_Status r' = ApprovalApproved.
Proof.
  intros Hv Hne Hfold Hnamed Hh Hr Ho (Ha & _ & Hf & Hn) Hform Hkey Hkey0 Hfresh. rewrite <- Ha in *.
  eapply gate_can_be_answered; try done.
  - rewrite Hn, Ha. by eapply approval_required; [|rewrite <- Ha].
  - intros f. rewrite Hf. apply Hform.
Qed.

(** ** Gates nobody can answer *)

(** A series of calls of the handler: what came in with each. *)
Record call := {
  ca_now : Z; ca_delegates : list (string * list string); ca_webhook : option bool; ca_header : string;
  ca_response : ApprovalResponse }.

Definition handle_calls (id : string) (calls : list call) (db : ApprovalTables) : ApprovalTables :=
  foldl (fun db x => (handleApprovalResponse (ca_now x) (ca_delegates x) (ca_webhook x) (ca_header x) id
                        (ca_response x) db db).2) db calls.

Section seats.
Context (seats : gset string) (r0 : ApprovalRequest).
Hypothesis Happrovers : aq_Approvers r0 <> [].
Hypothesis Hdelegates : aq_Delegates r0 = ∅.
Hypothesis Hseats : forall actor p, p ∈ aq_Approvers r0 ->
  List.find (fun q => equal_fold q actor) (aq_Approvers r0) = Some p -> p ∈ seats.

(** The request is open, answered from the seats only, or was rejected. *)
Definition limited (db : ApprovalTables) : Prop :=
  approvals_ok db
  /\ ((r0 ∈ approval_requests db /\ is_open r0 = true /\ voters (aq_ID r0) db ⊆ seats)
      \/ exists r, r ∈ approval_requests db /\ aq_ID r = aq_ID r0 /\ aq_Status r = ApprovalRejected).

Lemma principal_seat a p :
  principal_of (aq_Approvers r0) [] a = p -> p <> "" -> p ∈ seats.
Proof.
  unfold principal_of. destruct (List.find _ _) as [q|] eqn:E; [|by intros <- ?].
  destruct (is_empty q); [by intros <- ?|]. intros <- _. eapply Hseats; [|exact E].
  apply List.find_some in E as [? _]. by apply list_elem_of_In.
Qed.

Lemma handle_limited x db :
  (Z.of_nat (size seats) < aq_RequiredApprovals r0)%Z -> ca_delegates x ≡ₚ map_to_list (aq_Delegates r0) ->
  limited db ->
  limited (handleApprovalResponse (ca_now x) (ca_delegates x) (ca_webhook x) (ca_header x) (aq_ID r0)
             (ca_response x) db db).2.
Proof.
  intros Hsize Hd [Hok Hdb]. rewrite Hdelegates, map_to_list_empty in Hd. apply Permutation_nil_r in Hd.
  rewrite Hd. unfold handleApprovalResponse. case_bool_decide; [by split|].
  pose proof (ok_ids _ (ok_requests _ Hok)) as Hnd.
  destruct Hdb as [(Hr & Ho & Hv)|(r & Hr & Hid & Hst)].
  2: { rewrite (proj2 (GetApprovalRequest_Some _ db r Hnd)) by done.
       assert (is_open r = false) as -> by (unfold is_open; by rewrite Hst).
       split; [done|]. right. by exists r. }
  rewrite (proj2 (GetApprovalRequest_Some _ db r0 Hnd)) by done. rewrite Ho. cbn [negb].
  destruct (validateApprovalResponse [] r0 _) as [a|] eqn:Ev; [|split; [done|by left]].
  assert (response_approver a ∈ seats) as Ha.
  { unfold validateApprovalResponse in Ev. destruct (negb _); [done|]. destruct (is_empty (ar_Actor _)); [done|].
    assert (forall A (x y : A), match aq_Approvers r0 with [] => x | _ :: _ => y end = y) as Hm
      by (clear -Happrovers; by destruct (aq_Approvers r0)).
    rewrite Hm in Ev. destruct (is_empty (principal_of _ _ _)) eqn:Epr; [done|]. apply is_empty_false in Epr.
    simpl in Ev. destruct (check_fields _ _ _); [done|]. injection Ev as <-. unfold response_approver. simpl.
    rewrite (proj2 (is_empty_false _) Epr). by eapply principal_seat. }
  replace (match ResolveApprovalRequest (ca_now x) (aq_ID r0) a db with _ => _ end).2
    with (run_op (OResolve (ca_now x) (aq_ID r0) a) db).1
    by (simpl; by destruct (ResolveApprovalRequest (ca_now x) (aq_ID r0) a db) as [[[? []]|?] ?]).
  split; [by apply step_ok|]. pose proof (resolve_outcome (ca_now x) (aq_ID r0) a db Hnd) as Hout.
  assert (voters (aq_ID r0) (insert_response (response_row (aq_ID r0) a) db) ⊆ seats) as Hv'.
  { rewrite voters_insert. simpl. rewrite bool_decide_true by done. set_solver. }
  destruct Hout as [|r1 Hr1 Hid1 Ho1 Hc1 Hk1 Hs1 Ht1|r1 Hr1 Hid1 Ho1 Hc1 Hk1 Ht1]; cbn [fst].
  - by left.
  - by left.
  - right. rewrite (same_row db r1 r0) in * by done.
    exists (settled_by (ca_now x) a r0). split_and!; [|done|].
    + apply elem_update_request. exists r0. split; [done|]. unfold has_id. by rewrite bool_decide_true, Ho.
    + simpl. destruct (response_status_cases a) as [E|E]; [|done]. exfalso. specialize (Ht1 E).
      destruct (new_voter (aq_ID r0) a db r0) as (Hnew & Hsz & _); try done.
      rewrite voters_insert in Hv'. simpl in Hv'. rewrite bool_decide_true in Hv' by done.
      apply subseteq_size in Hv'. rewrite size_union, size_singleton in Hv' by set_solver. lia.
Qed.
End seats.

(** A gate whose approvers fill fewer seats than it requires, two of them being
    the same name up to case, is never approved, whoever answers it and however
    often; validation compares the required number with the length of the list. *)
Theorem duplicate_approvers_block (seats : gset string) (r : ApprovalRequest) (calls : list call)
    (db : ApprovalTables) (h : list (approval_op * bool)) :
  aq_Approvers r <> [] -> aq_Delegates r = ∅ ->
  (forall actor p, p ∈ aq_Approvers r ->
     List.find (fun q => equal_fold q actor) (aq_Approvers r) = Some p -> p ∈ seats) ->
  (Z.of_nat (size seats) < aq_RequiredApprovals r)%Z ->
  history db h -> r ∈ approval_requests db -> is_open r = true -> voters (aq_ID r) db ⊆ seats ->
  Forall (fun x => ca_delegates x ≡ₚ map_to_list (aq_Delegates r)) calls ->
  forall r', GetApprovalRequest (aq_ID r) (handle_calls (aq_ID r) calls db) = Some r' ->
    aq_Status r' <> ApprovalApproved.
Proof.
  intros Ha Hd Hs Hn Hok%history_ok Hr Ho Hv Hcalls r'.
  assert (limited seats r (handle_calls (aq_ID r) calls db)) as [Hok' Hl].
  { assert (limited seats r db) as Hl by (split; [done|by left]). clear -Ha Hd Hs Hn Hl Hcalls.
    unfold handle_calls. revert db Hl. induction Hcalls as [|x calls Hx _ IH]; intros db Hl; [done|].
    simpl. apply IH. by apply handle_limited. }
  intros [Hr' Hid]%GetApprovalRequest_Some Hst; [|apply Hok'].
  destruct Hl as [(Hr0 & Ho0 & _)|(x & Hx & Hxid & Hxst)].
  - rewrite (same_row _ r' r (ok_ids _ (ok_requests _ Hok')) Hr' Hr0 Hid) in Hst. unfold is_open in Ho0.
    by rewrite Hst in Ho0.
  - rewrite (same_row _ r' x (ok_ids _ (ok_requests _ Hok')) Hr' Hx) in Hst by congruence. by rewrite Hxst in Hst.
Qed.

(** ** Actions that need an approval *)

(** What the check of the action classes ensures: the step that comes before in
    the list, or one of the dependencies, is an approval with approvers. *)
Lemma action_guarded c ctx wf i s :
  check_action c ctx wf i s = [] -> st_ActionClass s <> "" -> str_in (st_ActionClass s) (cf_RequireFor c) = true ->
  (exists j p, i = S j /\ wc_Steps wf !! j = Some p /\ named_gate p = true)
  \/ (exists d p, d ∈ all_deps s /\ p ∈ wc_Steps wf /\ st_ID p = d /\ named_gate p = true).
Proof.
  unfold check_action. intros H Hne Hreq. rewrite (proj2 (is_empty_false _) Hne) in H.
  apply app_eq_nil in H as [_ H]. apply complain_nil in H. rewrite Hreq in H. simpl in H. apply negb_false_iff in H.
  unfold guarded in H. apply orb_true_iff in H as [H|H].
  - destruct i as [|j]; [done|]. destruct (wc_Steps wf !! j) as [p|] eqn:E; [|done]. left. by exists j, p.
  - apply existsb_elem in H as (d & Hd & (p & Hp & [Hid Hg]%andb_true_iff)%existsb_elem).
    apply bool_decide_eq_true in Hid. right. by exists d, p.
Qed.

(** ** Configurations behind the findings *)

Definition agent_of (id : string) (deps : list string) (schema : option OutputSchema) (class : string) : StepConfig :=
  mkStep id "agent" deps [] "" "" "dev" "" schema "" None "" None None false [] "" None None "" [] None "" "" 0 0
    false None [] "" "" false "" "" "" "" class 0 [] "" "" [] ∅ "" "" ∅ "" "" None [] "" 0 None.

Definition group_of (id : string) (children : list StepConfig) : StepConfig :=
  mkStep id "parallel" [] [] "" "" "" "" None "" None "" None None false [] "" None None "" [] None "" "" 0 0
    false None children "" "" false "" "" "" "" "" 0 [] "" "" [] ∅ "" "" ∅ "" "" None [] "" 0 None.

Definition each_of (id items : string) : StepConfig :=
  mkStep id "foreach" [] [] "" "" "" "" None "" None "" None None false [] "" None None "" [] None items "" 2 0
    false (Some (agent_of "one" [] None "")) [] "" "" false "" "" "" "" "" 0 [] "" "" [] ∅ "" "" ∅ "" "" None [] "" 0 None.

Definition workflow_of (steps : list StepConfig) : WorkflowConfig := {|
  wc_ID := "wf"; wc_Resume := ""; wc_ResultComment := ""; wc_Trigger := None; wc_Inputs := ∅; wc_Outputs := ∅;
  wc_Steps := steps |}.

Definition file_of (steps : list StepConfig) : ConfigFile := {|
  cf_Workflows := [workflow_of steps]; cf_Agents := ["dev"]; cf_Sources := []; cf_RequireFor := ["deploy"] |}.

(** The hooks the command line installs, without sources. *)
Definition cli_hooks : Hooks := {|
  hk_LintExpr := Some LintExpr; hk_SourceSupportsDependencyWait := None;
  hk_SourceSupportsPREvents := None; hk_SourceCapabilities := None |}.

Definition checks (steps : list StepConfig) : list ConfigError :=
  @validateWorkflows literal_runtime cli_hooks (file_of steps).

(** A deploy listed after the gate without depending on it is accepted, and it is
    runnable while the gate is still waiting. *)
Definition beside_gate : list StepConfig :=
  [agent_of "build" [] None ""; gate_step_config "gate" ["ann"] 1; agent_of "deploy" ["build"] None "deploy"].

Lemma unguarded_deploy :
  checks beside_gate = []
  /\ (forall d, depends (workflow_of beside_gate) "deploy" d -> d <> "gate")
  /\ pickAllRunnable (put_state "build" stPassed (put_state "gate" stWaiting
       (initDAG (workflow_of beside_gate) rejected_item [] ∅))) = ["deploy"].
Proof.
  split; [vm_compute; reflexivity|]. split; [|vm_compute; reflexivity].
  intros d (s & Hs & Hid & Hd) ->. unfold workflow_of, beside_gate in Hs. simpl in Hs.
  rewrite !elem_of_cons, elem_of_nil in Hs. destruct Hs as [->|[->|[->|[]]]]; [done|done|].
  vm_compute in Hd. apply list_elem_of_singleton in Hd. discriminate Hd.
Qed.

(** The children of a group are not looked at: without any gate, a deploy in a
    parallel group is accepted. *)
Lemma unguarded_child :
  checks [group_of "ship" [agent_of "deploy" [] None "deploy"; agent_of "notes" [] None ""]] = []
  /\ checks [agent_of "deploy" [] None "deploy"] <> [].
Proof. split; vm_compute; [reflexivity|discriminate]. Qed.

(** The items of a foreach may name a step that comes later: the message says
    "a prior step", the check does not; the run then has no items to resolve. *)
Definition issues_schema : OutputSchema := {|
  os_Type := "object";
  os_Properties := {["issues" := mkField "array" [] (Some (mkField "string" [] None ∅ [])) ∅ []]};
  os_Required := [] |}.

Definition late_items : list StepConfig :=
  [each_of "each" "steps.find.output.issues"; agent_of "find" ["each"] (Some issues_schema) ""].

Lemma late_items_accepted `{Diagnostics} :
  checks late_items = []
  /\ pickAllRunnable (initDAG (workflow_of late_items) rejected_item [] ∅) = ["each"]
  /\ resolveItemsFromContrib "steps.find.output.issues" ∅ = Err (sprintf (DItemsSource "find")).
Proof. split; [vm_compute; reflexivity|]. split; vm_compute; reflexivity. Qed.

(** Two spellings of one approver fill one seat: the step is accepted with two
    required approvals and can never be approved. *)
Definition twice_ann : list approval_op := [OCreate 0 (gate_request "ship" ["ann"; "Ann"] 2 1)].

Definition twice_ann_row : ApprovalRequest :=
  List.hd (gate_request "" [] 0 0) (approval_requests (run_ops no_approvals [] twice_ann).1).

Lemma twice_ann_history :
  history (run_ops no_approvals [] twice_ann).1 (run_ops no_approvals [] twice_ann).2.
Proof. apply run_ops_history; [constructor|]. repeat constructor; done. Defined.

Lemma duplicate_approvers_block_witness (calls : list call) :
  Forall (fun x => ca_delegates x = []) calls ->
  checks [gate_step_config "ship" ["ann"; "Ann"] 2] = []
  /\ forall r', GetApprovalRequest "i:ship" (handle_calls "i:ship" calls (run_ops no_approvals [] twice_ann).1) = Some r' ->
       aq_Status r' <> ApprovalApproved.
Proof.
  intros Hc. split; [vm_compute; reflexivity|].
  apply (duplicate_approvers_block {["ann"]} twice_ann_row calls _ (run_ops no_approvals [] twice_ann).2).
  - discriminate.
  - reflexivity.
  - intros actor p. change (aq_Approvers twice_ann_row) with ["ann"; "Ann"]. cbn [List.find]. unfold equal_fold.
    change (to_lower "ann") with "ann". change (to_lower "Ann") with "ann". intros _ Hf.
    destruct (bool_decide ("ann" = to_lower actor)); [|discriminate Hf]. injection Hf as <-.
    by apply elem_of_singleton.
  - vm_compute. reflexivity.
  - exact twice_ann_history.
  - vm_compute. apply list_elem_of_here.
  - reflexivity.
  - assert (voters (aq_ID twice_ann_row) (run_ops no_approvals [] twice_ann).1 = ∅) as -> by reflexivity.
    apply empty_subseteq.
  - change (map_to_list (aq_Delegates twice_ann_row)) with (@nil (string * list string)).
    eapply Forall_impl; [exact Hc|]. by intros x ->.
Qed.

(** ** Witnesses *)

Lemma validated_gate_answerable_witness :
  exists r', GetApprovalRequest "i:ship"
      (all_approve 9 [] (fun p => "k:" +:+ p) ∅ "i:ship" ["ann"; "bob"; "cy"]
         (run_ops no_approvals [] quorum_ops).1) = Some r'
    /\ aq_Status r' = ApprovalApproved.
Proof.
  apply (@validated_gate_answerable literal_runtime "" (gate_step_config "ship" ["ann"; "bob"; "cy"] 2) 9 []
    (fun p => "k:" +:+ p) ∅ _ (run_ops no_approvals [] quorum_ops).2 ship_row).
  - vm_compute. reflexivity.
  - discriminate.
  - apply (bool_decide_unpack _). vm_compute. exact I.
  - apply (bool_decide_unpack _). vm_compute. exact I.
  - exact quorum_history.
  - vm_compute. apply list_elem_of_here.
  - reflexivity.
  - repeat split; reflexivity.
  - intros f Hf. vm_compute in Hf. by apply elem_of_nil in Hf.
  - intros p q H. vm_compute in H. injection H as H. exact H.
  - done.
  - intros p. vm_compute. intros H%list_elem_of_singleton. discriminate H.
Defined.

(** A workflow of every kind of step a group may hold. *)
Definition mixed_steps : list StepConfig :=
  [agent_of "find" [] (Some issues_schema) "";
   each_of "each" "steps.find.output.issues";
   group_of "both" [agent_of "lint" [] None ""; Wait.ci_step]].

Lemma validated_runs_clean_witness :
  NoDup (st_ID <$> mixed_steps)
  /\ @clean_step literal_runtime plain_diagnostics (file_of mixed_steps) {["lint"; "ci"]} Wait.ci_step.
Proof.
  destruct (@validated_runs_clean literal_runtime plain_diagnostics cli_hooks (file_of mixed_steps) (workflow_of mixed_steps))
    as (Hnd & _ & _ & Hc & _).
  - reflexivity.
  - vm_compute. reflexivity.
  - apply list_elem_of_here.
  - split; [exact Hnd|]. apply (Hc (group_of "both" [agent_of "lint" [] None ""; Wait.ci_step])); [|reflexivity|].
    + apply list_elem_of_further, list_elem_of_further, list_elem_of_here.
    + apply list_elem_of_further, list_elem_of_here.
Defined.

(** A wait whose [on_fail] goes back to a step that does not exist is accepted; when
    it fails, the run resets no other step, and the wait alone is repeated. *)
Definition lost_loop : StepConfig :=
  ir_step "ci" StepTypeWaitFor ["build"] [] "" "" "" "" None "" None ""
    (Some {| so_Goto := "biuld"; so_MaxRetries := 1 |}) None false [] "" None None "" [] (Some Wait.ci_config) "" "" 0 0 false None [] "".

Definition lost_run : dagRun :=
  put_state "build" stPassed (initDAG (workflow_of [agent_of "build" [] None ""; lost_loop]) example_cell [] ∅).

Lemma unknown_loop_target_accepted :
  checks [agent_of "build" [] None ""; lost_loop] = []
  /\ let '(r, k) := failStep lost_loop (new_result false "red") (verdict "")
                      {| c_termFail := false; c_loopTarget := "" |} lost_run in
     c_loopTarget k = "biuld"
     /\ state_of (resetLoop "biuld" r) "build" = stPassed /\ state_of (resetLoop "biuld" r) "ci" = stPending.
Proof. split; vm_compute; auto. Qed.
