(* ===== verification/LowerFacts.v ===== *)
(** * Sequenced workflows

    The implicit sequencing of a plain list of steps: it settles after one pass
    and its edges never wait in a circle. Then two workflows whose splits the
    scheduler cannot follow. *)

From stdpp Require Import base gmap strings list relations.
From Stdlib Require Import ZArith Ascii.
From S2P Require Import Prelude Model Expr ExprFacts Config Graph Dag DagProps StepGraph Lower GraphRun.

(** ** Sequencing *)

Lemma sequence_step_fields splits prev s :
  let s' := sequence_step splits prev s in
  st_ID s' = st_ID s /\ st_Type s' = st_Type s /\ st_Branches s' = st_Branches s
  /\ st_DependsOn s' = st_DependsOn s
  /\ (st_SeqDependsOn s' = st_SeqDependsOn s
      \/ exists d, st_SeqDependsOn s' = [d] /\ all_deps s = []
                   /\ (splits !! st_ID s = Some d \/ (d = prev /\ prev <> ""))).
Proof.
  unfold sequence_step, all_deps. destruct (st_DependsOn s) as [|d ds] eqn:E1; [|by split_and!; auto].
  destruct (st_SeqDependsOn s) as [|d ds] eqn:E2; [|by split_and!; auto].
  destruct (splits !! st_ID s) as [d|] eqn:E3; [split_and!; try done; right; by exists d; auto|].
  destruct (is_empty prev) eqn:E4; [by split_and!; auto|].
  apply is_empty_false in E4. split_and!; try done. right. exists prev. auto.
Qed.

(** A second pass finds every edge in place. *)
Lemma sequence_step_settled splits prev s :
  sequence_step splits prev (sequence_step splits prev s) = sequence_step splits prev s.
Proof.
  unfold sequence_step at 2 3. destruct (st_DependsOn s) as [|d ds] eqn:E1.
  2:{ unfold sequence_step. by rewrite E1. }
  destruct (st_SeqDependsOn s) as [|d ds] eqn:E2.
  2:{ unfold sequence_step. by rewrite E1, E2. }
  destruct (splits !! st_ID s) as [d|] eqn:E3.
  { unfold sequence_step. destruct s. simpl in *. by rewrite E1. }
  destruct (is_empty prev) eqn:E4.
  { unfold sequence_step. by rewrite E1, E2, E3, E4. }
  unfold sequence_step. destruct s. simpl in *. by rewrite E1.
Qed.

Lemma sequence_from_settled splits prev steps :
  sequence_from splits prev (sequence_from splits prev steps) = sequence_from splits prev steps.
Proof.
  revert prev. induction steps as [|s steps IH]; intros prev; simpl; [done|].
  rewrite sequence_step_settled. f_equal.
  destruct (sequence_step_fields splits prev s) as (-> & _). apply IH.
Qed.

(** A loop over positions sees only what its body reads of the elements. *)
Lemma foldl_pos_ext {A B} (f : A -> nat * B -> A) l l' m :
  Forall2 (fun x x' => forall m i, f m (i, x) = f m (i, x')) l l' ->
  foldl f m (imap pair l) = foldl f m (imap pair l').
Proof.
  intros H. assert (forall n m, foldl f m (imap (fun i => pair (n + i)) l)
    = foldl f m (imap (fun i => pair (n + i)) l')) as Hn; [|apply (Hn 0)].
  clear m. induction H as [|x x' l l' Hx _ IH]; intros n m; [done|].
  rewrite !imap_cons. cbn [foldl]. rewrite Hx.
  rewrite !(imap_ext ((fun i => pair (n + i)) ∘ S) (fun i => pair (S n + i))) by (intros; simpl; by rewrite Nat.add_succ_r).
  apply IH.
Qed.

Lemma sequence_from_Forall2 splits prev steps :
  Forall2 (fun s' s => st_ID s' = st_ID s /\ st_Type s' = st_Type s /\ st_Branches s' = st_Branches s)
    (sequence_from splits prev steps) steps.
Proof.
  revert prev. induction steps as [|s steps IH]; intros prev; simpl; constructor; [|apply IH].
  destruct (sequence_step_fields splits prev s) as (? & ? & ? & _). done.
Qed.

(** The splits and positions of a list are those of its sequenced form. *)
Lemma splitFor_sequence splits prev steps : splitFor (sequence_from splits prev steps) = splitFor steps.
Proof.
  unfold splitFor.
  assert (forall m : gmap string nat,
    foldl (fun m '(i, s) => <[st_ID s := i]> m) m (imap pair (sequence_from splits prev steps))
    = foldl (fun m '(i, s) => <[st_ID s := i]> m) m (imap pair steps)) as ->.
  { intros m. apply foldl_pos_ext. eapply Forall2_impl; [apply sequence_from_Forall2|].
    intros s' s (H1 & _) m' i. by rewrite H1. }
  apply foldl_pos_ext. eapply Forall2_impl; [apply sequence_from_Forall2|].
  intros s' s (H1 & H2 & H3) m i. unfold split_step, is_type, StepType. simpl. by rewrite H1, H2, H3.
Qed.

Lemma sequenceSteps_settled steps : sequenceSteps (sequenceSteps steps) = sequenceSteps steps.
Proof. unfold sequenceSteps at 1. unfold sequenceSteps at 1. rewrite splitFor_sequence. apply sequence_from_settled. Qed.

(** ** The flow of a sequenced list *)

(** Steps in the order of the file, written without dependencies: distinct
    names, and a split chooses between steps declared after it. *)
Record flat_authored (steps : list StepConfig) : Prop := {
  fa_distinct : NoDup (st_ID <$> steps);
  fa_named : "" ∉ st_ID <$> steps;
  fa_bare : forall s, s ∈ steps -> all_deps s = [];
  fa_forward : forall i s b, steps !! i = Some s -> is_type StepTypeSplit s = true -> b ∈ st_Branches s ->
    br_Goto b ∈ st_ID <$> steps -> exists j, (st_ID <$> steps) !! j = Some (br_Goto b) /\ i < j;
}.

Lemma index_lookup steps g j :
  foldl (fun (m : gmap string nat) '(i, s) => <[st_ID s := i]> m) ∅ (imap pair steps) !! g = Some j ->
  (st_ID <$> steps) !! j = Some g.
Proof.
  intros H. assert (forall (l : list (nat * StepConfig)) (m : gmap string nat),
    foldl (fun (m : gmap string nat) '(i, s) => <[st_ID s := i]> m) m l !! g = Some j ->
    m !! g = Some j \/ exists s, (j, s) ∈ l /\ st_ID s = g) as Hl.
  { induction l as [|[i s] l IH]; intros m; [by left|]. cbn [foldl]. intros [Hm|(s' & ? & ?)]%IH.
    - destruct (decide (st_ID s = g)) as [<-|]; [rewrite lookup_insert_eq in Hm|rewrite lookup_insert_ne in Hm by done].
      + injection Hm as ->. right. exists s. split; [apply list_elem_of_here|done].
      + by left.
    - right. exists s'. split; [by apply list_elem_of_further|done]. }
  apply Hl in H as [H|(s & Hin & <-)]; [by rewrite lookup_empty in H|].
  apply elem_of_lookup_imap in Hin as (i & s' & [= -> ->] & Hs). by rewrite list_lookup_fmap, Hs.
Qed.

Lemma splitFor_lookup steps g sp :
  splitFor steps !! g = Some sp ->
  exists i j, (st_ID <$> steps) !! i = Some sp /\ (st_ID <$> steps) !! j = Some g /\ i < j.
Proof.
  unfold splitFor. set (index := foldl (fun (m : gmap string nat) '(i, s) => <[st_ID s := i]> m) ∅ (imap pair steps)).
  assert (forall i, (i <? default 0 (index !! g))%nat = true -> exists j, index !! g = Some j /\ i < j) as Hlt.
  { intros i H%Nat.ltb_lt. destruct (index !! g) as [j|]; simpl in H; [eauto|lia]. }
  set (P := fun m : gmap string string => m !! g = Some sp ->
    exists i j, (st_ID <$> steps) !! i = Some sp /\ (st_ID <$> steps) !! j = Some g /\ i < j).
  assert (P ∅) as H0 by (intros H; by rewrite lookup_empty in H).
  apply (foldl_inv P); [exact H0|]. intros m [i s] Hin Hm.
  apply elem_of_lookup_imap in Hin as (i' & s' & [= -> ->] & Hs).
  unfold split_step. simpl. destruct (is_type _ _); [|done]. apply (foldl_inv P); [done|].
  clear m Hm. intros m b _ Hm. unfold split_branch. destruct (_ && _) eqn:E; [|done].
  apply andb_true_iff in E as [_ E]. intros H. destruct (decide (br_Goto b = g)) as [Hg|].
  - rewrite Hg in H, E. rewrite lookup_insert_eq in H. injection H as <-. apply Hlt in E as (j & Hj & Hlt').
    exists i', j. split_and!; [by rewrite list_lookup_fmap, Hs|by apply index_lookup|done].
  - rewrite lookup_insert_ne in H by done. by apply Hm.
Qed.

(** The last named step before position [i]. *)
Fixpoint prev_at (prev : string) (steps : list StepConfig) (i : nat) : string :=
  match i, steps with
  | S i, s :: rest => prev_at (if is_empty (st_ID s) then prev else st_ID s) rest i
  | _, _ => prev
  end.

Lemma sequence_from_lookup splits prev steps i s' :
  sequence_from splits prev steps !! i = Some s' ->
  exists s, steps !! i = Some s /\ s' = sequence_step splits (prev_at prev steps i) s.
Proof.
  revert prev i. induction steps as [|s steps IH]; intros prev [|i]; simpl; [done..| |apply IH].
  intros [= <-]. eauto.
Qed.

Lemma prev_at_lookup prev steps i :
  prev_at prev steps i = prev \/ exists j, j < i /\ (st_ID <$> steps) !! j = Some (prev_at prev steps i).
Proof.
  revert prev i. induction steps as [|s steps IH]; intros prev [|i]; simpl; [auto..|].
  destruct (IH (if is_empty (st_ID s) then prev else st_ID s) i) as [->|(j & Hj & Hl)].
  - destruct (is_empty (st_ID s)); [by left|right]. exists 0. split; [lia|done].
  - right. exists (S j). split; [lia|done].
Qed.

Lemma sequence_ids splits prev steps : st_ID <$> sequence_from splits prev steps = st_ID <$> steps.
Proof.
  pose proof (sequence_from_Forall2 splits prev steps) as H. induction H as [|s' s l' l (Hi & _) _ IH]; [done|].
  rewrite !fmap_cons. by rewrite Hi, IH.
Qed.

(** [d] is declared before [y]. *)
Definition before (ids : list string) (y d : string) : Prop :=
  exists i j, ids !! i = Some d /\ ids !! j = Some y /\ i < j.

Lemma before_acyclic ids x : NoDup ids -> ~ tc (before ids) x x.
Proof.
  intros Hnd. assert (forall y d, tc (before ids) y d -> before ids y d) as Ht.
  { induction 1 as [|y z d (i & j & Hi & Hj & Hlt) _ (i' & j' & Hi' & Hj' & Hlt')]; [done|].
    exists i', j. assert (j' = i) as -> by (by eapply NoDup_lookup). split_and!; [done..|lia]. }
  intros (i & j & Hi & Hj & Hlt)%Ht. assert (i = j) by (by eapply NoDup_lookup). lia.
Qed.

(** Every edge of a sequenced flat workflow points backwards. *)
Lemma sequenced_before steps y d wf :
  flat_authored steps -> wc_Steps wf = sequenceSteps steps ->
  waits_for wf y d -> before (st_ID <$> steps) y d.
Proof.
  intros [Hnd Hnm Hbare Hfw] Hwf [(s' & Hs & <- & Hd)|(s' & b & Hs & Hty & Hb & <- & Hne & ->)];
    rewrite Hwf in Hs; apply list_elem_of_lookup_1 in Hs as (i & Hi);
    apply sequence_from_lookup in Hi as (s & Hi & ->);
    destruct (sequence_step_fields (splitFor steps) (prev_at "" steps i) s) as (Hid & Hty' & Hbr & Hdep & Hseq).
  - assert (all_deps s = []) as Hnil by (by apply Hbare, list_elem_of_lookup_2 with i).
    unfold all_deps in Hnil, Hd. apply app_eq_nil in Hnil as [Hn1 Hn2]. rewrite Hdep, Hn1, Hid in *. simpl in Hd.
    assert ((st_ID <$> steps) !! i = Some (st_ID s)) as Hpos by (by rewrite list_lookup_fmap, Hi).
    destruct Hseq as [Hseq|(d' & Hseq & _ & Hcase)]; rewrite Hseq in Hd; [rewrite Hn2 in Hd; by apply elem_of_nil in Hd|].
    apply list_elem_of_singleton in Hd as ->. destruct Hcase as [Hsp|[-> Hp]].
    + by apply splitFor_lookup in Hsp.
    + destruct (prev_at_lookup "" steps i) as [E|(j & Hj & Hl)]; [done|]. by exists j, i.
  - rewrite Hid. rewrite Hbr in Hb. unfold is_type, StepType in Hty. rewrite Hty' in Hty.
    rewrite Hwf in Hne. unfold sequenceSteps in Hne. rewrite sequence_ids in Hne.
    destruct (Hfw i s b Hi Hty Hb Hne) as (j & Hj & Hlt). exists i, j.
    split_and!; [by rewrite list_lookup_fmap, Hi|done..].
Qed.

Lemma sequenced_flow_ok steps wf :
  flat_authored steps -> wc_Steps wf = sequenceSteps steps -> flow_ok wf.
Proof.
  intros Hfa Hwf. split.
  - intros y d Hd. assert (before (st_ID <$> steps) y d) as (i & j & Hi & _)
      by (eapply sequenced_before; [done..|by left]).
    rewrite Hwf. unfold sequenceSteps. rewrite sequence_ids. by eapply list_elem_of_lookup_2.
  - intros x Hx. apply (before_acyclic (st_ID <$> steps) x); [apply Hfa|].
    eapply tc_sub; [|exact Hx]. intros a b. by eapply sequenced_before.
Qed.

(** Lowering a workflow written as a plain list of steps, whose splits choose
    between later steps, changes nothing but their sequential dependencies, is
    settled after one pass, and gives a workflow whose runs strand no step:
    they end failed only when a step failed and done only when every step ran
    or was skipped. *)
Theorem flat_workflow_runs `{RT : GoRuntime} `{DG : Diagnostics} (concurrency : Z) (wf wf' : WorkflowConfig)
    (Hv2 : anyV2Steps (wc_Steps wf) = false) (Hflat : flat_authored (wc_Steps wf))
    (Hlow : LowerV2Workflow wf = Ok wf') :
  st_ID <$> wc_Steps wf' = st_ID <$> wc_Steps wf
  /\ sequenceSteps (wc_Steps wf') = wc_Steps wf'
  /\ forall cell seed ev fuel events o r',
       driveDAG concurrency fuel events (initDAG wf' cell seed ev) = Some (o, r') ->
       match o with
       | outcomeFailed => exists y, y ∈ order r' /\ state_of r' y = stFailed
       | outcomeDone => forall y, y ∈ order r' -> state_of r' y ∈ [stPassed; stSkipped; stCondSkipped]
       | _ => True
       end.
Proof.
  unfold LowerV2Workflow in Hlow. rewrite Hv2 in Hlow. simpl in Hlow. injection Hlow as <-. simpl.
  split_and!; [apply sequence_ids|apply sequenceSteps_settled|].
  intros cell seed ev fuel events o r' Hd. eapply flow_runs_settle; [| |exact Hd].
  - simpl. unfold sequenceSteps. rewrite sequence_ids. apply Hflat.
  - by eapply sequenced_flow_ok.
Qed.

(** ** A witness *)

(** A split that chooses between the two steps declared after it. *)
Definition triage_workflow : WorkflowConfig := workflow_of
  [split_of "route" (triage_branches "fix" "docs"); step_of "fix" "agent" []; step_of "docs" "agent" []].

Lemma triage_flat : flat_authored (wc_Steps triage_workflow).
Proof.
  split.
  - apply (bool_decide_unpack _). vm_compute. exact I.
  - apply (bool_decide_unpack _). vm_compute. exact I.
  - intros s Hs. simpl in Hs. rewrite !elem_of_cons, elem_of_nil in Hs.
    destruct Hs as [->|[->|[->|[]]]]; reflexivity.
  - intros i s b Hi Hty Hb _. destruct i as [|[|[|i]]]; simpl in Hi; simplify_eq; try discriminate Hty.
    simpl in Hb. unfold triage_branches in Hb. rewrite !elem_of_cons, elem_of_nil in Hb.
    destruct Hb as [->|[->|[]]]; [exists 1|exists 2]; (split; [reflexivity|lia]).
Qed.

(** What a lowered workflow does on [example_cell], a task of type issue: the
    outcome, and the state of every step. *)
Definition lowered_run (wf : WorkflowConfig) : option (dagOutcome * list (string * string)) :=
  match LowerV2Workflow wf with
  | Ok wf' =>
      (fun '(o, r) => (o, (fun id => (id, state_of r id)) <$> order r))
        <$> @driveDAG literal_runtime example_diagnostics 1 40 pipeline_events (initDAG wf' example_cell [] ∅)
  | Err _ => None
  end.

Lemma flat_workflow_runs_witness :
  lowered_run triage_workflow
    = Some (outcomeDone, [("route", stPassed); ("fix", stSkipped); ("docs", stPassed)])
  /\ sequenceSteps (sequenceSteps (wc_Steps triage_workflow)) = sequenceSteps (wc_Steps triage_workflow).
Proof.
  split; [vm_compute; reflexivity|].
  apply (@flat_workflow_runs literal_runtime example_diagnostics 1 triage_workflow
           (with_Steps (sequenceSteps (wc_Steps triage_workflow)) triage_workflow));
    [reflexivity|exact triage_flat|reflexivity].
Defined.

(** ** Two defects *)

(** A split may go back to an earlier step: [sequenceSteps] keeps that step in
    its place in the sequence and validation accepts the graph, but the
    scheduler activates a split target only when the split chooses it, and the
    split waits for the step it would go back to: nothing ever runs. *)
Lemma split_back_goto_strands :
  let wf := workflow_of [step_of "plan" "agent" []; split_of "route" (triage_branches "plan" "ship");
                         step_of "ship" "agent" []] in
  validateStepGraph (with_Steps (sequenceSteps (wc_Steps wf)) wf) (step_ids wf) = []
  /\ lowered_run wf = Some (outcomeFailed, [("plan", stPending); ("route", stPending); ("ship", stPending)]).
Proof. split; vm_compute; reflexivity. Qed.

(** [sequenceSteps] makes the targets of a split alternatives, but a workflow
    with any authored v2 field does not go through it: [lowerLeafStep] chains
    them, so the target the split did not choose is skipped and takes the chosen
    one with it. The run reports done and ran no branch. *)
Lemma lowered_split_skips_chosen_branch :
  lowered_run (workflow_of
    [split_of "route" (triage_branches "fix" "docs"); step_of "fix" "agent" []; step_of "docs" "agent" [];
     with_If "cell.type == 'issue'" (step_of "note" "agent" [])])
  = Some (outcomeDone, [("route", stPassed); ("fix", stSkipped); ("docs", stSkipped); ("note", stSkipped)]).
Proof. vm_compute. reflexivity. Qed.
