(* ===== verification/LowerProps.v ===== *)
(** * Guards and flattening of the lowering pass

    A conjunction of guards parses to the conjunction of their trees and means
    the guards in turn; the flattened list is the list of leaves under their
    guards, chained in order. Lowering what was lowered changes nothing. *)

From stdpp Require Import base gmap strings list.
From Stdlib Require Import ZArith Ascii.
From S2P Require Import Prelude Text Model Expr ExprFacts Config Graph Dag DagProps StepGraph Lower GraphRun LowerFacts.

(** ** Lexing a parenthesized text *)

(** The tokens of [s], whatever the fuel and the position. *)
Definition lexes (s : string) (ts : list token) : Prop :=
  forall fuel pos, String.length s <= fuel -> lex_go fuel pos s = Ok ts.

Lemma span_app p s a b c rest :
  str_span p s = (a, b) -> p c = false -> str_span p (s +:+ String c rest) = (a, b +:+ String c rest).
Proof.
  revert a b. induction s as [|d s IH]; intros a b; simpl.
  - intros [= <- <-] Hc. by rewrite Hc.
  - destruct (p d) eqn:E; [|by intros [= <- <-] _].
    destruct (str_span p s) as [a' b'] eqn:Es. intros [= <- <-] Hc. by rewrite (IH _ _ eq_refl Hc).
Qed.

Lemma span_app_inner p s a c b t :
  str_span p s = (a, String c b) -> str_span p (s +:+ t) = (a, String c b +:+ t).
Proof.
  revert a. induction s as [|d s IH]; intros a; simpl; [done|].
  destruct (p d) eqn:E; [|by intros [= <- <- <-]].
  destruct (str_span p s) as [a' b'] eqn:Es. intros [= <- ->]. by rewrite (IH _ eq_refl).
Qed.

Lemma cons_tok_app t (m m' : result lexError (list token)) ts us :
  cons_tok t m = Ok ts -> (forall ts', m = Ok ts' -> exists vs, m' = Ok (vs ++ us) /\ ts' = vs ++ [Tok tEOF ""]) ->
  exists vs, cons_tok t m' = Ok (vs ++ us) /\ ts = vs ++ [Tok tEOF ""].
Proof.
  intros H Hm. apply cons_tok_Ok in H as (ts' & -> & ->). destruct (Hm ts' eq_refl) as (vs & -> & ->).
  by exists (t :: vs).
Qed.

(** A closing parenthesis ends every token. *)
Lemma lex_go_app fuel pos s ts rest us :
  lex_go fuel pos s = Ok ts -> lexes (String ")" rest) us ->
  forall fuel' pos', String.length (s +:+ String ")" rest) <= fuel' ->
  exists vs, lex_go fuel' pos' (s +:+ String ")" rest) = Ok (vs ++ us) /\ ts = vs ++ [Tok tEOF ""].
Proof.
  intros Hs Hr. revert fuel pos s ts Hs. induction fuel as [|fuel IH]; intros pos s ts.
  { destruct s; simpl; [|done]. intros [= <-] fuel' pos' Hf. exists []. split; [|done]. by apply Hr. }
  destruct s as [|c s]; [intros [= <-] fuel' pos' Hf; exists []; split; [by apply Hr|done]|].
  intros H fuel' pos' Hf. rewrite str_app_cons in Hf |- *. destruct fuel' as [|fuel']; [simpl in Hf; lia|].
  simpl in Hf. cbn [lex_go] in H |- *.
  assert (forall pos0 s0 m t, cons_tok t (lex_go fuel pos0 s0) = Ok ts ->
    (forall ts', lex_go fuel pos0 s0 = Ok ts' -> exists vs, m = Ok (vs ++ us) /\ ts' = vs ++ [Tok tEOF ""]) ->
    exists vs, cons_tok t m = Ok (vs ++ us) /\ ts = vs ++ [Tok tEOF ""]) as Hcons
    by (intros; by eapply cons_tok_app).
  destruct (isBlank c); [eapply IH; [exact H|lia]|].
  destruct (bool_decide (c = "("%char)); [eapply Hcons; [exact H|]; intros; eapply IH; [done|lia]|].
  destruct (bool_decide (c = ")"%char)); [eapply Hcons; [exact H|]; intros; eapply IH; [done|lia]|].
  destruct (bool_decide (c = "."%char)); [eapply Hcons; [exact H|]; intros; eapply IH; [done|lia]|].
  destruct (bool_decide (c = "="%char)).
  { destruct s as [|d s]; [done|]. simpl in H, Hf |- *. destruct (bool_decide (d = "="%char)); [|done].
    eapply Hcons; [exact H|]. intros. eapply IH; [done|]. lia. }
  destruct (bool_decide (c = "!"%char)).
  { destruct s as [|d s]; [done|]. simpl in H, Hf |- *. destruct (bool_decide (d = "="%char)); [|done].
    eapply Hcons; [exact H|]. intros. eapply IH; [done|]. lia. }
  destruct (bool_decide (c = "&"%char)); [done|]. destruct (bool_decide (c = "|"%char)); [done|].
  assert (forall p a b, str_span p (s +:+ String ")" rest) = (a, b) ->
    String.length b <= String.length (s +:+ String ")" rest)) as Hlen
    by (intros p a b Hsp; by apply str_span_spec in Hsp as [_ ?]).
  destruct (isQuote c).
  { destruct (str_span _ s) as [body [|d b]] eqn:Es; [done|].
    pose proof (span_app_inner _ _ _ _ _ (String ")" rest) Es) as Ha. rewrite Ha.
    apply Hlen in Ha. rewrite str_app_cons in *. simpl in Ha.
    eapply Hcons; [exact H|]. intros. eapply IH; [done|]. lia. }
  destruct (isDigit c || _) eqn:Ed.
  { assert (isDigit c || bool_decide (c = "-"%char) && starts_with isDigit (s +:+ String ")" rest) = true) as ->.
    { destruct (isDigit c); [done|]. simpl in Ed |- *. destruct s; [by rewrite andb_false_r in Ed|done]. }
    destruct (str_span _ s) as [body b] eqn:Es.
    pose proof (span_app _ _ _ _ ")"%char rest Es eq_refl) as Ha. rewrite Ha. apply Hlen in Ha.
    eapply Hcons; [exact H|]. intros. eapply IH; [done|]. lia. }
  destruct (isDigit c) eqn:Edig; [done|]. simpl in Ed |- *.
  destruct (bool_decide (c = "-"%char)) eqn:Em; [done|]. simpl.
  destruct (isIdentStart c); [|done].
  destruct (str_span _ s) as [body b] eqn:Es.
  pose proof (span_app _ _ _ _ ")"%char rest Es eq_refl) as Ha. rewrite Ha. apply Hlen in Ha.
  eapply Hcons; [exact H|]. intros. eapply IH; [done|]. lia.
Qed.

Lemma lex_parens s ts rest us :
  lex s = Ok (ts ++ [Tok tEOF ""]) -> lexes rest us ->
  lexes ("(" +:+ s +:+ ")" +:+ rest) (Tok tLParen "(" :: ts ++ Tok tRParen ")" :: us).
Proof.
  intros Hs Hr fuel pos Hf.
  assert (lexes (String ")" rest) (Tok tRParen ")" :: us)) as Hp.
  { intros [|f] p Hl; simpl in Hl; [lia|]. simpl. rewrite Hr by lia. done. }
  destruct fuel as [|fuel]; [simpl in Hf; lia|]. simpl in Hf.
  change (("(" +:+ s +:+ ")" +:+ rest)) with (String "(" (s +:+ String ")" rest)).
  destruct (lex_go_app _ _ _ _ rest _ Hs Hp fuel (S pos)) as (vs & Hv & Heq);
    [change ("" +:+ s +:+ ")" +:+ rest) with (s +:+ String ")" rest) in Hf; lia|].
  apply app_inj_tail in Heq as [<- _]. cbn [lex_go]. simpl. rewrite Hv. done.
Qed.

(** ** Conjunctions of guards *)

Lemma parse_empty : is_ok (ParseExpr "") = false.
Proof. done. Qed.

(** Parsing and its grammar, for the clients. *)
Lemma parse_grammar src e : ParseExpr src = Ok e <-> exists us, lex src = Ok (us ++ [Tok tEOF ""]) /\ G_or us e.
Proof.
  unfold ParseExpr. split.
  - destruct (lex src) as [ts|] eqn:E; [|done]. intros H.
    destruct (lex_go_eof _ _ _ _ E) as (us & -> & Hf).
    destruct (parse_tokens_sound _ _ ltac:(by exists us) H) as (us' & vs & Heq & Hv & Hk & HG).
    apply eof_split in Heq; [|done..]. subst us'. by exists us.
  - intros (us & -> & HG). by apply parse_tokens_complete.
Qed.

Lemma composeCond_parse a b ea eb :
  ParseExpr (trim_space a) = Ok ea -> ParseExpr (trim_space b) = Ok eb ->
  ParseExpr (composeCond a b) = Ok (andNode ea eb).
Proof.
  intros Ha Hb. unfold composeCond.
  assert (forall s e, ParseExpr s = Ok e -> is_empty s = false) as Hne.
  { intros s e H. apply is_empty_false. intros ->. done. }
  rewrite (Hne _ _ Ha), (Hne _ _ Hb). simpl.
  apply parse_grammar in Ha as (ta & La & Ga). apply parse_grammar in Hb as (tb & Lb & Gb).
  apply parse_grammar.
  exists ((Tok tLParen "(" :: ta ++ [Tok tRParen ")"]) ++ Tok tIdent "and" :: Tok tLParen "(" :: tb ++ [Tok tRParen ")"]).
  split.
  - assert (lexes "" [Tok tEOF ""]) as H0 by (intros fuel pos _; by destruct fuel).
    pose proof (lex_parens _ _ _ _ Lb H0) as H1. set (r1 := "(" +:+ _ +:+ _ +:+ "") in H1.
    assert (lexes (" and " +:+ r1) (Tok tIdent "and" :: Tok tLParen "(" :: tb ++ [Tok tRParen ")"; Tok tEOF ""])) as H2.
    { intros fuel pos Hf. do 2 (destruct fuel as [|fuel]; [simpl in Hf; lia|]). simpl in Hf |- *.
      destruct fuel as [|fuel]; [lia|]. simpl. rewrite H1 by (simpl; lia). done. }
    pose proof (lex_parens _ _ _ _ La H2) as H3. unfold lex.
    assert (("(" +:+ trim_space a +:+ ") and (" +:+ trim_space b +:+ ")")
      = "(" +:+ trim_space a +:+ ")" +:+ " and " +:+ r1) as -> by done.
    rewrite H3 by lia. by simplify_list_eq.
  - apply gor_one. eapply gand_more.
    + apply gand_one, gnot_atom; [done|]. by apply (gatom_paren "(" ")").
    + apply gnot_atom; [done|]. by apply (gatom_paren "(" ")").
Qed.

(** ** Flattening *)

Section flatten.
Context (idx : gmap string StepConfig).

(** The text an expression is rewritten to does not depend on the staged
    writes. *)
Lemma rewrite_go_text fuel src w w' : (rewrite_go idx fuel src w).1 = (rewrite_go idx fuel src w').1.
Proof.
  revert src w w'. induction fuel as [|fuel IH]; intros src w w'; [done|]. destruct src as [|c src]; [done|].
  cbn [rewrite_go]. destruct (isIdentRune c).
  - destruct (dotted _) as [[word1 [[word2 rest2]|]] after]; [destruct (bool_decide _)|].
    + specialize (IH rest2 (ensureMemoryWrite idx word1 word2 w) (ensureMemoryWrite idx word1 word2 w')).
      destruct (rewrite_go _ _ _ _), (rewrite_go _ _ _ _). simpl in *. by rewrite IH.
    + specialize (IH after w w'). destruct (rewrite_go _ _ _ _), (rewrite_go _ _ _ _). simpl in *. by rewrite IH.
    + specialize (IH after w w'). destruct (rewrite_go _ _ _ _), (rewrite_go _ _ _ _). simpl in *. by rewrite IH.
  - specialize (IH src w w'). destruct (rewrite_go _ _ _ _), (rewrite_go _ _ _ _). simpl in *. by rewrite IH.
Qed.

(** The expression the scheduler gets for an authored one. *)
Definition lowered_text (expr : string) : string := (rewriteExpr idx expr ∅).1.

Lemma rewriteExpr_text expr w : (rewriteExpr idx expr w).1 = lowered_text expr.
Proof. apply rewrite_go_text. Qed.

(** The guard of a step under the guards [gs], outermost first. *)
Definition guard_of (gs : list string) : string :=
  foldl (fun c g => composeCond c (lowered_text g)) "" gs.

Definition is_ir_node (s : StepConfig) : bool :=
  is_empty (st_ForEachExpr s)
  && (bool_decide (st_Type s = StepTypeParallel) || bool_decide (st_Type s = StepTypeForeach)).

Definition is_group (s : StepConfig) : bool :=
  is_empty (st_ForEachExpr s) && negb (is_ir_node s)
  && bool_decide (st_ParallelSteps s = []) && negb (bool_decide (st_SubSteps s = [])).

(** The steps a tree runs, in order, each with the guards above it and its
    own. *)
Fixpoint leaves (gs : list string) (s : StepConfig) : list (StepConfig * list string) :=
  if is_group s then concat (map (leaves (gs ++ [st_If s])) (st_SubSteps s)) else [(s, gs ++ [st_If s])].

Definition forest (gs : list string) (steps : list StepConfig) : list (StepConfig * list string) :=
  concat (map (leaves gs) steps).

(** What is emitted for the leaf [s] under the guards [gs] after the step
    [prev]. *)
Record emitted (prev : string) (s : StepConfig) (gs : list string) (f : StepConfig) : Prop := {
  em_id : st_ID f = st_ID s;
  em_condition : st_Condition f = if is_ir_node s then st_Condition s else guard_of gs;
  em_gate : st_FailWhen f = if is_ir_node s || is_empty (st_RejectWhen s) then st_FailWhen s
                            else lowered_text (st_RejectWhen s);
  em_loop : st_OnFail f = match st_OnReject s with
                          | Some o => if is_ir_node s then st_OnFail s
                                      else Some {| so_Goto := or_RestartFrom o; so_MaxRetries := or_Max o |}
                          | None => st_OnFail s
                          end;
  em_after : prev <> "" -> st_DependsOn f <> [] \/ st_SeqDependsOn f <> []
             /\ (is_ir_node s = false -> st_SeqDependsOn f = [prev]);
}.

Inductive flattened : string -> list (StepConfig * list string) -> list StepConfig -> Prop :=
  | flattened_nil prev : flattened prev [] []
  | flattened_cons prev s gs f L out :
      emitted prev s gs f -> flattened (st_ID f) L out -> flattened prev ((s, gs) :: L) (f :: out).

Lemma last_id_cons prev f out : last_id prev (f :: out) = last_id (st_ID f) out.
Proof. unfold last_id. destruct out as [|g out]; [done|]. rewrite last_cons_cons. by destruct (last (g :: out)) eqn:E; [|apply last_None in E]. Qed.

Lemma flattened_app prev L1 o1 L2 o2 :
  flattened prev L1 o1 -> flattened (last_id prev o1) L2 o2 -> flattened prev (L1 ++ L2) (o1 ++ o2).
Proof.
  induction 1 as [prev|prev s gs f L out He _ IH]; [done|]. rewrite last_id_cons. intros H. simpl.
  constructor; auto.
Qed.

(** Later changes of a node that the relation does not see. *)
Lemma emitted_ext prev s gs f f' :
  emitted prev s gs f -> st_ID f' = st_ID f -> st_Condition f' = st_Condition f ->
  st_FailWhen f' = st_FailWhen f -> st_OnFail f' = st_OnFail f -> st_DependsOn f' = st_DependsOn f ->
  st_SeqDependsOn f' = st_SeqDependsOn f -> emitted prev s gs f'.
Proof. intros [] E1 E2 E3 E4 E5 E6. split; by rewrite ?E1, ?E2, ?E3, ?E4, ?E5, ?E6. Qed.

(** The fields of one emitted step. *)
Lemma lower_gate_fields s out w :
  let f := (lower_gate idx s out w).1 in
  st_ID f = st_ID out /\ st_Condition f = st_Condition out /\ st_DependsOn f = st_DependsOn out
  /\ st_SeqDependsOn f = st_SeqDependsOn out
  /\ st_FailWhen f = (if is_empty (st_RejectWhen s) then st_FailWhen out else lowered_text (st_RejectWhen s))
  /\ st_OnFail f = match st_OnReject s with
                   | Some o => Some {| so_Goto := or_RestartFrom o; so_MaxRetries := or_Max o |}
                   | None => st_OnFail out
                   end.
Proof.
  unfold lower_gate. pose proof (rewriteExpr_text (st_RejectWhen s) w) as Ht.
  destruct (rewriteExpr idx (st_RejectWhen s) w) as [e w']. simpl in Ht. subst e.
  destruct (is_empty (st_RejectWhen s)), (st_OnReject s); simpl; done.
Qed.

Lemma seq_after_fields prev s :
  st_ID (seq_after prev s) = st_ID s /\ st_DependsOn (seq_after prev s) = st_DependsOn s
  /\ st_FailWhen (seq_after prev s) = st_FailWhen s /\ st_OnFail (seq_after prev s) = st_OnFail s
  /\ st_Condition (seq_after prev s) = st_Condition s
  /\ (prev <> "" -> st_SeqDependsOn (seq_after prev s) = [prev]).
Proof.
  unfold seq_after. destruct (is_empty prev) eqn:E; split_and!; try done.
  - by apply is_empty_true in E.
Qed.

Lemma composeCond_guard gs g : composeCond (guard_of gs) (lowered_text g) = guard_of (gs ++ [g]).
Proof. unfold guard_of. by rewrite foldl_app. Qed.

Lemma lowerLeafStep_emitted s prev gs w :
  is_ir_node s = false -> emitted prev s (gs ++ [st_If s]) (lowerLeafStep idx s prev (guard_of gs) w).1.
Proof.
  intros Hir. unfold lowerLeafStep.
  set (o1 := match st_DependsOn s with [] => _ | _ => _ end).
  set (o2 := with_Output None _).
  pose proof (rewriteExpr_text (st_If s) w) as Ht.
  destruct (rewriteExpr idx (st_If s) w) as [own w1]. simpl in Ht. subst own.
  pose proof (lower_gate_fields s (with_If "" (with_Condition (composeCond (guard_of gs) (lowered_text (st_If s))) o2)) w1)
    as (G1 & G2 & G3 & G4 & G5 & G6).
  destruct (lower_gate _ _ _ _) as [o3 w2]. cbn [fst] in *.
  assert (st_ID o2 = st_ID s /\ st_DependsOn o2 = st_DependsOn s /\ st_FailWhen o2 = st_FailWhen s
    /\ st_OnFail o2 = st_OnFail s /\ (prev <> "" -> st_DependsOn s <> [] \/ st_SeqDependsOn o2 = [prev]))
    as (A1 & A2 & A3 & A4 & A5).
  { destruct (seq_after_fields prev s) as (S1 & S2 & S3 & S4 & _ & S5).
    assert (st_ID o1 = st_ID s /\ st_DependsOn o1 = st_DependsOn s /\ st_FailWhen o1 = st_FailWhen s
      /\ st_OnFail o1 = st_OnFail s /\ (prev <> "" -> st_DependsOn s <> [] \/ st_SeqDependsOn o1 = [prev])) as Ho1.
    { unfold o1. destruct (st_DependsOn s) eqn:Ed; [rewrite S1, S2, S3, S4|];
        split_and!; try done; intros Hp; [right; by apply S5|by left]. }
    unfold o2. clearbody o1. by destruct (st_OutputSchema o1). }
  cbn [fst]. apply (emitted_ext prev s _ o3); [|by destruct (_ && _)..]. clearbody o2.
  split; rewrite ?Hir; simpl.
  - by rewrite G1.
  - rewrite G2. apply composeCond_guard.
  - rewrite G5. simpl. by rewrite A3.
  - rewrite G6. simpl. by rewrite A4.
  - intros Hp. rewrite G3, G4. simpl. rewrite A2. destruct (A5 Hp) as [?| ->]; [by left|by right].
Qed.

Lemma lower_node_emitted s out prev gs w :
  is_ir_node s = false -> st_ID out = st_ID s -> st_DependsOn out = [] ->
  emitted prev s (gs ++ [st_If s]) (lower_node idx s out prev (guard_of gs) w).1.
Proof.
  intros Hir Hid Hdep. unfold lower_node.
  destruct (seq_after_fields prev out) as (S1 & S2 & S3 & S4 & S5 & S6).
  pose proof (rewriteExpr_text (st_If s) w) as Ht.
  destruct (rewriteExpr idx (st_If s) w) as [own w1]. simpl in Ht. subst own.
  set (o1 := with_OnFail _ _).
  pose proof (lower_gate_fields s o1 w1) as (G1 & G2 & G3 & G4 & G5 & G6).
  destruct (lower_gate _ _ _ _) as [o2 w2]. cbn [fst] in *. split; rewrite ?Hir; simpl.
  - rewrite G1. unfold o1. simpl. by rewrite S1.
  - rewrite G2. unfold o1. simpl. apply composeCond_guard.
  - by rewrite G5.
  - by rewrite G6.
  - intros Hp. right. rewrite G4. unfold o1. simpl. by rewrite S6.
Qed.

Lemma lowerParallelStep_emitted s prev gs w f w' :
  is_ir_node s = false -> lowerParallelStep idx s prev (guard_of gs) w = Ok (f, w') ->
  emitted prev s (gs ++ [st_If s]) f.
Proof.
  intros Hir. unfold lowerParallelStep. destruct (is_empty (st_ID s)); [done|].
  set (out := with_Join _ _).
  pose proof (lower_node_emitted s out prev gs w Hir eq_refl eq_refl) as He.
  destruct (lower_node _ _ _ _ _ _) as [o1 w1]. destruct (lower_leaves _ _ _) as [cs w2].
  intros [= <- <-]. by apply (emitted_ext prev s _ o1).
Qed.

Lemma lowerForeachStep_emitted many s prev gs w f w' :
  is_ir_node s = false -> lowerForeachStep idx many s prev (guard_of gs) w = Ok (f, w') ->
  emitted prev s (gs ++ [st_If s]) f.
Proof.
  intros Hir. unfold lowerForeachStep. destruct (is_empty (st_ID s)); [done|].
  set (out := with_FailFast _ _).
  pose proof (lower_node_emitted s out prev gs w Hir eq_refl eq_refl) as He.
  destruct (lower_node _ _ _ _ _ _) as [o1 w1]. cbn [fst] in He.
  destruct (parseForEachExpr _) as [[items stepID] field].
  set (w2 := if _ && _ then _ else w1). clearbody w2.
  destruct (st_SubSteps s) as [|b [|b2 bs]].
  - intros [= <- <-]. by apply (emitted_ext prev s _ o1).
  - destruct (lowerLeafStep _ _ _ _ _) as [inner w3]. intros [= <- <-]. by apply (emitted_ext prev s _ o1).
  - intros ([inner w3] & _ & [= <- <-])%bind_Ok. by apply (emitted_ext prev s _ o1).
Qed.

Lemma ir_node_emitted s prev gs :
  is_ir_node s = true ->
  emitted prev s gs (match st_DependsOn s, st_SeqDependsOn s with
                     | [], [] => seq_after prev s
                     | _, _ => s
                     end).
Proof.
  intros Hir. destruct (seq_after_fields prev s) as (S1 & S2 & S3 & S4 & S5 & S6).
  destruct (st_DependsOn s) as [|d ds] eqn:E1; [destruct (st_SeqDependsOn s) as [|e es] eqn:E2|].
  - split; rewrite ?Hir; try done; [by rewrite S4; destruct (st_OnReject s)|].
    intros Hp. right. rewrite S6 by done. done.
  - split; rewrite ?Hir; try done; [by destruct (st_OnReject s)|]. intros Hp. right. by rewrite E2.
  - split; rewrite ?Hir; try done; [by destruct (st_OnReject s)|]. intros Hp. left. by rewrite E1.
Qed.

Lemma leaves_single s gs : is_group s = false -> leaves gs s = [(s, gs ++ [st_If s])].
Proof. intros H. destruct s. cbn [leaves]. by rewrite H. Qed.

Definition lowers_flat (s : StepConfig) : Prop := forall prev gs w out w',
  lower_step idx s prev (guard_of gs) w = Ok (out, w') -> flattened prev (leaves gs s) out.

Lemma lower_list_flat steps prev gs w out w' :
  Forall lowers_flat steps -> lower_list (lower_step idx) steps prev (guard_of gs) w = Ok (out, w') ->
  flattened prev (forest gs steps) out.
Proof.
  intros H. revert prev w out w'. induction H as [|s steps Hs _ IH]; intros prev w out w'; cbn [lower_list].
  - intros [= <- <-]. constructor.
  - intros ([flat w1] & H1 & ([rest w2] & H2 & [= <- <-])%bind_Ok)%bind_Ok.
    unfold forest. simpl. apply flattened_app; [by eapply Hs|by eapply IH].
Qed.

Lemma flattened_one prev s gs f : emitted prev s gs f -> flattened prev [(s, gs)] [f].
Proof. intros He. constructor; [done|constructor]. Qed.

Lemma lower_step_flat s : lowers_flat s.
Proof.
  induction s as [s Hsub Hpar _] using step_tree_ind. intros prev gs w out w'.
  assert (lower_step idx s prev (guard_of gs) w =
    if negb (is_empty (st_ForEachExpr s)) then
      '(flat, w) ← lowerForeachStep idx (fun body w => lower_list (lower_step idx) body "" "" w) s prev (guard_of gs) w;
      Ok ([flat], w)
    else if bool_decide (st_Type s = StepTypeParallel) || bool_decide (st_Type s = StepTypeForeach) then
      Ok ([match st_DependsOn s, st_SeqDependsOn s with [], [] => seq_after prev s | _, _ => s end], w)
    else match st_ParallelSteps s, st_SubSteps s with
         | _ :: _, _ => '(flat, w) ← lowerParallelStep idx s prev (guard_of gs) w; Ok ([flat], w)
         | [], (_ :: _) as children =>
             let '(own, w) := rewriteExpr idx (st_If s) w in
             lower_list (lower_step idx) children prev (composeCond (guard_of gs) own) w
         | [], [] => let '(flat, w) := lowerLeafStep idx s prev (guard_of gs) w in Ok ([flat], w)
         end) as -> by (by destruct s).
  destruct (is_empty (st_ForEachExpr s)) eqn:Efe; simpl negb; cbv iota.
  2:{ intros ([f w1] & H1 & [= <- <-])%bind_Ok.
      assert (is_ir_node s = false) as Hir by (unfold is_ir_node; by rewrite Efe).
      rewrite leaves_single by (unfold is_group; by rewrite Efe).
      apply flattened_one. by eapply lowerForeachStep_emitted. }
  destruct (_ || _) eqn:Ety.
  { assert (is_ir_node s = true) as Hir by (unfold is_ir_node; by rewrite Efe, Ety).
    intros [= <- <-]. rewrite leaves_single by (unfold is_group; by rewrite Hir, andb_false_r).
    apply flattened_one. by apply ir_node_emitted. }
  assert (is_ir_node s = false) as Hir by (unfold is_ir_node; by rewrite Efe, Ety).
  destruct (st_ParallelSteps s) as [|p ps] eqn:Ep.
  2:{ intros ([f w1] & H1 & [= <- <-])%bind_Ok.
      rewrite leaves_single by (unfold is_group; rewrite Ep; by rewrite andb_false_r).
      apply flattened_one. by eapply lowerParallelStep_emitted. }
  destruct (st_SubSteps s) as [|c cs] eqn:Es.
  - pose proof (lowerLeafStep_emitted s prev gs w Hir) as He.
    destruct (lowerLeafStep _ _ _ _ _) as [f w1]. intros [= <- <-].
    rewrite leaves_single by (unfold is_group; rewrite Es; by rewrite andb_false_r).
    by apply flattened_one.
  - pose proof (rewriteExpr_text (st_If s) w) as Ht. destruct (rewriteExpr idx (st_If s) w) as [own w1].
    simpl in Ht. subst own. rewrite composeCond_guard. intros H.
    assert (is_group s = true) as Hg by (unfold is_group; rewrite Efe, Hir, Ep, Es; done).
    assert (leaves gs s = forest (gs ++ [st_If s]) (st_SubSteps s)) as ->.
    { destruct s. cbn [leaves]. rewrite Hg. done. }
    rewrite Es. eapply lower_list_flat; [exact Hsub|exact H].
Qed.
End flatten.

(** ** White space around an expression *)

Lemma tight_compose a b : tight (composeCond a b).
Proof.
  unfold composeCond. destruct (is_empty _ && is_empty _); [done|].
  destruct (is_empty (trim_space a)); [apply tight_trim|]. destruct (is_empty (trim_space b)); [apply tight_trim|].
  split; [done|].
  assert ("(" +:+ trim_space a +:+ ") and (" +:+ trim_space b +:+ ")"
    = ("(" +:+ trim_space a +:+ ") and (" +:+ trim_space b) +:+ ")") as ->.
  { by rewrite <- !append_assoc. }
  by rewrite rev_app_distr.
Qed.

(** A text that parses carries no wrapper. *)
Lemma strip_parsed s e : tight s -> ParseExpr s = Ok e -> stripExprDelimiters s = s.
Proof.
  intros Ht Hp. unfold stripExprDelimiters. rewrite trim_tight by done.
  destruct (has_prefix s "${{" && has_suffix s "}}") eqn:E; [|done]. exfalso.
  apply andb_true_iff in E as [E _]. destruct s as [|c s]; [done|]. unfold has_prefix in E.
  cbn [String.prefix] in E. destruct (ascii_dec "$" c) as [<-|]; [|done]. unfold ParseExpr, lex in Hp. cbn in Hp. discriminate Hp.
Qed.

(** ** The meaning of the guards *)

Section guards.
Context {RT : GoRuntime} (idx : gmap string StepConfig) (ctx : EvalContext).

(** The scheduler's test of a step's condition: no condition always holds. *)
Definition condition_holds (cond : string) : result (parseError + evalError) bool :=
  if is_empty cond then Ok true else evalExpr cond ctx.

(** The authored guards one by one, outermost first, up to the first that does
    not hold. *)
Fixpoint guards_hold (gs : list string) : result (parseError + evalError) bool :=
  match gs with
  | [] => Ok true
  | g :: gs =>
      v ← condition_holds (trim_space (lowered_text idx g));
      if (v : bool) then guards_hold gs else Ok false
  end.

(** A guard is absent or parses on its own. *)
Definition guard_parses (g : string) : Prop :=
  let e := trim_space (lowered_text idx g) in e = "" \/ exists n, ParseExpr e = Ok n.

Lemma evalExpr_parsed s n :
  tight s -> ParseExpr s = Ok n ->
  evalExpr s ctx = match Eval n ctx with Err e => Err (inr e) | Ok b => Ok b end.
Proof. intros Ht Hp. unfold evalExpr. by rewrite (strip_parsed s n Ht Hp), Hp. Qed.

Lemma parsed_not_empty s n : ParseExpr s = Ok n -> is_empty s = false.
Proof. intros H. apply is_empty_false. intros ->. done. Qed.

(** Adding one guard. *)
Lemma condition_compose a b :
  tight a -> (a = "" \/ exists n, ParseExpr a = Ok n) ->
  trim_space b = "" \/ (exists n, ParseExpr (trim_space b) = Ok n) ->
  condition_holds (composeCond a b)
    = (v ← condition_holds a; if (v : bool) then condition_holds (trim_space b) else Ok false)
  /\ (composeCond a b = "" \/ exists n, ParseExpr (composeCond a b) = Ok n).
Proof.
  intros Ha Hpa Hpb. destruct Hpa as [->|[na Hna]].
  { assert (composeCond "" b = trim_space b) as ->.
    { unfold composeCond. rewrite trim_empty. simpl. destruct (is_empty (trim_space b)) eqn:E; [|done].
      by apply is_empty_true in E. }
    by split. }
  pose proof (parsed_not_empty _ _ Hna) as Hea. destruct Hpb as [Hb|[nb Hnb]].
  { assert (composeCond a b = a) as ->.
    { unfold composeCond. rewrite (trim_tight a Ha), Hb, Hea. done. }
    rewrite Hb. split; [|eauto]. destruct (condition_holds a) as [[]|]; done. }
  pose proof (composeCond_parse a b na nb) as Hc. rewrite (trim_tight a Ha) in Hc.
  specialize (Hc Hna Hnb). split; [|eauto]. unfold condition_holds.
  rewrite (parsed_not_empty _ _ Hc), Hea, (parsed_not_empty _ _ Hnb).
  rewrite (evalExpr_parsed _ _ (tight_compose _ _) Hc), (evalExpr_parsed _ _ Ha Hna),
    (evalExpr_parsed _ _ (tight_trim _) Hnb).
  simpl. rsimpl. destruct (Eval na ctx) as [[]|]; [|done..]. by destruct (Eval nb ctx).
Qed.

Lemma guard_of_tight gs : tight (guard_of idx gs).
Proof.
  unfold guard_of. induction gs as [|g gs _] using rev_ind; [done|]. rewrite foldl_app. simpl. apply tight_compose.
Qed.

Lemma guards_hold_app gs g :
  guards_hold (gs ++ [g])
  = (v ← guards_hold gs; if (v : bool) then condition_holds (trim_space (lowered_text idx g)) else Ok false).
Proof.
  induction gs as [|h gs IH]; simpl.
  - rsimpl. destruct (condition_holds _) as [[]|]; done.
  - rewrite IH. rsimpl. destruct (condition_holds (trim_space (lowered_text idx h))) as [[]|]; done.
Qed.

(** The composed condition means the guards in turn. *)
Lemma guard_of_meaning gs :
  Forall guard_parses gs ->
  condition_holds (guard_of idx gs) = guards_hold gs
  /\ (guard_of idx gs = "" \/ exists n, ParseExpr (guard_of idx gs) = Ok n).
Proof.
  induction gs as [|g gs IH] using rev_ind; [by split; [|left]|].
  intros [H1 H2]%Forall_app. pose proof (proj1 (Forall_singleton _ _) H2) as H3. clear H2. rename H3 into H2. destruct (IH H1) as [E P].
  unfold guard_of. rewrite foldl_app. cbn [foldl]. fold (guard_of idx gs).
  destruct (condition_compose (guard_of idx gs) (lowered_text idx g) (guard_of_tight gs) P H2) as [C1 C2].
  split; [|exact C2]. by rewrite C1, guards_hold_app, E.
Qed.
End guards.

(** ** The lowered workflow *)

Lemma applyPending_fields w s :
  let f := applyPendingWritesToStep w s in
  st_ID f = st_ID s /\ st_Condition f = st_Condition s /\ st_FailWhen f = st_FailWhen s
  /\ st_OnFail f = st_OnFail s /\ st_DependsOn f = st_DependsOn s /\ st_SeqDependsOn f = st_SeqDependsOn s
  /\ st_Memory f = wire_memory (default [] (w !! st_ID s)) (st_Memory s).
Proof. by destruct s. Qed.

Lemma flattened_wired idx w prev L out :
  flattened idx prev L out -> flattened idx prev L (applyPendingWrites w out).
Proof.
  induction 1 as [prev|prev s gs f L out He _ IH]; [constructor|].
  destruct (applyPending_fields w f) as (F1 & F2 & F3 & F4 & F5 & F6 & _).
  unfold applyPendingWrites in *. simpl map. constructor; [by apply (emitted_ext idx prev s gs f)|].
  by rewrite F1.
Qed.

Lemma lowered_flat wf wf' :
  anyV2Steps (wc_Steps wf) = true -> LowerV2Workflow wf = Ok wf' ->
  flattened (buildStepIndex (wc_Steps wf)) "" (forest [] (wc_Steps wf)) (wc_Steps wf').
Proof.
  unfold LowerV2Workflow. intros ->. cbn [negb].
  intros ([out w] & H & [= <-])%bind_Ok. simpl. apply flattened_wired. unfold lowerSteps in H.
  assert ("" = guard_of (buildStepIndex (wc_Steps wf)) []) as Hg by done. rewrite Hg in H at 2.
  eapply lower_list_flat; [|exact H]. apply Forall_forall. intros s _. apply lower_step_flat.
Qed.

Lemma flattened_length idx prev L out : flattened idx prev L out -> length L = length out.
Proof. induction 1; simpl; congruence. Qed.

Lemma flattened_lookup idx prev L out i s gs f :
  flattened idx prev L out -> L !! i = Some (s, gs) -> out !! i = Some f ->
  emitted idx (match i with 0 => prev | S j => from_option st_ID "" (out !! j) end) s gs f.
Proof.
  intros H. revert i. induction H as [prev|prev s' gs' f' L out He _ IH]; intros i; [done|].
  destruct i as [|i]; simpl; [by intros [= -> ->] [= ->]|]. intros H1 H2. specialize (IH i H1 H2).
  destruct i; exact IH.
Qed.

(** C23: lowering flattens the authored tree to its leaves in their order. The
    step emitted for a leaf keeps its id, gets as condition the conjunction of
    the guards of the groups around it and its own, whose value is that of the
    guards in turn when each is absent or parses; its rejection gate and its
    loop-back become [fail_when] and [on_fail]; and it depends on the step
    before it. A node that is already in lowered form keeps what it has. *)
Theorem LowerV2Workflow_flattens {RT : GoRuntime} (wf wf' : WorkflowConfig)
    (Hv2 : anyV2Steps (wc_Steps wf) = true) (Hlow : LowerV2Workflow wf = Ok wf') :
  let idx := buildStepIndex (wc_Steps wf) in
  length (wc_Steps wf') = length (forest [] (wc_Steps wf))
  /\ forall i s gs f, forest [] (wc_Steps wf) !! i = Some (s, gs) -> wc_Steps wf' !! i = Some f ->
       st_ID f = st_ID s
       /\ (is_ir_node s = false ->
           (forall ctx, Forall (guard_parses idx) gs ->
              condition_holds ctx (st_Condition f) = guards_hold idx ctx gs)
           /\ (st_RejectWhen s <> "" -> st_FailWhen f = lowered_text idx (st_RejectWhen s))
           /\ (forall o, st_OnReject s = Some o ->
                 st_OnFail f = Some {| so_Goto := or_RestartFrom o; so_MaxRetries := or_Max o |}))
       /\ (forall p, 0 < i -> wc_Steps wf' !! (i - 1) = Some p -> st_ID p <> "" ->
             all_deps f <> [] /\ (is_ir_node s = false -> st_DependsOn f = [] -> st_SeqDependsOn f = [st_ID p])).
Proof.
  intros idx. pose proof (lowered_flat wf wf' Hv2 Hlow) as Hf. fold idx in Hf.
  split; [symmetry; by eapply flattened_length|]. intros i s gs f Hs Hi.
  destruct (flattened_lookup _ _ _ _ i s gs f Hf Hs Hi) as [E1 E2 E3 E4 E5].
  split; [done|split].
  - intros Hir. rewrite Hir in *. split_and!.
    + intros ctx Hgs. rewrite E2. by apply guard_of_meaning.
    + intros Hr%is_empty_false. by rewrite E3, Hr.
    + intros o Ho. by rewrite E4, Ho.
  - intros p Hpos Hp Hne. destruct i as [|i]; [lia|]. rewrite Nat.sub_succ, Nat.sub_0_r in Hp.
    rewrite Hp in E5. simpl in E5. unfold all_deps. destruct (E5 Hne) as [Hd|[Hsd Hseq]].
    + split; [|done]. by destruct (st_DependsOn f).
    + split; [|auto]. by destruct (st_DependsOn f).
Qed.

(** ** A witness *)

Definition verdict_schema : OutputSchema := {| os_Type := "object"; os_Properties := {[ "verdict" := mkField "string" [] None ∅ [] ]}; os_Required := [] |}.

(** A review gate and a deployment inside a guarded group, after a plan. *)
Definition grouped_workflow : WorkflowConfig := workflow_of
  [step_of "plan" "agent" [];
   with_SubSteps
     [with_OnReject (Some {| or_RestartFrom := "plan"; or_Max := 2 |})
        (with_RejectWhen "${{ review.verdict == 'no' }}"
           (with_Output (Some verdict_schema) (step_of "review" "agent" [])));
      with_If "cell.priority == 'high'" (step_of "ship" "agent" [])]
     (with_If "cell.type == 'issue'" (zero_step ""))].

Definition grouped_lowered : WorkflowConfig :=
  match LowerV2Workflow grouped_workflow with Ok wf => wf | Err _ => grouped_workflow end.

Lemma grouped_lowers : LowerV2Workflow grouped_workflow = Ok grouped_lowered.
Proof. vm_compute. reflexivity. Qed.

Lemma grouped_ids : st_ID <$> wc_Steps grouped_lowered = ["plan"; "review"; "ship"].
Proof. vm_compute. reflexivity. Qed.

Lemma grouped_third : wc_Steps grouped_lowered !! 2 <> None.
Proof.
  intros H%lookup_ge_None. pose proof (f_equal length grouped_ids) as Hl. rewrite length_fmap in Hl.
  rewrite Hl in H. vm_compute in H. lia.
Qed.

Definition ship_step : StepConfig := with_If "cell.priority == 'high'" (step_of "ship" "agent" []).

Definition ship_guards : list string := ["cell.type == 'issue'"; "cell.priority == 'high'"].

Lemma ship_leaf : forest [] (wc_Steps grouped_workflow) !! 2 = Some (ship_step, ship_guards).
Proof. reflexivity. Qed.

Lemma ship_guards_parse : Forall (guard_parses (buildStepIndex (wc_Steps grouped_workflow))) ship_guards.
Proof.
  apply Forall_forall. intros g Hg. unfold ship_guards in Hg. rewrite !elem_of_cons, elem_of_nil in Hg.
  destruct Hg as [->|[->|[]]]; right; vm_compute; eauto.
Qed.

(** The deployment runs under both guards, after the review. *)
Lemma LowerV2Workflow_flattens_witness :
  match wc_Steps grouped_lowered !! 2 with
  | Some f => st_ID f = "ship" /\ forall ctx : EvalContext,
      @condition_holds literal_runtime ctx (st_Condition f)
      = @guards_hold literal_runtime (buildStepIndex (wc_Steps grouped_workflow)) ctx ship_guards
  | None => False
  end.
Proof.
  pose proof grouped_third as Hn. destruct (wc_Steps grouped_lowered !! 2) as [f|] eqn:Ef; [|by apply Hn].
  destruct (@LowerV2Workflow_flattens literal_runtime grouped_workflow grouped_lowered eq_refl grouped_lowers)
    as [_ H].
  destruct (H 2 ship_step ship_guards f ship_leaf Ef) as (Hid & Hg & _). split; [exact Hid|]. intros ctx.
  apply (Hg eq_refl). exact ship_guards_parse.
Defined.

(** ** Lowering is settled

    Lowering the lowered workflow changes nothing: what the pass emits carries
    no authored field, and the edges it adds are those it would add again. *)

(** ** Lowering twice *)

(** A child a parallel group can run: no group of its own. *)
Definition plain_child (c : StepConfig) : bool :=
  is_empty (st_ForEachExpr c) && bool_decide (st_ParallelSteps c = []) && bool_decide (st_SubSteps c = []).

(** The trees lowering settles: parallel children are leaves, and a node already
    in lowered form carries no authored field. *)
Fixpoint settles (s : StepConfig) : bool :=
  if negb (is_empty (st_ForEachExpr s)) then true
  else if is_ir_node s then negb (anyV2Step s)
  else forallb plain_child (st_ParallelSteps s) && forallb settles (st_SubSteps s).

Lemma anyV2Step_eq s :
  anyV2Step s = IsV2Step s || existsb anyV2Step (st_SubSteps s) || existsb anyV2Step (st_ParallelSteps s).
Proof. by destruct s. Qed.

Lemma IsV2Step_clear s :
  st_If s = "" -> st_RejectWhen s = "" -> st_OnReject s = None -> st_SubSteps s = [] -> st_ParallelSteps s = [] ->
  st_ForEachExpr s = "" -> st_Output s = None -> IsV2Step s = false.
Proof. intros H1 H2 H3 H4 H5 H6 H7. unfold IsV2Step. rewrite H1, H2, H3, H4, H5, H6, H7. apply andb_false_r. Qed.

Section twice.
Context (idx : gmap string StepConfig).

(** The authored fields of an emitted leaf are gone. *)
Lemma lower_gate_authored s out w :
  let f := (lower_gate idx s out w).1 in
  st_If f = st_If out /\ st_SubSteps f = st_SubSteps out /\ st_ParallelSteps f = st_ParallelSteps out
  /\ st_ForEachExpr f = st_ForEachExpr out /\ st_Output f = st_Output out /\ st_Type f = st_Type out
  /\ st_RejectWhen f = st_RejectWhen out /\ st_OnReject f = st_OnReject out.
Proof.
  unfold lower_gate. destruct (rewriteExpr idx (st_RejectWhen s) w) as [e w'].
  destruct (is_empty (st_RejectWhen s)), (st_OnReject s); done.
Qed.

Lemma leaf_authored s prev inh w :
  let f := (lowerLeafStep idx s prev inh w).1 in
  st_If f = "" /\ st_RejectWhen f = "" /\ st_OnReject f = None /\ st_Output f = None
  /\ st_SubSteps f = st_SubSteps s /\ st_ParallelSteps f = st_ParallelSteps s
  /\ st_ForEachExpr f = st_ForEachExpr s.
Proof.
  unfold lowerLeafStep. destruct (rewriteExpr idx (st_If s) w) as [own w1].
  set (o1 := match st_DependsOn s with [] => seq_after prev s | _ => s end).
  assert (st_SubSteps o1 = st_SubSteps s /\ st_ParallelSteps o1 = st_ParallelSteps s
          /\ st_ForEachExpr o1 = st_ForEachExpr s) as (A1 & A2 & A3).
  { unfold o1, seq_after. destruct (st_DependsOn s), (is_empty prev); done. }
  clearbody o1. set (o2 := match st_OutputSchema o1 with None => with_OutputSchema (st_Output o1) o1 | Some _ => o1 end).
  assert (st_SubSteps o2 = st_SubSteps s /\ st_ParallelSteps o2 = st_ParallelSteps s
          /\ st_ForEachExpr o2 = st_ForEachExpr s) as (B1 & B2 & B3).
  { unfold o2. by destruct (st_OutputSchema o1). }
  clearbody o2. set (o3 := with_If "" _).
  pose proof (lower_gate_authored s o3 w1) as (G1 & G2 & G3 & G4 & G5 & _).
  destruct (lower_gate _ _ _ _) as [o4 w2]. cbn [fst] in *.
  rewrite <- B1, <- B2, <- B3.
  destruct (_ && _); cbn [fst]; (split_and!; [exact G1|done|done|exact G5|exact G2|exact G3|exact G4]).
Qed.

Lemma leaf_settled s prev inh w :
  plain_child s = true -> anyV2Step (lowerLeafStep idx s prev inh w).1 = false.
Proof.
  unfold plain_child. rewrite !andb_true_iff, is_empty_true, !bool_decide_eq_true. intros [[H1 H2] H3].
  destruct (leaf_authored s prev inh w) as (E1 & E2 & E3 & E4 & E5 & E6 & E7).
  assert (IsV2Step (lowerLeafStep idx s prev inh w).1 = false) as HV.
  { apply IsV2Step_clear; rewrite ?E5, ?E6, ?E7; done. }
  rewrite anyV2Step_eq, HV, E5, E6, H2, H3. done.
Qed.

Lemma leaves_settled cs w :
  forallb plain_child cs = true -> existsb anyV2Step (lower_leaves idx cs w).1 = false.
Proof.
  revert w. induction cs as [|c cs IH]; intros w; [done|]. simpl. intros [Hc Hcs]%andb_true_iff.
  pose proof (leaf_settled c "" "" w Hc) as Hl. destruct (lowerLeafStep _ _ _ _ _) as [f w1].
  specialize (IH w1 Hcs). destruct (lower_leaves _ _ _) as [out w2]. simpl in *. by rewrite Hl.
Qed.

Lemma node_type s out prev inh w :
  let f := (lower_node idx s out prev inh w).1 in
  st_Type f = st_Type out /\ st_ParallelSteps f = st_ParallelSteps out /\ st_SubSteps f = st_SubSteps out
  /\ (st_If out = "" -> st_RejectWhen out = "" -> st_OnReject out = None -> st_Output out = None ->
      st_ForEachExpr out = "" ->
      st_If f = "" /\ st_RejectWhen f = "" /\ st_OnReject f = None /\ st_Output f = None /\ st_ForEachExpr f = "").
Proof.
  unfold lower_node. destruct (rewriteExpr idx (st_If s) w) as [own w1]. set (o1 := with_OnFail _ _).
  pose proof (lower_gate_authored s o1 w1) as (G1 & G2 & G3 & G4 & G5 & G6 & G7 & G8).
  destruct (lower_gate _ _ _ _) as [o2 w2]. cbn [fst] in *. rewrite G1, G2, G3, G4, G5, G6, G7, G8.
  unfold o1, seq_after. by destruct (is_empty prev).
Qed.

Lemma parallel_settled s prev inh w f w' :
  forallb plain_child (st_ParallelSteps s) = true -> lowerParallelStep idx s prev inh w = Ok (f, w') ->
  anyV2Step f = false.
Proof.
  intros Hp. unfold lowerParallelStep. destruct (is_empty (st_ID s)); [done|]. set (out := with_Join _ _).
  pose proof (node_type s out prev inh w) as (H1 & H2 & _ & _).
  destruct (lower_node _ _ _ _ _ _) as [o1 w1]. cbn [fst] in *.
  pose proof (leaves_settled (st_ParallelSteps s) w1 Hp) as Hl. destruct (lower_leaves _ _ _) as [cs w2].
  intros [= <- <-]. rewrite anyV2Step_eq. simpl in *.
  change (IsV2Step (with_SubSteps cs o1) || existsb anyV2Step cs || existsb anyV2Step (st_ParallelSteps o1) = false).
  rewrite Hl, H2. unfold IsV2Step.
  change (st_Type (with_SubSteps cs o1)) with (st_Type o1). by rewrite H1.
Qed.

Lemma foreach_settled many s prev inh w f w' :
  lowerForeachStep idx many s prev inh w = Ok (f, w') -> anyV2Step f = false.
Proof.
  unfold lowerForeachStep. destruct (is_empty (st_ID s)); [done|]. set (out := with_FailFast _ _).
  pose proof (node_type s out prev inh w) as (H1 & H2 & H3 & H4).
  destruct (H4 eq_refl eq_refl eq_refl eq_refl eq_refl) as (F1 & F2 & F3 & F4 & F5). clear H4.
  destruct (lower_node _ _ _ _ _ _) as [o1 w1]. cbn [fst] in *.
  destruct (parseForEachExpr _) as [[items stepID] field].
  set (o2 := with_Items items _).
  assert (forall i, anyV2Step o2 = false /\ anyV2Step (with_Step i o2) = false) as Hset.
  { intros i. split; rewrite anyV2Step_eq, IsV2Step_clear; unfold o2; simpl; try done; by rewrite H2, H3. }
  clearbody o2. set (w2 := if _ && _ then _ else w1). clearbody w2.
  destruct (st_SubSteps s) as [|b [|b2 bs]].
  - intros [= <- <-]. by apply (Hset None).
  - destruct (lowerLeafStep _ _ _ _ _) as [inner w3]. intros [= <- <-]. apply Hset.
  - intros ([inner w3] & _ & [= <- <-])%bind_Ok. apply Hset.
Qed.

Lemma lower_list_settled steps prev inh w out w' :
  Forall (fun s => settles s = true -> forall prev inh w out w',
    lower_step idx s prev inh w = Ok (out, w') -> existsb anyV2Step out = false) steps ->
  forallb settles steps = true -> lower_list (lower_step idx) steps prev inh w = Ok (out, w') ->
  existsb anyV2Step out = false.
Proof.
  intros H. revert prev w out w'. induction H as [|s steps Hs _ IH]; intros prev w out w'; cbn [lower_list forallb].
  { by intros _ [= <- <-]. }
  intros [H1 H2]%andb_true_iff ([flat w1] & L1 & ([rest w2] & L2 & [= <- <-])%bind_Ok)%bind_Ok.
  rewrite existsb_app. by rewrite (Hs H1 _ _ _ _ _ L1), (IH _ _ _ _ H2 L2).
Qed.

Lemma lower_step_eq s prev inh w :
  lower_step idx s prev inh w =
    if negb (is_empty (st_ForEachExpr s)) then
      '(flat, w) ← lowerForeachStep idx (fun body w => lower_list (lower_step idx) body "" "" w) s prev inh w;
      Ok ([flat], w)
    else if bool_decide (st_Type s = StepTypeParallel) || bool_decide (st_Type s = StepTypeForeach) then
      Ok ([match st_DependsOn s, st_SeqDependsOn s with [], [] => seq_after prev s | _, _ => s end], w)
    else match st_ParallelSteps s, st_SubSteps s with
         | _ :: _, _ => '(flat, w) ← lowerParallelStep idx s prev inh w; Ok ([flat], w)
         | [], (_ :: _) as children =>
             let '(own, w) := rewriteExpr idx (st_If s) w in
             lower_list (lower_step idx) children prev (composeCond inh own) w
         | [], [] => let '(flat, w) := lowerLeafStep idx s prev inh w in Ok ([flat], w)
         end.
Proof. by destruct s. Qed.

Lemma lower_step_settled s : settles s = true -> forall prev inh w out w',
  lower_step idx s prev inh w = Ok (out, w') -> existsb anyV2Step out = false.
Proof.
  induction s as [s Hsub _ _] using step_tree_ind. intros Hset prev inh w out w'. rewrite lower_step_eq.
  assert (settles s = if negb (is_empty (st_ForEachExpr s)) then true
    else if is_ir_node s then negb (anyV2Step s)
    else forallb plain_child (st_ParallelSteps s) && forallb settles (st_SubSteps s)) as Hs by (by destruct s).
  rewrite Hs in Hset. clear Hs. destruct (is_empty (st_ForEachExpr s)) eqn:Efe; simpl negb in *; cbv iota in *.
  2:{ intros ([f w1] & H1 & [= <- <-])%bind_Ok. simpl. by rewrite (foreach_settled _ _ _ _ _ _ _ H1). }
  unfold is_ir_node in Hset. rewrite Efe in Hset. cbn [andb] in Hset. destruct (_ || _).
  { intros [= <- <-]. apply negb_true_iff in Hset. simpl. rewrite orb_false_r. unfold seq_after.
    destruct (st_DependsOn s), (st_SeqDependsOn s), (is_empty prev); rewrite anyV2Step_eq in *; exact Hset. }
  apply andb_true_iff in Hset as [Hpar Hrec].
  destruct (st_ParallelSteps s) as [|p ps] eqn:Ep.
  2:{ intros ([f w1] & H1 & [= <- <-])%bind_Ok. simpl.
      rewrite (parallel_settled s prev inh w f w1); [done| |exact H1]. by rewrite Ep. }
  destruct (st_SubSteps s) as [|c cs] eqn:Es.
  - pose proof (leaf_settled s prev inh w) as He. destruct (lowerLeafStep _ _ _ _ _) as [f w1].
    intros [= <- <-]. simpl in *. rewrite He; [done|]. unfold plain_child. by rewrite Efe, Ep, Es.
  - destruct (rewriteExpr idx (st_If s) w) as [own w1]. by apply lower_list_settled.
Qed.
End twice.

Lemma IsV2_wired w s : IsV2Step (applyPendingWritesToStep w s) = IsV2Step s.
Proof.
  destruct s. unfold IsV2Step. simpl.
  assert (forall l, bool_decide (map (applyPendingWritesToStep w) l = []) = bool_decide (l = [])) as Hm.
  { intros l. apply bool_decide_ext. by destruct l. }
  by rewrite !Hm.
Qed.

Lemma anyV2_wired w s : anyV2Step (applyPendingWritesToStep w s) = anyV2Step s.
Proof.
  induction s as [s Hsub Hpar _] using step_tree_ind. rewrite !anyV2Step_eq, IsV2_wired.
  assert (forall l, Forall (fun s => anyV2Step (applyPendingWritesToStep w s) = anyV2Step s) l ->
    existsb anyV2Step (map (applyPendingWritesToStep w) l) = existsb anyV2Step l) as Hl.
  { induction 1 as [|x l Hx _ IH]; [done|]. simpl. by rewrite Hx, IH. }
  assert (st_SubSteps (applyPendingWritesToStep w s) = map (applyPendingWritesToStep w) (st_SubSteps s)
    /\ st_ParallelSteps (applyPendingWritesToStep w s) = map (applyPendingWritesToStep w) (st_ParallelSteps s))
    as [-> ->] by (by destruct s).
  by rewrite !Hl.
Qed.

Lemma anyV2_sequenced splits prev steps :
  existsb anyV2Step (sequence_from splits prev steps) = existsb anyV2Step steps.
Proof.
  revert prev. induction steps as [|s steps IH]; intros prev; [done|]. simpl. rewrite IH. f_equal.
  unfold sequence_step. rewrite (anyV2Step_eq s).
  destruct (st_DependsOn s), (st_SeqDependsOn s), (splits !! st_ID s), (is_empty prev); by rewrite anyV2Step_eq.
Qed.

(** A list whose later steps have dependencies is left alone. *)
Lemma sequence_chained splits prev steps :
  (forall i s, steps !! i = Some s -> all_deps s <> [] \/ i = 0 /\ prev = "" /\ splits !! st_ID s = None) ->
  sequence_from splits prev steps = steps.
Proof.
  intros H. assert (forall s prev, all_deps s <> [] \/ prev = "" /\ splits !! st_ID s = None ->
    sequence_step splits prev s = s) as Hstep.
  { intros s p. unfold sequence_step, all_deps. destruct (st_DependsOn s); [|done].
    destruct (st_SeqDependsOn s); [|done]. intros [|[-> ->]]; done. }
  destruct steps as [|s steps]; [done|]. simpl.
  rewrite Hstep by (destruct (H 0 s eq_refl) as [|(_ & ? & ?)]; auto). f_equal.
  generalize (if is_empty (st_ID s) then prev else st_ID s).
  assert (forall i t, steps !! i = Some t -> all_deps t <> []) as Hrest.
  { intros i t Ht. by destruct (H (S i) t Ht) as [|[? _]]. }
  clear H. induction steps as [|t steps IH]; intros p; [done|]. simpl.
  rewrite Hstep by (left; by apply (Hrest 0)). f_equal. apply IH. intros i u Hu. by apply (Hrest (S i)).
Qed.

(** Lowering is idempotent: on a tree whose parallel children are leaves and
    whose already lowered nodes carry no authored field, lowering the result
    again, its steps being named and distinct, changes nothing. *)
Theorem LowerV2Workflow_idempotent (wf wf' : WorkflowConfig)
    (Hset : forallb settles (wc_Steps wf) = true) (Hlow : LowerV2Workflow wf = Ok wf')
    (Hnd : NoDup (st_ID <$> wc_Steps wf')) (Hnm : "" ∉ st_ID <$> wc_Steps wf') :
  LowerV2Workflow wf' = Ok wf'.
Proof.
  destruct (anyV2Steps (wc_Steps wf)) eqn:Hv2.
  - pose proof (lowered_flat wf wf' Hv2 Hlow) as Hf.
    assert (anyV2Steps (wc_Steps wf') = false) as Hno.
    { unfold LowerV2Workflow in Hlow. rewrite Hv2 in Hlow. cbn [negb] in Hlow.
      apply bind_Ok in Hlow as ([out w] & H & [= <-]). simpl. unfold anyV2Steps, applyPendingWrites.
      assert (existsb anyV2Step out = false) as Ho.
      { eapply lower_list_settled; [|exact Hset|exact H]. apply Forall_forall. intros s _. apply lower_step_settled. }
      rewrite <- Ho. clear. induction out as [|f out IH]; [done|]. simpl. by rewrite anyV2_wired, IH. }
    unfold LowerV2Workflow. rewrite Hno. cbn [negb]. f_equal.
    assert (sequenceSteps (wc_Steps wf') = wc_Steps wf') as ->; [|by destruct wf'].
    apply sequence_chained. intros i s Hi.
    assert (exists L, forest [] (wc_Steps wf) !! i = Some L) as [[t gs] HL].
    { apply lookup_lt_is_Some. rewrite (flattened_length _ _ _ _ Hf). by eapply lookup_lt_Some. }
    destruct (flattened_lookup _ _ _ _ i t gs s Hf HL Hi) as [_ _ _ _ E]. destruct i as [|i].
    + right. split_and!; [done..|]. destruct (splitFor (wc_Steps wf') !! st_ID s) as [sp|] eqn:Esp; [|done].
      apply splitFor_lookup in Esp as (a & b & _ & Hb & Hlt). exfalso.
      assert (b = 0) as ->; [|lia]. eapply NoDup_lookup; [exact Hnd|exact Hb|]. by rewrite list_lookup_fmap, Hi.
    + left. assert (exists p, wc_Steps wf' !! i = Some p) as [p Hp].
      { apply lookup_lt_is_Some. apply lookup_lt_Some in Hi. lia. }
      rewrite Hp in E. simpl in E. unfold all_deps. destruct E as [Hd|[Hd _]].
      * intros Hid. apply Hnm. rewrite <- Hid. apply list_elem_of_fmap_2. by eapply list_elem_of_lookup_2.
      * by destruct (st_DependsOn s).
      * by destruct (st_DependsOn s).
  - unfold LowerV2Workflow in Hlow |- *. rewrite Hv2 in Hlow. injection Hlow as <-. simpl.
    unfold anyV2Steps, sequenceSteps at 1. rewrite anyV2_sequenced. unfold anyV2Steps in Hv2. rewrite Hv2.
    cbn [negb]. by rewrite sequenceSteps_settled.
Qed.

Lemma LowerV2Workflow_idempotent_witness :
  LowerV2Workflow grouped_workflow = Ok grouped_lowered /\ LowerV2Workflow grouped_lowered = Ok grouped_lowered.
Proof.
  split; [exact grouped_lowers|]. apply (LowerV2Workflow_idempotent grouped_workflow grouped_lowered).
  - vm_compute. reflexivity.
  - exact grouped_lowers.
  - rewrite grouped_ids. apply (bool_decide_unpack _). vm_compute. exact I.
  - rewrite grouped_ids. apply (bool_decide_unpack _). vm_compute. exact I.
Defined.
