(* ===== verification/Resume.v ===== *)
(** * Resuming and rehydrating instances (src/internal/workflow/resume.go)

    An instance that failed or was interrupted is resumed as a descendant that
    carries the finished steps over from the rows of the original; an instance
    found parked after a restart is rebuilt the same way and parked again
    (approval.go [RehydrateApproval], wait_park.go [RehydrateWait]). The request
    handlers of src/internal/daemon/workflow_resume.go decide what may be
    resumed and preview it. *)

From stdpp Require Import base gmap strings list.
From Stdlib Require Import ZArith.
From S2P Require Import Prelude State Model Expr Config Graph Dag.

(** ** Step rows *)

(** [db.StepRun], the columns the resume code reads and writes. *)
Record StepRun := {
  rn_ID : string;
  rn_InstanceID : string;
  rn_StepID : string;
  rn_State : string;
  rn_SkippedReason : string;
  rn_Output : string;
  rn_Structured : string;
  rn_Summary : string;
  rn_SkippedCached : bool;
}.

(** Does the row count as a finished step? *)
Definition row_done (sr : StepRun) : bool := bool_decide (state.Normalize (rn_State sr) = state.Done).

Section restore.
Context {RT : GoRuntime}.

(** The structured output of a row: an error of the decoder leaves nothing. *)
Definition row_structured (sr : StepRun) : gmap string JValue :=
  if is_empty (rn_Structured sr) then ∅ else default ∅ (json_unmarshal_object (rn_Structured sr)).

(** [r.parentOfChild]. *)
Definition parentOfChild (wf : WorkflowConfig) : gmap string string :=
  foldl (fun m s => foldl (fun m c => <[st_ID c := st_ID s]> m) m (st_SubSteps s)) ∅
    (List.filter (is_type StepTypeParallel) (wc_Steps wf)).

(** [restoreParallelChild]. *)
Definition restoreParallelChild (child : StepConfig) (sr : StepRun) (r : dagRun) : dagRun :=
  match parentOfChild (r_wf r) !! st_ID child with
  | None => r
  | Some parent =>
      let res := {| sr_Success := true; sr_Output := rn_Output sr; sr_Structured := row_structured sr;
                    sr_Summary := rn_Summary sr; sr_Pending := false; sr_Conflict := false |} in
      set_parallelDone (<[parent := <[st_ID child := res]> (parallelSnapshot r parent)]> (r_parallelDone r)) r
  end.

(** What a finished row of the graph node [step] does to the run. *)
Definition restore_step (step : StepConfig) (sr : StepRun) (first : bool) (r : dagRun) : dagRun :=
  let r := put_state (st_ID step) stPassed r in
  let r := set_stepStates (<[st_ID step := {| ss_State := stPassed; ss_ExitCode := 0;
                                              ss_Output := rn_Output sr |}]> (r_stepStates r)) r in
  let r := set_contrib (<[st_ID step := {| ms_StepID := st_ID step; ms_WriteFields := MemoryWriteFields step;
                                           ms_Structured := row_structured sr;
                                           ms_Summary := rn_Summary sr |}]> (r_contrib r)) r in
  let r := if first then set_passedOrder (r_passedOrder r ++ [st_ID step]) r else r in
  if is_empty (st_OnPassNext step) then r else activate (st_OnPassNext step) r.

(** The body of the loop of [restoreCachedSteps]: the run, the ids [seen], the
    rows restored so far. *)
Definition restore_one (acc : dagRun * gset string * list StepRun) (sr : StepRun)
    : dagRun * gset string * list StepRun :=
  let '(r, seen, restored) := acc in
  if negb (row_done sr) then acc
  else match byID_map (r_wf r) !! rn_StepID sr with
       | None =>
           match childByID r !! rn_StepID sr with
           | Some child => (restoreParallelChild child sr r, seen, restored)
           | None => acc
           end
       | Some step =>
           if is_type StepTypeSplit step then acc
           else (restore_step step sr (negb (bool_decide (st_ID step ∈ seen))) r,
                 {[st_ID step]} ∪ seen, restored ++ [sr])
       end.

(** [restoreCachedSteps]. *)
Definition restoreCachedSteps (r : dagRun) (priorSteps : list StepRun) : dagRun * list StepRun :=
  let '(r, _, restored) := foldl restore_one (r, ∅, []) priorSteps in (r, restored).
End restore.

(** ** Selection *)

Inductive ResumeError :=
  | StepNotFound (step workflow : string)
  | StoreFailed.

(** [order] and [limit] of [resumeCacheSelection]: a repeated id counts where it
    is declared last. *)
Definition declared_at (wf : WorkflowConfig) : gmap string nat :=
  foldl (fun m '(i, s) => <[st_ID s := i]> m) ∅ (imap pair (wc_Steps wf)).

(** [resumeCacheSelection]. *)
Definition resumeCacheSelection (wf : WorkflowConfig) (prior : list StepRun) (fromStep : string)
    : result ResumeError (list StepRun) :=
  if is_empty fromStep then Ok prior
  else match declared_at wf !! fromStep with
       | None => Err (StepNotFound fromStep (wc_ID wf))
       | Some limit =>
           Ok (List.filter (fun sr => match declared_at wf !! rn_StepID sr with
                                      | Some i => i <? limit
                                      | None => false
                                      end) prior)
       end.

(** ** [ResumeInstance] *)

(** What the engine writes to the store. *)
Inductive StoreOp :=
  | OpCreateInstance (id resumedFrom : string)
  | OpSnapshot (id : string)
  | OpInstanceState (id state : string)
  | OpCreateStepRun (sr : StepRun).

(** The copy of a carried-over row. *)
Definition cached_row (id instID : string) (sr : StepRun) : StepRun := {|
  rn_ID := id; rn_InstanceID := instID; rn_StepID := rn_StepID sr; rn_State := state.Skipped;
  rn_SkippedReason := state.ReasonCached; rn_Output := rn_Output sr; rn_Structured := rn_Structured sr;
  rn_Summary := rn_Summary sr; rn_SkippedCached := true |}.

Section resume.
Context {RT : GoRuntime} {DG : Diagnostics} (concurrency : Z).

(** The answers of the store, and the ids [newID] hands out. *)
Context (accepts : StoreOp -> bool) (newID : nat -> string).

(** The loop of [seedResume]: the rows written, and whether all were. *)
Fixpoint write_cached (instID : string) (n : nat) (rows : list StepRun) : list StoreOp * bool :=
  match rows with
  | [] => ([], true)
  | sr :: rows =>
      let op := OpCreateStepRun (cached_row (newID n) instID sr) in
      if accepts op then let '(ops, ok) := write_cached instID (S n) rows in (op :: ops, ok)
      else ([op], false)
  end.

(** [seedResume]. *)
Definition seedResume (instID : string) (r : dagRun) (priorSteps : list StepRun)
    : dagRun * list StoreOp * bool :=
  let '(r, restored) := restoreCachedSteps r priorSteps in
  let '(ops, ok) := write_cached instID 0 restored in
  (r, ops, ok).

(** [ResumeInstance] up to the drive: the writes it made in order, and the run
    it drives. *)
Definition prepareResume (wf : WorkflowConfig) (cell : SourceItem) (priorSteps : list StepRun)
    (sourceID fromStep instID : string) : list StoreOp * result ResumeError dagRun :=
  let create := OpCreateInstance instID sourceID in
  let snapshot := OpSnapshot instID in
  let failed := OpInstanceState instID state.Failed in
  if negb (accepts create) then ([create], Err StoreFailed)
  else if negb (accepts snapshot) then ([create; snapshot; failed], Err StoreFailed)
  else
    let r := initDAG wf cell [] ∅ in
    match resumeCacheSelection wf priorSteps fromStep with
    | Err e => ([create; snapshot], Err e)
    | Ok selected =>
        let '(r, ops, ok) := seedResume instID r selected in
        if ok then (create :: snapshot :: ops, Ok r)
        else (create :: snapshot :: ops ++ [failed], Err StoreFailed)
    end.

(** [ResumeInstance]: the prepared run is driven. *)
Definition ResumeInstance (wf : WorkflowConfig) (cell : SourceItem) (priorSteps : list StepRun)
    (sourceID fromStep instID : string) (fuel : nat) (events : nat -> Event)
    : result ResumeError (option (dagOutcome * dagRun)) :=
  match (prepareResume wf cell priorSteps sourceID fromStep instID).2 with
  | Err e => Err e
  | Ok r => Ok (driveDAG concurrency fuel events r)
  end.
End resume.

(** ** Rehydration *)

Section rehydrate.
Context {RT : GoRuntime}.

(** [RehydrateApproval]: the run to park, or [ErrNoApprovalStep]. *)
Definition RehydrateApproval (wf : WorkflowConfig) (cell : SourceItem) (priorSteps : list StepRun)
    (parkedAt : Z) : option dagRun :=
  let r := (restoreCachedSteps (initDAG wf cell [] ∅) priorSteps).1 in
  (fun stepID => set_parkedAt parkedAt (set_waitingStep stepID (put_state stepID stWaiting r)))
    <$> firstRunnableApproval r.

(** [RehydrateWait]: the run to park, or [ErrNoWaitStep]; the deadline starts
    again. *)
Definition RehydrateWait (now : Z) (wf : WorkflowConfig) (cell : SourceItem) (priorSteps : list StepRun)
    : option dagRun :=
  let r := (restoreCachedSteps (initDAG wf cell [] ∅) priorSteps).1 in
  (fun '(stepID, childID) =>
     let r := set_waitingChild childID (set_waitingStep stepID (put_state stepID stWaiting r)) in
     match st_WaitFor (waitStepConfig r).1 with
     | Some pc => if (0 <? ParsedMaxDuration pc)%Z then set_waitDeadline (now + ParsedMaxDuration pc) r else r
     | None => r
     end) <$> firstRunnableWait r.
End rehydrate.

(** ** Requests (src/internal/daemon/workflow_resume.go) *)

(** [resumableState]. *)
Definition resumableState (st reason : string) : bool :=
  bool_decide (st = state.Failed) || bool_decide (st = state.Blocked) && bool_decide (reason = state.ReasonInterrupted).

Inductive ResumeRefusal :=
  | ErrInstanceNotFound
  | ErrInstanceNotResumable
  | ErrResumeForbidden
  | ErrWorkflowChanged
  | ErrSnapshotNotFound.

Definition ResumeConfigCurrent := "current".
Definition ResumeConfigOriginal := "original".

Definition normalizeResumeConfigMode (mode : string) : string :=
  if bool_decide (mode = ResumeConfigOriginal) then mode else ResumeConfigCurrent.

(** [resumeWorkflow]: the current definition, or the decoded snapshot of the
    original ([None] when none was stored, [Some None] when it does not decode). *)
Definition resumeWorkflow (mode : string) (current : option WorkflowConfig)
    (snapshot : option (option WorkflowConfig)) : result ResumeRefusal WorkflowConfig :=
  if bool_decide (normalizeResumeConfigMode mode = ResumeConfigCurrent) then
    match current with
    | Some wf => Ok wf
    | None => Err ErrWorkflowChanged
    end
  else match snapshot with
       | None => Err ErrSnapshotNotFound
       | Some None => Err ErrWorkflowChanged
       | Some (Some wf) => Ok wf
       end.

(** The checks [ResumePreview] and [startResume] share: the state and reason of
    the instance's row ([None] when there is none), and what [resumeWorkflow]
    answers for it. *)
Definition checkResume (inst : option (string * string)) (resolved : result ResumeRefusal WorkflowConfig)
    : result ResumeRefusal WorkflowConfig :=
  match inst with
  | None => Err ErrInstanceNotFound
  | Some (st, reason) =>
      if negb (resumableState st reason) then Err ErrInstanceNotResumable
      else
        wf ← resolved;
        if bool_decide (ResumePolicy wf = ResumeForbidden) then Err ErrResumeForbidden else Ok wf
  end.

(** The position of the first step with an id. *)
Definition step_index (wf : WorkflowConfig) (id : string) : option nat :=
  fst <$> list_find (fun s => st_ID s = id) (wc_Steps wf).

(** [startResume], the part before the descendant runs. *)
Definition startResume (inst : option (string * string)) (resolved : result ResumeRefusal WorkflowConfig)
    (fromStep : string) : result ResumeRefusal WorkflowConfig :=
  wf ← checkResume inst resolved;
  if negb (is_empty fromStep) && bool_decide (step_index wf fromStep = None) then Err ErrWorkflowChanged else Ok wf.

(** [passed] of [ResumePreview]. *)
Definition preview_passed (steps : list StepRun) (id : string) : bool :=
  existsb (fun sr => bool_decide (rn_State sr = "done") && bool_decide (rn_StepID sr = id)) steps.

(** [ResumePreview]: the ids it says a resume skips, and those it says run. *)
Definition ResumePreview (inst : option (string * string)) (resolved : result ResumeRefusal WorkflowConfig)
    (steps : list StepRun) (fromStep : string) : result ResumeRefusal (list string * list string) :=
  wf ← checkResume inst resolved;
  let plan (fromIndex : nat) :=
    let skipped '(i, s) := (i <? fromIndex) && preview_passed steps (st_ID s) && negb (is_type StepTypeSplit s) in
    let rows := imap pair (wc_Steps wf) in
    ((fun p => st_ID p.2) <$> List.filter skipped rows,
     (fun p => st_ID p.2) <$> List.filter (fun p => negb (skipped p)) rows) in
  if is_empty fromStep then Ok (plan (length (wc_Steps wf)))
  else match step_index wf fromStep with
       | Some i => Ok (plan i)
       | None => Err ErrWorkflowChanged
       end.
