(* ===== verification/ResumeFacts.v ===== *)
(** * What a resumed run starts from

    The run [restoreCachedSteps] rebuilds from the rows of an instance, step by
    step, and what keeps a carried-over step from being run again. *)

From stdpp Require Import base gmap strings list.
From Stdlib Require Import ZArith.
From S2P Require Import Prelude State Model Expr Config Graph Dag DagFacts DagTermination DagInvariant DagProps.
From S2P Require Import Resume.

#[local] Arguments row_done : simpl never.

(** The last row of a list that satisfies a test. *)
Definition last_row (p : StepRun -> bool) (rows : list StepRun) : option StepRun := last (List.filter p rows).

Lemma last_row_snoc p rows sr :
  last_row p (rows ++ [sr]) = if p sr then Some sr else last_row p rows.
Proof.
  unfold last_row. rewrite filter_snoc. destruct (p sr); [by rewrite last_snoc|by rewrite app_nil_r].
Qed.

Lemma last_row_Some p rows sr : last_row p rows = Some sr -> sr ∈ rows /\ p sr = true.
Proof.
  unfold last_row. intros H%last_Some_elem_of. rewrite list_elem_of_In, filter_In, <- list_elem_of_In in H. done.
Qed.

Lemma last_row_is_Some p rows : is_Some (last_row p rows) <-> exists sr, sr ∈ rows /\ p sr = true.
Proof.
  split; [intros [sr H]; exists sr; by apply last_row_Some|]. intros (sr & Hin & Hp).
  unfold last_row. rewrite last_is_Some. intros E.
  assert (sr ∈ List.filter p rows) as H by (rewrite list_elem_of_In, filter_In, <- list_elem_of_In; done).
  rewrite E in H. by apply elem_of_nil in H.
Qed.

Section restored.
Context {RT : GoRuntime} (wf : WorkflowConfig) (cell : SourceItem).

Definition blank_run : dagRun := initDAG wf cell [] ∅.

(** A finished row of a step of the graph that is not a split. *)
Definition restorable (sr : StepRun) : bool :=
  row_done sr && match byID_map wf !! rn_StepID sr with
                 | Some step => negb (is_type StepTypeSplit step)
                 | None => false
                 end.

(** A finished row of a child [c] of the parallel group [p]. *)
Definition restorable_child (p c : string) (sr : StepRun) : bool :=
  row_done sr && bool_decide (rn_StepID sr = c) && bool_decide (byID_map wf !! c = None)
  && bool_decide (is_Some (childByID blank_run !! c)) && bool_decide (parentOfChild wf !! c = Some p).

Definition row_of (id : string) (sr : StepRun) : bool := restorable sr && bool_decide (rn_StepID sr = id).

(** What a finished row contributes to the memory. *)
Definition row_memory (id : string) (sr : StepRun) : MemoryStep := {|
  ms_StepID := id; ms_WriteFields := MemoryWriteFields (byID blank_run id);
  ms_Structured := row_structured sr; ms_Summary := rn_Summary sr |}.

Definition row_result (sr : StepRun) : StepResult := {|
  sr_Success := true; sr_Output := rn_Output sr; sr_Structured := row_structured sr;
  sr_Summary := rn_Summary sr; sr_Pending := false; sr_Conflict := false |}.

Record restored_as (rows : list StepRun) (r : dagRun) (seen : gset string) (out : list StepRun) : Prop := {
  ra_wf : r_wf r = wf;
  ra_rows : out = List.filter restorable rows;
  ra_seen : forall y, y ∈ seen <-> is_Some (last_row (row_of y) rows);
  ra_state : forall y, state_of r y = 
    match last_row (row_of y) rows with Some _ => stPassed | None => state_of blank_run y end;
  ra_states : forall y, r_stepStates r !! y =
    (fun sr => {| ss_State := stPassed; ss_ExitCode := 0; ss_Output := rn_Output sr |}) <$> last_row (row_of y) rows;
  ra_contrib : forall y, r_contrib r !! y = row_memory y <$> last_row (row_of y) rows;
  ra_distinct : NoDup (r_passedOrder r);
  ra_order : forall y, y ∈ r_passedOrder r <-> y ∈ seen;
  ra_activated : forall y, y ∈ r_activated r <->
    y ∈ r_activated blank_run \/ y <> "" /\ exists x, x ∈ seen /\ st_OnPassNext (byID blank_run x) = y;
  ra_children : forall p c, parallelSnapshot r p !! c = row_result <$> last_row (restorable_child p c) rows;
  ra_control : same_control blank_run (set_activated (r_activated blank_run) r);
}.

Lemma childByID_wf r r' : r_wf r' = r_wf r -> childByID r' = childByID r.
Proof. unfold childByID. by intros ->. Qed.

Lemma byID_map_key id step : byID_map wf !! id = Some step -> st_ID step = id /\ step = byID blank_run id.
Proof.
  intros H. unfold byID. simpl r_wf. rewrite H. split; [|done].
  unfold byID_map in H. apply byID_map_lookup in H as [[H _]|H]; [done|]. by rewrite lookup_empty in H.
Qed.

Lemma childByID_key (r : dagRun) id child : childByID r !! id = Some child -> st_ID child = id.
Proof. intros H. apply byID_map_lookup in H as [[H _]|H]; [done|]. by rewrite lookup_empty in H. Qed.

Lemma row_of_restorable sr y : restorable sr = false -> row_of y sr = false.
Proof. unfold row_of. by intros ->. Qed.

Lemma row_of_step sr step y :
  row_done sr = true -> byID_map wf !! rn_StepID sr = Some step -> is_type StepTypeSplit step = false ->
  row_of y sr = bool_decide (st_ID step = y).
Proof.
  intros Hd Hs Ht. unfold row_of, restorable. rewrite Hd, Hs, Ht. simpl.
  by destruct (byID_map_key _ _ Hs) as [-> _].
Qed.

(** The clauses on the rows of graph nodes, over a row that is none. *)
Lemma restored_rows rows r r' seen out sr :
  restored_as rows r seen out -> restorable sr = false ->
  r_wf r' = r_wf r -> r_state r' = r_state r -> r_stepStates r' = r_stepStates r -> r_contrib r' = r_contrib r ->
  r_passedOrder r' = r_passedOrder r -> r_activated r' = r_activated r -> same_control r r' ->
  (forall p c, parallelSnapshot r' p !! c = row_result <$> last_row (restorable_child p c) (rows ++ [sr])) ->
  restored_as (rows ++ [sr]) r' seen out.
Proof.
  intros [R1 R2 R3 R4 R5 R6 R7 R8 R9 _ R11] Hr E1 E2 E3 E4 E5 E6 E7 Hc.
  assert (forall y, last_row (row_of y) (rows ++ [sr]) = last_row (row_of y) rows) as Hrow.
  { intros y. by rewrite last_row_snoc, (row_of_restorable sr y Hr). }
  split.
  - congruence.
  - rewrite filter_snoc, Hr, app_nil_r. exact R2.
  - intros y. rewrite Hrow. exact (R3 y).
  - intros y. rewrite Hrow. unfold state_of. rewrite E2. exact (R4 y).
  - intros y. rewrite Hrow, E3. exact (R5 y).
  - intros y. rewrite Hrow, E4. exact (R6 y).
  - rewrite E5. exact R7.
  - intros y. rewrite E5. exact (R8 y).
  - intros y. rewrite E6. exact (R9 y).
  - exact Hc.
  - destruct R11 as [C1 _ C3 C4], E7 as [D1 _ D3 D4]. split; simpl in *; congruence.
Qed.

Lemma restore_skip rows r seen out sr :
  restored_as rows r seen out -> restorable sr = false -> (forall p c, restorable_child p c sr = false) ->
  restored_as (rows ++ [sr]) r seen out.
Proof.
  intros Hra Hr Hc. apply (restored_rows rows r); [exact Hra|exact Hr|reflexivity..|].
  intros p c. rewrite last_row_snoc, Hc. apply (ra_children _ _ _ _ Hra).
Qed.

Lemma restorable_child_row p c sr child :
  row_done sr = true -> byID_map wf !! rn_StepID sr = None -> childByID blank_run !! rn_StepID sr = Some child ->
  restorable_child p c sr = bool_decide (rn_StepID sr = c) && bool_decide (parentOfChild wf !! c = Some p).
Proof.
  intros Hd Hn Hch. unfold restorable_child. rewrite Hd. destruct (decide (rn_StepID sr = c)) as [<-|Hne].
  - rewrite (bool_decide_eq_true_2 (_ = _)) by done. rewrite Hn, Hch. reflexivity.
  - rewrite (bool_decide_eq_false_2 (_ = _)) by done. reflexivity.
Qed.

Lemma restorable_child_node p c sr step : byID_map wf !! rn_StepID sr = Some step -> restorable_child p c sr = false.
Proof.
  intros Hs. unfold restorable_child. destruct (decide (rn_StepID sr = c)) as [<-|Hc].
  - rewrite Hs, (bool_decide_eq_false_2 (Some _ = _)) by congruence. by rewrite andb_false_r.
  - by rewrite (bool_decide_eq_false_2 (rn_StepID sr = c)), andb_false_r by done.
Qed.

Lemma restore_child rows r seen out sr child :
  restored_as rows r seen out -> row_done sr = true -> byID_map wf !! rn_StepID sr = None ->
  childByID r !! rn_StepID sr = Some child ->
  restored_as (rows ++ [sr]) (restoreParallelChild child sr r) seen out.
Proof.
  intros Hra Hd Hn Hch. pose proof (childByID_key r _ _ Hch) as Hkey.
  rewrite (childByID_wf blank_run) in Hch by apply Hra.
  assert (restorable sr = false) as Hr by (unfold restorable; rewrite Hd, Hn; reflexivity).
  pose proof (ra_children _ _ _ _ Hra) as Hold.
  unfold restoreParallelChild. rewrite Hkey, (ra_wf _ _ _ _ Hra).
  destruct (parentOfChild wf !! rn_StepID sr) as [parent|] eqn:Ep;
    (apply (restored_rows rows r); [exact Hra|exact Hr|reflexivity..|split; reflexivity|]); intros p c;
    rewrite last_row_snoc, (restorable_child_row _ _ _ _ Hd Hn Hch).
  - unfold parallelSnapshot at 1. simpl r_parallelDone. destruct (decide (rn_StepID sr = c)) as [<-|Hc].
    + rewrite Ep, (bool_decide_eq_true_2 (_ = _)) by done. simpl andb. destruct (decide (p = parent)) as [->|Hp].
      * rewrite lookup_insert_eq. simpl. rewrite lookup_insert_eq, bool_decide_eq_true_2 by done. reflexivity.
      * rewrite lookup_insert_ne, bool_decide_eq_false_2 by congruence. apply Hold.
    + rewrite (bool_decide_eq_false_2 (_ = _)) by done. simpl andb. destruct (decide (p = parent)) as [->|Hp].
      * rewrite lookup_insert_eq. simpl. rewrite lookup_insert_ne by done. apply Hold.
      * rewrite lookup_insert_ne by congruence. apply Hold.
  - destruct (decide (rn_StepID sr = c)) as [<-|Hc].
    + rewrite Ep, (bool_decide_eq_false_2 (None = _)) by congruence. rewrite andb_false_r. apply Hold.
    + rewrite (bool_decide_eq_false_2 (_ = _)) by done. apply Hold.
Qed.

(** One finished row of a graph node. *)
Lemma restore_node rows r seen out sr step :
  restored_as rows r seen out -> row_done sr = true -> byID_map wf !! rn_StepID sr = Some step ->
  is_type StepTypeSplit step = false ->
  restored_as (rows ++ [sr]) (restore_step step sr (negb (bool_decide (st_ID step ∈ seen))) r)
    ({[st_ID step]} ∪ seen) (out ++ [sr]).
Proof.
  intros [R1 R2 R3 R4 R5 R6 R7 R8 R9 R10 R11] Hd Hs Hty.
  assert (restorable sr = true) as Hr by (unfold restorable; rewrite Hd, Hs, Hty; reflexivity).
  assert (forall y, last_row (row_of y) (rows ++ [sr])
    = if decide (st_ID step = y) then Some sr else last_row (row_of y) rows) as Hrow.
  { intros y. rewrite last_row_snoc, (row_of_step sr step y Hd Hs Hty).
    by destruct (decide (st_ID step = y)); [rewrite bool_decide_eq_true_2|rewrite bool_decide_eq_false_2]. }
  destruct (byID_map_key _ _ Hs) as [Hkey Hst]. rewrite <- Hkey in Hst.
  unfold restore_step. set (id := st_ID step) in *. clearbody id.
  set (r4 := if negb _ then _ else _).
  assert (r_wf r4 = wf /\ r_state r4 = <[id := stPassed]> (r_state r) /\ r_activated r4 = r_activated r
    /\ r_stepStates r4 = <[id := {| ss_State := stPassed; ss_ExitCode := 0; ss_Output := rn_Output sr |}]> (r_stepStates r)
    /\ r_contrib r4 = <[id := row_memory id sr]> (r_contrib r)
    /\ r_passedOrder r4 = (if decide (id ∈ seen) then r_passedOrder r else r_passedOrder r ++ [id])
    /\ r_parallelDone r4 = r_parallelDone r /\ same_control r r4) as (E1 & E2 & E3 & E4 & E5 & E6 & E7 & E8).
  { unfold r4, row_memory. rewrite <- Hst. destruct (decide (id ∈ seen)) as [Hy|Hy];
      [rewrite bool_decide_eq_true_2 by done|rewrite bool_decide_eq_false_2 by done];
      (split; [exact R1|]); split_and!; try reflexivity; split; reflexivity. }
  clearbody r4. set (r5 := if is_empty _ then r4 else _).
  assert (r_wf r5 = r_wf r4 /\ r_state r5 = r_state r4 /\ r_stepStates r5 = r_stepStates r4
    /\ r_contrib r5 = r_contrib r4 /\ r_passedOrder r5 = r_passedOrder r4 /\ r_parallelDone r5 = r_parallelDone r4
    /\ r_retries r5 = r_retries r4 /\ r_conflictRetries r5 = r_conflictRetries r4
    /\ forall y, y ∈ r_activated r5 <-> y ∈ r_activated r4 \/ y <> "" /\ st_OnPassNext step = y)
    as (F1 & F2 & F3 & F4 & F5 & F6 & F7 & F8 & F9).
  { unfold r5. destruct (is_empty (st_OnPassNext step)) eqn:En.
    - apply is_empty_true in En. split_and!; try reflexivity. intros y. rewrite En. naive_solver.
    - apply is_empty_false in En. split_and!; try reflexivity. intros y.
      change (r_activated (activate (st_OnPassNext step) r4)) with ({[st_OnPassNext step]} ∪ r_activated r4).
      rewrite elem_of_union, elem_of_singleton. split; [intros [->|?]; auto|intros [?|[_ <-]]; auto]. }
  clearbody r5. split.
  - congruence.
  - rewrite filter_snoc, Hr. congruence.
  - intros y. rewrite Hrow, elem_of_union, elem_of_singleton, R3.
    destruct (decide (id = y)) as [Hy|Hy]; [rewrite Hy; split; [by eauto|by left]|]. split; [|by right]. by intros [?|?]; [congruence|].
  - intros y. rewrite Hrow. unfold state_of. rewrite F2, E2. destruct (decide (id = y)) as [Hy|Hy].
    + rewrite Hy, lookup_insert_eq. reflexivity.
    + rewrite lookup_insert_ne by congruence. exact (R4 y).
  - intros y. rewrite Hrow, F3, E4. destruct (decide (id = y)) as [Hy|Hy].
    + rewrite Hy, lookup_insert_eq. reflexivity.
    + rewrite lookup_insert_ne by congruence. exact (R5 y).
  - intros y. rewrite Hrow, F4, E5. destruct (decide (id = y)) as [Hy|Hy].
    + rewrite Hy, lookup_insert_eq. reflexivity.
    + rewrite lookup_insert_ne by congruence. exact (R6 y).
  - rewrite F5, E6. destruct (decide (id ∈ seen)) as [Hy|Hy]; [exact R7|]. apply NoDup_app. split_and!; [exact R7| |apply NoDup_singleton].
    intros x Hx ->%list_elem_of_singleton. by apply Hy, R8.
  - intros y. rewrite F5, E6, elem_of_union, elem_of_singleton. destruct (decide (id ∈ seen)) as [Hy|Hy].
    + rewrite R8. split; [by right|]. by intros [->|?].
    + rewrite elem_of_app, R8, list_elem_of_singleton. tauto.
  - intros y. rewrite F9, E3, R9. setoid_rewrite elem_of_union. setoid_rewrite elem_of_singleton.
    assert (st_OnPassNext (byID blank_run id) = st_OnPassNext step) as Hn by exact (f_equal st_OnPassNext (eq_sym Hst)). split.
    + intros [[?|[? (x & ? & ?)]]|[? ?]]; [by left|right; split; [done|]; exists x; auto|right].
      split; [done|]. exists id. rewrite Hn. auto.
    + intros [?|[? (x & [Hx|?] & Hy)]]; [by left; left|right|left; right; eauto].
      rewrite Hx, Hn in Hy. auto.
  - intros p c. rewrite last_row_snoc, (restorable_child_node _ _ _ _ Hs).
    unfold parallelSnapshot. rewrite F6, E7. exact (R10 p c).
  - destruct R11 as [C1 _ C3 C4], E8 as [D1 _ D3 D4]. split; simpl in *; congruence.
Qed.

Lemma restore_one_as rows r seen out sr :
  restored_as rows r seen out ->
  match restore_one (r, seen, out) sr with
  | (r', seen', out') => restored_as (rows ++ [sr]) r' seen' out'
  end.
Proof.
  intros Hra. unfold restore_one. rewrite (ra_wf _ _ _ _ Hra). destruct (row_done sr) eqn:Hd; cbn [negb].
  2:{ apply restore_skip; [done|by unfold restorable; rewrite Hd|intros; by unfold restorable_child; rewrite Hd]. }
  destruct (byID_map wf !! rn_StepID sr) as [step|] eqn:Hs.
  - destruct (is_type StepTypeSplit step) eqn:Hty; [|by apply restore_node].
    apply restore_skip; [done|unfold restorable; by rewrite Hd, Hs, Hty|].
    intros p c. by apply (restorable_child_node _ _ _ step).
  - destruct (childByID r !! rn_StepID sr) as [child|] eqn:Hch; [by eapply restore_child|].
    apply restore_skip; [done|unfold restorable; by rewrite Hd, Hs|].
    intros p c. unfold restorable_child. destruct (decide (rn_StepID sr = c)) as [<-|Hc].
    + rewrite (childByID_wf r blank_run) by (symmetry; apply Hra). rewrite Hch.
      rewrite (bool_decide_eq_false_2 (is_Some _)) by (by intros [? ?]). by rewrite andb_false_r.
    + by rewrite (bool_decide_eq_false_2 (rn_StepID sr = c)), andb_false_r by done.
Qed.

Lemma restored_start : restored_as [] blank_run ∅ [].
Proof.
  split.
  - reflexivity.
  - reflexivity.
  - intros y. rewrite elem_of_empty. split; [done|by intros [? [=]]].
  - reflexivity.
  - intros y. exact (lookup_empty y).
  - intros y. exact (lookup_empty y).
  - constructor.
  - intros y. rewrite elem_of_empty. exact (elem_of_nil y).
  - intros y. split; [by left|]. intros [?|[_ (x & Hx & _)]]; [done|]. by apply elem_of_empty in Hx.
  - intros p c. unfold parallelSnapshot. simpl r_parallelDone. rewrite lookup_empty. exact (lookup_empty c).
  - split; reflexivity.
Qed.

(** The rows replayed over a fresh run. *)
Lemma restored_spec rows :
  exists seen, restored_as rows (restoreCachedSteps blank_run rows).1 seen (restoreCachedSteps blank_run rows).2.
Proof.
  assert (match foldl restore_one (blank_run, ∅, []) rows with
          | (r', seen', out') => restored_as rows r' seen' out'
          end) as H.
  { induction rows as [|sr rows IH] using rev_ind; [exact restored_start|].
    rewrite foldl_app. simpl foldl. destruct (foldl restore_one (blank_run, ∅, []) rows) as [[r1 s1] o1].
    by apply restore_one_as. }
  unfold restoreCachedSteps. destruct (foldl _ _ rows) as [[r1 s1] o1]. by exists s1.
Qed.
End restored.

(** ** A passed step is left alone *)

Section kept.
Context {RT : GoRuntime} {DG : Diagnostics} (concurrency : Z) (y : string).

(** What every operation short of a loop-back does to the step [y]. *)
Record stays (r r' : dagRun) : Prop := {
  st_wf : r_wf r' = r_wf r;
  st_passed : y ∈ r_activated r -> state_of r y = stPassed -> state_of r' y = stPassed;
  st_active : r_activated r ⊆ r_activated r';
  st_retries : r_retries r' = r_retries r;
  st_conflict : r_conflictRetries r' = r_conflictRetries r;
}.

#[local] Instance stays_refl : Reflexive stays.
Proof. by intros r. Qed.
#[local] Instance stays_trans : Transitive stays.
Proof. intros r1 r2 r3 [] []. split; try congruence; [|by etransitivity]. intros Ha Hp. auto. Qed.

Lemma stays_put id st r : id <> y -> stays r (put_state id st r).
Proof. intros Hne. split; try done. intros _ Hp. rewrite state_of_put. by destruct (decide (y = id)) as [->|]. Qed.

Lemma stays_same r r' :
  r_wf r' = r_wf r -> r_state r' = r_state r -> r_activated r ⊆ r_activated r' ->
  r_retries r' = r_retries r -> r_conflictRetries r' = r_conflictRetries r -> stays r r'.
Proof. intros H1 H2 H3 H4 H5. split; try done. intros _. unfold state_of. by rewrite H2. Qed.

Lemma stays_markSkipped id r : id ∉ r_activated r \/ state_of r id <> stPassed -> stays r (markSkipped id r).
Proof.
  intros Hid. destruct (markSkipped_same id r) as []. split; try done.
  - intros Ha Hp. destruct (decide (state_of r id = stSkipped \/ state_of r id = stCondSkipped)) as [H|H].
    + by rewrite markSkipped_already.
    + destruct (markSkipped_states id r y) as [[_ [Hy|[Hpend _]]]|[E _]]; [tauto|tauto| | |by rewrite E].
      * rewrite Hy in Ha, Hp. tauto.
      * rewrite Hp in Hpend. discriminate.
  - congruence.
Qed.

Lemma stays_split r step r' : st_ID step <> y -> runSplitStep r step = Ok r' -> stays r r'.
Proof.
  intros Hne. unfold runSplitStep. destruct (chooseBranches _ _ _) as [chosen|]; rsimpl; [|done]. intros [= <-].
  transitivity (put_state (st_ID step) stPassed r); [by apply stays_put|].
  set (r1 := set_stepStates _ _). transitivity r1; [by apply stays_same|].
  set (r2 := foldl _ r1 _). transitivity r2.
  - apply (foldl_rel stays). intros r0 b _. destruct (_ && _); [|done]. apply stays_same; try done. simpl. set_solver.
  - apply (foldl_rel stays). intros r0 b _. unfold skip_unchosen. destruct (_ && _) eqn:E; [|done].
    apply stays_markSkipped. left. rewrite !andb_true_iff, !negb_true_iff in E. destruct E as [[_ E] _].
    intros H%is_activated_spec. congruence.
Qed.

(** The ids in flight. *)
Definition airborne (fl : list flight) : list string := (fun f => st_ID (flight_step f)) <$> fl.

Lemma stays_dispatch_one limit id r fl r' fl' :
  id ∈ order r -> id <> y -> dispatch_one limit id (r, fl) = Some (r', fl') ->
  stays r r' /\ (y ∈ airborne fl' -> y ∈ airborne fl).
Proof.
  intros Hid Hne. destruct (byID_in r id Hid) as [Hs _].
  assert (forall res, stays r (ready id (byID r id) res (r, fl)).1 /\
    (y ∈ airborne (ready id (byID r id) res (r, fl)).2 -> y ∈ airborne fl)) as Hready.
  { intros res. unfold ready. cbn [fst snd]. split; [by apply stays_put|]. unfold airborne.
    rewrite fmap_app, elem_of_app. intros [?|H]; [done|]. simpl in H. rewrite Hs in H.
    by apply list_elem_of_singleton in H. }
  assert (forall acc, launch limit id (byID r id) (r, fl) = Some acc ->
    stays r acc.1 /\ (y ∈ airborne acc.2 -> y ∈ airborne fl)) as Hlaunch.
  { intros acc. unfold launch. destruct (is_type StepTypeSplit _).
    - destruct (runSplitStep r (byID r id)) as [r1|[src e]] eqn:E; intros [= <-]; [|apply Hready].
      split; [|done]. eapply stays_split; [|exact E]. congruence.
    - destruct (is_type StepTypeApproval _); [intros [= <-]; apply Hready|]. destruct (_ <=? _); [done|].
      intros [= <-]. cbn [fst snd]. split; [by apply stays_put|]. unfold airborne.
      rewrite fmap_app, elem_of_app. intros [?|H]; [done|]. simpl in H. rewrite Hs in H.
      by apply list_elem_of_singleton in H. }
  unfold dispatch_one. cbn [fst]. destruct (is_empty _); [apply Hlaunch|].
  destruct (evalExpr _ _) as [[]|e]; [apply Hlaunch| |].
  - intros [= <- <-]. split; [|done]. transitivity (put_state id stCondSkipped r); [by apply stays_put|].
    by apply stays_same.
  - intros [= <- <-]. apply Hready.
Qed.

Lemma stays_dispatch_loop limit ids r fl r' fl' :
  (forall id, id ∈ ids -> id ∈ order r) -> y ∉ ids -> dispatch_loop limit ids (r, fl) = (r', fl') ->
  stays r r' /\ (y ∈ airborne fl' -> y ∈ airborne fl).
Proof.
  revert r fl. induction ids as [|id ids IH]; intros r fl Hin Hy; cbn [dispatch_loop]; [by intros [= <- <-]|].
  destruct (dispatch_one _ _ _) as [[r1 fl1]|] eqn:E; [|by intros [= <- <-]]. intros Hl.
  apply stays_dispatch_one in E as [S1 F1];
    [|apply Hin, list_elem_of_here|intros ->; apply Hy, list_elem_of_here].
  apply IH in Hl as [S2 F2].
  - split; [by etransitivity|auto].
  - intros x Hx. unfold order. rewrite (st_wf _ _ S1). by apply Hin, list_elem_of_further.
  - intros H. by apply Hy, list_elem_of_further.
Qed.

Lemma stays_dispatched stop1 k r fl :
  state_of (k_run k) y = stPassed -> dispatched concurrency stop1 k = (r, fl) ->
  stays (k_run k) r /\ (y ∈ airborne fl -> y ∈ airborne (k_inFlight k)).
Proof.
  intros Hp. unfold dispatched. destruct (_ && _ && _); [|by intros [= <- <-]].
  apply stays_dispatch_loop.
  - intros id H%elem_of_pickAllRunnable. by apply rn_order in H.
  - intros H%elem_of_pickAllRunnable. pose proof (rn_pending _ _ H) as Hq. rewrite Hp in Hq. discriminate.
Qed.

Lemma stays_skipUnreachable r : stays r (skipUnreachable r).1.
Proof.
  unfold skipUnreachable.
  assert (forall l acc, stays acc.1 (foldl skip_one acc l).1) as H; [|exact (H _ (r, false))].
  induction l as [|id l IH]; intros acc; [done|]. cbn [foldl]. transitivity (skip_one acc id).1; [|apply IH].
  destruct acc as [r0 b]. unfold skip_one. destruct (in_state r0 stPending id) eqn:E; [|done]. cbn [negb].
  apply in_state_spec in E. repeat case_match; try done; apply stays_markSkipped; right; by rewrite E.
Qed.

(** One landed result either leaves [y] alone, or consumes a retry. *)
Lemma stays_processResult now ctxErr step p c r r' c' :
  st_ID step <> y -> c_loopTarget c = "" -> processResult now ctxErr step p c r = inr (r', c') ->
  stays r r' /\ c_loopTarget c' = "" \/ (r_retries r' <> ∅ \/ r_conflictRetries r' <> ∅).
Proof.
  intros Hne Hc. unfold processResult. destruct (is_type StepTypeApproval step); [done|].
  destruct (is_type StepTypeParallel step && _); [done|].
  destruct (is_type StepTypeWaitFor step && _); [done|].
  set (res := judge _ _ _ _). clearbody res. pose proof (clear_same step r) as (W & S & A & R & C).
  set (r1 := recordState _ _ _ _).
  assert (stays r r1) as Hr1 by (apply stays_same; [exact W|exact S|by rewrite <- A|exact R|exact C]). clearbody r1.
  assert (forall (r2 : dagRun) (m : gmap string string) st, r_wf r2 = r_wf r1 -> m = r_state r1 ->
    r_state r2 = <[st_ID step := st]> m -> r_activated r1 ⊆ r_activated r2 -> r_retries r2 = r_retries r1 ->
    r_conflictRetries r2 = r_conflictRetries r1 -> stays r r2) as Hland.
  { intros r2 m st H1 -> H2 H3 H4 H5. etransitivity; [exact Hr1|]. split; [done| |done..].
    intros _ Hp. unfold state_of in *. rewrite H2, lookup_insert_ne by done. done. }
  destruct (sr_Success res).
  - intros [= <- <-]. left. split; [|done]. destruct (passStep_fields step res p r1) as (H1 & H2 & H3 & H4 & H5).
    by eapply Hland.
  - intros [= Hf]. apply failStep_fields in Hf as (H1 & H2 & [(_ & _ & _ & Hb)|(H3 & -> & H4 & H5)]).
    + right. destruct Hb as [(_ & -> & _)|(_ & -> & _)]; [right|left]; apply insert_non_empty.
    + left. split; [|done]. eapply Hland; try done. by rewrite H2.
Qed.

(** No retry was consumed. *)
Definition no_retry (r : dagRun) : Prop := r_retries r = ∅ /\ r_conflictRetries r = ∅.

Record carried (k : config) : Prop := {
  ca_passed : state_of (k_run k) y = stPassed;
  ca_active : y ∈ r_activated (k_run k);
  ca_landed : y ∉ airborne (k_inFlight k);
  ca_loop : c_loopTarget (k_control k) = "";
}.

Lemma airborne_sub fl fl' : fl ⊆ fl' -> y ∈ airborne fl -> y ∈ airborne fl'.
Proof.
  intros Hs. unfold airborne. rewrite !list_elem_of_fmap. intros (f & Hf & Hin). exists f. auto.
Qed.

(** A pass that consumes no retry carries the step on. *)
Lemma carried_pass e k k' :
  carried k -> drive_pass concurrency e k = inl k' -> no_retry (k_run k') -> carried k'.
Proof.
  intros [Hp Ha Hl Hc]. unfold drive_pass. fold (dispatched concurrency (k_stopped k || pe_stop1 e) k).
  destruct (dispatched _ _ k) as [r fl] eqn:Hd. apply stays_dispatched in Hd as [[W P A R C] Hfl]; [|done].
  assert (state_of r y = stPassed) as Hp1 by auto. assert (y ∈ r_activated r) as Ha1 by auto.
  assert (y ∉ airborne fl) as Hl1 by auto.
  assert (forall k2 r2, k_run k2 = r2 -> stays r r2 -> k_inFlight k2 ⊆ fl -> c_loopTarget (k_control k2) = "" ->
    no_retry (k_run k2) -> carried k2) as Hgo.
  { intros k2 r2 <- [W2 P2 A2 R2 C2] Hsub Hlt _. split; [auto|auto|by intros ?%(airborne_sub _ _ Hsub)|done]. }
  destruct fl as [|f fl].
  - destruct (_ || pe_stop2 e); [done|]. unfold quiescent. destruct (c_termFail (k_control k)); [done|].
    rewrite (proj2 (is_empty_true _) Hc). cbn [negb]. pose proof (stays_skipUnreachable r) as Hs.
    destruct (skipUnreachable r) as [r1 b]. cbn [fst] in Hs.
    destruct b; [intros [= <-]; by eapply Hgo|]. destruct (pickAllRunnable r1); [done|].
    intros [= <-]. by eapply Hgo.
  - destruct (receive (pe_pick e) f fl) as [g rest] eqn:Hr. apply receive_spec in Hr as (Hg & Hrest & _).
    destruct (_ || pe_stop3 e); [intros [= <-]; by eapply Hgo|].
    destruct (processResult _ _ _ _ _ _) as [|[r' c']] eqn:Hpr; [done|]. intros [= <-].
    apply stays_processResult in Hpr as [[Hs Hlt]|Hbad]; [by eapply Hgo|by intros [? ?]; destruct Hbad| |done].
    intros E. apply Hl1. rewrite <- E. unfold airborne. by apply (list_elem_of_fmap_2 (fun f => st_ID (flight_step f))).
Qed.
End kept.

Section carrying.
Context {RT : GoRuntime} {DG : Diagnostics} (concurrency : Z).

(** Retries are never given back. *)
Lemma no_retry_pass e k k' : drive_pass concurrency e k = inl k' -> no_retry (k_run k') -> no_retry (k_run k).
Proof.
  unfold drive_pass. fold (dispatched concurrency (k_stopped k || pe_stop1 e) k).
  destruct (dispatched _ _ k) as [r fl] eqn:Hd.
  assert (r_retries r = r_retries (k_run k) /\ r_conflictRetries r = r_conflictRetries (k_run k)) as [R C].
  { revert Hd. unfold dispatched. destruct (_ && _ && _); [|by intros [= <- <-]]. intros Hd.
    apply (stays_dispatch_loop (fresh (order (k_run k)))) in Hd as [[] _]; [done|..].
    - intros id H%elem_of_pickAllRunnable. by apply rn_order in H.
    - intros H%elem_of_pickAllRunnable. apply rn_order in H. by apply infinite_is_fresh in H. }
  unfold no_retry. rewrite <- R, <- C. destruct fl as [|f fl].
  - destruct (_ || pe_stop2 e); [done|]. unfold quiescent. destruct (c_termFail (k_control k)); [done|].
    destruct (is_empty _); cbn [negb].
    + destruct (stays_skipUnreachable "" r) as [_ _ _ R1 C1]. destruct (skipUnreachable r) as [r1 b]. cbn [fst] in *.
      destruct b; [intros [= <-]; cbn [k_run]; by rewrite R1, C1|]. destruct (pickAllRunnable r1); [done|].
      intros [= <-]. cbn [k_run]. by rewrite R1, C1.
    + intros [= <-]. destruct (resetLoop_control (c_loopTarget (k_control k)) r) as [_ _ R1 C1]. cbn [k_run]. by rewrite R1, C1.
  - destruct (receive (pe_pick e) f fl) as [g rest]. destruct (_ || pe_stop3 e); [by intros [= <-]|].
    destruct (processResult _ _ _ _ _ _) as [|[r' c']] eqn:Hpr; [done|]. intros [= <-]. simpl.
    revert Hpr. unfold processResult. destruct (is_type StepTypeApproval _); [done|].
    destruct (is_type StepTypeParallel _ && _); [done|]. destruct (is_type StepTypeWaitFor _ && _); [done|].
    set (res := judge _ _ _ _). clearbody res. pose proof (clear_same (flight_step g) r) as (_ & _ & _ & R1 & C1).
    destruct (sr_Success res).
    + intros [= <- _]. match goal with |- context [passStep ?s ?re ?p ?r0] =>
        destruct (passStep_fields s re p r0) as (_ & _ & _ & -> & ->) end. simpl. by rewrite R1, C1.
    + intros [= Hf]. apply failStep_fields in Hf as (_ & _ & [(_ & _ & _ & Hb)|(_ & _ & -> & ->)]); [|by simpl; rewrite R1, C1].
      destruct Hb as [(_ & -> & _)|(_ & -> & _)]; intros [H1 H2]; exfalso;
        [by eapply (insert_non_empty (M := gmap string)), H2|by eapply (insert_non_empty (M := gmap string)), H1].
Qed.

Lemma carried_passes y k k' : carried y k -> passes concurrency k k' -> no_retry (k_run k') -> carried y k'.
Proof.
  intros Hk Hp. induction Hp as [|e k1 k2 _ IH Hstep]; [done|]. intros Hn.
  eapply carried_pass; [|exact Hstep|exact Hn]. apply IH. by eapply no_retry_pass.
Qed.
End carrying.
