(* ===== verification/ResumeProps.v ===== *)
(** * Resumed and rehydrated runs

    What a resume carries over and what it runs, that the preview tells the
    same, that a carried-over step is not run again, and where a rehydrated
    instance is parked; the defects the model shows come last. *)

From stdpp Require Import base gmap strings list.
From Stdlib Require Import ZArith.
From S2P Require Import Prelude State Model Expr Config Graph Dag DagFacts DagTermination DagInvariant DagProps.
From S2P Require Import Resume ResumeFacts GraphRun LowerFacts.

#[local] Arguments row_done : simpl never.

(** ** What is carried over *)

Section restored.
Context {RT : GoRuntime}.

(** [restoreCachedSteps] over a fresh run: the rows it reports are the
    finished rows of the graph's steps, splits excepted; exactly their steps are
    passed, the rest as in a fresh run; output and memory are those of the
    step's last such row; the finished children of a parallel group are its
    memoized results; the steps a carried-over step names next are activated,
    and nothing else is. *)
Theorem restoreCachedSteps_exact (wf : WorkflowConfig) (cell : SourceItem) (rows : list StepRun) :
  let r := (restoreCachedSteps (initDAG wf cell [] ∅) rows).1 in
  let row y := last_row (row_of wf y) rows in
  (restoreCachedSteps (initDAG wf cell [] ∅) rows).2 = List.filter (restorable wf) rows
  /\ (forall y, state_of r y = 
       match row y with Some _ => stPassed | None => state_of (initDAG wf cell [] ∅) y end)
  /\ (forall y, r_stepStates r !! y =
        (fun sr => {| ss_State := stPassed; ss_ExitCode := 0; ss_Output := rn_Output sr |}) <$> row y)
  /\ (forall y, r_contrib r !! y = row_memory wf cell y <$> row y)
  /\ (NoDup (r_passedOrder r) /\ forall y, y ∈ r_passedOrder r <-> is_Some (row y))
  /\ (forall p c, parallelSnapshot r p !! c = row_result <$> last_row (restorable_child wf cell p c) rows)
  /\ (forall y, y ∈ r_activated r <-> y ∈ r_activated (initDAG wf cell [] ∅)
        \/ y <> "" /\ exists x, is_Some (row x) /\ st_OnPassNext (byID r x) = y).
Proof.
  intros r row. destruct (restored_spec wf cell rows) as [seen [R1 R2 R3 R4 R5 R6 R7 R8 R9 R10 _]].
  unfold blank_run in *. fold r in R1, R4, R5, R6, R7, R8, R9, R10. split_and!; [exact R2|exact R4|exact R5|exact R6|exact R7| |exact R10|].
  - intros y. rewrite R8. apply R3.
  - intros y. rewrite R9. unfold byID. rewrite R1. by setoid_rewrite R3.
Qed.

(** ** Where a rehydrated instance is parked *)

(** A finished row of the step was persisted. *)
Definition recorded (wf : WorkflowConfig) (rows : list StepRun) (y : string) : bool := existsb (row_of wf y) rows.

Lemma recorded_spec wf rows y : recorded wf rows y = true <-> is_Some (last_row (row_of wf y) rows).
Proof. unfold recorded. rewrite existsb_elem, last_row_is_Some. done. Qed.

(** What the rows make runnable: the step has no finished row, no split decides
    about it unless a finished step names it next, and every step it depends on,
    whichever way, has a finished row. *)
Definition resumable_at (wf : WorkflowConfig) (cell : SourceItem) (rows : list StepRun) (y : string) : bool :=
  let r := initDAG wf cell [] ∅ in
  negb (recorded wf rows y)
  && (negb (splitTarget r y)
      || existsb (fun s => recorded wf rows (st_ID s) && negb (is_empty (st_OnPassNext (byID r (st_ID s))))
                           && bool_decide (st_OnPassNext (byID r (st_ID s)) = y)) (wc_Steps wf))
  && forallb (recorded wf rows) (st_DependsOn (byID r y) ++ st_SeqDependsOn (byID r y)).

Lemma recorded_known wf rows y : recorded wf rows y = true -> y ∈ st_ID <$> wc_Steps wf.
Proof.
  intros (sr & Hin & H)%existsb_elem. unfold row_of, restorable in H.
  apply andb_true_iff in H as [H Hy%bool_decide_eq_true]. apply andb_true_iff in H as [_ H]. rewrite Hy in H.
  destruct (byID_map wf !! y) as [step|] eqn:E; [|done].
  unfold byID_map in E. apply byID_map_lookup in E as [[<- E]|E]; [by apply list_elem_of_fmap_2|].
  by rewrite lookup_empty in E.
Qed.

(** Exactly the recorded steps are passed. *)
Lemma restored_passed wf cell rows d :
  in_state (restoreCachedSteps (initDAG wf cell [] ∅) rows).1 stPassed d = recorded wf rows d.
Proof.
  destruct (restored_spec wf cell rows) as [seen [_ _ _ R4 _ _ _ _ _ _ _]]. unfold blank_run in R4.
  unfold in_state. rewrite R4. destruct (recorded wf rows d) eqn:E.
  - apply recorded_spec in E as [sr ->]. by rewrite bool_decide_eq_true_2.
  - destruct (last_row (row_of wf d) rows) eqn:El.
    + rewrite (proj2 (recorded_spec wf rows d)) in E by (rewrite El; eauto). done.
    + rewrite bool_decide_eq_false_2; [done|]. rewrite init_state_of. by destruct (decide _).
Qed.

(** A dependency is satisfied in the restored run when it is recorded. *)
Lemma restored_runnable wf cell rows y :
  let r := (restoreCachedSteps (initDAG wf cell [] ∅) rows).1 in
  y ∈ st_ID <$> wc_Steps wf ->
  in_state r stPending y && is_activated r y && depsPassed r y = resumable_at wf cell rows y.
Proof.
  intros r Hy. destruct (restored_spec wf cell rows) as [seen [R1 _ R3 R4 _ _ _ _ R9 _ _]].
  unfold blank_run in *. fold r in R1, R4, R9.
  pose proof (restored_passed wf cell rows) as Hpassed. fold r in Hpassed.
  assert (forall d, in_state r stCondSkipped d = false) as Hcond.
  { intros d. unfold in_state. apply bool_decide_eq_false_2. rewrite R4.
    destruct (last_row _ _); [done|]. rewrite init_state_of. by destruct (decide _). }
  unfold resumable_at. f_equal; [f_equal|].
  - unfold in_state. rewrite R4. destruct (recorded wf rows y) eqn:E.
    + apply recorded_spec in E as [sr ->]. done.
    + destruct (last_row (row_of wf y) rows) eqn:El.
      * rewrite (proj2 (recorded_spec wf rows y)) in E by (rewrite El; eauto). done.
      * rewrite init_state_of, decide_True by done. done.
  - apply eq_true_iff_eq. rewrite is_activated_spec, R9, orb_true_iff, negb_true_iff.
    assert (y ∈ r_activated (initDAG wf cell [] ∅) <-> splitTarget (initDAG wf cell [] ∅) y = false) as ->.
    { unfold splitTarget. simpl. rewrite elem_of_list_to_set, list_elem_of_In, filter_In, <- list_elem_of_In.
      rewrite negb_true_iff. tauto. }
    rewrite existsb_elem. setoid_rewrite andb_true_iff. setoid_rewrite andb_true_iff.
    setoid_rewrite bool_decide_eq_true. setoid_rewrite negb_true_iff. setoid_rewrite is_empty_false.
    assert (forall x, x ∈ seen <-> recorded wf rows x = true) as Hs by (intros x; by rewrite R3, recorded_spec).
    split; (intros [?|Hr]; [by left|right]).
    + destruct Hr as (Hne & x & Hx & Hn). unfold blank_run in Hn. apply Hs in Hx. pose proof (recorded_known _ _ _ Hx) as Hk.
      apply list_elem_of_fmap in Hk as (s & -> & Hin). exists s. unfold byID in *. simpl in *. split_and!; try done. congruence.
    + destruct Hr as (s & Hin & [[Hx Hne] Hn]). rewrite Hn in Hne. split; [done|]. exists (st_ID s). by rewrite Hs.
  - unfold depsPassed, byID. rewrite R1. simpl. rewrite forallb_app. f_equal.
    + apply forallb_same. exact Hpassed.
    + apply forallb_same. intros d. by rewrite Hpassed, Hcond, orb_false_r.
Qed.

Lemma restored_pick wf cell rows :
  pickAllRunnable (restoreCachedSteps (initDAG wf cell [] ∅) rows).1
  = List.filter (resumable_at wf cell rows) (st_ID <$> wc_Steps wf).
Proof.
  destruct (restored_spec wf cell rows) as [seen [R1 _ _ _ _ _ _ _ _ _ _]].
  unfold pickAllRunnable, order. unfold blank_run in R1. rewrite R1. simpl.
  assert (forall l, (forall y, y ∈ l -> y ∈ st_ID <$> wc_Steps wf) ->
    List.filter (fun id => in_state (restoreCachedSteps (initDAG wf cell [] ∅) rows).1 stPending id
      && is_activated (restoreCachedSteps (initDAG wf cell [] ∅) rows).1 id
      && depsPassed (restoreCachedSteps (initDAG wf cell [] ∅) rows).1 id) l
    = List.filter (resumable_at wf cell rows) l) as H; [|by apply H].
  induction l as [|y l IH]; intros Hl; [done|]. cbn [List.filter].
  rewrite restored_runnable by apply Hl, list_elem_of_here.
  rewrite IH by (intros z Hz; by apply Hl, list_elem_of_further). done.
Qed.

Lemma find_filter {A} (p q : A -> bool) l : List.find p (List.filter q l) = List.find (fun x => q x && p x) l.
Proof. induction l as [|x l IH]; [done|]. simpl. destruct (q x); simpl; [by rewrite IH|done]. Qed.

(** Where an instance found parked is parked again. At an approval: the first
    approval step the rows make runnable. At a wait: the first wait_for step, or
    group with a wait_for child, the rows make runnable. Whatever else the
    instance did before the restart (a split that chose, a step its condition
    skipped, an approval already granted) left no row and counts for nothing.
    The parked step waits, the approval keeps the time it was first parked, and
    the deadline of a wait starts again. *)
Theorem rehydrate_exact (wf : WorkflowConfig) (cell : SourceItem) (rows : list StepRun) (at_ : Z) :
  let r0 := initDAG wf cell [] ∅ in
  let ready := resumable_at wf cell rows in
  r_waitingStep <$> RehydrateApproval wf cell rows at_
    = List.find (fun y => ready y && is_type StepTypeApproval (byID r0 y)) (st_ID <$> wc_Steps wf)
  /\ (fun r => (r_waitingStep r, r_waitingChild r)) <$> RehydrateWait at_ wf cell rows
    = head (omap (waitAt r0) (List.filter ready (st_ID <$> wc_Steps wf)))
  /\ (forall r, RehydrateApproval wf cell rows at_ = Some r ->
        state_of r (r_waitingStep r) = stWaiting /\ r_parkedAt r = at_)
  /\ (forall r, RehydrateWait at_ wf cell rows = Some r ->
        state_of r (r_waitingStep r) = stWaiting
        /\ forall w, st_WaitFor (waitStepConfig r).1 = Some w -> (0 < ParsedMaxDuration w)%Z ->
             r_waitDeadline r = (at_ + ParsedMaxDuration w)%Z).
Proof.
  intros r0 ready. set (r := (restoreCachedSteps r0 rows).1).
  assert (forall y, byID r y = byID r0 y) as Hby.
  { intros y. destruct (restored_spec wf cell rows) as [seen [R1 _ _ _ _ _ _ _ _ _ _]].
    unfold byID, r. unfold blank_run in R1. unfold r0. by rewrite R1. }
  assert (forall y st r', state_of (put_state y st r') y = st) as Hput.
  { intros y st r'. rewrite state_of_put. by destruct (decide _). }
  split_and!.
  - unfold RehydrateApproval. fold r0 r. rewrite <- option_fmap_compose. unfold firstRunnableApproval, r, r0.
    rewrite restored_pick, find_filter. fold r0 ready.
    assert (forall o : option string, (r_waitingStep ∘ (fun stepID => set_parkedAt at_ (set_waitingStep stepID
      (put_state stepID stWaiting r)))) <$> o = o) as Hid by (by intros []).
    rewrite Hid. fold r. induction (st_ID <$> wc_Steps wf) as [|y l IH]; [done|]. simpl. by rewrite Hby, IH.
  - unfold RehydrateWait. fold r0 r. rewrite <- option_fmap_compose. unfold firstRunnableWait, r, r0.
    rewrite restored_pick. fold r0 ready r.
    assert (forall l : list string, omap (waitAt r) l = omap (waitAt r0) l) as Hom.
    { intros l. apply list_omap_ext, Forall2_same_length_lookup. split; [done|]. intros i x y Hx Hy.
      assert (x = y) as -> by congruence. unfold waitAt. by rewrite Hby. }
    rewrite Hom. destruct (head _) as [[stepID childID]|]; [|done]. cbn [fmap option_fmap option_map compose].
    by repeat case_match.
  - intros r'. unfold RehydrateApproval. fold r0 r. destruct (firstRunnableApproval r) as [y|]; [|done].
    intros [= <-]. split; [apply (Hput y)|done].
  - intros r'. unfold RehydrateWait. fold r0 r. destruct (firstRunnableWait r) as [[y c]|]; [|done].
    cbn [fmap option_fmap option_map]. set (r1 := set_waitingChild _ _).
    assert (state_of r1 (r_waitingStep r1) = stWaiting) as H1 by apply (Hput y).
    assert (forall d, waitStepConfig (set_waitDeadline d r1) = waitStepConfig r1) as Hcfg by reflexivity.
    destruct (st_WaitFor (waitStepConfig r1).1) as [w|] eqn:Ew.
    + destruct (0 <? ParsedMaxDuration w)%Z eqn:Em; intros [= <-]; (split; [exact H1|]); intros w' Hw'.
      * rewrite Hcfg, Ew in Hw'. injection Hw' as <-. done.
      * rewrite Ew in Hw'. injection Hw' as <-. apply Z.ltb_ge in Em. lia.
    + intros [= <-]. split; [exact H1|]. intros w' Hw'. by rewrite Ew in Hw'.
Qed.
End restored.

(** ** Selection and preview *)

Lemma declared_at_Some wf id i : declared_at wf !! id = Some i -> (st_ID <$> wc_Steps wf) !! i = Some id.
Proof. intros H. by apply index_lookup. Qed.

Lemma declared_at_total wf id : id ∈ st_ID <$> wc_Steps wf -> is_Some (declared_at wf !! id).
Proof.
  unfold declared_at.
  assert (forall l n (m : gmap string nat), is_Some (m !! id) \/ id ∈ st_ID <$> l ->
    is_Some (foldl (fun m '(i, s) => <[st_ID s := i]> m) m (imap (fun i => pair (n + i)) l) !! id)) as H.
  { induction l as [|s l IH]; intros n m; [by intros [H|H%elem_of_nil]|].
    rewrite imap_cons. cbn [foldl]. intros H.
    rewrite (imap_ext ((fun i => pair (n + i)) ∘ S) (fun i => pair (S n + i))) by (intros; simpl; by rewrite Nat.add_succ_r).
    apply IH. destruct (decide (st_ID s = id)) as [<-|Hne]; [left; rewrite lookup_insert_eq; eauto|].
    rewrite lookup_insert_ne by done. destruct H as [H|H]; [by left|right].
    rewrite fmap_cons in H. by apply elem_of_cons in H as [?|?]. }
  intros Hin. apply (H _ 0). by right.
Qed.

Lemma declared_at_exact wf id i :
  NoDup (st_ID <$> wc_Steps wf) -> declared_at wf !! id = Some i <-> (st_ID <$> wc_Steps wf) !! i = Some id.
Proof.
  intros Hnd. split; [apply declared_at_Some|]. intros H.
  destruct (declared_at_total wf id) as [j Hj]; [by eapply list_elem_of_lookup_2|].
  rewrite Hj. f_equal. eapply NoDup_lookup; [exact Hnd|by apply declared_at_Some|done].
Qed.

Lemma step_index_exact wf id i :
  NoDup (st_ID <$> wc_Steps wf) -> step_index wf id = Some i <-> (st_ID <$> wc_Steps wf) !! i = Some id.
Proof.
  intros Hnd. unfold step_index. rewrite list_lookup_fmap. split.
  - intros H. apply fmap_Some in H as ([j s] & H & ->). apply list_find_Some in H as (H1 & H2 & _).
    simpl. by rewrite H1, <- H2.
  - intros H. destruct (list_find_elem_of (fun s => st_ID s = id) (wc_Steps wf)) with
      (x := default (zero_step "") (wc_Steps wf !! i)) as [[j s] Hf].
    + destruct (wc_Steps wf !! i) eqn:E; [|done]. by eapply list_elem_of_lookup_2.
    + destruct (wc_Steps wf !! i); [|done]. by injection H.
    + rewrite Hf. simpl. apply list_find_Some in Hf as (H1 & H2 & _). f_equal.
      eapply NoDup_lookup; [exact Hnd| |by rewrite list_lookup_fmap].
      by rewrite list_lookup_fmap, H1, <- H2.
Qed.

(** A split of a list by position is a split by name. *)
Lemma filter_positions (p : nat * StepConfig -> bool) (q : string -> bool) steps :
  (forall i s, steps !! i = Some s -> p (i, s) = q (st_ID s)) ->
  (fun x => st_ID x.2) <$> List.filter p (imap pair steps) = List.filter q (st_ID <$> steps).
Proof.
  assert (forall n l, (forall i s, l !! i = Some s -> p (n + i, s) = q (st_ID s)) ->
    (fun x => st_ID x.2) <$> List.filter p (imap (fun i => pair (n + i)) l) = List.filter q (st_ID <$> l)) as H;
    [|apply (H 0)].
  intros n l. revert n. induction l as [|s l IH]; intros n Hl; [done|].
  rewrite imap_cons, fmap_cons. cbn [List.filter].
  rewrite (imap_ext ((fun i => pair (n + i)) ∘ S) (fun i => pair (S n + i))) by (intros; simpl; by rewrite Nat.add_succ_r).
  rewrite (Hl 0 s eq_refl). rewrite <- (IH (S n)).
  - by destruct (q (st_ID s)).
  - intros i s' Hi. rewrite <- (Hl (S i) s' Hi). f_equal. f_equal. lia.
Qed.

(** The finished rows of a selection. *)
Lemma recorded_declared wf (rows : list StepRun) i s :
  NoDup (st_ID <$> wc_Steps wf) -> (forall sr, sr ∈ rows -> row_done sr = true -> rn_State sr = "done") ->
  wc_Steps wf !! i = Some s ->
  recorded wf rows (st_ID s) = preview_passed rows (st_ID s) && negb (is_type StepTypeSplit s).
Proof.
  intros Hnd Hcan Hi.
  assert (byID_map wf !! st_ID s = Some s) as Hby.
  { destruct (byID_map_total (wc_Steps wf) ∅ (st_ID s)) as [s' Hs'].
    { left. apply list_elem_of_fmap_2. by eapply list_elem_of_lookup_2. }
    unfold byID_map. rewrite Hs'. f_equal. apply byID_map_lookup in Hs' as [[H1 H2]|H]; [|by rewrite lookup_empty in H].
    apply (steps_by_id wf); try done. by eapply list_elem_of_lookup_2. }
  apply eq_true_iff_eq. unfold recorded, preview_passed.
  rewrite andb_true_iff, !existsb_elem. unfold row_of, restorable. split.
  - intros (sr & Hin & H). apply andb_true_iff in H as [H Hid%bool_decide_eq_true]. rewrite Hid, Hby in H.
    apply andb_true_iff in H as [Hd Hty]. split; [|done]. exists sr. split; [done|].
    by rewrite !bool_decide_eq_true_2 by auto.
  - intros [(sr & Hin & H) Hty]. apply andb_true_iff in H as [Hs%bool_decide_eq_true Hid%bool_decide_eq_true].
    exists sr. split; [done|]. rewrite Hid, Hby, Hty, bool_decide_eq_true_2 by done.
    unfold row_done. rewrite Hs. vm_compute. done.
Qed.

Lemma recorded_filter wf (keep : StepRun -> bool) rows id (b : bool) :
  (forall sr, rn_StepID sr = id -> keep sr = b) ->
  recorded wf (List.filter keep rows) id = b && recorded wf rows id.
Proof.
  intros H. apply eq_true_iff_eq. rewrite andb_true_iff. unfold recorded. rewrite !existsb_elem.
  setoid_rewrite list_elem_of_In. setoid_rewrite filter_In. unfold row_of.
  setoid_rewrite andb_true_iff. setoid_rewrite bool_decide_eq_true. split.
  - intros (sr & [Hin Hk] & Hr & Hid). split; [by rewrite <- (H sr Hid)|]. by exists sr.
  - intros [Hb (sr & Hin & Hr & Hid)]. exists sr. by rewrite (H sr Hid).
Qed.

(** The preview of a resume tells what the resume does: over distinct step
    ids and rows in the canonical vocabulary, the steps it lists as skipped are
    those the resumed run starts with as passed, in the order of the workflow,
    and the steps it lists to run are all the others. *)
Theorem ResumePreview_agrees `{RT : GoRuntime} (wf : WorkflowConfig) (cell : SourceItem) inst resolved
    (rows : list StepRun) (fromStep : string) (skip run : list string)
    (Hnd : NoDup (st_ID <$> wc_Steps wf))
    (Hcan : forall sr, sr ∈ rows -> row_done sr = true -> rn_State sr = "done")
    (Hcheck : checkResume inst resolved = Ok wf)
    (Hpre : ResumePreview inst resolved rows fromStep = Ok (skip, run)) :
  exists selected, resumeCacheSelection wf rows fromStep = Ok selected
  /\ let r := (restoreCachedSteps (initDAG wf cell [] ∅) selected).1 in
     skip = List.filter (in_state r stPassed) (order r)
     /\ run = List.filter (fun id => negb (in_state r stPassed id)) (order r).
Proof.
  unfold ResumePreview in Hpre. rewrite Hcheck in Hpre. rsimpl in Hpre.
  set (skipped := fun (n : nat) (p : nat * StepConfig) => let '(i, s) := p in
         (i <? n) && preview_passed rows (st_ID s) && negb (is_type StepTypeSplit s)).
  assert (forall n sel, resumeCacheSelection wf rows fromStep = Ok sel ->
    (forall i s, wc_Steps wf !! i = Some s -> recorded wf sel (st_ID s) = (i <? n) && recorded wf rows (st_ID s)) ->
    ((fun p => st_ID p.2) <$> List.filter (skipped n) (imap pair (wc_Steps wf)),
     (fun p => st_ID p.2) <$> List.filter (fun p => negb (skipped n p)) (imap pair (wc_Steps wf))) = (skip, run) ->
    exists selected, resumeCacheSelection wf rows fromStep = Ok selected
    /\ let r := (restoreCachedSteps (initDAG wf cell [] ∅) selected).1 in
       skip = List.filter (in_state r stPassed) (order r)
       /\ run = List.filter (fun id => negb (in_state r stPassed id)) (order r)) as Hplan.
  { intros n sel Hsel Hrec [= <- <-]. exists sel. split; [exact Hsel|]. cbv zeta.
    assert (order (restoreCachedSteps (initDAG wf cell [] ∅) sel).1 = st_ID <$> wc_Steps wf) as ->.
    { destruct (restored_spec wf cell sel) as [seen [R1 _ _ _ _ _ _ _ _ _ _]]. unfold blank_run in R1.
      unfold order. by rewrite R1. }
    assert (forall i s, wc_Steps wf !! i = Some s ->
      skipped n (i, s) = in_state (restoreCachedSteps (initDAG wf cell [] ∅) sel).1 stPassed (st_ID s)) as Hs.
    { intros i s Hi. rewrite restored_passed, (Hrec i s Hi), (recorded_declared wf rows i s Hnd Hcan Hi).
      unfold skipped. by rewrite andb_assoc. }
    split; apply filter_positions; intros i s Hi; by rewrite (Hs i s Hi). }
  destruct (is_empty fromStep) eqn:Ef.
  - eapply (Hplan (length (wc_Steps wf)) rows); [unfold resumeCacheSelection; by rewrite Ef| |by injection Hpre as <- <-].
    intros i s Hi. apply lookup_lt_Some, Nat.ltb_lt in Hi. by rewrite Hi.
  - destruct (step_index wf fromStep) as [n|] eqn:En; [|done].
    apply (step_index_exact wf fromStep n Hnd), (declared_at_exact wf fromStep n Hnd) in En.
    eapply (Hplan n); [unfold resumeCacheSelection; by rewrite Ef, En| |by injection Hpre as <- <-].
    intros i s Hi. apply recorded_filter. intros sr ->.
    rewrite (proj2 (declared_at_exact wf (st_ID s) i Hnd)); [done|]. by rewrite list_lookup_fmap, Hi.
Qed.

(** ** What a resume writes *)

Section writes.
Context {RT : GoRuntime} (accepts : StoreOp -> bool) (newID : nat -> string).

Lemma write_cached_spec instID n rows :
  match write_cached accepts newID instID n rows with
  | (ops, true) => ops = imap (fun i sr => OpCreateStepRun (cached_row (newID (n + i)) instID sr)) rows
                   /\ Forall (fun op => accepts op = true) ops
  | (ops, false) => exists op, last ops = Some op /\ accepts op = false
  end.
Proof.
  revert n. induction rows as [|sr rows IH]; intros n; cbn [write_cached]; [done|].
  set (op := OpCreateStepRun _). destruct (accepts op) eqn:Ha; [|by exists op].
  specialize (IH (S n)). destruct (write_cached _ _ _ _ _) as [ops []].
  - destruct IH as [-> Hf]. split; [|by constructor]. rewrite imap_cons. unfold op. rewrite Nat.add_0_r. f_equal.
    apply imap_ext. intros i x _. simpl. by rewrite Nat.add_succ_r.
  - destruct IH as (op' & Hl & Hf). exists op'. split; [|done]. destruct ops; [done|]. exact Hl.
Qed.

(** What a resume writes before it drives, on every path. It succeeds with
    the descendant's row, its snapshot and one cached copy of each row carried
    over, in the order of the original, all accepted by the store. A step to
    resume from that the workflow does not declare is refused before any step is
    restored. When the store refuses a write, nothing is driven, and unless it
    refused the very first one the descendant is marked failed. *)
Theorem prepareResume_writes wf cell prior sourceID fromStep instID :
  let create := OpCreateInstance instID sourceID in
  let snapshot := OpSnapshot instID in
  match prepareResume accepts newID wf cell prior sourceID fromStep instID with
  | (ops, Ok r) => exists selected, resumeCacheSelection wf prior fromStep = Ok selected
      /\ r = (restoreCachedSteps (initDAG wf cell [] ∅) selected).1
      /\ ops = create :: snapshot :: imap (fun i sr => OpCreateStepRun (cached_row (newID i) instID sr))
                                       (List.filter (restorable wf) selected)
      /\ Forall (fun op => accepts op = true) ops
  | (ops, Err (StepNotFound step _)) =>
      step = fromStep /\ fromStep <> "" /\ (fromStep ∉ st_ID <$> wc_Steps wf) /\ ops = [create; snapshot]
  | (ops, Err StoreFailed) => ops = [create] /\ accepts create = false
      \/ exists op ops', ops = ops' ++ [op; OpInstanceState instID state.Failed] /\ accepts op = false
  end.
Proof.
  intros create snapshot. unfold prepareResume. fold create snapshot.
  destruct (accepts create) eqn:Hc; cbn [negb]; [|by left].
  destruct (accepts snapshot) eqn:Hs; cbn [negb]; [|right; by exists snapshot, [create]].
  destruct (resumeCacheSelection wf prior fromStep) as [sel|e] eqn:Hsel.
  - unfold seedResume. pose proof (restored_spec wf cell sel) as [seen [_ R2 _ _ _ _ _ _ _ _ _]]. unfold blank_run in R2.
    destruct (restoreCachedSteps _ sel) as [r restored] eqn:Er. cbn [snd] in R2. subst restored.
    pose proof (write_cached_spec instID 0 (List.filter (restorable wf) sel)) as Hw.
    destruct (write_cached _ _ _ _ _) as [ops []].
    + destruct Hw as [-> Hf]. exists sel. split_and!; [done|by rewrite Er|done|by repeat constructor].
    + right. destruct Hw as (op & Hl & Hf). apply last_Some in Hl as [ops' ->].
      exists op, (create :: snapshot :: ops'). split; [|done]. simpl. by rewrite <- app_assoc.
  - unfold resumeCacheSelection in Hsel. destruct (is_empty fromStep) eqn:Ef; [done|].
    destruct (declared_at wf !! fromStep) as [i|] eqn:Ed; [done|]. injection Hsel as <-.
    split_and!; [done|by apply is_empty_false| |done]. intros Hin.
    destruct (declared_at_total wf fromStep Hin) as [j Hj]. congruence.
Qed.
End writes.

(** ** What a resume does not run again *)

(** C16: over the life of a resumed run, a step that was carried over and that
    no undecided split governs stays passed and is never started again, as long
    as no step loops back. *)
Theorem resumed_steps_kept `{RT : GoRuntime} `{DG : Diagnostics} (concurrency : Z) (wf : WorkflowConfig)
    (cell : SourceItem) (rows : list StepRun) (k : config) (y : string)
    (Hrow : is_Some (last_row (row_of wf y) rows))
    (Hact : y ∈ (r_activated (restoreCachedSteps (initDAG wf cell [] ∅) rows).1))
    (Hp : passes concurrency (start (restoreCachedSteps (initDAG wf cell [] ∅) rows).1) k)
    (Hloop : r_retries (k_run k) = ∅ /\ r_conflictRetries (k_run k) = ∅) :
  state_of (k_run k) y = stPassed /\ y ∉ ((fun f => st_ID (flight_step f)) <$> k_inFlight k).
Proof.
  assert (carried y (start (restoreCachedSteps (initDAG wf cell [] ∅) rows).1)) as Hstart.
  { split; simpl; [|exact Hact|intros H; by apply elem_of_nil in H|done].
    destruct (restored_spec wf cell rows) as [seen [_ _ _ R4 _ _ _ _ _ _ _]]. unfold blank_run in R4. rewrite R4.
    by destruct Hrow as [sr ->]. }
  by destruct (carried_passes concurrency y _ k Hstart Hp Hloop).
Qed.

(** ** Witnesses *)

Definition done_row (id summary : string) : StepRun := {|
  rn_ID := "sr-" +:+ id; rn_InstanceID := "inst"; rn_StepID := id; rn_State := "done"; rn_SkippedReason := "";
  rn_Output := summary; rn_Structured := ""; rn_Summary := summary; rn_SkippedCached := false |}.

(** The build of [pipeline] finished, its test failed. *)
Definition build_only : list StepRun :=
  [done_row "build" "built";
   {| rn_ID := "sr-test"; rn_InstanceID := "inst"; rn_StepID := "test"; rn_State := "failed"; rn_SkippedReason := "";
      rn_Output := "no"; rn_Structured := ""; rn_Summary := ""; rn_SkippedCached := false |}].

Lemma ResumePreview_agrees_witness :
  ResumePreview (Some ("failed", "")) (Ok pipeline) build_only "ship" = Ok (["build"], ["test"; "ship"])
  /\ exists selected, resumeCacheSelection pipeline build_only "ship" = Ok selected
  /\ List.filter (in_state (@restoreCachedSteps literal_runtime (initDAG pipeline example_cell [] ∅) selected).1 stPassed)
       (order (@restoreCachedSteps literal_runtime (initDAG pipeline example_cell [] ∅) selected).1) = ["build"].
Proof.
  assert (ResumePreview (Some ("failed", "")) (Ok pipeline) build_only "ship" = Ok (["build"], ["test"; "ship"])) as Hp
    by (vm_compute; reflexivity).
  split; [exact Hp|].
  destruct (@ResumePreview_agrees literal_runtime pipeline example_cell (Some ("failed", "")) (Ok pipeline) build_only
              "ship" ["build"] ["test"; "ship"] pipeline_distinct) as (sel & H1 & H2 & _).
  - intros sr Hin Hd. unfold build_only in Hin. rewrite !elem_of_cons, elem_of_nil in Hin.
    destruct Hin as [->|[->|[]]]; [reflexivity|vm_compute in Hd; discriminate].
  - vm_compute. reflexivity.
  - exact Hp.
  - exists sel. split; [exact H1|]. symmetry. exact H2.
Defined.

(** Three passes of the resumed pipeline: the test runs and passes. *)
Definition resumed_pipeline : config :=
  match @drive_pass literal_runtime example_diagnostics 1 (event_at 0 (verdict "approved"))
          (start (@restoreCachedSteps literal_runtime (initDAG pipeline example_cell [] ∅) build_only).1) with
  | inl k => k
  | inr _ => start (initDAG pipeline example_cell [] ∅)
  end.

Lemma resumed_steps_kept_witness :
  state_of (k_run resumed_pipeline) "test" = stPassed /\ state_of (k_run resumed_pipeline) "build" = stPassed.
Proof.
  split; [vm_compute; reflexivity|].
  apply (@resumed_steps_kept literal_runtime example_diagnostics 1 pipeline example_cell build_only).
  - exists (done_row "build" "built"). vm_compute. reflexivity.
  - apply (bool_decide_unpack _). vm_compute. exact I.
  - eapply (passes_step 1 _ (event_at 0 (verdict "approved"))); [apply passes_refl|]. vm_compute. reflexivity.
  - vm_compute. split; reflexivity.
Defined.

(** ** Defects *)

(** The rows [seedResume] writes for the carried-over steps are marked skipped,
    and [restoreCachedSteps] reuses only done rows: resuming the descendant, or
    rehydrating it after a restart, carries none of them over, and their work is
    done again. *)
Theorem cached_rows_not_reused `{RT : GoRuntime} (wf : WorkflowConfig) (cell : SourceItem) (newID : nat -> string)
    (instID : string) (rows : list StepRun) :
  let cached := imap (fun i sr => cached_row (newID i) instID sr) rows in
  (restoreCachedSteps (initDAG wf cell [] ∅) cached).2 = []
  /\ forall y, state_of (restoreCachedSteps (initDAG wf cell [] ∅) cached).1 y = state_of (initDAG wf cell [] ∅) y.
Proof.
  intros cached. assert (forall sr, sr ∈ cached -> row_done sr = false) as Hd.
  { intros sr (i & x & -> & _)%elem_of_lookup_imap. unfold row_done. simpl. vm_compute. reflexivity. }
  destruct (restored_spec wf cell cached) as [seen [_ R2 _ R4 _ _ _ _ _ _ _]]. unfold blank_run in R2, R4. split.
  - rewrite R2. clear R2 R4. induction cached as [|sr l IH]; [done|]. cbn [List.filter]. unfold restorable at 1.
    rewrite (Hd sr) by apply list_elem_of_here. simpl. apply IH. intros x Hx. by apply Hd, list_elem_of_further.
  - intros y. rewrite R4. destruct (last_row (row_of wf y) cached) as [sr|] eqn:E; [|done].
    apply last_row_Some in E as [Hin H]. unfold row_of, restorable in H. rewrite (Hd sr Hin) in H. done.
Qed.

(** A step runs again when its last run failed, says the comment of
    [restoreCachedSteps]; an earlier run that passed is enough for the code. *)
Theorem failed_rerun_is_restored `{RT : GoRuntime} (cell : SourceItem) (wf : WorkflowConfig) (id : string)
    (rows later : list StepRun) :
  (exists sr, sr ∈ rows /\ row_of wf id sr = true) ->
  state_of (restoreCachedSteps (initDAG wf cell [] ∅) (rows ++ later)).1 id = stPassed.
Proof.
  intros (sr & Hin & Hr). destruct (restored_spec wf cell (rows ++ later)) as [seen [_ _ _ R4 _ _ _ _ _ _ _]].
  unfold blank_run in R4. rewrite R4. destruct (proj2 (last_row_is_Some (row_of wf id) (rows ++ later))) as [x ->]; [|done].
  exists sr. split; [|done]. apply elem_of_app. by left.
Qed.

Definition wait_of (id : string) (deps : list string) : StepConfig :=
  ir_step id "wait_for" deps [] "" "" "" "" None "" None "" None None false [] "" None None "" []
    (Some {| wf_Kind := "ci"; wf_CheckInterval := ""; wf_MaxDuration := ""; wf_FailIfNotPassed := None;
             wf_CISource := ""; wf_SatisfiedWhen := []; wf_BlockerLinkType := ""; wf_OnTimeout := "" |})
    "" "" 0 0 false None [] "".

(** Implement, wait for the checks, review, merge; a failed merge starts over. *)
Definition delivery : WorkflowConfig := workflow_of
  [step_of "implement" "agent" []; wait_of "ci" ["implement"]; step_of "review" "agent" ["ci"];
   ir_step "merge" "agent" ["review"] [] "" "" "" "" None "" None "" (Some {| so_Goto := "implement"; so_MaxRetries := 2 |})
     None false [] "" None None "" [] None "" "" 0 0 false None [] ""].

Definition report (ok pending : bool) : payload := {|
  pl_res := {| sr_Success := ok; sr_Output := ""; sr_Structured := ∅; sr_Summary := ""; sr_Pending := pending;
               sr_Conflict := false |};
  pl_contribs := []; pl_waitingChild := ""; pl_done := ∅; pl_exit := 0 |}.

(** The merge fails at the end of the first lap; the second waits for checks. *)
Definition delivery_events (i : nat) : Event :=
  event_at 0 (match i with 3 => report false false | 6 => report false true | _ => report true false end).

Definition parked_delivery : option (dagOutcome * dagRun) :=
  @driveDAG literal_runtime example_diagnostics 1 20 delivery_events (initDAG delivery example_cell [] ∅).

(** The step rows that run persisted. *)
Definition delivery_rows : list StepRun :=
  [done_row "implement" "first"; done_row "review" "first";
   {| rn_ID := "sr-merge"; rn_InstanceID := "inst"; rn_StepID := "merge"; rn_State := "failed";
      rn_SkippedReason := ""; rn_Output := ""; rn_Structured := ""; rn_Summary := ""; rn_SkippedCached := false |};
   done_row "implement" "second"].

(** A loop-back resets the steps it will run again, but their rows stay: a restart
    in the second lap restores the review of the first. The live run would
    review the new implementation before it merges; the rehydrated one merges
    it as it is once the checks pass. *)
Lemma rehydrate_skips_review :
  match parked_delivery, @RehydrateWait literal_runtime 0 delivery example_cell delivery_rows with
  | Some (outcomeWaiting, live), Some restored =>
      r_waitingStep live = "ci" /\ r_waitingStep restored = "ci"
      /\ state_of live "review" = stPending /\ state_of restored "review" = stPassed
      /\ pickAllRunnable (put_state "ci" stPassed live) = ["review"]
      /\ pickAllRunnable (put_state "ci" stPassed restored) = ["merge"]
  | _, _ => False
  end.
Proof. vm_compute. repeat split. Qed.

(** A step behind a condition that did not hold. *)
Definition guarded_gate : WorkflowConfig := workflow_of
  [ir_step "docs" "agent" [] [] "cell.type == 'bug'" "" "" "" None "" None "" None None false [] "" None None "" []
     None "" "" 0 0 false None [] "";
   with_SeqDependsOn ["docs"] (step_of "gate" "approval" [])].

(** The gate of a workflow parks although the step before it was skipped by its
    condition; after a restart it is not found again, because a skipped step
    leaves no row, and nothing checks the instance any more. *)
Lemma rehydrate_loses_gate_after_skip :
  match @driveDAG literal_runtime example_diagnostics 1 9 (fun _ => event_at 0 (report true false))
          (initDAG guarded_gate example_cell [] ∅) with
  | Some (outcomeWaiting, live) => r_waitingStep live = "gate" /\ state_of live "docs" = stCondSkipped
  | _ => False
  end
  /\ @RehydrateApproval literal_runtime guarded_gate example_cell [] 0 = None.
Proof. split; [vm_compute; split; reflexivity|vm_compute; reflexivity]. Qed.

(** Two gates in sequence: a run parked at the second, whose first was approved,
    is rehydrated at the first, because an approval leaves no row. *)
Lemma rehydrate_asks_again :
  let wf := workflow_of [step_of "design" "approval" []; step_of "build" "agent" ["design"];
                         step_of "release" "approval" ["build"]] in
  let rows := [done_row "build" "built"] in
  match @driveDAG literal_runtime example_diagnostics 1 9 (fun _ => event_at 0 (report true false))
          (initDAG wf example_cell [] ∅) with
  | Some (outcomeWaiting, r1) =>
      match @driveDAG literal_runtime example_diagnostics 1 9 (fun _ => event_at 0 (report true false))
              (resolveApproval ApprovalResume r1) with
      | Some (outcomeWaiting, r2) =>
          r_waitingStep r1 = "design" /\ r_waitingStep r2 = "release"
          /\ r_waitingStep <$> @RehydrateApproval literal_runtime wf example_cell rows 0 = Some "design"
      | _ => False
      end
  | _ => False
  end.
Proof. vm_compute. repeat split. Qed.
