(* ===== verification/Tasks.v ===== *)
(** * Tasks and workflow instances (src/internal/db/task_store.go and
      workflow_store.go, src/internal/workflow/engine.go)

    The rows that say whether a task still has work under way, whether its
    current round failed, and whether a workflow of it may be dispatched again;
    the engine's settlement of a finished instance; and the repairs made after a
    restart. Every statement of the store is one function on the two tables; a
    NULL text column reads as the empty string, as COALESCE makes it. *)

From stdpp Require Import base gmap strings list.
From Stdlib Require Import ZArith.
From S2P Require Import Prelude State.

(** The columns of [internal_tasks] these statements read and write. *)
Record TaskRow := {
  tk_state : string;
  tk_reason : string;
  tk_outstanding : Z;
  tk_generation : Z;
}.

(** The columns of [workflow_instances]. *)
Record InstanceRow := {
  wi_ID : string;
  wi_WorkflowID : string;
  wi_TaskID : string;
  wi_State : string;
  wi_Reason : string;
  wi_Generation : Z;
  wi_ResumedFrom : string;
  wi_CreatedAt : Z;
}.

(** The two tables; instances in rowid order, the order of insertion. *)
Record Tables := {
  internal_tasks : gmap string TaskRow;
  workflow_instances : list InstanceRow;
}.

Definition set_tasks (v : gmap string TaskRow) (db : Tables) : Tables :=
  {| internal_tasks := v; workflow_instances := workflow_instances db |}.
Definition set_instances (v : list InstanceRow) (db : Tables) : Tables :=
  {| internal_tasks := internal_tasks db; workflow_instances := v |}.

Definition with_task_state (st reason : string) (t : TaskRow) : TaskRow :=
  {| tk_state := st; tk_reason := reason; tk_outstanding := tk_outstanding t; tk_generation := tk_generation t |}.
Definition with_instance_state (st reason : string) (i : InstanceRow) : InstanceRow :=
  {| wi_ID := wi_ID i; wi_WorkflowID := wi_WorkflowID i; wi_TaskID := wi_TaskID i; wi_State := st;
     wi_Reason := reason; wi_Generation := wi_Generation i; wi_ResumedFrom := wi_ResumedFrom i;
     wi_CreatedAt := wi_CreatedAt i |}.

(** ** The task store *)

(** [GetTask]: the columns above. *)
Definition GetTask (id : string) (db : Tables) : option TaskRow := internal_tasks db !! id.

(** [UpdateTaskStateReason] and [UpdateTaskState]. *)
Definition UpdateTaskStateReason (id st reason : string) (db : Tables) : Tables :=
  set_tasks (alter (with_task_state st reason) id (internal_tasks db)) db.

Definition UpdateTaskState (id st : string) (db : Tables) : Tables := UpdateTaskStateReason id st "" db.

(** [taskReopenable]. *)
Definition taskReopenable (t : TaskRow) : bool :=
  str_in (tk_state t) ["done"; "failed"; "canceled"]
  || bool_decide (tk_state t = "blocked") && bool_decide (tk_reason t = "retry_backoff").

(** The UPDATE of [IncrementOutstanding]: every CASE reads the old row. *)
Definition increment_row (delta : Z) (t : TaskRow) : TaskRow :=
  let reopen := (0 <? delta)%Z && taskReopenable t in {|
    tk_state := if reopen then "running" else tk_state t;
    tk_reason := if reopen then "" else tk_reason t;
    tk_outstanding := tk_outstanding t + delta;
    tk_generation := if reopen then (tk_generation t + 1)%Z else tk_generation t |}.

(** [outstanding]. *)
Definition outstanding (id : string) (db : Tables) : Z :=
  from_option tk_outstanding 0%Z (internal_tasks db !! id).

(** [IncrementOutstanding]: the new count. *)
Definition IncrementOutstanding (id : string) (delta : Z) (db : Tables) : Z * Tables :=
  let db := set_tasks (alter (increment_row delta) id (internal_tasks db)) db in (outstanding id db, db).

Definition decrement_row (t : TaskRow) : TaskRow :=
  {| tk_state := tk_state t; tk_reason := tk_reason t; tk_outstanding := Z.max (tk_outstanding t - 1) 0;
     tk_generation := tk_generation t |}.

(** [DecrementOutstanding]: one statement, so its RETURNING is the count it
    left. *)
Definition DecrementOutstanding (id : string) (db : Tables) : Z * Tables :=
  let db := set_tasks (alter decrement_row id (internal_tasks db)) db in (outstanding id db, db).

(** [Generation]. *)
Definition Generation (id : string) (db : Tables) : Z :=
  from_option tk_generation 0%Z (internal_tasks db !! id).

Definition bump_row (t : TaskRow) : TaskRow :=
  {| tk_state := tk_state t; tk_reason := tk_reason t; tk_outstanding := tk_outstanding t;
     tk_generation := tk_generation t + 1 |}.

(** [BumpGeneration]. *)
Definition BumpGeneration (id : string) (db : Tables) : Z * Tables :=
  let db := set_tasks (alter bump_row id (internal_tasks db)) db in (Generation id db, db).

(** [DeleteTask]. *)
Definition DeleteTask (id : string) (db : Tables) : Tables := set_tasks (delete id (internal_tasks db)) db.

(** ** The instance store *)

(** [CreateWorkflowInstance]: stamped with the generation of its task; the id is
    the primary key, so [None] is the error of an id that is taken. *)
Definition CreateWorkflowInstance (now : Z) (inst : InstanceRow) (db : Tables) : option Tables :=
  if str_in (wi_ID inst) (wi_ID <$> workflow_instances db) then None
  else Some (set_instances (workflow_instances db ++ [{|
    wi_ID := wi_ID inst; wi_WorkflowID := wi_WorkflowID inst; wi_TaskID := wi_TaskID inst;
    wi_State := wi_State inst; wi_Reason := wi_Reason inst; wi_Generation := Generation (wi_TaskID inst) db;
    wi_ResumedFrom := wi_ResumedFrom inst;
    wi_CreatedAt := if (wi_CreatedAt inst =? 0)%Z then now else wi_CreatedAt inst |}]) db).

(** [UPDATE workflow_instances SET ... WHERE p]: the table and the rows
    affected. *)
Definition update_instances (p : InstanceRow -> bool) (f : InstanceRow -> InstanceRow) (db : Tables)
    : Tables * nat :=
  (set_instances (map (fun i => if p i then f i else i) (workflow_instances db)) db,
   length (List.filter p (workflow_instances db))).

(** [GetWorkflowInstance]. *)
Definition GetWorkflowInstance (id : string) (db : Tables) : option InstanceRow :=
  List.find (fun i => bool_decide (wi_ID i = id)) (workflow_instances db).

(** [ListWorkflowInstancesByTask], but for the order. *)
Definition ListWorkflowInstancesByTask (taskID : string) (db : Tables) : list InstanceRow :=
  List.filter (fun i => negb (is_empty (wi_TaskID i)) && bool_decide (wi_TaskID i = taskID)) (workflow_instances db).

(** [UpdateWorkflowInstanceState]: nothing to write when the row already says
    so. *)
Definition UpdateWorkflowInstanceState (id newState reason : string) (db : Tables) : Tables :=
  let same := match GetWorkflowInstance id db with
              | Some i => bool_decide (wi_State i = newState) && bool_decide (wi_Reason i = reason)
              | None => false
              end in
  if same then db
  else (update_instances (fun i => bool_decide (wi_ID i = id)) (with_instance_state newState reason) db).1.

(** [LeaveQueuedState]: did this call move the row out of 'queued'? *)
Definition LeaveQueuedState (id newState reason : string) (db : Tables) : Tables * bool :=
  let '(db, n) := update_instances (fun i => bool_decide (wi_ID i = id) && bool_decide (wi_State i = state.Queued))
                    (with_instance_state newState reason) db in
  (db, negb (n =? 0)).

(** [task_id = ?]: NULL equals nothing. *)
Definition of_task (taskID : string) (i : InstanceRow) : bool :=
  negb (is_empty (wi_TaskID i)) && bool_decide (wi_TaskID i = taskID).
Definition of_route (taskID workflowID : string) (i : InstanceRow) : bool :=
  of_task taskID i && bool_decide (wi_WorkflowID i = workflowID).
Definition is_failed (i : InstanceRow) : bool := bool_decide (wi_State i = state.Failed).

(** [HasFailedInstance]. *)
Definition HasFailedInstance (taskID : string) (db : Tables) : bool :=
  existsb (fun i => of_task taskID i && is_failed i && (wi_Generation i =? Generation taskID db)%Z)
    (workflow_instances db).

(** [CountConsecutiveFailedInstances]: the failed rows of the route beyond the
    last row of it that is not failed; the position of a row is its rowid. *)
Definition last_unfailed (taskID workflowID : string) (rows : list InstanceRow) : nat :=
  foldl (fun m '(n, i) => if of_route taskID workflowID i && negb (is_failed i) then S n else m) 0
    (imap pair rows).

Definition CountConsecutiveFailedInstances (taskID workflowID : string) (db : Tables) : nat :=
  let rows := workflow_instances db in
  length (List.filter (fun '(n, i) => of_route taskID workflowID i && is_failed i
                                      && (last_unfailed taskID workflowID rows <? S n)) (imap pair rows)).

(** A run under way, or parked for something that will come. *)
Definition active (i : InstanceRow) : bool :=
  str_in (wi_State i) ["running"; "approval_waiting"; "waiting"]
  || bool_decide (wi_State i = "blocked") && negb (bool_decide (wi_Reason i = state.ReasonInterrupted)).

(** [HasActiveInstanceForRoute]. *)
Definition HasActiveInstanceForRoute (taskID workflowID : string) (db : Tables) : bool :=
  existsb (fun i => of_route taskID workflowID i && active i) (workflow_instances db).

(** [HasCompletedInstanceForRoute]. *)
Definition HasCompletedInstanceForRoute (taskID workflowID : string) (db : Tables) : bool :=
  existsb (fun i => of_route taskID workflowID i && bool_decide (wi_State i = state.Done)) (workflow_instances db).

(** [HasResumeDescendant]. *)
Definition HasResumeDescendant (instanceID : string) (db : Tables) : bool :=
  existsb (fun i => negb (is_empty (wi_ResumedFrom i)) && bool_decide (wi_ResumedFrom i = instanceID))
    (workflow_instances db).

(** The rows [LatestResumableInstance] chooses the newest of. *)
Definition latestResumable_matches (workflowID : string) (i : InstanceRow) : bool :=
  bool_decide (wi_WorkflowID i = workflowID) && str_in (wi_State i) ["failed"; "interrupted"].

(** The legacy state that means the same as a reason. *)
Definition legacy_of_reason (r : string) : option string :=
  if bool_decide (r = "approval") then Some "approval_waiting"
  else if bool_decide (r = "ci") then Some "waiting"
  else if bool_decide (r = "dependency") then Some "waiting"
  else if bool_decide (r = "interrupted") then Some "interrupted"
  else None.

(** The rows [ListWorkflowInstancesBlockedBy] lists. *)
Definition blockedBy_matches (reasons : list string) (i : InstanceRow) : bool :=
  match reasons with
  | [] => false
  | _ => bool_decide (wi_State i = "blocked") && str_in (wi_Reason i) reasons
         || str_in (wi_State i) (omap legacy_of_reason reasons)
  end.

(** ** After a restart *)

(** [ReconcileOrphanWorkflowInstances]. *)
Definition ReconcileOrphanWorkflowInstances (db : Tables) : Tables * nat :=
  update_instances (fun i => bool_decide (wi_State i = state.Running))
    (with_instance_state state.Blocked state.ReasonInterrupted) db.

(** [ReconcileOrphanQueuedInstances]: [live] are the instances the payload of a
    job that is not over names. *)
Definition ReconcileOrphanQueuedInstances (live : gset string) (db : Tables) : Tables * nat :=
  update_instances (fun i => bool_decide (wi_State i = state.Queued) && negb (bool_decide (wi_ID i ∈ live)))
    (with_instance_state state.Blocked state.ReasonInterrupted) db.

(** [liveStates] or [liveBlocked]. *)
Definition live_row (i : InstanceRow) : bool :=
  str_in (wi_State i) ["queued"; "running"; "pending"; "approval_waiting"; "waiting"]
  || bool_decide (wi_State i = "blocked") && negb (bool_decide (wi_Reason i = state.ReasonInterrupted)).

Definition live_count (taskID : string) (rows : list InstanceRow) : nat :=
  length (List.filter (fun i => of_task taskID i && live_row i) rows).

(** The two statements of [ReconcileOrphanTaskCounters] on one task. *)
Definition recount_row (rows : list InstanceRow) (id : string) (t : TaskRow) : TaskRow :=
  if str_in (tk_state t) ["done"; "failed"; "canceled"] then t
  else {| tk_state := tk_state t; tk_reason := tk_reason t; tk_outstanding := Z.of_nat (live_count id rows);
          tk_generation := tk_generation t |}.

Definition settled_in_round (st : string) (rows : list InstanceRow) (id : string) (t : TaskRow) : bool :=
  existsb (fun i => of_task id i && bool_decide (wi_State i = st) && (wi_Generation i =? tk_generation t)%Z) rows.

Definition settle_orphan_row (rows : list InstanceRow) (id : string) (t : TaskRow) : TaskRow :=
  let failed := settled_in_round state.Failed rows id t in
  if bool_decide (tk_state t = "running") && (tk_outstanding t =? 0)%Z
     && (settled_in_round state.Done rows id t || failed)
  then {| tk_state := if failed then "failed" else "done"; tk_reason := tk_reason t;
          tk_outstanding := tk_outstanding t; tk_generation := tk_generation t |}
  else t.

(** [ReconcileOrphanTaskCounters]. *)
Definition ReconcileOrphanTaskCounters (db : Tables) : Tables :=
  let rows := workflow_instances db in
  let db := set_tasks (map_imap (fun id t => Some (recount_row rows id t)) (internal_tasks db)) db in
  set_tasks (map_imap (fun id t => Some (settle_orphan_row rows id t)) (internal_tasks db)) db.

(** A row an interruption left behind. *)
Definition interrupted_row (i : InstanceRow) : bool :=
  bool_decide (wi_State i = "interrupted")
  || bool_decide (wi_State i = "blocked") && bool_decide (wi_Reason i = state.ReasonInterrupted).

(** [PropagateInterruptedToTasks]. *)
Definition propagate_row (rows : list InstanceRow) (id : string) (t : TaskRow) : TaskRow :=
  if negb (str_in (tk_state t) ["done"; "failed"; "canceled"; "running"])
     && negb (bool_decide (tk_reason t = state.ReasonInterrupted)) && (tk_outstanding t =? 0)%Z
     && existsb (fun i => of_task id i && interrupted_row i) rows
     && negb (existsb (fun i => of_task id i && live_row i) rows)
  then with_task_state "blocked" state.ReasonInterrupted t else t.

Definition PropagateInterruptedToTasks (db : Tables) : Tables :=
  set_tasks (map_imap (fun id t => Some (propagate_row (workflow_instances db) id t)) (internal_tasks db)) db.

(** ** The engine *)

(** [retryPending]: will the dispatcher try the workflow again? [limit] is
    settings.max_attempts. *)
Definition retryPending (limit : Z) (taskID workflowID : string) (db : Tables) : bool :=
  if (limit <=? 0)%Z || is_empty taskID || is_empty workflowID then false
  else (Z.of_nat (CountConsecutiveFailedInstances taskID workflowID db) <? limit)%Z.

(** The state and reason [completeTask] gives the task. *)
Definition final_task_state (limit : Z) (taskID workflowID : string) (anyFailed : bool) (db : Tables)
    : string * string :=
  if anyFailed then
    if retryPending limit taskID workflowID db then (state.Blocked, state.ReasonRetryBackoff) else (state.Failed, "")
  else (state.Done, "").

(** [completeTask]: the new tables, and whether the failure hook applies, when
    this was the last workflow under way. *)
Definition completeTask (limit : Z) (taskID workflowID : string) (failed : bool) (db : Tables)
    : Tables * option bool :=
  if is_empty taskID then (db, None)
  else
    let '(remaining, db) := DecrementOutstanding taskID db in
    if (0 <? remaining)%Z then (db, None)
    else
      let anyFailed := failed || HasFailedInstance taskID db in
      let '(st, reason) := final_task_state limit taskID workflowID anyFailed db in
      (UpdateTaskStateReason taskID st reason db, Some anyFailed).

(** [releaseOutstanding]. *)
Definition releaseOutstanding (taskID : string) (db : Tables) : Tables :=
  if is_empty taskID then db else (DecrementOutstanding taskID db).2.
