(* ===== verification/Settle.v ===== *)
(** * Settling the workflows of a task

    One round of a task: the dispatcher counts its workflows in, each workflow
    creates its instance row, runs, persists how it ended and settles
    ([completeTask]), all of them concurrently. The steps are the statements the
    store executes, so every interleaving of the workflows is a path. *)

From stdpp Require Import base gmap strings list.
From Stdlib Require Import ZArith.
From S2P Require Import Prelude State Tasks.

(** How far a workflow of the round is. *)
Inductive Phase :=
  | PNew                                          (* not started *)
  | PRun                                          (* its row is there, it runs *)
  | PPersisted                                    (* its final state is written *)
  | PChecking                                     (* its decrement left zero *)
  | PSettling (anyFailed : bool) (final : string * string)   (* it knows how the task ends *)
  | PEnd (completed : option bool).               (* over; did it complete the task, and how *)

Record Runner := {
  rr_inst : string;
  rr_workflow : string;
  rr_failed : bool;
  rr_created : Z;                (* the engine's clock when it creates the row *)
  rr_phase : Phase;
}.

Definition at_phase (p : Phase) (r : Runner) : Runner :=
  {| rr_inst := rr_inst r; rr_workflow := rr_workflow r; rr_failed := rr_failed r;
     rr_created := rr_created r; rr_phase := p |}.

Definition final_instance_state (r : Runner) : string := if rr_failed r then state.Failed else state.Done.

Section settle.
Context (limit : Z) (task : string).

Definition new_instance (r : Runner) : InstanceRow := {|
  wi_ID := rr_inst r; wi_WorkflowID := rr_workflow r; wi_TaskID := task; wi_State := state.Running;
  wi_Reason := ""; wi_Generation := 0; wi_ResumedFrom := "";
  wi_CreatedAt := rr_created r |}.

(** The next statement of a workflow. *)
Definition runner_step (r : Runner) (db : Tables) : option (Runner * Tables) :=
  match rr_phase r with
  | PNew => (fun db => (at_phase PRun r, db)) <$> CreateWorkflowInstance (rr_created r) (new_instance r) db
  | PRun => Some (at_phase PPersisted r, UpdateWorkflowInstanceState (rr_inst r) (final_instance_state r) "" db)
  | PPersisted =>
      let '(remaining, db) := DecrementOutstanding task db in
      Some (at_phase (if (0 <? remaining)%Z then PEnd None else PChecking) r, db)
  | PChecking =>
      let anyFailed := rr_failed r || HasFailedInstance task db in
      Some (at_phase (PSettling anyFailed (final_task_state limit task (rr_workflow r) anyFailed db)) r, db)
  | PSettling anyFailed (st, reason) =>
      Some (at_phase (PEnd (Some anyFailed)) r, UpdateTaskStateReason task st reason db)
  | PEnd _ => None
  end.

Definition Round : Type := Tables * list Runner.

(** One of the workflows takes its next step. *)
Inductive round_step : Round -> Round -> Prop :=
  | RStep db rs i r r' db' : rs !! i = Some r -> runner_step r db = Some (r', db') ->
      round_step (db, rs) (db', <[i := r']> rs).

Definition round_reachable : relation Round := rtc round_step.
End settle.

(** The round under a schedule: whose turn it is at each step. *)
Fixpoint run_schedule (limit : Z) (task : string) (turns : list nat) (rd : Round) : option Round :=
  match turns with
  | [] => Some rd
  | i :: turns => '(r', db') ← (r ← rd.2 !! i; runner_step limit task r rd.1);
                  run_schedule limit task turns (db', <[i := r']> rd.2)
  end.

Lemma schedule_reachable limit task turns rd rd' :
  run_schedule limit task turns rd = Some rd' -> round_reachable limit task rd rd'.
Proof.
  revert rd. induction turns as [|i turns IH]; intros [db rs]; simpl; [intros [= ->]; apply rtc_refl|].
  destruct (rs !! i) as [r|] eqn:Hi; [|done]. simpl. destruct (runner_step limit task r db) as [[r' db']|] eqn:Hr; [|done].
  intros H%IH. eapply rtc_l; [by econstructor|done].
Qed.

(** A workflow nothing interleaves with. *)
Fixpoint alone (limit : Z) (task : string) (n : nat) (r : Runner) (db : Tables) : Runner * Tables :=
  match n with
  | 0 => (r, db)
  | S n => match runner_step limit task r db with
           | Some (r, db) => alone limit task n r db
           | None => (r, db)
           end
  end.

(** Its last three steps are [completeTask]. *)
Lemma completeTask_steps limit task r db :
  task <> "" -> rr_phase r = PPersisted ->
  (rr_phase (alone limit task 3 r db).1, (alone limit task 3 r db).2)
  = (PEnd (completeTask limit task (rr_workflow r) (rr_failed r) db).2,
     (completeTask limit task (rr_workflow r) (rr_failed r) db).1).
Proof.
  intros Hne Hp. unfold completeTask. rewrite (proj2 (is_empty_false _) Hne).
  unfold alone. unfold runner_step at 1 4. rewrite Hp.
  destruct (DecrementOutstanding task db) as [n db1]. destruct (0 <? n)%Z; [done|]. simpl.
  by destruct (final_task_state _ _ _ _ _) as [st reason].
Qed.

(** ** The invariant of a round *)

Section round.
Context (limit : Z) (task : string) (Htask : task <> "").

(** The tables when the dispatcher has counted the round in, and its
    workflows. *)
Context (db0 : Tables) (t0 : TaskRow) (Ht0 : internal_tasks db0 !! task = Some t0).

(** The workflow has not given its slot back. *)
Definition holds_slot (r : Runner) : bool :=
  match rr_phase r with PNew | PRun | PPersisted => true | _ => false end.

(** The workflow is the one that completes the task. *)
Definition completes (r : Runner) : bool :=
  match rr_phase r with PChecking | PSettling _ _ | PEnd (Some _) => true | _ => false end.

Definition persisted (r : Runner) : bool :=
  match rr_phase r with PNew | PRun => false | _ => true end.

(** The row of a workflow of the round, by phase. *)
Definition row_fits (r : Runner) (i : InstanceRow) : Prop :=
  wi_TaskID i = task /\ wi_Generation i = tk_generation t0 /\ wi_WorkflowID i = rr_workflow r
  /\ wi_State i = (if persisted r then final_instance_state r else state.Running).

Definition foreign (rs : list Runner) (i : InstanceRow) : bool := negb (str_in (wi_ID i) (rr_inst <$> rs)).

(** How the round ends, given the workflows: a failure of it, or one that was
    already there. *)
Definition round_failed (rs : list Runner) : bool := existsb rr_failed rs || HasFailedInstance task db0.

(** What a verdict makes of the task. *)
Definition final_ok (failed : bool) (final : string * string) : Prop :=
  if failed then final = (state.Failed, "") \/ (0 < limit)%Z /\ final = (state.Blocked, state.ReasonRetryBackoff)
  else final = (state.Done, "").

Record round_inv (db : Tables) (rs : list Runner) : Prop := {
  ri_distinct : NoDup (rr_inst <$> rs);
  ri_task : exists t, internal_tasks db !! task = Some t /\ tk_generation t = tk_generation t0
                      /\ tk_outstanding t = Z.of_nat (length (List.filter holds_slot rs));
  ri_foreign : List.filter (foreign rs) (workflow_instances db) = workflow_instances db0;
  ri_rows : forall r, r ∈ rs -> rr_phase r <> PNew ->
    exists i, i ∈ workflow_instances db /\ wi_ID i = rr_inst r /\ row_fits r i;
  ri_owned : forall i, i ∈ workflow_instances db -> wi_ID i ∈ rr_inst <$> rs ->
    exists r, r ∈ rs /\ rr_inst r = wi_ID i /\ rr_phase r <> PNew /\ row_fits r i;
  ri_completer : length (List.filter completes rs) = (if forallb (fun r => negb (holds_slot r)) rs then 1 else 0);
  ri_settling : forall r f fin, r ∈ rs -> rr_phase r = PSettling f fin -> f = round_failed rs /\ final_ok f fin;
  ri_end : forall r f, r ∈ rs -> rr_phase r = PEnd (Some f) -> f = round_failed rs
    /\ exists t, internal_tasks db !! task = Some t /\ final_ok f (tk_state t, tk_reason t);
}.

(** *** Counting workflows *)

Lemma filter_insert_length (p : Runner -> bool) (rs : list Runner) (i : nat) r r' :
  rs !! i = Some r ->
  length (List.filter p (<[i := r']> rs)) + (if p r then 1 else 0)
  = length (List.filter p rs) + (if p r' then 1 else 0).
Proof.
  revert i. induction rs as [|x rs IH]; intros i; [done|]. destruct i as [|i]; simpl.
  - intros [= ->]. destruct (p r), (p r'); simpl; lia.
  - intros H. specialize (IH i H). destruct (p x); simpl; lia.
Qed.

Lemma at_phase_inst (rs : list Runner) (i : nat) r p : rs !! i = Some r -> rr_inst <$> <[i := at_phase p r]> rs = rr_inst <$> rs.
Proof. intros H. rewrite list_fmap_insert. apply list_insert_id. by rewrite list_lookup_fmap, H. Qed.

Lemma at_phase_failed (rs : list Runner) (i : nat) r p : rs !! i = Some r -> existsb rr_failed (<[i := at_phase p r]> rs) = existsb rr_failed rs.
Proof.
  revert i. induction rs as [|x rs IH]; intros i; [done|]. destruct i as [|i]; simpl; [by intros [= ->]|].
  intros H. by rewrite IH.
Qed.

Lemma in_insert (rs : list Runner) (i : nat) (r r' x : Runner) : x ∈ <[i := r']> rs -> rs !! i = Some r -> x = r' \/ exists j, j <> i /\ rs !! j = Some x.
Proof.
  intros (j & Hj)%list_elem_of_lookup Hi. destruct (decide (j = i)) as [->|Hne].
  - rewrite list_lookup_insert_eq in Hj by (by eapply lookup_lt_Some). left. congruence.
  - rewrite list_lookup_insert_ne in Hj by done. right. eauto.
Qed.

(** The workflow that completes the task is the only one left. *)
Lemma completer_alone db rs i r :
  round_inv db rs -> rs !! i = Some r -> completes r = true ->
  (forall x, x ∈ rs -> holds_slot x = false) /\ (forall j x, rs !! j = Some x -> completes x = true -> j = i).
Proof.
  intros Hinv Hi Hc. pose proof (ri_completer _ _ Hinv) as Hn.
  assert (0 < length (List.filter completes rs)) as Hpos.
  { destruct (List.filter completes rs) eqn:E; [|simpl; lia].
    assert (r ∈ List.filter completes rs) as Hin.
    { rewrite list_elem_of_In, filter_In, <- list_elem_of_In. split; [by eapply list_elem_of_lookup_2|done]. }
    rewrite E in Hin. by apply elem_of_nil in Hin. }
  destruct (forallb _ rs) eqn:Ef; [|lia]. split.
  - intros x Hx. rewrite forallb_forall in Ef. apply list_elem_of_In, Ef in Hx. by destruct (holds_slot x).
  - intros j x Hj Hx. destruct (decide (j = i)) as [|Hne]; [done|]. exfalso.
    pose proof (filter_insert_length completes rs i r (at_phase PNew r) Hi) as H1. rewrite Hc in H1. simpl in H1.
    assert (List.filter completes (<[i := at_phase PNew r]> rs) = []) as He by (apply length_zero_iff_nil; lia).
    assert (x ∈ List.filter completes (<[i := at_phase PNew r]> rs)) as Hin.
    { rewrite list_elem_of_In, filter_In, <- list_elem_of_In. split; [|done].
      eapply list_elem_of_lookup_2. by rewrite list_lookup_insert_ne. }
    rewrite He in Hin. by apply elem_of_nil in Hin.
Qed.

Lemma round_failed_at rs i r p : rs !! i = Some r -> round_failed (<[i := at_phase p r]> rs) = round_failed rs.
Proof. intros H. unfold round_failed. by rewrite (at_phase_failed rs i r p H). Qed.

(** A step of workflow [i] that respects the rows of the others. *)
Lemma advance_inv db db' rs i r p :
  round_inv db rs -> rs !! i = Some r ->
  (exists t', internal_tasks db' !! task = Some t' /\ tk_generation t' = tk_generation t0
     /\ tk_outstanding t' = Z.of_nat (length (List.filter holds_slot (<[i := at_phase p r]> rs)))) ->
  List.filter (foreign rs) (workflow_instances db') = List.filter (foreign rs) (workflow_instances db) ->
  (forall w, wi_ID w ∈ rr_inst <$> rs -> wi_ID w <> rr_inst r ->
     w ∈ workflow_instances db' <-> w ∈ workflow_instances db) ->
  (p <> PNew /\ (exists w, w ∈ workflow_instances db' /\ wi_ID w = rr_inst r)
   /\ forall w, w ∈ workflow_instances db' -> wi_ID w = rr_inst r -> row_fits (at_phase p r) w) ->
  length (List.filter completes (<[i := at_phase p r]> rs))
    = (if forallb (fun x => negb (holds_slot x)) (<[i := at_phase p r]> rs) then 1 else 0) ->
  (forall f fin, p = PSettling f fin -> f = round_failed rs /\ final_ok f fin) ->
  (forall f, p = PEnd (Some f) -> f = round_failed rs
     /\ exists t, internal_tasks db' !! task = Some t /\ final_ok f (tk_state t, tk_reason t)) ->
  (forall j x f, j <> i -> rs !! j = Some x -> rr_phase x = PEnd (Some f) -> False) ->
  round_inv db' (<[i := at_phase p r]> rs).
Proof.
  intros [R1 R2 R3 R4 R5 R6 R7 R8] Hi Ht Hf Ho (Hp & Hw & Hfit) Hc Hs He Hother.
  pose proof (at_phase_inst rs i r p Hi) as Hids. split.
  - by rewrite Hids.
  - exact Ht.
  - unfold foreign. rewrite Hids. fold (foreign rs). congruence.
  - intros x Hx Hnew. apply (in_insert rs i r) in Hx as [->|(j & Hj & Hx)]; [|..|done].
    + destruct Hw as (w & Hw & Hid). exists w. simpl. auto.
    + destruct (R4 x) as (w & Hw' & Hid & Hr); [by eapply list_elem_of_lookup_2|done|].
      exists w. split_and!; [|done..]. apply Ho; [rewrite Hid; apply list_elem_of_fmap_2; by eapply list_elem_of_lookup_2| |done].
      intros E. apply Hj. eapply (NoDup_lookup (rr_inst <$> rs)); [exact R1|rewrite list_lookup_fmap, Hx; simpl; by rewrite <- Hid, E|].
      by rewrite list_lookup_fmap, Hi.
  - intros w Hw' Hin. rewrite Hids in Hin. destruct (decide (wi_ID w = rr_inst r)) as [E|E].
    + exists (at_phase p r). split_and!; [|done|done|by apply Hfit].
      eapply list_elem_of_lookup_2, list_lookup_insert_eq. by eapply lookup_lt_Some.
    + destruct (R5 w) as (x & Hx & Hid & Hnew & Hr); [by apply Ho|done|]. exists x. split_and!; try done.
      apply list_elem_of_lookup in Hx as [j Hx]. eapply (list_elem_of_lookup_2 _ j).
      rewrite list_lookup_insert_ne; [done|]. intros ->. congruence.
  - exact Hc.
  - intros x f fin Hx Hph. rewrite (round_failed_at rs i r p Hi).
    apply (in_insert rs i r) in Hx as [->|(j & Hj & Hx)]; [by apply Hs| |done].
    eapply R7; [by eapply list_elem_of_lookup_2|done].
  - intros x f Hx Hph. rewrite (round_failed_at rs i r p Hi).
    apply (in_insert rs i r) in Hx as [->|(j & Hj & Hx)]; [by apply He| |done].
    by destruct (Hother j x f Hj Hx Hph).
Qed.

(** While a workflow still holds its slot, or completes the task, no other has
    completed it. *)
Lemma none_ended db rs i r :
  round_inv db rs -> rs !! i = Some r -> holds_slot r = true \/ completes r = true ->
  forall j x f, j <> i -> rs !! j = Some x -> rr_phase x = PEnd (Some f) -> False.
Proof.
  intros Hinv Hi Hr j x f Hj Hx Hph. assert (completes x = true) as Hcx by (unfold completes; by rewrite Hph).
  destruct (completer_alone db rs j x Hinv Hx Hcx) as [H1 H2]. destruct Hr as [Hr|Hr].
  - rewrite H1 in Hr by (by eapply list_elem_of_lookup_2). done.
  - apply Hj. by rewrite (H2 i r Hi Hr).
Qed.

(** *** The statements on the rows *)

Lemma filter_map_frame (p : InstanceRow -> bool) f rows :
  (forall i, p (f i) = p i) -> (forall i, p i = true -> f i = i) ->
  List.filter p (map f rows) = List.filter p rows.
Proof.
  intros H1 H2. induction rows as [|i rows IH]; [done|]. simpl. rewrite H1, IH.
  destruct (p i) eqn:E; [|done]. by rewrite H2.
Qed.

Lemma elem_of_map_other (f : InstanceRow -> InstanceRow) rows w id :
  (forall i, wi_ID (f i) = wi_ID i) -> (forall i, wi_ID i <> id -> f i = i) -> wi_ID w <> id ->
  w ∈ map f rows <-> w ∈ rows.
Proof.
  intros H1 H2 Hw. rewrite !list_elem_of_In, in_map_iff. split.
  - intros (i & <- & Hin). rewrite H1 in Hw. by rewrite H2.
  - intros Hin. exists w. split; [by apply H2|done].
Qed.

(** The completer and the counts after a step that keeps both. *)
Lemma counts_kept db rs i r p :
  round_inv db rs -> rs !! i = Some r -> holds_slot (at_phase p r) = holds_slot r ->
  completes (at_phase p r) = completes r ->
  length (List.filter holds_slot (<[i := at_phase p r]> rs)) = length (List.filter holds_slot rs)
  /\ length (List.filter completes (<[i := at_phase p r]> rs))
     = (if forallb (fun x => negb (holds_slot x)) (<[i := at_phase p r]> rs) then 1 else 0).
Proof.
  intros Hinv Hi Hh Hc. pose proof (filter_insert_length holds_slot rs i r (at_phase p r) Hi) as H1.
  pose proof (filter_insert_length completes rs i r (at_phase p r) Hi) as H2. rewrite Hh in H1. rewrite Hc in H2.
  split; [lia|]. replace (length (List.filter completes _)) with (length (List.filter completes rs)) by lia.
  rewrite (ri_completer _ _ Hinv).
  assert (forallb (fun x => negb (holds_slot x)) (<[i := at_phase p r]> rs) = forallb (fun x => negb (holds_slot x)) rs) as ->; [|done].
  apply eq_true_iff_eq. rewrite !none_filter. lia.
Qed.

Lemma step_create db rs i r db' :
  round_inv db rs -> rs !! i = Some r -> rr_phase r = PNew ->
  CreateWorkflowInstance (rr_created r) (new_instance task r) db = Some db' -> round_inv db' (<[i := at_phase PRun r]> rs).
Proof.
  intros Hinv Hi Hp. unfold CreateWorkflowInstance. case_match eqn:Efresh; [done|]. intros [= <-].
  set (w := {| wi_ID := _ |}). destruct (ri_task _ _ Hinv) as (t & Ht & Hg & Hout).
  destruct (counts_kept db rs i r PRun Hinv Hi) as [Hh Hc]; [unfold holds_slot; by rewrite Hp|unfold completes; by rewrite Hp|].
  apply (advance_inv db _ rs i r PRun Hinv Hi).
  - exists t. rewrite Hh. done.
  - simpl. rewrite filter_snoc. replace (foreign rs w) with false; [by rewrite app_nil_r|]. symmetry.
    unfold foreign. apply negb_false_iff, bool_decide_eq_true. simpl. apply list_elem_of_fmap_2. by eapply list_elem_of_lookup_2.
  - intros x _ Hne. simpl. rewrite elem_of_app, list_elem_of_singleton. split; [|by left]. by intros [?| ->].
  - split; [done|]. split; [exists w; simpl; rewrite elem_of_app, list_elem_of_singleton; auto|].
    intros x. simpl. rewrite elem_of_app, list_elem_of_singleton. intros [Hin| ->] Hid.
    + exfalso. apply bool_decide_eq_false in Efresh. apply Efresh. simpl. rewrite <- Hid. by apply list_elem_of_fmap_2.
    + unfold row_fits. simpl. split_and!; try done. unfold Generation. rewrite Ht. exact Hg.
  - exact Hc.
  - done.
  - done.
  - eapply none_ended; [exact Hinv|exact Hi|left; unfold holds_slot; by rewrite Hp].
Qed.

Lemma step_persist db rs i r :
  round_inv db rs -> rs !! i = Some r -> rr_phase r = PRun ->
  round_inv (UpdateWorkflowInstanceState (rr_inst r) (final_instance_state r) "" db) (<[i := at_phase PPersisted r]> rs).
Proof.
  intros Hinv Hi Hp. destruct (ri_task _ _ Hinv) as (t & Ht & Hg & Hout).
  assert (r ∈ rs) as Hr by (by eapply list_elem_of_lookup_2).
  assert (forall w, w ∈ workflow_instances db -> wi_ID w = rr_inst r ->
    row_fits r w /\ wi_State w = state.Running) as Hrow.
  { intros w Hw Hid. destruct (ri_owned _ _ Hinv w Hw) as (x & Hx & Hid' & _ & Hfit); [rewrite Hid; by apply list_elem_of_fmap_2|].
    assert (x = r) as ->.
    { apply list_elem_of_lookup in Hx as [j Hx]. assert (j = i) as ->; [|congruence].
      eapply (NoDup_lookup (rr_inst <$> rs)); [apply Hinv|by rewrite list_lookup_fmap, Hx; simpl; rewrite Hid', Hid|].
      by rewrite list_lookup_fmap, Hi. }
    split; [done|]. destruct Hfit as (_ & _ & _ & ->). unfold persisted. by rewrite Hp. }
  set (f := fun w => if bool_decide (wi_ID w = rr_inst r) then with_instance_state (final_instance_state r) "" w else w).
  assert (UpdateWorkflowInstanceState (rr_inst r) (final_instance_state r) "" db
    = set_instances (map f (workflow_instances db)) db) as ->.
  { unfold UpdateWorkflowInstanceState. destruct (GetWorkflowInstance _ _) as [w|] eqn:Eg; [|done].
    apply List.find_some in Eg as [Hin Hid%bool_decide_eq_true]. apply list_elem_of_In in Hin.
    destruct (Hrow w Hin Hid) as [_ ->].
    rewrite (bool_decide_eq_false_2 (state.Running = _)) by (unfold final_instance_state; by destruct (rr_failed r)). done. }
  assert (forall w, wi_ID (f w) = wi_ID w) as Hfid by (intros w; unfold f; by case_bool_decide).
  assert (forall w, wi_ID w <> rr_inst r -> f w = w) as Hfne by (intros w Hne; unfold f; by rewrite bool_decide_eq_false_2).
  destruct (counts_kept db rs i r PPersisted Hinv Hi) as [Hh Hc]; [unfold holds_slot; by rewrite Hp|unfold completes; by rewrite Hp|].
  apply (advance_inv db _ rs i r PPersisted Hinv Hi).
  - exists t. rewrite Hh. done.
  - apply filter_map_frame; [intros w; unfold foreign; by rewrite Hfid|].
    intros w Hw. apply Hfne. intros E. unfold foreign in Hw. rewrite E in Hw.
    apply negb_true_iff, bool_decide_eq_false in Hw. apply Hw. by apply list_elem_of_fmap_2.
  - intros w _ Hne. by apply (elem_of_map_other f _ w (rr_inst r)).
  - destruct (ri_rows _ _ Hinv r Hr) as (w & Hw & Hid & _); [by rewrite Hp|]. split; [done|]. split.
    + exists (f w). split; [apply list_elem_of_In, in_map, list_elem_of_In, Hw|by rewrite Hfid].
    + intros w' Hw' Hid'. simpl in Hw'. apply list_elem_of_In, in_map_iff in Hw' as (x & <- & Hx).
      rewrite Hfid in Hid'. apply list_elem_of_In in Hx. destruct (Hrow x Hx Hid') as [(H1 & H2 & H3 & _) _].
      unfold f. rewrite bool_decide_eq_true_2 by done. done.
  - exact Hc.
  - done.
  - done.
  - eapply none_ended; [exact Hinv|exact Hi|left; unfold holds_slot; by rewrite Hp].
Qed.

Lemma holding_pos db rs i r : round_inv db rs -> rs !! i = Some r -> holds_slot r = true ->
  0 < length (List.filter holds_slot rs) /\ length (List.filter completes rs) = 0.
Proof.
  intros Hinv Hi Hh. assert (0 < length (List.filter holds_slot rs)) as Hpos.
  { destruct (List.filter holds_slot rs) eqn:E; [|simpl; lia].
    assert (r ∈ List.filter holds_slot rs) as Hin.
    { rewrite list_elem_of_In, filter_In, <- list_elem_of_In. split; [by eapply list_elem_of_lookup_2|done]. }
    rewrite E in Hin. by apply elem_of_nil in Hin. }
  split; [done|]. rewrite (ri_completer _ _ Hinv). destruct (forallb _ rs) eqn:Ef; [|done].
  apply none_filter in Ef. lia.
Qed.

(** The rows of a settled workflow. *)
Lemma own_row db rs i r w p :
  round_inv db rs -> rs !! i = Some r -> rr_phase r <> PNew -> persisted r = true -> persisted (at_phase p r) = true ->
  w ∈ workflow_instances db -> wi_ID w = rr_inst r -> row_fits (at_phase p r) w.
Proof.
  intros Hinv Hi Hp H1 H2 Hw Hid. assert (r ∈ rs) as Hr by (by eapply list_elem_of_lookup_2).
  destruct (ri_owned _ _ Hinv w Hw) as (x & Hx & Hid' & _ & Hfit); [rewrite Hid; by apply list_elem_of_fmap_2|].
  assert (x = r) as ->.
  { apply list_elem_of_lookup in Hx as [j Hx]. assert (j = i) as ->; [|congruence].
    eapply (NoDup_lookup (rr_inst <$> rs)); [apply Hinv|by rewrite list_lookup_fmap, Hx; simpl; rewrite Hid', Hid|].
    by rewrite list_lookup_fmap, Hi. }
  destruct Hfit as (F1 & F2 & F3 & F4). rewrite H1 in F4. unfold row_fits. rewrite H2. by split_and!.
Qed.

Lemma step_decrement db rs i r :
  round_inv db rs -> rs !! i = Some r -> rr_phase r = PPersisted ->
  let '(remaining, db') := DecrementOutstanding task db in
  round_inv db' (<[i := at_phase (if (0 <? remaining)%Z then PEnd None else PChecking) r]> rs).
Proof.
  intros Hinv Hi Hp. destruct (ri_task _ _ Hinv) as (t & Ht & Hg & Hout).
  assert (holds_slot r = true) as Hh by (unfold holds_slot; by rewrite Hp).
  destruct (holding_pos _ _ _ _ Hinv Hi Hh) as [Hpos Hnone].
  unfold DecrementOutstanding. set (db' := set_tasks _ db).
  assert (internal_tasks db' !! task = Some (decrement_row t)) as Ht' by (simpl; by rewrite lookup_alter_eq, Ht).
  unfold outstanding. rewrite Ht'. simpl from_option. rewrite Hout.
  set (p := if (0 <? _)%Z then PEnd None else PChecking).
  assert (holds_slot (at_phase p r) = false) as Hh' by (unfold p; by destruct (0 <? _)%Z).
  pose proof (filter_insert_length holds_slot rs i r (at_phase p r) Hi) as H1. rewrite Hh, Hh' in H1.
  pose proof (filter_insert_length completes rs i r (at_phase p r) Hi) as H2. rewrite Hnone in H2.
  assert (completes r = false) as Hcr by (unfold completes; by rewrite Hp). rewrite Hcr in H2.
  apply (advance_inv db db' rs i r p Hinv Hi).
  - exists (decrement_row t). split; [done|]. split; [done|]. simpl. rewrite Hout. lia.
  - done.
  - done.
  - split; [unfold p; by destruct (0 <? _)%Z|]. split.
    + destruct (ri_rows _ _ Hinv r) as (w & Hw & Hid & _); [by eapply list_elem_of_lookup_2|by rewrite Hp|]. by exists w.
    + intros w Hw Hid. eapply own_row; [exact Hinv|exact Hi|by rewrite Hp|unfold persisted; by rewrite Hp| |exact Hw|exact Hid].
      unfold persisted, p. by destruct (0 <? _)%Z.
  - unfold p in *. destruct (0 <? _)%Z eqn:El; simpl in H2.
    + destruct (forallb _ (<[i := _]> rs)) eqn:Ef; [|lia]. apply none_filter in Ef. apply Z.ltb_lt in El. lia.
    + replace (forallb _ (<[i := _]> rs)) with true; [lia|]. symmetry. apply none_filter. apply Z.ltb_ge in El. lia.
  - unfold p. by destruct (0 <? _)%Z.
  - unfold p. by destruct (0 <? _)%Z.
  - eapply none_ended; [exact Hinv|exact Hi|by left].
Qed.

Lemma existsb_filter_split {A} (p q : A -> bool) l :
  existsb p l = existsb p (List.filter q l) || existsb p (List.filter (fun x => negb (q x)) l).
Proof.
  induction l as [|x l IH]; [done|]. simpl. rewrite IH. destruct (q x); simpl; destruct (p x); simpl; try done.
  all: by rewrite ?orb_true_r.
Qed.

(** When no workflow holds a slot any more, the rows tell how the round ended. *)
Lemma rows_verdict db rs :
  round_inv db rs -> (forall x, x ∈ rs -> holds_slot x = false) -> HasFailedInstance task db = round_failed rs.
Proof.
  intros Hinv Hall. destruct (ri_task _ _ Hinv) as (t & Ht & Hg & _). unfold HasFailedInstance, round_failed, HasFailedInstance.
  set (P := fun i => _). set (P0 := fun i => _ && (wi_Generation i =? Generation task db0)%Z).
  assert (forall i, P i = P0 i) as HP.
  { intros i. unfold P, P0, Generation. by rewrite Ht, Ht0; simpl; rewrite Hg. }
  rewrite (existsb_filter_split P (foreign rs)), (ri_foreign _ _ Hinv), orb_comm.
  f_equal; [|induction (workflow_instances db0) as [|x l IH]; [done|]; simpl; by rewrite HP, IH].
  apply eq_true_iff_eq. rewrite !existsb_elem. setoid_rewrite list_elem_of_In. setoid_rewrite filter_In.
  setoid_rewrite <- list_elem_of_In. unfold P, foreign, str_in. setoid_rewrite negb_involutive.
  setoid_rewrite bool_decide_eq_true. split.
  - intros (w & [Hw Hid] & HPw). destruct (ri_owned _ _ Hinv w Hw Hid) as (x & Hx & _ & Hnew & (_ & _ & _ & Hst)).
    exists x. split; [done|]. assert (persisted x = true) as Hpx.
    { specialize (Hall x Hx). unfold persisted, holds_slot in *. by destruct (rr_phase x). }
    rewrite Hpx in Hst. apply andb_true_iff in HPw as [HPw _]. apply andb_true_iff in HPw as [_ Hf].
    unfold is_failed in Hf. rewrite Hst, bool_decide_eq_true in Hf. unfold final_instance_state in Hf. by destruct (rr_failed x).
  - intros (x & Hx & Hf). assert (persisted x = true /\ rr_phase x <> PNew) as [Hpx Hnew].
    { specialize (Hall x Hx). unfold persisted, holds_slot in *. by destruct (rr_phase x). }
    destruct (ri_rows _ _ Hinv x Hx Hnew) as (w & Hw & Hid & (F1 & F2 & _ & F4)). exists w.
    split; [split; [done|rewrite Hid; by apply list_elem_of_fmap_2]|].
    unfold of_task, is_failed, Generation. rewrite F1, F2, F4, Hpx, Ht. unfold final_instance_state. rewrite Hf.
    rewrite !bool_decide_eq_true_2 by done. rewrite (proj2 (is_empty_false _) Htask). simpl. rewrite Hg. apply Z.eqb_refl.
Qed.

Lemma final_task_state_ok wf f db : final_ok f (final_task_state limit task wf f db).
Proof.
  unfold final_ok, final_task_state. destruct f; [|done]. unfold retryPending.
  destruct ((limit <=? 0)%Z || _ || _) eqn:E; [by left|]. destruct (_ <? limit)%Z; [right|by left].
  split; [|done]. rewrite !orb_false_iff, Z.leb_gt in E. lia.
Qed.

Lemma step_check db rs i r :
  round_inv db rs -> rs !! i = Some r -> rr_phase r = PChecking ->
  let anyFailed := rr_failed r || HasFailedInstance task db in
  round_inv db (<[i := at_phase (PSettling anyFailed (final_task_state limit task (rr_workflow r) anyFailed db)) r]> rs).
Proof.
  intros Hinv Hi Hp anyFailed. assert (completes r = true) as Hc by (unfold completes; by rewrite Hp).
  destruct (completer_alone _ _ _ _ Hinv Hi Hc) as [Hall _]. pose proof (rows_verdict _ _ Hinv Hall) as Hv.
  assert (anyFailed = round_failed rs) as Haf.
  { unfold anyFailed. rewrite Hv. destruct (rr_failed r) eqn:Ef; [|done]. simpl. symmetry. unfold round_failed.
    apply orb_true_iff. left. apply existsb_elem. exists r. split; [by eapply list_elem_of_lookup_2|done]. }
  clearbody anyFailed. set (p := PSettling _ _).
  destruct (counts_kept db rs i r p Hinv Hi) as [Hh Hcc]; [unfold holds_slot; by rewrite Hp|unfold completes; by rewrite Hp|].
  destruct (ri_task _ _ Hinv) as (t & Ht & Hg & Hout).
  apply (advance_inv db db rs i r p Hinv Hi); try done.
  - exists t. by rewrite Hh.
  - split; [done|]. split.
    + destruct (ri_rows _ _ Hinv r) as (w & Hw & Hid & _); [by eapply list_elem_of_lookup_2|by rewrite Hp|]. by exists w.
    + intros w Hw Hid. eapply own_row; [exact Hinv|exact Hi|by rewrite Hp|unfold persisted; by rewrite Hp|done|exact Hw|exact Hid].
  - intros f fin [= <- <-]. split; [done|]. apply final_task_state_ok.
  - eapply none_ended; [exact Hinv|exact Hi|by right].
Qed.

Lemma step_settle db rs i r f st reason :
  round_inv db rs -> rs !! i = Some r -> rr_phase r = PSettling f (st, reason) ->
  round_inv (UpdateTaskStateReason task st reason db) (<[i := at_phase (PEnd (Some f)) r]> rs).
Proof.
  intros Hinv Hi Hp. assert (completes r = true) as Hc by (unfold completes; by rewrite Hp).
  destruct (ri_settling _ _ Hinv r f (st, reason)) as [Hf Hfin]; [by eapply list_elem_of_lookup_2|done|].
  destruct (counts_kept db rs i r (PEnd (Some f)) Hinv Hi) as [Hh Hcc];
    [unfold holds_slot; by rewrite Hp|unfold completes; by rewrite Hp|].
  destruct (ri_task _ _ Hinv) as (t & Ht & Hg & Hout).
  assert (internal_tasks (UpdateTaskStateReason task st reason db) !! task = Some (with_task_state st reason t)) as Ht'
    by (simpl; by rewrite lookup_alter_eq, Ht).
  apply (advance_inv db _ rs i r (PEnd (Some f)) Hinv Hi); try done.
  - exists (with_task_state st reason t). rewrite Hh. done.
  - split; [done|]. split.
    + destruct (ri_rows _ _ Hinv r) as (w & Hw & Hid & _); [by eapply list_elem_of_lookup_2|by rewrite Hp|]. by exists w.
    + intros w Hw Hid. eapply own_row; [exact Hinv|exact Hi|by rewrite Hp|unfold persisted; by rewrite Hp|done|exact Hw|exact Hid].
  - intros f' [= <-]. split; [done|]. exists (with_task_state st reason t). done.
  - eapply none_ended; [exact Hinv|exact Hi|by right].
Qed.

Lemma round_step_inv db rs db' rs' :
  round_inv db rs -> round_step limit task (db, rs) (db', rs') -> round_inv db' rs'.
Proof.
  intros Hinv Hs. inversion Hs as [db1 rs1 i r r' db2 Hi Hr]; subst. unfold runner_step in Hr.
  destruct (rr_phase r) as [| | | |f [st reason]|] eqn:Hp.
  - apply fmap_Some in Hr as (d & Hc & [= -> ->]). by eapply step_create.
  - injection Hr as <- <-. by apply step_persist.
  - pose proof (step_decrement db rs i r Hinv Hi Hp) as H. destruct (DecrementOutstanding task db) as [n d].
    by injection Hr as <- <-.
  - injection Hr as <- <-. by apply step_check.
  - injection Hr as <- <-. by apply step_settle.
  - done.
Qed.
End round.

(** ** A round, from the count the dispatcher adds to its end *)

Section whole_round.
Context (limit : Z) (task : string) (Htask : task <> "").

Definition rank (p : Phase) : nat :=
  match p with PNew => 5 | PRun => 4 | PPersisted => 3 | PChecking => 2 | PSettling _ _ => 1 | PEnd _ => 0 end.

(** How many statements the workflows may still execute. *)
Definition statements_left (rs : list Runner) : nat := sum_list_with (rank ∘ rr_phase) rs.

Definition over (r : Runner) : bool := match rr_phase r with PEnd _ => true | _ => false end.

(** The workflows the dispatcher starts on a task it has counted them into. *)
Record round_start (db : Tables) (t : TaskRow) (rs : list Runner) : Prop := {
  rs_task : internal_tasks db !! task = Some t;
  rs_settled : tk_outstanding t = 0%Z;
  rs_some : rs <> [];
  rs_new : Forall (fun r => rr_phase r = PNew) rs;
  rs_distinct : NoDup (rr_inst <$> rs);
  rs_fresh : forall r, r ∈ rs -> rr_inst r ∉ wi_ID <$> workflow_instances db;
  rs_generations : forall i, i ∈ workflow_instances db -> of_task task i = true ->
    (wi_Generation i <= tk_generation t)%Z;
}.

(** The tables once the workflows are counted in. *)
Definition counted_in (rs : list Runner) (db : Tables) : Tables :=
  (IncrementOutstanding task (Z.of_nat (length rs)) db).2.

(** A failure the round inherits: one of a round that never settled. *)
Definition inherited_failure (db : Tables) (t : TaskRow) : bool :=
  negb (taskReopenable t) && HasFailedInstance task db.

Lemma inherited_spec db t rs :
  round_start db t rs -> HasFailedInstance task (counted_in rs db) = inherited_failure db t.
Proof.
  intros [Ht _ Hne _ _ _ Hgen]. unfold inherited_failure, HasFailedInstance, Generation, counted_in. simpl.
  rewrite lookup_alter_eq, Ht. simpl. rewrite (proj2 (Z.ltb_lt 0 (Z.of_nat (length rs)))) by (destruct rs; [done|simpl; lia]).
  destruct (taskReopenable t); simpl; [|done]. apply not_true_is_false. rewrite existsb_exists.
  intros (i & Hi & Hm). rewrite !andb_true_iff, Z.eqb_eq in Hm. destruct Hm as [[Hof _] Hg].
  apply list_elem_of_In in Hi. specialize (Hgen i Hi Hof). lia.
Qed.

Lemma start_counts rs : Forall (fun r => rr_phase r = PNew) rs ->
  List.filter holds_slot rs = rs /\ List.filter completes rs = []
  /\ (forall r, r ∈ rs -> rr_phase r = PNew).
Proof.
  induction 1 as [|r rs Hr _ (IH1 & IH2 & IH3)]; [split_and!; try done; by intros r ?%elem_of_nil|].
  simpl. unfold holds_slot, completes in *. rewrite Hr, IH1, IH2. split_and!; try done.
  intros x [-> | Hx]%elem_of_cons; [done|by apply IH3].
Qed.

Lemma round_start_inv db t rs :
  round_start db t rs ->
  exists t', internal_tasks (counted_in rs db) !! task = Some t'
    /\ round_inv limit task (counted_in rs db) t' (counted_in rs db) rs.
Proof.
  intros [Ht Hz Hne Hnew Hnd Hfresh _]. destruct (start_counts rs Hnew) as (H1 & H2 & H3).
  assert (internal_tasks (counted_in rs db) !! task = Some (increment_row (Z.of_nat (length rs)) t)) as Ht'
    by (simpl; by rewrite lookup_alter_eq, Ht).
  exists (increment_row (Z.of_nat (length rs)) t). split; [done|]. split.
  - done.
  - exists (increment_row (Z.of_nat (length rs)) t). rewrite H1. split_and!; [done..|]. simpl. lia.
  - apply filter_true. intros i Hi. unfold foreign. apply negb_true_iff, bool_decide_eq_false.
    intros (r & Hid & Hr)%list_elem_of_fmap. destruct (Hfresh r Hr). rewrite <- Hid.
    by apply list_elem_of_fmap_2, list_elem_of_In.
  - intros r Hr Hp. by destruct Hp; apply H3.
  - intros i Hi (r & Hid & Hr)%list_elem_of_fmap. destruct (Hfresh r Hr). rewrite <- Hid. by apply list_elem_of_fmap_2.
  - rewrite H2. destruct rs as [|r rs]; [done|]. simpl. unfold holds_slot at 1. by rewrite H3 by left.
  - intros r f fin Hr. by rewrite H3.
  - intros r f Hr. by rewrite H3.
Qed.

(** A step moves the workflow on to a later phase. *)
Lemma runner_step_phase r db r' db' :
  runner_step limit task r db = Some (r', db') -> exists p, r' = at_phase p r /\ rank p < rank (rr_phase r).
Proof.
  unfold runner_step. intros Hr. destruct (rr_phase r) as [| | | |f [st reason]|].
  - apply fmap_Some in Hr as (d & _ & [= -> _]). exists PRun. simpl. auto with lia.
  - injection Hr as <- _. exists PPersisted. simpl. auto with lia.
  - destruct (DecrementOutstanding task db) as [n d]. injection Hr as <- _. eexists. split; [done|].
    destruct (0 <? n)%Z; simpl; lia.
  - injection Hr as <- _. eexists. split; [done|]. simpl. lia.
  - injection Hr as <- _. eexists. split; [done|]. simpl. lia.
  - done.
Qed.

Lemma round_reachable_inv t0 db0 db rs db' rs' :
  internal_tasks db0 !! task = Some t0 ->
  round_reachable limit task (db, rs) (db', rs') ->
  round_inv limit task db0 t0 db rs ->
  round_inv limit task db0 t0 db' rs' /\ existsb rr_failed rs' = existsb rr_failed rs /\ length rs' = length rs.
Proof.
  intros Ht H. remember (db, rs) as p eqn:Ep. remember (db', rs') as q eqn:Eq. revert db rs Ep.
  induction H as [p|p [db1 rs1] q Hs _ IH]; intros db rs ->; [by injection Eq as -> ->|]. intros Hinv.
  destruct (IH Eq db1 rs1 eq_refl) as (H1 & H2 & H3); [by eapply round_step_inv|]. split; [done|].
  rewrite H2, H3. inversion Hs as [db2 rs2 i r r' db3 Hi Hr]; subst. rewrite length_insert. split; [|done].
  destruct (runner_step_phase r db _ _ Hr) as (p & -> & _).
  by eapply at_phase_failed.
Qed.

(** A workflow that is not over can take its next step. *)
Lemma round_progress t0 db0 db rs r :
  round_inv limit task db0 t0 db rs -> r ∈ rs -> over r = false -> exists q, round_step limit task (db, rs) q.
Proof.
  intros Hinv Hr Hov. pose proof Hr as [i Hi]%list_elem_of_lookup.
  assert (is_Some (runner_step limit task r db)) as [[r' db'] Hs]; [|eexists; by econstructor].
  unfold runner_step. unfold over in Hov. destruct (rr_phase r) as [| | | |f [st reason]|] eqn:Hp; try done; eauto.
  - unfold CreateWorkflowInstance. rewrite fmap_is_Some. unfold str_in. case_bool_decide as Hin; [|eauto]. exfalso.
    apply list_elem_of_fmap in Hin as (w & Hid & Hw). simpl in Hid.
    destruct (ri_owned _ _ _ _ _ _ Hinv w Hw) as (x & Hx & Hid' & Hnew & _);
      [rewrite <- Hid; by apply list_elem_of_fmap_2|].
    apply list_elem_of_lookup in Hx as [j Hx]. assert (j = i) as ->; [|congruence].
    eapply (NoDup_lookup (rr_inst <$> rs)); [apply Hinv|by rewrite list_lookup_fmap, Hx; simpl; rewrite Hid', <- Hid|].
    by rewrite list_lookup_fmap, Hi.
Qed.

Lemma left_insert (f : Runner -> nat) (rs : list Runner) i r r' :
  rs !! i = Some r -> sum_list_with f (<[i := r']> rs) + f r = sum_list_with f rs + f r'.
Proof.
  revert i. induction rs as [|x rs IH]; intros i; [done|]. destruct i as [|i]; simpl; [intros [= ->]; lia|].
  intros H. specialize (IH i H). lia.
Qed.

Lemma round_step_left db rs db' rs' :
  round_step limit task (db, rs) (db', rs') -> statements_left rs' < statements_left rs.
Proof.
  intros H. inversion H as [db1 rs1 i r r' db2 Hi Hr]; subst.
  pose proof (left_insert (rank ∘ rr_phase) rs i r r' Hi) as Hs. unfold statements_left.
  destruct (runner_step_phase r db _ _ Hr) as (p & -> & Hp). simpl in *. lia.
Qed.

(** C6: A round settles its task exactly once, whatever the interleaving. Take a
    task none of whose workflows is under way, count new workflows in with
    [IncrementOutstanding] and let them create their rows, persist how they
    ended, and run [completeTask], their statements interleaved in any order.
    Then in every state they reach at most one of them is completing the task;
    unless all are over, one of them can go on, and every statement brings the
    end nearer, so the round ends; and when all are over exactly one of them
    completed the task, the count is back to zero, and the task's state is the
    verdict over the whole round: done when no workflow of it failed, failed or
    waiting for its retry when one did. A settled task is reopened in a new
    generation, so failures of its earlier rounds do not count. *)
Theorem round_settles_once (db : Tables) (t : TaskRow) (rs0 : list Runner) :
  round_start db t rs0 ->
  forall db' rs, round_reachable limit task (counted_in rs0 db, rs0) (db', rs) ->
    length (List.filter completes rs) <= 1
    /\ (forallb over rs = false -> exists q, round_step limit task (db', rs) q)
    /\ (forall db'' rs', round_step limit task (db', rs) (db'', rs') -> statements_left rs' < statements_left rs)
    /\ (forallb over rs = true ->
        length (List.filter completes rs) = 1
        /\ exists t', GetTask task db' = Some t' /\ tk_outstanding t' = 0%Z
           /\ final_ok limit (existsb rr_failed rs0 || inherited_failure db t) (tk_state t', tk_reason t')).
Proof.
  intros Hs db' rs Hr. destruct (round_start_inv db t rs0 Hs) as (t1 & Ht1 & Hinv0).
  destruct (round_reachable_inv t1 _ _ _ _ _ Ht1 Hr Hinv0) as (Hinv & Hf & Hlen).
  pose proof (ri_completer _ _ _ _ _ _ Hinv) as Hc. split_and!.
  - rewrite Hc. destruct (forallb _ rs); lia.
  - intros Hov. apply forallb_false_elem in Hov as (r & Hin & Hn). by eapply round_progress.
  - intros db'' rs'. apply round_step_left.
  - intros Hov. assert (forall r, r ∈ rs -> over r = true) as Hall
      by (intros r Hin; rewrite forallb_forall in Hov; by apply Hov, list_elem_of_In).
    assert (forallb (fun r => negb (holds_slot r)) rs = true) as Hfree.
    { apply forallb_forall. intros r Hin%list_elem_of_In. specialize (Hall r Hin). unfold over, holds_slot in *.
      by destruct (rr_phase r). }
    rewrite Hfree in Hc. split; [done|].
    destruct (List.filter completes rs) as [|r l] eqn:El; [done|].
    assert (In r (List.filter completes rs)) as [Hin%list_elem_of_In Hcr]%filter_In by (rewrite El; by left).
    specialize (Hall r Hin). unfold over, completes in *. destruct (rr_phase r) as [| | | | |[f|]] eqn:Ep; try done.
    destruct (ri_end _ _ _ _ _ _ Hinv r f Hin Ep) as (-> & t' & Ht' & Hok). exists t'. split; [done|].
    destruct (ri_task _ _ _ _ _ _ Hinv) as (t2 & Ht2 & _ & Hout). rewrite Ht' in Ht2. injection Ht2 as <-.
    apply none_filter in Hfree. split; [lia|].
    unfold round_failed in Hok. by rewrite Hf, (inherited_spec db t rs0 Hs) in Hok.
Qed.
End whole_round.

(** A task whose previous round failed, reopened with two workflows. *)
Definition settled_task : TaskRow :=
  {| tk_state := state.Failed; tk_reason := ""; tk_outstanding := 0; tk_generation := 0 |}.
Definition earlier_failure : InstanceRow := {|
  wi_ID := "old"; wi_WorkflowID := "ship"; wi_TaskID := "t"; wi_State := state.Failed; wi_Reason := "";
  wi_Generation := 0; wi_ResumedFrom := ""; wi_CreatedAt := 1 |}.
Definition settled_tables : Tables :=
  {| internal_tasks := {["t" := settled_task]}; workflow_instances := [earlier_failure] |}.
Definition fresh_runner (id wf : string) (failed : bool) : Runner :=
  {| rr_inst := id; rr_workflow := wf; rr_failed := failed; rr_created := 2; rr_phase := PNew |}.

Lemma two_workflows_start :
  round_start "t" settled_tables settled_task [fresh_runner "i1" "ship" false; fresh_runner "i2" "lint" true].
Proof.
  split; [done|done|done|by repeat constructor| | |].
  - apply (bool_decide_unpack _). by vm_compute.
  - intros r [->|[->|[]%elem_of_nil]%elem_of_cons]%elem_of_cons; apply (bool_decide_unpack _); by vm_compute.
  - intros i [->|[]%elem_of_nil]%elem_of_cons _. done.
Qed.

Lemma round_settles_once_witness :
  exists db rs, round_reachable 2 "t" (counted_in "t" [fresh_runner "i1" "ship" false; fresh_runner "i2" "lint" true] settled_tables,
                  [fresh_runner "i1" "ship" false; fresh_runner "i2" "lint" true]) (db, rs)
    /\ forallb over rs = true
    /\ exists t', GetTask "t" db = Some t' /\ tk_outstanding t' = 0%Z /\ final_ok 2 true (tk_state t', tk_reason t').
Proof.
  pose (rd := run_schedule 2 "t" [0; 1; 1; 0; 1; 0; 0; 0]
    (counted_in "t" [fresh_runner "i1" "ship" false; fresh_runner "i2" "lint" true] settled_tables,
     [fresh_runner "i1" "ship" false; fresh_runner "i2" "lint" true])).
  assert (exists p, rd = Some p /\ forallb over p.2 = true) as ([db rs] & Hrd & Hover)
    by (eexists; split; [vm_compute; reflexivity|reflexivity]).
  apply schedule_reachable in Hrd. exists db, rs. split; [exact Hrd|]. split; [exact Hover|].
  exact (proj2 (proj2 (proj2 (proj2 (round_settles_once 2 "t" (ltac:(done)) settled_tables settled_task _
    two_workflows_start db rs Hrd))) Hover)).
Defined.
