(* ===== verification/Dispatch.v ===== *)
(** * Dispatching workflows (src/internal/daemon/dispatcher.go, queue_dispatch.go,
      resume_auto.go, workflow.go, workflow_ipc.go and the reservation half of
      src/internal/workflow/engine.go)

    What a poll does with the workflows routing selected for a task: the guards
    that drop some of them, the hand-off to the durable queue with its
    accounting, the delivery of a queued job to the engine, the reservations of
    manual runs, and the settlement of the jobs a remote worker ran. *)

From stdpp Require Import base gmap strings list pretty.
From Stdlib Require Import ZArith.
From S2P Require Import Prelude State Model Config Router Queue Tasks.

(** ** The guards (dispatcher.go, resume_auto.go) *)

Record droppedMatch := { dm_WorkflowID : string; dm_Reason : string; dm_Detail : string }.

(** [droppedMatch.String]. *)
Definition droppedMatch_String (d : droppedMatch) : string :=
  if is_empty (dm_Detail d) then dm_WorkflowID d +:+ " (" +:+ dm_Reason d +:+ ")"
  else dm_WorkflowID d +:+ " (" +:+ dm_Reason d +:+ ": " +:+ dm_Detail d +:+ ")".

Definition route_id (m : Match) : string := rt_ID (m_Route m).
Definition dropped (m : Match) (reason detail : string) : droppedMatch :=
  {| dm_WorkflowID := route_id m; dm_Reason := reason; dm_Detail := detail |}.

(** The loop the guards share: [verdict m] is the reason to remove [m]. *)
Fixpoint drop_loop (verdict : Match -> option droppedMatch) (matches : list Match)
    : list Match * list droppedMatch :=
  match matches with
  | [] => ([], [])
  | m :: rest =>
      let '(out, gone) := drop_loop verdict rest in
      match verdict m with
      | Some d => (out, d :: gone)
      | None => (m :: out, gone)
      end
  end.

(** [autoResumeKey]. *)
Definition autoResumeKey (taskID workflowID : string) : string :=
  taskID +:+ String Ascii.zero workflowID.

(** What the guards consult: the routes being auto-resumed, and the queries of
    the store, which may fail with an error text. *)
Record GuardEnv := {
  g_resuming : gset string;
  g_active : string -> string -> result string bool;
  g_completed : string -> string -> result string bool;
  g_failures : string -> string -> result string nat;
  g_MaxAttempts : Z;                       (* settings.max_attempts *)
}.

(** The guards on the tables of a store that answers every query. *)
Definition store_guards (resuming : gset string) (limit : Z) (db : Tables) : GuardEnv := {|
  g_resuming := resuming;
  g_active := fun task wf => Ok (HasActiveInstanceForRoute task wf db);
  g_completed := fun task wf => Ok (HasCompletedInstanceForRoute task wf db);
  g_failures := fun task wf => Ok (CountConsecutiveFailedInstances task wf db);
  g_MaxAttempts := limit |}.

Section guards.
Context (g : GuardEnv) (taskID : string).

Definition resuming_verdict (m : Match) : option droppedMatch :=
  if bool_decide (autoResumeKey taskID (route_id m) ∈ g_resuming g) then Some (dropped m "auto-resuming" "") else None.

Definition active_verdict (m : Match) : option droppedMatch :=
  match g_active g taskID (route_id m) with
  | Err e => Some (dropped m "guard error" e)
  | Ok true => Some (dropped m "active instance" "")
  | Ok false => None
  end.

Definition once_verdict (m : Match) : option droppedMatch :=
  if negb (rt_Once (m_Route m)) then None
  else match g_completed g taskID (route_id m) with
       | Err e => Some (dropped m "guard error" e)
       | Ok true => Some (dropped m "once" "already completed")
       | Ok false => None
       end.

Definition capped_verdict (m : Match) : option droppedMatch :=
  match g_failures g taskID (route_id m) with
  | Err _ => None
  | Ok n =>
      if (g_MaxAttempts g <=? Z.of_nat n)%Z
      then Some (dropped m "capped" (pretty n +:+ "/" +:+ pretty (g_MaxAttempts g) +:+ " consecutive failures"))
      else None
  end.

(** [dropAutoResumingMatches]. *)
Definition dropAutoResumingMatches := drop_loop resuming_verdict.
(** [dropActiveMatches]. *)
Definition dropActiveMatches := drop_loop active_verdict.
(** [dropOnceMatches]. *)
Definition dropOnceMatches := drop_loop once_verdict.
(** [dropCappedMatches], but for the on_fail hook it applies to the source. *)
Definition dropCappedMatches (matches : list Match) : list Match * list droppedMatch :=
  if (g_MaxAttempts g <=? 0)%Z then (matches, []) else drop_loop capped_verdict matches.

(** The guards of [poll], in its order. *)
Definition poll_guards (persisted : bool) (matches : list Match) : list Match * list droppedMatch :=
  if persisted then
    let '(matches, d1) := dropAutoResumingMatches matches in
    let '(matches, d2) := dropActiveMatches matches in
    let '(matches, d3) := dropOnceMatches matches in
    let '(matches, d4) := dropCappedMatches matches in
    (matches, d1 ++ d2 ++ d3 ++ d4)
  else (matches, []).

(** The guards of [redispatchCell]: what a poll would have dropped in addition
    is only reported. *)
Definition restart_guards (persisted : bool) (matches : list Match)
    : list Match * list droppedMatch * list string :=
  if persisted then
    let '(matches, d1) := dropAutoResumingMatches matches in
    let '(matches, d2) := dropActiveMatches matches in
    let once := (fun d => dm_WorkflowID d +:+ " (once)") <$> (dropOnceMatches matches).2 in
    let capped := (fun d => dm_WorkflowID d +:+ " (failure cap)") <$> (dropCappedMatches matches).2 in
    (matches, d1 ++ d2, once ++ capped)
  else (matches, [], []).
End guards.

(** [suppressedRoutes], as [poll] builds it from the router's answer. *)
Record suppressedRoutes := { sp_ExclusiveWorkflowID : string; sp_WorkflowIDs : list string }.

Definition suppressed_of (matches suppressedMatches : list Match) : suppressedRoutes :=
  match suppressedMatches, last matches with
  | _ :: _, Some m => {| sp_ExclusiveWorkflowID := route_id m; sp_WorkflowIDs := route_id <$> suppressedMatches |}
  | _, _ => {| sp_ExclusiveWorkflowID := ""; sp_WorkflowIDs := [] |}
  end.

(** [dropSignature]. *)
Definition dropSignature (gone : list droppedMatch) (suppressed : suppressedRoutes) : string :=
  let parts := ((fun d => dm_WorkflowID d +:+ "=" +:+ dm_Reason d) <$> gone)
               ++ ((fun id => id +:+ "=suppressed") <$> sp_WorkflowIDs suppressed) in
  str_join "," (sort_strings parts).

(** ** Requirements of a job *)

(** The scheduling fields of [config.AgentConfig]. *)
Record AgentConfig := {
  ac_ID : string;
  ac_WorkerPool : string;
  ac_RequiresLabels : list string;
  ac_RequiresCapabilities : list string;
  ac_WorkspaceAffinity : bool;
}.

(** [uniqueStrings]. *)
Definition uniqueStrings (values : list string) : list string :=
  let trimmed := List.filter (fun v => negb (is_empty v)) (trim_space <$> values) in
  sort_strings (elements (list_to_set trimmed : gset string)).

(** [workflowAgentIDs]: the agent of a step, of its foreach body, then of its
    [parallel:] children. *)
Fixpoint step_agents (s : StepConfig) : list string :=
  (if is_empty (st_Agent s) then [] else [st_Agent s])
  ++ (match st_Step s with Some inner => step_agents inner | None => [] end)
  ++ concat (map step_agents (st_ParallelSteps s)).

Definition workflowAgentIDs (steps : list StepConfig) : list string := concat (map step_agents steps).

(** The fields of the dispatcher these functions read. *)
Record Dispatcher := {
  d_Workflows : list WorkflowConfig;
  d_Agents : list AgentConfig;
  d_agentRunner : gmap string string;
  d_queueProjectID : string;
  d_MaxAttempts : Z;
}.

Definition find_workflow (d : Dispatcher) (id : string) : option WorkflowConfig :=
  List.find (fun w => bool_decide (wc_ID w = id)) (d_Workflows d).

Record Requirements := {
  rq_pool : string; rq_labels : list string; rq_capabilities : list string; rq_affinity : string
}.

(** One agent entry with the id under way. *)
Definition add_agent (d : Dispatcher) (taskID : string) (acc : Requirements) (a : AgentConfig) : Requirements :=
  let adapter := d_agentRunner d !! ac_ID a in {|
    rq_pool := if is_empty (ac_WorkerPool a) then rq_pool acc else ac_WorkerPool a;
    rq_labels := rq_labels acc ++ ac_RequiresLabels a;
    rq_capabilities := rq_capabilities acc ++ ac_RequiresCapabilities a
      ++ (if is_empty (default "" adapter) then [] else ["runner:" +:+ default "" adapter]);
    rq_affinity := if ac_WorkspaceAffinity a then "task:" +:+ taskID else rq_affinity acc |}.

(** [requirementsForMatch]. *)
Definition requirementsForMatch (d : Dispatcher) (taskID : string) (m : Match) : Requirements :=
  let agents := match find_workflow d (route_id m) with
                | Some wf => workflowAgentIDs (wc_Steps wf)
                | None => [rt_Agent (m_Route m)]
                end in
  let acc := foldl (fun acc id => foldl (add_agent d taskID) acc
                      (List.filter (fun a => bool_decide (ac_ID a = id)) (d_Agents d)))
               {| rq_pool := "default"; rq_labels := []; rq_capabilities := []; rq_affinity := "" |}
               (uniqueStrings agents) in
  {| rq_pool := rq_pool acc; rq_labels := uniqueStrings (rq_labels acc);
     rq_capabilities := uniqueStrings (rq_capabilities acc ++ ["apiary.workflow"]); rq_affinity := rq_affinity acc |}.

(** [hasAllStrings] and [jobSatisfiableByAnyWorker]. *)
Definition hasAllStrings (have need : list string) : bool :=
  let set : gset string := list_to_set have in forallb (fun v => bool_decide (v ∈ set)) need.

Definition jobSatisfiableByAnyWorker (job : Job) (ws : list Worker) : bool :=
  existsb (fun w => negb (negb (is_empty (j_Pool job)) && negb (bool_decide (j_Pool job = w_Pool w)))
                    && (hasAllStrings (w_Labels w) (j_RequiredLabels job)
                        && hasAllStrings (w_Capabilities w) (j_RequiredCapabilities job))) ws.

(** ** The hand-off to the queue *)

Definition dispatchPayloadVersion : Z := 1.

Record dispatchJobPayload := {
  dp_Version : Z;
  dp_Cell : SourceItem;
  dp_Task : InternalTask;
  dp_Match : Match;
}.

(** [json.Marshal] and [json.Unmarshal] of the payload. *)
Class PayloadCodec := {
  payload_marshal : dispatchJobPayload -> option string;
  payload_unmarshal : string -> result string dispatchJobPayload;
}.

Record ExecutionEvent := {
  ee_Type : string; ee_TaskID : string; ee_WorkflowID : string; ee_Metadata : list (string * string)
}.

(** The stores the dispatcher writes: the tables of tasks and instances, the
    queue, and the log of execution events. *)
Record Stores := { w_tables : Tables; w_queue : Queue.DB; w_events : list ExecutionEvent }.

Definition on_tables (f : Tables -> Tables) (w : Stores) : Stores :=
  {| w_tables := f (w_tables w); w_queue := w_queue w; w_events := w_events w |}.
Definition log_event (e : ExecutionEvent) (w : Stores) : Stores :=
  {| w_tables := w_tables w; w_queue := w_queue w; w_events := w_events w ++ [e] |}.
Definition put_queue (q : Queue.DB) (w : Stores) : Stores :=
  {| w_tables := w_tables w; w_queue := q; w_events := w_events w |}.

(** [dispatchIdempotencyKey]. *)
Definition dispatchIdempotencyKey (taskID : string) (generation : Z) (workflowID suffix : string) : string :=
  taskID +:+ ":" +:+ pretty generation +:+ ":" +:+ workflowID
  +:+ (if is_empty suffix then "" else ":" +:+ suffix).

(** [isTerminalJobState]. *)
Definition isTerminalJobState (st : string) : bool := str_in st [JobSucceeded; JobFailed; JobCanceled].

(** [abandonReservation]. *)
Definition abandonReservation (m : Match) (db : Tables) : Tables :=
  if is_empty (m_InstanceID m) then db else (LeaveQueuedState (m_InstanceID m) state.Canceled "" db).1.

(** [rollbackQueuedOutstanding]: the count it leaves is ignored. *)
Definition rollbackQueuedOutstanding (taskID : string) (db : Tables) : Tables := (DecrementOutstanding taskID db).2.

(** A match that did not become a job. *)
Definition refuse (taskID : string) (m : Match) (w : Stores) : Stores :=
  on_tables (fun db => abandonReservation m (rollbackQueuedOutstanding taskID db)) w.

Section queue.
Context {RT : GoRuntime} {PC : PayloadCodec}.
Context (d : Dispatcher) (cell : SourceItem) (task : InternalTask) (idemSuffix : string).

Definition job_of (generation : Z) (payload : string) (m : Match) : Job :=
  let rq := requirementsForMatch d (it_ID task) m in {|
  j_ID := "";
  j_IdempotencyKey := dispatchIdempotencyKey (it_ID task) generation (route_id m) idemSuffix;
  j_ProjectID := d_queueProjectID d; j_SourceID := si_SourceID cell; j_TaskID := it_ID task;
  j_WorkflowID := route_id m; j_AgentID := rt_Agent (m_Route m);
  j_RunnerID := default "" (d_agentRunner d !! rt_Agent (m_Route m));
  j_Pool := rq_pool rq; j_RequiredLabels := rq_labels rq; j_RequiredCapabilities := rq_capabilities rq;
  j_AffinityKey := rq_affinity rq; j_AffinityWorkerID := ""; j_PayloadVersion := dispatchPayloadVersion;
  j_Payload := payload; j_Priority := - rt_Priority (m_Route m); j_State := ""; j_AttemptCount := 0;
  j_MaxAttempts := d_MaxAttempts d; j_CancelRequested := false; j_AvailableAt := 0; j_LeaseExpiresAt := None;
  j_CreatedAt := 0; j_UpdatedAt := 0 |}.

(** One round of the loop of [enqueueFanOut], with the id and the clock
    [Enqueue] draws; did it create a job? *)
Definition enqueue_one (generation : Z) (m : Match) (env : string * Z) (w : Stores) : Stores * bool :=
  match payload_marshal {| dp_Version := dispatchPayloadVersion; dp_Cell := cell; dp_Task := task; dp_Match := m |} with
  | None => (refuse (it_ID task) m w, false)
  | Some payload =>
      match Enqueue env.1 env.2 (job_of generation payload m) (w_queue w) with
      | Err _ => (refuse (it_ID task) m w, false)
      | Ok (false, job, _) =>
          let w := if isTerminalJobState (j_State job)
                   then log_event {| ee_Type := "dispatch.dropped"; ee_TaskID := it_ID task; ee_WorkflowID := route_id m;
                          ee_Metadata := [("reason", "idempotency key held by a terminal job"); ("detail", j_State job);
                                          ("job_id", j_ID job)] |} w
                   else w in
          (refuse (it_ID task) m w, false)
      | Ok (true, job, q) =>
          (log_event {| ee_Type := "queue.enqueued"; ee_TaskID := it_ID task; ee_WorkflowID := route_id m;
             ee_Metadata := [("job_id", j_ID job); ("pool", j_Pool job)] |} (put_queue q w), true)
      end
  end.

Fixpoint enqueue_loop (generation : Z) (matches : list (Match * (string * Z))) (w : Stores) : Stores * list bool :=
  match matches with
  | [] => (w, [])
  | (m, env) :: rest =>
      let '(w, created) := enqueue_one generation m env w in
      let '(w, flags) := enqueue_loop generation rest w in (w, created :: flags)
  end.

(** [enqueueFanOut]: the world, and which matches became jobs. [counted] says
    whether the first UPDATE, of [IncrementOutstanding], went through; every
    match comes with what [Enqueue] draws for it. *)
Definition enqueueFanOut (counted : bool) (matches : list (Match * (string * Z))) (w : Stores) : Stores * list bool :=
  if counted then
    let w := on_tables (fun db => (IncrementOutstanding (it_ID task) (Z.of_nat (length matches)) db).2) w in
    enqueue_loop (Generation (it_ID task) (w_tables w)) matches w
  else (on_tables (fun db => foldl (fun db m => abandonReservation m.1 db) db matches) w, []).
End queue.

(** ** Starting an instance (engine.go, workflow.go) *)

Inductive EngineError :=
  | ErrReservationLost (id st : string)
  | ErrCreateInstance
  | ErrSnapshot.

Section engine.
(** [runCreatedInstance]: the snapshot and the run of the scheduler. *)
Context (runCreatedInstance : WorkflowConfig -> InternalTask -> string -> Tables -> result EngineError bool * Tables).

(** [createInstance]. *)
Definition createInstance (now : Z) (id : string) (wf : WorkflowConfig) (task : InternalTask) (st : string)
    (db : Tables) : option Tables :=
  CreateWorkflowInstance now {| wi_ID := id; wi_WorkflowID := wc_ID wf; wi_TaskID := it_ID task; wi_State := st;
    wi_Reason := ""; wi_Generation := 0; wi_ResumedFrom := ""; wi_CreatedAt := now |} db.

(** [RunInstance], with the id it mints. *)
Definition RunInstance (now : Z) (newID : string) (wf : WorkflowConfig) (task : InternalTask) (db : Tables)
    : result EngineError bool * Tables :=
  match createInstance now newID wf task state.Running db with
  | None => (Err ErrCreateInstance, db)
  | Some db => runCreatedInstance wf task newID db
  end.

(** [ReserveInstance]. *)
Definition ReserveInstance (now : Z) (newID : string) (wf : WorkflowConfig) (task : InternalTask) (db : Tables)
    : option Tables := createInstance now newID wf task state.Queued db.

(** [RunReservedInstance]. *)
Definition RunReservedInstance (now : Z) (wf : WorkflowConfig) (task : InternalTask) (id : string) (db : Tables)
    : result EngineError bool * Tables :=
  let '(db, claimed) := LeaveQueuedState id state.Running "" db in
  if claimed then runCreatedInstance wf task id db
  else match GetWorkflowInstance id db with
       | Some existing => (Err (ErrReservationLost id (wi_State existing)), db)
       | None => RunInstance now id wf task db
       end.

(** [resolveWorkflow]. *)
Definition resolveWorkflow (d : Dispatcher) (m : Match) : WorkflowConfig :=
  default {| wc_ID := ""; wc_Resume := ""; wc_ResultComment := ""; wc_Trigger := None; wc_Inputs := ∅; wc_Outputs := ∅; wc_Steps := [] |}
    (find_workflow d (route_id m)).

(** [dispatchWorkflow]: [RunResult.Success]. *)
Definition dispatchWorkflow (d : Dispatcher) (now : Z) (newID : string) (task : InternalTask) (m : Match) (db : Tables)
    : bool * Tables :=
  let wf := resolveWorkflow d m in
  let '(res, db) := if is_empty (m_InstanceID m) then RunInstance now newID wf task db
                    else RunReservedInstance now wf task (m_InstanceID m) db in
  (match res with
   | Err (ErrReservationLost _ _) => true
   | Err _ => false
   | Ok success => success
   end, db).

(** *** Delivery of a queued job *)

(** [redeliveryConflict]: the reason to skip. *)
Definition redeliveryConflict (resuming : gset string) (taskID workflowID : string) (db : Tables) : option string :=
  if bool_decide (autoResumeKey taskID workflowID ∈ resuming)
  then Some "the interrupted run is being auto-resumed (resume: auto)"
  else if HasActiveInstanceForRoute taskID workflowID db
  then Some "the workflow already has a live instance for this task" else None.

Definition job_failed (msg : string) : FinishResult :=
  {| fr_Success := false; fr_Error := msg; fr_Note := ""; fr_Retry := false; fr_RetryAt := None |}.
Definition job_done (note : string) : FinishResult :=
  {| fr_Success := true; fr_Error := ""; fr_Note := note; fr_Retry := false; fr_RetryAt := None |}.

Definition with_instance (id : string) (m : Match) : Match :=
  {| m_Worker := m_Worker m; m_Route := m_Route m; m_InstanceID := id |}.

(** The guards of [ExecuteQueuedJob]: the result that ends the job, or the
    payload to run. *)
Definition admitQueuedJob {PC : PayloadCodec} (resuming : gset string) (job : Job) (db : Tables)
    : FinishResult + dispatchJobPayload :=
  match payload_unmarshal (j_Payload job) with
  | Err e => inl (job_failed ("decode dispatch payload: " +:+ e))
  | Ok p =>
      if negb (dp_Version p =? dispatchPayloadVersion)%Z
      then inl (job_failed ("unsupported dispatch payload version " +:+ pretty (dp_Version p)))
      else
        let m := dp_Match p in
        let taskID := it_ID (dp_Task p) in
        let redelivery := (1 <? j_AttemptCount job)%Z in
        if negb (is_empty taskID) && (redelivery || rt_Once (m_Route m)) && HasCompletedInstanceForRoute taskID (route_id m) db
        then inl (job_done ("skipped: " +:+ (if rt_Once (m_Route m)
               then "trigger declared once: true and the workflow already completed"
               else "redelivery of an already-completed workflow")))
        else match (if negb (is_empty taskID) && redelivery then redeliveryConflict resuming taskID (route_id m) db else None) with
             | Some reason => inl (job_done ("skipped: " +:+ reason))
             | None =>
                 let used := negb (is_empty (m_InstanceID m)) && redelivery
                   && match GetWorkflowInstance (m_InstanceID m) db with
                      | Some i => negb (str_in (wi_State i) [state.Queued; state.Canceled])
                      | None => false
                      end in
                 inr {| dp_Version := dp_Version p; dp_Cell := dp_Cell p; dp_Task := dp_Task p;
                        dp_Match := if used then with_instance "" m else m |}
             end
  end.

(** [ExecuteQueuedJob]; [ctx_err] is the error of the lease's context once the
    run returned. *)
Definition ExecuteQueuedJob {PC : PayloadCodec} (d : Dispatcher) (resuming : gset string) (now : Z) (newID : string)
    (ctx_err : option string) (job : Job) (db : Tables) : FinishResult * Tables :=
  match admitQueuedJob resuming job db with
  | inl res => (res, db)
  | inr p =>
      let '(success, db) := dispatchWorkflow d now newID (dp_Task p) (dp_Match p) db in
      (match ctx_err with
       | Some e => job_failed e
       | None => if success then job_done "" else job_failed "workflow dispatch failed"
       end, db)
  end.
End engine.

(** ** Settlement of remote jobs (queue_dispatch.go) *)

(** [reservedInstanceID]. *)
Definition reservedInstanceID {PC : PayloadCodec} (job : Job) : string :=
  match payload_unmarshal (j_Payload job) with
  | Ok p => m_InstanceID (dp_Match p)
  | Err _ => ""
  end.

(** [instanceStateForJob]. *)
Definition instanceStateForJob (job : Job) : string :=
  if bool_decide (j_State job = JobSucceeded) then state.Done
  else if bool_decide (j_State job = JobCanceled) then state.Canceled
  else state.Failed.

(** [settleJobAccounting]. *)
Definition settleJobAccounting (job : Job) (db : Tables) : Tables :=
  let '(remaining, db) := DecrementOutstanding (j_TaskID job) db in
  if (0 <? remaining)%Z then db
  else if bool_decide (j_State job = JobCanceled) then db
  else
    let failed := bool_decide (j_State job = JobFailed) || HasFailedInstance (j_TaskID job) db in
    UpdateTaskState (j_TaskID job) (if failed then state.Failed else state.Done) db.

(** The row a job settles through when nothing else recorded its run. *)
Definition queue_instance (job : Job) : string := "queue-" +:+ j_ID job.

(** [settleRemoteQueueJob]. *)
Definition settleRemoteQueueJob {PC : PayloadCodec} (now : Z) (job : Job) (db : Tables) : Tables :=
  if is_empty (j_TaskID job) then db
  else
    let unreserved :=
      match GetWorkflowInstance (queue_instance job) db with
      | Some _ => db
      | None =>
          if existsb (fun i => bool_decide (wi_WorkflowID i = j_WorkflowID job) && (j_CreatedAt job <=? wi_CreatedAt i)%Z)
               (ListWorkflowInstancesByTask (j_TaskID job) db)
          then db
          else match CreateWorkflowInstance now {| wi_ID := queue_instance job; wi_WorkflowID := j_WorkflowID job;
                       wi_TaskID := j_TaskID job; wi_State := instanceStateForJob job; wi_Reason := "";
                       wi_Generation := 0; wi_ResumedFrom := ""; wi_CreatedAt := 0 |} db with
               | None => db
               | Some db => settleJobAccounting job db
               end
      end in
    let reserved := reservedInstanceID job in
    match (if is_empty reserved then None else GetWorkflowInstance reserved db) with
    | Some _ =>
        let '(db, moved) := LeaveQueuedState reserved (instanceStateForJob job) "" db in
        if moved then settleJobAccounting job db else db
    | None => unreserved
    end.

(** [reconcileTerminalQueueJobs]. *)
Definition reconcileTerminalQueueJobs {PC : PayloadCodec} `{!Sorter newest_first} (now : Z) (q : Queue.DB) (db : Tables)
    : Tables :=
  foldl (fun db st => foldl (fun db job => settleRemoteQueueJob now job db) db (ListJobs st 1000 q))
    db [JobSucceeded; JobFailed; JobCanceled].

(** ** Stopping an instance (workflow_ipc.go) *)

(** [StopInstance] on the stores: [parked] says whether the engine held the
    instance parked or resuming, which [forgetParked] then drops, giving its slot
    back. *)
Definition StopInstance (now : Z) (parked : bool) (instanceID : string) (w : Stores) : option Stores :=
  match GetWorkflowInstance instanceID (w_tables w) with
  | None => None
  | Some inst =>
      let w := put_queue (RequestCancelFor now (wi_TaskID inst) (wi_WorkflowID inst) (w_queue w)).2 w in
      let '(db, moved) := if bool_decide (wi_State inst = state.Queued)
                         then LeaveQueuedState instanceID state.Canceled "" (w_tables w)
                         else (w_tables w, false) in
      Some (on_tables (fun _ =>
        if moved then releaseOutstanding (wi_TaskID inst) db
        else UpdateWorkflowInstanceState instanceID state.Blocked state.ReasonInterrupted
               (if parked then releaseOutstanding (wi_TaskID inst) db else db)) w)
  end.
