(* ===== verification/DispatchProps.v ===== *)
(** * What dispatching guarantees

    The guards of a poll as one verdict per workflow, the accounting of the
    hand-off to the queue, and the single owner of a reservation; with the
    defects the model shows. *)

From stdpp Require Import base gmap strings list pretty.
From Stdlib Require Import ZArith.
From S2P Require Import Prelude State Model Config Router Queue Tasks Dispatch.

(** ** The guards *)

(** The verdict lets the workflow through. *)
Definition clears (v : Match -> option droppedMatch) (m : Match) : bool :=
  match v m with Some _ => false | None => true end.

Lemma clears_None v m : clears v m = true <-> v m = None.
Proof. unfold clears. by destruct (v m). Qed.

Lemma drop_loop_spec v ms : drop_loop v ms = (List.filter (clears v) ms, omap v ms).
Proof. induction ms as [|m ms IH]; [done|]. simpl. rewrite IH. unfold clears. by destruct (v m). Qed.

(** The first of two verdicts. *)
Definition first_verdict (v1 v2 : Match -> option droppedMatch) (m : Match) : option droppedMatch :=
  match v1 m with Some d => Some d | None => v2 m end.

Lemma clears_first v1 v2 m : clears (first_verdict v1 v2) m = clears v1 m && clears v2 m.
Proof. unfold clears, first_verdict. by destruct (v1 m). Qed.

Lemma first_verdict_filter v1 v2 ms :
  List.filter (clears v2) (List.filter (clears v1) ms) = List.filter (clears (first_verdict v1 v2)) ms.
Proof.
  induction ms as [|m ms IH]; [done|]. simpl. rewrite clears_first, <- IH.
  destruct (clears v1 m); simpl; [|done]. by destruct (clears v2 m).
Qed.

Lemma first_verdict_gone v1 v2 ms :
  omap v1 ms ++ omap v2 (List.filter (clears v1) ms) ≡ₚ omap (first_verdict v1 v2) ms.
Proof.
  induction ms as [|m ms IH]; [done|]. simpl.
  assert (clears v1 m = match v1 m with Some _ => false | None => true end) as -> by done.
  assert (first_verdict v1 v2 m = match v1 m with Some d => Some d | None => v2 m end) as -> by done.
  destruct (v1 m); simpl; [by rewrite IH|]. destruct (v2 m); simpl; [|done]. by rewrite <- IH, Permutation_middle.
Qed.

(** What the guards of a poll say about a workflow: the first that objects. *)
Definition poll_verdict (g : GuardEnv) (task : string) : Match -> option droppedMatch :=
  first_verdict (resuming_verdict g task)
    (first_verdict (active_verdict g task)
       (first_verdict (once_verdict g task)
          (fun m => if (g_MaxAttempts g <=? 0)%Z then None else capped_verdict g task m))).

Lemma capped_loop g task ms :
  dropCappedMatches g task ms = drop_loop (fun m => if (g_MaxAttempts g <=? 0)%Z then None else capped_verdict g task m) ms.
Proof.
  unfold dropCappedMatches. destruct (g_MaxAttempts g <=? 0)%Z; [|done]. rewrite drop_loop_spec. f_equal.
  - symmetry. by apply filter_true.
  - by induction ms.
Qed.

Lemma first_verdict_None v1 v2 m : first_verdict v1 v2 m = None <-> v1 m = None /\ v2 m = None.
Proof. unfold first_verdict. destruct (v1 m); naive_solver. Qed.

(** When the store answers, a workflow passes when it is neither being resumed
    nor active, not a once-only workflow that completed, and not at the cap. *)
Lemma poll_verdict_store resuming limit db task m :
  poll_verdict (store_guards resuming limit db) task m = None <->
  ~ (autoResumeKey task (route_id m) ∈ resuming)
  /\ HasActiveInstanceForRoute task (route_id m) db = false
  /\ (rt_Once (m_Route m) = true -> HasCompletedInstanceForRoute task (route_id m) db = false)
  /\ ((0 < limit)%Z -> (Z.of_nat (CountConsecutiveFailedInstances task (route_id m) db) < limit)%Z).
Proof.
  unfold poll_verdict. rewrite !first_verdict_None.
  unfold resuming_verdict, active_verdict, once_verdict, capped_verdict. simpl.
  rewrite <- (bool_decide_eq_false (autoResumeKey task (route_id m) ∈ resuming)).
  destruct (bool_decide _), (HasActiveInstanceForRoute _ _ _), (rt_Once _), (HasCompletedInstanceForRoute _ _ _); simpl; try naive_solver.
  all: destruct (Z.leb_spec limit 0), (Z.leb_spec limit (Z.of_nat (CountConsecutiveFailedInstances task (route_id m) db)));
    split; intros; destruct_and?; split_and?; try done; intros; try done; lia.
Qed.

(** A poll dispatches exactly the workflows no guard objects to, in the
    order routing gave them, and accounts for every other one exactly once, by
    the first guard that removed it: a workflow being auto-resumed, one with a
    live instance on the task (or whose check failed: the guard fails closed), a
    [once] workflow that completed (likewise), and one at the
    consecutive-failure cap (a failed count lets it through). None is lost and
    none reported twice. A forced restart keeps the last two kinds and only
    names them. *)
Theorem poll_guards_exact (g : GuardEnv) (task : string) (ms : list Match) :
  (poll_guards g task true ms).1 = List.filter (clears (poll_verdict g task)) ms
  /\ (poll_guards g task true ms).2 ≡ₚ omap (poll_verdict g task) ms
  /\ length (poll_guards g task true ms).1 + length (poll_guards g task true ms).2 = length ms
  /\ (restart_guards g task true ms).1.1
     = List.filter (clears (first_verdict (resuming_verdict g task) (active_verdict g task))) ms.
Proof.
  assert (forall v : Match -> option droppedMatch, length (List.filter (clears v) ms) + length (omap v ms) = length ms) as Hlen.
  { intros v. induction ms as [|m ms' IH]; [done|]. simpl.
    assert (clears v m = match v m with Some _ => false | None => true end) as -> by done.
    destruct (v m); simpl; rewrite <- IH, ?Nat.add_succ_r; reflexivity. }
  assert ((poll_guards g task true ms).1 = List.filter (clears (poll_verdict g task)) ms
    /\ (poll_guards g task true ms).2 ≡ₚ omap (poll_verdict g task) ms) as [H1 H2].
  { unfold poll_guards, dropAutoResumingMatches, dropActiveMatches, dropOnceMatches.
    rewrite !drop_loop_spec, capped_loop, drop_loop_spec. simpl. unfold poll_verdict. split.
    - by rewrite !first_verdict_filter.
    - by rewrite <- !first_verdict_gone. }
  split; [exact H1|]. split; [exact H2|]. split; [rewrite H1, H2; apply Hlen|].
  unfold restart_guards, dropAutoResumingMatches, dropActiveMatches. rewrite !drop_loop_spec. simpl.
  apply first_verdict_filter.
Qed.

(** ** The signature of a report *)

(** Two polls that drop the same workflows for the same reasons have the same
    signature, whatever the order. *)
Lemma dropSignature_stable gone gone' suppressed :
  ((fun d => (dm_WorkflowID d, dm_Reason d)) <$> gone) ≡ₚ ((fun d => (dm_WorkflowID d, dm_Reason d)) <$> gone') ->
  dropSignature gone suppressed = dropSignature gone' suppressed.
Proof.
  intros H. unfold dropSignature. f_equal. apply sort_strings_perm. apply Permutation_app_tail.
  assert (forall l, (fun d => dm_WorkflowID d +:+ "=" +:+ dm_Reason d) <$> l
    = (fun p : string * string => p.1 +:+ "=" +:+ p.2) <$> ((fun d => (dm_WorkflowID d, dm_Reason d)) <$> l)) as He
    by (intros l; by rewrite <- list_fmap_compose).
  rewrite !He. by apply fmap_Permutation.
Qed.

(** ** The hand-off to the queue *)

Section hand_off.
Context {RT : GoRuntime} {PC : PayloadCodec}.
Context (d : Dispatcher) (cell : SourceItem) (task : InternalTask) (suffix : string).

(** The matches that did not become jobs. *)
Fixpoint refused_of (ms : list (Match * (string * Z))) (flags : list bool) : list Match :=
  match ms, flags with
  | (m, _) :: ms, created :: flags => if created then refused_of ms flags else m :: refused_of ms flags
  | _, _ => []
  end.

(** What refusing some matches does to the tables. *)
Definition refuse_all (refused : list Match) (db : Tables) : Tables :=
  foldl (fun db m => abandonReservation m (rollbackQueuedOutstanding (it_ID task) db)) db refused.

(** The row of a job created for a match. *)
Definition is_job_of (generation : Z) (m : Match) (r : JobRow) : Prop :=
  sn_idempotency_key (jr_snap r) = dispatchIdempotencyKey (it_ID task) generation (route_id m) suffix
  /\ sn_task_id (jr_snap r) = nullStr (it_ID task) /\ sn_workflow_id (jr_snap r) = nullStr (route_id m)
  /\ jr_state r = JobQueued /\ jr_attempt_count r = 0%Z.

Lemma Enqueue_spec id now job db b job' db' :
  Enqueue id now job db = Ok (b, job', db') ->
  if b then exists id' max avail, dispatch_jobs db !! id' = None
            /\ db' = set_jobs db (<[id' := newJobRow (with_id job id' max avail) now]> (dispatch_jobs db))
  else db' = db.
Proof.
  unfold Enqueue. destruct (is_empty _); [done|]. destruct (_ <=? 0)%Z; [done|]. destruct (negb _); [done|]. cbv zeta.
  destruct (bool_decide _ || bool_decide _) eqn:E.
  - rewrite bind_Ok. by intros (j & _ & [= <- _ <-]).
  - intros [= <- _ <-]. apply orb_false_iff in E as [E _]. apply bool_decide_eq_false, eq_None_not_Some in E.
    do 3 eexists. split; [exact E|done].
Qed.

Lemma enqueue_one_spec generation m env w w' b :
  enqueue_one d cell task suffix generation m env w = (w', b) ->
  if b then w_tables w' = w_tables w
            /\ exists id r, dispatch_jobs (w_queue w) !! id = None /\ is_job_of generation m r
                 /\ dispatch_jobs (w_queue w') = <[id := r]> (dispatch_jobs (w_queue w))
  else w_tables w' = refuse_all [m] (w_tables w) /\ w_queue w' = w_queue w.
Proof.
  unfold enqueue_one. destruct (payload_marshal _) as [p|]; [|by intros [= <- <-]].
  destruct (Enqueue _ _ _ _) as [[[[] job] q]|e] eqn:E; [..|by intros [= <- <-]].
  - intros [= <- <-]. apply Enqueue_spec in E as (id & max & avail & Hfresh & ->). split; [done|].
    eexists id, _. split; [done|]. split; [|done]. done.
  - intros [= <- <-]. by destruct (isTerminalJobState _).
Qed.

Lemma refuse_all_app ms1 ms2 db : refuse_all (ms1 ++ ms2) db = refuse_all ms2 (refuse_all ms1 db).
Proof. apply foldl_app. Qed.

Lemma enqueue_loop_spec generation ms w w' flags :
  enqueue_loop d cell task suffix generation ms w = (w', flags) ->
  length flags = length ms
  /\ w_tables w' = refuse_all (refused_of ms flags) (w_tables w)
  /\ dispatch_jobs (w_queue w) ⊆ dispatch_jobs (w_queue w')
  /\ size (dispatch_jobs (w_queue w')) + length (refused_of ms flags) = size (dispatch_jobs (w_queue w)) + length ms
  /\ (forall k m env, ms !! k = Some (m, env) -> flags !! k = Some true ->
       exists id r, dispatch_jobs (w_queue w) !! id = None /\ dispatch_jobs (w_queue w') !! id = Some r /\ is_job_of generation m r).
Proof.
  revert w flags. induction ms as [|[m env] ms IH]; intros w flags; simpl; [intros [= <- <-]; split_and!; done|].
  destruct (enqueue_one d cell task suffix generation m env w) as [w1 b] eqn:E1.
  destruct (enqueue_loop d cell task suffix generation ms w1) as [w2 fs] eqn:E2. intros [= <- <-].
  apply enqueue_one_spec in E1. destruct (IH _ _ E2) as (H1 & H2 & H3 & H4 & H5). destruct b.
  - destruct E1 as (Ht & id & r & Hfresh & Hr & Hq). rewrite Hq in *. simpl. split_and!.
    + by f_equal.
    + by rewrite H2, Ht.
    + etrans; [|exact H3]. by apply insert_subseteq.
    + rewrite map_size_insert_None in H4 by done. lia.
    + intros [|k] m' env'; simpl.
      * intros [= <- <-] _. exists id, r. split_and!; [done| |done]. eapply lookup_weaken; [|exact H3]. apply lookup_insert_eq.
      * intros Hk Hf. destruct (H5 k m' env' Hk Hf) as (id' & r' & Hn & Hs & Hj). exists id', r'. split_and!; [|done..].
        apply lookup_insert_None in Hn. naive_solver.
  - destruct E1 as [Ht Hq]. rewrite Hq in *. simpl. split_and!.
    + by f_equal.
    + rewrite H2, Ht. by rewrite <- refuse_all_app.
    + done.
    + lia.
    + intros [|k] m' env'; simpl; [done|]. apply H5.
Qed.

(** Refusing cancels the reservations that are still queued and nothing else. *)
Definition cancel_reserved (ids : list string) (i : InstanceRow) : InstanceRow :=
  if bool_decide (wi_State i = state.Queued) && negb (is_empty (wi_ID i)) && str_in (wi_ID i) ids
  then with_instance_state state.Canceled "" i else i.

Lemma cancel_reserved_cons id ids i : cancel_reserved ids (cancel_reserved [id] i) = cancel_reserved (id :: ids) i.
Proof.
  unfold cancel_reserved, str_in. rewrite (bool_decide_ext (wi_ID i ∈ [id]) (wi_ID i = id)) by apply list_elem_of_singleton.
  destruct (bool_decide_reflect (wi_State i = state.Queued)) as [Hq|]; simpl; [|by rewrite bool_decide_eq_false_2].
  destruct (is_empty (wi_ID i)) eqn:Ee; simpl; [by rewrite Ee, andb_false_r|].
  destruct (bool_decide_reflect (wi_ID i = id)) as [->|Hne]; simpl.
  - by rewrite (bool_decide_eq_true_2 (_ ∈ _ :: _)) by (by left).
  - rewrite Hq, bool_decide_eq_true_2, Ee by done. simpl.
    by rewrite (bool_decide_ext (wi_ID i ∈ id :: ids) (wi_ID i ∈ ids)) by (rewrite elem_of_cons; naive_solver).
Qed.

Lemma map_same {A} (f : A -> A) l : (forall x, f x = x) -> map f l = l.
Proof. intros H. induction l as [|x l IH]; [done|]. simpl. by rewrite H, IH. Qed.

Lemma refuse_all_tables refused db :
  workflow_instances (refuse_all refused db) = map (cancel_reserved (m_InstanceID <$> refused)) (workflow_instances db)
  /\ (forall id, id <> it_ID task -> internal_tasks (refuse_all refused db) !! id = internal_tasks db !! id)
  /\ (forall t, internal_tasks db !! it_ID task = Some t -> (Z.of_nat (length refused) <= tk_outstanding t)%Z ->
       internal_tasks (refuse_all refused db) !! it_ID task =
       Some {| tk_state := tk_state t; tk_reason := tk_reason t;
               tk_outstanding := tk_outstanding t - Z.of_nat (length refused); tk_generation := tk_generation t |}).
Proof.
  revert db. induction refused as [|m ms IH]; intros db.
  - split_and!; [|done|].
    + symmetry. apply map_same. intros i. unfold cancel_reserved. simpl. by rewrite andb_false_r.
    + intros t Ht _. simpl. rewrite Ht. f_equal. destruct t; simpl. f_equal. lia.
  - specialize (IH (abandonReservation m (rollbackQueuedOutstanding (it_ID task) db))) as (H1 & H2 & H3).
    assert (internal_tasks (abandonReservation m (rollbackQueuedOutstanding (it_ID task) db))
      = alter decrement_row (it_ID task) (internal_tasks db)) as Ht.
    { unfold abandonReservation, LeaveQueuedState. simpl. by destruct (is_empty _). }
    assert (workflow_instances (abandonReservation m (rollbackQueuedOutstanding (it_ID task) db))
      = map (cancel_reserved [m_InstanceID m]) (workflow_instances db)) as Hi.
    { unfold abandonReservation, LeaveQueuedState. simpl. destruct (is_empty (m_InstanceID m)) eqn:E; simpl.
      - symmetry. apply map_same. intros i. unfold cancel_reserved, str_in.
        destruct (bool_decide (wi_ID i ∈ _)) eqn:Ei; [|by rewrite andb_false_r]. apply bool_decide_eq_true in Ei.
        apply list_elem_of_singleton in Ei. rewrite Ei, E. by rewrite andb_false_r.
      - apply map_ext. intros i. unfold cancel_reserved, str_in.
        rewrite (bool_decide_ext (wi_ID i ∈ _) (wi_ID i = m_InstanceID m)) by apply list_elem_of_singleton.
        destruct (bool_decide_reflect (wi_ID i = m_InstanceID m)) as [->|]; [|by rewrite andb_false_r].
        rewrite E. simpl. by rewrite !andb_true_r. }
    simpl. split_and!.
    + rewrite H1, Hi, map_map. apply map_ext. intros i. apply cancel_reserved_cons.
    + intros id Hid. rewrite H2, Ht by done. by rewrite lookup_alter_ne.
    + intros t Hl Hle. rewrite (H3 (decrement_row t)); [|by rewrite Ht, lookup_alter_eq, Hl|simpl; lia].
      f_equal. unfold decrement_row. simpl. f_equal. lia.
Qed.

Lemma refused_length ms flags :
  length flags = length ms -> length (refused_of ms flags) + length (List.filter (fun b => b) flags) = length ms.
Proof.
  revert flags. induction ms as [|[m env] ms IH]; intros [|b flags]; simpl; try done. intros [= H].
  specialize (IH flags H). destruct b; simpl; lia.
Qed.

(** Handing workflows to the queue keeps the task's count of outstanding
    workflows equal to what was really handed over. When the count could be
    raised, then however each match fares - a new job, a job that already holds
    its key, a refused or unwritable one - the count ends up raised by exactly
    the number of jobs created, the queue has exactly those new jobs and kept
    every old one, each created job is queued under the key of its workflow in
    the task's generation after the round was opened, and the reservations that
    are canceled are exactly the ones still queued that belong to a refused
    match. Every other instance and every other task is untouched. *)
Theorem enqueueFanOut_accounts (ms : list (Match * (string * Z))) (w w' : Stores) (t : TaskRow) (flags : list bool) :
  internal_tasks (w_tables w) !! it_ID task = Some t -> (0 <= tk_outstanding t)%Z ->
  enqueueFanOut d cell task suffix true ms w = (w', flags) ->
  let opened := increment_row (Z.of_nat (length ms)) t in
  let created := length (List.filter (fun b => b) flags) in
  length flags = length ms
  /\ internal_tasks (w_tables w') !! it_ID task = Some {|
       tk_state := tk_state opened; tk_reason := tk_reason opened;
       tk_outstanding := tk_outstanding t + Z.of_nat created; tk_generation := tk_generation opened |}
  /\ size (dispatch_jobs (w_queue w')) = size (dispatch_jobs (w_queue w)) + created
  /\ dispatch_jobs (w_queue w) ⊆ dispatch_jobs (w_queue w')
  /\ (forall k m env, ms !! k = Some (m, env) -> flags !! k = Some true ->
       exists id r, dispatch_jobs (w_queue w) !! id = None /\ dispatch_jobs (w_queue w') !! id = Some r
         /\ is_job_of (tk_generation opened) m r)
  /\ workflow_instances (w_tables w')
     = map (cancel_reserved (m_InstanceID <$> refused_of ms flags)) (workflow_instances (w_tables w))
  /\ (forall id, id <> it_ID task -> internal_tasks (w_tables w') !! id = internal_tasks (w_tables w) !! id).
Proof.
  intros Ht Ho H opened created. unfold enqueueFanOut in H.
  set (w1 := on_tables _ w) in H.
  assert (internal_tasks (w_tables w1) !! it_ID task = Some opened) as Ht1 by (simpl; by rewrite lookup_alter_eq, Ht).
  assert (Generation (it_ID task) (w_tables w1) = tk_generation opened) as Hg by (unfold Generation; by rewrite Ht1).
  rewrite Hg in H. apply enqueue_loop_spec in H as (H1 & H2 & H3 & H4 & H5).
  pose proof (refused_length ms flags H1) as Hlen. fold created in Hlen.
  destruct (refuse_all_tables (refused_of ms flags) (w_tables w1)) as (R1 & R2 & R3). rewrite <- H2 in R1, R2, R3.
  specialize (R3 opened Ht1 ltac:(simpl; lia)). change (w_queue w1) with (w_queue w) in *. split_and!; try done.
  - rewrite R3. f_equal. f_equal. simpl. lia.
  - lia.
  - intros id Hid. rewrite R2 by done. simpl. by rewrite lookup_alter_ne.
Qed.
End hand_off.

(** *** An example: a task that is done, and two workflows *)

Definition json_codec : PayloadCodec := {|
  payload_marshal := fun _ => Some "{}";
  payload_unmarshal := fun _ => Err "unused" |}.
Definition broken_codec : PayloadCodec := {|
  payload_marshal := fun _ => None;
  payload_unmarshal := fun _ => Err "unused" |}.

Definition example_task : InternalTask := {|
  it_ID := "t"; it_ParentTaskID := ""; it_Title := ""; it_Description := "";
  it_Metadata := {| md_Labels := []; md_Priority := ""; md_Type := ""; md_Source := ""; md_State := "" |} |}.
Definition example_cell : SourceItem := {|
  si_ID := "c"; si_SourceID := "s"; si_Number := ""; si_Title := ""; si_Description := ""; si_Labels := [];
  si_Type := ""; si_Priority := ""; si_State := ""; si_URL := ""; si_Comments := [] |}.
Definition example_match (wf inst : string) : Match := {|
  m_Worker := None; m_InstanceID := inst;
  m_Route := {| rt_ID := wf; rt_Priority := 0; rt_Match := empty_match; rt_Agent := "dev"; rt_Worker := "";
    rt_Exclusive := false; rt_Once := false; rt_On := ""; rt_CommentMatches := ""; rt_Authors := [];
    rt_AuthorsAssociation := []; rt_IgnoreAuthors := []; rt_PRAuthors := []; rt_MaxDispatches := 0 |} |}.
Definition example_dispatcher : Dispatcher := {|
  d_Workflows := []; d_Agents := []; d_agentRunner := {["dev" := "claude"]}; d_queueProjectID := "p"; d_MaxAttempts := 3 |}.
Definition done_task : TaskRow := {| tk_state := state.Done; tk_reason := ""; tk_outstanding := 0; tk_generation := 4 |}.
Definition queued_row (id wf : string) : InstanceRow := {|
  wi_ID := id; wi_WorkflowID := wf; wi_TaskID := "t"; wi_State := state.Queued; wi_Reason := ""; wi_Generation := 4;
  wi_ResumedFrom := ""; wi_CreatedAt := 1 |}.
Definition example_world : Stores := {|
  w_tables := {| internal_tasks := {["t" := done_task]}; workflow_instances := [queued_row "r1" "ship"; queued_row "r2" "ship"] |};
  w_queue := empty_db; w_events := [] |}.

(** The second match repeats the key of the first: one job, one reservation
    canceled, one workflow outstanding in generation 5. *)
Lemma enqueueFanOut_accounts_witness :
  exists w' flags,
    enqueueFanOut (RT := literal_runtime) (PC := json_codec) example_dispatcher example_cell example_task "" true
      [(example_match "ship" "r1", ("j1", 7%Z)); (example_match "ship" "r2", ("j2", 8%Z))] example_world = (w', flags)
    /\ flags = [true; false]
    /\ internal_tasks (w_tables w') !! "t" = Some {| tk_state := state.Running; tk_reason := ""; tk_outstanding := 1; tk_generation := 5 |}
    /\ workflow_instances (w_tables w') = [queued_row "r1" "ship"; with_instance_state state.Canceled "" (queued_row "r2" "ship")].
Proof.
  destruct (enqueueFanOut (RT := literal_runtime) (PC := json_codec) example_dispatcher example_cell example_task "" true
      [(example_match "ship" "r1", ("j1", 7%Z)); (example_match "ship" "r2", ("j2", 8%Z))] example_world) as [w' flags] eqn:E.
  exists w', flags. split; [reflexivity|].
  pose proof (f_equal snd E) as Hf. vm_compute in Hf. simpl in Hf. subst flags.
  pose proof (enqueueFanOut_accounts (RT := literal_runtime) (PC := json_codec) example_dispatcher example_cell example_task "" _
    example_world w' done_task _ eq_refl ltac:(done) E) as (_ & H1 & _ & _ & _ & H2 & _).
  split; [reflexivity|]. split; [exact H1|exact H2].
Defined.

(** A round whose every hand-off fails reopens a settled task and leaves it
    running with nothing under way; a restart does not repair it either, for no
    instance of the new generation exists. *)
Lemma failed_enqueue_strands_task :
  let w := (enqueueFanOut (RT := literal_runtime) (PC := broken_codec) example_dispatcher example_cell example_task "" true
      [(example_match "ship" "", ("j1", 7%Z))] example_world).1 in
  internal_tasks (w_tables w) !! "t"
    = Some {| tk_state := state.Running; tk_reason := ""; tk_outstanding := 0; tk_generation := 5 |}
  /\ dispatch_jobs (w_queue w) = ∅
  /\ internal_tasks (ReconcileOrphanTaskCounters (set_instances [] (w_tables w))) !! "t"
    = Some {| tk_state := state.Running; tk_reason := ""; tk_outstanding := 0; tk_generation := 5 |}.
Proof. split_and!; vm_compute; reflexivity. Qed.
