(* ===== verification/DeliveryProps.v ===== *)
(** * Delivering and settling queued jobs

    A reservation has one owner whatever races for it; a redelivered job never
    starts a second live run; settling the jobs remote workers ran is counted
    once however often it is repeated. *)

From stdpp Require Import base gmap strings list pretty.
From Stdlib Require Import ZArith.
From S2P Require Import Prelude State Model Config Router Queue Lower Tasks Dispatch DispatchProps.

(** ** Rows and their ids *)

Lemma GetWorkflowInstance_Some id db i :
  GetWorkflowInstance id db = Some i -> i ∈ workflow_instances db /\ wi_ID i = id.
Proof. intros [H1 H2%bool_decide_eq_true]%List.find_some. by rewrite list_elem_of_In. Qed.

Lemma GetWorkflowInstance_None id db :
  GetWorkflowInstance id db = None <-> id ∉ wi_ID <$> workflow_instances db.
Proof.
  unfold GetWorkflowInstance. split.
  - intros H (i & -> & Hi)%list_elem_of_fmap. apply list_elem_of_In in Hi.
    pose proof (List.find_none _ _ H i Hi) as E. by apply bool_decide_eq_false in E.
  - intros H. destruct (List.find _ _) as [i|] eqn:E; [|done]. apply List.find_some in E as [Hi E%bool_decide_eq_true].
    destruct H. subst id. apply list_elem_of_fmap_2. by apply list_elem_of_In.
Qed.

(** An UPDATE that keeps the ids. *)
Lemma ids_of_update p f db :
  (forall i, wi_ID (f i) = wi_ID i) -> wi_ID <$> workflow_instances (update_instances p f db).1 = wi_ID <$> workflow_instances db.
Proof.
  intros H. simpl. induction (workflow_instances db) as [|i rows IH]; [done|]. simpl.
  f_equal; [by destruct (p i); rewrite ?H|exact IH].
Qed.

(** Row [id] is there and is no longer queued. *)
Definition taken (id : string) (db : Tables) : Prop :=
  id ∈ wi_ID <$> workflow_instances db
  /\ (forall i, i ∈ workflow_instances db -> wi_ID i = id -> wi_State i <> state.Queued).

Lemma taken_update id p f db :
  (forall i, wi_ID (f i) = wi_ID i) -> (forall i, wi_State (f i) <> state.Queued) ->
  taken id db -> taken id (update_instances p f db).1.
Proof.
  intros H1 H2 [Hin Hq]. split; [by rewrite ids_of_update|]. simpl.
  intros i Hi Hid. apply list_elem_of_In, in_map_iff in Hi as (x & <- & Hx%list_elem_of_In). destruct (p x); [apply H2|by apply Hq].
Qed.

Lemma taken_create id now row db db' :
  CreateWorkflowInstance now row db = Some db' -> taken id db -> taken id db'.
Proof.
  unfold CreateWorkflowInstance. case_match eqn:Hf; [done|]. intros [= <-] [Hin Hq]. split; simpl.
  - rewrite fmap_app. apply elem_of_app. by left.
  - intros i [Hi| ->%list_elem_of_singleton]%elem_of_app Hid; [by apply Hq|]. simpl in Hid. subst id.
    by apply bool_decide_eq_false in Hf.
Qed.

(** ** The owner of a reservation *)

(** The statements that may touch a reserved row: the run that starts, an
    operator, the queue's settlement or a failed hand-off leave the queued state;
    the engine and a stop update a row; new rows appear. *)
Inductive ReservationOp :=
  | OpLeave (id newState reason : string)
  | OpUpdate (id newState reason : string)
  | OpCreate (now : Z) (row : InstanceRow).

(** No statement puts a row back into the queue. *)
Definition never_requeues (op : ReservationOp) : bool :=
  match op with
  | OpLeave _ st _ | OpUpdate _ st _ => negb (bool_decide (st = state.Queued))
  | OpCreate _ _ => true
  end.

Definition run_op (op : ReservationOp) (db : Tables) : Tables * bool :=
  match op with
  | OpLeave id st reason => LeaveQueuedState id st reason db
  | OpUpdate id st reason => (UpdateWorkflowInstanceState id st reason db, false)
  | OpCreate now row => (default db (CreateWorkflowInstance now row db), false)
  end.

Definition leaves (id : string) (op : ReservationOp) : bool :=
  match op with OpLeave id' _ _ => bool_decide (id' = id) | _ => false end.
Definition updates (id : string) (op : ReservationOp) : bool :=
  match op with OpUpdate id' _ _ => bool_decide (id' = id) | _ => false end.

(** How many calls were told they own the reservation. *)
Fixpoint owners (id : string) (ops : list ReservationOp) (db : Tables) : nat :=
  match ops with
  | [] => 0
  | op :: ops => let '(db, won) := run_op op db in (if leaves id op && won then 1 else 0) + owners id ops db
  end.

Lemma LeaveQueuedState_db id st reason db :
  (LeaveQueuedState id st reason db).1
  = (update_instances (fun i => bool_decide (wi_ID i = id) && bool_decide (wi_State i = state.Queued))
       (with_instance_state st reason) db).1.
Proof. done. Qed.

Lemma LeaveQueuedState_spec id st reason db :
  (LeaveQueuedState id st reason db).2
  = existsb (fun i => bool_decide (wi_ID i = id) && bool_decide (wi_State i = state.Queued)) (workflow_instances db).
Proof.
  unfold LeaveQueuedState. simpl. induction (workflow_instances db) as [|i rows IH]; [done|]. simpl.
  destruct (_ && _) eqn:E; simpl; [done|]. exact IH.
Qed.

Lemma taken_op id op db : never_requeues op = true -> taken id db -> taken id (run_op op db).1.
Proof.
  intros Hn Ht. destruct op as [id' st r|id' st r|now row]; simpl in *.
  - apply negb_true_iff, bool_decide_eq_false in Hn. by apply taken_update.
  - apply negb_true_iff, bool_decide_eq_false in Hn. unfold UpdateWorkflowInstanceState. case_match; [done|]. by apply taken_update.
  - destruct (CreateWorkflowInstance now row db) eqn:E; [by eapply taken_create|done].
Qed.

Lemma taken_not_left id st reason db : taken id db -> (LeaveQueuedState id st reason db).2 = false.
Proof.
  intros [_ Hq]. rewrite LeaveQueuedState_spec. apply not_true_is_false. rewrite existsb_exists.
  intros (i & Hi%list_elem_of_In & [E1%bool_decide_eq_true E2%bool_decide_eq_true]%andb_true_iff). by apply (Hq i).
Qed.

Lemma taken_no_owner id ops db : forallb never_requeues ops = true -> taken id db -> owners id ops db = 0.
Proof.
  revert db. induction ops as [|op ops IH]; intros db; [done|]. simpl. rewrite andb_true_iff. intros [Hn Hf] Ht.
  pose proof (taken_op id op db Hn Ht) as Ht'. destruct (run_op op db) as [db' won] eqn:E. simpl in Ht'. rewrite IH by done.
  destruct op as [id' st r|id' st r|now row]; simpl in *; [|done..].
  destruct (bool_decide_reflect (id' = id)) as [->|]; [|done].
  assert (won = false) as -> by (rewrite <- (taken_not_left id st r db Ht); by rewrite E). done.
Qed.

(** Whoever leaves the queued state took the row. *)
Lemma left_taken id st reason db :
  st <> state.Queued -> (LeaveQueuedState id st reason db).2 = true -> taken id (LeaveQueuedState id st reason db).1.
Proof.
  intros Hst. rewrite LeaveQueuedState_spec, existsb_exists. intros (i & Hi%list_elem_of_In & [E1%bool_decide_eq_true _]%andb_true_iff).
  rewrite LeaveQueuedState_db. split.
  - rewrite ids_of_update by done. subst id. by apply list_elem_of_fmap_2.
  - simpl. intros x Hx Hid.
    apply list_elem_of_In, in_map_iff in Hx as (y & <- & _). destruct (_ && _) eqn:E; [done|].
    rewrite bool_decide_eq_true_2 in E by done. by apply bool_decide_eq_false in E.
Qed.

(** A row that is still queued stays so until a call leaves or updates it. *)
Lemma queued_stays id op db :
  leaves id op = false -> updates id op = false -> (LeaveQueuedState id state.Running "" db).2 = true ->
  (LeaveQueuedState id state.Running "" (run_op op db).1).2 = true.
Proof.
  rewrite !LeaveQueuedState_spec, !existsb_exists. intros Hl Hu (i & Hi & Hq). exists i. split; [|done].
  pose proof Hq as [E1%bool_decide_eq_true _]%andb_true_iff.
  destruct op as [id' st r|id' st r|now row]; simpl in *.
  - apply bool_decide_eq_false in Hl. apply in_map_iff. exists i. split; [|done].
    by rewrite bool_decide_eq_false_2 by congruence.
  - apply bool_decide_eq_false in Hu. unfold UpdateWorkflowInstanceState. case_match; [done|].
    simpl. apply in_map_iff. exists i. split; [|done]. by rewrite bool_decide_eq_false_2 by congruence.
  - unfold CreateWorkflowInstance. case_match; simpl; [done|]. apply in_or_app. by left.
Qed.

Lemma owners_cons id op ops db :
  owners id (op :: ops) db
  = (if leaves id op && (run_op op db).2 then 1 else 0) + owners id ops (run_op op db).1.
Proof. cbn [owners]. by destruct (run_op op db). Qed.

Lemma won_taken id op db :
  never_requeues op = true -> leaves id op && (run_op op db).2 = true -> taken id (run_op op db).1.
Proof.
  destruct op as [id' st r|id' st r|now row]; [|done..]. cbn [never_requeues leaves run_op].
  intros Hn%negb_true_iff%bool_decide_eq_false [->%bool_decide_eq_true Hw]%andb_true_iff. by apply left_taken.
Qed.

(** The first call to leave a queued row wins. *)
Lemma queued_won id op db :
  leaves id op = true -> (LeaveQueuedState id state.Running "" db).2 = true -> (run_op op db).2 = true.
Proof.
  destruct op as [id' st r|id' st r|now row]; [|done..]. cbn [leaves run_op]. intros ->%bool_decide_eq_true.
  by rewrite !LeaveQueuedState_spec.
Qed.

(** C7: A reservation has one owner. A queued row may be wanted by the run that
    is about to start, by an operator who cancels it, by the queue settling its
    job and by a hand-off that failed; whatever statements they and everyone
    else execute, in whatever order, at most one [LeaveQueuedState] on the row
    reports that it moved it - and exactly one does when the row was queued and
    at least one of them runs before anything overwrites the row. So the task's
    slot behind the reservation is given back or handed to a run once. *)
Theorem reservation_has_one_owner (id : string) (ops : list ReservationOp) (db : Tables) :
  forallb never_requeues ops = true ->
  owners id ops db <= 1
  /\ ((exists i, i ∈ workflow_instances db /\ wi_ID i = id /\ wi_State i = state.Queued) ->
      existsb (leaves id) ops = true -> existsb (updates id) ops = false -> owners id ops db = 1).
Proof.
  intros Hn. assert ((exists i, i ∈ workflow_instances db /\ wi_ID i = id /\ wi_State i = state.Queued) <->
    (LeaveQueuedState id state.Running "" db).2 = true) as ->.
  { rewrite LeaveQueuedState_spec, existsb_exists. setoid_rewrite andb_true_iff. setoid_rewrite bool_decide_eq_true.
    by setoid_rewrite list_elem_of_In. }
  revert db Hn. induction ops as [|op ops IH]; intros db Hn; [split; [simpl; lia|done]|].
  cbn [forallb] in Hn. apply andb_true_iff in Hn as [Hn Hf]. rewrite owners_cons. cbn [existsb].
  destruct (leaves id op && (run_op op db).2) eqn:Ew.
  - rewrite taken_no_owner by (done || by apply won_taken). split; [lia|by intros].
  - destruct (IH (run_op op db).1 Hf) as [IH1 IH2]. split; [simpl; lia|].
    intros Hq Hl Hu. apply orb_false_iff in Hu as [Hu1 Hu2]. destruct (leaves id op) eqn:Elo.
    + by rewrite (queued_won id op db Elo Hq) in Ew.
    + apply IH2; [by apply queued_stays|done|done].
Qed.

Lemma reservation_has_one_owner_witness :
  let ops := [OpUpdate "x" state.Done ""; OpLeave "r1" state.Canceled ""; OpLeave "r1" state.Running "";
              OpUpdate "y" state.Failed ""; OpLeave "r1" state.Failed ""] in
  owners "r1" ops (w_tables example_world) = 1.
Proof.
  apply (reservation_has_one_owner "r1" _ (w_tables example_world)); [reflexivity| |reflexivity|reflexivity].
  exists (queued_row "r1" "ship"). split; [left|]. split; reflexivity.
Defined.

(** ** Settling remote jobs *)

Section settlement.
Context {PC : PayloadCodec}.

(** Something already records the run of the job: the reservation it settles
    through, the row an earlier settlement wrote, or an instance of the local
    engine at least as new as the job. *)
Definition recorded (job : Job) (db : Tables) : bool :=
  is_empty (j_TaskID job)
  || match (if is_empty (reservedInstanceID job) then None else GetWorkflowInstance (reservedInstanceID job) db) with
     | Some _ => negb (LeaveQueuedState (reservedInstanceID job) (instanceStateForJob job) "" db).2
     | None =>
         bool_decide (is_Some (GetWorkflowInstance (queue_instance job) db))
         || existsb (fun i => bool_decide (wi_WorkflowID i = j_WorkflowID job) && (j_CreatedAt job <=? wi_CreatedAt i)%Z)
              (ListWorkflowInstancesByTask (j_TaskID job) db)
     end.

Lemma LeaveQueuedState_lost id st reason db :
  (LeaveQueuedState id st reason db).2 = false -> (LeaveQueuedState id st reason db).1 = db.
Proof.
  rewrite LeaveQueuedState_spec, LeaveQueuedState_db. intros H. destruct db as [tasks rows]. unfold update_instances, set_instances. simpl in *.
  f_equal. induction rows as [|i rows IH]; [done|]. simpl in *. apply orb_false_iff in H as [H1 H2]. by rewrite H1, IH.
Qed.

Lemma recorded_unchanged now job db : recorded job db = true -> settleRemoteQueueJob now job db = db.
Proof.
  unfold recorded, settleRemoteQueueJob. destruct (is_empty (j_TaskID job)); [done|]. cbn [orb].
  destruct (if is_empty _ then None else _) as [r|].
  - intros H%negb_true_iff. pose proof (LeaveQueuedState_lost _ _ _ _ H) as Hdb.
    destruct (LeaveQueuedState _ _ _ db) as [db' moved]. simpl in *. by subst.
  - intros [H%bool_decide_eq_true|H]%orb_true_iff.
    + destruct H as [x ->]. done.
    + rewrite H. by destruct (GetWorkflowInstance _ _).
Qed.

(** Accounting writes the task, never an instance. *)
Lemma settleJobAccounting_rows job db : workflow_instances (settleJobAccounting job db) = workflow_instances db.
Proof.
  unfold settleJobAccounting, DecrementOutstanding. destruct (0 <? _)%Z; [done|]. by destruct (bool_decide _).
Qed.

(** It gives one slot of the task back. *)
Lemma settleJobAccounting_outstanding job db t :
  internal_tasks db !! j_TaskID job = Some t ->
  outstanding (j_TaskID job) (settleJobAccounting job db) = Z.max (tk_outstanding t - 1) 0.
Proof.
  intros Ht. unfold settleJobAccounting, DecrementOutstanding. set (db1 := set_tasks _ db).
  assert (internal_tasks db1 !! j_TaskID job = Some (decrement_row t)) as H1 by (simpl; by rewrite lookup_alter_eq, Ht).
  assert (outstanding (j_TaskID job) db1 = Z.max (tk_outstanding t - 1) 0) as Ho by (unfold outstanding; by rewrite H1).
  destruct (0 <? _)%Z; [done|]. destruct (bool_decide _); [done|]. unfold outstanding, UpdateTaskState, UpdateTaskStateReason.
  simpl. rewrite lookup_alter_eq, lookup_alter_eq, Ht. done.
Qed.

(** The row that records a job that was not recorded before. *)
Definition records (job : Job) (i : InstanceRow) : Prop :=
  wi_State i = instanceStateForJob job
  /\ (wi_ID i = reservedInstanceID job \/ wi_ID i = queue_instance job /\ wi_WorkflowID i = j_WorkflowID job
                                          /\ wi_TaskID i = j_TaskID job).

Lemma job_state_settled job : instanceStateForJob job <> state.Queued.
Proof. unfold instanceStateForJob. by repeat case_bool_decide. Qed.

(** Both ways of settling leave a row that is taken. *)
Lemma settle_unrecorded now job db :
  recorded job db = false ->
  exists db1, settleRemoteQueueJob now job db = settleJobAccounting job db1
    /\ internal_tasks db1 = internal_tasks db
    /\ (exists i, i ∈ workflow_instances db1 /\ records job i)
    /\ (forall id, taken id db -> taken id db1)
    /\ (taken (reservedInstanceID job) db1 /\ is_empty (reservedInstanceID job) = false
        \/ (is_empty (reservedInstanceID job) = true \/ reservedInstanceID job = queue_instance job
            \/ GetWorkflowInstance (reservedInstanceID job) db1 = None)
           /\ taken (queue_instance job) db1).
Proof.
  unfold recorded, settleRemoteQueueJob. destruct (is_empty (j_TaskID job)); [done|]. cbn [orb].
  pose proof (job_state_settled job) as Hst.
  destruct (is_empty (reservedInstanceID job)) eqn:Er; [|destruct (GetWorkflowInstance (reservedInstanceID job) db) as [r|] eqn:Eg].
  2: {
    intros H%negb_false_iff. pose proof (left_taken _ _ _ _ Hst H) as Ht.
    rewrite (surjective_pairing (LeaveQueuedState _ _ _ db)), H. eexists. split; [reflexivity|].
    split_and!; [done| | |by left].
    - rewrite LeaveQueuedState_spec, existsb_exists in H.
      destruct H as (i & Hi & Hq). pose proof Hq as [E1%bool_decide_eq_true _]%andb_true_iff.
      exists (with_instance_state (instanceStateForJob job) "" i). split; [|split; [done|by left]].
      rewrite LeaveQueuedState_db. apply list_elem_of_In, in_map_iff. exists i. by rewrite Hq.
    - intros id Hid. rewrite LeaveQueuedState_db. by apply taken_update. }
  all: intros [H1%bool_decide_eq_false%eq_None_not_Some H2]%orb_false_iff; rewrite H1, H2.
  all: destruct (CreateWorkflowInstance _ _ db) as [db1|] eqn:Ec;
    [|unfold CreateWorkflowInstance in Ec; case_match eqn:Ef; [|done];
      apply bool_decide_eq_true in Ef; by apply GetWorkflowInstance_None in H1].
  all: exists db1; split; [reflexivity|].
  all: assert (forall id, taken id db -> taken id db1) as Hk by (intros id; by eapply taken_create).
  all: unfold CreateWorkflowInstance in Ec; case_match; [done|]; injection Ec as <-.
  all: split_and!; [done|eexists; split; [apply elem_of_app; right; by left|split; [done|by right]]|exact Hk|right; split].
  1: by left.
  2: { right. destruct (decide (reservedInstanceID job = queue_instance job)) as [|Hne]; [by left|right].
       apply GetWorkflowInstance_None. simpl. rewrite fmap_app. apply GetWorkflowInstance_None in Eg. intros [Hin|Hin]%elem_of_app; [done|].
       simpl in Hin. by apply list_elem_of_singleton in Hin. }
  all: split; [simpl; rewrite fmap_app; apply elem_of_app; right; by left|].
  all: simpl; intros i [Hi| ->%list_elem_of_singleton]%elem_of_app Hid; [|done].
  all: apply GetWorkflowInstance_None in H1; destruct H1; rewrite <- Hid; by apply list_elem_of_fmap_2.
Qed.

Lemma taken_Get id db : taken id db -> exists i, GetWorkflowInstance id db = Some i.
Proof. intros [H _]. destruct (GetWorkflowInstance id db) eqn:E; [eauto|]. by apply GetWorkflowInstance_None in E. Qed.

Lemma taken_same id db db' : workflow_instances db' = workflow_instances db -> taken id db -> taken id db'.
Proof. unfold taken. by intros ->. Qed.

Lemma settle_keeps_taken now job db id : taken id db -> taken id (settleRemoteQueueJob now job db).
Proof.
  intros Ht. destruct (recorded job db) eqn:E; [by rewrite recorded_unchanged|].
  apply (settle_unrecorded now) in E as (db1 & -> & _ & _ & Hk & _). eapply taken_same; [apply settleJobAccounting_rows|by apply Hk].
Qed.

(** A local instance stays at least as new as the job. *)
Lemma settle_keeps_local now job job' db :
  existsb (fun i => bool_decide (wi_WorkflowID i = j_WorkflowID job) && (j_CreatedAt job <=? wi_CreatedAt i)%Z)
    (ListWorkflowInstancesByTask (j_TaskID job) db) = true ->
  existsb (fun i => bool_decide (wi_WorkflowID i = j_WorkflowID job) && (j_CreatedAt job <=? wi_CreatedAt i)%Z)
    (ListWorkflowInstancesByTask (j_TaskID job) (settleRemoteQueueJob now job' db)) = true.
Proof.
  rewrite !existsb_exists. unfold ListWorkflowInstancesByTask. setoid_rewrite filter_In. intros (i & [Hi Hof] & Hm).
  assert (forall db1, workflow_instances db1 = workflow_instances db ->
    exists x, (In x (workflow_instances db1) /\ negb (is_empty (wi_TaskID x)) && bool_decide (wi_TaskID x = j_TaskID job) = true)
      /\ bool_decide (wi_WorkflowID x = j_WorkflowID job) && (j_CreatedAt job <=? wi_CreatedAt x)%Z = true) as Hsame
    by (intros db1 ->; exists i; done).
  unfold settleRemoteQueueJob. destruct (is_empty (j_TaskID job')); [by apply Hsame|].
  destruct (if is_empty _ then None else _) as [r|].
  - rewrite (surjective_pairing (LeaveQueuedState _ _ _ db)).
    set (i' := if bool_decide (wi_ID i = reservedInstanceID job') && bool_decide (wi_State i = state.Queued)
               then with_instance_state (instanceStateForJob job') "" i else i).
    exists i'. assert (In i' (workflow_instances (LeaveQueuedState (reservedInstanceID job') (instanceStateForJob job') "" db).1)).
    { rewrite LeaveQueuedState_db. apply in_map_iff. by exists i. }
    assert (wi_TaskID i' = wi_TaskID i /\ wi_WorkflowID i' = wi_WorkflowID i /\ wi_CreatedAt i' = wi_CreatedAt i)
      as (-> & -> & ->) by (subst i'; by destruct (bool_decide _ && bool_decide _)).
    split; [split; [|done]|done]. destruct (LeaveQueuedState _ _ _ db).2; [by rewrite settleJobAccounting_rows|done].
  - destruct (GetWorkflowInstance _ db); [by apply Hsame|]. destruct (existsb _ _); [by apply Hsame|].
    destruct (CreateWorkflowInstance now _ db) as [db1|] eqn:Ec; [|by apply Hsame].
    unfold CreateWorkflowInstance in Ec. case_match; [done|]. injection Ec as <-. exists i. rewrite settleJobAccounting_rows.
    simpl. split; [|done]. split; [apply in_or_app; by left|done].
Qed.

(** A reservation that is gone from the queue and any other row of the job make
    it recorded. *)
Lemma taken_recorded job db :
  is_empty (reservedInstanceID job) = false /\ taken (reservedInstanceID job) db
  \/ (is_empty (reservedInstanceID job) = true \/ GetWorkflowInstance (reservedInstanceID job) db = None)
     /\ taken (queue_instance job) db ->
  recorded job db = true.
Proof.
  unfold recorded. intros [[He Ht]|[He Ht]]; apply orb_true_iff; right.
  - rewrite He. destruct (taken_Get _ _ Ht) as [i ->]. by rewrite taken_not_left.
  - destruct (taken_Get _ _ Ht) as [i Hi].
    assert ((if is_empty (reservedInstanceID job) then None else GetWorkflowInstance (reservedInstanceID job) db) = None) as ->
      by (destruct He as [-> | ->]; [done|by destruct (is_empty _)]).
    rewrite Hi. by rewrite bool_decide_eq_true_2 by eauto.
Qed.

Lemma settle_recorded now job db : recorded job (settleRemoteQueueJob now job db) = true.
Proof.
  destruct (recorded job db) eqn:E; [by rewrite recorded_unchanged|].
  apply (settle_unrecorded now) in E as (db1 & -> & _ & _ & _ & Hrec).
  pose proof (settleJobAccounting_rows job db1) as Hrows.
  assert (forall id, taken id db1 -> taken id (settleJobAccounting job db1)) as Hk by (intros id; by apply taken_same).
  assert (forall id, GetWorkflowInstance id (settleJobAccounting job db1) = GetWorkflowInstance id db1) as Hg
    by (intros id; unfold GetWorkflowInstance; by rewrite Hrows).
  apply taken_recorded. rewrite Hg. destruct (is_empty (reservedInstanceID job)) eqn:Er.
  - right. split; [by left|]. destruct Hrec as [[_ ?]|[_ ?]]; [done|by apply Hk].
  - destruct Hrec as [[? _]|[[?|[He|?]] Ht]]; [left|done|left|right]; split; auto.
    apply Hk. by rewrite He.
Qed.

(** A row that was not there is, at most, the settled one of the job. *)
Lemma settle_fresh now job db id :
  GetWorkflowInstance id db = None ->
  GetWorkflowInstance id (settleRemoteQueueJob now job db) = None \/ taken id (settleRemoteQueueJob now job db).
Proof.
  rewrite !GetWorkflowInstance_None. intros Hid. unfold settleRemoteQueueJob. destruct (is_empty (j_TaskID job)); [by left|].
  destruct (if is_empty _ then None else _) as [r|].
  - left. rewrite (surjective_pairing (LeaveQueuedState _ _ _ db)).
    enough (id ∉ wi_ID <$> workflow_instances (LeaveQueuedState (reservedInstanceID job) (instanceStateForJob job) "" db).1)
      by (destruct (LeaveQueuedState _ _ _ db).2; [by rewrite settleJobAccounting_rows|done]).
    by rewrite LeaveQueuedState_db, ids_of_update.
  - destruct (GetWorkflowInstance _ db); [by left|]. destruct (existsb _ _); [by left|].
    destruct (CreateWorkflowInstance now _ db) as [db1|] eqn:Ec; [|by left].
    unfold CreateWorkflowInstance in Ec. case_match; [done|]. injection Ec as <-. rewrite settleJobAccounting_rows. simpl.
    destruct (decide (id = queue_instance job)) as [->|Hne].
    + right. eapply taken_same; [apply settleJobAccounting_rows|]. split; simpl.
      * rewrite fmap_app. apply elem_of_app. right. by left.
      * intros i [Hi| ->%list_elem_of_singleton]%elem_of_app Hi'; [|apply job_state_settled].
        destruct Hid. rewrite <- Hi'. by apply list_elem_of_fmap_2.
    + left. rewrite fmap_app. intros [Hin|Hin%list_elem_of_singleton]%elem_of_app; done.
Qed.

Lemma settle_keeps_ids now job db id :
  id ∈ wi_ID <$> workflow_instances db -> id ∈ wi_ID <$> workflow_instances (settleRemoteQueueJob now job db).
Proof.
  intros Hid. unfold settleRemoteQueueJob. destruct (is_empty (j_TaskID job)); [done|].
  destruct (if is_empty _ then None else _) as [r|].
  - rewrite (surjective_pairing (LeaveQueuedState _ _ _ db)).
    enough (id ∈ wi_ID <$> workflow_instances (LeaveQueuedState (reservedInstanceID job) (instanceStateForJob job) "" db).1)
      by (destruct (LeaveQueuedState _ _ _ db).2; [by rewrite settleJobAccounting_rows|done]).
    by rewrite LeaveQueuedState_db, ids_of_update.
  - destruct (GetWorkflowInstance _ db); [done|]. destruct (existsb _ _); [done|].
    destruct (CreateWorkflowInstance now _ db) as [db1|] eqn:Ec; [|done].
    unfold CreateWorkflowInstance in Ec. case_match; [done|]. injection Ec as <-. rewrite settleJobAccounting_rows. simpl.
    rewrite fmap_app. apply elem_of_app. by left.
Qed.

Lemma not_left_taken id st reason db i :
  GetWorkflowInstance id db = Some i -> (LeaveQueuedState id st reason db).2 = false -> taken id db.
Proof.
  intros [Hi Hid]%GetWorkflowInstance_Some. rewrite LeaveQueuedState_spec. intros H. split; [rewrite <- Hid; by apply list_elem_of_fmap_2|].
  intros x Hx Hxid Hq. apply not_true_iff_false in H. apply H, existsb_exists. exists x. rewrite <- list_elem_of_In.
  by rewrite Hxid, Hq, !bool_decide_eq_true_2.
Qed.

(** Settling another job keeps a recorded job recorded. *)
Lemma settle_keeps_recorded now job job' db :
  recorded job db = true -> recorded job (settleRemoteQueueJob now job' db) = true.
Proof.
  intros H. destruct (is_empty (j_TaskID job)) eqn:Et; [unfold recorded; by rewrite Et|].
  destruct (is_empty (reservedInstanceID job)) eqn:Er; [|destruct (GetWorkflowInstance (reservedInstanceID job) db) as [r|] eqn:Eg].
  2: { unfold recorded in H. rewrite Et, Er, Eg in H. apply negb_true_iff in H.
       apply taken_recorded. left. split; [done|]. apply settle_keeps_taken. by eapply not_left_taken. }
  2: destruct (settle_fresh now job' db _ Eg) as [Eg'|Ht]; [|apply taken_recorded; by left].
  all: unfold recorded in *; rewrite Et, Er, ?Eg, ?Eg' in *; cbn [orb] in *.
  all: apply orb_true_iff in H as [H|H]; apply orb_true_iff; [left|right; by apply settle_keeps_local].
  all: apply bool_decide_eq_true in H as [x Hx]; apply bool_decide_eq_true, not_eq_None_Some;
    rewrite GetWorkflowInstance_None; intros Hn; apply Hn, settle_keeps_ids;
    apply GetWorkflowInstance_Some in Hx as [Hx <-]; by apply list_elem_of_fmap_2.
Qed.

Lemma settle_jobs_recorded now jobs db :
  let db' := foldl (fun db job => settleRemoteQueueJob now job db) db jobs in
  (forall job, recorded job db = true -> recorded job db' = true) /\ (forall job, job ∈ jobs -> recorded job db' = true).
Proof.
  revert db. induction jobs as [|j jobs IH]; intros db; [split; [done|by intros job ?%elem_of_nil]|]. simpl.
  destruct (IH (settleRemoteQueueJob now j db)) as [IH1 IH2]. split.
  - intros job H. by apply IH1, settle_keeps_recorded.
  - intros job [-> | H]%elem_of_cons; [apply IH1, settle_recorded|by apply IH2].
Qed.

Lemma settle_jobs_fixed now jobs db :
  (forall job, job ∈ jobs -> recorded job db = true) -> foldl (fun db job => settleRemoteQueueJob now job db) db jobs = db.
Proof.
  induction jobs as [|j jobs IH]; intros H; [done|]. simpl.
  rewrite recorded_unchanged by (apply H; left). apply IH. intros job Hj. apply H. by right.
Qed.

(** Settling the jobs that remote workers ran counts each of them once. A
    job whose run is not recorded yet gets exactly one row - its reservation, if
    it has one, or a row of its own - in the state that says how it ended, and
    gives exactly one slot of its task back; a job that is recorded, because it
    was settled before, because its reservation was taken by somebody else or
    because the local engine ran it, changes nothing. Therefore reconciling all
    finished jobs a second time, at any later time, changes nothing. *)
Theorem settleRemoteQueueJob_once :
  (forall now job db t, internal_tasks db !! j_TaskID job = Some t ->
     let db' := settleRemoteQueueJob now job db in
     if recorded job db then db' = db
     else (exists i, i ∈ workflow_instances db' /\ records job i)
          /\ outstanding (j_TaskID job) db' = Z.max (tk_outstanding t - 1) 0)
  /\ (forall `{!Sorter newest_first} now now' q db,
        reconcileTerminalQueueJobs now' q (reconcileTerminalQueueJobs now q db) = reconcileTerminalQueueJobs now q db).
Proof.
  split.
  - intros now job db t Ht db'. destruct (recorded job db) eqn:E; [by apply recorded_unchanged|].
    apply (settle_unrecorded now) in E as (db1 & He & Hsame & (i & Hi & Hr) & _). subst db'. rewrite He. split.
    + exists i. by rewrite settleJobAccounting_rows.
    + apply settleJobAccounting_outstanding. by rewrite Hsame.
  - intros S now now' q db. unfold reconcileTerminalQueueJobs. cbn [foldl].
    set (l1 := ListJobs JobSucceeded 1000 q). set (l2 := ListJobs JobFailed 1000 q). set (l3 := ListJobs JobCanceled 1000 q).
    set (db1 := foldl _ db l1). set (db2 := foldl _ db1 l2). set (db3 := foldl _ db2 l3).
    destruct (settle_jobs_recorded now l1 db) as [_ H1]. destruct (settle_jobs_recorded now l2 db1) as [K2 H2].
    destruct (settle_jobs_recorded now l3 db2) as [K3 H3].
    rewrite (settle_jobs_fixed now' l1 db3), (settle_jobs_fixed now' l2 db3), (settle_jobs_fixed now' l3 db3); auto.
Qed.
End settlement.

(** ** Delivering a job *)

Section delivery.
Context {PC : PayloadCodec}.
Context (runCreatedInstance : WorkflowConfig -> InternalTask -> string -> Tables -> result EngineError bool * Tables).

(** A route of a task with something that makes running it again wrong. *)
Definition conflicting (resuming : gset string) (task wf : string) (db : Tables) : bool :=
  HasCompletedInstanceForRoute task wf db || bool_decide (autoResumeKey task wf ∈ resuming)
  || HasActiveInstanceForRoute task wf db.

(** C24: A queued job never starts a run it must not. For a job of a task with
    a readable payload: a redelivery whose workflow completed, is being
    auto-resumed or has a live instance on the task ends as finished without
    touching the tables, and so does any delivery of a [once] workflow that
    completed; a first delivery of a reserved run whose row somebody moved out of
    the queue starts nothing and is no failure; and one whose row is still queued
    runs exactly that instance, with its row moved to running. *)
Theorem ExecuteQueuedJob_safe (d : Dispatcher) (resuming : gset string) (now : Z) (newID : string) (job : Job)
    (p : dispatchJobPayload) (db : Tables) :
  payload_unmarshal (j_Payload job) = Ok p -> dp_Version p = dispatchPayloadVersion -> it_ID (dp_Task p) <> "" ->
  let task := it_ID (dp_Task p) in
  let wf := route_id (dp_Match p) in
  let inst := m_InstanceID (dp_Match p) in
  let run := ExecuteQueuedJob runCreatedInstance d resuming now newID None job db in
  ((1 < j_AttemptCount job)%Z /\ conflicting resuming task wf db = true
   \/ rt_Once (m_Route (dp_Match p)) = true /\ HasCompletedInstanceForRoute task wf db = true ->
   fr_Success run.1 = true /\ run.2 = db)
  /\ (j_AttemptCount job = 1%Z -> rt_Once (m_Route (dp_Match p)) = false -> inst <> "" ->
      (taken inst db -> fr_Success run.1 = true /\ run.2 = db)
      /\ ((LeaveQueuedState inst state.Running "" db).2 = true ->
          let started := runCreatedInstance (resolveWorkflow d (dp_Match p)) (dp_Task p) inst
                           (LeaveQueuedState inst state.Running "" db).1 in
          run.2 = started.2 /\ (fr_Success run.1 = true <-> started.1 = Ok true \/ exists id st, started.1 = Err (ErrReservationLost id st)))).
Proof.
  intros Hp Hv Ht task wf inst run. apply is_empty_false in Ht. split.
  - intros H. enough (exists note, admitQueuedJob resuming job db = inl (job_done note)) as [note Ha]
      by (unfold run, ExecuteQueuedJob; rewrite Ha; done).
    unfold admitQueuedJob. rewrite Hp, Hv, Ht. cbn [negb Z.eqb dispatchPayloadVersion Pos.eqb]. fold task wf.
    destruct H as [[Hr Hc]|[Ho Hc]].
    + apply Z.ltb_lt in Hr. rewrite Hr. cbn [orb andb]. unfold conflicting in Hc. destruct (HasCompletedInstanceForRoute _ _ _); [eauto|].
      unfold redeliveryConflict. destruct (bool_decide _); [eauto|]. cbn [orb] in Hc. rewrite Hc. eauto.
    + rewrite Ho, Hc, orb_true_r. cbn [andb]. eauto.
  - intros Ha Ho Hi. apply is_empty_false in Hi.
    assert (run = let '(success, db) := dispatchWorkflow runCreatedInstance d now newID (dp_Task p) (dp_Match p) db in
                  (if success then job_done "" else job_failed "workflow dispatch failed", db)) as Hrun.
    { unfold run, ExecuteQueuedJob, admitQueuedJob. rewrite Hp, Hv, Ht, Ho, Ha. cbn [negb Z.eqb dispatchPayloadVersion Pos.eqb].
      cbn [Z.ltb Z.compare Pos.compare Pos.compare_cont orb andb negb]. rewrite andb_false_r. by destruct p. }
    rewrite Hrun. unfold dispatchWorkflow. fold inst. rewrite Hi. unfold RunReservedInstance. split.
    + intros Htk. pose proof (taken_not_left inst state.Running "" db Htk) as Hl. pose proof (LeaveQueuedState_lost _ _ _ _ Hl) as Hdb.
      destruct (taken_Get _ _ Htk) as [x Hx]. destruct (LeaveQueuedState _ _ _ db) as [db' moved]. simpl in *. subst. by rewrite Hx.
    + intros Hl. cbv zeta. destruct (LeaveQueuedState _ _ _ db) as [db' moved]. simpl in *. subst moved.
      destruct (runCreatedInstance _ _ _ _) as [res db2]. clear.
      destruct res as [[]|[]]; simpl; naive_solver.
Qed.

End delivery.

(** *** Examples *)

Definition example_payload (wf inst : string) : dispatchJobPayload := {|
  dp_Version := 1; dp_Cell := example_cell; dp_Task := example_task; dp_Match := example_match wf inst |}.
Definition reading_codec : PayloadCodec := {|
  payload_marshal := fun _ => Some "{}";
  payload_unmarshal := fun _ => Ok (example_payload "ship" "r1") |}.
(** An engine whose runs succeed at once. *)
Definition quick_engine (wf : WorkflowConfig) (task : InternalTask) (id : string) (db : Tables)
    : result EngineError bool * Tables := (Ok true, UpdateWorkflowInstanceState id state.Done "" db).
Definition delivered_job (attempt : Z) : Job := {|
  j_ID := "j1"; j_IdempotencyKey := "k"; j_ProjectID := ""; j_SourceID := ""; j_TaskID := "t"; j_WorkflowID := "ship";
  j_AgentID := ""; j_RunnerID := ""; j_Pool := ""; j_RequiredLabels := []; j_RequiredCapabilities := [];
  j_AffinityKey := ""; j_AffinityWorkerID := ""; j_PayloadVersion := 1; j_Payload := "{}"; j_Priority := 0;
  j_State := sql_leased; j_AttemptCount := attempt; j_MaxAttempts := 3; j_CancelRequested := false; j_AvailableAt := 0;
  j_LeaseExpiresAt := None; j_CreatedAt := 5; j_UpdatedAt := 5 |}.
Definition running_row : InstanceRow := with_instance_state state.Running "" (queued_row "r9" "ship").

(** A redelivery next to a live run of the workflow, and a first delivery of
    the reservation. *)
Lemma ExecuteQueuedJob_safe_witness :
  let live := set_instances [running_row] (w_tables example_world) in
  (ExecuteQueuedJob (PC := reading_codec) quick_engine example_dispatcher ∅ 9 "new" None (delivered_job 2) live).2 = live
  /\ GetWorkflowInstance "r1" (ExecuteQueuedJob (PC := reading_codec) quick_engine example_dispatcher ∅ 9 "new" None
       (delivered_job 1) (w_tables example_world)).2
     = Some (with_instance_state state.Done "" (queued_row "r1" "ship")).
Proof.
  intros live. split.
  - destruct (ExecuteQueuedJob_safe (PC := reading_codec) quick_engine example_dispatcher ∅ 9 "new" (delivered_job 2)
      (example_payload "ship" "r1") live eq_refl eq_refl ltac:(done)) as [H _].
    apply H. left. split; [done|reflexivity].
  - destruct (ExecuteQueuedJob_safe (PC := reading_codec) quick_engine example_dispatcher ∅ 9 "new" (delivered_job 1)
      (example_payload "ship" "r1") (w_tables example_world) eq_refl eq_refl ltac:(done)) as [_ H].
    destruct (H eq_refl eq_refl ltac:(done)) as [_ Hrun]. destruct (Hrun eq_refl) as [-> _]. reflexivity.
Defined.

(** ** Defects the model shows *)

Definition single_step_workflow (id : string) : WorkflowConfig :=
  {| wc_ID := id; wc_Resume := ""; wc_ResultComment := ""; wc_Trigger := None; wc_Inputs := ∅; wc_Outputs := ∅; wc_Steps := [] |}.

(** A manual run reserves its row before the dispatch reopens the settled task,
    so the row carries the generation of the previous round. When the run fails
    and another workflow of the round finishes last, the failure is not found and
    the task ends as done. *)
Lemma reserved_failure_is_forgotten :
  let db0 := {| internal_tasks := {["t" := done_task]}; workflow_instances := [] |} in
  let steps :=
    db ← ReserveInstance 1 "r" (single_step_workflow "ship") example_task db0;          (* the manual run *)
    let db := (IncrementOutstanding "t" 1 db).2 in
    let db := (LeaveQueuedState "r" state.Running "" db).1 in
    let db := (IncrementOutstanding "t" 1 db).2 in                                       (* a poll dispatches lint *)
    db ← createInstance 2 "l" (single_step_workflow "lint") example_task state.Running db;
    let db := UpdateWorkflowInstanceState "r" state.Failed "" db in                      (* ship fails *)
    let db := (completeTask 0 "t" "ship" true db).1 in
    let db := UpdateWorkflowInstanceState "l" state.Done "" db in                        (* lint passes *)
    Some (completeTask 0 "t" "lint" false db) in
  exists db, steps = Some (db, Some false)
    /\ internal_tasks db !! "t" = Some {| tk_state := state.Done; tk_reason := ""; tk_outstanding := 0; tk_generation := 5 |}
    /\ (wi_State <$> GetWorkflowInstance "r" db) = Some state.Failed.
Proof. eexists. split; [vm_compute; reflexivity|]. split; vm_compute; reflexivity. Qed.

(** A hand-off that finds its key taken gives its slot back without looking at
    the count: when the only workflow under way finishes between the two
    statements, nobody completes the task. *)
Lemma duplicate_hand_off_strands_task :
  let running := {| tk_state := state.Running; tk_reason := ""; tk_outstanding := 1; tk_generation := 4 |} in
  let db0 := {| internal_tasks := {["t" := running]}; workflow_instances := [with_instance_state state.Done "" (queued_row "l" "lint")] |} in
  let db1 := (IncrementOutstanding "t" 1 db0).2 in                (* enqueueFanOut counts the duplicate in *)
  let '(db2, completed) := completeTask 0 "t" "lint" false db1 in  (* the workflow under way settles *)
  completed = None
  /\ internal_tasks (rollbackQueuedOutstanding "t" db2) !! "t"
     = Some {| tk_state := state.Running; tk_reason := ""; tk_outstanding := 0; tk_generation := 4 |}.
Proof. split; vm_compute; reflexivity. Qed.

(** Canceling a manual run that still waits leaves the task it reopened running
    with nothing under way. *)
Lemma canceled_reservation_strands_task :
  let w0 := {| w_tables := {| internal_tasks := {["t" := done_task]}; workflow_instances := [] |};
               w_queue := empty_db; w_events := [] |} in
  exists db w,
    ReserveInstance 1 "r" (single_step_workflow "ship") example_task (w_tables w0) = Some db
    /\ StopInstance 2 false "r" {| w_tables := (IncrementOutstanding "t" 1 db).2; w_queue := empty_db; w_events := [] |} = Some w
    /\ internal_tasks (w_tables w) !! "t" = Some {| tk_state := state.Running; tk_reason := ""; tk_outstanding := 0; tk_generation := 5 |}
    /\ (wi_State <$> workflow_instances (w_tables w)) = [state.Canceled].
Proof. do 2 eexists. split; [vm_compute; reflexivity|]. split; [vm_compute; reflexivity|]. split; vm_compute; reflexivity. Qed.

(** The children of a lowered parallel step are in its [steps], which
    [workflowAgentIDs] does not visit: what their agents require of a worker is
    not required of the job. *)
Definition gpu_agent : AgentConfig := {|
  ac_ID := "trainer"; ac_WorkerPool := "gpu"; ac_RequiresLabels := ["cuda"]; ac_RequiresCapabilities := [];
  ac_WorkspaceAffinity := false |}.
Definition agent_step (id agent : string) : StepConfig :=
  ir_step id "" [] [] "" "" agent "work" None "" None "" None None false [] "" None None "" [] None "" "" 0 0 false None [] "".
Definition authored_parallel : WorkflowConfig := {|
  wc_ID := "train"; wc_Resume := ""; wc_ResultComment := ""; wc_Trigger := None;
  wc_Inputs := ∅; wc_Outputs := ∅; wc_Steps := [with_ParallelSteps [agent_step "a" "trainer"; agent_step "b" "dev"] (zero_step "both")] |}.
Definition requirements_of (wf : WorkflowConfig) : Requirements :=
  requirementsForMatch {| d_Workflows := [wf]; d_Agents := [gpu_agent]; d_agentRunner := ∅; d_queueProjectID := "p"; d_MaxAttempts := 3 |}
    "t" (example_match "train" "").

Lemma lowered_parallel_loses_requirements :
  (rq_pool (requirements_of authored_parallel), rq_labels (requirements_of authored_parallel)) = ("gpu", ["cuda"])
  /\ exists wf, LowerV2Workflow authored_parallel = Ok wf
     /\ (rq_pool (requirements_of wf), rq_labels (requirements_of wf)) = ("default", []).
Proof. split; [vm_compute; reflexivity|]. eexists. split; [vm_compute; reflexivity|]. vm_compute. reflexivity. Qed.
