(* ===== verification/TasksProps.v ===== *)
(** * What the task and instance rows guarantee

    The consecutive-failure count as the trailing run of failures, its two
    clients agreeing on it, and the repair of the counters after a restart; with
    the defects the model shows. *)

From stdpp Require Import base gmap strings list pretty.
From Stdlib Require Import ZArith.
From S2P Require Import Prelude State Model Config Router Queue Tasks Dispatch DispatchProps DeliveryProps.

(** ** Consecutive failures *)

(** How many elements at the front satisfy [p]. *)
Fixpoint leading {A} (p : A -> bool) (l : list A) : nat :=
  match l with
  | [] => 0
  | x :: l => if p x then S (leading p l) else 0
  end.

(** The failures of a route since its last instance that did not fail, newest
    first. *)
Definition trailing_failures (taskID workflowID : string) (rows : list InstanceRow) : nat :=
  leading is_failed (rev (List.filter (of_route taskID workflowID) rows)).

Section failures.
Context (task wf : string).

Lemma last_unfailed_snoc rows i :
  last_unfailed task wf (rows ++ [i])
  = if of_route task wf i && negb (is_failed i) then S (length rows) else last_unfailed task wf rows.
Proof.
  unfold last_unfailed. rewrite imap_app, foldl_app. simpl. by rewrite Nat.add_0_r.
Qed.

Lemma last_unfailed_le rows : last_unfailed task wf rows <= length rows.
Proof.
  induction rows as [|i rows IH] using rev_ind; [done|]. rewrite last_unfailed_snoc, length_app. simpl.
  destruct (_ && _); lia.
Qed.

(** The positions of a table are below its length. *)
Lemma filter_positions_none (rows : list InstanceRow) (p : nat * InstanceRow -> bool) :
  (forall n i, n < length rows -> p (n, i) = false) -> List.filter p (imap pair rows) = [].
Proof.
  intros H. apply length_zero_iff_nil, none_filter. apply forallb_forall. intros [n i] Hin%list_elem_of_In.
  apply elem_of_lookup_imap in Hin as (k & x & [= -> ->] & Hk). by rewrite H by (by eapply lookup_lt_Some).
Qed.

Lemma CountConsecutive_trailing db :
  CountConsecutiveFailedInstances task wf db = trailing_failures task wf (workflow_instances db).
Proof.
  unfold CountConsecutiveFailedInstances, trailing_failures. set (rows := workflow_instances db). clearbody rows. clear db.
  induction rows as [|i rows IH] using rev_ind; [done|].
  rewrite last_unfailed_snoc, imap_app, !List.filter_app, rev_app_distr, length_app.
  cbn [imap List.filter]. rewrite Nat.add_0_r. pose proof (last_unfailed_le rows) as Hle.
  destruct (of_route task wf i) eqn:Ho; cbn [andb]; [|by rewrite Nat.add_0_r, app_nil_l].
  destruct (is_failed i) eqn:Ef; cbn [negb andb].
  - rewrite IH. rewrite (proj2 (Nat.ltb_lt _ _)) by lia. cbn [rev app leading]. rewrite Ef. simpl. lia.
  - cbn [rev app leading]. rewrite Ef, filter_positions_none; [done|].
    intros n x Hn. rewrite (proj2 (Nat.ltb_ge _ _)) by lia. apply andb_false_r.
Qed.
End failures.

(** The failure cap counts what it means to: for a task and a workflow,
    [CountConsecutiveFailedInstances] is the number of failures since the
    workflow's last instance that did not fail, in the order of insertion. And
    its two users read it the same way: with a cap set, a failed round is left
    waiting for its retry exactly when the next poll's guard would still let the
    workflow through, so a task is never promised a retry that is then refused,
    nor settled as failed while another attempt is due. *)
Theorem failure_cap_agrees (limit : Z) (task : string) (m : Match) (db : Tables) :
  let wf := route_id m in
  let n := trailing_failures task wf (workflow_instances db) in
  CountConsecutiveFailedInstances task wf db = n
  /\ ((dropCappedMatches (store_guards ∅ limit db) task [m]).1 = [m] <-> (limit <= 0)%Z \/ (Z.of_nat n < limit)%Z)
  /\ (task <> "" -> wf <> "" -> (0 < limit)%Z ->
      (final_task_state limit task wf true db = (state.Blocked, state.ReasonRetryBackoff)
       <-> (dropCappedMatches (store_guards ∅ limit db) task [m]).1 = [m])
      /\ (final_task_state limit task wf true db = (state.Failed, "")
          <-> (dropCappedMatches (store_guards ∅ limit db) task [m]).1 = [])).
Proof.
  intros wf n. assert (CountConsecutiveFailedInstances task wf db = n) as Hn by apply CountConsecutive_trailing.
  assert ((dropCappedMatches (store_guards ∅ limit db) task [m]).1
    = if (limit <=? 0)%Z || (Z.of_nat n <? limit)%Z then [m] else []) as Hd.
  { unfold dropCappedMatches, capped_verdict. simpl. fold wf. rewrite Hn, Z.leb_antisym.
    destruct (0 <? limit)%Z; simpl; [|done]. rewrite Z.leb_antisym. by destruct (Z.of_nat n <? limit)%Z. }
  rewrite Hd. split; [done|]. split.
  - rewrite <- Z.leb_le, <- Z.ltb_lt, <- orb_true_iff. by destruct (_ || _).
  - intros Ht%is_empty_false Hw%is_empty_false Hl. unfold final_task_state, retryPending.
    rewrite Ht, Hw, Hn, (proj2 (Z.leb_gt limit 0)) by done. simpl. by destruct (Z.of_nat n <? limit)%Z.
Qed.

(** ** After a restart *)

(** What a restart makes of one task's row. *)
Definition repaired (rows : list InstanceRow) (id : string) (t : TaskRow) : TaskRow :=
  settle_orphan_row rows id (recount_row rows id t).

Lemma ReconcileOrphanTaskCounters_rows db :
  ReconcileOrphanTaskCounters db
  = set_tasks (map_imap (fun id t => Some (repaired (workflow_instances db) id t)) (internal_tasks db)) db.
Proof.
  unfold ReconcileOrphanTaskCounters, set_tasks. simpl. f_equal. apply map_eq. intros id.
  rewrite !map_lookup_imap. by destruct (internal_tasks db !! id).
Qed.

Definition settled_state (t : TaskRow) : bool := str_in (tk_state t) ["done"; "failed"; "canceled"].

Lemma repaired_settled rows id t : settled_state t = true -> repaired rows id t = t.
Proof.
  unfold repaired, recount_row, settle_orphan_row. intros H. unfold settled_state in H. rewrite H.
  rewrite (bool_decide_eq_false_2 (tk_state t = "running")); [done|]. intros E. rewrite E in H. done.
Qed.

(** The round of the task ended while nobody was there to settle it. *)
Definition ended_unsettled (rows : list InstanceRow) (id : string) (t : TaskRow) : bool :=
  bool_decide (tk_state t = "running") && (live_count id rows =? 0)
  && (settled_in_round state.Done rows id t || settled_in_round state.Failed rows id t).

Lemma repaired_open rows id t :
  settled_state t = false ->
  repaired rows id t = {|
    tk_state := if ended_unsettled rows id t
                then (if settled_in_round state.Failed rows id t then "failed" else "done") else tk_state t;
    tk_reason := tk_reason t; tk_outstanding := Z.of_nat (live_count id rows); tk_generation := tk_generation t |}.
Proof.
  unfold repaired, recount_row, settle_orphan_row, settled_state, ended_unsettled. intros ->.
  unfold settled_in_round. cbn [tk_state tk_reason tk_outstanding tk_generation].
  replace (Z.of_nat (live_count id rows) =? 0)%Z with (live_count id rows =? 0)
    by (destruct (Nat.eqb_spec (live_count id rows) 0), (Z.eqb_spec (Z.of_nat (live_count id rows)) 0); lia).
  by destruct (_ && _).
Qed.

(** The restart repair makes the counters true and is stable. For every
    task: a settled one is left as it is; any other one has, afterwards, exactly
    as many outstanding workflows as it has live instances, keeps its reason and
    generation, and changes its state only when it was running, has no live
    instance and its current round has an instance that finished - then to
    failed if one of them failed and to done otherwise. No task appears or
    disappears, no instance changes, and repairing twice is repairing once. *)
Theorem ReconcileOrphanTaskCounters_repairs (db : Tables) :
  let db' := ReconcileOrphanTaskCounters db in
  let rows := workflow_instances db in
  workflow_instances db' = rows
  /\ (forall id, internal_tasks db' !! id =
        (fun t => if settled_state t then t else {|
           tk_state := if ended_unsettled rows id t
                       then (if settled_in_round state.Failed rows id t then "failed" else "done") else tk_state t;
           tk_reason := tk_reason t; tk_outstanding := Z.of_nat (live_count id rows); tk_generation := tk_generation t |})
        <$> internal_tasks db !! id)
  /\ ReconcileOrphanTaskCounters db' = db'.
Proof.
  intros db' rows.
  assert (db' = set_tasks (map_imap (fun id t => Some (repaired rows id t)) (internal_tasks db)) db) as Hdb
    by apply ReconcileOrphanTaskCounters_rows.
  split; [by rewrite Hdb|]. split.
  - intros id. rewrite Hdb. simpl. rewrite map_lookup_imap. destruct (internal_tasks db !! id) as [t|]; [|done]. simpl. f_equal.
    destruct (settled_state t) eqn:E; [by apply repaired_settled|by apply repaired_open].
  - rewrite ReconcileOrphanTaskCounters_rows, Hdb. unfold set_tasks. simpl. f_equal. apply map_eq. intros id.
    rewrite !map_lookup_imap. destruct (internal_tasks db !! id) as [t|]; [|done]. simpl. f_equal. fold rows.
    destruct (settled_state t) eqn:E; [by rewrite !(repaired_settled rows id t)|].
    rewrite (repaired_open rows id t E). destruct (ended_unsettled rows id t) eqn:Ee.
    + apply repaired_settled. unfold settled_state. simpl. by destruct (settled_in_round _ _ _ _).
    + rewrite repaired_open by done. unfold ended_unsettled, settled_in_round in *. simpl. by rewrite Ee.
Qed.

(** ** Defects the model shows *)

(** The repair settles as failed a round that [completeTask] would have left
    waiting for its retry. *)
Lemma repair_ignores_retry :
  let running := {| tk_state := state.Running; tk_reason := ""; tk_outstanding := 1; tk_generation := 4 |} in
  let db := {| internal_tasks := {["t" := running]};
               workflow_instances := [with_instance_state state.Failed "" (queued_row "r" "ship")] |} in
  (tk_state <$> internal_tasks (completeTask 3 "t" "ship" true db).1 !! "t",
   tk_reason <$> internal_tasks (completeTask 3 "t" "ship" true db).1 !! "t") = (Some state.Blocked, Some state.ReasonRetryBackoff)
  /\ (tk_state <$> internal_tasks (ReconcileOrphanTaskCounters db) !! "t") = Some state.Failed.
Proof. split; vm_compute; reflexivity. Qed.

(** An instance a restart interrupted is stored as blocked, so the query for the
    latest resumable instance, which looks for the former state 'interrupted',
    does not see it, while the query by reason does. *)
Lemma interrupted_instance_not_resumable :
  let db := {| internal_tasks := ∅;
               workflow_instances := [with_instance_state state.Running "" (queued_row "r" "ship")] |} in
  let rows := workflow_instances (ReconcileOrphanWorkflowInstances db).1 in
  List.filter (latestResumable_matches "ship") rows = []
  /\ (wi_ID <$> List.filter (blockedBy_matches [state.ReasonInterrupted]) rows) = ["r"].
Proof. split; vm_compute; reflexivity. Qed.

(** A job that waits in the durable queue has no instance, so a restart counts
    its task down to zero and settles it on the workflow that did finish; the
    next poll reopens the task in a new generation, whose key is free, and
    queues the waiting workflow a second time. *)
Lemma restart_duplicates_queued_job :
  let hand_off ms w := (enqueueFanOut (RT := literal_runtime) (PC := json_codec) example_dispatcher example_cell example_task
                          "" true ms w).1 in
  let w0 := {| w_tables := {| internal_tasks := {["t" := done_task]}; workflow_instances := [] |};
               w_queue := empty_db; w_events := [] |} in
  let w1 := hand_off [(example_match "lint" "", ("j1", 7%Z)); (example_match "ship" "", ("j2", 7%Z))] w0 in
  exists db2,
    createInstance 8 "l" (single_step_workflow "lint") example_task state.Running (w_tables w1) = Some db2
    /\ let db3 := (completeTask 3 "t" "lint" false (UpdateWorkflowInstanceState "l" state.Done "" db2)).1 in
       (tk_outstanding <$> internal_tasks db3 !! "t") = Some 1%Z
       /\ let db4 := (PropagateInterruptedToTasks (ReconcileOrphanTaskCounters (ReconcileOrphanWorkflowInstances db3).1)) in
          (tk_state <$> internal_tasks db4 !! "t") = Some state.Done
          /\ let ms := (poll_guards (store_guards ∅ 3 db4) "t" true [example_match "ship" ""]).1 in
             ms = [example_match "ship" ""]
             /\ let w5 := hand_off [(example_match "ship" "", ("j3", 9%Z))]
                            {| w_tables := db4; w_queue := w_queue w1; w_events := [] |} in
                size (filter (fun r => sn_workflow_id (jr_snap r.2) = Some "ship" /\ jr_state r.2 = JobQueued)
                        (dispatch_jobs (w_queue w5))) = 2.
Proof.
  cbv zeta. eexists. split; [vm_compute; reflexivity|]. split; [vm_compute; reflexivity|].
  split; [vm_compute; reflexivity|]. split; vm_compute; reflexivity.
Qed.
