(* ===== verification/AgentMemory.v ===== *)
(** * The agent memory store (src/internal/memory/store.go)

    The files of the store as maps from names to texts, the two text formats
    (entries with front matter, task notes with the hash of the last one), every
    operation of [Store], and what the engine and the dispatcher do with them:
    memorize requests ([memorizeStep] and [renderRecall] of
    src/internal/workflow/engine.go) and the retention sweep
    ([pruneTaskMemoryOnce] of src/internal/daemon/dispatcher.go). File
    operations are taken to succeed: a failure leaves the files alone and is
    reported. *)

From stdpp Require Import base gmap strings list pretty.
From Stdlib Require Import ZArith Ascii.
From S2P Require Import Prelude Text.

(** ** What the store uses of the standard library *)

(** [time.Time.UTC().Format(time.RFC3339)] and [time.Parse(time.RFC3339, s)], in
    nanoseconds since 1970, and the first eight bytes of a SHA-256 in hex. *)
Class MemoryRuntime := {
  format_time : Z -> string;
  parse_time : string -> option Z;
  digest8 : string -> string;
}.

(** [time.Time{}]: the first instant of year 1. *)
Definition zero_time : Z := (-62135596800 * 10 ^ 9)%Z.

(** The years RFC 3339 can write. *)
Definition in_years (t : Z) : Prop := (zero_time <= t < 253402300800 * 10 ^ 9)%Z.

(** RFC 3339 keeps whole seconds. *)
Definition whole_seconds (t : Z) : Z := (t - t `mod` 10 ^ 9)%Z.

Definition hex_digit (c : ascii) : bool :=
  let n := N_of_ascii c in (((48 <=? n) && (n <=? 57)) || ((97 <=? n) && (n <=? 102)))%N.

Fixpoint all_bytes (p : ascii -> bool) (s : string) : bool :=
  match s with
  | EmptyString => true
  | String c s' => p c && all_bytes p s'
  end.

(** A text on one line, without white space around it. *)
Definition plain (s : string) : Prop := str_has nl s = false /\ tight s.

(** What the packages document. *)
Class MemoryRuntimeLaws (RT : MemoryRuntime) : Prop := {
  format_plain : forall t, in_years t -> plain (format_time t) /\ format_time t <> "";
  parse_format : forall t, in_years t -> parse_time (format_time t) = Some (whole_seconds t);
  digest_hex : forall s, all_bytes hex_digit (digest8 s) = true /\ digest8 s <> "";
}.

(** ** Data *)

Record Entry := {
  en_Name : string;
  en_Description : string;
  en_Content : string;
  en_Agent : string;
  en_Task : string;
  en_Workflow : string;
  en_Created : Z;
  en_Updated : Z;
}.

Record EntryMeta := {
  em_Name : string;
  em_Description : string;
  em_Agent : string;
  em_Updated : Z;
}.

Record Note := {
  nt_Content : string;
  nt_Agent : string;
  nt_Workflow : string;
  nt_Step : string;
  nt_At : Z;
}.

(** The directory: the files of global/ and tasks/ by name without ".md", the
    latter with their modification time, and the index. *)
Record Store := {
  fs_global : gmap string string;
  fs_tasks : gmap string (string * Z);
  fs_index : string;
  fs_max : Z;                              (* MaxEntryBytes *)
}.

Definition set_global (g : gmap string string) (s : Store) : Store := {|
  fs_global := g; fs_tasks := fs_tasks s; fs_index := fs_index s; fs_max := fs_max s |}.
Definition set_notes (t : gmap string (string * Z)) (s : Store) : Store := {|
  fs_global := fs_global s; fs_tasks := t; fs_index := fs_index s; fs_max := fs_max s |}.
Definition set_index (i : string) (s : Store) : Store := {|
  fs_global := fs_global s; fs_tasks := fs_tasks s; fs_index := i; fs_max := fs_max s |}.

Inductive memoryError :=
  | EInvalidName
  | EDescriptionRequired
  | EContentRequired
  | ETooLarge
  | EInvalidTaskID
  | ENotFound
  | ENoFrontmatter
  | EUnterminated
  | EUnknownScope
  | ENoTaskID.
#[global] Instance memoryError_eq_dec : EqDecision memoryError.
Proof. solve_decision. Defined.

Definition DefaultMaxEntryBytes : Z := 16384.

(** [maxEntryBytes]. *)
Definition maxEntryBytes (s : Store) : Z :=
  (if 0 <? fs_max s then fs_max s else DefaultMaxEntryBytes)%Z.

Definition is_lower (c : ascii) : bool := let n := N_of_ascii c in ((97 <=? n) && (n <=? 122))%N.
Definition is_upper (c : ascii) : bool := let n := N_of_ascii c in ((65 <=? n) && (n <=? 90))%N.
Definition is_digit (c : ascii) : bool := let n := N_of_ascii c in ((48 <=? n) && (n <=? 57))%N.

(** [slugRe]: a lower-case letter or digit, then 1 to 63 more or dashes. *)
Definition ValidSlug (name : string) : bool :=
  match name with
  | EmptyString => false
  | String c rest =>
      (is_lower c || is_digit c)
      && all_bytes (fun c => is_lower c || is_digit c || bool_decide (c = "-"%char)) rest
      && ((1 <=? String.length rest) && (String.length rest <=? 63))%nat
  end.

(** [taskIDRe]. *)
Definition ValidTaskID (id : string) : bool :=
  all_bytes (fun c => is_lower c || is_upper c || is_digit c
                      || bool_decide (c = "_"%char) || bool_decide (c = "-"%char)) id
  && ((1 <=? String.length id) && (String.length id <=? 64))%nat.

Definition newline : string := String nl "".

(** ** Entries *)

Section store.
Context {RT : MemoryRuntime}.

(** [writeFM]. *)
Definition writeFM (key value : string) : string :=
  if is_empty value then "" else key +:+ ": " +:+ value +:+ newline.

(** [renderEntry]. *)
Definition renderEntry (e : Entry) : string :=
  "---" +:+ newline
  +:+ writeFM "name" (en_Name e)
  +:+ writeFM "description" (oneLine (en_Description e))
  +:+ writeFM "created" (format_time (en_Created e))
  +:+ writeFM "updated" (format_time (en_Updated e))
  +:+ writeFM "agent" (en_Agent e)
  +:+ writeFM "task" (en_Task e)
  +:+ writeFM "workflow" (en_Workflow e)
  +:+ "---" +:+ newline +:+ newline
  +:+ trim_right is_nl (en_Content e) +:+ newline.

Definition empty_entry : Entry := {|
  en_Name := ""; en_Description := ""; en_Content := ""; en_Agent := ""; en_Task := ""; en_Workflow := "";
  en_Created := zero_time; en_Updated := zero_time |}.

(** The [switch] of [parseEntry] on the key of a line. *)
Definition set_key (key value : string) (e : Entry) : Entry :=
  let time := default zero_time (parse_time value) in
  if bool_decide (key = "name") then
    {| en_Name := value; en_Description := en_Description e; en_Content := en_Content e; en_Agent := en_Agent e;
       en_Task := en_Task e; en_Workflow := en_Workflow e; en_Created := en_Created e; en_Updated := en_Updated e |}
  else if bool_decide (key = "description") then
    {| en_Name := en_Name e; en_Description := value; en_Content := en_Content e; en_Agent := en_Agent e;
       en_Task := en_Task e; en_Workflow := en_Workflow e; en_Created := en_Created e; en_Updated := en_Updated e |}
  else if bool_decide (key = "agent") then
    {| en_Name := en_Name e; en_Description := en_Description e; en_Content := en_Content e; en_Agent := value;
       en_Task := en_Task e; en_Workflow := en_Workflow e; en_Created := en_Created e; en_Updated := en_Updated e |}
  else if bool_decide (key = "task") then
    {| en_Name := en_Name e; en_Description := en_Description e; en_Content := en_Content e; en_Agent := en_Agent e;
       en_Task := value; en_Workflow := en_Workflow e; en_Created := en_Created e; en_Updated := en_Updated e |}
  else if bool_decide (key = "workflow") then
    {| en_Name := en_Name e; en_Description := en_Description e; en_Content := en_Content e; en_Agent := en_Agent e;
       en_Task := en_Task e; en_Workflow := value; en_Created := en_Created e; en_Updated := en_Updated e |}
  else if bool_decide (key = "created") then
    {| en_Name := en_Name e; en_Description := en_Description e; en_Content := en_Content e; en_Agent := en_Agent e;
       en_Task := en_Task e; en_Workflow := en_Workflow e; en_Created := time; en_Updated := en_Updated e |}
  else if bool_decide (key = "updated") then
    {| en_Name := en_Name e; en_Description := en_Description e; en_Content := en_Content e; en_Agent := en_Agent e;
       en_Task := en_Task e; en_Workflow := en_Workflow e; en_Created := en_Created e; en_Updated := time |}
  else e.

(** One line of the front matter. *)
Definition parse_line (e : Entry) (line : string) : Entry :=
  match str_cut ":" line with
  | Some (key, value) => set_key (trim_space key) (trim_space value) e
  | None => e
  end.

Definition set_content (content : string) (e : Entry) : Entry := {|
  en_Name := en_Name e; en_Description := en_Description e; en_Content := content; en_Agent := en_Agent e;
  en_Task := en_Task e; en_Workflow := en_Workflow e; en_Created := en_Created e; en_Updated := en_Updated e |}.

(** [parseEntry]. *)
Definition parseEntry (raw : string) : result memoryError Entry :=
  match strip_prefix ("---" +:+ newline) raw with
  | None => Err ENoFrontmatter
  | Some rest =>
      match str_cut (newline +:+ "---") rest with
      | None => Err EUnterminated
      | Some (fm, body) =>
          Ok (set_content (trim_space (trim_prefix newline body))
                (foldl parse_line empty_entry (split_on nl fm)))
      end
  end.

(** [readEntryFile]. *)
Definition readEntryFile (name : string) (s : Store) : result memoryError Entry :=
  match fs_global s !! name with
  | Some raw => parseEntry raw
  | None => Err ENotFound
  end.

(** ** The index *)

Definition named (name : string) (e : Entry) : Entry :=
  if is_empty (en_Name e) then
    {| en_Name := name; en_Description := en_Description e; en_Content := en_Content e; en_Agent := en_Agent e;
       en_Task := en_Task e; en_Workflow := en_Workflow e; en_Created := en_Created e; en_Updated := en_Updated e |}
  else e.

(** [sort.Slice] by name. *)
Definition by_name (a b : Entry) : Prop := String.le (en_Name a) (en_Name b).

Context `{!Sorter by_name}.

(** [readAllEntries]: a file that does not parse is skipped. *)
Definition readAllEntries (s : Store) : list Entry :=
  sort_by by_name
    (omap (fun name => match readEntryFile name s with Ok e => Some (named name e) | Err _ => None end)
       (sort_strings (fst <$> map_to_list (fs_global s)))).

Definition index_line (name description : string) : string :=
  "- " +:+ name +:+ " — " +:+ description +:+ newline.

(** [rebuildIndexLocked] and [RebuildIndex]. *)
Definition render_index (entries : list Entry) : string :=
  "# Apiary Memory Index" +:+ newline +:+ newline
  +:+ (if bool_decide (entries = []) then "(no entries yet)" +:+ newline else "")
  +:+ foldr (fun e out => index_line (en_Name e) (en_Description e) +:+ out) "" entries.

Definition RebuildIndex (s : Store) : Store := set_index (render_index (readAllEntries s)) s.

(** [UpsertGlobal]; [now] is the reading of the clock. *)
Definition UpsertGlobal (now : Z) (e : Entry) (s : Store) : result memoryError Store :=
  if negb (ValidSlug (en_Name e)) then Err EInvalidName
  else if is_empty (trim_space (en_Description e)) then Err EDescriptionRequired
  else if is_empty (trim_space (en_Content e)) then Err EContentRequired
  else if (maxEntryBytes s <? Z.of_nat (String.length (en_Content e)))%Z then Err ETooLarge
  else
    let created :=
      match readEntryFile (en_Name e) s with
      | Ok prev => if (en_Created prev =? zero_time)%Z then now else en_Created prev
      | Err _ => now
      end in
    let e := {| en_Name := en_Name e; en_Description := en_Description e; en_Content := en_Content e;
                en_Agent := en_Agent e; en_Task := en_Task e; en_Workflow := en_Workflow e;
                en_Created := created; en_Updated := now |} in
    Ok (RebuildIndex (set_global (<[en_Name e := renderEntry e]> (fs_global s)) s)).

(** [List]. *)
Definition List (s : Store) : list EntryMeta :=
  (fun e => {| em_Name := en_Name e; em_Description := en_Description e; em_Agent := en_Agent e;
               em_Updated := en_Updated e |}) <$> readAllEntries s.

(** [Read]. *)
Definition Read (name : string) (s : Store) : result memoryError Entry :=
  if ValidSlug name then readEntryFile name s else Err EInvalidName.

(** [Delete]. *)
Definition Delete (name : string) (s : Store) : result memoryError Store :=
  if negb (ValidSlug name) then Err EInvalidName
  else match fs_global s !! name with
  | None => Err ENotFound
  | Some _ => Ok (RebuildIndex (set_global (delete name (fs_global s)) s))
  end.

(** ** Task notes *)

Definition lastHashPrefix : string := "<!-- last-note-hash: ".
Definition lastHashSuffix : string := " -->".

(** [splitLastHash]: the body and the hash of the last note. *)
Definition splitLastHash (raw : string) : string * string :=
  match last_cut lastHashPrefix (trim_right is_nl raw) with
  | None => (raw, "")
  | Some (body, line) =>
      if negb (has_suffix line lastHashSuffix) || str_has nl line then (raw, "")
      else (body, trim_suffix lastHashSuffix (trim_prefix lastHashPrefix line))
  end.

(** [nonEmpty]. *)
Definition nonEmpty (vals : list string) : list string := List.filter (fun v => negb (is_empty v)) vals.

(** The text of one note. *)
Definition provenance (n : Note) : string :=
  let slash c := bool_decide (c = "/"%char) in
  let prov := trim_right slash (drop_while slash (str_join "/" (nonEmpty [nt_Workflow n; nt_Step n]))) in
  (if is_empty prov then "" else " [" +:+ prov +:+ "]")
  +:+ (if is_empty (nt_Agent n) then "" else " (" +:+ nt_Agent n +:+ ")").

Definition note_text (at_ : Z) (n : Note) : string :=
  let lines := split_on nl (trim_right is_nl (nt_Content n)) in
  "- " +:+ format_time at_ +:+ provenance n +:+ " " +:+ List.hd "" lines +:+ newline
  +:+ foldr (fun line out => "  " +:+ line +:+ newline +:+ out) "" (List.tl lines).

Definition task_heading (taskID : string) : string := "# Task Memory — " +:+ taskID +:+ newline +:+ newline.

Definition hash_line (hash : string) : string := lastHashPrefix +:+ hash +:+ lastHashSuffix +:+ newline.

(** [AppendTaskNote]. *)
Definition AppendTaskNote (now : Z) (taskID : string) (n : Note) (s : Store) : result memoryError Store :=
  if negb (ValidTaskID taskID) then Err EInvalidTaskID
  else if is_empty (trim_space (nt_Content n)) then Err EContentRequired
  else if (maxEntryBytes s <? Z.of_nat (String.length (nt_Content n)))%Z then Err ETooLarge
  else
    let existing := from_option fst "" (fs_tasks s !! taskID) in
    let '(body, lastHash) := splitLastHash existing in
    let hash := digest8 (nt_Content n) in
    if bool_decide (hash = lastHash) then Ok s
    else
      let at_ := if (nt_At n =? zero_time)%Z then now else nt_At n in
      let text := body +:+ (if is_empty body then task_heading taskID else "")
                  +:+ note_text at_ n +:+ hash_line hash in
      Ok (set_notes (<[taskID := (text, now)]> (fs_tasks s)) s).

(** [TaskNoteContent]. *)
Definition TaskNoteContent (taskID : string) (s : Store) : string :=
  if negb (ValidTaskID taskID) then ""
  else match fs_tasks s !! taskID with
  | None => ""
  | Some (data, _) =>
      let lines := split_on nl (trim_space (splitLastHash data).1) in
      let lines := match lines with
                   | l :: rest => if has_prefix l "# " then rest else lines
                   | [] => lines
                   end in
      trim_space (str_join newline lines)
  end.

(** [DeleteTaskNotes]. *)
Definition DeleteTaskNotes (taskID : string) (s : Store) : result memoryError Store :=
  if negb (ValidTaskID taskID) then Err EInvalidTaskID
  else Ok (set_notes (delete taskID (fs_tasks s)) s).

(** [ListTaskNotes]. *)
Definition ListTaskNotes (s : Store) : list (string * Z) :=
  (fun p => (p.1, p.2.2)) <$> map_to_list (fs_tasks s).

(** ** Recall *)

Definition TierTask : string := "task".
Definition TierGlobal : string := "global".

Definition recall_header : string :=
  "[Long-term Memory]" +:+ newline
  +:+ "Persistent memory lives at $APIARY_MEMORY_DIR. The index is below; read the full" +:+ newline
  +:+ "entry from $APIARY_MEMORY_DIR/global/<name>.md when one looks relevant. To save a" +:+ newline
  +:+ "durable fact for future tasks, emit an APIARY_MEMORIZE block (scope " +:+ String "034" ""
  +:+ "global" +:+ String "034" "" +:+ "," +:+ newline
  +:+ "kebab-case name, one-line description, markdown content). Never memorize secrets." +:+ newline.

(** The loop of [renderGlobalIndex]: the text and the number of lines shown. *)
Fixpoint index_loop (budget : Z) (out : string) (metas : list EntryMeta) : string * nat :=
  match metas with
  | [] => (out, 0)
  | m :: metas =>
      let line := index_line (em_Name m) (em_Description m) in
      if (budget <? Z.of_nat (String.length out + String.length line))%Z then (out, 0)
      else let '(out, shown) := index_loop budget (out +:+ line) metas in (out, S shown)
  end.

Definition more_line (n : nat) : string :=
  "(… " +:+ pretty n +:+ " more entries — read MEMORY.md)" +:+ newline.

(** [renderGlobalIndex]. *)
Definition renderGlobalIndex (budget : Z) (s : Store) : string :=
  match List s with
  | [] => ""
  | metas =>
      let '(out, shown) := index_loop budget recall_header metas in
      if (shown <? length metas)%nat then out +:+ more_line (length metas - shown) else out
  end.

(** [render] of [renderTaskNotes]. *)
Definition render_block (first : bool) (b : string * string) : string :=
  (if first then "" else "(from parent task " +:+ b.1 +:+ ")" +:+ newline) +:+ b.2 +:+ newline.

Definition render_blocks (bs : list (string * string)) : string :=
  "[Task Memory]" +:+ newline
  +:+ match bs with
      | [] => ""
      | b :: bs => render_block true b +:+ foldr (fun b out => render_block false b +:+ out) "" bs
      end.

Definition fits (budget : Z) (out : string) : bool := (Z.of_nat (String.length out) <=? budget)%Z.

(** The first loop: fewer and fewer blocks. *)
Fixpoint drop_ancestors (budget : Z) (keep : nat) (blocks : list (string * string)) : option string :=
  match keep with
  | O => None
  | S k =>
      let out := render_blocks (take keep blocks) in
      if fits budget out then Some out else drop_ancestors budget k blocks
  end.

(** The second loop: fewer and fewer lines of the first block. *)
Fixpoint drop_lines (budget : Z) (id : string) (lines : list string) : string :=
  match lines with
  | _ :: ((_ :: _) as rest) =>
      let out := render_blocks [(id, str_join newline rest)] in
      if fits budget out then out else drop_lines budget id rest
  | _ => ""
  end.

(** [renderTaskNotes]. *)
Definition task_blocks (taskIDs : list string) (s : Store) : list (string * string) :=
  omap (fun id => let notes := TaskNoteContent id s in if is_empty notes then None else Some (id, notes)) taskIDs.

Definition renderTaskNotes (taskIDs : list string) (budget : Z) (s : Store) : string :=
  match task_blocks taskIDs s with
  | [] => ""
  | (id, notes) :: rest =>
      match drop_ancestors budget (length ((id, notes) :: rest)) ((id, notes) :: rest) with
      | Some out => out
      | None => drop_lines budget id (split_on nl notes)
      end
  end.

(** [RenderRecall]. *)
Definition RenderRecall (taskIDs tiers : list string) (budget : Z) (s : Store) : string :=
  let budget := (if budget <=? 0 then 4000 else budget)%Z in
  let global := if str_in TierGlobal tiers then renderGlobalIndex (budget `quot` 2) s else "" in
  let remaining := (budget - Z.of_nat (String.length global))%Z in
  let task := if str_in TierTask tiers && (0 <? remaining)%Z then renderTaskNotes taskIDs remaining s else "" in
  if is_empty global then task
  else if is_empty task then global
  else global +:+ newline +:+ task.

(** ** The engine: memorize requests and the lineage of a task *)

Record MemorizeRequest := {
  mq_Scope : string;
  mq_Name : string;
  mq_Description : string;
  mq_Content : string;
}.

(** One request of [memorizeStep]; [now] is read twice, by the engine and by the
    store. *)
Definition memorize_one (now storeNow : Z) (taskID stepID agent wfID : string) (req : MemorizeRequest) (s : Store)
    : result memoryError Store :=
  let scope := if is_empty (mq_Scope req) then TierTask else mq_Scope req in
  if bool_decide (scope = TierGlobal) then
    UpsertGlobal storeNow
      {| en_Name := mq_Name req; en_Description := mq_Description req; en_Content := mq_Content req;
         en_Agent := agent; en_Task := taskID; en_Workflow := wfID; en_Created := zero_time;
         en_Updated := zero_time |} s
  else if bool_decide (scope = TierTask) then
    if is_empty taskID then Err ENoTaskID
    else AppendTaskNote storeNow taskID
           {| nt_Content := mq_Content req; nt_Agent := agent; nt_Workflow := wfID; nt_Step := stepID;
              nt_At := now |} s
  else Err EUnknownScope.

(** [memorizeStep]: a request that is refused is a warning. *)
Definition memorizeStep (now storeNow : Z) (taskID stepID agent wfID : string) (reqs : list MemorizeRequest) (s : Store)
    : Store :=
  foldl (fun s req => match memorize_one now storeNow taskID stepID agent wfID req s with
                      | Ok s' => s'
                      | Err _ => s
                      end) s reqs.

(** The lineage of [renderRecall]: the task, then the others of the ancestors
    (listed root first) from the nearest on. *)
Definition lineage (taskID : string) (ancestors : list string) : list string :=
  if is_empty taskID then []
  else taskID :: List.filter (fun a => negb (bool_decide (a = taskID))) (reverse ancestors).

(** ** The dispatcher: retention *)

(** What the sweep reads of a task. *)
Record TaskInfo := { ti_terminal : bool; ti_UpdatedAt : Z }.

(** [ListChildTasks]: ids and whether they are settled, [None] on an error. *)
Definition ChildLister : Type := string -> option (list (string * bool)).

(** [hasLiveDescendant], from the number of levels it still descends. *)
Fixpoint has_live (levels : nat) (children : ChildLister) (taskID : string) : bool :=
  match levels with
  | O => false
  | S levels =>
      match children taskID with
      | None => true
      | Some cs => existsb (fun c => negb c.2 || has_live levels children c.1) cs
      end
  end.

(** Depths 0 to 32 are looked at. *)
Definition hasLiveDescendant (children : ChildLister) (taskID : string) : bool := has_live 33 children taskID.

(** Is one notes file to be deleted? *)
Definition prune_one (cutoff : Z) (getTask : string -> option TaskInfo) (children : ChildLister)
    (note : string * Z) : bool :=
  match getTask note.1 with
  | None => (note.2 <? cutoff)%Z
  | Some task => ti_terminal task && negb (cutoff <? ti_UpdatedAt task)%Z && negb (hasLiveDescendant children note.1)
  end.

(** [pruneTaskMemoryOnce]: the store left and the number of files deleted. *)
Definition pruneTaskMemoryOnce (now retention : Z) (getTask : string -> option TaskInfo) (children : ChildLister)
    (s : Store) : Store * nat :=
  foldl (fun '(s, n) note =>
    if prune_one (now - retention) getTask children note then
      match DeleteTaskNotes note.1 s with
      | Ok s' => (s', S n)
      | Err _ => (s, n)
      end
    else (s, n)) (s, 0) (ListTaskNotes s).
End store.
