(* ===== verification/AgentMemoryFacts.v ===== *)
(** * What the files of the memory store hold

    Entries survive their text format, the directory of entries is a map of
    facts, and a file of task notes is the log of the notes that were appended. *)

From stdpp Require Import base gmap strings list pretty sorting.
From Stdlib Require Import ZArith Ascii.
From S2P Require Import Prelude Text AgentMemory.

(** ** Lines of front matter *)

Definition lines_text (ls : list string) : string := foldr (fun l out => l +:+ newline +:+ out) "" ls.

Definition starts_with_dash (s : string) : bool := has_prefix s "-".

(** The lines end where the next one would start with dashes. *)
Lemma cut_lines l ls rest :
  Forall (fun x => str_has nl x = false) (l :: ls) -> Forall (fun x => starts_with_dash x = false) ls ->
  str_cut (newline +:+ "---") (lines_text (l :: ls) +:+ "---" +:+ rest) = Some (str_join newline (l :: ls), rest).
Proof.
  change (newline +:+ "---") with (String nl "---").
  revert l. induction ls as [|m ls IH]; intros l Hnl Hd; apply Forall_cons in Hnl as [Hl Hnl];
    change (lines_text (l :: ?t)) with (l +:+ newline +:+ lines_text t); rewrite <- !append_assoc, str_cut_skip by done.
  - change (newline +:+ lines_text [] +:+ "---" +:+ rest) with (String nl ("---" +:+ rest)). cbn [str_cut].
    rewrite <- str_app_cons, strip_prefix_app. simpl. by rewrite append_empty.
  - apply Forall_cons in Hd as [Hm Hd].
    change (newline +:+ lines_text (m :: ls) +:+ "---" +:+ rest)
      with (String nl (lines_text (m :: ls) +:+ "---" +:+ rest)).
    cbn [str_cut].
    assert (strip_prefix (String nl "---") (String nl (lines_text (m :: ls) +:+ "---" +:+ rest)) = None) as ->.
    { cbn [strip_prefix]. rewrite decide_True by done.
      change (lines_text (m :: ls)) with (m +:+ newline +:+ lines_text ls).
      destruct m as [|c m]; [done|]. rewrite !str_app_cons. unfold starts_with_dash in Hm.
      rewrite has_prefix_cons, has_prefix_nil, andb_true_r in Hm. apply bool_decide_eq_false in Hm.
      rewrite decide_False by congruence. done. }
    rewrite IH by done. simpl. done.
Qed.

Lemma split_join ls : ls <> [] -> Forall (fun x => str_has nl x = false) ls -> split_on nl (str_join newline ls) = ls.
Proof.
  intros Hne Hl. destruct Hl as [|l ls Hl Hls]; [done|]. clear Hne. revert l Hl.
  induction Hls as [|m ls Hm Hls IH]; intros l Hl; [by apply split_on_fresh|].
  change (str_join newline (l :: m :: ls)) with (l +:+ String nl (str_join newline (m :: ls))).
  by rewrite split_on_cons, IH.
Qed.

(** A line of the front matter, absent when the value is empty. *)
Definition fm_line (key value : string) : list string := if is_empty value then [] else [key +:+ ": " +:+ value].

Lemma writeFM_line key value : writeFM key value = lines_text (fm_line key value).
Proof.
  unfold writeFM, fm_line. destruct (is_empty value); [done|]. simpl. by rewrite append_empty, <- !append_assoc.
Qed.

Lemma lines_text_app a b : lines_text (a ++ b) = lines_text a +:+ lines_text b.
Proof. induction a as [|l a IH]; [done|]. simpl. by rewrite IH, <- !append_assoc. Qed.

(** The keys the store writes. *)
Definition key_ok (key : string) : Prop :=
  str_has ":" key = false /\ trim_space key = key /\ str_has nl key = false /\ starts_with_dash key = false /\ key <> "".

Section entries.
Context {RT : MemoryRuntime} {LAWS : MemoryRuntimeLaws RT}.

Lemma parse_kv key value e :
  key_ok key -> plain value -> parse_line e (key +:+ ": " +:+ value) = set_key key value e.
Proof.
  intros (Hc & Ht & _) [_ Hv]. unfold parse_line.
  change (key +:+ ": " +:+ value) with (key +:+ String ":" (" " +:+ value)).
  rewrite str_cut_byte by done. by rewrite Ht, trim_blank_l, trim_tight.
Qed.

Lemma fm_line_ok key value :
  key_ok key -> plain value ->
  Forall (fun x => str_has nl x = false /\ starts_with_dash x = false) (fm_line key value).
Proof.
  intros (_ & _ & Hn & Hd & Hne) [Hv _]. unfold fm_line. destruct (is_empty value); constructor; [|done]. split.
  - by rewrite !str_has_app, Hn, Hv.
  - destruct key as [|c key]; [done|]. unfold starts_with_dash in *. rewrite str_app_cons.
    by rewrite has_prefix_cons, has_prefix_nil in *.
Qed.

Lemma fold_line key value e :
  key_ok key -> plain value ->
  foldl parse_line e (fm_line key value) = if is_empty value then e else set_key key value e.
Proof. intros Hk Hv. unfold fm_line. destruct (is_empty value); [done|]. simpl. by rewrite parse_kv. Qed.

(** What reading an entry back gives: the description on one line, the content
    without white space around it, the times in whole seconds. *)
Definition as_read (e : Entry) : Entry := {|
  en_Name := en_Name e; en_Description := oneLine (en_Description e); en_Content := trim_space (en_Content e);
  en_Agent := en_Agent e; en_Task := en_Task e; en_Workflow := en_Workflow e;
  en_Created := whole_seconds (en_Created e); en_Updated := whole_seconds (en_Updated e) |}.

Record entry_ok (e : Entry) : Prop := {
  eo_name : plain (en_Name e);
  eo_agent : plain (en_Agent e);
  eo_task : plain (en_Task e);
  eo_workflow : plain (en_Workflow e);
  eo_created : in_years (en_Created e);
  eo_updated : in_years (en_Updated e);
}.

Definition fm_lines (e : Entry) : list string :=
  fm_line "name" (en_Name e) ++ fm_line "description" (oneLine (en_Description e))
  ++ fm_line "created" (format_time (en_Created e)) ++ fm_line "updated" (format_time (en_Updated e))
  ++ fm_line "agent" (en_Agent e) ++ fm_line "task" (en_Task e) ++ fm_line "workflow" (en_Workflow e).

Lemma renderEntry_lines e :
  renderEntry e = "---" +:+ newline +:+ lines_text (fm_lines e) +:+ "---" +:+ newline +:+ newline
                  +:+ trim_right is_nl (en_Content e) +:+ newline.
Proof.
  unfold renderEntry, fm_lines. rewrite !writeFM_line, !lines_text_app. by rewrite <- !append_assoc.
Qed.

Lemma plain_oneLine s : plain (oneLine s).
Proof. split; [by apply oneLine_has|apply oneLine_tight]. Qed.

Lemma fm_lines_ok e :
  entry_ok e -> Forall (fun x => str_has nl x = false /\ starts_with_dash x = false) (fm_lines e).
Proof.
  intros []. unfold fm_lines.
  repeat (apply Forall_app_2; [apply fm_line_ok; [by repeat split|]|]); try done; try apply plain_oneLine;
    try (by apply format_plain).
  apply fm_line_ok; [by repeat split|done].
Qed.

(** The keys in the order they are written. *)
Lemma set_keys n d c u a t w : forall e,
  set_key "workflow" w (set_key "task" t (set_key "agent" a (set_key "updated" u (set_key "created" c
    (set_key "description" d (set_key "name" n e))))))
  = {| en_Name := n; en_Description := d; en_Content := en_Content e; en_Agent := a; en_Task := t; en_Workflow := w;
       en_Created := default zero_time (parse_time c); en_Updated := default zero_time (parse_time u) |}.
Proof.
  intros e.
  assert (forall v x, set_key "name" v x = {| en_Name := v; en_Description := en_Description x; en_Content := en_Content x;
    en_Agent := en_Agent x; en_Task := en_Task x; en_Workflow := en_Workflow x; en_Created := en_Created x;
    en_Updated := en_Updated x |}) as -> by done.
  assert (forall v x, set_key "description" v x = {| en_Name := en_Name x; en_Description := v; en_Content := en_Content x;
    en_Agent := en_Agent x; en_Task := en_Task x; en_Workflow := en_Workflow x; en_Created := en_Created x;
    en_Updated := en_Updated x |}) as -> by done.
  assert (forall v x, set_key "created" v x = {| en_Name := en_Name x; en_Description := en_Description x;
    en_Content := en_Content x; en_Agent := en_Agent x; en_Task := en_Task x; en_Workflow := en_Workflow x;
    en_Created := default zero_time (parse_time v); en_Updated := en_Updated x |}) as -> by done.
  done.
Qed.

(** The fields an entry starts with are empty, so an absent line is no loss. *)
Lemma fm_lines_entry e : entry_ok e -> forall c, set_content c (foldl parse_line empty_entry (fm_lines e))
  = set_content c (as_read e).
Proof.
  intros [] c. unfold fm_lines. rewrite !foldl_app.
  rewrite !fold_line by (first [by repeat split|done|apply plain_oneLine|by apply format_plain]).
  destruct (format_plain (en_Created e)) as [_ Hc]; [done|]. destruct (format_plain (en_Updated e)) as [_ Hu]; [done|].
  apply is_empty_false in Hc, Hu. rewrite Hc, Hu.
  assert (forall (v : string) (x y : Entry), (v = "" -> x = y) -> (if is_empty v then x else y) = y) as Hif.
  { intros v x y H. destruct (is_empty v) eqn:E; [|done]. by apply H, is_empty_true. }
  rewrite (Hif (en_Name e)) by (by intros ->). rewrite (Hif (oneLine _)) by (by intros ->).
  rewrite (Hif (en_Agent e)) by (by intros ->). rewrite (Hif (en_Task e)) by (by intros ->).
  rewrite (Hif (en_Workflow e)) by (by intros ->).
  rewrite set_keys. unfold set_content, as_read. simpl. by rewrite !parse_format.
Qed.

(** Reading back what was written. *)
Lemma entry_read_back e : entry_ok e -> parseEntry (renderEntry e) = Ok (as_read e).
Proof.
  intros He. unfold parseEntry. rewrite renderEntry_lines.
  pose proof (fm_lines_ok e He) as Hl.
  assert (Forall (fun x => str_has nl x = false) (fm_lines e)) as Hnl by (eapply Forall_impl; [exact Hl|]; naive_solver).
  assert (Forall (fun x => starts_with_dash x = false) (fm_lines e)) as Hd by (eapply Forall_impl; [exact Hl|]; naive_solver).
  assert (fm_lines e <> []) as Hne.
  { destruct (format_plain (en_Created e)) as [_ Hc]; [apply He|]. apply is_empty_false in Hc. unfold fm_lines.
    unfold fm_line at 3. rewrite Hc. intros [_ [_ [=]]%app_eq_nil]%app_eq_nil. }
  rewrite (append_assoc "---" newline), strip_prefix_app.
  destruct (fm_lines e) as [|l ls] eqn:E; [done|].
  rewrite cut_lines by (done || by inversion Hd). rewrite split_join by done. rewrite <- E, fm_lines_entry by done.
  f_equal. unfold set_content, as_read. simpl. f_equal.
  assert (trim_prefix newline (newline +:+ newline +:+ trim_right is_nl (en_Content e) +:+ newline)
    = newline +:+ trim_right is_nl (en_Content e) +:+ newline) as ->
    by (unfold trim_prefix; by rewrite strip_prefix_app).
  rewrite trim_blank_l, trim_blank_r by done. apply trim_trim_right.
Qed.
End entries.

(** ** The abstract store *)

(** What is remembered: facts by name, and per task the notes that were appended,
    with their times. *)
Record Memory := {
  mem_facts : gmap string Entry;
  mem_logs : gmap string (list (Z * Note));
}.

Inductive mem_op :=
  | OUpsert (now : Z) (e : Entry)
  | ODelete (name : string)
  | OAppend (now : Z) (taskID : string) (n : Note)
  | OForget (taskID : string)
  | ORebuild.

Definition log_of (taskID : string) (m : Memory) : list (Z * Note) := default [] (mem_logs m !! taskID).

Section abstract.
Context {RT : MemoryRuntime}.

(** The length limit of the store. *)
Definition within (limit : Z) (content : string) : bool :=
  negb (is_empty (trim_space content)) && (Z.of_nat (String.length content) <=? limit)%Z.

(** An upsert replaces everything but the time of creation. *)
Definition remember (now : Z) (e : Entry) (facts : gmap string Entry) : gmap string Entry :=
  let created :=
    match facts !! en_Name e with
    | Some prev => if (en_Created prev =? zero_time)%Z then now else en_Created prev
    | None => now
    end in
  <[en_Name e := as_read
      {| en_Name := en_Name e; en_Description := en_Description e; en_Content := en_Content e;
         en_Agent := en_Agent e; en_Task := en_Task e; en_Workflow := en_Workflow e;
         en_Created := created; en_Updated := now |}]> facts.

(** A note that repeats the last one is dropped. *)
Definition log_append (at_ : Z) (n : Note) (log : list (Z * Note)) : list (Z * Note) :=
  match last log with
  | Some (_, n') => if bool_decide (digest8 (nt_Content n) = digest8 (nt_Content n')) then log else log ++ [(at_, n)]
  | None => [(at_, n)]
  end.

Definition spec_op (limit : Z) (o : mem_op) (m : Memory) : Memory :=
  match o with
  | OUpsert now e =>
      if ValidSlug (en_Name e) && negb (is_empty (trim_space (en_Description e))) && within limit (en_Content e)
      then {| mem_facts := remember now e (mem_facts m); mem_logs := mem_logs m |} else m
  | ODelete name => {| mem_facts := delete name (mem_facts m); mem_logs := mem_logs m |}
  | OAppend now id n =>
      if ValidTaskID id && within limit (nt_Content n) then
        {| mem_facts := mem_facts m;
           mem_logs := <[id := log_append (if (nt_At n =? zero_time)%Z then now else nt_At n) n (log_of id m)]> (mem_logs m) |}
      else m
  | OForget id => {| mem_facts := mem_facts m; mem_logs := delete id (mem_logs m) |}
  | ORebuild => m
  end.

Context `{!Sorter by_name}.

(** The operations of the store; one that is refused leaves the files alone. *)
Definition run_mem (o : mem_op) (s : Store) : Store :=
  let outcome := match o with
    | OUpsert now e => UpsertGlobal now e s
    | ODelete name => Delete name s
    | OAppend now id n => AppendTaskNote now id n s
    | OForget id => DeleteTaskNotes id s
    | ORebuild => Ok (RebuildIndex s)
    end in
  match outcome with Ok s' => s' | Err _ => s end.

(** A new store, as [Open] leaves it. *)
Definition new_store (max : Z) : Store :=
  RebuildIndex {| fs_global := ∅; fs_tasks := ∅; fs_index := ""; fs_max := max |}.

Definition run_mems (ops : list mem_op) (s : Store) : Store := foldl (fun s o => run_mem o s) s ops.
Definition spec_ops (limit : Z) (ops : list mem_op) (m : Memory) : Memory := foldl (fun m o => spec_op limit o m) m ops.

(** The provenance of an entry is on one line and the clock is in range. *)
Definition op_ok (o : mem_op) : Prop :=
  match o with
  | OUpsert now e => in_years now /\ plain (en_Agent e) /\ plain (en_Task e) /\ plain (en_Workflow e)
  | OAppend now _ n => in_years now /\ in_years (nt_At n)
  | _ => True
  end.

(** ** Text of a log *)

Definition log_body (log : list (Z * Note)) : string := foldr (fun p out => note_text p.1 p.2 +:+ out) "" log.

Definition log_text (taskID : string) (log : list (Z * Note)) : string :=
  match last log with
  | Some (_, n) => (task_heading taskID +:+ log_body log) +:+ hash_line (digest8 (nt_Content n))
  | None => ""
  end.

(** The files hold the abstract memory. *)
Record remembers (s : Store) (m : Memory) : Prop := {
  ho_facts : forall name, readEntryFile name s = match mem_facts m !! name with Some e => Ok e | None => Err ENotFound end;
  ho_names : forall name e, mem_facts m !! name = Some e ->
    ValidSlug name = true /\ en_Name e = name /\ in_years (en_Created e);
  ho_logs : forall id, from_option fst "" (fs_tasks s !! id) = log_text id (log_of id m);
  ho_ids : forall id, log_of id m <> [] -> ValidTaskID id = true;
  ho_index : RebuildIndex s = s;
}.
End abstract.

Section refinement.
Context {RT : MemoryRuntime} {LAWS : MemoryRuntimeLaws RT} `{!Sorter by_name}.

Lemma all_bytes_has p c s : all_bytes p s = true -> p c = false -> str_has c s = false.
Proof.
  intros H Hc. induction s as [|d s IH]; [done|]. simpl in *. apply andb_true_iff in H as [Hd Hs].
  rewrite IH by done. rewrite orb_false_r. apply bool_decide_eq_false. intros ->. by rewrite Hc in Hd.
Qed.

Lemma solid_tight s : solid s = true -> tight s.
Proof.
  intros H. destruct s as [|c s]; [done|]. split; [rewrite <- (append_empty (String c s)); by apply trim_left_word|].
  rewrite <- (append_empty (String.rev _)). apply trim_left_word. split; [|by rewrite solid_rev].
  intros E. apply (f_equal String.rev) in E. by rewrite rev_rev in E.
Qed.

Lemma all_bytes_solid p s :
  all_bytes p s = true -> (forall c, p c = true -> Ascii.is_space c = false) -> solid s = true.
Proof.
  intros H Hp. induction s as [|d s IH]; [done|]. simpl in *. apply andb_true_iff in H as [Hd Hs].
  by rewrite (Hp d) by done; rewrite IH.
Qed.

(** A slug is on one line. *)
Lemma slug_plain name : ValidSlug name = true -> plain name.
Proof.
  destruct name as [|c rest]; [done|]. intros [[Hc Hr]%andb_true_iff _]%andb_true_iff.
  set (p := fun c => is_lower c || is_digit c || bool_decide (c = "-"%char)) in *.
  assert (all_bytes p (String c rest) = true) as Hall.
  { cbn [all_bytes]. rewrite Hr, andb_true_r. unfold p. by rewrite Hc. }
  split; [by eapply all_bytes_has|]. apply solid_tight. eapply all_bytes_solid; [exact Hall|].
  intros d. unfold p, is_lower, is_digit. destruct (Ascii.is_space d) eqn:E; [|done].
  by destruct d as [[] [] [] [] [] [] [] []].
Qed.

Lemma task_id_no_nl id : ValidTaskID id = true -> str_has nl id = false.
Proof. intros [H _]%andb_true_iff. by eapply all_bytes_has. Qed.

Lemma whole_in_years t : in_years t -> in_years (whole_seconds t).
Proof.
  unfold in_years, whole_seconds, zero_time. intros [H1 H2].
  pose proof (Z.mod_pos_bound t (10 ^ 9) ltac:(done)). split; [|lia].
  pose proof (Z.div_mod t (10 ^ 9) ltac:(done)) as Hd.
  assert (-62135596800 <= t `div` 10 ^ 9)%Z by (apply Z.div_le_lower_bound; lia). lia.
Qed.

Lemma whole_twice t : whole_seconds (whole_seconds t) = whole_seconds t.
Proof.
  unfold whole_seconds. pose proof (Z.div_mod t (10 ^ 9) ltac:(done)).
  replace (t - t `mod` 10 ^ 9)%Z with (t `div` 10 ^ 9 * 10 ^ 9)%Z by lia. rewrite Z.mod_mul by done. lia.
Qed.

(** Splitting the file of a log gives the notes and the hash of the last one. *)
Lemma split_log id log at_ n :
  last log = Some (at_, n) ->
  splitLastHash (log_text id log) = (task_heading id +:+ log_body log, digest8 (nt_Content n)).
Proof.
  intros Hl. unfold log_text. rewrite Hl. set (body := task_heading id +:+ log_body log).
  destruct (digest_hex (nt_Content n)) as [Hhex _]. set (h := digest8 (nt_Content n)) in *.
  unfold splitLastHash, hash_line.
  assert (trim_right is_nl (body +:+ lastHashPrefix +:+ h +:+ lastHashSuffix +:+ newline)
    = body +:+ lastHashPrefix +:+ h +:+ lastHashSuffix) as ->.
  { change newline with (String nl ""). rewrite !append_assoc, trim_right_drops by done.
    change lastHashSuffix with (" --" +:+ String ">" ""). rewrite !append_assoc. by apply trim_right_keeps. }
  change lastHashPrefix with (String "<" "!-- last-note-hash: ").
  rewrite last_cut_marker
    by (rewrite !str_has_app; rewrite (all_bytes_has hex_digit "<" h) by done; done).
  change (String "<" "!-- last-note-hash: ") with lastHashPrefix.
  assert (has_suffix (lastHashPrefix +:+ h +:+ lastHashSuffix) lastHashSuffix = true) as ->.
  { unfold has_suffix. rewrite append_assoc, rev_app_distr. apply has_prefix_app. }
  assert (str_has nl (lastHashPrefix +:+ h +:+ lastHashSuffix) = false) as ->
    by (rewrite !str_has_app; by rewrite (all_bytes_has hex_digit nl h)).
  unfold trim_prefix. rewrite strip_prefix_app. simpl. unfold trim_suffix.
  by rewrite (proj2 (strip_suffix_Some lastHashSuffix _ h)).
Qed.

Lemma heading_nonempty id s : is_empty (task_heading id +:+ s) = false.
Proof. apply is_empty_false. by intros [H _]%append_nil. Qed.

Lemma log_body_snoc log at_ n : log_body (log ++ [(at_, n)]) = log_body log +:+ note_text at_ n.
Proof.
  induction log as [|p log IH]; simpl; [by rewrite append_empty|]. by rewrite IH, append_assoc.
Qed.

Lemma split_nothing : splitLastHash "" = ("", "").
Proof. done. Qed.

(** The write of [AppendTaskNote], on the file of a log. *)
Lemma append_text id at_ n log :
  let '(body, lastHash) := splitLastHash (log_text id log) in
  (if bool_decide (digest8 (nt_Content n) = lastHash) then log_text id log
   else body +:+ (if is_empty body then task_heading id else "") +:+ note_text at_ n +:+ hash_line (digest8 (nt_Content n)))
  = log_text id (log_append at_ n log).
Proof.
  unfold log_append. destruct (last log) as [[at' n']|] eqn:El.
  - rewrite (split_log id log at' n' El). case_bool_decide as Hd; [done|].
    rewrite heading_nonempty. unfold log_text. rewrite last_snoc, log_body_snoc.
    change ("" +:+ ?x) with x. by rewrite <- !append_assoc.
  - apply last_None in El as ->. change (log_text id []) with "". rewrite split_nothing.
    rewrite bool_decide_false by (apply digest_hex). unfold log_text. simpl. by rewrite append_empty, <- !append_assoc.
Qed.

Lemma log_of_insert id id' l m f :
  log_of id' {| mem_facts := f; mem_logs := <[id := l]> (mem_logs m) |} = if decide (id = id') then l else log_of id' m.
Proof.
  unfold log_of. simpl. case_decide as H; [subst; by rewrite lookup_insert_eq|by rewrite lookup_insert_ne].
Qed.

Lemma log_append_nonempty at_ n log : log_append at_ n log <> [].
Proof.
  unfold log_append. destruct (last log) as [[? ?]|] eqn:E; [|done].
  case_bool_decide; [by intros ->|]. by intros [_ [=]]%app_eq_nil.
Qed.

Lemma within_spec (limit : Z) (content : string) {A} (x y z : A) :
  (if is_empty (trim_space content) then x else if (limit <? Z.of_nat (String.length content))%Z then y else z)
  = if within limit content then z else if is_empty (trim_space content) then x else y.
Proof.
  unfold within. rewrite Z.ltb_antisym. destruct (is_empty _); simpl; [done|]. by destruct (_ <=? _)%Z.
Qed.

(** Only the notes change. *)
Lemma holds_notes s m tasks logs :
  remembers s m ->
  (forall id, from_option fst "" (tasks !! id) = log_text id (default [] (logs !! id))) ->
  (forall id, default [] (logs !! id) <> [] -> ValidTaskID id = true) ->
  remembers (set_notes tasks s) {| mem_facts := mem_facts m; mem_logs := logs |}.
Proof.
  intros [Hf Hn Hl Hid Hx] Ht Hi. split; try done.
  destruct s. unfold RebuildIndex, set_index, set_notes. simpl. f_equal. exact (f_equal AgentMemory.fs_index Hx).
Qed.

Lemma holds_append now id n s m :
  remembers s m -> remembers (run_mem (OAppend now id n) s) (spec_op (maxEntryBytes s) (OAppend now id n) m).
Proof.
  intros Hh. pose proof (ho_logs _ _ Hh) as Hl. pose proof (ho_ids _ _ Hh) as Hid.
  unfold run_mem, AppendTaskNote. simpl. rewrite within_spec.
  destruct (ValidTaskID id) eqn:Ev; simpl; [|done]. destruct (within _ _); simpl; [|by destruct (is_empty _)].
  set (at_ := if (nt_At n =? zero_time)%Z then now else nt_At n). rewrite Hl.
  pose proof (append_text id at_ n (log_of id m)) as Ht.
  assert (forall id', default [] (<[id := log_append at_ n (log_of id m)]> (mem_logs m) !! id')
    = if decide (id = id') then log_append at_ n (log_of id m) else log_of id' m) as Hins
    by (intros id'; exact (log_of_insert id id' _ m (mem_facts m))).
  destruct (splitLastHash (log_text id (log_of id m))) as [body lastHash].
  case_bool_decide as Hd; [replace s with (set_notes (fs_tasks s) s) by (by destruct s)|]; apply holds_notes; try done;
    intros id'; rewrite Hins; case_decide; subst; auto.
  - by rewrite Hl.
  - by rewrite lookup_insert_eq.
  - by rewrite lookup_insert_ne.
Qed.

Lemma holds_forget id s m :
  remembers s m -> remembers (run_mem (OForget id) s) (spec_op (maxEntryBytes s) (OForget id) m).
Proof.
  intros Hh. pose proof (ho_logs _ _ Hh) as Hl. pose proof (ho_ids _ _ Hh) as Hid.
  unfold run_mem, DeleteTaskNotes. simpl.
  assert (forall id', default [] (delete id (mem_logs m) !! id') = if decide (id = id') then [] else log_of id' m) as Hdel.
  { intros id'. case_decide; [subst; by rewrite lookup_delete_eq|by rewrite lookup_delete_ne]. }
  destruct (ValidTaskID id) eqn:Ev; simpl; [|replace s with (set_notes (fs_tasks s) s) by (by destruct s)];
    apply holds_notes; try done; intros id'; rewrite Hdel; case_decide; subst; auto; try done.
  - by rewrite lookup_delete_eq.
  - by rewrite lookup_delete_ne.
  - rewrite Hl. destruct (log_of id' m) eqn:E; [done|].
    exfalso. assert (log_of id' m <> []) as H%Hid by (by rewrite E). congruence.
Qed.

(** Only the facts change, and the index is written again. *)
Lemma holds_facts s m files facts :
  remembers s m ->
  (forall name, match files !! name with Some raw => parseEntry raw | None => Err ENotFound end
     = match facts !! name with Some e => Ok e | None => Err ENotFound end) ->
  (forall name e, facts !! name = Some e -> ValidSlug name = true /\ en_Name e = name /\ in_years (en_Created e)) ->
  remembers (RebuildIndex (set_global files s)) {| mem_facts := facts; mem_logs := mem_logs m |}.
Proof. intros [Hf Hn Hl Hid Hx] Hr Hk. by split. Qed.

Lemma readEntryFile_facts s m name :
  remembers s m -> readEntryFile name s = match mem_facts m !! name with Some e => Ok e | None => Err ENotFound end.
Proof. intros Hh. apply Hh. Qed.

(** An entry that passes the checks of [UpsertGlobal]. *)
Lemma upsert_entry_ok now created e :
  ValidSlug (en_Name e) = true -> in_years now -> in_years created ->
  plain (en_Agent e) -> plain (en_Task e) -> plain (en_Workflow e) ->
  entry_ok {| en_Name := en_Name e; en_Description := en_Description e; en_Content := en_Content e;
              en_Agent := en_Agent e; en_Task := en_Task e; en_Workflow := en_Workflow e;
              en_Created := created; en_Updated := now |}.
Proof. intros Hs. split; simpl; try done. by apply slug_plain. Qed.

Lemma holds_upsert now e s m :
  remembers s m -> op_ok (OUpsert now e) ->
  remembers (run_mem (OUpsert now e) s) (spec_op (maxEntryBytes s) (OUpsert now e) m).
Proof.
  intros Hh (Hnow & Ha & Ht & Hw). unfold run_mem, UpsertGlobal. simpl. rewrite within_spec.
  destruct (ValidSlug (en_Name e)) eqn:Ev; simpl; [|done].
  destruct (is_empty (trim_space (en_Description e))); simpl; [done|].
  destruct (within _ _); simpl; [|by destruct (is_empty _)].
  rewrite (readEntryFile_facts s m) by done. unfold remember.
  assert (forall (facts : option Entry), match match facts with Some e => Ok e | None => Err ENotFound end with
    | Ok prev => if (en_Created prev =? zero_time)%Z then now else en_Created prev
    | Err _ => now end = match facts with Some prev => if (en_Created prev =? zero_time)%Z then now else en_Created prev
    | None => now end) as -> by by intros [?|].
  set (created := match mem_facts m !! en_Name e with Some _ => _ | None => _ end).
  assert (in_years created) as Hc.
  { subst created. destruct (mem_facts m !! en_Name e) as [p|] eqn:E; [|done].
    apply (ho_names _ _ Hh) in E as (_ & _ & ?). by destruct (_ =? _)%Z. }
  apply holds_facts; [done|..].
  - intros name. destruct (decide (en_Name e = name)) as [<-|Hne].
    + rewrite !lookup_insert_eq. by apply entry_read_back, upsert_entry_ok.
    + rewrite !lookup_insert_ne by done. exact (readEntryFile_facts s m name Hh).
  - intros name e'. destruct (decide (en_Name e = name)) as [<-|Hne].
    + rewrite lookup_insert_eq. intros [= <-]. simpl. by split_and!; [..|apply whole_in_years].
    + rewrite lookup_insert_ne by done. apply Hh.
Qed.

Lemma holds_delete name s m :
  remembers s m -> remembers (run_mem (ODelete name) s) (spec_op (maxEntryBytes s) (ODelete name) m).
Proof.
  intros Hh. unfold run_mem, Delete. simpl.
  assert (mem_facts m !! name = None -> remembers s {| mem_facts := delete name (mem_facts m); mem_logs := mem_logs m |}) as Hnone.
  { intros Hn. rewrite delete_id by done. by destruct m. }
  destruct (ValidSlug name) eqn:Ev; simpl.
  - destruct (fs_global s !! name) as [raw|] eqn:E.
    + apply holds_facts; [done|..].
      * intros name'. destruct (decide (name = name')) as [<-|Hne]; [by rewrite !lookup_delete_eq|].
        rewrite !lookup_delete_ne by done. exact (readEntryFile_facts s m name' Hh).
      * intros name' e'. destruct (decide (name = name')) as [<-|Hne]; [by rewrite lookup_delete_eq|].
        rewrite lookup_delete_ne by done. apply Hh.
    + apply Hnone. pose proof (readEntryFile_facts s m name Hh) as Hr. unfold readEntryFile in Hr. rewrite E in Hr.
      by destruct (mem_facts m !! name).
  - apply Hnone. destruct (mem_facts m !! name) as [e|] eqn:E; [|done].
    apply (ho_names _ _ Hh) in E as [? _]. congruence.
Qed.

Lemma run_mem_max o s : fs_max (run_mem o s) = fs_max s.
Proof.
  destruct o; simpl; unfold run_mem, UpsertGlobal, Delete, AppendTaskNote, DeleteTaskNotes; by repeat case_match; simplify_eq.
Qed.

(** Every operation of the store is the operation of the memory. *)
Lemma holds_op o s m :
  remembers s m -> op_ok o -> remembers (run_mem o s) (spec_op (maxEntryBytes s) o m).
Proof.
  intros Hh Ho. destruct o; [by apply holds_upsert|by apply holds_delete|by apply holds_append|by apply holds_forget|].
  unfold run_mem, spec_op. by rewrite (ho_index _ _ Hh).
Qed.

Lemma holds_new max : remembers (new_store max) {| mem_facts := ∅; mem_logs := ∅ |}.
Proof. by split. Qed.

Lemma holds_run ops s m :
  remembers s m -> Forall op_ok ops -> remembers (run_mems ops s) (spec_ops (maxEntryBytes s) ops m).
Proof.
  intros Hh Hops. revert s m Hh. induction Hops as [|o ops Ho _ IH]; intros s m Hh; [done|]. simpl.
  pose proof (IH _ _ (holds_op o s m Hh Ho)) as H. unfold maxEntryBytes in *. by rewrite run_mem_max in H.
Qed.

(** ** What the operations show *)

(** The entries the index is built from. *)
Lemma readAllEntries_facts s m : remembers s m -> readAllEntries s ≡ₚ (map_to_list (mem_facts m)).*2.
Proof.
  intros Hh. unfold readAllEntries. rewrite sort_by_perm.
  set (f := fun name => match readEntryFile name s with Ok e => Some (named name e) | Err _ => None end).
  assert (sort_strings (fst <$> map_to_list (fs_global s)) ≡ₚ elements (dom (mem_facts m))) as ->.
  { apply NoDup_Permutation.
    - unfold sort_strings. rewrite merge_sort_Permutation. apply NoDup_fst_map_to_list.
    - apply NoDup_elements.
    - intros name. rewrite elem_of_sort_strings, elem_of_elements, elem_of_dom, list_elem_of_fmap.
      pose proof (readEntryFile_facts s m name Hh) as Hr. unfold readEntryFile in Hr. split.
      + intros ([name' raw] & Hn & Hin%elem_of_map_to_list). simpl in Hn. subst name'. rewrite Hin in Hr.
        destruct (mem_facts m !! name) eqn:E; [done|]. exfalso. revert Hr. unfold parseEntry.
        repeat case_match; congruence.
      + intros [e He]. rewrite He in Hr. destruct (fs_global s !! name) as [raw|] eqn:E; [|done].
        exists (name, raw). split; [done|]. by apply elem_of_map_to_list. }
  assert (forall l : list string, (forall name, name ∈ l -> is_Some (mem_facts m !! name)) ->
    omap f l = omap (fun name => mem_facts m !! name) l) as Hf.
  { intros l Hl. apply list_omap_ext. apply Forall2_same_length_lookup. split; [done|].
    intros i x y Hx Hy. rewrite Hx in Hy. injection Hy as <-. destruct (Hl x) as [e He]; [by eapply list_elem_of_lookup_2|].
    unfold f. rewrite (readEntryFile_facts s m) by done. rewrite He. f_equal. unfold named.
    apply (ho_names _ _ Hh) in He as (Hv & Hn & _). rewrite Hn. by destruct x. }
  rewrite Hf by (intros name; by rewrite elem_of_elements, elem_of_dom).
  clear. revert m. intros [m l]. simpl. clear l. induction m as [|k e m Hk IH] using map_ind.
  - by rewrite dom_empty_L, elements_empty, map_to_list_empty.
  - rewrite dom_insert_L, map_to_list_insert by done. rewrite elements_union_singleton by (by apply not_elem_of_dom).
    simpl. rewrite lookup_insert_eq. constructor. rewrite <- IH.
    assert (forall l : list string, k ∉ l -> omap (fun name => <[k := e]> m !! name) l = omap (fun name => m !! name) l) as ->; [|done|].
    + intros l Hl. apply list_omap_ext. apply Forall2_same_length_lookup. split; [done|]. intros i x y Hx Hy.
      rewrite Hx in Hy. injection Hy as <-. apply lookup_insert_ne. intros ->. apply Hl. by eapply list_elem_of_lookup_2.
    + rewrite elem_of_elements. by apply not_elem_of_dom.
Qed.

(** The notes of a task, without heading and hash. *)
Lemma note_content s m id :
  remembers s m -> TaskNoteContent id s = trim_space (log_body (log_of id m)).
Proof.
  intros Hh. unfold TaskNoteContent.
  assert (log_of id m = [] -> trim_space (log_body (log_of id m)) = "") as Hnil by by intros ->.
  destruct (ValidTaskID id) eqn:Ev; simpl.
  2: { rewrite Hnil; [done|]. destruct (log_of id m) eqn:E; [done|]. assert (log_of id m <> []) as H by by rewrite E.
       apply (ho_ids _ _ Hh) in H. congruence. }
  pose proof (ho_logs _ _ Hh id) as Hl. destruct (fs_tasks s !! id) as [[data mt]|]; simpl in Hl; subst.
  2: { rewrite Hnil; [done|]. destruct (last (log_of id m)) as [[? ?]|] eqn:E; [|by apply last_None in E].
       unfold log_text in Hl. rewrite E in Hl. symmetry in Hl. by apply append_nil in Hl as [[? _]%append_nil _]. }
  unfold log_text. destruct (last (log_of id m)) as [[at_ n]|] eqn:E; [|apply last_None in E; by rewrite E].
  pose proof (split_log id _ at_ n E) as Hs. unfold log_text in Hs. rewrite E in Hs. rewrite Hs. simpl.
  set (B := log_body (log_of id m)).
  assert (blank_text B = false) as HB.
  { subst B. destruct (log_of id m) as [|p l]; [done|]. done. }
  assert (ValidTaskID id = true -> str_has nl ("# Task Memory — " +:+ id) = false) as Hnl
    by (intros Hv; rewrite str_has_app, (task_id_no_nl id Hv); reflexivity).
  assert (trim_space (task_heading id +:+ B) = ("# Task Memory — " +:+ id) +:+ String nl (newline +:+ trim_end B)) as ->.
  { rewrite trim_space_end. change (trim_left (task_heading id +:+ B)) with (task_heading id +:+ B).
    rewrite trim_end_app by done. unfold task_heading. by rewrite <- !append_assoc. }
  rewrite split_on_cons by auto.
  change (has_prefix ("# Task Memory — " +:+ id) "# ") with true. cbv iota.
  change (str_join newline ?l) with (str_join (String nl "") l). rewrite join_split.
  rewrite trim_blank_l by done. apply trim_trim_end.
Qed.
End refinement.
