(* ===== verification/AgentMemoryProps.v ===== *)
(** * Agent memory: what is remembered, shown and forgotten

    The store refines the abstract memory of AgentMemoryFacts; what a prompt
    recalls of it and how long that can be; and what the retention sweep
    deletes. The last part exhibits where the recall and the deduplication of
    notes differ from what the documentation says. *)

From stdpp Require Import base gmap strings list pretty sorting.
From Stdlib Require Import ZArith Ascii.
From S2P Require Import Prelude Text AgentMemory AgentMemoryFacts.

(** ** The text format of entries *)

(** An entry written by the store is read back: nothing is lost but the line
    breaks of the description, the white space around the content and the
    fractions of a second; and writing what was read and reading it again changes
    nothing more. *)
Theorem entry_round_trip {RT : MemoryRuntime} {LAWS : MemoryRuntimeLaws RT} (e : Entry) :
  entry_ok e ->
  parseEntry (renderEntry e) = Ok (as_read e)
  /\ parseEntry (renderEntry (as_read e)) = Ok (as_read e).
Proof.
  intros He. split; [by apply entry_read_back|].
  rewrite entry_read_back by (destruct He; split; simpl; auto using whole_in_years).
  f_equal. unfold as_read. simpl. f_equal.
  - by apply oneLine_twice.
  - apply trim_tight, tight_trim.
  - apply whole_twice.
  - apply whole_twice.
Qed.

(** ** The store remembers what it was told *)

(** No note repeats the one before it. *)
Fixpoint no_repeats {RT : MemoryRuntime} (log : list (Z * Note)) : Prop :=
  match log with
  | p :: ((q :: _) as rest) => digest8 (nt_Content p.2) <> digest8 (nt_Content q.2) /\ no_repeats rest
  | _ => True
  end.

Definition meta_of (e : Entry) : EntryMeta := {|
  em_Name := en_Name e; em_Description := en_Description e; em_Agent := en_Agent e; em_Updated := en_Updated e |}.

Definition no_memory : Memory := {| mem_facts := ∅; mem_logs := ∅ |}.

Section refines.
Context {RT : MemoryRuntime} {LAWS : MemoryRuntimeLaws RT} `{!Sorter by_name}.

Lemma log_append_no_repeats at_ n log : no_repeats log -> no_repeats (log_append at_ n log).
Proof.
  unfold log_append. destruct (last log) as [[at' n']|] eqn:El; [|done].
  case_bool_decide as Hd; [done|]. induction log as [|p [|q log] IH]; [done|..].
  - simpl in El. injection El as ->. simpl. intros _. split; [congruence|done].
  - intros [H1 H2]. split; [done|]. by apply IH.
Qed.

Lemma spec_no_repeats limit ops m :
  (forall id, no_repeats (log_of id m)) -> forall id, no_repeats (log_of id (spec_ops limit ops m)).
Proof.
  revert m. induction ops as [|o ops IH]; intros m H; [done|]. apply IH. intros id.
  destruct o as [now e|name|now id' n|id'|]; simpl.
  - destruct (_ && _); apply H.
  - apply H.
  - destruct (_ && _); [|apply H]. unfold log_of. simpl. destruct (decide (id' = id)) as [<-|Hne].
    + rewrite lookup_insert_eq. apply log_append_no_repeats, H.
    + rewrite lookup_insert_ne by done. apply H.
  - unfold log_of. simpl. destruct (decide (id' = id)) as [<-|Hne]; [by rewrite lookup_delete_eq|].
    rewrite lookup_delete_ne by done. apply H.
  - apply H.
Qed.

(** C10: The files refine the abstract memory: whatever was upserted, deleted,
    appended and forgotten, reading a name gives the fact last written under it
    with the time it was first written, the list and the index are those facts in
    the order of their names, and the notes of a task are those appended since it
    was last forgotten, without immediate repetitions. *)
Theorem memory_refines (max : Z) (ops : list mem_op) :
  Forall op_ok ops ->
  let s := run_mems ops (new_store max) in
  let m := spec_ops (maxEntryBytes (new_store max)) ops no_memory in
  (forall name, Read name s = if ValidSlug name
                              then match mem_facts m !! name with Some e => Ok e | None => Err ENotFound end
                              else Err EInvalidName)
  /\ (exists es, es ≡ₚ (map_to_list (mem_facts m)).*2 /\ StronglySorted by_name es
        /\ List s = meta_of <$> es /\ fs_index s = render_index es)
  /\ (forall id, TaskNoteContent id s = trim_space (log_body (log_of id m)) /\ no_repeats (log_of id m)).
Proof.
  intros Hops. cbv zeta. pose proof (holds_run ops _ _ (holds_new max) Hops) as Hh.
  fold no_memory in Hh. split_and!.
  - intros name. unfold Read. destruct (ValidSlug name); [|done]. by apply readEntryFile_facts.
  - eexists. split; [by apply readAllEntries_facts|]. split_and!; [apply sort_by_sorted|done|].
    exact (f_equal AgentMemory.fs_index (eq_sym (ho_index _ _ Hh))).
  - intros id. split; [by apply note_content|]. by apply spec_no_repeats.
Qed.
End refines.

(** ** Recall *)

Section recall.
Context {RT : MemoryRuntime} `{!Sorter by_name}.

Definition meta_line (m : EntryMeta) : string := index_line (em_Name m) (em_Description m).

Definition index_text (metas : list EntryMeta) : string := foldr (fun m out => meta_line m +:+ out) "" metas.

(** The text with the lines of [metas] appended fits. *)
Definition index_fits (budget : Z) (out : string) (metas : list EntryMeta) : Prop :=
  (Z.of_nat (String.length (out +:+ index_text metas)) <= budget)%Z.

Lemma index_loop_spec budget metas : forall out,
  let '(text, shown) := index_loop budget out metas in
  shown <= length metas /\ text = out +:+ index_text (take shown metas)
  /\ (shown = 0 \/ index_fits budget out (take shown metas))
  /\ (shown < length metas -> ~ index_fits budget out (take (S shown) metas)).
Proof.
  induction metas as [|m metas IH]; intros out; cbn [index_loop].
  { split_and!; simpl; try lia. by rewrite append_empty. }
  fold (meta_line m). destruct (Z.ltb_spec budget (Z.of_nat (String.length out + String.length (meta_line m)))) as [Hlt|Hle].
  - split_and!; simpl; [lia|by rewrite append_empty|by left|]. intros _. unfold index_fits. simpl.
    rewrite append_empty, str_length_app. lia.
  - specialize (IH (out +:+ meta_line m)). destruct (index_loop budget (out +:+ meta_line m) metas) as [text shown].
    destruct IH as (Hs & -> & Hf & Hn). unfold index_fits in *. simpl.
    split_and!; [lia|by rewrite <- append_assoc| |].
    + right. destruct Hf as [->|Hf]; [|by rewrite <- append_assoc in Hf].
      simpl. rewrite append_empty, str_length_app. lia.
    + intros H. rewrite append_assoc. apply Hn. lia.
Qed.

Lemma render_fits_spec budget blocks keep :
  keep <= length blocks ->
  match drop_ancestors budget keep blocks with
  | Some out => exists j, 1 <= j <= keep /\ out = render_blocks (take j blocks) /\ fits budget out = true
                  /\ forall i, j < i <= keep -> fits budget (render_blocks (take i blocks)) = false
  | None => forall i, 1 <= i <= keep -> fits budget (render_blocks (take i blocks)) = false
  end.
Proof.
  induction keep as [|k IH]; intros Hk; cbn [drop_ancestors]; [intros i Hi; lia|].
  destruct (fits budget _) eqn:Ef; [exists (S k); split_and!; try done; lia|].
  specialize (IH ltac:(lia)). destruct (drop_ancestors budget k blocks) as [out|].
  - destruct IH as (j & Hj & Ho & Hf & Hn). exists j. split_and!; try done; [lia..|].
    intros i Hi. destruct (decide (i = S k)) as [->|]; [done|]. apply Hn. lia.
  - intros i Hi. destruct (decide (i = S k)) as [->|]; [done|]. apply IH. lia.
Qed.

Definition tail_block (id : string) (lines : list string) (j : nat) : string :=
  render_blocks [(id, str_join newline (drop j lines))].

Lemma drop_lines_spec budget id lines :
  let out := drop_lines budget id lines in
  (out = "" /\ forall j, 1 <= j < length lines -> fits budget (tail_block id lines j) = false)
  \/ exists j, 1 <= j < length lines /\ out = tail_block id lines j /\ fits budget out = true
       /\ forall i, 1 <= i < j -> fits budget (tail_block id lines i) = false.
Proof.
  induction lines as [|l [|l' lines] IH]; cbv zeta in *.
  - left. split; [done|simpl; lia].
  - left. split; [done|simpl; lia].
  - change (drop_lines budget id (l :: l' :: lines)) with
      (if fits budget (tail_block id (l :: l' :: lines) 1) then tail_block id (l :: l' :: lines) 1
       else drop_lines budget id (l' :: lines)).
    destruct (fits budget (tail_block id (l :: l' :: lines) 1)) eqn:Ef.
    + right. exists 1. split_and!; [simpl; lia..|done|done|lia].
    + destruct IH as [[-> Hn]|(j & Hj & Ho & Hf & Hn)].
      * left. split; [done|]. intros [|[|j]] Hj; [lia|done|]. apply (Hn (S j)). simpl in *. lia.
      * right. exists (S j). simpl in Hj. split_and!; [simpl; lia..|done|done|].
        intros [|[|i]] Hi; [lia|done|]. apply (Hn (S i)). lia.
Qed.

(** A prompt shows as much of the memory as fits its budget: the index shows
    the longest prefix of the facts whose lines fit, with the number of those left
    out; the notes shown are those of the longest prefix of the lineage that fits,
    and when not even the nearest task fits, its most recent lines. *)
Theorem recall_maximal (taskIDs : list string) (budget : Z) (s : Store) :
  (List s <> [] -> exists k, k <= length (List s)
     /\ renderGlobalIndex budget s = recall_header +:+ index_text (take k (List s))
          +:+ (if (k <? length (List s))%nat then more_line (length (List s) - k) else "")
     /\ (k = 0 \/ index_fits budget recall_header (take k (List s)))
     /\ (k < length (List s) -> ~ index_fits budget recall_header (take (S k) (List s))))
  /\ (forall id notes rest, task_blocks taskIDs s = (id, notes) :: rest ->
        (exists j, 1 <= j /\ renderTaskNotes taskIDs budget s = render_blocks (take j ((id, notes) :: rest))
           /\ fits budget (renderTaskNotes taskIDs budget s) = true
           /\ forall i, j < i <= length ((id, notes) :: rest) ->
                fits budget (render_blocks (take i ((id, notes) :: rest))) = false)
        \/ (forall i, 1 <= i <= length ((id, notes) :: rest) ->
              fits budget (render_blocks (take i ((id, notes) :: rest))) = false)
           /\ let lines := split_on nl notes in
              (renderTaskNotes taskIDs budget s = ""
               /\ forall j, 1 <= j < length lines -> fits budget (tail_block id lines j) = false)
              \/ exists j, 1 <= j < length lines /\ renderTaskNotes taskIDs budget s = tail_block id lines j
                   /\ fits budget (renderTaskNotes taskIDs budget s) = true
                   /\ forall i, 1 <= i < j -> fits budget (tail_block id lines i) = false).
Proof.
  split.
  - unfold renderGlobalIndex. destruct (List s) as [|m metas]; [done|]. intros _.
    pose proof (index_loop_spec budget (m :: metas) recall_header) as Hl.
    destruct (index_loop budget recall_header (m :: metas)) as [text shown]. destruct Hl as (Hs & -> & Hf & Hn).
    exists shown. split_and!; try done. destruct (_ <? _)%nat; [by rewrite <- append_assoc|by rewrite append_empty].
  - intros id notes rest Hb. unfold renderTaskNotes. rewrite Hb.
    pose proof (render_fits_spec budget ((id, notes) :: rest) _ (le_n _)) as Hr.
    destruct (drop_ancestors _ _ _) as [out|].
    + left. destruct Hr as (j & Hj & -> & Hf & Hn). exists j. split_and!; [lia|done..].
    + right. split; [done|]. apply drop_lines_spec.
Qed.

Lemma task_notes_fit taskIDs budget s :
  (0 <= budget)%Z -> (Z.of_nat (String.length (renderTaskNotes taskIDs budget s)) <= budget)%Z.
Proof.
  intros Hb. unfold renderTaskNotes. destruct (task_blocks taskIDs s) as [|[id notes] rest]; [simpl; lia|].
  pose proof (render_fits_spec budget ((id, notes) :: rest) _ (le_n _)) as Hr.
  destruct (drop_ancestors _ _ _) as [out|]; [destruct Hr as (_ & _ & _ & Hf & _); by apply Z.leb_le in Hf|].
  destruct (drop_lines_spec budget id (split_on nl notes)) as [[-> _]|(_ & _ & _ & Hf & _)]; [simpl; lia|].
  by apply Z.leb_le in Hf.
Qed.

Lemma global_index_length budget s :
  exists k, k <= length (List s) /\ (Z.of_nat (String.length (renderGlobalIndex budget s))
    <= Z.max (Z.of_nat (String.length recall_header)) budget + Z.of_nat (String.length (more_line k)))%Z.
Proof.
  unfold renderGlobalIndex. destruct (List s) as [|m metas]; [exists 0; split; simpl; lia|].
  pose proof (index_loop_spec budget (m :: metas) recall_header) as Hl.
  destruct (index_loop budget recall_header (m :: metas)) as [text shown]. destruct Hl as (Hs & -> & Hf & _).
  exists (length (m :: metas) - shown). split; [lia|].
  assert (Z.of_nat (String.length (recall_header +:+ index_text (take shown (m :: metas))))
    <= Z.max (Z.of_nat (String.length recall_header)) budget)%Z as H.
  { destruct Hf as [->|Hf]; [change (index_text (take 0 (m :: metas))) with ""; rewrite append_empty; lia|].
    unfold index_fits in Hf. lia. }
  destruct (_ <? _)%nat; [rewrite str_length_app|]; lia.
Qed.

(** Lengths, without computing that of the header. *)
Ltac short := first [lia | change (Z.of_nat (String.length "")) with 0%Z; lia].

(** How long a recall can be. Notes alone never exceed the budget. With the
    index, the sections together exceed it by at most one byte, the line break
    between them, unless the fixed header or the line that counts the entries left
    out is what does not fit the half of the budget meant for the index. *)
Theorem recall_bounded (taskIDs tiers : list string) (budget : Z) (s : Store) :
  (0 < budget)%Z ->
  (str_in TierGlobal tiers = false -> Z.of_nat (String.length (RenderRecall taskIDs tiers budget s)) <= budget)%Z
  /\ exists k, k <= length (List s)
       /\ (Z.of_nat (String.length (RenderRecall taskIDs tiers budget s))
             <= Z.max (budget + 1) (Z.max (Z.of_nat (String.length recall_header)) (budget `quot` 2)
                                    + Z.of_nat (String.length (more_line k))))%Z.
Proof.
  intros Hb. unfold RenderRecall. rewrite (proj2 (Z.leb_gt budget 0)) by done.
  destruct (str_in TierGlobal tiers); split; try done.
  - destruct (global_index_length (budget `quot` 2) s) as (k & Hk & Hg). exists k. split; [done|].
    set (g := renderGlobalIndex (budget `quot` 2) s) in *.
    destruct (str_in TierTask tiers); cbn [andb]; [|change (is_empty "") with true; destruct (is_empty g); short].
    destruct (Z.ltb_spec 0 (budget - Z.of_nat (String.length g))) as [Hr|Hr].
    + pose proof (task_notes_fit taskIDs _ s (Z.lt_le_incl _ _ Hr)) as Ht.
      destruct (is_empty g); [lia|]. destruct (is_empty _); [lia|].
      rewrite !str_length_app. change (String.length newline) with 1. lia.
    + change (is_empty "") with true. destruct (is_empty g); short.
  - intros _. change (Z.of_nat (String.length "")) with 0%Z. rewrite Z.sub_0_r. rewrite (proj2 (Z.ltb_lt 0 budget)) by done.
    change (is_empty "") with true. cbv iota. destruct (str_in TierTask tiers); cbn [andb]; [|short]. apply task_notes_fit. lia.
  - exists 0. split; [lia|]. change (Z.of_nat (String.length "")) with 0%Z. rewrite Z.sub_0_r. rewrite (proj2 (Z.ltb_lt 0 budget)) by done.
    change (is_empty "") with true. cbv iota. destruct (str_in TierTask tiers); cbn [andb]; [|short].
    pose proof (task_notes_fit taskIDs budget s ltac:(lia)). lia.
Qed.
End recall.

(** ** Retention *)

(** [levels] generations below [id]. *)
Inductive descends (children : ChildLister) : nat -> string -> string -> Prop :=
  | descends_self id : descends children 0 id id
  | descends_child n id cs c d :
      children id = Some cs -> c ∈ cs -> descends children n c.1 d -> descends children (S n) id d.

(** [d] has a child that is not settled, or cannot be asked. *)
Definition unsettled (children : ChildLister) (d : string) : Prop :=
  children d = None \/ exists cs c, children d = Some cs /\ c ∈ cs /\ c.2 = false.

Lemma has_live_spec children levels id :
  has_live levels children id = true <-> exists n d, n < levels /\ descends children n id d /\ unsettled children d.
Proof.
  revert id. induction levels as [|levels IH]; intros id; simpl; [split; [done|intros (n & d & H & _); lia]|].
  destruct (children id) as [cs|] eqn:Ec.
  - rewrite existsb_elem. setoid_rewrite orb_true_iff. setoid_rewrite IH. setoid_rewrite negb_true_iff. split.
    + intros (c & Hc & [Hl|(n & d & Hn & Hd & Hu)]).
      * exists 0, id. split_and!; [lia|constructor|]. right. by exists cs, c.
      * exists (S n), d. split_and!; [lia|by econstructor|done].
    + intros (n & d & Hn & Hd & Hu). destruct Hd as [id|n id cs' c d Hc Hin Hd].
      * destruct Hu as [Hu|(cs' & c & Hc & Hin & Hl)]; [congruence|]. rewrite Ec in Hc. injection Hc as <-.
        exists c. split; [done|]. by left.
      * rewrite Ec in Hc. injection Hc as <-. exists c. split; [done|]. right. exists n, d. split_and!; [lia|done|done].
  - split; [|done]. intros _. exists 0, id. split_and!; [lia|constructor|by left].
Qed.

Section retention.
Context (now retention : Z) (getTask : string -> option TaskInfo) (children : ChildLister).

Definition doomed (note : string * Z) : bool :=
  ValidTaskID note.1 && prune_one (now - retention) getTask children note.

Definition sweep : Store * nat -> string * Z -> Store * nat := fun '(s, n) note =>
  if prune_one (now - retention) getTask children note then
    match DeleteTaskNotes note.1 s with
    | Ok s' => (s', S n)
    | Err _ => (s, n)
    end
  else (s, n).

Lemma sweep_spec notes s n :
  foldl sweep (s, n) notes
  = (set_notes (foldl (fun t note => if doomed note then delete note.1 t else t) (fs_tasks s) notes) s,
     n + length (List.filter doomed notes)).
Proof.
  revert s n. induction notes as [|note notes IH]; intros s n; simpl.
  { rewrite Nat.add_0_r. by destruct s. }
  assert (doomed note = ValidTaskID note.1 && prune_one (now - retention) getTask children note) as Hd by done.
  unfold DeleteTaskNotes.
  destruct (prune_one _ _ _ note), (ValidTaskID note.1); simpl in Hd |- *; rewrite Hd, IH; try done.
  f_equal. simpl. lia.
Qed.

Lemma sweep_tasks notes (t : gmap string (string * Z)) id :
  NoDup notes.*1 ->
  foldl (fun t note => if doomed note then delete note.1 t else t) t notes !! id
  = match List.find (fun note => bool_decide (note.1 = id)) notes with
    | Some note => if doomed note then None else t !! id
    | None => t !! id
    end.
Proof.
  revert t. induction notes as [|note notes IH]; intros t Hnd; [done|]. simpl.
  apply NoDup_cons in Hnd as [Hnew Hnd]. rewrite IH by done. case_bool_decide as Hid.
  - subst id. assert (List.find (fun note' => bool_decide (note'.1 = note.1)) notes = None) as ->.
    { apply find_None. intros n' Hn'. apply bool_decide_eq_false. intros E. apply Hnew. rewrite <- E.
      apply list_elem_of_fmap. by exists n'. }
    destruct (doomed note); [apply lookup_delete_eq|done].
  - destruct (List.find _ notes) as [n'|]; [destruct (doomed n'); [done|]|];
      (destruct (doomed note); [by rewrite lookup_delete_ne|done]).
Qed.

Lemma sweep_size notes (t : gmap string (string * Z)) :
  NoDup notes.*1 -> (forall note, note ∈ notes -> is_Some (t !! note.1)) ->
  length (List.filter doomed notes) + size (foldl (fun t note => if doomed note then delete note.1 t else t) t notes)
  = size t.
Proof.
  revert t. induction notes as [|note notes IH]; intros t Hnd Hin; [done|]. apply NoDup_cons in Hnd as [Hnew Hnd].
  simpl. destruct (doomed note); [|apply IH; [done|]; intros n' Hn'; apply Hin; by right].
  destruct (Hin note (list_elem_of_here _ _)) as [f Hf].
  rewrite <- (insert_delete_id t note.1 f Hf) at 2. rewrite map_size_insert, lookup_delete_eq.
  rewrite <- (IH (delete note.1 t)); [done|done|]. intros n' Hn'. rewrite lookup_delete_ne; [apply Hin; by right|].
  intros E. apply Hnew. rewrite E. apply list_elem_of_fmap. by exists n'.
Qed.

Lemma doomed_spec id mtime :
  doomed (id, mtime) = true <->
  ValidTaskID id = true
  /\ match getTask id with
     | None => (mtime < now - retention)%Z
     | Some task => ti_terminal task = true /\ (ti_UpdatedAt task <= now - retention)%Z
         /\ ~ exists g d, g < 33 /\ descends children g id d /\ unsettled children d
     end.
Proof.
  unfold doomed, prune_one. simpl. rewrite andb_true_iff. destruct (getTask id) as [task|]; [|by rewrite Z.ltb_lt].
  rewrite !andb_true_iff, !negb_true_iff, Z.ltb_ge, <- not_true_iff_false.
  unfold hasLiveDescendant. rewrite has_live_spec. tauto.
Qed.

(** The retention sweep deletes a notes file exactly when its name is a task
    id and the task has been settled since before the cut-off with nothing
    unsettled among 33 generations of descendants, or is unknown and the file is
    older than the cut-off; it counts what it deletes and leaves everything else
    alone. *)
Theorem prune_exact (s : Store) :
  let '(s', n) := pruneTaskMemoryOnce now retention getTask children s in
  let deleted id mtime :=
    ValidTaskID id = true
    /\ match getTask id with
       | None => (mtime < now - retention)%Z
       | Some task => ti_terminal task = true /\ (ti_UpdatedAt task <= now - retention)%Z
           /\ ~ exists g d, g < 33 /\ descends children g id d /\ unsettled children d
       end in
  fs_global s' = fs_global s /\ fs_index s' = fs_index s
  /\ (forall id text mtime, fs_tasks s !! id = Some (text, mtime) ->
        (deleted id mtime /\ fs_tasks s' !! id = None) \/ (~ deleted id mtime /\ fs_tasks s' !! id = Some (text, mtime)))
  /\ (forall id, fs_tasks s !! id = None -> fs_tasks s' !! id = None)
  /\ n + size (fs_tasks s') = size (fs_tasks s).
Proof.
  unfold pruneTaskMemoryOnce. change (foldl _ (s, 0) _) with (foldl sweep (s, 0) (ListTaskNotes s)).
  rewrite sweep_spec. cbv zeta. set (t' := foldl _ _ _). simpl.
  assert (NoDup (ListTaskNotes s).*1) as Hnd.
  { unfold ListTaskNotes. rewrite <- list_fmap_compose. apply NoDup_fst_map_to_list. }
  assert (forall id, List.find (fun note => bool_decide (note.1 = id)) (ListTaskNotes s)
    = (fun f => (id, f.2)) <$> fs_tasks s !! id) as Hfind.
  { intros id. destruct (List.find _ _) as [[id' mtime]|] eqn:Ef.
    - apply List.find_some in Ef as [Hn Hb]. apply bool_decide_eq_true in Hb. simpl in Hb. subst id'.
      apply list_elem_of_In, list_elem_of_fmap in Hn as ([id' [text mt]] & [= -> ->] & Hl%elem_of_map_to_list).
      simpl in Hl. by rewrite Hl.
    - destruct (fs_tasks s !! id) as [[text mt]|] eqn:El; [|done]. exfalso.
      rewrite find_None in Ef. specialize (Ef (id, mt)). rewrite bool_decide_true in Ef by done.
      apply elem_of_map_to_list in El. discriminate Ef. apply list_elem_of_fmap. by exists (id, (text, mt)). }
  assert (forall id, t' !! id = match fs_tasks s !! id with
    | Some f => if doomed (id, f.2) then None else Some f | None => None end) as Ht.
  { intros id. subst t'. rewrite sweep_tasks, Hfind by done. by destruct (fs_tasks s !! id). }
  split_and!; [done|done|..].
  - intros id text mtime Hl. rewrite Ht, Hl. cbn [snd]. destruct (doomed (id, mtime)) eqn:Ed; [left|right]; (split; [|done]).
    + by apply doomed_spec.
    + rewrite <- doomed_spec. congruence.
  - intros id Hl. by rewrite Ht, Hl.
  - apply sweep_size; [done|]. intros note Hn. apply list_elem_of_fmap in Hn as ([id f] & -> & Hl%elem_of_map_to_list).
    by exists f.
Qed.
End retention.

(** ** A runtime to run the store with *)

(** Times as the bits of the seconds since year 1, hashes as the bytes in hex. *)
Fixpoint bits (p : positive) : string :=
  match p with
  | xH => "."
  | xO p => String "0" (bits p)
  | xI p => String "1" (bits p)
  end.

Fixpoint read_bits (s : string) : option positive :=
  match s with
  | String "." "" => Some xH
  | String "0" s => xO <$> read_bits s
  | String "1" s => xI <$> read_bits s
  | _ => None
  end.

Definition nibble (n : N) : ascii := ascii_of_N (if (n <? 10)%N then 48 + n else 87 + n).

Fixpoint hex (s : string) : string :=
  match s with
  | EmptyString => "0"
  | String c s => let n := N_of_ascii c in String (nibble (n / 16)) (String (nibble (n `mod` 16)) (hex s))
  end.

Definition bit_runtime : MemoryRuntime := {|
  format_time := fun t => bits (Z.to_pos ((t - zero_time) `div` 10 ^ 9 + 1));
  parse_time := fun s => (fun p => (Z.pos p - 1) * 10 ^ 9 + zero_time)%Z <$> read_bits s;
  digest8 := hex |}.

#[local] Existing Instance bit_runtime.

Lemma bits_solid p : solid (bits p) = true /\ str_has nl (bits p) = false /\ bits p <> "".
Proof. induction p as [p (H1 & H2 & _)|p (H1 & H2 & _)|]; simpl; by rewrite ?H1, ?H2. Qed.

Lemma read_bits_bits p : read_bits (bits p) = Some p.
Proof. induction p as [p IH|p IH|]; simpl; by rewrite ?IH. Qed.

Lemma nibble_hex n : (n < 16)%N -> hex_digit (nibble n) = true.
Proof.
  intros H. assert (forallb (fun k => hex_digit (nibble (N.of_nat k))) (seq 0 16) = true) as Hall by by vm_compute.
  rewrite forallb_forall in Hall. rewrite <- (N2Nat.id n). apply Hall, in_seq. lia.
Qed.

#[global] Instance bit_laws : MemoryRuntimeLaws bit_runtime.
Proof.
  split; simpl.
  - intros t _. destruct (bits_solid (Z.to_pos ((t - zero_time) `div` 10 ^ 9 + 1))) as (H1 & H2 & H3).
    split; [split; [done|by apply solid_tight]|done].
  - intros t [Hlo _]. rewrite read_bits_bits. simpl. f_equal. unfold whole_seconds.
    assert (0 <= (t - zero_time) `div` 10 ^ 9)%Z by (apply Z.div_pos; lia). rewrite Z2Pos.id by lia.
    pose proof (Z.div_mod (t - zero_time) (10 ^ 9) ltac:(done)) as Hd.
    assert ((t - zero_time) `mod` 10 ^ 9 = t `mod` 10 ^ 9)%Z as Hm.
    { replace (t - zero_time)%Z with (t + 62135596800 * 10 ^ 9)%Z by (unfold zero_time; lia). by apply Z.mod_add. }
    lia.
  - intros s. induction s as [|c s [IH _]]; [done|]. split; [|done]. cbn [hex all_bytes].
    pose proof (N_ascii_bounded c). rewrite IH, !nibble_hex; [done| |].
    + apply N.mod_lt. done.
    + apply N.Div0.div_lt_upper_bound. lia.
Qed.

#[local] Instance name_sorter : Sorter by_name.
Proof.
  apply merge_sorter.
  - intros a b c. unfold by_name. apply transitivity.
  - intros a b. unfold by_name. apply total, _.
  - intros a b. unfold by_name. apply _.
Defined.

(** ** Findings *)

Definition noon : Z := (1750000000 * 10 ^ 9)%Z.

Definition request_note (content : string) : MemorizeRequest := {|
  mq_Scope := ""; mq_Name := ""; mq_Description := ""; mq_Content := content |}.

Definition request_fact (name description : string) : MemorizeRequest := {|
  mq_Scope := "global"; mq_Name := name; mq_Description := description; mq_Content := "See the runbook." |}.

Definition memorized (taskID : string) (reqs : list MemorizeRequest) (s : Store) : Store :=
  @memorizeStep bit_runtime _ noon noon taskID "step" "dev" "wf" reqs s.

Definition fresh : Store := @new_store bit_runtime _ 0.

(** The documentation says that a retry which emits the same content again is
    deduplicated. Only the last note is compared: a step that emits two notes
    writes both again each time it is retried. *)
Lemma retried_notes_pile_up :
  let once := memorized "t1" [request_note "found it"; request_note "fixed it"] fresh in
  let twice := memorized "t1" [request_note "found it"; request_note "fixed it"] once in
  let one := memorized "t1" [request_note "found it"] fresh in
  memorized "t1" [request_note "found it"] one = one
  /\ length (split_on nl (TaskNoteContent "t1" once)) = 2
  /\ length (split_on nl (TaskNoteContent "t1" twice)) = 4.
Proof. vm_compute. split_and!; reflexivity. Qed.

(** The blocks of a recall are those of the tasks that have notes, and the first
    one is shown without a label: when the task itself has none, the notes of its
    parent are shown as its own. *)
Lemma parent_notes_unlabelled :
  let s := memorized "parent" [request_note "use the staging database"] fresh in
  lineage "child" ["parent"; "child"] = ["child"; "parent"]
  /\ RenderRecall ["child"; "parent"] ["task"] 4000 s = RenderRecall ["parent"] ["task"] 4000 s
  /\ str_contains (RenderRecall ["child"; "parent"] ["task"] 4000 s) "from parent task" = false.
Proof. vm_compute. split_and!; reflexivity. Qed.

(** The budget is said to cap both sections together: with a budget of 150 bytes
    the header of the index alone is more than twice that; and the line break
    between the sections is counted by neither. *)
Lemma recall_over_budget :
  let s := memorized "t1" [request_fact "ci-time" "CI takes twelve minutes"; request_note (str_join "" (repeat "note " 120))] fresh in
  let index := renderGlobalIndex 1000 s in
  let notes := renderTaskNotes ["t1"] 4000 s in
  let budget := (Z.of_nat (String.length index) + Z.of_nat (String.length notes))%Z in
  (300 < Z.of_nat (String.length (RenderRecall ["t1"] ["task"; "global"] 150 s)))%Z
  /\ Z.of_nat (String.length (RenderRecall ["t1"] ["task"; "global"] budget s)) = (budget + 1)%Z.
Proof. vm_compute. split; reflexivity. Qed.

(** ** Witnesses *)

Definition ci_fact : Entry := {|
  en_Name := "ci-time"; en_Description := "CI takes   twelve minutes"; en_Content := "Since the move to ARM." +:+ newline;
  en_Agent := "dev"; en_Task := "t1"; en_Workflow := "wf"; en_Created := zero_time; en_Updated := noon |}.

Lemma in_years_noon : in_years noon.
Proof. split; [discriminate|reflexivity]. Qed.

Lemma in_years_zero : in_years zero_time.
Proof. split; [discriminate|reflexivity]. Qed.

Lemma entry_round_trip_witness :
  @parseEntry bit_runtime (@renderEntry bit_runtime ci_fact) = Ok (as_read ci_fact)
  /\ en_Description (as_read ci_fact) = "CI takes twelve minutes".
Proof.
  split; [|reflexivity]. apply (@entry_round_trip bit_runtime bit_laws ci_fact).
  split; [repeat split..|exact in_years_zero|exact in_years_noon].
Defined.

Definition story : list mem_op :=
  [OUpsert noon ci_fact;
   OAppend noon "t1" {| nt_Content := "found it"; nt_Agent := "dev"; nt_Workflow := "wf"; nt_Step := "s"; nt_At := noon |};
   OAppend noon "t1" {| nt_Content := "found it"; nt_Agent := "dev"; nt_Workflow := "wf"; nt_Step := "s"; nt_At := noon |};
   OForget "t2"; ODelete "absent"; ORebuild].

Lemma memory_refines_witness :
  length (log_of "t1" (@spec_ops bit_runtime 16384 story no_memory)) = 1
  /\ Read "ci-time" (@run_mems bit_runtime name_sorter story fresh)
     = match mem_facts (@spec_ops bit_runtime 16384 story no_memory) !! "ci-time" with
       | Some e => Ok e | None => Err ENotFound end.
Proof.
  split; [vm_compute; reflexivity|].
  destruct (@memory_refines bit_runtime bit_laws name_sorter 0 story) as [H _].
  - repeat apply Forall_cons_2; try done; repeat split; discriminate || reflexivity.
  - exact (H "ci-time").
Defined.

Lemma recall_bounded_witness :
  exists k, k <= length (@List bit_runtime name_sorter (memorized "t1" [request_fact "ci-time" "CI takes long"] fresh))
    /\ (Z.of_nat (String.length (@RenderRecall bit_runtime name_sorter ["t1"] ["task"; "global"] 4000
          (memorized "t1" [request_fact "ci-time" "CI takes long"] fresh)))
        <= Z.max 4001 (Z.max (Z.of_nat (String.length recall_header)) 2000 + Z.of_nat (String.length (more_line k))))%Z.
Proof.
  apply (@recall_bounded bit_runtime name_sorter ["t1"] ["task"; "global"] 4000
    (memorized "t1" [request_fact "ci-time" "CI takes long"] fresh)). lia.
Defined.

Lemma recall_maximal_witness :
  let s := memorized "t1" [request_fact "ci-time" "CI takes long"; request_fact "db-port" "the port is 5433"] fresh in
  length (@List bit_runtime name_sorter s) = 2
  /\ exists k, k <= 2 /\ @renderGlobalIndex bit_runtime name_sorter 460 s
       = recall_header +:+ index_text (take k (@List bit_runtime name_sorter s))
         +:+ (if (k <? 2)%nat then more_line (2 - k) else "").
Proof.
  cbv zeta. split; [vm_compute; reflexivity|].
  destruct (@recall_maximal bit_runtime name_sorter [] 460
    (memorized "t1" [request_fact "ci-time" "CI takes long"; request_fact "db-port" "the port is 5433"] fresh)) as [H _].
  destruct H as (k & Hk & Ht & _); [vm_compute; discriminate|]. exists k. split; [exact Hk|exact Ht].
Defined.

Lemma prune_exact_witness :
  let s := memorized "t1" [request_note "found it"] fresh in
  let '(s', n) := pruneTaskMemoryOnce (noon + 10) 5 (fun _ => None) (fun _ => Some []) s in
  n = 1 /\ n + size (fs_tasks s') = size (fs_tasks s).
Proof.
  cbv zeta. pose proof (prune_exact (noon + 10) 5 (fun _ => None) (fun _ => Some [])
    (memorized "t1" [request_note "found it"] fresh)) as H.
  destruct (pruneTaskMemoryOnce (noon + 10) 5 (fun _ => None) (fun _ => Some [])
    (memorized "t1" [request_note "found it"] fresh)) as [s' n] eqn:E.
  destruct H as (_ & _ & _ & _ & Hs). split; [|exact Hs].
  vm_compute in E. injection E as _ <-. reflexivity.
Defined.
