(* ===== verification/Spawner.v ===== *)
(** * Spawned tasks (src/internal/workflow/spawner.go, engine.go [spawnStep])

    A step may ask for child tasks. The spawner creates each child at most once
    per parent and key, launches its workflow on a goroutine and lets the step
    wait for the outcome. Spawns run concurrently: the model steps through their
    statements and critical sections, so every interleaving is a path. Reads of
    the store are taken to succeed; an insert fails only on its constraints. *)

From stdpp Require Import base gmap strings list.
From Stdlib Require Import ZArith Ascii.
From S2P Require Import Prelude Model State.

(** [crypto/sha256] and [encoding/hex]. *)
Class SpawnRuntime := { sha256_hex : string -> string }.

Record SpawnRequest := {
  sq_ParentTaskID : string;
  sq_WorkflowID : string;
  sq_Title : string;
  sq_Input : JValue;                  (* [JNull] when absent *)
  sq_Key : string;
  sq_Labels : list string;
  sq_Body : string;
}.

(** A row of internal_tasks, the columns a spawn writes and reads; an absent
    parent is "". *)
Record Child := {
  ct_ID : string;
  ct_Parent : string;
  ct_Key : string;
  ct_Title : string;
  ct_Description : string;
  ct_Input : JValue;
  ct_Labels : list string;
  ct_State : string;
}.

(** [FindChildByDedupKey]. *)
Definition FindChildByDedupKey (parent key : string) (rows : list Child) : option Child :=
  if is_empty key || is_empty parent then None
  else List.find (fun c => bool_decide (ct_Parent c = parent) && bool_decide (ct_Key c = key)) rows.

(** [CreateTask]: the primary key, and the unique index on parent and key, which
    leaves out empty keys and, as SQL does, absent parents. *)
Definition CreateTask (c : Child) (rows : list Child) : option (list Child) :=
  if str_in (ct_ID c) (ct_ID <$> rows) then None
  else match FindChildByDedupKey (ct_Parent c) (ct_Key c) rows with
  | Some _ => None
  | None => Some (rows ++ [c])
  end.

(** [spawnHandle]: the handle of a run launched here, with its outcome once it
    ended, or the one [trackExisting] closes at once for a child it found. *)
Inductive Handle :=
  | HRun (child : string) (outcome : option bool)
  | HSeen (child : Child).

Definition handle_child (h : Handle) : string :=
  match h with HRun id _ => id | HSeen c => ct_ID c end.

(** What [Await] reads: nothing while the channel is open. *)
Definition handle_outcome (h : Handle) : option bool :=
  match h with HRun _ o => o | HSeen c => Some (bool_decide (ct_State c = state.Done)) end.

(** How far a caller of [Spawn], and then of [Await], is. *)
Inductive SpawnPhase :=
  | SStart
  | SFind
  | SCreate
  | SFindAgain
  | STrack (c : Child)
  | SRegister (c : Child)
  | SReturned (c : Child)
  | SWaiting (c : Child) (h : nat)
  | SAwaited (c : Child) (success : bool)
  | SUntracked (c : Child)
  | SFailed (message : string).

Record Spawn := {
  sp_req : SpawnRequest;
  sp_id : string;                     (* what newID gives it *)
  sp_await : bool;
  sp_phase : SpawnPhase;
}.

Definition to_phase (p : SpawnPhase) (t : Spawn) : Spawn :=
  {| sp_req := sp_req t; sp_id := sp_id t; sp_await := sp_await t; sp_phase := p |}.

Record SpawnWorld := {
  sw_rows : list Child;
  sw_handles : list Handle;
  sw_running : gmap string nat;       (* child id to its handle *)
}.

Section spawner.
Context {RT : GoRuntime} {SR : SpawnRuntime} (resolve : string -> bool).

(** [spawnDedupKey]. *)
Definition spawnDedupKey (req : SpawnRequest) : string :=
  let k := trim_space (sq_Key req) in
  if negb (is_empty k) then k
  else
    let sep := String "031"%char "" in
    "auto:" +:+ sha256_hex (sq_WorkflowID req +:+ sep +:+ sq_Title req +:+ sep +:+ default "" (json_marshal (sq_Input req))).

Definition new_child (t : Spawn) : Child := {|
  ct_ID := sp_id t; ct_Parent := sq_ParentTaskID (sp_req t); ct_Key := spawnDedupKey (sp_req t);
  ct_Title := sq_Title (sp_req t); ct_Description := sq_Body (sp_req t); ct_Input := sq_Input (sp_req t);
  ct_Labels := sq_Labels (sp_req t); ct_State := state.Queued |}.

Definition find_existing (t : Spawn) (rows : list Child) : option Child :=
  FindChildByDedupKey (sq_ParentTaskID (sp_req t)) (spawnDedupKey (sp_req t)) rows.

(** [trackExisting]. *)
Definition trackExisting (c : Child) (w : SpawnWorld) : SpawnWorld :=
  match sw_running w !! ct_ID c with
  | Some _ => w
  | None => {| sw_rows := sw_rows w; sw_handles := sw_handles w ++ [HSeen c];
               sw_running := <[ct_ID c := length (sw_handles w)]> (sw_running w) |}
  end.

(** The handle of a new run, and the goroutine. *)
Definition register (c : Child) (w : SpawnWorld) : SpawnWorld := {|
  sw_rows := sw_rows w; sw_handles := sw_handles w ++ [HRun (ct_ID c) None];
  sw_running := <[ct_ID c := length (sw_handles w)]> (sw_running w) |}.

(** The next step of a caller: [Spawn] to its return, then [Await] when the step
    asks for it and the request names a workflow. *)
Definition spawn_step (t : Spawn) (w : SpawnWorld) : option (Spawn * SpawnWorld) :=
  let named := negb (is_empty (sq_WorkflowID (sp_req t))) in
  match sp_phase t with
  | SStart =>
      Some (to_phase (if named && negb (resolve (sq_WorkflowID (sp_req t))) then SFailed "workflow not found" else SFind) t, w)
  | SFind => Some (to_phase (match find_existing t (sw_rows w) with Some c => STrack c | None => SCreate end) t, w)
  | SCreate =>
      match CreateTask (new_child t) (sw_rows w) with
      | Some rows => Some (to_phase (if named then SRegister (new_child t) else SReturned (new_child t)) t,
                           {| sw_rows := rows; sw_handles := sw_handles w; sw_running := sw_running w |})
      | None => Some (to_phase SFindAgain t, w)
      end
  | SFindAgain =>
      Some (to_phase (match find_existing t (sw_rows w) with
                      | Some c => STrack c
                      | None => SFailed "create spawned task"
                      end) t, w)
  | STrack c => Some (to_phase (SReturned c) t, trackExisting c w)
  | SRegister c => Some (to_phase (SReturned c) t, register c w)
  | SReturned c =>
      if sp_await t && named then
        Some (to_phase (match sw_running w !! ct_ID c with Some h => SWaiting c h | None => SUntracked c end) t, w)
      else None
  | SWaiting c h => (fun b => (to_phase (SAwaited c b) t, w)) <$> (sw_handles w !! h ≫= handle_outcome)
  | SAwaited _ _ | SUntracked _ | SFailed _ => None
  end.

(** A run ends, closing its handle; meanwhile the state of a child may change. *)
Definition end_run (h : nat) (success : bool) (w : SpawnWorld) : option SpawnWorld :=
  match sw_handles w !! h with
  | Some (HRun id None) =>
      Some {| sw_rows := sw_rows w; sw_handles := <[h := HRun id (Some success)]> (sw_handles w);
              sw_running := sw_running w |}
  | _ => None
  end.

Definition set_child_state (id st : string) (w : SpawnWorld) : SpawnWorld := {|
  sw_rows := (fun c => if bool_decide (ct_ID c = id)
                       then {| ct_ID := ct_ID c; ct_Parent := ct_Parent c; ct_Key := ct_Key c; ct_Title := ct_Title c;
                               ct_Description := ct_Description c; ct_Input := ct_Input c; ct_Labels := ct_Labels c;
                               ct_State := st |}
                       else c) <$> sw_rows w;
  sw_handles := sw_handles w; sw_running := sw_running w |}.

Definition System : Type := SpawnWorld * list Spawn.

Inductive spawner_step : System -> System -> Prop :=
  | PSpawn w ts i t t' w' : ts !! i = Some t -> spawn_step t w = Some (t', w') ->
      spawner_step (w, ts) (w', <[i := t']> ts)
  | PEndRun w ts h b w' : end_run h b w = Some w' -> spawner_step (w, ts) (w', ts)
  | PState w ts id st : spawner_step (w, ts) (set_child_state id st w, ts).

Definition spawner_reachable : relation System := rtc spawner_step.

(** A process that starts with the rows of earlier ones, and the calls to come. *)
Definition starts (rows : list Child) (ts : list Spawn) : Prop :=
  NoDup (ct_ID <$> rows)
  /\ (forall c1 c2, c1 ∈ rows -> c2 ∈ rows -> ct_Parent c1 = ct_Parent c2 -> ct_Key c1 = ct_Key c2 ->
        ct_Parent c1 <> "" -> ct_Key c1 <> "" -> ct_ID c1 = ct_ID c2)
  /\ NoDup (sp_id <$> ts) /\ (forall t, t ∈ ts -> sp_phase t = SStart /\ sp_id t ∉ (ct_ID <$> rows)).

Definition fresh_world (rows : list Child) : SpawnWorld := {| sw_rows := rows; sw_handles := []; sw_running := ∅ |}.
End spawner.

(** ** The step that spawns

    [spawnStep] over a state [S] of the world outside: [spawn] and [await] are
    those of the spawner, the others are the source side effects. *)

Section spawn_step.
Context {S : Type}.
Context (spawn : SpawnRequest -> S -> result string Child * S) (await : string -> S -> result string bool * S).
Context (bound : string -> S -> bool) (publish : Child -> S -> result string unit * S).

(** [materializeChild]: [side] is whether side effects are configured,
    [anchored] whether the parent has a binding. *)
Definition materializeChild (side anchored : bool) (c : Child) (s : S) : result string unit * S :=
  if negb side then (Err "no side effects configured", s)
  else if negb anchored then (Ok tt, s)
  else if bound (ct_ID c) s then (Ok tt, s)
  else publish c s.

(** What the loop carries: the child recorded on the step run and the errors. *)
Record SpawnAcc := { sa_spawned : string; sa_errs : list string }.

Definition add_err (e : string) (a : SpawnAcc) : SpawnAcc :=
  {| sa_spawned := sa_spawned a; sa_errs := sa_errs a ++ [e] |}.

Definition with_parent (taskID : string) (req : SpawnRequest) : SpawnRequest := {|
  sq_ParentTaskID := taskID; sq_WorkflowID := sq_WorkflowID req; sq_Title := sq_Title req; sq_Input := sq_Input req;
  sq_Key := sq_Key req; sq_Labels := sq_Labels req; sq_Body := sq_Body req |}.

(** One iteration. *)
Definition spawn_one (taskID : string) (side anchored subIssue awaits : bool) (acc : SpawnAcc * S) (req : SpawnRequest)
    : SpawnAcc * S :=
  let '(a, s) := acc in
  match spawn (with_parent taskID req) s with
  | (Err e, s) => (add_err e a, s)
  | (Ok c, s) =>
      let a := if is_empty (sa_spawned a) then {| sa_spawned := ct_ID c; sa_errs := sa_errs a |} else a in
      let '(m, s) := if subIssue then materializeChild side anchored c s else (Ok tt, s) in
      match m with
      | Err e => (add_err e a, s)
      | Ok _ =>
          if awaits && negb (is_empty (sq_WorkflowID req)) then
            match await (ct_ID c) s with
            | (Err e, s) => (add_err e a, s)
            | (Ok true, s) => (a, s)
            | (Ok false, s) => (add_err "spawned task failed" a, s)
            end
          else (a, s)
      end
  end.

(** [spawnStep] of a step that succeeded: whether it still does, the child
    recorded on its run, and the world after. *)
Definition spawnStep (taskID : string) (hasSpawner side anchored subIssue awaits : bool) (reqs : list SpawnRequest)
    (recorded : string) (s : S) : bool * string * S :=
  match reqs with
  | [] => (true, recorded, s)
  | _ =>
      if negb hasSpawner then (false, recorded, s)
      else
        let '(a, s) := foldl (spawn_one taskID side anchored subIssue awaits)
                         ({| sa_spawned := recorded; sa_errs := [] |}, s) reqs in
        (bool_decide (sa_errs a = []), sa_spawned a, s)
  end.
End spawn_step.
