(* ===== verification/SpawnerProps.v ===== *)
(** * Spawned tasks: one child per key, one run per child

    The invariant of the spawner under every interleaving of its callers, the
    runs they launched and the writers of the children's states; the theorems it
    gives; and the two ways in which a child is spawned but its workflow is not
    what the step waits for. *)

From stdpp Require Import base gmap strings list relations.
From Stdlib Require Import ZArith.
From S2P Require Import Prelude Model State Spawner.

Section invariant.
Context {RT : GoRuntime} {SR : SpawnRuntime} (resolve : string -> bool) (rows0 : list Child).

Definition ids (w : SpawnWorld) : list string := ct_ID <$> sw_rows w.

Definition run_children (hs : list Handle) : list string :=
  omap (fun h => match h with HRun id _ => Some id | HSeen _ => None end) hs.

Definition named_request (t : Spawn) : bool := negb (is_empty (sq_WorkflowID (sp_req t))).

(** The row [c] stands for is there, under the parent and the key of the request. *)
Definition row_for (w : SpawnWorld) (t : Spawn) (c : Child) : Prop :=
  exists r, r ∈ sw_rows w /\ ct_ID r = ct_ID c
    /\ ct_Parent r = sq_ParentTaskID (sp_req t) /\ ct_Key r = spawnDedupKey (sp_req t).

Definition unique_keys (rows : list Child) : Prop :=
  forall c1 c2, c1 ∈ rows -> c2 ∈ rows -> ct_Parent c1 = ct_Parent c2 -> ct_Key c1 = ct_Key c2 ->
    ct_Parent c1 <> "" -> ct_Key c1 <> "" -> ct_ID c1 = ct_ID c2.

Definition thread_ok (w : SpawnWorld) (t : Spawn) : Prop :=
  sp_id t ∉ (ct_ID <$> rows0) /\
  match sp_phase t with
  | SStart | SFind | SCreate | SFindAgain => sp_id t ∉ ids w
  | STrack c => sp_id t ∉ ids w /\ row_for w t c
  | SRegister c => ct_ID c = sp_id t /\ row_for w t c /\ sp_id t ∉ run_children (sw_handles w)
  | SReturned c => row_for w t c /\ (named_request t = true -> is_Some (sw_running w !! ct_ID c))
  | SWaiting c h => row_for w t c /\ exists hd, sw_handles w !! h = Some hd /\ handle_child hd = ct_ID c
  | SAwaited c b => row_for w t c /\ exists hd, hd ∈ sw_handles w /\ handle_child hd = ct_ID c /\ handle_outcome hd = Some b
  | SUntracked _ => False
  | SFailed _ => True
  end.

Record world_ok (w : SpawnWorld) : Prop := {
  wo_ids : NoDup (ids w);
  wo_keys : unique_keys (sw_rows w);
  wo_runs : NoDup (run_children (sw_handles w));
  wo_known : forall id, id ∈ run_children (sw_handles w) -> id ∈ ids w;
  wo_new : forall id, id ∈ run_children (sw_handles w) -> id ∉ (ct_ID <$> rows0);
  wo_running : forall id h, sw_running w !! id = Some h ->
    exists hd, sw_handles w !! h = Some hd /\ handle_child hd = id;
}.

Definition spawner_ok (s : System) : Prop :=
  world_ok s.1 /\ NoDup (sp_id <$> s.2) /\ forall t, t ∈ s.2 -> thread_ok s.1 t.

(** ** What the steps keep *)

Record grows (w w' : SpawnWorld) : Prop := {
  gr_rows : forall r, r ∈ sw_rows w -> exists r', r' ∈ sw_rows w' /\ ct_ID r' = ct_ID r
    /\ ct_Parent r' = ct_Parent r /\ ct_Key r' = ct_Key r;
  gr_running : forall id, is_Some (sw_running w !! id) -> is_Some (sw_running w' !! id);
  gr_handles : forall h hd, sw_handles w !! h = Some hd -> exists hd', sw_handles w' !! h = Some hd'
    /\ handle_child hd' = handle_child hd /\ forall b, handle_outcome hd = Some b -> handle_outcome hd' = Some b;
}.

Lemma grows_refl w : grows w w.
Proof. split; naive_solver. Qed.

Lemma row_for_grows w w' t c : grows w w' -> row_for w t c -> row_for w' t c.
Proof.
  intros Hg (r & Hr & H1 & H2 & H3). destruct (gr_rows _ _ Hg r Hr) as (r' & Hr' & E1 & E2 & E3).
  exists r'. split_and!; congruence.
Qed.

(** Another caller's part is not disturbed. *)
Lemma thread_grows w w' t :
  grows w w' -> (sp_id t ∈ ids w' -> sp_id t ∈ ids w) ->
  (sp_id t ∈ run_children (sw_handles w') -> sp_id t ∈ run_children (sw_handles w)) ->
  thread_ok w t -> thread_ok w' t.
Proof.
  intros Hg Hids Hruns [Hold H]. split; [done|]. pose proof (row_for_grows w w' t) as Hrow.
  destruct (sp_phase t) as [| | | |c|c|c|c h|c b|c|m]; try (by intros Hin%Hids); try done.
  - destruct H as [H1 H2]. split; [by intros Hin%Hids|auto].
  - destruct H as (H1 & H2 & H3). split_and!; [done|auto|by intros Hin%Hruns].
  - destruct H as [H1 H2]. split; [auto|]. intros Hn. by apply (gr_running _ _ Hg), H2.
  - destruct H as (H1 & hd & H2 & H3). split; [auto|]. destruct (gr_handles _ _ Hg h hd H2) as (hd' & E1 & E2 & _).
    exists hd'. split; [done|congruence].
  - destruct H as (H1 & hd & H2 & H3 & H4). split; [auto|].
    apply list_elem_of_lookup_1 in H2 as [h Hh]. destruct (gr_handles _ _ Hg h hd Hh) as (hd' & E1 & E2 & E3).
    exists hd'. split_and!; [by eapply list_elem_of_lookup_2|congruence|auto].
Qed.

(** One caller moves, and the world with it. *)
Lemma caller_step_ok w ts i t p w' :
  spawner_ok (w, ts) -> ts !! i = Some t -> world_ok w' -> grows w w' ->
  (forall t2, t2 ∈ ts -> sp_id t2 <> sp_id t -> sp_id t2 ∈ ids w' -> sp_id t2 ∈ ids w) ->
  (forall t2, t2 ∈ ts -> sp_id t2 <> sp_id t -> sp_id t2 ∈ run_children (sw_handles w') ->
     sp_id t2 ∈ run_children (sw_handles w)) ->
  thread_ok w' (to_phase p t) -> spawner_ok (w', <[i := to_phase p t]> ts).
Proof.
  intros (Hw & Hnd & Hts) Hi Hw' Hg Hids Hruns Ht. split_and!; [done|..]; simpl in *.
  - rewrite list_fmap_insert. simpl. by rewrite list_insert_id by (by rewrite list_lookup_fmap, Hi).
  - intros t2 Hin. apply list_elem_of_lookup_1 in Hin as [j Hj].
    destruct (decide (i = j)) as [<-|Hne].
    + rewrite list_lookup_insert_eq in Hj by (by eapply lookup_lt_Some). by injection Hj as <-.
    + rewrite list_lookup_insert_ne in Hj by done.
      assert (t2 ∈ ts) as Hin by (by eapply list_elem_of_lookup_2).
      assert (sp_id t2 <> sp_id t) as Hdiff.
      { intros E. apply Hne. eapply (NoDup_lookup _ _ _ (sp_id t)); [exact Hnd|by rewrite list_lookup_fmap, Hi|].
        by rewrite list_lookup_fmap, Hj, <- E. }
      apply (thread_grows w); auto.
Qed.

(** A step that leaves the world alone. *)
Lemma step_pure w ts i t p :
  spawner_ok (w, ts) -> ts !! i = Some t -> thread_ok w (to_phase p t) -> spawner_ok (w, <[i := to_phase p t]> ts).
Proof. intros Hok Hi Ht. eapply caller_step_ok; eauto using grows_refl. apply Hok. Qed.

(** ** The steps *)

Lemma key_nonempty req : spawnDedupKey req <> "".
Proof.
  unfold spawnDedupKey. destruct (is_empty (trim_space (sq_Key req))) eqn:E; simpl; [done|]. by apply is_empty_false.
Qed.

Lemma find_child parent key rows c :
  FindChildByDedupKey parent key rows = Some c -> c ∈ rows /\ ct_Parent c = parent /\ ct_Key c = key.
Proof.
  unfold FindChildByDedupKey. destruct (_ || _); [done|]. intros [Hc Hb]%List.find_some.
  apply andb_true_iff in Hb as [H1%bool_decide_eq_true H2%bool_decide_eq_true].
  split; [by apply list_elem_of_In|done].
Qed.

Lemma find_child_none parent key rows c :
  FindChildByDedupKey parent key rows = None -> parent <> "" -> key <> "" -> c ∈ rows ->
  ct_Parent c = parent -> ct_Key c = key -> False.
Proof.
  unfold FindChildByDedupKey. intros H Hp Hk Hc E1 E2.
  rewrite (proj2 (is_empty_false parent)), (proj2 (is_empty_false key)) in H by done. simpl in H.
  rewrite find_None in H. specialize (H c Hc). by rewrite !bool_decide_true in H.
Qed.

Lemma create_grows c w rows :
  CreateTask c (sw_rows w) = Some rows ->
  let w' := {| sw_rows := rows; sw_handles := sw_handles w; sw_running := sw_running w |} in
  world_ok w -> world_ok w' /\ grows w w' /\ rows = sw_rows w ++ [c] /\ ct_ID c ∉ ids w.
Proof.
  unfold CreateTask, str_in. case_bool_decide as Hid; [done|].
  destruct (FindChildByDedupKey _ _ _) eqn:Ef; [done|]. intros [= <-]. cbv zeta. intros [].
  split_and!; try done.
  - split; simpl; try done; unfold ids; simpl; rewrite ?fmap_app.
    + apply NoDup_app. split_and!; [done| |apply NoDup_singleton]. intros id Hin ->%list_elem_of_singleton. done.
    + intros c1 c2 H1 H2 Hp Hk Hpn Hkn. apply elem_of_app in H1, H2.
      destruct H1 as [H1| ->%list_elem_of_singleton], H2 as [H2| ->%list_elem_of_singleton]; [by apply wo_keys0|..|done].
      * exfalso. eapply (find_child_none _ _ _ c1 Ef); congruence.
      * exfalso. eapply (find_child_none _ _ _ c2 Ef); congruence.
    + intros id Hin%wo_known0. apply elem_of_app. by left.
  - split; simpl; try naive_solver. intros r Hr. exists r. split; [|done]. apply elem_of_app. by left.
Qed.

Lemma run_children_app a b : run_children (a ++ b) = run_children a ++ run_children b.
Proof. apply omap_app. Qed.

Lemma push_grows w hd :
  world_ok w -> (forall id o, hd = HRun id o -> id ∈ ids w /\ id ∉ (ct_ID <$> rows0) /\ id ∉ run_children (sw_handles w)) ->
  let w' := {| sw_rows := sw_rows w; sw_handles := sw_handles w ++ [hd];
               sw_running := <[handle_child hd := length (sw_handles w)]> (sw_running w) |} in
  world_ok w' /\ grows w w'.
Proof.
  intros [] Hrun. cbv zeta. split.
  - split; simpl; try done.
    + rewrite run_children_app. apply NoDup_app. destruct hd as [id o|c]; simpl; [|split_and!; [done|set_solver|constructor]].
      destruct (Hrun id o eq_refl) as (_ & _ & Hnew). split_and!; [done| |apply NoDup_singleton].
      intros x Hx ->%list_elem_of_singleton. done.
    + intros id. rewrite run_children_app, elem_of_app. intros [Hin|Hin]; [by apply wo_known0|].
      destruct hd as [id' o|c]; simpl in Hin; [|by apply elem_of_nil in Hin]. apply list_elem_of_singleton in Hin as ->.
      by destruct (Hrun id' o eq_refl) as (? & _ & _).
    + intros id. rewrite run_children_app, elem_of_app. intros [Hin|Hin]; [by apply wo_new0|].
      destruct hd as [id' o|c]; simpl in Hin; [|by apply elem_of_nil in Hin]. apply list_elem_of_singleton in Hin as ->.
      by destruct (Hrun id' o eq_refl) as (_ & ? & _).
    + intros id h. rewrite lookup_insert_Some. intros [[<- <-]|[_ Hl]].
      * exists hd. split; [|done]. by rewrite lookup_app_r, Nat.sub_diag by done.
      * destruct (wo_running0 id h Hl) as (hd' & H1 & H2). exists hd'. split; [|done].
        rewrite lookup_app_l; [done|by eapply lookup_lt_Some].
  - split; simpl; [naive_solver|..].
    + intros id Hs. rewrite lookup_insert_is_Some. destruct (decide (handle_child hd = id)); auto.
    + intros h hd' Hl. exists hd'. split; [|done]. rewrite lookup_app_l; [done|by eapply lookup_lt_Some].
Qed.

Lemma ids_of_row w c r : r ∈ sw_rows w -> ct_ID r = ct_ID c -> ct_ID c ∈ ids w.
Proof. intros Hr <-. apply list_elem_of_fmap. by exists r. Qed.

Lemma found_row w t c :
  find_existing t (sw_rows w) = Some c -> row_for w t c.
Proof. intros (Hc & H1 & H2)%find_child. by exists c. Qed.

Lemma spawn_step_ok w ts i t t' w' :
  spawner_ok (w, ts) -> ts !! i = Some t -> spawn_step resolve t w = Some (t', w') ->
  spawner_ok (w', <[i := t']> ts).
Proof.
  intros Hok Hi Hs. assert (t ∈ ts) as Hin by (by eapply list_elem_of_lookup_2).
  destruct Hok as (Hw & Hnd & Hts). pose proof (Hts t Hin) as [Hold Ht]. simpl in *.
  assert (spawner_ok (w, ts)) as Hok by done. unfold spawn_step in Hs. fold (named_request t) in Hs.
  destruct (sp_phase t) as [| | | |c|c|c|c h|c b|c|m] eqn:Ep; simpl in Hs; try discriminate Hs.
  - injection Hs as <- <-. apply step_pure; [done|done|]. by destruct (_ && _).
  - injection Hs as <- <-. apply step_pure; [done|done|]. split; [done|].
    destruct (find_existing t (sw_rows w)) as [c|] eqn:Ef; simpl; [|done]. split; [done|by apply found_row].
  - destruct (CreateTask _ _) as [rows|] eqn:Ec; injection Hs as <- <-; [|by apply step_pure].
    destruct (create_grows _ _ _ Ec Hw) as (Hw' & Hg & -> & Hnew).
    eapply caller_step_ok; try done.
    + intros t2 _ Hne. unfold ids. simpl. rewrite fmap_app, elem_of_app. intros [?|E%list_elem_of_singleton]; [done|].
      by destruct Hne.
    + split; [done|].
      assert (row_for {| sw_rows := sw_rows w ++ [new_child t]; sw_handles := sw_handles w; sw_running := sw_running w |}
        (to_phase SStart t) (new_child t)) as Hrow
        by (exists (new_child t); split; [apply elem_of_app; right; by apply list_elem_of_singleton|done]).
      destruct (named_request t) eqn:En; simpl; [split_and!; [done|done|]|split; [done|]].
      * intros Hrun%(wo_known _ Hw). done.
      * change (named_request t = true -> is_Some (sw_running w !! sp_id t)). by rewrite En.
  - injection Hs as <- <-. apply step_pure; [done|done|]. split; [done|].
    destruct (find_existing t (sw_rows w)) as [c|] eqn:Ef; simpl; [|done]. split; [done|by apply found_row].
  - injection Hs as <- <-. destruct Ht as [Hfresh Hrow]. unfold trackExisting.
    destruct (sw_running w !! ct_ID c) as [h|] eqn:Er.
    + apply step_pure; [done|done|]. split; [done|]. simpl. split; [done|]. intros _. by exists h.
    + destruct (push_grows w (HSeen c) Hw) as [Hw' Hg]; [done|].
      eapply caller_step_ok; try done.
      * intros t2 _ _. simpl. by rewrite run_children_app, app_nil_r.
      * split; [done|]. simpl. split; [done|]. intros _. rewrite lookup_insert_eq. by eexists.
  - injection Hs as <- <-. destruct Ht as (Hid & Hrow & Hnorun). unfold register.
    destruct (push_grows w (HRun (ct_ID c) None) Hw) as [Hw' Hg].
    { intros id o [= <- <-]. rewrite Hid. split_and!; [|done|done]. destruct Hrow as (r & Hr & E & _).
      rewrite <- Hid. by eapply ids_of_row. }
    eapply caller_step_ok; try done.
    + intros t2 _ Hne. simpl. rewrite run_children_app, elem_of_app. intros [?|E%list_elem_of_singleton]; [done|].
      by rewrite Hid in E.
    + split; [done|]. simpl. split; [done|]. intros _. rewrite lookup_insert_eq. by eexists.
  - destruct Ht as [Hrow Hrun]. destruct (sp_await t && named_request t) eqn:Ea; [|done].
    apply andb_true_iff in Ea as [_ En]. injection Hs as <- <-. apply step_pure; [done|done|]. split; [done|].
    destruct (Hrun En) as [h Hh]. rewrite Hh. simpl. split; [done|]. exact (wo_running _ Hw _ _ Hh).
  - destruct Ht as (Hrow & hd & Hh & Hc). rewrite Hh in Hs. simpl in Hs.
    destruct (handle_outcome hd) as [b|] eqn:Eo; [|done]. simpl in Hs. injection Hs as <- <-.
    apply step_pure; [done|done|]. split; [done|]. simpl. split; [done|]. exists hd.
    split_and!; [by eapply list_elem_of_lookup_2|done..].
Qed.

Lemma end_run_ok w ts h b w' : spawner_ok (w, ts) -> end_run h b w = Some w' -> spawner_ok (w', ts).
Proof.
  intros (Hw & Hnd & Hts) He. unfold end_run in He. simpl in *.
  destruct (sw_handles w !! h) as [[id [o|]|c]|] eqn:Eh; try discriminate He. injection He as <-.
  assert (run_children (<[h := HRun id (Some b)]> (sw_handles w)) = run_children (sw_handles w)) as Hrc.
  { clear -Eh. revert h Eh. induction (sw_handles w) as [|hd l IH]; intros [|h] E; simpl in *; try done;
      [by injection E as ->|]. by rewrite IH. }
  assert (forall k hd, <[h := HRun id (Some b)]> (sw_handles w) !! k = Some hd ->
    exists hd0, sw_handles w !! k = Some hd0 /\ handle_child hd0 = handle_child hd) as Hsame.
  { intros k hd. destruct (decide (h = k)) as [<-|Hne].
    - rewrite list_lookup_insert_eq by (by eapply lookup_lt_Some). intros [= <-]. by eexists.
    - rewrite list_lookup_insert_ne by done. eauto. }
  assert (grows w {| sw_rows := sw_rows w; sw_handles := <[h := HRun id (Some b)]> (sw_handles w); sw_running := sw_running w |}) as Hg.
  { split; simpl; [naive_solver|done|]. intros k hd Hk. destruct (decide (h = k)) as [<-|Hne].
    - rewrite list_lookup_insert_eq by (by eapply lookup_lt_Some). rewrite Eh in Hk. injection Hk as <-.
      eexists. split; [done|]. split; [done|]. intros b'. simpl. discriminate.
    - rewrite list_lookup_insert_ne by done. eauto. }
  split_and!; [|done|]; simpl.
  - destruct Hw. split; simpl; rewrite ?Hrc; try done. intros id' k Hl.
    destruct (wo_running0 id' k Hl) as (hd & H1 & H2). destruct (gr_handles _ _ Hg k hd H1) as (hd' & E1 & E2 & _).
    exists hd'. split; [done|congruence].
  - intros t Ht. apply (thread_grows w); auto. simpl. by rewrite Hrc.
Qed.

Lemma state_ok w ts id st : spawner_ok (w, ts) -> spawner_ok (set_child_state id st w, ts).
Proof.
  intros (Hw & Hnd & Hts). simpl in *.
  set (f := fun c => if bool_decide (ct_ID c = id)
    then {| ct_ID := ct_ID c; ct_Parent := ct_Parent c; ct_Key := ct_Key c; ct_Title := ct_Title c;
            ct_Description := ct_Description c; ct_Input := ct_Input c; ct_Labels := ct_Labels c; ct_State := st |}
    else c).
  assert (forall c, ct_ID (f c) = ct_ID c /\ ct_Parent (f c) = ct_Parent c /\ ct_Key (f c) = ct_Key c) as Hf
    by (intros c; unfold f; by destruct (bool_decide _)).
  assert (ids (set_child_state id st w) = ids w) as Hids.
  { unfold ids. simpl. rewrite <- list_fmap_compose. apply list_fmap_ext. intros _ c _. apply Hf. }
  assert (grows w (set_child_state id st w)) as Hg.
  { split; simpl; [|naive_solver..]. intros r Hr. exists (f r). split; [|apply Hf]. by apply list_elem_of_fmap_2. }
  split_and!; [|done|]; simpl.
  - destruct Hw. split; rewrite ?Hids; try done.
    assert (forall c, c ∈ sw_rows (set_child_state id st w) -> exists x, c = f x /\ x ∈ sw_rows w) as Hback
      by (intros c Hc; by apply list_elem_of_fmap in Hc).
    intros c1 c2 (x1 & -> & H1)%Hback (x2 & -> & H2)%Hback.
    destruct (Hf x1) as (-> & -> & ->), (Hf x2) as (-> & -> & ->). by apply wo_keys0.
  - intros t Ht. apply (thread_grows w); auto. by rewrite Hids.
Qed.

(** The invariant holds in every reachable world. *)
Lemma reachable_ok ts w ts' :
  starts rows0 ts -> spawner_reachable resolve (fresh_world rows0, ts) (w, ts') -> spawner_ok (w, ts').
Proof.
  intros (Hnd & Hk & Hid & Hts) Hr.
  assert (spawner_ok (fresh_world rows0, ts)) as Hok.
  { split_and!; simpl; [|done|].
    - split; simpl; try done; [constructor|..]; intros id H; by apply elem_of_nil in H.
    - intros t Ht. destruct (Hts t Ht) as [Hp Hn]. split; [done|]. by rewrite Hp. }
  revert Hok. generalize dependent (fresh_world rows0, ts). generalize (w, ts'). clear.
  intros s' s Hr Hok. induction Hr as [s|s s1 s2 Hstep _ IH]; [done|]. apply IH. destruct Hstep.
  - by eapply spawn_step_ok.
  - by eapply end_run_ok.
  - by apply state_ok.
Qed.
End invariant.

(** ** What the spawner promises *)

(** The child a call of [Spawn] returned. *)
Definition spawned (t : Spawn) : option Child :=
  match sp_phase t with
  | SReturned c | SWaiting c _ | SAwaited c _ | SUntracked c => Some c
  | _ => None
  end.

Lemma spawned_row {RT : GoRuntime} {SR : SpawnRuntime} rows0 w t c :
  thread_ok rows0 w t -> spawned t = Some c -> row_for w t c.
Proof. intros [_ H]. unfold spawned. destruct (sp_phase t); intros [= ->]; tauto. Qed.

(** C11: Whatever the interleaving, all calls that ask a parent for the same key
    get the same child, there is never a second row for it, and its workflow is
    launched at most once; the children of earlier processes are never launched
    again. *)
Theorem spawn_once {RT : GoRuntime} {SR : SpawnRuntime} (resolve : string -> bool) (rows : list Child)
    (ts : list Spawn) (w : SpawnWorld) (ts' : list Spawn) :
  starts rows ts -> spawner_reachable resolve (fresh_world rows, ts) (w, ts') ->
  (forall t1 t2 c1 c2, t1 ∈ ts' -> t2 ∈ ts' -> spawned t1 = Some c1 -> spawned t2 = Some c2 ->
     sq_ParentTaskID (sp_req t1) = sq_ParentTaskID (sp_req t2) -> sq_ParentTaskID (sp_req t1) <> "" ->
     spawnDedupKey (sp_req t1) = spawnDedupKey (sp_req t2) -> ct_ID c1 = ct_ID c2)
  /\ NoDup (ct_ID <$> sw_rows w) /\ unique_keys (sw_rows w)
  /\ NoDup (run_children (sw_handles w))
  /\ (forall id, id ∈ run_children (sw_handles w) -> id ∈ (ct_ID <$> sw_rows w) /\ id ∉ (ct_ID <$> rows)).
Proof.
  intros Hst Hr. destruct (reachable_ok _ _ _ _ _ Hst Hr) as (Hw & _ & Hts). simpl in *. split_and!; try apply Hw.
  - intros t1 t2 c1 c2 H1 H2 Hc1 Hc2 Hp Hne Hk.
    destruct (spawned_row _ _ _ _ (Hts t1 H1) Hc1) as (r1 & Hr1 & E1 & P1 & K1).
    destruct (spawned_row _ _ _ _ (Hts t2 H2) Hc2) as (r2 & Hr2 & E2 & P2 & K2).
    rewrite <- E1, <- E2. apply (wo_keys _ _ Hw); try done; try congruence. rewrite K1. apply key_nonempty.
  - intros id Hid. split; [by apply (wo_known _ _ Hw)|by apply (wo_new _ _ Hw)].
Qed.

(** No caller is stuck and none is misled about a run of its own: a caller
    that cannot move is done or waits for a run that has not ended; a child it was
    given is always tracked; and the outcome it is told is that of the child's
    run, or whether the child was done when it was found. *)
Theorem await_outcome {RT : GoRuntime} {SR : SpawnRuntime} (resolve : string -> bool) (rows : list Child)
    (ts : list Spawn) (w : SpawnWorld) (ts' : list Spawn) (t : Spawn) :
  starts rows ts -> spawner_reachable resolve (fresh_world rows, ts) (w, ts') -> t ∈ ts' ->
  (spawn_step resolve t w = None ->
     (exists c, sp_phase t = SReturned c /\ (sp_await t = false \/ sq_WorkflowID (sp_req t) = ""))
     \/ (exists c b, sp_phase t = SAwaited c b)
     \/ (exists m, sp_phase t = SFailed m)
     \/ (exists c h, sp_phase t = SWaiting c h /\ sw_handles w !! h = Some (HRun (ct_ID c) None)))
  /\ (forall c b, sp_phase t = SAwaited c b ->
        HRun (ct_ID c) (Some b) ∈ sw_handles w
        \/ exists seen, HSeen seen ∈ sw_handles w /\ ct_ID seen = ct_ID c /\ b = bool_decide (ct_State seen = state.Done)).
Proof.
  intros Hst Hr Hin. destruct (reachable_ok _ _ _ _ _ Hst Hr) as (Hw & _ & Hts). simpl in *.
  destruct (Hts t Hin) as [_ Ht]. split.
  - unfold spawn_step. destruct (sp_phase t) as [| | | |c|c|c|c h|c b|c|m]; try done.
    + destruct (CreateTask _ _); done.
    + destruct (sp_await t && negb _) eqn:E; [done|]. intros _. left. exists c. split; [done|].
      apply andb_false_iff in E as [E|E]; [by left|right]. by apply negb_false_iff, is_empty_true in E.
    + destruct Ht as (_ & hd & Hh & Hc). rewrite Hh. simpl. destruct (handle_outcome hd) eqn:Eo; [done|].
      intros _. right; right; right. exists c, h. split; [done|]. rewrite Hh.
      destruct hd as [id [o|]|seen]; simpl in *; try done. by subst.
    + intros _. right; left. by exists c, b.
    + intros _. right; right; left. by exists m.
  - intros c b Hp. rewrite Hp in Ht. destruct Ht as (_ & hd & Hh & Hc & Ho).
    destruct hd as [id o|seen]; simpl in *; subst.
    + left. congruence.
    + right. exists seen. split_and!; [done|done|congruence].
Qed.

(** Rows are never lost. *)
Lemma step_grows {RT : GoRuntime} {SR : SpawnRuntime} resolve s s' :
  spawner_step resolve s s' -> forall r, r ∈ sw_rows s.1 -> exists r', r' ∈ sw_rows s'.1 /\ ct_ID r' = ct_ID r
    /\ ct_Parent r' = ct_Parent r /\ ct_Key r' = ct_Key r.
Proof.
  intros Hs r Hr. destruct Hs as [w ts i t t' w' Hi Hs|w ts h b w' He|w ts id st]; simpl in *.
  - exists r. split; [|done]. unfold spawn_step, CreateTask, trackExisting, register in Hs.
    repeat case_match; simplify_eq; simpl; try done; try (apply elem_of_app; by left).
    by apply fmap_Some in Hs as (b & _ & [= _ ->]).
  - exists r. split; [|done]. unfold end_run in He. by repeat case_match; simplify_eq.
  - eexists. split; [apply list_elem_of_fmap; by exists r|]. by destruct (bool_decide _).
Qed.

Lemma rows_kept {RT : GoRuntime} {SR : SpawnRuntime} resolve s s' :
  spawner_reachable resolve s s' -> forall r, r ∈ sw_rows s.1 -> exists r', r' ∈ sw_rows s'.1 /\ ct_ID r' = ct_ID r
    /\ ct_Parent r' = ct_Parent r /\ ct_Key r' = ct_Key r.
Proof.
  induction 1 as [s|s s1 s2 Hs _ IH]; intros r Hr; [by exists r|].
  destruct (step_grows _ _ _ Hs r Hr) as (r1 & Hr1 & E1 & E2 & E3). destruct (IH r1 Hr1) as (r2 & Hr2 & F1 & F2 & F3).
  exists r2. split_and!; congruence.
Qed.

(** ** The step *)

Section step.
Context {S : Type}.
Context (spawn : SpawnRequest -> S -> result string Child * S) (await : string -> S -> result string bool * S).
Context (bound : string -> S -> bool) (publish : Child -> S -> result string unit * S).
Context (taskID : string) (side anchored subIssue awaits : bool).

(** The worlds the requests are met in: each is spawned, whatever became of the
    others. *)
Fixpoint worlds (reqs : list SpawnRequest) (s : S) : list (SpawnRequest * S) :=
  match reqs with
  | [] => []
  | req :: reqs =>
      (req, s) :: worlds reqs (spawn_one spawn await bound publish taskID side anchored subIssue awaits
                                 ({| sa_spawned := ""; sa_errs := [] |}, s) req).2
  end.

(** What a request needs for the step to succeed. *)
Definition request_ok (req : SpawnRequest) (s : S) : Prop :=
  exists c s1 s2, spawn (with_parent taskID req) s = (Ok c, s1)
    /\ (if subIssue then materializeChild bound publish side anchored c s1 else (Ok tt, s1)) = (Ok tt, s2)
    /\ (awaits = true -> sq_WorkflowID req <> "" -> (await (ct_ID c) s2).1 = Ok true).

Lemma spawn_one_spec a s req :
  let out := spawn_one spawn await bound publish taskID side anchored subIssue awaits (a, s) req in
  out.2 = (spawn_one spawn await bound publish taskID side anchored subIssue awaits
             ({| sa_spawned := ""; sa_errs := [] |}, s) req).2
  /\ (sa_errs out.1 = [] <-> sa_errs a = [] /\ request_ok req s)
  /\ (sa_spawned a <> "" -> sa_spawned out.1 = sa_spawned a).
Proof.
  cbv zeta. unfold spawn_one, request_ok. destruct (spawn (with_parent taskID req) s) as [[c|e] s1] eqn:Es.
  2: { split_and!; [done| |done]. simpl. split; [by intros [_ [=]]%app_eq_nil|]. intros (_ & c & s1' & s2 & [=] & _). }
  assert (forall x, sa_errs (if is_empty (sa_spawned x) then {| sa_spawned := ct_ID c; sa_errs := sa_errs x |} else x) = sa_errs x)
    as Hx by (intros x; by destruct (is_empty _)).
  assert (sa_spawned a <> "" -> sa_spawned (if is_empty (sa_spawned a)
     then {| sa_spawned := ct_ID c; sa_errs := sa_errs a |} else a) = sa_spawned a) as Hsp
    by (intros Hne; by rewrite (proj2 (is_empty_false _) Hne)).
  set (a1 := if is_empty (sa_spawned a) then _ else a) in *.
  assert (sa_errs a1 = sa_errs a) as Ha1 by apply Hx. clearbody a1.
  destruct (if subIssue then _ else _) as [[[]|e] s2] eqn:Em.
  2: { split_and!; [done| |done]. simpl. split; [by intros [_ [=]]%app_eq_nil|].
       intros (_ & c' & s1' & s2' & [= <- <-] & E & _). congruence. }
  destruct (awaits && negb (is_empty (sq_WorkflowID req))) eqn:Ea.
  - apply andb_true_iff in Ea as [-> Hn%negb_true_iff]. apply is_empty_false in Hn.
    destruct (await (ct_ID c) s2) as [[[]|e] s3] eqn:Ew; (split_and!; [done| |done]); simpl; rewrite ?Ha1.
    + split; [|tauto]. intros ->. split; [done|]. exists c, s1, s2. split_and!; [done|done|]. by rewrite Ew.
    + split; [by intros [_ [=]]%app_eq_nil|]. intros (_ & c' & s1' & s2' & [= <- <-] & E & Hw).
      rewrite Em in E. injection E as <-. specialize (Hw eq_refl Hn). by rewrite Ew in Hw.
    + split; [by intros [_ [=]]%app_eq_nil|]. intros (_ & c' & s1' & s2' & [= <- <-] & E & Hw).
      rewrite Em in E. injection E as <-. specialize (Hw eq_refl Hn). by rewrite Ew in Hw.
  - split_and!; [done| |done]. simpl. rewrite Ha1. split; [|tauto]. intros ->. split; [done|].
    exists c, s1, s2. split_and!; [done|done|]. intros ->. simpl in Ea. apply negb_false_iff, is_empty_true in Ea. done.
Qed.

(** Every request of a step is spawned, in order and whatever became of the
    others, and the step succeeds exactly when each was spawned, materialized
    where the step asks for it and, when awaited, successful. *)
Theorem spawnStep_exact (reqs : list SpawnRequest) (recorded : string) (s : S) :
  reqs <> [] ->
  let '(success, _, s') := spawnStep spawn await bound publish taskID true side anchored subIssue awaits reqs recorded s in
  (success = true <-> forall req s0, (req, s0) ∈ worlds reqs s -> request_ok req s0)
  /\ (worlds reqs s).*1 = reqs.
Proof.
  intros Hne. unfold spawnStep. destruct reqs as [|r reqs]; [done|]. clear Hne. simpl negb. cbv iota.
  generalize (r :: reqs). clear r reqs. intros reqs.
  assert (forall a s, let out := foldl (spawn_one spawn await bound publish taskID side anchored subIssue awaits) (a, s) reqs in
    (sa_errs out.1 = [] <-> sa_errs a = [] /\ forall req s0, (req, s0) ∈ worlds reqs s -> request_ok req s0)
    /\ (worlds reqs s).*1 = reqs) as H.
  { induction reqs as [|req reqs IH]; intros a s0; cbv zeta in *.
    { simpl. split; [|done]. split; [|tauto]. intros ->. split; [done|]. by intros ? ? ?%elem_of_nil. }
    cbn [foldl worlds]. destruct (spawn_one_spec a s0 req) as (Hs & He & _).
    destruct (spawn_one _ _ _ _ _ _ _ _ _ (a, s0) req) as [a1 s1]. simpl in Hs, He. subst s1.
    destruct (IH a1 (spawn_one spawn await bound publish taskID side anchored subIssue awaits
      ({| sa_spawned := ""; sa_errs := [] |}, s0) req).2) as [IHe IHw].
    split; [|by rewrite fmap_cons, IHw]. rewrite IHe, He. setoid_rewrite elem_of_cons. naive_solver. }
  specialize (H {| sa_spawned := recorded; sa_errs := [] |} s). cbv zeta in H.
  destruct (foldl _ _ _) as [a s']. simpl in H. destruct H as [H ?].
  rewrite bool_decide_eq_true, H. naive_solver.
Qed.
End step.

(** ** Findings *)

Definition plain_hash : SpawnRuntime := {| sha256_hex := fun s => s |}.

Definition spec_request : SpawnRequest := {|
  sq_ParentTaskID := "epic"; sq_WorkflowID := "build"; sq_Title := "Parser"; sq_Input := JNull; sq_Key := "parser";
  sq_Labels := []; sq_Body := "" |}.

Definition caller (id : string) : Spawn := {| sp_req := spec_request; sp_id := id; sp_await := true; sp_phase := SStart |}.

(** Whose turn it is: a caller, or a run that ends. *)
Inductive turn := TCaller (i : nat) | TEnds (h : nat) (success : bool).

Fixpoint play (turns : list turn) (s : System) : option System :=
  match turns with
  | [] => Some s
  | TCaller i :: turns =>
      '(t', w') ← (t ← s.2 !! i; @spawn_step literal_runtime plain_hash (fun _ => true) t s.1);
      play turns (w', <[i := t']> s.2)
  | TEnds h b :: turns => w' ← end_run h b s.1; play turns (w', s.2)
  end.

Lemma play_reachable turns s s' :
  play turns s = Some s' -> @spawner_reachable literal_runtime plain_hash (fun _ => true) s s'.
Proof.
  revert s. induction turns as [|[i|h b] turns IH]; intros [w ts]; simpl; [intros [= ->]; apply rtc_refl|..].
  - destruct (ts !! i) as [t|] eqn:Hi; [|done]. simpl. destruct (spawn_step _ t w) as [[t' w']|] eqn:Hs; [|done].
    intros H%IH. eapply rtc_l; [by econstructor|done].
  - destruct (end_run h b w) as [w'|] eqn:He; [|done]. intros H%IH. eapply rtc_l; [by econstructor|done].
Qed.

(** The row of a child is there before its handle. A second caller that finds it
    in between registers a closed handle for a child that is not done, and is told
    that the child failed; the run is only launched then, and succeeds. *)
Lemma await_overtakes_launch :
  let turns := [TCaller 0; TCaller 0; TCaller 0; TCaller 1; TCaller 1; TCaller 1; TCaller 1; TCaller 1;
                TCaller 0; TEnds 1 true] in
  exists w t1 t2 c,
    play turns (fresh_world [], [caller "task_1"; caller "task_2"]) = Some (w, [t1; t2])
    /\ sp_phase t2 = SAwaited c false /\ sw_handles w = [HSeen c; HRun (ct_ID c) (Some true)].
Proof. cbv zeta. do 4 eexists. split_and!; vm_compute; reflexivity. Qed.

(** A child whose workflow was not launched before the process ended, or was cut
    off by it, is found by the step that spawns it again: its workflow is never
    run, and a step that awaits it fails. *)
Theorem respawned_child_never_runs {RT : GoRuntime} {SR : SpawnRuntime} (resolve : string -> bool) (rows : list Child)
    (ts : list Spawn) (w : SpawnWorld) (ts' : list Spawn) (t : Spawn) (c orphan : Child) :
  starts rows ts -> spawner_reachable resolve (fresh_world rows, ts) (w, ts') ->
  orphan ∈ rows -> ct_Parent orphan <> "" ->
  t ∈ ts' -> sq_ParentTaskID (sp_req t) = ct_Parent orphan -> spawnDedupKey (sp_req t) = ct_Key orphan ->
  spawned t = Some c -> ct_ID c = ct_ID orphan /\ ct_ID orphan ∉ run_children (sw_handles w).
Proof.
  intros Hst Hr Ho Hne Ht Hp Hk Hc. destruct (reachable_ok _ _ _ _ _ Hst Hr) as (Hw & _ & Hts). simpl in *.
  destruct (rows_kept _ _ _ Hr orphan Ho) as (o & Ho' & E1 & E2 & E3).
  destruct (spawned_row _ _ _ _ (Hts t Ht) Hc) as (r & Hr' & F1 & F2 & F3). split.
  - rewrite <- F1, <- E1. apply (wo_keys _ _ Hw); try done; [congruence..|]. rewrite F3. apply key_nonempty.
  - intros Hrun%(wo_new _ _ Hw). apply Hrun, list_elem_of_fmap. by exists orphan.
Qed.

Definition orphan_row : Child := @new_child literal_runtime plain_hash (caller "task_0").

Lemma respawned_child_never_runs_witness :
  let '(w, ts) := default (fresh_world [], []) (play (repeat (TCaller 0) 5) (fresh_world [orphan_row], [caller "task_1"])) in
  exists t, ts = [t] /\ sp_phase t = SAwaited orphan_row false /\ "task_0" ∉ run_children (sw_handles w).
Proof.
  destruct (play (repeat (TCaller 0) 5) (fresh_world [orphan_row], [caller "task_1"])) as [[w ts]|] eqn:E;
    [|vm_compute in E; discriminate E].
  cbn [default from_option id]. pose proof (play_reachable _ _ _ E) as Hr. vm_compute in E. injection E as <- <-.
  eexists. split; [reflexivity|]. split; [reflexivity|].
  eapply (@respawned_child_never_runs literal_runtime plain_hash (fun _ => true) [orphan_row] [caller "task_1"] _ _ _ orphan_row orphan_row);
    [|exact Hr|apply list_elem_of_here|discriminate|apply list_elem_of_here|reflexivity|reflexivity|reflexivity].
  split_and!.
  - apply (bool_decide_unpack _). vm_compute. exact I.
  - intros c1 c2 H1 H2 _ _ _ _. apply list_elem_of_singleton in H1, H2. by subst.
  - apply (bool_decide_unpack _). vm_compute. exact I.
  - intros t Ht. apply list_elem_of_singleton in Ht as ->. split; [reflexivity|].
    apply (bool_decide_unpack _). vm_compute. exact I.
Defined.

(** ** Witnesses *)

Definition two_callers : list turn :=
  [TCaller 0; TCaller 1; TCaller 0; TCaller 1; TCaller 0; TCaller 1; TCaller 1; TCaller 1; TCaller 0; TCaller 0;
   TEnds 1 true].

Lemma two_callers_start : starts [] [caller "task_1"; caller "task_2"].
Proof.
  split_and!; [constructor|by intros ? ? ?%elem_of_nil|apply (bool_decide_unpack _); vm_compute; exact I|].
  intros t Ht. rewrite !elem_of_cons, elem_of_nil in Ht. destruct Ht as [->|[->|[]]]; split; try reflexivity; apply not_elem_of_nil.
Qed.

Lemma spawn_once_witness :
  match play two_callers (fresh_world [], [caller "task_1"; caller "task_2"]) with
  | Some (w, _) => length (sw_rows w) = 1 /\ NoDup (run_children (sw_handles w))
  | None => False
  end.
Proof.
  destruct (play two_callers (fresh_world [], [caller "task_1"; caller "task_2"])) as [[w ts]|] eqn:E;
    [|vm_compute in E; discriminate E].
  pose proof (play_reachable _ _ _ E) as Hr. split; [vm_compute in E; injection E as <- _; reflexivity|].
  apply (@spawn_once literal_runtime plain_hash (fun _ => true) [] [caller "task_1"; caller "task_2"] w ts two_callers_start Hr).
Defined.

Lemma await_outcome_witness :
  match play two_callers (fresh_world [], [caller "task_1"; caller "task_2"]) with
  | Some (w, ts) => exists t, head ts = Some t /\
      (forall c b, sp_phase t = SAwaited c b -> HRun (ct_ID c) (Some b) ∈ sw_handles w
         \/ exists seen, HSeen seen ∈ sw_handles w /\ ct_ID seen = ct_ID c /\ b = bool_decide (ct_State seen = state.Done))
  | None => False
  end.
Proof.
  destruct (play two_callers (fresh_world [], [caller "task_1"; caller "task_2"])) as [[w ts]|] eqn:E;
    [|vm_compute in E; discriminate E].
  pose proof (play_reachable _ _ _ E) as Hr. destruct ts as [|t ts]; [vm_compute in E; discriminate E|].
  exists t. split; [reflexivity|].
  apply (@await_outcome literal_runtime plain_hash (fun _ => true) [] [caller "task_1"; caller "task_2"] w (t :: ts) t
    two_callers_start Hr). apply list_elem_of_here.
Defined.

Lemma spawnStep_exact_witness :
  let spawn req (s : list string) := (Ok (@new_child literal_runtime plain_hash {| sp_req := req; sp_id := sq_Key req; sp_await := true; sp_phase := SStart |}), s) in
  let await id (s : list string) := (Ok (bool_decide (id = "parser")), s) in
  let publish c s := (Ok tt, ct_ID c :: s) in
  let out := spawnStep spawn await str_in publish "epic" true true true true true
    [spec_request; {| sq_ParentTaskID := ""; sq_WorkflowID := "build"; sq_Title := "Lexer"; sq_Input := JNull; sq_Key := "lexer";
                      sq_Labels := []; sq_Body := "" |}] "" [] in
  out = (false, "parser", ["lexer"; "parser"]) /\ (out.1.1 = true -> False).
Proof.
  cbv zeta. split; [vm_compute; reflexivity|].
  match goal with |- context [spawnStep ?sp ?aw ?bo ?pu _ _ _ _ _ _ ?rs _ _] =>
    pose proof (spawnStep_exact sp aw bo pu "epic" true true true true rs "" []) as H end.
  destruct (spawnStep _ _ _ _ _ _ _ _ _ _ _ _ _) as [[ok first] s'] eqn:E. specialize (H ltac:(discriminate)).
  vm_compute in E. injection E as <- _ _. discriminate.
Defined.
