(* ===== verification/MemoryDoc.v ===== *)
(** * The workflow memory document (src/internal/workflow/memory.go, engine.go)

    What a step's prompt and the final comment say of the workflow so far: the
    item, the declared fields with their last values, and as many of the newest
    summaries as fit. With the comments and hooks of a finished workflow
    ([applyCompletion]) and of a published payload ([publishStep]). *)

From stdpp Require Import base gmap strings list pretty.
From Stdlib Require Import ZArith Ascii.
From S2P Require Import Prelude Text Model Expr Config Dag DagProps.

Definition DefaultMemoryMaxChars : Z := 4000.

Section memory_doc.
Context {RT : GoRuntime}.

(** The loops over the contributions: keys in the order they are first seen,
    values of their last write. *)
Definition note_field (ms : MemoryStep) (acc : list string * gmap string string) (field : string)
    : list string * gmap string string :=
  match ms_Structured ms !! field with
  | None => acc
  | Some v =>
      ((if bool_decide (is_Some (acc.2 !! field)) then acc.1 else acc.1 ++ [field]), <[field := renderValue v]> acc.2)
  end.

Definition step_data (steps : list MemoryStep) : list string * gmap string string :=
  foldl (fun acc ms => foldl (note_field ms) acc (ms_WriteFields ms)) ([], ∅) steps.

Definition summaries_of (steps : list MemoryStep) : list (string * string) :=
  omap (fun ms => if is_empty (trim_space (ms_Summary ms)) then None else Some (ms_StepID ms, ms_Summary ms)) steps.

(** [writeKV]. *)
Definition writeKV (key value : string) : string := key +:+ ": " +:+ value +:+ String nl "".

Definition write_set (key value : string) : string := if is_empty value then "" else writeKV key value.

Definition summary_text (s : string * string) : string :=
  s.1 +:+ ": |" +:+ String nl ""
  +:+ foldr (fun line out => "  " +:+ line +:+ String nl "" +:+ out) "" (split_on nl (trim_right is_nl s.2)).

(** [render]: the document with the summaries [shown]. *)
Definition render_doc (cell : SourceItem) (data : list string * gmap string string) (shown : list (string * string)) : string :=
  "=== Workflow Memory ===" +:+ String nl "" +:+ String nl ""
  +:+ "[Cell]" +:+ String nl "" +:+ writeKV "title" (si_Title cell)
  +:+ (if bool_decide (si_Labels cell = []) then "" else writeKV "labels" (str_join ", " (si_Labels cell)))
  +:+ write_set "type" (si_Type cell) +:+ write_set "priority" (si_Priority cell)
  +:+ write_set "source" (si_SourceID cell)
  +:+ (if bool_decide (data.1 = []) then ""
       else String nl "" +:+ "[Step Data]" +:+ String nl ""
            +:+ foldr (fun k out => writeKV k (default "" (data.2 !! k)) +:+ out) "" data.1)
  +:+ (if bool_decide (shown = []) then ""
       else String nl "" +:+ "[Summaries]" +:+ String nl "" +:+ foldr (fun s out => summary_text s +:+ out) "" shown)
  +:+ String nl "" +:+ "======================".

(** The newest [keep] of them. *)
Definition newest_of (keep : nat) (all : list (string * string)) : list (string * string) :=
  drop (length all - keep) all.

(** The loop that drops the oldest summaries; the document without any is the
    last resort. *)
Fixpoint shrink (fits : nat -> bool) (keep : nat) : nat :=
  if fits keep then keep else match keep with O => O | S k => shrink fits k end.

(** [MemoryBuilder.Build]. *)
Definition Build (maxChars : Z) (cell : SourceItem) (steps : list MemoryStep) : string :=
  let maxChars := (if maxChars <=? 0 then DefaultMemoryMaxChars else maxChars)%Z in
  let data := step_data steps in
  let all := summaries_of steps in
  let doc keep := render_doc cell data (newest_of keep all) in
  doc (shrink (fun keep => (Z.of_nat (String.length (doc keep)) <=? maxChars)%Z) (length all)).

(** ** Completion *)

(** The [on_complete] and [on_fail] hooks are opaque here. *)
Inductive SideEffect {Hook : Type} :=
  | PostComment (body : string)
  | ApplyHook (h : Hook).

(** [resultCommentMode]. *)
Definition resultCommentMode (wf : WorkflowConfig) (enabled : bool) : string :=
  if negb (is_empty (wc_ResultComment wf)) then wc_ResultComment wf
  else if enabled then ResultCommentOnComplete else ResultCommentOff.

(** [finalComment]. *)
Definition finalComment (wf : WorkflowConfig) (failed : bool) (memoryDoc : string) : string :=
  "**Workflow: " +:+ wc_ID wf +:+ " — " +:+ (if failed then "✗ Failed" else "✓ Done") +:+ "**"
  +:+ String nl "" +:+ String nl "" +:+ memoryDoc.

(** [applyCompletion], as the calls it makes; their errors are ignored. *)
Definition applyCompletion {Hook : Type} (maxChars : Z) (enabled : bool) (onComplete onFail : option Hook)
    (r : dagRun) (failed : bool) : list (@SideEffect Hook) :=
  let mode := resultCommentMode (r_wf r) enabled in
  let doc := Build maxChars (r_cell r) (memSteps r) in
  (if negb failed && str_in mode [ResultCommentOnComplete; ResultCommentAlways]
   then [PostComment (finalComment (r_wf r) false doc)] else [])
  ++ (if failed && str_in mode [ResultCommentOnFail; ResultCommentAlways]
      then [PostComment (finalComment (r_wf r) true doc)] else [])
  ++ match (if failed then onFail else onComplete) with Some h => [ApplyHook h] | None => [] end.

(** ** What the document says *)

Lemma step_data_app steps ms :
  step_data (steps ++ [ms]) = foldl (note_field ms) (step_data steps) (ms_WriteFields ms).
Proof. unfold step_data. by rewrite foldl_app. Qed.

Definition data_ok (acc : list string * gmap string string) : Prop :=
  NoDup acc.1 /\ forall k, k ∈ acc.1 <-> is_Some (acc.2 !! k).

Lemma note_field_ok ms acc f : data_ok acc -> data_ok (note_field ms acc f).
Proof.
  intros [Hnd Hk]. unfold note_field. destruct (ms_Structured ms !! f) as [v|]; [|done]. split; simpl.
  - case_bool_decide as Hs; [done|]. apply NoDup_app. split_and!; [done| |apply NoDup_singleton].
    intros x Hx ->%list_elem_of_singleton. by apply Hs, Hk.
  - intros k. rewrite lookup_insert_is_Some. case_bool_decide as Hs; rewrite ?elem_of_app, ?list_elem_of_singleton, Hk;
      destruct (decide (f = k)) as [<-|]; naive_solver.
Qed.

Lemma step_data_ok steps : data_ok (step_data steps).
Proof.
  unfold step_data. apply foldl_inv.
  - split; [constructor|]. intros k. simpl. rewrite elem_of_nil, lookup_empty. split; [done|by intros [? ?]].
  - intros acc ms _ Hacc. apply foldl_inv; [done|]. intros. by apply note_field_ok.
Qed.

(** The values are those the conditions of the workflow read. *)
Lemma step_data_values steps : (step_data steps).2 = memoryValuesFrom steps.
Proof.
  unfold step_data, memoryValuesFrom.
  assert (forall ms fields acc, (foldl (note_field ms) acc fields).2 = foldl (write_field ms) acc.2 fields) as Hin.
  { intros ms fields. induction fields as [|f fs IH]; intros acc; [done|]. simpl. rewrite IH. f_equal.
    unfold note_field, write_field. by destruct (ms_Structured ms !! f). }
  assert (forall l acc, (foldl (fun acc ms => foldl (note_field ms) acc (ms_WriteFields ms)) acc l).2
    = foldl (fun vals ms => foldl (write_field ms) vals (ms_WriteFields ms)) acc.2 l) as H.
  { induction l as [|ms l IH]; intros acc; [done|]. simpl. by rewrite IH, Hin. }
  apply (H steps ([], ∅)).
Qed.

Lemma shrink_spec fits n :
  shrink fits n <= n /\ (forall m, shrink fits n < m <= n -> fits m = false)
  /\ (fits (shrink fits n) = true \/ shrink fits n = 0 /\ forall m, m <= n -> fits m = false).
Proof.
  induction n as [|n IH]; simpl; [destruct (fits 0) eqn:E|destruct (fits (S n)) eqn:E]; try (split_and!; [lia|intros m Hm; lia|by left]).
  - split_and!; [lia|intros m Hm; lia|]. right. split; [done|]. intros m Hm. by replace m with 0 by lia.
  - destruct IH as (H1 & H2 & H3). split_and!; [lia| |].
    + intros m Hm. destruct (decide (m = S n)) as [->|]; [done|]. apply H2. lia.
    + destruct H3 as [H3|[H3 H4]]; [by left|right]. split; [done|]. intros m Hm.
      destruct (decide (m = S n)) as [->|]; [done|]. apply H4. lia.
Qed.

(** The document lists every field the steps wrote once, under the value the
    workflow's conditions read for it, then the newest summaries: as many as keep
    the document within its limit, and none when even the document without
    summaries is over it. *)
Theorem Build_exact (maxChars : Z) (cell : SourceItem) (steps : list MemoryStep) :
  let limit := (if maxChars <=? 0 then DefaultMemoryMaxChars else maxChars)%Z in
  let within text := (Z.of_nat (String.length text) <= limit)%Z in
  let all := summaries_of steps in
  let doc keep := render_doc cell (step_data steps) (newest_of keep all) in
  NoDup (step_data steps).1
  /\ (forall k, k ∈ (step_data steps).1 <-> is_Some (memoryValuesFrom steps !! k))
  /\ (step_data steps).2 = memoryValuesFrom steps
  /\ exists keep, keep <= length all /\ Build maxChars cell steps = doc keep
       /\ (forall more, keep < more <= length all -> ~ within (doc more))
       /\ (within (doc keep) \/ keep = 0 /\ forall n, n <= length all -> ~ within (doc n)).
Proof.
  cbv zeta. destruct (step_data_ok steps) as [Hnd Hk]. split_and!; [done| |apply step_data_values|].
  - intros k. by rewrite Hk, step_data_values.
  - unfold Build. match goal with |- context [shrink ?f ?n] => destruct (shrink_spec f n) as (H1 & H2 & H3) end.
    eexists. split; [exact H1|]. split; [done|]. split.
    + intros more Hm%H2. by apply Z.leb_gt, Z.lt_nge in Hm.
    + destruct H3 as [H3|[H3 H4]]; [left; by apply Z.leb_le|right; split; [done|]].
      intros n Hn%H4. by apply Z.leb_gt, Z.lt_nge in Hn.
Qed.

(** A finished workflow posts at most one comment, before its one hook. *)
Lemma applyCompletion_once {Hook : Type} maxChars enabled (onComplete onFail : option Hook) r failed :
  exists comments hooks, applyCompletion maxChars enabled onComplete onFail r failed = comments ++ hooks
    /\ length comments <= 1 /\ hooks = ApplyHook <$> option_list (if failed then onFail else onComplete)
    /\ (comments <> [] <->
        let mode := resultCommentMode (r_wf r) enabled in
        mode = ResultCommentAlways \/ mode = (if failed then ResultCommentOnFail else ResultCommentOnComplete)).
Proof.
  unfold applyCompletion. set (mode := resultCommentMode (r_wf r) enabled). clearbody mode.
  destruct failed; simpl negb; cbn [andb app];
    (eexists _, _; split; [done|]; split_and!; [by destruct (str_in _ _); simpl; lia| |]);
    [by destruct onFail| |by destruct onComplete|]; unfold str_in; case_bool_decide as H;
    rewrite ?elem_of_cons, elem_of_nil in H; cbv zeta; naive_solver.
Qed.
End memory_doc.
