(* ===== verification/Subworkflow.v ===== *)
(** * Sub-workflows (src/internal/workflow/subworkflow.go)

    A workflow step runs another workflow as a child instance: its inputs are
    resolved from the parent, rendered into the child's prompts and bindings and
    put at the end of the memory the child inherits; the child's graph is driven;
    and its declared outputs are the step's. The child's run is a function of the
    environment, which may write the instance tables too; step rows and logs are
    not modelled. *)

From stdpp Require Import base gmap strings list pretty.
From Stdlib Require Import ZArith Ascii.
From S2P Require Import Prelude Text State Model Expr Config Dag Validate Tasks.

Definition maxSubWorkflowDepth : nat := 16.

(** The order in which [range] visits a map: any, and not the same twice. *)
Class MapOrder := {
  map_order : forall {A : Type}, gmap string A -> list (string * A);
  map_order_perm : forall {A : Type} (m : gmap string A), map_order m ≡ₚ map_to_list m;
}.

(** [strings.ReplaceAll] for a text that is not empty: occurrences are found left
    to right; [skip] counts the bytes of one that are still to be passed. *)
Fixpoint replace_from (old new : string) (skip : nat) (s : string) : string :=
  match s with
  | EmptyString => EmptyString
  | String c s' =>
      match skip with
      | S k => replace_from old new k s'
      | O => if has_prefix s old then new +:+ replace_from old new (String.length old - 1) s'
             else String c (replace_from old new 0 s')
      end
  end.

Definition replace_all (old new s : string) : string := replace_from old new 0 s.

Section subworkflow.
Context {RT : GoRuntime} {MO : MapOrder}.

(** ** Values *)

(** What an expression may read: the task with its input, and its bindings. *)
Record Caller := {
  ca_task : InternalTask;
  ca_input : gmap string JValue;
  ca_bindings : list SourceBinding;
}.

(** The roots of an expression. *)
Definition task_value (c : Caller) (key : string) : option JValue :=
  if bool_decide (key = "id") then Some (JStr (it_ID (ca_task c)))
  else if bool_decide (key = "title") then Some (JStr (it_Title (ca_task c)))
  else if bool_decide (key = "description") then Some (JStr (it_Description (ca_task c)))
  else ca_input c !! key.

Definition cell_value (c : Caller) (key : string) : option JValue :=
  let cell := sourceItemView (ca_task c) (ca_bindings c) in
  if bool_decide (key = "id") then Some (JStr (si_ID cell))
  else if bool_decide (key = "title") then Some (JStr (si_Title cell))
  else if bool_decide (key = "description") then Some (JStr (si_Description cell))
  else if bool_decide (key = "source") then Some (JStr (si_SourceID cell))
  else if bool_decide (key = "priority") then Some (JStr (si_Priority cell))
  else if bool_decide (key = "type") then Some (JStr (si_Type cell))
  else None.

Definition path_value (c : Caller) (memSnap : list MemoryStep) (contrib : gmap string MemoryStep) (parts : list string)
    : option JValue :=
  match parts with
  | root :: rest =>
      let key := str_join "." rest in
      if bool_decide (root = "task") then task_value c key
      else if bool_decide (root = "cell") then cell_value c key
      else if bool_decide (root = "memory") then JStr <$> memoryValuesFrom memSnap !! key
      else if bool_decide (root = "steps") then
        match rest with
        | [step; field] => m ← contrib !! step; ms_Structured m !! field
        | _ => None
        end
      else None
  | [] => None
  end.

(** [resolveSubworkflowValue]. *)
Definition resolveSubworkflowValue (c : Caller) (memSnap : list MemoryStep) (contrib : gmap string MemoryStep)
    (value : JValue) : result string JValue :=
  match value with
  | JStr s =>
      if negb (is_wrapped s) then Ok value
      else
        let parts := split_on "." (trim_space (drop_wrapper (trim_space s))) in
        if (length parts <? 2)%nat then Err "invalid value expression"
        else match path_value c memSnap contrib parts with
             | Some v => Ok v
             | None => Err "value expression did not resolve"
             end
  | _ => Ok value
  end.

(** ** Inputs *)

(** One iteration of [resolveSubworkflowInputs]: [None] when the input is neither
    given nor defaulted nor required. *)
Definition input_value (c : Caller) (memSnap : list MemoryStep) (contrib : gmap string MemoryStep)
    (withs : gmap string JValue) (name : string) (d : WorkflowInput) : result string (option JValue) :=
  match withs !! name, win_Default d with
  | None, None => if win_Required d then Err "required input is missing" else Ok None
  | Some v, _ | None, Some v =>
      match resolveSubworkflowValue c memSnap contrib v with
      | Err e => Err e
      | Ok v => if WorkflowValueMatchesType v (win_Type d) then Ok (Some v) else Err "value does not match type"
      end
  end.

Fixpoint collect_inputs (value : string -> WorkflowInput -> result string (option JValue))
    (decls : list (string * WorkflowInput)) (inputs : gmap string JValue) : result string (gmap string JValue) :=
  match decls with
  | [] => Ok inputs
  | (name, d) :: decls =>
      match value name d with
      | Err e => Err e
      | Ok None => collect_inputs value decls inputs
      | Ok (Some v) => collect_inputs value decls (<[name := v]> inputs)
      end
  end.

Definition resolveSubworkflowInputs (c : Caller) (memSnap : list MemoryStep) (contrib : gmap string MemoryStep)
    (step : StepConfig) (child : WorkflowConfig) : result string (gmap string JValue) :=
  collect_inputs (input_value c memSnap contrib (st_With step)) (map_order (wc_Inputs child)) ∅.

(** ** Rendering *)

(** [renderInputString]. *)
Definition render_input (inputs : list (string * JValue)) (value : string) : string :=
  foldl (fun value '(name, input) =>
    replace_all ("${{inputs." +:+ name +:+ "}}") (renderValue input)
      (replace_all ("${{ inputs." +:+ name +:+ " }}") (renderValue input) value)) value inputs.

Definition renderInputString (inputs : gmap string JValue) (value : string) : string :=
  render_input (map_order inputs) value.

(** [renderInputValue]. *)
Definition renderInputValue (inputs : gmap string JValue) (value : JValue) : JValue :=
  match value with
  | JStr s =>
      let whole :=
        if is_wrapped s then
          match split_on "." (trim_space (drop_wrapper (trim_space s))) with
          | [root; name] => if bool_decide (root = "inputs") then inputs !! name else None
          | _ => None
          end
        else None in
      match whole with Some v => v | None => JStr (renderInputString inputs s) end
  | _ => value
  end.

(** The fields [renderStepInputs] writes. *)
Definition with_rendered (prompt message : string) (withs : gmap string JValue) (inner : option StepConfig)
    (subSteps parallelSteps : list StepConfig) (s : StepConfig) : StepConfig :=
  mkStep (st_ID s) (st_Type s) (st_DependsOn s) (st_SeqDependsOn s) (st_Condition s) (st_FailWhen s)
    (st_Agent s) prompt (st_OutputSchema s) (st_OnMissingOutput s) (st_Memory s)
    (st_OnPassNext s) (st_OnFail s) (st_OnConflict s) (st_Multi s) (st_Branches s) message
    (st_ResumeOn s) (st_AbortOn s) (st_Timeout s) (st_Approvers s) (st_WaitFor s) (st_Items s) (st_As s)
    (st_Concurrency s) (st_MaxItems s) (st_FailFast s) inner subSteps (st_Join s) (st_Name s)
    (st_Idempotent s) (st_Publish s) (st_Spawn s) (st_Materialize s) (st_PullRequestFrom s)
    (st_ActionClass s) (st_RequiredApprovals s) (st_ApprovalFields s) (st_RemindAfter s)
    (st_EscalateAfter s) (st_EscalateTo s) (st_Delegates s) (st_Workflow s) (st_Uses s) withs
    (st_If s) (st_RejectWhen s) (st_OnReject s) parallelSteps (st_ForEachExpr s) (st_Max s) (st_Output s).

(** [renderStepInputs], on the copy [cloneSubworkflowStep] makes: the maps and
    steps it writes are the child's own. *)
Fixpoint renderStepInputs (inputs : gmap string JValue) (s : StepConfig) {struct s} : StepConfig :=
  with_rendered (renderInputString inputs (st_Prompt s)) (renderInputString inputs (st_Message s))
    (renderInputValue inputs <$> st_With s)
    (match st_Step s with Some inner => Some (renderStepInputs inputs inner) | None => None end)
    (List.map (renderStepInputs inputs) (st_SubSteps s))
    (List.map (renderStepInputs inputs) (st_ParallelSteps s)) s.

(** [renderSubworkflowInputs]. *)
Definition renderSubworkflowInputs (child : WorkflowConfig) (inputs : gmap string JValue) : WorkflowConfig := {|
  wc_ID := wc_ID child; wc_Resume := wc_Resume child; wc_ResultComment := wc_ResultComment child;
  wc_Trigger := wc_Trigger child; wc_Inputs := wc_Inputs child; wc_Outputs := wc_Outputs child;
  wc_Steps := renderStepInputs inputs <$> wc_Steps child |}.

(** The memory the child starts with: the inputs last. *)
Definition child_seed (memSnap : list MemoryStep) (inputs : gmap string JValue) : list MemoryStep :=
  if bool_decide (inputs = ∅) then memSnap
  else memSnap ++ [{| ms_StepID := "inputs"; ms_WriteFields := sort_strings (fst <$> map_to_list inputs);
                      ms_Structured := inputs; ms_Summary := "" |}].

(** ** Outputs *)

(** One iteration of [resolveSubworkflowOutputs]. *)
Definition output_value (run : dagRun) (d : WorkflowOutput) : result string JValue :=
  let expr := trim_space (wout_Value d) in
  let expr := trim_space (trim_suffix "}}" (trim_prefix "${{" expr)) in
  match split_on "." expr with
  | [root; step; field] =>
      if negb (bool_decide (root = "steps")) then Err "invalid value expression"
      else
        let value :=
          if bool_decide (field = "output") then (fun st => JStr (ss_Output st)) <$> r_stepStates run !! step
          else m ← r_contrib run !! step; ms_Structured m !! field in
        match value with
        | None => Err "could not resolve"
        | Some v => if WorkflowValueMatchesType v (wout_Type d) then Ok v else Err "does not match type"
        end
  | _ => Err "invalid value expression"
  end.

Fixpoint collect_outputs (run : dagRun) (decls : list (string * WorkflowOutput)) (outputs : gmap string JValue)
    : result string (gmap string JValue) :=
  match decls with
  | [] => Ok outputs
  | (name, d) :: decls =>
      match output_value run d with
      | Err e => Err e
      | Ok v => collect_outputs run decls (<[name := v]> outputs)
      end
  end.

Definition resolveSubworkflowOutputs (child : WorkflowConfig) (run : dagRun) : result string (gmap string JValue) :=
  collect_outputs run (map_order (wc_Outputs child)) ∅.

(** ** The child instance *)

(** [findWorkflow]. *)
Definition findWorkflow (workflows : list WorkflowConfig) (id : string) : option WorkflowConfig :=
  List.find (fun wf => bool_decide (wc_ID wf = id)) workflows.

(** What driving the child does: its outcome and final run, whether the context
    was canceled by then, and the tables as it and everybody else left them. *)
Definition Driver : Type := WorkflowConfig -> list MemoryStep -> nat -> Tables -> dagOutcome * dagRun * bool * Tables.

Definition child_instance (childID : string) (child : WorkflowConfig) (c : Caller) (now : Z) : InstanceRow := {|
  wi_ID := childID; wi_WorkflowID := wc_ID child; wi_TaskID := it_ID (ca_task c); wi_State := state.Running;
  wi_Reason := ""; wi_Generation := 0; wi_ResumedFrom := ""; wi_CreatedAt := now |}.

(** What the store makes of the writes of a call once the row of the child exists:
    of the configuration snapshot, and of the child's last state, whose error is
    ignored. *)
Record ChildWrites := { cw_snapshot : bool; cw_state : bool }.

Definition settle_child (writes : ChildWrites) (childID st : string) (db : Tables) : Tables :=
  if cw_state writes then UpdateWorkflowInstanceState childID st "" db else db.

(** [runChildInstance]. *)
Definition runChildInstance (drive : Driver) (writes : ChildWrites) (childID : string) (child : WorkflowConfig) (c : Caller)
    (seed : list MemoryStep) (depth : nat) (now : Z) (db : Tables) : string * gmap string JValue * bool * Tables :=
  match CreateWorkflowInstance now (child_instance childID child c now) db with
  | None => ("", ∅, false, db)
  | Some db =>
      if negb (cw_snapshot writes) then (childID, ∅, false, settle_child writes childID state.Failed db)
      else
        let '(outcome, run, canceled, db) := drive child seed depth db in
        let outcome := if canceled then outcomeFailed else outcome in
        let outcome := match outcome with outcomeWaiting => outcomeFailed | o => o end in
        let outputs := match outcome with
                       | outcomeDone => resolveSubworkflowOutputs child run
                       | _ => Ok ∅
                       end in
        let outcome := match outputs with Ok _ => outcome | Err _ => outcomeFailed end in
        let final := match outcome with outcomeFailed => state.Failed | _ => state.Done end in
        (childID, match outputs with Ok o => o | Err _ => ∅ end,
         match outcome with outcomeDone => true | _ => false end,
         settle_child writes childID final db)
  end.

(** [executeSubWorkflowStep], once the child is found. *)
Definition call_child (drive : Driver) (writes : ChildWrites) (childID : string) (child : WorkflowConfig)
    (c : Caller) (depth : nat) (step : StepConfig) (memSnap : list MemoryStep) (contrib : gmap string MemoryStep)
    (now : Z) (db : Tables) : StepResult * Tables :=
  match resolveSubworkflowInputs c memSnap contrib step child with
  | Err e => (new_result false e, db)
  | Ok inputs =>
      let '(childID, outputs, success, db) :=
        runChildInstance drive writes childID (renderSubworkflowInputs child inputs) c
          (child_seed memSnap inputs) (S depth) now db in
      if success then
        ({| sr_Success := true; sr_Output := childID; sr_Structured := outputs;
            sr_Summary := "sub-workflow completed"; sr_Pending := false; sr_Conflict := false |}, db)
      else (new_result false "sub-workflow failed", db)
  end.

(** [executeSubWorkflowStep]. *)
Definition executeSubWorkflowStep (drive : Driver) (writes : ChildWrites) (childID : string) (workflows : list WorkflowConfig)
    (c : Caller) (depth : nat) (step : StepConfig) (memSnap : list MemoryStep) (contrib : gmap string MemoryStep)
    (now : Z) (db : Tables) : StepResult * Tables :=
  if (maxSubWorkflowDepth <=? depth)%nat then (new_result false "sub-workflow nesting limit exceeded", db)
  else match findWorkflow workflows (st_Workflow step) with
       | None => (new_result false "workflow not found", db)
       | Some child => call_child drive writes childID child c depth step memSnap contrib now db
       end.
End subworkflow.
