(* ===== verification/SubworkflowRuns.v ===== *)
(** * Sub-workflows: the run of a child, nesting and rows

    What a call hands to its child and takes back, and how it leaves the child's row;
    how deep accepted configurations nest; and where a child's row, its kind of steps and the order
    of a map show through. *)

From stdpp Require Import base gmap strings list relations pretty sorting.
From Stdlib Require Import ZArith Ascii.
From S2P Require Import Prelude Text State Model Expr Config Dag DagProps Validate ValidateFacts ValidateProps Tasks.
From S2P Require Import StepGraph Wait Parallel Worker Subworkflow ApprovalFacts ApprovalProps.

(** ** Sub-workflows: inputs and outputs

    What a call gives its child and gets back, whatever order the maps are
    visited in; and what validation leaves to fail at run time. *)

(** ** Inputs *)

Section inputs.
Context {RT : GoRuntime} {MO : MapOrder}.

Lemma map_order_elem {A} (m : gmap string A) k v : (k, v) ∈ map_order m <-> m !! k = Some v.
Proof. by rewrite map_order_perm, elem_of_map_to_list. Qed.

Lemma map_order_nodup {A} (m : gmap string A) : NoDup (map_order m).*1.
Proof. rewrite map_order_perm. apply NoDup_fst_map_to_list. Qed.

Lemma collect_inputs_spec value decls inputs :
  NoDup decls.*1 ->
  match collect_inputs value decls inputs with
  | Ok out => (forall name d, (name, d) ∈ decls -> exists o, value name d = Ok o
                 /\ out !! name = match o with Some v => Some v | None => inputs !! name end)
              /\ (forall name, name ∉ decls.*1 -> out !! name = inputs !! name)
  | Err e => exists name d, (name, d) ∈ decls /\ value name d = Err e
  end.
Proof.
  revert inputs. induction decls as [|[name d] decls IH]; intros inputs Hnd; simpl.
  { split; [by intros ? ? ?%elem_of_nil|done]. }
  apply NoDup_cons in Hnd as [Hnew Hnd]. simpl in Hnew.
  assert (forall inputs', (forall n, n <> name -> inputs' !! n = inputs !! n) ->
    (forall o, value name d = Ok o -> inputs' !! name = match o with Some v => Some v | None => inputs !! name end) ->
    (exists o, value name d = Ok o) ->
    match collect_inputs value decls inputs' with
    | Ok out => (forall name' d', (name', d') ∈ (name, d) :: decls -> exists o, value name' d' = Ok o
                 /\ out !! name' = match o with Some v => Some v | None => inputs !! name' end)
              /\ (forall name', name' ∉ name :: decls.*1 -> out !! name' = inputs !! name')
    | Err e => exists name' d', (name', d') ∈ (name, d) :: decls /\ value name' d' = Err e
    end) as Hstep.
  { intros inputs' Hne Heq [o Ho]. specialize (IH inputs' Hnd). destruct (collect_inputs value decls inputs') as [out|e].
    - destruct IH as [IH1 IH2]. split.
      + intros name' d' [[= -> ->]|Hin]%elem_of_cons.
        * exists o. split; [done|]. rewrite IH2 by done. by apply Heq.
        * destruct (IH1 name' d' Hin) as (o' & Ho' & Hl). exists o'. split; [done|]. rewrite Hl. destruct o'; [done|].
          apply Hne. intros ->. apply Hnew, list_elem_of_fmap. by exists (name, d').
      + intros name' [Hn1 Hn2]%not_elem_of_cons. rewrite IH2 by done. by apply Hne.
    - destruct IH as (n & d' & Hin & He). exists n, d'. split; [by right|done]. }
  destruct (value name d) as [[v|]|e] eqn:Ev.
  - apply Hstep; [|by intros o [= <-]; rewrite lookup_insert_eq|by eexists].
    intros n Hn. by rewrite lookup_insert_ne.
  - apply Hstep; [done|by intros o [= <-]|by eexists].
  - exists name, d. split; [by left|done].
Qed.

(** A call's inputs do not depend on the order the declarations are visited
    in: the resolution succeeds exactly when every declaration's value does, and
    the inputs are then those values and nothing else; otherwise the error is that
    of one of the declarations. *)
Theorem resolve_inputs_exact (c : Caller) (memSnap : list MemoryStep) (contrib : gmap string MemoryStep)
    (step : StepConfig) (child : WorkflowConfig) :
  match resolveSubworkflowInputs c memSnap contrib step child with
  | Ok inputs => forall name, match wc_Inputs child !! name with
                              | Some d => input_value c memSnap contrib (st_With step) name d = Ok (inputs !! name)
                              | None => inputs !! name = None
                              end
  | Err e => exists name d, wc_Inputs child !! name = Some d /\ input_value c memSnap contrib (st_With step) name d = Err e
  end.
Proof.
  unfold resolveSubworkflowInputs.
  pose proof (collect_inputs_spec (input_value c memSnap contrib (st_With step)) (map_order (wc_Inputs child)) ∅
    (map_order_nodup _)) as H.
  destruct (collect_inputs _ _ _) as [inputs|e].
  - destruct H as [H1 H2]. intros name. destruct (wc_Inputs child !! name) as [d|] eqn:E.
    + apply map_order_elem, H1 in E as (o & Ho & Hl). rewrite Ho, Hl, lookup_empty. by destruct o.
    + rewrite H2, lookup_empty; [done|]. rewrite list_elem_of_fmap. intros ([n d] & Hn & Hin%map_order_elem).
      simpl in Hn. congruence.
  - destruct H as (name & d & Hin%map_order_elem & He). by exists name, d.
Qed.

(** The value given for an input, or its default. *)
Definition given (step : StepConfig) (name : string) (d : WorkflowInput) : option JValue :=
  match st_With step !! name with Some v => Some v | None => win_Default d end.

(** Of a call that validation accepts, only an expression can fail to resolve:
    when each expression that is given, or is a default, has a value of the
    declared type, the call has exactly the inputs that are given or defaulted,
    all of the declared type; no required input is missing. *)
Theorem validated_call_resolves (cf : ConfigFile) (sctx ctx : string) (parent child : WorkflowConfig) (step : StepConfig)
    (c : Caller) (memSnap : list MemoryStep) (contrib : gmap string MemoryStep) :
  validateWorkflowStep cf sctx step parent = [] -> wf_by_id cf (st_Workflow step) = Some child ->
  validateWorkflowContract ctx child = [] ->
  (forall name d v, wc_Inputs child !! name = Some d -> given step name d = Some v -> isWorkflowExpression v = true ->
     exists v', resolveSubworkflowValue c memSnap contrib v = Ok v' /\ WorkflowValueMatchesType v' (win_Type d) = true) ->
  exists inputs, resolveSubworkflowInputs c memSnap contrib step child = Ok inputs
    /\ (forall name, is_Some (inputs !! name) <-> exists d, wc_Inputs child !! name = Some d /\ is_Some (given step name d))
    /\ (forall name d v, wc_Inputs child !! name = Some d -> inputs !! name = Some v ->
          WorkflowValueMatchesType v (win_Type d) = true)
    /\ (forall name d, wc_Inputs child !! name = Some d -> win_Required d = true -> is_Some (inputs !! name)).
Proof.
  intros Hv Hchild Hcontract Hexpr.
  assert (forall name d, wc_Inputs child !! name = Some d ->
    win_Required d = true -> is_Some (given step name d)) as Hreq.
  { intros name d Hd Hr. unfold validateWorkflowStep in Hv. apply app_eq_nil in Hv as [_ Hv].
    destruct (negb (is_empty (st_Uses step)) && _); [done|]. destruct (is_empty (st_Workflow step)); [done|].
    destruct (bool_decide _); [done|]. rewrite Hchild in Hv.
    apply app_eq_nil in Hv as [_ [_ Hv]%app_eq_nil]. rewrite concat_nil_Forall, Forall_fmap, Forall_forall in Hv.
    specialize (Hv (name, d) ltac:(by apply elem_of_map_to_list)). simpl in Hv. apply complain_nil in Hv.
    unfold given. destruct (st_With step !! name) as [v|]; [by eexists|]. rewrite Hr in Hv. simpl in Hv.
    rewrite andb_true_r in Hv. destruct (win_Default d); [by eexists|done]. }
  assert (forall name d v, wc_Inputs child !! name = Some d -> given step name d = Some v ->
    isWorkflowExpression v = false -> WorkflowValueMatchesType v (win_Type d) = true) as Hlit.
  { intros name d v Hd Hg Hnx. unfold given in Hg. destruct (st_With step !! name) as [w|] eqn:Ew.
    - injection Hg as ->. unfold validateWorkflowStep in Hv. apply app_eq_nil in Hv as [_ Hv].
      destruct (negb (is_empty (st_Uses step)) && _); [done|]. destruct (is_empty (st_Workflow step)); [done|].
      destruct (bool_decide _); [done|]. rewrite Hchild in Hv.
      apply app_eq_nil in Hv as [_ [Hv _]%app_eq_nil]. rewrite concat_nil_Forall, Forall_fmap, Forall_forall in Hv.
      specialize (Hv (name, v) ltac:(by apply elem_of_map_to_list)). simpl in Hv. rewrite Hd in Hv.
      apply complain_nil in Hv. rewrite Hnx in Hv. by apply negb_false_iff in Hv.
    - unfold validateWorkflowContract in Hcontract. apply app_eq_nil in Hcontract as [Hc _].
      rewrite concat_nil_Forall, Forall_fmap, Forall_forall in Hc.
      specialize (Hc (name, d) ltac:(by apply elem_of_map_to_list)). unfold compose, validate_input in Hc.
      apply app_eq_nil in Hc as [_ Hc]. destruct (negb _); [done|]. rewrite Hg in Hc.
      apply complain_nil, negb_false_iff in Hc. done. }
  assert (forall name d, wc_Inputs child !! name = Some d -> exists o,
    input_value c memSnap contrib (st_With step) name d = Ok o
    /\ (is_Some o <-> is_Some (given step name d))
    /\ (forall v, o = Some v -> WorkflowValueMatchesType v (win_Type d) = true)) as Hval.
  { intros name d Hd. pose proof (Hreq name d Hd) as Hr. pose proof (Hexpr name d) as Hx. pose proof (Hlit name d) as Hl.
    assert (forall v, given step name d = Some v -> exists v',
      resolveSubworkflowValue c memSnap contrib v = Ok v' /\ WorkflowValueMatchesType v' (win_Type d) = true) as Hok.
    { intros v Hg. destruct (isWorkflowExpression v) eqn:Ei; [by apply Hx|]. exists v. split; [|by apply Hl].
      unfold resolveSubworkflowValue, isWorkflowExpression in *. destruct v; try done. by rewrite Ei. }
    unfold input_value. unfold given in *. destruct (st_With step !! name) as [w|], (win_Default d) as [w'|];
      try (destruct (Hok _ eq_refl) as (v' & -> & Hm); rewrite Hm; exists (Some v'); split_and!;
           [done|split; by eexists|by intros ? [= <-]]).
    destruct (win_Required d); [by destruct (Hr eq_refl)|]. by exists None. }
  pose proof (resolve_inputs_exact c memSnap contrib step child) as H.
  destruct (resolveSubworkflowInputs c memSnap contrib step child) as [inputs|e].
  - exists inputs. split; [done|].
    assert (forall name d, wc_Inputs child !! name = Some d ->
      (is_Some (inputs !! name) <-> is_Some (given step name d))
      /\ forall v, inputs !! name = Some v -> WorkflowValueMatchesType v (win_Type d) = true) as Hin.
    { intros name d Hd. destruct (Hval name d Hd) as (o & Ho & Hs & Ht). specialize (H name). rewrite Hd in H.
      rewrite Ho in H. injection H as ->. by split. }
    split_and!.
    + intros name. specialize (H name). destruct (wc_Inputs child !! name) as [d|] eqn:Ed.
      * rewrite (proj1 (Hin name d Ed)). naive_solver.
      * rewrite H. split; [by intros [? ?]|naive_solver].
    + intros name d v Hd. by apply Hin.
    + intros name d Hd Hr. by apply (Hin name d Hd), Hreq.
  - destruct H as (name & d & Hd & He). destruct (Hval name d Hd) as (o & Ho & _). congruence.
Qed.

(** The child reads its inputs from its memory, before what it inherits. *)
Lemma child_memory (memSnap : list MemoryStep) (inputs : gmap string JValue) (k : string) :
  memoryValuesFrom (child_seed memSnap inputs) !! k
  = match inputs !! k with Some v => Some (renderValue v) | None => memoryValuesFrom memSnap !! k end.
Proof.
  unfold child_seed. case_bool_decide as He; [by rewrite He, lookup_empty|].
  unfold memoryValuesFrom. rewrite foldl_app. cbn [foldl]. rewrite write_fields_lookup. cbn [ms_Structured ms_WriteFields].
  destruct (inputs !! k) as [v|] eqn:E; [|by destruct (str_in _ _)].
  unfold str_in. rewrite bool_decide_true; [done|]. apply elem_of_sort_strings, list_elem_of_fmap.
  exists (k, v). split; [done|]. by apply elem_of_map_to_list.
Qed.

(** ** Outputs *)

Lemma collect_outputs_spec run decls outputs :
  NoDup decls.*1 ->
  match collect_outputs run decls outputs with
  | Ok out => (forall name d, (name, d) ∈ decls -> exists v, output_value run d = Ok v /\ out !! name = Some v)
              /\ (forall name, name ∉ decls.*1 -> out !! name = outputs !! name)
  | Err e => exists name d, (name, d) ∈ decls /\ output_value run d = Err e
  end.
Proof.
  revert outputs. induction decls as [|[name d] decls IH]; intros outputs Hnd; simpl.
  { split; [by intros ? ? ?%elem_of_nil|done]. }
  apply NoDup_cons in Hnd as [Hnew Hnd]. simpl in Hnew.
  destruct (output_value run d) as [v|e] eqn:Ev; [|exists name, d; split; [by left|done]].
  specialize (IH (<[name := v]> outputs) Hnd). destruct (collect_outputs run decls _) as [out|e].
  - destruct IH as [H1 H2]. split.
    + intros name' d' [[= -> ->]|Hin]%elem_of_cons; [|by apply H1]. exists v. split; [done|].
      by rewrite H2, lookup_insert_eq.
    + intros name' [Hn1 Hn2]%not_elem_of_cons. by rewrite H2, lookup_insert_ne.
  - destruct IH as (n & d' & Hin & He). exists n, d'. split; [by right|done].
Qed.

Lemma output_value_typed run d v : output_value run d = Ok v -> WorkflowValueMatchesType v (wout_Type d) = true.
Proof.
  unfold output_value. cbv zeta. destruct (split_on _ _) as [|root [|step [|field [|? ?]]]]; try done.
  destruct (negb _); [done|]. destruct (if bool_decide (field = "output") then _ else _) as [w|]; [|done].
  destruct (WorkflowValueMatchesType w (wout_Type d)) eqn:E; [|done]. by intros [= <-].
Qed.

Lemma resolve_outputs_ok child run outputs :
  resolveSubworkflowOutputs child run = Ok outputs ->
  forall name, match wc_Outputs child !! name with
               | Some d => exists v, outputs !! name = Some v /\ output_value run d = Ok v
                             /\ WorkflowValueMatchesType v (wout_Type d) = true
               | None => outputs !! name = None
               end.
Proof.
  unfold resolveSubworkflowOutputs. intros H.
  pose proof (collect_outputs_spec run (map_order (wc_Outputs child)) ∅ (map_order_nodup _)) as Hs. rewrite H in Hs.
  destruct Hs as [H1 H2]. intros name. destruct (wc_Outputs child !! name) as [d|] eqn:E.
  - apply map_order_elem, H1 in E as (v & Hv & Hl). exists v. split_and!; [done|done|by eapply output_value_typed].
  - rewrite H2, lookup_empty; [done|]. rewrite list_elem_of_fmap. intros ([n d] & Hn & Hin%map_order_elem).
    simpl in Hn. congruence.
Qed.
End inputs.

(** ** Sub-workflows *)

(** ** The result of a call *)

Lemma update_state_rows id st reason db i :
  i ∈ workflow_instances (UpdateWorkflowInstanceState id st reason db) -> wi_ID i = id ->
  NoDup (wi_ID <$> workflow_instances db) -> wi_State i = st /\ wi_Reason i = reason.
Proof.
  unfold UpdateWorkflowInstanceState. intros Hi Hid Hnd.
  destruct (match GetWorkflowInstance id db with Some _ => _ | None => _ end) eqn:E.
  - destruct (GetWorkflowInstance id db) as [j|] eqn:Eg; [|done].
    unfold GetWorkflowInstance in Eg. apply List.find_some in Eg as [Hj Hjd%bool_decide_eq_true].
    apply list_elem_of_In in Hj. assert (i = j) as ->; [|by apply andb_true_iff in E as [?%bool_decide_eq_true ?%bool_decide_eq_true]].
    apply list_elem_of_lookup_1 in Hi as [m Hm], Hj as [n Hn].
    assert (m = n) as ->; [|congruence].
    eapply NoDup_lookup; [exact Hnd| |]; rewrite list_lookup_fmap; [by rewrite Hm|]. rewrite Hn. simpl. congruence.
  - simpl in Hi. apply list_elem_of_fmap in Hi as (j & -> & Hj). case_bool_decide as Hb; [done|]. done.
Qed.

Section child.
Context {RT : GoRuntime} {MO : MapOrder}.

(** The values of the declared outputs, when the run of [child] has them all. *)
Definition declared_outputs (child : WorkflowConfig) (run : dagRun) (outputs : gmap string JValue) : Prop :=
  forall name, match wc_Outputs child !! name with
               | Some d => exists v, outputs !! name = Some v /\ output_value run d = Ok v
                             /\ WorkflowValueMatchesType v (wout_Type d) = true
               | None => outputs !! name = None
               end.

(** A call got as far as driving [child] to [end_]: every earlier return was
    passed. *)
Definition driven_to (drive : Driver) (writes : ChildWrites) (childID : string) (workflows : list WorkflowConfig) (c : Caller)
    (depth : nat) (step : StepConfig) (memSnap : list MemoryStep) (contrib : gmap string MemoryStep) (now : Z)
    (db : Tables) (child : WorkflowConfig) (end_ : dagOutcome * dagRun * bool * Tables) : Prop :=
  depth < maxSubWorkflowDepth /\ findWorkflow workflows (st_Workflow step) = Some child
  /\ exists inputs db1, resolveSubworkflowInputs c memSnap contrib step child = Ok inputs
       /\ CreateWorkflowInstance now (child_instance childID child c now) db = Some db1 /\ cw_snapshot writes = true
       /\ drive (renderSubworkflowInputs child inputs) (child_seed memSnap inputs) (S depth) db1 = end_.

(** What is made of the end of the child's run: the outputs, when it succeeds. *)
Definition end_outputs (child : WorkflowConfig) (end_ : dagOutcome * dagRun * bool * Tables)
    : option (gmap string JValue) :=
  match end_ with
  | (outcomeDone, run, false, _) => match resolveSubworkflowOutputs child run with Ok o => Some o | Err _ => None end
  | _ => None
  end.

(** The run was abandoned by a stop. *)
Definition end_stopped (end_ : dagOutcome * dagRun * bool * Tables) : bool :=
  match end_ with (outcomeStopped, _, false, _) => true | _ => false end.

(** The call wrote the row of its child and got no further: the row is the one new
    one, and failed when its state could be written. *)
Definition left_behind (writes : ChildWrites) (childID : string) (c : Caller) (db db' : Tables) : Prop :=
  internal_tasks db' = internal_tasks db
  /\ exists row, workflow_instances db' = workflow_instances db ++ [row]
       /\ wi_ID row = childID /\ wi_TaskID row = it_ID (ca_task c)
       /\ wi_State row = if cw_state writes then state.Failed else state.Running.

Lemma snapshot_lost writes childID child c now db db1 :
  CreateWorkflowInstance now (child_instance childID child c now) db = Some db1 ->
  left_behind writes childID c db (settle_child writes childID state.Failed db1).
Proof.
  unfold CreateWorkflowInstance, child_instance. cbn [wi_ID wi_WorkflowID wi_TaskID wi_State wi_Reason wi_ResumedFrom wi_CreatedAt].
  destruct (str_in childID _) eqn:Hin; [done|]. intros [= <-]. apply bool_decide_eq_false in Hin.
  assert (forall i, i ∈ workflow_instances db -> bool_decide (wi_ID i = childID) = false) as Hold.
  { intros i Hi. apply bool_decide_eq_false. intros <-. by apply Hin, list_elem_of_fmap_2. }
  unfold left_behind, settle_child. destruct (cw_state writes); [|split; [done|]; by eexists].
  unfold UpdateWorkflowInstanceState, GetWorkflowInstance. cbn [set_instances workflow_instances].
  set (row := {| wi_ID := childID |}).
  assert (List.find (fun i => bool_decide (wi_ID i = childID)) (workflow_instances db ++ [row]) = Some row) as ->.
  { revert Hold. generalize (workflow_instances db) as l. induction l as [|x l IH]; intros Hold; simpl; [by rewrite bool_decide_true|].
    rewrite Hold by (by left). apply IH. intros i Hi. apply Hold. by right. }
  cbn [wi_State row]. rewrite (bool_decide_false (state.Running = state.Failed)) by done. cbn [andb].
  split; [done|]. cbn [update_instances fst set_instances workflow_instances]. rewrite List.map_app. cbn [List.map].
  rewrite (bool_decide_true (wi_ID row = childID)) by done. exists (with_instance_state state.Failed "" row). split; [|by split_and!]. f_equal.
  rewrite <- (List.map_id (workflow_instances db)) at 2. apply List.map_ext_in. intros i Hi%list_elem_of_In. by rewrite Hold.
Qed.

Lemma call_cases drive writes childID workflows c depth step memSnap contrib now db :
  let '(res, db') := executeSubWorkflowStep drive writes childID workflows c depth step memSnap contrib now db in
  let driven := driven_to drive writes childID workflows c depth step memSnap contrib now db in
  (exists child end_, driven child end_
     /\ (forall child' end', driven child' end' -> child' = child /\ end' = end_)
     /\ db' = settle_child writes childID
                (if bool_decide (is_Some (end_outputs child end_)) || end_stopped end_ then state.Done else state.Failed)
                end_.2
     /\ match end_outputs child end_ with
        | Some o => res = {| sr_Success := true; sr_Output := childID; sr_Structured := o;
                             sr_Summary := "sub-workflow completed"; sr_Pending := false; sr_Conflict := false |}
        | None => exists msg, res = new_result false msg
        end)
  \/ ((forall child end_, ~ driven child end_) /\ (exists msg, res = new_result false msg)
      /\ (db' = db \/ cw_snapshot writes = false /\ left_behind writes childID c db db')).
Proof.
  unfold executeSubWorkflowStep, driven_to. destruct (Nat.leb_spec maxSubWorkflowDepth depth) as [Hd|Hd].
  { right. split_and!; [|by eexists|by left]. intros child end_ (? & _). lia. }
  destruct (findWorkflow workflows (st_Workflow step)) as [child|] eqn:Ef.
  2:{ right. split_and!; [|by eexists|by left]. by intros child end_ (_ & ? & _). }
  unfold call_child. destruct (resolveSubworkflowInputs c memSnap contrib step child) as [inputs|e] eqn:Ei.
  2:{ right. split_and!; [|by eexists|by left]. intros child' end_ (_ & [= <-] & ? & ? & ? & _). congruence. }
  unfold runChildInstance. change (child_instance childID (renderSubworkflowInputs child inputs) c now)
    with (child_instance childID child c now).
  destruct (CreateWorkflowInstance now (child_instance childID child c now) db) as [db1|] eqn:Ec.
  2:{ right. split_and!; [|by eexists|by left]. intros child' end_ (_ & [= <-] & ? & ? & ? & ? & _). congruence. }
  destruct (cw_snapshot writes) eqn:Es; cbn [negb].
  2:{ right. split_and!; [|by eexists|right; split; [done|by eapply snapshot_lost]]. by intros child' end_ (_ & _ & ? & ? & _ & _ & ? & _). }
  destruct (drive (renderSubworkflowInputs child inputs) (child_seed memSnap inputs) (S depth) db1)
    as [[[outcome run] canceled] db2] eqn:Ee.
  assert (resolveSubworkflowOutputs (renderSubworkflowInputs child inputs) run = resolveSubworkflowOutputs child run)
    as -> by done.
  assert (forall child' end', (depth < maxSubWorkflowDepth /\ Some child = Some child'
    /\ exists inputs db1, resolveSubworkflowInputs c memSnap contrib step child' = Ok inputs
         /\ CreateWorkflowInstance now (child_instance childID child' c now) db = Some db1 /\ true = true
         /\ drive (renderSubworkflowInputs child' inputs) (child_seed memSnap inputs) (S depth) db1 = end') ->
    child' = child /\ end' = (outcome, run, canceled, db2)) as Huniq.
  { intros child' end' (_ & [= <-] & inputs' & db1' & Hi & Hc & _ & <-). rewrite Ei in Hi. injection Hi as <-.
    rewrite Ec in Hc. injection Hc as <-. by rewrite Ee. }
  assert (depth < maxSubWorkflowDepth /\ Some child = Some child
    /\ exists inputs db1, resolveSubworkflowInputs c memSnap contrib step child = Ok inputs
         /\ CreateWorkflowInstance now (child_instance childID child c now) db = Some db1 /\ true = true
         /\ drive (renderSubworkflowInputs child inputs) (child_seed memSnap inputs) (S depth) db1
            = (outcome, run, canceled, db2)) as Hdriven by (split_and!; [lia|done|by exists inputs, db1]).
  cbv zeta. destruct outcome, canceled; try destruct (resolveSubworkflowOutputs child run) as [o|e] eqn:Er; cbn;
    left; eexists child, _; (split; [exact Hdriven|]); (split; [exact Huniq|]);
    cbn; rewrite ?Er; cbn; (split; [done|]); try done; by eexists.
Qed.

(** C12: A call succeeds exactly when the child was found within the depth limit,
    its inputs resolved, its row and snapshot were written, its graph ended done
    before the context was canceled, and every declared output has a value of its
    type; the step's outputs are then those values and nothing else, and its text
    output is the child's id. A call that fails before its child runs leaves the
    tables alone, except when the snapshot could not be written: then the child's
    row is the one new row, and it is failed. A child that ran has a row that is
    done after a success, failed after a failure, and done for a run that was
    stopped. Both hold when the store takes the write of the state, whose error the
    code ignores; when it does not, the row of an unstarted child stays running, and
    the tables are as the run left them. No call suspends the parent or reports a
    conflict. *)
Theorem call_result (drive : Driver) (writes : ChildWrites) (childID : string) (workflows : list WorkflowConfig) (c : Caller)
    (depth : nat) (step : StepConfig) (memSnap : list MemoryStep) (contrib : gmap string MemoryStep) (now : Z) (db : Tables) :
  let '(res, db') := executeSubWorkflowStep drive writes childID workflows c depth step memSnap contrib now db in
  let driven := driven_to drive writes childID workflows c depth step memSnap contrib now db in
  sr_Pending res = false /\ sr_Conflict res = false
  /\ (sr_Success res = true <-> exists child run db2 outputs,
        driven child (outcomeDone, run, false, db2) /\ declared_outputs child run outputs)
  /\ (sr_Success res = true -> sr_Output res = childID /\ forall child run db2,
        driven child (outcomeDone, run, false, db2) -> declared_outputs child run (sr_Structured res))
  /\ (forall child end_, driven child end_ ->
        if cw_state writes
        then NoDup (wi_ID <$> workflow_instances end_.2) -> forall i, i ∈ workflow_instances db' -> wi_ID i = childID ->
             wi_State i = if sr_Success res || end_stopped end_ then state.Done else state.Failed
        else db' = end_.2)
  /\ ((forall child end_, ~ driven child end_) -> sr_Success res = false
        /\ (db' = db \/ cw_snapshot writes = false /\ left_behind writes childID c db db')).
Proof.
  pose proof (call_cases drive writes childID workflows c depth step memSnap contrib now db) as H.
  destruct (executeSubWorkflowStep drive writes childID workflows c depth step memSnap contrib now db) as [res db'].
  cbv zeta in *. set (driven := driven_to drive writes childID workflows c depth step memSnap contrib now db) in *.
  destruct H as [(child & end_ & Hd & Hu & -> & Hres)|(Hn & (msg & ->) & Hdb)].
  2:{ split_and!; try done; [split; [done|]|]; [intros (ch & run & db2 & o & Hd & _)|intros ch e Hd]; by destruct (Hn _ _ Hd). }
  destruct (end_outputs child end_) as [o|] eqn:Eo.
  - subst res. cbn. destruct end_ as [[[[] run] []] db2]; try done. cbn in Eo.
    destruct (resolveSubworkflowOutputs child run) as [o'|] eqn:Er; [|done]. injection Eo as ->.
    split_and!; try done.
    + split; [intros _|done]. exists child, run, db2, o. split; [done|]. exact (resolve_outputs_ok _ _ _ Er).
    + intros _. split; [done|]. intros ch run' db2' [-> [= <- <-]]%Hu. exact (resolve_outputs_ok _ _ _ Er).
    + intros ch e [-> ->]%Hu. unfold settle_child. destruct (cw_state writes) eqn:Ew; [|done]. intros Hnd i Hi Hid.
      by apply (update_state_rows _ _ _ _ _ Hi Hid Hnd).
    + intros Hn. by destruct (Hn _ _ Hd).
  - destruct Hres as [msg ->]. cbn. split_and!; try done.
    + split; [done|]. intros (ch & run & db2 & o & [-> <-]%Hu & Hdecl). exfalso. cbn in Eo.
      destruct (resolveSubworkflowOutputs child run) as [|e] eqn:Er; [done|].
      unfold resolveSubworkflowOutputs in Er.
      pose proof (collect_outputs_spec run (map_order (wc_Outputs child)) ∅ (map_order_nodup _)) as Hs.
      rewrite Er in Hs. destruct Hs as (name & d & Hin%map_order_elem & He). specialize (Hdecl name).
      rewrite Hin in Hdecl. destruct Hdecl as (v & _ & Hv & _). congruence.
    + intros ch e [-> ->]%Hu. unfold settle_child. destruct (cw_state writes) eqn:Ew; [|done]. intros Hnd i Hi Hid.
      apply (update_state_rows _ _ _ _ _ Hi Hid Hnd).
    + intros Hn. by destruct (Hn _ _ Hd).
Qed.
End child.

(** ** Nesting *)

(** An acyclic relation on finitely many names has no path of as many steps as
    there are names. *)
Lemma acyclic_path_bounded (R : string -> string -> Prop) (ids : list string) n x y :
  (forall z, ~ tc R z z) -> (forall a b, R a b -> a ∈ ids /\ b ∈ ids) -> y ∈ ids -> nsteps R n x y -> n < length ids.
Proof.
  intros Hac Hin Hy Hs.
  assert (exists l, length l = S n /\ NoDup l /\ (forall z, z ∈ l -> z ∈ ids /\ rtc R x z)) as (l & Hl & Hnd & Hsub).
  { induction Hs as [x|n x z y Hxz Hs IH].
    - exists [x]. split_and!; [done|apply NoDup_singleton|]. intros z ->%list_elem_of_singleton. by split.
    - destruct (IH Hy) as (l & Hl & Hnd & Hsub). exists (x :: l). split_and!; [simpl; by rewrite Hl| |].
      + apply NoDup_cons. split; [|done]. intros [_ Hr]%Hsub. apply (Hac x). by eapply tc_rtc_r; [apply tc_once|].
      + intros w [->|Hw]%elem_of_cons; [split; [exact (proj1 (Hin _ _ Hxz))|apply rtc_refl]|]. destruct (Hsub w Hw). split; [done|].
        by eapply rtc_l. }
  apply (f_equal pred) in Hl as Hl'. assert (length l <= length ids); [|lia].
  apply submseteq_length, NoDup_submseteq; [done|]. intros z Hz. by apply Hsub.
Qed.

Section nesting.
Context {RT : GoRuntime} {DG : Diagnostics} {HK : Hooks} {MO : MapOrder} (c : ConfigFile).

(** The workflows that may run at a depth: a configured one at the top, and what
    a sub-workflow step of one that runs finds one level down, whatever its
    inputs. *)
Inductive runs_at : nat -> WorkflowConfig -> Prop :=
  | runs_top wf : wf ∈ cf_Workflows c -> runs_at 0 wf
  | runs_child d wf step child inputs :
      runs_at d wf -> step ∈ wc_Steps wf -> is_type StepTypeWorkflow step = true ->
      findWorkflow (cf_Workflows c) (st_Workflow step) = Some child ->
      runs_at (S d) (renderSubworkflowInputs child inputs).

(** Rendering keeps what a step is and calls. *)
Definition same_calls (wf orig : WorkflowConfig) : Prop :=
  forall step, step ∈ wc_Steps wf -> exists s0, s0 ∈ wc_Steps orig /\ StepType s0 = StepType step
    /\ st_Workflow s0 = st_Workflow step.

Lemma render_same_calls inputs child : same_calls (renderSubworkflowInputs child inputs) child.
Proof.
  intros step (s0 & -> & Hs)%list_elem_of_fmap. exists s0. split; [done|]. by destruct s0.
Qed.

Lemma unique_ids :
  check_workflow_ids c = [] ->
  NoDup (wc_ID <$> cf_Workflows c) /\ (forall w, w ∈ cf_Workflows c -> wc_ID w <> "").
Proof.
  unfold check_workflow_ids.
  assert (forall l (acc : list ConfigError * gset string),
    (foldl (fun '(errs, seen) wf =>
       if is_empty (wc_ID wf) then (errs ++ [CE "workflows" "workflows[%d]: id is required"], seen)
       else (errs ++ complain (bool_decide (wc_ID wf ∈ seen)) "workflows" "workflows[%d]: duplicate id %q",
             {[wc_ID wf]} ∪ seen)) acc l).1 = [] ->
    acc.1 = [] /\ NoDup (wc_ID <$> l) /\ (forall w, w ∈ l -> wc_ID w <> "" /\ wc_ID w ∉ acc.2)) as Hl.
  { induction l as [|w l IH]; intros [errs seen].
    - simpl. intros ->. split_and!; [done|constructor|by intros w ?%elem_of_nil].
    - cbn [foldl]. destruct (is_empty (wc_ID w)) eqn:E; intros (Ha & Hnd & Hw)%IH; cbn [fst snd] in *;
        apply app_eq_nil in Ha as [-> Ha]; [done|].
      apply complain_nil, bool_decide_eq_false in Ha. apply is_empty_false in E. split_and!; [done| |].
      + cbn. apply NoDup_cons. split; [|done]. intros (w' & Hid & [_ Hn]%Hw)%list_elem_of_fmap. set_solver.
      + intros w' [->|Hin]%elem_of_cons; [done|]. destruct (Hw w' Hin). split; [done|set_solver]. }
  intros (_ & Hnd & Hw)%Hl. split; [done|]. intros w Hin. by apply Hw.
Qed.

(** With distinct ids, both look-ups find the workflow of an id. *)
Lemma find_unique (l : list WorkflowConfig) w :
  NoDup (wc_ID <$> l) -> w ∈ l -> List.find (fun v => bool_decide (wc_ID v = wc_ID w)) l = Some w.
Proof.
  induction l as [|v l IH]; [by intros _ ?%elem_of_nil|]. cbn. intros [Hv Hnd]%NoDup_cons [->|Hin]%elem_of_cons.
  { by rewrite bool_decide_true. }
  rewrite bool_decide_false; [by apply IH|]. intros He. apply Hv. rewrite He. apply list_elem_of_fmap. by exists w.
Qed.

Lemma both_find w :
  check_workflow_ids c = [] -> w ∈ cf_Workflows c ->
  findWorkflow (cf_Workflows c) (wc_ID w) = Some w /\ wf_by_id c (wc_ID w) = Some w.
Proof.
  intros [Hnd Hne]%unique_ids Hw. split; [by apply find_unique|]. unfold wf_by_id.
  rewrite (proj2 (is_empty_false _) (Hne w Hw)). apply find_unique.
  - change fmap with (@List.map WorkflowConfig string). rewrite List.map_rev. apply NoDup_ListNoDup, List.NoDup_rev.
    by apply NoDup_ListNoDup.
  - apply list_elem_of_In. rewrite <- in_rev. by apply list_elem_of_In.
Qed.

Lemma validated_call_found wf step :
  validateWorkflows c = [] -> wf ∈ cf_Workflows c -> step ∈ wc_Steps wf -> is_type StepTypeWorkflow step = true ->
  is_Some (wf_by_id c (st_Workflow step)).
Proof.
  intros Hv Hwf Hs Hty. destruct (validateWorkflows_each c wf Hv Hwf) as [idx H].
  apply validateWorkflow_accepts in H as [_ _ _ Heach _ _ _]. specialize (Heach step Hs).
  assert (exists p sctx ids, validate_by_type c wf (agentIDSet c) p sctx ids step = []) as (p & sctx & ids & Hb)
    by (destruct (step_depth step); apply app_eq_nil in Heach as [? ?]; eauto).
  rewrite (by_type c wf p sctx ids step _ Hty) in Hb. cbn in Hb. unfold validateWorkflowStep in Hb.
  apply app_eq_nil in Hb as [_ Hb]. destruct (negb (is_empty (st_Uses step)) && _); [done|].
  destruct (is_empty (st_Workflow step)); [done|]. destruct (bool_decide _); [done|].
  destruct (wf_by_id c (st_Workflow step)); [by eexists|done].
Qed.

Lemma validated_unique : validateWorkflows c = [] -> check_workflow_ids c = [].
Proof.
  unfold validateWorkflows, check_workflow_ids. destruct (cf_Workflows c); [done|]. by intros [? _]%app_eq_nil.
Qed.

Lemma runs_at_inv d wf :
  validateWorkflows c = [] -> runs_at d wf ->
  exists top orig, orig ∈ cf_Workflows c /\ wf_by_id c (wc_ID orig) = Some orig /\ same_calls wf orig
    /\ nsteps (calls c) d top (wc_ID orig).
Proof.
  intros Hv%validated_unique Hr. induction Hr as [wf Hwf|d wf step child inputs Hr IH Hs Hty Hf].
  - exists (wc_ID wf), wf. destruct (both_find wf Hv Hwf). split_and!; [done|done|by intros s ?; exists s|constructor].
  - destruct IH as (top & orig & Ho & Hoid & Hsame & Hn). destruct (Hsame step Hs) as (s0 & Hs0 & Hty0 & Hw0).
    apply List.find_some in Hf as [Hc%list_elem_of_In Hid%bool_decide_eq_true]. destruct (both_find child Hv Hc) as [_ Hb].
    exists top, child. split_and!; [done|done|apply render_same_calls|].
    eapply nsteps_r; [exact Hn|]. unfold calls, workflow_refs. rewrite Hoid. apply elem_filter_bool.
    rewrite Hb, bool_decide_true by done. split; [|done]. rewrite Hid, <- Hw0. apply list_elem_of_fmap. exists s0.
    split; [done|]. apply elem_filter_bool. split; [done|]. unfold is_type in *. by rewrite Hty0.
Qed.

(** In a configuration that validation accepts, sub-workflows nest less deep
    than there are workflows, and a sub-workflow step that runs always finds its
    workflow; so with at most seventeen workflows the depth limit is never met: a
    call is the run of the child it names, at any depth that occurs. *)
Theorem nesting_bounded (d : nat) (wf : WorkflowConfig) :
  validateWorkflows c = [] -> runs_at d wf ->
  d < length (cf_Workflows c)
  /\ forall step, step ∈ wc_Steps wf -> is_type StepTypeWorkflow step = true ->
       exists child, findWorkflow (cf_Workflows c) (st_Workflow step) = Some child
         /\ (length (cf_Workflows c) <= S maxSubWorkflowDepth ->
             forall drive writes childID caller memSnap contrib now db,
               executeSubWorkflowStep drive writes childID (cf_Workflows c) caller d step memSnap contrib now db
               = call_child drive writes childID child caller d step memSnap contrib now db).
Proof.
  intros Hv Hr. pose proof (validated_unique Hv) as Hids.
  assert (forall d wf, runs_at d wf -> d < length (cf_Workflows c)) as Hdepth.
  { intros n w (top & orig & Ho & Hoid & _ & Hn)%runs_at_inv; [|done].
    apply Nat.lt_le_trans with (length (workflow_ids c)).
    - eapply (acyclic_path_bounded (calls c)); [|by apply calls_known| |exact Hn].
      + apply reference_cycles_exact. unfold validateWorkflows in Hv. unfold validateWorkflowReferenceCycles in *.
        destruct (cf_Workflows c) eqn:E; [by apply elem_of_nil in Ho|]. by apply app_eq_nil in Hv as [_ [_ ?]%app_eq_nil].
      + apply elem_of_workflow_ids. by eexists.
    - transitivity (length (wc_ID <$> cf_Workflows c)); [|by rewrite length_fmap].
      apply submseteq_length, NoDup_submseteq.
      + unfold workflow_ids, sort_strings. rewrite merge_sort_Permutation. apply NoDup_elements.
      + intros id [w0 (_ & Hin0 & <-)%wf_by_id_in]%elem_of_workflow_ids. apply list_elem_of_fmap. by exists w0. }
  split; [by eapply Hdepth|]. intros step Hs Hty.
  destruct (runs_at_inv d wf Hv Hr) as (top & orig & Ho & Hoid & Hsame & _).
  destruct (Hsame step Hs) as (s0 & Hs0 & Hty0 & Hw0).
  destruct (validated_call_found orig s0 Hv Ho Hs0) as [child Hc]; [unfold is_type in *; by rewrite Hty0|].
  destruct (wf_by_id_in _ _ _ Hc) as (_ & Hin & Hid). destruct (both_find child Hids Hin) as [Hf _].
  rewrite Hid, Hw0 in Hf. exists child. split; [done|]. intros Hle drive writes childID caller memSnap contrib now db.
  assert (S d < length (cf_Workflows c)) as Hlt.
  { eapply (Hdepth _ (renderSubworkflowInputs child ∅)). by eapply runs_child. }
  unfold executeSubWorkflowStep. rewrite Hf. destruct (Nat.leb_spec maxSubWorkflowDepth d); [lia|done].
Qed.
End nesting.

(** ** Witnesses and the runs behind the findings *)

Program Definition in_order : MapOrder := {| map_order _ m := map_to_list m |}.
Next Obligation. done. Qed.

Program Definition reverse_order : MapOrder := {| map_order _ m := List.rev (map_to_list m) |}.
Next Obligation. intros. symmetry. apply Permutation_rev. Qed.

Definition call_of (id target : string) (withs : gmap string JValue) : StepConfig :=
  mkStep id "workflow" [] [] "" "" "" "" None "" None "" None None false [] "" None None "" [] None "" "" 0 0
    false None [] "" "" false "" "" "" "" "" 0 [] "" "" [] ∅ target "" withs "" "" None [] "" 0 None.

Definition named_workflow (id : string) (inputs : gmap string WorkflowInput) (outputs : gmap string WorkflowOutput)
    (steps : list StepConfig) : WorkflowConfig := {|
  wc_ID := id; wc_Resume := ""; wc_ResultComment := ""; wc_Trigger := None; wc_Inputs := inputs; wc_Outputs := outputs;
  wc_Steps := steps |}.

Definition configured (wfs : list WorkflowConfig) : ConfigFile := {|
  cf_Workflows := wfs; cf_Agents := ["dev"]; cf_Sources := []; cf_RequireFor := [] |}.

Definition task_t : InternalTask := {|
  it_ID := "t"; it_ParentTaskID := ""; it_Title := "T"; it_Description := "";
  it_Metadata := {| md_Labels := []; md_Priority := ""; md_Type := ""; md_Source := ""; md_State := "" |} |}.

Definition caller_t : Caller := {| ca_task := task_t; ca_input := ∅; ca_bindings := [] |}.

(** A chain of workflows, each calling the next. *)
Definition link (n k : nat) : WorkflowConfig :=
  named_workflow ("w" +:+ pretty k) ∅ ∅
    [if (S k <? n)%nat then call_of "next" ("w" +:+ pretty (S k)) ∅ else agent_of "end" [] None ""].

Definition chain_of (n : nat) : ConfigFile := configured (link n <$> seq 0 n).

(** Eighteen workflows that validation accepts: the seventeenth runs, and its call
    is refused by the limit that is meant for configurations validation rejects. *)
Lemma deep_chain_refused :
  @validateWorkflows literal_runtime cli_hooks (chain_of 18) = []
  /\ exists wf, @runs_at literal_runtime in_order (chain_of 18) 16 wf /\ st_Workflow <$> wc_Steps wf = ["w17"]
       /\ is_Some (findWorkflow (cf_Workflows (chain_of 18)) "w17")
       /\ forall step drive writes childID memSnap contrib now db, step ∈ wc_Steps wf ->
            @executeSubWorkflowStep literal_runtime in_order drive writes childID (cf_Workflows (chain_of 18)) caller_t 16 step
              memSnap contrib now db
            = (new_result false "sub-workflow nesting limit exceeded", db).
Proof.
  split; [vm_compute; reflexivity|].
  assert (forall k, k < 16 -> @runs_at literal_runtime in_order (chain_of 18) (S k)
    (@renderSubworkflowInputs literal_runtime in_order (link 18 (S k)) ∅)) as Hr.
  { assert (forall k, k < 17 -> findWorkflow (cf_Workflows (chain_of 18)) ("w" +:+ pretty (S k)) = Some (link 18 (S k))
      /\ wc_Steps (link 18 k) = [call_of "next" ("w" +:+ pretty (S k)) ∅]) as Hf.
    { do 17 (intros [|k]; [by vm_compute|]; revert k; intros k Hk; apply Nat.succ_lt_mono in Hk; revert k Hk).
      intros k Hk. lia. }
    induction k as [|k IH]; intros Hk; destruct (Hf _ (Nat.lt_lt_succ_r _ _ Hk)) as [Hfind Hsteps].
    - eapply runs_child; [by apply (@runs_top literal_runtime in_order _ (link 18 0)), list_elem_of_here|rewrite Hsteps; apply list_elem_of_here|done|done].
    - eapply runs_child with (step := @renderStepInputs literal_runtime in_order ∅ (call_of "next" ("w" +:+ pretty (S (S k))) ∅));
        [apply IH; lia| |done|exact Hfind].
      cbn [wc_Steps renderSubworkflowInputs]. rewrite Hsteps. apply list_elem_of_here. }
  exists (@renderSubworkflowInputs literal_runtime in_order (link 18 16) ∅). split; [by apply (Hr 15); lia|].
  split; [vm_compute; reflexivity|]. split; [vm_compute; by eexists|]. by intros.
Qed.

Definition all_written : ChildWrites := {| cw_snapshot := true; cw_state := true |}.

(** A task under way, with one workflow outstanding and its row running. *)
Definition parent_tables : Tables := {|
  internal_tasks := {["t" := {| tk_state := "running"; tk_reason := ""; tk_outstanding := 1; tk_generation := 1 |}]};
  workflow_instances := [{| wi_ID := "p"; wi_WorkflowID := "parent"; wi_TaskID := "t"; wi_State := state.Running;
    wi_Reason := ""; wi_Generation := 1; wi_ResumedFrom := ""; wi_CreatedAt := 1 |}] |}.

Definition ends (o : dagOutcome) : Driver := fun child seed _ db =>
  (o, @initDAG child example_cell seed ∅, false, db).

(** The parent calls the child, which fails; its step loops back and the second
    call passes, so that the parent ends done. *)
Definition call_twice : (StepResult * StepResult) * Tables :=
  let child := named_workflow "child" ∅ ∅ [agent_of "one" [] None ""] in
  let step := call_of "call" "child" ∅ in
  let '(r1, db) := @executeSubWorkflowStep literal_runtime in_order (ends outcomeFailed) all_written "c1" [child] caller_t 0 step
                     [] ∅ 2 parent_tables in
  let '(r2, db) := @executeSubWorkflowStep literal_runtime in_order (ends outcomeDone) all_written "c2" [child] caller_t 0 step
                     [] ∅ 3 db in
  ((r1, r2), UpdateWorkflowInstanceState "p" state.Done "" db).

(** The row of the call the parent recovered from still counts as a failure of the
    task's round: the task settles as failed, and with a retry limit it is left
    blocked for a retry, although its only workflow ended done. *)
Lemma recovered_child_fails_task :
  let '((r1, r2), db) := call_twice in
  sr_Success r1 = false /\ sr_Success r2 = true
  /\ (wi_State <$> GetWorkflowInstance "p" db) = Some state.Done
  /\ (let '(db', hook) := completeTask 0 "t" "parent" false db in
      hook = Some true /\ (tk_state <$> GetTask "t" db') = Some state.Failed)
  /\ (let '(db', hook) := completeTask 3 "t" "parent" false db in
      hook = Some true /\ (tk_state <$> GetTask "t" db') = Some state.Blocked).
Proof. vm_compute. repeat split. Qed.

(** Validation accepts a call of a workflow that waits for an approval; every such
    call fails once the child parks. *)
Definition gated_call : ConfigFile :=
  configured [named_workflow "parent" ∅ ∅ [call_of "call" "child" ∅];
              named_workflow "child" ∅ ∅ [gate_step_config "gate" ["ann"] 1]].

Definition drive_child : Driver := fun child seed _ db =>
  match @driveDAG literal_runtime plain_diagnostics 1 9 (fun _ => event_at 0 (verdict "")) (initDAG child example_cell seed ∅) with
  | Some (o, r) => (o, r, false, db)
  | None => (outcomeFailed, initDAG child example_cell seed ∅, false, db)
  end.

Lemma gated_child_accepted_and_fails :
  @validateWorkflows literal_runtime cli_hooks gated_call = []
  /\ (forall child, findWorkflow (cf_Workflows gated_call) "child" = Some child ->
      (drive_child (@renderSubworkflowInputs literal_runtime in_order child ∅) [] 1 parent_tables).1.1.1 = outcomeWaiting)
  /\ sr_Success (@executeSubWorkflowStep literal_runtime in_order drive_child all_written "c1" (cf_Workflows gated_call) caller_t 0
       (call_of "call" "child" ∅) [] ∅ 2 parent_tables).1 = false.
Proof.
  split; [vm_compute; reflexivity|]. split; [|vm_compute; reflexivity].
  intros child [= <-]. vm_compute. reflexivity.
Qed.

(** What a prompt becomes depends on the order the inputs are visited in, when
    the value of one names another. *)
Lemma prompt_depends_on_order :
  let inputs := {["a" := JStr "${{ inputs.b }}"; "b" := JStr "x"]} : gmap string JValue in
  @renderInputString literal_runtime in_order inputs "${{ inputs.a }}"
  <> @renderInputString literal_runtime reverse_order inputs "${{ inputs.a }}".
Proof. vm_compute. discriminate. Qed.

Definition env_child : WorkflowConfig :=
  named_workflow "child" {["env" := {| win_Type := "string"; win_Required := true; win_Default := None |}]} ∅
    [agent_of "one" [] None ""].
Definition env_step : StepConfig := call_of "call" "child" {["env" := JStr "${{ task.title }}"]}.
Definition env_parent : WorkflowConfig := named_workflow "parent" ∅ ∅ [env_step].

Lemma validated_call_resolves_witness :
  exists inputs, @resolveSubworkflowInputs literal_runtime in_order caller_t [] ∅ env_step env_child = Ok inputs
    /\ is_Some (inputs !! "env").
Proof.
  destruct (@validated_call_resolves literal_runtime in_order (configured [env_parent; env_child]) "" "" env_parent env_child
    env_step caller_t [] ∅) as (inputs & Hr & _ & _ & Hreq).
  - vm_compute. reflexivity.
  - vm_compute. reflexivity.
  - vm_compute. reflexivity.
  - intros name d v Hd Hg _. exists (JStr "T").
    assert (name = "env") as ->.
    { unfold env_child, named_workflow in Hd. cbn [wc_Inputs] in Hd. apply lookup_singleton_Some in Hd. by destruct Hd. }
    vm_compute in Hd. injection Hd as <-. vm_compute in Hg. injection Hg as <-. split; vm_compute; reflexivity.
  - exists inputs. split; [exact Hr|]. eapply Hreq; vm_compute; reflexivity.
Defined.

Lemma nesting_bounded_witness :
  1 < 3 /\ exists child, findWorkflow (cf_Workflows (chain_of 3)) "w2" = Some child.
Proof.
  destruct (@nesting_bounded literal_runtime cli_hooks in_order (chain_of 3) 1
    (@renderSubworkflowInputs literal_runtime in_order (link 3 1) ∅)) as [H1 H2].
  - vm_compute. reflexivity.
  - eapply runs_child with (step := call_of "next" "w1" ∅);
      [apply (runs_top _ (link 3 0)), list_elem_of_here|apply list_elem_of_here|reflexivity|vm_compute; reflexivity].
  - split; [exact H1|].
    destruct (H2 (@renderStepInputs literal_runtime in_order ∅ (call_of "next" "w2" ∅))) as (child & Hc & _);
      [apply list_elem_of_here|reflexivity|]. exists child. exact Hc.
Defined.
