(* ===== verification/Binder.v ===== *)
(** * Binding source items to tasks (src/internal/source/binder.go,
      src/internal/db/binding_store.go and client.go)

    Every source item is bound to one internal task: the first poll of it creates
    both rows in a transaction, later ones find the task and bring its attributes
    up to date. Binds of different pollers run concurrently, and deletions may come
    between; the model steps through the statements of a bind. Bindings are in the
    order of their creation. *)

From stdpp Require Import base gmap strings list relations.
From Stdlib Require Import ZArith Ascii.
From S2P Require Import Prelude Text Model.

(** The attribute columns of internal_tasks, by id, and source_bindings. *)
Record BindDB := {
  bd_tasks : gmap string InternalTask;
  bd_bindings : list SourceBinding;
}.

Definition put_task (t : InternalTask) (db : BindDB) : BindDB :=
  {| bd_tasks := <[it_ID t := t]> (bd_tasks db); bd_bindings := bd_bindings db |}.

(** ** The store *)

Definition of_item (sourceID itemID : string) (b : SourceBinding) : bool :=
  bool_decide (sb_SourceID b = sourceID) && bool_decide (sb_SourceItemID b = itemID).

(** [GetBindingBySourceItem]. *)
Definition GetBindingBySourceItem (sourceID itemID : string) (db : BindDB) : option SourceBinding :=
  List.find (of_item sourceID itemID) (bd_bindings db).

(** [GetBindingBySourceItemID]: the oldest, whatever its source. *)
Definition GetBindingBySourceItemID (itemID : string) (db : BindDB) : option SourceBinding :=
  List.find (fun b => bool_decide (sb_SourceItemID b = itemID)) (bd_bindings db).

(** [TRIM(x, '#')]. *)
Definition is_hash (c : Ascii.ascii) : bool := bool_decide (c = "#"%char).
Definition trim_hashes (s : string) : string := trim_right is_hash (String.rev (trim_right is_hash (String.rev s))).

(** [ListBindingsBySourceItemNumber]: compared without case. *)
Definition ListBindingsBySourceItemNumber (number : string) (db : BindDB) : list SourceBinding :=
  let number := trim_prefix "#" (trim_space number) in
  if is_empty number then []
  else List.filter (fun b => equal_fold (trim_hashes (sb_SourceItemNumber b)) number) (bd_bindings db).

(** [ListBindingsByTask]. *)
Definition ListBindingsByTask (taskID : string) (db : BindDB) : list SourceBinding :=
  List.filter (fun b => bool_decide (sb_TaskID b = taskID)) (bd_bindings db).

(** [DeleteBindingsByTask]. *)
Definition DeleteBindingsByTask (taskID : string) (db : BindDB) : BindDB :=
  {| bd_tasks := bd_tasks db;
     bd_bindings := List.filter (fun b => negb (bool_decide (sb_TaskID b = taskID))) (bd_bindings db) |}.

(** [DeleteTask], on these columns. *)
Definition DeleteTaskRow (taskID : string) (db : BindDB) : BindDB :=
  {| bd_tasks := delete taskID (bd_tasks db); bd_bindings := bd_bindings db |}.

Inductive BindError := ErrBindingExists | ErrInsertTask | ErrInsertBinding | ErrMissingTask | ErrBindingVanished.

(** [insertBinding]: the primary key, then the unique pair. *)
Definition insertBinding (b : SourceBinding) (db : BindDB) : result BindError BindDB :=
  if str_in (sb_ID b) (sb_ID <$> bd_bindings db) then Err ErrInsertBinding
  else if existsb (of_item (sb_SourceID b) (sb_SourceItemID b)) (bd_bindings db) then Err ErrBindingExists
  else Ok {| bd_tasks := bd_tasks db; bd_bindings := bd_bindings db ++ [b] |}.

(** [CreateTaskWithBinding]: one transaction. *)
Definition CreateTaskWithBinding (t : InternalTask) (b : SourceBinding) (db : BindDB) : result BindError BindDB :=
  match bd_tasks db !! it_ID t with
  | Some _ => Err ErrInsertTask
  | None => insertBinding b (put_task t db)
  end.

(** ** The binder *)

(** [metaFromItem]. *)
Definition metaFromItem (item : SourceItem) : TaskMetadata := {|
  md_Labels := si_Labels item; md_Priority := si_Priority item; md_Type := si_Type item;
  md_Source := si_SourceID item; md_State := si_State item |}.

#[global] Instance TaskMetadata_eq_dec : EqDecision TaskMetadata.
Proof. solve_decision. Defined.
#[global] Instance InternalTask_eq_dec : EqDecision InternalTask.
Proof. solve_decision. Defined.
#[global] Instance SourceBinding_eq_dec : EqDecision SourceBinding.
Proof. solve_decision. Defined.

(** [taskFromItem] and [bindingFromItem], with the ids the store gives them. *)
Definition taskFromItem (id : string) (item : SourceItem) : InternalTask := {|
  it_ID := id; it_ParentTaskID := ""; it_Title := si_Title item; it_Description := si_Description item;
  it_Metadata := metaFromItem item |}.

Definition bindingFromItem (id taskID : string) (item : SourceItem) : SourceBinding := {|
  sb_ID := id; sb_TaskID := taskID; sb_SourceID := si_SourceID item; sb_SourceItemID := si_ID item;
  sb_SourceItemURL := si_URL item; sb_SourceItemNumber := si_Number item |}.

(** [metaEqual] with the title and the description. *)
Definition in_step (t : InternalTask) (item : SourceItem) : bool :=
  bool_decide (it_Title t = si_Title item) && bool_decide (it_Description t = si_Description item)
  && bool_decide (it_Metadata t = metaFromItem item).

Definition refreshed (t : InternalTask) (item : SourceItem) : InternalTask := {|
  it_ID := it_ID t; it_ParentTaskID := it_ParentTaskID t; it_Title := si_Title item;
  it_Description := si_Description item; it_Metadata := metaFromItem item |}.

(** [UpdateTaskMetadata]: nothing to update when the task is gone. *)
Definition UpdateTaskMetadata (id : string) (item : SourceItem) (db : BindDB) : BindDB :=
  {| bd_tasks := alter (fun t => refreshed t item) id (bd_tasks db); bd_bindings := bd_bindings db |}.

(** [refresh]. *)
Definition refresh (t : InternalTask) (item : SourceItem) (db : BindDB) : InternalTask * BindDB :=
  if in_step t item then (t, db) else (refreshed t item, UpdateTaskMetadata (it_ID t) item db).

(** How far a call of [Bind] is. *)
Inductive BindPhase :=
  | BLookup
  | BFetch (b : SourceBinding) (again : bool)
  | BCreate
  | BAgain
  | BRefresh (t : InternalTask)
  | BDone (r : result BindError InternalTask).

Record BindCall := {
  bn_item : SourceItem;
  bn_task : string;                   (* the ids the store would draw *)
  bn_binding : string;
  bn_phase : BindPhase;
}.

Definition bind_to (p : BindPhase) (t : BindCall) : BindCall :=
  {| bn_item := bn_item t; bn_task := bn_task t; bn_binding := bn_binding t; bn_phase := p |}.

Definition lookup_item (item : SourceItem) (db : BindDB) : option SourceBinding :=
  GetBindingBySourceItem (si_SourceID item) (si_ID item) db.

(** The next statement of [Bind]; [resolveExisting] is two of them. *)
Definition bind_step (t : BindCall) (db : BindDB) : option (BindCall * BindDB) :=
  let item := bn_item t in
  match bn_phase t with
  | BLookup => Some (bind_to (match lookup_item item db with Some b => BFetch b false | None => BCreate end) t, db)
  | BFetch b again =>
      Some (bind_to (match bd_tasks db !! sb_TaskID b with
                     | None => BDone (Err ErrMissingTask)
                     | Some task => if again then BDone (Ok task) else BRefresh task
                     end) t, db)
  | BCreate =>
      let task := taskFromItem (bn_task t) item in
      match CreateTaskWithBinding task (bindingFromItem (bn_binding t) (bn_task t) item) db with
      | Ok db => Some (bind_to (BDone (Ok task)) t, db)
      | Err ErrBindingExists => Some (bind_to BAgain t, db)
      | Err e => Some (bind_to (BDone (Err e)) t, db)
      end
  | BAgain =>
      Some (bind_to (match lookup_item item db with
                     | Some b => BFetch b true
                     | None => BDone (Err ErrBindingVanished)
                     end) t, db)
  | BRefresh task => let '(task, db) := refresh task item db in Some (bind_to (BDone (Ok task)) t, db)
  | BDone _ => None
  end.

(** A call that nobody disturbs. *)
Fixpoint bind_run (fuel : nat) (t : BindCall) (db : BindDB) : option (result BindError InternalTask * BindDB) :=
  match bn_phase t with
  | BDone r => Some (r, db)
  | _ => match fuel, bind_step t db with
         | S fuel, Some (t, db) => bind_run fuel t db
         | _, _ => None
         end
  end.

Definition new_bind (item : SourceItem) (taskID bindingID : string) : BindCall :=
  {| bn_item := item; bn_task := taskID; bn_binding := bindingID; bn_phase := BLookup |}.

(** [Bind]; [None] is not reached, see [bind_alone]. *)
Definition bind_item_alone (item : SourceItem) (taskID bindingID : string) (db : BindDB)
    : option (result BindError InternalTask * BindDB) := bind_run 4 (new_bind item taskID bindingID) db.

(** [transientTask] of dispatcher.go. *)
Definition transientTask (cell : SourceItem) : InternalTask := {|
  it_ID := si_ID cell; it_ParentTaskID := ""; it_Title := si_Title cell; it_Description := si_Description cell;
  it_Metadata := metaFromItem cell |}.

(** [bindItem] of dispatcher.go: the task to route on, and whether it is in the
    database; [failed] is an error of the database, such as a busy one. *)
Definition bindItem (failed : bool) (taskID bindingID : string) (cell : SourceItem) (db : BindDB)
    : InternalTask * bool * BindDB :=
  match (if failed then None else bind_item_alone cell taskID bindingID db) with
  | Some (Ok t, db) => (t, true, db)
  | Some (Err _, db) => (transientTask cell, false, db)
  | None => (transientTask cell, false, db)
  end.

(** Several calls at once, and deletions in between. *)
Definition BindSystem : Type := BindDB * list BindCall.

Inductive binder_step : BindSystem -> BindSystem -> Prop :=
  | StepBind db ts i t t' db' : ts !! i = Some t -> bind_step t db = Some (t', db') ->
      binder_step (db, ts) (db', <[i := t']> ts).

Inductive deleting_step : BindSystem -> BindSystem -> Prop :=
  | StepUndisturbed s s' : binder_step s s' -> deleting_step s s'
  | StepUnbind db ts id : deleting_step (db, ts) (DeleteBindingsByTask id db, ts)
  | StepDelete db ts id : ListBindingsByTask id db = [] -> deleting_step (db, ts) (DeleteTaskRow id db, ts).
