(* ===== verification/BinderProps.v ===== *)
(** * Binding source items to tasks: one task per item

    The invariant of concurrent binds, what a bind alone does, and what deletions
    and failures let through. *)

From stdpp Require Import base gmap strings list relations.
From Stdlib Require Import ZArith Ascii.
From S2P Require Import Prelude Text Model Binder.

(** ** The invariant *)

Definition same_item (b : SourceBinding) (item : SourceItem) : Prop :=
  sb_SourceID b = si_SourceID item /\ sb_SourceItemID b = si_ID item.

Lemma of_item_true sourceID itemID b :
  of_item sourceID itemID b = true <-> sb_SourceID b = sourceID /\ sb_SourceItemID b = itemID.
Proof. unfold of_item. by rewrite andb_true_iff, !bool_decide_eq_true. Qed.

Record bindings_ok (db : BindDB) : Prop := {
  bo_unique : forall b1 b2, b1 ∈ bd_bindings db -> b2 ∈ bd_bindings db ->
    sb_SourceID b1 = sb_SourceID b2 -> sb_SourceItemID b1 = sb_SourceItemID b2 -> b1 = b2;
  bo_task : forall b, b ∈ bd_bindings db -> exists t, bd_tasks db !! sb_TaskID b = Some t;
  bo_id : forall id t, bd_tasks db !! id = Some t -> it_ID t = id;
}.

(** The item is bound, to the task [id]. *)
Definition bound_to (db : BindDB) (item : SourceItem) (id : string) : Prop :=
  exists b, b ∈ bd_bindings db /\ same_item b item /\ sb_TaskID b = id.

Definition fresh_call (db : BindDB) (t : BindCall) : Prop :=
  bd_tasks db !! bn_task t = None /\ bn_binding t ∉ (sb_ID <$> bd_bindings db).

Definition call_ok (db : BindDB) (t : BindCall) : Prop :=
  match bn_phase t with
  | BLookup | BCreate => fresh_call db t
  | BFetch b _ => b ∈ bd_bindings db /\ same_item b (bn_item t)
  | BAgain => exists id, bound_to db (bn_item t) id
  | BRefresh task => bound_to db (bn_item t) (it_ID task)
  | BDone (Ok task) => bound_to db (bn_item t) (it_ID task)
  | BDone (Err _) => False
  end.

Definition binder_ok (s : BindSystem) : Prop :=
  bindings_ok s.1 /\ NoDup (bn_task <$> s.2) /\ NoDup (bn_binding <$> s.2) /\ forall t, t ∈ s.2 -> call_ok s.1 t.

Lemma lookup_item_some item db b : lookup_item item db = Some b -> b ∈ bd_bindings db /\ same_item b item.
Proof. intros [H1 H2%of_item_true]%List.find_some. split; [by apply list_elem_of_In|done]. Qed.

Lemma lookup_item_none item db b : lookup_item item db = None -> b ∈ bd_bindings db -> ~ same_item b item.
Proof.
  intros H Hin [H1 H2]. pose proof (proj1 (find_None _ _) H b Hin) as E.
  by rewrite (proj2 (of_item_true _ _ _) (conj H1 H2)) in E.
Qed.

Lemma bound_to_lookup item db id : bindings_ok db -> bound_to db item id ->
  exists b, lookup_item item db = Some b /\ sb_TaskID b = id.
Proof.
  intros Hok (b & Hb & Hi & <-). destruct (lookup_item item db) as [b'|] eqn:E.
  - exists b'. split; [done|]. f_equal. apply lookup_item_some in E as [Hb' [H1 H2]]. destruct Hi.
    apply (bo_unique _ Hok); congruence.
  - by destruct (lookup_item_none _ _ _ E Hb).
Qed.

(** What a statement of one call leaves to the others. *)
Definition extends (db db' : BindDB) (t : BindCall) : Prop :=
  (forall b, b ∈ bd_bindings db -> b ∈ bd_bindings db')
  /\ (forall id, bd_tasks db !! id = None -> id <> bn_task t -> bd_tasks db' !! id = None)
  /\ (forall b, b ∈ bd_bindings db' -> b ∉ bd_bindings db -> sb_ID b = bn_binding t).

Lemma extends_refl db t : extends db db t.
Proof. split_and!; naive_solver. Qed.

Lemma bound_to_extends db db' t item id : extends db db' t -> bound_to db item id -> bound_to db' item id.
Proof. intros (H & _ & _) (b & Hb & Hr). exists b. split; [by apply H|done]. Qed.

Lemma call_ok_extends db db' t t2 :
  extends db db' t -> bn_task t2 <> bn_task t -> bn_binding t2 <> bn_binding t -> call_ok db t2 -> call_ok db' t2.
Proof.
  intros He Ht Hb. pose proof (bound_to_extends db db' t (bn_item t2)) as Hbound.
  assert (fresh_call db t2 -> fresh_call db' t2) as Hfresh.
  { intros [H1 H2]. destruct He as (_ & He & Hnew). split; [by apply He|].
    intros (b & Hid & Hin)%list_elem_of_fmap. destruct (decide (b ∈ bd_bindings db)) as [Ho|Ho].
    - apply H2, list_elem_of_fmap. by exists b.
    - apply Hb. by rewrite Hid, (Hnew b Hin Ho). }
  unfold call_ok. destruct (bn_phase t2) as [|b again| | |task|[task|e]]; try done; auto.
  - intros [H1 H2]. split; [by apply He|done].
  - intros [id Hid]. exists id. auto.
Qed.

Lemma refresh_ok db item task task' db' t :
  bindings_ok db -> bound_to db item (it_ID task) -> refresh task item db = (task', db') ->
  bindings_ok db' /\ extends db db' t /\ it_ID task' = it_ID task.
Proof.
  unfold refresh. intros Hok Hbound. destruct (in_step task item); intros [= <- <-]; [by eauto using extends_refl|].
  unfold UpdateTaskMetadata, extends. cbn. split_and!; try done.
  - destruct Hok as [H1 H2 H3]. split; cbn; [done| |].
    + intros b (t0 & Ht)%H2. destruct (decide (it_ID task = sb_TaskID b)) as [E|E].
      * rewrite E, lookup_alter_eq, Ht. by eexists.
      * rewrite lookup_alter_ne by done. by exists t0.
    + intros id t0. destruct (decide (it_ID task = id)) as [<-|E]; [|rewrite lookup_alter_ne by done; apply H3].
      rewrite lookup_alter_eq. destruct (bd_tasks db !! it_ID task) eqn:E; [|done]. intros [= <-]. cbn. by apply H3.
  - intros id Hid _. destruct (decide (it_ID task = id)) as [<-|E]; [by rewrite lookup_alter_eq, Hid|by rewrite lookup_alter_ne].
Qed.

Lemma create_ok db t :
  bindings_ok db -> fresh_call db t ->
  match CreateTaskWithBinding (taskFromItem (bn_task t) (bn_item t)) (bindingFromItem (bn_binding t) (bn_task t) (bn_item t)) db with
  | Ok db' => bindings_ok db' /\ extends db db' t /\ bound_to db' (bn_item t) (bn_task t)
  | Err e => e = ErrBindingExists /\ exists id, bound_to db (bn_item t) id
  end.
Proof.
  intros Hok [Hf1 Hf2]. unfold CreateTaskWithBinding, insertBinding. cbn [it_ID taskFromItem]. rewrite Hf1. cbn.
  unfold str_in. rewrite bool_decide_false by done.
  destruct (existsb _ (bd_bindings db)) eqn:E.
  - apply existsb_elem in E as (b & Hb & Hi%of_item_true). split; [done|]. exists (sb_TaskID b), b. by split.
  - assert (forall b, b ∈ bd_bindings db -> ~ same_item b (bn_item t)) as Hno.
    { intros b Hb Hi. apply not_true_iff_false in E. apply E, existsb_elem. exists b. split; [done|].
      by apply of_item_true. }
    split_and!.
    + split; cbn.
      * intros b1 b2. rewrite !elem_of_app, !list_elem_of_singleton. intros [H1| ->] [H2| ->] Hs Hi; try done.
        -- by apply (bo_unique _ Hok).
        -- by destruct (Hno b1 H1).
        -- by destruct (Hno b2 H2).
      * intros b [Hb| ->%list_elem_of_singleton]%elem_of_app.
        -- destruct (bo_task _ Hok b Hb) as [t0 Ht]. rewrite lookup_insert_ne; [by exists t0|]. intros E2. congruence.
        -- rewrite lookup_insert_eq. by eexists.
      * intros id t0. rewrite lookup_insert. case_decide; [|by apply (bo_id _ Hok)]. by intros [= <-].
    + split_and!; cbn.
      * intros b Hb. apply elem_of_app. by left.
      * intros id Hid Hne. by rewrite lookup_insert_ne.
      * intros b [Hb| ->%list_elem_of_singleton]%elem_of_app Hn; done.
    + eexists. split; [apply elem_of_app; right; by apply list_elem_of_singleton|]. done.
Qed.

Lemma bind_step_ok db ts i t t' db' :
  binder_ok (db, ts) -> ts !! i = Some t -> bind_step t db = Some (t', db') ->
  bindings_ok db' /\ extends db db' t /\ call_ok db' t' /\ bn_task t' = bn_task t /\ bn_binding t' = bn_binding t
  /\ bn_item t' = bn_item t.
Proof.
  intros (Hok & _ & _ & Hts) Hi. cbn in *. assert (call_ok db t) as Ht by (apply Hts; by eapply list_elem_of_lookup_2).
  unfold bind_step. unfold call_ok in Ht. destruct (bn_phase t) as [|b again| | |task|r] eqn:Ep.
  - intros [= <- <-]. split_and!; [done|apply extends_refl| |done..]. unfold call_ok. cbn.
    destruct (lookup_item (bn_item t) db) as [b|] eqn:E; [by apply lookup_item_some|done].
  - intros [= <- <-]. split_and!; [done|apply extends_refl| |done..]. unfold call_ok. cbn. destruct Ht as [Hb Hi'].
    destruct (bo_task _ Hok b Hb) as [task Htask]. rewrite Htask. apply (bo_id _ Hok) in Htask as Hid.
    destruct again; exists b; by rewrite Hid.
  - pose proof (create_ok db t Hok Ht) as Hc.
    destruct (CreateTaskWithBinding _ _ _) as [db1|e].
    + intros [= <- <-]. destruct Hc as (H1 & H2 & H3). by split_and!.
    + destruct Hc as [-> Hb]. intros [= <- <-]. split_and!; [done|apply extends_refl|done..].
  - destruct Ht as [id Hid]. destruct (bound_to_lookup _ _ _ Hok Hid) as (b & Hl & _). rewrite Hl.
    intros [= <- <-]. split_and!; [done|apply extends_refl| |done..]. by apply lookup_item_some.
  - destruct (refresh task (bn_item t) db) as [task' db1] eqn:Er. intros [= <- <-].
    destruct (refresh_ok db (bn_item t) task task' db1 t Hok Ht Er) as (H1 & H2 & H3).
    split_and!; try done. unfold call_ok. cbn. rewrite H3. by eapply bound_to_extends.
  - done.
Qed.

Lemma other_calls {A} (f : BindCall -> A) ts i j t t2 :
  NoDup (f <$> ts) -> ts !! i = Some t -> ts !! j = Some t2 -> i <> j -> f t2 <> f t.
Proof.
  intros Hnd Hi Hj Hne E. apply Hne. eapply NoDup_lookup; [exact Hnd|by rewrite list_lookup_fmap, Hi|].
  by rewrite list_lookup_fmap, Hj, <- E.
Qed.

Lemma binder_step_ok s s' : binder_ok s -> binder_step s s' -> binder_ok s'.
Proof.
  intros Hok Hs. destruct Hs as [db ts i t t' db' Hi Hb].
  destruct (bind_step_ok db ts i t t' db' Hok Hi Hb) as (H1 & He & H3 & E1 & E2 & _).
  destruct Hok as (_ & Hn1 & Hn2 & Hts). cbn in *.
  assert (i < length ts) as Hlt by (by eapply lookup_lt_Some).
  split_and!; cbn; [done| | |].
  - rewrite list_fmap_insert, E1. by rewrite list_insert_id by (by rewrite list_lookup_fmap, Hi).
  - rewrite list_fmap_insert, E2. by rewrite list_insert_id by (by rewrite list_lookup_fmap, Hi).
  - intros t2 Hin. apply list_elem_of_lookup_1 in Hin as [j Hj]. destruct (decide (i = j)) as [<-|Hne].
    + rewrite list_lookup_insert_eq in Hj by done. by injection Hj as <-.
    + rewrite list_lookup_insert_ne in Hj by done. apply (call_ok_extends db db' t); [done| | |].
      * by eapply other_calls.
      * by eapply (other_calls bn_binding).
      * apply Hts. by eapply list_elem_of_lookup_2.
Qed.

(** Every task beyond those of [db0] is bound. *)
Definition no_orphans (db0 db : BindDB) : Prop :=
  forall id, is_Some (bd_tasks db !! id) ->
    is_Some (bd_tasks db0 !! id) \/ exists b, b ∈ bd_bindings db /\ sb_TaskID b = id.

Lemma bind_step_no_orphans db0 t db t' db' :
  no_orphans db0 db -> bind_step t db = Some (t', db') -> no_orphans db0 db'.
Proof.
  intros Hno. unfold bind_step. destruct (bn_phase t) as [|b again| | |task|r]; try (by intros [= <- <-]); try done.
  - unfold CreateTaskWithBinding, insertBinding. cbn [it_ID taskFromItem].
    destruct (bd_tasks db !! bn_task t); [by intros [= <- <-]|]. cbn.
    destruct (str_in _ _); [by intros [= <- <-]|]. destruct (existsb _ _); intros [= <- <-]; [done|].
    intros id. cbn. rewrite lookup_insert. case_decide as E.
    + intros _. right. eexists. split; [apply elem_of_app; right; by apply list_elem_of_singleton|done].
    + intros [H|(b & Hb & He)]%Hno; [by left|right]. exists b. split; [apply elem_of_app; by left|done].
  - unfold refresh. destruct (in_step task (bn_item t)); intros [= <- <-]; [done|]. intros id. cbn.
    destruct (decide (it_ID task = id)) as [<-|E]; [rewrite lookup_alter_eq, fmap_is_Some; apply Hno|].
    rewrite lookup_alter_ne by done. apply Hno.
Qed.

(** A database and calls to come, with the ids they will draw. *)
Definition binds_start (db : BindDB) (ts : list BindCall) : Prop :=
  bindings_ok db /\ NoDup (bn_task <$> ts) /\ NoDup (bn_binding <$> ts)
  /\ forall t, t ∈ ts -> bn_phase t = BLookup /\ fresh_call db t.

Lemma binds_reachable db ts db' ts' :
  binds_start db ts -> rtc binder_step (db, ts) (db', ts') -> binder_ok (db', ts') /\ no_orphans db db'.
Proof.
  intros (Hok & Hn1 & Hn2 & Hts) Hr.
  assert (binder_ok (db, ts) /\ no_orphans db (db, ts).1) as H0.
  { split; [|by left]. split_and!; try done. intros t Hin. destruct (Hts t Hin) as [Hp Hf].
    unfold call_ok. cbn. by rewrite Hp. }
  change db' with (db', ts').1 at 2. revert H0 Hr. generalize (db, ts) as s, (db', ts') as s'. clear. intros s s' H0 Hr.
  induction Hr as [|s s1 s' Hs _ IH]; [done|]. apply IH. destruct H0 as [H1 H2]. split; [by eapply binder_step_ok|].
  destruct Hs. cbn in *. by eapply bind_step_no_orphans.
Qed.

(** C27: however any number of binds interleave, none fails; all that bind one item
    return one task, the one the item stays bound to; every item has one binding,
    every binding a task, and no task is created that is not bound. *)
Theorem bind_once (db : BindDB) (ts : list BindCall) (db' : BindDB) (ts' : list BindCall) :
  binds_start db ts -> rtc binder_step (db, ts) (db', ts') ->
  bindings_ok db'
  /\ (forall t r, t ∈ ts' -> bn_phase t = BDone r -> exists task, r = Ok task /\ bound_to db' (bn_item t) (it_ID task))
  /\ (forall t1 t2 k1 k2, t1 ∈ ts' -> t2 ∈ ts' -> bn_phase t1 = BDone (Ok k1) -> bn_phase t2 = BDone (Ok k2) ->
        si_SourceID (bn_item t1) = si_SourceID (bn_item t2) -> si_ID (bn_item t1) = si_ID (bn_item t2) -> it_ID k1 = it_ID k2)
  /\ (forall id, is_Some (bd_tasks db' !! id) ->
        is_Some (bd_tasks db !! id) \/ exists b, b ∈ bd_bindings db' /\ sb_TaskID b = id).
Proof.
  intros Hs Hr. destruct (binds_reachable _ _ _ _ Hs Hr) as [(Hok & _ & _ & Hts) Hno]. cbn in Hok, Hts.
  assert (forall t r, t ∈ ts' -> bn_phase t = BDone r ->
    exists task, r = Ok task /\ bound_to db' (bn_item t) (it_ID task)) as Hdone.
  { intros t r Hin Hp. specialize (Hts t Hin). unfold call_ok in Hts. rewrite Hp in Hts.
    destruct r as [task|e]; [by exists task|done]. }
  split_and!; [done|done| |exact Hno]. intros t1 t2 k1 k2 H1 H2 P1 P2 Es Ei.
  destruct (Hdone t1 _ H1 P1) as (? & [= <-] & b1 & Hb1 & [S1 I1] & <-).
  destruct (Hdone t2 _ H2 P2) as (? & [= <-] & b2 & Hb2 & [S2 I2] & <-).
  f_equal. apply (bo_unique _ Hok); congruence.
Qed.

(** ** A bind alone *)

(** Without others in between, a bind ends after at most three statements, and the
    task it returns is in step with the item, in the database too; nothing else of
    the task changes, and binding again changes nothing. *)
Lemma bind_alone item taskID bindingID db :
  bindings_ok db -> fresh_call db (new_bind item taskID bindingID) ->
  exists t db', bind_item_alone item taskID bindingID db = Some (Ok t, db')
    /\ bindings_ok db' /\ bound_to db' item (it_ID t) /\ in_step t item = true /\ bd_tasks db' !! it_ID t = Some t
    /\ (forall id, id <> it_ID t -> bd_tasks db' !! id = bd_tasks db !! id)
    /\ (forall taskID' bindingID', bind_item_alone item taskID' bindingID' db' = Some (Ok t, db')).
Proof.
  intros Hok Hf. unfold bind_item_alone.
  assert (forall id t, it_ID (refreshed t item) = id -> in_step (refreshed t item) item = true) as Hin.
  { intros. unfold in_step. cbn. by rewrite !bool_decide_true. }
  assert (forall db' t b, lookup_item item db' = Some b -> bd_tasks db' !! sb_TaskID b = Some t -> in_step t item = true ->
    forall k1 k2, bind_run 4 (new_bind item k1 k2) db' = Some (Ok t, db')) as Hagain.
  { intros db' t b Hl Ht Hi k1 k2. cbn -[lookup_item]. rewrite Hl. cbn. rewrite Ht. cbn. unfold refresh. by rewrite Hi. }
  cbn -[lookup_item CreateTaskWithBinding]. destruct (lookup_item item db) as [b|] eqn:El; cbn -[lookup_item CreateTaskWithBinding].
  - apply lookup_item_some in El as Hb. destruct Hb as [Hb Hi]. destruct (bo_task _ Hok b Hb) as [t Ht]. rewrite Ht. cbn.
    apply (bo_id _ Hok) in Ht as Hid. destruct (refresh t item db) as [t' db'] eqn:Er. cbn. exists t', db'.
    assert (bound_to db item (it_ID t)) as Hbt by (exists b; by rewrite Hid).
    destruct (refresh_ok db item t t' db' (new_bind item taskID bindingID) Hok Hbt Er) as (H1 & He & H3).
    unfold refresh in Er. split; [done|]. split; [done|]. split; [rewrite H3; by eapply bound_to_extends|].
    destruct (in_step t item) eqn:Ei; injection Er as <- <-.
    + rewrite Hid. split_and!; try done. by eapply Hagain.
    + assert (bd_tasks (UpdateTaskMetadata (it_ID t) item db) !! sb_TaskID b = Some (refreshed t item)) as Hnew.
      { cbn. rewrite Hid, lookup_alter_eq, Ht. done. }
      split_and!; [by eapply Hin|by rewrite <- Hid in Hnew| |].
      * intros id Hne. cbn. by rewrite lookup_alter_ne.
      * eapply Hagain; [exact El|exact Hnew|by eapply Hin].
  - pose proof (create_ok db (new_bind item taskID bindingID) Hok Hf) as Hc. cbn -[CreateTaskWithBinding] in Hc.
    destruct (CreateTaskWithBinding _ _ db) as [db'|e] eqn:Ec.
    + cbn. destruct Hc as (H1 & He & H3). exists (taskFromItem taskID item), db'.
      assert (in_step (taskFromItem taskID item) item = true) as Hi by (unfold in_step; cbn; by rewrite !bool_decide_true).
      assert (bd_tasks db' = <[taskID := taskFromItem taskID item]> (bd_tasks db)) as Htasks.
      { unfold CreateTaskWithBinding, insertBinding in Ec. cbn in Ec. destruct (bd_tasks db !! taskID); [done|].
        destruct (str_in _ _); [done|]. destruct (existsb _ _); [done|]. by injection Ec as <-. }
      assert (bd_tasks db' !! taskID = Some (taskFromItem taskID item)) as Ht by (by rewrite Htasks, lookup_insert_eq).
      split_and!; try done.
      * intros id Hne. cbn in Hne. by rewrite Htasks, lookup_insert_ne.
      * destruct (bound_to_lookup _ _ _ H1 H3) as (b & Hl & Hb). eapply Hagain; [exact Hl| |done]. by rewrite Hb.
    + destruct Hc as [_ [id (b & Hb & Hi & _)]]. by destruct (lookup_item_none _ _ _ El Hb).
Qed.

(** ** Witnesses *)

(** The calls move in the given order. *)
Fixpoint play_binds (turns : list nat) (s : BindSystem) : option BindSystem :=
  match turns with
  | [] => Some s
  | i :: turns =>
      match s.2 !! i ≫= (fun t => bind_step t s.1) with
      | Some (t, db) => play_binds turns (db, <[i := t]> s.2)
      | None => None
      end
  end.

Lemma play_binds_reachable turns s s' : play_binds turns s = Some s' -> rtc binder_step s s'.
Proof.
  revert s. induction turns as [|i turns IH]; intros [db ts]; simpl; [by intros [= <-]|].
  destruct (ts !! i) as [t|] eqn:Ei; [|done]. cbn. destruct (bind_step t db) as [[t' db']|] eqn:Eb; [|done].
  intros H%IH. eapply rtc_l; [by econstructor|exact H].
Qed.

Definition issue_7 : SourceItem := {|
  si_ID := "7"; si_SourceID := "gh"; si_Number := "#7"; si_Title := "seven"; si_Description := ""; si_Labels := ["bug"];
  si_Type := "issue"; si_Priority := ""; si_State := "open"; si_URL := ""; si_Comments := [] |}.

Definition no_bindings : BindDB := {| bd_tasks := ∅; bd_bindings := [] |}.

Definition racing_binds : list BindCall := [new_bind issue_7 "t1" "b1"; new_bind issue_7 "t2" "b2"].

(** Both calls look the item up before either creates its rows: the second loses
    and returns the task of the first. *)
Definition race : option BindSystem := play_binds [0; 1; 0; 1; 1; 1] (no_bindings, racing_binds).

Lemma bind_once_witness :
  exists db ts, race = Some (db, ts)
    /\ (forall t1 t2 k1 k2, t1 ∈ ts -> t2 ∈ ts -> bn_phase t1 = BDone (Ok k1) -> bn_phase t2 = BDone (Ok k2) ->
          si_SourceID (bn_item t1) = si_SourceID (bn_item t2) -> si_ID (bn_item t1) = si_ID (bn_item t2) ->
          it_ID k1 = it_ID k2)
    /\ (bn_phase <$> ts) = [BDone (Ok (taskFromItem "t1" issue_7)); BDone (Ok (taskFromItem "t1" issue_7))].
Proof.
  destruct race as [[db ts]|] eqn:E; [|vm_compute in E; discriminate E].
  exists db, ts. split; [reflexivity|].
  destruct (bind_once no_bindings racing_binds db ts) as (_ & _ & H & _).
  - split; [|split; [|split]].
    + split; [intros b1 b2 H; by apply elem_of_nil in H|intros b H; by apply elem_of_nil in H|].
      intros id t H. vm_compute in H. discriminate H.
    + apply (bool_decide_unpack _). vm_compute. exact I.
    + apply (bool_decide_unpack _). vm_compute. exact I.
    + intros t H. unfold racing_binds in H. rewrite !elem_of_cons, elem_of_nil in H.
      destruct H as [->|[->|[]]]; split; try reflexivity; split; try reflexivity; intros H; by apply elem_of_nil in H.
  - exact (play_binds_reachable _ _ _ E).
  - split; [exact H|]. vm_compute in E. injection E as <- <-. reflexivity.
Defined.
