(* ===== verification/Polling.v ===== *)
(** * The polling loop (src/internal/daemon/dispatcher.go)

    What a poll does with each item its source reports: the in-flight marker that
    keeps an item from being dispatched by two polls at once, the binding, the
    routes, the guards, and the fan-out to the queue or to goroutines of this
    process; the restart that routes an item again; and the watermark the loop
    hands to the adapter. A poll's steps for one item are one transition: the
    marker is taken by one atomic operation, and everything until it is given back
    concerns that item only. Logs and the warning about old markers are not
    modelled. *)

From stdpp Require Import base gmap strings list relations.
From Stdlib Require Import ZArith Ascii.
From S2P Require Import Prelude State Model Config Router Queue Tasks Dispatch Binder.

(** ** The watermark *)

(** One tick of [pollLoop]: when it started, when the adapter read the source,
    when the poll was over, and what the adapter answered. *)
Record Tick := {
  tk_started : Z;
  tk_read : Z;
  tk_ended : Z;
  tk_answer : option (list SourceItem);
}.

(** [lastPoll] after a tick; the loop's first poll takes the time after it. *)
Definition advance (first : bool) (t : Tick) (lastPoll : option Z) : option Z :=
  match tk_answer t with
  | None => lastPoll
  | Some _ => Some (if first then tk_ended t else tk_started t)
  end.

(** [pollLoop]: the time handed to the adapter at each tick. *)
Fixpoint pollLoop (first : bool) (lastPoll : option Z) (ticks : list Tick) : list (option Z) :=
  match ticks with
  | [] => []
  | t :: ticks => lastPoll :: pollLoop false (advance first t lastPoll) ticks
  end.

(** ** The dispatcher's own state *)

(** A goroutine of an inline fan-out. *)
Record Launched := {
  la_cell : string;
  la_round : nat;
  la_owns : bool;                     (* ownsInFlight *)
  la_task : InternalTask;
  la_match : Match;
}.

Record PollState := {
  po_inFlight : gmap string Z;        (* cell to the time it was marked *)
  po_notified : gmap string string;   (* task to the last reported signature *)
  po_runs : list Launched;
  po_rounds : nat;
  po_bind : BindDB;
  po_stores : Stores;
}.

Definition with_inFlight (m : gmap string Z) (s : PollState) : PollState := {|
  po_inFlight := m; po_notified := po_notified s; po_runs := po_runs s; po_rounds := po_rounds s;
  po_bind := po_bind s; po_stores := po_stores s |}.
Definition with_notified (m : gmap string string) (s : PollState) : PollState := {|
  po_inFlight := po_inFlight s; po_notified := m; po_runs := po_runs s; po_rounds := po_rounds s;
  po_bind := po_bind s; po_stores := po_stores s |}.
Definition with_bind (b : BindDB) (s : PollState) : PollState := {|
  po_inFlight := po_inFlight s; po_notified := po_notified s; po_runs := po_runs s; po_rounds := po_rounds s;
  po_bind := b; po_stores := po_stores s |}.
Definition with_stores (w : Stores) (s : PollState) : PollState := {|
  po_inFlight := po_inFlight s; po_notified := po_notified s; po_runs := po_runs s; po_rounds := po_rounds s;
  po_bind := po_bind s; po_stores := w |}.
Definition with_runs (runs : list Launched) (rounds : nat) (s : PollState) : PollState := {|
  po_inFlight := po_inFlight s; po_notified := po_notified s; po_runs := runs; po_rounds := rounds;
  po_bind := po_bind s; po_stores := po_stores s |}.

Definition mark (cell : string) (now : Z) (s : PollState) : PollState :=
  with_inFlight (<[cell := now]> (po_inFlight s)) s.
Definition unmark (cell : string) (s : PollState) : PollState := with_inFlight (delete cell (po_inFlight s)) s.

(** What happens outside during one item's turn: an error of the binder, the ids
    it draws, whether the outstanding count could be raised, and what the queue
    draws for the k-th match. *)
Record Turn := {
  tn_now : Z;
  tn_bindFailed : bool;
  tn_taskID : string;
  tn_bindingID : string;
  tn_counted : bool;
  tn_job : nat -> string * Z;
}.

(** The row the binder's insert leaves in the columns of Tasks.v. *)
Definition registered_row : TaskRow :=
  {| tk_state := state.Queued; tk_reason := ""; tk_outstanding := 0; tk_generation := 0 |}.

Definition with_row (taskID : string) (db : Tables) : Tables :=
  match internal_tasks db !! taskID with
  | Some _ => db
  | None => set_tasks (<[taskID := registered_row]> (internal_tasks db)) db
  end.

Definition with_bound (task : InternalTask) (persisted : bool) (b : BindDB) (s : PollState) : PollState :=
  let s := with_bind b s in
  if persisted then with_stores (on_tables (with_row (it_ID task)) (po_stores s)) s else s.

Section polling.
Context {RT : GoRuntime} {PC : PayloadCodec}.
Context (d : Dispatcher) (r : Router) (resuming : gset string) (queued : bool).

(** [reportFullyDropped]: once while the signature stays the same. *)
Definition reportFullyDropped (cell : SourceItem) (task : InternalTask) (gone : list droppedMatch)
    (suppressed : suppressedRoutes) (s : PollState) : PollState :=
  let signature := dropSignature gone suppressed in
  if bool_decide (po_notified s !! it_ID task = Some signature) then s
  else with_notified (<[it_ID task := signature]> (po_notified s))
    (with_stores (foldl (fun w g => log_event {|
       ee_Type := "dispatch.dropped"; ee_TaskID := it_ID task; ee_WorkflowID := dm_WorkflowID g;
       ee_Metadata := [("reason", dm_Reason g); ("detail", dm_Detail g); ("source_item_id", si_ID cell)]
         ++ (if bool_decide (dm_WorkflowID g = sp_ExclusiveWorkflowID suppressed)
                && negb (bool_decide (sp_WorkflowIDs suppressed = []))
             then [("suppressed", str_join "," (sp_WorkflowIDs suppressed))] else []) |} w) (po_stores s) gone) s).

(** [fanOut] without a wait group. Inline, the goroutines of a round give the
    marker back when the last of them returns, see [end_launched]. *)
Definition fanOut (e : Turn) (cell : SourceItem) (task : InternalTask) (persisted : bool) (matches : list Match)
    (idemSuffix : string) (owns : bool) (s : PollState) : PollState :=
  match matches with
  | [] => if owns then unmark (si_ID cell) s else s
  | _ =>
      if persisted && queued then
        let w := (enqueueFanOut d cell task idemSuffix (tn_counted e) (imap (fun k m => (m, tn_job e k)) matches) (po_stores s)).1 in
        let s := with_stores w s in if owns then unmark (si_ID cell) s else s
      else
        let s := if persisted && tn_counted e
                 then with_stores (on_tables (fun db => (IncrementOutstanding (it_ID task) (Z.of_nat (length matches)) db).2)
                                     (po_stores s)) s
                 else s in
        with_runs (po_runs s ++ ((fun m => {| la_cell := si_ID cell; la_round := po_rounds s; la_owns := owns;
                                              la_task := task; la_match := m |}) <$> matches))
                  (S (po_rounds s)) s
  end.

(** The k-th goroutine returns. *)
Definition end_launched (k : nat) (s : PollState) : PollState :=
  match po_runs s !! k with
  | None => s
  | Some run =>
      let rest := delete k (po_runs s) in
      let s := with_runs rest (po_rounds s) s in
      if la_owns run && negb (existsb (fun x => la_round x =? la_round run) rest) then unmark (la_cell run) s else s
  end.

(** The guards of a poll, on the tables as they are. *)
Definition guard_env (s : PollState) : GuardEnv := store_guards resuming (d_MaxAttempts d) (w_tables (po_stores s)).

(** The turn of one item in [poll]. *)
Definition poll_cell (e : Turn) (cell : SourceItem) (s : PollState) : PollState :=
  match po_inFlight s !! si_ID cell with
  | Some _ => s
  | None =>
      let s := mark (si_ID cell) (tn_now e) s in
      let '(task, persisted, b) := bindItem (tn_bindFailed e) (tn_taskID e) (tn_bindingID e) cell (po_bind s) in
      let s := with_bound task persisted b s in
      let '(matches, suppressed) := RouteAllWithSuppressed r task in
      let '(kept, gone) := poll_guards (guard_env s) (it_ID task) persisted matches in
      match kept with
      | [] =>
          unmark (si_ID cell)
            (if bool_decide (matches = []) || bool_decide (gone = []) then s
             else reportFullyDropped cell task gone (suppressed_of matches suppressed) s)
      | _ => fanOut e cell task persisted kept "" true (with_notified (delete (it_ID task) (po_notified s)) s)
      end
  end.

(** [poll], on the items of the adapter's answer, oldest first. *)
Definition poll (cells : list (Turn * SourceItem)) (s : PollState) : PollState :=
  foldl (fun s '(e, cell) => poll_cell e cell s) s cells.

(** [redispatchCell]: the workflows dispatched and the guards overridden. *)
Definition redispatchCell (e : Turn) (cell : SourceItem) (s : PollState) : list string * list string * PollState :=
  match po_inFlight s !! si_ID cell with
  | Some _ => ([], [], s)
  | None =>
      let s := mark (si_ID cell) (tn_now e) s in
      let '(task, persisted, b) := bindItem (tn_bindFailed e) (tn_taskID e) (tn_bindingID e) cell (po_bind s) in
      let s := with_bound task persisted b s in
      let '(kept, _, overridden) := restart_guards (guard_env s) (it_ID task) persisted (RouteAll r task) in
      match kept with
      | [] => ([], overridden, unmark (si_ID cell) s)
      | _ =>
          let w := po_stores s in
          let w := if persisted && queued
                   then foldl (fun w m => put_queue (RequestCancelFor (tn_now e) (it_ID task) (route_id m) (w_queue w)).2 w) w kept
                   else w in
          let w := if persisted then on_tables (fun db => (BumpGeneration (it_ID task) db).2) w else w in
          let s := with_notified (delete (it_ID task) (po_notified s)) (with_stores w s) in
          (route_id <$> kept, overridden, fanOut e cell task persisted kept "" true s)
      end
  end.

(** The loop and the goroutines it launched, and the fan-outs of manual runs, which
    own no marker; a restart first forgets the marker of its cell. *)
Inductive polling_step : PollState -> PollState -> Prop :=
  | PollCell e cell s : polling_step s (poll_cell e cell s)
  | FanOutBeside e cell task persisted matches suffix s :
      polling_step s (fanOut e cell task persisted matches suffix false s)
  | EndLaunched k s : polling_step s (end_launched k s).

Inductive restarting_step : PollState -> PollState -> Prop :=
  | RsPolling s s' : polling_step s s' -> restarting_step s s'
  | RsRestart e cell s : restarting_step s (redispatchCell e cell (unmark (si_ID cell) s)).2.
End polling.
