(* ===== verification/PollingProps.v ===== *)
(** * The polling loop: what it offers, and what its markers hold

    No update of an item is passed over by the watermark but those of the first
    poll's own duration; the in-flight markers are held exactly by the goroutines
    of inline fan-outs; and where items, restarts and failures slip through. *)

From stdpp Require Import base gmap strings list relations.
From Stdlib Require Import ZArith Ascii.
From S2P Require Import Prelude State Model Config Router Queue Tasks Dispatch DispatchProps Binder Polling.

(** ** The watermark *)

(** The ticks follow one another. *)
Definition in_order (ticks : list Tick) : Prop :=
  (forall k t, ticks !! k = Some t -> (tk_started t <= tk_read t <= tk_ended t)%Z)
  /\ (forall j k t1 t2, j < k -> ticks !! j = Some t1 -> ticks !! k = Some t2 -> (tk_ended t1 <= tk_started t2)%Z).

Definition is_update_since (since : option Z) (u : Z) : Prop :=
  match since with None => True | Some s => (s < u)%Z end.

(** The adapter's contract: what it reports are the items updated since the time
    it was handed, all of them ([reports_all]) and no others ([reports_only]). *)
Definition reports_all (updates : list (string * Z)) (ticks : list Tick) : Prop :=
  forall k t since cells id u, ticks !! k = Some t -> pollLoop true None ticks !! k = Some since ->
    tk_answer t = Some cells -> (id, u) ∈ updates -> (u <= tk_read t)%Z -> is_update_since since u ->
    exists cell, cell ∈ cells /\ si_ID cell = id.

Definition reports_only (updates : list (string * Z)) (ticks : list Tick) : Prop :=
  forall k t since cells cell, ticks !! k = Some t -> pollLoop true None ticks !! k = Some since ->
    tk_answer t = Some cells -> cell ∈ cells ->
    exists u, (si_ID cell, u) ∈ updates /\ (u <= tk_read t)%Z /\ is_update_since since u.

Lemma pollLoop_length first last ticks : length (pollLoop first last ticks) = length ticks.
Proof. revert first last. induction ticks as [|t ticks IH]; intros; [done|]. cbn. by rewrite IH. Qed.

Lemma pollLoop_since first last ticks k since :
  pollLoop first last ticks !! k = Some since ->
  since = last
  \/ exists j t, j < k /\ ticks !! j = Some t /\ is_Some (tk_answer t)
       /\ since = Some (if first && (j =? 0) then tk_ended t else tk_started t).
Proof.
  revert first last k. induction ticks as [|t ticks IH]; intros first last k; [done|].
  destruct k as [|k]; cbn; [intros [= <-]; by left|]. intros [->|(j & t' & Hj & Ht & Ha & ->)]%IH.
  - unfold advance. destruct (tk_answer t) eqn:Ea; [right|by left]. exists 0, t. rewrite Ea.
    split_and!; [lia|done|by eexists|]. by rewrite andb_true_r.
  - right. exists (S j), t'. split_and!; [lia|done|done|]. by rewrite andb_false_r.
Qed.

(** A poll after which the watermark is at least some time stays behind. *)
Lemma pollLoop_after first last ticks k since j t :
  in_order ticks -> pollLoop first last ticks !! k = Some since -> j < k -> ticks !! j = Some t -> is_Some (tk_answer t) ->
  exists s, since = Some s /\ (tk_started t <= s)%Z.
Proof.
  intros [Ho1 Ho2]. revert first last j k Ho1 Ho2. induction ticks as [|t0 ticks IH]; intros first last j k Ho1 Ho2; [done|].
  destruct k as [|k]; [lia|]. cbn. intros Hk Hj Ht Ha.
  destruct j as [|j].
  - cbn in Ht. injection Ht as ->. destruct Ha as [cells Ha].
    pose proof (Ho1 0 t eq_refl) as H0.
    apply pollLoop_since in Hk as [->|(j' & t' & Hj' & Ht' & _ & ->)].
    + unfold advance. rewrite Ha. eexists. split; [done|]. destruct first; lia.
    + eexists. split; [done|]. cbn. pose proof (Ho2 0 (S j') t t' ltac:(lia) eq_refl Ht'). lia.
  - eapply (IH false _ j k); [| |exact Hk|lia|exact Ht|exact Ha].
    + intros i x Hx. apply (Ho1 (S i) x Hx).
    + intros i1 i2 x1 x2 Hi H1 H2. apply (Ho2 (S i1) (S i2)); [lia|done|done].
Qed.

(** C29: every update of an item is reported by a poll that read the source after
    it, as soon as one succeeded: failed polls keep the watermark. The one
    exception are updates between the first poll's reading of the source and its
    end, when that poll succeeds: its watermark is the time it ended. *)
Theorem no_update_missed (updates : list (string * Z)) (ticks : list Tick) (id : string) (u : Z) (n : nat) (t : Tick) :
  in_order ticks -> reports_all updates ticks -> (id, u) ∈ updates ->
  ticks !! n = Some t -> is_Some (tk_answer t) -> (u <= tk_read t)%Z ->
  (exists k tk cells cell, k <= n /\ ticks !! k = Some tk /\ tk_answer tk = Some cells /\ (u <= tk_read tk)%Z
     /\ cell ∈ cells /\ si_ID cell = id)
  \/ exists t0, ticks !! 0 = Some t0 /\ is_Some (tk_answer t0) /\ (tk_read t0 < u <= tk_ended t0)%Z.
Proof.
  intros [Ho1 Ho2] Hall Hup. revert t. induction n as [n IH] using lt_wf_ind. intros t Ht [cells Ha] Hu.
  assert (exists since, pollLoop true None ticks !! n = Some since) as [since Hs].
  { apply lookup_lt_is_Some. rewrite pollLoop_length. by eapply lookup_lt_Some. }
  assert (is_update_since since u -> exists k tk cells cell, k <= n /\ ticks !! k = Some tk /\ tk_answer tk = Some cells
    /\ (u <= tk_read tk)%Z /\ cell ∈ cells /\ si_ID cell = id) as Hnow.
  { intros Hsince. destruct (Hall n t since cells id u Ht Hs Ha Hup Hu Hsince) as (cell & Hc & Hid).
    by exists n, t, cells, cell. }
  destruct (pollLoop_since _ _ _ _ _ Hs) as [->|(j & tj & Hj & Htj & Haj & ->)]; [left; by apply Hnow|].
  destruct (decide (u <= tk_read tj)%Z) as [Hle|Hgt].
  { destruct (IH j Hj tj Htj Haj Hle) as [(k & tk & cs & cell & Hk & Hrest)|H0]; [left|by right].
    exists k, tk, cs, cell. split; [lia|done]. }
  pose proof (Ho1 j tj Htj) as Hjo. destruct j as [|j]; cbn in Hnow.
  - destruct (decide (u <= tk_ended tj)%Z) as [He|He]; [right; exists tj; split_and!; [done|done|lia|lia]|].
    left. apply Hnow. lia.
  - left. apply Hnow. lia.
Qed.

(** An adapter that reports only what changed does not report an item again that
    nobody touched since a poll started: a round that failed without changing the
    item is not polled again, whatever attempts its task has left. *)
Lemma untouched_item_not_offered updates ticks j n tj tn id cells :
  in_order ticks -> reports_only updates ticks -> j < n -> ticks !! j = Some tj -> is_Some (tk_answer tj) ->
  (forall u, (id, u) ∈ updates -> (u <= tk_started tj)%Z) ->
  ticks !! n = Some tn -> tk_answer tn = Some cells -> forall cell, cell ∈ cells -> si_ID cell <> id.
Proof.
  intros Ho Honly Hjn Hj Ha Hold Hn Hans cell Hc <-.
  assert (exists since, pollLoop true None ticks !! n = Some since) as [since Hs].
  { apply lookup_lt_is_Some. rewrite pollLoop_length. by eapply lookup_lt_Some. }
  destruct (Honly n tn since cells cell Hn Hs Hans Hc) as (u & Hu & _ & Hsince).
  destruct (pollLoop_after _ _ _ _ _ _ _ Ho Hs Hjn Hj Ha) as (s & -> & Hle). cbn in Hsince. specialize (Hold u Hu). lia.
Qed.

(** ** The in-flight markers *)

Section markers.
Context {RT : GoRuntime} {PC : PayloadCodec}.
Context (d : Dispatcher) (r : Router) (resuming : gset string) (queued : bool).

Record markers_ok (s : PollState) : Prop := {
  mo_run : forall x, x ∈ po_runs s -> la_owns x = true -> is_Some (po_inFlight s !! la_cell x);
  mo_held : forall c, is_Some (po_inFlight s !! c) -> exists x, x ∈ po_runs s /\ la_owns x = true /\ la_cell x = c;
  mo_cell : forall x y, x ∈ po_runs s -> y ∈ po_runs s -> la_owns x = true -> la_owns y = true ->
    la_cell x = la_cell y -> la_round x = la_round y;
  mo_round : forall x y, x ∈ po_runs s -> y ∈ po_runs s -> la_round x = la_round y ->
    la_cell x = la_cell y /\ la_owns x = la_owns y;
  mo_old : forall x, x ∈ po_runs s -> la_round x < po_rounds s;
}.

(** Only the markers, the goroutines and the rounds matter. *)
Lemma markers_ext s s' :
  po_inFlight s' = po_inFlight s -> po_runs s' = po_runs s -> po_rounds s' = po_rounds s -> markers_ok s -> markers_ok s'.
Proof. intros H1 H2 H3 [A B C D E]. split; rewrite ?H1, ?H2, ?H3; done. Qed.

(** The fan-out of a marked cell, and of the markers before. *)
Lemma fanOut_markers e cell task persisted matches suffix s0 s :
  markers_ok s0 -> po_inFlight s0 !! si_ID cell = None ->
  (exists now, po_inFlight s = <[si_ID cell := now]> (po_inFlight s0)) -> po_runs s = po_runs s0 -> po_rounds s = po_rounds s0 ->
  markers_ok (fanOut d queued e cell task persisted matches suffix true s).
Proof.
  intros Hok Hnone [now Hf] Hr Hn.
  assert (markers_ok (unmark (si_ID cell) s)) as Hun.
  { apply (markers_ext s0); [|done|done|done]. cbn. rewrite Hf. by rewrite delete_insert_id. }
  unfold fanOut. destruct matches as [|m0 ms]; [done|]. set (matches := m0 :: ms).
  assert (exists m, m ∈ matches) as [m1 Hm1] by (exists m0; apply list_elem_of_here).
  destruct (persisted && queued).
  { eapply (markers_ext (unmark (si_ID cell) s)); done. }
  set (s1 := if persisted && tn_counted e then _ else s).
  assert (po_inFlight s1 = po_inFlight s /\ po_runs s1 = po_runs s /\ po_rounds s1 = po_rounds s) as (E1 & E2 & E3)
    by (subst s1; by destruct (persisted && tn_counted e)).
  clearbody s1.
  assert (forall x, x ∈ po_runs s0 -> la_owns x = true -> la_cell x <> si_ID cell) as Hold.
  { intros x Hx Ho E. destruct (mo_run _ Hok x Hx Ho) as [? H]. congruence. }
  assert (forall x, x ∈ po_runs s0 -> la_round x <> po_rounds s0) as Hrnd
    by (intros x Hx; pose proof (mo_old _ Hok x Hx); lia).
  assert (forall x, x ∈ (fun m => {| la_cell := si_ID cell; la_round := po_rounds s0; la_owns := true;
      la_task := task; la_match := m |}) <$> matches -> la_cell x = si_ID cell /\ la_round x = po_rounds s0 /\ la_owns x = true) as Hnew
    by (by intros x (m & -> & _)%list_elem_of_fmap).
  clearbody matches. split; cbn [po_inFlight po_runs po_rounds with_runs]; rewrite ?E1, ?E2, ?E3, ?Hf, ?Hr, ?Hn.
  - intros x [Hx|Hx%Hnew]%elem_of_app Ho.
    + pose proof (Hold x Hx Ho). rewrite lookup_insert_ne by done. by apply (mo_run _ Hok).
    + destruct Hx as (-> & _). rewrite lookup_insert_eq. by eexists.
  - intros c. destruct (decide (si_ID cell = c)) as [<-|Hne].
    + intros _. eexists. split; [apply elem_of_app; right; apply list_elem_of_fmap; by exists m1|done].
    + rewrite lookup_insert_ne by done. intros (x & Hx & Hc)%(mo_held _ Hok). exists x. split; [apply elem_of_app; by left|done].
  - intros x y [Hx|Hx]%elem_of_app [Hy|Hy]%elem_of_app Ox Oy E.
    + by apply (mo_cell _ Hok).
    + destruct (Hnew y Hy) as (? & ? & ?). by destruct (Hold x Hx Ox); congruence.
    + destruct (Hnew x Hx) as (? & ? & ?). by destruct (Hold y Hy Oy); congruence.
    + destruct (Hnew x Hx) as (? & ? & ?), (Hnew y Hy) as (? & ? & ?). congruence.
  - intros x y [Hx|Hx]%elem_of_app [Hy|Hy]%elem_of_app E.
    + by apply (mo_round _ Hok).
    + destruct (Hnew y Hy) as (? & ? & ?). destruct (Hrnd x Hx); congruence.
    + destruct (Hnew x Hx) as (? & ? & ?). destruct (Hrnd y Hy); congruence.
    + destruct (Hnew x Hx) as (? & ? & ?), (Hnew y Hy) as (? & ? & ?). split; congruence.
  - intros x [Hx|Hx]%elem_of_app.
    + pose proof (mo_old _ Hok x Hx). lia.
    + destruct (Hnew x Hx) as (? & ? & ?). lia.
Qed.

(** The fan-out of a manual run. *)
Lemma fanOut_beside e cell task persisted matches suffix s :
  markers_ok s -> markers_ok (fanOut d queued e cell task persisted matches suffix false s).
Proof.
  intros Hok. unfold fanOut. destruct matches as [|m0 ms]; [done|]. set (matches := m0 :: ms). clearbody matches.
  destruct (persisted && queued); [by apply (markers_ext s)|].
  set (s1 := if persisted && tn_counted e then _ else s).
  assert (po_inFlight s1 = po_inFlight s /\ po_runs s1 = po_runs s /\ po_rounds s1 = po_rounds s) as (E1 & E2 & E3)
    by (subst s1; by destruct (persisted && tn_counted e)).
  clearbody s1.
  assert (forall x, x ∈ (fun m => {| la_cell := si_ID cell; la_round := po_rounds s; la_owns := false;
      la_task := task; la_match := m |}) <$> matches -> la_cell x = si_ID cell /\ la_round x = po_rounds s /\ la_owns x = false) as Hnew
    by (by intros x (m & -> & _)%list_elem_of_fmap).
  split; cbn [po_inFlight po_runs po_rounds with_runs]; rewrite ?E1, ?E2, ?E3.
  - intros x [Hx|Hx%Hnew]%elem_of_app Ho; [by apply (mo_run _ Hok)|]. destruct Hx as (_ & _ & ?). congruence.
  - intros c (x & Hx & Hc)%(mo_held _ Hok). exists x. split; [apply elem_of_app; by left|done].
  - intros x y [Hx|Hx%Hnew]%elem_of_app [Hy|Hy%Hnew]%elem_of_app Ox Oy E; [by apply (mo_cell _ Hok)|..];
      destruct_and?; congruence.
  - intros x y [Hx|Hx]%elem_of_app [Hy|Hy]%elem_of_app E.
    + by apply (mo_round _ Hok).
    + destruct (Hnew y Hy) as (? & ? & ?). pose proof (mo_old _ Hok x Hx). lia.
    + destruct (Hnew x Hx) as (? & ? & ?). pose proof (mo_old _ Hok y Hy). lia.
    + destruct (Hnew x Hx) as (? & ? & ?), (Hnew y Hy) as (? & ? & ?). split; congruence.
  - intros x [Hx|Hx]%elem_of_app.
    + pose proof (mo_old _ Hok x Hx). lia.
    + destruct (Hnew x Hx) as (? & ? & ?). lia.
Qed.

Lemma reportFullyDropped_frame cell task gone suppressed s :
  po_inFlight (reportFullyDropped cell task gone suppressed s) = po_inFlight s
  /\ po_runs (reportFullyDropped cell task gone suppressed s) = po_runs s
  /\ po_rounds (reportFullyDropped cell task gone suppressed s) = po_rounds s.
Proof. unfold reportFullyDropped. cbv zeta. by case_bool_decide. Qed.

Lemma with_bound_frame task persisted b s :
  po_inFlight (with_bound task persisted b s) = po_inFlight s
  /\ po_runs (with_bound task persisted b s) = po_runs s
  /\ po_rounds (with_bound task persisted b s) = po_rounds s.
Proof. by destruct persisted. Qed.

Lemma poll_cell_markers e cell s : markers_ok s -> markers_ok (poll_cell d r resuming queued e cell s).
Proof.
  intros Hok. unfold poll_cell. destruct (po_inFlight s !! si_ID cell) eqn:En; [done|].
  destruct (bindItem _ _ _ _ _) as [[task persisted] b].
  destruct (with_bound_frame task persisted b (mark (si_ID cell) (tn_now e) s)) as (B1 & B2 & B3).
  set (sb := with_bound task persisted b _) in *. clearbody sb. destruct (RouteAllWithSuppressed r task) as [matches suppressed].
  destruct (poll_guards _ _ _ _) as [kept gone]. destruct kept as [|m kept].
  - match goal with |- markers_ok (unmark _ ?x) => assert (po_inFlight x = <[si_ID cell := tn_now e]> (po_inFlight s)
      /\ po_runs x = po_runs s /\ po_rounds x = po_rounds s) as (E1 & E2 & E3) end.
    { destruct (_ || _); [by rewrite B1, B2, B3|]. by rewrite !(proj1 (reportFullyDropped_frame _ _ _ _ _)),
        !(proj1 (proj2 (reportFullyDropped_frame _ _ _ _ _))), !(proj2 (proj2 (reportFullyDropped_frame _ _ _ _ _))). }
    apply (markers_ext s); cbn; [|done|done|done]. rewrite E1. by rewrite delete_insert_id.
  - eapply (fanOut_markers _ _ _ _ _ _ s); [done|done|exists (tn_now e); exact B1|done|done].
Qed.

Lemma end_launched_markers k s : markers_ok s -> markers_ok (end_launched k s).
Proof.
  intros Hok. unfold end_launched. destruct (po_runs s !! k) as [run|] eqn:Ek; [|done].
  assert (run ∈ po_runs s) as Hrun by (by eapply list_elem_of_lookup_2).
  assert (forall x, x ∈ delete k (po_runs s) -> x ∈ po_runs s) as Hsub.
  { intros x Hx. apply list_elem_of_lookup_1 in Hx as [i Hi]. destruct (decide (i < k)) as [H|H].
    - rewrite list_lookup_delete_lt in Hi by lia. by eapply list_elem_of_lookup_2.
    - rewrite list_lookup_delete_ge in Hi by lia. by eapply list_elem_of_lookup_2. }
  assert (forall x, x ∈ po_runs s -> x = run \/ x ∈ delete k (po_runs s)) as Hsplit.
  { intros x Hx. rewrite (delete_take_drop (po_runs s) k). pose proof (take_drop_middle _ _ _ Ek) as Hm. rewrite <- Hm in Hx.
    rewrite elem_of_app, elem_of_cons in Hx. rewrite elem_of_app. tauto. }
  destruct (la_owns run && negb (existsb (fun x => la_round x =? la_round run) (delete k (po_runs s)))) eqn:Eb.
  - apply andb_true_iff in Eb as [Hown Eb%negb_true_iff].
    assert (forall x, x ∈ delete k (po_runs s) -> la_owns x = true -> la_cell x <> la_cell run) as Hne.
    { intros x Hx Ho E. apply not_true_iff_false in Eb. apply Eb, existsb_elem. exists x. split; [done|].
      apply Nat.eqb_eq, (mo_cell _ Hok); auto. }
    split; cbn.
    + intros x Hx Ho. rewrite lookup_delete_ne by (apply not_eq_sym; auto). apply (mo_run _ Hok); auto.
    + intros c [z Hz]. apply lookup_delete_Some in Hz as [Hnc Hz].
      destruct (mo_held _ Hok c ltac:(by eexists)) as (x & Hx & Ho & <-). exists x. split; [|done].
      destruct (Hsplit x Hx) as [->|]; [done|done].
    + intros x y' Hx Hy'. apply (mo_cell _ Hok); auto.
    + intros x y' Hx Hy'. apply (mo_round _ Hok); auto.
    + intros x Hx. by apply (mo_old _ Hok), Hsub.
  - split; cbn.
    + intros x Hx Ho. apply (mo_run _ Hok); auto.
    + intros c (x & Hx & Ho & Hc)%(mo_held _ Hok). destruct (Hsplit x Hx) as [->|Hd]; [|by exists x].
      rewrite Ho in Eb. apply negb_false_iff, existsb_elem in Eb as (y & Hy & Hyr%Nat.eqb_eq).
      destruct (mo_round _ Hok y run (Hsub y Hy) Hrun Hyr). exists y. split_and!; [done|congruence|congruence].
    + intros x y' Hx Hy'. apply (mo_cell _ Hok); auto.
    + intros x y' Hx Hy'. apply (mo_round _ Hok); auto.
    + intros x Hx. by apply (mo_old _ Hok), Hsub.
Qed.

(** C28: through any sequence of polls, of manual runs beside them and of ends of
    goroutines, whatever the binder, the router, the guards and the queue answer, an
    item is marked in flight exactly while a goroutine of its polled fan-out runs:
    every path of a poll gives the marker back, no item is fanned out twice at once,
    and when the last goroutine returns no marker is left. *)
Theorem markers_held (s0 s : PollState) :
  po_runs s0 = [] -> po_inFlight s0 = ∅ -> rtc (polling_step d r resuming queued) s0 s ->
  (forall c, is_Some (po_inFlight s !! c) <-> exists x, x ∈ po_runs s /\ la_owns x = true /\ la_cell x = c)
  /\ (forall x y, x ∈ po_runs s -> y ∈ po_runs s -> la_owns x = true -> la_owns y = true ->
        la_cell x = la_cell y -> la_round x = la_round y)
  /\ (po_runs s = [] -> po_inFlight s = ∅).
Proof.
  intros Hr Hf Hs. assert (markers_ok s) as Hok.
  { assert (markers_ok s0) as H0.
    { split; rewrite ?Hr, ?Hf; try (by intros ? ?%elem_of_nil); try (by intros ? ? ?%elem_of_nil).
      intros c [? H]. by rewrite lookup_empty in H. }
    clear Hr Hf. induction Hs as [|s0 s1 s2 H _ IH]; [done|]. apply IH.
    destruct H; [by apply poll_cell_markers|by apply fanOut_beside|by apply end_launched_markers]. }
  split_and!.
  - intros c. split; [apply (mo_held _ Hok)|]. intros (x & Hx & Ho & <-). by apply (mo_run _ Hok).
  - apply (mo_cell _ Hok).
  - intros Hnil. apply map_empty. intros c. destruct (po_inFlight s !! c) eqn:E; [|done].
    destruct (mo_held _ Hok c ltac:(by eexists)) as (x & Hx & _). rewrite Hnil in Hx. by apply elem_of_nil in Hx.
Qed.

(** Nothing is reported twice in a row for the same reasons. *)
Lemma report_once cell cell' task gone gone' suppressed suppressed' s :
  dropSignature gone suppressed = dropSignature gone' suppressed' ->
  reportFullyDropped cell' task gone' suppressed' (reportFullyDropped cell task gone suppressed s)
  = reportFullyDropped cell task gone suppressed s.
Proof.
  intros E. unfold reportFullyDropped at 1. rewrite bool_decide_true; [done|]. rewrite <- E. unfold reportFullyDropped.
  case_bool_decide; [done|]. cbn. by rewrite lookup_insert_eq.
Qed.

(** An item that is marked is passed over, also when the marker belongs to an item
    of another source with the same id; the watermark advances all the same. *)
Lemma overlapping_ids_shadow e cell other s now :
  si_SourceID other <> si_SourceID cell -> si_ID other = si_ID cell -> po_inFlight s !! si_ID other = Some now ->
  poll_cell d r resuming queued e cell s = s.
Proof. intros _ E H. unfold poll_cell. by rewrite <- E, H. Qed.

(** When the binder fails, every route of the item is launched: no guard is asked,
    not even for a workflow that is running, and the outstanding count does not
    know of them. *)
Lemma bind_failure_skips_guards e cell s :
  tn_bindFailed e = true -> po_inFlight s !! si_ID cell = None -> RouteAll r (transientTask cell) <> [] ->
  exists runs, po_runs (poll_cell d r resuming queued e cell s) = po_runs s ++ runs
    /\ la_match <$> runs = RouteAll r (transientTask cell)
    /\ po_stores (poll_cell d r resuming queued e cell s) = po_stores s.
Proof.
  intros Hb Hn Hm. unfold poll_cell. rewrite Hn. unfold bindItem. rewrite Hb. unfold RouteAll in *.
  destruct (RouteAllWithSuppressed r (transientTask cell)) as [matches suppressed]. cbn in Hm. cbn [poll_guards].
  destruct matches as [|m ms]; [done|]. eexists. split; [done|]. split; [|done].
  rewrite <- list_fmap_compose. exact (list_fmap_id (m :: ms)).
Qed.
End markers.

(** ** Witnesses and the runs behind the findings *)

Definition item (id src : string) : SourceItem := {|
  si_ID := id; si_SourceID := src; si_Number := ""; si_Title := "t"; si_Description := ""; si_Labels := [];
  si_Type := ""; si_Priority := ""; si_State := "open"; si_URL := ""; si_Comments := [] |}.

(** Ticks of a source whose item "7" changes at 15, while the first poll, which
    read the source at 12, is still fanning out; and again at 95. *)
Definition first_ticks : list Tick := [
  {| tk_started := 10; tk_read := 12; tk_ended := 20; tk_answer := Some [] |};
  {| tk_started := 70; tk_read := 71; tk_ended := 72; tk_answer := Some [] |}].

Definition more_ticks : list Tick := first_ticks ++ [
  {| tk_started := 100; tk_read := 101; tk_ended := 102; tk_answer := None |};
  {| tk_started := 130; tk_read := 131; tk_ended := 132; tk_answer := Some [item "7" "gh"] |}].

Lemma ticks_in_order : in_order more_ticks.
Proof.
  split.
  - intros k t H. do 4 (destruct k as [|k]; [injection H as <-; cbn; lia|]). discriminate H.
  - intros j k t1 t2 Hjk H1 H2.
    do 4 (destruct j as [|j]; [injection H1 as <-; do 4 (destruct k as [|k]; [lia || (injection H2 as <-; cbn; lia)|]); discriminate H2|]).
    discriminate H1.
Qed.

(** The update at 15 is reported by no poll although the adapter reports every
    update since the time it is handed: the second poll is handed 20. *)
Lemma first_poll_gap :
  let updates := [("7", 15%Z)] in
  in_order first_ticks /\ reports_all updates first_ticks /\ pollLoop true None first_ticks = [None; Some 20%Z]
  /\ forall k t cells cell, first_ticks !! k = Some t -> tk_answer t = Some cells -> cell ∈ cells -> si_ID cell <> "7".
Proof.
  cbv zeta. split; [|split; [|split]].
  - destruct ticks_in_order as [H1 H2]. split.
    + intros k t Hk. apply (H1 k t). unfold more_ticks. by apply lookup_app_l_Some.
    + intros j k t1 t2 Hjk Hj Hk. apply (H2 j k t1 t2 Hjk); unfold more_ticks; by apply lookup_app_l_Some.
  - intros k t since cells id u Ht Hs Ha Hu Hr Hsince. apply list_elem_of_singleton in Hu. injection Hu as -> ->.
    do 2 (destruct k as [|k]; [cbn in Ht, Hs; injection Ht as <-; injection Hs as <-; cbn in *; lia|]). discriminate Ht.
  - reflexivity.
  - intros k t cells cell Ht Ha Hc.
    do 2 (destruct k as [|k]; [cbn in Ht; injection Ht as <-; cbn in Ha; injection Ha as <-; by apply elem_of_nil in Hc|]).
    discriminate Ht.
Qed.

Lemma no_update_missed_witness :
  exists k tk cells cell, k <= 3 /\ more_ticks !! k = Some tk /\ tk_answer tk = Some cells /\ (95 <= tk_read tk)%Z
    /\ cell ∈ cells /\ si_ID cell = "7".
Proof.
  destruct (no_update_missed [("7", 95%Z)] more_ticks "7" 95 3
    {| tk_started := 130; tk_read := 131; tk_ended := 132; tk_answer := Some [item "7" "gh"] |}) as [H|H].
  - exact ticks_in_order.
  - intros k t since cells id u Ht Hs Ha Hu Hr Hsince. apply list_elem_of_singleton in Hu. injection Hu as -> ->.
    do 4 (destruct k as [|k]; [cbn in Ht, Hs; injection Ht as <-; injection Hs as <-; cbn in *;
      (lia || discriminate Ha || (injection Ha as <-; eexists; split; [apply list_elem_of_here|reflexivity]))|]).
    discriminate Ht.
  - apply list_elem_of_here.
  - reflexivity.
  - by eexists.
  - cbn. lia.
  - exact H.
  - exfalso. destruct H as (t0 & H & _ & Hlt). injection H as <-. cbn in Hlt. lia.
Defined.

(** A router with one route, for everything. *)
Definition any_route : RouteConfig := m_Route (example_match "fix" "").
Definition any_router : Router := {| routes := [any_route]; workers := ∅; regexes := ∅; commentRegexes := ∅ |}.

Definition turn_at (now : Z) : Turn := {|
  tn_now := now; tn_bindFailed := false; tn_taskID := "t"; tn_bindingID := "b"; tn_counted := true;
  tn_job := fun _ => ("", 0%Z) |}.

Definition idle_poller : PollState := {|
  po_inFlight := ∅; po_notified := ∅; po_runs := []; po_rounds := 0;
  po_bind := {| bd_tasks := ∅; bd_bindings := [] |};
  po_stores := {| w_tables := {| internal_tasks := ∅; workflow_instances := [] |}; w_queue := empty_db; w_events := [] |} |}.

Definition inline_poll (now : Z) (s : PollState) : PollState :=
  poll_cell (RT := literal_runtime) (PC := json_codec) example_dispatcher any_router ∅ false (turn_at now) (item "7" "gh") s.

Lemma markers_held_witness :
  let s := end_launched 0 (inline_poll 2 (inline_poll 1 idle_poller)) in
  length (po_runs (inline_poll 2 (inline_poll 1 idle_poller))) = 1 /\ po_inFlight s = ∅.
Proof.
  cbv zeta. split; [vm_compute; reflexivity|].
  destruct (markers_held (RT := literal_runtime) (PC := json_codec) example_dispatcher any_router ∅ false idle_poller
    (end_launched 0 (inline_poll 2 (inline_poll 1 idle_poller)))) as (_ & _ & H).
  - reflexivity.
  - reflexivity.
  - eapply rtc_l; [apply PollCell with (e := turn_at 1) (cell := item "7" "gh")|].
    eapply rtc_l; [apply PollCell with (e := turn_at 2) (cell := item "7" "gh")|].
    eapply rtc_l; [apply EndLaunched with (k := 0)|]. apply rtc_refl.
  - apply H. vm_compute. reflexivity.
Defined.

(** An inline run is restarted: the goroutine of the restarted run, returning
    later, gives back the marker of the new one, and the item is not marked while
    that one runs. *)
Lemma restart_releases_early :
  let restarted := (redispatchCell (RT := literal_runtime) (PC := json_codec) example_dispatcher any_router ∅ false
                      (turn_at 2) (item "7" "gh") (unmark "7" (inline_poll 1 idle_poller))).2 in
  length (po_runs restarted) = 2
  /\ (let s := end_launched 0 restarted in length (po_runs s) = 1 /\ po_inFlight s !! "7" = None).
Proof. vm_compute. repeat split. Qed.
