(* ===== verification/PrEvents.v ===== *)
(** * Pull-request events (src/internal/daemon/pr_events.go,
      src/internal/db/pr_event_store.go)

    A poll of a source's pull-request events: the window behind the persisted
    watermark, the routing of each event, the budget and the claim of each match,
    and the dispatch of what was claimed, which waits for a slot of its agent. The
    three tables survive a restart, waiting dispatches do not. *)

From stdpp Require Import base gmap strings list relations pretty.
From Stdlib Require Import ZArith Ascii.
From S2P Require Import Prelude Model Config Router Dispatch Binder.

(** Nanoseconds. *)
Definition prEventOverlap : Z := 2 * 60 * 1000000000.

(** A row of pr_event_dispatches. *)
Record EventClaim := {
  cl_source : string;
  cl_event : string;
  cl_workflow : string;
  cl_pr : Z;
}.
#[global] Instance EventClaim_eq_dec : EqDecision EventClaim.
Proof. solve_decision. Defined.

(** A dispatch that was claimed. *)
Record EventRun := { er_claim : EventClaim; er_task : InternalTask; er_persisted : bool }.

Record PRState := {
  pr_watermarks : gmap string Z;
  pr_claims : list EventClaim;
  pr_waiting : list EventRun;         (* goroutines before they have a slot *)
  pr_started : list EventRun;         (* all that reached the engine, over all processes *)
  pr_bind : BindDB;
}.

Definition set_watermark (src : string) (t : Z) (s : PRState) : PRState := {|
  pr_watermarks := <[src := t]> (pr_watermarks s); pr_claims := pr_claims s; pr_waiting := pr_waiting s;
  pr_started := pr_started s; pr_bind := pr_bind s |}.

(** [ClaimPREventDispatch]: inserted, unless the primary key is taken. *)
Definition same_key (a b : EventClaim) : bool :=
  bool_decide (cl_source a = cl_source b) && bool_decide (cl_event a = cl_event b) && bool_decide (cl_workflow a = cl_workflow b).

Definition ClaimPREventDispatch (c : EventClaim) (claims : list EventClaim) : bool * list EventClaim :=
  if existsb (same_key c) claims then (false, claims) else (true, claims ++ [c]).

(** [CountPREventDispatches]. *)
Definition in_budget (src wf : string) (pr : Z) (c : EventClaim) : bool :=
  bool_decide (cl_source c = src) && bool_decide (cl_workflow c = wf) && bool_decide (cl_pr c = pr).

Definition CountPREventDispatches (src wf : string) (pr : Z) (claims : list EventClaim) : Z :=
  Z.of_nat (length (List.filter (in_budget src wf pr) claims)).

(** What the database answers for one match: an error of the count or of the
    claim skips it. *)
Record MatchEnv := { me_count_ok : bool; me_claim_ok : bool }.

(** ** Routing an event *)

Section events.
Context (r : Router).

(** [related]: the task the originating issue is bound to. *)
Definition related_task (ev : SourceEvent) (db : BindDB) : option InternalTask :=
  if is_empty (ev_RelatedItemID ev) then None
  else b ← GetBindingBySourceItem (ev_SourceID ev) (ev_RelatedItemID ev) db; bd_tasks db !! sb_TaskID b.

(** The item of a pull request without an originating issue. *)
Definition pr_item (ev : SourceEvent) : SourceItem := {|
  si_ID := "pr-" +:+ pretty (ev_PRNumber ev); si_SourceID := ev_SourceID ev;
  si_Number := "#" +:+ pretty (ev_PRNumber ev); si_Title := "PR #" +:+ pretty (ev_PRNumber ev); si_Description := "";
  si_Labels := []; si_Type := "pr"; si_Priority := ""; si_State := "open"; si_URL := ev_PRURL ev; si_Comments := [] |}.

Definition claim_of (ev : SourceEvent) (m : Match) : EventClaim := {|
  cl_source := ev_SourceID ev; cl_event := ev_ID ev; cl_workflow := route_id m; cl_pr := ev_PRNumber ev |}.

(** One iteration over the matches; [dispatchPREvent] puts the run behind its
    agent's slot. *)
Definition claim_match (ev : SourceEvent) (task : InternalTask) (persisted : bool) (s : PRState) (mm : Match * MatchEnv)
    : PRState :=
  let '(m, e) := mm in
  let budget := rt_MaxDispatches (m_Route m) in
  let over := if (0 <? budget)%Z
              then negb (me_count_ok e)
                   || (budget <=? CountPREventDispatches (ev_SourceID ev) (route_id m) (ev_PRNumber ev) (pr_claims s))%Z
              else false in
  if over then s
  else if negb (me_claim_ok e) then s
  else
    let '(claimed, claims) := ClaimPREventDispatch (claim_of ev m) (pr_claims s) in
    if claimed then {|
      pr_watermarks := pr_watermarks s; pr_claims := claims;
      pr_waiting := pr_waiting s ++ [{| er_claim := claim_of ev m; er_task := task; er_persisted := persisted |}];
      pr_started := pr_started s; pr_bind := pr_bind s |}
    else s.

(** What one event meets outside: a read of the related task that fails counts as
    none, the binder, and the database for its k-th match. *)
Record EventEnv := { ev_readFailed : bool; ev_bindFailed : bool; ev_taskID : string; ev_bindingID : string; ev_match : nat -> MatchEnv }.

(** [routePREvent]. *)
Definition routePREvent (e : EventEnv) (ev : SourceEvent) (s : PRState) : PRState :=
  let related := if ev_readFailed e then None else related_task ev (pr_bind s) in
  match RouteEvent r ev related with
  | [] => s
  | matches =>
      let '(task, persisted, db) :=
        match related with
        | Some t => (t, true, pr_bind s)
        | None => bindItem (ev_bindFailed e) (ev_taskID e) (ev_bindingID e) (pr_item ev) (pr_bind s)
        end in
      foldl (claim_match ev task persisted)
        {| pr_watermarks := pr_watermarks s; pr_claims := pr_claims s; pr_waiting := pr_waiting s;
           pr_started := pr_started s; pr_bind := db |}
        (imap (fun k m => (m, ev_match e k)) matches)
  end.

(** ** Polling *)

(** One call of [pollPREvents]: when it started, the adapter's answer to the time
    it is handed, and which statements on the watermark went through. *)
Record EventPoll := {
  ep_start : Z;
  ep_answer : Z -> option (list (EventEnv * SourceEvent));
  ep_read_ok : bool;
  ep_write_ok : bool;
}.

(** [pollPREvents], of a source that polls events when some route wants them. *)
Definition pollPREvents (src : string) (p : EventPoll) (s : PRState) : PRState :=
  if negb (ep_read_ok p) then s
  else match pr_watermarks s !! src with
  | None => if ep_write_ok p then set_watermark src (ep_start p) s else s
  | Some wm =>
      match ep_answer p (wm - prEventOverlap) with
      | None => s
      | Some events =>
          let s := foldl (fun s '(e, ev) => routePREvent e ev s) s events in
          if ep_write_ok p then set_watermark src (ep_start p) s else s
      end
  end.

(** A goroutine gets its slot and starts the engine; at shutdown those that wait
    return, as does the process when it ends. *)
Definition start_waiting (k : nat) (s : PRState) : PRState :=
  match pr_waiting s !! k with
  | None => s
  | Some x => {| pr_watermarks := pr_watermarks s; pr_claims := pr_claims s; pr_waiting := delete k (pr_waiting s);
                 pr_started := pr_started s ++ [x]; pr_bind := pr_bind s |}
  end.

Definition shut_down (s : PRState) : PRState := {|
  pr_watermarks := pr_watermarks s; pr_claims := pr_claims s; pr_waiting := []; pr_started := pr_started s;
  pr_bind := pr_bind s |}.

Inductive pr_step : PRState -> PRState -> Prop :=
  | PRPoll src p s : pr_step s (pollPREvents src p s)
  | PRStart k s : pr_step s (start_waiting k s)
  | PRShutDown s : pr_step s (shut_down s).
End events.

(** ** What the run sees *)

(** [prEventEnv] and [prEventScope]. *)
Definition prEventEnv (ev : SourceEvent) : list (string * string) :=
  [("APIARY_EVENT_KIND", ev_Kind ev); ("APIARY_EVENT_AUTHOR", ev_Author ev); ("APIARY_EVENT_PR_AUTHOR", ev_PRAuthor ev);
   ("APIARY_EVENT_BODY", ev_Body ev); ("APIARY_PR_NUMBER", pretty (ev_PRNumber ev)); ("APIARY_PR_URL", ev_PRURL ev)].

Definition prEventScope (ev : SourceEvent) : gmap string string :=
  list_to_map [("kind", ev_Kind ev); ("body", ev_Body ev); ("author", ev_Author ev);
    ("author_association", ev_AuthorAssociation ev); ("pr_number", pretty (ev_PRNumber ev)); ("pr_url", ev_PRURL ev);
    ("pr_author", ev_PRAuthor ev)].

(** [overlayEnv]. *)
Definition overlayEnv (base overlay : gmap string string) : gmap string string := overlay ∪ base.
