(* ===== verification/PrEventsProps.v ===== *)
(** * Pull-request events: once per workflow, within the budget, none missed

    Claims over any sequence of polls, restarts and starts of dispatches; what a
    successful poll routes; and what a claim or a skipped match loses. *)

From stdpp Require Import base gmap strings list relations pretty.
From Stdlib Require Import ZArith Ascii.
From S2P Require Import Prelude Model Config Router RouterFacts Dispatch DispatchProps Binder PrEvents.

(** ** Claims *)

Definition key (c : EventClaim) : string * string * string := (cl_source c, cl_event c, cl_workflow c).

Lemma same_key_true a b : same_key a b = true <-> key a = key b.
Proof. unfold same_key, key. rewrite !andb_true_iff, !bool_decide_eq_true. split; [intros [[-> ->] ->]; done|by intros [= -> -> ->]]. Qed.

Lemma claim_spec c claims :
  match ClaimPREventDispatch c claims with
  | (true, claims') => claims' = claims ++ [c] /\ key c ∉ (key <$> claims)
  | (false, claims') => claims' = claims /\ key c ∈ (key <$> claims)
  end.
Proof.
  unfold ClaimPREventDispatch. destruct (existsb (same_key c) claims) eqn:E; (split; [done|]).
  - apply existsb_elem in E as (c' & Hc & Hk%same_key_true). apply list_elem_of_fmap. by exists c'.
  - intros (c' & Hk & Hc)%list_elem_of_fmap. apply not_true_iff_false in E. apply E, existsb_elem. exists c'.
    split; [done|]. by apply same_key_true.
Qed.

Lemma event_match_route r ev task m : m ∈ RouteEvent r ev task -> m_Route m ∈ routes r.
Proof.
  unfold RouteEvent. induction (routes r) as [|route rs IH]; simpl; [by intros ?%elem_of_nil|].
  assert (m ∈ route_event_loop r ev task rs -> m_Route m ∈ route :: rs) as IH' by (intros H; by right; apply IH).
  destruct (IsEventRoute route); [|done]. destruct (evaluateEvent r route ev task).1; [|done]. simpl.
  destruct (resolveMatch r route) as [m'|] eqn:Hr; [|done]. rewrite elem_of_cons. intros [->|Hin].
  - rewrite (resolveMatch_route _ _ _ Hr). by left.
  - destruct (rt_Exclusive route); [by apply elem_of_nil in Hin|auto].
Qed.

Section props.
Context (r : Router).

(** The dispatches of all processes so far, under way or waiting. *)
Definition dispatched (s : PRState) : list EventRun := pr_started s ++ pr_waiting s.

(** No route of the workflow [wf] allows more than [b] dispatches. *)
Definition budgeted (wf : string) (b : Z) : Prop :=
  (0 < b)%Z /\ forall route, route ∈ routes r -> rt_ID route = wf -> (0 < rt_MaxDispatches route <= b)%Z.

Record events_ok (s0 s : PRState) : Prop := {
  eo_keys : NoDup (key <$> pr_claims s);
  eo_once : NoDup ((fun x => key (er_claim x)) <$> dispatched s);
  eo_claimed : forall x, x ∈ dispatched s -> er_claim x ∈ pr_claims s;
  eo_budget : forall src wf pr b, budgeted wf b ->
    (CountPREventDispatches src wf pr (pr_claims s) <= Z.max b (CountPREventDispatches src wf pr (pr_claims s0)))%Z;
}.

(** Changes of the watermarks and the tasks are of no consequence. *)
Lemma events_ext s0 s s' :
  pr_claims s' = pr_claims s -> dispatched s' = dispatched s -> events_ok s0 s -> events_ok s0 s'.
Proof. intros H1 H2 [A B C D]. split; rewrite ?H1, ?H2; done. Qed.

Lemma count_snoc src wf pr claims c :
  CountPREventDispatches src wf pr (claims ++ [c])
  = (CountPREventDispatches src wf pr claims + if in_budget src wf pr c then 1 else 0)%Z.
Proof.
  unfold CountPREventDispatches. rewrite List.filter_app, length_app. cbn. destruct (in_budget src wf pr c); cbn; lia.
Qed.

Lemma claim_match_ok ev task persisted s0 s m e :
  m_Route m ∈ routes r -> events_ok s0 s -> events_ok s0 (claim_match ev task persisted s (m, e)).
Proof.
  intros Hm Hok. unfold claim_match.
  destruct (if (0 <? rt_MaxDispatches (m_Route m))%Z then _ else false) eqn:Eo; [done|].
  destruct (negb (me_claim_ok e)); [done|].
  pose proof (claim_spec (claim_of ev m) (pr_claims s)) as Hc.
  destruct (ClaimPREventDispatch (claim_of ev m) (pr_claims s)) as [[] claims]; [|done]. destruct Hc as [-> Hnew].
  destruct Hok as [H1 H2 H3 H4]. unfold dispatched in *. split; cbn.
  - rewrite fmap_app. apply NoDup_app. split_and!; [done| |apply NoDup_singleton].
    intros x Hx ->%list_elem_of_singleton. done.
  - rewrite app_assoc, fmap_app. apply NoDup_app. split_and!; [done| |apply NoDup_singleton].
    intros x Hx ->%list_elem_of_singleton. apply list_elem_of_fmap in Hx as (y & Hy & Hin).
    cbn in Hy. apply Hnew. rewrite Hy. apply list_elem_of_fmap. exists (er_claim y). split; [done|]. by apply H3.
  - unfold dispatched. cbn. intros x. rewrite app_assoc. intros [Hx| ->%list_elem_of_singleton]%elem_of_app; apply elem_of_app.
    + left. by apply H3.
    + right. by apply list_elem_of_singleton.
  - intros src wf pr b Hb. rewrite count_snoc. specialize (H4 src wf pr b Hb).
    destruct (in_budget src wf pr (claim_of ev m)) eqn:Eb; [|lia].
    unfold in_budget in Eb. apply andb_true_iff in Eb as [[<-%bool_decide_eq_true <-%bool_decide_eq_true]%andb_true_iff <-%bool_decide_eq_true].
    cbn in *. destruct Hb as [Hpos Hb]. specialize (Hb (m_Route m) Hm eq_refl).
    destruct (Z.ltb_spec 0 (rt_MaxDispatches (m_Route m))); [|lia].
    apply orb_false_iff in Eo as [_ Eo%Z.leb_gt]. unfold route_id in *. cbn in *. lia.
Qed.

Lemma routePREvent_ok e ev s0 s : events_ok s0 s -> events_ok s0 (routePREvent r e ev s).
Proof.
  intros Hok. unfold routePREvent. set (related := if ev_readFailed e then None else _).
  pose proof (event_match_route r ev related) as Hr.
  destruct (RouteEvent r ev related) as [|m0 ms]; [done|]. set (matches := m0 :: ms) in *. clearbody matches.
  destruct (match related with Some t => _ | None => _ end) as [[task persisted] db].
  apply foldl_inv; [by apply (events_ext s0 s)|]. intros s1 [m me] Hin H1. apply claim_match_ok; [|done].
  apply Hr. apply elem_of_lookup_imap in Hin as (k & m' & [= -> ->] & Hk). by eapply list_elem_of_lookup_2.
Qed.

Lemma pollPREvents_ok src p s0 s : events_ok s0 s -> events_ok s0 (pollPREvents r src p s).
Proof.
  intros Hok. unfold pollPREvents. destruct (negb (ep_read_ok p)); [done|].
  destruct (pr_watermarks s !! src) as [wm|].
  - destruct (ep_answer p (wm - prEventOverlap)) as [events|]; [|done].
    assert (events_ok s0 (foldl (fun s '(e, ev) => routePREvent r e ev s) s events)) as H.
    { apply foldl_inv; [done|]. intros s1 [e ev] _ H1. by apply routePREvent_ok. }
    destruct (ep_write_ok p); [|done]. by apply (events_ext s0 (foldl (fun s '(e, ev) => routePREvent r e ev s) s events)).
  - destruct (ep_write_ok p); [|done]. by apply (events_ext s0 s).
Qed.

Lemma pr_step_ok s0 s s' : pr_step r s s' -> events_ok s0 s -> events_ok s0 s'.
Proof.
  intros [src p s1|k s1|s1] Hok; [by apply pollPREvents_ok| |].
  - unfold start_waiting. destruct (pr_waiting s1 !! k) as [x|] eqn:Ek; [|done].
    assert (pr_started s1 ++ [x] ++ delete k (pr_waiting s1) ≡ₚ pr_started s1 ++ pr_waiting s1) as Hp.
    { f_equiv. symmetry. by apply delete_Permutation. }
    destruct Hok as [A B C D]. unfold dispatched in *. split; cbn; [done| | |done]; rewrite <- app_assoc.
    + by rewrite Hp.
    + intros y. rewrite Hp. apply C.
  - destruct Hok as [A B C D]. unfold dispatched in *. split; cbn; [done| | |done]; rewrite app_nil_r.
    + rewrite fmap_app in B. by apply NoDup_app in B as [? _].
    + intros x Hx. apply C, elem_of_app. by left.
Qed.

Lemma events_ok_init s0 : pr_claims s0 = [] -> pr_waiting s0 = [] -> pr_started s0 = [] -> events_ok s0 s0.
Proof.
  intros Hc Hw Hst. split; unfold dispatched; rewrite ?Hc, ?Hw, ?Hst; [constructor|constructor|by intros ? ?%elem_of_nil|].
  intros. lia.
Qed.

Lemma pr_run_ok s0 s s' : rtc (pr_step r) s s' -> events_ok s0 s -> events_ok s0 s'.
Proof. induction 1 as [|x y z H _ IH]; [done|]. intros Hok. apply IH. by eapply pr_step_ok. Qed.

(** Runs with keys of their own are not more than the claims they hold. *)
Lemma runs_within_claims (P : EventClaim -> bool) (runs : list EventRun) (claims : list EventClaim) :
  NoDup ((fun x => key (er_claim x)) <$> runs) -> (forall x, x ∈ runs -> er_claim x ∈ claims) ->
  length (List.filter (fun x => P (er_claim x)) runs) <= length (List.filter P claims).
Proof.
  intros Hnd Hin. rewrite <- (length_map er_claim (List.filter (fun x => P (er_claim x)) runs)).
  apply List.NoDup_incl_length.
  - rewrite <- NoDup_ListNoDup. clear Hin. induction runs as [|x runs IH]; [constructor|].
    cbn in Hnd. apply NoDup_cons in Hnd as [Hx Hnd]. simpl. destruct (P (er_claim x)) eqn:Px; [|auto].
    simpl. apply NoDup_cons. split; [|auto]. intros (y & Hy & [Hr _]%List.filter_In)%list_elem_of_In%List.in_map_iff.
    apply Hx, list_elem_of_fmap. exists y. rewrite Hy. split; [done|by apply list_elem_of_In].
  - intros c (x & <- & [Hx Px]%List.filter_In)%List.in_map_iff. apply List.filter_In.
    split; [|done]. by apply list_elem_of_In, Hin, list_elem_of_In.
Qed.

(** C25: over any sequence of polls of any sources, of failures of the adapter and
    the database, of starts of waiting dispatches and of restarts, an event starts
    a workflow at most once; and a workflow whose triggers allow [b] dispatches is
    started at most [b] times for one pull request. *)
Theorem event_dispatched_once (s0 s : PRState) :
  pr_claims s0 = [] -> pr_waiting s0 = [] -> pr_started s0 = [] -> rtc (pr_step r) s0 s ->
  NoDup ((fun x => key (er_claim x)) <$> pr_started s)
  /\ forall src wf pr b, budgeted wf b ->
       (Z.of_nat (length (List.filter (fun x => in_budget src wf pr (er_claim x)) (pr_started s))) <= b)%Z.
Proof.
  intros Hc Hw Hst Hr. destruct (pr_run_ok s0 s0 s Hr (events_ok_init s0 Hc Hw Hst)) as [_ H2 H3 H4].
  unfold dispatched in *. rewrite fmap_app in H2. apply NoDup_app in H2 as [H2 _].
  split; [done|]. intros src wf pr b Hb. specialize (H4 src wf pr b Hb). rewrite Hc in H4.
  pose proof (runs_within_claims (in_budget src wf pr) (pr_started s) (pr_claims s) H2
    (fun x Hx => H3 x (proj2 (elem_of_app _ _ _) (or_introl Hx)))) as Hle.
  unfold CountPREventDispatches in H4. change (length (List.filter _ [])) with 0%nat in H4. destruct Hb. lia.
Qed.

(** ** No event is missed *)

Lemma claim_match_grows ev task persisted s mm :
  pr_claims s `prefix_of` pr_claims (claim_match ev task persisted s mm)
  /\ pr_watermarks (claim_match ev task persisted s mm) = pr_watermarks s.
Proof.
  destruct mm as [m e]. unfold claim_match.
  destruct (if (0 <? rt_MaxDispatches (m_Route m))%Z then _ else false); [done|].
  destruct (negb (me_claim_ok e)); [done|].
  pose proof (claim_spec (claim_of ev m) (pr_claims s)) as Hc.
  destruct (ClaimPREventDispatch (claim_of ev m) (pr_claims s)) as [[] claims]; [|done].
  destruct Hc as [-> _]. split; [|done]. by exists [claim_of ev m].
Qed.

Definition grows (s s' : PRState) : Prop :=
  pr_claims s `prefix_of` pr_claims s' /\ pr_watermarks s' = pr_watermarks s.

#[local] Instance grows_preorder : PreOrder grows.
Proof. split; [done|]. intros a b c [H1 E1] [H2 E2]. split; [by etrans|congruence]. Qed.

Lemma foldl_grows {A} (f : PRState -> A -> PRState) l s : (forall s x, grows s (f s x)) -> grows s (foldl f s l).
Proof. intros Hf. revert s. induction l as [|x l IH]; intros s; [done|]. simpl. etrans; [apply Hf|apply IH]. Qed.

Lemma routePREvent_grows e ev s : grows s (routePREvent r e ev s).
Proof.
  unfold routePREvent. set (related := if ev_readFailed e then None else _).
  destruct (RouteEvent r ev related) as [|m0 ms]; [done|].
  destruct (match related with Some t => _ | None => _ end) as [[task persisted] db].
  etrans; [|apply foldl_grows; intros s1 mm; apply claim_match_grows]. done.
Qed.

Lemma events_grow events s : grows s (foldl (fun s '(e, ev) => routePREvent r e ev s) s events).
Proof. apply foldl_grows. intros s1 [e ev]. apply routePREvent_grows. Qed.

(** The match has its claim, or its budget for the pull request is used up. *)
Definition settled (ev : SourceEvent) (m : Match) (claims : list EventClaim) : Prop :=
  key (claim_of ev m) ∈ (key <$> claims)
  \/ (0 < rt_MaxDispatches (m_Route m) <= CountPREventDispatches (ev_SourceID ev) (route_id m) (ev_PRNumber ev) claims)%Z.

Lemma count_prefix src wf pr c1 c2 :
  c1 `prefix_of` c2 -> (CountPREventDispatches src wf pr c1 <= CountPREventDispatches src wf pr c2)%Z.
Proof. intros [k ->]. unfold CountPREventDispatches. rewrite List.filter_app, length_app. lia. Qed.

Lemma settled_mono ev m c1 c2 : c1 `prefix_of` c2 -> settled ev m c1 -> settled ev m c2.
Proof.
  intros Hp [Hk|Hb]; [left|right].
  - destruct Hp as [k ->]. rewrite fmap_app. apply elem_of_app. by left.
  - pose proof (count_prefix (ev_SourceID ev) (route_id m) (ev_PRNumber ev) c1 c2 Hp). lia.
Qed.

Definition answered_match (e : MatchEnv) : Prop := me_count_ok e = true /\ me_claim_ok e = true.

Lemma claim_match_settles ev task persisted s m e :
  answered_match e -> settled ev m (pr_claims (claim_match ev task persisted s (m, e))).
Proof.
  intros [He1 He2]. unfold claim_match. rewrite He1, He2. simpl.
  pose proof (claim_spec (claim_of ev m) (pr_claims s)) as Hc.
  assert (settled ev m (pr_claims (let '(claimed, claims) := ClaimPREventDispatch (claim_of ev m) (pr_claims s) in
    if claimed then {| pr_watermarks := pr_watermarks s; pr_claims := claims;
      pr_waiting := pr_waiting s ++ [{| er_claim := claim_of ev m; er_task := task; er_persisted := persisted |}];
      pr_started := pr_started s; pr_bind := pr_bind s |} else s))) as Hs.
  { left. destruct (ClaimPREventDispatch (claim_of ev m) (pr_claims s)) as [[] claims]; destruct Hc as [-> Hk]; cbn; [|done].
    rewrite fmap_app. apply elem_of_app. right. by apply list_elem_of_singleton. }
  destruct (Z.ltb_spec 0 (rt_MaxDispatches (m_Route m))) as [Hb|Hb]; [|exact Hs].
  destruct (Z.leb_spec (rt_MaxDispatches (m_Route m)) (CountPREventDispatches (ev_SourceID ev) (route_id m) (ev_PRNumber ev)
    (pr_claims s))); [|exact Hs]. by right.
Qed.

(** One event, whose database calls answer: every matching workflow is settled. *)
Lemma routePREvent_settles e ev s m :
  (forall k, answered_match (ev_match e k)) ->
  m ∈ RouteEvent r ev (if ev_readFailed e then None else related_task ev (pr_bind s)) ->
  settled ev m (pr_claims (routePREvent r e ev s)).
Proof.
  intros He. unfold routePREvent. set (related := if ev_readFailed e then None else _). intros Hm.
  destruct (RouteEvent r ev related) as [|m0 ms] eqn:E; [by apply elem_of_nil in Hm|]. rewrite <- E in *. clear E m0 ms.
  destruct (match related with Some t => _ | None => _ end) as [[task persisted] db].
  apply list_elem_of_lookup in Hm as [k Hk].
  assert ((m, ev_match e k) ∈ imap (fun k m => (m, ev_match e k)) (RouteEvent r ev related)) as Hin.
  { apply elem_of_lookup_imap. by exists k, m. }
  apply list_elem_of_split in Hin as (l1 & l2 & ->). rewrite foldl_app. simpl.
  eapply settled_mono; [apply foldl_grows; intros s1 mm; apply claim_match_grows|]. by apply claim_match_settles.
Qed.

(** Polls of any sources in turn. *)
Definition poll_all (calls : list (string * EventPoll)) (s : PRState) : PRState :=
  foldl (fun s '(src, p) => pollPREvents r src p s) s calls.

(** The poll does not move the watermark: the watermark could not be read, the
    adapter failed, or the write failed. *)
Definition unanswered (p : EventPoll) : Prop :=
  ep_read_ok p = false \/ (forall since, ep_answer p since = None) \/ ep_write_ok p = false.

Lemma poll_watermark src src' p s wm :
  pr_watermarks s !! src = Some wm ->
  exists wm', pr_watermarks (pollPREvents r src' p s) !! src = Some wm'
    /\ (wm' = wm \/ src' = src /\ wm' = ep_start p /\ ~ unanswered p).
Proof.
  intros Hwm. unfold pollPREvents. destruct (ep_read_ok p) eqn:Er; cbn [negb]; [|by eauto].
  assert (forall s1, pr_watermarks s1 = pr_watermarks s -> (exists since, ep_answer p since <> None) ->
    exists wm', pr_watermarks (if ep_write_ok p then set_watermark src' (ep_start p) s1 else s1) !! src = Some wm'
    /\ (wm' = wm \/ src' = src /\ wm' = ep_start p /\ ~ unanswered p)) as Hset.
  { intros s1 E [since Hans]. destruct (ep_write_ok p) eqn:Ew; [|rewrite E; by eauto]. cbn. rewrite E.
    destruct (decide (src' = src)) as [->|Hne]; [rewrite lookup_insert_eq|rewrite lookup_insert_ne by done; by eauto].
    eexists. split; [done|]. right. split_and!; [done|done|]. intros [|[Hn|]]; [congruence| |congruence]. by destruct (Hans (Hn since)). }
  destruct (pr_watermarks s !! src') as [w|] eqn:E'.
  - destruct (ep_answer p (w - prEventOverlap)) as [events|] eqn:Ea; [|by eauto].
    apply Hset; [apply events_grow|]. exists (w - prEventOverlap)%Z. by rewrite Ea.
  - destruct (ep_write_ok p); [|by eauto]. exists wm. split; [|by left]. cbn. rewrite lookup_insert_ne; [done|]. intros ->. congruence.
Qed.

Lemma polls_watermark src calls s wm v :
  pr_watermarks s !! src = Some wm -> (wm < v)%Z ->
  (forall p, (src, p) ∈ calls -> (ep_start p < v)%Z \/ unanswered p) ->
  exists wm', pr_watermarks (poll_all calls s) !! src = Some wm' /\ (wm' < v)%Z.
Proof.
  revert s wm. induction calls as [|[src' p] calls IH]; intros s wm Hwm Hlt Hc; [by eauto|]. simpl.
  destruct (poll_watermark src src' p s wm Hwm) as (wm' & Hwm' & Hor).
  apply (IH _ wm' Hwm'); [|intros q Hq; apply Hc; by right].
  destruct Hor as [->|(-> & -> & Ha)]; [done|]. destruct (Hc p) as [?|?]; [by left|done|done].
Qed.

(** C26: an event that the source shows from the time [v] on, at most two minutes
    after it happened at [c], is settled by the first poll that starts at or after
    [v] and is answered, however long that takes: polls of other sources do what they
    like, and of the same source any number may have started before [v], or failed
    since. Every workflow the event then matches has a claim, or no budget left. *)
Theorem no_event_missed src ev (c v wm : Z) calls p s :
  pr_watermarks s !! src = Some wm -> (wm < v <= c + prEventOverlap)%Z ->
  (forall q, (src, q) ∈ calls -> (ep_start q < v)%Z \/ unanswered q) ->
  ep_read_ok p = true ->
  (forall since, (since <= c)%Z -> exists before e after, ep_answer p since = Some (before ++ (e, ev) :: after)
     /\ forall k, answered_match (ev_match e k)) ->
  exists since before e after,
    ep_answer p since = Some (before ++ (e, ev) :: after)
    /\ let at_event := foldl (fun s '(e, ev) => routePREvent r e ev s) (poll_all calls s) before in
       forall m, m ∈ RouteEvent r ev (if ev_readFailed e then None else related_task ev (pr_bind at_event)) ->
       settled ev m (pr_claims (pollPREvents r src p (poll_all calls s))).
Proof.
  intros Hwm Hv Hc Hr Ha.
  destruct (polls_watermark src calls s wm v Hwm (proj1 Hv) Hc) as (wm' & Hwm' & Hlt).
  destruct (Ha (wm' - prEventOverlap)%Z ltac:(lia)) as (before & e & after & Hans & Hk).
  exists (wm' - prEventOverlap)%Z, before, e, after. split; [done|]. intros at_event m Hm.
  unfold pollPREvents. rewrite Hr, Hwm', Hans. simpl. rewrite foldl_app. simpl. fold at_event.
  set (s1 := foldl _ _ after).
  assert (settled ev m (pr_claims s1)) as Hs.
  { eapply settled_mono; [apply events_grow|]. by apply routePREvent_settles. }
  by destruct (ep_write_ok p).
Qed.
End props.

(** ** Running it *)

(** One trigger on comments, twice per pull request; two comments on the same
    pull request, the second half a minute before the time of the first poll. *)
Definition fix_route : RouteConfig :=
  let x := example_route "fix" [] false "pr_comment" in {|
  rt_ID := "fix"; rt_Priority := 1; rt_Match := rt_Match x; rt_Agent := "coder"; rt_Worker := ""; rt_Exclusive := false;
  rt_Once := false; rt_On := "pr_comment"; rt_CommentMatches := ""; rt_Authors := []; rt_AuthorsAssociation := [];
  rt_IgnoreAuthors := []; rt_PRAuthors := []; rt_MaxDispatches := 2 |}.

Definition fix_router : Router :=
  {| routes := [fix_route]; workers := ∅; regexes := ∅; commentRegexes := ∅ |}.

Definition comment_event (id : string) : SourceEvent := {|
  ev_ID := id; ev_SourceID := "gh"; ev_Kind := "pr_comment"; ev_PRNumber := 7; ev_PRURL := ""; ev_PRAuthor := "bee";
  ev_Author := "ana"; ev_AuthorAssociation := "member"; ev_Body := "/fix"; ev_RelatedItemID := "" |}.

Definition all_well : EventEnv := {| ev_readFailed := false; ev_bindFailed := false; ev_taskID := "t1"; ev_bindingID := "b1";
  ev_match := fun _ => {| me_count_ok := true; me_claim_ok := true |} |}.
Definition count_fails : EventEnv := {| ev_readFailed := false; ev_bindFailed := false; ev_taskID := "t1"; ev_bindingID := "b1";
  ev_match := fun _ => {| me_count_ok := false; me_claim_ok := true |} |}.

Definition second : Z := 1000000000.

(** The source shows the events that happened at or after the time asked for. *)
Definition shows (log : list (Z * EventEnv * SourceEvent)) (since : Z) : option (list (EventEnv * SourceEvent)) :=
  Some (omap (fun x => if (since <=? x.1.1)%Z then Some (x.1.2, x.2) else None) log).

Definition poll_at (t : Z) (log : list (Z * EventEnv * SourceEvent)) : EventPoll :=
  {| ep_start := t; ep_answer := shows log; ep_read_ok := true; ep_write_ok := true |}.

Definition no_events : PRState := {| pr_watermarks := ∅; pr_claims := []; pr_waiting := []; pr_started := [];
  pr_bind := {| bd_tasks := ∅; bd_bindings := [] |} |}.

Definition two_comments : list (Z * EventEnv * SourceEvent) :=
  [((70 * second)%Z, all_well, comment_event "c1"); ((150 * second)%Z, all_well, comment_event "c2")].

(** The first poll sets the watermark, the next two overlap; the dispatches start,
    the last after a third event is over the budget. *)
Definition some_polls : PRState :=
  let s := poll_all fix_router [("gh", poll_at (60 * second) []); ("gh", poll_at (120 * second) two_comments);
                                ("gh", poll_at (180 * second) two_comments)] no_events in
  poll_all fix_router [("gh", poll_at (240 * second) [((200 * second)%Z, all_well, comment_event "c3")])]
    (start_waiting 0 (start_waiting 1 s)).

Lemma poll_all_steps r calls s : rtc (pr_step r) s (poll_all r calls s).
Proof.
  revert s. induction calls as [|[src p] calls IH]; intros s; [constructor|].
  eapply rtc_l; [by apply (PRPoll r src p)|apply IH].
Qed.

Lemma event_dispatched_once_witness :
  NoDup ((fun x => key (er_claim x)) <$> pr_started some_polls)
  /\ (forall src wf pr b, budgeted fix_router wf b ->
       (Z.of_nat (length (List.filter (fun x => in_budget src wf pr (er_claim x)) (pr_started some_polls))) <= b)%Z)
  /\ budgeted fix_router "fix" 2
  /\ (fun x => cl_event (er_claim x)) <$> pr_started some_polls = ["c2"; "c1"].
Proof.
  assert (rtc (pr_step fix_router) no_events some_polls) as Hr.
  { unfold some_polls. cbv zeta. etrans; [|apply poll_all_steps]. eapply rtc_r; [|apply PRStart].
    eapply rtc_r; [|apply PRStart]. apply poll_all_steps. }
  destruct (event_dispatched_once fix_router no_events some_polls eq_refl eq_refl eq_refl Hr) as [H1 H2].
  split; [exact H1|]. split; [exact H2|]. split; [|vm_compute; reflexivity].
  split; [lia|]. intros route [->|Hin%elem_of_nil]%elem_of_cons; [intros _; cbn; lia|done].
Defined.

(** The adapter does not answer. *)
Definition failed_poll (t : Z) : EventPoll :=
  {| ep_start := t; ep_answer := fun _ => None; ep_read_ok := true; ep_write_ok := true |}.

(** The event of 150s is shown from 165s on; the poll of 120s does not see it, those
    of 180s, 240s and 300s fail, and the one of 360s sees it. *)
Lemma no_event_missed_witness :
  exists since before e after,
    shows two_comments since = Some (before ++ (e, comment_event "c2") :: after)
    /\ forall m, m ∈ RouteEvent fix_router (comment_event "c2") (if ev_readFailed e then None else None) ->
       settled (comment_event "c2") m (pr_claims (pollPREvents fix_router "gh" (poll_at (360 * second) two_comments)
         (poll_all fix_router [("gh", poll_at (120 * second) []); ("gh", failed_poll (180 * second));
                               ("gh", failed_poll (240 * second)); ("gh", failed_poll (300 * second))]
           (set_watermark "gh" (60 * second) no_events)))).
Proof.
  destruct (no_event_missed fix_router "gh" (comment_event "c2") (150 * second) (165 * second) (60 * second)
    [("gh", poll_at (120 * second) []); ("gh", failed_poll (180 * second));
     ("gh", failed_poll (240 * second)); ("gh", failed_poll (300 * second))] (poll_at (360 * second) two_comments)
    (set_watermark "gh" (60 * second) no_events)) as (since & before & e & after & Ha & Hm).
  - reflexivity.
  - vm_compute. split; [reflexivity|discriminate].
  - intros q Hin. rewrite !elem_of_cons, elem_of_nil in Hin. destruct Hin as [Hq|[Hq|[Hq|[Hq|[]]]]]; injection Hq as ->.
    + left. vm_compute. reflexivity.
    + right. right. left. reflexivity.
    + right. right. left. reflexivity.
    + right. right. left. reflexivity.
  - reflexivity.
  - intros since Hle. cbn [ep_answer poll_at]. unfold shows, two_comments. cbn [omap list_omap fst snd].
    rewrite (proj2 (Z.leb_le since (150 * second)%Z) Hle).
    destruct (since <=? 70 * second)%Z; cbn.
    + exists [(all_well, comment_event "c1")], all_well, []. split; [reflexivity|]. intros k. split; reflexivity.
    + exists [], all_well, []. split; [reflexivity|]. intros k. split; reflexivity.
  - exists since, before, e, after. split; [exact Ha|]. exact Hm.
Defined.

(** A match skipped for a failed count ("skipping this poll") is not looked at
    again when the next poll starts two minutes after this one or later: the
    watermark has moved past it. *)
Lemma skipped_event_lost :
  let log e := [((70 * second)%Z, e, comment_event "c1")] in
  let s := poll_all fix_router [("gh", poll_at (60 * second) []); ("gh", poll_at (200 * second) (log count_fails));
                                ("gh", poll_at (400 * second) (log all_well))] no_events in
  pr_claims s = [] /\ pr_waiting s = [].
Proof. vm_compute. auto. Qed.

(** A claim is taken before the dispatch has its slot: when the process ends while
    it waits, no later poll starts it. *)
Lemma claimed_event_lost_at_shutdown :
  let s := poll_all fix_router [("gh", poll_at (60 * second) []); ("gh", poll_at (120 * second) two_comments)] no_events in
  let s := poll_all fix_router [("gh", poll_at (180 * second) two_comments)] (shut_down s) in
  (fun c => cl_event c) <$> pr_claims s = ["c1"; "c2"] /\ pr_waiting s = [] /\ pr_started s = [].
Proof. vm_compute. auto. Qed.
