(* ===== verification/ManualRun.v ===== *)
(** * Manual runs and forced restarts (src/internal/daemon/manual_run.go and
      ForceRestart with its helpers in src/internal/daemon/dispatcher.go)

    How a reference typed by a person becomes an item: the bindings it names, the
    sources that can be asked for it, and the errors of one that is unknown or names
    several; the run of one workflow beside the guards of a poll, with a reserved
    instance; and the restart that interrupts what an item has under way, clears its
    control labels at the sources and routes it again. HTTP, logs and the legacy
    table tasks are not modelled. *)

From stdpp Require Import base gmap strings list relations.
From Stdlib Require Import ZArith Ascii.
From S2P Require Import Prelude State Model Config Router Queue Tasks Dispatch Binder Polling.

Inductive RunError :=
  | ErrUnknownWorkflow | ErrUnknownCell | ErrUnknownSource | ErrAmbiguousRef | ErrSourceRequired | ErrNotDispatched
  | ErrStandaloneTask | ErrReserve | ErrRead.

(** [manualRunHTTPStatus]. *)
Definition manualRunHTTPStatus (x : RunError) : Z :=
  match x with
  | ErrUnknownWorkflow => 404
  | ErrUnknownCell | ErrUnknownSource | ErrAmbiguousRef | ErrSourceRequired => 400
  | ErrNotDispatched | ErrStandaloneTask | ErrReserve | ErrRead => 500
  end.

(** ** References *)

(** Which reads of the bindings go through. *)
Record RefReads := { rr_item_ok : bool; rr_number_ok : bool }.

Definition in_source (sourceID : string) (b : SourceBinding) : bool :=
  is_empty sourceID || bool_decide (sb_SourceID b = sourceID).

(** A key of the map [distinct]. *)
Definition binding_key (b : SourceBinding) : string := sb_SourceID b +:+ ":" +:+ sb_SourceItemID b.

(** The second half of [resolveCellRef]: the reference as a number. *)
Definition by_number (e : RefReads) (ref sourceID : string) (db : BindDB) : result RunError (string * string) :=
  if negb (rr_number_ok e) then Err ErrRead
  else match List.filter (in_source sourceID) (ListBindingsBySourceItemNumber ref db) with
       | [] => Ok (ref, "")
       | b :: bs =>
           if 1 <? length (remove_dups (binding_key <$> b :: bs)) then Err ErrAmbiguousRef
           else Ok (sb_SourceItemID b, sb_SourceItemNumber b)
       end.

(** [resolveCellRef]: the cell id and the number it is known by. *)
Definition resolveCellRef (e : RefReads) (ref sourceID : string) (db : BindDB) : result RunError (string * string) :=
  let ref := trim_space ref in
  if is_empty ref then Ok (ref, "")
  else match (if rr_item_ok e then GetBindingBySourceItemID ref db else None) with
       | Some b => if in_source sourceID b then Ok (sb_SourceItemID b, sb_SourceItemNumber b)
                   else by_number e ref sourceID db
       | None => by_number e ref sourceID db
       end.

(** ** The sources *)

(** The capabilities of an adapter: [TaskPoller], with what it answers for an id,
    [StateSetter] and [LabelRemover]. *)
Record Adapter := {
  ad_PollTask : option (string -> option SourceItem);
  ad_SetState : bool;
  ad_RemoveLabels : bool;
}.

Definition with_item_id (id : string) (x : SourceItem) : SourceItem := {|
  si_ID := id; si_SourceID := si_SourceID x; si_Number := si_Number x; si_Title := si_Title x;
  si_Description := si_Description x; si_Labels := si_Labels x; si_Type := si_Type x; si_Priority := si_Priority x;
  si_State := si_State x; si_URL := si_URL x; si_Comments := si_Comments x |}.
Definition with_item_source (src : string) (x : SourceItem) : SourceItem := {|
  si_ID := si_ID x; si_SourceID := src; si_Number := si_Number x; si_Title := si_Title x;
  si_Description := si_Description x; si_Labels := si_Labels x; si_Type := si_Type x; si_Priority := si_Priority x;
  si_State := si_State x; si_URL := si_URL x; si_Comments := si_Comments x |}.
Definition with_item_labels (labels : list string) (x : SourceItem) : SourceItem := {|
  si_ID := si_ID x; si_SourceID := si_SourceID x; si_Number := si_Number x; si_Title := si_Title x;
  si_Description := si_Description x; si_Labels := labels; si_Type := si_Type x; si_Priority := si_Priority x;
  si_State := si_State x; si_URL := si_URL x; si_Comments := si_Comments x |}.

(** An item that has nothing but its identity. *)
Definition bare_item (id src title : string) : SourceItem := {|
  si_ID := id; si_SourceID := src; si_Number := ""; si_Title := title; si_Description := ""; si_Labels := [];
  si_Type := ""; si_Priority := ""; si_State := ""; si_URL := ""; si_Comments := [] |}.

(** ** The daemon *)

Record Daemon := {
  dm_poll : PollState;
  dm_runCancel : gset string;               (* cells with a run that can be canceled *)
  dm_cells : gmap string string;            (* workflow_instances.cell_id *)
  dm_executions : gmap string string;       (* the status of the last legacy execution of a cell *)
  dm_parked : gset string;                  (* instances the engine holds *)
}.

Definition with_poll (p : PollState) (s : Daemon) : Daemon := {|
  dm_poll := p; dm_runCancel := dm_runCancel s; dm_cells := dm_cells s; dm_executions := dm_executions s;
  dm_parked := dm_parked s |}.
Definition daemon_bind (s : Daemon) : BindDB := po_bind (dm_poll s).
Definition daemon_tables (s : Daemon) : Tables := w_tables (po_stores (dm_poll s)).
Definition on_daemon_tables (f : Tables -> Tables) (s : Daemon) : Daemon :=
  with_poll (with_stores (on_tables f (po_stores (dm_poll s))) (dm_poll s)) s.

(** [ListWorkflowInstancesByCell], but for the order. *)
Definition ListWorkflowInstancesByCell (cellID : string) (s : Daemon) : list InstanceRow :=
  List.filter (fun i => bool_decide (dm_cells s !! wi_ID i = Some cellID)) (workflow_instances (daemon_tables s)).

(** Which reads of [assertKnownCell] go through. *)
Record KnownReads := { kr_binding_ok : bool; kr_instances_ok : bool; kr_execution_ok : bool }.

(** [assertKnownCell]; the hint of the error is not modelled. *)
Definition assertKnownCell (e : KnownReads) (cellID : string) (s : Daemon) : option RunError :=
  if is_empty cellID then Some ErrUnknownCell
  else if bool_decide (is_Some (po_inFlight (dm_poll s) !! cellID)) then None
  else if bool_decide (cellID ∈ dm_runCancel s) then None
  else if negb (kr_binding_ok e) then Some ErrRead
  else match GetBindingBySourceItemID cellID (daemon_bind s) with
  | Some _ => None
  | None =>
      if negb (kr_instances_ok e) then Some ErrRead
      else if negb (bool_decide (ListWorkflowInstancesByCell cellID s = [])) then None
      else if negb (kr_execution_ok e) then Some ErrRead
      else if bool_decide (is_Some (dm_executions s !! cellID)) then None
      else Some ErrUnknownCell
  end.

Section sources.
Context (cfg_sources : list string) (sources : gmap string Adapter).

(** [manualSource]. *)
Definition manualSource (id : string) : result RunError Adapter :=
  match sources !! id with Some a => Ok a | None => Err ErrUnknownSource end.

(** The adapter of a configured, connected source that can poll one item. *)
Definition poller_of (id : string) : option (string -> option SourceItem) := a ← sources !! id; ad_PollTask a.

(** [manualSourceForDiscovery]: with what the source answers. *)
Definition manualSourceForDiscovery (sourceID : string) : result RunError (string * (string -> option SourceItem)) :=
  if negb (is_empty sourceID) then
    match manualSource sourceID with
    | Err e => Err e
    | Ok a => match ad_PollTask a with Some p => Ok (sourceID, p) | None => Err ErrUnknownCell end
    end
  else match omap (fun id => (fun p => (id, p)) <$> poller_of id) cfg_sources with
       | [c] => Ok c
       | [] => Err ErrUnknownCell
       | _ => Err ErrSourceRequired
       end.

(** [discoverItem]: the item and the source whose adapter goes with it. *)
Definition discoverItem (ref sourceID : string) : result RunError (SourceItem * string) :=
  match manualSourceForDiscovery sourceID with
  | Err e => Err e
  | Ok (id, poll) =>
      match poll (trim_space ref) with
      | None => Err ErrUnknownCell
      | Some cell => if is_empty (si_ID cell) then Err ErrUnknownCell else Ok (with_item_source id cell, id)
      end
  end.

(** What one source answers for a cell; another item is not accepted. *)
Definition read_cell (cellID id : string) : option SourceItem :=
  poll ← poller_of id; cell ← poll cellID;
  if negb (is_empty (si_ID cell)) && negb (bool_decide (si_ID cell = cellID)) then None else Some cell.

(** [fetchCell]: the first source that answers. *)
Fixpoint fetchCell (cellID sourceID : string) (ids : list string) : option (SourceItem * string) :=
  match ids with
  | [] => None
  | id :: ids =>
      if negb (is_empty sourceID) && negb (bool_decide (id = sourceID)) then fetchCell cellID sourceID ids
      else match read_cell cellID id with
           | Some cell => Some (with_item_id cellID cell, id)
           | None => fetchCell cellID sourceID ids
           end
  end.

(** ** A manual run *)

Record ManualRunRequest := { mr_WorkflowID : string; mr_ItemRef : string; mr_SourceID : string; mr_Title : string }.

Record ManualRunResult := {
  ms_WorkflowID : string; ms_InstanceID : string; ms_TaskID : string; ms_CellID : string; ms_Ref : string;
  ms_SourceID : string; ms_Standalone : bool; ms_Concurrent : bool;
}.

(** What a run meets outside: the reads, the ids and times it draws, the nonce. *)
Record ManualEnv := {
  me_refs : RefReads;
  me_known : KnownReads;
  me_last_ok : bool;                        (* the reads of the last known state *)
  me_active_ok : bool;
  me_reread_ok : bool;
  me_turn : Turn;
  me_taskID : string;                       (* of a standalone task *)
  me_instanceID : string;
  me_nonce : string;
}.

(** A target: the item, the task, whether it is in the database, and the state
    once it is bound. *)
Definition Target : Type := SourceItem * InternalTask * bool * Daemon.

Definition bind_target (e : ManualEnv) (cell : SourceItem) (s : Daemon) : Target :=
  let t := me_turn e in
  let '(task, persisted, b) := bindItem (tn_bindFailed t) (tn_taskID t) (tn_bindingID t) cell (daemon_bind s) in
  (cell, task, persisted, with_poll (with_bound task persisted b (dm_poll s)) s).

(** The fall-back when no source can read a known cell. *)
Definition last_known (e : ManualEnv) (cellID : string) (s : Daemon) : Target :=
  match (if me_last_ok e then GetBindingBySourceItemID cellID (daemon_bind s) else None) with
  | None => bind_target e (bare_item cellID "" "") s
  | Some b =>
      let cell := bare_item cellID (sb_SourceID b) "" in
      match bd_tasks (daemon_bind s) !! sb_TaskID b with
      | Some t => (cell, t, true, s)
      | None => bind_target e cell s
      end
  end.

(** [manualTargetItem]. *)
Definition manualTargetItem (e : ManualEnv) (ref sourceID : string) (s : Daemon) : result RunError Target :=
  match (if is_empty sourceID then None else match manualSource sourceID with Err x => Some x | Ok _ => None end) with
  | Some x => Err x
  | None =>
      match resolveCellRef (me_refs e) ref sourceID (daemon_bind s) with
      | Err x => Err x
      | Ok (cellID, _) =>
          match assertKnownCell (me_known e) cellID s with
          | None => Ok (match fetchCell cellID sourceID cfg_sources with
                        | Some (cell, _) => bind_target e cell s
                        | None => last_known e cellID s
                        end)
          | Some ErrUnknownCell =>
              match discoverItem ref sourceID with
              | Err x => Err x
              | Ok (cell, _) => Ok (bind_target e cell s)
              end
          | Some x => Err x
          end
      end
  end.

Section run.
Context {RT : GoRuntime} {PC : PayloadCodec}.
Context (d : Dispatcher) (queued : bool).

(** [standaloneTask]; the text of the workflow's description goes with it. *)
Definition standaloneTask (e : ManualEnv) (wf : WorkflowConfig) (description : string) (req : ManualRunRequest)
    (s : Daemon) : result RunError Target :=
  let title := if is_empty (trim_space (mr_Title req)) then "manual run: " +:+ wc_ID wf else trim_space (mr_Title req) in
  let task := {| it_ID := me_taskID e; it_ParentTaskID := ""; it_Title := title; it_Description := description;
    it_Metadata := {| md_Labels := []; md_Priority := ""; md_Type := "manual"; md_Source := ""; md_State := "" |} |} in
  match bd_tasks (daemon_bind s) !! me_taskID e with
  | Some _ => Err ErrStandaloneTask
  | None => Ok (bare_item (it_ID task) "" title, task, true,
                with_poll (with_bound task true (put_task task (daemon_bind s)) (dm_poll s)) s)
  end.

(** [ReserveInstance], with the cell of the row. *)
Definition reserve (e : ManualEnv) (wf : WorkflowConfig) (task : InternalTask) (s : Daemon) : option Daemon :=
  db ← ReserveInstance (tn_now (me_turn e)) (me_instanceID e) wf task (daemon_tables s);
  let s := on_daemon_tables (fun _ => db) s in
  Some {| dm_poll := dm_poll s; dm_runCancel := dm_runCancel s; dm_executions := dm_executions s; dm_parked := dm_parked s;
    dm_cells := <[me_instanceID e := si_ID (sourceItemView task (ListBindingsByTask (it_ID task) (daemon_bind s)))]> (dm_cells s) |}.

Definition with_instance_id (id : string) (m : Match) : Match :=
  {| m_Worker := m_Worker m; m_Route := m_Route m; m_InstanceID := id |}.

(** From the target on: report a live instance, reserve, fan out, and look whether
    the reservation was abandoned. *)
Definition run_target (e : ManualEnv) (wf : WorkflowConfig) (m : Match) (req : ManualRunRequest) (standalone : bool)
    (t : Target) : result RunError ManualRunResult * Daemon :=
  let '(cell, task, persisted, s) := t in
  let ref := if standalone then ""
             else if is_empty (si_Number cell) && negb (is_empty (si_ID cell))
             then match resolveCellRef (me_refs e) (mr_ItemRef req) (mr_SourceID req) (daemon_bind s) with
                  | Ok (_, number) => number
                  | Err _ => ""
                  end
             else si_Number cell in
  let concurrent := persisted && me_active_ok e && HasActiveInstanceForRoute (it_ID task) (wc_ID wf) (daemon_tables s) in
  match reserve e wf task s with
  | None => (Err ErrReserve, s)
  | Some s =>
      let m := with_instance_id (me_instanceID e) m in
      let s := with_poll (fanOut d queued (me_turn e) cell task persisted [m] ("manual-" +:+ me_nonce e) false (dm_poll s)) s in
      let canceled := match GetWorkflowInstance (me_instanceID e) (daemon_tables s) with
                      | Some i => me_reread_ok e && bool_decide (wi_State i = state.Canceled)
                      | None => false
                      end in
      (if canceled then Err ErrNotDispatched
       else Ok {| ms_WorkflowID := wc_ID wf; ms_InstanceID := me_instanceID e; ms_TaskID := it_ID task;
                  ms_CellID := if standalone then "" else si_ID cell; ms_Ref := ref;
                  ms_SourceID := if standalone then "" else si_SourceID cell;
                  ms_Standalone := standalone; ms_Concurrent := concurrent |}, s)
  end.

(** [RunWorkflowManual], of a daemon with a database. *)
Definition RunWorkflowManual (e : ManualEnv) (description : string) (req : ManualRunRequest) (s : Daemon)
    : result RunError ManualRunResult * Daemon :=
  match find_workflow d (trim_space (mr_WorkflowID req)) with
  | None => (Err ErrUnknownWorkflow, s)
  | Some wf =>
      match ManualMatch wf with
      | None => (Err ErrUnknownWorkflow, s)
      | Some m =>
          let standalone := is_empty (trim_space (mr_ItemRef req)) in
          match (if standalone then standaloneTask e wf description req s
                 else manualTargetItem e (mr_ItemRef req) (mr_SourceID req) s) with
          | Err x => (Err x, s)
          | Ok t => run_target e wf m req standalone t
          end
      end
  end.
End run.

(** ** A forced restart *)

(** What is written to a source. *)
Inductive SourceWrite :=
  | SetState (src cellID stateName : string)
  | RemoveLabels (src : string) (cell : SourceItem) (labels : list string).

(** [withoutLabels]. *)
Definition withoutLabels (labels remove : list string) : list string :=
  List.filter (fun l => negb (str_in (to_lower l) (to_lower <$> remove))) labels.

(** [controlLabels], of the matches of the configured triggers. *)
Definition is_control (ms : list RouteMatch) (l : string) : bool :=
  str_in (to_lower l) (to_lower <$> (m ← ms; rm_ExcludeLabels m))
  || existsb (fun m => negb (is_empty (rm_ExcludeLabelPrefix m)) && has_prefix (to_lower l) (to_lower (rm_ExcludeLabelPrefix m))) ms.

Definition configured_matches (wfs : list WorkflowConfig) : list RouteMatch :=
  omap (fun wf => tr_Match <$> wc_Trigger wf) wfs.

Definition controlLabels (wfs : list WorkflowConfig) (cell : SourceItem) : list string :=
  List.filter (is_control (configured_matches wfs)) (si_Labels cell).

(** [forgetParked]: a held instance gives its slot back, [StopParked]. *)
Definition forgetParked (i : InstanceRow) (s : Daemon) : Daemon :=
  if bool_decide (wi_ID i ∈ dm_parked s) then
    let s := {| dm_poll := dm_poll s; dm_runCancel := dm_runCancel s; dm_cells := dm_cells s;
                dm_executions := dm_executions s; dm_parked := dm_parked s ∖ {[wi_ID i]} |} in
    if is_empty (wi_TaskID i) then s
    else on_daemon_tables (fun db => (DecrementOutstanding (wi_TaskID i) db).2) s
  else s.

Definition interrupt_one (s : Daemon) (i : InstanceRow) : Daemon :=
  if state.IsTerminal (wi_State i) then s
  else on_daemon_tables (UpdateWorkflowInstanceState (wi_ID i) state.Blocked state.ReasonInterrupted) (forgetParked i s).

Record RestartEnv := {
  re_refs : RefReads;
  re_known : KnownReads;
  re_instances_ok : bool;
  re_execution_ok : bool;
  re_turn : Turn;
}.

(** What the daemon itself keeps of the cell, and its rows. *)
Definition interrupt_cell (e : RestartEnv) (cellID : string) (s : Daemon) : Daemon :=
  let s := {| dm_poll := unmark cellID (dm_poll s); dm_runCancel := dm_runCancel s ∖ {[cellID]}; dm_cells := dm_cells s;
    dm_executions := if re_execution_ok e && bool_decide (dm_executions s !! cellID = Some "running")
                     then <[cellID := "interrupted"]> (dm_executions s) else dm_executions s;
    dm_parked := dm_parked s |} in
  if re_instances_ok e then foldl interrupt_one s (ListWorkflowInstancesByCell cellID s) else s.

(** Every source that can set a state is told, whatever item has the id there. *)
Definition reset_states (cellID : string) : list SourceWrite :=
  omap (fun id => a ← sources !! id; if ad_SetState a then Some (SetState id cellID "todo") else None) cfg_sources.

(** One source of the label loop. *)
Definition strip_one (wfs : list WorkflowConfig) (cellID : string) (acc : list SourceWrite * option SourceItem) (id : string)
    : list SourceWrite * option SourceItem :=
  match read_cell cellID id with
  | None => acc
  | Some cell =>
      let labels := controlLabels wfs cell in
      let removes := match sources !! id with Some a => ad_RemoveLabels a | None => false end in
      (acc.1 ++ (if removes && nonempty labels then [RemoveLabels id cell labels] else []),
       match acc.2 with
       | Some x => Some x
       | None => Some (with_item_labels (withoutLabels (si_Labels cell) labels) (with_item_id cellID cell))
       end)
  end.

Record RestartResult := { rs_CellID : string; rs_Ref : string; rs_Workflows : list string; rs_Overridden : list string }.

(** [ForceRestart]: the answer, what was written to the sources in order, and the
    state. *)
Definition ForceRestart {RT : GoRuntime} {PC : PayloadCodec} (d : Dispatcher) (r : Router) (resuming : gset string)
    (queued : bool) (e : RestartEnv) (ref : string) (s : Daemon) : result RunError RestartResult * list SourceWrite * Daemon :=
  match resolveCellRef (re_refs e) ref "" (daemon_bind s) with
  | Err x => (Err x, [], s)
  | Ok (cellID, number) =>
      match assertKnownCell (re_known e) cellID s with
      | Some x => (Err x, [], s)
      | None =>
          let s := interrupt_cell e cellID s in
          let '(stripped, cell) := foldl (strip_one (d_Workflows d) cellID) ([], None) cfg_sources in
          let writes := reset_states cellID ++ stripped in
          match cell with
          | None => (Ok {| rs_CellID := cellID; rs_Ref := number; rs_Workflows := []; rs_Overridden := [] |}, writes, s)
          | Some cell =>
              let '(ids, overridden, p) := redispatchCell d r resuming queued (re_turn e) cell (dm_poll s) in
              (Ok {| rs_CellID := cellID; rs_Ref := number; rs_Workflows := ids; rs_Overridden := overridden |}, writes, with_poll p s)
          end
      end
  end.
End sources.
