(* ===== verification/ManualRunProps.v ===== *)
(** * Manual runs and forced restarts: nothing happens by halves

    A manual run that is refused leaves nothing behind that will run, and one that
    is accepted is carried out by exactly one goroutine or job under the id it
    answers with; a restart interrupts what its cell has under way, and nothing of
    any other cell, before the cell is routed without its control labels. *)

From stdpp Require Import base gmap strings list relations.
From Stdlib Require Import ZArith Ascii.
From S2P Require Import Prelude State Model Config Router Queue Tasks Dispatch DispatchProps DeliveryProps Binder Polling PollingProps ManualRun.

(** ** References *)

(** What a reference resolves to: a binding in scope, or itself when no binding in
    scope has it as its number. *)
Lemma resolveCellRef_sound e ref sourceID db id number :
  resolveCellRef e ref sourceID db = Ok (id, number) ->
  (exists b, b ∈ bd_bindings db /\ in_source sourceID b = true /\ id = sb_SourceItemID b /\ number = sb_SourceItemNumber b)
  \/ (id = trim_space ref /\ number = ""
      /\ (id <> "" -> List.filter (in_source sourceID) (ListBindingsBySourceItemNumber id db) = [])).
Proof.
  assert (forall x, by_number e x sourceID db = Ok (id, number) ->
    (exists b, b ∈ bd_bindings db /\ in_source sourceID b = true /\ id = sb_SourceItemID b /\ number = sb_SourceItemNumber b)
    \/ (id = x /\ number = "" /\ List.filter (in_source sourceID) (ListBindingsBySourceItemNumber x db) = [])) as Hn.
  { intros x. unfold by_number. destruct (negb _); [done|].
    destruct (List.filter _ _) as [|b bs] eqn:Ef; [intros [= <- <-]; by right|].
    destruct (1 <? _); [done|]. intros [= <- <-]. left. exists b.
    assert (b ∈ List.filter (in_source sourceID) (ListBindingsBySourceItemNumber x db)) as Hb by (rewrite Ef; by left).
    apply list_elem_of_In, List.filter_In in Hb as [Hb Hs]. split_and!; [|done|done|done].
    unfold ListBindingsBySourceItemNumber in Hb. destruct (is_empty _); [by apply List.in_nil in Hb|].
    apply List.filter_In in Hb as [Hb _]. by apply list_elem_of_In. }
  unfold resolveCellRef. destruct (is_empty (trim_space ref)) eqn:Ee.
  { intros [= <- <-]. right. apply is_empty_true in Ee. split_and!; [done|done|done]. }
  destruct (if rr_item_ok e then _ else None) as [b|] eqn:Eb.
  - destruct (in_source sourceID b) eqn:Es; [|intros [?|(-> & -> & ?)]%Hn; [by left|right; by split_and!]].
    intros [= <- <-]. left. exists b. split_and!; [|done|done|done].
    destruct (rr_item_ok e); [|done]. apply List.find_some in Eb as [Hb _]. by apply list_elem_of_In.
  - intros [?|(-> & -> & ?)]%Hn; [by left|right; by split_and!].
Qed.

(** ** The target of a run *)

(** Nothing but bindings and task rows changed. *)
Record only_bound (s s' : Daemon) : Prop := {
  ob_inFlight : po_inFlight (dm_poll s') = po_inFlight (dm_poll s);
  ob_runs : po_runs (dm_poll s') = po_runs (dm_poll s);
  ob_rounds : po_rounds (dm_poll s') = po_rounds (dm_poll s);
  ob_queue : w_queue (po_stores (dm_poll s')) = w_queue (po_stores (dm_poll s));
  ob_instances : workflow_instances (daemon_tables s') = workflow_instances (daemon_tables s);
  ob_cells : dm_cells s' = dm_cells s;
}.

#[local] Instance only_bound_refl : Reflexive only_bound.
Proof. done. Qed.

Lemma with_bound_only task persisted b s : only_bound s (with_poll (with_bound task persisted b (dm_poll s)) s).
Proof.
  destruct persisted; [|done]. split; try done. unfold daemon_tables. cbn. unfold with_row. by destruct (_ !! _).
Qed.

Lemma bind_target_only e cell s c t p s' : bind_target e cell s = (c, t, p, s') -> only_bound s s'.
Proof.
  unfold bind_target. destruct (bindItem _ _ _ _ _) as [[task persisted] b]. intros [= _ _ _ <-]. apply with_bound_only.
Qed.

Lemma standaloneTask_only e wf text req s c t p s' :
  standaloneTask e wf text req s = Ok (c, t, p, s') -> only_bound s s'.
Proof.
  unfold standaloneTask. cbv zeta. set (task := {| it_ID := _ |}). destruct (bd_tasks _ !! _); [done|].
  intros [= _ _ _ <-]. apply (with_bound_only task true).
Qed.

Section props.
Context (cfg_sources : list string) (sources : gmap string Adapter).

Lemma manualTargetItem_only e ref sourceID s c t p s' :
  manualTargetItem cfg_sources sources e ref sourceID s = Ok (c, t, p, s') -> only_bound s s'.
Proof.
  unfold manualTargetItem. destruct (if is_empty sourceID then _ else _); [done|].
  destruct (resolveCellRef _ _ _ _) as [[cellID n]|]; [|done].
  destruct (assertKnownCell _ _ _) as [[]|]; try done.
  - destruct (discoverItem _ _ _ _) as [[cell ?]|]; [|done]. intros [= H]. by eapply bind_target_only.
  - intros [= H]. destruct (fetchCell _ _ _ _) as [[cell ?]|]; [by eapply bind_target_only|].
    unfold last_known in H. destruct (if me_last_ok e then _ else None); [|by eapply bind_target_only].
    destruct (bd_tasks _ !! _); [by injection H as _ _ _ <-|by eapply bind_target_only].
Qed.

(** The error of a target is never one of the later errors. *)
Lemma manualTargetItem_err e ref sourceID s x :
  manualTargetItem cfg_sources sources e ref sourceID s = Err x -> x <> ErrReserve /\ x <> ErrNotDispatched.
Proof.
  assert (forall r, resolveCellRef (me_refs e) ref sourceID (daemon_bind s) = Err r -> r <> ErrReserve /\ r <> ErrNotDispatched) as H1.
  { assert (forall z r, by_number (me_refs e) z sourceID (daemon_bind s) = Err r -> r <> ErrReserve /\ r <> ErrNotDispatched) as Hn.
    { intros z r. unfold by_number. destruct (negb _); [by intros [= <-]|]. destruct (List.filter _ _); [done|].
      destruct (1 <? _); [by intros [= <-]|done]. }
    intros r. unfold resolveCellRef. destruct (is_empty _); [done|]. destruct (if rr_item_ok _ then _ else _); [|apply Hn].
    destruct (in_source _ _); [done|apply Hn]. }
  assert (forall c r, assertKnownCell (me_known e) c s = Some r -> r <> ErrReserve /\ r <> ErrNotDispatched) as H2.
  { intros c r. unfold assertKnownCell. repeat case_match; by intros [= <-]. }
  assert (forall r, discoverItem cfg_sources sources ref sourceID = Err r -> r <> ErrReserve /\ r <> ErrNotDispatched) as H3.
  { intros r. unfold discoverItem, manualSourceForDiscovery, manualSource. repeat case_match; simplify_eq; by intros [= <-]. }
  unfold manualTargetItem, manualSource.
  destruct (if is_empty sourceID then None else _) as [y|] eqn:E0.
  { intros [= <-]. destruct (is_empty sourceID); [done|]. by destruct (sources !! sourceID); simplify_eq. }
  destruct (resolveCellRef _ _ _ _) as [[cellID n]|r] eqn:E1; [|intros [= <-]; by apply H1].
  destruct (assertKnownCell _ _ _) as [r|] eqn:E2; [|done]. specialize (H2 _ _ E2).
  destruct r; try (intros [= <-]; done).
  destruct (discoverItem _ _ _ _) as [[cell ?]|r] eqn:E3; [done|]. intros [= <-]. by apply H3.
Qed.

(** ** The run *)

Section run.
Context {RT : GoRuntime} {PC : PayloadCodec}.
Context (d : Dispatcher) (queued : bool).

(** One match handed to the queue: a new job with the match in its payload, or the
    reservation is canceled. *)
Lemma enqueue_single cell task suffix counted m env w :
  m_InstanceID m <> "" ->
  let w' := (enqueueFanOut d cell task suffix counted [(m, env)] w).1 in
  (exists payload id row, payload_marshal {| dp_Version := dispatchPayloadVersion; dp_Cell := cell; dp_Task := task; dp_Match := m |} = Some payload
     /\ dispatch_jobs (w_queue w) !! id = None /\ dispatch_jobs (w_queue w') = <[id := row]> (dispatch_jobs (w_queue w))
     /\ sn_payload (jr_snap row) = payload /\ jr_state row = JobQueued
     /\ workflow_instances (w_tables w') = workflow_instances (w_tables w))
  \/ (w_queue w' = w_queue w
      /\ workflow_instances (w_tables w')
         = workflow_instances (LeaveQueuedState (m_InstanceID m) state.Canceled "" (w_tables w)).1).
Proof.
  intros Hm. cbv zeta. unfold enqueueFanOut. destruct counted.
  - set (w1 := on_tables _ w). cbn [enqueue_loop]. set (g := Generation _ _). unfold enqueue_one.
    assert (forall w2, w_queue w2 = w_queue w -> w_tables w2 = w_tables w1 ->
      w_queue (refuse (it_ID task) m w2) = w_queue w
      /\ workflow_instances (w_tables (refuse (it_ID task) m w2))
         = workflow_instances (LeaveQueuedState (m_InstanceID m) state.Canceled "" (w_tables w)).1) as Hrefuse.
    { intros w2 Hq Ht. unfold refuse, abandonReservation. rewrite (proj2 (is_empty_false _) Hm). cbn. by rewrite Ht. }
    destruct (payload_marshal _) as [payload|]; cbn [fst]; [|by right; apply Hrefuse].
    destruct (Enqueue _ _ _ _) as [[[[] job] q]|] eqn:E; cbn [fst].
    + left. apply Enqueue_spec in E as (id & max & avail & Hfresh & ->).
      exists payload, id, (newJobRow (with_id (job_of d cell task suffix g payload m) id max avail) env.2).
      split_and!; done.
    + right. apply Hrefuse; by destruct (isTerminalJobState _).
    + by right; apply Hrefuse.
  - right. cbn. unfold abandonReservation. by rewrite (proj2 (is_empty_false _) Hm).
Qed.

(** The reserved row. *)
Lemma reserve_spec e wf task s s1 :
  reserve e wf task s = Some s1 ->
  me_instanceID e ∉ wi_ID <$> workflow_instances (daemon_tables s)
  /\ (exists row, workflow_instances (daemon_tables s1) = workflow_instances (daemon_tables s) ++ [row]
       /\ wi_ID row = me_instanceID e /\ wi_WorkflowID row = wc_ID wf /\ wi_TaskID row = it_ID task /\ wi_State row = state.Queued)
  /\ po_inFlight (dm_poll s1) = po_inFlight (dm_poll s) /\ po_runs (dm_poll s1) = po_runs (dm_poll s)
  /\ po_rounds (dm_poll s1) = po_rounds (dm_poll s) /\ w_queue (po_stores (dm_poll s1)) = w_queue (po_stores (dm_poll s)).
Proof.
  unfold reserve, ReserveInstance, createInstance, CreateWorkflowInstance. cbn [wi_ID].
  destruct (str_in _ _) eqn:E; [done|]. apply bool_decide_eq_false in E. intros [= <-]. split_and!; try done.
  - eexists. split; [done|]. done.
Qed.

Lemma find_appended id (rows : list InstanceRow) row tasks :
  id ∉ wi_ID <$> rows -> wi_ID row = id ->
  GetWorkflowInstance id {| internal_tasks := tasks; workflow_instances := rows ++ [row] |} = Some row.
Proof.
  intros Hn Hid. unfold GetWorkflowInstance. cbn. induction rows as [|x rows IH]; cbn.
  - by rewrite bool_decide_true.
  - cbn in Hn. apply not_elem_of_cons in Hn as [Hx Hn]. rewrite bool_decide_false by congruence. by apply IH.
Qed.

(** What carries the run out: a goroutine that owns no marker, or a job. *)
Definition runs_once (cell : SourceItem) (task : InternalTask) (m : Match) (p p' : PollState) : Prop :=
  po_runs p' = po_runs p ++ [{| la_cell := si_ID cell; la_round := po_rounds p; la_owns := false; la_task := task; la_match := m |}]
  /\ w_queue (po_stores p') = w_queue (po_stores p)
  \/ po_runs p' = po_runs p
     /\ exists payload id row,
        payload_marshal {| dp_Version := dispatchPayloadVersion; dp_Cell := cell; dp_Task := task; dp_Match := m |} = Some payload
        /\ dispatch_jobs (w_queue (po_stores p)) !! id = None
        /\ dispatch_jobs (w_queue (po_stores p')) = <[id := row]> (dispatch_jobs (w_queue (po_stores p)))
        /\ sn_payload (jr_snap row) = payload /\ jr_state row = JobQueued.

Lemma fanOut_manual e cell task persisted m suffix p :
  m_InstanceID m <> "" ->
  let p' := fanOut d queued e cell task persisted [m] suffix false p in
  po_inFlight p' = po_inFlight p
  /\ (runs_once cell task m p p' /\ workflow_instances (w_tables (po_stores p')) = workflow_instances (w_tables (po_stores p))
      \/ po_runs p' = po_runs p /\ w_queue (po_stores p') = w_queue (po_stores p)
         /\ workflow_instances (w_tables (po_stores p'))
            = workflow_instances (LeaveQueuedState (m_InstanceID m) state.Canceled "" (w_tables (po_stores p))).1).
Proof.
  intros Hm. cbv zeta. unfold fanOut. destruct (persisted && queued); cbn [imap app].
  - pose proof (enqueue_single cell task suffix (tn_counted e) m (tn_job e 0) (po_stores p) Hm) as H. cbv zeta in H.
    split; [done|]. destruct H as [(payload & id & row & H1 & H2 & H3 & H4 & H5 & H6)|[H1 H2]].
    + left. split; [|exact H6]. right. split; [done|]. by exists payload, id, row.
    + by right.
  - set (p1 := if persisted && tn_counted e then _ else p).
    assert (po_inFlight p1 = po_inFlight p /\ po_runs p1 = po_runs p /\ po_rounds p1 = po_rounds p
      /\ w_queue (po_stores p1) = w_queue (po_stores p)
      /\ workflow_instances (w_tables (po_stores p1)) = workflow_instances (w_tables (po_stores p))) as (E1 & E2 & E3 & E4 & E5)
      by (subst p1; by destruct (persisted && tn_counted e)).
    clearbody p1. split; [exact E1|]. left. split; [|exact E5]. left. cbn. by rewrite E2, E3.
Qed.

(** A run from its target on: how each answer leaves the state. *)
Lemma run_target_spec e wf m req standalone cell task persisted s out s' :
  me_instanceID e <> "" ->
  run_target d queued e wf m req standalone (cell, task, persisted, s) = (out, s') ->
  match out with
  | Err ErrReserve => s' = s
  | Err ErrNotDispatched =>
      po_inFlight (dm_poll s') = po_inFlight (dm_poll s) /\ po_runs (dm_poll s') = po_runs (dm_poll s)
      /\ w_queue (po_stores (dm_poll s')) = w_queue (po_stores (dm_poll s))
      /\ exists row, workflow_instances (daemon_tables s') = workflow_instances (daemon_tables s) ++ [row]
           /\ wi_ID row = me_instanceID e /\ wi_State row = state.Canceled
  | Err _ => False
  | Ok res =>
      ms_WorkflowID res = wc_ID wf /\ ms_InstanceID res = me_instanceID e /\ ms_TaskID res = it_ID task
      /\ me_instanceID e ∉ wi_ID <$> workflow_instances (daemon_tables s)
      /\ po_inFlight (dm_poll s') = po_inFlight (dm_poll s)
      /\ (me_reread_ok e = true ->
          (exists row, workflow_instances (daemon_tables s') = workflow_instances (daemon_tables s) ++ [row]
            /\ wi_ID row = me_instanceID e /\ wi_WorkflowID row = wc_ID wf /\ wi_TaskID row = it_ID task
            /\ wi_State row = state.Queued)
          /\ runs_once cell task (with_instance_id (me_instanceID e) m) (dm_poll s) (dm_poll s'))
  end.
Proof.
  intros Hid. unfold run_target. destruct (reserve e wf task s) as [s1|] eqn:Er; [|by intros [= <- <-]].
  apply reserve_spec in Er as (Hfresh & (row & Hrows & Hr1 & Hr2 & Hr3 & Hr4) & E1 & E2 & E3 & E4).
  set (p' := fanOut _ _ _ _ _ _ _ _ _ _).
  destruct (fanOut_manual (me_turn e) cell task persisted (with_instance_id (me_instanceID e) m) ("manual-" +:+ me_nonce e)
    (dm_poll s1) Hid) as [Hf Hcases]. fold p' in Hf, Hcases. clearbody p'. cbv zeta.
  change (daemon_tables (with_poll p' s1)) with (w_tables (po_stores p')).
  change (w_tables (po_stores (dm_poll s1))) with (daemon_tables s1) in Hcases.
  destruct (w_tables (po_stores p')) as [tasks rows] eqn:Et. cbn [workflow_instances] in Hcases.
  destruct Hcases as [[Honce Hw]|(H1 & H2 & H3)].
  - rewrite Hw, Hrows. rewrite (find_appended _ _ _ _ Hfresh Hr1), Hr4. cbn. rewrite andb_false_r. intros [= <- <-]. cbn.
    split_and!; [done|done|done|done|by rewrite Hf|]. intros _. split.
    + exists row. unfold daemon_tables at 1. cbn. rewrite Et. cbn. by rewrite Hw.
    + unfold runs_once in *. by rewrite E2, E3, E4 in Honce.
  - rewrite LeaveQueuedState_db in H3. cbn in H3. rewrite Hrows, map_app in H3. cbn in H3.
    rewrite Hr1, Hr4, !bool_decide_true in H3 by done. cbn in H3.
    assert (map (fun i => if bool_decide (wi_ID i = me_instanceID e) && bool_decide (wi_State i = state.Queued)
      then with_instance_state state.Canceled "" i else i) (workflow_instances (daemon_tables s)) = workflow_instances (daemon_tables s)) as Hold.
    { rewrite <- (map_id (workflow_instances (daemon_tables s))) at 2. apply map_ext_in. intros i Hi.
      rewrite bool_decide_false; [done|]. intros E. apply Hfresh. apply list_elem_of_fmap. exists i.
      split; [done|]. by apply list_elem_of_In. }
    rewrite Hold in H3. subst rows. rewrite find_appended by done. cbn. rewrite bool_decide_true by done. rewrite andb_true_r.
    destruct (me_reread_ok e) eqn:Erd; intros [= <- <-]; cbn.
    + split_and!; [congruence|congruence|congruence|]. eexists. split; [unfold daemon_tables at 1; cbn; by rewrite Et|done].
    + split_and!; [done|done|done|done|congruence|done].
Qed.

(** C30: a manual run that is refused leaves nothing that will run: no goroutine, no
    job and no marker changes; an unknown or ambiguous target changes nothing at
    all, and a reservation that could not be handed to the queue is canceled. *)
Theorem manual_run_fails_closed e text req s x s' :
  me_instanceID e <> "" -> RunWorkflowManual cfg_sources sources d queued e text req s = (Err x, s') ->
  po_inFlight (dm_poll s') = po_inFlight (dm_poll s) /\ po_runs (dm_poll s') = po_runs (dm_poll s)
  /\ w_queue (po_stores (dm_poll s')) = w_queue (po_stores (dm_poll s))
  /\ match x with
     | ErrNotDispatched => exists row, workflow_instances (daemon_tables s') = workflow_instances (daemon_tables s) ++ [row]
         /\ wi_ID row = me_instanceID e /\ wi_State row = state.Canceled
     | ErrReserve => workflow_instances (daemon_tables s') = workflow_instances (daemon_tables s)
     | _ => s' = s
     end.
Proof.
  intros Hid. unfold RunWorkflowManual. destruct (find_workflow _ _) as [wf|]; [|by intros [= <- <-]].
  destruct (ManualMatch wf) as [m|]; [|by intros [= <- <-]].
  assert (forall t s0 standalone, only_bound s (t.2) ->
    run_target d queued e wf m req standalone t = (Err x, s0) ->
    po_inFlight (dm_poll s0) = po_inFlight (dm_poll s) /\ po_runs (dm_poll s0) = po_runs (dm_poll s)
    /\ w_queue (po_stores (dm_poll s0)) = w_queue (po_stores (dm_poll s))
    /\ match x with
       | ErrNotDispatched => exists row, workflow_instances (daemon_tables s0) = workflow_instances (daemon_tables s) ++ [row]
           /\ wi_ID row = me_instanceID e /\ wi_State row = state.Canceled
       | ErrReserve => workflow_instances (daemon_tables s0) = workflow_instances (daemon_tables s)
       | _ => s0 = s
       end) as Hrun.
  { intros [[[cell task] persisted] s1] s0 standalone [H1 H2 H3 H4 H5 H6] Hr. cbn in *.
    apply run_target_spec in Hr; [|done]. destruct x; try done.
    - destruct Hr as (R1 & R2 & R3 & row & R4 & R5). split_and!; [congruence..|]. exists row. split; [congruence|done].
    - subst s0. done. }
  destruct (is_empty (trim_space (mr_ItemRef req))).
  - destruct (standaloneTask e wf text req s) as [[[[cell task] persisted] s1]|y] eqn:Et.
    + apply Hrun. cbn. by eapply standaloneTask_only.
    + intros [= <- <-]. split_and!; [done..|]. unfold standaloneTask in Et. cbv zeta in Et.
      destruct (bd_tasks _ !! _); [by injection Et as <-|done].
  - destruct (manualTargetItem cfg_sources sources e (mr_ItemRef req) (mr_SourceID req) s) as [[[[cell task] persisted] s1]|y] eqn:Et.
    + apply Hrun. cbn. by eapply manualTargetItem_only.
    + intros [= <- <-]. split_and!; [done..|]. pose proof (manualTargetItem_err _ _ _ _ _ Et) as [H1 H2].
      by destruct y.
Qed.

(** An accepted manual run names a configured workflow and a row that did not
    exist; the row is queued for the task it answers with, and exactly one new
    goroutine or one new job, which carries the row's id, will take it over. No
    in-flight marker is taken or given back, so polls are not disturbed. *)
Theorem manual_run_starts_one e text req s res s' :
  me_instanceID e <> "" -> me_reread_ok e = true ->
  RunWorkflowManual cfg_sources sources d queued e text req s = (Ok res, s') ->
  exists wf m cell task row,
    find_workflow d (trim_space (mr_WorkflowID req)) = Some wf /\ ManualMatch wf = Some m
    /\ ms_WorkflowID res = wc_ID wf /\ ms_TaskID res = it_ID task /\ ms_InstanceID res = me_instanceID e
    /\ GetWorkflowInstance (ms_InstanceID res) (daemon_tables s) = None
    /\ workflow_instances (daemon_tables s') = workflow_instances (daemon_tables s) ++ [row]
    /\ wi_ID row = ms_InstanceID res /\ wi_WorkflowID row = wc_ID wf /\ wi_TaskID row = it_ID task
    /\ wi_State row = state.Queued
    /\ runs_once cell task (with_instance_id (ms_InstanceID res) m) (dm_poll s) (dm_poll s')
    /\ po_inFlight (dm_poll s') = po_inFlight (dm_poll s).
Proof.
  intros Hid Hre. unfold RunWorkflowManual. destruct (find_workflow _ _) as [wf|]; [|done].
  destruct (ManualMatch wf) as [m|] eqn:Em; [|done].
  assert (forall t s0 standalone, only_bound s t.2 -> run_target d queued e wf m req standalone t = (Ok res, s0) ->
    exists cell task row, ms_WorkflowID res = wc_ID wf /\ ms_TaskID res = it_ID task /\ ms_InstanceID res = me_instanceID e
      /\ GetWorkflowInstance (ms_InstanceID res) (daemon_tables s) = None
      /\ workflow_instances (daemon_tables s0) = workflow_instances (daemon_tables s) ++ [row]
      /\ wi_ID row = ms_InstanceID res /\ wi_WorkflowID row = wc_ID wf /\ wi_TaskID row = it_ID task
      /\ wi_State row = state.Queued
      /\ runs_once cell task (with_instance_id (ms_InstanceID res) m) (dm_poll s) (dm_poll s0)
      /\ po_inFlight (dm_poll s0) = po_inFlight (dm_poll s)) as Hrun.
  { intros [[[cell task] persisted] s1] s0 standalone [H1 H2 H3 H4 H5 H6] Hr. cbn in *.
    apply run_target_spec in Hr as (R1 & R2 & R3 & R4 & R5 & R6); [|done].
    destruct (R6 Hre) as [(row & Q1 & Q2 & Q3 & Q4 & Q5) Q6]. exists cell, task, row. rewrite R2.
    split_and!; try done; [|congruence| |congruence].
    - apply GetWorkflowInstance_None. by rewrite <- H5.
    - unfold runs_once in *. by rewrite H2, H3, H4 in Q6. }
  destruct (is_empty (trim_space (mr_ItemRef req))).
  - destruct (standaloneTask e wf text req s) as [[[[cell task] persisted] s1]|y] eqn:Et; [|done].
    intros Hr. apply Hrun in Hr as (? & ? & ? & H); [|cbn; by eapply standaloneTask_only]. by do 5 eexists.
  - destruct (manualTargetItem cfg_sources sources e (mr_ItemRef req) (mr_SourceID req) s) as [[[[cell task] persisted] s1]|y] eqn:Et; [|done].
    intros Hr. apply Hrun in Hr as (? & ? & ? & H); [|cbn; by eapply manualTargetItem_only]. by do 5 eexists.
Qed.
End run.
End props.

(** ** A forced restart *)

Definition interrupted (i : InstanceRow) : InstanceRow := with_instance_state state.Blocked state.ReasonInterrupted i.

Definition live (i : InstanceRow) : bool := negb (state.IsTerminal (wi_State i)).

Lemma live_interrupted_inactive i : active (if live i then interrupted i else i) = false.
Proof.
  unfold live. destruct (state.IsTerminal (wi_State i)) eqn:E; [|done]. cbn. unfold state.IsTerminal in E. unfold active.
  apply orb_false_iff. split; [apply bool_decide_eq_false; intros H|apply andb_false_iff; left; apply bool_decide_eq_false; intros H].
  - rewrite !elem_of_cons, elem_of_nil in H. destruct H as [H|[H|[H|[]]]]; rewrite H in E; vm_compute in E; discriminate E.
  - rewrite H in E. vm_compute in E. discriminate E.
Qed.

(** [forgetParked] counts; it touches no instance row. *)
Lemma forgetParked_frame i s :
  workflow_instances (daemon_tables (forgetParked i s)) = workflow_instances (daemon_tables s)
  /\ dm_cells (forgetParked i s) = dm_cells s
  /\ po_inFlight (dm_poll (forgetParked i s)) = po_inFlight (dm_poll s) /\ po_runs (dm_poll (forgetParked i s)) = po_runs (dm_poll s).
Proof. unfold forgetParked. case_bool_decide; [|done]. by destruct (is_empty (wi_TaskID i)). Qed.

Lemma with_ids_unique (rows : list InstanceRow) a b :
  NoDup (wi_ID <$> rows) -> a ∈ rows -> b ∈ rows -> wi_ID a = wi_ID b -> a = b.
Proof.
  induction rows as [|x rows IH]; [by intros _ ?%elem_of_nil|]. cbn. intros [Hx Hnd]%NoDup_cons.
  rewrite !elem_of_cons. intros [->|Ha] [->|Hb] E; [done|..|by apply IH].
  - destruct Hx. rewrite E. by apply list_elem_of_fmap_2.
  - destruct Hx. rewrite <- E. by apply list_elem_of_fmap_2.
Qed.

Lemma update_state_map id st reason db :
  NoDup (wi_ID <$> workflow_instances db) ->
  workflow_instances (UpdateWorkflowInstanceState id st reason db)
  = map (fun j => if bool_decide (wi_ID j = id) then with_instance_state st reason j else j) (workflow_instances db).
Proof.
  intros Hnd. unfold UpdateWorkflowInstanceState. destruct (GetWorkflowInstance id db) as [i|] eqn:E; [|done].
  destruct (bool_decide (wi_State i = st) && bool_decide (wi_Reason i = reason)) eqn:Es; [|done].
  apply andb_true_iff in Es as [Hs%bool_decide_eq_true Hr%bool_decide_eq_true].
  apply GetWorkflowInstance_Some in E as [Hi Hid].
  rewrite <- (map_id (workflow_instances db)) at 1. apply map_ext_in. intros j Hj%list_elem_of_In.
  case_bool_decide as Hj'; [|done]. assert (j = i) as -> by (apply (with_ids_unique (workflow_instances db)); congruence).
  destruct i. unfold with_instance_state. cbn in *. by subst.
Qed.

(** The loop over the rows of a cell. *)
Lemma interrupt_loop (l : list InstanceRow) s :
  NoDup (wi_ID <$> workflow_instances (daemon_tables s)) ->
  let s' := foldl interrupt_one s l in
  workflow_instances (daemon_tables s')
  = map (fun j => if str_in (wi_ID j) (wi_ID <$> List.filter live l) then interrupted j else j) (workflow_instances (daemon_tables s))
  /\ po_inFlight (dm_poll s') = po_inFlight (dm_poll s) /\ po_runs (dm_poll s') = po_runs (dm_poll s).
Proof.
  revert s. induction l as [|i l IH]; intros s Hnd; cbn [foldl].
  { split; [|done]. symmetry. rewrite <- (map_id (workflow_instances (daemon_tables s))) at 2. by apply map_ext. }
  cbn [List.filter]. assert (live i = negb (state.IsTerminal (wi_State i))) as El by done.
  unfold interrupt_one at 2 4 6. destruct (state.IsTerminal (wi_State i)); rewrite El; cbn [negb]; [by apply IH|].
  destruct (forgetParked_frame i s) as (F1 & F2 & F3 & F4).
  set (s1 := on_daemon_tables _ _).
  assert (workflow_instances (daemon_tables s1)
    = map (fun j => if bool_decide (wi_ID j = wi_ID i) then interrupted j else j) (workflow_instances (daemon_tables s))) as E1.
  { subst s1. unfold on_daemon_tables, daemon_tables at 1. cbn. change (w_tables (po_stores (dm_poll (forgetParked i s)))) with (daemon_tables (forgetParked i s)).
    rewrite update_state_map by (by rewrite F1). by rewrite F1. }
  assert (wi_ID <$> workflow_instances (daemon_tables s1) = wi_ID <$> workflow_instances (daemon_tables s)) as Eids.
  { rewrite E1. clear. induction (workflow_instances (daemon_tables s)) as [|j rows IH]; [done|]. cbn. f_equal; [by case_bool_decide|done]. }
  destruct (IH s1 ltac:(by rewrite Eids)) as (H1 & H2 & H3).
  split_and!; [|rewrite H2; subst s1; cbn; exact F3|rewrite H3; subst s1; cbn; exact F4].
  rewrite H1, E1, map_map. apply map_ext. intros j. unfold str_in. cbn [list_fmap fmap].
  destruct (decide (wi_ID j = wi_ID i)) as [E|Hne].
  - rewrite (bool_decide_true (wi_ID j = wi_ID i)), (bool_decide_true (wi_ID j ∈ wi_ID i :: _)) by (done || by rewrite E; left).
    by case_bool_decide.
  - rewrite (bool_decide_false (wi_ID j = wi_ID i)) by done.
    rewrite (bool_decide_ext (wi_ID j ∈ wi_ID i :: _) (wi_ID j ∈ wi_ID <$> List.filter live l)); [done|]. rewrite elem_of_cons. naive_solver.
Qed.

(** Exactly the unfinished rows of the cell are interrupted. *)
Lemma interrupt_cell_exact e cellID s :
  NoDup (wi_ID <$> workflow_instances (daemon_tables s)) -> re_instances_ok e = true ->
  workflow_instances (daemon_tables (interrupt_cell e cellID s))
  = map (fun j => if bool_decide (dm_cells s !! wi_ID j = Some cellID) && live j then interrupted j else j)
      (workflow_instances (daemon_tables s))
  /\ po_inFlight (dm_poll (interrupt_cell e cellID s)) = delete cellID (po_inFlight (dm_poll s))
  /\ po_runs (dm_poll (interrupt_cell e cellID s)) = po_runs (dm_poll s).
Proof.
  intros Hnd He. unfold interrupt_cell. rewrite He. set (s0 := {| dm_poll := _ |}).
  destruct (interrupt_loop (ListWorkflowInstancesByCell cellID s0) s0 Hnd) as (H1 & H2 & H3).
  split_and!; [|by rewrite H2|by rewrite H3]. rewrite H1. change (daemon_tables s0) with (daemon_tables s).
  apply map_ext_in. intros j Hj%list_elem_of_In.
  assert (str_in (wi_ID j) (wi_ID <$> List.filter live (ListWorkflowInstancesByCell cellID s0))
    = bool_decide (dm_cells s !! wi_ID j = Some cellID) && live j) as ->; [|done].
  apply eq_true_iff_eq. rewrite andb_true_iff, bool_decide_eq_true. unfold str_in. rewrite bool_decide_eq_true, list_elem_of_fmap.
  unfold ListWorkflowInstancesByCell. change (daemon_tables s0) with (daemon_tables s). change (dm_cells s0) with (dm_cells s).
  setoid_rewrite list_elem_of_In. setoid_rewrite List.filter_In. setoid_rewrite List.filter_In.
  setoid_rewrite bool_decide_eq_true. setoid_rewrite <- list_elem_of_In. split.
  - intros (k & Hid & (Hk & Hc) & Hl).
    assert (j = k) as -> by (by apply (with_ids_unique (workflow_instances (daemon_tables s)))). done.
  - intros [Hc Hl]. by exists j.
Qed.

(** What routing sees has no control label, and its other labels in order. *)
Lemma stripped_labels wfs cell x :
  controlLabels wfs (with_item_labels (withoutLabels (si_Labels cell) (controlLabels wfs cell)) x) = [].
Proof.
  unfold controlLabels, withoutLabels. cbn [si_Labels with_item_labels]. set (control := is_control _).
  assert (forall l, l ∉ List.filter control
    (List.filter (fun l => negb (str_in (to_lower l) (to_lower <$> List.filter control (si_Labels cell)))) (si_Labels cell))) as H.
  { intros l ([Hl Hn]%List.filter_In & Hc)%list_elem_of_In%List.filter_In. apply negb_true_iff in Hn.
    apply bool_decide_eq_false in Hn. apply Hn. apply list_elem_of_fmap. exists l. split; [done|].
    by apply list_elem_of_In, List.filter_In. }
  destruct (List.filter control (List.filter _ _)) as [|l ls]; [done|]. destruct (H l). by left.
Qed.

(** What a restart may write: the state of its cell, and the removal of control
    labels from the item a source has under its id. *)
Definition restart_write (wfs : list WorkflowConfig) (cellID : string) (w : SourceWrite) : Prop :=
  match w with
  | SetState _ c st => c = cellID /\ st = "todo"
  | RemoveLabels _ cell labels => (si_ID cell = cellID \/ si_ID cell = "") /\ labels = controlLabels wfs cell
  end.

Section restart.
Context (cfg_sources : list string) (sources : gmap string Adapter).

Lemma strip_loop wfs cellID ids :
  let acc := foldl (strip_one sources wfs cellID) ([], None) ids in
  (forall w, w ∈ acc.1 -> restart_write wfs cellID w)
  /\ (forall cell, acc.2 = Some cell -> si_ID cell = cellID /\ controlLabels wfs cell = []).
Proof.
  cbv zeta. apply foldl_inv; [split; [by intros w ?%elem_of_nil|done]|].
  intros [writes found] id _ [H1 H2]. unfold strip_one. destruct (read_cell sources cellID id) as [cell|] eqn:E; [|done]. cbn. split.
  - intros w [Hw|Hw]%elem_of_app; [by apply H1|]. destruct (_ && _); [|by apply elem_of_nil in Hw].
    apply list_elem_of_singleton in Hw as ->. split; [|done]. unfold read_cell in E.
    destruct (poller_of sources id) as [poll|]; [|done]. cbn in E. destruct (poll cellID) as [x|]; [|done]. cbn in E.
    destruct (is_empty (si_ID x)) eqn:Ex; cbn in E.
    + apply is_empty_true in Ex. injection E as <-. by right.
    + case_bool_decide; [|done]. injection E as <-. by left.
  - intros x. destruct found as [y|]; [apply H2|]. intros [= <-]. split; [done|]. apply stripped_labels.
Qed.

Lemma reset_states_writes wfs cellID w : w ∈ reset_states cfg_sources sources cellID -> restart_write wfs cellID w.
Proof.
  intros (id & Hid & Hw)%list_elem_of_omap. destruct (sources !! id) as [a|]; [|done]. cbn in Hw.
  destruct (ad_SetState a); [|done]. by injection Hw as <-.
Qed.

Context {RT : GoRuntime} {PC : PayloadCodec}.
Context (d : Dispatcher) (r : Router) (resuming : gset string) (queued : bool).

(** A forced restart of a known cell interrupts exactly the unfinished instances
    of that cell, so that none of them is active to the guards any more, and gives
    back its marker; what it writes to sources names that cell and takes control
    labels away only; and it routes the item again without a single control label.
    A restart that is refused changes and writes nothing. *)
Theorem restart_clears_the_way e ref s out writes s' :
  NoDup (wi_ID <$> workflow_instances (daemon_tables s)) -> re_instances_ok e = true ->
  ForceRestart cfg_sources sources d r resuming queued e ref s = (out, writes, s') ->
  match out with
  | Err _ => writes = [] /\ s' = s
  | Ok res =>
      assertKnownCell (re_known e) (rs_CellID res) s = None
      /\ (forall w, w ∈ writes -> restart_write (d_Workflows d) (rs_CellID res) w)
      /\ exists p,
           workflow_instances (w_tables (po_stores p))
           = map (fun j => if bool_decide (dm_cells s !! wi_ID j = Some (rs_CellID res)) && live j then interrupted j else j)
               (workflow_instances (daemon_tables s))
           /\ (forall j, j ∈ workflow_instances (w_tables (po_stores p)) -> dm_cells s !! wi_ID j = Some (rs_CellID res) -> active j = false)
           /\ po_inFlight p = delete (rs_CellID res) (po_inFlight (dm_poll s)) /\ po_runs p = po_runs (dm_poll s)
           /\ (dm_poll s' = p /\ rs_Workflows res = []
               \/ exists cell, si_ID cell = rs_CellID res /\ controlLabels (d_Workflows d) cell = []
                    /\ redispatchCell d r resuming queued (re_turn e) cell p = (rs_Workflows res, rs_Overridden res, dm_poll s'))
  end.
Proof.
  intros Hnd He. unfold ForceRestart. destruct (resolveCellRef _ _ _ _) as [[cellID number]|]; [|by intros [= <- <- <-]].
  destruct (assertKnownCell _ _ _) eqn:Ek; [by intros [= <- <- <-]|].
  destruct (interrupt_cell_exact e cellID s Hnd He) as (H1 & H2 & H3).
  destruct (strip_loop (d_Workflows d) cellID cfg_sources) as [Hw Hc]. cbv zeta.
  set (s1 := interrupt_cell e cellID s) in *. clearbody s1.
  assert (forall j, j ∈ workflow_instances (daemon_tables s1) -> dm_cells s !! wi_ID j = Some cellID -> active j = false) as Hact.
  { rewrite H1. intros j (i & <- & Hi)%list_elem_of_In%List.in_map_iff.
    assert (wi_ID (if bool_decide (dm_cells s !! wi_ID i = Some cellID) && live i then interrupted i else i) = wi_ID i) as Eid
      by (by destruct (_ && _)).
    rewrite Eid. intros Hj. rewrite bool_decide_true by done. apply live_interrupted_inactive. }
  destruct (foldl (strip_one sources (d_Workflows d) cellID) ([], None) cfg_sources) as [stripped found]. cbn in Hw, Hc.
  assert (forall w, w ∈ reset_states cfg_sources sources cellID ++ stripped -> restart_write (d_Workflows d) cellID w) as Hall.
  { intros w [Hin|Hin]%elem_of_app; [by eapply reset_states_writes|by apply Hw]. }
  destruct found as [cell|].
  - destruct (Hc cell eq_refl) as [Hid Hctl].
    destruct (redispatchCell d r resuming queued (re_turn e) cell (dm_poll s1)) as [[ids overridden] p] eqn:Er.
    intros [= <- <- <-]. cbn. split_and!; [done|done|]. exists (dm_poll s1). split_and!; [done|done|done|done|].
    right. exists cell. by split_and!.
  - intros [= <- <- <-]. cbn. split_and!; [done|done|]. exists (dm_poll s1). split_and!; try done. by left.
Qed.
End restart.

(** ** Running it *)

Definition triage : WorkflowConfig := {|
  wc_ID := "triage"; wc_Resume := ""; wc_ResultComment := ""; wc_Inputs := ∅; wc_Outputs := ∅; wc_Steps := [];
  wc_Trigger := Some {| tr_Priority := 0; tr_Exclusive := false; tr_Once := false; tr_On := ""; tr_CommentMatches := "";
    tr_Match := {| rm_Source := ""; rm_Labels := []; rm_Types := []; rm_TitleRegex := ""; rm_Priority := []; rm_States := [];
                   rm_ExcludeLabels := ["In-Progress"]; rm_ExcludeLabelPrefix := "agent:" |};
    tr_Authors := []; tr_AuthorsAssociation := []; tr_IgnoreAuthors := []; tr_PRAuthors := []; tr_MaxDispatches := 0 |} |}.

Definition triage_dispatcher : Dispatcher := {|
  d_Workflows := [triage]; d_Agents := []; d_agentRunner := ∅; d_queueProjectID := "p"; d_MaxAttempts := 3 |}.

(** Two trackers that number their issues from one; both have a number 12. *)
Definition issue_12 (src title : string) : SourceItem := {|
  si_ID := "12"; si_SourceID := src; si_Number := "#12"; si_Title := title; si_Description := "";
  si_Labels := ["bug"; "in-progress"; "Agent:dev"]; si_Type := ""; si_Priority := ""; si_State := "open"; si_URL := ""; si_Comments := [] |}.

Definition tracker (src title : string) : Adapter := {|
  ad_PollTask := Some (fun id => if bool_decide (id = "12") then Some (issue_12 src title) else None);
  ad_SetState := true; ad_RemoveLabels := true |}.

Definition two_trackers : gmap string Adapter := {["web" := tracker "web" "Typo"; "core" := tracker "core" "Crash"]}.

Definition manual_env (inst : string) (counted : bool) : ManualEnv := {|
  me_refs := {| rr_item_ok := true; rr_number_ok := true |};
  me_known := {| kr_binding_ok := true; kr_instances_ok := true; kr_execution_ok := true |};
  me_last_ok := true; me_active_ok := true; me_reread_ok := true;
  me_turn := {| tn_now := 1; tn_bindFailed := false; tn_taskID := "t-new"; tn_bindingID := "b-new"; tn_counted := counted;
                tn_job := fun _ => ("j1", 7%Z) |};
  me_taskID := "t-alone"; me_instanceID := inst; me_nonce := "n" |}.

Definition run_on (ref : string) : ManualRunRequest :=
  {| mr_WorkflowID := "triage"; mr_ItemRef := ref; mr_SourceID := ""; mr_Title := "" |}.

(** Only the issue of core was ever polled. *)
Definition core_polled : Daemon := {|
  dm_poll := with_bind {| bd_tasks := {["t12" := taskFromItem "t12" (issue_12 "core" "Crash")]};
                          bd_bindings := [bindingFromItem "b12" "t12" (issue_12 "core" "Crash")] |}
    (with_stores {| w_tables := {| internal_tasks := {["t12" := registered_row]}; workflow_instances := [] |};
                    w_queue := empty_db; w_events := [] |} idle_poller);
  dm_runCancel := ∅; dm_cells := ∅; dm_executions := ∅; dm_parked := ∅ |}.

Definition run_manual (queued : bool) (e : ManualEnv) (cfg : list string) (req : ManualRunRequest) (s : Daemon) :=
  RunWorkflowManual (RT := literal_runtime) (PC := json_codec) cfg two_trackers triage_dispatcher queued e "" req s.

(** The queue cannot count the run in: the reservation is canceled. *)
Lemma manual_run_fails_closed_witness :
  exists s', run_manual true (manual_env "wf1" false) ["core"] (run_on "#12") core_polled = (Err ErrNotDispatched, s')
    /\ po_runs (dm_poll s') = [] /\ w_queue (po_stores (dm_poll s')) = empty_db
    /\ exists row, workflow_instances (daemon_tables s') = [row] /\ wi_ID row = "wf1" /\ wi_State row = state.Canceled.
Proof.
  destruct (run_manual true (manual_env "wf1" false) ["core"] (run_on "#12") core_polled) as [out s'] eqn:E.
  pose proof (f_equal fst E) as Ho. vm_compute in Ho. simpl in Ho. subst out. exists s'. split; [reflexivity|].
  destruct (manual_run_fails_closed (RT := literal_runtime) (PC := json_codec) ["core"] two_trackers triage_dispatcher true
    (manual_env "wf1" false) "" (run_on "#12") core_polled ErrNotDispatched s') as (_ & H1 & H2 & H3).
  - discriminate.
  - exact E.
  - split; [exact H1|]. split; [exact H2|exact H3].
Defined.

Lemma manual_run_starts_one_witness :
  exists res s', run_manual true (manual_env "wf1" true) ["core"] (run_on "#12") core_polled = (Ok res, s')
    /\ ms_InstanceID res = "wf1" /\ ms_TaskID res = "t12" /\ po_inFlight (dm_poll s') = ∅
    /\ exists wf m cell task, find_workflow triage_dispatcher "triage" = Some wf /\ ManualMatch wf = Some m
         /\ runs_once (PC := json_codec) cell task (with_instance_id "wf1" m) (dm_poll core_polled) (dm_poll s').
Proof.
  destruct (run_manual true (manual_env "wf1" true) ["core"] (run_on "#12") core_polled) as [out s'] eqn:E.
  destruct out as [res|x]; [|vm_compute in E; discriminate E].
  pose proof (f_equal fst E) as Ho. vm_compute in Ho. simpl in Ho. exists res, s'. split; [reflexivity|].
  destruct (manual_run_starts_one (RT := literal_runtime) (PC := json_codec) ["core"] two_trackers triage_dispatcher true
    (manual_env "wf1" true) "" (run_on "#12") core_polled res s') as (wf & m & cell & task & row & H1 & H2 & _ & H3 & H4 & _ & _ & _ & _ & _ & _ & H5 & H6).
  - discriminate.
  - reflexivity.
  - exact E.
  - split; [exact H4|]. split; [injection Ho as <-; reflexivity|]. split; [exact H6|].
    rewrite H4 in H5. exists wf, m, cell, task. split; [exact H1|]. split; [exact H2|]. exact H5.
Defined.

(** A reference that is an item's id is called unambiguous, but the id has no source:
    the binding of 12 is core's, and the run is on the issue 12 of web, which is
    configured first. *)
Lemma numbered_item_runs_elsewhere :
  (sb_SourceID <$> GetBindingBySourceItemID "12" (daemon_bind core_polled)) = Some "core"
  /\ exists res s', run_manual false (manual_env "wf1" true) ["web"; "core"] (run_on "12") core_polled = (Ok res, s')
     /\ ms_SourceID res = "web" /\ ms_TaskID res = "t-new"
     /\ (it_Title <$> bd_tasks (daemon_bind s') !! "t-new") = Some "Typo".
Proof. split; [reflexivity|]. eexists _, _. split; [vm_compute; reflexivity|]. repeat split. Qed.

Definition restart_env : RestartEnv := {|
  re_refs := {| rr_item_ok := true; rr_number_ok := true |};
  re_known := {| kr_binding_ok := true; kr_instances_ok := true; kr_execution_ok := true |};
  re_instances_ok := true; re_execution_ok := true;
  re_turn := {| tn_now := 5; tn_bindFailed := false; tn_taskID := "t-new"; tn_bindingID := "b-new"; tn_counted := true;
                tn_job := fun _ => ("j2", 9%Z) |} |}.

Definition no_routes : Router := {| routes := []; workers := ∅; regexes := ∅; commentRegexes := ∅ |}.

Definition restart_12 (cfg : list string) (s : Daemon) :=
  ForceRestart (RT := literal_runtime) (PC := json_codec) cfg two_trackers triage_dispatcher no_routes ∅ false restart_env "12" s.

(** One instance of the cell waits for an approval, one is done. *)
Definition core_waiting : Daemon := {|
  dm_poll := with_stores {| w_tables := {| internal_tasks := {["t12" := registered_row]}; workflow_instances :=
      [{| wi_ID := "wf0"; wi_WorkflowID := "triage"; wi_TaskID := "t12"; wi_State := state.Done; wi_Reason := "";
          wi_Generation := 0; wi_ResumedFrom := ""; wi_CreatedAt := 1 |};
       {| wi_ID := "wf1"; wi_WorkflowID := "triage"; wi_TaskID := "t12"; wi_State := state.Blocked; wi_Reason := state.ReasonApproval;
          wi_Generation := 0; wi_ResumedFrom := ""; wi_CreatedAt := 2 |}] |}; w_queue := empty_db; w_events := [] |}
    (dm_poll core_polled);
  dm_runCancel := ∅; dm_cells := {["wf0" := "12"; "wf1" := "12"]}; dm_executions := ∅; dm_parked := {["wf1"]} |}.

Definition restarted_12 : RestartResult :=
  {| rs_CellID := "12"; rs_Ref := "#12"; rs_Workflows := []; rs_Overridden := [] |}.

Lemma restart_clears_the_way_witness :
  exists writes s', restart_12 ["core"] core_waiting = (Ok restarted_12, writes, s')
    /\ (forall w, w ∈ writes -> restart_write [triage] "12" w)
    /\ exists p, (wi_State <$> workflow_instances (w_tables (po_stores p))) = [state.Done; state.Blocked]
         /\ (forall j, j ∈ workflow_instances (w_tables (po_stores p)) -> dm_cells core_waiting !! wi_ID j = Some "12" -> active j = false).
Proof.
  destruct (restart_12 ["core"] core_waiting) as [[out writes] s'] eqn:E.
  assert (out = Ok restarted_12) as -> by exact (eq_sym (f_equal (fun x => x.1.1) E)). exists writes, s'. split; [reflexivity|].
  destruct (restart_clears_the_way (RT := literal_runtime) (PC := json_codec) ["core"] two_trackers triage_dispatcher no_routes ∅ false
    restart_env "12" core_waiting (Ok restarted_12) writes s') as (_ & Hw & p & Hp & Ha & _).
  - apply (bool_decide_unpack _). vm_compute. exact I.
  - reflexivity.
  - exact E.
  - split; [exact Hw|]. exists p. split; [rewrite Hp; vm_compute; reflexivity|exact Ha].
Defined.

(** A restart of the issue of core sets the state of the issue of web as well, and
    takes the labels of both away. *)
Lemma restart_touches_every_source :
  (restart_12 ["web"; "core"] core_waiting).1.2
  = [SetState "web" "12" "todo"; SetState "core" "12" "todo";
     RemoveLabels "web" (issue_12 "web" "Typo") ["in-progress"; "Agent:dev"];
     RemoveLabels "core" (issue_12 "core" "Crash") ["in-progress"; "Agent:dev"]].
Proof. vm_compute. reflexivity. Qed.

(** A manual run waits for its slot when its item is restarted: the row is
    interrupted, the run does not start, and nobody counts it out of its task. *)
Lemma restart_leaks_reserved_slot :
  let waiting := (run_manual false (manual_env "wf1" true) ["core"] (run_on "12") core_polled).2 in
  let restarted := (restart_12 ["core"] waiting).2 in
  outstanding "t12" (daemon_tables restarted) = 1%Z
  /\ forall run, dispatchWorkflow run triage_dispatcher 9 "wf2" (taskFromItem "t12" (issue_12 "core" "Crash"))
       (with_instance_id "wf1" (default (example_match "" "") (ManualMatch triage))) (daemon_tables restarted)
     = (true, daemon_tables restarted).
Proof. split; [vm_compute; reflexivity|]. intros run. vm_compute. reflexivity. Qed.
