(* ===== verification/WorkerRuntime.v ===== *)
(** * The worker runtime (src/internal/worker/worker.go, with the queue durations of
      src/internal/config/config.go and validate.go)

    The process that claims jobs of the durable queue and runs them: the settings it
    is made of, and its goroutines, the loop that claims, the heartbeat of the
    worker, and for every claim the heartbeat of its lease and the run. A step is one
    transaction on the store with what the goroutine does before its next one; the
    other users of the store act in between. The tickers are not modelled: a
    goroutine may act at any time. *)

From stdpp Require Import base gmap strings list relations sorting.
From Stdlib Require Import ZArith.
From S2P Require Import Prelude Model Queue QueueFacts.

(** ** Settings *)

Record QueueDurations := {
  qs_LeaseDuration : string; qs_HeartbeatInterval : string; qs_WorkerTimeout : string; qs_PollInterval : string;
}.

Section settings.
Context {RT : GoRuntime}.

(** [queueDuration]. *)
Definition queueDuration (value : string) (fallback : Z) : Z :=
  if is_empty value then fallback
  else match parse_duration value with
       | Some d => if (d <=? 0)%Z then fallback else d
       | None => fallback
       end.

Definition LeaseDurationValue (q : QueueDurations) : Z := queueDuration (qs_LeaseDuration q) (30 * second).
Definition HeartbeatIntervalValue (q : QueueDurations) : Z := queueDuration (qs_HeartbeatInterval q) (10 * second).
Definition WorkerTimeoutValue (q : QueueDurations) : Z := queueDuration (qs_WorkerTimeout q) (30 * second).
Definition PollIntervalValue (q : QueueDurations) : Z := queueDuration (qs_PollInterval q) (second / 2).

(** A field of [validateQueueSettings]: its error, and the value that is compared. *)
Definition check_duration (value : string) (fallback : Z) : bool * Z :=
  if is_empty value then (true, fallback)
  else match parse_duration value with
       | Some d => if (d <=? 0)%Z then (false, fallback) else (true, d)
       | None => (false, fallback)
       end.

(** The checks of [validateQueueSettings] on durations: no error. *)
Definition validateQueueDurations (q : QueueDurations) : bool :=
  let lease := check_duration (qs_LeaseDuration q) (30 * second) in
  let beat := check_duration (qs_HeartbeatInterval q) (10 * second) in
  let timeout := check_duration (qs_WorkerTimeout q) (30 * second) in
  let poll := check_duration (qs_PollInterval q) (second / 2) in
  lease.1 && beat.1 && timeout.1 && poll.1 && negb (lease.2 <=? beat.2)%Z.
End settings.

(** [worker.Config]. *)
Record RuntimeConfig := {
  rc_Worker : Worker;
  rc_LeaseDuration : Z; rc_HeartbeatInterval : Z; rc_WorkerHeartbeat : Z; rc_WorkerTimeout : Z; rc_PollInterval : Z;
  rc_Policy : ConcurrencyPolicy;
}.

Inductive RuntimeError := ErrRuntimeWorkerID | ErrRuntimeHeartbeat.

Definition or_default (v fallback : Z) : Z := if (v <=? 0)%Z then fallback else v.

(** [New], of a store and an executor. *)
Definition NewRuntime (c : RuntimeConfig) : result RuntimeError RuntimeConfig :=
  let w := rc_Worker c in
  if is_empty (w_ID w) then Err ErrRuntimeWorkerID
  else
    let lease := or_default (rc_LeaseDuration c) (30 * second) in
    let beat := or_default (rc_HeartbeatInterval c) (Z.quot lease 3) in
    if (lease <=? beat)%Z then Err ErrRuntimeHeartbeat
    else Ok {|
      rc_Worker := {|
        w_ID := w_ID w;
        w_ProtocolVersion := if (w_ProtocolVersion w =? 0)%Z then WorkerProtocolVersion else w_ProtocolVersion w;
        w_Pool := w_Pool w; w_Labels := w_Labels w; w_Capabilities := w_Capabilities w;
        w_Capacity := or_default (w_Capacity w) 1; w_Ready := true; w_Draining := w_Draining w;
        w_ActiveJobs := w_ActiveJobs w; w_LastHeartbeat := w_LastHeartbeat w; w_RegisteredAt := w_RegisteredAt w |};
      rc_LeaseDuration := lease; rc_HeartbeatInterval := beat;
      rc_WorkerHeartbeat := or_default (rc_WorkerHeartbeat c) beat;
      rc_WorkerTimeout := or_default (rc_WorkerTimeout c) (30 * second);
      rc_PollInterval := or_default (rc_PollInterval c) (second / 2);
      rc_Policy := rc_Policy c |}.

(** The configuration both callers of [New] build. *)
Definition runtime_of {RT : GoRuntime} (q : QueueDurations) (w : Worker) (p : ConcurrencyPolicy) : RuntimeConfig := {|
  rc_Worker := w; rc_LeaseDuration := LeaseDurationValue q; rc_HeartbeatInterval := HeartbeatIntervalValue q;
  rc_WorkerHeartbeat := HeartbeatIntervalValue q; rc_WorkerTimeout := WorkerTimeoutValue q;
  rc_PollInterval := PollIntervalValue q; rc_Policy := p |}.

(** ** The process *)

(** A goroutine of [execute], with the expiry of its lease as it last heard it. *)
Record JobRun := {
  ju_job : string; ju_attempt : string; ju_token : string;
  ju_expires : Z;
  ju_canceled : bool;                 (* the context of the executor *)
  ju_beats : bool;                    (* its heartbeat goroutine goes on *)
}.

(** The places of [Run]. From the drain on, [told] records whether the store has
    taken a write that says the worker leaves, the drain or the last heartbeat; the
    code ignores the errors of both and does not look at it. *)
Inductive Phase := Registering | Claiming | Draining (told : bool) | Stopping (told : bool) | Returned (told : bool) | NotRegistered.

Record Runtime := { ru_phase : Phase; ru_beats : bool; ru_runs : list JobRun }.

Definition System : Type := Runtime * DB.

Section runtime.
Context {RT : GoRuntime} `{!Sorter claim_order}.
Context (c : RuntimeConfig).

Definition worker_id : string := w_ID (rc_Worker c).

Definition claim_request : ClaimRequest := {|
  cr_WorkerID := worker_id; cr_LeaseDuration := rc_LeaseDuration c; cr_WorkerTimeout := rc_WorkerTimeout c;
  cr_Policy := rc_Policy c |}.

Definition fresh_runtime : Runtime := {| ru_phase := Registering; ru_beats := false; ru_runs := [] |}.

Definition in_phase (p : Phase) (beats : bool) (rt : Runtime) : Runtime :=
  {| ru_phase := p; ru_beats := beats; ru_runs := ru_runs rt |}.
Definition with_runs (runs : list JobRun) (rt : Runtime) : Runtime :=
  {| ru_phase := ru_phase rt; ru_beats := ru_beats rt; ru_runs := runs |}.

(** The start of [Run]. *)
Definition register_worker (now : Z) (s : System) : System :=
  match RegisterWorker now (rc_Worker c) s.2 with
  | Ok (_, db) => (in_phase Claiming true s.1, db)
  | Err _ => (in_phase NotRegistered false s.1, s.2)
  end.

(** A tick of [workerHeartbeatLoop]. *)
Definition beat_worker (n1 n2 : Z) (s : System) : System :=
  if ru_beats s.1 then (s.1, exec (OHeartbeatWorker n1 n2 worker_id true) s.2) else s.

(** The context of [Run] is canceled; the error of [SetWorkerDrain] is ignored. *)
Definition drain (now : Z) (written : bool) (s : System) : System :=
  (in_phase (Draining written) (ru_beats s.1) s.1, if written then exec (OSetWorkerDrain now worker_id true) s.2 else s.2).

(** One [Claim] of a tick. *)
Definition claim_job (env : ClaimEnv) (s : System) : System :=
  match claim env claim_request s.2 with
  | Ok (cl, db) =>
      (with_runs (ru_runs s.1 ++ [{|
         ju_job := j_ID (c_Job cl); ju_attempt := a_ID (c_Attempt cl); ju_token := a_ClaimToken (c_Attempt cl);
         ju_expires := a_LeaseExpiresAt (c_Attempt cl); ju_canceled := false; ju_beats := true |}]) s.1, db)
  | Err _ => s
  end.

(** A tick of the heartbeat of a claim. *)
Definition beat_job (now base : Z) (x : JobRun) (db : DB) : JobRun * DB :=
  match heartbeat now base (ju_job x) (ju_attempt x) (ju_token x) (rc_LeaseDuration c) db with
  | Ok (hr, db) =>
      ({| ju_job := ju_job x; ju_attempt := ju_attempt x; ju_token := ju_token x; ju_expires := hr_LeaseExpiresAt hr;
          ju_canceled := ju_canceled x || hr_CancelRequested hr; ju_beats := true |}, db)
  | Err _ =>
      ({| ju_job := ju_job x; ju_attempt := ju_attempt x; ju_token := ju_token x; ju_expires := ju_expires x;
          ju_canceled := true; ju_beats := false |}, db)
  end.

(** The executor returned, its heartbeat is over, and the result is stored. *)
Definition finish_job (now : Z) (res : FinishResult) (k : nat) (x : JobRun) (s : System) : System :=
  (with_runs (delete k (ru_runs s.1)) s.1, exec (OFinish now (ju_job x) (ju_attempt x) (ju_token x) res) s.2).

(** A leaving process has told the store. *)
Definition told_store (p : Phase) : bool :=
  match p with Draining told | Stopping told | Returned told => told | _ => false end.

(** [active.Wait] returned: the heartbeat loop is stopped and waited for. *)
Definition stop (s : System) : System := (in_phase (Stopping (told_store (ru_phase s.1))) false s.1, s.2).

(** The last heartbeat, which says unready; its error is ignored. *)
Definition unready (n1 n2 : Z) (written : bool) (s : System) : System :=
  (in_phase (Returned (told_store (ru_phase s.1) || written)) (ru_beats s.1) s.1,
   if written then exec (OHeartbeatWorker n1 n2 worker_id false) s.2 else s.2).

(** What the other users of the store do not do: present an attempt of this process
    with its claim token, which they do not have. They may do anything with the row of
    the worker, and claim under its id. *)
Definition foreign (rt : Runtime) (op : Op) : Prop :=
  match op with
  | OHeartbeat _ _ _ a t _ | OFinish _ _ a t _ => forall x, x ∈ ru_runs rt -> ju_attempt x = a -> ju_token x <> t
  | _ => True
  end.

(** An operation does not announce this worker: it does not register the id, beat as
    ready for it, or lift its drain. Over HTTP anyone with the token may. *)
Definition silent (op : Op) : Prop :=
  match op with
  | ORegisterWorker _ w => w_ID w <> worker_id
  | OHeartbeatWorker _ _ w ready => w <> worker_id \/ ready = false
  | OSetWorkerDrain _ w draining => w <> worker_id \/ draining = true
  | _ => True
  end.

(** Leases are broken by [allowed] calls of [ReclaimExpired] only; [others] says what
    the other users do. *)
Inductive runtime_step (allowed : Runtime -> Z -> Prop) (others : Runtime -> Op -> Prop) : System -> System -> Prop :=
  | WRegister now rt db : ru_phase rt = Registering -> runtime_step allowed others (rt, db) (register_worker now (rt, db))
  | WBeat n1 n2 s : runtime_step allowed others s (beat_worker n1 n2 s)
  | WDrain now written rt db : ru_phase rt = Claiming -> runtime_step allowed others (rt, db) (drain now written (rt, db))
  | WReclaim now cutoff rt db : ru_phase rt = Claiming -> allowed rt cutoff ->
      runtime_step allowed others (rt, db) (rt, exec (OReclaimExpired now cutoff) db)
  | WClaim env rt db : ru_phase rt = Claiming -> runtime_step allowed others (rt, db) (claim_job env (rt, db))
  | WBeatJob now base k x x' rt db db' :
      ru_runs rt !! k = Some x -> ju_beats x = true -> beat_job now base x db = (x', db') ->
      runtime_step allowed others (rt, db) (with_runs (<[k := x']> (ru_runs rt)) rt, db')
  | WFinish now res k x rt db : ru_runs rt !! k = Some x -> runtime_step allowed others (rt, db) (finish_job now res k x (rt, db))
  | WStop rt db : (exists told, ru_phase rt = Draining told) -> ru_runs rt = [] -> runtime_step allowed others (rt, db) (stop (rt, db))
  | WUnready n1 n2 written rt db : (exists told, ru_phase rt = Stopping told) ->
      runtime_step allowed others (rt, db) (unready n1 n2 written (rt, db))
  | WForeign op rt db : foreign rt op -> others rt op -> match op with OReclaimExpired _ cutoff => allowed rt cutoff | _ => True end ->
      runtime_step allowed others (rt, db) (rt, exec op db).

(** No lease this process holds is past its expiry. *)
Definition in_time (rt : Runtime) (cutoff : Z) : Prop := forall x, x ∈ ru_runs rt -> (cutoff < ju_expires x)%Z.
End runtime.
