(* ===== verification/WorkerRuntimeProps.v ===== *)
(** * The worker runtime: what it holds is its own, and it leaves for good

    Accepted settings make a runtime whose heartbeats are shorter than its leases; a
    claim that is kept alive in time stays with its run until the run is over,
    whatever the other users of the queue do; and a worker that was drained gets no job
    when it could say so, as long as nobody announces it again. *)

From stdpp Require Import base gmap strings list relations sorting.
From Stdlib Require Import ZArith.
From S2P Require Import Prelude Model Queue QueueFacts QueueProps WorkerRuntime.

(** ** Settings *)

(** Accepted durations are read as they were checked. *)
Lemma check_duration_read {RT : GoRuntime} value fallback :
  (check_duration value fallback).1 = true ->
  (check_duration value fallback).2 = queueDuration value fallback
  /\ (0 < fallback -> 0 < queueDuration value fallback)%Z.
Proof.
  unfold check_duration, queueDuration. destruct (is_empty value); [done|].
  destruct (parse_duration value) as [d|]; [|done]. destruct (d <=? 0)%Z eqn:E; [done|]. apply Z.leb_gt in E. done.
Qed.

Lemma or_default_pos v fallback : (0 < v)%Z -> or_default v fallback = v.
Proof. intros H. unfold or_default. destruct (Z.leb_spec v 0); [lia|done]. Qed.

(** What [New] is called with by both its callers, once the settings are accepted. *)
Lemma validated_runtime {RT : GoRuntime} q w p :
  validateQueueDurations q = true -> w_ID w <> "" ->
  exists c, NewRuntime (runtime_of q w p) = Ok c
    /\ (0 < rc_HeartbeatInterval c < rc_LeaseDuration c)%Z
    /\ rc_WorkerHeartbeat c = rc_HeartbeatInterval c /\ (0 < rc_WorkerTimeout c)%Z /\ (0 < rc_PollInterval c)%Z
    /\ w_ID (rc_Worker c) = w_ID w /\ (0 < w_Capacity (rc_Worker c))%Z.
Proof.
  intros Hv Hid. unfold validateQueueDurations in Hv. rewrite !andb_true_iff in Hv.
  destruct Hv as [[[[H1 H2] H3] H4] H5%negb_true_iff%Z.leb_gt].
  apply check_duration_read in H1 as [E1 P1], H2 as [E2 P2], H3 as [E3 P3], H4 as [E4 P4].
  rewrite E1, E2 in H5. specialize (P1 ltac:(done)). specialize (P2 ltac:(done)). specialize (P3 ltac:(done)). specialize (P4 ltac:(done)).
  unfold NewRuntime, runtime_of. cbn. rewrite (proj2 (is_empty_false _) Hid).
  unfold LeaseDurationValue, HeartbeatIntervalValue, WorkerTimeoutValue, PollIntervalValue.
  rewrite (or_default_pos _ _ P1), !(or_default_pos _ _ P2), (or_default_pos _ _ P3), (or_default_pos _ _ P4).
  rewrite (proj2 (Z.leb_gt _ _) H5). eexists. split; [done|]. cbn. split_and!; try done.
  unfold or_default. destruct (Z.leb_spec (w_Capacity w) 0); lia.
Qed.

(** ** A lease under foreign hands *)

Section held.
Context {RT : GoRuntime} `{!Sorter claim_order}.

(** The row of a lease, up to what others may change: a cancel request. *)
Definition keeps_lease (r r' : JobRow) : Prop :=
  jr_snap r' = jr_snap r /\ jr_state r' = jr_state r /\ lease_cols r' = lease_cols r
  /\ (jr_cancel_requested r = true -> jr_cancel_requested r' = true).

Lemma keeps_refl r : keeps_lease r r.
Proof. done. Qed.

Lemma keeps_cancel now r : jr_state r = sql_leased -> keeps_lease r (cancel_row now r).
Proof. intros Hs. unfold cancel_row. rewrite Hs. done. Qed.

(** A leased row changes by its own heartbeat and finish, and by a reclaim after its
    expiry, only. *)
Lemma lease_survives op db j r a :
  Inv db -> dispatch_jobs db !! j = Some r -> jr_state r = sql_leased -> jr_lease_attempt_id r = Some a ->
  match op with
  | OHeartbeat _ _ _ a' t _ | OFinish _ _ a' t _ => a' = a -> jr_lease_token r <> Some t
  | OReclaimExpired _ cutoff => is_expired cutoff r = false
  | _ => True
  end ->
  exists r', dispatch_jobs (exec op db) !! j = Some r' /\ keeps_lease r r'.
Proof.
  intros HI Hr Hs Ha Hop. assert (exists r', dispatch_jobs db !! j = Some r' /\ keeps_lease r r') as Hsame by (by exists r).
  destruct op; simpl.
  - destruct (Enqueue _ _ _ _) as [[[b job'] db']|] eqn:E; [|done]. simpl. unfold Enqueue in E.
    destruct (is_empty (trim_space _)); [done|]. destruct (_ <=? _)%Z; [done|]. destruct (negb _); [done|]. cbv zeta in E.
    destruct (bool_decide _ || bool_decide _) eqn:Eb.
    + unfold getJobByKey in E. by destruct (row_by_key _ _); rsimpl in E; simplify_eq.
    + apply orb_false_iff in Eb as [Eb%bool_decide_eq_false _]. injection E as <- <- <-. simpl.
      exists r. split; [|done]. rewrite lookup_insert_ne; [done|]. intros Hj. apply Eb. rewrite Hj. by eexists.
  - unfold RegisterWorker. by repeat case_match.
  - unfold HeartbeatWorker, requireWorkerRow. by case_match.
  - unfold SetWorkerDrain, requireWorkerRow. by case_match.
  - destruct (claim _ _ _) as [[cl db']|] eqn:E; [|done]. simpl.
    apply claim_inv in E as (wrow & r1 & e & _ & _ & _ & _ & H1 & _ & _ & Hq & _ & _ & _ & ->); [|done]. simpl.
    exists r. split; [|done]. rewrite lookup_insert_ne; [done|]. intros Hj. rewrite Hj in H1. assert (r1 = r) as -> by congruence. by rewrite Hs in Hq.
  - destruct (heartbeat _ _ _ _ _ _ _) as [[hr db']|] eqn:E; [|done]. simpl.
    apply heartbeat_inv in E as (r1 & ar & e & H1 & _ & H2 & H3 & _ & _ & _ & _ & _ & ->). simpl.
    exists r. split; [|done]. rewrite lookup_insert_ne; [done|]. intros Hj. rewrite Hj in H1.
    apply Hop; congruence.
  - destruct (finish _ _ _ _ _ _) as [db'|] eqn:E; [|done]. simpl.
    apply finish_inv in E as (r1 & ar & aS & jS & av & msg & H1 & H2 & _ & _ & _ & H3 & H4 & _ & ->); [|done]. simpl.
    exists r. split; [|done]. rewrite lookup_insert_ne; [done|]. intros Hj. rewrite Hj in H1.
    unfold leased_by, lease_cols in H3. apply Hop; congruence.
  - unfold RequestCancel. destruct (update_at_spec jobID cancelable (cancel_row now) (dispatch_jobs db)) as [(r1 & H1 & _ & ->)|[_ ->]];
      simpl; [|done].
    destruct (decide (jobID = j)) as [->|Hne].
    + simplify_eq. rewrite lookup_insert_eq. eexists. split; [done|]. by apply keeps_cancel.
    + rewrite lookup_insert_ne by done. done.
  - unfold RequestCancelFor, update_where. simpl. rewrite lookup_fmap, Hr. simpl. eexists. split; [done|].
    destruct (_ && _); [by apply keeps_cancel|done].
  - unfold ReleaseAffinity.
    destruct (update_at_spec jobID (fun r => bool_decide (jr_state r = JobQueued)) (release_row now) (dispatch_jobs db))
      as [(r1 & H1 & Hq%bool_decide_eq_true & ->)|[_ ->]]; simpl; [|done].
    exists r. split; [|done]. rewrite lookup_insert_ne; [done|]. intros ->. simplify_eq. rewrite Hs in Hq. done.
  - destruct (reclaimExpired_spec now cutoff db HI) as (_ & _ & _ & ->). rewrite lookup_fmap, Hr. simpl.
    rewrite Hop. by exists r.
Qed.
End held.

(** ** The runs of a process *)

Section runtime.
Context {RT : GoRuntime} `{!Sorter claim_order}.
Context (c : RuntimeConfig).

Record held (db : DB) (x : JobRun) (r : JobRow) : Prop := {
  he_row : dispatch_jobs db !! ju_job x = Some r;
  he_state : jr_state r = sql_leased;
  he_lease : lease_cols r = (Some (ju_attempt x), Some (ju_token x), Some (worker_id c), Some (ju_expires x));
  he_cancel : ju_canceled x = true -> jr_cancel_requested r = true;
  he_beats : ju_beats x = true;
}.

Lemma held_attempt db x r : held db x r -> jr_lease_attempt_id r = Some (ju_attempt x).
Proof. intros [_ _ H _ _]. unfold lease_cols in H. congruence. Qed.

Record runs_ok (s : System) : Prop := {
  ro_inv : Inv s.2;
  ro_jobs : NoDup (ju_job <$> ru_runs s.1);
  ro_held : forall x, x ∈ ru_runs s.1 -> exists r, held s.2 x r;
}.

Lemma held_exec op db x r :
  Inv db -> held db x r ->
  match op with
  | OHeartbeat _ _ _ a' t _ | OFinish _ _ a' t _ => a' = ju_attempt x -> t <> ju_token x
  | OReclaimExpired _ cutoff => (cutoff < ju_expires x)%Z
  | _ => True
  end -> exists r', held (exec op db) x r'.
Proof.
  intros HI Hh Hop. pose proof Hh as [H1 H2 H3 H4 H5].
  destruct (lease_survives op db (ju_job x) r (ju_attempt x)) as (r' & Hr' & K1 & K2 & K3 & K4); [done|done|done|by eapply held_attempt| |].
  - unfold lease_cols in H3. destruct op; try done; [intros Ha Ht; by apply Hop; [|congruence]..|].
    unfold is_expired. assert (jr_lease_expires_at r = Some (ju_expires x)) as -> by congruence.
    rewrite H2. cbn. apply Z.leb_gt. lia.
  - exists r'. split; [done|congruence|congruence|auto|done].
Qed.

(** An operation beside the runs. *)
Lemma runs_exec op rt db :
  runs_ok (rt, db) ->
  match op with
  | OHeartbeat _ _ _ a' t _ | OFinish _ _ a' t _ => forall x, x ∈ ru_runs rt -> ju_attempt x = a' -> ju_token x <> t
  | OReclaimExpired _ cutoff => in_time rt cutoff
  | _ => True
  end -> runs_ok (rt, exec op db).
Proof.
  intros [H1 H2 H3] Hop. cbn in *. split; cbn; [by apply exec_sound|done|]. intros x Hx. destruct (H3 x Hx) as [r Hr].
  apply (held_exec op db x r H1 Hr). destruct op; try done; [intros E; apply not_eq_sym; by apply Hop|intros E; apply not_eq_sym; by apply Hop|by apply Hop].
Qed.

(** Runs of different jobs have different attempts. *)
Lemma held_attempts db x y r q :
  Inv db -> held db x r -> held db y q -> ju_job x <> ju_job y -> ju_attempt x <> ju_attempt y.
Proof.
  intros HI Hx Hy Hne E.
  destruct (Inv_lease _ _ _ _ HI (he_row _ _ _ Hx) (he_state _ _ _ Hx) (held_attempt _ _ _ Hx)) as (ar & A1 & A2 & _).
  destruct (Inv_lease _ _ _ _ HI (he_row _ _ _ Hy) (he_state _ _ _ Hy) (held_attempt _ _ _ Hy)) as (br & B1 & B2 & _).
  congruence.
Qed.

Lemma runs_differ rt db k x y :
  runs_ok (rt, db) -> ru_runs rt !! k = Some x -> y ∈ delete k (ru_runs rt) -> ju_attempt y <> ju_attempt x.
Proof.
  intros [HI Hnd Hh] Hk Hy. cbn in *.
  assert (y ∈ ru_runs rt) as Hy' by (by eapply list_elem_of_delete_inv).
  destruct (Hh x ltac:(by eapply list_elem_of_lookup_2)) as [r Hr]. destruct (Hh y Hy') as [q Hq].
  apply (held_attempts db y x q r); [done|done|done|]. intros E.
  rewrite (delete_take_drop (ru_runs rt) k) in Hy. rewrite <- (take_drop_middle _ _ _ Hk) in Hnd.
  rewrite fmap_app, fmap_cons in Hnd. apply NoDup_app in Hnd as (_ & N1 & N2). apply NoDup_cons in N2 as [N2 _].
  apply elem_of_app in Hy as [Hy|Hy].
  - apply (N1 (ju_job y)); [by apply list_elem_of_fmap_2|]. rewrite E. by left.
  - apply N2. rewrite <- E. by apply list_elem_of_fmap_2.
Qed.

Lemma held_heartbeat now base db x r :
  Inv db -> held db x r ->
  exists hr db', heartbeat now base (ju_job x) (ju_attempt x) (ju_token x) (rc_LeaseDuration c) db = Ok (hr, db').
Proof.
  intros HI Hx. destruct (Inv_lease _ _ _ _ HI (he_row _ _ _ Hx) (he_state _ _ _ Hx) (held_attempt _ _ _ Hx)) as (ar & A1 & A2 & A3 & A4).
  pose proof (he_lease _ _ _ Hx) as Hl. unfold leased_by in A4. rewrite Hl in A4. injection A4 as A4 A5 A6.
  unfold heartbeat, update_at. rewrite A1, A2, A3, <- A4, !bool_decide_true by done. cbn.
  rewrite (he_row _ _ _ Hx), (he_state _ _ _ Hx). unfold holds_lease. unfold lease_cols in Hl. injection Hl as -> -> _ _.
  rewrite !bool_decide_true by done. cbn. by eauto.
Qed.

Lemma held_finish now res db x r :
  held db x r -> exists db', finish now (ju_job x) (ju_attempt x) (ju_token x) res db = Ok db'.
Proof.
  intros Hx. pose proof (he_lease _ _ _ Hx) as Hl. unfold finish. rewrite (he_row _ _ _ Hx), (he_state _ _ _ Hx).
  unfold holds_lease. unfold lease_cols in Hl. injection Hl as -> -> _ _. rewrite !bool_decide_true by done. cbn.
  destruct (finish_outcome _ _ _ _ _) as [[? ?] ?]. by eauto.
Qed.

(** What a claim hands out is what it wrote. *)
Lemma claim_hands_out env req db cl db' :
  Inv db -> claim env req db = Ok (cl, db') ->
  exists r, dispatch_jobs db !! j_ID (c_Job cl) = Some r /\ jr_state r = JobQueued
    /\ db' = exec (OClaim env req) db
    /\ exists r', dispatch_jobs db' !! j_ID (c_Job cl) = Some r' /\ jr_state r' = sql_leased
       /\ lease_cols r' = (Some (a_ID (c_Attempt cl)), Some (a_ClaimToken (c_Attempt cl)), Some (cr_WorkerID req),
                           Some (a_LeaseExpiresAt (c_Attempt cl))).
Proof.
  intros HI Hc.
  assert (a_ID (c_Attempt cl) = ce_attemptID env /\ a_ClaimToken (c_Attempt cl) = ce_claimToken env
    /\ j_LeaseExpiresAt (c_Job cl) = Some (a_LeaseExpiresAt (c_Attempt cl))) as (E1 & E2 & E3).
  { unfold claim in Hc. repeat case_match; try done; by injection Hc as <- <-. }
  assert (db' = exec (OClaim env req) db) as Hx by (simpl; by rewrite Hc).
  apply claim_inv in Hc as (wrow & r & e & _ & _ & _ & _ & H1 & _ & _ & Hq & _ & _ & Hj & ->); [|done].
  exists r. split_and!; [done|done|done|]. simpl. rewrite lookup_insert_eq. eexists. split_and!; [done|done|].
  rewrite E1, E2. rewrite Hj in E3. cbn in E3. by injection E3 as <-.
Qed.

Lemma runs_phase p beats rt db : runs_ok (rt, db) -> runs_ok (in_phase p beats rt, db).
Proof. by intros [H1 H2 H3]. Qed.

Lemma claim_job_ok env rt db : runs_ok (rt, db) -> runs_ok (claim_job c env (rt, db)).
Proof.
  intros Hok. unfold claim_job. cbn [fst snd]. destruct (claim env (claim_request c) db) as [[cl db']|] eqn:E; [|done].
  destruct (claim_hands_out _ _ _ _ _ (ro_inv _ Hok) E) as (r & Hr & Hq & Hx & r' & Hr' & Hs & Hl).
  pose proof (runs_exec (OClaim env (claim_request c)) rt db Hok I) as Hok'. cbn [snd] in Hx. rewrite <- Hx in Hok'.
  destruct Hok' as [H1 H2 H3]. cbn in *. split; cbn; [done| |].
  - rewrite fmap_app. apply NoDup_app. split_and!; [done| |apply NoDup_singleton].
    intros j Hj ->%list_elem_of_singleton. cbn in Hj. apply list_elem_of_fmap in Hj as (x & Ex & Hin).
    destruct (ro_held _ Hok x Hin) as [q [Q1 Q2 _ _ _]]. cbn in Q1. rewrite <- Ex in Q1. rewrite Hr in Q1. injection Q1 as <-.
    rewrite Hq in Q2. done.
  - intros x [Hx'| ->%list_elem_of_singleton]%elem_of_app; [by apply H3|]. exists r'. by split.
Qed.

Lemma beat_job_ok now base k x x' rt db db' :
  runs_ok (rt, db) -> ru_runs rt !! k = Some x -> beat_job c now base x db = (x', db') ->
  runs_ok (with_runs (<[k := x']> (ru_runs rt)) rt, db').
Proof.
  intros Hok Hk Hb. assert (x ∈ ru_runs rt) as Hx by (by eapply list_elem_of_lookup_2).
  destruct (ro_held _ Hok x Hx) as [r Hr]. cbn in Hr.
  destruct (held_heartbeat now base db x r (ro_inv _ Hok) Hr) as (hr & db1 & Hh).
  unfold beat_job in Hb. rewrite Hh in Hb. injection Hb as <- <-.
  assert (db1 = exec (OHeartbeat now base (ju_job x) (ju_attempt x) (ju_token x) (rc_LeaseDuration c)) db) as Hx1 by (simpl; by rewrite Hh).
  assert (Inv db1) as HI1 by (rewrite Hx1; apply exec_sound; exact (ro_inv _ Hok)).
  split; cbn; [done| |].
  - rewrite list_fmap_insert. cbn. rewrite list_insert_id; [exact (ro_jobs _ Hok)|]. by rewrite list_lookup_fmap, Hk.
  - intros y Hy. apply list_elem_of_lookup in Hy as [i Hi]. destruct (decide (i = k)) as [->|Hne].
    + rewrite list_lookup_insert_eq in Hi by (by eapply lookup_lt_Some). injection Hi as <-.
      apply heartbeat_inv in Hh as (r1 & ar & e & G1 & G2 & G3 & G4 & _ & _ & _ & _ & -> & ->).
      destruct Hr as [R1 R2 R3 R4 R5]. rewrite G1 in R1. injection R1 as ->.
      exists (extend_row e now r). split; cbn; [by rewrite lookup_insert_eq|done| |intros [H|H]%orb_true_iff; auto|done].
      unfold lease_cols in *. cbn. by injection R3 as -> -> -> _.
    + rewrite list_lookup_insert_ne in Hi by done.
      assert (y ∈ delete k (ru_runs rt)) as Hyd.
      { destruct (decide (i < k)) as [H|H].
        - eapply list_elem_of_lookup_2. rewrite list_lookup_delete_lt by done. exact Hi.
        - apply (list_elem_of_lookup_2 _ (pred i)). rewrite list_lookup_delete_ge by lia.
          replace (S (pred i)) with i by lia. exact Hi. }
      pose proof (runs_differ rt db k x y Hok Hk Hyd) as Hd.
      destruct (ro_held _ Hok y ltac:(by eapply list_elem_of_lookup_2)) as [q Hq]. cbn in Hq. rewrite Hx1.
      apply (held_exec _ db y q (ro_inv _ Hok) Hq). cbn. congruence.
Qed.

Lemma finish_job_ok now res k x rt db :
  runs_ok (rt, db) -> ru_runs rt !! k = Some x -> runs_ok (finish_job now res k x (rt, db)).
Proof.
  intros Hok Hk. split; cbn -[exec].
  - apply exec_sound. exact (ro_inv _ Hok).
  - eapply sublist_NoDup; [exact (ro_jobs _ Hok)|]. cbn. apply fmap_sublist, sublist_delete.
  - intros y Hy. destruct (ro_held _ Hok y ltac:(by eapply list_elem_of_delete_inv)) as [q Hq].
    apply (held_exec _ db y q (ro_inv _ Hok) Hq). cbn. intros E. by destruct (runs_differ rt db k x y Hok Hk Hy).
Qed.

Lemma runtime_step_ok others s s' : runtime_step c in_time others s s' -> runs_ok s -> runs_ok s'.
Proof.
  intros Hs Hok. destruct Hs as [now rt db _|n1 n2 [rt db]|now written rt db _|now cutoff rt db _ Ha|env rt db _|
    now base k x x' rt db db' Hk _ Hb|now res k x rt db Hk|rt db _ _|n1 n2 written rt db _|op rt db Hf _ Ha].
  - unfold register_worker. cbn [fst snd]. destruct (RegisterWorker now (rc_Worker c) db) as [[w db']|] eqn:E; apply runs_phase; [|done].
    assert (db' = exec (ORegisterWorker now (rc_Worker c)) db) as -> by (simpl; by rewrite E). by apply runs_exec.
  - unfold beat_worker. cbn [fst snd]. destruct (ru_beats rt); [by apply runs_exec|done].
  - unfold drain. cbn [fst snd]. apply runs_phase. destruct written; [by apply runs_exec|done].
  - by apply runs_exec.
  - by apply claim_job_ok.
  - by eapply beat_job_ok.
  - by apply finish_job_ok.
  - by apply runs_phase.
  - unfold unready. cbn [fst snd]. apply runs_phase. destruct written; [by apply runs_exec|done].
  - apply runs_exec; [done|]. destruct op; done.
Qed.

(** C31: as long as no reclaim comes after the expiry of a lease this process holds,
    its runs keep their claims whatever it does and the other users of the queue do,
    on the row of the worker and under its id too, who do not present its claims: each
    works on a job of its own, whose row is leased to it, which nobody can claim; its
    next heartbeat and its result are accepted; and its context is canceled only
    when a cancel was requested. *)
Theorem claims_stay_held (others : Runtime -> Op -> Prop) (db0 : DB) (s : System) :
  reachable db0 -> rtc (runtime_step c in_time others) (fresh_runtime, db0) s ->
  NoDup (ju_job <$> ru_runs s.1)
  /\ forall x, x ∈ ru_runs s.1 ->
       (exists r, held s.2 x r)
       /\ (forall now base, exists hr db', heartbeat now base (ju_job x) (ju_attempt x) (ju_token x) (rc_LeaseDuration c) s.2 = Ok (hr, db'))
       /\ (forall now res, exists db', finish now (ju_job x) (ju_attempt x) (ju_token x) res s.2 = Ok db')
       /\ forall env req cl db', claim env req s.2 = Ok (cl, db') -> j_ID (c_Job cl) <> ju_job x.
Proof.
  intros Hdb Hs. assert (forall s0 s1, rtc (runtime_step c in_time others) s0 s1 -> runs_ok s0 -> runs_ok s1) as Hrun.
  { intros s0 s1. induction 1 as [|a b d H _ IH]; [done|]. intros Ha. apply IH. by eapply runtime_step_ok. }
  assert (runs_ok s) as Hok.
  { apply (Hrun _ _ Hs). split; [by apply reachable_Inv|constructor|by intros x ?%elem_of_nil]. }
  split; [exact (ro_jobs _ Hok)|]. intros x Hx. destruct (ro_held _ Hok x Hx) as [r Hr]. split_and!.
  - by exists r.
  - intros now base. by apply (held_heartbeat now base s.2 x r (ro_inv _ Hok)).
  - intros now res. by eapply held_finish.
  - intros env req cl db' Hc E. destruct (claim_hands_out _ _ _ _ _ (ro_inv _ Hok) Hc) as (q & Hq & Hst & _).
    destruct Hr as [R1 R2 _ _ _]. rewrite E, R1 in Hq. injection Hq as <-. rewrite R2 in Hst. done.
Qed.

(** ** Leaving *)

(** Every row of the worker has these flags, ready and draining. *)
Definition flagged (P : bool -> bool -> Prop) (w : string) (db : DB) : Prop :=
  forall row, worker_registrations db !! w = Some row -> P (wr_ready row) (wr_draining row).

Lemma flagged_set P w db w' f :
  flagged P w db -> (forall row, w' = w -> P (wr_ready row) (wr_draining row) -> P (wr_ready (f row)) (wr_draining (f row))) ->
  flagged P w (set_workers db (update_at w' (fun _ => true) f (worker_registrations db)).1).
Proof.
  intros H Hf row. destruct (update_at_spec w' (fun _ => true) f (worker_registrations db)) as [(r & H1 & _ & ->)|[_ ->]]; cbn; [|apply H].
  destruct (decide (w' = w)) as [->|Hne]; [|rewrite lookup_insert_ne by done; apply H].
  rewrite lookup_insert_eq. intros [= <-]. apply Hf; [done|by apply H].
Qed.

Lemma flagged_release P w now w' db : flagged P w db -> flagged P w (release_worker now w' db).
Proof. intros H. by apply flagged_set. Qed.

(** What an operation may do to the flags of a worker. *)
Definition keeps_flags (P : bool -> bool -> Prop) (w : string) (op : Op) : Prop :=
  match op with
  | ORegisterWorker _ w' => w_ID w' <> w
  | OHeartbeatWorker _ _ w' ready => w' = w -> forall r d, P r d -> P ready d
  | OSetWorkerDrain _ w' draining => w' = w -> forall r d, P r d -> P (negb draining) draining
  | _ => True
  end.

Lemma flagged_exec P w op db : Inv db -> flagged P w db -> keeps_flags P w op -> flagged P w (exec op db).
Proof.
  intros HI H Hop. destruct op; simpl.
  - unfold Enqueue. repeat case_match; try done; simplify_eq; unfold getJobByKey in *; repeat case_match; rsimpl; simplify_eq; done.
  - unfold RegisterWorker. repeat case_match; try done; simplify_eq; cbn; intros row; cbn; rewrite lookup_insert_ne by done; apply H.
  - unfold HeartbeatWorker, requireWorkerRow. case_match; [done|]. cbn. apply flagged_set; [done|].
    intros row Hw Hp. cbn. by eapply Hop.
  - unfold SetWorkerDrain, requireWorkerRow. case_match; [done|]. cbn. apply flagged_set; [done|].
    intros row Hw Hp. cbn. by eapply Hop.
  - destruct (claim _ _ _) as [[cl db']|] eqn:E; [|done]. cbn.
    apply claim_inv in E as (wrow & r & e & _ & _ & _ & _ & _ & _ & _ & _ & _ & _ & _ & ->); [|done]. by apply flagged_set.
  - destruct (heartbeat _ _ _ _ _ _ _) as [[hr db']|] eqn:E; [|done]. cbn.
    by apply heartbeat_inv in E as (r & ar & e & _ & _ & _ & _ & _ & _ & _ & _ & _ & ->).
  - destruct (finish _ _ _ _ _ _) as [db'|] eqn:E; [|done]. cbn.
    apply finish_inv in E as (r & ar & aS & jS & av & msg & _ & _ & _ & _ & _ & _ & _ & _ & ->); [|done]. by apply flagged_release.
  - unfold RequestCancel. by case_match.
  - done.
  - unfold ReleaseAffinity. by case_match.
  - destruct (reclaimExpired_spec now cutoff db HI) as (_ & _ & HP & _). apply (HP (flagged P w)); [done|].
    intros db1 k r HI1 H1 Hr Hs. destruct (reclaim_one_ok now _ _ _ HI1 Hr Hs) as (a & ar & _ & _ & _ & _ & ->). by apply flagged_release.
Qed.

(** No claim is given to a worker with these flags. *)
Definition is_down (ready draining : bool) : Prop := ready = false \/ draining = true.
Definition is_draining (ready draining : bool) : Prop := draining = true.

Lemma silent_down op : silent c op -> keeps_flags is_down (worker_id c) op.
Proof.
  unfold keeps_flags, is_down. destruct op; cbn; try done; intros [Hs| ->] Hw r d Hd; (done || (by left) || by right).
Qed.

Lemma silent_draining op : silent c op -> keeps_flags is_draining (worker_id c) op.
Proof.
  unfold keeps_flags, is_draining. destruct op; cbn; try done; by intros [Hs| ->] Hw r d Hd.
Qed.

Lemma down_refused db env req :
  flagged is_down (worker_id c) db -> cr_WorkerID req = worker_id c ->
  claim env req db = Err ErrWorkerDraining \/ claim env req db = Err ErrWorkerUnknown.
Proof.
  intros Hf Hid. unfold claim. rewrite Hid. destruct (worker_registrations db !! worker_id c) as [row|] eqn:E; [|by right].
  left. unfold scanWorker. cbn. by destruct (Hf _ E) as [->| ->]; destruct (wr_ready row).
Qed.

(** The operation [op] of the process or of others keeps what was told. *)
Definition quiet (others : Runtime -> Op -> Prop) : Prop :=
  forall rt op, others rt op -> told_store (ru_phase rt) = true -> silent c op.

Record leaving (others : Runtime -> Op -> Prop) (s : System) : Prop := {
  lv_inv : Inv s.2;
  lv_idle : (exists told, ru_phase s.1 = Stopping told \/ ru_phase s.1 = Returned told) -> ru_runs s.1 = [] /\ ru_beats s.1 = false;
  lv_draining : quiet others -> (ru_phase s.1 = Draining true \/ ru_phase s.1 = Stopping true) -> flagged is_draining (worker_id c) s.2;
  lv_down : quiet others -> ru_phase s.1 = Returned true -> flagged is_down (worker_id c) s.2;
}.

Lemma draining_down w db : flagged is_draining w db -> flagged is_down w db.
Proof. intros H row Hr. right. by apply H. Qed.

(** A step that changes the store only. *)
Lemma leaving_exec others op rt db :
  leaving others (rt, db) ->
  (quiet others -> told_store (ru_phase rt) = true -> silent c op \/ (exists n1 n2, op = OHeartbeatWorker n1 n2 (worker_id c) true)
     /\ ru_beats rt = true) ->
  leaving others (rt, exec op db).
Proof.
  intros [H1 H2 H3 H4] Hop. split; cbn in *; [by apply exec_sound|done| |].
  - intros Hq Hp. apply flagged_exec; [done|by apply H3|]. destruct Hop as [Hs|[(n1 & n2 & ->) _]]; [done|by destruct Hp as [->| ->]| |].
    + by apply silent_draining.
    + by intros _ r d.
  - intros Hq Hp. apply flagged_exec; [done|by apply H4|]. destruct Hop as [Hs|[_ Hb]]; [done|by rewrite Hp| |].
    + by apply silent_down.
    + destruct (H2 ltac:(eauto)) as [_ Hb']. congruence.
Qed.

(** A step of a process that goes on claiming, or drains with runs left. *)
Lemma leaving_runs others runs op p beats runs0 db :
  leaving others ({| ru_phase := p; ru_beats := beats; ru_runs := runs0 |}, db) -> (p = Claiming \/ runs0 <> []) -> silent c op ->
  leaving others ({| ru_phase := p; ru_beats := beats; ru_runs := runs |}, exec op db).
Proof.
  intros [H1 H2 H3 H4] Hp Hs. cbn in *.
  assert (forall told, p <> Stopping told /\ p <> Returned told) as Hno.
  { intros told. destruct Hp as [->|Hn]; [done|]. split; intros ->; destruct (H2 ltac:(eauto)); done. }
  split; cbn; [by apply exec_sound| | |].
  - intros (told & [->| ->]); by destruct (Hno told).
  - intros Hq Hp'. apply flagged_exec; [done|by apply H3|by apply silent_draining].
  - intros Hq ->. by destruct (Hno true).
Qed.

Lemma leaving_start others p beats runs db : told_store p = false -> (forall told, p <> Stopping told /\ p <> Returned told) -> Inv db ->
  leaving others ({| ru_phase := p; ru_beats := beats; ru_runs := runs |}, db).
Proof.
  intros Hp Hno HI. split; cbn; [done| | |].
  - intros (told & [->| ->]); by destruct (Hno told).
  - intros _ [->| ->]; done.
  - intros _ ->. done.
Qed.

Lemma worker_set_flags P op db :
  Inv db ->
  match op with
  | OHeartbeatWorker _ _ w ready => w = worker_id c /\ forall d, P ready d
  | OSetWorkerDrain _ w draining => w = worker_id c /\ forall r, P r draining
  | _ => False
  end -> flagged P (worker_id c) (exec op db).
Proof.
  intros HI Hop row. destruct op; try done; destruct Hop as [-> HP]; cbn.
  - unfold HeartbeatWorker, requireWorkerRow.
    match goal with |- context [update_at ?w ?p ?f ?m] => destruct (update_at_spec w p f m) as [(r & H1 & _ & ->)|[Hno ->]] end; cbn.
    + rewrite lookup_insert_eq. by intros [= <-].
    + intros Hrow. by specialize (Hno _ Hrow).
  - unfold SetWorkerDrain, requireWorkerRow.
    match goal with |- context [update_at ?w ?p ?f ?m] => destruct (update_at_spec w p f m) as [(r & H1 & _ & ->)|[Hno ->]] end; cbn.
    + rewrite lookup_insert_eq. by intros [= <-].
    + intros Hrow. by specialize (Hno _ Hrow).
Qed.

Lemma runtime_step_leaving allowed others s s' : runtime_step c allowed others s s' -> leaving others s -> leaving others s'.
Proof.
  intros Hs Hl. pose proof (lv_inv _ _ Hl) as HI.
  destruct Hs as [now rt db Hp|n1 n2 [rt db]|now written rt db Hp|now cutoff rt db Hp _|env rt db Hp|
    now base k x x' rt db db' Hk _ Hb|now res k x rt db Hk|rt db [told Hp] Hnil|n1 n2 written rt db [told Hp]|op rt db Hf Ho _]; cbn [fst snd] in *.
  - unfold register_worker, in_phase. cbn [fst snd].
    destruct (RegisterWorker now (rc_Worker c) db) as [[w db']|] eqn:E; apply leaving_start; try done.
    assert (db' = exec (ORegisterWorker now (rc_Worker c)) db) as -> by (simpl; by rewrite E). by apply exec_sound.
  - unfold beat_worker. cbn [fst snd]. destruct (ru_beats rt) eqn:E; [|done]. apply leaving_exec; [done|]. intros _ _. right. eauto.
  - unfold drain, in_phase. cbn [fst snd]. destruct written; [|by apply leaving_start].
    split; cbn [fst snd ru_phase ru_runs ru_beats]; [by apply exec_sound|by intros (? & [?|?])| |done]. intros _ _. by apply worker_set_flags.
  - apply leaving_exec; [done|]. rewrite Hp. done.
  - unfold claim_job. cbn [fst snd]. destruct (claim env (claim_request c) db) as [[cl db']|] eqn:E; [|done].
    assert (db' = exec (OClaim env (claim_request c)) db) as -> by (simpl; by rewrite E).
    destruct rt as [p beats runs]. unfold with_runs. cbn [ru_phase ru_beats ru_runs] in *.
    eapply (leaving_runs _ _ (OClaim env (claim_request c))); [exact Hl|by left|done].
  - destruct rt as [p beats runs]. unfold with_runs. cbn in *.
    assert (exists hop, silent c hop /\ db' = exec hop db) as (hop & Hsil & ->).
    { exists (OHeartbeat now base (ju_job x) (ju_attempt x) (ju_token x) (rc_LeaseDuration c)). split; [done|]. unfold beat_job in Hb. simpl.
      destruct (heartbeat now base (ju_job x) (ju_attempt x) (ju_token x) (rc_LeaseDuration c) db) as [[hr db1]|] eqn:E; by injection Hb as <- <-. }
    eapply leaving_runs; [exact Hl| |done]. right. intros ->. done.
  - destruct rt as [p beats runs]. unfold finish_job, with_runs. cbn in *. eapply (leaving_runs _ _ (OFinish _ _ _ _ _)); [exact Hl| |done].
    right. intros ->. done.
  - unfold stop, in_phase. cbn. rewrite Hp. cbn. split; cbn; [done|done| |by intros _ ?].
    intros Hq [?|[= ->]]; [done|]. apply (lv_draining _ _ Hl Hq). left. exact Hp.
  - destruct (lv_idle _ _ Hl ltac:(cbn; eauto)) as [Hn Hb]. cbn in Hn, Hb. unfold unready, in_phase. cbn [fst snd]. rewrite Hp. cbn [told_store].
    split; cbn [fst snd ru_phase ru_runs ru_beats]; [by destruct written; [apply exec_sound|]|done|by intros _ [?|?]|].
    intros Hq [= Htold]. destruct written.
    + apply worker_set_flags; [done|]. split; [done|]. by left.
    + rewrite orb_false_r in Htold. subst told. apply draining_down, (lv_draining _ _ Hl Hq). by right.
  - apply leaving_exec; [done|]. intros Hq Ht. left. by apply (Hq rt).
Qed.

(** C32: once [Run] has returned after a drain, no run is left and its heartbeats are
    over; and when the store has taken the drain or the last heartbeat, which says
    unready, every claim under the worker's id is refused, as long as nobody announces
    the id again after that: the heartbeat that says ready was stopped before the last
    one. What else the other users of the store do, and what they did before on the
    worker's own row, does not matter. *)
Theorem drained_worker_stays_down (allowed : Runtime -> Z -> Prop) (others : Runtime -> Op -> Prop) (db0 : DB) (s : System) (told : bool) :
  reachable db0 -> rtc (runtime_step c allowed others) (fresh_runtime, db0) s -> ru_phase s.1 = Returned told ->
  ru_runs s.1 = [] /\ ru_beats s.1 = false
  /\ (told = true -> (forall rt op, others rt op -> told_store (ru_phase rt) = true -> silent c op) ->
      forall env req, cr_WorkerID req = worker_id c ->
        claim env req s.2 = Err ErrWorkerDraining \/ claim env req s.2 = Err ErrWorkerUnknown).
Proof.
  intros Hdb Hs Hp.
  assert (forall s0 s1, rtc (runtime_step c allowed others) s0 s1 -> leaving others s0 -> leaving others s1) as Hrun.
  { intros s0 s1. induction 1 as [|a b d H _ IH]; [done|]. intros Ha. apply IH. by eapply runtime_step_leaving. }
  assert (leaving others s) as Hl by (apply (Hrun _ _ Hs), leaving_start; [done|done|by apply reachable_Inv]).
  destruct (lv_idle _ _ Hl ltac:(eauto)) as [H1 H2]. split_and!; [done|done|]. intros -> Hq env req Hid.
  apply down_refused; [|done]. by apply (lv_down _ _ Hl Hq).
Qed.
End runtime.

(** ** Running it *)

Section steps.
Context {RT : GoRuntime} `{!Sorter claim_order}.
Context (c : RuntimeConfig) (allowed : Runtime -> Z -> Prop) (others : Runtime -> Op -> Prop).

Lemma step_register now s : ru_phase s.1 = Registering -> runtime_step c allowed others s (register_worker c now s).
Proof. destruct s. apply WRegister. Qed.
Lemma step_claim env s : ru_phase s.1 = Claiming -> runtime_step c allowed others s (claim_job c env s).
Proof. destruct s. apply WClaim. Qed.
Lemma step_drain now written s : ru_phase s.1 = Claiming -> runtime_step c allowed others s (drain c now written s).
Proof. destruct s. apply WDrain. Qed.
Lemma step_stop told s : ru_phase s.1 = Draining told -> ru_runs s.1 = [] -> runtime_step c allowed others s (stop s).
Proof. destruct s. intros H. apply WStop. by eexists. Qed.
Lemma step_unready told n1 n2 written s : ru_phase s.1 = Stopping told -> runtime_step c allowed others s (unready c n1 n2 written s).
Proof. destruct s. intros H. apply WUnready. by eexists. Qed.
Lemma step_other op s : foreign s.1 op -> others s.1 op -> match op with OReclaimExpired _ cutoff => allowed s.1 cutoff | _ => True end ->
  runtime_step c allowed others s (s.1, exec op s.2).
Proof. destruct s. apply WForeign. Qed.
Lemma step_reclaim now cutoff s : allowed s.1 cutoff -> others s.1 (OReclaimExpired now cutoff) -> runtime_step c allowed others s (s.1, exec (OReclaimExpired now cutoff) s.2).
Proof. destruct s. intros H Ho. by apply (WForeign c allowed others (OReclaimExpired now cutoff)). Qed.
Lemma step_finish now res k x s : ru_runs s.1 !! k = Some x -> runtime_step c allowed others s (finish_job now res k x s).
Proof. destruct s. apply WFinish. Qed.
End steps.

#[local] Instance witness_runtime : GoRuntime := literal_runtime.
#[local] Instance witness_sorter : Sorter claim_order := merge_sorter claim_order.

Definition no_durations : QueueDurations :=
  {| qs_LeaseDuration := ""; qs_HeartbeatInterval := ""; qs_WorkerTimeout := ""; qs_PollInterval := "" |}.

Definition small_worker : RuntimeConfig := runtime_of no_durations example_worker example_policy.

Definition env_at (t : Z) (a tok : string) : ClaimEnv :=
  {| ce_health := sec t; ce_query := sec t; ce_now := sec t; ce_attemptID := a; ce_claimToken := tok |}.

(** A job is claimed at 10, and another worker reclaims just before its lease ends. *)
Definition one_claim : System :=
  claim_job small_worker (env_at 10 "a1" "t1") (register_worker small_worker (sec 4) (fresh_runtime, setup_db)).
Definition reclaimed_late : System := (one_claim.1, exec (OReclaimExpired (sec 39) (sec 39)) one_claim.2).

Lemma one_claim_reachable others : rtc (runtime_step small_worker in_time others) (fresh_runtime, setup_db) one_claim.
Proof.
  unfold one_claim. eapply rtc_r; [|apply step_claim; vm_compute; reflexivity].
  eapply rtc_r; [apply rtc_refl|apply step_register; reflexivity].
Qed.

Lemma claims_stay_held_witness :
  (ju_job <$> ru_runs reclaimed_late.1) = ["j1"]
  /\ (forall x, x ∈ ru_runs reclaimed_late.1 -> forall now res, exists db',
        finish now (ju_job x) (ju_attempt x) (ju_token x) res reclaimed_late.2 = Ok db').
Proof.
  destruct (claims_stay_held small_worker (fun _ _ => True) setup_db reclaimed_late) as [_ H].
  - exact setup_reachable.
  - eapply rtc_r; [apply one_claim_reachable|]. apply step_reclaim; [|exact I]. intros x Hx.
    apply list_elem_of_singleton in Hx. rewrite Hx. vm_compute. reflexivity.
  - split; [vm_compute; reflexivity|]. intros x Hx. apply (H x Hx).
Defined.

Definition done_result : FinishResult := {| fr_Success := true; fr_Error := ""; fr_Note := ""; fr_Retry := false; fr_RetryAt := None |}.

(** The run ends while the worker drains, the heartbeats end, and the worker says
    unready; the two flags are whether the drain and the last heartbeat are stored. *)
Definition left_worker (drained said : bool) : System :=
  let x := {| ju_job := "j1"; ju_attempt := "a1"; ju_token := "t1"; ju_expires := sec 40; ju_canceled := false; ju_beats := true |} in
  unready small_worker (sec 20) (sec 20) said
    (stop (finish_job (sec 15) done_result 0 x (drain small_worker (sec 12) drained one_claim))).

(** Others do what they like, but for announcing the worker once the store was told. *)
Definition well_behaved (rt : Runtime) (op : Op) : Prop := told_store (ru_phase rt) = true -> silent small_worker op.

Lemma left_worker_reachable drained said others :
  rtc (runtime_step small_worker in_time others) (fresh_runtime, setup_db) (left_worker drained said).
Proof.
  etrans; [apply one_claim_reachable|]. unfold left_worker.
  eapply rtc_r; [|apply (step_unready _ _ _ drained); by destruct drained; vm_compute].
  eapply rtc_r; [|apply (step_stop _ _ _ drained); by destruct drained; vm_compute].
  eapply rtc_r; [|apply step_finish; by destruct drained; vm_compute].
  eapply rtc_r; [apply rtc_refl|apply step_drain; vm_compute; reflexivity].
Qed.

Lemma drained_worker_stays_down_witness :
  ru_runs (left_worker false true).1 = []
  /\ claim (env_at 21 "a2" "t2") (claim_request small_worker) (left_worker false true).2 = Err ErrWorkerDraining
  /\ claim (env_at 21 "a2" "t2") (claim_request small_worker) (left_worker true false).2 = Err ErrWorkerDraining.
Proof.
  destruct (drained_worker_stays_down small_worker in_time well_behaved setup_db (left_worker false true) true) as (H1 & _ & H3).
  - exact setup_reachable.
  - apply left_worker_reachable.
  - reflexivity.
  - destruct (drained_worker_stays_down small_worker in_time well_behaved setup_db (left_worker true false) true) as (_ & _ & H4).
    + exact setup_reachable.
    + apply left_worker_reachable.
    + reflexivity.
    + assert (forall rt op, well_behaved rt op -> told_store (ru_phase rt) = true -> silent small_worker op) as Hw by (intros rt op H; exact H).
      split; [exact H1|]. split.
      * destruct (H3 eq_refl Hw (env_at 21 "a2" "t2") (claim_request small_worker) eq_refl) as [H|H]; [exact H|].
        vm_compute in H. discriminate H.
      * destruct (H4 eq_refl Hw (env_at 21 "a2" "t2") (claim_request small_worker) eq_refl) as [H|H]; [exact H|].
        vm_compute in H. discriminate H.
Defined.

(** Both writes are lost: the process is gone, and the store gives a job to its id
    until the worker counts as unhealthy. *)
Lemma lost_drain_leaves_worker :
  ru_phase (left_worker false false).1 = Returned false
  /\ (exists cl db, claim (env_at 21 "a2" "t2") (claim_request small_worker) (left_worker false false).2 = Ok (cl, db)
      /\ j_ID (c_Job cl) = "j2")
  /\ claim (env_at 41 "a2" "t2") (claim_request small_worker) (left_worker false false).2 = Err ErrWorkerUnhealthy.
Proof.
  split; [vm_compute; reflexivity|]. split; [|vm_compute; reflexivity].
  eexists _, _. split; [vm_compute; reflexivity|reflexivity].
Qed.

(** And when the id is registered again after the worker left, it is one that claims. *)
Lemma announced_again_is_up :
  let back := exec (ORegisterWorker (sec 30) (rc_Worker small_worker)) (left_worker true true).2 in
  claim (env_at 31 "a2" "t2") (claim_request small_worker) (left_worker true true).2 = Err ErrWorkerDraining
  /\ (exists cl db, claim (env_at 31 "a2" "t2") (claim_request small_worker) back = Ok (cl, db) /\ j_ID (c_Job cl) = "j2").
Proof. split; [vm_compute; reflexivity|]. eexists _, _. split; [vm_compute; reflexivity|reflexivity]. Qed.

(** Accepted settings whose worker timeout is shorter than the heartbeat interval:
    between two heartbeats of an idle, healthy worker its claims are refused. *)
Lemma unhealthy_between_heartbeats :
  let q := {| qs_LeaseDuration := "300"; qs_HeartbeatInterval := "60"; qs_WorkerTimeout := ""; qs_PollInterval := "" |} in
  let c := runtime_of q example_worker example_policy in
  validateQueueDurations q = true /\ (exists c', NewRuntime c = Ok c' /\ rc_WorkerHeartbeat c' = sec 60)
  /\ claim (env_at 45 "a1" "t1") (claim_request c) (register_worker c (sec 4) (fresh_runtime, setup_db)).2 = Err ErrWorkerUnhealthy.
Proof. split; [vm_compute; reflexivity|]. split; [eexists; split; vm_compute; reflexivity|vm_compute; reflexivity]. Qed.
