(* ===== verification/Transport.v ===== *)
(** * The queue over HTTP (src/internal/queuehttp/protocol.go, with
      src/internal/daemon/queue_server.go and the policy of queue_dispatch.go)

    The server of the control plane and the client a remote worker uses for its
    store. JSON is a parameter: a class of encoders and decoders with what the two
    sides rely on. A request is its method, the unescaped segments of its path below
    the prefix, the Authorization header, the query as [jobs] parses it and its body.
    What the HTTP client does with a redirect of the multiplexer is not modelled: the
    ids that lead to one are those of [dirty_segment]. *)

From S2P Require Import Prelude Model Text Queue.
From stdpp Require Import base gmap strings list.
From Stdlib Require Import ZArith Ascii.

(** ** Concurrency limits of the control plane (queue_dispatch.go) *)

(** [queuePolicy]: [concurrency] is settings.concurrency, an agent comes with its
    [MaxWorkers]. *)
Definition queuePolicy (configured : ConcurrencyPolicy) (concurrency : Z) (agents : list (string * Z))
    : ConcurrencyPolicy := {|
  DefaultProject := if (DefaultProject configured =? 0)%Z then concurrency else DefaultProject configured;
  Projects := Projects configured;
  DefaultSource := DefaultSource configured; Sources := Sources configured;
  DefaultAgent := DefaultAgent configured;
  Agents := foldl (fun m a => if bool_decide (m !! a.1 = None) && (0 <? a.2)%Z then <[a.1 := a.2]> m else m)
              (Agents configured) agents;
  DefaultRunner := DefaultRunner configured; Runners := Runners configured;
  DefaultPool := DefaultPool configured; Pools := Pools configured |}.

(** ** JSON *)

Definition zero_worker : Worker := {|
  w_ID := ""; w_ProtocolVersion := 0; w_Pool := ""; w_Labels := []; w_Capabilities := []; w_Capacity := 0;
  w_Ready := false; w_Draining := false; w_ActiveJobs := 0; w_LastHeartbeat := 0; w_RegisteredAt := 0 |}.

Definition zero_result : FinishResult :=
  {| fr_Success := false; fr_Error := ""; fr_Note := ""; fr_Retry := false; fr_RetryAt := None |}.

(** Decoding the encoding of [w] into [old]: a field with [omitempty] that is empty
    in [w] was not written, and keeps its old value. *)
Definition worker_over (w old : Worker) : Worker := {|
  w_ID := w_ID w; w_ProtocolVersion := w_ProtocolVersion w;
  w_Pool := if is_empty (w_Pool w) then w_Pool old else w_Pool w;
  w_Labels := match w_Labels w with [] => w_Labels old | l => l end;
  w_Capabilities := match w_Capabilities w with [] => w_Capabilities old | l => l end;
  w_Capacity := w_Capacity w; w_Ready := w_Ready w; w_Draining := w_Draining w; w_ActiveJobs := w_ActiveJobs w;
  w_LastHeartbeat := w_LastHeartbeat w; w_RegisteredAt := w_RegisteredAt w |}.

Definition with_payload (p : string) (j : Job) : Job := {|
  j_ID := j_ID j; j_IdempotencyKey := j_IdempotencyKey j; j_ProjectID := j_ProjectID j; j_SourceID := j_SourceID j;
  j_TaskID := j_TaskID j; j_WorkflowID := j_WorkflowID j; j_AgentID := j_AgentID j; j_RunnerID := j_RunnerID j;
  j_Pool := j_Pool j; j_RequiredLabels := j_RequiredLabels j; j_RequiredCapabilities := j_RequiredCapabilities j;
  j_AffinityKey := j_AffinityKey j; j_AffinityWorkerID := j_AffinityWorkerID j; j_PayloadVersion := j_PayloadVersion j;
  j_Payload := p; j_Priority := j_Priority j; j_State := j_State j; j_AttemptCount := j_AttemptCount j;
  j_MaxAttempts := j_MaxAttempts j; j_CancelRequested := j_CancelRequested j; j_AvailableAt := j_AvailableAt j;
  j_LeaseExpiresAt := j_LeaseExpiresAt j; j_CreatedAt := j_CreatedAt j; j_UpdatedAt := j_UpdatedAt j |}.

Definition worker_texts (w : Worker) : list string := w_ID w :: w_Pool w :: w_Labels w ++ w_Capabilities w.

Definition job_texts (j : Job) : list string :=
  [j_ID j; j_IdempotencyKey j; j_ProjectID j; j_SourceID j; j_TaskID j; j_WorkflowID j; j_AgentID j; j_RunnerID j;
   j_Pool j; j_AffinityKey j; j_AffinityWorkerID j; j_State j; j_Payload j]
  ++ j_RequiredLabels j ++ j_RequiredCapabilities j.

Definition claim_texts (c : Claim) : list string :=
  job_texts (c_Job c) ++ [a_ID (c_Attempt c); a_JobID (c_Attempt c); a_WorkerID (c_Attempt c);
                          a_ClaimToken (c_Attempt c); a_State (c_Attempt c)].

(** The encoders and decoders of the two sides: [carries] holds of valid UTF-8,
    which JSON texts are made of, and [compact] is what encoding does to raw JSON.
    A value whose payload is not JSON has no encoding. [wire_size] counts the bytes up
    to the end of the value. The decoders of the server refuse unknown fields. *)
Class QueueWire {RT : GoRuntime} := {
  Wire : Type;
  wire_size : Wire -> Z;
  carries : string -> bool;
  compact : string -> string;
  json_worker : Worker -> Wire;
  json_ready : bool -> Wire;
  json_draining : bool -> Wire;
  json_worker_id : string -> Wire;
  json_extension : string -> Z -> Wire;
  json_finish : string -> FinishResult -> Wire;
  json_nothing : Wire;
  json_ok : Wire;
  json_health : Z -> bool -> Wire;
  json_claim : Claim -> option Wire;
  json_job : Job -> option Wire;
  json_jobs : list Job -> option Wire;
  json_lease : HeartbeatResult -> Wire;
  read_worker : Wire -> Worker -> option Worker;
  read_flags : Wire -> option (bool * bool);
  read_worker_id : Wire -> option string;
  read_attempt : Wire -> option (string * Z * FinishResult);
  read_claim : Wire -> option Claim;
  read_job : Wire -> option Job;
  read_jobs : Wire -> option (list Job);
  read_lease : Wire -> option HeartbeatResult;
  worker_read w old : forallb carries (worker_texts w) = true -> read_worker (json_worker w) old = Some (worker_over w old);
  ready_read b : read_flags (json_ready b) = Some (b, false);
  draining_read b : read_flags (json_draining b) = Some (false, b);
  worker_id_read id : carries id = true -> read_worker_id (json_worker_id id) = Some id;
  extension_read t e : carries t = true -> read_attempt (json_extension t e) = Some (t, e, zero_result);
  finish_read t r : forallb carries [t; fr_Error r; fr_Note r] = true -> read_attempt (json_finish t r) = Some (t, 0%Z, r);
  claim_read c : json_valid (j_Payload (c_Job c)) = true -> forallb carries (claim_texts c) = true ->
    exists w, json_claim c = Some w
              /\ read_claim w = Some {| c_Job := with_payload (compact (j_Payload (c_Job c))) (c_Job c); c_Attempt := c_Attempt c |};
  job_read j : json_valid (j_Payload j) = true -> forallb carries (job_texts j) = true ->
    exists w, json_job j = Some w /\ read_job w = Some (with_payload (compact (j_Payload j)) j);
  lease_read r : read_lease (json_lease r) = Some r;
}.

(** ** Messages *)

(** The texts of [http.Error]. *)
Inductive Message :=
  | MQueue (e : QueueError) | MTerminal | MNotConfigured | MUnauthorized | MNotFound | MMethod
  | MProtocol (v : Z) | MInvalidJSON.

Section protocol.
Context {RT : GoRuntime} {QW : QueueWire}.

Record Request := {
  rq_Method : string;
  rq_Path : list string;
  rq_Auth : string;
  rq_Query : string * Z;
  rq_Body : option Wire;
}.

(** The body is absent when there is none or when its value has no encoding. *)
Inductive Response :=
  | Json (status : Z) (body : option Wire)
  | Error (status : Z) (m : Message)
  | Redirect.

Definition status_of (r : Response) : option Z :=
  match r with Json s _ | Error s _ => Some s | Redirect => None end.

Definition slash : ascii := "/"%char.
Definition is_slash (c : ascii) : bool := bool_decide (c = slash).

(** [strings.Split(strings.Trim(path, "/"), "/")] of the rest of a path. *)
Definition parts_of (rest : list string) : list string :=
  split_on slash (trim_right is_slash (drop_while is_slash (str_join "/" rest))).

(** A segment that [path.Clean] removes; an empty one may end a path. *)
Definition dirty_segment (s : string) : bool :=
  is_empty s || bool_decide (s = ".") || bool_decide (s = "..").

Definition dirty_path (p : list string) : bool :=
  existsb dirty_segment (removelast p) || (let s := List.last p "" in bool_decide (s = ".") || bool_decide (s = "..")).

Inductive MuxRoute := RHealth | RRegister | RWorker (rest : list string) | RClaim | RJobs | RJob (rest : list string)
  | RMissing | RRedirect.

(** The patterns of [Handler], as [http.ServeMux] matches them. *)
Definition mux_route (p : list string) : MuxRoute :=
  if dirty_path p then RRedirect
  else match p with
       | [] => RMissing
       | root :: rest =>
           if bool_decide (root = "workers") then
             match rest with
             | [] => RRedirect
             | _ => if bool_decide (rest = ["register"]) then RRegister else RWorker rest
             end
           else if bool_decide (root = "jobs") then match rest with [] => RJobs | _ => RJob rest end
           else if negb (bool_decide (rest = [])) then RMissing
           else if bool_decide (root = "health") then RHealth
           else if bool_decide (root = "claim") then RClaim
           else RMissing
       end.

(** ** The server *)

(** [X] is the state [OnTerminal] works on: it may fail, and is absent when the field
    is nil. A server is ready when it has a store, as it has in the daemon. *)
Record Server (X : Type) := {
  sv_Token : string;
  sv_LeaseDuration : Z;
  sv_WorkerTimeout : Z;
  sv_Policy : ConcurrencyPolicy;
  sv_OnTerminal : option (Job -> X -> bool * X);
}.

(** The clock readings and identifiers an operation of the store may draw. *)
Record Env := { e_now : Z; e_again : Z; e_claim : ClaimEnv }.

Definition decode_body {A} (read : Wire -> option A) (body : option Wire) : option A :=
  w ← body; if (4 * 2 ^ 20 <? wire_size w)%Z then None else read w.

Definition writeError (e : QueueError) : Response :=
  Error match e with
        | ErrStaleClaim | ErrWorkerUnknown => 409
        | ErrWorkerDraining | ErrWorkerUnhealthy => 503
        | _ => 500
        end (MQueue e).

Definition method_not_allowed : Response := Error 405 MMethod.
Definition not_found : Response := Error 404 MNotFound.
Definition bad_request : Response := Error 400 MInvalidJSON.

(** A handler whose store call has an answer, and one that only acknowledges. *)
Definition answer {A} (f : A -> Response) (db : DB) (res : result QueueError (A * DB)) : Response * DB :=
  match res with
  | Ok (a, db') => (f a, db')
  | Err e => (writeError e, db)
  end.

Definition acknowledge (db : DB) (res : result QueueError DB) : Response * DB :=
  match res with
  | Ok db' => (Json 200 (Some json_ok), db')
  | Err e => (writeError e, db)
  end.

Section server.
Context `{!Sorter claim_order, !Sorter newest_first}.
Context {X : Type} (s : Server X) (env : Env).

Definition serve_health (db : DB) : Response * DB := (Json 200 (Some (json_health WorkerProtocolVersion true)), db).

Definition serve_register (rq : Request) (db : DB) : Response * DB :=
  if negb (bool_decide (rq_Method rq = "POST")) then (method_not_allowed, db)
  else match decode_body (fun w => read_worker w zero_worker) (rq_Body rq) with
       | None => (bad_request, db)
       | Some w =>
           if negb (w_ProtocolVersion w =? WorkerProtocolVersion)%Z then (Error 422 (MProtocol (w_ProtocolVersion w)), db)
           else answer (fun w => Json 201 (Some (json_worker w))) db (RegisterWorker (e_now env) w db)
       end.

Definition serve_worker (rest : list string) (rq : Request) (db : DB) : Response * DB :=
  match parts_of rest with
  | [id] =>
      if negb (is_empty id) && bool_decide (rq_Method rq = "GET") then
        match List.find (fun w => bool_decide (w_ID w = id)) (ListWorkers db) with
        | Some w => (Json 200 (Some (json_worker w)), db)
        | None => (not_found, db)
        end
      else (not_found, db)
  | [id; action] =>
      if negb (bool_decide (rq_Method rq = "POST")) then (not_found, db)
      else match decode_body read_flags (rq_Body rq) with
           | None => (bad_request, db)
           | Some (ready, draining) =>
               if bool_decide (action = "heartbeat") then
                 acknowledge db (HeartbeatWorker (e_now env) (e_again env) id ready db)
               else if bool_decide (action = "drain") then acknowledge db (SetWorkerDrain (e_now env) id draining db)
               else (not_found, db)
           end
  | _ => (not_found, db)
  end.

(** The request the server makes of its store for a worker. *)
Definition server_request (id : string) : ClaimRequest :=
  {| cr_WorkerID := id; cr_LeaseDuration := sv_LeaseDuration _ s; cr_WorkerTimeout := sv_WorkerTimeout _ s;
     cr_Policy := sv_Policy _ s |}.

Definition serve_claim (rq : Request) (db : DB) : Response * DB :=
  if negb (bool_decide (rq_Method rq = "POST")) then (method_not_allowed, db)
  else match decode_body read_worker_id (rq_Body rq) with
       | None => (bad_request, db)
       | Some id =>
           match claim (e_claim env) (server_request id) db with
           | Ok (c, db') => (Json 200 (json_claim c), db')
           | Err ErrNoJob => (Json 204 None, db)
           | Err e => (writeError e, db)
           end
       end.

Definition serve_jobs (rq : Request) (db : DB) : Response * DB :=
  if negb (bool_decide (rq_Method rq = "GET")) then (method_not_allowed, db)
  else (Json 200 (json_jobs (ListJobs (rq_Query rq).1 (rq_Query rq).2 db)), db).

(** The end of "finish": [OnTerminal] on the job the store committed. *)
Definition after_finish (jobID : string) (db : DB) (x : X) : Response * X :=
  match sv_OnTerminal _ s with
  | None => (Json 200 (Some json_ok), x)
  | Some f =>
      match GetJob jobID db with
      | Err e => (writeError e, x)
      | Ok job =>
          if terminal_state (j_State job) then
            let '(ok, x') := f job x in
            (if ok then Json 200 (Some json_ok) else Error 500 MTerminal, x')
          else (Json 200 (Some json_ok), x)
      end
  end.

Definition serve_attempt (jobID attemptID action : string) (rq : Request) (st : DB * X) : Response * (DB * X) :=
  let '(db, x) := st in
  match decode_body read_attempt (rq_Body rq) with
  | None => (bad_request, st)
  | Some (token, extension, res) =>
      if bool_decide (action = "heartbeat") then
        let '(r, db') := answer (fun hr => Json 200 (Some (json_lease hr))) db
                           (heartbeat (e_now env) (e_again env) jobID attemptID token extension db) in
        (r, (db', x))
      else if bool_decide (action = "finish") then
        match finish (e_now env) jobID attemptID token res db with
        | Err e => (writeError e, st)
        | Ok db' => let '(r, x') := after_finish jobID db' x in (r, (db', x'))
        end
      else (not_found, st)
  end.

Definition serve_job (rest : list string) (rq : Request) (st : DB * X) : Response * (DB * X) :=
  let '(db, x) := st in
  match parts_of rest with
  | [id] =>
      if bool_decide (rq_Method rq = "GET") then
        (match GetJob id db with Ok j => Json 200 (json_job j) | Err e => writeError e end, st)
      else (not_found, st)
  | [id; action] =>
      if bool_decide (action = "cancel") && bool_decide (rq_Method rq = "POST") then
        let '(r, db') := acknowledge db (RequestCancel (e_now env) id db) in (r, (db', x))
      else (not_found, st)
  | [jobID; word; attemptID; action] =>
      if bool_decide (word = "attempts") && bool_decide (rq_Method rq = "POST") then serve_attempt jobID attemptID action rq st else (not_found, st)
  | _ => (not_found, st)
  end.

Definition on_store (f : DB -> Response * DB) (st : DB * X) : Response * (DB * X) :=
  let '(r, db) := f st.1 in (r, (db, st.2)).

Definition serve_mux (rq : Request) (st : DB * X) : Response * (DB * X) :=
  match mux_route (rq_Path rq) with
  | RHealth => on_store serve_health st
  | RRegister => on_store (serve_register rq) st
  | RWorker rest => on_store (serve_worker rest rq) st
  | RClaim => on_store (serve_claim rq) st
  | RJobs => on_store (serve_jobs rq) st
  | RJob rest => serve_job rest rq st
  | RMissing => (not_found, st)
  | RRedirect => (Redirect, st)
  end.

(** [authenticate]: the handler of the server. *)
Definition serve (rq : Request) (st : DB * X) : Response * (DB * X) :=
  if is_empty (trim_space (sv_Token _ s)) then (Error 503 MNotConfigured, st)
  else if negb (bool_decide (trim_prefix "Bearer " (rq_Auth rq) = sv_Token _ s)) then (Error 401 MUnauthorized, st)
  else serve_mux rq st.
End server.

(** [startQueueProtocolServer]: the handler it installs, when it listens. *)
Definition startQueueProtocolServer {X} (listen : string) (token : string) (lease timeout : Z) (policy : ConcurrencyPolicy)
    (settle : Job -> X -> bool * X) : option (Server X) :=
  if is_empty (trim_space listen) then None
  else Some {| sv_Token := token; sv_LeaseDuration := lease; sv_WorkerTimeout := timeout; sv_Policy := policy;
               sv_OnTerminal := Some settle |}.
End protocol.
Arguments Request {RT QW}.
Arguments Response {RT QW}.

(** ** The client *)

(** What a call of the client may end in: an answer of the server that is not a
    success, a body that does not decode, a network that lost the request or the
    response, or an operation the client leaves to the control plane. *)
Inductive ClientError :=
  | Refused (status : Z) (m : Message) | Undecodable | Unreachable | NoJob | ControlPlane.

(** What the network does to an exchange. *)
Inductive Fault := Delivered | RequestLost | ResponseLost.

Section client.
Context {RT : GoRuntime} {QW : QueueWire}.
(** The state behind the server, and the server. *)
Context {S : Type} (server : Request -> S -> Response * S) (bearer : string).

(** [do], with the status it returns; [None] where a redirect would be followed. A
    header arrives without the white space around it. *)
Definition client_do (fault : Fault) (method : string) (path : list string) (query : string * Z) (body : option Wire) (st : S)
    : option (result ClientError (Z * option Wire) * S) :=
  match fault with
  | RequestLost => Some (Err Unreachable, st)
  | _ =>
      let '(r, st') := server {| rq_Method := method; rq_Path := path; rq_Auth := trim_space ("Bearer " +:+ bearer);
                                 rq_Query := query; rq_Body := body |} st in
      match fault, r with
      | ResponseLost, _ => Some (Err Unreachable, st')
      | _, Redirect => None
      | _, Error status m => Some (Err (Refused status m), st')
      | _, Json status w => Some (Ok (status, w), st')
      end
  end.

Definition no_query : string * Z := ("", 0%Z).

(** What a call makes of the response. *)
Definition client_reply {A B} (k : A -> B) (m : option (A * S)) : option (B * S) :=
  match m with Some (r, st) => Some (k r, st) | None => None end.

(** A call that wants no value back, and one that decodes it. *)
Definition client_simple (f : Fault) (path : list string) (body : Wire) (st : S) : option (result ClientError unit * S) :=
  client_reply (fmap (fun _ => tt)) (client_do f "POST" path no_query (Some body) st).

Definition client_read {A} (read : Wire -> option A) (r : result ClientError (Z * option Wire)) : result ClientError A :=
  match r with
  | Ok (_, w) => match w ≫= read with Some a => Ok a | None => Err Undecodable end
  | Err e => Err e
  end.

(** [RegisterWorker]: the response is decoded into the caller's worker. *)
Definition client_RegisterWorker (f : Fault) (w : Worker) (st : S) : option (result ClientError Worker * S) :=
  client_reply (client_read (fun x => read_worker x w)) (client_do f "POST" ["workers"; "register"] no_query (Some (json_worker w)) st).

Definition client_HeartbeatWorker (f : Fault) (id : string) (ready : bool) : S -> option (result ClientError unit * S) :=
  client_simple f ["workers"; id; "heartbeat"] (json_ready ready).

Definition client_SetWorkerDrain (f : Fault) (id : string) (draining : bool) : S -> option (result ClientError unit * S) :=
  client_simple f ["workers"; id; "drain"] (json_draining draining).

(** [Claim]: the durations and the policy of the request are not sent. *)
Definition client_Claim (f : Fault) (request : ClaimRequest) (st : S) : option (result ClientError Claim * S) :=
  client_reply (fun r => match r with
                  | Ok (204%Z, _) => Err NoJob
                  | _ => client_read read_claim r
                  end)
    (client_do f "POST" ["claim"] no_query (Some (json_worker_id (cr_WorkerID request))) st).

Definition client_Heartbeat (f : Fault) (job attempt token : string) (extension : Z) (st : S)
    : option (result ClientError HeartbeatResult * S) :=
  client_reply (client_read read_lease)
    (client_do f "POST" ["jobs"; job; "attempts"; attempt; "heartbeat"] no_query (Some (json_extension token extension)) st).

Definition client_Finish (f : Fault) (job attempt token : string) (res : FinishResult) : S -> option (result ClientError unit * S) :=
  client_simple f ["jobs"; job; "attempts"; attempt; "finish"] (json_finish token res).

Definition client_RequestCancel (f : Fault) (id : string) : S -> option (result ClientError unit * S) :=
  client_simple f ["jobs"; id; "cancel"] json_nothing.

Definition client_GetJob (f : Fault) (id : string) (st : S) : option (result ClientError (option Job) * S) :=
  client_reply (fun r => match r with
                  | Err (Refused 404%Z _) => Ok None
                  | _ => Some <$> client_read read_job r
                  end)
    (client_do f "GET" ["jobs"; id] no_query None st).

Definition client_ListJobs (f : Fault) (state : string) (limit : Z) (st : S) : option (result ClientError (list Job) * S) :=
  client_reply (client_read read_jobs) (client_do f "GET" ["jobs"] (state, limit) None st).

(** Left to the control plane. *)
Definition client_Enqueue (j : Job) (st : S) : result ClientError bool * S := (Err ControlPlane, st).
Definition client_RequestCancelFor (task workflow : string) (st : S) : result ClientError nat * S := (Err ControlPlane, st).
Definition client_ReleaseAffinity (job : string) (st : S) : result ClientError unit * S := (Err ControlPlane, st).
Definition client_ReclaimExpired (cutoff : Z) (st : S) : result ClientError nat * S := (Ok 0, st).
Definition client_ListWorkers (st : S) : result ClientError (list Worker) * S := (Err ControlPlane, st).
End client.
