(* ===== verification/TransportProps.v ===== *)
(** * The queue over HTTP: only workers with the token, and only their operations

    Whatever a request says, the server runs at most one operation of the store, and
    none without the token; a call of the client with plain ids is the call of the store
    it stands for, when nothing gets lost. At the end, where remote workers are not what local
    ones are. *)

From S2P Require Import Prelude Model Text Queue QueueFacts QueueProps WorkerRuntime WorkerRuntimeProps Transport.
From stdpp Require Import base gmap strings list sorting.
From Stdlib Require Import ZArith Ascii.

(** ** Limits *)

(** The limit of an agent: its own in the queue's settings, else the first positive
    [max_workers] it is declared with, else the default. *)
Lemma queuePolicy_agent configured n agents a :
  Agents (queuePolicy configured n agents) !! a
  = match Agents configured !! a with
    | Some l => Some l
    | None => snd <$> List.find (fun x => bool_decide (x.1 = a) && (0 <? x.2)%Z) agents
    end.
Proof.
  simpl. generalize (Agents configured) as m. induction agents as [|[b l] agents IH]; intros m; simpl; [by destruct (m !! a)|].
  rewrite IH. destruct (decide (b = a)) as [->|Hne].
  - rewrite (bool_decide_true (a = a)) by done. destruct (m !! a) as [l'|] eqn:E; simpl.
    + by rewrite E.
    + destruct (Z.ltb_spec 0 l); simpl; [by rewrite lookup_insert_eq|by rewrite E].
  - rewrite (bool_decide_false (b = a)) by done. simpl.
    assert ((if bool_decide (m !! b = None) && (0 <? l)%Z then <[b:=l]> m else m) !! a = m !! a) as ->; [|done].
    destruct (_ && _); [by rewrite lookup_insert_ne|done].
Qed.

(** ** Paths *)

(** An id that is a segment of its own. *)
Definition plain_id (id : string) : bool := negb (dirty_segment id) && negb (str_has slash id).

Lemma drop_slash s : str_has slash s = false -> drop_while is_slash s = s.
Proof.
  destruct s as [|c s]; [done|]. simpl. intros [H _]%orb_false_iff. unfold is_slash.
  apply bool_decide_eq_false in H. by rewrite bool_decide_false by congruence.
Qed.

Lemma drop_slash_app a b : a <> "" -> str_has slash a = false -> drop_while is_slash (a +:+ b) = a +:+ b.
Proof.
  destruct a as [|c a]; [done|]. intros _. simpl. intros [H _]%orb_false_iff. unfold is_slash.
  apply bool_decide_eq_false in H. by rewrite bool_decide_false by congruence.
Qed.

Lemma str_has_rev c s : str_has c (String.rev s) = str_has c s.
Proof.
  induction s as [|d s IH]; [done|]. rewrite rev_cons, str_has_app, IH. simpl. rewrite orb_false_r. apply orb_comm.
Qed.

Lemma trim_slash_app a b : b <> "" -> str_has slash b = false -> trim_right is_slash (a +:+ b) = a +:+ b.
Proof.
  intros Hb Hs. unfold trim_right. rewrite Text.rev_app_distr, drop_slash_app.
  - by rewrite <- Text.rev_app_distr, rev_rev.
  - intros H. apply Hb. by rewrite <- (rev_rev b), H.
  - by rewrite str_has_rev.
Qed.

Definition whole (s : string) : Prop := s <> "" /\ str_has slash s = false.

Lemma plain_whole id : plain_id id = true -> whole id.
Proof.
  unfold plain_id, dirty_segment. rewrite andb_true_iff, !negb_true_iff, !orb_false_iff, is_empty_false. by intros [[[? _] _] ?].
Qed.

Lemma split_join_whole l : l <> [] -> Forall whole l -> split_on slash (str_join "/" l) = l.
Proof.
  induction l as [|s l IH]; [done|]. intros _ [[Hs Hf] Hl]%Forall_cons. destruct l as [|t l]; [by apply split_on_fresh|].
  change (str_join "/" (s :: t :: l)) with (s +:+ String slash (str_join "/" (t :: l))).
  rewrite split_on_cons by done. by rewrite IH.
Qed.

Lemma join_last l s : exists a, str_join "/" (l ++ [s]) = a +:+ s.
Proof.
  induction l as [|t l [a IH]]; [by exists ""|]. simpl app. destruct (l ++ [s]) as [|u r] eqn:E; [by destruct l|].
  change (str_join "/" (t :: u :: r)) with (t +:+ "/" +:+ str_join "/" (u :: r)). rewrite IH.
  exists (t +:+ "/" +:+ a). by rewrite !append_assoc.
Qed.

Lemma join_head s l : exists b, str_join "/" (s :: l) = s +:+ b.
Proof. destruct l; [exists ""; by rewrite append_empty|by eexists]. Qed.

(** The handlers see the segments the client wrote. *)
Lemma parts_of_whole l : l <> [] -> Forall whole l -> parts_of l = l.
Proof.
  intros Hn Hl. unfold parts_of. destruct l as [|s l]; [done|].
  assert (drop_while is_slash (str_join "/" (s :: l)) = str_join "/" (s :: l)) as ->.
  { destruct (join_head s l) as [b ->]. apply Forall_cons in Hl as [[? ?] _]. by apply drop_slash_app. }
  assert (trim_right is_slash (str_join "/" (s :: l)) = str_join "/" (s :: l)) as ->.
  { destruct (exists_last Hn) as (l' & t & E). rewrite E in *. destruct (join_last l' t) as [a ->].
    apply Forall_app in Hl as [_ [[? ?] _]%Forall_cons]. by apply trim_slash_app. }
  by apply split_join_whole.
Qed.

Lemma clean_path p : Forall (fun s => dirty_segment s = false) p -> dirty_path p = false.
Proof.
  intros H. unfold dirty_path. apply orb_false_iff. split.
  - apply not_true_iff_false. rewrite existsb_elem. intros (s & Hs & Hd).
    assert (s ∈ p) as Hp. { apply list_elem_of_In. apply list_elem_of_In in Hs. clear -Hs. induction p as [|x p IH]; [done|].
      simpl in Hs. destruct p; [done|]. destruct Hs as [->|Hs]; [by left|right; auto]. }
    rewrite Forall_forall in H. by rewrite H in Hd.
  - destruct (decide (p = [])) as [->|Hn]; [done|]. destruct (exists_last Hn) as (l & s & ->). rewrite List.last_last.
    apply Forall_app in H as [_ [H _]%Forall_cons]. unfold dirty_segment in H. apply orb_false_iff in H as [H1 H2].
    apply orb_false_iff in H1 as [_ H1]. by rewrite H1, H2.
Qed.

(** ** What a request does to the store *)

Section served.
Context {RT : GoRuntime} {QW : QueueWire} `{!Sorter claim_order, !Sorter newest_first}.
Context {X : Type} (s : Server X).

Definition authenticated (rq : Request) : Prop :=
  trim_space (sv_Token _ s) <> "" /\ trim_prefix "Bearer " (rq_Auth rq) = sv_Token _ s.

(** A POST below "/workers/" or "/jobs/" whose path has these parts. *)
Definition posts_worker (rq : Request) (parts : list string) : Prop :=
  rq_Method rq = "POST" /\ exists rest, mux_route (rq_Path rq) = RWorker rest /\ parts_of rest = parts.
Definition posts_job (rq : Request) (parts : list string) : Prop :=
  rq_Method rq = "POST" /\ exists rest, mux_route (rq_Path rq) = RJob rest /\ parts_of rest = parts.

(** The operation a request names, with the clock of the server. The lease, the
    timeout and the limits of a claim are the server's; the extension of a lease is
    what the body of its heartbeat says. *)
Inductive remote_op (env : Env) (rq : Request) : Op -> Prop :=
  | RO_register w :
      rq_Method rq = "POST" -> mux_route (rq_Path rq) = RRegister ->
      decode_body (fun b => read_worker b zero_worker) (rq_Body rq) = Some w -> w_ProtocolVersion w = WorkerProtocolVersion ->
      remote_op env rq (ORegisterWorker (e_now env) w)
  | RO_beat id ready draining :
      posts_worker rq [id; "heartbeat"] -> decode_body read_flags (rq_Body rq) = Some (ready, draining) ->
      remote_op env rq (OHeartbeatWorker (e_now env) (e_again env) id ready)
  | RO_drain id ready draining :
      posts_worker rq [id; "drain"] -> decode_body read_flags (rq_Body rq) = Some (ready, draining) ->
      remote_op env rq (OSetWorkerDrain (e_now env) id draining)
  | RO_claim id :
      rq_Method rq = "POST" -> mux_route (rq_Path rq) = RClaim -> decode_body read_worker_id (rq_Body rq) = Some id ->
      remote_op env rq (OClaim (e_claim env)
        {| cr_WorkerID := id; cr_LeaseDuration := sv_LeaseDuration _ s; cr_WorkerTimeout := sv_WorkerTimeout _ s;
           cr_Policy := sv_Policy _ s |})
  | RO_lease j a token ext res :
      posts_job rq [j; "attempts"; a; "heartbeat"] -> decode_body read_attempt (rq_Body rq) = Some (token, ext, res) ->
      remote_op env rq (OHeartbeat (e_now env) (e_again env) j a token ext)
  | RO_finish j a token ext res :
      posts_job rq [j; "attempts"; a; "finish"] -> decode_body read_attempt (rq_Body rq) = Some (token, ext, res) ->
      remote_op env rq (OFinish (e_now env) j a token res)
  | RO_cancel j : posts_job rq [j; "cancel"] -> remote_op env rq (ORequestCancel (e_now env) j).

(** A job settles when its finish was committed and left it in a terminal state. *)
Definition settles_job (env : Env) (op : Op) (db db' : DB) (x x' : X) : Prop :=
  exists f j a t res job, op = OFinish (e_now env) j a t res /\ finish (e_now env) j a t res db = Ok db'
    /\ sv_OnTerminal _ s = Some f /\ GetJob j db' = Ok job /\ terminal_state (j_State job) = true /\ x' = (f job x).2.

Definition served (env : Env) (rq : Request) (st st' : DB * X) : Prop :=
  st' = st \/ exists op, remote_op env rq op /\ st'.1 = exec op st.1
              /\ (st'.2 = st.2 \/ settles_job env op st.1 st'.1 st.2 st'.2).

Lemma served_same env rq st : served env rq st st.
Proof. by left. Qed.

Lemma served_op env rq op (st : DB * X) db' :
  remote_op env rq op -> db' = exec op st.1 -> served env rq st (db', st.2).
Proof. intros Ho ->. right. exists op. auto. Qed.

Hint Resolve served_same : apiary.

Lemma acknowledge_state db res : (acknowledge db res).2 = commit_db db res.
Proof. by destruct res. Qed.

Lemma answer_state {A} (f : A -> Response) db res : (answer f db res).2 = commit db res.
Proof. by destruct res as [[]|]. Qed.

Lemma on_store_state (f : DB -> Response * DB) (st : DB * X) : (on_store f st).2 = ((f st.1).2, st.2).
Proof. unfold on_store. by destruct (f st.1). Qed.

Lemma serve_register_served env rq st :
  mux_route (rq_Path rq) = RRegister -> served env rq st ((serve_register env rq st.1).2, st.2).
Proof.
  intros Hm. destruct st as [db x]. unfold serve_register. case_bool_decide as Hp; simpl; [|apply served_same].
  destruct (decode_body _ _) as [w|] eqn:Ed; [|apply served_same].
  destruct (Z.eqb_spec (w_ProtocolVersion w) WorkerProtocolVersion); simpl; [|apply served_same].
  rewrite answer_state. apply (served_op env rq (ORegisterWorker (e_now env) w) (db, x)); [by apply RO_register|done].
Qed.

Lemma serve_worker_served env rest rq st :
  mux_route (rq_Path rq) = RWorker rest -> served env rq st ((serve_worker env rest rq st.1).2, st.2).
Proof.
  intros Hm. destruct st as [db x]. unfold serve_worker. destruct (parts_of rest) as [|id [|action [|]]] eqn:Hr; simpl; try apply served_same.
  - destruct (_ && _); [case_match|]; apply served_same.
  - case_bool_decide as Hp; simpl; [|apply served_same]. destruct (decode_body _ _) as [[ready draining]|] eqn:Ed; [|apply served_same].
    repeat case_bool_decide; subst; [..|apply served_same]; rewrite acknowledge_state.
    + apply (served_op env rq (OHeartbeatWorker (e_now env) (e_again env) id ready) (db, x)); [|done].
      eapply RO_beat; [|done]. split; [done|by exists rest].
    + apply (served_op env rq (OSetWorkerDrain (e_now env) id draining) (db, x)); [|done].
      eapply RO_drain; [|done]. split; [done|by exists rest].
Qed.

Lemma serve_claim_served env rq st : mux_route (rq_Path rq) = RClaim -> served env rq st ((serve_claim s env rq st.1).2, st.2).
Proof.
  intros Hm. destruct st as [db x]. unfold serve_claim. case_bool_decide as Hp; simpl; [|apply served_same].
  destruct (decode_body _ _) as [id|] eqn:Ed; [|apply served_same]. simpl.
  destruct (claim (e_claim env) (server_request s id) db) as [[c db']|e] eqn:E.
  - apply (served_op env rq (OClaim (e_claim env) (server_request s id)) (db, x)); [by apply RO_claim|]. simpl. by rewrite E.
  - destruct e; apply served_same.
Qed.

Lemma serve_attempt_served env j a action rq st :
  posts_job rq [j; "attempts"; a; action] -> served env rq st (serve_attempt s env j a action rq st).2.
Proof.
  intros Hm. destruct st as [db x]. unfold serve_attempt. destruct (decode_body _ _) as [[[t ext] res]|] eqn:Ed; [|apply served_same].
  case_bool_decide; [|case_bool_decide; [|apply served_same]]; subst.
  - destruct (answer _ db _) as [r db'] eqn:E. apply (f_equal snd) in E. rewrite answer_state in E. simpl in E. subst db'.
    apply (served_op env rq (OHeartbeat (e_now env) (e_again env) j a t ext) (db, x)); [by eapply RO_lease|done].
  - assert (remote_op env rq (OFinish (e_now env) j a t res)) as Ho by (by eapply RO_finish).
    destruct (finish _ _ _ _ _ _) as [db'|e] eqn:E; [|apply served_same].
    assert (db' = exec (OFinish (e_now env) j a t res) db) as Hdb by (simpl; by rewrite E).
    assert (served env rq (db, x) (db', x)) as Hs by (by apply (served_op env rq (OFinish (e_now env) j a t res) (db, x))).
    unfold after_finish. destruct (sv_OnTerminal _ s) as [f|] eqn:Ef; [|done].
    destruct (GetJob j db') as [job|] eqn:Ej; [|done]. destruct (terminal_state _) eqn:Et; [|done].
    destruct (f job x) as [ok x'] eqn:Efx. right. exists (OFinish (e_now env) j a t res). split; [done|].
    split; [done|]. right. exists f, j, a, t, res, job. split_and!; try done. simpl. by rewrite Efx.
Qed.

Lemma serve_job_served env rest rq st : mux_route (rq_Path rq) = RJob rest -> served env rq st (serve_job s env rest rq st).2.
Proof.
  intros Hm. destruct st as [db x]. unfold serve_job.
  destruct (parts_of rest) as [|id [|b [|c [|d [|]]]]] eqn:Hr; cbv beta iota; try apply served_same.
  - case_match; apply served_same.
  - destruct (_ && _) eqn:Hb; [|apply served_same]. apply andb_true_iff in Hb as [->%bool_decide_eq_true Hp%bool_decide_eq_true].
    destruct (acknowledge db _) as [r db'] eqn:E. apply (f_equal snd) in E. rewrite acknowledge_state in E. simpl in E. subst db'.
    apply (served_op env rq (ORequestCancel (e_now env) id) (db, x)); [|done]. apply RO_cancel. split; [done|by exists rest].
  - destruct (_ && _) eqn:Hb; [|apply served_same]. apply andb_true_iff in Hb as [->%bool_decide_eq_true Hp%bool_decide_eq_true].
    apply serve_attempt_served. split; [done|by exists rest].
Qed.

(** C39: no request without the server's token changes anything; one with it runs at
    most the one operation of the store that its method, path and body name, with the
    server's clock, and never an enqueue, a bulk cancellation, a release or a reclaim.
    The lease, the timeout and the limits of a claim are the server's own; how far a
    heartbeat extends its lease is what the request says. The state that settling works
    on changes only with the commit of a finish that ended its job, by settling that
    job. *)
Theorem requests_confined env rq st :
  served env rq st (serve s env rq st).2 /\ ((serve s env rq st).2 <> st -> authenticated rq).
Proof.
  unfold serve, authenticated. destruct (is_empty _) eqn:Et; [split; [apply served_same|done]|].
  apply is_empty_false in Et. case_bool_decide; simpl; [|split; [apply served_same|done]]. split; [|done].
  unfold serve_mux. destruct (mux_route _) eqn:Em; rewrite ?on_store_state; auto using serve_register_served, serve_worker_served,
    serve_claim_served, serve_job_served with apiary; destruct st; unfold serve_jobs; try case_match; apply served_same.
Qed.
End served.

(** ** Calls of the client *)

(** An error of the store as the client sees it: the sentinel is gone. *)
Definition refused (e : QueueError) : ClientError :=
  Refused match e with
          | ErrStaleClaim | ErrWorkerUnknown => 409
          | ErrWorkerDraining | ErrWorkerUnhealthy => 503
          | _ => 500
          end (MQueue e).

Definition remote_result {A} (r : result QueueError A) : result ClientError A :=
  match r with Ok a => Ok a | Err e => Err (refused e) end.

Definition done_or {A} (r : result QueueError A) : result ClientError unit :=
  match r with Ok _ => Ok tt | Err e => Err (refused e) end.

(** What the caller gets of a call whose answer is [r] and that leads from [st] to
    [st'], on a network with a fault. *)
Definition over_net {A S} (f : Fault) (r : result ClientError A) (st st' : S) : option (result ClientError A * S) :=
  Some match f with
       | Delivered => (r, st')
       | RequestLost => (Err Unreachable, st)
       | ResponseLost => (Err Unreachable, st')
       end.

Section calls.
Context {RT : GoRuntime} {QW : QueueWire} `{!Sorter claim_order, !Sorter newest_first}.
Context {X : Type} (s : Server X) (env : Env).
Context (token_set : trim_space (sv_Token _ s) <> "") (token_tight : tight ("Bearer " +:+ sv_Token _ s)).

Notation srv := (serve s env).
Notation tok := (sv_Token _ s).

Definition in_limit (w : Wire) : Prop := (wire_size w <= 4 * 2 ^ 20)%Z.

Lemma decode_in_limit {A} (read : Wire -> option A) w a : in_limit w -> read w = Some a -> decode_body read (Some w) = Some a.
Proof.
  intros Hf Hr. unfold decode_body. rsimpl. unfold in_limit in Hf. destruct (Z.ltb_spec (4 * 2 ^ 20) (wire_size w)); [lia|done].
Qed.

(** What a handler answers, as the value [do] returns. *)
Definition returned (r : Response) : result ClientError (Z * option Wire) :=
  match r with Json n w => Ok (n, w) | Error n msg => Err (Refused n msg) | Redirect => Err Unreachable end.

Definition sent (m : string) (p : list string) (q : string * Z) (b : option Wire) : Request :=
  {| rq_Method := m; rq_Path := p; rq_Auth := "Bearer " +:+ tok; rq_Query := q; rq_Body := b |}.

(** A request with the token reaches its handler. *)
Lemma client_do_served f m p q b st r st' :
  serve_mux s env (sent m p q b) st = (r, st') -> r <> Redirect ->
  client_do srv tok f m p q b st = over_net f (returned r) st st'.
Proof.
  intros Hs Hr. unfold client_do, serve. rewrite (trim_tight _ token_tight). fold (sent m p q b).
  rewrite (proj2 (is_empty_false _) token_set). cbn [rq_Auth sent].
  assert (trim_prefix "Bearer " ("Bearer " +:+ tok) = tok) as -> by (unfold trim_prefix; by rewrite strip_prefix_app).
  rewrite (bool_decide_true (tok = tok)) by done. cbn [negb]. rewrite Hs. destruct f; simpl; try done. by destruct r.
Qed.

Lemma over_net_reply {A B} f (r : result ClientError A) (k : result ClientError A -> result ClientError B) (st st' : DB * X) :
  k (Err Unreachable) = Err Unreachable -> client_reply k (over_net f r st st') = over_net f (k r) st st'.
Proof. intros Hk. by destruct f; simpl; rewrite ?Hk. Qed.

Lemma client_simple_served f p b st r st' :
  serve_mux s env (sent "POST" p no_query (Some b)) st = (r, st') -> r <> Redirect ->
  client_simple srv tok f p b st = over_net f (match returned r with Ok _ => Ok tt | Err e => Err e end) st st'.
Proof.
  intros H Hr. unfold client_simple. rewrite (client_do_served _ _ _ _ _ _ _ _ H Hr), over_net_reply by done.
  by destruct (returned r).
Qed.

(** Where the paths of the client lead. *)
Lemma plain_clean id : plain_id id = true -> dirty_segment id = false.
Proof. unfold plain_id. rewrite andb_true_iff, negb_true_iff. by intros [? _]. Qed.

Lemma route_worker id a : plain_id id = true -> plain_id a = true -> mux_route ["workers"; id; a] = RWorker [id; a].
Proof.
  intros Hi Ha. unfold mux_route. rewrite clean_path by (repeat constructor; auto using plain_clean).
  by rewrite (bool_decide_false ([id; a] = _)) by done.
Qed.

Lemma route_job rest : rest <> [] -> Forall (fun x => plain_id x = true) rest -> mux_route ("jobs" :: rest) = RJob rest.
Proof.
  intros Hn H. unfold mux_route. rewrite clean_path; [by destruct rest|].
  constructor; [done|]. eapply Forall_impl; [exact H|]. apply plain_clean.
Qed.

Lemma parts_plain rest : rest <> [] -> Forall (fun x => plain_id x = true) rest -> parts_of rest = rest.
Proof. intros Hn H. apply parts_of_whole; [done|]. eapply Forall_impl; [exact H|]. apply plain_whole. Qed.

(** A handler that acknowledges. *)
Lemma acknowledged db res r db' :
  acknowledge db res = (r, db') ->
  r <> Redirect /\ match returned r with Ok _ => Ok tt | Err e => Err e end = done_or res /\ commit_db db res = db'.
Proof. by destruct res; intros [= <- <-]. Qed.

Lemma client_beat_exact f id ready st : plain_id id = true -> in_limit (json_ready ready) ->
  client_HeartbeatWorker srv tok f id ready st
  = over_net f (done_or (HeartbeatWorker (e_now env) (e_again env) id ready st.1)) st
      (exec (OHeartbeatWorker (e_now env) (e_again env) id ready) st.1, st.2).
Proof.
  intros Hi Hf. destruct st as [db x]. unfold client_HeartbeatWorker.
  destruct (acknowledge db (HeartbeatWorker (e_now env) (e_again env) id ready db)) as [r db'] eqn:E.
  destruct (acknowledged db _ _ _ E) as (Hr & Ha & Hdb). simpl. rewrite <- Ha, Hdb.
  apply client_simple_served; [|done]. unfold serve_mux. cbn [rq_Path sent]. rewrite route_worker by done.
  unfold on_store, serve_worker. rewrite parts_plain by (repeat constructor; done). cbn [rq_Method rq_Body sent].
  rewrite (bool_decide_true ("POST" = _)) by done. cbn [negb fst snd].
  rewrite (decode_in_limit read_flags _ _ Hf (ready_read ready)), (bool_decide_true ("heartbeat" = _)) by done. by rewrite E.
Qed.

Lemma client_drain_exact f id b st : plain_id id = true -> in_limit (json_draining b) ->
  client_SetWorkerDrain srv tok f id b st
  = over_net f (done_or (SetWorkerDrain (e_now env) id b st.1)) st (exec (OSetWorkerDrain (e_now env) id b) st.1, st.2).
Proof.
  intros Hi Hf. destruct st as [db x]. unfold client_SetWorkerDrain.
  destruct (acknowledge db (SetWorkerDrain (e_now env) id b db)) as [r db'] eqn:E.
  destruct (acknowledged db _ _ _ E) as (Hr & Ha & Hdb). simpl. rewrite <- Ha, Hdb.
  apply client_simple_served; [|done]. unfold serve_mux. cbn [rq_Path sent]. rewrite route_worker by done.
  unfold on_store, serve_worker. rewrite parts_plain by (repeat constructor; done). cbn [rq_Method rq_Body sent].
  rewrite (bool_decide_true ("POST" = _)) by done. cbn [negb fst snd].
  rewrite (decode_in_limit read_flags _ _ Hf (draining_read b)), (bool_decide_false ("drain" = _)), bool_decide_true by done. by rewrite E.
Qed.

Lemma client_cancel_exact f id st : plain_id id = true ->
  client_RequestCancel srv tok f id st
  = over_net f (done_or (RequestCancel (e_now env) id st.1)) st (exec (ORequestCancel (e_now env) id) st.1, st.2).
Proof.
  intros Hi. destruct st as [db x]. unfold client_RequestCancel.
  destruct (acknowledge db (RequestCancel (e_now env) id db)) as [r db'] eqn:E.
  destruct (acknowledged db _ _ _ E) as (Hr & Ha & Hdb). simpl. rewrite <- Ha, Hdb.
  apply client_simple_served; [|done]. unfold serve_mux. cbn [rq_Path sent]. rewrite route_job by (repeat constructor; done).
  unfold serve_job. rewrite parts_plain by (repeat constructor; done). cbn [rq_Method sent].
  rewrite !bool_decide_true by done. cbn [andb]. by rewrite E.
Qed.
(** The calls that read a value out of the response. *)
Lemma client_read_served {A} (read : Wire -> option A) f m p q b st r st' :
  serve_mux s env (sent m p q b) st = (r, st') -> r <> Redirect ->
  client_reply (client_read read) (client_do srv tok f m p q b st) = over_net f (client_read read (returned r)) st st'.
Proof. intros H Hr. by rewrite (client_do_served _ _ _ _ _ _ _ _ H Hr), over_net_reply. Qed.

Lemma client_lease_exact f j a t ext st :
  Forall (fun x => plain_id x = true) [j; a] -> carries t = true -> in_limit (json_extension t ext) ->
  client_Heartbeat srv tok f j a t ext st
  = over_net f (remote_result (fst <$> heartbeat (e_now env) (e_again env) j a t ext st.1)) st
      (exec (OHeartbeat (e_now env) (e_again env) j a t ext) st.1, st.2).
Proof.
  intros Hp Ht Hf. destruct st as [db x]. unfold client_Heartbeat.
  assert (Forall (fun x => plain_id x = true) [j; "attempts"; a; "heartbeat"]) as Hp'.
  { apply Forall_cons in Hp as [? [? _]%Forall_cons]. repeat constructor; done. }
  destruct (heartbeat (e_now env) (e_again env) j a t ext db) as [[hr db']|e] eqn:E; simpl; rewrite E; simpl;
    erewrite (client_read_served read_lease) with (st' := (_, x));
    try (unfold serve_mux; cbn [rq_Path sent]; rewrite route_job by done; unfold serve_job; rewrite parts_plain by done;
         cbn [rq_Method sent]; rewrite !bool_decide_true by done; cbn [andb]; unfold serve_attempt; cbn [rq_Body sent];
         rewrite (decode_in_limit read_attempt _ _ Hf (extension_read t ext Ht)), bool_decide_true by done; rewrite E; reflexivity);
    try done.
  simpl. by rewrite lease_read.
Qed.

Lemma client_register_exact f w st :
  w_ProtocolVersion w = WorkerProtocolVersion -> forallb carries (worker_texts w) = true -> in_limit (json_worker w) ->
  client_RegisterWorker srv tok f w st
  = over_net f (remote_result (fst <$> RegisterWorker (e_now env) w st.1)) st (exec (ORegisterWorker (e_now env) w) st.1, st.2).
Proof.
  intros Hv Ht Hf. destruct st as [db x]. unfold client_RegisterWorker.
  assert (worker_over w zero_worker = w) as Hz.
  { destruct w as [id v pool labels caps]; unfold worker_over; cbn. f_equal; [|by destruct labels|by destruct caps].
    destruct (is_empty pool) eqn:Ep; [|done]. by apply is_empty_true in Ep. }
  pose proof (worker_read w zero_worker Ht) as Hr. rewrite Hz in Hr.
  destruct (RegisterWorker (e_now env) w db) as [[w' db']|e] eqn:E; simpl; rewrite E; simpl;
    erewrite client_read_served with (st' := (_, x));
    try (unfold serve_mux; cbn [rq_Path sent]; change (mux_route ["workers"; "register"]) with RRegister; cbv iota;
         unfold on_store, serve_register; cbn [rq_Method rq_Body sent fst snd]; rewrite bool_decide_true by done; cbn [negb];
         rewrite (decode_in_limit (fun w => read_worker w zero_worker) _ _ Hf Hr), Hv, Z.eqb_refl; cbn [negb]; rewrite E; reflexivity);
    try done.
  unfold RegisterWorker in E. destruct (is_empty _); [done|]. destruct (negb _); [done|]. destruct (_ <=? _)%Z; [done|].
  injection E as <- _. unfold client_read, returned. rsimpl. rewrite worker_read by done.
  do 2 f_equal. unfold worker_over; cbn. repeat case_match; done.
Qed.

(** The claim as its reader has it: raw JSON was compacted. *)
Definition read_back (c : Claim) : Claim :=
  {| c_Job := with_payload (compact (j_Payload (c_Job c))) (c_Job c); c_Attempt := c_Attempt c |}.

Lemma client_claim_exact f req st :
  carries (cr_WorkerID req) = true -> in_limit (json_worker_id (cr_WorkerID req)) ->
  (forall c db', claim (e_claim env) (server_request s (cr_WorkerID req)) st.1 = Ok (c, db') ->
     json_valid (j_Payload (c_Job c)) = true /\ forallb carries (claim_texts c) = true) ->
  client_Claim srv tok f req st
  = over_net f (match claim (e_claim env) (server_request s (cr_WorkerID req)) st.1 with
                | Ok (c, _) => Ok (read_back c)
                | Err ErrNoJob => Err NoJob
                | Err e => Err (refused e)
                end) st (exec (OClaim (e_claim env) (server_request s (cr_WorkerID req))) st.1, st.2).
Proof.
  intros Hc Hf Hok. destruct st as [db x]. unfold client_Claim. simpl in *.
  assert (serve_mux s env (sent "POST" ["claim"] no_query (Some (json_worker_id (cr_WorkerID req)))) (db, x)
          = match claim (e_claim env) (server_request s (cr_WorkerID req)) db with
            | Ok (c, db') => (Json 200 (json_claim c), (db', x))
            | Err ErrNoJob => (Json 204 None, (db, x))
            | Err e => (writeError e, (db, x))
            end) as Hs.
  { unfold serve_mux. cbn [rq_Path sent]. change (mux_route ["claim"]) with RClaim. cbv iota.
    unfold on_store, serve_claim. cbn [rq_Method rq_Body sent fst snd]. rewrite bool_decide_true by done. cbn [negb].
    rewrite (decode_in_limit read_worker_id _ _ Hf (worker_id_read _ Hc)).
    destruct (claim _ _ _) as [[]|e]; [done|by destruct e]. }
  destruct (claim _ _ _) as [[c db']|e] eqn:E; simpl.
  - destruct (Hok _ _ eq_refl) as [Hv Ht]. destruct (claim_read c Hv Ht) as (w & Hj & Hw). rewrite Hj in Hs.
    rewrite (client_do_served _ _ _ _ _ _ _ _ Hs), over_net_reply by done. simpl. by rewrite Hw.
  - destruct e; rewrite (client_do_served _ _ _ _ _ _ _ _ Hs), over_net_reply by done; done.
Qed.
Lemma client_finish_exact f j a t res st :
  Forall (fun x => plain_id x = true) [j; a] -> forallb carries [t; fr_Error res; fr_Note res] = true ->
  in_limit (json_finish t res) ->
  client_Finish srv tok f j a t res st
  = match finish (e_now env) j a t res st.1 with
    | Err e => over_net f (Err (refused e)) st st
    | Ok db' =>
        let '(r, x') := after_finish s j db' st.2 in
        over_net f (match returned r with Ok _ => Ok tt | Err e => Err e end) st (db', x')
    end.
Proof.
  intros Hp Ht Hf. destruct st as [db x]. unfold client_Finish. cbn [fst snd].
  assert (Forall (fun x => plain_id x = true) [j; "attempts"; a; "finish"]) as Hp'.
  { apply Forall_cons in Hp as [? [? _]%Forall_cons]. repeat constructor; done. }
  assert (serve_mux s env (sent "POST" ["jobs"; j; "attempts"; a; "finish"] no_query (Some (json_finish t res))) (db, x)
          = match finish (e_now env) j a t res db with
            | Err e => (writeError e, (db, x))
            | Ok db' => let '(r, x') := after_finish s j db' x in (r, (db', x'))
            end) as Hs.
  { unfold serve_mux. cbn [rq_Path sent]. rewrite route_job by done. unfold serve_job. rewrite parts_plain by done.
    cbn [rq_Method sent]. rewrite !bool_decide_true by done. cbn [andb]. unfold serve_attempt. cbn [rq_Body sent].
    by rewrite (decode_in_limit read_attempt _ _ Hf (finish_read t res Ht)), (bool_decide_false ("finish" = _)), bool_decide_true by done. }
  destruct (finish _ _ _ _ _ _) as [db'|e]; [|by rewrite (client_simple_served _ _ _ _ _ _ Hs)].
  destruct (after_finish s j db' x) as [r x'] eqn:Ea. rewrite (client_simple_served _ _ _ _ _ _ Hs); [done|].
  unfold after_finish in Ea. repeat case_match; by simplify_eq.
Qed.

(** A finish that was committed left its job in the table. *)
Lemma finish_keeps_job now j a t res db db' : finish now j a t res db = Ok db' -> exists job, GetJob j db' = Ok job.
Proof.
  unfold finish. destruct (dispatch_jobs db !! j) as [r|] eqn:Hr; [|done]. destruct (_ && _); [|done].
  destruct (finish_outcome _ _ _ _ _) as [[aS jS] av]. intros [= <-]. unfold GetJob, release_worker. cbn -[update_at].
  match goal with |- context [update_at j ?p ?f ?m] => destruct (update_at_spec j p f m) as [(r' & _ & _ & ->)|[_ ->]] end; cbn.
  - rewrite lookup_insert_eq. by eexists.
  - rewrite Hr. by eexists.
Qed.

(** The job that a settlement runs on, once a finish was committed. *)
Definition ended_job (j : string) (db : DB) : option Job :=
  r ← dispatch_jobs db !! j; if terminal_state (jr_state r) then Some (scanJob r) else None.

Lemma ended_job_spec j db job : GetJob j db = Ok job -> ended_job j db = if terminal_state (j_State job) then Some job else None.
Proof. unfold GetJob, ended_job. destruct (dispatch_jobs db !! j) as [r|]; [|done]. by intros [= <-]. Qed.

(** What the caller of a finish gets, and the settled state. *)
Definition finish_answer (j a t : string) (res : FinishResult) (st : DB * X) : result ClientError unit * X :=
  match finish (e_now env) j a t res st.1 with
  | Err e => (Err (refused e), st.2)
  | Ok db' =>
      match sv_OnTerminal _ s, ended_job j db' with
      | Some settle, Some job =>
          (if (settle job st.2).1 then Ok tt else Err (Refused 500 MTerminal), (settle job st.2).2)
      | _, _ => (Ok tt, st.2)
      end
  end.

Lemma client_finish_settled f j a t res st :
  Forall (fun x => plain_id x = true) [j; a] -> forallb carries [t; fr_Error res; fr_Note res] = true ->
  in_limit (json_finish t res) ->
  client_Finish srv tok f j a t res st
  = over_net f (finish_answer j a t res st).1 st (exec (OFinish (e_now env) j a t res) st.1, (finish_answer j a t res st).2).
Proof.
  intros Hp Ht Hf. rewrite client_finish_exact by done. destruct st as [db x]. unfold finish_answer. cbn [exec fst snd].
  destruct (finish (e_now env) j a t res db) as [db'|e] eqn:E; cbn [commit_db fst snd]; [|done].
  destruct (finish_keeps_job _ _ _ _ _ _ _ E) as [job Hj]. rewrite (ended_job_spec _ _ _ Hj). unfold after_finish. rewrite Hj.
  destruct (sv_OnTerminal _ s) as [settle|]; [|done]. destruct (terminal_state _); [|done].
  by destruct (settle job x) as [[] x'].
Qed.

(** C38: what a remote worker does with its store. Its six calls and its cancel, on ids
    that are segments of a path, with texts that JSON carries, payloads that are JSON
    and bodies within the limit of the server, leave the store behind the server as the operation
    they stand for does, whatever it answers, or as it was when the request got lost;
    when nothing gets lost the caller has the operation's answer, up to the identity
    of errors and the spacing of payloads, with these exceptions: a claim is made with
    the server's lease, timeout and limits, not the caller's; a finish that was
    committed and ended its job settles it, and is refused, though committed, when
    that fails; and [ReclaimExpired] asks nobody and answers that it reclaimed
    nothing. *)
Theorem remote_store_refines f st :
  (forall w, w_ProtocolVersion w = WorkerProtocolVersion -> forallb carries (worker_texts w) = true -> in_limit (json_worker w) ->
     client_RegisterWorker srv tok f w st
     = over_net f (remote_result (fst <$> RegisterWorker (e_now env) w st.1)) st (exec (ORegisterWorker (e_now env) w) st.1, st.2))
  /\ (forall id ready, plain_id id = true -> in_limit (json_ready ready) ->
     client_HeartbeatWorker srv tok f id ready st
     = over_net f (done_or (HeartbeatWorker (e_now env) (e_again env) id ready st.1)) st
         (exec (OHeartbeatWorker (e_now env) (e_again env) id ready) st.1, st.2))
  /\ (forall id b, plain_id id = true -> in_limit (json_draining b) ->
     client_SetWorkerDrain srv tok f id b st
     = over_net f (done_or (SetWorkerDrain (e_now env) id b st.1)) st (exec (OSetWorkerDrain (e_now env) id b) st.1, st.2))
  /\ (forall req, carries (cr_WorkerID req) = true -> in_limit (json_worker_id (cr_WorkerID req)) ->
     (forall c db', claim (e_claim env) (server_request s (cr_WorkerID req)) st.1 = Ok (c, db') ->
        json_valid (j_Payload (c_Job c)) = true /\ forallb carries (claim_texts c) = true) ->
     client_Claim srv tok f req st
     = over_net f (match claim (e_claim env) (server_request s (cr_WorkerID req)) st.1 with
                   | Ok (c, _) => Ok (read_back c)
                   | Err ErrNoJob => Err NoJob
                   | Err e => Err (refused e)
                   end) st (exec (OClaim (e_claim env) (server_request s (cr_WorkerID req))) st.1, st.2))
  /\ (forall j a t ext, Forall (fun x => plain_id x = true) [j; a] -> carries t = true -> in_limit (json_extension t ext) ->
     client_Heartbeat srv tok f j a t ext st
     = over_net f (remote_result (fst <$> heartbeat (e_now env) (e_again env) j a t ext st.1)) st
         (exec (OHeartbeat (e_now env) (e_again env) j a t ext) st.1, st.2))
  /\ (forall j a t res, Forall (fun x => plain_id x = true) [j; a] ->
     forallb carries [t; fr_Error res; fr_Note res] = true -> in_limit (json_finish t res) ->
     client_Finish srv tok f j a t res st
     = over_net f (finish_answer j a t res st).1 st (exec (OFinish (e_now env) j a t res) st.1, (finish_answer j a t res st).2))
  /\ (forall id, plain_id id = true ->
     client_RequestCancel srv tok f id st
     = over_net f (done_or (RequestCancel (e_now env) id st.1)) st (exec (ORequestCancel (e_now env) id) st.1, st.2))
  /\ (forall cutoff, client_ReclaimExpired cutoff st = (Ok 0, st)).
Proof.
  split_and!; intros; [apply client_register_exact|apply client_beat_exact|apply client_drain_exact|apply client_claim_exact
    |apply client_lease_exact|apply client_finish_settled|apply client_cancel_exact|]; done.
Qed.

(** The store answers an unknown id with an error, never with no job: the 404 of the
    server is dead, and the client fails where its contract says nil. *)
Lemma unknown_job_refused id db x :
  plain_id id = true -> dispatch_jobs db !! id = None ->
  client_GetJob srv tok Delivered id (db, x) = Some (Err (Refused 500 (MQueue ErrNoRows)), (db, x)).
Proof.
  intros Hi Hd. unfold client_GetJob.
  rewrite (client_do_served _ _ _ _ _ _ (writeError ErrNoRows) (db, x)); [done| |done].
  unfold serve_mux. cbn [rq_Path sent]. rewrite route_job by (repeat constructor; done).
  unfold serve_job. rewrite parts_plain by (repeat constructor; done). cbn [rq_Method sent]. rewrite bool_decide_true by done.
  unfold GetJob. by rewrite Hd.
Qed.

(** A finish that comes too late is an error like any other to a remote worker. *)
Lemma stale_finish_refused j a t res st :
  Forall (fun x => plain_id x = true) [j; a] -> forallb carries [t; fr_Error res; fr_Note res] = true ->
  in_limit (json_finish t res) -> finish (e_now env) j a t res st.1 = Err ErrStaleClaim ->
  client_Finish srv tok Delivered j a t res st = Some (Err (Refused 409 (MQueue ErrStaleClaim)), st).
Proof.
  intros Hp Hc Hs Hf. rewrite client_finish_exact by done. by rewrite Hf.
Qed.
End calls.

(** ** A concrete wire *)

Inductive Typed :=
  | TWorker (w : Worker) | TReady (b : bool) | TDraining (b : bool) | TWorkerID (id : string)
  | TExtension (t : string) (e : Z) | TFinish (t : string) (r : FinishResult) | TNothing | TOk | THealth (v : Z) (b : bool)
  | TClaim (c : Claim) | TJob (j : Job) | TJobs (l : list Job) | TLease (r : HeartbeatResult).

Definition typed_wire {RT : GoRuntime} : QueueWire.
Proof.
  refine {|
    Wire := Typed; wire_size := fun _ => 100%Z; carries := fun _ => true; compact := fun p => p;
    json_worker := TWorker; json_ready := TReady; json_draining := TDraining; json_worker_id := TWorkerID;
    json_extension := TExtension; json_finish := TFinish; json_nothing := TNothing; json_ok := TOk; json_health := THealth;
    json_claim := fun c => if json_valid (j_Payload (c_Job c)) then Some (TClaim c) else None;
    json_job := fun j => if json_valid (j_Payload j) then Some (TJob j) else None;
    json_jobs := fun l => Some (TJobs l); json_lease := TLease;
    read_worker := fun x old => match x with TWorker w => Some (worker_over w old) | _ => None end;
    read_flags := fun x => match x with TReady b => Some (b, false) | TDraining b => Some (false, b) | _ => None end;
    read_worker_id := fun x => match x with TWorkerID id => Some id | _ => None end;
    read_attempt := fun x => match x with TExtension t e => Some (t, e, zero_result) | TFinish t r => Some (t, 0%Z, r) | _ => None end;
    read_claim := fun x => match x with TClaim c => Some c | _ => None end;
    read_job := fun x => match x with TJob j => Some j | _ => None end;
    read_jobs := fun x => match x with TJobs l => Some l | _ => None end;
    read_lease := fun x => match x with TLease r => Some r | _ => None end |}; try done.
  - intros [j a] Hv _. exists (TClaim {| c_Job := j; c_Attempt := a |}). simpl in *. rewrite Hv. split; [done|]. by destruct j.
  - intros j Hv _. exists (TJob j). rewrite Hv. split; [done|]. by destruct j.
Defined.

(** ** Running the protocol *)

#[local] Instance remote_sorter : Sorter claim_order := merge_sorter claim_order.
#[local] Instance remote_listing : Sorter newest_first := merge_sorter newest_first.
#[local] Instance remote_runtime : GoRuntime := literal_runtime.
#[local] Existing Instance typed_wire.

Definition example_server : Server unit := {|
  sv_Token := "secret"; sv_LeaseDuration := sec 30; sv_WorkerTimeout := sec 30; sv_Policy := example_policy;
  sv_OnTerminal := None |}.

Definition env_of (t : Z) : Env := {|
  e_now := sec t; e_again := sec t;
  e_claim := {| ce_health := sec t; ce_query := sec t; ce_now := sec t; ce_attemptID := "a1"; ce_claimToken := "t1" |} |}.

Lemma secret_tight : tight ("Bearer " +:+ sv_Token _ example_server).
Proof. by split. Qed.

(** Settling fails. *)
Definition unsettling_server : Server unit := {|
  sv_Token := "secret"; sv_LeaseDuration := sec 30; sv_WorkerTimeout := sec 30; sv_Policy := example_policy;
  sv_OnTerminal := Some (fun _ x => (false, x)) |}.

Definition after_claim : DB * unit := (exec (OClaim (e_claim (env_of 10)) (server_request example_server "w")) setup_db, tt).

Definition success : FinishResult := {| fr_Success := true; fr_Error := ""; fr_Note := ""; fr_Retry := false; fr_RetryAt := None |}.

(** The worker's claim, a heartbeat whose response is lost, and a finish that is
    committed and refused. *)
Lemma remote_store_refines_witness :
  client_Claim (serve example_server (env_of 10)) "secret" Delivered example_request (setup_db, tt)
  = Some (match claim (e_claim (env_of 10)) (server_request example_server "w") setup_db with
          | Ok (c, _) => Ok (read_back c)
          | Err ErrNoJob => Err NoJob
          | Err e => Err (refused e)
          end, after_claim)
  /\ client_HeartbeatWorker (serve example_server (env_of 10)) "secret" ResponseLost "w" true (setup_db, tt)
     = Some (Err Unreachable, (exec (OHeartbeatWorker (sec 10) (sec 10) "w" true) setup_db, tt))
  /\ client_Finish (serve unsettling_server (env_of 11)) "secret" Delivered "j1" "a1" "t1" success after_claim
     = Some (Err (Refused 500 MTerminal), (exec (OFinish (sec 11) "j1" "a1" "t1" success) after_claim.1, tt))
  /\ j_State <$> ended_job "j1" (exec (OFinish (sec 11) "j1" "a1" "t1" success) after_claim.1) = Some JobSucceeded.
Proof.
  assert (trim_space (sv_Token _ example_server) <> "") as Ht by done.
  split; [|split; [|split]].
  - destruct (remote_store_refines example_server (env_of 10) Ht secret_tight Delivered (setup_db, tt))
      as (_ & _ & _ & H & _). apply (H example_request); [reflexivity|by unfold in_limit|].
    intros c db' Hc. vm_compute in Hc. injection Hc as <- _. split; reflexivity.
  - destruct (remote_store_refines example_server (env_of 10) Ht secret_tight ResponseLost (setup_db, tt))
      as (_ & H & _). apply (H "w" true); [reflexivity|by unfold in_limit].
  - destruct (remote_store_refines unsettling_server (env_of 11) Ht secret_tight Delivered after_claim)
      as (_ & _ & _ & _ & _ & H & _). etrans.
    + apply (H "j1" "a1" "t1" success); [repeat constructor|reflexivity|by unfold in_limit].
    + vm_compute. reflexivity.
  - vm_compute. reflexivity.
Defined.

(** ** Where remote workers are not what local ones are *)

(** Requests never reclaim, and the client's [ReclaimExpired] does nothing: when the
    one who holds a lease is gone, its job stays leased, however late it gets. *)
Lemma unreclaimed_lease_stays ops db j r a :
  reachable db -> dispatch_jobs db !! j = Some r -> jr_state r = sql_leased -> jr_lease_attempt_id r = Some a ->
  Forall (fun op => match op with
                    | OHeartbeat _ _ _ a' _ _ | OFinish _ _ a' _ _ => a' <> a
                    | OReclaimExpired _ _ => False
                    | _ => True
                    end) ops ->
  exists r', dispatch_jobs (run ops db) !! j = Some r' /\ jr_state r' = sql_leased /\ jr_lease_attempt_id r' = Some a.
Proof.
  intros HI Hr Hs Ha Hops. revert db r HI Hr Hs Ha. induction Hops as [|op ops Hop _ IH]; intros db r HI Hr Hs Ha; [by exists r|].
  destruct (lease_survives op db j r a (reachable_Inv _ HI) Hr Hs Ha) as (r' & Hr' & _ & Hs' & Hl & _); [by destruct op; try intros ?|].
  apply (IH _ r'); [by apply reach_step|done|congruence|]. unfold lease_cols in Hl. congruence.
Qed.

Definition slash_worker (id : string) : Worker := {|
  w_ID := id; w_ProtocolVersion := 1; w_Pool := ""; w_Labels := []; w_Capabilities := ["git"];
  w_Capacity := 1; w_Ready := true; w_Draining := false; w_ActiveJobs := 0; w_LastHeartbeat := 0; w_RegisteredAt := 0 |}.

Definition heartbeat_of (id : string) (db : DB) : option Z := wr_last_heartbeat <$> worker_registrations db !! id.

(** An id with a slash registers, but its heartbeats find no handler; with the slash
    in front they are those of another worker. *)
Lemma slash_id_has_no_heartbeat :
  let srv := serve example_server (env_of 10) in
  let joined id := match client_RegisterWorker srv "secret" Delivered (slash_worker id) (setup_db, tt) with
                   | Some (Ok _, st) => Some st | _ => None end in
  let beaten id st := client_HeartbeatWorker (serve example_server (env_of 20)) "secret" Delivered id true st in
  (exists st, joined "team/a" = Some st /\ beaten "team/a" st = Some (Err (Refused 404 MNotFound), st))
  /\ (exists st st', joined "/w" = Some st /\ beaten "/w" st = Some (Ok tt, st')
      /\ heartbeat_of "/w" st'.1 = Some (sec 10) /\ heartbeat_of "w" st'.1 = Some (sec 20)).
Proof.
  split.
  - eexists. split; [vm_compute; reflexivity|vm_compute; reflexivity].
  - eexists _, _. split_and!; vm_compute; reflexivity.
Qed.
