(* ===== verification/SubworkflowLoad.v ===== *)
(** * Loading local workflow files (src/internal/config/subworkflow_load.go)

    A step may name a file with [uses]: the file is read, the files it names in turn
    are loaded, and the workflow joins those of the configuration under its id. The
    map visiting of the code is the position in the stack, and the workflows it
    appends are kept here with the file they came from. File names, reading and
    decoding are parameters. *)

From stdpp Require Import base gmap strings list.
From S2P Require Import Prelude Model Config Lower.

(** What the loader uses of path/filepath, os and yaml. *)
Class FileSystem := {
  fs_dir : string -> string;
  fs_join : string -> string -> string;
  fs_is_abs : string -> bool;
  fs_ext : string -> string;
  fs_base : string -> string;
  fs_is_file : string -> bool;                 (* [os.Stat], not a directory *)
  fs_abs : string -> option string;            (* [filepath.Abs], cleaned *)
  fs_canonical : string -> string;             (* [EvalSymlinks], else [Clean] *)
  fs_decode : string -> option WorkflowConfig; (* read, expanded and decoded *)
}.

Inductive LoadError :=
  | ErrUsesAndWorkflow (workflowID stepID : string)
  | ErrRemote (ref : string)
  | ErrFileNotFound (ref baseDir : string)
  | ErrAbs (file : string)
  | ErrReadFile (file : string)
  | ErrNoID (file : string)
  | ErrDuplicateID (file id previous : string)
  | ErrCyclic (cycle : list string)
  | ErrLoadFuel.

Definition with_Workflow (id : string) (s : StepConfig) : StepConfig :=
  mkStep (st_ID s) StepTypeWorkflow (st_DependsOn s) (st_SeqDependsOn s) (st_Condition s) (st_FailWhen s) (st_Agent s)
    (st_Prompt s) (st_OutputSchema s) (st_OnMissingOutput s) (st_Memory s) (st_OnPassNext s)
    (st_OnFail s) (st_OnConflict s) (st_Multi s) (st_Branches s) (st_Message s) (st_ResumeOn s)
    (st_AbortOn s) (st_Timeout s) (st_Approvers s) (st_WaitFor s) (st_Items s) (st_As s)
    (st_Concurrency s) (st_MaxItems s) (st_FailFast s) (st_Step s) (st_SubSteps s) (st_Join s)
    (st_Name s) (st_Idempotent s) (st_Publish s) (st_Spawn s) (st_Materialize s) (st_PullRequestFrom s)
    (st_ActionClass s) (st_RequiredApprovals s) (st_ApprovalFields s) (st_RemindAfter s)
    (st_EscalateAfter s) (st_EscalateTo s) (st_Delegates s) id (st_Uses s) (st_With s)
    (st_If s) (st_RejectWhen s) (st_OnReject s) (st_ParallelSteps s) (st_ForEachExpr s) (st_Max s)
    (st_Output s).

(** [workflowFileResolver]. *)
Record Loader := {
  ld_byFile : gmap string string;
  ld_byID : gmap string string;
  ld_stack : list string;
  ld_loaded : list (string * WorkflowConfig);
}.

Definition with_stack (stack : list string) (st : Loader) : Loader :=
  {| ld_byFile := ld_byFile st; ld_byID := ld_byID st; ld_stack := stack; ld_loaded := ld_loaded st |}.

(** The end of [load]. *)
Definition loaded (file : string) (wf : WorkflowConfig) (st : Loader) : Loader := {|
  ld_byFile := <[file := wc_ID wf]> (ld_byFile st); ld_byID := <[wc_ID wf := file]> (ld_byID st);
  ld_stack := ld_stack st; ld_loaded := ld_loaded st ++ [(file, wf)] |}.

Section loader.
Context {FS : FileSystem}.

(** [resolveWorkflowPath]. *)
Definition resolveWorkflowPath (baseDir ref : string) : result LoadError string :=
  if str_contains ref "://" then Err (ErrRemote ref)
  else
    let path := if fs_is_abs ref then ref else fs_join baseDir ref in
    let candidates := path :: if is_empty (fs_ext path) then [path +:+ ".yaml"; path +:+ ".yml"] else [] in
    match List.find fs_is_file candidates with
    | None => Err (ErrFileNotFound ref baseDir)
    | Some candidate => match fs_abs candidate with Some abs => Ok abs | None => Err (ErrAbs candidate) end
    end.

(** A loop over steps that are updated in place. *)
Definition resolve_each (f : StepConfig -> Loader -> result LoadError (StepConfig * Loader)) :
    list StepConfig -> Loader -> result LoadError (list StepConfig * Loader) :=
  fix each steps st :=
    match steps with
    | [] => Ok ([], st)
    | s :: steps => '(s, st) ← f s st; '(steps, st) ← each steps st; Ok (s :: steps, st)
    end.

(** The reference of one step. *)
Definition resolve_uses (load : string -> Loader -> result LoadError (string * Loader)) (workflowID file : string)
    (s : StepConfig) (st : Loader) : result LoadError (StepConfig * Loader) :=
  if is_empty (st_Uses s) then Ok (s, st)
  else if negb (is_empty (st_Workflow s)) then Err (ErrUsesAndWorkflow workflowID (st_ID s))
  else
    path ← resolveWorkflowPath (fs_dir file) (st_Uses s);
    '(childID, st) ← load path st;
    Ok (with_Workflow childID s, st).

(** [resolveStep] and [resolveSteps]. *)
Fixpoint resolveStep (load : string -> Loader -> result LoadError (string * Loader)) (workflowID file : string)
    (s : StepConfig) (st : Loader) {struct s} : result LoadError (StepConfig * Loader) :=
  '(s1, st) ← resolve_uses load workflowID file s st;
  '(subs, st) ← resolve_each (resolveStep load workflowID file) (st_SubSteps s) st;
  '(pars, st) ← resolve_each (resolveStep load workflowID file) (st_ParallelSteps s) st;
  '(inner, st) ← match st_Step s with
                 | None => Ok (None, st)
                 | Some t => '(t, st) ← resolveStep load workflowID file t st; Ok (Some t, st)
                 end;
  Ok (with_Step inner (with_ParallelSteps pars (with_SubSteps subs s1)), st).

Definition resolveSteps (load : string -> Loader -> result LoadError (string * Loader)) (wf : WorkflowConfig) (file : string)
    (st : Loader) : result LoadError (WorkflowConfig * Loader) :=
  '(steps, st) ← resolve_each (resolveStep load (wc_ID wf) file) (wc_Steps wf) st;
  Ok (with_Steps steps wf, st).

(** The files from the first visit on, and the file again. *)
Definition cycle_from (file : string) (stack : list string) : list string :=
  fs_base <$> drop (default 0 (fst <$> list_find (.= file) stack)) stack ++ [file].

(** The part of [load] that puts the file on the stack; [st'] has the stack of the
    files under way again. *)
Definition load_child (load : string -> Loader -> result LoadError (string * Loader)) (file : string) (child : WorkflowConfig)
    (st : Loader) : result LoadError (string * Loader) :=
  '(child, st') ← resolveSteps load child file (with_stack (ld_stack st ++ [file]) st);
  Ok (wc_ID child, loaded file child (with_stack (ld_stack st) st')).

(** [load]; one unit of fuel per file under way. *)
Fixpoint load (fuel : nat) (path : string) (st : Loader) : result LoadError (string * Loader) :=
  let file := fs_canonical path in
  match ld_byFile st !! file with
  | Some id => Ok (id, st)
  | None =>
      if str_in file (ld_stack st) then Err (ErrCyclic (cycle_from file (ld_stack st)))
      else match fs_decode file with
      | None => Err (ErrReadFile file)
      | Some child =>
          if is_empty (wc_ID child) then Err (ErrNoID file)
          else
            let previous := default file (ld_byID st !! wc_ID child) in
            if negb (bool_decide (previous = file)) then Err (ErrDuplicateID file (wc_ID child) previous)
            else match fuel with
                 | O => Err ErrLoadFuel
                 | S fuel => load_child (load fuel) file child st
                 end
      end
  end.

(** The loop over the workflows of the configuration. *)
Fixpoint resolve_workflows (fuel : nat) (configFile : string) (wfs : list WorkflowConfig) (st : Loader)
    : result LoadError (list WorkflowConfig * Loader) :=
  match wfs with
  | [] => Ok ([], st)
  | wf :: wfs =>
      '(wf, st) ← resolveSteps (load fuel) wf configFile st;
      '(wfs, st) ← resolve_workflows fuel configFile wfs st;
      Ok (wf :: wfs, st)
  end.

Definition initial_loader (configFile : string) (wfs : list WorkflowConfig) : Loader := {|
  ld_byFile := ∅;
  ld_byID := foldl (fun m wf => if is_empty (wc_ID wf) then m else <[wc_ID wf := configFile]> m) ∅ wfs;
  ld_stack := []; ld_loaded := [] |}.

(** [resolveLocalWorkflows], of the absolute path: the workflows of the
    configuration, and what was loaded. *)
Definition resolveLocalWorkflows (fuel : nat) (configFile : string) (wfs : list WorkflowConfig)
    : result LoadError (list WorkflowConfig * Loader) :=
  resolve_workflows fuel configFile wfs (initial_loader configFile wfs).
End loader.
