(* ===== verification/SubworkflowLoadProps.v ===== *)
(** * Loading local workflow files: it ends, and what it loads has no cycle

    With as many units of fuel as there are files that decode, the loader never runs
    out; and when it succeeds every step that names a file calls the workflow of that
    file, which was loaded once, before any file that names it. *)

From stdpp Require Import base gmap strings list.
From S2P Require Import Prelude Model Config Lower SubworkflowLoad.

(** ** The steps of a step *)

Fixpoint steps_within (s : StepConfig) : list StepConfig :=
  s :: flat_map steps_within (st_SubSteps s) ++ flat_map steps_within (st_ParallelSteps s)
    ++ match st_Step s with Some t => steps_within t | None => [] end.

Lemma step_nested_ind (P : StepConfig -> Prop) :
  (forall s, Forall P (st_SubSteps s) -> Forall P (st_ParallelSteps s) -> (forall t, st_Step s = Some t -> P t) -> P s) ->
  forall s, P s.
Proof.
  intros H. fix IH 1. intros s. apply H; destruct s; simpl.
  - clear -IH. induction st_SubSteps as [|t l IHl]; constructor; [apply IH|exact IHl].
  - clear -IH. induction st_ParallelSteps as [|t l IHl]; constructor; [apply IH|exact IHl].
  - destruct st_Step as [t|]; [|discriminate]. intros t' [= <-]. apply IH.
Qed.

(** An error, or a result with a property. *)
Definition if_ok {E A} (P : A -> Prop) (r : result E A) : Prop := match r with Ok a => P a | Err _ => True end.

Lemma if_ok_bind {E A B} (P : A -> Prop) (Q : B -> Prop) (r : result E A) (k : A -> result E B) :
  if_ok P r -> (forall a, P a -> if_ok Q (k a)) -> if_ok Q (a ← r; k a).
Proof. destruct r; cbn; auto. Qed.

Section props.
Context {FS : FileSystem}.

(** A step that names a file calls its workflow. *)
Definition points (known : gmap string string) (file : string) (t : StepConfig) : Prop :=
  st_Uses t <> "" -> exists path,
    resolveWorkflowPath (fs_dir file) (st_Uses t) = Ok path
    /\ known !! fs_canonical path = Some (st_Workflow t) /\ st_Type t = StepTypeWorkflow.

Definition all_point (known : gmap string string) (file : string) (steps : list StepConfig) : Prop :=
  forall s t, s ∈ steps -> t ∈ steps_within s -> points known file t.

Definition known_in (l : list (string * WorkflowConfig)) : gmap string string :=
  list_to_map ((fun x => (x.1, wc_ID x.2)) <$> l).

Record loader_ok (st : Loader) : Prop := {
  lo_known : ld_byFile st = known_in (ld_loaded st);
  lo_once : NoDup (fst <$> ld_loaded st);
  lo_order : forall before file wf after, ld_loaded st = before ++ (file, wf) :: after ->
    fs_decode file <> None /\ all_point (known_in before) file (wc_Steps wf);
  lo_stack : NoDup (ld_stack st);
  lo_apart : forall f, f ∈ ld_stack st -> ld_byFile st !! f = None;
  lo_files : forall f, f ∈ ld_stack st -> fs_decode f <> None;
}.

Definition extends (st st' : Loader) : Prop := ld_byFile st ⊆ ld_byFile st' /\ ld_stack st' = ld_stack st.

#[local] Instance extends_preorder : PreOrder extends.
Proof. split; [by split|]. intros a b c [H1 E1] [H2 E2]. split; [by etrans|congruence]. Qed.

Lemma points_mono known known' file t : known ⊆ known' -> points known file t -> points known' file t.
Proof. intros Hs Hp Hu. destruct (Hp Hu) as (path & H1 & H2 & H3). exists path. split_and!; [done|by eapply lookup_weaken|done]. Qed.

Lemma all_point_mono known known' file steps : known ⊆ known' -> all_point known file steps -> all_point known' file steps.
Proof. intros Hs H s t Hin Ht. eapply points_mono; [done|by apply (H s)]. Qed.

(** What a loader owes: the id of the file, in an extension of the state. *)
Definition load_good (load : string -> Loader -> result LoadError (string * Loader)) : Prop :=
  forall path st, loader_ok st -> if_ok (fun r => loader_ok r.2 /\ extends st r.2 /\ ld_byFile r.2 !! fs_canonical path = Some r.1) (load path st).

Definition step_good (file : string) (f : StepConfig -> Loader -> result LoadError (StepConfig * Loader)) (s : StepConfig) : Prop :=
  forall st, loader_ok st -> if_ok (fun r => loader_ok r.2 /\ extends st r.2
    /\ forall t, t ∈ steps_within r.1 -> points (ld_byFile r.2) file t) (f s st).

Lemma resolve_each_good file f steps :
  Forall (step_good file f) steps ->
  forall st, loader_ok st -> if_ok (fun r => loader_ok r.2 /\ extends st r.2 /\ all_point (ld_byFile r.2) file r.1) (resolve_each f steps st).
Proof.
  induction 1 as [|s steps Hs _ IH]; intros st Hok; cbn.
  { split_and!; [done|done|]. intros ? ? H. by apply elem_of_nil in H. }
  eapply if_ok_bind; [by apply Hs|]. intros [s' st1] (H1 & H2 & H3). cbn in *.
  eapply if_ok_bind; [by apply IH|]. intros [steps' st2] (G1 & G2 & G3). cbn in *.
  split_and!; [done|by etrans|]. intros x t [->|Hx]%elem_of_cons Ht; [|by apply (G3 x)].
  eapply points_mono; [apply G2|by apply H3].
Qed.

Section steps.
Context (load : string -> Loader -> result LoadError (string * Loader)) (Hload : load_good load) (wid file : string).

Lemma resolve_uses_good s st :
  loader_ok st -> if_ok (fun r => loader_ok r.2 /\ extends st r.2 /\ points (ld_byFile r.2) file r.1) (resolve_uses load wid file s st).
Proof.
  intros Hok. unfold resolve_uses. destruct (is_empty (st_Uses s)) eqn:Eu.
  { cbn. apply is_empty_true in Eu. split_and!; [done|done|]. intros Hu. by rewrite Eu in Hu. }
  destruct (negb _); [done|]. destruct (resolveWorkflowPath _ _) as [path|] eqn:Ep; [|done]. cbn.
  eapply if_ok_bind; [by apply Hload|]. intros [id st1] (H1 & H2 & H3). cbn in *. split_and!; [done|done|].
  intros _. exists path. by split_and!.
Qed.

Lemma resolveStep_good s : step_good file (resolveStep load wid file) s.
Proof.
  induction s as [s IHsub IHpar IHstep] using step_nested_ind. intros st Hok.
  assert (resolveStep load wid file s st =
    ('(s1, st) ← resolve_uses load wid file s st;
     '(subs, st) ← resolve_each (resolveStep load wid file) (st_SubSteps s) st;
     '(pars, st) ← resolve_each (resolveStep load wid file) (st_ParallelSteps s) st;
     '(inner, st) ← match st_Step s with
                    | None => Ok (None, st)
                    | Some t => '(t, st) ← resolveStep load wid file t st; Ok (Some t, st)
                    end;
     Ok (with_Step inner (with_ParallelSteps pars (with_SubSteps subs s1)), st))) as -> by (by destruct s).
  eapply if_ok_bind; [by apply resolve_uses_good|]. intros [s1 st1] (A1 & A2 & A3). cbn in A1, A2, A3.
  eapply if_ok_bind; [by apply (resolve_each_good file _ _ IHsub)|]. intros [subs st2] (B1 & B2 & B3). cbn in B1, B2, B3.
  eapply if_ok_bind; [by apply (resolve_each_good file _ _ IHpar)|]. intros [pars st3] (C1 & C2 & C3). cbn in C1, C2, C3.
  apply (if_ok_bind (fun r => loader_ok r.2 /\ extends st3 r.2
    /\ forall x t, r.1 = Some x -> t ∈ steps_within x -> points (ld_byFile r.2) file t)).
  { destruct (st_Step s) as [x|]; [|by split_and!].
    eapply if_ok_bind; [by apply (IHstep x eq_refl)|]. intros [x' st4] (D1 & D2 & D3). cbn in *.
    split_and!; [done|done|]. intros y t [= <-]. apply D3. }
  intros [inner st4] (D1 & D2 & D3). cbn in D1, D2, D3. cbn [if_ok fst snd].
  split_and!; [done|do 3 (etrans; [eassumption|]); done|]. intros t Ht.
  assert (t = with_Step inner (with_ParallelSteps pars (with_SubSteps subs s1)) \/ (exists x, x ∈ subs /\ t ∈ steps_within x)
    \/ (exists x, x ∈ pars /\ t ∈ steps_within x) \/ (exists x, inner = Some x /\ t ∈ steps_within x)) as Hcases.
  { cbn [steps_within st_SubSteps st_ParallelSteps st_Step with_Step with_ParallelSteps with_SubSteps] in Ht.
    rewrite elem_of_cons, !elem_of_app, !list_elem_of_In, !in_flat_map in Ht. setoid_rewrite list_elem_of_In.
    destruct Ht as [->|[(x & ? & ?)|[(x & ? & ?)|Hi]]]; [by left|right; left; by exists x|right; right; left; by exists x|].
    right; right; right. destruct inner as [x|]; [|done]. by exists x. }
  destruct Hcases as [->|[(x & Hx & Ht')|[(x & Hx & Ht')|(x & Hx & Ht')]]].
  - intros Hu. destruct (A3 Hu) as (path & P1 & P2 & P3). exists path. split_and!; [done| |done].
    eapply lookup_weaken; [exact P2|]. transitivity (ld_byFile st2); [apply B2|]. transitivity (ld_byFile st3); [apply C2|apply D2].
  - eapply points_mono; [|by apply (B3 x)]. transitivity (ld_byFile st3); [apply C2|apply D2].
  - eapply points_mono; [|by apply (C3 x)]. apply D2.
  - by eapply D3.
Qed.

End steps.

Lemma resolveSteps_good load wf file st :
  load_good load -> loader_ok st ->
  if_ok (fun r => loader_ok r.2 /\ extends st r.2 /\ all_point (ld_byFile r.2) file (wc_Steps r.1) /\ wc_ID r.1 = wc_ID wf)
    (resolveSteps load wf file st).
Proof.
  intros Hl Hok. unfold resolveSteps. eapply if_ok_bind.
  - apply (resolve_each_good file); [|exact Hok]. apply Forall_forall. intros s _. by apply resolveStep_good.
  - intros [steps st1] (H1 & H2 & H3). cbn in *. by split_and!.
Qed.

Lemma known_in_app l x : known_in (l ++ [x]) = known_in l ∪ {[x.1 := wc_ID x.2]}.
Proof. unfold known_in. rewrite fmap_app, list_to_map_app. cbn. by rewrite insert_empty. Qed.

Lemma known_in_None l f : known_in l !! f = None <-> f ∉ fst <$> l.
Proof.
  unfold known_in. rewrite <- not_elem_of_list_to_map. rewrite <- list_fmap_compose. done.
Qed.

Lemma known_in_step l file wf : known_in l !! file = None -> known_in (l ++ [(file, wf)]) = <[file := wc_ID wf]> (known_in l).
Proof.
  intros H. rewrite known_in_app, map_union_comm by (by apply map_disjoint_singleton_r_2).
  by rewrite insert_union_singleton_l.
Qed.

Lemma push_ok file st :
  loader_ok st -> ld_byFile st !! file = None -> file ∉ ld_stack st -> fs_decode file <> None ->
  loader_ok (with_stack (ld_stack st ++ [file]) st).
Proof.
  intros [A B C D E F] Hnew Hst Hdec. split; cbn; try done.
  - apply NoDup_app. split_and!; [done| |apply NoDup_singleton]. intros x Hx ->%list_elem_of_singleton. done.
  - intros f [Hf| ->%list_elem_of_singleton]%elem_of_app; auto.
  - intros f [Hf| ->%list_elem_of_singleton]%elem_of_app; auto.
Qed.

(** The file is put on the stack, and the child takes its place among the loaded. *)
Lemma load_child_good load file child st :
  load_good load -> loader_ok st -> ld_byFile st !! file = None -> file ∉ ld_stack st -> fs_decode file = Some child ->
  if_ok (fun r => loader_ok r.2 /\ extends st r.2 /\ ld_byFile r.2 !! file = Some r.1) (load_child load file child st).
Proof.
  intros Hl Hok Hnew Hst Hdec. unfold load_child.
  assert (loader_ok (with_stack (ld_stack st ++ [file]) st)) as Hok1 by (apply push_ok; by rewrite ?Hdec).
  eapply if_ok_bind; [by apply resolveSteps_good|]. intros [child' st'] (H1 & [H2 H2'] & H3 & H4). cbn in H1, H2, H2', H3, H4.
  assert (ld_byFile st' !! file = None) as Hfresh.
  { apply (lo_apart _ H1). rewrite H2'. apply elem_of_app. right. by apply list_elem_of_singleton. }
  pose proof H1 as [A B C D E F]. cbn. split_and!.
  - split; cbn.
    + rewrite A in Hfresh |- *. symmetry. by apply (known_in_step (ld_loaded st')).
    + rewrite fmap_app. apply NoDup_app. split_and!; [done| |apply NoDup_singleton].
      intros x Hx ->%list_elem_of_singleton. cbn in Hx. rewrite A in Hfresh. by apply known_in_None in Hfresh.
    + intros before f wf after Hsplit. destruct after as [|y after] using rev_ind.
      * apply app_inj_tail in Hsplit as [<- [= <- <-]]. split; [by rewrite Hdec|]. rewrite <- A. exact H3.
      * clear IHafter. rewrite app_comm_cons, app_assoc in Hsplit. apply app_inj_tail in Hsplit as [Hs _]. by apply (C before f wf after).
    + apply (lo_stack _ Hok).
    + intros f Hf. rewrite lookup_insert_ne; [|intros ->; done]. apply E. rewrite H2'. apply elem_of_app. by left.
    + intros f Hf. by apply (lo_files _ Hok).
  - split; cbn; [|done]. etrans; [exact H2|]. by apply insert_subseteq.
  - by rewrite lookup_insert_eq, H4.
Qed.

Lemma load_is_good fuel : load_good (load fuel).
Proof.
  induction fuel as [|fuel IH]; intros path st Hok; cbn [load].
  all: destruct (ld_byFile st !! fs_canonical path) as [id|] eqn:Ek; [by split_and!|].
  all: destruct (str_in (fs_canonical path) (ld_stack st)) eqn:Es; [done|]; apply bool_decide_eq_false in Es.
  all: destruct (fs_decode (fs_canonical path)) as [child|] eqn:Ed; [|done]; destruct (is_empty (wc_ID child)); [done|].
  all: destruct (negb _); [done|]. 1: done. by apply load_child_good.
Qed.

Lemma resolve_workflows_good fuel file wfs st :
  loader_ok st ->
  if_ok (fun r => loader_ok r.2 /\ extends st r.2 /\ (wc_ID <$> r.1) = (wc_ID <$> wfs)
    /\ forall wf, wf ∈ r.1 -> all_point (ld_byFile r.2) file (wc_Steps wf)) (resolve_workflows fuel file wfs st).
Proof.
  revert st. induction wfs as [|wf wfs IH]; intros st Hok; cbn; [split_and!; [done|done|done|by intros ? ?%elem_of_nil]|].
  eapply if_ok_bind; [apply resolveSteps_good; [apply load_is_good|done]|]. intros [wf' st1] (H1 & H2 & H3 & H4). cbn in H1, H2, H3, H4.
  eapply if_ok_bind; [by apply IH|]. intros [wfs' st2] (G1 & G2 & G3 & G4). cbn in G1, G2, G3, G4. cbn.
  split_and!; [done|by etrans|by f_equal|]. intros x [->|Hx]%elem_of_cons; [|by apply G4].
  eapply all_point_mono; [apply G2|exact H3].
Qed.

(** ** The fuel *)

Section fuel.
Context (files : gset string) (Hfiles : forall f, fs_decode f <> None -> f ∈ files).

(** A loader that does not run out on a stack of [depth] files. *)
Definition no_fuel {A} (r : result LoadError A) : Prop := r <> Err ErrLoadFuel.

Definition enough (load : string -> Loader -> result LoadError (string * Loader)) (depth : nat) : Prop :=
  forall path st, loader_ok st -> length (ld_stack st) = depth -> no_fuel (load path st).

Lemma no_fuel_bind {A B} (P : A -> Prop) (r : result LoadError A) (k : A -> result LoadError B) :
  no_fuel r -> if_ok P r -> (forall a, P a -> no_fuel (k a)) -> no_fuel (a ← r; k a).
Proof. unfold no_fuel. destruct r; cbn; [auto|congruence]. Qed.

Lemma resolve_each_fuel file f steps depth :
  Forall (step_good file f) steps ->
  Forall (fun s => forall st, loader_ok st -> length (ld_stack st) = depth -> no_fuel (f s st)) steps ->
  forall st, loader_ok st -> length (ld_stack st) = depth -> no_fuel (resolve_each f steps st).
Proof.
  induction steps as [|s steps IH]; intros Hg Hf st Hok Hd; cbn; [done|].
  apply Forall_cons in Hg as [Hg1 Hg2], Hf as [Hf1 Hf2].
  eapply no_fuel_bind; [by apply Hf1|by apply Hg1|]. intros [s' st1] (H1 & [H2 H2'] & _). cbn in H1, H2, H2'.
  eapply no_fuel_bind; [apply IH; [done|done|done|congruence]|by apply (resolve_each_good file)|]. by intros [? ?] _.
Qed.

Lemma resolveStep_fuel load wid file depth s :
  load_good load -> enough load depth ->
  forall st, loader_ok st -> length (ld_stack st) = depth -> no_fuel (resolveStep load wid file s st).
Proof.
  intros Hl He. induction s as [s IHsub IHpar IHstep] using step_nested_ind. intros st Hok Hd.
  assert (forall l, Forall (step_good file (resolveStep load wid file)) l) as Hgood
    by (intros l; apply Forall_forall; intros x _; by apply resolveStep_good).
  assert (resolveStep load wid file s st =
    ('(s1, st) ← resolve_uses load wid file s st;
     '(subs, st) ← resolve_each (resolveStep load wid file) (st_SubSteps s) st;
     '(pars, st) ← resolve_each (resolveStep load wid file) (st_ParallelSteps s) st;
     '(inner, st) ← match st_Step s with
                    | None => Ok (None, st)
                    | Some t => '(t, st) ← resolveStep load wid file t st; Ok (Some t, st)
                    end;
     Ok (with_Step inner (with_ParallelSteps pars (with_SubSteps subs s1)), st))) as -> by (by destruct s).
  eapply no_fuel_bind; [|by apply resolve_uses_good|].
  { unfold resolve_uses. destruct (is_empty _); [done|]. destruct (negb _); [done|].
    destruct (resolveWorkflowPath _ _) as [path|x] eqn:Ep.
    - cbn. eapply no_fuel_bind; [by apply He|by apply Hl|]. by intros [? ?] _.
    - cbn. unfold no_fuel. intros [= ->]. unfold resolveWorkflowPath in Ep. repeat case_match; simplify_eq. }
  intros [s1 st1] (A1 & [_ A2] & _). cbn in A1, A2.
  eapply no_fuel_bind; [apply (resolve_each_fuel file _ _ depth); [done|done|done|congruence]|by apply (resolve_each_good file)|].
  intros [subs st2] (B1 & [_ B2] & _). cbn in B1, B2.
  eapply no_fuel_bind; [apply (resolve_each_fuel file _ _ depth); [done|done|done|congruence]|by apply (resolve_each_good file)|].
  intros [pars st3] (C1 & [_ C2] & _). cbn in C1, C2.
  eapply (no_fuel_bind (fun _ => True)); [| |by intros [? ?] _].
  - destruct (st_Step s) as [t|]; [|done].
    eapply no_fuel_bind; [apply (IHstep t eq_refl); [done|congruence]|by apply resolveStep_good|]. by intros [? ?] _.
  - by destruct (match st_Step s with None => _ | Some t => _ end).
Qed.

Lemma resolveSteps_fuel load wf file st :
  load_good load -> enough load (length (ld_stack st)) -> loader_ok st -> no_fuel (resolveSteps load wf file st).
Proof.
  intros Hl He Hok. unfold resolveSteps. eapply no_fuel_bind.
  - apply (resolve_each_fuel file _ _ (length (ld_stack st))); [..|done|done]; apply Forall_forall; intros s _.
    + by apply resolveStep_good.
    + intros. by eapply resolveStep_fuel.
  - apply (resolve_each_good file); [|done]. apply Forall_forall. intros s _. by apply resolveStep_good.
  - by intros [? ?] _.
Qed.

Lemma stack_bounded st : loader_ok st -> length (ld_stack st) <= size files.
Proof.
  intros Hok. rewrite <- (size_list_to_set (C := gset string) (ld_stack st)) by apply (lo_stack _ Hok).
  apply subseteq_size. intros f Hf%elem_of_list_to_set. by apply Hfiles, (lo_files _ Hok).
Qed.

Lemma load_enough fuel depth : size files <= fuel + depth -> enough (load fuel) depth.
Proof.
  revert depth. induction fuel as [|fuel IH]; intros depth Hsize path st Hok Hd; cbn [load].
  all: destruct (ld_byFile st !! fs_canonical path) as [id|] eqn:Ek; [done|].
  all: destruct (str_in (fs_canonical path) (ld_stack st)) eqn:Es; [done|]; apply bool_decide_eq_false in Es.
  all: destruct (fs_decode (fs_canonical path)) as [child|] eqn:Ed; [|done]; destruct (is_empty (wc_ID child)); [done|].
  all: destruct (negb _); [done|].
  all: assert (loader_ok (with_stack (ld_stack st ++ [fs_canonical path]) st)) as Hok1 by (apply push_ok; by rewrite ?Ed).
  - pose proof (stack_bounded _ Hok1) as H. cbn in H. rewrite length_app in H. cbn in H. lia.
  - unfold load_child. eapply no_fuel_bind; [apply resolveSteps_fuel; [apply load_is_good| |done]|apply resolveSteps_good; [apply load_is_good|done]|].
    + apply IH. cbn. rewrite length_app. cbn. lia.
    + by intros [? ?] _.
Qed.

Lemma resolve_workflows_fuel fuel file wfs st :
  size files <= fuel -> loader_ok st -> ld_stack st = [] -> no_fuel (resolve_workflows fuel file wfs st).
Proof.
  intros Hsize. revert st. induction wfs as [|wf wfs IH]; intros st Hok Hst; cbn; [done|].
  eapply no_fuel_bind; [apply resolveSteps_fuel; [apply load_is_good| |done]|apply resolveSteps_good; [apply load_is_good|done]|].
  - rewrite Hst. apply load_enough. cbn. lia.
  - intros [wf' st1] (H1 & [_ H2] & _). cbn in H1, H2.
    eapply no_fuel_bind; [apply IH; [done|congruence]|by apply resolve_workflows_good|]. by intros [? ?] _.
Qed.

Lemma initial_ok file wfs : loader_ok (initial_loader file wfs).
Proof.
  split; cbn; [done|constructor| |constructor|by intros ? ?%elem_of_nil|by intros ? ?%elem_of_nil].
  intros before f wf after H. by destruct before.
Qed.

(** C33: with a unit of fuel for every file that decodes, loading ends; and when it
    succeeds, every step that names a file, at any depth, is a call of the workflow
    of that file; each file was loaded once; and the files a loaded file names were
    all loaded before it, so that no chain of references is circular. *)
Theorem resolveLocalWorkflows_acyclic (configFile : string) (wfs : list WorkflowConfig) :
  let r := resolveLocalWorkflows (size files) configFile wfs in
  r <> Err ErrLoadFuel
  /\ forall wfs' st, r = Ok (wfs', st) ->
       (wc_ID <$> wfs') = (wc_ID <$> wfs)
       /\ NoDup (fst <$> ld_loaded st)
       /\ (forall wf, wf ∈ wfs' -> all_point (known_in (ld_loaded st)) configFile (wc_Steps wf))
       /\ forall before file wf after, ld_loaded st = before ++ (file, wf) :: after ->
            all_point (known_in before) file (wc_Steps wf).
Proof.
  cbv zeta. unfold resolveLocalWorkflows. split; [by apply resolve_workflows_fuel; [|apply initial_ok|]|].
  intros wfs' st E. pose proof (resolve_workflows_good (size files) configFile wfs _ (initial_ok configFile wfs)) as H.
  rewrite E in H. destruct H as (H1 & _ & H3 & H4). cbn in H1, H3, H4. split_and!; [done|apply (lo_once _ H1)| |].
  - intros wf Hwf. rewrite <- (lo_known _ H1). by apply H4.
  - intros before file wf after Hs. by apply (lo_order _ H1 _ _ _ _ Hs).
Qed.
End fuel.
End props.

(** ** Running it *)

(** File names are their own paths. *)
Definition plain_files (decode : string -> option WorkflowConfig) : FileSystem := {|
  fs_dir := fun _ => "/"; fs_join := fun _ ref => ref; fs_is_abs := fun _ => false; fs_ext := fun _ => ".yaml";
  fs_base := fun f => f; fs_is_file := fun f => match decode f with Some _ => true | None => false end;
  fs_abs := Some; fs_canonical := fun f => f; fs_decode := decode |}.

Definition calling (id file : string) : StepConfig :=
  let s := zero_step id in
  mkStep (st_ID s) (st_Type s) (st_DependsOn s) (st_SeqDependsOn s) (st_Condition s) (st_FailWhen s) (st_Agent s)
    (st_Prompt s) (st_OutputSchema s) (st_OnMissingOutput s) (st_Memory s) (st_OnPassNext s)
    (st_OnFail s) (st_OnConflict s) (st_Multi s) (st_Branches s) (st_Message s) (st_ResumeOn s)
    (st_AbortOn s) (st_Timeout s) (st_Approvers s) (st_WaitFor s) (st_Items s) (st_As s)
    (st_Concurrency s) (st_MaxItems s) (st_FailFast s) (st_Step s) (st_SubSteps s) (st_Join s)
    (st_Name s) (st_Idempotent s) (st_Publish s) (st_Spawn s) (st_Materialize s) (st_PullRequestFrom s)
    (st_ActionClass s) (st_RequiredApprovals s) (st_ApprovalFields s) (st_RemindAfter s)
    (st_EscalateAfter s) (st_EscalateTo s) (st_Delegates s) (st_Workflow s) file (st_With s)
    (st_If s) (st_RejectWhen s) (st_OnReject s) (st_ParallelSteps s) (st_ForEachExpr s) (st_Max s)
    (st_Output s).

Definition flow (id : string) (steps : list StepConfig) : WorkflowConfig := {|
  wc_ID := id; wc_Resume := ""; wc_ResultComment := ""; wc_Trigger := None; wc_Inputs := ∅; wc_Outputs := ∅; wc_Steps := steps |}.

(** "review" and "test" both name "lint". *)
Definition shared_lint : FileSystem := plain_files (fun f =>
  if bool_decide (f = "review.yaml") then Some (flow "review" [calling "a" "lint.yaml"; calling "b" "test.yaml"])
  else if bool_decide (f = "test.yaml") then Some (flow "test" [calling "c" "lint.yaml"])
  else if bool_decide (f = "lint.yaml") then Some (flow "lint" [zero_step "d"])
  else None).

Definition shared_files : gset string := {["review.yaml"; "test.yaml"; "lint.yaml"]}.

Lemma resolveLocalWorkflows_acyclic_witness :
  exists wfs st, resolveLocalWorkflows (FS := shared_lint) (size shared_files) "main.yaml" [flow "main" [calling "r" "review.yaml"]] = Ok (wfs, st)
    /\ (fst <$> ld_loaded st) = ["lint.yaml"; "test.yaml"; "review.yaml"]
    /\ forall wf, wf ∈ wfs -> all_point (FS := shared_lint) (known_in (ld_loaded st)) "main.yaml" (wc_Steps wf).
Proof.
  destruct (resolveLocalWorkflows_acyclic (FS := shared_lint) shared_files) with (configFile := "main.yaml")
    (wfs := [flow "main" [calling "r" "review.yaml"]]) as [_ H].
  - intros f Hf. unfold shared_files. cbn in Hf. rewrite !elem_of_union, !elem_of_singleton.
    repeat case_bool_decide; auto. done.
  - destruct (resolveLocalWorkflows (FS := shared_lint) _ _ _) as [[wfs st]|e] eqn:E; [|vm_compute in E; discriminate E].
    destruct (H wfs st eq_refl) as (_ & _ & H3 & _). exists wfs, st. split; [reflexivity|].
    split; [vm_compute in E; injection E as _ <-; reflexivity|exact H3].
Defined.

(** A file may take the id of a file that is still being loaded: the ids are compared
    before the files it names are loaded, and registered after. The two workflows are
    refused only later, by the check of duplicate ids in [validateWorkflows]. *)
Lemma ancestor_id_accepted :
  let fs := plain_files (fun f =>
    if bool_decide (f = "outer.yaml") then Some (flow "build" [calling "a" "inner.yaml"])
    else if bool_decide (f = "inner.yaml") then Some (flow "build" [zero_step "b"]) else None) in
  exists wfs st, resolveLocalWorkflows (FS := fs) 2 "main.yaml" [flow "main" [calling "x" "outer.yaml"]] = Ok (wfs, st)
    /\ ((fun x => (x.1, wc_ID x.2)) <$> ld_loaded st) = [("inner.yaml", "build"); ("outer.yaml", "build")].
Proof. eexists _, _. split; [vm_compute; reflexivity|reflexivity]. Qed.
