(* ===== verification/Structured.v ===== *)
(** * Structured output of an agent (src/internal/runner/execution/structured.go)

    An agent reports by lines of its output: a sentinel line with a JSON object, and
    blocks between marker lines. The runner takes them out of the visible text. JSON
    decoding is a parameter; decoding into a map may succeed with a nil map. *)

From stdpp Require Import base gmap strings list.
From Stdlib Require Import ZArith Ascii.
From S2P Require Import Prelude Text Model Prompt.

(** ** The sentinel line *)

Definition wrapper_byte (c : ascii) : bool :=
  bool_decide (c ∈ ["`"%char; "~"%char; "-"%char; "*"%char; "+"%char; ">"%char; " "%char; "009"%char]).

(** [isMarkdownWrapper]. *)
Fixpoint isMarkdownWrapper (s : string) : bool :=
  match s with
  | EmptyString => true
  | String c s' => wrapper_byte c && isMarkdownWrapper s'
  end.

Definition backslash : ascii := "\"%char.

(** The loop of [balancedJSON]: what it takes up to the closing bracket. *)
Fixpoint balanced_from (opening closing : ascii) (s : string) (depth : Z) (inStr esc : bool) : option string :=
  match s with
  | EmptyString => None
  | String c s' =>
      let go depth inStr esc := String c <$> balanced_from opening closing s' depth inStr esc in
      if inStr then
        if esc then go depth true false
        else if bool_decide (c = backslash) then go depth true true
        else if bool_decide (c = dquote) then go depth false false
        else go depth true false
      else if bool_decide (c = dquote) then go depth true esc
      else if bool_decide (c = opening) then go (depth + 1)%Z false esc
      else if bool_decide (c = closing) then
        if (depth - 1 =? 0)%Z then Some (String c "") else go (depth - 1)%Z false esc
      else go depth false esc
  end.

(** [balancedJSON]. *)
Definition balancedJSON (s : string) : string :=
  let rest := (str_span (fun c => negb (bool_decide (c = "{"%char \/ c = "["%char))) s).2 in
  match rest with
  | EmptyString => ""
  | String opening _ =>
      let closing := if bool_decide (opening = "["%char) then "]"%char else "}"%char in
      default "" (balanced_from opening closing rest 0 false false)
  end.

(** [strings.Trim] with one byte. *)
Definition trim_byte (c : ascii) (s : string) : string :=
  trim_right (fun d => bool_decide (d = c)) (drop_while (fun d => bool_decide (d = c)) s).

(** [outputSentinelJSON]. *)
Definition outputSentinelJSON (trimmed : string) : option string :=
  match str_cut apiaryOutputPrefix trimmed with
  | None => None
  | Some (before, after) =>
      if isMarkdownWrapper before then
        let rest := trim_space after in
        let payload := balancedJSON rest in
        Some (if is_empty payload then trim_space (trim_byte "`"%char rest) else payload)
      else None
  end.

(** ** Blocks *)

Inductive BlockKind := BSummary | BPublish | BSpawn | BMemorize.

#[export] Instance BlockKind_eq_dec : EqDecision BlockKind.
Proof. solve_decision. Defined.

Definition publishStartMarker : string := "APIARY_PUBLISH_BEGIN".
Definition publishEndMarker : string := "APIARY_PUBLISH_END".
Definition spawnStartMarker : string := "APIARY_SPAWN_BEGIN".
Definition spawnEndMarker : string := "APIARY_SPAWN_END".
Definition memorizeStartMarker : string := "APIARY_MEMORIZE_BEGIN".
Definition memorizeEndMarker : string := "APIARY_MEMORIZE_END".

(** The cases of the switch: a marker (of which block, and whether it opens it), or
    none. *)
Definition marker_of (trimmed : string) : option (BlockKind * bool) :=
  if bool_decide (trimmed = summaryStartMarker) then Some (BSummary, true)
  else if bool_decide (trimmed = summaryEndMarker) then Some (BSummary, false)
  else if bool_decide (trimmed = publishStartMarker) then Some (BPublish, true)
  else if bool_decide (trimmed = publishEndMarker) then Some (BPublish, false)
  else if bool_decide (trimmed = spawnStartMarker) then Some (BSpawn, true)
  else if bool_decide (trimmed = spawnEndMarker) then Some (BSpawn, false)
  else if bool_decide (trimmed = memorizeStartMarker) then Some (BMemorize, true)
  else if bool_decide (trimmed = memorizeEndMarker) then Some (BMemorize, false)
  else None.

Section structured.
Context {T_spawn T_memorize : Type}.

(** The variables of [extractStructured]: the flags and the blocks by kind. *)
Record Scan := {
  sc_kept : list string;
  sc_in : BlockKind -> bool;
  sc_blocks : BlockKind -> list (list string);
  sc_structured : option (gmap string JValue);
}.

Definition scan_start : Scan :=
  {| sc_kept := []; sc_in := fun _ => false; sc_blocks := fun _ => []; sc_structured := None |}.

Definition upd {A} (k : BlockKind) (a : A) (f : BlockKind -> A) : BlockKind -> A :=
  fun k' => if decide (k' = k) then a else f k'.

(** [blocks[last] = append(blocks[last], line)]. *)
Fixpoint append_last (l : string) (blocks : list (list string)) : list (list string) :=
  match blocks with
  | [] => []
  | [b] => [b ++ [l]]
  | b :: blocks' => b :: append_last l blocks'
  end.

Definition first_open (f : BlockKind -> bool) : option BlockKind :=
  List.find f [BSummary; BPublish; BSpawn; BMemorize].

Context (unmarshal : string -> option (option (gmap string JValue))).

(** One turn of the loop. *)
Definition scan_line (st : Scan) (l : string) : Scan :=
  let trimmed := trim_space l in
  match marker_of trimmed with
  | Some (k, true) =>
      {| sc_kept := sc_kept st; sc_in := upd k true (sc_in st);
         sc_blocks := upd k (sc_blocks st k ++ [[]]) (sc_blocks st); sc_structured := sc_structured st |}
  | Some (k, false) =>
      {| sc_kept := sc_kept st; sc_in := upd k false (sc_in st); sc_blocks := sc_blocks st; sc_structured := sc_structured st |}
  | None =>
      match first_open (sc_in st) with
      | Some k =>
          {| sc_kept := sc_kept st; sc_in := sc_in st;
             sc_blocks := upd k (append_last l (sc_blocks st k)) (sc_blocks st); sc_structured := sc_structured st |}
      | None =>
          match outputSentinelJSON trimmed with
          | Some jsonPart =>
              {| sc_kept := sc_kept st; sc_in := sc_in st; sc_blocks := sc_blocks st;
                 sc_structured := match unmarshal jsonPart with Some obj => obj | None => sc_structured st end |}
          | None =>
              {| sc_kept := sc_kept st ++ [l]; sc_in := sc_in st; sc_blocks := sc_blocks st; sc_structured := sc_structured st |}
          end
      end
  end.

(** [blockPayloads]. *)
Definition blockPayloads (blocks : list (list string)) : list string :=
  List.filter (fun p => negb (is_empty p)) ((fun ls => trim_space (str_join (String nl "") ls)) <$> blocks).

Record Extracted := {
  ex_cleaned : string;
  ex_structured : option (gmap string JValue);
  ex_summary : string;
  ex_publish : string;
  ex_spawn : list string;
  ex_memorize : list string;
}.

(** [extractStructured]. *)
Definition extractStructured (output : string) : Extracted :=
  let st := foldl scan_line scan_start (split_on nl output) in
  let payloads k := blockPayloads (sc_blocks st k) in
  let paragraphs k := str_join (String nl (String nl "")) (payloads k) in
  {| ex_cleaned := trim_space (str_join (String nl "") (sc_kept st));
     ex_structured := sc_structured st;
     ex_summary := paragraphs BSummary; ex_publish := paragraphs BPublish;
     ex_spawn := payloads BSpawn; ex_memorize := payloads BMemorize |}.

(** ** Requests *)

(** What a malformed block reports: its place among the blocks, from 1, when there
    are several, and whether an array was expected. *)
Record BlockError := { be_marker : string; be_place : option (nat * nat); be_array : bool }.

(** [parseRequestBlock], of a decoder of one request and one of an array. *)
Definition parseRequestBlock {T} (one : string -> option T) (many : string -> option (list T)) (block : string)
    : result bool (list T) :=
  if has_prefix block "[" then match many block with Some reqs => Ok reqs | None => Err true end
  else match one block with Some req => Ok [req] | None => Err false end.

(** [parseRequestBlocks]: the requests of the valid blocks, and the errors. *)
Definition parseRequestBlocks {T} (one : string -> option T) (many : string -> option (list T)) (marker : string)
    (blocks : list string) : list T * list BlockError :=
  foldl (fun acc ib =>
    match parseRequestBlock one many ib.2 with
    | Ok parsed => (acc.1 ++ parsed, acc.2)
    | Err array =>
        (acc.1, acc.2 ++ [{| be_marker := marker;
                             be_place := if 1 <? length blocks then Some (S ib.1, length blocks) else None;
                             be_array := array |}])
    end) ([], []) (imap pair blocks).

(** The fields of [model.RunResult] that [applyStructured] sets. *)
Record StructuredResult := {
  sr_Output : string;
  sr_StructuredOutput : option (gmap string JValue);
  sr_Summary : string;
  sr_PublishPayload : string;
  sr_SpawnRequest : option T_spawn;
  sr_SpawnRequests : list T_spawn;
  sr_SpawnError : list BlockError;
  sr_MemorizeRequests : list T_memorize;
  sr_MemorizeError : list BlockError;
}.

(** [applyStructured]; an empty list of errors is the nil error. *)
Definition applyStructured (spawn_one : string -> option T_spawn) (spawn_many : string -> option (list T_spawn))
    (mem_one : string -> option T_memorize) (mem_many : string -> option (list T_memorize)) (output : string)
    : StructuredResult :=
  let e := extractStructured output in
  let m := parseRequestBlocks mem_one mem_many "APIARY_MEMORIZE" (ex_memorize e) in
  let s := parseRequestBlocks spawn_one spawn_many "APIARY_SPAWN" (ex_spawn e) in
  let single := match ex_spawn e with [block] => negb (has_prefix block "[") | _ => false end in
  let failed := negb (bool_decide (s.2 = [])) in
  {| sr_Output := ex_cleaned e; sr_StructuredOutput := ex_structured e; sr_Summary := ex_summary e;
     sr_PublishPayload := ex_publish e;
     sr_SpawnRequest := if failed then None else if single then head s.1 else None;
     sr_SpawnRequests := if failed then [] else if single then [] else s.1;
     sr_SpawnError := s.2; sr_MemorizeRequests := m.1; sr_MemorizeError := m.2 |}.
End structured.
