(* ===== verification/StructuredProps.v ===== *)
(** * Structured output: what is reported is read, what is shown reports nothing

    Reading the lines an agent writes as told gives back the texts, the object and
    the blocks it wrote; and the text that is left, of any output, holds no marker and
    no sentinel: reading it again changes nothing. *)

From stdpp Require Import base gmap strings list.
From Stdlib Require Import ZArith Ascii.
From S2P Require Import Prelude Text Model Prompt Structured.

(** ** Lines *)

Definition single_line (l : string) : Prop := str_has nl l = false.

Lemma split_joined (ls : list string) :
  ls <> [] -> Forall single_line ls -> split_on nl (str_join (String nl "") ls) = ls.
Proof.
  intros Hne H. induction H as [|l ls Hl _ IH]; [done|]. cbn. destruct ls as [|l' ls]; [by apply split_on_fresh|].
  change (l +:+ String nl "" +:+ str_join (String nl "") (l' :: ls)) with (l +:+ String nl (str_join (String nl "") (l' :: ls))).
  rewrite split_on_cons by done. by rewrite IH.
Qed.

(** Lines of one text that stay the same but for white space at their ends. *)
Definition same_line (a b : string) : Prop := trim_space a = trim_space b.

Lemma split_trim_left s w : w ∈ split_on nl (trim_left s) -> exists v, v ∈ split_on nl s /\ same_line v w.
Proof.
  revert w. induction s as [|c s IH]; intros w Hw; [by exists w|]. cbn [trim_left] in Hw.
  destruct (Ascii.is_space c) eqn:Ec; [|by exists w].
  destruct (IH w Hw) as (v & Hv & E). cbn [split_on]. destruct (decide (c = nl)) as [->|Hc].
  - exists v. split; [by right|done].
  - destruct (split_on nl s) as [|v0 vs] eqn:Es; [by apply elem_of_nil in Hv|].
    apply elem_of_cons in Hv as [->|Hv]; [|exists v; split; [by right|done]].
    exists (String c v0). split; [by left|]. unfold same_line. rewrite <- E.
    change (String c v0) with (String c "" +:+ v0). apply trim_blank_l. cbn. by rewrite Ec.
Qed.

Lemma blank_lines w v : blank_text w = true -> v ∈ split_on nl w -> blank_text v = true.
Proof.
  revert v. induction w as [|c w IH]; intros v Hb Hv; cbn in *; [by apply list_elem_of_singleton in Hv as ->|].
  apply andb_true_iff in Hb as [Hc Hb]. destruct (decide (c = nl)).
  - apply elem_of_cons in Hv as [->|Hv]; [done|by apply IH].
  - destruct (split_on nl w) as [|x xs] eqn:Es; [by apply split_on_nonempty in Es|].
    apply elem_of_cons in Hv as [->|Hv]; [|apply IH; [done|by right]]. cbn. rewrite Hc. apply IH; [done|by left].
Qed.

(** Lines of a text after which white space is cut. *)
Lemma split_blank_end a w :
  blank_text w = true -> exists l rest, split_on nl (a +:+ w) = l ++ rest
    /\ Forall2 (fun v u => exists b, u = v +:+ b /\ blank_text b = true) (split_on nl a) l.
Proof.
  intros Hw. induction a as [|c a IH].
  - change ("" +:+ w) with w. cbn. destruct (split_on nl w) as [|x xs] eqn:E; [by apply split_on_nonempty in E|].
    exists [x], xs. split; [done|]. constructor; [|done]. exists x. split; [done|]. eapply blank_lines; [done|]. rewrite E. by left.
  - rewrite str_app_cons. cbn [split_on]. destruct IH as (l & rest & E & H). destruct (decide (c = nl)).
    + exists ("" :: l), rest. rewrite E. split; [done|]. constructor; [by exists ""|done].
    + destruct (split_on nl a) as [|v vs] eqn:Ea; [by apply split_on_nonempty in Ea|].
      inversion H as [|? u ? us (b & -> & Hb) Hvs]; subst. rewrite E. exists (String c (v +:+ b) :: us), rest.
      split; [done|]. constructor; [|done]. exists b. by rewrite str_app_cons.
Qed.

Lemma split_trim s w : w ∈ split_on nl (trim_space s) -> exists v, v ∈ split_on nl s /\ same_line v w.
Proof.
  rewrite trim_space_end. intros Hw. destruct (trim_end_rest (trim_left s)) as (b & Eb & Hb).
  destruct (split_blank_end (trim_end (trim_left s)) b Hb) as (l & rest & E & H).
  rewrite <- Eb in E. apply list_elem_of_lookup in Hw as [i Hi].
  destruct (Forall2_lookup_l _ _ _ _ _ H Hi) as (u & Hu & b' & -> & Hb').
  destruct (split_trim_left s (w +:+ b')) as (v & Hv & Ev).
  { rewrite E. apply elem_of_app. left. by apply list_elem_of_lookup_2 in Hu. }
  exists v. split; [done|]. unfold same_line in *. rewrite Ev. by apply trim_blank_r.
Qed.

(** ** Scanning *)

Definition plain_line (l : string) : Prop := marker_of (trim_space l) = None /\ outputSentinelJSON (trim_space l) = None.

Lemma plain_same a b : same_line a b -> plain_line a -> plain_line b.
Proof. unfold plain_line. by intros ->. Qed.

Section scan.
Context (unmarshal : string -> option (option (gmap string JValue))).

Definition closed (st : Scan) : Prop := forall k, sc_in st k = false.

Lemma first_open_closed st : closed st -> first_open (sc_in st) = None.
Proof. intros H. unfold first_open. cbn. by rewrite !H. Qed.

Lemma scan_plain st l :
  closed st -> plain_line l -> scan_line unmarshal st l =
    {| sc_kept := sc_kept st ++ [l]; sc_in := sc_in st; sc_blocks := sc_blocks st; sc_structured := sc_structured st |}.
Proof. intros Hc [H1 H2]. unfold scan_line. by rewrite H1, first_open_closed, H2. Qed.

Lemma scan_plains ls : forall st, closed st -> Forall plain_line ls ->
  foldl (scan_line unmarshal) st ls =
    {| sc_kept := sc_kept st ++ ls; sc_in := sc_in st; sc_blocks := sc_blocks st; sc_structured := sc_structured st |}.
Proof.
  induction ls as [|l ls IH]; intros st Hc H; cbn; [rewrite app_nil_r; by destruct st|].
  apply Forall_cons in H as [Hl Hls]. rewrite scan_plain by done. rewrite IH by done. cbn. by rewrite <- app_assoc.
Qed.

(** Every line that is kept is a plain line. *)
Lemma scan_kept ls : forall st, Forall single_line ls -> Forall (fun l => plain_line l /\ single_line l) (sc_kept st) ->
  Forall (fun l => plain_line l /\ single_line l) (sc_kept (foldl (scan_line unmarshal) st ls)).
Proof.
  induction ls as [|l ls IH]; intros st Hl H; cbn; [done|]. apply Forall_cons in Hl as [Hl Hls]. apply IH; [done|].
  unfold scan_line. destruct (marker_of _) as [[? []]|] eqn:Em; [done|done|]. destruct (first_open _); [done|].
  destruct (outputSentinelJSON _) eqn:Eo; [done|]. cbn. apply Forall_app. split; [done|]. by apply Forall_singleton.
Qed.

Definition nothing_reported (text : string) : Extracted := {|
  ex_cleaned := text; ex_structured := None; ex_summary := ""; ex_publish := ""; ex_spawn := []; ex_memorize := [] |}.

Lemma scan_start_closed : closed scan_start.
Proof. done. Qed.

Lemma cleaned_reports_nothing output :
  let c := ex_cleaned (extractStructured unmarshal output) in extractStructured unmarshal c = nothing_reported c.
Proof.
  cbv zeta. cbn [extractStructured ex_cleaned]. set (kept := sc_kept _).
  assert (Forall (fun l => plain_line l /\ single_line l) kept) as Hk.
  { apply scan_kept; [|constructor]. apply Forall_forall. intros l Hl. by eapply split_no_sep. }
  set (c := trim_space _). assert (Forall plain_line (split_on nl c)) as Hc.
  { apply Forall_forall. intros w Hw. destruct (split_trim _ _ Hw) as (v & Hv & E). apply (plain_same v); [done|].
    destruct kept as [|l ls]; [by apply list_elem_of_singleton in Hv as ->|].
    rewrite Forall_forall in Hk. rewrite split_joined in Hv; [by apply Hk|done|]. apply Forall_forall. intros x Hx. by apply Hk. }
  unfold extractStructured. rewrite scan_plains by done. cbn. rewrite join_split.
  unfold nothing_reported. f_equal. apply trim_tight, tight_trim.
Qed.

(** ** What an agent writes *)

Inductive Segment :=
  | Text (l : string)
  | Report (l : string)
  | Block (k : BlockKind) (body : list string).

Definition start_marker (k : BlockKind) : string :=
  match k with
  | BSummary => summaryStartMarker | BPublish => publishStartMarker
  | BSpawn => spawnStartMarker | BMemorize => memorizeStartMarker
  end.

Definition end_marker (k : BlockKind) : string :=
  match k with
  | BSummary => summaryEndMarker | BPublish => publishEndMarker
  | BSpawn => spawnEndMarker | BMemorize => memorizeEndMarker
  end.

Definition segment_lines (s : Segment) : list string :=
  match s with
  | Text l | Report l => [l]
  | Block k body => start_marker k :: body ++ [end_marker k]
  end.

Definition segment_ok (s : Segment) : Prop :=
  match s with
  | Text l => plain_line l /\ single_line l
  | Report l => marker_of (trim_space l) = None /\ outputSentinelJSON (trim_space l) <> None /\ single_line l
  | Block k body => Forall (fun l => marker_of (trim_space l) = None /\ single_line l) body
  end.

Definition texts (segs : list Segment) : list string :=
  segs ≫= fun s => match s with Text l => [l] | _ => [] end.

Definition bodies (k : BlockKind) (segs : list Segment) : list (list string) :=
  segs ≫= fun s => match s with Block k' body => if decide (k' = k) then [body] else [] | _ => [] end.

(** The object of the last report that decodes. *)
Definition last_report (segs : list Segment) (before : option (gmap string JValue)) : option (gmap string JValue) :=
  foldl (fun acc s => match s with
                      | Report l => match outputSentinelJSON (trim_space l) ≫= unmarshal with Some obj => obj | None => acc end
                      | _ => acc
                      end) before segs.

Lemma marker_start k : marker_of (trim_space (start_marker k)) = Some (k, true).
Proof. by destruct k. Qed.

Lemma marker_end k : marker_of (trim_space (end_marker k)) = Some (k, false).
Proof. by destruct k. Qed.

Lemma append_last_snoc blocks b l : append_last l (blocks ++ [b]) = blocks ++ [b ++ [l]].
Proof. induction blocks as [|x blocks IH]; [done|]. cbn. rewrite IH. by destruct blocks. Qed.

Definition only_open (k : BlockKind) (st : Scan) : Prop := forall k', sc_in st k' = bool_decide (k' = k).

Lemma first_open_only k st : only_open k st -> first_open (sc_in st) = Some k.
Proof. intros H. unfold first_open. cbn. rewrite !H. by destruct k. Qed.

(** What a scan of some segments adds to a state. *)
Record adds (st : Scan) (kept : list string) (blocks : BlockKind -> list (list string))
    (structured : option (gmap string JValue)) (st' : Scan) : Prop := {
  ad_kept : sc_kept st' = sc_kept st ++ kept;
  ad_in : closed st';
  ad_blocks : forall k, sc_blocks st' k = sc_blocks st k ++ blocks k;
  ad_structured : sc_structured st' = structured;
}.

Lemma scan_body_line k st l :
  only_open k st -> marker_of (trim_space l) = None -> scan_line unmarshal st l =
    {| sc_kept := sc_kept st; sc_in := sc_in st; sc_blocks := upd k (append_last l (sc_blocks st k)) (sc_blocks st);
       sc_structured := sc_structured st |}.
Proof. intros Ho Hm. unfold scan_line. by rewrite Hm, (first_open_only k). Qed.

Lemma scan_body k blocks body : forall st open,
  only_open k st -> Forall (fun l => marker_of (trim_space l) = None /\ single_line l) body ->
  sc_blocks st k = blocks ++ [open] ->
  let st' := foldl (scan_line unmarshal) st body in
  sc_kept st' = sc_kept st /\ sc_in st' = sc_in st /\ sc_structured st' = sc_structured st
  /\ forall k', sc_blocks st' k' = if decide (k' = k) then blocks ++ [open ++ body] else sc_blocks st k'.
Proof.
  induction body as [|l body IH]; intros st open Ho Hb E; cbn.
  - split_and!; try done. intros k'. rewrite app_nil_r. case_decide as Hk; [by subst|done].
  - apply Forall_cons in Hb as [[Hm _] Hb]. rewrite (scan_body_line k) by done. set (st1 := Build_Scan _ _ _ _).
    destruct (IH st1 (open ++ [l])) as (A & B & C & D); [done|done| |].
    { cbn. unfold upd. rewrite decide_True by done. by rewrite E, append_last_snoc. }
    split_and!; [done|done|done|]. intros k'. rewrite D, <- app_assoc. case_decide as Hk; [done|]. cbn. unfold upd.
    by rewrite decide_False.
Qed.

Lemma scan_block st k body :
  closed st -> segment_ok (Block k body) ->
  adds st [] (fun k' => if decide (k' = k) then [body] else []) (sc_structured st)
    (foldl (scan_line unmarshal) st (segment_lines (Block k body))).
Proof.
  intros Hc Hb. cbn [segment_lines]. cbn [foldl]. rewrite foldl_app. unfold scan_line at 3. rewrite marker_start.
  set (st1 := Build_Scan _ _ _ _). assert (only_open k st1) as Ho.
  { intros k'. cbn. unfold upd. case_decide as Hk; [by rewrite bool_decide_true|by rewrite bool_decide_false]. }
  destruct (scan_body k (sc_blocks st k) body st1 []) as (A & B & C & D); [done|done|cbn; unfold upd; by rewrite decide_True|].
  cbn [foldl]. unfold scan_line at 1. rewrite marker_end. split; cbn.
  - by rewrite A, app_nil_r.
  - intros k'. cbn. unfold upd. case_decide; [done|]. rewrite B. cbn. unfold upd. by rewrite decide_False.
  - intros k'. rewrite D. case_decide as Hk; [by subst|]. cbn. unfold upd. by rewrite decide_False, app_nil_r.
  - done.
Qed.

Lemma scan_segment st s :
  closed st -> segment_ok s ->
  adds st (texts [s]) (fun k => bodies k [s]) (last_report [s] (sc_structured st)) (foldl (scan_line unmarshal) st (segment_lines s)).
Proof.
  intros Hc Hs. destruct s as [l|l|k body].
  - destruct Hs as [Hp _]. cbn [segment_lines foldl]. rewrite scan_plain by done. split; cbn; try done. intros k. by rewrite app_nil_r.
  - destruct Hs as (Hm & Ho & _). cbn [segment_lines foldl last_report texts]. unfold scan_line. rewrite Hm, first_open_closed by done.
    destruct (outputSentinelJSON _) as [j|] eqn:Ej; [|done]. split; cbn; rewrite ?app_nil_r; try done.
    intros k. by rewrite app_nil_r.
  - destruct (scan_block st k body Hc Hs) as [A B C D]. split; [done|done| |done]. intros k'. rewrite C. cbn. rewrite app_nil_r.
    destruct (decide (k' = k)), (decide (k = k')); congruence.
Qed.

Lemma scan_segments segs : forall st, closed st -> Forall segment_ok segs ->
  adds st (texts segs) (fun k => bodies k segs) (last_report segs (sc_structured st)) (foldl (scan_line unmarshal) st (segs ≫= segment_lines)).
Proof.
  induction segs as [|s segs IH]; intros st Hc H.
  - cbn. split; [by rewrite app_nil_r|done|intros k; by rewrite app_nil_r|done].
  - apply Forall_cons in H as [Hs H]. destruct (scan_segment st s Hc Hs) as [A B C D]. cbn [mbind list_bind]. rewrite foldl_app.
    destruct (IH (foldl (scan_line unmarshal) st (segment_lines s)) B H) as [A' B' C' D']. unfold texts, bodies in *. cbn [mbind list_bind] in *.
    rewrite !app_nil_r in *. split.
    + by rewrite A', A, <- app_assoc.
    + done.
    + intros k. rewrite C', C, app_nil_r. by rewrite <- app_assoc.
    + rewrite D', D. done.
Qed.

Lemma segments_single segs : Forall segment_ok segs -> Forall single_line (segs ≫= segment_lines).
Proof.
  intros H. apply Forall_bind. eapply Forall_impl; [exact H|]. intros [l|l|k body] Hs.
  - apply Forall_singleton. apply Hs.
  - apply Forall_singleton. apply Hs.
  - cbn. apply Forall_cons. split; [by destruct k|]. apply Forall_app. split.
    + eapply Forall_impl; [exact Hs|]. by intros ? [].
    + apply Forall_singleton. by destruct k.
Qed.

(** C35: The lines an agent writes (texts, sentinel lines and blocks whose bodies hold
    no marker line) are read back: the texts are what is shown, the object is that of
    the last sentinel line that decodes, and every block is a payload of its kind, in
    order, blank ones dropped; and of any output at all, reading what is shown again
    shows the same and reports nothing. *)
Theorem report_round_trip (segs : list Segment) (output : string) :
  Forall segment_ok segs ->
  let e := extractStructured unmarshal (str_join (String nl "") (segs ≫= segment_lines)) in
  let shown := ex_cleaned (extractStructured unmarshal output) in
  ex_cleaned e = trim_space (str_join (String nl "") (texts segs))
  /\ ex_structured e = last_report segs None
  /\ ex_summary e = str_join (String nl (String nl "")) (blockPayloads (bodies BSummary segs))
  /\ ex_publish e = str_join (String nl (String nl "")) (blockPayloads (bodies BPublish segs))
  /\ ex_spawn e = blockPayloads (bodies BSpawn segs)
  /\ ex_memorize e = blockPayloads (bodies BMemorize segs)
  /\ extractStructured unmarshal shown = nothing_reported shown.
Proof.
  intros H. cbv zeta. split_and!; [..|apply cleaned_reports_nothing].
  all: destruct (decide (segs ≫= segment_lines = [])) as [E|Hne];
    [destruct segs as [|[] segs]; [reflexivity|discriminate E..]|].
  all: unfold extractStructured; rewrite split_joined by (done || by apply segments_single);
    destruct (scan_segments segs scan_start scan_start_closed H) as [A B C D]; cbn [ex_cleaned ex_structured ex_summary ex_publish ex_spawn ex_memorize].
  - by rewrite A.
  - by rewrite D.
  - by rewrite C.
  - by rewrite C.
  - by rewrite C.
  - by rewrite C.
Qed.
End scan.

(** Decodes the texts that look like an object, to an empty one. *)
Definition decode_braces (s : string) : option (option (gmap string JValue)) :=
  if has_prefix s "{" then Some (Some ∅) else None.

(** A report wrapped in markdown, between texts and blocks. *)
Definition sample_report : list Segment :=
  [Text "Working on it."; Block BPublish ["All tests pass."; ""; "Merged."]; Report "- `APIARY_OUTPUT: {}`";
   Text "  Done."; Block BSpawn ["["; "]"]; Block BPublish [""]; Report "APIARY_OUTPUT: oops"; Text ""].

Lemma report_round_trip_witness :
  let e := extractStructured decode_braces (str_join (String nl "") (sample_report ≫= segment_lines)) in
  ex_cleaned e = "Working on it." +:+ String nl "  Done."
  /\ ex_structured e = Some ∅
  /\ ex_publish e = "All tests pass." +:+ String nl (String nl "Merged.")
  /\ ex_spawn e = ["[" +:+ String nl "]"]
  /\ extractStructured decode_braces (ex_cleaned e) = nothing_reported (ex_cleaned e).
Proof.
  assert (Forall segment_ok sample_report) as Hok.
  { repeat constructor; try discriminate; try reflexivity; vm_compute; discriminate. }
  destruct (report_round_trip decode_braces sample_report (str_join (String nl "") (sample_report ≫= segment_lines)) Hok)
    as (H1 & H2 & _ & H4 & H5 & _ & H7).
  cbv zeta. split; [rewrite H1; vm_compute; reflexivity|]. split; [rewrite H2; vm_compute; reflexivity|].
  split; [rewrite H4; vm_compute; reflexivity|]. split; [rewrite H5; vm_compute; reflexivity|exact H7].
Defined.

(** ** Requests *)

Lemma parse_blocks_spec {T} (one : string -> option T) many marker blocks :
  let r := parseRequestBlocks one many marker blocks in
  r.1 = (blocks ≫= fun b => match parseRequestBlock one many b with Ok l => l | Err _ => [] end)
  /\ length r.2 = length (List.filter (fun b => negb (is_ok (parseRequestBlock one many b))) blocks).
Proof.
  unfold parseRequestBlocks. set (n := length blocks). clearbody n.
  assert (forall f (acc : list T * list BlockError),
    let r := foldl (fun acc ib => match parseRequestBlock one many ib.2 with
      | Ok parsed => (acc.1 ++ parsed, acc.2)
      | Err array => (acc.1, acc.2 ++ [{| be_marker := marker; be_place := if 1 <? n then Some (S ib.1, n) else None; be_array := array |}])
      end) acc (imap (fun i b => (f i, b)) blocks) in
    r.1 = acc.1 ++ (blocks ≫= fun b => match parseRequestBlock one many b with Ok l => l | Err _ => [] end)
    /\ length r.2 = length acc.2 + length (List.filter (fun b => negb (is_ok (parseRequestBlock one many b))) blocks)) as H.
  { induction blocks as [|b blocks IH]; intros f acc; cbn; [rewrite app_nil_r; split; [done|lia]|].
    destruct (IH (f ∘ S) (match parseRequestBlock one many b with
      | Ok parsed => (acc.1 ++ parsed, acc.2)
      | Err array => (acc.1, acc.2 ++ [{| be_marker := marker; be_place := if 1 <? n then Some (S (f 0), n) else None; be_array := array |}])
      end)) as [H1 H2]. cbn zeta in H1, H2. unfold compose in *. cbn in H1, H2 |- *. rewrite H1, H2.
    destruct (parseRequestBlock one many b); cbn; rewrite ?length_app, <- ?app_assoc; cbn; split; (done || lia). }
  destruct (H id ([], [])) as [H1 H2]. split; [exact H1|exact H2].
Qed.

(** A malformed spawn block spawns nothing, and without one every request of every
    block is there; malformed memorize blocks lose only themselves. *)
Lemma requests_applied {Ts Tm} unmarshal (s1 : string -> option Ts) sN (m1 : string -> option Tm) mN output :
  let r := applyStructured unmarshal s1 sN m1 mN output in
  let e := extractStructured unmarshal output in
  let requests := option_list (sr_SpawnRequest r) ++ sr_SpawnRequests r in
  (sr_SpawnError r <> [] -> requests = [])
  /\ (sr_SpawnError r = [] <-> forall b, b ∈ ex_spawn e -> is_ok (parseRequestBlock s1 sN b) = true)
  /\ (sr_SpawnError r = [] -> requests = ex_spawn e ≫= fun b => match parseRequestBlock s1 sN b with Ok l => l | Err _ => [] end)
  /\ sr_MemorizeRequests r = ex_memorize e ≫= fun b => match parseRequestBlock m1 mN b with Ok l => l | Err _ => [] end.
Proof.
  cbv zeta. unfold applyStructured. cbn [sr_SpawnRequest sr_SpawnRequests sr_SpawnError sr_MemorizeRequests].
  destruct (parse_blocks_spec s1 sN "APIARY_SPAWN" (ex_spawn (extractStructured unmarshal output))) as [E1 E2].
  destruct (parse_blocks_spec m1 mN "APIARY_MEMORIZE" (ex_memorize (extractStructured unmarshal output))) as [E3 _].
  split_and!; [| | |done].
  - intros H. rewrite bool_decide_false by done. done.
  - rewrite <- length_zero_iff_nil, E2. rewrite <- (none_filter (fun b => negb (is_ok (parseRequestBlock s1 sN b)))), forallb_forall.
    setoid_rewrite list_elem_of_In. setoid_rewrite negb_involutive. done.
  - intros H. rewrite bool_decide_true by done. cbn [negb]. rewrite E1.
    destruct (ex_spawn _) as [|b [|b' l]]; [done| |done]. cbn. unfold parseRequestBlock.
    destruct (has_prefix b "[") eqn:Eb; cbn; [done|]. by destruct (s1 b).
Qed.
