(* ===== verification/Timing.v ===== *)
(** * Where the time of a run went (src/internal/runner/execution/timing.go,
      src/internal/db/timing.go)

    The tracker charges the time between two events of an agent's stream to one of
    five buckets, lists the slowest calls, and measures how long background tasks were
    alive. Times are nanoseconds of the monotonic clock; an event comes decoded, with
    the time it was read at. The order in which [Finish] visits a map is an argument,
    and the redaction of tokens a parameter. *)

From stdpp Require Import base gmap strings list sorting.
From Stdlib Require Import ZArith Ascii.
From S2P Require Import Prelude Text Model.

#[local] Open Scope Z_scope.

(** ** Events *)

Record TimingContent := { tc_Type : string; tc_Name : string; tc_ID : string; tc_Input : string; tc_ToolUseID : string }.

(** [timingEvent]; [te_UsageMs] is 0 when there is no usage. *)
Record TimingEvent := {
  te_Type : string;
  te_Subtype : string;
  te_Content : list TimingContent;
  te_TaskID : string;
  te_ToolUseID : string;
  te_Description : string;
  te_TaskType : string;
  te_SubagentType : string;
  te_WorkflowName : string;
  te_Status : string;
  te_UsageMs : Z;
}.

(** [model.ToolTiming] and [openCall]. *)
Record ToolTiming := { tt_Name : string; tt_Label : string; tt_DurationMS : Z; tt_Background : bool }.

Record OpenCall := { oc_name : string; oc_label : string; oc_started : Z; oc_background : bool; oc_toolUses : string }.

Record Tracker := {
  tr_last : Z;
  tr_thinkingSeen : bool;
  tr_thinking : Z;
  tr_writing : Z;
  tr_model : Z;
  tr_toolWait : Z;
  tr_other : Z;
  tr_openTools : gmap string OpenCall;
  tr_openTasks : gmap string OpenCall;
  tr_byToolUse : gmap string nat;
  tr_bg : list (Z * Z);
  tr_finished : list ToolTiming;
}.

(** [newTimingTracker]. *)
Definition newTimingTracker (start : Z) : Tracker := {|
  tr_last := start; tr_thinkingSeen := false; tr_thinking := 0; tr_writing := 0; tr_model := 0; tr_toolWait := 0; tr_other := 0;
  tr_openTools := ∅; tr_openTasks := ∅; tr_byToolUse := ∅; tr_bg := []; tr_finished := [] |}.

Definition set_thinkingSeen (b : bool) (t : Tracker) : Tracker := {|
  tr_last := tr_last t; tr_thinkingSeen := b; tr_thinking := tr_thinking t; tr_writing := tr_writing t; tr_model := tr_model t;
  tr_toolWait := tr_toolWait t; tr_other := tr_other t; tr_openTools := tr_openTools t; tr_openTasks := tr_openTasks t;
  tr_byToolUse := tr_byToolUse t; tr_bg := tr_bg t; tr_finished := tr_finished t |}.

Definition set_buckets (last thinking writing model toolWait other : Z) (t : Tracker) : Tracker := {|
  tr_last := last; tr_thinkingSeen := tr_thinkingSeen t; tr_thinking := thinking; tr_writing := writing; tr_model := model;
  tr_toolWait := toolWait; tr_other := other; tr_openTools := tr_openTools t; tr_openTasks := tr_openTasks t;
  tr_byToolUse := tr_byToolUse t; tr_bg := tr_bg t; tr_finished := tr_finished t |}.

Definition set_open (tools tasks : gmap string OpenCall) (bg : list (Z * Z)) (t : Tracker) : Tracker := {|
  tr_last := tr_last t; tr_thinkingSeen := tr_thinkingSeen t; tr_thinking := tr_thinking t; tr_writing := tr_writing t;
  tr_model := tr_model t; tr_toolWait := tr_toolWait t; tr_other := tr_other t; tr_openTools := tools; tr_openTasks := tasks;
  tr_byToolUse := tr_byToolUse t; tr_bg := bg; tr_finished := tr_finished t |}.

Definition set_finished (byToolUse : gmap string nat) (finished : list ToolTiming) (t : Tracker) : Tracker := {|
  tr_last := tr_last t; tr_thinkingSeen := tr_thinkingSeen t; tr_thinking := tr_thinking t; tr_writing := tr_writing t;
  tr_model := tr_model t; tr_toolWait := tr_toolWait t; tr_other := tr_other t; tr_openTools := tr_openTools t;
  tr_openTasks := tr_openTasks t; tr_byToolUse := byToolUse; tr_bg := tr_bg t; tr_finished := finished |}.

Definition endTurn : Tracker -> Tracker := set_thinkingSeen false.

(** [attribute]. *)
Definition attribute (at_ : Z) (endsThinking : bool) (t : Tracker) : Tracker :=
  let gap := at_ - tr_last t in
  let t := if endsThinking then set_thinkingSeen true t else t in
  let charge thinking writing model toolWait :=
    set_buckets at_ (tr_thinking t + thinking) (tr_writing t + writing) (tr_model t + model) (tr_toolWait t + toolWait) (tr_other t) t in
  if gap <=? 0 then charge 0 0 0 0
  else if negb (bool_decide (tr_openTools t = ∅)) then charge 0 0 0 gap
  else if endsThinking then charge gap 0 0 0
  else if tr_thinkingSeen t then charge 0 gap 0 0
  else charge 0 0 gap 0.

(** [assistantShape]. *)
Definition assistantShape (ev : TimingEvent) : bool * bool :=
  if negb (bool_decide (te_Type ev = "assistant")) || bool_decide (length (te_Content ev) = 0%nat) then (false, false)
  else
    let thinks c := str_in (tc_Type c) ["thinking"; "redacted_thinking"] in
    let hasOutput := existsb (fun c => negb (thinks c)) (te_Content ev) in
    (existsb thinks (te_Content ev) && negb hasOutput, hasOutput).

(** [Duration.Milliseconds] truncates. *)
Definition millis (d : Z) : Z := Z.quot d 1000000.

Definition slowToolMinDuration : Z := 1000000000.

(** [record]. *)
Definition record_call (call : OpenCall) (d : Z) (t : Tracker) : Tracker :=
  let entry := {| tt_Name := oc_name call; tt_Label := oc_label call; tt_DurationMS := millis d; tt_Background := oc_background call |} in
  let append byToolUse := set_finished byToolUse (tr_finished t ++ [entry]) t in
  if d <? slowToolMinDuration then t
  else if is_empty (oc_toolUses call) then append (tr_byToolUse t)
  else match tr_byToolUse t !! oc_toolUses call with
       | None => append (<[oc_toolUses call := length (tr_finished t)]> (tr_byToolUse t))
       | Some i =>
           let merge e := {|
             tt_Name := if oc_background call then oc_name call else tt_Name e;
             tt_Label := if oc_background call then oc_label call else tt_Label e;
             tt_DurationMS := if tt_DurationMS e <? millis d then millis d else tt_DurationMS e;
             tt_Background := oc_background call || tt_Background e |} in
           set_finished (tr_byToolUse t) (alter merge i (tr_finished t)) t
       end.

(** [backgroundName]. *)
Definition backgroundName (ev : TimingEvent) : string :=
  if negb (is_empty (te_WorkflowName ev)) then "workflow:" +:+ te_WorkflowName ev
  else if negb (is_empty (te_SubagentType ev)) then "agent:" +:+ te_SubagentType ev
  else if negb (is_empty (te_TaskType ev)) then "task:" +:+ te_TaskType ev
  else "task".

Definition capped (n : nat) (s : string) : string :=
  if (n <? String.length s)%nat then String.substring 0 n s +:+ "…" else s.

Section feed.
Context (redact : string -> string).

(** [toolLabel], of [jwtPattern.ReplaceAllString], and [truncateInput]. *)
Definition toolLabel (s : string) : string := capped 120 (str_join " " (str_fields (trim_space (redact s)))).

Definition truncateInput (raw : string) : string :=
  let s := trim_space raw in
  if str_in s [""; "null"] then "" else capped 240 (str_join " " (str_fields s)).

(** The cases of [Feed]. *)
Definition open_tools (at_ : Z) (t : Tracker) (c : TimingContent) : Tracker :=
  if negb (bool_decide (tc_Type c = "tool_use")) || is_empty (tc_ID c) then t
  else
    let call := {| oc_name := tc_Name c; oc_label := toolLabel (truncateInput (tc_Input c)); oc_started := at_;
                   oc_background := false; oc_toolUses := tc_ID c |} in
    set_open (<[tc_ID c := call]> (tr_openTools t)) (tr_openTasks t) (tr_bg t) t.

Definition close_tool (at_ : Z) (t : Tracker) (c : TimingContent) : Tracker :=
  if negb (bool_decide (tc_Type c = "tool_result")) || is_empty (tc_ToolUseID c) then t
  else match tr_openTools t !! tc_ToolUseID c with
       | None => t
       | Some call =>
           record_call call (at_ - oc_started call)
             (set_open (delete (tc_ToolUseID c) (tr_openTools t)) (tr_openTasks t) (tr_bg t) t)
       end.

Definition task_started (at_ : Z) (ev : TimingEvent) (t : Tracker) : Tracker :=
  if is_empty (te_TaskID ev) then t
  else
    let call := {| oc_name := backgroundName ev; oc_label := toolLabel (te_Description ev); oc_started := at_;
                   oc_background := true; oc_toolUses := te_ToolUseID ev |} in
    set_open (tr_openTools t) (<[te_TaskID ev := call]> (tr_openTasks t)) (tr_bg t) t.

Definition task_notified (at_ : Z) (ev : TimingEvent) (t : Tracker) : Tracker :=
  match tr_openTasks t !! te_TaskID ev with
  | None => t
  | Some call =>
      let t := set_open (tr_openTools t) (delete (te_TaskID ev) (tr_openTasks t)) (tr_bg t ++ [(oc_started call, at_)]) t in
      let d := if 0 <? te_UsageMs ev then te_UsageMs ev * 1000000 else at_ - oc_started call in
      let label := if is_empty (te_Status ev) || bool_decide (te_Status ev = "completed") then oc_label call
                   else trim_space (oc_label call +:+ " (" +:+ te_Status ev +:+ ")") in
      record_call {| oc_name := oc_name call; oc_label := label; oc_started := oc_started call;
                     oc_background := oc_background call; oc_toolUses := oc_toolUses call |} d t
  end.

(** [Feed], of a line that decodes to an event with a type. *)
Definition Feed (at_ : Z) (ev : TimingEvent) (t : Tracker) : Tracker :=
  let '(thinkingOnly, hasOutput) := assistantShape ev in
  let t := attribute at_ ((bool_decide (te_Type ev = "system") && bool_decide (te_Subtype ev = "thinking_tokens")) || thinkingOnly) t in
  if bool_decide (te_Type ev = "assistant") then
    foldl (open_tools at_) (if hasOutput then endTurn t else t) (te_Content ev)
  else if bool_decide (te_Type ev = "user") then foldl (close_tool at_) (endTurn t) (te_Content ev)
  else if bool_decide (te_Type ev = "system") then
    if bool_decide (te_Subtype ev = "task_started") then task_started at_ ev t
    else if bool_decide (te_Subtype ev = "task_notification") then task_notified at_ ev t
    else t
  else t.
End feed.

(** ** The report *)

(** The stable sorts by duration, slowest first: an entry goes behind those that are
    not faster. *)
Fixpoint insert_slow (l : list ToolTiming) (e : ToolTiming) : list ToolTiming :=
  match l with
  | [] => [e]
  | x :: l' =>
      if forallb (fun y => tt_DurationMS y <? tt_DurationMS e) l then e :: l else x :: insert_slow l' e
  end.

Definition slowest_first (l : list ToolTiming) : list ToolTiming := foldl insert_slow [] l.

Definition maxSlowTools : nat := 5.

(** [slowest]. *)
Definition slowest (t : Tracker) : list ToolTiming := take maxSlowTools (slowest_first (tr_finished t)).

(** Intervals by their start. *)
Definition starts_before (a b : Z * Z) : Prop := a.1 <= b.1.

Section finish.
Context `{!Sorter starts_before}.

(** [mergedDuration]. *)
Fixpoint merge_from (total : Z) (cur : Z * Z) (l : list (Z * Z)) : Z :=
  match l with
  | [] => total + (cur.2 - cur.1)
  | iv :: l =>
      if cur.2 <? iv.1 then merge_from (total + (cur.2 - cur.1)) iv l
      else merge_from total (cur.1, if cur.2 <? iv.2 then iv.2 else cur.2) l
  end.

Definition mergedDuration (l : list (Z * Z)) : Z :=
  match sort_by starts_before l with
  | [] => 0
  | cur :: rest => merge_from 0 cur rest
  end.

(** [model.Timing]. *)
Record Timing := {
  ti_ThinkingMS : Z;
  ti_WritingMS : Z;
  ti_ModelMS : Z;
  ti_ToolWaitMS : Z;
  ti_OtherMS : Z;
  ti_BackgroundMS : Z;
  ti_TotalMS : Z;
  ti_SlowTools : list ToolTiming;
}.

(** The loops of [Finish] over what is still open. *)
Definition finish_tool (end_ : Z) (t : Tracker) (id : string) : Tracker :=
  match tr_openTools t !! id with
  | None => t
  | Some call => record_call call (end_ - oc_started call) (set_open (delete id (tr_openTools t)) (tr_openTasks t) (tr_bg t) t)
  end.

Definition finish_task (end_ : Z) (t : Tracker) (id : string) : Tracker :=
  match tr_openTasks t !! id with
  | None => t
  | Some call =>
      record_call call (end_ - oc_started call)
        (set_open (tr_openTools t) (delete id (tr_openTasks t)) (tr_bg t ++ [(oc_started call, end_)]) t)
  end.

(** [Finish] with the open tools and tasks in the order they are visited. *)
Definition close_timeline (end_ : Z) (tools tasks : list string) (t : Tracker) : Tracker :=
  let gap := end_ - tr_last t in
  let t := if 0 <? gap
           then set_buckets end_ (tr_thinking t) (tr_writing t) (tr_model t) (tr_toolWait t) (tr_other t + gap) t
           else t in
  foldl (finish_task end_) (foldl (finish_tool end_) t tools) tasks.

Definition timing_of (t : Tracker) : Timing :=
  let th := millis (tr_thinking t) in let wr := millis (tr_writing t) in let mo := millis (tr_model t) in
  let tw := millis (tr_toolWait t) in let ot := millis (tr_other t) in
  {| ti_ThinkingMS := th; ti_WritingMS := wr; ti_ModelMS := mo; ti_ToolWaitMS := tw; ti_OtherMS := ot;
     ti_BackgroundMS := millis (mergedDuration (tr_bg t)); ti_TotalMS := th + wr + mo + tw + ot; ti_SlowTools := slowest t |}.

Definition Finish (end_ : Z) (tools tasks : list string) (t : Tracker) : option Timing :=
  let out := timing_of (close_timeline end_ tools tasks t) in
  if (ti_TotalMS out =? 0) && bool_decide (length (ti_SlowTools out) = 0%nat) then None else Some out.
End finish.

(** ** The timing of a step (db/timing.go)

    The slow tools are kept as JSON in the row; here the list itself. *)

Record StepTiming := {
  sg_ThinkingMS : Z;
  sg_WritingMS : Z;
  sg_ModelMS : Z;
  sg_ToolWaitMS : Z;
  sg_OtherMS : Z;
  sg_BackgroundMS : Z;
  sg_SlowTools : list ToolTiming;
}.

Definition zero_timing : StepTiming := {|
  sg_ThinkingMS := 0; sg_WritingMS := 0; sg_ModelMS := 0; sg_ToolWaitMS := 0; sg_OtherMS := 0; sg_BackgroundMS := 0; sg_SlowTools := [] |}.

Definition TotalMS (t : StepTiming) : Z := sg_ThinkingMS t + sg_WritingMS t + sg_ModelMS t + sg_ToolWaitMS t + sg_OtherMS t.

Definition HasTiming (t : StepTiming) : bool := (0 <? TotalMS t) || (0 <? sg_BackgroundMS t).

Definition TimingFrom (t : option Timing) : StepTiming :=
  match t with
  | None => zero_timing
  | Some t => {| sg_ThinkingMS := ti_ThinkingMS t; sg_WritingMS := ti_WritingMS t; sg_ModelMS := ti_ModelMS t;
                 sg_ToolWaitMS := ti_ToolWaitMS t; sg_OtherMS := ti_OtherMS t; sg_BackgroundMS := ti_BackgroundMS t;
                 sg_SlowTools := ti_SlowTools t |}
  end.

Definition ToModel (t : StepTiming) : Timing := {|
  ti_ThinkingMS := sg_ThinkingMS t; ti_WritingMS := sg_WritingMS t; ti_ModelMS := sg_ModelMS t; ti_ToolWaitMS := sg_ToolWaitMS t;
  ti_OtherMS := sg_OtherMS t; ti_BackgroundMS := sg_BackgroundMS t; ti_TotalMS := TotalMS t; ti_SlowTools := sg_SlowTools t |}.

Definition maxPersistedSlowTools : nat := 5.

(** [StepTiming.Add]. *)
Definition Add (t other : StepTiming) : StepTiming :=
  let merged := sg_SlowTools t ++ sg_SlowTools other in
  {| sg_ThinkingMS := sg_ThinkingMS t + sg_ThinkingMS other; sg_WritingMS := sg_WritingMS t + sg_WritingMS other;
     sg_ModelMS := sg_ModelMS t + sg_ModelMS other; sg_ToolWaitMS := sg_ToolWaitMS t + sg_ToolWaitMS other;
     sg_OtherMS := sg_OtherMS t + sg_OtherMS other; sg_BackgroundMS := sg_BackgroundMS t + sg_BackgroundMS other;
     sg_SlowTools := if bool_decide (length merged = 0%nat) then sg_SlowTools t
                     else take maxPersistedSlowTools (slowest_first merged) |}.
