(* ===== verification/TimingProps.v ===== *)
(** * Where the time of a run went: nothing is lost or counted twice

    The five buckets partition the time of a run, the background time is the measure
    of the union of the tasks' intervals, and the calls that are listed are the
    slowest ones. *)

From stdpp Require Import base gmap strings list sorting.
From Stdlib Require Import ZArith Ascii Sorted.
From S2P Require Import Prelude Text Model Timing.

#[local] Open Scope Z_scope.

(** ** Buckets *)

Definition spent (t : Tracker) : Z := tr_thinking t + tr_writing t + tr_model t + tr_toolWait t + tr_other t.

(** Bookkeeping that leaves the clock alone. *)
Definition same_time (t t' : Tracker) : Prop :=
  tr_last t' = tr_last t /\ tr_thinking t' = tr_thinking t /\ tr_writing t' = tr_writing t /\ tr_model t' = tr_model t
  /\ tr_toolWait t' = tr_toolWait t /\ tr_other t' = tr_other t.

#[local] Instance same_time_preorder : PreOrder same_time.
Proof. split; [by repeat split|]. intros a b c (?&?&?&?&?&?) (?&?&?&?&?&?). repeat split; congruence. Qed.

Lemma same_time_spent t t' : same_time t t' -> spent t' = spent t.
Proof. intros (_ & ? & ? & ? & ? & ?). unfold spent. congruence. Qed.

Lemma record_same_time call d t : same_time t (record_call call d t).
Proof. unfold record_call. repeat case_match; done. Qed.

Lemma foldl_same_time {A} (f : Tracker -> A -> Tracker) l t :
  (forall t a, same_time t (f t a)) -> same_time t (foldl f t l).
Proof. intros H. revert t. induction l as [|a l IH]; intros t; cbn; [done|]. etrans; [apply H|apply IH]. Qed.

(** Every open call began, and every interval ended, by the last event; they begin
    no earlier than the run. *)
Record tracker_ok (start : Z) (t : Tracker) : Prop := {
  tk_start : start <= tr_last t;
  tk_spent : spent t = tr_last t - start;
  tk_parts : 0 <= tr_thinking t /\ 0 <= tr_writing t /\ 0 <= tr_model t /\ 0 <= tr_toolWait t /\ 0 <= tr_other t;
  tk_tasks : forall id call, tr_openTasks t !! id = Some call -> start <= oc_started call <= tr_last t;
  tk_bg : forall iv, iv ∈ tr_bg t -> start <= iv.1 <= iv.2 /\ iv.2 <= tr_last t;
}.

Lemma start_ok start : tracker_ok start (newTimingTracker start).
Proof. split; cbn; try (unfold spent; cbn; lia); [by intros id call ?%lookup_empty_Some|by intros iv ?%elem_of_nil]. Qed.

Lemma attribute_ok start at_ b t : tracker_ok start t -> tr_last t <= at_ -> tracker_ok start (attribute at_ b t) /\ tr_last (attribute at_ b t) = at_.
Proof.
  intros [A B (C1 & C2 & C3 & C4 & C5) D E] Hat. unfold spent in B.
  unfold attribute. destruct (Z.leb_spec (at_ - tr_last t) 0).
  all: destruct b; cbn [set_thinkingSeen tr_openTools tr_thinkingSeen];
    try (destruct (negb (bool_decide (tr_openTools t = ∅)))); try (destruct (tr_thinkingSeen t)).
  all: (split; [split; cbn; unfold spent; cbn; try lia|done]).
  all: try (intros id call Hc; specialize (D _ _ Hc); lia).
  all: intros iv Hiv; specialize (E _ Hiv); lia.
Qed.

(** A step that may close tasks at the present time. *)
Lemma keeps_ok start t t' :
  tracker_ok start t -> same_time t t' ->
  (forall id call, tr_openTasks t' !! id = Some call -> tr_openTasks t !! id = Some call \/ oc_started call = tr_last t) ->
  (forall iv, iv ∈ tr_bg t' -> iv ∈ tr_bg t \/ (iv.2 = tr_last t /\ exists id call, tr_openTasks t !! id = Some call /\ iv.1 = oc_started call)) ->
  tracker_ok start t'.
Proof.
  intros [A B C D E] Hs H1 H2. pose proof (same_time_spent _ _ Hs) as Hsp. destruct Hs as (S1 & S2 & S3 & S4 & S5 & S6).
  split; rewrite ?S1, ?Hsp, ?S2, ?S3, ?S4, ?S5, ?S6; try done.
  - intros id call Hc. destruct (H1 _ _ Hc) as [Hc'| ->]; [by eapply D|lia].
  - intros iv Hiv. destruct (H2 _ Hiv) as [Hiv'|(E2 & id & call & Hc & E1)]; [by apply E|].
    specialize (D _ _ Hc). rewrite E1, E2. lia.
Qed.

Lemma record_open call d t : tr_openTasks (record_call call d t) = tr_openTasks t /\ tr_bg (record_call call d t) = tr_bg t.
Proof. unfold record_call. repeat case_match; done. Qed.

(** Steps that leave the tasks alone. *)
Definition same_tasks (t t' : Tracker) : Prop := same_time t t' /\ tr_openTasks t' = tr_openTasks t /\ tr_bg t' = tr_bg t.

Lemma same_tasks_ok start t t' : tracker_ok start t -> same_tasks t t' -> tracker_ok start t'.
Proof.
  intros Hok (Hs & E1 & E2). apply (keeps_ok _ _ _ Hok Hs); [rewrite E1; by left|rewrite E2; by left].
Qed.

Lemma record_same_tasks call d t t' : same_tasks t t' -> same_tasks t (record_call call d t').
Proof.
  intros (H & E1 & E2). destruct (record_open call d t') as [F1 F2]. repeat split; [..|congruence|congruence].
  all: by eapply (transitivity H (record_same_time call d t')).
Qed.

Lemma foldl_ok {A} (f : Tracker -> A -> Tracker) l start t last :
  (forall t a, tracker_ok start t -> tr_last t = last -> tracker_ok start (f t a) /\ tr_last (f t a) = last) ->
  tracker_ok start t -> tr_last t = last -> tracker_ok start (foldl f t l) /\ tr_last (foldl f t l) = last.
Proof. intros H. revert t. induction l as [|a l IH]; intros t Hok Hl; cbn; [done|]. destruct (H t a Hok Hl). by apply IH. Qed.

Lemma same_tasks_step start t t' last :
  tracker_ok start t -> tr_last t = last -> same_tasks t t' -> tracker_ok start t' /\ tr_last t' = last.
Proof. intros Hok Hl H. split; [by eapply same_tasks_ok|]. destruct H as [[-> _] _]. done. Qed.

Lemma close_task_ok start t t' id call last c d :
  tracker_ok start t -> tr_last t = last -> tr_openTasks t !! id = Some call ->
  t' = record_call c d (set_open (tr_openTools t) (delete id (tr_openTasks t)) (tr_bg t ++ [(oc_started call, last)]) t) ->
  tracker_ok start t' /\ tr_last t' = last.
Proof.
  intros Hok Hl Hc ->. set (t1 := set_open _ _ _ _). pose proof (record_same_time c d t1) as Hs.
  destruct (record_open c d t1) as [E1 E2].
  split; [|destruct Hs as [-> _]; done]. apply (keeps_ok _ t); [done|exact Hs| |].
  - rewrite E1. cbn. intros id' call' [_ H]%lookup_delete_Some. by left.
  - rewrite E2. cbn. intros iv [H|H%list_elem_of_singleton]%elem_of_app; [by left|right]. subst iv. cbn.
    split; [done|]. by exists id, call.
Qed.

Section feed.
Context (redact : string -> string).

Lemma feed_ok start at_ ev t :
  tracker_ok start t -> tr_last t <= at_ -> tracker_ok start (Feed redact at_ ev t) /\ tr_last (Feed redact at_ ev t) = at_.
Proof.
  intros Hok Hat. unfold Feed. destruct (assistantShape ev) as [thinkingOnly hasOutput].
  destruct (attribute_ok start at_ ((bool_decide (te_Type ev = "system") && bool_decide (te_Subtype ev = "thinking_tokens")) || thinkingOnly) t Hok Hat) as [Hok1 Hl].
  set (t1 := attribute _ _ _) in *. clearbody t1. clear Hok Hat.
  assert (same_tasks t1 (endTurn t1)) as Hend by (by repeat split).
  assert (forall b : bool, tracker_ok start (if b then endTurn t1 else t1) /\ tr_last (if b then endTurn t1 else t1) = at_) as He
    by (intros []; [by apply (same_tasks_step start t1)|done]).
  destruct (bool_decide (te_Type ev = "assistant")).
  { destruct (He hasOutput). apply (foldl_ok _ _ start); [|done|done]. intros t2 c Ht2 Hl2.
    apply (same_tasks_step start t2); [done|done|]. unfold open_tools. by destruct (_ || _). }
  destruct (bool_decide (te_Type ev = "user")).
  { destruct (He true). apply (foldl_ok _ _ start); [|done|done]. intros t2 c Ht2 Hl2.
    apply (same_tasks_step start t2); [done|done|]. unfold close_tool. destruct (_ || _); [done|].
    destruct (_ !! _); [|done]. by apply record_same_tasks. }
  destruct (bool_decide (te_Type ev = "system")); [|done].
  destruct (bool_decide (te_Subtype ev = "task_started")).
  { unfold task_started. destruct (is_empty _); [done|]. split; [|done]. apply (keeps_ok _ t1); [done|done| |by left].
    cbn. intros id call [[_ <-]|[_ H]]%lookup_insert_Some; [right; cbn; done|by left]. }
  destruct (bool_decide (te_Subtype ev = "task_notification")); [|done].
  unfold task_notified. destruct (_ !! _) as [call|] eqn:Ec; [|done]. cbv zeta.
  eapply (close_task_ok start t1); [done|exact Hl|exact Ec|reflexivity].
Qed.

(** A stream: events with the times they are read at, which do not decrease. *)
Definition fed (start : Z) (events : list (Z * TimingEvent)) : Tracker :=
  foldl (fun t e => Feed redact e.1 e.2 t) (newTimingTracker start) events.

Lemma feed_all_ok start events : forall t,
  tracker_ok start t -> Sorted Z.le (tr_last t :: (fst <$> events)) ->
  let t' := foldl (fun t e => Feed redact e.1 e.2 t) t events in
  tracker_ok start t' /\ tr_last t' = default (tr_last t) (last (fst <$> events)).
Proof.
  induction events as [|[at_ ev] events IH]; intros t Hok Hs; cbn; [done|].
  inversion Hs as [|? ? Hs' Hhd]; subst. inversion Hhd; subst. destruct (feed_ok start at_ ev t Hok) as [Hok' Hl]; [done|].
  destruct (IH (Feed redact at_ ev t)) as [H1 H2]; [done|by rewrite Hl|]. split; [done|]. rewrite H2, Hl.
  change (fst <$> (at_, ev) :: events) with (at_ :: (fst <$> events)). rewrite last_cons. by destruct (last _).
Qed.
End feed.

Lemma close_ok start end_ tools tasks t :
  tracker_ok start t -> tr_last t <= end_ ->
  tracker_ok start (close_timeline end_ tools tasks t) /\ tr_last (close_timeline end_ tools tasks t) = end_.
Proof.
  intros Hok Hend. unfold close_timeline.
  set (t1 := if 0 <? end_ - tr_last t then _ else t). assert (tracker_ok start t1 /\ tr_last t1 = end_) as [H1 H2].
  { unfold t1. destruct (Z.ltb_spec 0 (end_ - tr_last t)).
    - destruct Hok as [A B C D E]. unfold spent in B. split; [|done]. split; cbn; unfold spent; cbn; try lia.
      + intros id call Hc. specialize (D _ _ Hc). lia.
      + intros iv Hiv. specialize (E _ Hiv). lia.
    - split; [done|lia]. }
  destruct (foldl_ok (finish_tool end_) tools start t1 end_) as [H3 H4]; [|done|done|].
  - intros t2 id Ht2 Hl2. apply (same_tasks_step start t2); [done|done|]. unfold finish_tool.
    destruct (_ !! _); [|done]. by apply record_same_tasks.
  - apply (foldl_ok _ _ start); [|done|done]. intros t2 id Ht2 Hl2. unfold finish_task.
    destruct (_ !! _) as [call|] eqn:Ec; [|done]. by eapply close_task_ok.
Qed.

(** ** The union of intervals *)

(** The instants of [lo, hi) at which one of the intervals is open. *)
Definition measure (l : list (Z * Z)) (lo hi : Z) : Z :=
  Z.of_nat (length (List.filter (fun x => existsb (fun iv => (iv.1 <=? x) && (x <? iv.2)) l) (seqZ lo (hi - lo)))).

Lemma measure_split l lo mid hi : lo <= mid <= hi -> measure l lo hi = measure l lo mid + measure l mid hi.
Proof.
  intros H. unfold measure. replace (hi - lo) with ((mid - lo) + (hi - mid)) by lia.
  rewrite seqZ_app by lia. rewrite List.filter_app, length_app. replace (lo + (mid - lo)) with mid by lia. lia.
Qed.

Lemma measure_ext l l' lo hi :
  (forall x, lo <= x < hi -> (exists iv, iv ∈ l /\ iv.1 <= x < iv.2) <-> (exists iv, iv ∈ l' /\ iv.1 <= x < iv.2)) ->
  measure l lo hi = measure l' lo hi.
Proof.
  intros H. unfold measure. do 2 f_equal. apply List.filter_ext_in. intros x Hx%list_elem_of_In%elem_of_seqZ.
  assert (forall l, existsb (fun iv => (iv.1 <=? x) && (x <? iv.2)) l = true <-> exists iv, iv ∈ l /\ iv.1 <= x < iv.2) as Hb.
  { intros k. rewrite existsb_elem. setoid_rewrite andb_true_iff. setoid_rewrite Z.leb_le. setoid_rewrite Z.ltb_lt. done. }
  apply eq_true_iff_eq. rewrite !Hb. apply H. lia.
Qed.

Lemma measure_full l lo hi : lo <= hi -> (forall x, lo <= x < hi -> exists iv, iv ∈ l /\ iv.1 <= x < iv.2) -> measure l lo hi = hi - lo.
Proof.
  intros Hle H. rewrite (measure_ext l [(lo, hi)]).
  - unfold measure. rewrite filter_true; [rewrite length_seqZ; lia|]. intros x Hx%list_elem_of_In%elem_of_seqZ. cbn.
    rewrite orb_false_r. apply andb_true_iff. rewrite Z.leb_le, Z.ltb_lt. lia.
  - intros x Hx. split; intros _; [|by apply H]. exists (lo, hi). split; [by left|cbn; lia].
Qed.

Lemma measure_none l lo hi : (forall x iv, lo <= x < hi -> iv ∈ l -> ~ (iv.1 <= x < iv.2)) -> measure l lo hi = 0.
Proof.
  intros H. rewrite (measure_ext l []); [by unfold measure; rewrite (List.filter_ext _ (fun _ => false)); [induction (seqZ _ _)|]|].
  intros x Hx. split; [|by intros (? & ?%elem_of_nil & _)]. intros (iv & Hiv & Hin). by destruct (H x iv).
Qed.

Lemma merge_from_measure l : forall total cur lo hi,
  cur.1 <= cur.2 -> lo <= cur.1 -> (forall iv, iv ∈ cur :: l -> iv.1 <= iv.2 <= hi) -> StronglySorted starts_before (cur :: l) ->
  merge_from total cur l = total + measure (cur :: l) cur.1 hi.
Proof.
  induction l as [|iv l IH]; intros total [s e] lo hi Hc Hlo Hin Hs; cbn [merge_from fst snd] in *.
  - assert (e <= hi) by (apply (Hin (s, e)); by left). rewrite (measure_split _ s e) by lia.
    rewrite measure_full, measure_none; [lia| |lia|].
    + intros x ? Hx ->%list_elem_of_singleton. cbn. lia.
    + intros x Hx. exists (s, e). split; [by left|cbn; lia].
  - apply StronglySorted_inv in Hs as [Hs Hhd]. apply Forall_cons in Hhd as [Hiv Hl]. unfold starts_before in Hiv. cbn in Hiv.
    assert (iv.1 <= iv.2 <= hi) as Hb by (apply Hin; right; left). assert (e <= hi) by (apply (Hin (s, e)); by left).
    destruct (Z.ltb_spec e iv.1).
    + rewrite (IH _ iv lo hi); [|lia|lia|intros j Hj; apply Hin; by right|done].
      rewrite (measure_split ((s, e) :: iv :: l) s e) by lia. rewrite (measure_split ((s, e) :: iv :: l) e iv.1) by lia.
      rewrite (measure_full _ s e); [|lia|intros x Hx; exists (s, e); split; [by left|cbn; lia]].
      rewrite (measure_none _ e iv.1).
      2: { intros x j Hx [->|Hj]%elem_of_cons; [cbn; lia|]. apply elem_of_cons in Hj as [->|Hj]; [lia|].
           apply StronglySorted_inv in Hs as [_ Hs]. rewrite Forall_forall in Hs. specialize (Hs j Hj). unfold starts_before in Hs. lia. }
      rewrite (measure_ext ((s, e) :: iv :: l) (iv :: l) iv.1 hi); [lia|].
      intros x Hx. split; [|intros (j & Hj & Hr); exists j; split; [by right|done]].
      intros (j & [->|Hj]%elem_of_cons & Hr); [cbn in Hr; lia|by exists j].
    + set (e' := if e <? iv.2 then iv.2 else e). assert (e' = Z.max e iv.2) as He' by (unfold e'; destruct (Z.ltb_spec e iv.2); lia).
      rewrite (IH _ (s, e') lo hi); cbn.
      * f_equal. apply measure_ext. intros x Hx. split.
        -- intros (j & [->|Hj]%elem_of_cons & Hr); [|exists j; split; [by do 2 right|done]]. cbn in Hr.
           destruct (decide (x < e)); [exists (s, e); split; [by left|cbn; lia]|].
           exists iv. split; [right; by left|lia].
        -- intros (j & [->|Hj]%elem_of_cons & Hr); [exists (s, e'); split; [by left|cbn in *; lia]|].
           apply elem_of_cons in Hj as [->|Hj]; [exists (s, e'); split; [by left|cbn; lia]|exists j; split; [by right|done]].
      * lia.
      * done.
      * intros j [->|Hj]%elem_of_cons; [cbn; lia|]. apply Hin. by do 2 right.
      * apply StronglySorted_inv in Hs as [Hs _]. by constructor.
Qed.

Section finish.
Context `{!Sorter starts_before}.

Lemma mergedDuration_measure l lo hi :
  (forall iv, iv ∈ l -> lo <= iv.1 <= iv.2 /\ iv.2 <= hi) -> mergedDuration l = measure l lo hi.
Proof.
  intros H. unfold mergedDuration. pose proof (sort_by_sorted (R := starts_before) l) as Hs.
  assert (forall iv, iv ∈ sort_by starts_before l <-> iv ∈ l) as Hm by (intros iv; apply elem_of_sort_by).
  rewrite (measure_ext l (sort_by starts_before l)) by (intros x _; by setoid_rewrite Hm).
  destruct (sort_by starts_before l) as [|cur rest]; [by rewrite measure_none by (by intros ? ? _ ?%elem_of_nil)|].
  assert (forall iv, iv ∈ cur :: rest -> lo <= iv.1 <= iv.2 /\ iv.2 <= hi) as Hb by (intros iv Hiv; by apply H, Hm).
  destruct (Hb cur) as [? ?]; [by left|].
  rewrite (merge_from_measure _ _ _ lo hi); [|lia|lia|intros iv Hiv; specialize (Hb _ Hiv); lia|done].
  rewrite (measure_split _ lo cur.1 hi) by lia. rewrite (measure_none _ lo cur.1); [lia|].
  intros x iv Hx [->|Hiv]%elem_of_cons; [lia|]. apply StronglySorted_inv in Hs as [_ Hs]. rewrite Forall_forall in Hs.
  specialize (Hs _ Hiv). unfold starts_before in Hs. lia.
Qed.
End finish.

(** ** The slowest calls *)

Definition slower (a b : ToolTiming) : Prop := tt_DurationMS b <= tt_DurationMS a.

Lemma insert_slow_perm l e : insert_slow l e ≡ₚ e :: l.
Proof. induction l as [|x l IH]; cbn [insert_slow]; [done|]. destruct (forallb _ _); [done|]. rewrite IH. apply Permutation_swap. Qed.

Lemma insert_slow_sorted l e : StronglySorted slower l -> StronglySorted slower (insert_slow l e).
Proof.
  induction 1 as [|x l Hs IH Hx]; cbn [insert_slow]; [by repeat constructor|]. destruct (forallb _ (x :: l)) eqn:E.
  - constructor; [by constructor|]. rewrite forallb_forall in E. apply Forall_forall. intros y Hy.
    specialize (E y (proj1 (list_elem_of_In _ _) Hy)). apply Z.ltb_lt in E. unfold slower. lia.
  - constructor; [done|]. rewrite insert_slow_perm. constructor; [|done].
    apply forallb_false_elem in E as (y & Hy & Hlt). apply Z.ltb_ge in Hlt. unfold slower in *.
    apply elem_of_cons in Hy as [->|Hy]; [done|]. rewrite Forall_forall in Hx. specialize (Hx y Hy). lia.
Qed.

Lemma slowest_first_spec l : slowest_first l ≡ₚ l /\ StronglySorted slower (slowest_first l).
Proof.
  unfold slowest_first. assert (forall acc, StronglySorted slower acc ->
    foldl insert_slow acc l ≡ₚ l ++ acc /\ StronglySorted slower (foldl insert_slow acc l)) as H.
  { induction l as [|e l IH]; intros acc Ha; cbn; [done|]. destruct (IH (insert_slow acc e)) as [H1 H2]; [by apply insert_slow_sorted|].
    split; [|done]. rewrite H1, insert_slow_perm. symmetry. apply Permutation_middle. }
  destruct (H []) as [H1 H2]; [constructor|]. split; [by rewrite H1, app_nil_r|done].
Qed.

(** What is listed is as slow as all that is not. *)
Lemma slowest_spec t :
  exists rest, slowest t ++ rest ≡ₚ tr_finished t /\ (length (slowest t) <= 5)%nat
    /\ (rest <> [] -> length (slowest t) = 5%nat)
    /\ forall a b, a ∈ slowest t -> b ∈ rest -> slower a b.
Proof.
  destruct (slowest_first_spec (tr_finished t)) as [Hp Hs]. exists (drop maxSlowTools (slowest_first (tr_finished t))).
  unfold slowest. split_and!.
  - by rewrite take_drop.
  - rewrite length_take. unfold maxSlowTools. lia.
  - intros Hr. rewrite length_take. unfold maxSlowTools in *. destruct (decide (5 <= length (slowest_first (tr_finished t)))%nat) as [|Hl]; [lia|].
    destruct Hr. apply drop_ge. lia.
  - rewrite <- (take_drop maxSlowTools (slowest_first _)) in Hs. generalize dependent (drop maxSlowTools (slowest_first (tr_finished t))).
    generalize (take maxSlowTools (slowest_first (tr_finished t))). clear. intros l rest Hs a b Ha Hb.
    induction l as [|x l IH]; [by apply elem_of_nil in Ha|]. cbn in Hs. apply StronglySorted_inv in Hs as [Hs Hx].
    apply elem_of_cons in Ha as [->|Ha]; [|by apply IH]. rewrite Forall_forall in Hx. apply Hx, elem_of_app. by right.
Qed.

(** ** The report *)

Lemma millis_bounds d : 0 <= d -> millis d * 1000000 <= d < (millis d + 1) * 1000000.
Proof. intros H. unfold millis. pose proof (Z.quot_rem' d 1000000). pose proof (Z.rem_bound_pos d 1000000 H). lia. Qed.

Section report.
Context (redact : string -> string) `{!Sorter starts_before}.

(** The five buckets of a run add up to its time exactly, and in milliseconds to at
    most that and less than five below it; the background time is the measure of the
    union of the tasks' intervals, so it is at most the time of the run; and whatever
    order the maps of open calls are visited in, those two are the same. *)
Theorem timing_partitions (start end_ : Z) (events : list (Z * TimingEvent)) (tools tasks : list string) :
  Sorted Z.le (start :: (fst <$> events) ++ [end_]) ->
  let t := close_timeline end_ tools tasks (fed redact start events) in
  let out := timing_of t in
  spent t = end_ - start
  /\ ti_TotalMS out * 1000000 <= end_ - start < (ti_TotalMS out + 5) * 1000000
  /\ ti_BackgroundMS out = millis (measure (tr_bg t) start end_)
  /\ 0 <= ti_BackgroundMS out * 1000000 <= end_ - start.
Proof.
  intros Hs. cbv zeta. assert (Sorted Z.le (start :: (fst <$> events)) /\ default start (last (fst <$> events)) <= end_) as [Hs1 Hlast].
  { clear -Hs. revert start Hs. generalize (fst <$> events). intros l. induction l as [|x l IH]; intros start Hs; cbn in *.
    - inversion Hs as [|? ? _ Hhd]; subst. inversion Hhd; subst. split; [by repeat constructor|done].
    - inversion Hs as [|? ? Hs' Hhd]; subst. inversion Hhd; subst. destruct (IH x Hs') as [H1 H2]. split; [by constructor; [|constructor]|].
      revert H2. clear. destruct l as [|y l]; [done|]. change (last (x :: y :: l)) with (last (y :: l)).
      destruct (last (y :: l)) eqn:E; [done|]. by apply last_None in E. }
  destruct (feed_all_ok redact start events (newTimingTracker start) (start_ok start) Hs1) as [Hok Hl].
  fold (fed redact start events) in Hok, Hl. cbn [newTimingTracker tr_last] in Hl.
  destruct (close_ok start end_ tools tasks (fed redact start events)) as [[A B (C1 & C2 & C3 & C4 & C5) D E] F]; [done|lia|].
  set (t := close_timeline _ _ _ _) in *. rewrite F in *. split; [done|].
  pose proof (millis_bounds _ C1); pose proof (millis_bounds _ C2); pose proof (millis_bounds _ C3);
    pose proof (millis_bounds _ C4); pose proof (millis_bounds _ C5).
  assert (mergedDuration (tr_bg t) = measure (tr_bg t) start end_) as Hm by (by apply mergedDuration_measure).
  assert (0 <= measure (tr_bg t) start end_ <= end_ - start) as Hb.
  { unfold measure. split; [lia|]. etrans; [apply inj_le, List.filter_length_le|]. rewrite length_seqZ. lia. }
  pose proof (millis_bounds _ (proj1 Hb)). split; [|split].
  - cbn [timing_of ti_TotalMS]. unfold spent in B. lia.
  - cbn [timing_of ti_BackgroundMS]. by rewrite Hm.
  - cbn [timing_of ti_BackgroundMS]. rewrite Hm. split; [|lia].
    unfold millis in *. pose proof (Z.quot_pos (measure (tr_bg t) start end_) 1000000). lia.
Qed.
End report.

(** ** A run *)

Definition plain_event (type subtype task : string) (content : list TimingContent) : TimingEvent := {|
  te_Type := type; te_Subtype := subtype; te_Content := content; te_TaskID := task; te_ToolUseID := ""; te_Description := "tests";
  te_TaskType := "bash"; te_SubagentType := ""; te_WorkflowName := ""; te_Status := ""; te_UsageMs := 0 |}.

Definition plain_content (type id : string) : TimingContent :=
  {| tc_Type := type; tc_Name := "Bash"; tc_ID := id; tc_Input := "{}"; tc_ToolUseID := id |}.

#[local] Instance starts_before_dec : RelDecision starts_before.
Proof. intros a b. unfold starts_before. apply _. Defined.

#[local] Instance starts_before_total : Total starts_before.
Proof. intros a b. unfold starts_before. lia. Qed.

#[local] Instance starts_before_trans : Transitive starts_before.
Proof. intros a b c. unfold starts_before. lia. Qed.

Definition by_start : Sorter starts_before := merge_sorter starts_before.

(** The model thinks, calls a tool that never answers, and two tasks overlap; in
    seconds. *)
Definition sample_stream : list (Z * TimingEvent) :=
  (fun e => (e.1 * 1000000000, e.2)) <$>
  [(2, plain_event "system" "thinking_tokens" "" []);
   (5, plain_event "assistant" "" "" [plain_content "text" ""]);
   (6, plain_event "system" "task_started" "a" []);
   (8, plain_event "system" "task_started" "b" []);
   (9, plain_event "system" "task_notification" "a" []);
   (10, plain_event "assistant" "" "" [plain_content "tool_use" "t1"]);
   (12, plain_event "system" "task_notification" "b" [])].

Lemma timing_partitions_witness :
  let t := close_timeline 20000000000 ["t1"] [] (fed id 0 sample_stream) in
  let out := timing_of (Sorter0 := by_start) t in
  [ti_ThinkingMS out; ti_WritingMS out; ti_ModelMS out; ti_ToolWaitMS out; ti_OtherMS out; ti_BackgroundMS out]
    = [2000; 3000; 5000; 2000; 8000; 6000]
  /\ spent t = 20000000000 /\ ti_BackgroundMS out * 1000000 <= 20000000000.
Proof.
  assert (Sorted Z.le (0 :: (fst <$> sample_stream) ++ [20000000000])) as Hs by (vm_compute; repeat constructor; discriminate).
  destruct (timing_partitions id (Sorter0 := by_start) 0 20000000000 sample_stream ["t1"] [] Hs) as (H1 & _ & _ & _ & H4).
  cbv zeta. split; [vm_compute; reflexivity|]. split; [exact H1|exact H4].
Defined.

(** ** The timing of a step *)

Lemma Add_total t other : TotalMS (Add t other) = TotalMS t + TotalMS other.
Proof. unfold TotalMS. cbn. lia. Qed.

(** A stored timing is read back as it was reported. *)
Lemma timing_round_trip `{!Sorter starts_before} t : ToModel (TimingFrom (Some (timing_of t))) = timing_of t.
Proof. reflexivity. Qed.
