(* ===== verification/Failover.v ===== *)
(** * Runs of a step and failover (src/internal/daemon/workflow.go [ExecuteStep],
      src/internal/daemon/dispatcher.go, src/internal/runner/execution/cli.go and
      detector.go)

    A step is run by the runner of its agent, and by the next one of the agent's chain
    when the run did no useful work. How the end of an agent process becomes a result,
    what kind of failure that is, how long the type of runner is left alone, the rows
    of the attempts and the result of the step. A run is a function of the candidate;
    the clock and what other steps do to the pauses are arguments. Logs, events,
    transcripts and heartbeats are not modelled. *)

From stdpp Require Import base gmap strings list pretty.
From Stdlib Require Import ZArith Ascii SpecFloat.
From S2P Require Import Prelude Text Model Config Prompt Structured Timing.

Definition PublishOff : string := "off".

(** [StepConfig.MemorizeEnabled]. *)
Definition MemorizeEnabled (s : StepConfig) : bool :=
  match st_Memory s with
  | None => true
  | Some m => negb (bool_decide (mc_Memorize m = MemorizeOff))
  end.

(** ** Results *)

Inductive FailureKind := FailureNone | FailureRateLimited | FailureCreditExhausted | FailureAborted.

#[export] Instance FailureKind_eq_dec : EqDecision FailureKind.
Proof. solve_decision. Defined.

(** [FailureKind.String]. *)
Definition kind_string (k : FailureKind) : string :=
  match k with
  | FailureNone => "none" | FailureRateLimited => "rate_limited"
  | FailureCreditExhausted => "credit_exhausted" | FailureAborted => "aborted"
  end.

(** [model.Usage]. *)
Record Usage := {
  us_InputTokens : Z;
  us_OutputTokens : Z;
  us_TotalTokens : Z;
  us_CacheCreationTokens : Z;
  us_CacheReadTokens : Z;
  us_NumTurns : Z;
  us_NumToolCalls : Z;
  us_CostUSD : spec_float;
}.

Definition zero_usage : Usage := {|
  us_InputTokens := 0; us_OutputTokens := 0; us_TotalTokens := 0; us_CacheCreationTokens := 0; us_CacheReadTokens := 0;
  us_NumTurns := 0; us_NumToolCalls := 0; us_CostUSD := S754_zero false |}.

(** The sums of [ExecuteStep]. *)
Definition add_usage (a b : Usage) : Usage := {|
  us_InputTokens := us_InputTokens a + us_InputTokens b; us_OutputTokens := us_OutputTokens a + us_OutputTokens b;
  us_TotalTokens := us_TotalTokens a + us_TotalTokens b;
  us_CacheCreationTokens := us_CacheCreationTokens a + us_CacheCreationTokens b;
  us_CacheReadTokens := us_CacheReadTokens a + us_CacheReadTokens b; us_NumTurns := us_NumTurns a + us_NumTurns b;
  us_NumToolCalls := us_NumToolCalls a + us_NumToolCalls b;
  us_CostUSD := SFadd float64.prec float64.emax (us_CostUSD a) (us_CostUSD b) |}%Z.

Section failover.
Context {T_spawn T_memorize : Type}.

(** [model.RunResult]; the fields that [applyStructured] sets are a record of their
    own. No reset time is [None]. *)
Record RunResult := {
  rn_Success : bool;
  rn_Report : @StructuredResult T_spawn T_memorize;
  rn_Error : option string;
  rn_Usage : option Usage;
  rn_Timing : option Timing;
  rn_InputPrompt : string;
  rn_TimedOut : bool;
  rn_RateLimited : bool;
  rn_RateLimitResetsAt : option Z;
  rn_CreditExhausted : bool;
  rn_FailureKind : FailureKind;
}.

Definition with_output (output : string) : @StructuredResult T_spawn T_memorize := {|
  sr_Output := output; sr_StructuredOutput := None; sr_Summary := ""; sr_PublishPayload := ""; sr_SpawnRequest := None;
  sr_SpawnRequests := []; sr_SpawnError := []; sr_MemorizeRequests := []; sr_MemorizeError := [] |}.

(** ** What kind of failure (detector.go) *)

(** [isErrorOnlyOutput]. *)
Definition errorish (l : string) : bool :=
  existsb (fun w => str_contains l w) ["error"; "failed"; "limit"; "unavailable"; "timeout"].

Definition isErrorOnlyOutput (s : string) : bool :=
  let lines := List.filter (fun l => negb (is_empty l)) (trim_space <$> split_on nl (to_lower s)) in
  (0 <? length lines) && forallb errorish lines.

Definition creditPatterns : list string :=
  ["out of credits"; "credit limit"; "insufficient credits"; "credits exhausted"; "insufficient_quota";
   "exceeded your usage"; "billing limit"; "payment required"; "account balance"; "credit_exhausted"].

Definition rateLimitPatterns : list string := ["rate limit"; "rate_limit"; "too many requests"; "429"].

Definition minute : Z := 60 * 1000000000.
Definition hour : Z := 60 * minute.

(** [genericDetector.Detect]. *)
Definition Detect (now : Z) (success : bool) (err : option string) (output : string) (rateLimited : bool)
    (resetsAt : option Z) : FailureKind * option Z :=
  if rateLimited then (FailureRateLimited, resetsAt)
  else if success then (FailureNone, None)
  else
    let told patterns := match err with
                         | None => false
                         | Some e => existsb (fun p => str_contains (to_lower (e +:+ " " +:+ output)) p) patterns
                         end in
    if told creditPatterns then (FailureCreditExhausted, Some (now + 24 * hour)%Z)
    else if told rateLimitPatterns then (FailureRateLimited, Some (now + 5 * minute)%Z)
    else if is_empty (trim_space output) || isErrorOnlyOutput (trim_space output) then (FailureAborted, None)
    else (FailureNone, None).

(** ** The end of a process (cli.go) *)

Inductive CtxErr := CtxLive | CtxDeadline | CtxCanceled.

#[export] Instance CtxErr_eq_dec : EqDecision CtxErr.
Proof. solve_decision. Defined.

(** What [Run] knows when the process has ended: the error of [Wait], whether the
    watchdog killed it, the state of the context, what it printed, and what the
    stream said. *)
Record ProcessEnd := {
  pe_runErr : option string;
  pe_stalled : bool;
  pe_ctx : CtxErr;
  pe_stderr : string;
  pe_stdout : string;
  pe_finalResult : string;
  pe_rateLimited : bool;
  pe_resetsAt : Z;                (* epoch seconds, 0 when unknown *)
  pe_usage : Usage;
  pe_timing : option Timing;
}.

(** [errorDetail]. *)
Definition errorDetail (s : string) : string :=
  let s := trim_space s in
  if is_empty s then ""
  else
    let s := str_join " " (split_on nl s) in
    if 300 <? String.length s then "…" +:+ str_drop (String.length s - 300) s else s.

Definition no_usage (u : Usage) : bool :=
  (us_TotalTokens u =? 0)%Z && (us_NumTurns u =? 0)%Z && float64.eqb (us_CostUSD u) (S754_zero false).

(** The part of [Run] after the process has ended; [cutoff] are the messages of a run
    that was cut off, by whether it stalled, and [structured] is [applyStructured]. *)
Definition run_result (structured : string -> @StructuredResult T_spawn T_memorize) (cutoff : bool -> string) (now : Z)
    (prompt : string) (e : ProcessEnd) : RunResult :=
  let output := if is_empty (trim_space (pe_finalResult e)) then trim_space (pe_stdout e) else trim_space (pe_finalResult e) in
  let resetsAt := if pe_rateLimited e && (0 <? pe_resetsAt e)%Z then Some (pe_resetsAt e * 1000000000)%Z else None in
  let base success report err timedOut rateLimited resetsAt credit kind := {|
    rn_Success := success; rn_Report := report; rn_Error := err;
    rn_Usage := if no_usage (pe_usage e) then None else Some (pe_usage e); rn_Timing := pe_timing e; rn_InputPrompt := prompt;
    rn_TimedOut := timedOut; rn_RateLimited := rateLimited; rn_RateLimitResetsAt := resetsAt; rn_CreditExhausted := credit;
    rn_FailureKind := kind |} in
  let cut stalled := base false (with_output output) (Some (cutoff stalled)) true (pe_rateLimited e) resetsAt false FailureAborted in
  let finish success err :=
    let '(kind, detectedReset) := Detect now success err output (pe_rateLimited e) resetsAt in
    match kind with
    | FailureNone => base success (structured output) err false (pe_rateLimited e) resetsAt false FailureNone
    | FailureRateLimited =>
        base success (structured output) err false true
          (match detectedReset with Some r => Some r | None => resetsAt end) false FailureRateLimited
    | FailureCreditExhausted =>
        base false (structured output) err false (pe_rateLimited e)
          (match detectedReset, resetsAt with Some r, None => Some r | _, _ => resetsAt end) true FailureCreditExhausted
    | FailureAborted => base false (structured output) err false (pe_rateLimited e) resetsAt false FailureAborted
    end in
  match pe_runErr e with
  | None => finish true None
  | Some runErr =>
      if pe_stalled e then cut true
      else if bool_decide (pe_ctx e = CtxDeadline) then cut false
      else
        let detail := trim_space (pe_stderr e) in
        let detail := if is_empty detail then errorDetail output else detail in
        finish false (Some (if is_empty detail then runErr else runErr +:+ ": " +:+ detail))
  end.

(** ** Pauses (dispatcher.go) *)

(** [runnerPausedUntil]; a missing entry is the zero time. *)
Definition runnerPausedUntil (paused : gmap string Z) (runnerType : string) (now : Z) : bool :=
  match paused !! runnerType with Some until => (now <? until)%Z | None => false end.

(** [pauseRunnerWithKind], with [settings.credit_exhausted_cooldown]. *)
Definition pauseRunnerWithKind (cooldown now : Z) (runnerType : string) (until : option Z) (kind : FailureKind)
    (paused : gmap string Z) : gmap string Z :=
  let until := match until with
               | Some u => Some u
               | None => match kind with
                         | FailureCreditExhausted => Some (now + cooldown)%Z
                         | FailureAborted => None
                         | _ => Some (now + 5 * minute)%Z
                         end
               end in
  match until with
  | None => paused
  | Some u => match paused !! runnerType with
              | Some cur => if (cur <? u)%Z then <[runnerType := u]> paused else paused
              | None => <[runnerType := u]> paused
              end
  end.

(** ** The rows of the attempts *)

(** [db.Execution], of one cell. *)
Record Execution := {
  ex_Runner : string;
  ex_Model : string;
  ex_Attempt : nat;
  ex_InstanceID : string;
  ex_StepID : string;
  ex_Status : string;
  ex_ErrorMsg : string;
  ex_FailureKind : string;
  ex_CreditExhausted : bool;
  ex_Usage : option Usage;
  ex_Timing : StepTiming;
  ex_InputPrompt : string;
  ex_OutputText : string;
}.

(** [GetLastExecution]: the highest attempt of the cell, 0 when there is none. *)
Definition last_attempt (rows : list Execution) : nat := foldr (fun r n => Nat.max (ex_Attempt r) n) 0 rows.

(** [beginExecution]. *)
Definition beginExecution (instanceID stepID mdl runnerType : string) (rows : list Execution) : Execution := {|
  ex_Runner := runnerType; ex_Model := mdl; ex_Attempt := S (last_attempt rows); ex_InstanceID := instanceID; ex_StepID := stepID;
  ex_Status := "running"; ex_ErrorMsg := ""; ex_FailureKind := ""; ex_CreditExhausted := false; ex_Usage := None;
  ex_Timing := zero_timing; ex_InputPrompt := ""; ex_OutputText := "" |}.

(** [finishExecution]. *)
Definition finishExecution (r : Execution) (res : RunResult) : Execution := {|
  ex_Runner := ex_Runner r; ex_Model := ex_Model r; ex_Attempt := ex_Attempt r; ex_InstanceID := ex_InstanceID r;
  ex_StepID := ex_StepID r; ex_Status := if rn_Success res then "success" else "failed";
  ex_ErrorMsg := if rn_Success res then ex_ErrorMsg r else default (ex_ErrorMsg r) (rn_Error res);
  ex_FailureKind := if negb (rn_CreditExhausted res) && rn_RateLimited res then "rate_limited"
                    else if rn_CreditExhausted res then "credit_exhausted"
                    else if negb (bool_decide (rn_FailureKind res = FailureNone \/ rn_FailureKind res = FailureRateLimited))
                         then kind_string (rn_FailureKind res)
                    else ex_FailureKind r;
  ex_CreditExhausted := rn_CreditExhausted res;
  ex_Usage := match rn_Usage res with Some u => Some u | None => ex_Usage r end;
  ex_Timing := match rn_Timing res with Some t => TimingFrom (Some t) | None => ex_Timing r end;
  ex_InputPrompt := rn_InputPrompt res; ex_OutputText := sr_Output (rn_Report res) |}.

(** ** The chain *)

(** [runnerCandidate]: the adapter is what the environment runs it with. *)
Record Candidate := { cd_runnerType : string; cd_model : string }.

(** The environment of one step, by the place of the candidate in the chain: what
    other steps did to the pauses before it is looked at, the times, and the run. *)
Record StepEnv := {
  sv_others : nat -> gmap string Z -> gmap string Z;
  sv_now : nat -> Z;
  sv_after : nat -> Z;
  sv_run : nat -> Candidate -> RunResult * option string;
}.

(** The variables of the loop. *)
Record Chain := {
  ch_paused : gmap string Z;
  ch_rows : list Execution;
  ch_res : option RunResult;
  ch_usage : option Usage;
  ch_timing : option StepTiming;
  ch_tried : list nat;
}.

Definition with_paused (p : gmap string Z) (c : Chain) : Chain := {|
  ch_paused := p; ch_rows := ch_rows c; ch_res := ch_res c; ch_usage := ch_usage c; ch_timing := ch_timing c; ch_tried := ch_tried c |}.

(** The error of [Run] when the result has none. *)
Definition with_error (err : option string) (out : RunResult) : RunResult := {|
  rn_Success := rn_Success out; rn_Report := rn_Report out;
  rn_Error := match rn_Error out with Some e => Some e | None => err end;
  rn_Usage := rn_Usage out; rn_Timing := rn_Timing out; rn_InputPrompt := rn_InputPrompt out; rn_TimedOut := rn_TimedOut out;
  rn_RateLimited := rn_RateLimited out; rn_RateLimitResetsAt := rn_RateLimitResetsAt out;
  rn_CreditExhausted := rn_CreditExhausted out; rn_FailureKind := rn_FailureKind out |}.

(** The kind the loop goes by. *)
Definition failure_of (out : RunResult) : FailureKind :=
  match rn_FailureKind out with
  | FailureNone => if rn_RateLimited out then FailureRateLimited else FailureNone
  | k => k
  end.

Section step.
Context (env : StepEnv) (cooldown : Z) (hasDB : bool) (instanceID stepID : string).

(** One attempt. *)
Definition attempt (i : nat) (c : Candidate) (st : Chain) : RunResult * Chain :=
  let '(out, err) := sv_run env i c in
  let out := with_error err out in
  (out, {|
    ch_paused := ch_paused st;
    ch_rows := if hasDB then ch_rows st ++ [finishExecution (beginExecution instanceID stepID (cd_model c) (cd_runnerType c) (ch_rows st)) out]
               else ch_rows st;
    ch_res := Some out;
    ch_usage := match rn_Usage out with Some u => Some (add_usage (default zero_usage (ch_usage st)) u) | None => ch_usage st end;
    ch_timing := match rn_Timing out with
                 | Some t => Some (Add (default zero_timing (ch_timing st)) (TimingFrom (Some t)))
                 | None => ch_timing st
                 end;
    ch_tried := ch_tried st ++ [i] |}).

(** The loop over the candidates from place [i]. *)
Fixpoint run_chain (i : nat) (candidates : list Candidate) (st : Chain) : Chain :=
  match candidates with
  | [] => st
  | c :: rest =>
      let last := bool_decide (rest = []) in
      let st := with_paused (sv_others env i (ch_paused st)) st in
      if negb last && runnerPausedUntil (ch_paused st) (cd_runnerType c) (sv_now env i) then run_chain (S i) rest st
      else
        let '(out, st) := attempt i c st in
        if negb (bool_decide (failure_of out = FailureNone)) && negb last then
          run_chain (S i) rest
            (with_paused (pauseRunnerWithKind cooldown (sv_after env i) (cd_runnerType c) (rn_RateLimitResetsAt out) (failure_of out)
                            (ch_paused st)) st)
        else st
  end.
End step.

(** ** The result of the step *)

(** [workflow.StepResult], what the executor sets. *)
Record StepRunResult := {
  se_Success : bool;
  se_Output : string;
  se_StructuredOutput : option (gmap string JValue);
  se_Summary : string;
  se_PublishPayload : string;
  se_SpawnRequest : option T_spawn;
  se_SpawnRequests : list T_spawn;
  se_MemorizeRequests : list T_memorize;
  se_MemorizeError : list BlockError;
  se_Usage : option Usage;
  se_Timing : option Timing;
  se_InputPrompt : string;
  se_Err : option string;
}.

Definition runner_not_found (agent : string) : StepRunResult := {|
  se_Success := false; se_Output := ""; se_StructuredOutput := None; se_Summary := ""; se_PublishPayload := ""; se_SpawnRequest := None;
  se_SpawnRequests := []; se_MemorizeRequests := []; se_MemorizeError := []; se_Usage := None; se_Timing := None;
  se_InputPrompt := ""; se_Err := Some ("runner for agent " +:+ agent +:+ " not found") |}.

(** The end of [ExecuteStep]; [spawn_text] is the text of a spawn error. *)
Definition step_result (spawn_text : list BlockError -> string) (step : StepConfig) (st : Chain) (res : RunResult) : StepRunResult :=
  let r := rn_Report res in
  let memorize := MemorizeEnabled step in
  let requests := if memorize then sr_MemorizeRequests r else [] in
  let memErr := if memorize then sr_MemorizeError r else [] in
  let timing := ToModel <$> ch_timing st in
  if negb (bool_decide (length (sr_SpawnError r) = 0)) then
    let text := spawn_text (sr_SpawnError r) in
    {| se_Success := false;
       se_Output := if is_empty (sr_Output r) then text else sr_Output r +:+ String nl (String nl "") +:+ text;
       se_StructuredOutput := None; se_Summary := ""; se_PublishPayload := ""; se_SpawnRequest := None; se_SpawnRequests := [];
       se_MemorizeRequests := requests; se_MemorizeError := memErr; se_Usage := ch_usage st; se_Timing := timing;
       se_InputPrompt := rn_InputPrompt res; se_Err := Some text |}
  else
    {| se_Success := rn_Success res; se_Output := sr_Output r; se_StructuredOutput := sr_StructuredOutput r;
       se_Summary := sr_Summary r;
       se_PublishPayload := if bool_decide (st_Publish step = PublishOff) then "" else sr_PublishPayload r;
       se_SpawnRequest := sr_SpawnRequest r; se_SpawnRequests := sr_SpawnRequests r; se_MemorizeRequests := requests;
       se_MemorizeError := memErr; se_Usage := ch_usage st; se_Timing := timing; se_InputPrompt := rn_InputPrompt res;
       se_Err := rn_Error res |}.

(** [ExecuteStep]: the runner of the agent, its fallbacks, the pauses and the rows of
    the cell before; afterwards the result with the pauses and the rows. *)
Definition ExecuteStep (spawn_text : list BlockError -> string) (env : StepEnv) (cooldown : Z) (hasDB : bool) (instanceID : string)
    (step : StepConfig) (primary : option Candidate) (fallbacks : list Candidate) (paused : gmap string Z) (rows : list Execution)
    : StepRunResult * Chain :=
  let start := {| ch_paused := paused; ch_rows := rows; ch_res := None; ch_usage := None; ch_timing := None; ch_tried := [] |} in
  match primary with
  | None => (runner_not_found (st_Agent step), start)
  | Some c =>
      let st := run_chain env cooldown hasDB instanceID (st_ID step) 0 (c :: fallbacks) start in
      match ch_res st with
      | Some res => (step_result spawn_text step st res, st)
      | None => (runner_not_found (st_Agent step), st)  (* the chain is not empty: does not happen *)
      end
  end.
End failover.
