(* ===== verification/FailoverProps.v ===== *)
(** * Runs of a step and failover: which runner's result a step has

    The chain is walked in order up to the first run that did useful work; what it
    skips, tries, counts and records is given in closed form. Then where a run that
    was limited, or that an operator stopped, is not what the documentation says. *)

From stdpp Require Import base gmap strings list pretty.
From Stdlib Require Import ZArith Ascii SpecFloat.
From S2P Require Import Prelude Text Model Config Prompt Structured Timing Failover.

Section props.
Context {T_spawn T_memorize : Type}.
Notation RunResult := (@RunResult T_spawn T_memorize).
Notation StepEnv := (@StepEnv T_spawn T_memorize).

Section chain.
Context (env : StepEnv) (cooldown : Z) (hasDB : bool) (instanceID stepID : string).
Context (cands : list Candidate) (paused : gmap string Z).

(** ** The chain in closed form *)

Definition nth_candidate (i : nat) : Candidate := default {| cd_runnerType := ""; cd_model := "" |} (cands !! i).

Definition outcome (i : nat) : RunResult :=
  let '(out, err) := sv_run env i (nth_candidate i) in with_error err out.

(** The last candidate is never skipped and never passes on. *)
Definition is_last (i : nat) : bool := length cands <=? S i.

Definition skips (i : nat) (p : gmap string Z) : bool :=
  negb (is_last i) && runnerPausedUntil p (cd_runnerType (nth_candidate i)) (sv_now env i).

Definition pause_after (i : nat) (p : gmap string Z) : gmap string Z :=
  if skips i p then p
  else pauseRunnerWithKind cooldown (sv_after env i) (cd_runnerType (nth_candidate i)) (rn_RateLimitResetsAt (outcome i))
         (failure_of (outcome i)) p.

(** The pauses when candidate [i] is looked at, if it is. *)
Fixpoint seen (i : nat) : gmap string Z :=
  match i with
  | O => sv_others env 0 paused
  | S j => sv_others env i (pause_after j (seen j))
  end.

Definition settles (i : nat) : bool := negb (skips i (seen i)) && bool_decide (failure_of (outcome i) = FailureNone).

(** The first candidate that does useful work, or the last one. *)
Definition winner_from (i : nat) : nat := default (length cands - 1) (List.find settles (seq i (length cands - 1 - i))).

Definition tried_from (i : nat) : list nat := List.filter (fun j => negb (skips j (seen j))) (seq i (S (winner_from i) - i)).

Definition usage_of (acc : option Usage) (tried : list nat) : option Usage :=
  foldl (fun acc j => match rn_Usage (outcome j) with Some u => Some (add_usage (default zero_usage acc) u) | None => acc end) acc tried.

Definition rows_of (rows : list Execution) (tried : list nat) : list Execution :=
  if hasDB then
    foldl (fun rows j =>
      rows ++ [finishExecution (beginExecution instanceID stepID (cd_model (nth_candidate j)) (cd_runnerType (nth_candidate j)) rows) (outcome j)])
      rows tried
  else rows.

Lemma winner_last i : S i = length cands -> winner_from i = i.
Proof. intros H. unfold winner_from. replace (length cands - 1 - i) with 0 by lia. cbn. lia. Qed.

Lemma winner_step i : S i < length cands -> winner_from i = if settles i then i else winner_from (S i).
Proof.
  intros H. unfold winner_from. replace (length cands - 1 - i) with (S (length cands - 1 - S i)) by lia. cbn.
  by destruct (settles i).
Qed.

Lemma winner_bounds i : i < length cands -> i <= winner_from i < length cands.
Proof.
  intros H. unfold winner_from. destruct (List.find _ _) as [j|] eqn:E; cbn; [|lia].
  apply find_some in E as [Hin%in_seq _]. lia.
Qed.

Lemma tried_step i : i <= winner_from i -> tried_from i =
  (if skips i (seen i) then [] else [i]) ++ List.filter (fun j => negb (skips j (seen j))) (seq (S i) (winner_from i - i)).
Proof.
  intros H. unfold tried_from. replace (S (winner_from i) - i) with (S (winner_from i - i)) by lia. cbn.
  by destruct (skips i (seen i)).
Qed.

Lemma tried_settled i : winner_from i = i -> tried_from i = if skips i (seen i) then [] else [i].
Proof. intros H. rewrite tried_step by lia. rewrite H, Nat.sub_diag. cbn. by rewrite app_nil_r. Qed.

Lemma tried_passed i : S i < length cands -> settles i = false ->
  tried_from i = (if skips i (seen i) then [] else [i]) ++ tried_from (S i).
Proof.
  intros Hi Hs. pose proof (winner_step i Hi) as Hw. rewrite Hs in Hw. pose proof (winner_bounds (S i) Hi) as Hb.
  rewrite tried_step by lia. unfold tried_from. rewrite Hw. do 2 f_equal.
Qed.

Lemma run_chain_exact rest : forall i st,
  drop i cands = rest -> rest <> [] -> sv_others env i (ch_paused st) = seen i ->
  let st' := run_chain env cooldown hasDB instanceID stepID i rest st in
  ch_res st' = Some (outcome (winner_from i))
  /\ ch_tried st' = ch_tried st ++ tried_from i
  /\ ch_paused st' = seen (winner_from i)
  /\ ch_usage st' = usage_of (ch_usage st) (tried_from i)
  /\ ch_rows st' = rows_of (ch_rows st) (tried_from i).
Proof.
  induction rest as [|c rest IH]; intros i st Hd Hne Hp; [done|].
  assert (cands !! i = Some c) as Hc by (pose proof (lookup_drop cands i 0) as H; rewrite Hd, Nat.add_0_r in H; by symmetry).
  assert (drop (S i) cands = rest) as Hd' by (rewrite (drop_S _ _ _ Hc) in Hd; congruence).
  assert (is_last i = bool_decide (rest = [])) as Hlast.
  { apply eq_true_iff_eq. unfold is_last. rewrite Nat.leb_le, bool_decide_eq_true, <- Hd'. split; [apply drop_ge|].
    intros H. apply (f_equal length) in H. rewrite length_drop in H. cbn in H. lia. }
  assert (nth_candidate i = c) as Hn by (unfold nth_candidate; by rewrite Hc).
  apply lookup_lt_Some in Hc as Hlt. cbn [run_chain]. cbv zeta. rewrite <- Hlast.
  set (st1 := with_paused _ st). assert (ch_paused st1 = seen i) as Hs1 by done.
  assert (negb (is_last i) && runnerPausedUntil (ch_paused st1) (cd_runnerType c) (sv_now env i) = skips i (seen i)) as ->
    by (unfold skips; by rewrite Hn, Hs1).
  destruct (skips i (seen i)) eqn:Esk.
  - assert (is_last i = false) as El by (unfold skips in Esk; by destruct (is_last i)).
    assert (S i < length cands) as Hi by (unfold is_last in El; apply Nat.leb_gt in El; lia).
    assert (settles i = false) as Hset by (unfold settles; by rewrite Esk).
    destruct (IH (S i) st1) as (A & B & C & D & E); [done|by intros ->; rewrite Hlast in El| |].
    { cbn [seen]. unfold pause_after. by rewrite Esk, Hs1. }
    rewrite winner_step, Hset, (tried_passed i), Esk by done. by split_and!.
  - assert (attempt env hasDB instanceID stepID i c st1 = (outcome i, (attempt env hasDB instanceID stepID i c st1).2)) as Hatt.
    { unfold attempt, outcome. rewrite Hn. by destruct (sv_run env i c). }
    rewrite Hatt. set (st2 := (attempt _ _ _ _ _ _ _).2).
    assert (ch_res st2 = Some (outcome i) /\ ch_paused st2 = seen i /\ ch_tried st2 = ch_tried st ++ [i]
      /\ ch_usage st2 = usage_of (ch_usage st) [i] /\ ch_rows st2 = rows_of (ch_rows st) [i]) as (R1 & R2 & R3 & R4 & R5).
    { unfold st2, attempt, outcome, usage_of, rows_of. cbn [foldl]. unfold outcome. rewrite Hn. destruct (sv_run env i c).
      split_and!; (done || by destruct hasDB). }
    clearbody st2. destruct (negb (bool_decide (failure_of (outcome i) = FailureNone)) && negb (is_last i)) eqn:Ego.
    + apply andb_true_iff in Ego as [Ef%negb_true_iff El%negb_true_iff].
      assert (S i < length cands) as Hi by (unfold is_last in El; apply Nat.leb_gt in El; lia).
      assert (settles i = false) as Hset by (unfold settles; by rewrite Ef, andb_false_r).
      set (st3 := with_paused _ st2). destruct (IH (S i) st3) as (A & B & C & D & E); [done|by intros ->; rewrite Hlast in El| |].
      { cbn [seen]. unfold pause_after. rewrite Esk, Hn. cbn. by rewrite R2. }
      rewrite winner_step, Hset, (tried_passed i), Esk by done. change (ch_tried st3) with (ch_tried st2) in B.
      change (ch_usage st3) with (ch_usage st2) in D. change (ch_rows st3) with (ch_rows st2) in E.
      split_and!; [done|by rewrite B, R3, <- app_assoc|done| |].
      * rewrite D, R4. unfold usage_of. by rewrite foldl_app.
      * rewrite E, R5. unfold rows_of. destruct hasDB; [by rewrite foldl_app|done].
    + assert (winner_from i = i) as Hw.
      { destruct (is_last i) eqn:El.
        - apply winner_last. unfold is_last in El. apply Nat.leb_le in El. lia.
        - assert (S i < length cands) by (unfold is_last in El; apply Nat.leb_gt in El; lia).
          rewrite winner_step by done. unfold settles. rewrite Esk. cbn. rewrite andb_true_r in Ego.
          apply negb_false_iff in Ego. by rewrite Ego. }
      rewrite tried_settled, Hw, Esk by done. by split_and!.
Qed.

Lemma settles_not_skipped i : settles i = true -> skips i (seen i) = false /\ failure_of (outcome i) = FailureNone.
Proof. unfold settles. by intros [H%negb_true_iff Hf%bool_decide_eq_true]%andb_true_iff. Qed.

Lemma last_not_skipped i : S i = length cands -> skips i (seen i) = false.
Proof. intros H. unfold skips, is_last. by rewrite (proj2 (Nat.leb_le _ _)) by lia. Qed.

(** The winner is the first that settles, or the last. *)
Lemma winner_spec : 0 < length cands ->
  let k := winner_from 0 in
  k < length cands /\ skips k (seen k) = false
  /\ (failure_of (outcome k) = FailureNone \/ S k = length cands)
  /\ forall j, j < k -> settles j = false.
Proof.
  intros Hpos. cbv zeta. pose proof (winner_bounds 0 Hpos) as Hb. split; [lia|].
  unfold winner_from in *. rewrite Nat.sub_0_r in *. destruct (List.find _ _) as [k|] eqn:E; cbn in *.
  - pose proof (find_some _ _ E) as [_ Hs]. apply settles_not_skipped in Hs as [H1 H2]. split_and!; [done|by left|].
    intros j Hj. revert E Hj. clear. intros E Hj.
    destruct (settles j) eqn:Es; [|done]. exfalso. assert (j ∈ seq 0 (length cands - 1)) as Hin.
    { apply find_some in E as [Hk%in_seq _]. apply elem_of_seq. lia. }
    revert E Hin. generalize (length cands - 1). intros n. generalize 0 at 1 2. induction n as [|n IH]; intros m E Hin; [done|].
    cbn in E. apply elem_of_cons in Hin as [->|Hin].
    + rewrite Es in E. injection E as ->. lia.
    + destruct (settles m) eqn:Em; [|by apply (IH (S m))]. injection E as ->. apply elem_of_seq in Hin. lia.
  - split_and!; [apply last_not_skipped; lia|right; lia|]. intros j Hj.
    apply (find_none _ _ E). apply in_seq. lia.
Qed.

(** Attempts are numbered on. *)
Lemma last_attempt_app rows r : last_attempt (rows ++ [r]) = Nat.max (last_attempt rows) (ex_Attempt r).
Proof. unfold last_attempt. induction rows as [|x rows IH]; cbn; [lia|]. rewrite IH. lia. Qed.

Lemma rows_numbered rows tried : hasDB = true ->
  exists new, rows_of rows tried = rows ++ new /\ ex_Attempt <$> new = seq (S (last_attempt rows)) (length tried)
    /\ ex_Runner <$> new = (fun j => cd_runnerType (nth_candidate j)) <$> tried
    /\ ex_Status <$> new = (fun j => if rn_Success (outcome j) then "success" else "failed") <$> tried.
Proof.
  intros Hdb. unfold rows_of. rewrite Hdb. revert rows. induction tried as [|j tried IH]; intros rows; cbn [foldl].
  - exists []. by rewrite app_nil_r.
  - set (r := finishExecution _ _). destruct (IH (rows ++ [r])) as (new & E1 & E2 & E3 & E4). exists (r :: new).
    rewrite E1, <- app_assoc. split; [done|]. rewrite !fmap_cons, E2, E3, E4, last_attempt_app. cbn.
    rewrite Nat.max_r by lia. done.
Qed.
End chain.

(** C36: The chain of a step is walked up to the first candidate that did useful work, or
    to the last one: those before it that were tried all failed in kind, those that were
    skipped had their type of runner paused; the result of the step is that of this last
    run, its usage is the sum over all that ran, and each run has a row of its own. *)
Theorem failover_exact (spawn_text : list BlockError -> string) (env : StepEnv) (cooldown : Z) (hasDB : bool) (instanceID : string)
    (step : StepConfig) (primary : Candidate) (fallbacks : list Candidate) (paused : gmap string Z) (rows : list Execution) :
  let cands := primary :: fallbacks in
  let '(r, st) := ExecuteStep spawn_text env cooldown hasDB instanceID step (Some primary) fallbacks paused rows in
  let k := winner_from env cooldown cands paused 0 in
  let before j := seen env cooldown cands paused j in
  (failure_of (outcome env cands k) = FailureNone \/ S k = length cands)
  /\ k ∈ ch_tried st
  /\ (forall j, j ∈ ch_tried st <-> j <= k /\ (S j < length cands -> runnerPausedUntil (before j) (cd_runnerType (nth_candidate cands j)) (sv_now env j) = false))
  /\ (forall j, j ∈ ch_tried st -> j <> k -> failure_of (outcome env cands j) <> FailureNone)
  /\ r = step_result spawn_text step st (outcome env cands k)
  /\ ch_usage st = usage_of env cands None (ch_tried st)
  /\ ch_rows st = rows_of env hasDB instanceID (st_ID step) cands rows (ch_tried st)
  /\ ch_paused st = before k.
Proof.
  cbv zeta. unfold ExecuteStep. set (cands := primary :: fallbacks). set (start := Build_Chain _ _ _ _ _ _).
  destruct (run_chain_exact env cooldown hasDB instanceID (st_ID step) cands paused cands 0 start) as (A & B & C & D & E); [done|done|done|].
  destruct (winner_spec env cooldown cands paused) as (K1 & K2 & K3 & K4); [cbn; lia|].
  rewrite A. set (st := run_chain _ _ _ _ _ _ _ _) in *. set (k := winner_from _ _ _ _ _) in *.
  change (ch_tried start) with (@nil nat) in B. rewrite app_nil_l in B.
  assert (forall j, j ∈ ch_tried st <-> j <= k /\ skips env cands j (seen env cooldown cands paused j) = false) as Ht.
  { intros j. rewrite B. unfold tried_from. fold k. rewrite list_elem_of_In, filter_In, in_seq, negb_true_iff.
    split; [intros [? ?]; split; [lia|done]|intros [? ?]; split; [lia|done]]. }
  split_and!; [done|by apply Ht| | |done|rewrite D; by rewrite B|rewrite E; by rewrite B|done].
  - intros j. rewrite Ht. unfold skips, is_last. split; intros [Hj H]; (split; [done|]).
    + intros Hl. assert (length cands <=? S j = false) as El by (apply Nat.leb_gt; lia). by rewrite El in H.
    + destruct (length cands <=? S j) eqn:El; [done|]. apply Nat.leb_gt in El. cbn. by apply H.
  - intros j [Hj Hs]%Ht Hne Hf. assert (settles env cooldown cands paused j = false) as Hset by (apply K4; lia).
    unfold settles in Hset. rewrite Hs, bool_decide_true in Hset by done. done.
Qed.

(** ** Pauses *)

(** A pause is never shortened, and other types are left alone. *)
Lemma pause_extends cooldown now ty until kind (paused : gmap string Z) t u :
  paused !! t = Some u -> exists u', pauseRunnerWithKind cooldown now ty until kind paused !! t = Some u' /\ (u <= u')%Z /\ (t <> ty -> u' = u).
Proof.
  intros H. unfold pauseRunnerWithKind. destruct (match until with Some _ => _ | None => _ end) as [v|]; [|by exists u].
  destruct (paused !! ty) as [cur|] eqn:Ec; [destruct (Z.ltb_spec cur v)|]; try by exists u.
  - destruct (decide (t = ty)) as [->|Hne]; [|exists u; by rewrite lookup_insert_ne].
    exists v. rewrite lookup_insert_eq. split_and!; [done|simplify_eq; lia|done].
  - destruct (decide (t = ty)) as [->|Hne]; [congruence|]. exists u. by rewrite lookup_insert_ne.
Qed.

(** After a limit the type is left alone for the time the provider gave, or for the
    time of its kind. *)
Lemma pause_lasts cooldown now ty until kind (paused : gmap string Z) :
  (until <> None \/ kind <> FailureAborted) ->
  exists u, pauseRunnerWithKind cooldown now ty until kind paused !! ty = Some u
    /\ (default (match kind with FailureCreditExhausted => now + cooldown | _ => now + 5 * minute end) until <= u)%Z.
Proof.
  intros H. unfold pauseRunnerWithKind.
  assert (exists v, match until with Some u => Some u | None => match kind with FailureCreditExhausted => Some (now + cooldown)%Z
    | FailureAborted => None | _ => Some (now + 5 * minute)%Z end end = Some v
    /\ v = default (match kind with FailureCreditExhausted => now + cooldown | _ => now + 5 * minute end)%Z until) as (v & -> & <-).
  { destruct until as [u|]; [by exists u|]. destruct kind; try (by eexists). destruct H; congruence. }
  destruct (paused !! ty) as [cur|] eqn:Ec; [destruct (Z.ltb_spec cur v)|]; rewrite ?lookup_insert_eq, ?Ec; eexists; (split; [done|lia]).
Qed.
End props.

(** ** Limited and stopped runs *)

Definition killed_end (stdout : string) (err : option string) (ctx : CtxErr) (limited : bool) : ProcessEnd := {|
  pe_runErr := err; pe_stalled := false; pe_ctx := ctx; pe_stderr := ""; pe_stdout := stdout; pe_finalResult := "";
  pe_rateLimited := limited; pe_resetsAt := 1000; pe_usage := zero_usage; pe_timing := None |}.

Definition sample_run (first second : ProcessEnd) : @StepEnv unit unit :=
  let run e := (run_result with_output (fun _ => "killed") 0 "" e, None) in
  {| sv_others := fun _ p => p; sv_now := fun _ => 0%Z; sv_after := fun _ => 0%Z;
     sv_run := fun i _ => run (match i with O => first | _ => second end) |}.

Definition claude : Candidate := {| cd_runnerType := "claude"; cd_model := "opus" |}.
Definition codex : Candidate := {| cd_runnerType := "codex"; cd_model := "gpt" |}.

Definition sample_step (env : @StepEnv unit unit) (fallbacks : list Candidate) :=
  ExecuteStep (fun _ => "") env hour true "wi-1" (zero_step "implement") (Some claude) fallbacks ∅ [].

(** A limit is recognized, the type paused, and the next candidate run. *)
Example limited_run_fails_over :
  let '(r, st) := sample_step (sample_run (killed_end "limit" None CtxLive true) (killed_end "Done." None CtxLive false)) [codex] in
  se_Success r = true /\ ch_tried st = [0; 1] /\ ch_paused st = {[ "claude" := 1000000000000%Z ]}
  /\ (ex_FailureKind <$> ch_rows st) = ["rate_limited"; ""].
Proof. vm_compute. done. Qed.

(** With the last candidate, or the only one, a rejected run that exits with 0 is a
    success of the step, and its type is not paused: the next step meets the limit
    again. *)
Lemma limited_run_passes :
  let '(r, st) := sample_step (sample_run (killed_end "You have hit your session limit" None CtxLive true) (killed_end "" None CtxLive false)) [] in
  se_Success r = true /\ se_Output r = "You have hit your session limit" /\ ch_paused st = ∅
  /\ (ex_FailureKind <$> ch_rows st) = ["rate_limited"].
Proof. vm_compute. done. Qed.

(** A run that an operator stops before it printed anything counts as aborted: the
    step goes on with the next candidate. *)
Lemma stopped_run_fails_over :
  let '(r, st) := sample_step (sample_run (killed_end "" (Some "signal: killed") CtxCanceled false) (killed_end "Done." None CtxLive false)) [codex] in
  se_Success r = true /\ ch_tried st = [0; 1].
Proof. vm_compute. done. Qed.
