(* ===== verification/RunnerConfig.v ===== *)
(** * Configuring the runner of an agent (src/internal/runner/execution/cli.go,
      src/internal/daemon/dispatcher.go, src/internal/improve/run.go)

    The settings of a runner reach it as a map of values of any type, which its
    [Configure] takes apart by type assertions: the daemon and the advisor fold the
    sandbox and the variables to pass into that map, each in its own way. Then the
    command line, environment and directory of a run. Writing the files of MCP servers
    is a parameter. Before that, the layers of variables, the container and what of the
    host reaches a process (sandbox.go, daemon/workflow.go). *)

From stdpp Require Import base gmap strings list pretty.
From Stdlib Require Import ZArith Ascii.
From S2P Require Import Prelude Text Model Prompt.

(** ** The environment of an agent process (src/internal/runner/execution/sandbox.go,
      src/internal/daemon/workflow.go)

    What a process of an agent inherits: the layers of explicit variables of a step,
    the host variables a sandboxed run may see, the arguments of the container, and
    the extra arguments an operator may add to them. *)

(** ** The layers of a step *)

(** [agentIdentityEnv], of the source name, email and token of the agent. *)
Definition agentIdentityEnv (name email token : string) : gmap string string :=
  let set_if v keys (env : gmap string string) := if is_empty v then env else foldr (fun k m => <[k := v]> m) env keys in
  set_if token ["GITHUB_TOKEN"; "GH_TOKEN"]
    (set_if email ["GIT_AUTHOR_EMAIL"; "GIT_COMMITTER_EMAIL"] (set_if name ["GIT_AUTHOR_NAME"; "GIT_COMMITTER_NAME"] ∅)).

(** [stepEnv]: a later layer wins, which is the left one of a union. *)
Definition stepEnv (name email token : string) (agentEnv wfEnv stepEnv : gmap string string) : gmap string string :=
  stepEnv ∪ (wfEnv ∪ (agentEnv ∪ agentIdentityEnv name email token)).

(** [withMemoryDir]. *)
Definition withMemoryDir (env : gmap string string) (dir : string) : gmap string string :=
  if is_empty dir then env
  else match env !! "APIARY_MEMORY_DIR" with
       | Some _ => env
       | None => <["APIARY_MEMORY_DIR" := dir]> env
       end.

(** ** Host variables *)

Definition systemEnvAllow : list string :=
  ["PATH"; "HOME"; "SHELL"; "USER"; "LOGNAME"; "TERM"; "TZ"; "LANG"; "LC_ALL"; "LC_CTYPE"; "TMPDIR"; "TEMP"; "TMP";
   "SSL_CERT_FILE"; "SSL_CERT_DIR"; "CURL_CA_BUNDLE"; "SSH_AUTH_SOCK"; "DOCKER_HOST"; "XDG_CONFIG_HOME"; "XDG_CACHE_HOME"; "XDG_DATA_HOME"].

Definition providerEnvPrefixes : list string :=
  ["ANTHROPIC_"; "CLAUDE_"; "OPENAI_"; "AZURE_OPENAI_"; "OPENCODE_"; "CURSOR_"; "GEMINI_"; "GOOGLE_GENERATIVE_";
   "OPENROUTER_"; "GROQ_"; "MISTRAL_"; "DEEPSEEK_"; "XAI_"].

(** [envAllow]. *)
Definition passes (name entry : string) : bool :=
  if has_suffix entry "*" then has_prefix name (trim_suffix "*" entry) else bool_decide (name = entry).

Definition envAllow (name : string) (passthrough : list string) : bool :=
  str_in name systemEnvAllow || existsb (has_prefix name) providerEnvPrefixes || existsb (passes name) passthrough.

(** [scopedEnv]: the variables of the host come as "K=V", a later one replaces an
    earlier one; the result is the environment and the names. *)
Definition host_var (passthrough : list string) (m : gmap string string) (kv : string) : gmap string string :=
  match str_cut "=" kv with
  | Some (k, v) => if envAllow k passthrough then <[k := v]> m else m
  | None => m
  end.

Definition scoped_vars (hostEnv : list string) (overlay : gmap string string) (passthrough : list string) : gmap string string :=
  overlay ∪ foldl (host_var passthrough) ∅ hostEnv.

Definition scopedEnv (hostEnv : list string) (overlay : gmap string string) (passthrough : list string) : list string * list string :=
  let seen := scoped_vars hostEnv overlay passthrough in
  let names := sort_strings (map_to_list seen).*1 in
  ((fun k => k +:+ "=" +:+ default "" (seen !! k)) <$> names, names).

(** ** The container *)

Definition sandboxHome : string := "/home/apiary".
Definition tmpfsSize : string := "512m".

Record cliSandbox := { sb_image : string; sb_user : string; sb_network : string; sb_extraArgs : list string }.

Definition hostOnlyEnv : list string :=
  ["DOCKER_HOST"; "SSH_AUTH_SOCK"; "HOME"; "PATH"; "SHELL"; "USER"; "LOGNAME"; "TMPDIR"; "TEMP"; "TMP";
   "XDG_CONFIG_HOME"; "XDG_CACHE_HOME"; "XDG_DATA_HOME"].

(** [containerEnvNames]. *)
Definition containerEnvNames (names : list string) : list string := List.filter (fun n => negb (str_in n hostOnlyEnv)) names.

Definition tmpfs (dir : string) : string := dir +:+ ":rw,exec,nosuid,mode=1777,size=" +:+ tmpfsSize.

(** [wrapCommand]; [self] is the "uid:gid" of the daemon. *)
Definition sandbox_flags (s : cliSandbox) (self workDir : string) (envNames : list string) (keepStdin : bool) : list string :=
  let user := if is_empty (sb_user s) then self else sb_user s in
  let network := if is_empty (sb_network s) then "bridge" else sb_network s in
  ["run"; "--rm"; "--network"; network; "--user"; user; "--read-only"; "--tmpfs"; tmpfs "/tmp"; "--tmpfs"; tmpfs sandboxHome;
   "--env"; "HOME=" +:+ sandboxHome; "--cap-drop"; "all"; "--security-opt"; "no-new-privileges"]
  ++ (if keepStdin then ["-i"] else [])
  ++ (if is_empty workDir then [] else ["-v"; workDir +:+ ":" +:+ workDir; "-w"; workDir])
  ++ (containerEnvNames envNames ≫= fun name => ["--env"; name]).

Definition wrapCommand (s : cliSandbox) (self binary : string) (argv : list string) (workDir : string) (envNames : list string)
    (keepStdin : bool) : string * list string :=
  ("docker", sandbox_flags s self workDir envNames keepStdin ++ sb_extraArgs s ++ [sb_image s; binary] ++ argv).

(** ** Extra arguments *)

Definition allowedExtraArgs : list string :=
  ["--memory"; "-m"; "--memory-swap"; "--memory-reservation"; "--cpus"; "--cpu-shares"; "-c"; "--cpuset-cpus"; "--cpuset-mems";
   "--pids-limit"; "--ulimit"; "--oom-kill-disable"; "--label"; "-l"; "--name"; "--hostname"; "-h"; "--platform"; "--pull";
   "--quiet"; "-q"].

Definition flagTakesValue : list string :=
  ["--memory"; "-m"; "--memory-swap"; "--memory-reservation"; "--cpus"; "--cpu-shares"; "-c"; "--cpuset-cpus"; "--cpuset-mems";
   "--pids-limit"; "--ulimit"; "--label"; "-l"; "--name"; "--hostname"; "-h"; "--platform"; "--pull"].

Inductive ExtraArgError :=
  | ErrBareValue (a : string)
  | ErrAttached (a : string)
  | ErrFlagDenied (flag : string)
  | ErrMissingValue.

(** The flag of a token and whether its value is inline. *)
Definition split_flag (a : string) : string * bool :=
  match str_cut "=" a with Some (flag, _) => (flag, true) | None => (a, false) end.

(** [validateExtraArgs] from a state of the loop. *)
Fixpoint validate_from (expectValue : bool) (args : list string) : option ExtraArgError :=
  match args with
  | [] => if expectValue then Some ErrMissingValue else None
  | a :: args =>
      if expectValue then validate_from false args
      else if negb (has_prefix a "-") then Some (ErrBareValue a)
      else
        let '(flag, hasInlineValue) := split_flag a in
        if negb (has_prefix flag "--") && (2 <? String.length flag) then Some (ErrAttached a)
        else if negb (str_in flag allowedExtraArgs) then Some (ErrFlagDenied flag)
        else validate_from (negb hasInlineValue && str_in flag flagTakesValue) args
  end.

Definition validateExtraArgs : list string -> option ExtraArgError := validate_from false.

(** ** Configuring the runner of an agent (src/internal/runner/execution/cli.go, *)

(** ** Settings *)

(** [model.MCPServer]. *)
Record MCPServer := { mcp_Name : string; mcp_Command : string; mcp_Args : list string; mcp_Env : gmap string string }.

(** [config.SandboxConfig]. *)
Record SandboxConfig := { sx_Image : string; sx_User : string; sx_Network : string; sx_ExtraArgs : list string }.

(** The dynamic types of the values of the map ([any]): what YAML decodes to, and the
    Go types that are put in as they are. *)
Inductive GoAny :=
  | GString (s : string)
  | GBool (b : bool)
  | GList (l : list GoAny)                (* []any *)
  | GMap (m : gmap string GoAny)          (* map[string]any *)
  | GStrings (l : list string)            (* []string *)
  | GSandbox (s : SandboxConfig)          (* *config.SandboxConfig *)
  | GMCPs (l : list MCPServer).           (* []model.MCPServer *)

Notation Settings := (gmap string GoAny).

(** [config.RunnerConfig], the fields that are read here. *)
Record RunnerConfig := {
  rf_ID : string;
  rf_Type : string;
  rf_Provider : string;
  rf_Config : Settings;
  rf_MCPs : list MCPServer;
  rf_Sandbox : option SandboxConfig;
  rf_EnvPassthrough : list string;
}.

(** [AdapterName]. *)
Definition AdapterName (rc : RunnerConfig) : string :=
  if is_empty (rf_Provider rc) then rf_Type rc else rf_Provider rc +:+ "-" +:+ rf_Type rc.

(** [MergeMCPServers]: the last index of each name of the base. *)
Definition mcp_index (base : list MCPServer) : gmap string nat :=
  foldl (fun m ix => <[mcp_Name ix.2 := ix.1]> m) ∅ (imap pair base).

Definition merge_mcp (acc : list MCPServer * gmap string nat) (o : MCPServer) : list MCPServer * gmap string nat :=
  match acc.2 !! mcp_Name o with
  | Some i => (<[i := o]> acc.1, acc.2)
  | None => (acc.1 ++ [o], <[mcp_Name o := length acc.1]> acc.2)
  end.

Definition MergeMCPServers (base overrides : list MCPServer) : list MCPServer :=
  match overrides, base with
  | [], _ => base
  | _, [] => overrides
  | _, _ => (foldl merge_mcp (base, mcp_index base) overrides).1
  end.

(** [runnerConfigWithMCPs], of the daemon and of the advisor. *)
Definition runnerConfigWithMCPs (base : Settings) (runnerMCPs agentMCPs : list MCPServer) : Settings :=
  match MergeMCPServers runnerMCPs agentMCPs with
  | [] => base
  | merged => <["mcps" := GMCPs merged]> base
  end.

(** [injectRunnerSecurity] of the daemon. *)
Definition sandbox_map (s : SandboxConfig) : GoAny :=
  GMap {[ "image" := GString (sx_Image s); "user" := GString (sx_User s); "network" := GString (sx_Network s);
          "extra_args" := GList (GString <$> sx_ExtraArgs s) ]}.

Definition injectRunnerSecurity (base : Settings) (sandbox : option SandboxConfig) (envPassthrough : list string) : Settings :=
  let out := match sandbox with None => base | Some s => <["sandbox" := sandbox_map s]> base end in
  if bool_decide (envPassthrough = []) then out else <["env_passthrough" := GList (GString <$> envPassthrough)]> out.

(** [injectRunnerSecurity] of the advisor. *)
Definition advisor_injectRunnerSecurity (base : Settings) (sandbox : option SandboxConfig) (envPassthrough : list string) : Settings :=
  let out := match sandbox with None => base | Some s => <["sandbox" := GSandbox s]> base end in
  if bool_decide (envPassthrough = []) then out else <["env_passthrough" := GStrings envPassthrough]> out.

(** ** The runner *)

Inductive RunnerError :=
  | ErrCommandRequired
  | ErrNoBypass (mode : string)
  | ErrModeUnsupported (mode : string)
  | ErrNoAllowedTools
  | ErrSandboxWithMCPs
  | ErrSetupMCP (e : string)
  | ErrSandboxImage
  | ErrExtraArgs (e : ExtraArgError).

Definition permissionModeBypass : string := "bypass".
Definition permissionModeDefault : string := "default".

(** [resolvePermissionArgs]. *)
Definition resolvePermissionArgs (mode : string) (allowedTools : list string) (permissionFlag : string)
    (bypassArgs : list string) (allowedToolsFlag : string) : result RunnerError (list string) :=
  args ← (if bool_decide (mode = permissionModeDefault) then Ok []
          else if str_in mode [permissionModeBypass; "bypassPermissions"] then
            if bool_decide (bypassArgs = []) then Err (ErrNoBypass mode) else Ok bypassArgs
          else if is_empty permissionFlag then Err (ErrModeUnsupported mode)
          else Ok [permissionFlag; mode]);
  if bool_decide (allowedTools = []) then Ok args
  else if is_empty allowedToolsFlag then Err ErrNoAllowedTools
  else Ok (args ++ [allowedToolsFlag; str_join "," allowedTools]).

(** [CliRunner]. *)
Record CliRunner := {
  cr_command : string;
  cr_args : list string;
  cr_modelFlag : string;
  cr_promptFlag : string;
  cr_turnsFlag : string;
  cr_promptPositional : bool;
  cr_promptStdin : bool;
  cr_mcpFormat : string;
  cr_mcps : list MCPServer;
  cr_mcpRunArgs : list string;
  cr_sandbox : option cliSandbox;
  cr_envPassthrough : list string;
  cr_permissionArgs : list string;
  cr_permissionFlag : string;
  cr_permissionBypassArgs : list string;
  cr_allowedToolsFlag : string;
  cr_permissionMode : string;
  cr_allowedTools : list string;
}.

Definition zero_runner : CliRunner := {|
  cr_command := ""; cr_args := []; cr_modelFlag := ""; cr_promptFlag := ""; cr_turnsFlag := ""; cr_promptPositional := false;
  cr_promptStdin := false; cr_mcpFormat := ""; cr_mcps := []; cr_mcpRunArgs := []; cr_sandbox := None; cr_envPassthrough := [];
  cr_permissionArgs := []; cr_permissionFlag := ""; cr_permissionBypassArgs := []; cr_allowedToolsFlag := "";
  cr_permissionMode := ""; cr_allowedTools := [] |}.

(** The type assertions: [config[key].(string)] and the like. *)
Definition get_string (config : Settings) (key : string) : option string :=
  match config !! key with Some (GString s) => Some s | _ => None end.

Definition get_bool (config : Settings) (key : string) : option bool :=
  match config !! key with Some (GBool b) => Some b | _ => None end.

Definition only_strings (l : list GoAny) : list string := omap (fun a => match a with GString s => Some s | _ => None end) l.

Definition get_list (config : Settings) (key : string) : option (list string) :=
  match config !! key with Some (GList l) => Some (only_strings l) | _ => None end.

(** The sandbox part of [Configure]. *)
Definition read_sandbox (raw : Settings) : result RunnerError cliSandbox :=
  let get key := default "" (get_string raw key) in
  let sc := {| sb_image := get "image"; sb_user := get "user"; sb_network := get "network";
               sb_extraArgs := default [] (get_list raw "extra_args") |} in
  if is_empty (sb_image sc) then Err ErrSandboxImage
  else match validateExtraArgs (sb_extraArgs sc) with
       | Some e => Err (ErrExtraArgs e)
       | None => Ok sc
       end.

(** [Configure], of [setupMCP] with the format and the servers. *)
Definition Configure (setupMCP : string -> list MCPServer -> result string (list string)) (config : Settings) (r : CliRunner)
    : result RunnerError CliRunner :=
  let str key old := default old (get_string config key) in
  let nonblank key old := match get_string config key with
                          | Some v => if is_empty (trim_space v) then old else trim_space v
                          | None => old
                          end in
  let command := match get_string config "command" with Some c => if is_empty c then cr_command r else c | None => cr_command r end in
  if is_empty command then Err ErrCommandRequired
  else
    let mcpFormat := match get_string config "mcp_format" with Some v => if is_empty v then cr_mcpFormat r else v | None => cr_mcpFormat r end in
    let permissionFlag := str "permission_flag" (cr_permissionFlag r) in
    let allowedToolsFlag := str "allowed_tools_flag" (cr_allowedToolsFlag r) in
    let bypassArgs := default (cr_permissionBypassArgs r) (get_list config "permission_bypass_args") in
    let permissionMode := nonblank "permission_mode" (cr_permissionMode r) in
    let allowedTools := match get_list config "allowed_tools" with
                        | Some l => List.filter (fun t => negb (is_empty t)) (trim_space <$> l)
                        | None => cr_allowedTools r
                        end in
    let mode := if is_empty permissionMode then permissionModeDefault else permissionMode in
    permissionArgs ← resolvePermissionArgs mode allowedTools permissionFlag bypassArgs allowedToolsFlag;
    let mcps := match config !! "mcps" with Some (GMCPs l) => l | _ => cr_mcps r end in
    let sandboxRaw := match config !! "sandbox" with Some (GMap m) => Some m | _ => None end in
    if match sandboxRaw with Some _ => negb (bool_decide (length mcps = 0)) | None => false end then Err ErrSandboxWithMCPs
    else
      mcpRunArgs ← (match mcps with
                    | [] => Ok (cr_mcpRunArgs r)
                    | _ => match setupMCP mcpFormat mcps with Ok args => Ok args | Err e => Err (ErrSetupMCP e) end
                    end);
      sandbox ← (match sandboxRaw with
                 | None => Ok (cr_sandbox r)
                 | Some raw => sc ← read_sandbox raw; Ok (Some sc)
                 end);
      Ok {| cr_command := command; cr_args := cr_args r ++ default [] (get_list config "args");
            cr_modelFlag := str "model_flag" (cr_modelFlag r); cr_promptFlag := str "prompt_flag" (cr_promptFlag r);
            cr_turnsFlag := str "turns_flag" (cr_turnsFlag r);
            cr_promptPositional := default (cr_promptPositional r) (get_bool config "prompt_positional");
            cr_promptStdin := default (cr_promptStdin r) (get_bool config "prompt_stdin");
            cr_mcpFormat := mcpFormat; cr_mcps := mcps; cr_mcpRunArgs := mcpRunArgs; cr_sandbox := sandbox;
            cr_envPassthrough := cr_envPassthrough r ++ default [] (get_list config "env_passthrough");
            cr_permissionArgs := permissionArgs; cr_permissionFlag := permissionFlag; cr_permissionBypassArgs := bypassArgs;
            cr_allowedToolsFlag := allowedToolsFlag; cr_permissionMode := permissionMode; cr_allowedTools := allowedTools |}.

(** The presets of the providers (src/internal/runner/providers/providers.go). *)
Definition preset (command : string) (extra : Settings) : Settings :=
  extra ∪ {[ "command" := GString command; "model_flag" := GString "--model"; "prompt_flag" := GString "-p"; "prompt_stdin" := GBool true ]}.

Definition strings (l : list string) : GoAny := GList (GString <$> l).

Definition presets : gmap string Settings := {[
  "claude-cli" := preset "claude" {[
    "args" := strings ["--output-format"; "stream-json"; "--verbose"]; "mcp_format" := GString "claude";
    "turns_flag" := GString "--max-turns"; "permission_mode" := GString "bypass"; "permission_flag" := GString "--permission-mode";
    "permission_bypass_args" := strings ["--dangerously-skip-permissions"]; "allowed_tools_flag" := GString "--allowedTools" ]};
  "opencode-cli" := preset "opencode" {[
    "args" := strings ["run"]; "prompt_flag" := GString ""; "prompt_positional" := GBool true; "mcp_format" := GString "opencode" ]};
  "codex-cli" := preset "codex" {[
    "args" := strings ["exec"; "--sandbox"; "workspace-write"]; "prompt_flag" := GString ""; "prompt_positional" := GBool true;
    "mcp_format" := GString "codex" ]};
  "cursor-cli" := preset "agent" {[
    "args" := strings ["-p"; "--output-format"; "stream-json"]; "prompt_flag" := GString ""; "prompt_positional" := GBool true;
    "mcp_format" := GString "cursor"; "permission_mode" := GString "bypass"; "permission_bypass_args" := strings ["--force"] ]}
]}.

(** [runner.New] for the command-line adapters. *)
Definition New_runner (setupMCP : string -> list MCPServer -> result string (list string)) (adapter : string) : option CliRunner :=
  match presets !! adapter with
  | None => None
  | Some config => Some (match Configure setupMCP config zero_runner with Ok r => r | Err _ => zero_runner end)
  end.

(** ** A run *)

Definition promptArgvLimit : N := 120 * 1024.

(** [promptDelivery]: the arguments, and whether the prompt goes to stdin. *)
Definition promptDelivery (r : CliRunner) (prompt : string) : list string * bool :=
  if is_empty (cr_promptFlag r) && negb (cr_promptPositional r) then ([], true)
  else if cr_promptStdin r && (promptArgvLimit <? N.of_nat (String.length prompt))%N then
    (if cr_promptPositional r then [] else [cr_promptFlag r], true)
  else if cr_promptPositional r then ([prompt], false)
  else ([cr_promptFlag r; prompt], false).

(** The arguments [Run] builds. *)
Definition run_argv (r : CliRunner) (req : RunRequest) (prompt : string) : list string * bool :=
  let '(promptArgs, onStdin) := promptDelivery r prompt in
  (cr_args r ++ cr_mcpRunArgs r ++ cr_permissionArgs r
   ++ (if negb (is_empty (cr_modelFlag r)) && negb (is_empty (rr_Model req)) then [cr_modelFlag r; rr_Model req] else [])
   ++ (if negb (is_empty (cr_turnsFlag r)) && (0 <? rr_MaxTurns req)%Z then [cr_turnsFlag r; pretty (rr_MaxTurns req)] else [])
   ++ promptArgs, onStdin).

(** [exec.Cmd]. *)
Record Command := { cmd_path : string; cmd_args : list string; cmd_dir : string; cmd_env : list string; cmd_stdin : option string }.

(** The command of [Run]; [overlay] lists the variables of the request in the order
    the map is visited in. *)
Definition run_command (r : CliRunner) (self : string) (hostEnv : list string) (req : RunRequest) (overlay : list (string * string))
    (prompt : string) : Command :=
  let '(argv, onStdin) := run_argv r req prompt in
  let stdin := if onStdin then Some prompt else None in
  match cr_sandbox r with
  | Some s =>
      let '(env, names) := scopedEnv hostEnv (rr_Env req) (cr_envPassthrough r) in
      let '(binary, args) := wrapCommand s self (cr_command r) argv (rr_WorkingDir req) names onStdin in
      {| cmd_path := binary; cmd_args := args; cmd_dir := ""; cmd_env := env; cmd_stdin := stdin |}
  | None =>
      {| cmd_path := cr_command r; cmd_args := argv; cmd_dir := rr_WorkingDir req;
         cmd_env := hostEnv ++ ((fun kv => kv.1 +:+ "=" +:+ kv.2) <$> overlay); cmd_stdin := stdin |}
  end.

(** ** Changing the runner of an agent *)

Inductive UpdateError :=
  | ErrRunnerNotFound (id : string)
  | ErrTypeNotRegistered (ty : string)
  | ErrConfigure (e : RunnerError).

(** The part of [UpdateAgentConfig] that replaces a runner: the new one with the key of
    its pauses. *)
Definition update_runner (setupMCP : string -> list MCPServer -> result string (list string)) (runners : list RunnerConfig) (newRunner : string)
    : result UpdateError (CliRunner * string) :=
  match List.find (fun rc => bool_decide (rf_ID rc = newRunner)) runners with
  | None => Err (ErrRunnerNotFound newRunner)
  | Some rc =>
      match New_runner setupMCP (rf_Type rc) with
      | None => Err (ErrTypeNotRegistered (rf_Type rc))
      | Some ra =>
          match Configure setupMCP (injectRunnerSecurity (rf_Config rc) (rf_Sandbox rc) (rf_EnvPassthrough rc)) ra with
          | Err e => Err (ErrConfigure e)
          | Ok r => Ok (r, rf_Type rc)
          end
      end
  end.

(** The runner of an agent at start, in [New] of the dispatcher, and of a candidate in
    [runOnce] of the advisor. *)
Definition agent_runner (setupMCP : string -> list MCPServer -> result string (list string)) (rc : RunnerConfig) (agentMCPs : list MCPServer)
    : result UpdateError (CliRunner * string) :=
  match New_runner setupMCP (AdapterName rc) with
  | None => Err (ErrTypeNotRegistered (AdapterName rc))
  | Some ra =>
      match Configure setupMCP
              (injectRunnerSecurity (runnerConfigWithMCPs (rf_Config rc) (rf_MCPs rc) agentMCPs) (rf_Sandbox rc) (rf_EnvPassthrough rc)) ra with
      | Err e => Err (ErrConfigure e)
      | Ok r => Ok (r, AdapterName rc)
      end
  end.

Definition advisor_runner (setupMCP : string -> list MCPServer -> result string (list string)) (rc : RunnerConfig) (agentMCPs : list MCPServer)
    : result UpdateError CliRunner :=
  match New_runner setupMCP (AdapterName rc) with
  | None => Err (ErrTypeNotRegistered (AdapterName rc))
  | Some ra =>
      match Configure setupMCP
              (advisor_injectRunnerSecurity (runnerConfigWithMCPs (rf_Config rc) (rf_MCPs rc) agentMCPs) (rf_Sandbox rc) (rf_EnvPassthrough rc)) ra with
      | Err e => Err (ErrConfigure e)
      | Ok r => Ok r
      end
  end.
