(* ===== verification/RunnerConfigProps.v ===== *)
(** * Configuring the runner of an agent: what is contained, and what only seems so

    A sandbox the daemon configures is in force in every run: the process is the
    container's, extra arguments cannot weaken it, and of the host only allowed
    variables reach it. The advisor's runs and a runner changed at run time are
    configured in other ways, with other results. *)

From stdpp Require Import base gmap strings list sorting pretty.
From Stdlib Require Import ZArith Ascii.
From S2P Require Import Prelude Text Model Prompt RunnerConfig.

(** ** Extra arguments *)

Definition flag_of (a : string) : string := (split_flag a).1.

(** A flag with its value inline, one that takes none, or one with the next token. *)
Inductive arg_group : list string -> Prop :=
  | ag_inline a : flag_of a ∈ allowedExtraArgs -> (split_flag a).2 = true -> arg_group [a]
  | ag_plain a : flag_of a ∈ allowedExtraArgs -> (split_flag a).2 = false -> flag_of a ∉ flagTakesValue -> arg_group [a]
  | ag_value a v : flag_of a ∈ allowedExtraArgs -> (split_flag a).2 = false -> flag_of a ∈ flagTakesValue -> arg_group [a; v].

Lemma str_cut_app sep s a b : str_cut sep s = Some (a, b) -> s = a +:+ sep +:+ b.
Proof.
  revert a b. induction s as [|c s IH]; intros a b; cbn [str_cut]; destruct (strip_prefix sep _) as [r|] eqn:E.
  - intros [= <- <-]. by apply strip_prefix_Some in E.
  - done.
  - intros [= <- <-]. by apply strip_prefix_Some in E.
  - destruct (str_cut sep s) as [[a' b']|] eqn:Ec; [|done]. intros [= <- <-]. rewrite str_app_cons. f_equal. by apply IH.
Qed.

Lemma split_flag_app a : a = flag_of a \/ exists v, a = flag_of a +:+ "=" +:+ v.
Proof.
  unfold flag_of, split_flag. destruct (str_cut "=" a) as [[f v]|] eqn:E; [right|by left]. apply str_cut_app in E. by exists v.
Qed.

Lemma has_prefix_longer p s r : has_prefix s p = true -> has_prefix (s +:+ r) p = true.
Proof.
  revert s. induction p as [|c p IH]; intros s H; [by rewrite has_prefix_nil|]. destruct s as [|d s]; [done|].
  rewrite str_app_cons, !has_prefix_cons in *. apply andb_true_iff in H as [-> H]. by apply IH.
Qed.

(** An allowed flag passes the checks of its form. *)
Lemma allowed_form a : flag_of a ∈ allowedExtraArgs ->
  has_prefix a "-" = true /\ negb (has_prefix (flag_of a) "--") && (2 <? String.length (flag_of a)) = false.
Proof.
  intros H. assert (Forall (fun f => has_prefix f "-" = true /\ negb (has_prefix f "--") && (2 <? String.length f) = false) allowedExtraArgs) as Hall
    by (repeat constructor).
  rewrite Forall_forall in Hall. destruct (Hall _ H) as [H1 H2]. split; [|done].
  destruct (split_flag_app a) as [E|[v E]]; rewrite E; [done|by apply has_prefix_longer].
Qed.

Lemma validate_from_spec args : forall expect,
  validate_from expect args = None <->
  exists first groups, args = first ++ concat groups /\ Forall arg_group groups /\ length first = (if expect then 1 else 0).
Proof.
  induction args as [|a args IH]; intros expect; cbn [validate_from].
  - destruct expect; split; try done.
    + intros ([|] & groups & E & _ & Hl); cbn in *; [lia|discriminate].
    + intros _. by exists [], [].
  - destruct expect.
    + rewrite IH. split.
      * intros (first & groups & -> & Hg & Hl). destruct first; [|cbn in Hl; lia]. by exists [a], groups.
      * intros ([|x [|]] & groups & E & Hg & Hl); cbn in *; try lia. injection E as <- ->. by exists [], groups.
    + destruct (split_flag a) as [flag inline] eqn:Es. assert (flag_of a = flag) as Ef by (unfold flag_of; by rewrite Es).
      destruct (str_in flag allowedExtraArgs) eqn:Ea.
      * apply bool_decide_eq_true in Ea. rewrite <- Ef in Ea. destruct (allowed_form a Ea) as [-> Hform]. rewrite Ef in Hform. cbn [negb].
        rewrite Hform, IH. split.
        -- intros (first & groups & -> & Hg & Hl). exists [], ((a :: first) :: groups). split; [by cbn|]. split; [|done]. constructor; [|done].
           destruct (negb inline && str_in flag flagTakesValue) eqn:Et.
           ++ apply andb_true_iff in Et as [Hi%negb_true_iff Ht%bool_decide_eq_true]. destruct first as [|v [|]]; cbn in Hl; try lia.
              apply ag_value; rewrite ?Ef, ?Es; [by rewrite <- Ef|done|done].
           ++ destruct first; [|cbn in Hl; lia]. destruct inline; [apply ag_inline; rewrite ?Es; done|].
              apply ag_plain; rewrite ?Ef, ?Es; [by rewrite <- Ef|done|]. by apply bool_decide_eq_false in Et.
        -- intros (first & groups & E & Hg & Hl). destruct first; [|cbn in Hl; lia]. cbn in E.
           destruct groups as [|g groups]; [done|]. apply Forall_cons in Hg as [Hg Hgs].
           inversion Hg as [b Hb Hi|b Hb Hi Ht|b v Hb Hi Ht]; subst g; cbn in E; injection E as <- ->; rewrite Es in Hi; cbn in Hi; subst inline.
           ++ by exists [], groups.
           ++ exists [], groups. rewrite Ef in Ht. split; [done|]. split; [done|]. unfold str_in. by rewrite (bool_decide_false _ Ht).
           ++ exists [v], groups. rewrite Ef in Ht. split; [done|]. split; [done|]. unfold str_in. by rewrite (bool_decide_true _ Ht).
      * split.
        -- intros H. destruct (negb (has_prefix a "-")); [done|]. by destruct (_ && _).
        -- apply bool_decide_eq_false in Ea. intros (first & groups & E & Hg & Hl). destruct first; [|cbn in Hl; lia]. cbn in E.
           destruct groups as [|g groups]; [done|]. apply Forall_cons in Hg as [Hg _].
           inversion Hg as [b Hb Hi|b Hb Hi Ht|b v Hb Hi Ht]; subst g; cbn in E; injection E as <- _; rewrite Ef in Hb; done.
Qed.

(** The accepted arguments are exactly the sequences of such groups. *)
Lemma validateExtraArgs_grammar args :
  validateExtraArgs args = None <-> exists groups, args = concat groups /\ Forall arg_group groups.
Proof.
  unfold validateExtraArgs. rewrite validate_from_spec. split.
  - intros (first & groups & -> & Hg & Hl). destruct first; [|cbn in Hl; lia]. by exists groups.
  - intros (groups & -> & Hg). by exists [], groups.
Qed.

(** ** What [Configure] takes from the map *)

Definition sandbox_settings (config : Settings) : option Settings :=
  match config !! "sandbox" with Some (GMap m) => Some m | _ => None end.

Section configure.
Context (setupMCP : string -> list MCPServer -> result string (list string)).

Lemma configure_security config r0 r :
  Configure setupMCP config r0 = Ok r ->
  cr_envPassthrough r = cr_envPassthrough r0 ++ default [] (get_list config "env_passthrough")
  /\ match sandbox_settings config with
     | None => cr_sandbox r = cr_sandbox r0
     | Some raw => exists sc, read_sandbox raw = Ok sc /\ cr_sandbox r = Some sc /\ cr_mcps r = []
     end.
Proof.
  unfold Configure, sandbox_settings. cbv zeta. destruct (is_empty _); [done|].
  intros (permissionArgs & _ & H)%bind_Ok.
  set (mcps := match config !! "mcps" with Some (GMCPs l) => l | _ => _ end) in *. clearbody mcps.
  set (raw := match config !! "sandbox" with Some (GMap m) => Some m | _ => None end) in *. clearbody raw.
  destruct raw as [raw|].
  - destruct (negb _) eqn:Em; [done|]. apply negb_false_iff, bool_decide_eq_true in Em. destruct mcps; [|done].
    apply bind_Ok in H as (args & _ & H). apply bind_Ok in H as (sb & Hs & H).
    apply bind_Ok in Hs as (sc & Hs & Hsc). injection Hsc as <-. injection H as <-. cbn. split; [done|]. by exists sc.
  - apply bind_Ok in H as (args & _ & H). apply bind_Ok in H as (sb & Hs & H). injection Hs as <-. by injection H as <-.
Qed.

Lemma only_strings_fmap l : only_strings (GString <$> l) = l.
Proof. induction l as [|s l IH]; [done|]. cbn. by f_equal. Qed.

Definition sandbox_of (s : SandboxConfig) : cliSandbox :=
  {| sb_image := sx_Image s; sb_user := sx_User s; sb_network := sx_Network s; sb_extraArgs := sx_ExtraArgs s |}.

(** What the daemon folds in is taken out again. *)
Lemma daemon_sandbox base s passthrough r0 r :
  Configure setupMCP (injectRunnerSecurity base (Some s) passthrough) r0 = Ok r ->
  cr_sandbox r = Some (sandbox_of s) /\ validateExtraArgs (sx_ExtraArgs s) = None
  /\ cr_envPassthrough r = cr_envPassthrough r0 ++ (if bool_decide (passthrough = []) then default [] (get_list base "env_passthrough") else passthrough).
Proof.
  intros H%configure_security. destruct H as [He Hs].
  assert (sandbox_settings (injectRunnerSecurity base (Some s) passthrough) = Some
    {[ "image" := GString (sx_Image s); "user" := GString (sx_User s); "network" := GString (sx_Network s);
       "extra_args" := GList (GString <$> sx_ExtraArgs s) ]}) as Eset.
  { unfold sandbox_settings, injectRunnerSecurity, sandbox_map. case_bool_decide; [by rewrite lookup_insert_eq|].
    by rewrite lookup_insert_ne, lookup_insert_eq. }
  rewrite Eset in Hs. destruct Hs as (sc & Hr & Hsb & _).
  change (read_sandbox _) with (if is_empty (sx_Image s) then Err ErrSandboxImage
    else match validateExtraArgs (only_strings (GString <$> sx_ExtraArgs s)) with
         | Some e => Err (ErrExtraArgs e)
         | None => Ok {| sb_image := sx_Image s; sb_user := sx_User s; sb_network := sx_Network s;
                         sb_extraArgs := only_strings (GString <$> sx_ExtraArgs s) |}
         end) in Hr.
  rewrite only_strings_fmap in Hr. destruct (is_empty _); [done|]. destruct (validateExtraArgs _) eqn:Ev; [done|]. injection Hr as <-.
  split_and!; [done|done|]. rewrite He. f_equal. unfold get_list, injectRunnerSecurity.
  case_bool_decide; [by rewrite lookup_insert_ne|]. by rewrite lookup_insert_eq, only_strings_fmap.
Qed.

(** What the advisor folds in is not. *)
Lemma advisor_sandbox base s passthrough r0 r :
  Configure setupMCP (advisor_injectRunnerSecurity base s passthrough) r0 = Ok r ->
  (s <> None \/ base !! "sandbox" = None -> cr_sandbox r = cr_sandbox r0)
  /\ (passthrough <> [] -> cr_envPassthrough r = cr_envPassthrough r0).
Proof.
  intros H%configure_security. destruct H as [He Hs]. split.
  - intros Hbase. assert (sandbox_settings (advisor_injectRunnerSecurity base s passthrough) = None) as E.
    { unfold sandbox_settings, advisor_injectRunnerSecurity. case_bool_decide; rewrite ?lookup_insert_ne by done;
        (destruct s; [by rewrite lookup_insert_eq|]); (destruct Hbase as [|Hb]; [done|by rewrite Hb]). }
    by rewrite E in Hs.
  - intros Hp. rewrite He. unfold get_list, advisor_injectRunnerSecurity. rewrite bool_decide_false by done.
    rewrite lookup_insert_eq. by rewrite app_nil_r.
Qed.
End configure.

(** ** Variables *)

(** The value of a variable among those of the host: the last one given. *)
Fixpoint host_value (k : string) (host : list string) : option string :=
  match host with
  | [] => None
  | kv :: host =>
      match host_value k host with
      | Some v => Some v
      | None => match str_cut "=" kv with
                | Some (k', v) => if bool_decide (k' = k) then Some v else None
                | None => None
                end
      end
  end.

Lemma host_vars_lookup pass host k : forall m,
  foldl (host_var pass) m host !! k
  = match (if envAllow k pass then host_value k host else None) with Some v => Some v | None => m !! k end.
Proof.
  induction host as [|kv host IH]; intros m; cbn [foldl host_value]; [by destruct (envAllow k pass)|]. rewrite IH.
  destruct (envAllow k pass) eqn:Ea; [destruct (host_value k host); [done|]|]; unfold host_var;
    (destruct (str_cut "=" kv) as [[k' v]|]; [|done]).
  - case_bool_decide as Ek; [subst k'; by rewrite Ea, lookup_insert_eq|]. destruct (envAllow k' pass); [by rewrite lookup_insert_ne|done].
  - destruct (envAllow k' pass) eqn:Ea'; [|done]. rewrite lookup_insert_ne; [done|]. intros ->. congruence.
Qed.

(** A variable as a sandboxed run may have it: the step's, or else an allowed one of
    the host. *)
Definition scoped_value (host : list string) (overlay : gmap string string) (pass : list string) (k : string) : option string :=
  match overlay !! k with
  | Some v => Some v
  | None => if envAllow k pass then host_value k host else None
  end.

Lemma scoped_vars_lookup host overlay pass k : scoped_vars host overlay pass !! k = scoped_value host overlay pass k.
Proof.
  unfold scoped_vars, scoped_value. rewrite lookup_union, host_vars_lookup, lookup_empty.
  destruct (overlay !! k), (envAllow k pass), (host_value k host); done.
Qed.

(** Variables have names, without the sign that ends a name. *)
Definition var_name (k : string) : Prop := k <> "" /\ str_has "="%char k = false.

Lemma host_value_name k v host :
  Forall (fun kv => has_prefix kv "=" = false) host -> host_value k host = Some v -> var_name k.
Proof.
  induction 1 as [|kv host Hkv _ IH]; cbn [host_value]; [done|]. destruct (host_value k host); [auto|].
  destruct (str_cut "=" kv) as [[k' v']|] eqn:E; [|done]. case_bool_decide; [|done]. intros _. subst k'.
  split.
  - intros ->. apply str_cut_app in E. rewrite E in Hkv. change ("" +:+ "=" +:+ v') with ("=" +:+ v') in Hkv. by rewrite has_prefix_app in Hkv.
  - clear -E. revert kv v' E. induction k as [|c k IH]; intros [|d kv] v' E; try done.
    cbn [str_cut] in E. destruct (strip_prefix "=" (String d kv)) eqn:Es; [done|].
    destruct (str_cut "=" kv) as [[a b]|] eqn:Ec; [|done]. injection E as -> -> ->. cbn [str_has]. rewrite (IH _ _ Ec), orb_false_r.
    apply bool_decide_eq_false. intros <-. done.
Qed.

(** ** The command line of docker *)

(** The options that are passed here and take a value, and those that do not. *)
Definition value_options : list string :=
  ["--network"; "--user"; "--tmpfs"; "--env"; "--cap-drop"; "--security-opt"; "-v"; "-w"] ++ flagTakesValue.
Definition switches : list string := ["--rm"; "--read-only"; "-i"; "--oom-kill-disable"; "--quiet"; "-q"].

(** A name is in a list that is given. *)
Ltac listed := apply (bool_decide_unpack _); vm_compute; exact I.

(** Options in front of what was read of the rest. *)
Definition with_options (opts : list (string * string)) (p : option (list (string * string) * list string))
    : option (list (string * string) * list string) :=
  (fun p => (opts ++ p.1, p.2)) <$> p.

(** The client of docker: "docker run [OPTIONS] IMAGE [COMMAND] [ARG...]". Options are
    read up to the first argument that is none; the value of an option is the next
    argument or stands after "=". Each [--env] sets a variable of the container, by
    its value or, by name only, to the value in the client's own environment. *)
Class Docker := {
  docker_options : list string -> option (list (string * string) * list string);
  docker_env : list string -> list string -> gmap string string;
  option_value f v args : f ∈ value_options -> docker_options (f :: v :: args) = with_options [(f, v)] (docker_options args);
  option_switch f args : f ∈ switches -> docker_options (f :: args) = with_options [(f, "")] (docker_options args);
  option_inline f v args :
    f ∈ value_options ++ switches -> docker_options ((f +:+ "=" +:+ v) :: args) = with_options [(f, v)] (docker_options args);
  options_end image args : has_prefix image "-" = false -> docker_options (image :: args) = Some ([], image :: args);
  env_none env : docker_env [] env = ∅;
  env_value specs k v env : var_name k -> docker_env (specs ++ [k +:+ "=" +:+ v]) env = <[k := v]> (docker_env specs env);
  env_name specs k v env :
    var_name k -> (forall v', (k +:+ "=" +:+ v') ∈ env <-> v' = v) -> docker_env (specs ++ [k]) env = <[k := v]> (docker_env specs env);
}.

(** The values of an option, in order. *)
Definition option_values (f : string) (opts : list (string * string)) : list string :=
  omap (fun o => if bool_decide (o.1 = f) then Some o.2 else None) opts.

Lemma option_values_app f a b : option_values f (a ++ b) = option_values f a ++ option_values f b.
Proof. apply omap_app. Qed.

Lemma option_values_none f opts : Forall (fun o => o.1 <> f) opts -> option_values f opts = [].
Proof. induction 1 as [|o opts Ho _ IH]; [done|]. cbn. by rewrite bool_decide_false. Qed.

Lemma with_options_app a b p : with_options a (with_options b p) = with_options (a ++ b) p.
Proof. destruct p as [[o r]|]; [|done]. unfold with_options. cbn. by rewrite app_assoc. Qed.

(** The flags the sandbox itself is made of. *)
Definition container_flags : list string :=
  ["--rm"; "--network"; "--user"; "--read-only"; "--tmpfs"; "--env"; "--cap-drop"; "--security-opt"; "-i"; "-v"; "-w"].

Lemma allowed_foreign f : f ∈ allowedExtraArgs -> f ∉ container_flags.
Proof.
  intros Hf Hc. assert (forallb (fun f => negb (str_in f container_flags)) allowedExtraArgs = true) as Hall by reflexivity.
  rewrite forallb_forall in Hall. specialize (Hall f (proj1 (list_elem_of_In _ _) Hf)). unfold str_in in Hall.
  by rewrite bool_decide_true in Hall.
Qed.

Lemma allowed_known f : f ∈ allowedExtraArgs -> f ∈ flagTakesValue \/ f ∈ switches.
Proof.
  intros Hf. assert (forallb (fun f => str_in f flagTakesValue || str_in f switches) allowedExtraArgs = true) as Hall by reflexivity.
  rewrite forallb_forall in Hall. specialize (Hall f (proj1 (list_elem_of_In _ _) Hf)).
  apply orb_true_iff in Hall as [H|H]; apply bool_decide_eq_true in H; auto.
Qed.

Section docker.
Context {D : Docker}.

(** Accepted extra arguments are options of the allowed names, whatever comes after. *)
Lemma group_option g : arg_group g ->
  exists o, o.1 ∈ allowedExtraArgs /\ forall args, docker_options (g ++ args) = with_options [o] (docker_options args).
Proof.
  intros [a Ha Hi|a Ha Hi Hn|a v Ha Hi Hv].
  - assert (exists v, a = flag_of a +:+ "=" +:+ v) as [v E].
    { destruct (split_flag_app a) as [E|]; [|done]. unfold flag_of, split_flag in E, Hi.
      destruct (str_cut "=" a) as [[f v]|] eqn:Ec; [|done]. exists v. unfold flag_of, split_flag. rewrite Ec. by apply str_cut_app in Ec. }
    exists (flag_of a, v). split; [done|]. intros args. cbn [app]. rewrite E at 1. apply option_inline. unfold value_options.
    destruct (allowed_known _ Ha) as [H|H]; rewrite !elem_of_app; auto.
  - assert (a = flag_of a) as E by (unfold flag_of, split_flag in *; by destruct (str_cut "=" a) as [[]|]).
    exists (flag_of a, ""). split; [done|]. intros args. cbn [app]. rewrite E at 1. apply option_switch.
    by destruct (allowed_known _ Ha).
  - assert (a = flag_of a) as E by (unfold flag_of, split_flag in *; by destruct (str_cut "=" a) as [[]|]).
    exists (flag_of a, v). split; [done|]. intros args. cbn [app]. rewrite E at 1. apply option_value. unfold value_options.
    rewrite elem_of_app. by right.
Qed.

Lemma groups_options groups : Forall arg_group groups ->
  exists extra, Forall (fun o => o.1 ∈ allowedExtraArgs) extra
    /\ forall args, docker_options (concat groups ++ args) = with_options extra (docker_options args).
Proof.
  induction 1 as [|g groups Hg _ (extra & Hx & IH)].
  - exists []. split; [constructor|]. intros args. cbn. by destruct (docker_options args) as [[]|].
  - destruct (group_option g Hg) as (o & Ho & Hp). exists (o :: extra). split; [by constructor|].
    intros args. cbn [concat]. by rewrite <- app_assoc, Hp, IH, with_options_app.
Qed.

Lemma names_options names args :
  docker_options ((names ≫= fun name => ["--env"; name]) ++ args) = with_options ((fun n => ("--env", n)) <$> names) (docker_options args).
Proof.
  induction names as [|n names IH]; [cbn; by destruct (docker_options args) as [[]|]|]. cbn [mbind list_bind app fmap list_fmap].
  rewrite option_value by listed. rewrite IH. by rewrite with_options_app.
Qed.

(** The options of the sandbox itself. *)
Definition sandbox_options (s : cliSandbox) (self workDir : string) (names : list string) (keepStdin : bool) : list (string * string) :=
  [("--rm", ""); ("--network", if is_empty (sb_network s) then "bridge" else sb_network s);
   ("--user", if is_empty (sb_user s) then self else sb_user s); ("--read-only", ""); ("--tmpfs", tmpfs "/tmp"); ("--tmpfs", tmpfs sandboxHome);
   ("--env", "HOME=" +:+ sandboxHome); ("--cap-drop", "all"); ("--security-opt", "no-new-privileges")]
  ++ (if keepStdin then [("-i", "")] else [])
  ++ (if is_empty workDir then [] else [("-v", workDir +:+ ":" +:+ workDir); ("-w", workDir)])
  ++ ((fun n => ("--env", n)) <$> containerEnvNames names).

Lemma sandbox_flags_read s self workDir names keepStdin args :
  docker_options (tail (sandbox_flags s self workDir names keepStdin) ++ args)
  = with_options (sandbox_options s self workDir names keepStdin) (docker_options args).
Proof.
  unfold sandbox_flags, sandbox_options. cbn [tail app].
  rewrite (option_switch "--rm") by listed.
  rewrite (option_value "--network"), (option_value "--user") by listed.
  rewrite (option_switch "--read-only") by listed.
  do 2 rewrite (option_value "--tmpfs") by listed.
  rewrite (option_value "--env"), (option_value "--cap-drop"), (option_value "--security-opt") by listed.
  rewrite <- !app_assoc.
  assert (forall rest, docker_options ((if keepStdin then ["-i"] else []) ++ rest)
    = with_options (if keepStdin then [("-i", "")] else []) (docker_options rest)) as ->.
  { intros rest. destruct keepStdin; cbn [app]; [apply option_switch; listed|]. by destruct (docker_options rest) as [[]|]. }
  assert (forall rest, docker_options ((if is_empty workDir then [] else ["-v"; workDir +:+ ":" +:+ workDir; "-w"; workDir]) ++ rest)
    = with_options (if is_empty workDir then [] else [("-v", workDir +:+ ":" +:+ workDir); ("-w", workDir)]) (docker_options rest)) as ->.
  { intros rest. destruct (is_empty workDir); cbn [app]; [by destruct (docker_options rest) as [[]|]|].
    rewrite (option_value "-v"), (option_value "-w") by listed. by rewrite with_options_app. }
  rewrite names_options, !with_options_app, <- !app_assoc. reflexivity.
Qed.

(** The variables a container gets by name. *)
Lemma env_by_name (seen : gmap string string) (env : list string) (m0 : list string) names :
  (forall k v, var_name k -> (k +:+ "=" +:+ v) ∈ env <-> seen !! k = Some v) -> Forall (fun k => var_name k /\ is_Some (seen !! k)) names ->
  forall k, docker_env (m0 ++ names) env !! k = if bool_decide (k ∈ names) then seen !! k else docker_env m0 env !! k.
Proof.
  intros Henv. induction names as [|n names IH] using rev_ind; intros Hn k.
  - rewrite app_nil_r, bool_decide_false by (by intros ?%elem_of_nil). done.
  - apply Forall_app in Hn as [Hn [[Hname [v Hv]] _]%Forall_cons]. rewrite app_assoc, (env_name _ n v) by
      (first [done | intros v'; rewrite (Henv _ _ Hname), Hv; split; [by intros [= ->]|by intros ->]]).
    destruct (decide (n = k)) as [->|Hne].
    + rewrite lookup_insert_eq, bool_decide_true by (apply elem_of_app; right; by left). done.
    + rewrite lookup_insert_ne, IH by done. rewrite (bool_decide_ext (k ∈ names ++ [n]) (k ∈ names)); [done|]. set_solver.
Qed.
End docker.

(** ** Containment *)

Lemma option_values_cons f o opts : option_values f (o :: opts) = (if bool_decide (o.1 = f) then [o.2] else []) ++ option_values f opts.
Proof. unfold option_values. cbn. by case_bool_decide. Qed.

Lemma option_values_names f names :
  option_values f ((fun n => ("--env", n)) <$> names) = if bool_decide (f = "--env") then names else [].
Proof.
  induction names as [|n names IH]; [by case_bool_decide|]. rewrite fmap_cons, option_values_cons, IH. cbn [fst snd].
  repeat case_bool_decide; done || congruence.
Qed.

(** What an option of the sandbox is set to, extra arguments included. *)
Lemma sandbox_values s self workDir names keepStdin extra f :
  Forall (fun o => o.1 ∈ allowedExtraArgs) extra -> f ∈ container_flags ->
  option_values f (sandbox_options s self workDir names keepStdin ++ extra)
  = option_values f (sandbox_options s self workDir [] keepStdin) ++ (if bool_decide (f = "--env") then containerEnvNames names else []).
Proof.
  intros Hx Hf. rewrite option_values_app, (option_values_none f extra).
  - rewrite app_nil_r. unfold sandbox_options. cbn [containerEnvNames List.filter fmap list_fmap]. rewrite app_nil_r.
    rewrite !app_assoc, option_values_app. by rewrite option_values_names.
  - eapply Forall_impl; [exact Hx|]. intros o Ho E. rewrite <- E in Hf. by apply (allowed_foreign _ Ho).
Qed.

(** The variables of the container of a run. *)
Definition contained_value (host : list string) (overlay : gmap string string) (pass : list string) (k : string) : option string :=
  if bool_decide (k = "HOME") then Some sandboxHome
  else if str_in k hostOnlyEnv then None
  else scoped_value host overlay pass k.

(** The variables of the host an agent may have: those a process needs, those of the
    providers of models, and those the operator lists, by name or by prefix. *)
Definition may_pass (k : string) (listed : list string) : Prop :=
  k ∈ ["PATH"; "HOME"; "SHELL"; "USER"; "LOGNAME"; "TERM"; "TZ"; "LANG"; "LC_ALL"; "LC_CTYPE"; "TMPDIR"; "TEMP"; "TMP"; "SSL_CERT_FILE";
       "SSL_CERT_DIR"; "CURL_CA_BUNDLE"; "SSH_AUTH_SOCK"; "DOCKER_HOST"; "XDG_CONFIG_HOME"; "XDG_CACHE_HOME"; "XDG_DATA_HOME"]
  \/ (exists family rest, k = family +:+ rest
       /\ family ∈ ["ANTHROPIC_"; "CLAUDE_"; "OPENAI_"; "AZURE_OPENAI_"; "OPENCODE_"; "CURSOR_"; "GEMINI_"; "GOOGLE_GENERATIVE_"; "OPENROUTER_";
                    "GROQ_"; "MISTRAL_"; "DEEPSEEK_"; "XAI_"])
  \/ k ∈ listed
  \/ (exists prefix rest, k = prefix +:+ rest /\ (prefix +:+ "*") ∈ listed).

(** Those that stand for the host, and are not passed on. *)
Definition host_names : list string :=
  ["DOCKER_HOST"; "SSH_AUTH_SOCK"; "HOME"; "PATH"; "SHELL"; "USER"; "LOGNAME"; "TMPDIR"; "TEMP"; "TMP";
   "XDG_CONFIG_HOME"; "XDG_CACHE_HOME"; "XDG_DATA_HOME"].

(** The options an operator may add. *)
Definition limits_and_labels : list string :=
  ["--memory"; "-m"; "--memory-swap"; "--memory-reservation"; "--cpus"; "--cpu-shares"; "-c"; "--cpuset-cpus"; "--cpuset-mems";
   "--pids-limit"; "--ulimit"; "--oom-kill-disable"; "--label"; "-l"; "--name"; "--hostname"; "-h"; "--platform"; "--pull";
   "--quiet"; "-q"].

Lemma has_prefix_rest k p : has_prefix k p = true <-> exists rest, k = p +:+ rest.
Proof.
  split; [|intros [rest ->]; apply has_prefix_app]. revert k. induction p as [|c p IH]; intros k H; [by exists k|].
  destruct k as [|d k]; [done|]. rewrite has_prefix_cons in H. apply andb_true_iff in H as [->%bool_decide_eq_true H].
  destruct (IH k H) as [rest ->]. exists rest. by rewrite str_app_cons.
Qed.

Lemma has_suffix_rest s p : has_suffix s p = true <-> exists a, s = a +:+ p.
Proof.
  change (has_suffix s p) with (has_prefix (String.rev s) (String.rev p)). rewrite has_prefix_rest. split; intros [r H].
  - exists (String.rev r). apply (f_equal String.rev) in H. by rewrite Text.rev_app_distr, !rev_rev in H.
  - exists (String.rev r). by rewrite H, Text.rev_app_distr.
Qed.

Lemma trim_suffix_app p a : trim_suffix p (a +:+ p) = a.
Proof. unfold trim_suffix. by rewrite (proj2 (strip_suffix_Some p (a +:+ p) a) eq_refl). Qed.

Lemma passes_spec k entry : passes k entry = true <-> k = entry \/ exists prefix rest, k = prefix +:+ rest /\ entry = prefix +:+ "*".
Proof.
  unfold passes. destruct (has_suffix entry "*") eqn:E.
  - apply has_suffix_rest in E as [p ->]. rewrite trim_suffix_app, has_prefix_rest. split.
    + intros [rest ->]. right. by exists p, rest.
    + intros [->|(q & rest & -> & E)]; [by eexists|]. apply (f_equal (trim_suffix "*")) in E. rewrite !trim_suffix_app in E.
      subst q. by eexists.
  - rewrite bool_decide_eq_true. split; [by left|]. intros [->|(q & rest & _ & ->)]; [done|].
    exfalso. enough (has_suffix (q +:+ "*") "*" = true) by congruence. by apply has_suffix_rest; eexists.
Qed.

Lemma envAllow_spec k listed : envAllow k listed = true <-> may_pass k listed.
Proof.
  unfold envAllow, may_pass. rewrite !orb_true_iff, !existsb_exists, Logic.or_assoc. unfold str_in at 1. rewrite bool_decide_eq_true.
  apply or_iff_compat_l. assert (forall f (l : list string), (exists x, In x l /\ f x = true) <-> exists x, x ∈ l /\ f x = true) as Hin
    by (intros f l; by setoid_rewrite list_elem_of_In).
  rewrite !Hin. setoid_rewrite has_prefix_rest. setoid_rewrite passes_spec. unfold providerEnvPrefixes. split.
  - intros [(p & Hp & rest & ->)|(e & He & [->|(p & rest & -> & ->)])]; [left; by exists p, rest|right; by left|right; right; by exists p, rest].
  - intros [(p & rest & -> & Hp)|[Hk|(p & rest & -> & Hp)]]; [left; exists p; eauto|right; exists k; eauto|right].
    exists (p +:+ "*"). split; [done|]. right. by exists p, rest.
Qed.

(** The same, told without the code's tables. *)
Lemma contained_value_spec host overlay listed k v :
  contained_value host overlay listed k = Some v <->
  (k = "HOME" /\ v = "/home/apiary")
  \/ ((k ∉ host_names) /\ (overlay !! k = Some v \/ (overlay !! k = None /\ may_pass k listed /\ host_value k host = Some v))).
Proof.
  unfold contained_value, scoped_value. rewrite <- envAllow_spec. change hostOnlyEnv with host_names. unfold str_in.
  case_bool_decide as Hh; [subst k|].
  { split; [intros [= <-]; by left|]. intros [[_ ->]|[Hn _]]; [done|]. exfalso. apply Hn. listed. }
  case_bool_decide as Hn; [split; [done|]; by intros [[? _]|[? _]]|].
  destruct (overlay !! k); [naive_solver|]. destruct (envAllow k listed); naive_solver.
Qed.

Lemma scopedEnv_vars host overlay pass k v :
  (forall k, is_Some (scoped_vars host overlay pass !! k) -> var_name k) -> var_name k ->
  (k +:+ "=" +:+ v) ∈ (scopedEnv host overlay pass).1 <-> scoped_vars host overlay pass !! k = Some v.
Proof.
  intros Hn Hk. unfold scopedEnv. cbn. rewrite list_elem_of_fmap. setoid_rewrite elem_of_sort_strings.
  setoid_rewrite list_elem_of_fmap. split.
  - intros (k' & E & ([k2 v'] & -> & Hv%elem_of_map_to_list)). cbn in E. rewrite Hv in E. cbn in E.
    assert (var_name k2) as [_ H2] by (apply Hn; by eexists). destruct Hk as [_ H1].
    pose proof (str_cut_byte "="%char k v H1) as C1. pose proof (str_cut_byte "="%char k2 v' H2) as C2.
    change (String "="%char v) with ("=" +:+ v) in C1. change (String "="%char v') with ("=" +:+ v') in C2.
    rewrite E, C2 in C1. by injection C1 as <- <-.
  - intros Hv. exists k. rewrite Hv. split; [done|]. exists (k, v). split; [done|]. by apply elem_of_map_to_list.
Qed.

Lemma container_vars {D : Docker} s self workDir host overlay pass keepStdin extra :
  Forall (fun kv => has_prefix kv "=" = false) host -> (forall k, is_Some (overlay !! k) -> var_name k) ->
  Forall (fun o => o.1 ∈ allowedExtraArgs) extra ->
  forall k, docker_env (option_values "--env" (sandbox_options s self workDir (scopedEnv host overlay pass).2 keepStdin ++ extra))
              (scopedEnv host overlay pass).1 !! k
            = contained_value host overlay pass k.
Proof.
  intros Hhost Hov Hx k. assert (forall k, is_Some (scoped_vars host overlay pass !! k) -> var_name k) as Hn.
  { intros k' [v Hv]. rewrite scoped_vars_lookup in Hv. unfold scoped_value in Hv.
    destruct (overlay !! k') eqn:E; [apply Hov; by eexists|]. destruct (envAllow _ _); [|done]. by eapply host_value_name. }
  rewrite sandbox_values by (first [done | listed]).
  assert (option_values "--env" (sandbox_options s self workDir [] keepStdin) = ["HOME=" +:+ sandboxHome]) as ->
    by (unfold sandbox_options; by destruct keepStdin, (is_empty workDir)).
  rewrite bool_decide_true by done.
  assert (forall k, k ∈ containerEnvNames (scopedEnv host overlay pass).2
            <-> is_Some (scoped_vars host overlay pass !! k) /\ str_in k hostOnlyEnv = false) as Hin.
  { intros n. unfold containerEnvNames. rewrite list_elem_of_In, filter_In, <- list_elem_of_In, negb_true_iff.
    unfold scopedEnv. cbn [snd]. rewrite elem_of_sort_strings, list_elem_of_fmap. split; intros [H ?]; (split; [|done]).
    - destruct H as ([n' v] & -> & Hv%elem_of_map_to_list). by eexists.
    - destruct H as [v Hv]. exists (n, v). split; [done|]. by apply elem_of_map_to_list. }
  rewrite (env_by_name (scoped_vars host overlay pass)).
  - unfold contained_value. change ["HOME=" +:+ sandboxHome] with ([] ++ ["HOME" +:+ "=" +:+ sandboxHome]).
    rewrite env_value, env_none by done. rewrite <- scoped_vars_lookup. case_bool_decide as Hk.
    + apply Hin in Hk as [_ Hk]. rewrite bool_decide_false by (by intros ->). by rewrite Hk.
    + case_bool_decide as Eh; [subst k; by rewrite lookup_insert_eq|]. rewrite lookup_insert_ne, lookup_empty by congruence.
      destruct (str_in k hostOnlyEnv) eqn:Es; [done|]. destruct (scoped_vars host overlay pass !! k) eqn:Ev; [|done].
      exfalso. apply Hk, Hin. split; [by eexists|done].
  - intros n v Hname. by apply scopedEnv_vars.
  - apply Forall_forall. intros n Hnn%Hin. destruct Hnn as [Hv _]. split; [by apply Hn|done].
Qed.

(** C37: when a runner was configured with a sandbox by the daemon, every run of it is
    one of a container, as docker reads its arguments: the image is the configured one
    and the agent program with its arguments is the container's; the root file system
    is read-only, all capabilities are dropped and no new privileges are given, the
    network and the user are the configured ones or their defaults, only the working
    directory is mounted from the host, and every other option is one of the allowed
    resource limits and labels. The variables of the container are the step's and the
    allowed ones of the host, of which the step's win, but for the names that stand for
    the host: they are not passed on, the step's neither, and HOME is the sandbox's. *)
Theorem sandboxed_agent_contained {D : Docker} (setupMCP : string -> list MCPServer -> result string (list string)) (base : Settings)
    (s : SandboxConfig) (passthrough : list string) (r0 r : CliRunner) :
  Configure setupMCP (injectRunnerSecurity base (Some s) passthrough) r0 = Ok r ->
  has_prefix (sx_Image s) "-" = false ->
  forall (self : string) (host : list string) (req : RunRequest) (overlay : list (string * string)) (prompt : string),
  Forall (fun kv => has_prefix kv "=" = false) host -> (forall k, is_Some (rr_Env req !! k) -> var_name k) ->
  let cmd := run_command r self host req overlay prompt in
  let allowed := cr_envPassthrough r0 ++ (if bool_decide (passthrough = []) then default [] (get_list base "env_passthrough") else passthrough) in
  cmd_path cmd = "docker" /\ head (cmd_args cmd) = Some "run"
  /\ exists opts,
       docker_options (tail (cmd_args cmd)) = Some (opts, sx_Image s :: cr_command r :: (run_argv r req prompt).1)
       /\ (forall o, o ∈ opts -> o.1 ∈ container_flags \/ o.1 ∈ limits_and_labels)
       /\ option_values "--read-only" opts = [""]
       /\ option_values "--cap-drop" opts = ["all"]
       /\ option_values "--security-opt" opts = ["no-new-privileges"]
       /\ option_values "--network" opts = [if is_empty (sx_Network s) then "bridge" else sx_Network s]
       /\ option_values "--user" opts = [if is_empty (sx_User s) then self else sx_User s]
       /\ option_values "-v" opts = (if is_empty (rr_WorkingDir req) then [] else [rr_WorkingDir req +:+ ":" +:+ rr_WorkingDir req])
       /\ forall k v, docker_env (option_values "--env" opts) (cmd_env cmd) !! k = Some v <->
            (k = "HOME" /\ v = "/home/apiary")
            \/ ((k ∉ host_names)
                /\ (rr_Env req !! k = Some v \/ (rr_Env req !! k = None /\ may_pass k allowed /\ host_value k host = Some v))).
Proof.
  intros H Hi self host req overlay prompt Hhost Hov. apply daemon_sandbox in H as (Hs & Hv & Hp). cbv zeta. rewrite <- Hp.
  unfold run_command. rewrite Hs. destruct (run_argv r req prompt) as [argv onStdin].
  pose proof (fun extra => container_vars (sandbox_of s) self (rr_WorkingDir req) host (rr_Env req) (cr_envPassthrough r) onStdin extra Hhost Hov) as Hvars.
  destruct (scopedEnv host (rr_Env req) (cr_envPassthrough r)) as [env names]. cbn [fst snd] in Hvars.
  cbn [wrapCommand cmd_path cmd_args cmd_env fst]. split; [done|]. split; [done|].
  apply validateExtraArgs_grammar in Hv as (groups & Eg & Hg). apply groups_options in Hg as (extra & Hx & Hread).
  exists (sandbox_options (sandbox_of s) self (rr_WorkingDir req) names onStdin ++ extra).
  split; [|split; [|split_and!; [..|intros k v; rewrite Hvars by done; apply contained_value_spec]; rewrite sandbox_values by (first [done | listed]); unfold sandbox_options;
    by destruct onStdin, (is_empty (rr_WorkingDir req))]].
  - assert (forall rest, tail (sandbox_flags (sandbox_of s) self (rr_WorkingDir req) names onStdin ++ rest)
      = tail (sandbox_flags (sandbox_of s) self (rr_WorkingDir req) names onStdin) ++ rest) as -> by done.
    rewrite sandbox_flags_read. cbn [sb_extraArgs sb_image sandbox_of]. rewrite Eg, Hread, with_options_app. cbn [app].
    rewrite options_end by done.
    unfold with_options. cbn. by rewrite app_nil_r.
  - intros o [Ho|Ho]%elem_of_app; [left|right; by rewrite Forall_forall in Hx; apply Hx]. unfold sandbox_options in Ho.
    rewrite !elem_of_app in Ho. destruct Ho as [Ho|[Ho|[Ho|(n & -> & _)%list_elem_of_fmap]]].
    + unfold container_flags. set_solver.
    + unfold container_flags. destruct onStdin; set_solver.
    + unfold container_flags. destruct (is_empty (rr_WorkingDir req)); set_solver.
    + unfold container_flags. set_solver.
Qed.

(** A client of docker as it is described, to run it. *)
Fixpoint read_options (args : list string) : option (list (string * string) * list string) :=
  match args with
  | [] => Some ([], [])
  | a :: rest =>
      if negb (has_prefix a "-") then Some ([], a :: rest)
      else match str_cut "=" a with
           | Some (f, v) => with_options [(f, v)] (read_options rest)
           | None =>
               if str_in a switches then with_options [(a, "")] (read_options rest)
               else match rest with v :: rest' => with_options [(a, v)] (read_options rest') | [] => None end
           end
  end.

Definition set_env (env : list string) (m : gmap string string) (spec : string) : gmap string string :=
  match str_cut "=" spec with
  | Some (k, v) => <[k := v]> m
  | None => match host_value spec env with Some v => <[spec := v]> m | None => m end
  end.

Lemma option_form f : f ∈ value_options ++ switches -> has_prefix f "-" = true /\ str_has "="%char f = false.
Proof.
  intros Hf. assert (forallb (fun f => has_prefix f "-" && negb (str_has "="%char f)) (value_options ++ switches) = true) as Hall by reflexivity.
  rewrite forallb_forall in Hall. specialize (Hall f (proj1 (list_elem_of_In _ _) Hf)). by apply andb_true_iff in Hall as [? ?%negb_true_iff].
Qed.

Lemma value_not_switch f : f ∈ value_options -> str_in f switches = false.
Proof.
  intros Hf. assert (forallb (fun f => negb (str_in f switches)) value_options = true) as Hall by reflexivity.
  rewrite forallb_forall in Hall. by apply negb_true_iff, (Hall f (proj1 (list_elem_of_In _ _) Hf)).
Qed.

Lemma host_value_in k v env : host_value k env = Some v -> (k +:+ "=" +:+ v) ∈ env.
Proof.
  induction env as [|kv env IH]; cbn [host_value]; [done|]. destruct (host_value k env) as [v'|]; [intros [= ->]; right; auto|].
  destruct (str_cut "=" kv) as [[k' v']|] eqn:E; [|done]. case_bool_decide; [|done]. intros [= ->]. subst k'.
  apply str_cut_app in E as ->. by left.
Qed.

Lemma host_value_some k v env : str_has "="%char k = false -> (k +:+ "=" +:+ v) ∈ env -> is_Some (host_value k env).
Proof.
  intros Hk. induction env as [|kv env IH]; [by intros ?%elem_of_nil|]. intros Hin. cbn [host_value].
  destruct (host_value k env) as [v'|]; [by eexists|]. apply elem_of_cons in Hin as [<-|Hin]; [|by destruct (IH Hin)].
  change ("=" +:+ v) with (String "="%char v). change "=" with (String "="%char ""). rewrite str_cut_byte by done.
  rewrite bool_decide_true by done. by eexists.
Qed.

Definition docker_reader : Docker.
Proof.
  refine {| docker_options := read_options; docker_env := fun specs env => foldl (set_env env) ∅ specs |}.
  - intros f v args Hf. destruct (option_form f) as [Hp Hn]; [apply elem_of_app; by left|]. cbn [read_options]. rewrite Hp. cbn [negb].
    change "=" with (String "="%char ""). by rewrite str_cut_none, value_not_switch.
  - intros f args Hf. destruct (option_form f) as [Hp Hn]; [apply elem_of_app; by right|]. cbn [read_options]. rewrite Hp. cbn [negb].
    change "=" with (String "="%char ""). rewrite str_cut_none by done. unfold str_in. by rewrite bool_decide_true.
  - intros f v args Hf. destruct (option_form f Hf) as [Hp Hn]. cbn [read_options]. rewrite has_prefix_longer by done. cbn [negb].
    change ("=" +:+ v) with (String "="%char v). change "=" with (String "="%char ""). by rewrite str_cut_byte.
  - intros image args Hi. cbn [read_options]. by rewrite Hi.
  - done.
  - intros specs k v env [_ Hk]. rewrite foldl_snoc. unfold set_env at 1.
    change ("=" +:+ v) with (String "="%char v). change "=" with (String "="%char ""). by rewrite str_cut_byte.
  - intros specs k v env [_ Hk] Hv. rewrite foldl_snoc. unfold set_env at 1. change "=" with (String "="%char "").
    rewrite str_cut_none by done. destruct (host_value_some k v env Hk) as [v' Hv']; [by apply Hv|]. rewrite Hv'.
    apply host_value_in, Hv in Hv' as ->. done.
Defined.

(** Servers that are set up without arguments. *)
Definition no_setup (format : string) (servers : list MCPServer) : result string (list string) := Ok [].

Definition limits : SandboxConfig := {| sx_Image := "apiary-agent"; sx_User := ""; sx_Network := "none"; sx_ExtraArgs := ["--memory"; "4g"; "--name=a"] |}.

Definition sandboxed_runner : RunnerConfig := {|
  rf_ID := "safe"; rf_Type := "cli"; rf_Provider := "claude"; rf_Config := {[ "args" := strings ["--x"] ]}; rf_MCPs := [];
  rf_Sandbox := Some limits; rf_EnvPassthrough := ["MYCORP_*"] |}.

Definition sample_host : list string := ["PATH=/bin"; "AWS_SECRET=s3cret"; "MYCORP_KEY=k"; "ANTHROPIC_API_KEY=a"].

Definition sample_item : SourceItem := {|
  si_ID := "7"; si_SourceID := "github"; si_Number := "#7"; si_Title := "t"; si_Description := ""; si_Labels := []; si_Type := "";
  si_Priority := ""; si_State := ""; si_URL := ""; si_Comments := [] |}.

Definition sample_request : RunRequest := {|
  rr_Cell := sample_item; rr_WorkerID := "coder"; rr_Model := "opus"; rr_MaxTurns := 0; rr_SystemPrepend := ""; rr_SystemAppend := "";
  rr_OutputInstruction := ""; rr_SummaryPrompt := ""; rr_WorkingDir := "/w"; rr_Env := <["PATH" := "/opt/bin"]> {[ "GH_TOKEN" := "t" ]}; rr_Timeout := 60; rr_StallTimeout := 0 |}.

(** The arguments and variables of a run of the sandboxed runner, as docker reads them:
    limits come after the sandbox's own options; of the host the agent has its key and
    the variable that was passed, of the step the token, but not the path. *)
Lemma sandboxed_agent_contained_witness :
  match agent_runner no_setup sandboxed_runner [] with
  | Err _ => False
  | Ok (r, key) =>
      let cmd := run_command r "1000:1000" sample_host sample_request [] "hello" in
      key = "claude-cli" /\ cmd_path cmd = "docker"
      /\ exists opts,
           read_options (tail (cmd_args cmd)) = Some (opts, "apiary-agent" :: "claude" :: (run_argv r sample_request "hello").1)
           /\ option_values "--read-only" opts = [""] /\ option_values "--network" opts = ["none"]
           /\ option_values "-v" opts = ["/w:/w"]
           /\ forall k v, foldl (set_env (cmd_env cmd)) ∅ (option_values "--env" opts) !! k = Some v <->
                (k = "HOME" /\ v = "/home/apiary")
                \/ ((k ∉ host_names)
                    /\ (rr_Env sample_request !! k = Some v
                        \/ (rr_Env sample_request !! k = None /\ may_pass k ["MYCORP_*"] /\ host_value k sample_host = Some v)))
  end
  /\ contained_value sample_host (rr_Env sample_request) ["MYCORP_*"] <$> ["HOME"; "PATH"; "GH_TOKEN"; "MYCORP_KEY"; "ANTHROPIC_API_KEY"; "AWS_SECRET"]
     = [Some "/home/apiary"; None; Some "t"; Some "k"; Some "a"; None].
Proof.
  split; [|vm_compute; reflexivity].
  destruct (New_runner no_setup "claude-cli") as [r0|] eqn:E0; [|discriminate].
  destruct (Configure no_setup (injectRunnerSecurity (rf_Config sandboxed_runner) (Some limits) ["MYCORP_*"]) r0) as [r|] eqn:E;
    [|exfalso; injection E0 as <-; vm_compute in E; discriminate].
  assert (forall k, is_Some (rr_Env sample_request !! k) -> var_name k) as Hov.
  { intros k [v Hv]. cbn [rr_Env sample_request] in Hv. apply lookup_insert_Some in Hv as [[<- _]|[_ [<- _]%lookup_singleton_Some]]; by split. }
  destruct (sandboxed_agent_contained (D := docker_reader) no_setup (rf_Config sandboxed_runner) limits ["MYCORP_*"] r0 r E eq_refl
    "1000:1000" sample_host sample_request [] "hello" ltac:(repeat constructor) Hov) as (H1 & _ & opts & H2 & _ & H3 & _ & _ & H6 & _ & H8 & H9).
  assert (agent_runner no_setup sandboxed_runner [] = Ok (r, "claude-cli")) as ->
    by (unfold agent_runner; change (AdapterName sandboxed_runner) with "claude-cli"; rewrite E0;
        change (injectRunnerSecurity _ _ _) with (injectRunnerSecurity (rf_Config sandboxed_runner) (Some limits) ["MYCORP_*"]); by rewrite E).
  assert (cr_command r = "claude" /\ cr_envPassthrough r0 = []) as [Hc Hp]
    by (injection E0 as <-; vm_compute in E; injection E as <-; split; reflexivity).
  rewrite Hc in H2. rewrite Hp in H9. split; [reflexivity|]. split; [exact H1|]. exists opts.
  split; [exact H2|]. split; [exact H3|]. split; [exact H6|]. split; [exact H8|exact H9].
Defined.

(** ** What only seems so *)

(** The comment on the passed variables says that host variables which are not listed
    are never inherited; without a sandbox all of them are. *)
Lemma host_secrets_inherited r self host req overlay prompt kv :
  cr_sandbox r = None -> kv ∈ host -> kv ∈ cmd_env (run_command r self host req overlay prompt).
Proof.
  intros H Hin. unfold run_command. rewrite H. destruct (run_argv _ _ _). cbn. apply elem_of_app. by left.
Qed.

(** The comment on the environment says that the variables of a step are passed to the
    container by name; one that is named like a variable of the host's is not: docker's
    client has it, the container does not. *)
Lemma step_path_not_passed :
  match agent_runner no_setup sandboxed_runner [] with
  | Err _ => False
  | Ok (r, _) =>
      let cmd := run_command r "1000:1000" sample_host sample_request [] "hello" in
      rr_Env sample_request !! "PATH" = Some "/opt/bin"
      /\ str_in "PATH=/opt/bin" (cmd_env cmd) = true /\ str_in "PATH" (cmd_args cmd) = false
  end.
Proof. by vm_compute. Qed.

(** An advisor run is meant to be contained like a daemon run; but the sandbox is put
    into the map as it is, where [Configure] looks for a map, and so are the variables:
    the agent runs on the host, with everything that is in its environment. *)
Lemma advisor_run_not_contained :
  match advisor_runner no_setup sandboxed_runner [] with
  | Err _ => False
  | Ok r => cr_sandbox r = None /\ cr_envPassthrough r = []
            /\ let cmd := run_command r "1000:1000" sample_host sample_request [] "hello" in
               cmd_path cmd = "claude" /\ "AWS_SECRET=s3cret" ∈ cmd_env cmd
  end.
Proof.
  destruct (advisor_runner no_setup sandboxed_runner []) as [r|] eqn:E; [|vm_compute in E; discriminate].
  assert (cr_sandbox r = None /\ cr_envPassthrough r = [] /\ cr_command r = "claude") as (H1 & H2 & H3)
    by (vm_compute in E; injection E as <-; done).
  cbv zeta. split_and!; [done|done| |].
  - unfold run_command. rewrite H1. by destruct (run_argv _ _ _).
  - apply host_secrets_inherited; [done|]. unfold sample_host. right. left.
Qed.

(** A runner is looked up by its type alone when it is changed at run time: that of a
    configuration with a provider is never found. *)
Lemma live_change_not_found :
  is_ok (agent_runner no_setup sandboxed_runner []) = true
  /\ update_runner no_setup [sandboxed_runner] "safe" = Err (ErrTypeNotRegistered "cli").
Proof. by vm_compute. Qed.

(** And one that is found has no MCP servers any more. *)
Lemma live_change_drops_servers :
  let server := {| mcp_Name := "gitnexus"; mcp_Command := "npx"; mcp_Args := []; mcp_Env := ∅ |} in
  let rc := {| rf_ID := "bare"; rf_Type := "claude-cli"; rf_Provider := ""; rf_Config := ∅; rf_MCPs := [server]; rf_Sandbox := None;
               rf_EnvPassthrough := [] |} in
  match agent_runner no_setup rc [], update_runner no_setup [rc] "bare" with
  | Ok (before, _), Ok (after, _) => cr_mcps before = [server] /\ cr_mcps after = []
  | _, _ => False
  end.
Proof. by vm_compute. Qed.

(** ** The prompt and the servers *)

(** The prompt is the last argument or goes to stdin, never both; with [prompt_stdin]
    no prompt over the limit is an argument. *)
Lemma prompt_delivered r req prompt args onStdin :
  run_argv r req prompt = (args, onStdin) ->
  (onStdin = false -> last args = Some prompt)
  /\ (cr_promptStdin r = true -> onStdin = false -> (N.of_nat (String.length prompt) <= promptArgvLimit)%N).
Proof.
  unfold run_argv, promptDelivery. destruct (is_empty (cr_promptFlag r) && negb (cr_promptPositional r)); [by intros [= _ <-]|].
  destruct (cr_promptStdin r); cbn [andb].
  - destruct (promptArgvLimit <? _)%N eqn:E; [by intros [= _ <-]|]. apply N.ltb_ge in E.
    destruct (cr_promptPositional r); intros [= <- <-]; (split; [intros _|done]);
      rewrite ?app_assoc; by rewrite last_app.
  - destruct (cr_promptPositional r); intros [= <- <-]; (split; [intros _|done]); rewrite ?app_assoc; by rewrite last_app.
Qed.

(** The index of [MergeMCPServers] names what it points at. *)
Definition index_ok (acc : list MCPServer * gmap string nat) : Prop :=
  (forall n i, acc.2 !! n = Some i -> mcp_Name <$> acc.1 !! i = Some n) /\ (forall s, s ∈ acc.1 -> is_Some (acc.2 !! mcp_Name s)).

Lemma mcp_index_ok base : index_ok (base, mcp_index base).
Proof.
  unfold index_ok, mcp_index. cbn. set (f := fun (m : gmap string nat) (ix : nat * MCPServer) => <[mcp_Name ix.2 := ix.1]> m).
  assert (forall l (h : nat -> nat) m, (forall n i, foldl f m (imap (fun i s => (h i, s)) l) !! n = Some i ->
      m !! n = Some i \/ exists j s, l !! j = Some s /\ i = h j /\ mcp_Name s = n)
    /\ (forall n, is_Some (m !! n) \/ (exists s, s ∈ l /\ mcp_Name s = n) -> is_Some (foldl f m (imap (fun i s => (h i, s)) l) !! n))) as H.
  { induction l as [|x l IH]; intros h m; cbn.
    - split; [by left|]. by intros n [?|(s & ?%elem_of_nil & _)].
    - destruct (IH (h ∘ S) (f m (h 0, x))) as [H1 H2]. split.
      + intros n i Hi. destruct (H1 n i Hi) as [Hm|(j & s & Hj & -> & Hn)]; [|right; by exists (S j), s].
        unfold f in Hm. cbn in Hm. apply lookup_insert_Some in Hm as [[<- <-]|[_ Hm]]; [right; by exists 0, x|by left].
      + intros n Hn. apply H2. unfold f. cbn. destruct (decide (n = mcp_Name x)) as [->|Hne]; [left; rewrite lookup_insert_eq; by eexists|].
        rewrite lookup_insert_ne by done. destruct Hn as [Hn|(s & [->|Hs]%elem_of_cons & E)]; [by left|congruence|right; by exists s]. }
  destruct (H base id ∅) as [H1 H2]. split.
  - intros n i Hi. destruct (H1 n i Hi) as [Hm|(j & s & Hj & -> & <-)]; [by rewrite lookup_empty in Hm|]. unfold id. by rewrite Hj.
  - intros s Hs. apply H2. right. by exists s.
Qed.

(** One server of the agent: it is served, and so is every other one but the one that
    had its place. *)
Lemma merge_mcp_step acc o : index_ok acc ->
  index_ok (merge_mcp acc o) /\ o ∈ (merge_mcp acc o).1
  /\ forall s, s ∈ (merge_mcp acc o).1 <-> s = o \/ (s ∈ acc.1 /\ exists i, acc.1 !! i = Some s /\ acc.2 !! mcp_Name o <> Some i).
Proof.
  destruct acc as [l m]. intros [H1 H2]. unfold merge_mcp. cbn in *. destruct (m !! mcp_Name o) as [i|] eqn:E; cbn.
  - pose proof (H1 _ _ E) as Hi. destruct (l !! i) as [x|] eqn:Ex; [|done]. injection Hi as Hx.
    assert (i < length l) as Hlt by (by apply lookup_lt_Some in Ex). split_and!.
    + split; cbn.
      * intros n j Hj. destruct (decide (i = j)) as [<-|Hne]; [|rewrite list_lookup_insert_ne by done; by apply H1].
        rewrite list_lookup_insert_eq by done. cbn. pose proof (H1 _ _ Hj) as Hn. rewrite Ex in Hn. cbn in Hn. congruence.
      * intros s Hs. apply list_elem_of_lookup in Hs as [j Hj]. destruct (decide (i = j)) as [<-|Hne].
        -- rewrite list_lookup_insert_eq in Hj by done. injection Hj as <-. by rewrite E.
        -- rewrite list_lookup_insert_ne in Hj by done. apply H2. by eapply list_elem_of_lookup_2.
    + apply list_elem_of_lookup. exists i. by apply list_lookup_insert_eq.
    + intros s. rewrite list_elem_of_lookup. split.
      * intros [j Hj]. destruct (decide (i = j)) as [<-|Hne]; [rewrite list_lookup_insert_eq in Hj by done; left; congruence|].
        rewrite list_lookup_insert_ne in Hj by done. right. split; [by eapply list_elem_of_lookup_2|]. exists j. split; [done|congruence].
      * intros [->|(_ & j & Hj & Hne)]; [exists i; by apply list_lookup_insert_eq|]. exists j. rewrite list_lookup_insert_ne by congruence. done.
  - split_and!.
    + split; cbn.
      * intros n j [[<- <-]|[_ Hj]]%lookup_insert_Some; [by rewrite lookup_app_r, Nat.sub_diag by lia|].
        pose proof (H1 _ _ Hj) as Hn. destruct (l !! j) as [x|] eqn:Ex; [|done]. rewrite lookup_app_l by (by apply lookup_lt_Some in Ex). by rewrite Ex.
      * intros s [Hs|Hs%list_elem_of_singleton]%elem_of_app; [|subst; rewrite lookup_insert_eq; by eexists].
        destruct (decide (mcp_Name o = mcp_Name s)) as [->|Hne]; [rewrite lookup_insert_eq; by eexists|]. rewrite lookup_insert_ne by done. by apply H2.
    + apply elem_of_app. right. by apply list_elem_of_singleton.
    + intros s. rewrite elem_of_app, list_elem_of_singleton. split; [|intros [->|[Hs _]]; [by right|by left]].
      intros [Hs| ->]; [|by left]. right. split; [done|]. apply list_elem_of_lookup in Hs as [j Hj]. exists j. by split.
Qed.
