(* ===== verification/ConfigCheck.v ===== *)
(** * Checking what a configuration names, and starting its agents
      (src/internal/config/validate.go, source_config_validate.go, profile.go,
      src/internal/skills, src/internal/runner, src/internal/daemon/dispatcher.go
      [New])

    The part of [Validate] on runners, sources, agents, workers, fallbacks, profiles,
    notifications and the advisor, in its order; durations, limits, plugins and the
    dashboard are left out, the queue's settings are in WorkerRuntime and workflows in
    Validate. Then how the dispatcher builds the runners of each agent under a profile.
    An error is the entry it is about and what is wrong with it. Maps come as the list
    of their entries in the order of a visit. *)

From stdpp Require Import base gmap strings list.
From Stdlib Require Import ZArith Ascii.
From S2P Require Import Prelude Text Model RunnerConfig.

(** ** The configuration (config.go) *)

Record FallbackConfig := { fb_Runner : string; fb_Model : string }.

(** [AgentConfig], the fields read here. *)
Record AgentDecl := {
  ad_ID : string;
  ad_Model : string;
  ad_SoulFile : string;
  ad_Skills : list string;
  ad_Runner : string;
  ad_Fallbacks : list FallbackConfig;
  ad_FallbackStrategy : string;
  ad_Permissions : list (string * string);
  ad_MCPs : list MCPServer;
  ad_MaxWorkers : Z;
}.

(** An overlay of a profile; a list that is set may be empty. *)
Record ProfileConfig := {
  pf_Runner : string;
  pf_Model : string;
  pf_Fallbacks : option (list FallbackConfig);
  pf_FallbackStrategy : string;
}.

Record SourceDecl := {
  sd_ID : string;
  sd_Type : string;
  sd_Config : gmap string GoAny;
  sd_InterruptOnResolve : bool;
}.

Record WorkerDecl := { wd_ID : string; wd_Runner : string; wd_Model : string }.

(** A channel of notifications: its type and its command. *)
Record Notifications := { nf_OnLabels : list string; nf_Channels : list (string * string) }.

Record LoadedConfig := {
  lc_Version : string;
  lc_Runners : list RunnerConfig;
  lc_DefaultRunner : string;
  lc_EnabledPlugins : list string;
  lc_Sources : list SourceDecl;
  lc_Agents : list AgentDecl;
  lc_Workers : list WorkerDecl;
  lc_DefaultFallbacks : list FallbackConfig;
  lc_Profiles : list (string * list (string * ProfileConfig));
  lc_Notifications : option Notifications;
  lc_ImproveAgent : string;
  lc_EffortModels : list (string * string);
}.

(** ** Errors *)

Inductive CheckEntry :=
  | InConfig | InRunner (i : nat) | InSource (i : nat) | InAgent (i : nat) | InWorker (i : nat)
  | InDefaultFallback (j : nat) | InProfile (profile agent : string) | InNotifications | InImprove.

Inductive Problem :=
  | IDRequired | TypeRequired | ModelRequired | RunnerRequired | VersionRequired
  | DuplicateID (id : string)
  | NoAdapter (name : string)
  | RunnerUndefined (id : string)
  | MCPNameRequired (j : nat) | MCPCommandRequired (j : nat) | MCPDuplicate (j : nat)
  | UnknownKey (key : string) | MissingKey (key : string)
  | PluginRequired | PluginNotEnabled (id : string)
  | NotResolvable (ty : string)
  | SoulNotFound (path : string) | SkillEmpty | SkillNotFound (name : string)
  | BadStrategy (s : string)
  | UnknownTool (tool : string) | BadPermission (tool value : string)
  | FallbackRequired (j : nat) | FallbackUndefined (j : nat) (id : string)
  | AgentUndefined (id : string)
  | OnLabelsRequired | ChannelsRequired | RunRequired (i : nat) | ChannelType (i : nat)
  | UnknownEffort (e : string) | EffortModelEmpty (e : string).

Definition CheckError : Type := CheckEntry * Problem.

(** An error when a condition holds. *)
Definition fault (b : bool) (e : CheckEntry) (p : Problem) : list CheckError := if b then [(e, p)] else [].

(** A loop over a slice that remembers the ids it has seen. *)
Fixpoint seen_loop {A} (check : nat -> list string -> A -> list CheckError) (id : A -> string) (i : nat) (seen : list string)
    (l : list A) : list CheckError :=
  match l with
  | [] => []
  | x :: rest => check i seen x ++ seen_loop check id (S i) (id x :: seen) rest
  end.

(** [validateMCPs]. *)
Fixpoint validateMCPs (e : CheckEntry) (j : nat) (seen : list string) (mcps : list MCPServer) : list CheckError :=
  match mcps with
  | [] => []
  | m :: rest =>
      fault (is_empty (mcp_Name m)) e (MCPNameRequired j)
      ++ fault (is_empty (mcp_Command m)) e (MCPCommandRequired j)
      ++ fault (negb (is_empty (mcp_Name m)) && str_in (mcp_Name m) seen) e (MCPDuplicate j)
      ++ validateMCPs e (S j) (mcp_Name m :: seen) rest
  end.

(** ** Source configurations (source_config_validate.go) *)

Record SourceSchemaKey := { sk_Name : string; sk_Required : bool }.
Record SourceSchema := { ss_Keys : list SourceSchemaKey; ss_Aliases : gmap string string; ss_OpenEnded : bool }.

Definition keyNames (s : SourceSchema) : list string := sort_strings (sk_Name <$> ss_Keys s).

Definition min3 (a b c : nat) : nat :=
  let m := if b <? a then b else a in if c <? m then c else m.

(** The cells after the first of a row of [levenshtein], from those of the row above:
    [left] is the cell written last. *)
Fixpoint lev_cells {A} `{EqDecision A} (x : A) (br : list A) (prev : list nat) (left : nat) : list nat :=
  match br, prev with
  | y :: br, diag :: ((up :: _) as prev) =>
      let v := min3 (left + 1) (up + 1) (diag + (if decide (x = y) then 0 else 1)) in
      v :: lev_cells x br prev v
  | _, _ => []
  end.

(** The loop over the rows; the two slices swap, and every cell is written again. *)
Fixpoint lev_rows {A} `{EqDecision A} (i : nat) (ar br : list A) (prev : list nat) : list nat :=
  match ar with
  | [] => prev
  | x :: ar => lev_rows (S i) ar br (i :: lev_cells x br prev i)
  end.

Definition levenshtein {A} `{EqDecision A} (ar br : list A) : nat :=
  List.nth (length br) (lev_rows 1 ar br (seq 0 (S (length br)))) 0.

Definition editBudget (name : string) : nat := if String.length name <=? 4 then 1 else 2.

(** One pass of the loop of [suggest]: the best name so far with its distance. *)
Definition suggest_step (norm : string) (best : string * nat) (name : string) : string * nat :=
  let d := levenshtein (String.list_ascii_of_string norm) (String.list_ascii_of_string name) in
  if editBudget name <? d then best
  else if is_empty best.1 || (d <? best.2) then (name, d) else best.

Definition suggest (s : SourceSchema) (key : string) : string :=
  let norm := to_lower (trim_space key) in
  match ss_Aliases s !! norm with
  | Some alias => alias
  | None => (foldl (suggest_step norm) ("", 0) (keyNames s)).1
  end.

Section checks.
(** What the command line injects: the adapters, the schema of a source type and
    whether its adapter can resolve items; [None] where the hook is nil. *)
Context (known_adapters : option (list string)) (schema : option (string -> option SourceSchema))
        (resolvable : option (string -> bool)).
(** [os.Stat] and [isFile] of the paths of the agents. *)
Context (readable : string -> bool) (skill_found : string -> bool).
Context (c : LoadedConfig).

(** [validateSourceConfig]. *)
Definition validateSourceConfig (e : CheckEntry) (sourceType : string) (cfg : gmap string GoAny) (handled : list string) : list CheckError :=
  match schema with
  | None => []
  | Some schema =>
      if is_empty sourceType then []
      else match schema sourceType with
           | None => []
           | Some s =>
               let known := sk_Name <$> ss_Keys s in
               (if ss_OpenEnded s then []
                else (fun key => (e, UnknownKey key)) <$>
                       sort_strings (List.filter (fun key => negb (str_in key known)) (map_to_list cfg).*1))
               ++ concat ((fun k => fault (sk_Required k && negb (str_in (sk_Name k) handled)
                                           && bool_decide (cfg !! sk_Name k = None)) e (MissingKey (sk_Name k))) <$> ss_Keys s)
           end
  end.

Definition runnerIDs : list string := rf_ID <$> lc_Runners c.

Definition check_runner (i : nat) (seen : list string) (r : RunnerConfig) : list CheckError :=
  fault (is_empty (rf_ID r)) (InRunner i) IDRequired
  ++ (if is_empty (rf_Type r) then [(InRunner i, TypeRequired)]
      else match known_adapters with
           | None => []
           | Some l => fault (negb (str_in (AdapterName r) l)) (InRunner i) (NoAdapter (AdapterName r))
           end)
  ++ fault (str_in (rf_ID r) seen) (InRunner i) (DuplicateID (rf_ID r))
  ++ validateMCPs (InRunner i) 0 [] (rf_MCPs r).

Definition check_default_runner : list CheckError :=
  fault (negb (is_empty (lc_DefaultRunner c)) && negb (str_in (lc_DefaultRunner c) runnerIDs)) InConfig
    (RunnerUndefined (lc_DefaultRunner c)).

(** [validateImprove]. *)
Definition validateImprove : list CheckError :=
  fault (negb (is_empty (lc_ImproveAgent c)) && negb (str_in (lc_ImproveAgent c) (ad_ID <$> lc_Agents c))) InImprove
    (AgentUndefined (lc_ImproveAgent c))
  ++ concat ((fun em => fault (negb (str_in em.1 ["quick"; "standard"; "deep"])) InImprove (UnknownEffort em.1)
                        ++ fault (is_empty em.2) InImprove (EffortModelEmpty em.1)) <$> lc_EffortModels c).

(** The plugin a source names, by a type assertion to string. *)
Definition plugin_id (cfg : gmap string GoAny) : string :=
  match cfg !! "plugin" with Some (GString s) => s | _ => "" end.

Definition check_source (i : nat) (seen : list string) (s : SourceDecl) : list CheckError :=
  let is_plugin := bool_decide (sd_Type s = "plugin") in
  fault (is_empty (sd_ID s)) (InSource i) IDRequired
  ++ fault (is_empty (sd_Type s)) (InSource i) TypeRequired
  ++ fault (str_in (sd_ID s) seen) (InSource i) (DuplicateID (sd_ID s))
  ++ validateSourceConfig (InSource i) (sd_Type s) (sd_Config s) (if is_plugin then ["plugin"] else [])
  ++ (if is_plugin then
        let id := plugin_id (sd_Config s) in
        if is_empty (trim_space id) then [(InSource i, PluginRequired)]
        else fault (negb (str_in id (lc_EnabledPlugins c))) (InSource i) (PluginNotEnabled id)
      else [])
  ++ match resolvable with
     | None => []
     | Some f => fault (sd_InterruptOnResolve s && negb (is_empty (sd_Type s)) && negb (f (sd_Type s))) (InSource i)
                   (NotResolvable (sd_Type s))
     end.

Definition validFallbackStrategies : list string := ["ordered"; "random"; "least_cost"; "fastest"].
Definition validAgentTools : list string := ["read"; "glob"; "grep"; "task"; "edit"; "bash"; "webfetch"].

(** The loop over a chain of fallbacks, of an agent, of a profile or of the settings. *)
Fixpoint check_fallbacks (err : nat -> Problem -> list CheckError) (j : nat) (fbs : list FallbackConfig) : list CheckError :=
  match fbs with
  | [] => []
  | fb :: rest =>
      (if is_empty (fb_Runner fb) then err j (FallbackRequired j)
       else if str_in (fb_Runner fb) runnerIDs then [] else err j (FallbackUndefined j (fb_Runner fb)))
      ++ check_fallbacks err (S j) rest
  end.

Definition check_skill (i : nat) (name : string) : list CheckError :=
  if is_empty (trim_space name) then [(InAgent i, SkillEmpty)]
  else fault (negb (skill_found name)) (InAgent i) (SkillNotFound name).

Definition check_permission (i : nat) (p : string * string) : list CheckError :=
  fault (negb (str_in p.1 validAgentTools)) (InAgent i) (UnknownTool p.1)
  ++ fault (negb (str_in p.2 ["allow"; "deny"])) (InAgent i) (BadPermission p.1 p.2).

Definition check_agent (i : nat) (seen : list string) (a : AgentDecl) : list CheckError :=
  fault (is_empty (ad_ID a)) (InAgent i) IDRequired
  ++ fault (is_empty (ad_Model a)) (InAgent i) ModelRequired
  ++ fault (negb (is_empty (ad_SoulFile a)) && negb (readable (ad_SoulFile a))) (InAgent i) (SoulNotFound (ad_SoulFile a))
  ++ concat (check_skill i <$> ad_Skills a)
  ++ fault (negb (is_empty (ad_Runner a)) && negb (str_in (ad_Runner a) runnerIDs)) (InAgent i) (RunnerUndefined (ad_Runner a))
  ++ fault (negb (is_empty (ad_FallbackStrategy a)) && negb (str_in (ad_FallbackStrategy a) validFallbackStrategies)) (InAgent i)
       (BadStrategy (ad_FallbackStrategy a))
  ++ concat (check_permission i <$> ad_Permissions a)
  ++ check_fallbacks (fun _ p => [(InAgent i, p)]) 0 (ad_Fallbacks a)
  ++ fault (str_in (ad_ID a) seen) (InAgent i) (DuplicateID (ad_ID a))
  ++ validateMCPs (InAgent i) 0 [] (ad_MCPs a).

Definition check_worker (i : nat) (seen : list string) (w : WorkerDecl) : list CheckError :=
  fault (is_empty (wd_ID w)) (InWorker i) IDRequired
  ++ fault (is_empty (wd_Runner w)) (InWorker i) RunnerRequired
  ++ fault (is_empty (wd_Model w)) (InWorker i) ModelRequired
  ++ fault (str_in (wd_ID w) seen) (InWorker i) (DuplicateID (wd_ID w)).

(** One overlay of a profile. *)
Definition check_overlay (profile : string) (o : string * ProfileConfig) : list CheckError :=
  let e := InProfile profile o.1 in
  fault (negb (str_in o.1 (ad_ID <$> lc_Agents c))) e (AgentUndefined o.1)
  ++ fault (negb (is_empty (pf_Runner o.2)) && negb (str_in (pf_Runner o.2) runnerIDs)) e (RunnerUndefined (pf_Runner o.2))
  ++ fault (negb (is_empty (pf_FallbackStrategy o.2)) && negb (str_in (pf_FallbackStrategy o.2) validFallbackStrategies)) e
       (BadStrategy (pf_FallbackStrategy o.2))
  ++ check_fallbacks (fun _ p => [(e, p)]) 0 (default [] (pf_Fallbacks o.2)).

Definition check_profile (p : string * list (string * ProfileConfig)) : list CheckError :=
  concat (check_overlay p.1 <$> p.2).

(** [validateNotifications]. *)
Definition validateNotifications : list CheckError :=
  match lc_Notifications c with
  | None => []
  | Some n =>
      fault (bool_decide (nf_OnLabels n = [])) InNotifications OnLabelsRequired
      ++ fault (bool_decide (nf_Channels n = [])) InNotifications ChannelsRequired
      ++ concat (imap (fun i ch =>
           if bool_decide (ch.1 = "command") then fault (is_empty (trim_space ch.2)) InNotifications (RunRequired i)
           else [(InNotifications, ChannelType i)]) (nf_Channels n))
  end.

(** These checks of [Validate], in its order. *)
Definition validateReferences : list CheckError :=
  fault (is_empty (lc_Version c)) InConfig VersionRequired
  ++ seen_loop check_runner rf_ID 0 [] (lc_Runners c)
  ++ check_default_runner
  ++ validateImprove
  ++ seen_loop check_source sd_ID 0 [] (lc_Sources c)
  ++ seen_loop check_agent ad_ID 0 [] (lc_Agents c)
  ++ seen_loop check_worker wd_ID 0 [] (lc_Workers c)
  ++ check_fallbacks (fun j p => [(InDefaultFallback j, p)]) 0 (lc_DefaultFallbacks c)
  ++ concat (check_profile <$> lc_Profiles c)
  ++ validateNotifications.
End checks.

(** ** Skills (skills.go) *)

Section skills.
(** [filepath.Join], [isFile] and the user's home directory. *)
Context (join : list string -> string) (isFile : string -> bool) (home : option string).

Definition SearchDirs : list string := [".claude/skills"; ".opencode/skills"; ".apiary/skills"].

Record Resolution := { re_Name : string; re_Path : string; re_Candidates : list string; re_FlatFile : string }.

Definition Found (r : Resolution) : bool := negb (is_empty (re_Path r)).

Definition skill_roots (root : string) : list string :=
  root :: match home with
          | Some h => if is_empty h || bool_decide (h = root) then [] else [h]
          | None => []
          end.

Definition skill_candidates (root name : string) : list string :=
  if is_empty name then []
  else r ← skill_roots root; (fun dir => join [r; dir; name; "SKILL.md"]) <$> SearchDirs.

(** [Resolve]. *)
Definition resolve_skill (root name : string) : Resolution :=
  let candidates := skill_candidates root name in
  let res path flat := {| re_Name := name; re_Path := path; re_Candidates := candidates; re_FlatFile := flat |} in
  if is_empty name then res "" ""
  else match List.find isFile candidates with
       | Some path => res path ""
       | None =>
           match List.find isFile (r ← skill_roots root; (fun dir => join [r; dir; name +:+ ".md"]) <$> SearchDirs) with
           | Some flat => res "" flat
           | None => res "" ""
           end
       end.
End skills.

(** ** Profiles (profile.go) *)

Definition apply_overlay (o : ProfileConfig) (a : AgentDecl) : AgentDecl := {|
  ad_ID := ad_ID a;
  ad_Model := if is_empty (pf_Model o) then ad_Model a else pf_Model o;
  ad_SoulFile := ad_SoulFile a; ad_Skills := ad_Skills a;
  ad_Runner := if is_empty (pf_Runner o) then ad_Runner a else pf_Runner o;
  ad_Fallbacks := default (ad_Fallbacks a) (pf_Fallbacks o);
  ad_FallbackStrategy := if is_empty (pf_FallbackStrategy o) then ad_FallbackStrategy a else pf_FallbackStrategy o;
  ad_Permissions := ad_Permissions a; ad_MCPs := ad_MCPs a; ad_MaxWorkers := ad_MaxWorkers a |}.

Definition entry_of {A} (key : string) (l : list (string * A)) : option A :=
  snd <$> List.find (fun kv => bool_decide (kv.1 = key)) l.

Definition with_agents (agents : list AgentDecl) (c : LoadedConfig) : LoadedConfig := {|
  lc_Version := lc_Version c; lc_Runners := lc_Runners c; lc_DefaultRunner := lc_DefaultRunner c;
  lc_EnabledPlugins := lc_EnabledPlugins c; lc_Sources := lc_Sources c; lc_Agents := agents; lc_Workers := lc_Workers c;
  lc_DefaultFallbacks := lc_DefaultFallbacks c; lc_Profiles := lc_Profiles c; lc_Notifications := lc_Notifications c;
  lc_ImproveAgent := lc_ImproveAgent c; lc_EffortModels := lc_EffortModels c |}.

(** [ApplyProfile]: the agents overridden, whether the profile exists, and the
    configuration. *)
Definition ApplyProfile (name : string) (c : LoadedConfig) : nat * bool * LoadedConfig :=
  if is_empty name then (0, true, c)
  else match entry_of name (lc_Profiles c) with
       | None => (0, false, c)
       | Some profile =>
           let overlaid a := match entry_of (ad_ID a) profile with Some o => apply_overlay o a | None => a end in
           (length (List.filter (fun a => bool_decide (is_Some (entry_of (ad_ID a) profile))) (lc_Agents c)), true,
            with_agents (overlaid <$> lc_Agents c) c)
       end.

(** ** The adapters (runner.go, providers.go, execution/api.go) *)

(** [ApiRunner], whose functions are not set in the daemon. *)
Record ApiRunner := { ap_Endpoint : string; ap_AuthHeader : string }.

(** Its [Configure], which never fails. *)
Definition Configure_api (config : Settings) (r : ApiRunner) : ApiRunner :=
  let set key := match get_string config key with Some v => if is_empty v then None else Some v | None => None end in
  let endpoint := default (ap_Endpoint r) (set "endpoint") in
  {| ap_Endpoint := match set "base_url" with
                    | Some v => if is_empty endpoint then v +:+ "/chat/completions" else endpoint
                    | None => endpoint
                    end;
     ap_AuthHeader := match set "api_key" with Some v => "Bearer " +:+ v | None => ap_AuthHeader r end |}.

Inductive Runner := RCli (r : CliRunner) | RApi (r : ApiRunner).

Definition opencode_api : ApiRunner :=
  {| ap_Endpoint := "https://api.opencode.ai/v1/chat/completions"; ap_AuthHeader := "Bearer ${OPENCODE_API_KEY}" |}.

(** [runner.New] of all registered adapters, and their names. *)
Definition New_adapter (setupMCP : string -> list MCPServer -> result string (list string)) (name : string) : option Runner :=
  if bool_decide (name = "opencode-api") then Some (RApi opencode_api) else RCli <$> New_runner setupMCP name.

Definition Registered : list string := sort_strings ("opencode-api" :: (map_to_list presets).*1).

Definition configure_runner (setupMCP : string -> list MCPServer -> result string (list string)) (config : Settings) (r : Runner)
    : result RunnerError Runner :=
  match r with
  | RCli r => r' ← Configure setupMCP config r; Ok (RCli r')
  | RApi r => Ok (RApi (Configure_api config r))
  end.

(** ** Starting the agents (dispatcher.go [New]) *)

Inductive StartError :=
  | ErrNoModel (agent : string) | ErrNoRunner (agent : string) | ErrRunnerMissing (agent runner : string)
  | ErrAdapterMissing (agent adapter : string) | ErrConfigureAgent (agent : string) (e : RunnerError)
  | ErrFallbackMissing (agent runner : string) | ErrFallbackAdapter (agent adapter : string)
  | ErrConfigureFallback (agent runner : string) (e : RunnerError).

Section start.
Context (setupMCP : string -> list MCPServer -> result string (list string)).

Record StartedAgents := {
  ag_runners : gmap string Runner;                                  (* by pseudo-worker *)
  ag_agentRunner : gmap string string;
  ag_fallbacks : gmap string (list (Runner * string * string));     (* runner, its type, model *)
  ag_sem : gmap string Z;                                      (* the capacity *)
}.

Definition runner_map (c : LoadedConfig) : gmap string RunnerConfig :=
  foldl (fun m rc => <[rf_ID rc := rc]> m) ∅ (lc_Runners c).

Definition agent_settings (rc : RunnerConfig) (a : AgentDecl) : Settings :=
  injectRunnerSecurity (runnerConfigWithMCPs (rf_Config rc) (rf_MCPs rc) (ad_MCPs a)) (rf_Sandbox rc) (rf_EnvPassthrough rc).

Definition start_fallback (c : LoadedConfig) (a : AgentDecl) (fb : FallbackConfig) : result StartError (Runner * string * string) :=
  match runner_map c !! fb_Runner fb with
  | None => Err (ErrFallbackMissing (ad_ID a) (fb_Runner fb))
  | Some frc =>
      match New_adapter setupMCP (AdapterName frc) with
      | None => Err (ErrFallbackAdapter (ad_ID a) (AdapterName frc))
      | Some r =>
          match configure_runner setupMCP (agent_settings frc a) r with
          | Err e => Err (ErrConfigureFallback (ad_ID a) (fb_Runner fb) e)
          | Ok r => Ok (r, AdapterName frc, fb_Model fb)
          end
      end
  end.

Fixpoint start_fallbacks (c : LoadedConfig) (a : AgentDecl) (fbs : list FallbackConfig)
    : result StartError (list (Runner * string * string)) :=
  match fbs with
  | [] => Ok []
  | fb :: rest => x ← start_fallback c a fb; xs ← start_fallbacks c a rest; Ok (x :: xs)
  end.

(** The chain an agent declares, or inherits when it declares none. *)
Definition declared_chain (c : LoadedConfig) (a : AgentDecl) : list FallbackConfig :=
  match ad_Fallbacks a with [] => lc_DefaultFallbacks c | l => l end.

Definition runner_of (c : LoadedConfig) (a : AgentDecl) : string :=
  if is_empty (ad_Runner a) then lc_DefaultRunner c else ad_Runner a.

(** One agent; its chain is appended to the one its id has already. *)
Definition start_agent (c : LoadedConfig) (a : AgentDecl) (d : StartedAgents) : result StartError StartedAgents :=
  if is_empty (ad_Model a) then Err (ErrNoModel (ad_ID a))
  else if is_empty (runner_of c a) then Err (ErrNoRunner (ad_ID a))
  else match runner_map c !! runner_of c a with
       | None => Err (ErrRunnerMissing (ad_ID a) (runner_of c a))
       | Some rc =>
           match New_adapter setupMCP (AdapterName rc) with
           | None => Err (ErrAdapterMissing (ad_ID a) (AdapterName rc))
           | Some r =>
               match configure_runner setupMCP (agent_settings rc a) r with
               | Err e => Err (ErrConfigureAgent (ad_ID a) e)
               | Ok r =>
                   chain ← start_fallbacks c a (declared_chain c a);
                   Ok {| ag_runners := <["agent-" +:+ ad_ID a := r]> (ag_runners d);
                         ag_agentRunner := <[ad_ID a := AdapterName rc]> (ag_agentRunner d);
                         ag_fallbacks := match chain with
                                         | [] => ag_fallbacks d
                                         | _ => <[ad_ID a := default [] (ag_fallbacks d !! ad_ID a) ++ chain]> (ag_fallbacks d)
                                         end;
                         ag_sem := ag_sem d |}
               end
           end
       end.

Fixpoint start_agents (c : LoadedConfig) (l : list AgentDecl) (d : StartedAgents) : result StartError StartedAgents :=
  match l with
  | [] => Ok d
  | a :: rest => d ← start_agent c a d; start_agents c rest d
  end.

(** The loop of the semaphores, before the profile is applied. *)
Definition agent_semaphores (c : LoadedConfig) : gmap string Z :=
  foldl (fun m a => <[ad_ID a := if (ad_MaxWorkers a <? 1)%Z then 1%Z else ad_MaxWorkers a]> m) ∅ (lc_Agents c).

(** The agents of the dispatcher under a profile; a profile that is not found changes
    nothing. *)
Definition load_agents (profile : string) (c : LoadedConfig) : result StartError StartedAgents :=
  let c' := (ApplyProfile profile c).2 in
  start_agents c' (lc_Agents c') {| ag_runners := ∅; ag_agentRunner := ∅; ag_fallbacks := ∅; ag_sem := agent_semaphores c |}.
End start.
