(* ===== verification/ConfigCheckProps.v ===== *)
(** * Checked configurations start: agents, their chains, and the distance of keys

    The agents of a configuration without a reference error start under any profile,
    each with the runner and exactly the chain it declares or inherits, unless one has
    no runner or a runner refuses its settings; what the checks do not ask for is at
    the end. The table of [levenshtein] computes the least number of edits. *)

From stdpp Require Import base gmap strings list.
From Stdlib Require Import ZArith Ascii.
From S2P Require Import Prelude Text Model RunnerConfig ConfigCheck.

(** ** Edit distance *)

Section edits.
Context {A : Type} `{EqDecision A}.

(** [n] single edits turn the first list into the second. *)
Inductive edits : nat -> list A -> list A -> Prop :=
  | ed_nil : edits 0 [] []
  | ed_keep n x a b : edits n a b -> edits n (x :: a) (x :: b)
  | ed_replace n x y a b : edits n a b -> edits (S n) (x :: a) (y :: b)
  | ed_insert n y a b : edits n a b -> edits (S n) a (y :: b)
  | ed_delete n x a b : edits n a b -> edits (S n) (x :: a) b.

Hint Constructors edits : core.

Lemma edits_append n a b a' b' k : edits n a b -> edits k a' b' -> edits (n + k) (a ++ a') (b ++ b').
Proof. induction 1; intros Hk; simpl; auto. Qed.

Lemma edits_rev n a b : edits n a b -> edits n (rev a) (rev b).
Proof.
  induction 1 as [|n x a b _ IH|n x y a b _ IH|n y a b _ IH|n x a b _ IH]; simpl; [constructor|..].
  - rewrite <- (Nat.add_0_r n). apply edits_append; auto.
  - replace (S n) with (n + 1) by lia. apply edits_append; auto.
  - rewrite <- (app_nil_r (rev a)). replace (S n) with (n + 1) by lia. apply edits_append; auto.
  - rewrite <- (app_nil_r (rev b)). replace (S n) with (n + 1) by lia. apply edits_append; auto.
Qed.

Definition cost (x y : A) : nat := if decide (x = y) then 0 else 1.

(** The distance, from the last element on. *)
Fixpoint dist (a : list A) : list A -> nat :=
  match a with
  | [] => fun b => length b
  | x :: a' =>
      fix go b := match b with
                  | [] => S (length a')
                  | y :: b' => Nat.min (S (go b')) (Nat.min (S (dist a' b)) (dist a' b' + cost x y))
                  end
  end.

Lemma dist_nil_r a : dist a [] = length a.
Proof. by destruct a. Qed.

Lemma dist_cons x a y b :
  dist (x :: a) (y :: b) = Nat.min (S (dist (x :: a) b)) (Nat.min (S (dist a (y :: b))) (dist a b + cost x y)).
Proof. done. Qed.

Lemma dist_insert a y b : dist a (y :: b) <= S (dist a b).
Proof. destruct a as [|x a]; [done|]. rewrite dist_cons. lia. Qed.

Lemma dist_delete x a b : dist (x :: a) b <= S (dist a b).
Proof. destruct b as [|y b]; [by rewrite !dist_nil_r|]. rewrite dist_cons. lia. Qed.

Lemma dist_edits a b : edits (dist a b) a b.
Proof.
  revert b. induction a as [|x a IHa]; intros b.
  - induction b as [|y b IH]; simpl in *; auto.
  - induction b as [|y b IHb].
    + rewrite dist_nil_r. pose proof (IHa []) as H. rewrite dist_nil_r in H. simpl. auto.
    + rewrite dist_cons. unfold cost. destruct (Nat.min_spec (S (dist a (y :: b))) (dist a b + (if decide (x = y) then 0 else 1))) as [[_ E]|[_ E]];
        rewrite E; clear E.
      * destruct (Nat.min_spec (S (dist (x :: a) b)) (S (dist a (y :: b)))) as [[_ ->]|[_ ->]]; auto.
      * destruct (Nat.min_spec (S (dist (x :: a) b)) (dist a b + (if decide (x = y) then 0 else 1))) as [[_ ->]|[_ ->]]; [auto|].
        destruct (decide (x = y)) as [->|]; [rewrite Nat.add_0_r; auto|]. rewrite Nat.add_1_r. auto.
Qed.

(** No script is shorter. *)
Lemma edits_dist n a b : edits n a b -> dist a b <= n.
Proof.
  induction 1 as [|n x a b _ IH|n x y a b _ IH|n y a b _ IH|n x a b _ IH]; [done|..].
  - rewrite dist_cons. unfold cost. rewrite decide_True by done. lia.
  - rewrite dist_cons. unfold cost. case_decide; lia.
  - pose proof (dist_insert a y b). lia.
  - pose proof (dist_delete x a b). lia.
Qed.

(** ** The table *)

Lemma min3_min a b c : min3 a b c = Nat.min a (Nat.min b c).
Proof.
  unfold min3. destruct (Nat.ltb_spec b a); destruct (Nat.ltb_spec c b) as [|]; try destruct (Nat.ltb_spec c a); lia.
Qed.

(** The row of [a] against the prefixes of a list that go on from [done] with [br];
    both come reversed. *)
Definition row (a done br : list A) : list nat := (fun j => dist a (rev (take j br) ++ done)) <$> seq 0 (S (length br)).

Lemma row_cons a don y br : row a don (y :: br) = dist a don :: row a (y :: don) br.
Proof.
  unfold row. change (seq 0 (S (length (y :: br)))) with (0 :: seq 1 (S (length br))). rewrite fmap_cons. f_equal.
  rewrite <- (fmap_S_seq 0).
  rewrite <- list_fmap_compose. apply list_fmap_ext. intros i j _. simpl. by rewrite <- app_assoc.
Qed.

Lemma row_nil a don : row a don [] = [dist a don].
Proof. done. Qed.

Lemma lev_cells_row x a don br :
  dist (x :: a) don :: lev_cells x br (row a don br) (dist (x :: a) don) = row (x :: a) don br.
Proof.
  revert don. induction br as [|y br IH]; intros don; [by rewrite !row_nil|].
  rewrite !row_cons. cbn [lev_cells]. f_equal.
  assert (exists r, row a (y :: don) br = dist a (y :: don) :: r) as [r Hr] by (destruct br; [rewrite row_nil|rewrite row_cons]; eauto).
  rewrite Hr. rewrite <- Hr.
  assert (min3 (dist (x :: a) don + 1) (dist a (y :: don) + 1) (dist a don + (if decide (x = y) then 0 else 1)) = dist (x :: a) (y :: don)) as ->.
  { rewrite min3_min, dist_cons. unfold cost. lia. }
  apply IH.
Qed.

Lemma lev_rows_row a don br :
  lev_rows (S (length don)) a br (row don [] br) = row (rev a ++ don) [] br.
Proof.
  revert don. induction a as [|x a IH]; intros don; [done|]. cbn [lev_rows].
  pose proof (lev_cells_row x don [] br) as H. rewrite dist_nil_r in H. simpl length in H. rewrite H.
  change (S (S (length don))) with (S (length (x :: don))). rewrite IH. simpl. by rewrite <- app_assoc.
Qed.

Lemma levenshtein_dist (a b : list A) : levenshtein a b = dist (rev a) (rev b).
Proof.
  unfold levenshtein.
  assert (seq 0 (S (length b)) = row [] [] b) as ->.
  { unfold row. symmetry. rewrite <- (list_fmap_id (seq 0 (S (length b)))) at 2. apply list_fmap_ext.
    intros i j Hj. apply lookup_seq in Hj as [-> Hi]. simpl. rewrite app_nil_r, length_rev, length_take. lia. }
  change 1 with (S (@length A [])). rewrite lev_rows_row, app_nil_r. unfold row.
  rewrite nth_lookup, list_lookup_fmap, lookup_seq_lt by lia. simpl. by rewrite take_ge, app_nil_r by done.
Qed.

(** The two-row table of [levenshtein] holds the least number of insertions,
    deletions and replacements that turn the first text into the second. *)
Theorem levenshtein_minimal (a b : list A) :
  edits (levenshtein a b) a b /\ forall n, edits n a b -> levenshtein a b <= n.
Proof.
  rewrite levenshtein_dist. split.
  - pose proof (edits_rev _ _ _ (dist_edits (rev a) (rev b))) as H. by rewrite !rev_involutive in H.
  - intros n H%edits_rev. by apply edits_dist.
Qed.
End edits.

(** What the loop of [suggest] has found among the names it has seen. *)
Definition found_among (norm : string) (seen : list string) (best : string * nat) : Prop :=
  let d name := levenshtein (String.list_ascii_of_string norm) (String.list_ascii_of_string name) in
  (best.1 = "" /\ forall name, name ∈ seen -> editBudget name < d name)
  \/ (best.1 ∈ seen /\ best.1 <> "" /\ best.2 = d best.1 /\ d best.1 <= editBudget best.1
      /\ forall name, name ∈ seen -> d name <= editBudget name -> d best.1 <= d name).

Lemma suggest_step_found norm seen best name :
  name <> "" -> found_among norm seen best -> found_among norm (name :: seen) (suggest_step norm best name).
Proof.
  intros Hn Hf. unfold suggest_step, found_among in *. set (dn := levenshtein (String.list_ascii_of_string norm) (String.list_ascii_of_string name)) in *.
  destruct (Nat.ltb_spec (editBudget name) dn) as [Hlt|Hle].
  - destruct Hf as [[Hb Hs]|(Hin & Hb & H2 & Hd & Hs)]; [left|right]; split_and!; try done; try (by right).
    + by intros x [->|Hx]%elem_of_cons; auto.
    + intros x [->|Hx]%elem_of_cons Hx'; [|auto]. fold dn in Hx'. lia.
  - destruct Hf as [[Hb Hs]|(Hin & Hb & H2 & Hd & Hs)].
    + apply is_empty_true in Hb. rewrite Hb. right. simpl. split_and!; try done; [by left|].
      intros x [->|Hx]%elem_of_cons Hx'; [done|]. specialize (Hs x Hx). lia.
    + apply is_empty_false in Hb as Hb'. rewrite Hb'. simpl. rewrite H2. right.
      destruct (Nat.ltb_spec dn (levenshtein (String.list_ascii_of_string norm) (String.list_ascii_of_string best.1))); simpl.
      * split_and!; try done; [by left|]. intros x [->|Hx]%elem_of_cons Hx'; [done|]. specialize (Hs x Hx Hx'). fold dn. lia.
      * split_and!; try done; [by right|]. intros x [->|Hx]%elem_of_cons Hx'; [done|auto].
Qed.

Lemma suggest_loop_found norm l : forall seen best,
  (forall name, name ∈ l -> name <> "") -> found_among norm seen best ->
  exists seen', (forall name, name ∈ seen' <-> name ∈ seen \/ name ∈ l) /\ found_among norm seen' (foldl (suggest_step norm) best l).
Proof.
  induction l as [|name l IH]; intros seen best Hl Hf; simpl.
  - exists seen. split; [|done]. intros x. rewrite elem_of_nil. tauto.
  - destruct (IH (name :: seen) (suggest_step norm best name)) as (seen' & Hs & Hf').
    + intros x Hx. apply Hl. by right.
    + apply suggest_step_found; [apply Hl; by left|done].
    + exists seen'. split; [|done]. intros x. rewrite Hs, !elem_of_cons. tauto.
Qed.

(** What [suggest] names, without an alias: a key within its budget, and no key within
    its own is nearer. *)
Lemma suggest_nearest (s : SourceSchema) key :
  (forall name, name ∈ keyNames s -> name <> "") -> ss_Aliases s !! to_lower (trim_space key) = None -> suggest s key <> "" ->
  let d name := levenshtein (String.list_ascii_of_string (to_lower (trim_space key))) (String.list_ascii_of_string name) in
  suggest s key ∈ keyNames s /\ d (suggest s key) <= editBudget (suggest s key)
  /\ forall name, name ∈ keyNames s -> d name <= editBudget name -> d (suggest s key) <= d name.
Proof.
  intros Hn Ha. unfold suggest. rewrite Ha. intros Hne.
  destruct (suggest_loop_found (to_lower (trim_space key)) (keyNames s) [] ("", 0) Hn) as (seen & Hs & Hf).
  { left. split; [done|]. intros x Hx. by apply elem_of_nil in Hx. }
  destruct Hf as [[H _]|(Hin & _ & _ & Hd & Hbest)]; [done|]. split_and!.
  - apply Hs in Hin as [Hin|Hin]; [by apply elem_of_nil in Hin|done].
  - done.
  - intros x Hx. apply Hbest, Hs. by right.
Qed.

(** ** Checks without errors *)

Lemma fault_nil b e p : fault b e p = [] <-> b = false.
Proof. by destruct b. Qed.

Lemma seen_loop_nil {A} (check : nat -> list string -> A -> list CheckError) id i seen l :
  seen_loop check id i seen l = [] -> forall x, x ∈ l -> exists j seen', check j seen' x = [].
Proof.
  revert i seen. induction l as [|y l IH]; intros i seen; simpl; [intros _ x Hx; by apply elem_of_nil in Hx|].
  intros [H1 H2]%app_nil x [->|Hx]%elem_of_cons; eauto.
Qed.

(** A check that objects to a repeated id leaves no repetition. *)
Lemma seen_loop_NoDup {A} (check : nat -> list string -> A -> list CheckError) id i seen l :
  (forall j seen x, check j seen x = [] -> id x ∉ seen) ->
  seen_loop check id i seen l = [] -> NoDup (id <$> l) /\ forall x, x ∈ l -> id x ∉ seen.
Proof.
  intros Hc. revert i seen. induction l as [|y l IH]; intros i seen; simpl.
  - intros _. split; [constructor|]. intros x Hx. by apply elem_of_nil in Hx.
  - intros [H1 H2]%app_nil. apply IH in H2 as [Hn Hs]. split.
    + constructor; [|done]. rewrite list_elem_of_fmap. intros (x & Hx & Hin). apply (Hs x Hin). rewrite <- Hx. by left.
    + intros x [->|Hx]%elem_of_cons; [by eapply Hc|]. intros Hin. apply (Hs x Hx). by right.
Qed.

Lemma concat_nil_elem {A} (l : list (list A)) x : concat l = [] -> x ∈ l -> x = [].
Proof.
  induction l as [|y l IH]; simpl; [intros _ Hx; by apply elem_of_nil in Hx|]. intros [-> H]%app_nil [->|Hx]%elem_of_cons; auto.
Qed.

Lemma str_in_true x l : str_in x l = true <-> x ∈ l.
Proof. unfold str_in. apply bool_decide_eq_true. Qed.

Section valid.
Context (known : list string) (schema : option (string -> option SourceSchema)) (resolvable : option (string -> bool)).
Context (readable skill_found : string -> bool) (c : LoadedConfig).
Context (valid : validateReferences (Some known) schema resolvable readable skill_found c = []).

Lemma valid_runner r : r ∈ lc_Runners c -> AdapterName r ∈ known.
Proof.
  intros Hr. unfold validateReferences in valid.
  apply app_nil in valid as [_ H]. apply app_nil in H as [H _].
  destruct (seen_loop_nil _ _ _ _ _ H r Hr) as (j & seen & Hc). unfold check_runner in Hc.
  apply app_nil in Hc as [_ Hc]. apply app_nil in Hc as [Hc _]. destruct (is_empty (rf_Type r)); [done|].
  apply fault_nil, negb_false_iff in Hc. by apply str_in_true.
Qed.

Lemma valid_agents : NoDup (ad_ID <$> lc_Agents c) /\ forall a, a ∈ lc_Agents c -> exists j seen, check_agent readable skill_found c j seen a = [].
Proof.
  unfold validateReferences in valid. do 5 (apply app_nil in valid as [_ valid]). apply app_nil in valid as [H _].
  split; [|exact (seen_loop_nil _ _ _ _ _ H)]. refine (proj1 (seen_loop_NoDup _ _ _ _ _ _ H)).
  intros j seen x Hx Hin. unfold check_agent in Hx. do 8 (apply app_nil in Hx as [_ Hx]). apply app_nil in Hx as [Hx _].
  apply fault_nil in Hx. apply str_in_true in Hin. congruence.
Qed.
End valid.

(** ** Starting a checked configuration *)

(** What starting an agent needs of a configuration. *)
Record startable (c : LoadedConfig) (a : AgentDecl) : Prop := {
  sb_model : ad_Model a <> "";
  sb_runner : runner_of c a <> "" -> runner_of c a ∈ runnerIDs c;
  sb_chain : Forall (fun fb => fb_Runner fb ∈ runnerIDs c) (declared_chain c a);
}.

Lemma check_fallbacks_nil c err j fbs :
  (forall j p, err j p <> []) -> check_fallbacks c err j fbs = [] -> Forall (fun fb => fb_Runner fb ∈ runnerIDs c) fbs.
Proof.
  intros He. revert j. induction fbs as [|fb fbs IH]; intros j; simpl; [constructor|]. intros [H1 H2]%app_nil.
  constructor; [|by apply (IH (S j))]. destruct (is_empty _); [by apply He in H1|].
  destruct (str_in _ _) eqn:E; [by apply str_in_true|by apply He in H1].
Qed.

(** The runner an id names: the last one declared with it. *)
Lemma runner_map_found c id : id ∈ runnerIDs c -> exists rc, runner_map c !! id = Some rc /\ rc ∈ lc_Runners c /\ rf_ID rc = id.
Proof.
  unfold runnerIDs, runner_map. intros H.
  assert (forall l (m : gmap string RunnerConfig), (forall rc, m !! id = Some rc -> rc ∈ lc_Runners c /\ rf_ID rc = id) ->
    (forall rc, rc ∈ l -> rc ∈ lc_Runners c) -> (id ∈ rf_ID <$> l \/ is_Some (m !! id)) ->
    exists rc, foldl (fun m rc => <[rf_ID rc := rc]> m) m l !! id = Some rc /\ rc ∈ lc_Runners c /\ rf_ID rc = id) as Hgen.
  { induction l as [|x l IH]; intros m Hm Hl Hin; simpl.
    - destruct Hin as [Hin|[rc Hrc]]; [by apply elem_of_nil in Hin|]. exists rc. auto.
    - apply IH; [|intros rc Hrc; apply Hl; by right|].
      + intros rc Hrc. destruct (decide (rf_ID x = id)) as [He|Hne].
        * rewrite <- He, lookup_insert_eq in Hrc. simplify_eq. split; [apply Hl; by left|done].
        * rewrite lookup_insert_ne in Hrc by done. auto.
      + destruct (decide (rf_ID x = id)) as [He|Hne]; [right; rewrite <- He, lookup_insert_eq; eauto|].
        rewrite lookup_insert_ne by done. destruct Hin as [Hin|]; [|by right]. left.
        rewrite fmap_cons in Hin. apply elem_of_cons in Hin as [->|]; done. }
  apply Hgen; [by intros rc|done|by left].
Qed.

Section valid_agents.
Context (known : list string) (schema : option (string -> option SourceSchema)) (resolvable : option (string -> bool)).
Context (readable skill_found : string -> bool) (c : LoadedConfig).
Context (valid : validateReferences (Some known) schema resolvable readable skill_found c = []).

Lemma valid_defaults : Forall (fun fb => fb_Runner fb ∈ runnerIDs c) (lc_DefaultFallbacks c).
Proof.
  unfold validateReferences in valid. do 7 (apply app_nil in valid as [_ valid]). apply app_nil in valid as [H _].
  by eapply check_fallbacks_nil; [|exact H].
Qed.

Lemma valid_default_runner : lc_DefaultRunner c <> "" -> lc_DefaultRunner c ∈ runnerIDs c.
Proof.
  unfold validateReferences in valid. do 2 (apply app_nil in valid as [_ valid]). apply app_nil in valid as [H _].
  unfold check_default_runner in H. apply fault_nil, andb_false_iff in H. rewrite !negb_false_iff, is_empty_true, str_in_true in H. tauto.
Qed.

Lemma valid_overlay name profile id o :
  entry_of name (lc_Profiles c) = Some profile -> entry_of id profile = Some o ->
  (pf_Runner o <> "" -> pf_Runner o ∈ runnerIDs c)
  /\ Forall (fun fb => fb_Runner fb ∈ runnerIDs c) (default [] (pf_Fallbacks o)).
Proof.
  unfold entry_of. destruct (List.find _ (lc_Profiles c)) as [[n p]|] eqn:Ep; [|done]. intros [= <-].
  destruct (List.find _ p) as [[i o']|] eqn:Eo; [|done]. intros [= <-].
  apply List.find_some in Ep as [Hp _]. apply List.find_some in Eo as [Ho _]. apply list_elem_of_In in Hp, Ho.
  unfold validateReferences in valid. do 8 (apply app_nil in valid as [_ valid]). apply app_nil in valid as [H _].
  apply (concat_nil_elem _ (check_profile c (n, p))) in H; [|apply list_elem_of_fmap; eauto].
  apply (concat_nil_elem _ (check_overlay c n (i, o'))) in H; [|apply list_elem_of_fmap; eauto].
  unfold check_overlay in H. apply app_nil in H as [_ H]. apply app_nil in H as [Hr H]. apply app_nil in H as [_ H].
  cbn [snd] in *. split; [|by eapply check_fallbacks_nil; [|exact H]].
  apply fault_nil, andb_false_iff in Hr. rewrite !negb_false_iff, is_empty_true, str_in_true in Hr. tauto.
Qed.

Lemma valid_startable a : a ∈ lc_Agents c -> startable c a.
Proof.
  intros Ha. destruct (valid_agents _ _ _ _ _ _ valid) as [_ Hall]. destruct (Hall a Ha) as (j & seen & Hc).
  unfold check_agent in Hc. apply app_nil in Hc as [_ Hc]. apply app_nil in Hc as [Hm Hc]. do 2 (apply app_nil in Hc as [_ Hc]).
  apply app_nil in Hc as [Hr Hc]. do 2 (apply app_nil in Hc as [_ Hc]). apply app_nil in Hc as [Hf _]. constructor.
  - apply fault_nil in Hm. by apply is_empty_false.
  - unfold runner_of in *. intros Hn. destruct (is_empty (ad_Runner a)) eqn:Er; [by apply valid_default_runner|].
    apply fault_nil in Hr. simpl in Hr. by apply negb_false_iff, str_in_true in Hr.
  - apply check_fallbacks_nil in Hf; [|done]. unfold declared_chain. destruct (ad_Fallbacks a); [apply valid_defaults|done].
Qed.

(** What a profile leaves of an agent can still be started. *)
Lemma overlay_startable name profile o a :
  entry_of name (lc_Profiles c) = Some profile -> entry_of (ad_ID a) profile = Some o -> startable c a -> startable c (apply_overlay o a).
Proof.
  intros Hp Ho [Hm Hr Hf]. destruct (valid_overlay _ _ _ _ Hp Ho) as [Hor Hof]. constructor.
  - simpl. destruct (is_empty (pf_Model o)) eqn:E; [done|by apply is_empty_false].
  - unfold runner_of, apply_overlay in *. cbn. destruct (is_empty (pf_Runner o)) eqn:E; [done|].
    rewrite E. apply is_empty_false in E. auto.
  - unfold declared_chain in *. simpl. destruct (pf_Fallbacks o) as [[|fb l]|]; simpl in *; [apply valid_defaults|done|done].
Qed.

Lemma with_agents_startable l a : startable c a -> startable (with_agents l c) a.
Proof. by intros []. Qed.

(** The agents under a profile. *)
Lemma profile_agents profile :
  let c' := (ApplyProfile profile c).2 in
  c' = with_agents (lc_Agents c') c /\ ad_ID <$> lc_Agents c' = ad_ID <$> lc_Agents c
  /\ forall a, a ∈ lc_Agents c' -> startable c' a.
Proof.
  intros c'. unfold c', ApplyProfile. destruct (is_empty profile).
  { simpl. split_and!; [by destruct c|done|]. intros a Ha. by apply valid_startable. }
  destruct (entry_of profile (lc_Profiles c)) as [p|] eqn:Ep.
  - simpl. split_and!; [done| |].
    + rewrite <- list_fmap_compose. apply list_fmap_ext. intros i a _. simpl. by destruct (entry_of (ad_ID a) p).
    + intros a. rewrite list_elem_of_fmap. intros (b & -> & Hb). apply with_agents_startable.
      assert (startable c b) by (by apply valid_startable).
      destruct (entry_of (ad_ID b) p) as [o|] eqn:Eo; [by eapply overlay_startable|done].
  - simpl. split_and!; [by destruct c|done|]. intros a Ha. by apply valid_startable.
Qed.
End valid_agents.

(** The adapters the checks know are there. *)
Lemma registered_new setupMCP name : name ∈ Registered -> is_Some (New_adapter setupMCP name).
Proof.
  unfold Registered, New_adapter. rewrite elem_of_sort_strings. case_bool_decide as E; [by eexists|].
  intros [?|Hin]%elem_of_cons; [done|]. apply list_elem_of_fmap in Hin as ([k v] & -> & Hv%elem_of_map_to_list).
  unfold New_runner. cbn [fst]. rewrite Hv. by eexists.
Qed.

Section starts.
Context (setupMCP : string -> list MCPServer -> result string (list string)).
Context (c : LoadedConfig) (adapters : forall rc, rc ∈ lc_Runners c -> AdapterName rc ∈ Registered).

(** The runner [rc] serves the agent as [r], or refuses its settings. *)
Definition serves (rc : RunnerConfig) (a : AgentDecl) (answer : result RunnerError Runner) : Prop :=
  rc ∈ lc_Runners c /\ exists r, New_adapter setupMCP (AdapterName rc) = Some r /\ configure_runner setupMCP (agent_settings rc a) r = answer.

(** A runner of the chain of an agent: of the adapter its entry names, configured for
    the agent, for its model. *)
Definition of_entry (a : AgentDecl) (x : Runner * string * string) (fb : FallbackConfig) : Prop :=
  exists rc, rf_ID rc = fb_Runner fb /\ serves rc a (Ok x.1.1) /\ x.1.2 = AdapterName rc /\ x.2 = fb_Model fb.

(** The agent has its runner and its chain. *)
Definition agent_started (c' : LoadedConfig) (d : StartedAgents) (a : AgentDecl) : Prop :=
  (exists rc r, rf_ID rc = runner_of c' a /\ serves rc a (Ok r) /\ ag_agentRunner d !! ad_ID a = Some (AdapterName rc)
     /\ ag_runners d !! ("agent-" +:+ ad_ID a) = Some r)
  /\ Forall2 (of_entry a) (default [] (ag_fallbacks d !! ad_ID a)) (declared_chain c' a).

(** Why starting stops: an agent names no runner, or a runner it names refuses the
    settings of the agent. *)
Definition start_refused (c' : LoadedConfig) (agents : list AgentDecl) (e : StartError) : Prop :=
  exists a, a ∈ agents /\
  match e with
  | ErrNoRunner id => id = ad_ID a /\ runner_of c' a = ""
  | ErrConfigureAgent id why => id = ad_ID a /\ exists rc, rf_ID rc = runner_of c' a /\ serves rc a (Err why)
  | ErrConfigureFallback id fallback why =>
      id = ad_ID a /\ exists fb rc, fb ∈ declared_chain c' a /\ fallback = fb_Runner fb /\ rf_ID rc = fb_Runner fb /\ serves rc a (Err why)
  | _ => False
  end.

(** An id of a runner leads to an adapter. *)
Lemma runner_serves l id a : id ∈ runnerIDs c ->
  exists rc r, runner_map (with_agents l c) !! id = Some rc /\ rf_ID rc = id /\ New_adapter setupMCP (AdapterName rc) = Some r
    /\ serves rc a (configure_runner setupMCP (agent_settings rc a) r).
Proof.
  intros H. destruct (runner_map_found c _ H) as (rc & Hm & Hrc & Hid). destruct (registered_new setupMCP _ (adapters rc Hrc)) as [r Hr].
  exists rc, r. split_and!; [done..|]. split; [done|]. by exists r.
Qed.

Lemma start_fallbacks_cases l a fbs :
  Forall (fun fb => fb_Runner fb ∈ runnerIDs c) fbs ->
  match start_fallbacks setupMCP (with_agents l c) a fbs with
  | Ok chain => Forall2 (of_entry a) chain fbs
  | Err e => exists fb rc why, e = ErrConfigureFallback (ad_ID a) (fb_Runner fb) why /\ fb ∈ fbs /\ rf_ID rc = fb_Runner fb /\ serves rc a (Err why)
  end.
Proof.
  induction 1 as [|fb fbs Hfb _ IH]; cbn [start_fallbacks]; [constructor|].
  destruct (runner_serves l _ a Hfb) as (rc & r & Hm & Hid & Hr & Hs). unfold start_fallback. rewrite Hm, Hr.
  destruct (configure_runner _ _ _) as [r'|why]; rsimpl.
  - destruct (start_fallbacks _ _ _ fbs) as [chain|e]; rsimpl; [by constructor; [exists rc|]|].
    destruct IH as (fb' & rc' & why & -> & Hin & H). exists fb', rc', why. split; [done|]. split; [by right|done].
  - exists fb, rc, why. split; [done|]. split; [by left|done].
Qed.

Lemma start_agent_cases l a d :
  startable (with_agents l c) a -> ag_fallbacks d !! ad_ID a = None ->
  match start_agent setupMCP (with_agents l c) a d with
  | Ok d' =>
      agent_started (with_agents l c) d' a
      /\ (forall b, ad_ID b <> ad_ID a -> (agent_started (with_agents l c) d b -> agent_started (with_agents l c) d' b)
                     /\ ag_fallbacks d' !! ad_ID b = ag_fallbacks d !! ad_ID b)
      /\ ag_sem d' = ag_sem d
  | Err e => start_refused (with_agents l c) [a] e
  end.
Proof.
  intros [Hm Hr Hf] Hd. unfold start_agent. rewrite (proj2 (is_empty_false _) Hm).
  destruct (is_empty (runner_of (with_agents l c) a)) eqn:En.
  { exists a. split; [by left|]. split; [done|]. by apply is_empty_true. }
  apply is_empty_false in En. destruct (runner_serves l _ a (Hr En)) as (rc & r & Hrm & Hid & Hnew & Hs). rewrite Hrm, Hnew.
  destruct (configure_runner _ _ _) as [r'|why]; [|exists a; split; [by left|]; split; [done|]; by exists rc].
  pose proof (start_fallbacks_cases l a _ Hf) as Hc. destruct (start_fallbacks _ _ _ _) as [chain|e]; rsimpl.
  - unfold agent_started. cbn [ag_runners ag_agentRunner ag_fallbacks ag_sem]. split_and!; [| | |done].
    + exists rc, r'. by rewrite !lookup_insert_eq.
    + destruct chain; [by rewrite Hd|]. by rewrite lookup_insert_eq, Hd.
    + intros b Hb. assert ("agent-" +:+ ad_ID a <> "agent-" +:+ ad_ID b) by (intros H; by simplify_eq).
      rewrite !lookup_insert_ne by done. destruct chain; [done|]. by rewrite lookup_insert_ne.
  - destruct Hc as (fb & frc & why & -> & Hin & Hfid & Hfs). exists a. split; [by left|]. split; [done|]. by exists fb, frc.
Qed.

Lemma start_agents_cases l todo d :
  NoDup (ad_ID <$> todo) -> (forall a, a ∈ todo -> startable (with_agents l c) a /\ ag_fallbacks d !! ad_ID a = None) ->
  match start_agents setupMCP (with_agents l c) todo d with
  | Ok d' =>
      ag_sem d' = ag_sem d /\ (forall a, a ∈ todo -> agent_started (with_agents l c) d' a)
      /\ (forall b, ad_ID b ∉ ad_ID <$> todo -> agent_started (with_agents l c) d b -> agent_started (with_agents l c) d' b)
  | Err e => start_refused (with_agents l c) todo e
  end.
Proof.
  revert d. induction todo as [|a todo IH]; intros d Hnd Hall; cbn [start_agents].
  { split_and!; try done. intros a Ha. by apply elem_of_nil in Ha. }
  rewrite fmap_cons in Hnd. apply NoDup_cons in Hnd as [Hnin Hnd].
  assert (forall b, b ∈ todo -> ad_ID b <> ad_ID a) as Hne by (intros b Hb He; apply Hnin; rewrite <- He; by apply list_elem_of_fmap_2).
  destruct (Hall a) as [Hs Hd]; [by left|]. pose proof (start_agent_cases l a d Hs Hd) as Ha.
  destruct (start_agent _ _ a d) as [d1|e]; rsimpl.
  2: { destruct Ha as (b & Hb%list_elem_of_singleton & He). subst b. exists a. split; [by left|done]. }
  destruct Ha as (Ha & Hoth & Hsem). assert (forall b, b ∈ todo -> startable (with_agents l c) b /\ ag_fallbacks d1 !! ad_ID b = None) as Hall1.
  { intros b Hb. destruct (Hall b) as [? Hb']; [by right|]. split; [done|]. by rewrite (proj2 (Hoth b (Hne b Hb))). }
  specialize (IH d1 Hnd Hall1). destruct (start_agents _ _ todo d1) as [d2|e].
  - destruct IH as (Hsem2 & Hin & Hout). split_and!; [congruence| |].
    + intros b [->|Hb]%elem_of_cons; [by apply Hout|by apply Hin].
    + intros b Hb Hst. apply not_elem_of_cons in Hb as [Hba Hbt]. apply Hout; [done|]. by apply Hoth.
  - destruct IH as (b & Hb & He). exists b. split; [by right|done].
Qed.
End starts.

(** ** What a profile makes of a declaration *)

(** The overlay of an agent. *)
Definition overlay_of (c : LoadedConfig) (profile : string) (a : AgentDecl) : option ProfileConfig :=
  if is_empty profile then None else entry_of profile (lc_Profiles c) ≫= entry_of (ad_ID a).

Definition first_named (names : list string) : string := default "" (List.find (fun s => negb (is_empty s)) names).

(** The runner an agent names: in the profile, in its declaration, or by default. *)
Definition named_runner (c : LoadedConfig) (profile : string) (a : AgentDecl) : string :=
  first_named [default "" (pf_Runner <$> overlay_of c profile a); ad_Runner a; lc_DefaultRunner c].

(** Its chain; an empty one is the default one. *)
Definition named_chain (c : LoadedConfig) (profile : string) (a : AgentDecl) : list FallbackConfig :=
  match default (ad_Fallbacks a) (overlay_of c profile a ≫= pf_Fallbacks) with
  | [] => lc_DefaultFallbacks c
  | chain => chain
  end.

Section named.
Context (setupMCP : string -> list MCPServer -> result string (list string)) (c : LoadedConfig) (profile : string).

(** A declared runner that is given the settings of the agent, and what it answers. *)
Definition answers (rc : RunnerConfig) (a : AgentDecl) (answer : result RunnerError Runner) : Prop :=
  rc ∈ lc_Runners c /\ exists r, New_adapter setupMCP (AdapterName rc) = Some r
    /\ configure_runner setupMCP
         (injectRunnerSecurity (runnerConfigWithMCPs (rf_Config rc) (rf_MCPs rc) (ad_MCPs a)) (rf_Sandbox rc) (rf_EnvPassthrough rc)) r = answer.

(** The agent has the runner it names and its chain. *)
Definition has_agent (d : StartedAgents) (a : AgentDecl) : Prop :=
  (exists rc r, rf_ID rc = named_runner c profile a /\ answers rc a (Ok r)
     /\ ag_runners d !! ("agent-" +:+ ad_ID a) = Some r /\ ag_agentRunner d !! ad_ID a = Some (AdapterName rc))
  /\ Forall2 (fun x fb => exists rc, rf_ID rc = fb_Runner fb /\ answers rc a (Ok x.1.1) /\ x.1.2 = AdapterName rc /\ x.2 = fb_Model fb)
       (default [] (ag_fallbacks d !! ad_ID a)) (named_chain c profile a)
  /\ ag_sem d !! ad_ID a = Some (Z.max 1 (ad_MaxWorkers a)).

(** The agent cannot start: it names no runner, or one that refuses its settings. *)
Definition refused_agent (a : AgentDecl) (e : StartError) : Prop :=
  (e = ErrNoRunner (ad_ID a) /\ named_runner c profile a = "")
  \/ (exists rc why, e = ErrConfigureAgent (ad_ID a) why /\ rf_ID rc = named_runner c profile a /\ answers rc a (Err why))
  \/ (exists fb rc why, e = ErrConfigureFallback (ad_ID a) (fb_Runner fb) why /\ fb ∈ named_chain c profile a
       /\ rf_ID rc = fb_Runner fb /\ answers rc a (Err why)).

(** The agent as the profile has it. *)
Definition profiled (a : AgentDecl) : AgentDecl :=
  match overlay_of c profile a with Some o => apply_overlay o a | None => a end.

Lemma profile_of : lc_Agents (ApplyProfile profile c).2 = profiled <$> lc_Agents c.
Proof.
  unfold ApplyProfile, profiled, overlay_of. destruct (is_empty profile); [by rewrite list_fmap_id|].
  destruct (entry_of profile (lc_Profiles c)) as [p|]; [done|]. cbn. by rewrite list_fmap_id.
Qed.

Lemma profiled_id a : ad_ID (profiled a) = ad_ID a /\ ad_MCPs (profiled a) = ad_MCPs a.
Proof. unfold profiled. by destruct (overlay_of c profile a). Qed.

Lemma profiled_runner l a : runner_of (with_agents l c) (profiled a) = named_runner c profile a.
Proof.
  unfold named_runner, runner_of, profiled, first_named. cbn [List.find]. destruct (overlay_of c profile a) as [o|]; cbn.
  - destruct (is_empty (pf_Runner o)) eqn:E; cbn; [|by rewrite E]. destruct (is_empty (ad_Runner a)); cbn; [|done].
    destruct (is_empty (lc_DefaultRunner c)) eqn:Ed; [by apply is_empty_true in Ed|done].
  - destruct (is_empty (ad_Runner a)); cbn; [|done].
    destruct (is_empty (lc_DefaultRunner c)) eqn:Ed; [by apply is_empty_true in Ed|done].
Qed.

Lemma profiled_chain l a : declared_chain (with_agents l c) (profiled a) = named_chain c profile a.
Proof. unfold declared_chain, named_chain, profiled. by destruct (overlay_of c profile a) as [o|]. Qed.

Lemma semaphore_of a : NoDup (ad_ID <$> lc_Agents c) -> a ∈ lc_Agents c -> agent_semaphores c !! ad_ID a = Some (Z.max 1 (ad_MaxWorkers a)).
Proof.
  unfold agent_semaphores. generalize (∅ : gmap string Z). induction (lc_Agents c) as [|b l IH]; intros m Hnd Ha; [by apply elem_of_nil in Ha|].
  rewrite fmap_cons in Hnd. apply NoDup_cons in Hnd as [Hn Hnd]. cbn [foldl]. apply elem_of_cons in Ha as [->|Ha]; [|by apply IH].
  assert (forall (l : list AgentDecl) (m : gmap string Z) id, id ∉ ad_ID <$> l ->
    foldl (fun m a => <[ad_ID a := if (ad_MaxWorkers a <? 1)%Z then 1%Z else ad_MaxWorkers a]> m) m l !! id = m !! id) as Hout.
  { clear. induction l as [|b l IH]; intros m id Hid; [done|]. rewrite fmap_cons in Hid. apply not_elem_of_cons in Hid as [Hb Hl].
    cbn [foldl]. by rewrite IH, lookup_insert_ne. }
  rewrite Hout, lookup_insert_eq by done. f_equal. destruct (Z.ltb_spec (ad_MaxWorkers b) 1); lia.
Qed.
End named.

(** C40: the agents of a configuration without a reference error, under every profile:
    either all of them start, each with the runner it names, in the profile, in its
    declaration or by default, which took the agent's settings, with a chain of
    fallbacks that is, entry by entry, the one of the profile or of its declaration, or
    the default one when that is empty, and with a semaphore of its workers; or starting
    stops, and its error names an agent that names no runner, or one whose settings a
    runner it names, its own or one of its chain, refuses, and says why. A missing
    model, runner or adapter never stops it. *)
Theorem checked_configuration_starts (setupMCP : string -> list MCPServer -> result string (list string))
    (schema : option (string -> option SourceSchema)) (resolvable : option (string -> bool)) (readable skill_found : string -> bool)
    (c : LoadedConfig) (profile : string) :
  validateReferences (Some Registered) schema resolvable readable skill_found c = [] ->
  match load_agents setupMCP profile c with
  | Ok d => forall a, a ∈ lc_Agents c -> has_agent setupMCP c profile d a
  | Err e => exists a, a ∈ lc_Agents c /\ refused_agent setupMCP c profile a e
  end.
Proof.
  intros Hv. set (c' := (ApplyProfile profile c).2). destruct (profile_agents _ _ _ _ _ _ Hv profile) as (Hc & Hids & Hst). fold c' in Hc, Hids, Hst.
  pose proof (profile_of c profile) as Hl. fold c' in Hl. destruct (valid_agents _ _ _ _ _ _ Hv) as [Hnd _].
  unfold load_agents. fold c'.
  pose proof (start_agents_cases setupMCP c (valid_runner _ _ _ _ _ _ Hv) (lc_Agents c') (lc_Agents c')
              {| ag_runners := ∅; ag_agentRunner := ∅; ag_fallbacks := ∅; ag_sem := agent_semaphores c |}) as H.
  rewrite Hids in H. specialize (H Hnd). rewrite <- Hc in H.
  destruct (start_agents setupMCP c' (lc_Agents c') _) as [d|e].
  - destruct H as (Hsem & Hin & _); [intros a Ha; split; [by apply Hst|apply lookup_empty]|].
    intros a Ha. destruct (Hin (profiled c profile a)) as [(rc & r & H1 & H2 & H3 & H4) H5]; [rewrite Hl; by apply list_elem_of_fmap_2|].
    destruct (profiled_id c profile a) as [Ei Em]. rewrite Hc, profiled_runner in H1. rewrite Hc, profiled_chain in H5. rewrite Ei in H3, H4, H5.
    unfold of_entry, serves, agent_settings in *. rewrite Em in *. split; [|split].
    + by exists rc, r.
    + exact H5.
    + rewrite Hsem. by apply semaphore_of.
  - destruct H as (a' & Ha' & He); [intros a Ha; split; [by apply Hst|apply lookup_empty]|].
    rewrite Hl in Ha'. apply list_elem_of_fmap in Ha' as (a & -> & Ha). exists a. split; [done|].
    destruct (profiled_id c profile a) as [Ei Em]. rewrite Hc, profiled_runner, profiled_chain, Ei in He.
    unfold serves, agent_settings in He. rewrite Em in He. destruct e; try done.
    + left. destruct He as [-> He]. done.
    + right. left. destruct He as (-> & rc & He). by exists rc, e.
    + right. right. destruct He as (-> & fb & rc & H1 & -> & H3). by exists fb, rc, e.
Qed.

(** ** A configuration *)

Definition cli_runner (id provider : string) : RunnerConfig := {|
  rf_ID := id; rf_Type := "cli"; rf_Provider := provider; rf_Config := ∅; rf_MCPs := []; rf_Sandbox := None;
  rf_EnvPassthrough := [] |}.

Definition plain_agent (id runner : string) : AgentDecl := {|
  ad_ID := id; ad_Model := "m"; ad_SoulFile := ""; ad_Skills := []; ad_Runner := runner; ad_Fallbacks := [];
  ad_FallbackStrategy := ""; ad_Permissions := [("bash", "deny")]; ad_MCPs := []; ad_MaxWorkers := 2 |}.

Definition sample_overlay (runner : string) (fallbacks : option (list FallbackConfig)) : ProfileConfig :=
  {| pf_Runner := runner; pf_Model := ""; pf_Fallbacks := fallbacks; pf_FallbackStrategy := "" |}.

Definition two_agents (default_runner : string) : LoadedConfig := {|
  lc_Version := "1"; lc_Runners := [cli_runner "a" "claude"; cli_runner "b" "codex"]; lc_DefaultRunner := default_runner;
  lc_EnabledPlugins := []; lc_Sources := []; lc_Agents := [plain_agent "dev" ""; plain_agent "qa" "b"]; lc_Workers := [];
  lc_DefaultFallbacks := [{| fb_Runner := "b"; fb_Model := "x" |}];
  lc_Profiles := [("cheap", [("dev", sample_overlay "b" (Some [])); ("qa", sample_overlay "" (Some [{| fb_Runner := "a"; fb_Model := "" |}]))])];
  lc_Notifications := None; lc_ImproveAgent := "qa"; lc_EffortModels := [("quick", "small")] |}.

(** Servers that are set up without arguments. *)
Definition plain_setup (format : string) (servers : list MCPServer) : result string (list string) := Ok [].

(** Under the profile both agents run on [codex-cli]; one inherits the default chain. *)
Lemma checked_configuration_starts_witness :
  match load_agents plain_setup "cheap" (two_agents "a") with
  | Ok d =>
      (forall a, a ∈ lc_Agents (two_agents "a") -> has_agent plain_setup (two_agents "a") "cheap" d a)
      /\ ag_agentRunner d !! "dev" = Some "codex-cli"
      /\ (fun x => (x.1.2, x.2)) <$> default [] (ag_fallbacks d !! "dev") = [("codex-cli", "x")]
      /\ (fun x => (x.1.2, x.2)) <$> default [] (ag_fallbacks d !! "qa") = [("claude-cli", "")]
  | Err _ => False
  end.
Proof.
  pose proof (checked_configuration_starts plain_setup None None (fun _ => true) (fun _ => true) (two_agents "a") "cheap" eq_refl) as H.
  destruct (load_agents plain_setup "cheap" (two_agents "a")) as [d|e] eqn:E; [|vm_compute in E; discriminate E].
  split; [exact H|]. vm_compute in E. injection E as <-. split; [|split]; reflexivity.
Defined.

(** ** What the checks do not ask for *)

(** An agent without a runner passes although no default is declared, and the daemon
    refuses to start. *)
Lemma runnerless_agent_passes :
  validateReferences (Some Registered) None None (fun _ => true) (fun _ => true) (two_agents "") = []
  /\ load_agents plain_setup "" (two_agents "") = Err (ErrNoRunner "dev").
Proof. split; vm_compute; reflexivity. Qed.

(** So does an agent with a server on a runner with a sandbox, which no runner of the
    command line accepts. *)
Definition boxed_server : LoadedConfig := {|
  lc_Version := "1";
  lc_Runners := [{| rf_ID := "box"; rf_Type := "cli"; rf_Provider := "claude"; rf_Config := ∅; rf_MCPs := [];
    rf_Sandbox := Some {| sx_Image := "apiary-agent"; sx_User := ""; sx_Network := ""; sx_ExtraArgs := [] |}; rf_EnvPassthrough := [] |}];
  lc_DefaultRunner := ""; lc_EnabledPlugins := []; lc_Sources := [];
  lc_Agents := [{| ad_ID := "dev"; ad_Model := "m"; ad_SoulFile := ""; ad_Skills := []; ad_Runner := "box"; ad_Fallbacks := [];
    ad_FallbackStrategy := ""; ad_Permissions := [];
    ad_MCPs := [{| mcp_Name := "gitnexus"; mcp_Command := "npx"; mcp_Args := []; mcp_Env := ∅ |}]; ad_MaxWorkers := 1 |}];
  lc_Workers := []; lc_DefaultFallbacks := []; lc_Profiles := []; lc_Notifications := None; lc_ImproveAgent := ""; lc_EffortModels := [] |}.

Lemma boxed_server_passes :
  validateReferences (Some Registered) None None (fun _ => true) (fun _ => true) boxed_server = []
  /\ load_agents plain_setup "" boxed_server = Err (ErrConfigureAgent "dev" ErrSandboxWithMCPs).
Proof. split; vm_compute; reflexivity. Qed.

(** The agent file that carries the permissions of an agent is written for the adapter
    "opencode" only, of [New] and of a change at run time; no checked runner has it: the
    registered one is "opencode-cli". *)
Lemma permissions_never_written schema resolvable readable skill_found c rc :
  validateReferences (Some Registered) schema resolvable readable skill_found c = [] -> rc ∈ lc_Runners c ->
  AdapterName rc <> "opencode" /\ forall setupMCP, New_adapter setupMCP "opencode" = None.
Proof.
  intros Hv Hrc. pose proof (valid_runner _ _ _ _ _ _ Hv rc Hrc) as Hin. split; [|done]. intros E. rewrite E in Hin.
  apply (registered_new plain_setup) in Hin as [r Hr]. by vm_compute in Hr.
Qed.

(** A profile that sets an empty chain gives an agent the default one: nothing turns
    failover off for one agent. *)
Lemma emptied_chain_inherits c o a :
  pf_Fallbacks o = Some [] -> declared_chain c (apply_overlay o a) = lc_DefaultFallbacks c.
Proof. intros H. unfold declared_chain, apply_overlay. simpl. by rewrite H. Qed.
